(* ===== verification/_CoqProject ===== *)
-Q . S2P
Prelude.v
Externals.v
Failure.v
Config.v
Rate.v
Models.v
Transitions.v
Lifecycle.v
MemoryState.v
LaneLock.v
Workflow.v
Claims.v
Atomic.v
Evolution.v
ClaimFacts.v
Commits.v
Turns.v
StoreSpec.v
StoreTheorems.v
CommitTheorems.v
WorkflowTheorems.v
SubmissionTheorems.v
LaneFacts.v
LaneTheorems.v
AdminTheorems.v
ValueTheorems.v
Json.v
Metrics.v
Registry.v
Submission.v
Handlers.v
Client.v
RegistryFacts.v
SubmissionFacts.v
RegistryTheorems.v
ClientTheorems.v
HandlerFacts.v
Runner.v
RunnerLanes.v
RunnerExec.v
RunnerEngine.v
RunnerFacts.v
RunnerBodies.v
RunnerRequests.v
RunnerDispatch.v
RunnerTurns.v
RunnerTheorems.v
CacheKeys.v
CacheStore.v
CacheStoreSim.v
CacheMemory.v
CacheMemoryFacts.v
CacheContract.v
CacheRuntime.v
CacheHandles.v
CacheTheorems.v
Debounce.v
ChannelTypes.v
Channels.v
ChannelFacts.v
ChannelSessions.v
ChannelInvariant.v
ChannelTheorems.v
Scopes.v
Beacon.v
Credentials.v
Tokens.v
TokenTheorems.v
Login.v
LoginTheorems.v
Emitters.v
Schedules.v
EmitterEngine.v
EmitterTheorems.v
Signals.v
Logging.v
LoggingTheorems.v
Validation.v
Uploads.v
FileStorage.v
