(* ===== verification/Prelude.v ===== *)
(** * A verification of the vyuh task runtime, caches, channels and emitters

    Vyuh is an application framework in Rust whose core is a durable task
    runtime ([src/vyuh/src/tasks/], described in [ARCHITECTURE.md]): a program
    declares handlers and lanes in a registry, clients submit task records to a
    store, runners claim due records lane by lane, execute their handlers, and
    commit the outcomes in batches; outcomes retry, sleep, suspend, fan out into
    joined groups of children, and wake suspended parents. This library
    translates that runtime into Rocq functions (data, configuration, token
    buckets, the in-memory store, registry, client, handlers, runner), and with
    it the caches of a site, its channels, the emitters that feed tasks, signals
    and channels on a schedule, the scopes that guard a channel, the
    credentials that carry an identity, the logging of errors, validation and
    error responses, and uploads with their storage; and proves what makes them
    correct.

    ** The parts and how they interact

    - Foundation. [Prelude] (this file): [result] for [Result], the monad
      [M S E A] for a body that borrows a mutable [S], machine integers with
      their checked and saturating operations, and its two proof rules
      [respects] and [triple]. [Externals]: the third-party functions
      ([serde_json], [uuid], [chrono], [tokio::time::Instant]) as the class
      [Externals] with the laws relied on as [ExternalLaws], and one concrete
      instance. Theorems are proved for every instance.
    - Values. [Failure] ([tasks/failure.rs], [tasks/result.rs] and
      [truncate_utf8] of [tasks/outcome.rs]), [Models] ([tasks/models.rs],
      [tasks/outcome.rs], [tasks/submission.rs], [store/lane.rs],
      [store/contract.rs]), [Transitions] ([store/transitions.rs]), [Json] (the
      JSON values the client compares and hands to handlers).
    - Policy. [Config] ([tasks/config.rs], [tasks/lane_lock.rs]); [Rate] ([tasks/rate.rs] and the bucket step of
      [reserve_permits] in [store/memory/store.rs]).
    - The in-memory store ([store/memory/]). [Lifecycle]: what an outcome, a
      claim or an expiry does to one record. [MemoryState]: the record behind
      the store's mutex, the queries of [queries.rs], and submissions. [LaneLock]: the lane-owner state machine of
      [lane_owner.rs]. [Claims]: claiming an unlocked and a locked lane. [Workflow]:
      the fallible and the infallible half of a turn, from [workflow.rs].
      [Atomic]: one turn with its undo log, and the methods of [impl TaskStore
      for MemoryTaskStore], with [recovery.rs].
    - The client's side. [Registry] ([tasks/registry.rs]: declaration, merge,
      finalization, the identities it resolves), [Submission]
      ([tasks/submission.rs] and the limits of [tasks/config.rs]), [Handlers]
      ([tasks/handler.rs], [handler_error.rs], [tasks/work/], the requests of
      [tasks/flow/]), [Client] ([tasks/client.rs]).
    - The runner ([tasks/runner/]). [Runner]: its data. [RunnerLanes]
      ([lanes.rs]): a lane's queues, buffer and cache of flow snapshots.
      [RunnerExec] ([execution.rs]): what an execution answers. [RunnerEngine]
      ([engine.rs], [database.rs]): claiming, dispatch, heartbeats, flushes,
      answers and shutdown, each handler of the loop a function, and the loop as
      a step relation [runner_step] whose labels are what reaches it.
    - [Metrics] ([tasks/metrics.rs] and [tasks/health.rs]).
    - The memory cache ([src/vyuh/src/cache/]). [CacheKeys]
      ([key.rs], [error.rs]): keys and scopes. [CacheStore] ([memory_store.rs]):
      the bounded store. [CacheMemory] ([memory.rs], [provider.rs]): the memory
      cache, a provider as a record of methods, the caches of a process.
      [CacheRuntime] ([runtime.rs], [config.rs], [metrics.rs]): configuration,
      registry, counters and the operations of handles.
    - Channels ([src/vyuh/src/channels/]). [Debounce] ([utils/debounce.rs]): one
      debouncer, the queue of deadlines, and a scheduler of many streams.
      [ChannelTypes] ([types.rs], [log.rs], [fanout.rs]): keys, cursors, events,
      delivery rules, logs. [Channels] ([runtime.rs], [mod.rs],
      [transports.rs], [routes/subscriber.rs]): policies, publication, fan-out,
      sessions and polling, and the system [channel_step] in which publishing
      threads, the debounce scheduler and transports interleave. [Scopes]
      ([scopes.rs], [auth/identity.rs]): scope rules and identities. [Beacon]
      ([beacon.rs]): channels whose rules are granted by scopes.
    - Authentication ([src/vyuh/src/auth/]). [Credentials] ([location.rs], the
      names of [identity.rs], [runtime/contract.rs], [runtime/indexes.rs]): where
      credentials travel, the CSRF check, and the index of who accepts them.
      [Tokens] ([token.rs], [runtime.rs] and [runtime/]): what a token must be,
      issuing, accepting, refreshing and revoking, keys, and the provider that
      serves a request. Codecs, verifiers and lifecycles are parameters.
      [Login] ([login/], [codec.rs], [runtime/registry.rs], [runtime/build.rs]):
      passwords, second factors, one-time passwords and magic links, their
      sealed states, and the facade that turns a proof into credentials.
    - Emitters and signals. [Emitters] ([emitters.rs]): configuration,
      constructors, the registry, the task schedules it declares and when one is
      due next. [Schedules] ([emitters/scheduled.rs]): the worker of a durable
      schedule, and [schedule_step], many workers over one in-memory store.
      [EmitterEngine] ([EmitterEngine::run]): timers, notifications, handlers
      and their answers as the step function [engine_step]. [Signals]
      ([signals.rs], and the dispatch of [site.rs]).
    - [Logging] ([logging.rs], [logging/mail_admins.rs]): the configuration of log
      rules, and the sink that mails errors to the administrators as the step
      relation [mail_step] of a queue and a worker.
    - Requests and responses. [Validation] ([validation.rs], [validators.rs],
      [errors.rs]): reports of issues by path, their nested JSON, checks, schema
      constraints, and what a failed request is answered. [Uploads]
      ([routes/multipart.rs]): the rules of a form and how it is read.
      [FileStorage] ([file_storage/]): names, paths, and the local backend over
      a tree of files.

    A claim or commit turn of the store ([atomic_operation]) stages the commits
    ([stage_outcomes]), applies the updates, claims lanes
    ([claim_tasks_state], through [claim_owned_state] for a locked lane) and,
    once nothing can fail, appends children, delivers results, installs wait
    sets and reconciles the snapshots it returns; if something failed it
    replays the undo log. Every other operation is one body over the state.

    The runner asks a database for claims and commits, and several requests
    are in flight at once. In [runner_step] an answer is a step of its own, and
    any answer the contract allows may come; the theorems about the runner
    therefore hold with either store, and with a database that fails.

    An emitter's handler makes a value. A task emitter's worker submits it
    through the store's schedule cursor; any other emitter's value is dispatched
    to the signal handlers of its type and then offered to the channels, whose
    policies decide who is given it, at once or through the debouncers.

    ** The abstract specifications

    - [Evolution]: [lifecycle] is the contract of one task (status, cancelled,
      attempts) as a step relation; [evolves] the rest of what a stored row may
      become; [tasks_ok] the invariant of the table (distinct identities,
      exclusive idempotency keys, [record_ok] of every record).
    - [LaneFacts]: [lane_step] is the contract of the lane owner as a step
      relation over phase and hook generation; [lock_ok] the invariant of a row.
    - [StoreSpec]: the store as a transition system. [StoreOp] has a label per
      operation that changes the state, [run_op] is the state it leaves whether
      it succeeds or fails, [run_ops] any sequence of them at any clocks.
    - [StoreTheorems]: [takes], which rows a claim is entitled to; [CommitTheorems]:
      [stale], when a commit is out of date, and [supersedes], which commits an
      accepted one settles. None of them mentions the code's own tests.
    - [Rate]: the bound a token bucket enforces over any call sequence;
      [WorkflowTheorems]: [delivered] and [join_text] as references for delivery
      and aggregation.
    - [SubmissionFacts]: [TaskStoreLaws], what a client relies on of any [TaskStore],
      which the in-memory store discharges.
    - [RunnerFacts]: who holds what. [accounts_with] says of a runner that
      each permit is free or held by exactly one live invocation, request or
      buffered outcome, and that counters, registries and queues agree;
      [RunnerTurns]: that silence of the database has a deadline.
    - [CacheStore]: [ideal_call], the bounded store as a list in eviction
      order. [CacheMemoryFacts]: [cache_spec], the memory cache as a plain map of
      expiring entries. [CacheContract]: [keeps_to], what handles need of a
      provider, discharged by the memory cache. [CacheHandles]: [Believed], what
      an application may expect to read after its calls.
    - [Debounce]: [timer_run], one timer per stream with no queue at all.
      [ChannelInvariant]: what every reachable channel system keeps.
      [ChannelSessions]: the ghost history of what each channel appended.
    - [Schedules]: [schedule_ok], which ties workers to the cursor in the store;
      [CronLaws]: a schedule's next occurrence is the least later one it names.

    ** What the theorems show

    - [StoreTheorems]: the invariant of every reachable state; the store refines
      the task lifecycle; a failed operation changes nothing; exactly which rows a
      claim takes, said of the rows alone.
    - [CommitTheorems]: accepted commits have exactly the outcome's effect; a batch
      rejects exactly its stale commits, a commit once accepted is rejected ever
      after, and batches of such commits change nothing; cancellation wins.
    - [WorkflowTheorems]: delivery to a parent, the atomicity of a group, and
      the aggregated input of a join against its reference encoding.
    - [SubmissionTheorems]: receipts, idempotency keys, occurrences that are
      stored at most once, direct admission.
    - [LaneTheorems]: the lock rows' invariant, the refinement of the lane-owner
      state machine, exclusion by a live lease, and that a lane's work goes to
      its owner.
    - [AdminTheorems]: heartbeats, returned claims, start-up, reassignment,
      resumption, listing, recovery.
    - [RegistryTheorems]: the typed index of every registry a program can build
      is exact, and a finalized registry gives the store its configuration.
    - [ClientTheorems]: the writes a client or a flow builds are writes the
      store admits, and what a submission does to the store.
    - [HandlerFacts]: every record is answered once and in order, and a
      batch's answers reach the records they are for.
    - [RunnerTheorems]: over every reachable state of a runner, permits are
      conserved, a task runs once, uncommitted outcomes are counted, claims are
      returned last and a silent database ends the runner; one step of the
      queues and the flow cache, exactly.
    - [CacheTheorems]: keys are read back and scopes separate providers; the
      bounded store refines the ideal queue; the memory cache refines the map of
      expiring entries and stays within its limits; a read returns
      what was written through the same name, namespaces and key; batch reads
      keep the order of the request; the caches of a site are its own.
    - [Debounce]: the debouncers and their queue refine one timer per stream.
      [ChannelTheorems]: only what the policy in force accepts is retained or
      received, a session sees exactly what its channel appended, the type
      index is exact and every bound is kept. [Scopes], [Beacon]: binary
      searches over an identity's scopes are exact, and a beacon opens exactly
      the rules an identity is granted.
    - [Credentials], [TokenTheorems]: no two providers of a site read one selector
      for one audience; a request reaches the one provider it has a credential
      for; what an accepted credential proves; what is issued is accepted until
      it expires; a refresh keeps the grant and is done once.
    - [LoginTheorems]: one-time passwords are uniform; sealed states survive a
      change of the site's secret; a login completed with a second factor or a
      code was begun for that identity and target, in time, and completes once.
    - [Emitters], [Schedules], [EmitterTheorems], [Signals]: the registry is
      keyed and its task schedules resolve, with texts that mean what the
      workers do; one slot of a schedule gives one task, and a refused payload
      is kept; handlers stay within their permits, timers fire when they are
      due, notifications are debounced; a value reaches each handler of its
      type once.
    - [LoggingTheorems]: errors are grouped and each group is told of once, and
      twice a throttle's limit bounds what is sent in its window.
    - [Validation]: the nested form of a report is complete where its paths
      allow it. [Uploads]: an accepted form obeys its rules and the limits, and
      is the parts of the request. [FileStorage]: an upload is read back from
      below the root, deleted ones are gone, and generated names are new.
    - [Config], [Rate], [ValueTheorems], [Metrics]: lane
      resolution, the retry schedule, the rate bound and wake hint, encodings
      and limits, counters that never leave their vectors.

    [ClaimFacts], [Commits]
    and [Turns] hold the lemmas the store's theorems
    share: that each body keeps a turn well formed, and that the undo log
    replays. [RegistryFacts], [SubmissionFacts] and [HandlerFacts] do the same
    for the client's side, and [RunnerFacts], [RunnerBodies],
    [RunnerRequests], [RunnerDispatch] and [RunnerTurns] for
    the runner: one lemma per handler of the loop, that it keeps the accounts. [ChannelFacts]
    holds one lemma per operation of the channels.
    The end of [StoreSpec] and the first part of [RegistryTheorems] are a small deployment on which the theorems with
    hypotheses are instantiated.

    Some theorems record behaviour that differs from the durable store or from
    the code's own description:
    [LaneTheorems.failed_idle_hook_claims_without_owner] (after a failed idle
    hook the memory store hands out work of a lane without an owner),
    [StoreTheorems.exhausted_row_beyond_window_is_claimed] (the failing pass
    covers only a claim's window, so a record may run past its attempts),
    [CacheTheorems.compaction_forgets_recency] (rebuilding the queue of an LRU
    cache loses the order of use) and
    [CacheTheorems.counters_ignore_the_value_limit] (integers are stored whatever
    the largest value is),
    [ChannelTheorems.reconnect_can_miss_a_retained_event] (two publishers may
    append in the other order than they drew their ids),
    [ChannelTheorems.second_session_discards_pending_debounce] and
    [ChannelTheorems.full_debounce_queue_stops_immediate_delivery],
    [Schedules.failed_producer_repeats_a_slot] (the retry of a producer takes
    the time of the retry as its occurrence),
    [EmitterTheorems.a_notification_postpones_one_timer],
    [EmitterTheorems.exhausted_cron_is_due_at_once],
    [TokenTheorems.schemes_of_a_header_exclude_each_other] (two schemes of one
    header are accepted at start-up, and then no request with the header is),
    [TokenTheorems.long_subject_is_locked_out],
    [TokenTheorems.csrf_reads_other_cookies],
    [LoginTheorems.large_mfa_challenges_never_complete] (what is sealed may be
    longer than what a response may carry),
    [LoginTheorems.suppressed_links_are_exposed],
    [LoggingTheorems.messages_are_cut_like_fields],
    [LoggingTheorems.default_throttle_lets_bursts_through],
    [LoggingTheorems.case_variants_share_a_variable],
    [Validation.later_items_erase_earlier_ones],
    [Validation.auth_errors_lose_their_status],
    [Uploads.allow_unknown_is_ignored] and
    [Uploads.DemoUploads.required_files_may_be_empty].

    ** How code is represented

    Times are nanoseconds; the clock an operation reads is its argument [now]
    ([reassign_lane] reads it once per row, a turn of the runner several times and
    some writes of the memory cache twice, here once). An [Instant] is a number of nanoseconds with no upper
    end, except where the code checks an addition. [usize] is 64 bits.
    A [String] is its bytes. A [HashMap] is a [gmap]; where the code walks one
    in the map's own order the walk is [map_to_list], or takes the order as an
    argument. [tasks] is a list in insertion order and an index into it a
    [nat]. A body under the mutex is a function of the state it guards;
    [recover_outputs] releases the mutex between two sections, so it takes what
    other operations did in between as an argument. [Uuid::now_v7] draws from a
    counter kept in the state, so that fencing tokens are never reused. A lane
    hook, a registered callable in the code, is its presence in the lane's
    policy, and a registered handler is a function from its inputs to its
    answer.

    A semaphore is the count of its free permits and an owned permit a flag of
    its holder, so a dropped permit is a holder that goes away. A spawned task,
    a pending hook and a database operation are entries of the runner's state,
    and their completion is a label of [runner_step], in any order. A handler that
    panics is a flag of the step that ends its execution. The metrics the runner
    and the handles of caches record are kept by [noted] and [noted_record],
    which leave out the panic of an index out of range: there is none
    ([Metrics.recording_never_panics],
    [CacheHandles.cache_recording_never_panics]). A string's capacity, which the
    cache of snapshots counts, is a function of the string.

    An [mpsc] channel is a list with its capacity, and flags for a dropped end;
    a mutex section is one step, and what a task does between two sections is a
    step of its own. A [BinaryHeap] is a list of which a step names an earliest
    entry, so that nothing depends on how equal deadlines are ordered. The
    [cron] crate is the class [CronExternals], with the laws of [CronLaws]; a
    step of the emitter engine reads [tokio]'s clock and the wall clock, and
    that the two advance together is a hypothesis of the theorem that needs it.
    A signal handler is a function over the world it acts on. Ciphers, digests
    and the JSON of a login state are [LoginExternals], with the laws of
    [LoginLaws]; that a token nobody sealed does not open is a premise of the
    histories of [LoginTheorems]. A part of a form is the list of its chunks, each
    of which may be an error; a path is its text, and the file system a map from
    locations to files and directories.

    Recursion is structural but for these loops with fuel: [retry_delay]
    doubles at most once per attempt and has that many steps
    ([retry_delay_closed_form] shows the result never depends on more);
    [failure] shortens its message by at least a byte each turn and has one
    more step than the message has bytes ([failure_encoding_bounded] shows it
    ends); [admit_loop] takes a permit of the database each turn and has one
    step more than there are; the scheduling turn has the code's own
    [SCHEDULER_BUDGET]; [random_loop] takes the random blocks it may draw as its
    argument ([otp_codes_are_uniform] says when they are enough). The eviction loop of the cache pops a marker each
    turn and has one step more than there are; [memory_store_refines_queue]
    shows that it ends within the limits.

    ** What is not modelled

    The durable store ([store/database/]), which implements the store's
    contract in SQL; the replay inside a flow ([tasks/flow/], over a third-party
    workflow engine), of which the requests and the state that is persisted are
    modelled; the text of log lines and of rendered metrics; callables and
    their extraction, which reach the model as functions; the tasks that forward
    a channel session to SSE and WebSocket connections, and the PostgreSQL
    listener and fan-out publisher; the operation documents of emitters and
    signals, and [schedulers.rs], which nothing uses; and the rest of the
    framework: the wire codecs of tokens, federated logins, OAuth, routing, commands, console, templates
    and macros; validators over regular expressions or third-party parsers. The plan, in this order: the closed system of a runner over the
    in-memory store; the durable store's transition rules against the same
    [lifecycle]; the site's bundles and services. *)
From stdpp Require Export base tactics option list gmap strings fin_maps sorting pretty.
From Stdlib Require Export ZArith Lia.

#[global] Open Scope Z_scope.

(** ** Results and the state-with-failure monad

    [result] is Rust's [Result]. [M S E A] is a body that borrows a mutable [S]:
    what it wrote before an early return ([?]) stays written. *)

Inductive result (E A : Type) : Type :=
  | Ok (a : A)
  | Err (e : E).
Arguments Ok {E A} a.
Arguments Err {E A} e.

Definition is_ok {E A} (r : result E A) : bool :=
  match r with Ok _ => true | Err _ => false end.

Definition ok_or {E A} (o : option A) (e : E) : result E A :=
  match o with Some a => Ok a | None => Err e end.

Definition result_bind {E A B} (r : result E A) (k : A → result E B) : result E B :=
  match r with Ok a => k a | Err e => Err e end.

Definition M (S E A : Type) : Type := S → result E A * S.

Definition retM {S E A} (a : A) : M S E A := λ s, (Ok a, s).
Definition bindM {S E A B} (m : M S E A) (k : A → M S E B) : M S E B :=
  λ s, match m s with
       | (Ok a, s') => k a s'
       | (Err e, s') => (Err e, s')
       end.
Definition throwM {S E A} (e : E) : M S E A := λ s, (Err e, s).
Definition getM {S E} : M S E S := λ s, (Ok s, s).
Definition getsM {S E A} (f : S → A) : M S E A := λ s, (Ok (f s), s).
Definition modifyM {S E} (f : S → S) : M S E unit := λ s, (Ok tt, f s).
Definition liftR {S E A} (r : result E A) : M S E A := λ s, (r, s).

(** Runs a body that borrows one part of the state. *)
Definition zoomM {S T E A} (get : S → T) (put : T → S → S) (m : M T E A) : M S E A :=
  λ s, let '(r, t) := m (get s) in (r, put t s).

Fixpoint for_eachM {S E A} (l : list A) (f : A → M S E unit) : M S E unit :=
  match l with
  | [] => retM tt
  | a :: l => bindM (f a) (λ _, for_eachM l f)
  end.

Fixpoint mapM_M {S E A B} (l : list A) (f : A → M S E B) : M S E (list B) :=
  match l with
  | [] => retM []
  | a :: l => bindM (f a) (λ b, bindM (mapM_M l f) (λ bs, retM (b :: bs)))
  end.

Declare Scope vyuh_scope.
Delimit Scope vyuh_scope with vyuh.
#[global] Open Scope vyuh_scope.

Notation "'let?' x ':=' r 'in' k" := (result_bind r (λ x, k))
  (at level 10, x name, r at level 100, k at level 200) : vyuh_scope.
Notation "'do!' x ':=' m 'in' k" := (bindM m (λ x, k))
  (at level 10, x name, m at level 100, k at level 200) : vyuh_scope.
Notation "m ';!' k" := (bindM m (λ _, k))
  (at level 199, right associativity) : vyuh_scope.

(** ** What every run of a body does to the state it borrows *)

Section Respects.
Context {S E : Type} (R : relation S).

(** Whatever the outcome, the state after the body is [R]-related to the one before. *)
Definition respects {A} (m : M S E A) : Prop := ∀ s, R s (m s).2.

Context `{!PreOrder R}.

Lemma respects_ret {A} (a : A) : respects (retM a).
Proof. intros s. simpl. reflexivity. Qed.
Lemma respects_throw {A} (e : E) : respects (A:=A) (throwM e).
Proof. intros s. simpl. reflexivity. Qed.
Lemma respects_get : respects getM.
Proof. intros s. simpl. reflexivity. Qed.
Lemma respects_gets {A} (f : S → A) : respects (getsM f).
Proof. intros s. simpl. reflexivity. Qed.
Lemma respects_lift {A} (r : result E A) : respects (liftR r).
Proof. intros s. simpl. reflexivity. Qed.

Lemma respects_bind {A B} (m : M S E A) (k : A → M S E B) :
  respects m → (∀ a, respects (k a)) → respects (bindM m k).
Proof.
  intros Hm Hk s. unfold bindM. specialize (Hm s).
  destruct (m s) as [[a|e] s']; simpl in *; [|done].
  etrans; [exact Hm|apply Hk].
Qed.

Lemma respects_for_each {A} (l : list A) (f : A → M S E unit) :
  (∀ a, respects (f a)) → respects (for_eachM l f).
Proof.
  intros Hf. induction l as [|a l IH]; simpl; [apply respects_ret|].
  apply respects_bind; auto.
Qed.

Lemma respects_mapM {A B} (l : list A) (f : A → M S E B) :
  (∀ a, respects (f a)) → respects (mapM_M l f).
Proof.
  intros Hf. induction l as [|a l IH]; simpl; [apply respects_ret|].
  apply respects_bind; [auto|intros b].
  apply respects_bind; [auto|intros bs]. apply respects_ret.
Qed.
End Respects.

Create HintDb respects discriminated.
#[export] Hint Resolve respects_ret respects_throw respects_get respects_gets
  respects_lift : respects.

(** Walks a body down to its state-changing leaves. *)
Ltac respects_step :=
  lazymatch goal with
  | |- respects _ (bindM _ _) => apply respects_bind; [typeclasses eauto| |intros ?]
  | |- respects _ (for_eachM _ _) => apply respects_for_each; [typeclasses eauto|intros ?]
  | |- respects _ (mapM_M _ _) => apply respects_mapM; [typeclasses eauto|intros ?]
  | |- respects _ (retM _) => apply respects_ret; typeclasses eauto
  | |- respects _ (throwM _) => apply respects_throw; typeclasses eauto
  | |- respects _ getM => apply respects_get; typeclasses eauto
  | |- respects _ (getsM _) => apply respects_gets; typeclasses eauto
  | |- respects _ (liftR _) => apply respects_lift; typeclasses eauto
  | |- respects _ (match ?x with _ => _ end) => destruct x
  | |- respects _ (let '(_, _) := ?x in _) => destruct x
  end.
Ltac respects_auto := repeat first [ assumption | respects_step | solve [eauto with respects nocore] ].

(** ** What a body establishes when it returns *)

Section Triples.
Context {S E : Type}.

(** Started in a state that satisfies [P], a run that returns [a] ends in one where [Q a] holds. *)
Definition triple {A} (P : S → Prop) (m : M S E A) (Q : A → S → Prop) : Prop :=
  ∀ s a s', P s → m s = (Ok a, s') → Q a s'.

Lemma triple_conseq {A} (P P' : S → Prop) (m : M S E A) (Q Q' : A → S → Prop) :
  triple P m Q → (∀ s, P' s → P s) → (∀ a s, Q a s → Q' a s) → triple P' m Q'.
Proof. unfold triple. eauto. Qed.

Lemma triple_bind {A B} (P : S → Prop) (R : A → S → Prop) (m : M S E A) (k : A → M S E B)
    (Q : B → S → Prop) :
  triple P m R → (∀ a, triple (R a) (k a) Q) → triple P (bindM m k) Q.
Proof.
  intros Hm Hk s b s' HP H. unfold bindM in H.
  destruct (m s) as [[a|e] t] eqn:Hms; [|done]. eapply Hk; [|exact H]. by eapply Hm.
Qed.

(** A state the continuation has read satisfies what held of it. *)
Lemma triple_gets {A B} (P : S → Prop) (f : S → A) (k : A → M S E B) (Q : B → S → Prop) :
  (∀ s0, P s0 → triple (λ s, s = s0) (k (f s0)) Q) → triple P (bindM (getsM f) k) Q.
Proof. intros Hk s b s' HP H. by eapply (Hk s HP). Qed.

Lemma triple_ret {A} (P : S → Prop) (a : A) (Q : A → S → Prop) :
  (∀ s, P s → Q a s) → triple P (retM a) Q.
Proof. intros HQ s b s' HP [= <- <-]. auto. Qed.

Lemma triple_lift {A} (P : S → Prop) (r : result E A) (Q : A → S → Prop) :
  (∀ a s, r = Ok a → P s → Q a s) → triple P (liftR r) Q.
Proof. intros HQ s b s' HP [= Hr <-]. auto. Qed.

Lemma triple_modify (P : S → Prop) (f : S → S) (Q : unit → S → Prop) :
  (∀ s, P s → Q tt (f s)) → triple P (modifyM f) Q.
Proof. intros HQ s b s' HP [= <- <-]. auto. Qed.

Lemma triple_for_each {A} (P : S → Prop) (l : list A) (f : A → M S E unit) :
  (∀ a, a ∈ l → triple P (f a) (λ _, P)) → triple P (for_eachM l f) (λ _, P).
Proof.
  induction l as [|a l IH]; intros Hf; simpl; [by apply triple_ret|].
  eapply triple_bind; [apply Hf; by left|]. intros u. apply IH. intros b Hb. apply Hf. by right.
Qed.

Lemma triple_mapM {A B} (P : S → Prop) (R : B → Prop) (l : list A) (f : A → M S E B) :
  (∀ a, a ∈ l → triple P (f a) (λ b s, P s ∧ R b)) →
  triple P (mapM_M l f) (λ bs s, P s ∧ Forall R bs).
Proof.
  induction l as [|a l IH]; intros Hf; simpl; [by apply triple_ret|].
  eapply triple_bind; [apply Hf; by left|]. intros b.
  eapply (triple_bind _ (λ bs s, P s ∧ Forall R (b :: bs))).
  - intros s bs s' [HP HR] H. eapply IH in H as [? ?]; [by auto| |done].
    intros c Hc. apply Hf. by right.
  - intros bs. by apply triple_ret.
Qed.
End Triples.

(** Splits a run of a body that returned into the runs of its parts. *)
Lemma bindM_ok {S E A B} (m : M S E A) (k : A → M S E B) s b s' :
  bindM m k s = (Ok b, s') → ∃ a t, m s = (Ok a, t) ∧ k a t = (Ok b, s').
Proof. unfold bindM. destruct (m s) as [[a|e] t]; [eauto|done]. Qed.

Lemma bindM_err {S E A B} (m : M S E A) (k : A → M S E B) s e s' :
  bindM m k s = (Err e, s') →
  m s = (Err e, s') ∨ ∃ a t, m s = (Ok a, t) ∧ k a t = (Err e, s').
Proof. unfold bindM. destruct (m s) as [[a|e'] t]; naive_solver. Qed.

(** The bodies that read or write the whole state compute away. *)
Section Run.
Context {S E A B : Type} (s : S).
Lemma bindM_get (k : S → M S E B) : bindM getM k s = k s s.
Proof. done. Qed.
Lemma bindM_gets (f : S → A) (k : A → M S E B) : bindM (getsM f) k s = k (f s) s.
Proof. done. Qed.
Lemma bindM_modify (f : S → S) (k : unit → M S E B) : bindM (modifyM f) k s = k tt (f s).
Proof. done. Qed.
Lemma bindM_ret (a : A) (k : A → M S E B) : bindM (retM a) k s = k a s.
Proof. done. Qed.
Lemma bindM_throw (e : E) (k : A → M S E B) : bindM (throwM e) k s = (Err e, s).
Proof. done. Qed.
Lemma bindM_liftR (r : result E A) (k : A → M S E B) :
  bindM (liftR r) k s = match r with Ok a => k a s | Err e => (Err e, s) end.
Proof. by destruct r. Qed.
Lemma bindM_assoc {C} (m : M S E A) (k : A → M S E B) (h : B → M S E C) :
  bindM (bindM m k) h s = bindM m (λ a, bindM (k a) h) s.
Proof. unfold bindM. by destruct (m s) as [[a|e] t]. Qed.
End Run.

Lemma bindM_liftR_ok {S E A B} (r : result E A) (k : A → M S E B) s b s' :
  bindM (liftR r) k s = (Ok b, s') → ∃ a, r = Ok a ∧ k a s = (Ok b, s').
Proof. destruct r; naive_solver. Qed.

Ltac run_simpl :=
  repeat (first [ rewrite bindM_assoc | rewrite bindM_get | rewrite bindM_gets
                | rewrite bindM_modify | rewrite bindM_ret | rewrite bindM_throw ]; cbv beta).
Ltac run_simpl_in H :=
  repeat (first [ rewrite bindM_assoc in H | rewrite bindM_get in H | rewrite bindM_gets in H
                | rewrite bindM_modify in H | rewrite bindM_ret in H | rewrite bindM_throw in H ];
          cbv beta in H).

Ltac run_ok :=
  repeat match goal with
  | H : bindM _ _ _ = (Ok _, _) |- _ => progress (run_simpl_in H)
  | H : bindM (liftR _) _ _ = (Ok _, _) |- _ =>
      let a := fresh "a" in let E := fresh "E" in
      apply bindM_liftR_ok in H as (a & E & H)
  | H : bindM _ _ _ = (Ok _, _) |- _ =>
      let a := fresh "a" in let t := fresh "t" in let E := fresh "E" in
      apply bindM_ok in H as (a & t & E & H)
  | H : retM _ _ = (Ok _, _) |- _ => unfold retM in H; simplify_eq
  | H : getM _ = (Ok _, _) |- _ => unfold getM in H; simplify_eq
  | H : getsM _ _ = (Ok _, _) |- _ => unfold getsM in H; simplify_eq
  | H : modifyM _ _ = (Ok _, _) |- _ => unfold modifyM in H; simplify_eq
  | H : throwM _ _ = (Ok _, _) |- _ => unfold throwM in H; discriminate H
  end.

Lemma result_bind_ok {E A B} (r : result E A) (k : A → result E B) b :
  result_bind r k = Ok b → ∃ a, r = Ok a ∧ k a = Ok b.
Proof. destruct r; naive_solver. Qed.

Lemma ok_or_ok {E A} (o : option A) (e : E) a : ok_or o e = Ok a ↔ o = Some a.
Proof. destruct o; naive_solver. Qed.

(** ** Machine integers

    A Rust integer is its value in [Z]; every operation that can leave the
    type's range says what it does there. [usize] is 64 bits wide. *)

Definition I32_MAX : Z := 2147483647.
Definition U32_MAX : Z := 4294967295.
Definition I64_MAX : Z := 9223372036854775807.
Definition I64_MIN : Z := -9223372036854775808.
Definition U64_MAX : Z := 18446744073709551615.
Definition USIZE_MAX : Z := 18446744073709551615.
Definition I128_MAX : Z := 170141183460469231731687303715884105727.
Definition U128_MAX : Z := 340282366920938463463374607431768211455.

Definition i32_checked_add (a b : Z) : option Z :=
  if (a + b <=? I32_MAX) && (-2147483648 <=? a + b) then Some (a + b) else None.
Definition i64_checked_add (a b : Z) : option Z :=
  if (a + b <=? I64_MAX) && (I64_MIN <=? a + b) then Some (a + b) else None.
Definition i64_saturating (z : Z) : Z := Z.max I64_MIN (Z.min I64_MAX z).
Definition i128_saturating (z : Z) : Z := Z.max (- I128_MAX - 1) (Z.min I128_MAX z).
Definition u128_saturating (z : Z) : Z := Z.max 0 (Z.min U128_MAX z).
Definition usize_saturating (z : Z) : Z := Z.max 0 (Z.min USIZE_MAX z).
Definition usize_checked_add (a b : Z) : option Z :=
  if a + b <=? USIZE_MAX then Some (a + b) else None.
(** [u32::try_from] of a signed value. *)
Definition u32_try_from (z : Z) : option Z :=
  if (0 <=? z) && (z <=? U32_MAX) then Some z else None.
Definition i64_try_from (z : Z) : option Z :=
  if (I64_MIN <=? z) && (z <=? I64_MAX) then Some z else None.
Definition u64_try_from (z : Z) : option Z :=
  if (0 <=? z) && (z <=? U64_MAX) then Some z else None.

Definition usize_try_from (z : Z) : option Z :=
  if (0 <=? z) && (z <=? USIZE_MAX) then Some z else None.

(** [u64::wrapping_add], which [AtomicU64::fetch_add] is too. *)
Definition u64_wrapping_add (a b : Z) : Z := (a + b) `mod` (U64_MAX + 1).

Definition zlen {A} (l : list A) : Z := Z.of_nat (length l).
Definition str_len (s : string) : Z := Z.of_nat (String.length s).

Lemma zlen_nonneg {A} (l : list A) : 0 ≤ zlen l.
Proof. unfold zlen. lia. Qed.
Lemma zlen_app {A} (l k : list A) : zlen (l ++ k) = zlen l + zlen k.
Proof. unfold zlen. rewrite length_app. lia. Qed.
Lemma string_length_app (a b : string) :
  String.length (a +:+ b) = (String.length a + String.length b)%nat.
Proof.
  induction a as [|c a IH]; [done|].
  change (String c a +:+ b) with (String c (a +:+ b)). simpl. by rewrite IH.
Qed.
Lemma str_len_nonneg (s : string) : 0 ≤ str_len s.
Proof. unfold str_len. lia. Qed.
Lemma str_len_app (a b : string) : str_len (a +:+ b) = str_len a + str_len b.
Proof. unfold str_len. rewrite string_length_app. lia. Qed.

Lemma string_app_cons c (a b : string) : String c a +:+ b = String c (a +:+ b).
Proof. done. Qed.

Lemma string_app_nil_r (a : string) : a +:+ EmptyString = a.
Proof. induction a as [|c a IH]; [done|]. by rewrite string_app_cons, IH. Qed.

Lemma string_app_assoc (a b c : string) : a +:+ (b +:+ c) = (a +:+ b) +:+ c.
Proof. induction a as [|x a IH]; [done|]. by rewrite !string_app_cons, IH. Qed.

Lemma string_app_inv_length (a b c d : string) :
  String.length a = String.length b → a +:+ c = b +:+ d → a = b ∧ c = d.
Proof.
  revert b. induction a as [|x a IH]; intros [|y b]; simpl; [done..|].
  intros [= Hlen]. rewrite !string_app_cons. intros [= -> H]. apply IH in H as [-> ->]; done.
Qed.

Lemma i32_checked_add_Some a b c :
  i32_checked_add a b = Some c ↔ c = a + b ∧ -2147483648 ≤ a + b ≤ I32_MAX.
Proof. unfold i32_checked_add. case_match; naive_solver lia. Qed.
