(* ===== verification/Externals.v ===== *)
(** * Third-party functions the task runtime calls

    The crates [serde_json], [uuid] and [chrono] are not part of the
    repository: what the runtime calls of them is a field of [Externals], and
    what it relies on of their documented behaviour is a law of
    [ExternalLaws]. [DemoExternals] is a concrete instance that satisfies
    every law, so that witnesses can run the model. Times are nanoseconds:
    [DateTime] since the Unix epoch, [Duration] the non-negative
    [std::time::Duration], [TimeDelta] the signed [chrono::Duration]; the
    difference of two times is exact. A [uuid::Uuid] is its 128-bit value. *)
From S2P Require Import Prelude.

Abbreviation Uuid := N (only parsing).
Abbreviation DateTime := Z (only parsing).
Abbreviation Duration := Z (only parsing).
Abbreviation TimeDelta := Z (only parsing).
(** The [Display] text of a [serde_json::Error]. *)
Abbreviation JsonError := string (only parsing).

Definition from_millis (ms : Z) : Duration := ms * 1000000.
Definition from_secs (s : Z) : Duration := s * 1000000000.
Definition from_micros (us : Z) : Duration := us * 1000.
(** [std::time::Duration::MAX]: [u64::MAX] seconds and 999,999,999 nanoseconds. *)
Definition DURATION_MAX : Duration := U64_MAX * 1000000000 + 999999999.
Definition duration_saturating_mul (d : Duration) (n : Z) : Duration :=
  Z.min DURATION_MAX (d * n).
Definition duration_saturating_sub (a b : Duration) : Duration := Z.max 0 (a - b).
Definition as_micros (d : Duration) : Z := d / 1000.
Definition as_nanos (d : Duration) : Z := d.
Definition as_millis (d : Duration) : Z := d / 1000000.

Definition is_uuid (u : Uuid) : Prop := (u < 2 ^ 128)%N.

Class Externals := {
  (** [serde_json::from_str::<&RawValue>(s)]: [None] when it accepts. *)
  raw_value_error : string → option JsonError;
  (** [serde_json::from_str::<Result<&RawValue, TaskFailure>>(s)]. *)
  resume_error : string → option JsonError;
  (** [serde_json::Value::String(s).to_string()]. *)
  json_string : string → string;
  (** [Uuid]'s [Display]. *)
  uuid_display : Uuid → string;
  (** The [n]-th value [Uuid::now_v7()] returns in this process. *)
  uuid_now_v7 : nat → Uuid;
  (** [DateTime<Utc>::checked_add_signed]. *)
  checked_add_signed : DateTime → TimeDelta → option DateTime;
  (** [DateTime<Utc>::checked_sub_signed]. *)
  checked_sub_signed : DateTime → TimeDelta → option DateTime;
  (** [chrono::Duration::from_std(d).ok()]. *)
  td_from_std : Duration → option TimeDelta;
  (** [chrono::Duration::to_std(d).ok()]. *)
  td_to_std : TimeDelta → option Duration;
  (** [chrono::Duration::num_microseconds]. *)
  td_num_microseconds : TimeDelta → option Z;
  (** [str::to_lowercase], whose Unicode tables are data. *)
  to_lowercase : string → string;
  (** [tokio::time::Instant::checked_add]; an [Instant] is nanoseconds of a monotonic clock. *)
  instant_checked_add : Z → Duration → option Z;
  (** [tokio::sync::Semaphore::MAX_PERMITS]. *)
  semaphore_max_permits : Z;
}.

Class ExternalLaws (X : Externals) : Prop := {
  (** JSON escapes a byte to at most six, between two quotes. *)
  json_string_len s : str_len (json_string s) ≤ 6 * str_len s + 2;
  (** The hyphenated form has 36 characters and determines the value. *)
  uuid_display_len u : str_len (uuid_display u) = 36;
  uuid_display_inj u v : is_uuid u → is_uuid v → uuid_display u = uuid_display v → u = v;
  (** [now_v7] returns 128-bit values, never the same one twice in a process. *)
  uuid_now_v7_uuid n : is_uuid (uuid_now_v7 n);
  uuid_now_v7_fresh m n :
    Z.of_nat m ≤ U64_MAX → Z.of_nat n ≤ U64_MAX → uuid_now_v7 m = uuid_now_v7 n → m = n;
  (** Checked arithmetic is exact where it answers. *)
  checked_add_signed_exact t d u : checked_add_signed t d = Some u → u = t + d;
  checked_sub_signed_exact t d u : checked_sub_signed t d = Some u → u = t - d;
  td_from_std_exact d x : td_from_std d = Some x → x = d;
  (** [to_std] refuses negative values only. *)
  td_to_std_nonneg d : 0 ≤ d → td_to_std d = Some d;
  td_to_std_neg d : d < 0 → td_to_std d = None;
  (** Whole microseconds, truncated toward zero, when they fit an [i64]. *)
  td_num_microseconds_spec d : td_num_microseconds d = i64_try_from (Z.quot d 1000);
  instant_checked_add_exact t d u : instant_checked_add t d = Some u → u = t + d;
  (** JSON text is never empty. *)
  resume_error_empty : resume_error EmptyString ≠ None;
}.

(** ** A concrete instance *)
Module DemoExternals.
(** chrono's documented range, 262,142 BCE to 262,142 CE, in nanoseconds, coarsely. *)
Definition dt_bound : Z := 8210266876799999999999.

Fixpoint json_escape (s : string) : string :=
  match s with
  | EmptyString => EmptyString
  | String c s' =>
      if bool_decide (c = Ascii.ascii_of_nat 34 ∨ c = Ascii.ascii_of_nat 92)
      then String (Ascii.ascii_of_nat 92) (String c (json_escape s'))
      else String c (json_escape s')
  end.

Definition quote : string := String (Ascii.ascii_of_nat 34) EmptyString.
Definition demo_json_string (s : string) : string := quote +:+ (json_escape s +:+ quote).

(** A fixed-width rendering in 36 base-16 digits, least significant first. *)
Fixpoint digits (n : nat) (u : N) : string :=
  match n with
  | O => EmptyString
  | S n => String (Ascii.ascii_of_N (48 + u mod 16)) (digits n (u / 16))
  end.

Definition checked (z : Z) : option Z :=
  if (- dt_bound <=? z) && (z <=? dt_bound) then Some z else None.

(** Accepts every non-empty text. *)
Definition json_error (s : string) : option JsonError :=
  match s with EmptyString => Some "EOF while parsing a value"%string | _ => None end.

#[export] Instance externals : Externals := {|
  raw_value_error := json_error;
  resume_error := json_error;
  json_string := demo_json_string;
  uuid_display := digits 36;
  uuid_now_v7 n := (N.of_nat n mod 2 ^ 128)%N;
  checked_add_signed t d := checked (t + d);
  checked_sub_signed t d := checked (t - d);
  td_from_std d := checked d;
  td_to_std d := if d <? 0 then None else Some d;
  td_num_microseconds d := i64_try_from (Z.quot d 1000);
  instant_checked_add t d := Some (t + d);
  to_lowercase s := s;
  semaphore_max_permits := 2305843009213693951;
|}.

Lemma json_escape_len s : str_len (json_escape s) ≤ 6 * str_len s.
Proof.
  unfold str_len. induction s as [|c s IH]; simpl; [lia|].
  case_bool_decide; simpl; lia.
Qed.
Lemma digits_len n u : String.length (digits n u) = n.
Proof. revert u. induction n; simpl; auto. Qed.

Lemma digits_inj n u v :
  (u < 16 ^ N.of_nat n)%N → (v < 16 ^ N.of_nat n)%N → digits n u = digits n v → u = v.
Proof.
  revert u v. induction n as [|n IH]; intros u v Hu Hv Hd.
  - simpl in *. lia.
  - rewrite Nat2N.inj_succ, N.pow_succ_r in Hu, Hv by lia.
    simpl in Hd. injection Hd as Hc Hd.
    apply IH in Hd; [|apply N.Div0.div_lt_upper_bound; lia..].
    apply (f_equal Ascii.N_of_ascii) in Hc.
    rewrite !Ascii.N_ascii_embedding in Hc
      by (pose proof (N.mod_lt u 16); pose proof (N.mod_lt v 16); lia).
    rewrite (N.div_mod u 16), (N.div_mod v 16) by lia. lia.
Qed.

Lemma checked_exact z u : checked z = Some u → u = z.
Proof. unfold checked. case_match; congruence. Qed.

#[export] Instance laws : ExternalLaws externals.
Proof.
  split.
  - intros s. change (str_len (demo_json_string s) ≤ 6 * str_len s + 2). unfold demo_json_string, quote. rewrite !str_len_app.
    pose proof (json_escape_len s). unfold str_len in *. simpl. lia.
  - intros u. cbn [uuid_display externals]. unfold str_len. by rewrite digits_len.
  - intros u v Hu Hv. unfold is_uuid in *; apply (digits_inj 36);
      (eapply N.lt_le_trans; [eassumption|vm_compute; discriminate]).
  - intros n. apply N.mod_lt. discriminate.
  - intros m n Hm Hn. cbn [uuid_now_v7 externals].
    rewrite !N.mod_small by (unfold U64_MAX in *; lia). lia.
  - intros t d u. apply checked_exact.
  - intros t d u. apply checked_exact.
  - intros d x. apply checked_exact.
  - intros d Hd. simpl. rewrite (proj2 (Z.ltb_ge _ _)) by lia. done.
  - intros d Hd. simpl. rewrite (proj2 (Z.ltb_lt _ _)) by lia. done.
  - done.
  - simpl. congruence.
  - done.
Qed.
End DemoExternals.
