(* ===== verification/Failure.v ===== *)
(** * Task failures, runtime errors and statuses ([tasks/failure.rs])

    [TaskStatus] with its persisted representation, [TaskFailure], and
    [TaskRuntimeError] with the [Display] texts [thiserror] derives. *)
From S2P Require Import Prelude Externals.

Abbreviation TaskId := Uuid (only parsing).

Record TaskFailure := { failure_task_id : option TaskId; failure_message : string }.

Definition failure_new (id : option TaskId) (message : string) : TaskFailure :=
  {| failure_task_id := id; failure_message := message |}.
Definition into_message (f : TaskFailure) : string := failure_message f.

Inductive TaskRuntimeError :=
  | ResultTooLarge (actual limit : Z)
  | FlowAllIndex (index len : Z)
  | FlowAllDecode (index : Z) (source : JsonError)
  | TypeMismatch (expected got : string)
  | TaskNotFound (name : string)
  | JsonFailure (e : JsonError)
  | TaskExecutionError (message : string)
  | AlreadyExists (id : string)
  | InvalidConfig (message : string)
  | InvalidOptions (message : string)
  | UnknownLane (lane : string)
  | IdempotencyConflict (id : TaskId)
  | LaneBusy (lane : string)
  (** The payloads of the three transparent sources, by their [Display] text. *)
  | CallError (e : string)
  | DatabaseError (e : string)
  | StoreError (e : string).

#[export] Instance TaskRuntimeError_eq_dec : EqDecision TaskRuntimeError.
Proof. solve_decision. Defined.

(** The [Display] texts, from the [#[error("...")]] attributes. *)
Definition error_to_string `{Externals} (e : TaskRuntimeError) : string :=
  match e with
  | ResultTooLarge actual limit =>
      "Task result is " +:+ pretty actual +:+ " bytes; the limit is " +:+ pretty limit +:+ " bytes"
  | FlowAllIndex index len =>
      "Flow all result index " +:+ pretty index +:+ " is out of bounds for " +:+ pretty len +:+ " results"
  | FlowAllDecode index _ =>
      "Flow all result at index " +:+ pretty index +:+ " could not be decoded"
  | TypeMismatch expected got => "Type mismatch: expected " +:+ expected +:+ ", got " +:+ got
  | TaskNotFound name => "Task '" +:+ name +:+ "' not found"
  | JsonFailure e => "Task JSON error: " +:+ e
  | TaskExecutionError m => "Task execution error: " +:+ m
  | AlreadyExists id => "Task already exists: " +:+ id
  | InvalidConfig m => "Invalid task configuration: " +:+ m
  | InvalidOptions m => "Invalid task submission options: " +:+ m
  | UnknownLane lane => "Task lane '" +:+ lane +:+ "' is not configured"
  | IdempotencyConflict id => "Idempotency key conflicts with task " +:+ uuid_display id
  | LaneBusy lane => "Task lane '" +:+ lane +:+ "' still has running work"
  | CallError e => e
  | DatabaseError e => "Database error: " +:+ e
  | StoreError e => e
  end%string.

Inductive TaskStatus := Pending | Running | Suspended | Succeeded | Failed.

#[export] Instance TaskStatus_eq_dec : EqDecision TaskStatus.
Proof. solve_decision. Defined.

(** [#[repr(i16)]]: the discriminants are what the database stores. *)
Definition status_as_i16 (s : TaskStatus) : Z :=
  match s with Pending => 0 | Running => 1 | Suspended => 2 | Succeeded => 3 | Failed => 4 end.

Definition status_from_i16 (value : Z) : result TaskRuntimeError TaskStatus :=
  match value with
  | 0 => Ok Pending
  | 1 => Ok Running
  | 2 => Ok Suspended
  | 3 => Ok Succeeded
  | 4 => Ok Failed
  | _ => Err (TaskExecutionError ("invalid task status value " +:+ pretty value))
  end.

Definition status_as_str (s : TaskStatus) : string :=
  match s with
  | Pending => "pending"
  | Running => "running"
  | Suspended => "suspended"
  | Succeeded => "succeeded"
  | Failed => "failed"
  end.

(** [matches!(status, Succeeded | Failed)], written at each of its uses in the code. *)
Definition is_terminal (s : TaskStatus) : bool :=
  match s with Succeeded | Failed => true | _ => false end.
(** [is_active] of [store/memory/queries.rs]. *)
Definition is_active (s : TaskStatus) : bool :=
  match s with Pending | Running | Suspended => true | _ => false end.

Lemma is_active_terminal s : is_active s = negb (is_terminal s).
Proof. by destruct s. Qed.

(** The persisted status is read back as written, and nothing else is accepted. *)
Lemma status_from_i16_spec value s :
  status_from_i16 value = Ok s ↔ value = status_as_i16 s.
Proof.
  split; [|intros ->; by destruct s].
  unfold status_from_i16. intros Hv.
  repeat (case_match; simplify_eq; try done).
Qed.

(** ** Result envelopes ([tasks/result.rs], [truncate_utf8] of [tasks/outcome.rs])

    The JSON envelopes the store persists and delivers, their fixed size
    limit, and the byte-level truncation that keeps a string valid UTF-8. A
    [String] is its bytes. *)

Definition RESULT_LIMIT : Z := 32768.

(** JSON text written with ['] for the double quote. *)
Fixpoint jtext (s : string) : string :=
  match s with
  | EmptyString => EmptyString
  | String c s' =>
      String (if bool_decide (c = Ascii.ascii_of_nat 39) then Ascii.ascii_of_nat 34 else c) (jtext s')
  end.

Definition UNIT_RESULT : string := Eval vm_compute in jtext "{'Ok':null}".

Section Results.
Context `{X : Externals}.

Definition check_size (actual : Z) : result TaskRuntimeError unit :=
  if RESULT_LIMIT <? actual then Err (ResultTooLarge actual RESULT_LIMIT) else Ok tt.

Definition validate_size (value : string) : result TaskRuntimeError unit :=
  check_size (str_len value).

(** Lifts a [serde_json] verdict through [?]. *)
Definition json_check (o : option JsonError) : result TaskRuntimeError unit :=
  match o with Some e => Err (JsonFailure e) | None => Ok tt end.

Definition validate_output (output : string) : result TaskRuntimeError unit :=
  let? _ := check_size (usize_saturating (str_len output + 7)) in
  json_check (raw_value_error output).

Definition validate_resume (value : string) : result TaskRuntimeError unit :=
  let? _ := validate_size value in
  json_check (resume_error value).

Definition success (output : string) : string :=
  jtext "{'Ok':" +:+ (output +:+ jtext "}").

(** [str::is_char_boundary]: not inside a multi-byte character. *)
Definition is_char_boundary (s : string) (index : nat) : bool :=
  match index with
  | O => true
  | _ => match String.get index s with
         | Some c => (Ascii.N_of_ascii c <? 128)%N || (192 <=? Ascii.N_of_ascii c)%N
         | None => (index =? String.length s)%nat
         end
  end.

(** [while end > 0 && !s.is_char_boundary(end) { end -= 1 }]; index 0 is a boundary. *)
Fixpoint back_to_boundary (s : string) (e : nat) : nat :=
  match e with
  | O => O
  | S e' => if is_char_boundary s e then e else back_to_boundary s e'
  end.

(** [String::truncate] at a boundary. *)
Definition truncate (s : string) (e : nat) : string := String.substring 0 e s.

Definition truncate_utf8 (value : string) (limit : Z) : string :=
  if str_len value <=? limit then value
  else truncate value (back_to_boundary value (Z.to_nat limit)).

Definition failure_envelope (id : TaskId) (message : string) : string :=
  jtext "{'Err':{'task_id':'" +:+ (uuid_display id +:+
    (jtext "','message':" +:+ (json_string message +:+ jtext "}}"))).

(** One pass of the loop: the encoded result, or the shortened message. *)
Definition failure_step (id : TaskId) (message : string) : string + string :=
  let result := failure_envelope id message in
  if str_len result <=? RESULT_LIMIT then inl result
  else
    let excess := str_len result - RESULT_LIMIT in
    let e := Z.max 0 (str_len message - (excess + 5) / 6) in
    inr (truncate message (back_to_boundary message (Z.to_nat e))).

Fixpoint failure_loop (fuel : nat) (id : TaskId) (message : string) : option string :=
  match fuel with
  | O => None
  | S fuel =>
      match failure_step id message with
      | inl result => Some result
      | inr message => failure_loop fuel id message
      end
  end.

(** Each pass that does not return shortens the message, so its length plus one
    bounds the passes ([failure_terminates]). *)
Definition failure (id : TaskId) (message : string) : string :=
  default EmptyString (failure_loop (S (String.length message)) id message).
End Results.

#[global] Arguments jtext : simpl never.
#[global] Arguments failure_envelope : simpl never.
#[global] Arguments failure_step : simpl never.
#[global] Arguments failure : simpl never.
#[global] Arguments success : simpl never.
#[global] Arguments truncate_utf8 : simpl never.

(** ** Byte lengths and truncation *)

Lemma substring_length s n m :
  String.length (String.substring n m s) = Nat.min m (String.length s - n).
Proof.
  revert n m. induction s as [|c s IH]; intros [|n] [|m]; cbn [String.substring String.length];
    rewrite ?IH; lia.
Qed.

Lemma truncate_len s e : (e ≤ String.length s)%nat → str_len (truncate s e) = Z.of_nat e.
Proof. intros. unfold str_len, truncate. rewrite substring_length. lia. Qed.

Lemma back_to_boundary_le s e : (back_to_boundary s e ≤ e)%nat.
Proof. induction e; simpl; [lia|]. case_match; lia. Qed.

Lemma back_to_boundary_boundary s e : is_char_boundary s (back_to_boundary s e) = true.
Proof. induction e as [|e IH]; simpl; [done|]. case_match; auto. Qed.

(** Nothing between the cut and the requested index is a boundary. *)
Lemma back_to_boundary_max s e i :
  (back_to_boundary s e < i ≤ e)%nat → is_char_boundary s i = false.
Proof.
  induction e as [|e IH]; [simpl; lia|]. cbn [back_to_boundary].
  destruct (is_char_boundary s (S e)) eqn:Hb; intros Hi; [lia|].
  destruct (decide (i = S e)) as [->|]; [done|]. apply IH. lia.
Qed.

Section ResultFacts.
Context `{X : Externals, L : !ExternalLaws X}.

Lemma truncate_utf8_len value limit :
  0 ≤ limit → str_len (truncate_utf8 value limit) ≤ limit.
Proof.
  intros Hl. unfold truncate_utf8. case_match; [lia|].
  pose proof (back_to_boundary_le value (Z.to_nat limit)).
  rewrite truncate_len; unfold str_len in *; lia.
Qed.

Lemma failure_envelope_len id message :
  str_len (failure_envelope id message) =
  str_len (uuid_display id) + str_len (json_string message) + 33.
Proof.
  unfold failure_envelope. rewrite !str_len_app.
  change (str_len (jtext "{'Err':{'task_id':'")) with 19.
  change (str_len (jtext "','message':")) with 12.
  change (str_len (jtext "}}")) with 2. lia.
Qed.

Lemma failure_step_shrinks id message message' :
  failure_step id message = inr message' →
  (String.length message' < String.length message)%nat.
Proof.
  unfold failure_step. case_match eqn:Hle; [done|]. intros [= <-].
  apply Z.leb_gt in Hle. rewrite failure_envelope_len, uuid_display_len in *.
  pose proof (json_string_len message) as Hj.
  pose proof (str_len_nonneg message). unfold RESULT_LIMIT in *.
  set (len := str_len (json_string message)) in *.
  set (e := Z.max 0 (str_len message - (36 + len + 33 - 32768 + 5) / 6)).
  assert (Hq : 1 ≤ (36 + len + 33 - 32768 + 5) / 6)
    by (apply Z.div_le_lower_bound; lia).
  assert (He : 0 ≤ e < str_len message) by lia.
  pose proof (back_to_boundary_le message (Z.to_nat e)).
  unfold truncate. rewrite substring_length. unfold str_len in He. lia.
Qed.

Lemma failure_loop_terminates fuel id message :
  (String.length message < fuel)%nat → is_Some (failure_loop fuel id message).
Proof.
  revert message. induction fuel as [|fuel IH]; intros message Hf; [lia|].
  cbn [failure_loop]. destruct (failure_step id message) as [r|m'] eqn:Hs; [eauto|].
  apply IH. apply failure_step_shrinks in Hs. lia.
Qed.

Lemma failure_loop_envelope fuel id message r :
  failure_loop fuel id message = Some r →
  str_len r ≤ RESULT_LIMIT ∧ ∃ m, r = failure_envelope id m ∧
    (String.length m ≤ String.length message)%nat.
Proof.
  revert message. induction fuel as [|fuel IH]; intros message; [done|].
  cbn [failure_loop]. destruct (failure_step id message) as [r'|m'] eqn:Hs.
  - intros [= ->]. unfold failure_step in Hs. case_match eqn:Hl; simplify_eq.
    apply Z.leb_le in Hl. eauto.
  - intros Hr. apply IH in Hr as (? & m & ? & ?). split; [done|].
    exists m. split; [done|]. apply failure_step_shrinks in Hs. lia.
Qed.

Lemma failure_spec id message :
  ∃ m, failure id message = failure_envelope id m ∧
       (String.length m ≤ String.length message)%nat ∧
       str_len (failure id message) ≤ RESULT_LIMIT.
Proof.
  unfold failure.
  destruct (failure_loop_terminates (S (String.length message)) id message) as [r Hr];
    [lia|].
  rewrite Hr. cbn [default from_option]. apply failure_loop_envelope in Hr as (? & m & -> & ?). eauto.
Qed.

Lemma failure_len id message : str_len (failure id message) ≤ RESULT_LIMIT.
Proof. destruct (failure_spec id message) as (m & _ & _ & ?). done. Qed.

Lemma success_len output : str_len (success output) = str_len output + 7.
Proof.
  unfold success. rewrite !str_len_app.
  change (str_len (jtext "{'Ok':")) with 6. change (str_len (jtext "}")) with 1. lia.
Qed.

(** A validated output still fits once it is wrapped. *)
Lemma success_fits output :
  validate_output output = Ok tt → str_len (success output) ≤ RESULT_LIMIT.
Proof.
  unfold validate_output, check_size. rewrite success_len.
  pose proof (str_len_nonneg output). unfold usize_saturating, USIZE_MAX, RESULT_LIMIT.
  destruct (_ <? _) eqn:Hc; simpl; [done|]. intros _. apply Z.ltb_ge in Hc. lia.
Qed.

Lemma validate_resume_fits value :
  validate_resume value = Ok tt → str_len value ≤ RESULT_LIMIT.
Proof.
  unfold validate_resume, validate_size, check_size.
  destruct (_ <? _) eqn:Hc; simpl; [done|]. intros _. by apply Z.ltb_ge in Hc.
Qed.
End ResultFacts.

Lemma UNIT_RESULT_fits : str_len UNIT_RESULT ≤ RESULT_LIMIT.
Proof. done. Qed.

Create HintDb fits discriminated.
#[export] Hint Resolve @failure_len @success_fits @validate_resume_fits UNIT_RESULT_fits : fits.
