(* ===== verification/Config.v ===== *)
(** * Task configuration ([tasks/config.rs], [tasks/lane_lock.rs])

    Lanes, token-bucket rates, retry policies, lane locks and the runtime
    configuration, with the validation that runs before any of them is used
    and the merge of bundle defaults and application overrides into the
    complete lane set. A [BTreeMap<TaskLane, _>] is an association list sorted
    by lane name; a [TaskLane] is its name. *)
From S2P Require Import Prelude Externals Failure.
#[local] Open Scope string_scope.
#[local] Open Scope Z_scope.

Abbreviation TaskLane := string (only parsing).

Definition DEFAULT_TASK_LANE : TaskLane := "default"%string.

Definition DEFAULT_CLAIM_BATCH_SIZE : Z := 1024.
Definition DEFAULT_COMMIT_BATCH_SIZE : Z := 1024.
Definition DEFAULT_INGRESS_CAPACITY : Z := 4096.
Definition MAX_TASK_LANES : Z := 32.
Definition MAX_TASK_ATTEMPTS : Z := 1000.
Definition MAX_CONCURRENCY : Z := 4096.
Definition MAX_BATCH_SIZE : Z := 10000.
Definition MAX_INTERVAL : Duration := Eval vm_compute in from_secs (7 * 24 * 60 * 60).
Definition MAX_LEASE : Duration := Eval vm_compute in from_secs (24 * 60 * 60).
Definition MAX_PAYLOAD_BYTES : Z := Eval vm_compute in 16 * 1024 * 1024.
Definition MAX_ERROR_BYTES : Z := Eval vm_compute in 64 * 1024.
Definition MAX_IDEMPOTENCY_RETENTION : Duration :=
  Eval vm_compute in from_secs (10 * 365 * 24 * 60 * 60).
Definition MAX_TASK_DELAY : Duration :=
  Eval vm_compute in from_secs (10 * 365 * 24 * 60 * 60).

(** ** Rates and retries *)

Record TaskRate := { rate_permits : Z; rate_period : Duration; rate_burst : Z }.

Definition rate_new (permits : Z) (period : Duration) : TaskRate :=
  {| rate_permits := permits; rate_period := period; rate_burst := permits |}.
Definition per_second (permits : Z) : TaskRate := rate_new permits (from_secs 1).
Definition per_minute (permits : Z) : TaskRate := rate_new permits (from_secs 60).
Definition burst (n : Z) (r : TaskRate) : TaskRate :=
  {| rate_permits := rate_permits r; rate_period := rate_period r; rate_burst := n |}.
Definition burst_size (r : TaskRate) : Z := rate_burst r.

Record TaskRetry := { max_attempts : Z; initial_delay : Duration; max_delay : Duration }.

Definition DEFAULT_RETRY : TaskRetry :=
  {| max_attempts := 5; initial_delay := from_secs 1; max_delay := from_secs (5 * 60) |}.

Definition exponential (attempts : Z) (delay : Duration) : TaskRetry :=
  {| max_attempts := attempts; initial_delay := delay; max_delay := from_secs (5 * 60) |}.
Definition with_max_delay (d : Duration) (r : TaskRetry) : TaskRetry :=
  {| max_attempts := max_attempts r; initial_delay := initial_delay r; max_delay := d |}.

Definition negative_attempts : TaskRuntimeError :=
  TaskExecutionError "task attempt count cannot be negative".

Definition exhausted (r : TaskRetry) (attempts : Z) : result TaskRuntimeError bool :=
  let? attempts := ok_or (u32_try_from attempts) negative_attempts in
  Ok (max_attempts r <=? attempts).

(** The loop over [1..attempts]: double, cap, and stop at the cap. *)
Fixpoint delay_loop (n : nat) (cap delay : Duration) : Duration :=
  match n with
  | O => delay
  | S n =>
      let delay := Z.min (duration_saturating_mul delay 2) cap in
      if delay =? cap then delay else delay_loop n cap delay
  end.

Definition retry_delay (r : TaskRetry) (attempts : Z) : result TaskRuntimeError Duration :=
  let? attempts := ok_or (u32_try_from attempts) negative_attempts in
  Ok (delay_loop (Z.to_nat (attempts - 1)) (max_delay r) (initial_delay r)).

(** ** Lane locks and lanes *)

(** A lifecycle hook is application code, known by its identity. *)
Abbreviation LaneHook := string (only parsing).

Record TaskLaneLock := {
  ll_batch_size : Z;
  ll_deadline : option Duration;
  ll_idle_after : Duration;
  ll_idle_hook : option LaneHook;
  ll_busy_hook : option LaneHook;
}.

Definition lane_lock_new (batch_size : Z) : TaskLaneLock :=
  {| ll_batch_size := batch_size; ll_deadline := None; ll_idle_after := 0;
     ll_idle_hook := None; ll_busy_hook := None |}.
Definition lock_deadline (d : Duration) (l : TaskLaneLock) : TaskLaneLock :=
  {| ll_batch_size := ll_batch_size l; ll_deadline := Some d; ll_idle_after := ll_idle_after l;
     ll_idle_hook := ll_idle_hook l; ll_busy_hook := ll_busy_hook l |}.
Definition idle_after (d : Duration) (l : TaskLaneLock) : TaskLaneLock :=
  {| ll_batch_size := ll_batch_size l; ll_deadline := ll_deadline l; ll_idle_after := d;
     ll_idle_hook := ll_idle_hook l; ll_busy_hook := ll_busy_hook l |}.
Definition on_idle (h : LaneHook) (l : TaskLaneLock) : TaskLaneLock :=
  {| ll_batch_size := ll_batch_size l; ll_deadline := ll_deadline l;
     ll_idle_after := ll_idle_after l; ll_idle_hook := Some h; ll_busy_hook := ll_busy_hook l |}.
Definition on_busy (h : LaneHook) (l : TaskLaneLock) : TaskLaneLock :=
  {| ll_batch_size := ll_batch_size l; ll_deadline := ll_deadline l;
     ll_idle_after := ll_idle_after l; ll_idle_hook := ll_idle_hook l; ll_busy_hook := Some h |}.

Inductive IdempotencyRetention := ActiveOnly | RetainFor (d : Duration).

Record TaskLaneConf := {
  lc_lane : TaskLane;
  lc_concurrency : Z;
  lc_claim_batch_size : Z;
  lc_lane_lock : option TaskLaneLock;
  lc_rate : option TaskRate;
  lc_global_rate : option TaskRate;
  lc_retry : TaskRetry;
  lc_idempotency_retention : IdempotencyRetention;
  lc_sticky : bool;
  lc_flow_cache_bytes : Z;
}.

Definition lane_conf_new (lane : TaskLane) (concurrency : Z) : TaskLaneConf :=
  {| lc_lane := lane; lc_concurrency := concurrency;
     lc_claim_batch_size := DEFAULT_CLAIM_BATCH_SIZE; lc_lane_lock := None;
     lc_rate := None; lc_global_rate := None; lc_retry := DEFAULT_RETRY;
     lc_idempotency_retention := ActiveOnly; lc_sticky := true;
     lc_flow_cache_bytes := 8 * 1024 * 1024 |}.

Definition with_claim_batch_size (v : Z) (c : TaskLaneConf) : TaskLaneConf :=
  {| lc_lane := lc_lane c; lc_concurrency := lc_concurrency c; lc_claim_batch_size := v;
     lc_lane_lock := lc_lane_lock c; lc_rate := lc_rate c; lc_global_rate := lc_global_rate c;
     lc_retry := lc_retry c; lc_idempotency_retention := lc_idempotency_retention c; lc_sticky
     := lc_sticky c; lc_flow_cache_bytes := lc_flow_cache_bytes c |}.
Definition set_lane_lock (v : option TaskLaneLock) (c : TaskLaneConf) : TaskLaneConf :=
  {| lc_lane := lc_lane c; lc_concurrency := lc_concurrency c; lc_claim_batch_size :=
     lc_claim_batch_size c; lc_lane_lock := v; lc_rate := lc_rate c; lc_global_rate :=
     lc_global_rate c; lc_retry := lc_retry c; lc_idempotency_retention :=
     lc_idempotency_retention c; lc_sticky := lc_sticky c; lc_flow_cache_bytes :=
     lc_flow_cache_bytes c |}.
Definition with_sticky (v : bool) (c : TaskLaneConf) : TaskLaneConf :=
  {| lc_lane := lc_lane c; lc_concurrency := lc_concurrency c; lc_claim_batch_size :=
     lc_claim_batch_size c; lc_lane_lock := lc_lane_lock c; lc_rate := lc_rate c; lc_global_rate
     := lc_global_rate c; lc_retry := lc_retry c; lc_idempotency_retention :=
     lc_idempotency_retention c; lc_sticky := v; lc_flow_cache_bytes := lc_flow_cache_bytes c
     |}.
Definition with_flow_cache_bytes (v : Z) (c : TaskLaneConf) : TaskLaneConf :=
  {| lc_lane := lc_lane c; lc_concurrency := lc_concurrency c; lc_claim_batch_size :=
     lc_claim_batch_size c; lc_lane_lock := lc_lane_lock c; lc_rate := lc_rate c; lc_global_rate
     := lc_global_rate c; lc_retry := lc_retry c; lc_idempotency_retention :=
     lc_idempotency_retention c; lc_sticky := lc_sticky c; lc_flow_cache_bytes := v |}.
Definition set_rate (v : option TaskRate) (c : TaskLaneConf) : TaskLaneConf :=
  {| lc_lane := lc_lane c; lc_concurrency := lc_concurrency c; lc_claim_batch_size :=
     lc_claim_batch_size c; lc_lane_lock := lc_lane_lock c; lc_rate := v; lc_global_rate :=
     lc_global_rate c; lc_retry := lc_retry c; lc_idempotency_retention :=
     lc_idempotency_retention c; lc_sticky := lc_sticky c; lc_flow_cache_bytes :=
     lc_flow_cache_bytes c |}.
Definition set_global_rate (v : option TaskRate) (c : TaskLaneConf) : TaskLaneConf :=
  {| lc_lane := lc_lane c; lc_concurrency := lc_concurrency c; lc_claim_batch_size :=
     lc_claim_batch_size c; lc_lane_lock := lc_lane_lock c; lc_rate := lc_rate c; lc_global_rate
     := v; lc_retry := lc_retry c; lc_idempotency_retention := lc_idempotency_retention c;
     lc_sticky := lc_sticky c; lc_flow_cache_bytes := lc_flow_cache_bytes c |}.
Definition with_retry (v : TaskRetry) (c : TaskLaneConf) : TaskLaneConf :=
  {| lc_lane := lc_lane c; lc_concurrency := lc_concurrency c; lc_claim_batch_size :=
     lc_claim_batch_size c; lc_lane_lock := lc_lane_lock c; lc_rate := lc_rate c; lc_global_rate
     := lc_global_rate c; lc_retry := v; lc_idempotency_retention := lc_idempotency_retention c;
     lc_sticky := lc_sticky c; lc_flow_cache_bytes := lc_flow_cache_bytes c |}.
Definition set_idempotency_retention (v : IdempotencyRetention) (c : TaskLaneConf) :
     TaskLaneConf :=
  {| lc_lane := lc_lane c; lc_concurrency := lc_concurrency c; lc_claim_batch_size :=
     lc_claim_batch_size c; lc_lane_lock := lc_lane_lock c; lc_rate := lc_rate c; lc_global_rate
     := lc_global_rate c; lc_retry := lc_retry c; lc_idempotency_retention := v; lc_sticky :=
     lc_sticky c; lc_flow_cache_bytes := lc_flow_cache_bytes c |}.
Definition lock (l : TaskLaneLock) : TaskLaneConf → TaskLaneConf := set_lane_lock (Some l).
Definition rate_limit (r : TaskRate) : TaskLaneConf → TaskLaneConf := set_rate (Some r).
Definition global_rate_limit (r : TaskRate) : TaskLaneConf → TaskLaneConf :=
  set_global_rate (Some r).
Definition idempotency_retention (d : Duration) : TaskLaneConf → TaskLaneConf :=
  set_idempotency_retention (RetainFor d).

Definition is_sticky (c : TaskLaneConf) : bool :=
  lc_sticky c && bool_decide (lc_lane_lock c = None).
Definition cache_bytes (c : TaskLaneConf) : Z :=
  if is_sticky c then lc_flow_cache_bytes c else 0.

(** ** Runtime configuration *)

Inductive TaskLanePolicy := UseDefault | RequireConfigured.
Inductive TaskReadiness := StartupOnly | AfterFailures (n : Z) | Disabled.
Inductive TaskMode := Standalone | Clustered.

Definition readiness_as_str (r : TaskReadiness) : string :=
  match r with
  | StartupOnly => "startup_only"
  | AfterFailures _ => "after_failures"
  | Disabled => "disabled"
  end.

Record TaskConf := {
  cf_mode : TaskMode;
  cf_heartbeat_interval : Duration;
  cf_poll_interval : Duration;
  cf_fallback_poll_interval : Duration;
  cf_concurrency : Z;
  cf_db_concurrency : Z;
  cf_commit_batch_size : Z;
  cf_ingress_capacity : Z;
  cf_max_all_children : Z;
  cf_lease_duration : Duration;
  cf_max_payload_bytes : Z;
  cf_max_error_bytes : Z;
  cf_lanes : list TaskLaneConf;
  cf_missing_lane : TaskLanePolicy;
  cf_readiness : TaskReadiness;
}.

Definition task_conf_default : TaskConf :=
  {| cf_mode := Clustered; cf_heartbeat_interval := from_secs 12;
     cf_poll_interval := from_secs 1; cf_fallback_poll_interval := from_secs 300;
     cf_concurrency := 10; cf_db_concurrency := 1;
     cf_commit_batch_size := DEFAULT_COMMIT_BATCH_SIZE;
     cf_ingress_capacity := DEFAULT_INGRESS_CAPACITY; cf_max_all_children := 256;
     cf_lease_duration := from_secs 300; cf_max_payload_bytes := 1024 * 1024;
     cf_max_error_bytes := 8 * 1024; cf_lanes := []; cf_missing_lane := UseDefault;
     cf_readiness := StartupOnly |}.

Definition with_mode (v : TaskMode) (c : TaskConf) : TaskConf :=
  {| cf_mode := v; cf_heartbeat_interval := cf_heartbeat_interval c; cf_poll_interval :=
     cf_poll_interval c; cf_fallback_poll_interval := cf_fallback_poll_interval c;
     cf_concurrency := cf_concurrency c; cf_db_concurrency := cf_db_concurrency c;
     cf_commit_batch_size := cf_commit_batch_size c; cf_ingress_capacity := cf_ingress_capacity
     c; cf_max_all_children := cf_max_all_children c; cf_lease_duration := cf_lease_duration c;
     cf_max_payload_bytes := cf_max_payload_bytes c; cf_max_error_bytes := cf_max_error_bytes c;
     cf_lanes := cf_lanes c; cf_missing_lane := cf_missing_lane c; cf_readiness := cf_readiness
     c |}.
Definition with_heartbeat_interval (v : Duration) (c : TaskConf) : TaskConf :=
  {| cf_mode := cf_mode c; cf_heartbeat_interval := v; cf_poll_interval := cf_poll_interval c;
     cf_fallback_poll_interval := cf_fallback_poll_interval c; cf_concurrency := cf_concurrency
     c; cf_db_concurrency := cf_db_concurrency c; cf_commit_batch_size := cf_commit_batch_size
     c; cf_ingress_capacity := cf_ingress_capacity c; cf_max_all_children := cf_max_all_children
     c; cf_lease_duration := cf_lease_duration c; cf_max_payload_bytes := cf_max_payload_bytes
     c; cf_max_error_bytes := cf_max_error_bytes c; cf_lanes := cf_lanes c; cf_missing_lane :=
     cf_missing_lane c; cf_readiness := cf_readiness c |}.
Definition with_db_concurrency (v : Z) (c : TaskConf) : TaskConf :=
  {| cf_mode := cf_mode c; cf_heartbeat_interval := cf_heartbeat_interval c; cf_poll_interval :=
     cf_poll_interval c; cf_fallback_poll_interval := cf_fallback_poll_interval c;
     cf_concurrency := cf_concurrency c; cf_db_concurrency := v; cf_commit_batch_size :=
     cf_commit_batch_size c; cf_ingress_capacity := cf_ingress_capacity c; cf_max_all_children
     := cf_max_all_children c; cf_lease_duration := cf_lease_duration c; cf_max_payload_bytes :=
     cf_max_payload_bytes c; cf_max_error_bytes := cf_max_error_bytes c; cf_lanes := cf_lanes c;
     cf_missing_lane := cf_missing_lane c; cf_readiness := cf_readiness c |}.
Definition with_max_all_children (v : Z) (c : TaskConf) : TaskConf :=
  {| cf_mode := cf_mode c; cf_heartbeat_interval := cf_heartbeat_interval c; cf_poll_interval :=
     cf_poll_interval c; cf_fallback_poll_interval := cf_fallback_poll_interval c;
     cf_concurrency := cf_concurrency c; cf_db_concurrency := cf_db_concurrency c;
     cf_commit_batch_size := cf_commit_batch_size c; cf_ingress_capacity := cf_ingress_capacity
     c; cf_max_all_children := v; cf_lease_duration := cf_lease_duration c; cf_max_payload_bytes
     := cf_max_payload_bytes c; cf_max_error_bytes := cf_max_error_bytes c; cf_lanes := cf_lanes
     c; cf_missing_lane := cf_missing_lane c; cf_readiness := cf_readiness c |}.
Definition with_concurrency (v : Z) (c : TaskConf) : TaskConf :=
  {| cf_mode := cf_mode c; cf_heartbeat_interval := cf_heartbeat_interval c; cf_poll_interval :=
     cf_poll_interval c; cf_fallback_poll_interval := cf_fallback_poll_interval c;
     cf_concurrency := v; cf_db_concurrency := cf_db_concurrency c; cf_commit_batch_size :=
     cf_commit_batch_size c; cf_ingress_capacity := cf_ingress_capacity c; cf_max_all_children
     := cf_max_all_children c; cf_lease_duration := cf_lease_duration c; cf_max_payload_bytes :=
     cf_max_payload_bytes c; cf_max_error_bytes := cf_max_error_bytes c; cf_lanes := cf_lanes c;
     cf_missing_lane := cf_missing_lane c; cf_readiness := cf_readiness c |}.
Definition with_commit_batch_size (v : Z) (c : TaskConf) : TaskConf :=
  {| cf_mode := cf_mode c; cf_heartbeat_interval := cf_heartbeat_interval c; cf_poll_interval :=
     cf_poll_interval c; cf_fallback_poll_interval := cf_fallback_poll_interval c;
     cf_concurrency := cf_concurrency c; cf_db_concurrency := cf_db_concurrency c;
     cf_commit_batch_size := v; cf_ingress_capacity := cf_ingress_capacity c;
     cf_max_all_children := cf_max_all_children c; cf_lease_duration := cf_lease_duration c;
     cf_max_payload_bytes := cf_max_payload_bytes c; cf_max_error_bytes := cf_max_error_bytes c;
     cf_lanes := cf_lanes c; cf_missing_lane := cf_missing_lane c; cf_readiness := cf_readiness
     c |}.
Definition with_ingress_capacity (v : Z) (c : TaskConf) : TaskConf :=
  {| cf_mode := cf_mode c; cf_heartbeat_interval := cf_heartbeat_interval c; cf_poll_interval :=
     cf_poll_interval c; cf_fallback_poll_interval := cf_fallback_poll_interval c;
     cf_concurrency := cf_concurrency c; cf_db_concurrency := cf_db_concurrency c;
     cf_commit_batch_size := cf_commit_batch_size c; cf_ingress_capacity := v;
     cf_max_all_children := cf_max_all_children c; cf_lease_duration := cf_lease_duration c;
     cf_max_payload_bytes := cf_max_payload_bytes c; cf_max_error_bytes := cf_max_error_bytes c;
     cf_lanes := cf_lanes c; cf_missing_lane := cf_missing_lane c; cf_readiness := cf_readiness
     c |}.
Definition with_poll_interval (v : Duration) (c : TaskConf) : TaskConf :=
  {| cf_mode := cf_mode c; cf_heartbeat_interval := cf_heartbeat_interval c; cf_poll_interval :=
     v; cf_fallback_poll_interval := cf_fallback_poll_interval c; cf_concurrency :=
     cf_concurrency c; cf_db_concurrency := cf_db_concurrency c; cf_commit_batch_size :=
     cf_commit_batch_size c; cf_ingress_capacity := cf_ingress_capacity c; cf_max_all_children
     := cf_max_all_children c; cf_lease_duration := cf_lease_duration c; cf_max_payload_bytes :=
     cf_max_payload_bytes c; cf_max_error_bytes := cf_max_error_bytes c; cf_lanes := cf_lanes c;
     cf_missing_lane := cf_missing_lane c; cf_readiness := cf_readiness c |}.
Definition with_fallback_poll_interval (v : Duration) (c : TaskConf) : TaskConf :=
  {| cf_mode := cf_mode c; cf_heartbeat_interval := cf_heartbeat_interval c; cf_poll_interval :=
     cf_poll_interval c; cf_fallback_poll_interval := v; cf_concurrency := cf_concurrency c;
     cf_db_concurrency := cf_db_concurrency c; cf_commit_batch_size := cf_commit_batch_size c;
     cf_ingress_capacity := cf_ingress_capacity c; cf_max_all_children := cf_max_all_children c;
     cf_lease_duration := cf_lease_duration c; cf_max_payload_bytes := cf_max_payload_bytes c;
     cf_max_error_bytes := cf_max_error_bytes c; cf_lanes := cf_lanes c; cf_missing_lane :=
     cf_missing_lane c; cf_readiness := cf_readiness c |}.
Definition with_lease_duration (v : Duration) (c : TaskConf) : TaskConf :=
  {| cf_mode := cf_mode c; cf_heartbeat_interval := cf_heartbeat_interval c; cf_poll_interval :=
     cf_poll_interval c; cf_fallback_poll_interval := cf_fallback_poll_interval c;
     cf_concurrency := cf_concurrency c; cf_db_concurrency := cf_db_concurrency c;
     cf_commit_batch_size := cf_commit_batch_size c; cf_ingress_capacity := cf_ingress_capacity
     c; cf_max_all_children := cf_max_all_children c; cf_lease_duration := v;
     cf_max_payload_bytes := cf_max_payload_bytes c; cf_max_error_bytes := cf_max_error_bytes c;
     cf_lanes := cf_lanes c; cf_missing_lane := cf_missing_lane c; cf_readiness := cf_readiness
     c |}.
Definition with_max_payload_bytes (v : Z) (c : TaskConf) : TaskConf :=
  {| cf_mode := cf_mode c; cf_heartbeat_interval := cf_heartbeat_interval c; cf_poll_interval :=
     cf_poll_interval c; cf_fallback_poll_interval := cf_fallback_poll_interval c;
     cf_concurrency := cf_concurrency c; cf_db_concurrency := cf_db_concurrency c;
     cf_commit_batch_size := cf_commit_batch_size c; cf_ingress_capacity := cf_ingress_capacity
     c; cf_max_all_children := cf_max_all_children c; cf_lease_duration := cf_lease_duration c;
     cf_max_payload_bytes := v; cf_max_error_bytes := cf_max_error_bytes c; cf_lanes := cf_lanes
     c; cf_missing_lane := cf_missing_lane c; cf_readiness := cf_readiness c |}.
Definition with_max_error_bytes (v : Z) (c : TaskConf) : TaskConf :=
  {| cf_mode := cf_mode c; cf_heartbeat_interval := cf_heartbeat_interval c; cf_poll_interval :=
     cf_poll_interval c; cf_fallback_poll_interval := cf_fallback_poll_interval c;
     cf_concurrency := cf_concurrency c; cf_db_concurrency := cf_db_concurrency c;
     cf_commit_batch_size := cf_commit_batch_size c; cf_ingress_capacity := cf_ingress_capacity
     c; cf_max_all_children := cf_max_all_children c; cf_lease_duration := cf_lease_duration c;
     cf_max_payload_bytes := cf_max_payload_bytes c; cf_max_error_bytes := v; cf_lanes :=
     cf_lanes c; cf_missing_lane := cf_missing_lane c; cf_readiness := cf_readiness c |}.
Definition set_lanes (v : list TaskLaneConf) (c : TaskConf) : TaskConf :=
  {| cf_mode := cf_mode c; cf_heartbeat_interval := cf_heartbeat_interval c; cf_poll_interval :=
     cf_poll_interval c; cf_fallback_poll_interval := cf_fallback_poll_interval c;
     cf_concurrency := cf_concurrency c; cf_db_concurrency := cf_db_concurrency c;
     cf_commit_batch_size := cf_commit_batch_size c; cf_ingress_capacity := cf_ingress_capacity
     c; cf_max_all_children := cf_max_all_children c; cf_lease_duration := cf_lease_duration c;
     cf_max_payload_bytes := cf_max_payload_bytes c; cf_max_error_bytes := cf_max_error_bytes c;
     cf_lanes := v; cf_missing_lane := cf_missing_lane c; cf_readiness := cf_readiness c |}.
Definition with_missing_lane (v : TaskLanePolicy) (c : TaskConf) : TaskConf :=
  {| cf_mode := cf_mode c; cf_heartbeat_interval := cf_heartbeat_interval c; cf_poll_interval :=
     cf_poll_interval c; cf_fallback_poll_interval := cf_fallback_poll_interval c;
     cf_concurrency := cf_concurrency c; cf_db_concurrency := cf_db_concurrency c;
     cf_commit_batch_size := cf_commit_batch_size c; cf_ingress_capacity := cf_ingress_capacity
     c; cf_max_all_children := cf_max_all_children c; cf_lease_duration := cf_lease_duration c;
     cf_max_payload_bytes := cf_max_payload_bytes c; cf_max_error_bytes := cf_max_error_bytes c;
     cf_lanes := cf_lanes c; cf_missing_lane := v; cf_readiness := cf_readiness c |}.
Definition with_readiness (v : TaskReadiness) (c : TaskConf) : TaskConf :=
  {| cf_mode := cf_mode c; cf_heartbeat_interval := cf_heartbeat_interval c; cf_poll_interval :=
     cf_poll_interval c; cf_fallback_poll_interval := cf_fallback_poll_interval c;
     cf_concurrency := cf_concurrency c; cf_db_concurrency := cf_db_concurrency c;
     cf_commit_batch_size := cf_commit_batch_size c; cf_ingress_capacity := cf_ingress_capacity
     c; cf_max_all_children := cf_max_all_children c; cf_lease_duration := cf_lease_duration c;
     cf_max_payload_bytes := cf_max_payload_bytes c; cf_max_error_bytes := cf_max_error_bytes c;
     cf_lanes := cf_lanes c; cf_missing_lane := cf_missing_lane c; cf_readiness := v |}.
Definition add_lane (l : TaskLaneConf) (c : TaskConf) : TaskConf :=
  set_lanes (cf_lanes c ++ [l]) c.

(** ** Validation *)

Definition invalid_config {A} (m : string) : result TaskRuntimeError A := Err (InvalidConfig m).

(** [if condition { return Err(..) }]. *)
Definition reject_if (b : bool) (e : TaskRuntimeError) : result TaskRuntimeError unit :=
  if b then Err e else Ok tt.

Definition validate_rate (name label : string) (rate : option TaskRate) :
    result TaskRuntimeError unit :=
  match rate with
  | None => Ok tt
  | Some rate =>
      reject_if ((rate_permits rate =? 0) || (burst_size rate =? 0)
                 || (as_micros (rate_period rate) =? 0)
                 || (U64_MAX <? as_nanos (rate_period rate)))
        (InvalidConfig ("task lane '" +:+ name +:+ "' has an invalid " +:+ label +:+ " rate limit"))
  end.

Definition is_ascii_lowercase (c : Ascii.ascii) : bool :=
  (97 <=? Ascii.N_of_ascii c)%N && (Ascii.N_of_ascii c <=? 122)%N.
Definition is_ascii_digit (c : Ascii.ascii) : bool :=
  (48 <=? Ascii.N_of_ascii c)%N && (Ascii.N_of_ascii c <=? 57)%N.

Definition valid_lane_name (name : string) : bool :=
  negb (str_len name =? 0) && (str_len name <=? 64)
  && forallb (λ c, is_ascii_lowercase c || is_ascii_digit c
                   || bool_decide (c = Ascii.ascii_of_nat 45)) (String.list_ascii_of_string name).

(** Validates one lane and records its name in [names], refusing a name already there. *)
Definition validate_lane (conf : TaskLaneConf) (names : list string) :
    result TaskRuntimeError (list string) :=
  let name := lc_lane conf in
  let? _ := reject_if
      (negb (valid_lane_name name) || bool_decide (name ∈ names) || (lc_concurrency conf =? 0)
       || (lc_claim_batch_size conf =? 0) || (MAX_BATCH_SIZE <? lc_claim_batch_size conf))
      (InvalidConfig ("invalid or duplicate task lane '" +:+ name +:+
                      "'; claim batch size must be in 1..=10,000")) in
  let? _ := validate_rate name "local" (lc_rate conf) in
  let? _ := validate_rate name "global" (lc_global_rate conf) in
  let retry := lc_retry conf in
  let? _ := reject_if
      ((max_attempts retry =? 0) || (MAX_TASK_ATTEMPTS <? max_attempts retry)
       || (initial_delay retry =? 0) || (max_delay retry <? initial_delay retry)
       || (MAX_INTERVAL <? max_delay retry))
      (InvalidConfig ("task lane '" +:+ name +:+ "' has an invalid retry policy")) in
  let? _ := reject_if
      (match lc_idempotency_retention conf with
       | RetainFor d => (d =? 0) || (MAX_IDEMPOTENCY_RETENTION <? d)
       | ActiveOnly => false
       end)
      (InvalidConfig ("task lane '" +:+ name +:+ "' has an invalid idempotency retention")) in
  Ok (name :: names).

Definition validate_lock (conf : TaskLaneConf) (maximum : Z) : result TaskRuntimeError unit :=
  match lc_lane_lock conf with
  | None => Ok tt
  | Some l =>
      let paired := Bool.eqb (bool_decide (is_Some (ll_idle_hook l)))
                             (bool_decide (is_Some (ll_busy_hook l))) in
      let deadline_valid := match ll_deadline l with
                            | None => true
                            | Some d => negb (d =? 0) && (d <=? MAX_INTERVAL)
                            end in
      reject_if ((ll_batch_size l =? 0) || (maximum <? ll_batch_size l) || negb deadline_valid
                 || (MAX_INTERVAL <? ll_idle_after l) || negb paired)
        (InvalidConfig ("task lane '" +:+ lc_lane conf +:+ "' has an invalid lane lock policy"))
  end.

(** The loop of [validate_overrides]. *)
Fixpoint validate_each (lanes : list TaskLaneConf) (names : list string) :
    result TaskRuntimeError (list string) :=
  match lanes with
  | [] => Ok names
  | lane :: lanes =>
      let? names := validate_lane lane names in
      let? _ := validate_lock lane (lc_claim_batch_size lane) in
      validate_each lanes names
  end.

Definition validate_overrides (lanes : list TaskLaneConf) : result TaskRuntimeError unit :=
  let? _ := reject_if (MAX_TASK_LANES <? zlen lanes)
              (InvalidConfig "task lanes must contain at most 32 entries") in
  let? _ := validate_each lanes [] in
  Ok tt.

Definition concurrency_overflow : TaskRuntimeError :=
  InvalidConfig "task lane concurrency overflowed".

(** The loop of [validate_lanes], which also sums the quotas. *)
Fixpoint validate_total (lanes : list TaskLaneConf) (names : list string) (total : Z) :
    result TaskRuntimeError Z :=
  match lanes with
  | [] => Ok total
  | lane :: lanes =>
      let? names := validate_lane lane names in
      let? _ := validate_lock lane (lc_claim_batch_size lane) in
      let? total := ok_or (usize_checked_add total (lc_concurrency lane)) concurrency_overflow in
      validate_total lanes names total
  end.

Definition validate_lanes (lanes : list TaskLaneConf) (concurrency : Z) :
    result TaskRuntimeError unit :=
  let? _ := reject_if (bool_decide (lanes = []) || (MAX_TASK_LANES <? zlen lanes))
              (InvalidConfig "task lanes must contain between 1 and 32 entries") in
  let? _ := reject_if (negb (existsb (λ l, String.eqb (lc_lane l) DEFAULT_TASK_LANE) lanes))
              (InvalidConfig "explicit task lanes must include the default lane") in
  let? total := validate_total lanes [] 0 in
  reject_if (concurrency <? total)
    (InvalidConfig "task lane concurrency exceeds global task concurrency").

Definition validate_readiness (policy : TaskReadiness) : result TaskRuntimeError unit :=
  reject_if (match policy with AfterFailures n => n =? 0 | _ => false end)
    (InvalidConfig "task readiness failure threshold must be greater than zero").

Definition validate_capacity (conf : TaskConf) : result TaskRuntimeError unit :=
  let? _ := reject_if ((cf_concurrency conf =? 0) || (MAX_CONCURRENCY <? cf_concurrency conf))
              (InvalidConfig "task concurrency must be in 1..=4096") in
  reject_if (negb ((1 <=? cf_commit_batch_size conf) && (cf_commit_batch_size conf <=? MAX_BATCH_SIZE))
             || negb ((1 <=? cf_ingress_capacity conf) && (cf_ingress_capacity conf <=? MAX_BATCH_SIZE)))
    (InvalidConfig "commit batch size and ingress capacity must be in 1..=10,000").

Definition validate_database `{Externals} (conf : TaskConf) : result TaskRuntimeError unit :=
  let? _ := reject_if (negb ((from_millis 1 <=? cf_heartbeat_interval conf)
                             && (cf_heartbeat_interval conf <=? MAX_INTERVAL)))
              (InvalidConfig "task heartbeat interval must be between one millisecond and seven days") in
  reject_if ((cf_db_concurrency conf =? 0) || (semaphore_max_permits <? cf_db_concurrency conf))
    (InvalidConfig "invalid task database concurrency").

Definition validate_scalars `{Externals} (conf : TaskConf) : result TaskRuntimeError unit :=
  let? _ := validate_database conf in
  let? _ := validate_capacity conf in
  let? _ := reject_if ((cf_poll_interval conf =? 0)
                       || (cf_fallback_poll_interval conf <? cf_poll_interval conf))
      (InvalidConfig "task fallback interval must be at least the non-zero poll interval") in
  let? _ := reject_if ((cf_max_all_children conf =? 0) || (MAX_BATCH_SIZE <? cf_max_all_children conf))
      (InvalidConfig "maximum all children must be in 1..=10,000") in
  let? _ := reject_if ((MAX_INTERVAL <? cf_poll_interval conf)
                       || (MAX_INTERVAL <? cf_fallback_poll_interval conf))
      (InvalidConfig "task polling intervals cannot exceed seven days") in
  let? _ := reject_if ((cf_lease_duration conf =? 0) || (cf_max_payload_bytes conf =? 0)
                       || (cf_max_error_bytes conf =? 0))
      (InvalidConfig "lane lease and payload limits must be non-zero") in
  let minimum_lease := duration_saturating_mul (cf_poll_interval conf) 3 in
  let? _ := reject_if (cf_lease_duration conf <? minimum_lease)
      (InvalidConfig "lane lease duration must be at least three poll intervals") in
  reject_if ((MAX_LEASE <? cf_lease_duration conf) || (MAX_PAYLOAD_BYTES <? cf_max_payload_bytes conf)
             || (MAX_ERROR_BYTES <? cf_max_error_bytes conf))
    (InvalidConfig "lane lease or persisted payload limits exceed framework bounds").

Definition validate `{Externals} (conf : TaskConf) : result TaskRuntimeError unit :=
  let? _ := validate_scalars conf in
  let? _ := validate_readiness (cf_readiness conf) in
  validate_overrides (cf_lanes conf).

(** ** The complete lane set *)

Abbreviation LaneMap := (list (TaskLane * TaskLaneConf)) (only parsing).

Definition lane_lookup (name : TaskLane) (m : LaneMap) : option TaskLaneConf :=
  snd <$> List.find (λ e, String.eqb (fst e) name) m.

(** [BTreeMap::insert]: replaces the entry of an equal key, keeps the keys sorted. *)
Fixpoint lane_insert (name : TaskLane) (lane : TaskLaneConf) (m : LaneMap) : LaneMap :=
  match m with
  | [] => [(name, lane)]
  | (k, v) :: m' =>
      match String.compare name k with
      | Lt => (name, lane) :: m
      | Eq => (name, lane) :: m'
      | Gt => (k, v) :: lane_insert name lane m'
      end
  end.

Fixpoint collect_lanes_from (m : LaneMap) (defaults : list TaskLaneConf) (source : string) :
    result TaskRuntimeError LaneMap :=
  match defaults with
  | [] => Ok m
  | lane :: defaults =>
      let? _ := reject_if (String.eqb (lc_lane lane) DEFAULT_TASK_LANE)
          (InvalidConfig (source +:+ " task lanes cannot configure the default lane")) in
      let? _ := reject_if (bool_decide (is_Some (lane_lookup (lc_lane lane) m)))
          (InvalidConfig ("duplicate " +:+ source +:+ " task lane definition")) in
      collect_lanes_from (lane_insert (lc_lane lane) lane m) defaults source
  end.

Definition collect_lanes (defaults : list TaskLaneConf) (source : string) :
    result TaskRuntimeError LaneMap :=
  collect_lanes_from [] defaults source.

Fixpoint sum_concurrency (m : LaneMap) (sum : Z) : result TaskRuntimeError Z :=
  match m with
  | [] => Ok sum
  | (_, lane) :: m =>
      let? sum := ok_or (usize_checked_add sum (lc_concurrency lane)) concurrency_overflow in
      sum_concurrency m sum
  end.

Definition insert_default_lane (m : LaneMap) (concurrency : Z) : result TaskRuntimeError LaneMap :=
  if bool_decide (is_Some (lane_lookup DEFAULT_TASK_LANE m)) then Ok m
  else
    let? used := sum_concurrency m 0 in
    let? remaining := ok_or (if used <=? concurrency then Some (concurrency - used) else None)
        (InvalidConfig "task lane concurrency exceeds global task concurrency") in
    let? _ := reject_if (remaining =? 0)
        (InvalidConfig "named task lanes leave no capacity for the default lane") in
    Ok (lane_insert DEFAULT_TASK_LANE (lane_conf_new DEFAULT_TASK_LANE remaining) m).

Definition resolve_lanes `{Externals} (conf : TaskConf) (defaults : list TaskLaneConf) :
    result TaskRuntimeError (list TaskLaneConf) :=
  let? _ := validate conf in
  let? lanes := collect_lanes defaults "bundle" in
  let lanes := fold_left (λ m l, lane_insert (lc_lane l) l m) (cf_lanes conf) lanes in
  let? lanes := insert_default_lane lanes (cf_concurrency conf) in
  let lanes := lanes.*2 in
  let? _ := validate_lanes lanes (cf_concurrency conf) in
  Ok lanes.

Definition resolve_lane (conf : TaskConf) (lanes : list TaskLaneConf) (lane : TaskLane) :
    result TaskRuntimeError (TaskLane * bool) :=
  if existsb (λ e, String.eqb (lc_lane e) lane) lanes then Ok (lane, false)
  else match cf_missing_lane conf with
       | UseDefault => Ok (DEFAULT_TASK_LANE, true)
       | RequireConfigured => Err (UnknownLane lane)
       end.

(** ** What a validated task configuration guarantees

    Theorems about [Config]: the lane set a valid configuration resolves to,
    and the retry schedule as a closed form. *)

Definition find_lane (name : TaskLane) (lanes : list TaskLaneConf) : option TaskLaneConf :=
  List.find (λ l, String.eqb (lc_lane l) name) lanes.

Definition total_concurrency (lanes : list TaskLaneConf) : Z :=
  foldr (λ l s, lc_concurrency l + s) 0 lanes.

(** What every accepted lane satisfies. *)
Record lane_valid (l : TaskLaneConf) : Prop := {
  lv_name : valid_lane_name (lc_lane l) = true;
  lv_concurrency : lc_concurrency l ≠ 0;
  lv_claim_batch : lc_claim_batch_size l ≠ 0 ∧ lc_claim_batch_size l ≤ MAX_BATCH_SIZE;
  lv_attempts : max_attempts (lc_retry l) ≠ 0 ∧ max_attempts (lc_retry l) ≤ MAX_TASK_ATTEMPTS;
  lv_delay : initial_delay (lc_retry l) ≠ 0 ∧
             initial_delay (lc_retry l) ≤ max_delay (lc_retry l) ≤ MAX_INTERVAL;
  lv_lock k : lc_lane_lock l = Some k →
              ll_batch_size k ≠ 0 ∧ ll_batch_size k ≤ lc_claim_batch_size l ∧
              (is_Some (ll_idle_hook k) ↔ is_Some (ll_busy_hook k));
}.

(** ** Helper lemmas *)

Lemma reject_if_ok b e u : reject_if b e = Ok u → b = false.
Proof. by destruct b. Qed.

(** Turns an accepted validation into the facts it checked. *)
Ltac accepted :=
  repeat match goal with
  | H : result_bind ?r _ = Ok _ |- _ =>
      let u := fresh "u" in let E := fresh "E" in
      apply result_bind_ok in H as (u & E & H)
  | H : reject_if _ _ = Ok _ |- _ => apply reject_if_ok in H
  | H : ok_or _ _ = Ok _ |- _ => apply ok_or_ok in H
  | H : (_ || _) = false |- _ => apply orb_false_iff in H as [? ?]
  | H : (_ && _) = true |- _ => apply andb_true_iff in H as [? ?]
  | H : negb _ = false |- _ => apply negb_false_iff in H
  | H : negb _ = true |- _ => apply negb_true_iff in H
  | H : bool_decide _ = true |- _ => apply bool_decide_eq_true in H
  | H : bool_decide _ = false |- _ => apply bool_decide_eq_false in H
  | H : (_ =? _) = false |- _ => apply Z.eqb_neq in H
  | H : (_ <? _) = false |- _ => apply Z.ltb_ge in H
  | H : (_ <=? _) = true |- _ => apply Z.leb_le in H
  | H : Ok _ = Ok _ |- _ => injection H as <-
  end.

Lemma validate_lane_spec l names names' :
  validate_lane l names = Ok names' →
  (names' = lc_lane l :: names) ∧ lc_lane l ∉ names ∧
  valid_lane_name (lc_lane l) = true ∧ lc_concurrency l ≠ 0 ∧
  (lc_claim_batch_size l ≠ 0 ∧ lc_claim_batch_size l ≤ MAX_BATCH_SIZE) ∧
  (max_attempts (lc_retry l) ≠ 0 ∧ max_attempts (lc_retry l) ≤ MAX_TASK_ATTEMPTS) ∧
  (initial_delay (lc_retry l) ≠ 0 ∧
   initial_delay (lc_retry l) ≤ max_delay (lc_retry l) ≤ MAX_INTERVAL).
Proof. unfold validate_lane. intros H. accepted. naive_solver. Qed.

Lemma validate_lock_spec l maximum k u :
  validate_lock l maximum = Ok u → lc_lane_lock l = Some k →
  ll_batch_size k ≠ 0 ∧ ll_batch_size k ≤ maximum ∧
  (is_Some (ll_idle_hook k) ↔ is_Some (ll_busy_hook k)).
Proof.
  unfold validate_lock. intros H Hk. rewrite Hk in H. accepted.
  match goal with H : Bool.eqb _ _ = true |- _ => apply Bool.eqb_prop in H; rename H into Hp end.
  repeat split; try lia; intros Hi.
  - apply (bool_decide_eq_true _). by rewrite <- Hp, bool_decide_eq_true.
  - apply (bool_decide_eq_true _). by rewrite Hp, bool_decide_eq_true.
Qed.

Lemma validate_lane_valid l names names' u :
  validate_lane l names = Ok names' → validate_lock l (lc_claim_batch_size l) = Ok u →
  lane_valid l.
Proof.
  intros Hl Hk. apply validate_lane_spec in Hl as (_&_&?&?&?&?&?).
  split; try done. intros k ?. by eapply validate_lock_spec.
Qed.

Lemma validate_each_spec lanes names names' :
  validate_each lanes names = Ok names' → NoDup names →
  NoDup ((lc_lane <$> lanes) ++ names) ∧ Forall lane_valid lanes.
Proof.
  revert names. induction lanes as [|l lanes IH]; intros names H Hn; simpl in *; [done|].
  accepted. pose proof (validate_lane_valid _ _ _ _ E E0) as Hv.
  apply validate_lane_spec in E as (->&Hnin&_).
  apply IH in H as [H1 H2]; [|by constructor].
  split; [|by constructor].
  change (NoDup ([lc_lane l] ++ (lc_lane <$> lanes) ++ names)).
  by rewrite (Permutation_app_comm [lc_lane l]), <- app_assoc,
    (Permutation_app_comm names [lc_lane l]).
Qed.

Lemma validate_total_spec lanes names total total' :
  validate_total lanes names total = Ok total' → NoDup names →
  NoDup ((lc_lane <$> lanes) ++ names) ∧ Forall lane_valid lanes ∧
  total' = total + total_concurrency lanes.
Proof.
  revert names total. induction lanes as [|l lanes IH]; intros names total H Hn; simpl in *.
  { accepted. repeat split; [done|constructor|lia]. }
  accepted. pose proof (validate_lane_valid _ _ _ _ E E0) as Hv.
  apply validate_lane_spec in E as (->&Hnin&_).
  unfold usize_checked_add in E1. case_match; simplify_eq.
  apply IH in H as (H1&H2&->); [|by constructor].
  repeat split; [|by constructor|lia].
  change (NoDup ([lc_lane l] ++ (lc_lane <$> lanes) ++ names)).
  by rewrite (Permutation_app_comm [lc_lane l]), <- app_assoc,
    (Permutation_app_comm names [lc_lane l]).
Qed.

Lemma validate_lanes_spec lanes concurrency u :
  validate_lanes lanes concurrency = Ok u →
  NoDup (lc_lane <$> lanes) ∧ Forall lane_valid lanes ∧
  is_Some (find_lane DEFAULT_TASK_LANE lanes) ∧ zlen lanes ≤ MAX_TASK_LANES ∧
  total_concurrency lanes ≤ concurrency.
Proof.
  unfold validate_lanes. intros H. accepted.
  apply validate_total_spec in E1 as (Hn&Hv&->); [|constructor].
  rewrite app_nil_r in Hn. repeat split; try done.
  unfold find_lane. apply existsb_exists in E0 as (l&Hin&Hl).
  destruct (List.find _ lanes) eqn:Hf; [eauto|].
  by rewrite (List.find_none _ _ Hf l Hin) in Hl.
Qed.

Lemma compare_refl s : String.compare s s = Eq.
Proof. pose proof (String.compare_antisym s s). by destruct (String.compare s s). Qed.

Lemma lane_lookup_insert n k v m :
  lane_lookup n (lane_insert k v m) = if String.eqb k n then Some v else lane_lookup n m.
Proof.
  unfold lane_lookup. induction m as [|[k' v'] m IH]; simpl.
  { by destruct (String.eqb k n). }
  destruct (String.compare k k') eqn:Hc; simpl.
  - apply String.compare_eq_iff in Hc as <-. by destruct (String.eqb k n).
  - by destruct (String.eqb k n).
  - destruct (String.eqb k' n) eqn:Hk'; simpl; [|done].
    destruct (String.eqb k n) eqn:Hk; [|done].
    apply String.eqb_eq in Hk', Hk. subst. by rewrite compare_refl in Hc.
Qed.

Definition keys_match (m : LaneMap) : Prop := Forall (λ e, e.1 = lc_lane e.2) m.

Lemma keys_match_insert l m : keys_match m → keys_match (lane_insert (lc_lane l) l m).
Proof.
  unfold keys_match. induction 1 as [|[k v] m Hkv Hm IH]; simpl; [by repeat constructor|].
  case_match; repeat constructor; try done.
Qed.

Lemma lane_lookup_values n m : keys_match m → lane_lookup n m = find_lane n m.*2.
Proof.
  unfold lane_lookup, find_lane. induction 1 as [|[k v] m Hkv Hm IH]; simpl in *; [done|].
  subst k. by destruct (String.eqb (lc_lane v) n).
Qed.

Lemma lane_insert_fresh k v m :
  lane_lookup k m = None → lane_insert k v m ≡ₚ (k, v) :: m.
Proof.
  unfold lane_lookup. induction m as [|[k' v'] m IH]; simpl; [done|].
  destruct (String.compare k k') eqn:Hc; simpl; [|done|].
  - apply String.compare_eq_iff in Hc as <-. by rewrite String.eqb_refl.
  - destruct (String.eqb k' k); [done|]. intros H. rewrite IH by done. constructor.
Qed.

Lemma total_concurrency_perm l k : l ≡ₚ k → total_concurrency l = total_concurrency k.
Proof. induction 1; simpl in *; lia. Qed.

Lemma sum_concurrency_spec m sum sum' :
  sum_concurrency m sum = Ok sum' → sum' = sum + total_concurrency m.*2.
Proof.
  revert sum. induction m as [|[k l] m IH]; intros sum H; csimpl in *; accepted; [simpl; lia|].
  unfold usize_checked_add in E. case_match; simplify_eq. apply IH in H.
  simpl. lia.
Qed.

Lemma collect_lanes_from_spec defaults source m m' n :
  collect_lanes_from m defaults source = Ok m' → keys_match m →
  keys_match m' ∧
  lane_lookup n m' = match lane_lookup n m with
                     | Some l => Some l
                     | None => find_lane n defaults
                     end ∧
  (lane_lookup DEFAULT_TASK_LANE m = None → lane_lookup DEFAULT_TASK_LANE m' = None).
Proof.
  revert m. induction defaults as [|l ds IH]; intros m H Hm; simpl in *; accepted.
  { repeat split; try done. by destruct (lane_lookup n m). }
  apply IH in H as (H1&H2&H3); [|by apply keys_match_insert].
  split; [done|]. rewrite !lane_lookup_insert in *. split.
  - rewrite H2. destruct (String.eqb (lc_lane l) n) eqn:Hn; [|done].
    apply String.eqb_eq in Hn as <-.
    by match goal with Hs : ¬ is_Some _ |- _ => apply eq_None_not_Some in Hs as -> end.
  - intros Hd. apply H3. by rewrite E.
Qed.

Lemma insert_overrides_spec ls m n :
  NoDup (lc_lane <$> ls) → keys_match m →
  let m' := fold_left (λ m l, lane_insert (lc_lane l) l m) ls m in
  keys_match m' ∧
  lane_lookup n m' = match find_lane n ls with Some l => Some l | None => lane_lookup n m end.
Proof.
  revert m. induction ls as [|l ls IH]; intros m Hn Hm; simpl; [done|].
  apply NoDup_cons in Hn as [Hnin Hn].
  destruct (IH (lane_insert (lc_lane l) l m) Hn) as [H1 H2]; [by apply keys_match_insert|].
  split; [done|]. rewrite H2, lane_lookup_insert. unfold find_lane.
  destruct (String.eqb (lc_lane l) n) eqn:Hl; [|done].
  apply String.eqb_eq in Hl as <-.
  destruct (List.find _ ls) as [l'|] eqn:Hf; [|done].
  apply List.find_some in Hf as [Hin He]. apply String.eqb_eq in He.
  destruct Hnin. rewrite <- He. apply list_elem_of_fmap. exists l'.
  by rewrite list_elem_of_In.
Qed.

Lemma validate_overrides_of `{Externals} conf u :
  validate conf = Ok u → NoDup (lc_lane <$> cf_lanes conf).
Proof.
  unfold validate, validate_overrides. intros H0. accepted.
  apply validate_each_spec in E2 as [Hn _]; [|constructor]. by rewrite app_nil_r in Hn.
Qed.

(** ** Properties *)

(** Resolved lanes have distinct names, are each valid and within the lane and concurrency
    limits, and each name has the application's lane, else the bundled default, else, for the
    default lane only, a lane with the concurrency the others leave free, all of it being given out. *)
Theorem resolve_lanes_correct `{Externals} conf defaults lanes :
  resolve_lanes conf defaults = Ok lanes →
  NoDup (lc_lane <$> lanes) ∧ Forall lane_valid lanes ∧ zlen lanes ≤ MAX_TASK_LANES ∧
  total_concurrency lanes ≤ cf_concurrency conf ∧
  ∃ rest, ∀ name,
    find_lane name lanes =
    match find_lane name (cf_lanes conf), find_lane name defaults with
    | Some override, _ => Some override
    | None, Some bundled => Some bundled
    | None, None =>
        if String.eqb name DEFAULT_TASK_LANE
        then Some (lane_conf_new DEFAULT_TASK_LANE rest) else None
    end ∧
    (find_lane DEFAULT_TASK_LANE (cf_lanes conf) = None →
     total_concurrency lanes = cf_concurrency conf).
Proof.
  unfold resolve_lanes. intros H0. accepted.
  rename E into Hval, E0 into Hcol, E1 into Hins, E2 into Hlanes.
  apply validate_overrides_of in Hval. unfold collect_lanes in Hcol.
  assert (Hk0 : keys_match []) by constructor.
  destruct (collect_lanes_from_spec _ _ _ _ DEFAULT_TASK_LANE Hcol Hk0) as (Hk1&_&Hd).
  specialize (Hd eq_refl).
  assert (Hlook : ∀ n, lane_lookup n u0 = find_lane n defaults)
    by (intros n; by destruct (collect_lanes_from_spec _ _ _ _ n Hcol Hk0) as (_&->&_)).
  set (m := fold_left _ (cf_lanes conf) u0) in *.
  assert (Hk : keys_match m) by (by apply (insert_overrides_spec _ _ EmptyString)).
  assert (Hm : ∀ n, lane_lookup n m =
      match find_lane n (cf_lanes conf) with Some l => Some l | None => find_lane n defaults end).
  { intros n. rewrite <- Hlook. by apply insert_overrides_spec. }
  apply validate_lanes_spec in Hlanes as (Hn&Hv&Hdef&Hlen&Htot).
  repeat split; try done.
  unfold insert_default_lane in Hins. case_bool_decide as Hsome; accepted.
  - exists 0. intros name. rewrite <- lane_lookup_values by done. rewrite Hm.
    rewrite Hm, <- (Hlook DEFAULT_TASK_LANE), Hd in Hsome.
    split; [|intros Hnone; rewrite Hnone in Hsome; by destruct Hsome].
    destruct (find_lane name (cf_lanes conf)) eqn:?, (find_lane name defaults); try done.
    destruct (String.eqb name DEFAULT_TASK_LANE) eqn:He; [|done].
    apply String.eqb_eq in He as ->. rewrite Heqo in Hsome. by destruct Hsome.
  - apply eq_None_not_Some in Hsome. apply sum_concurrency_spec in E. case_match; simplify_eq.
    accepted. exists (cf_concurrency conf - (0 + total_concurrency m.*2)). intros name.
    rewrite <- lane_lookup_values by (by apply (keys_match_insert (lane_conf_new _ _))).
    rewrite lane_lookup_insert, Hm, (String.eqb_sym name). split.
    + destruct (String.eqb DEFAULT_TASK_LANE name) eqn:He.
      * apply String.eqb_eq in He as <-. rewrite Hm in Hsome.
        destruct (find_lane _ (cf_lanes conf)); [done|]. by rewrite Hsome.
      * by destruct (find_lane name (cf_lanes conf)), (find_lane name defaults).
    + intros _.
      match goal with |- context [lane_insert _ ?l m] =>
        pose proof (fmap_Permutation snd _ _ (lane_insert_fresh DEFAULT_TASK_LANE l m Hsome)) as Hp
      end.
      rewrite (total_concurrency_perm _ _ Hp). csimpl. simpl. lia.
Qed.

Lemma duration_mul_capped cap d :
  cap ≤ DURATION_MAX → Z.min (duration_saturating_mul d 2) cap = Z.min (d * 2) cap.
Proof. unfold duration_saturating_mul. lia. Qed.

Lemma delay_loop_closed n cap d :
  0 < d ≤ cap → cap ≤ DURATION_MAX →
  delay_loop n cap d = Z.min cap (d * 2 ^ Z.of_nat n).
Proof.
  revert d. induction n as [|n IH]; intros d Hd Hc; cbn [delay_loop].
  { rewrite Z.pow_0_r. lia. }
  rewrite duration_mul_capped by done.
  rewrite Nat2Z.inj_succ, Z.pow_succ_r by lia.
  assert (Hp : 1 ≤ 2 ^ Z.of_nat n) by (apply (Z.pow_le_mono_r 2 0); lia).
  destruct (Z.min (d * 2) cap =? cap) eqn:He.
  - apply Z.eqb_eq in He. rewrite He. symmetry. apply Z.min_l. nia.
  - apply Z.eqb_neq in He. assert (d * 2 < cap) by lia.
    rewrite Z.min_l, IH by lia. f_equal. lia.
Qed.

(** C40: the retry delay never fails and is the initial delay doubled once per attempt after the
    first, capped at the configured maximum; the loop stops within its fuel. *)
Theorem retry_delay_closed_form r attempts :
  0 < initial_delay r ≤ max_delay r → max_delay r ≤ MAX_INTERVAL → 0 ≤ attempts ≤ U32_MAX →
  retry_delay r attempts =
  Ok (Z.min (max_delay r) (initial_delay r * 2 ^ Z.max 0 (attempts - 1))).
Proof.
  intros Hd Hm Ha. unfold retry_delay, u32_try_from.
  rewrite (proj2 (Z.leb_le 0 attempts)), (proj2 (Z.leb_le attempts U32_MAX)) by lia.
  cbn [andb ok_or result_bind]. rewrite delay_loop_closed; [|lia|].
  - by replace (Z.of_nat (Z.to_nat (attempts - 1))) with (Z.max 0 (attempts - 1)) by lia.
  - transitivity MAX_INTERVAL; [done|]. by vm_compute.
Qed.

Lemma retry_delay_closed_form_witness :
  retry_delay DEFAULT_RETRY 4 = Ok (from_secs 8).
Proof.
  rewrite (retry_delay_closed_form DEFAULT_RETRY 4); [reflexivity|vm_compute; split; [reflexivity|discriminate]|vm_compute; discriminate|vm_compute; split; discriminate].
Defined.

(** Two bundle lanes, one overridden, and the default lane filled in. *)
Lemma resolve_lanes_correct_witness :
  let conf := add_lane (lane_conf_new "mail" 3) task_conf_default in
  let lanes := [lane_conf_new "default" 5; lane_conf_new "jobs" 2; lane_conf_new "mail" 3] in
  resolve_lanes (H := DemoExternals.externals) conf [lane_conf_new "jobs" 2; lane_conf_new "mail" 9] = Ok lanes ∧
  total_concurrency lanes ≤ 10.
Proof.
  intros conf lanes.
  assert (H : resolve_lanes (H := DemoExternals.externals) conf
                [lane_conf_new "jobs" 2; lane_conf_new "mail" 9] = Ok lanes) by (vm_compute; reflexivity).
  split; [exact H|]. exact (proj1 (proj2 (proj2 (proj2 (resolve_lanes_correct _ _ _ H))))).
Defined.
