(* ===== verification/Rate.v ===== *)
(** * Token buckets ([tasks/rate.rs], the bucket step of [reserve_permits])

    Fixed-point token buckets in millionths of a token. [RateBucket] is the
    store's bucket, refilled on the wall clock; [LocalRateBucket] is the
    runner's, refilled on a monotonic clock. *)
From S2P Require Import Prelude Externals Failure Config.
#[local] Open Scope Z_scope.

Definition TOKEN_SCALE : Z := 1000000.

Record RateBucket := { rb_tokens_micros : Z; rb_updated_at : DateTime }.

Definition set_tokens (v : Z) (b : RateBucket) : RateBucket :=
  {| rb_tokens_micros := v; rb_updated_at := rb_updated_at b |}.
Definition set_updated (v : DateTime) (b : RateBucket) : RateBucket :=
  {| rb_tokens_micros := rb_tokens_micros b; rb_updated_at := v |}.

Definition burst_tokens (rate : TaskRate) : Z :=
  i64_saturating (burst_size rate * TOKEN_SCALE).

Section Rate.
Context `{X : Externals}.

(** Moves the refill clock by the time the credited tokens took to accrue. *)
Definition advance_clock (credited period_micros : Z) (rate : TaskRate) :
    M RateBucket TaskRuntimeError unit :=
  let denominator := i128_saturating (rate_permits rate * TOKEN_SCALE) in
  let consumed := i128_saturating (credited * period_micros) / Z.max 1 denominator in
  do! consumed := liftR (ok_or (i64_try_from consumed)
                     (InvalidConfig "task rate interval is too large")) in
  do! b := getM in
  do! at_ := liftR (ok_or (checked_add_signed (rb_updated_at b) (consumed * 1000))
                     (InvalidConfig "task rate timestamp overflowed")) in
  modifyM (set_updated at_).

Definition apply_credit (credited period_micros : Z) (rate : TaskRate) (now : DateTime) :
    M RateBucket TaskRuntimeError unit :=
  let burst := burst_tokens rate in
  let credited := default I64_MAX (i64_try_from credited) in
  do! b := getM in
  let replenished := i64_saturating (rb_tokens_micros b + credited) in
  if burst <=? replenished then
    modifyM (λ _, {| rb_tokens_micros := burst; rb_updated_at := now |})
  else if 0 <? credited then
    modifyM (set_tokens replenished) ;! advance_clock credited period_micros rate
  else retM tt.

Definition refill (rate : TaskRate) (now : DateTime) : M RateBucket TaskRuntimeError unit :=
  do! b := getM in
  let elapsed := Z.max 0 (default 0 (td_num_microseconds (now - rb_updated_at b))) in
  do! period := liftR (ok_or (if as_micros (rate_period rate) <=? I128_MAX
                              then Some (as_micros (rate_period rate)) else None)
                        (InvalidConfig "task rate period is too large")) in
  let period := Z.max 1 period in
  let credited :=
    i128_saturating (i128_saturating (elapsed * rate_permits rate) * TOKEN_SCALE) / period in
  apply_credit credited period rate now.

Definition permit_delay (tokens_micros : Z) (rate : TaskRate) (accrued : Duration) :
    option Duration :=
  if TOKEN_SCALE <=? tokens_micros then None
  else
    let missing := i64_saturating (TOKEN_SCALE - Z.max 0 tokens_micros) in
    if negb (as_nanos (rate_period rate) <=? I128_MAX) then None
    else
      let period_nanos := as_nanos (rate_period rate) in
      let denominator := i128_saturating (rate_permits rate * TOKEN_SCALE) in
      let nanos :=
        i128_saturating (i128_saturating (missing * period_nanos)
                         + i128_saturating (denominator - 1)) / Z.max 1 denominator in
      match u64_try_from nanos with
      | Some total => Some (duration_saturating_sub total accrued)
      | None => None
      end.

Definition next_permit (tokens_micros : Z) (rate : TaskRate) (refill_at now : DateTime) :
    option Duration :=
  permit_delay tokens_micros rate (default 0 (td_to_std (now - refill_at))).

(** The bucket part of [reserve_permits]: refill, take at most [limit] whole tokens,
    and report when the next one is due. *)
Definition take_permits (limit : Z) (rate : TaskRate) (now : DateTime) :
    M RateBucket TaskRuntimeError (Z * option Duration) :=
  refill rate now ;!
  do! b := getM in
  let available :=
    default USIZE_MAX (usize_try_from (Z.quot (rb_tokens_micros b) TOKEN_SCALE)) in
  let permits := Z.min available limit in
  modifyM (set_tokens (i64_saturating (rb_tokens_micros b
            - i64_saturating (default I64_MAX (i64_try_from permits) * TOKEN_SCALE)))) ;!
  do! b := getM in
  retM (permits, next_permit (rb_tokens_micros b) rate (rb_updated_at b) now).

(** ** The runner's bucket *)

Record LocalRateBucket := {
  lb_rate : TaskRate;
  lb_tokens_micros : Z;
  lb_updated_at : Z;
}.

Definition local_new (rate : TaskRate) (now : Z) : LocalRateBucket :=
  {| lb_rate := rate; lb_tokens_micros := burst_tokens rate; lb_updated_at := now |}.

Definition local_credit (elapsed : Duration) (rate : TaskRate) : Z :=
  let period := Z.max 1 (as_micros (rate_period rate)) in
  let credited :=
    u128_saturating (u128_saturating (as_micros elapsed * rate_permits rate) * TOKEN_SCALE)
    / period in
  default I64_MAX (i64_try_from credited).

Definition local_advance_clock (credited now : Z) (b : LocalRateBucket) : LocalRateBucket :=
  let period := as_micros (rate_period (lb_rate b)) in
  let denominator := u128_saturating (rate_permits (lb_rate b) * TOKEN_SCALE) in
  let consumed :=
    u128_saturating ((if 0 <=? credited then credited else U128_MAX) * period)
    / Z.max 1 denominator in
  let consumed := default U64_MAX (u64_try_from consumed) in
  {| lb_rate := lb_rate b; lb_tokens_micros := lb_tokens_micros b;
     lb_updated_at := default now
       (instant_checked_add (lb_updated_at b) (from_micros consumed)) |}.

Definition local_refill (now : Z) (b : LocalRateBucket) : LocalRateBucket :=
  let elapsed := Z.max 0 (now - lb_updated_at b) in
  let credited := local_credit elapsed (lb_rate b) in
  let burst := burst_tokens (lb_rate b) in
  let replenished := i64_saturating (lb_tokens_micros b + credited) in
  if burst <=? replenished then
    {| lb_rate := lb_rate b; lb_tokens_micros := burst; lb_updated_at := now |}
  else if 0 <? credited then
    local_advance_clock credited now
      {| lb_rate := lb_rate b; lb_tokens_micros := replenished;
         lb_updated_at := lb_updated_at b |}
  else b.

Definition local_available (now : Z) (b : LocalRateBucket) : Z * LocalRateBucket :=
  let b := local_refill now b in
  (Z.max (lb_tokens_micros b) 0 / TOKEN_SCALE, b).

Definition local_consume (permits now : Z) (b : LocalRateBucket) : LocalRateBucket :=
  let b := local_refill now b in
  let permits := default I64_MAX (i64_try_from permits) in
  {| lb_rate := lb_rate b;
     lb_tokens_micros :=
       Z.max (i64_saturating (lb_tokens_micros b - i64_saturating (permits * TOKEN_SCALE))) 0;
     lb_updated_at := lb_updated_at b |}.

Definition local_next_permit (now : Z) (b : LocalRateBucket) :
    option Duration * LocalRateBucket :=
  let b := local_refill now b in
  (permit_delay (lb_tokens_micros b) (lb_rate b) (Z.max 0 (now - lb_updated_at b)), b).
End Rate.

(** ** Facts *)

(** A rate that passed [validate_rate]. *)
Record rate_valid (r : TaskRate) : Prop := {
  rv_permits : 1 ≤ rate_permits r ≤ U32_MAX;
  rv_burst : 1 ≤ burst_size r ≤ U32_MAX;
  rv_period : 1 ≤ as_micros (rate_period r);
  rv_nanos : as_nanos (rate_period r) ≤ U64_MAX;
}.

(** The bucket holds between zero and [burst] tokens. *)
Definition bucket_ok (r : TaskRate) (b : RateBucket) : Prop :=
  0 ≤ rb_tokens_micros b ≤ burst_size r * TOKEN_SCALE.

Lemma burst_tokens_eq r : rate_valid r → burst_tokens r = burst_size r * TOKEN_SCALE.
Proof.
  intros [_ Hb _ _]. unfold burst_tokens, i64_saturating, I64_MIN, I64_MAX, TOKEN_SCALE, U32_MAX in *. lia.
Qed.

(** What the bucket is worth at [now]: its tokens, and the time since its clock. *)
Definition potential (r : TaskRate) (b : RateBucket) (now : DateTime) : Z :=
  rb_tokens_micros b * as_micros (rate_period r) * 1000
  + rate_permits r * TOKEN_SCALE * (now - rb_updated_at b).

Section RateFacts.
Context `{X : Externals, L : !ExternalLaws X}.

(** Whole microseconds since the bucket's clock; none at all past [i64::MAX] of them. *)
Lemma elapsed_micros (d : TimeDelta) :
  0 ≤ d →
  let e := Z.max 0 (default 0 (td_num_microseconds d)) in
  0 ≤ e ≤ I64_MAX ∧ e * 1000 ≤ d ∧ (d ≤ I64_MAX → d < e * 1000 + 1000).
Proof.
  intros Hd. rewrite td_num_microseconds_spec. rewrite Z.quot_div_nonneg by lia.
  unfold i64_try_from, I64_MIN, I64_MAX.
  pose proof (Z.div_mod d 1000). pose proof (Z.mod_pos_bound d 1000).
  case_match eqn:Hc; simpl.
  - apply andb_true_iff in Hc as [? ?]. lia.
  - apply andb_false_iff in Hc as [?|?]; lia.
Qed.

Lemma credited_exact r e :
  rate_valid r → 0 ≤ e ≤ I64_MAX →
  i128_saturating (i128_saturating (e * rate_permits r) * TOKEN_SCALE) =
  e * rate_permits r * TOKEN_SCALE.
Proof.
  intros [Hp _ _ _] He. unfold i128_saturating, I128_MAX, TOKEN_SCALE, I64_MAX, U32_MAX in *.
  assert (0 ≤ e * rate_permits r ≤ 9223372036854775807 * 4294967295) by nia. lia.
Qed.

(** The three ways a refill that returned left the bucket: full, credited with the clock
    moved by what the credit took, or untouched. *)
Lemma refill_cases r now b u b' :
  rate_valid r → bucket_ok r b → rb_updated_at b ≤ now → refill r now b = (Ok u, b') →
  ∃ e c, 0 ≤ e ≤ I64_MAX ∧ e * 1000 ≤ now - rb_updated_at b ∧
    (now - rb_updated_at b ≤ I64_MAX → now - rb_updated_at b < e * 1000 + 1000) ∧
    c = Z.min I64_MAX (e * rate_permits r * TOKEN_SCALE / as_micros (rate_period r)) ∧
    ((burst_size r * TOKEN_SCALE ≤ rb_tokens_micros b + c ∧
      b' = {| rb_tokens_micros := burst_size r * TOKEN_SCALE; rb_updated_at := now |}) ∨
     (rb_tokens_micros b + c < burst_size r * TOKEN_SCALE ∧ 0 < c ∧
      b' = {| rb_tokens_micros := rb_tokens_micros b + c;
              rb_updated_at := rb_updated_at b +
                c * as_micros (rate_period r) / (rate_permits r * TOKEN_SCALE) * 1000 |}) ∨
     (rb_tokens_micros b + c < burst_size r * TOKEN_SCALE ∧ c = 0 ∧ b' = b)).
Proof.
  intros Hr Hb Hu H. pose proof (burst_tokens_eq r Hr) as HB.
  destruct (elapsed_micros (now - rb_updated_at b)) as (He&He'&He''); [lia|].
  unfold refill in H. run_ok. apply ok_or_ok in E.
  destruct (as_micros (rate_period r) <=? I128_MAX); [|done]. injection E as <-.
  set (e := Z.max 0 (default 0 (td_num_microseconds (now - rb_updated_at b)))) in *.
  rewrite credited_exact in H by done.
  destruct Hr as [Hp Hbu Hper Hns]. rewrite (Z.max_r 1) in H by lia.
  set (q := e * rate_permits r * TOKEN_SCALE / as_micros (rate_period r)) in *.
  assert (Hq : 0 ≤ q) by (apply Z.div_pos; unfold TOKEN_SCALE; nia).
  exists e, (Z.min I64_MAX q). repeat split; try tauto.
  assert (Hc : default I64_MAX (i64_try_from q) = Z.min I64_MAX q).
  { unfold i64_try_from. destruct (_ <=? q) eqn:E1, (q <=? _) eqn:E2; simpl;
      unfold I64_MIN, I64_MAX in *; lia. }
  unfold apply_credit in H. rewrite Hc, HB in H. clear Hc.
  set (c := Z.min I64_MAX q) in *. unfold bucket_ok in Hb.
  assert (Hc0 : 0 ≤ c ≤ I64_MAX) by (unfold c, I64_MAX; lia). clearbody c.
  assert (HBs : burst_size r * TOKEN_SCALE ≤ 4294967295000000)
    by (unfold TOKEN_SCALE, U32_MAX in *; lia).
  run_ok.
  destruct (_ <=? i64_saturating (rb_tokens_micros b + c)) eqn:Hfull; run_ok.
  - left. split; [|done]. apply Z.leb_le in Hfull.
    unfold i64_saturating, I64_MIN, I64_MAX in *. lia.
  - apply Z.leb_gt in Hfull. right.
    assert (Hsat : i64_saturating (rb_tokens_micros b + c) = rb_tokens_micros b + c)
      by (unfold i64_saturating, I64_MIN, I64_MAX in *; lia).
    rewrite Hsat in *. destruct (0 <? c) eqn:Hpos; run_ok.
    + apply Z.ltb_lt in Hpos. left. split; [done|split; [done|]].
      unfold advance_clock in H. run_ok. apply ok_or_ok in E, E0.
      apply checked_add_signed_exact in E0 as ->.
      assert (Hden : i128_saturating (rate_permits r * TOKEN_SCALE) = rate_permits r * TOKEN_SCALE)
        by (unfold i128_saturating, I128_MAX, TOKEN_SCALE, U32_MAX in *; lia).
      assert (Hnum : i128_saturating (c * as_micros (rate_period r)) = c * as_micros (rate_period r)).
      { assert (0 ≤ c * as_micros (rate_period r) ≤ 4294967295000000 * 18446744073709551615).
        { unfold as_nanos, as_micros, U64_MAX in *.
          assert (rate_period r / 1000 ≤ 18446744073709551615) by (apply Z.div_le_upper_bound; lia).
          nia. }
        unfold i128_saturating, I128_MAX. lia. }
      unfold set_updated. simpl. f_equal.
      rewrite Hden, Hnum, Z.max_r in E by (unfold TOKEN_SCALE; lia).
      unfold i64_try_from in E. case_match; by simplify_eq.
    + apply Z.ltb_ge in Hpos. right. split; [done|]. split; [lia|done].
Qed.
End RateFacts.

(** ** What the token buckets guarantee

    Rate limiting as a bound on what any sequence of claims can take, and the
    wake hint as a promise that a token is due. *)

(** Claims on one bucket, in order: how many tokens each asks for, and when. *)
Fixpoint take_sequence `{Externals} (r : TaskRate) (calls : list (Z * DateTime)) :
    M RateBucket TaskRuntimeError Z :=
  match calls with
  | [] => retM 0
  | (limit, now) :: calls =>
      do! granted := take_permits limit r now in
      do! rest := take_sequence r calls in
      retM (granted.1 + rest)
  end.

(** The claims happen between [start] and [finish], on a clock that does not go back. *)
Fixpoint calls_between (start : DateTime) (calls : list (Z * DateTime)) (finish : DateTime) : Prop :=
  match calls with
  | [] => start ≤ finish
  | (limit, now) :: calls => 0 ≤ limit ∧ start ≤ now ∧ calls_between now calls finish
  end.

Section RateFacts.
Context `{X : Externals, L : !ExternalLaws X}.

(** The rounding of the clock gives back less than one microsecond per refill. *)
Lemma refill_potential r now b u b' :
  rate_valid r → bucket_ok r b → rb_updated_at b ≤ now → refill r now b = (Ok u, b') →
  bucket_ok r b' ∧ rb_updated_at b' ≤ now ∧
  potential r b' now ≤ potential r b now + 1000 * (rate_permits r * TOKEN_SCALE).
Proof.
  intros Hr Hb Hu H.
  destruct (refill_cases _ _ _ _ _ Hr Hb Hu H) as (e&c&He&Hle&_&Hc&Hcases).
  destruct Hr as [Hp Hbu Hper _]. unfold bucket_ok, potential in *.
  set (P := as_micros (rate_period r)) in *. set (D := rate_permits r * TOKEN_SCALE) in *.
  assert (HD : 1 ≤ D) by (unfold D, TOKEN_SCALE; lia).
  assert (HcP : c * P ≤ e * D).
  { pose proof (Z.mul_div_le (e * rate_permits r * TOKEN_SCALE) P).
    unfold D. nia. }
  assert (Hc0 : 0 ≤ c).
  { subst c. apply Z.min_glb; [unfold I64_MAX; lia|]. apply Z.div_pos; unfold TOKEN_SCALE; nia. }
  destruct Hcases as [(Hfull&->)|[(Hlt&Hpos&->)|(Hlt&_&->)]]; simpl.
  - repeat split; [nia|lia|lia|]. nia.
  - pose proof (Z.div_mod (c * P) D). pose proof (Z.mod_pos_bound (c * P) D).
    set (k := c * P / D) in *.
    assert (k ≤ e) by (apply Z.div_le_upper_bound; lia).
    repeat split; [lia|lia|lia|]. nia.
  - repeat split; [lia|lia|lia|]. nia.
Qed.

Lemma available_tokens r b :
  rate_valid r → bucket_ok r b →
  default USIZE_MAX (usize_try_from (Z.quot (rb_tokens_micros b) TOKEN_SCALE)) =
  rb_tokens_micros b / TOKEN_SCALE ∧
  0 ≤ rb_tokens_micros b / TOKEN_SCALE ≤ U32_MAX.
Proof.
  intros [_ Hbu _ _] [Ht Ht'].
  assert (Hq : 0 ≤ rb_tokens_micros b / TOKEN_SCALE ≤ U32_MAX).
  { split; [by apply Z.div_pos|]. apply Z.div_le_upper_bound; unfold TOKEN_SCALE in *; lia. }
  split; [|done]. rewrite Z.quot_div_nonneg by (unfold TOKEN_SCALE in *; lia).
  unfold usize_try_from, U32_MAX, USIZE_MAX in *.
  destruct (0 <=? _) eqn:E1, (_ <=? 18446744073709551615) eqn:E2; simpl;
    rewrite ?Z.leb_gt in *; lia.
Qed.

Lemma take_permits_spec r limit now b n w b' :
  rate_valid r → bucket_ok r b → rb_updated_at b ≤ now → 0 ≤ limit →
  take_permits limit r now b = (Ok (n, w), b') →
  bucket_ok r b' ∧ rb_updated_at b' ≤ now ∧ 0 ≤ n ≤ limit ∧
  (w = next_permit (rb_tokens_micros b') r (rb_updated_at b') now) ∧
  potential r b' now + n * TOKEN_SCALE * as_micros (rate_period r) * 1000
  ≤ potential r b now + 1000 * (rate_permits r * TOKEN_SCALE).
Proof.
  intros Hr Hb Hu Hl H. unfold take_permits in H. run_ok.
  destruct (refill_potential _ _ _ _ _ Hr Hb Hu E) as (Hb1&Hu1&Hp1).
  destruct (available_tokens _ _ Hr Hb1) as [Hq Hav]. rewrite Hq. clear Hq.
  set (q := rb_tokens_micros t / TOKEN_SCALE) in *.
  assert (Hn : i64_try_from (Z.min q limit) = Some (Z.min q limit)).
  { unfold i64_try_from, I64_MIN, I64_MAX, U32_MAX in *.
    destruct (_ <=? Z.min _ _) eqn:E1, (Z.min _ _ <=? _) eqn:E2; simpl;
      rewrite ?Z.leb_gt in *; first [done|lia]. }
  assert (Hqt : q * TOKEN_SCALE ≤ rb_tokens_micros t)
    by (unfold q; rewrite Z.mul_comm; apply Z.mul_div_le; done).
  assert (HB : burst_size r * TOKEN_SCALE ≤ 4294967295000000)
    by (destruct Hr; unfold TOKEN_SCALE, U32_MAX in *; lia).
  assert (Hnew : i64_saturating (rb_tokens_micros t -
                   i64_saturating (Z.min q limit * TOKEN_SCALE)) =
                 rb_tokens_micros t - Z.min q limit * TOKEN_SCALE).
  { unfold bucket_ok, i64_saturating, I64_MIN, I64_MAX, TOKEN_SCALE, U32_MAX in *. lia. }
  rewrite Hn. cbn [default from_option id]. rewrite Hnew.
  unfold bucket_ok, potential in *. cbn [rb_tokens_micros rb_updated_at set_tokens].
  assert (0 ≤ Z.min q limit) by lia.
  repeat split; try (unfold TOKEN_SCALE in *; lia).
Qed.

Lemma take_sequence_potential r calls b total b' start finish :
  rate_valid r → bucket_ok r b → rb_updated_at b ≤ start →
  calls_between start calls finish → take_sequence r calls b = (Ok total, b') →
  0 ≤ total ∧
  total * TOKEN_SCALE * as_micros (rate_period r) * 1000
  ≤ potential r b start + rate_permits r * TOKEN_SCALE * (finish - start)
    + zlen calls * (1000 * (rate_permits r * TOKEN_SCALE)).
Proof.
  intros Hr. revert b total start.
  induction calls as [|[limit now] calls IH]; intros b total start Hb Hu Hc H; simpl in Hc, H.
  - run_ok. unfold potential, bucket_ok, zlen in *. destruct Hr. simpl.
    split; [lia|]. unfold TOKEN_SCALE in *. nia.
  - destruct Hc as (Hl&Hs&Hc). run_ok. destruct a as [n w].
    destruct (take_permits_spec _ _ _ _ _ _ _ Hr Hb (Z.le_trans _ _ _ Hu Hs) Hl E)
      as (Hb1&Hu1&Hn&_&Hp).
    destruct (IH _ _ _ Hb1 Hu1 Hc E0) as [Ht Hrest].
    unfold zlen in *. simpl length. rewrite Nat2Z.inj_succ. simpl. split; [lia|].
    unfold potential in *. nia.
Qed.

(** C39: whatever the calls, in time order, ask of a full bucket, the permits it gives between two
    clocks are at most the burst plus the configured permits per period over the elapsed time,
    apart from one microsecond's worth for each call. *)
Theorem rate_limit_bound r calls total b' start finish :
  rate_valid r → calls_between start calls finish →
  take_sequence r calls
    {| rb_tokens_micros := burst_tokens r; rb_updated_at := start |} = (Ok total, b') →
  0 ≤ total ∧
  total * (as_micros (rate_period r) * 1000)
  ≤ burst_size r * (as_micros (rate_period r) * 1000)
    + rate_permits r * (finish - start + 1000 * zlen calls).
Proof.
  intros Hr Hc H. rewrite burst_tokens_eq in H by done.
  assert (Hb : bucket_ok r {| rb_tokens_micros := burst_size r * TOKEN_SCALE;
                              rb_updated_at := start |}).
  { destruct Hr. unfold bucket_ok, TOKEN_SCALE. simpl. lia. }
  destruct (take_sequence_potential _ _ _ _ _ start finish Hr Hb (Z.le_refl _) Hc H) as [Ht Hp].
  split; [done|]. unfold potential in Hp. simpl in Hp. unfold TOKEN_SCALE in Hp. nia.
Qed.

(** The wake hint of a drained bucket is enough: a bucket that has a hint holds no whole
    token, and refilled a microsecond past the hinted delay it holds one. *)
Theorem next_permit_sufficient r b now wait later u b' :
  rate_valid r → bucket_ok r b → rb_updated_at b ≤ now →
  next_permit (rb_tokens_micros b) r (rb_updated_at b) now = Some wait →
  now + wait + 1000 ≤ later → later - rb_updated_at b ≤ I64_MAX →
  refill r later b = (Ok u, b') →
  rb_tokens_micros b < TOKEN_SCALE ∧ TOKEN_SCALE ≤ rb_tokens_micros b'.
Proof.
  intros Hr Hb Hu Hw Hlater Hmax H.
  unfold next_permit, permit_delay in Hw. rewrite td_to_std_nonneg in Hw by lia.
  destruct (TOKEN_SCALE <=? _) eqn:Hlow; [done|]. apply Z.leb_gt in Hlow.
  split; [done|]. pose proof Hr as [Hp Hbu Hper Hns]. pose proof Hb as [Ht Ht'].
  assert (Hns' : as_nanos (rate_period r) ≤ 18446744073709551615) by done.
  destruct (as_nanos (rate_period r) <=? I128_MAX) eqn:Hn; [|done]. simpl in Hw.
  set (Pn := as_nanos (rate_period r)) in *.
  assert (HPn : as_micros (rate_period r) * 1000 ≤ Pn)
    by (unfold as_micros, Pn, as_nanos; rewrite Z.mul_comm; by apply Z.mul_div_le).
  set (D := rate_permits r * TOKEN_SCALE) in *.
  assert (HD : 1 ≤ D ≤ 4294967295000000) by (unfold D, TOKEN_SCALE, U32_MAX in *; lia).
  set (m := TOKEN_SCALE - rb_tokens_micros b).
  assert (Hm : i64_saturating (TOKEN_SCALE - Z.max 0 (rb_tokens_micros b)) = m)
    by (unfold m, i64_saturating, I64_MIN, I64_MAX, TOKEN_SCALE in *; lia).
  assert (Hm1 : 1 ≤ m ≤ 1000000) by (unfold m, TOKEN_SCALE in *; lia).
  assert (Hmp : 0 ≤ m * Pn ≤ 1000000 * 18446744073709551615) by nia.
  rewrite Hm in Hw.
  assert (Hnum : i128_saturating (i128_saturating (m * Pn) + i128_saturating (i128_saturating D - 1))
                 = m * Pn + (D - 1)) by (unfold i128_saturating, I128_MAX in *; lia).
  assert (Hden : Z.max 1 (i128_saturating D) = D) by (unfold i128_saturating, I128_MAX; lia).
  rewrite Hnum, Hden in Hw.
  set (total := (m * Pn + (D - 1)) / D) in *.
  assert (Htot : m * Pn ≤ total * D)
    by (pose proof (Z.div_mod (m * Pn + (D - 1)) D); pose proof (Z.mod_pos_bound (m * Pn + (D - 1)) D);
        unfold total; lia).
  unfold u64_try_from in Hw. destruct ((0 <=? total) && _); [|done].
  injection Hw as <-. cbn [default from_option id] in Hlater.
  unfold duration_saturating_sub in Hlater.
  destruct (refill_cases r later b u b' Hr Hb ltac:(lia) H) as (e&c&He&Hle&Htight&Hc&Hcases).
  specialize (Htight Hmax).
  assert (He1 : total + 1 ≤ e * 1000) by lia.
  assert (Hmc : m ≤ c).
  { subst c. apply Z.min_glb; [unfold I64_MAX; lia|]. apply Z.div_le_lower_bound; [lia|].
    assert (as_micros (rate_period r) * 1000 * m ≤ Pn * m)
      by (apply Z.mul_le_mono_nonneg_r; lia).
    assert (total * D ≤ e * 1000 * D) by (apply Z.mul_le_mono_nonneg_r; lia).
    replace (e * rate_permits r * TOKEN_SCALE) with (e * D) by (unfold D; lia). lia. }
  destruct Hcases as [(_&->)|[(_&_&->)|(_&Hz&_)]]; simpl; unfold m, TOKEN_SCALE in *; lia.
Qed.
End RateFacts.

Lemma two_per_second_valid : rate_valid (per_second 2).
Proof. split; vm_compute; repeat split; discriminate. Qed.

(** Two per second: two at once, one more half a second later. *)
Lemma rate_limit_bound_witness :
  let calls := [(5, 0); (5, from_millis 500)] in
  (take_sequence (H := DemoExternals.externals) (per_second 2) calls
     {| rb_tokens_micros := burst_tokens (per_second 2); rb_updated_at := 0 |}).1 = Ok 3 ∧
  3 * 1000000000 ≤ 2 * 1000000000 + 2 * (from_millis 500 - 0 + 1000 * 2).
Proof.
  intros calls. split; [vm_compute; reflexivity|].
  exact (proj2 (rate_limit_bound (X := DemoExternals.externals) (L := DemoExternals.laws) (per_second 2) calls 3
    {| rb_tokens_micros := 0; rb_updated_at := from_millis 500 |} 0 (from_millis 500)
    two_per_second_valid
    ltac:(cbn; unfold from_millis; lia)
    ltac:(vm_compute; reflexivity))).
Defined.

(** An empty bucket of two per second is told to wait half a second, and then has a token. *)
Lemma next_permit_sufficient_witness :
  let b := {| rb_tokens_micros := 0; rb_updated_at := 0 |} in
  next_permit (X := DemoExternals.externals) 0 (per_second 2) 0 0 = Some (from_millis 500) ∧
  TOKEN_SCALE ≤ 1000002.
Proof.
  intros b. split; [vm_compute; reflexivity|].
  exact (proj2 (next_permit_sufficient (X := DemoExternals.externals) (L := DemoExternals.laws) (per_second 2) b 0
    (from_millis 500) (from_millis 500 + 1000) tt
    {| rb_tokens_micros := 1000002; rb_updated_at := from_millis 500 + 1000 |}
    two_per_second_valid
    ltac:(vm_compute; split; discriminate)
    ltac:(vm_compute; discriminate)
    ltac:(vm_compute; reflexivity)
    ltac:(vm_compute; discriminate)
    ltac:(vm_compute; discriminate)
    ltac:(vm_compute; reflexivity))).
Defined.
