(* ===== verification/Models.v ===== *)
(** * Task records, outcomes and the store protocol

    The values of [tasks/models.rs], [tasks/outcome.rs], [tasks/submission.rs],
    [tasks/store/lane.rs] and [tasks/store/contract.rs]: the persisted task
    record, what a handler can report, what a store is asked to write, claim
    and commit, and what it answers. A record field [f] of [TaskRecord] is the
    projection [t_f] and [set_f] is the assignment [task.f = v]. *)
From S2P Require Import Prelude Externals Failure Config.
#[local] Open Scope Z_scope.

Inductive TaskKind := Work | Flow.
#[export] Instance TaskKind_eq_dec : EqDecision TaskKind.
Proof. solve_decision. Defined.

Definition kind_as_i16 (k : TaskKind) : Z := match k with Work => 0 | Flow => 1 end.
Definition kind_from_i16 (value : Z) : result TaskRuntimeError TaskKind :=
  match value with
  | 0 => Ok Work
  | 1 => Ok Flow
  | _ => Err (TaskExecutionError ("invalid task kind value " +:+ pretty value)%string)
  end.

Record TaskRecord := {
  t_id : TaskId;
  t_parent_id : option TaskId;
  t_root_id : option TaskId;
  t_kind : TaskKind;
  t_name : string;
  t_input : string;
  t_state : option string;
  t_resume_input : option string;
  t_status : TaskStatus;
  t_cancelled : bool;
  t_attempts : Z;
  t_step_attempts : Z;
  t_lane : string;
  t_last_result : option string;
  t_idempotency_key : option string;
  t_idempotency_fingerprint : option string;
  t_idempotency_expires_at : option DateTime;
  t_node_id : option Uuid;
  t_ready_at : option DateTime;
  t_created_at : DateTime;
  t_updated_at : DateTime;
  t_completed_at : option DateTime;
}.

#[export] Instance TaskRecord_eq_dec : EqDecision TaskRecord.
Proof. solve_decision. Defined.

Definition set_parent_id (v : option TaskId) (r : TaskRecord) : TaskRecord :=
  {| t_id := t_id r; t_parent_id := v; t_root_id := t_root_id r; t_kind := t_kind r; t_name :=
     t_name r; t_input := t_input r; t_state := t_state r; t_resume_input := t_resume_input
     r; t_status := t_status r; t_cancelled := t_cancelled r; t_attempts := t_attempts r;
     t_step_attempts := t_step_attempts r; t_lane := t_lane r; t_last_result :=
     t_last_result r; t_idempotency_key := t_idempotency_key r; t_idempotency_fingerprint :=
     t_idempotency_fingerprint r; t_idempotency_expires_at := t_idempotency_expires_at r;
     t_node_id := t_node_id r; t_ready_at := t_ready_at r; t_created_at := t_created_at r;
     t_updated_at := t_updated_at r; t_completed_at := t_completed_at r |}.
Definition set_root_id (v : option TaskId) (r : TaskRecord) : TaskRecord :=
  {| t_id := t_id r; t_parent_id := t_parent_id r; t_root_id := v; t_kind := t_kind r; t_name :=
     t_name r; t_input := t_input r; t_state := t_state r; t_resume_input := t_resume_input
     r; t_status := t_status r; t_cancelled := t_cancelled r; t_attempts := t_attempts r;
     t_step_attempts := t_step_attempts r; t_lane := t_lane r; t_last_result :=
     t_last_result r; t_idempotency_key := t_idempotency_key r; t_idempotency_fingerprint :=
     t_idempotency_fingerprint r; t_idempotency_expires_at := t_idempotency_expires_at r;
     t_node_id := t_node_id r; t_ready_at := t_ready_at r; t_created_at := t_created_at r;
     t_updated_at := t_updated_at r; t_completed_at := t_completed_at r |}.
Definition set_state (v : option string) (r : TaskRecord) : TaskRecord :=
  {| t_id := t_id r; t_parent_id := t_parent_id r; t_root_id := t_root_id r; t_kind := t_kind r;
     t_name := t_name r; t_input := t_input r; t_state := v; t_resume_input :=
     t_resume_input r; t_status := t_status r; t_cancelled := t_cancelled r; t_attempts :=
     t_attempts r; t_step_attempts := t_step_attempts r; t_lane := t_lane r; t_last_result
     := t_last_result r; t_idempotency_key := t_idempotency_key r; t_idempotency_fingerprint
     := t_idempotency_fingerprint r; t_idempotency_expires_at := t_idempotency_expires_at r;
     t_node_id := t_node_id r; t_ready_at := t_ready_at r; t_created_at := t_created_at r;
     t_updated_at := t_updated_at r; t_completed_at := t_completed_at r |}.
Definition set_resume_input (v : option string) (r : TaskRecord) : TaskRecord :=
  {| t_id := t_id r; t_parent_id := t_parent_id r; t_root_id := t_root_id r; t_kind := t_kind r;
     t_name := t_name r; t_input := t_input r; t_state := t_state r; t_resume_input := v;
     t_status := t_status r; t_cancelled := t_cancelled r; t_attempts := t_attempts r;
     t_step_attempts := t_step_attempts r; t_lane := t_lane r; t_last_result :=
     t_last_result r; t_idempotency_key := t_idempotency_key r; t_idempotency_fingerprint :=
     t_idempotency_fingerprint r; t_idempotency_expires_at := t_idempotency_expires_at r;
     t_node_id := t_node_id r; t_ready_at := t_ready_at r; t_created_at := t_created_at r;
     t_updated_at := t_updated_at r; t_completed_at := t_completed_at r |}.
Definition set_status (v : TaskStatus) (r : TaskRecord) : TaskRecord :=
  {| t_id := t_id r; t_parent_id := t_parent_id r; t_root_id := t_root_id r; t_kind := t_kind r;
     t_name := t_name r; t_input := t_input r; t_state := t_state r; t_resume_input :=
     t_resume_input r; t_status := v; t_cancelled := t_cancelled r; t_attempts := t_attempts
     r; t_step_attempts := t_step_attempts r; t_lane := t_lane r; t_last_result :=
     t_last_result r; t_idempotency_key := t_idempotency_key r; t_idempotency_fingerprint :=
     t_idempotency_fingerprint r; t_idempotency_expires_at := t_idempotency_expires_at r;
     t_node_id := t_node_id r; t_ready_at := t_ready_at r; t_created_at := t_created_at r;
     t_updated_at := t_updated_at r; t_completed_at := t_completed_at r |}.
Definition set_cancelled (v : bool) (r : TaskRecord) : TaskRecord :=
  {| t_id := t_id r; t_parent_id := t_parent_id r; t_root_id := t_root_id r; t_kind := t_kind r;
     t_name := t_name r; t_input := t_input r; t_state := t_state r; t_resume_input :=
     t_resume_input r; t_status := t_status r; t_cancelled := v; t_attempts := t_attempts r;
     t_step_attempts := t_step_attempts r; t_lane := t_lane r; t_last_result :=
     t_last_result r; t_idempotency_key := t_idempotency_key r; t_idempotency_fingerprint :=
     t_idempotency_fingerprint r; t_idempotency_expires_at := t_idempotency_expires_at r;
     t_node_id := t_node_id r; t_ready_at := t_ready_at r; t_created_at := t_created_at r;
     t_updated_at := t_updated_at r; t_completed_at := t_completed_at r |}.
Definition set_attempts (v : Z) (r : TaskRecord) : TaskRecord :=
  {| t_id := t_id r; t_parent_id := t_parent_id r; t_root_id := t_root_id r; t_kind := t_kind r;
     t_name := t_name r; t_input := t_input r; t_state := t_state r; t_resume_input :=
     t_resume_input r; t_status := t_status r; t_cancelled := t_cancelled r; t_attempts :=
     v; t_step_attempts := t_step_attempts r; t_lane := t_lane r; t_last_result :=
     t_last_result r; t_idempotency_key := t_idempotency_key r; t_idempotency_fingerprint :=
     t_idempotency_fingerprint r; t_idempotency_expires_at := t_idempotency_expires_at r;
     t_node_id := t_node_id r; t_ready_at := t_ready_at r; t_created_at := t_created_at r;
     t_updated_at := t_updated_at r; t_completed_at := t_completed_at r |}.
Definition set_step_attempts (v : Z) (r : TaskRecord) : TaskRecord :=
  {| t_id := t_id r; t_parent_id := t_parent_id r; t_root_id := t_root_id r; t_kind := t_kind r;
     t_name := t_name r; t_input := t_input r; t_state := t_state r; t_resume_input :=
     t_resume_input r; t_status := t_status r; t_cancelled := t_cancelled r; t_attempts :=
     t_attempts r; t_step_attempts := v; t_lane := t_lane r; t_last_result := t_last_result
     r; t_idempotency_key := t_idempotency_key r; t_idempotency_fingerprint :=
     t_idempotency_fingerprint r; t_idempotency_expires_at := t_idempotency_expires_at r;
     t_node_id := t_node_id r; t_ready_at := t_ready_at r; t_created_at := t_created_at r;
     t_updated_at := t_updated_at r; t_completed_at := t_completed_at r |}.
Definition set_lane (v : string) (r : TaskRecord) : TaskRecord :=
  {| t_id := t_id r; t_parent_id := t_parent_id r; t_root_id := t_root_id r; t_kind := t_kind r;
     t_name := t_name r; t_input := t_input r; t_state := t_state r; t_resume_input :=
     t_resume_input r; t_status := t_status r; t_cancelled := t_cancelled r; t_attempts :=
     t_attempts r; t_step_attempts := t_step_attempts r; t_lane := v; t_last_result :=
     t_last_result r; t_idempotency_key := t_idempotency_key r; t_idempotency_fingerprint :=
     t_idempotency_fingerprint r; t_idempotency_expires_at := t_idempotency_expires_at r;
     t_node_id := t_node_id r; t_ready_at := t_ready_at r; t_created_at := t_created_at r;
     t_updated_at := t_updated_at r; t_completed_at := t_completed_at r |}.
Definition set_last_result (v : option string) (r : TaskRecord) : TaskRecord :=
  {| t_id := t_id r; t_parent_id := t_parent_id r; t_root_id := t_root_id r; t_kind := t_kind r;
     t_name := t_name r; t_input := t_input r; t_state := t_state r; t_resume_input :=
     t_resume_input r; t_status := t_status r; t_cancelled := t_cancelled r; t_attempts :=
     t_attempts r; t_step_attempts := t_step_attempts r; t_lane := t_lane r; t_last_result
     := v; t_idempotency_key := t_idempotency_key r; t_idempotency_fingerprint :=
     t_idempotency_fingerprint r; t_idempotency_expires_at := t_idempotency_expires_at r;
     t_node_id := t_node_id r; t_ready_at := t_ready_at r; t_created_at := t_created_at r;
     t_updated_at := t_updated_at r; t_completed_at := t_completed_at r |}.
Definition set_idempotency_expires_at (v : option DateTime) (r : TaskRecord) : TaskRecord :=
  {| t_id := t_id r; t_parent_id := t_parent_id r; t_root_id := t_root_id r; t_kind := t_kind r;
     t_name := t_name r; t_input := t_input r; t_state := t_state r; t_resume_input :=
     t_resume_input r; t_status := t_status r; t_cancelled := t_cancelled r; t_attempts :=
     t_attempts r; t_step_attempts := t_step_attempts r; t_lane := t_lane r; t_last_result
     := t_last_result r; t_idempotency_key := t_idempotency_key r; t_idempotency_fingerprint
     := t_idempotency_fingerprint r; t_idempotency_expires_at := v; t_node_id := t_node_id
     r; t_ready_at := t_ready_at r; t_created_at := t_created_at r; t_updated_at :=
     t_updated_at r; t_completed_at := t_completed_at r |}.
Definition set_node_id (v : option Uuid) (r : TaskRecord) : TaskRecord :=
  {| t_id := t_id r; t_parent_id := t_parent_id r; t_root_id := t_root_id r; t_kind := t_kind r;
     t_name := t_name r; t_input := t_input r; t_state := t_state r; t_resume_input :=
     t_resume_input r; t_status := t_status r; t_cancelled := t_cancelled r; t_attempts :=
     t_attempts r; t_step_attempts := t_step_attempts r; t_lane := t_lane r; t_last_result
     := t_last_result r; t_idempotency_key := t_idempotency_key r; t_idempotency_fingerprint
     := t_idempotency_fingerprint r; t_idempotency_expires_at := t_idempotency_expires_at r;
     t_node_id := v; t_ready_at := t_ready_at r; t_created_at := t_created_at r;
     t_updated_at := t_updated_at r; t_completed_at := t_completed_at r |}.
Definition set_ready_at (v : option DateTime) (r : TaskRecord) : TaskRecord :=
  {| t_id := t_id r; t_parent_id := t_parent_id r; t_root_id := t_root_id r; t_kind := t_kind r;
     t_name := t_name r; t_input := t_input r; t_state := t_state r; t_resume_input :=
     t_resume_input r; t_status := t_status r; t_cancelled := t_cancelled r; t_attempts :=
     t_attempts r; t_step_attempts := t_step_attempts r; t_lane := t_lane r; t_last_result
     := t_last_result r; t_idempotency_key := t_idempotency_key r; t_idempotency_fingerprint
     := t_idempotency_fingerprint r; t_idempotency_expires_at := t_idempotency_expires_at r;
     t_node_id := t_node_id r; t_ready_at := v; t_created_at := t_created_at r; t_updated_at
     := t_updated_at r; t_completed_at := t_completed_at r |}.
Definition set_created_at (v : DateTime) (r : TaskRecord) : TaskRecord :=
  {| t_id := t_id r; t_parent_id := t_parent_id r; t_root_id := t_root_id r; t_kind := t_kind r;
     t_name := t_name r; t_input := t_input r; t_state := t_state r; t_resume_input :=
     t_resume_input r; t_status := t_status r; t_cancelled := t_cancelled r; t_attempts :=
     t_attempts r; t_step_attempts := t_step_attempts r; t_lane := t_lane r; t_last_result
     := t_last_result r; t_idempotency_key := t_idempotency_key r; t_idempotency_fingerprint
     := t_idempotency_fingerprint r; t_idempotency_expires_at := t_idempotency_expires_at r;
     t_node_id := t_node_id r; t_ready_at := t_ready_at r; t_created_at := v; t_updated_at
     := t_updated_at r; t_completed_at := t_completed_at r |}.
Definition set_updated_at (v : DateTime) (r : TaskRecord) : TaskRecord :=
  {| t_id := t_id r; t_parent_id := t_parent_id r; t_root_id := t_root_id r; t_kind := t_kind r;
     t_name := t_name r; t_input := t_input r; t_state := t_state r; t_resume_input :=
     t_resume_input r; t_status := t_status r; t_cancelled := t_cancelled r; t_attempts :=
     t_attempts r; t_step_attempts := t_step_attempts r; t_lane := t_lane r; t_last_result
     := t_last_result r; t_idempotency_key := t_idempotency_key r; t_idempotency_fingerprint
     := t_idempotency_fingerprint r; t_idempotency_expires_at := t_idempotency_expires_at r;
     t_node_id := t_node_id r; t_ready_at := t_ready_at r; t_created_at := t_created_at r;
     t_updated_at := v; t_completed_at := t_completed_at r |}.
Definition set_completed_at (v : option DateTime) (r : TaskRecord) : TaskRecord :=
  {| t_id := t_id r; t_parent_id := t_parent_id r; t_root_id := t_root_id r; t_kind := t_kind r;
     t_name := t_name r; t_input := t_input r; t_state := t_state r; t_resume_input :=
     t_resume_input r; t_status := t_status r; t_cancelled := t_cancelled r; t_attempts :=
     t_attempts r; t_step_attempts := t_step_attempts r; t_lane := t_lane r; t_last_result
     := t_last_result r; t_idempotency_key := t_idempotency_key r; t_idempotency_fingerprint
     := t_idempotency_fingerprint r; t_idempotency_expires_at := t_idempotency_expires_at r;
     t_node_id := t_node_id r; t_ready_at := t_ready_at r; t_created_at := t_created_at r;
     t_updated_at := t_updated_at r; t_completed_at := v |}.

Record TaskInfo := {
  i_id : TaskId;
  i_parent_id : option TaskId;
  i_root_id : option TaskId;
  i_kind : TaskKind;
  i_name : string;
  i_input : string;
  i_state : option string;
  i_resume_input : option string;
  i_status : TaskStatus;
  i_cancelled : bool;
  i_attempts : Z;
  i_step_attempts : Z;
  i_lane : string;
  i_last_result : option string;
  i_idempotency_key : option string;
  i_idempotency_expires_at : option DateTime;
  i_node_id : option Uuid;
  i_ready_at : option DateTime;
  i_created_at : DateTime;
  i_updated_at : DateTime;
  i_completed_at : option DateTime;
}.

Definition task_info_from (r : TaskRecord) : TaskInfo :=
  {| i_id := t_id r; i_parent_id := t_parent_id r; i_root_id := t_root_id r; i_kind := t_kind r;
     i_name := t_name r; i_input := t_input r; i_state := t_state r; i_resume_input :=
     t_resume_input r; i_status := t_status r; i_cancelled := t_cancelled r; i_attempts :=
     t_attempts r; i_step_attempts := t_step_attempts r; i_lane := t_lane r; i_last_result
     := t_last_result r; i_idempotency_key := t_idempotency_key r; i_idempotency_expires_at
     := t_idempotency_expires_at r; i_node_id := t_node_id r; i_ready_at := t_ready_at r;
     i_created_at := t_created_at r; i_updated_at := t_updated_at r; i_completed_at :=
     t_completed_at r |}.

(** ** Submission and outcomes *)

Record TaskWrite := {
  w_record : TaskRecord;
  w_ignore_conflicts : bool;
  w_initial_delay : option Duration;
}.

Definition on_record (f : TaskRecord → TaskRecord) (w : TaskWrite) : TaskWrite :=
  {| w_record := f (w_record w); w_ignore_conflicts := w_ignore_conflicts w;
     w_initial_delay := w_initial_delay w |}.

Inductive TaskReceipt := Queued (id : TaskId) | Existing (id : TaskId) | Ignored (id : TaskId).

Definition receipt_id (r : TaskReceipt) : TaskId :=
  match r with Queued id | Existing id | Ignored id => id end.

Inductive TaskOutcome :=
  | OutAll (state : string) (children : list TaskWrite)
  | OutComplete
  | OutCompleteWith (output : string)
  | OutSpawn (state : string) (child : TaskWrite)
  | OutSuspend (state : string)
  | OutSleep (state : string) (delay : Duration)
  | OutRetry (error : string)
  | OutFail (error : string).

Definition outcome_fail (error : string) : TaskOutcome := OutFail error.
Definition handler_failed : TaskOutcome := outcome_fail "Task handler failed".

Section Normalize.
Context `{X : Externals}.

(** Bounds handler-controlled data before it reaches a store. The arms are tried in
    order, as the guarded [match] does. *)
Definition normalize_outcome (outcome : TaskOutcome) (payload_limit error_limit : Z) :
    TaskOutcome :=
  let too_large := outcome_fail "Task continuation state exceeded the configured limit" in
  match outcome with
  | OutSpawn state _ | OutAll state _ =>
      if payload_limit <? str_len state then too_large else outcome
  | OutCompleteWith output =>
      if is_ok (validate_output output) then outcome
      else outcome_fail "Task output was invalid JSON or exceeded the 32768-byte result limit"
  | OutSuspend state => if payload_limit <? str_len state then too_large else outcome
  | OutSleep state delay =>
      if payload_limit <? str_len state then too_large
      else if MAX_TASK_DELAY <? delay
           then outcome_fail "Task sleep duration exceeded the configured limit"
      else outcome
  | OutRetry error => OutRetry (truncate_utf8 error error_limit)
  | OutFail error => OutFail (truncate_utf8 error error_limit)
  | OutComplete => outcome
  end.
End Normalize.

(** ** Lane leases ([store/lane.rs]) *)

Inductive LaneHookAction := HookIdle | HookBusy.
#[export] Instance LaneHookAction_eq_dec : EqDecision LaneHookAction.
Proof. solve_decision. Defined.

Inductive LaneOwnerPhase := Active | Idling | Idle | Busying | IdleFailed | BusyFailed.
#[export] Instance LaneOwnerPhase_eq_dec : EqDecision LaneOwnerPhase.
Proof. solve_decision. Defined.

Definition phase_from_i16 (value : Z) : result TaskRuntimeError LaneOwnerPhase :=
  match value with
  | 0 => Ok Active
  | 1 => Ok Idling
  | 2 => Ok Idle
  | 3 => Ok Busying
  | 4 => Ok IdleFailed
  | 5 => Ok BusyFailed
  | _ => Err (TaskExecutionError ("invalid task lane owner phase " +:+ pretty value)%string)
  end.

Record LaneHookResult := {
  hr_generation : Z;
  hr_action : LaneHookAction;
  hr_result : result string unit;
}.

Record LaneOwnerRequest := {
  or_token : option string;
  or_quiescent : bool;
  or_allow_claim : bool;
  or_completed_work : bool;
  or_hook : option LaneHookResult;
}.

Record LaneOwnerPoll := {
  op_token : option string;
  op_generation : Z;
  op_phase : LaneOwnerPhase;
  op_action : option LaneHookAction;
  op_takeover : bool;
}.

(** ** Claims and commits ([store/contract.rs]) *)

Record LaneClaim := {
  lcl_lane : TaskLane;
  lcl_limit : Z;
  lcl_owner : option LaneOwnerRequest;
}.

Record LanePoll := {
  lp_lane : TaskLane;
  lp_tasks : list TaskRecord;
  lp_reclaimed : Z;
  lp_saturated : bool;
  lp_next_wake_in : option Duration;
  lp_owner : option LaneOwnerPoll;
}.

Record TaskPoll := { tp_wake_lanes : list TaskLane; tp_lanes : list LanePoll }.

Record CommitResult := {
  cr_wake_lanes : list TaskLane;
  cr_rejected : list TaskId;
  cr_tasks : list TaskRecord;
}.

Inductive TaskCommit :=
  | CommitOutcome (node_id : Uuid) (attempts : Z) (task_id : TaskId) (lane : TaskLane)
      (outcome : TaskOutcome) (owner_token : option string)
  | CommitCancel (task_id : TaskId).

Definition commit_task_id (c : TaskCommit) : TaskId :=
  match c with CommitOutcome _ _ id _ _ _ | CommitCancel id => id end.
Definition commit_lane (c : TaskCommit) : option TaskLane :=
  match c with CommitOutcome _ _ _ lane _ _ => Some lane | CommitCancel _ => None end.
Definition commit_outcome (c : TaskCommit) : option TaskOutcome :=
  match c with CommitOutcome _ _ _ _ outcome _ => Some outcome | CommitCancel _ => None end.
Definition commit_is_cancel (c : TaskCommit) : bool :=
  match c with CommitCancel _ => true | CommitOutcome _ _ _ _ _ _ => false end.

(** The execution evidence an outcome must match; cancellation needs none. *)
Definition accepts (c : TaskCommit) (status : TaskStatus) (node : option Uuid) (attempt : Z) :
    bool :=
  match c with
  | CommitCancel _ => is_active status
  | CommitOutcome node_id attempts _ _ _ _ =>
      bool_decide (status = Running) && bool_decide (node = Some node_id) && (attempt =? attempts)
  end.

Record TaskIdempotencyConf := {
  ic_handler : string;
  ic_lane : string;
  ic_revision : string;
  ic_retention : IdempotencyRetention;
}.

Record TaskStoreConf := {
  sc_max_all_children : Z;
  sc_handlers : list (string * TaskKind);
  sc_lanes : list TaskLaneConf;
  sc_idempotency : list TaskIdempotencyConf;
  sc_poll_interval : Duration;
}.

Definition idempotency_for (conf : TaskStoreConf) (handler : string) :
    option IdempotencyRetention :=
  ic_retention <$> List.find (λ p, String.eqb (ic_handler p) handler) (sc_idempotency conf).

(** [conf.lanes.iter().find(|lane| lane.lane() == name)], written at each of its uses. *)
Definition conf_lane (conf : TaskStoreConf) (name : string) : option TaskLaneConf :=
  List.find (λ l, String.eqb (lc_lane l) name) (sc_lanes conf).

Record ScheduledTaskWrite := {
  sw_name : string;
  sw_occurrence : DateTime;
  sw_write : TaskWrite;
}.

Record TaskScheduleSnapshot := {
  ss_now : DateTime;
  ss_cursors : gmap string DateTime;
}.

(** Evidence kept about a commit whose acknowledgement was lost. *)
Inductive StoreFailure (T : Type) :=
  | BeforeCommit (error : TaskRuntimeError)
  | CommitUnknown (error : TaskRuntimeError) (prepared : T).
Arguments BeforeCommit {T} error.
Arguments CommitUnknown {T} error prepared.

Definition failure_map {T U} (convert : T → U) (f : StoreFailure T) : StoreFailure U :=
  match f with
  | BeforeCommit error => BeforeCommit error
  | CommitUnknown error prepared => CommitUnknown error (convert prepared)
  end.
Definition retain {T} (original : T) (f : StoreFailure T) : StoreFailure T :=
  match f with
  | BeforeCommit error => CommitUnknown error original
  | CommitUnknown error _ => CommitUnknown error original
  end.

Definition merge_wakes (target incoming : list TaskLane) : list TaskLane :=
  fold_left (λ target lane, if bool_decide (lane ∈ target) then target else target ++ [lane])
    incoming target.

Definition recovery_token (claim : LaneClaim) (prepared : TaskPoll) (token : option string) : bool :=
  match token with
  | None => false
  | Some token =>
      bool_decide ((lcl_owner claim ≫= or_token) = Some token)
      || existsb (λ lane, String.eqb (lp_lane lane) (lcl_lane claim)
                          && bool_decide ((lp_owner lane ≫= op_token) = Some token))
           (tp_lanes prepared)
  end.

Definition validate_coordination (claims : list LaneClaim) : result TaskRuntimeError unit :=
  reject_if (existsb (λ c, match lcl_owner c with None => true | Some o => or_allow_claim o end)
               claims)
    (InvalidOptions "lane coordination cannot claim work").

(** ** Inspection filters *)

Record TaskFilter := {
  f_status : option TaskStatus;
  f_name : option string;
  f_lane : option string;
  f_idempotency_key : option string;
  f_created_from : option DateTime;
  f_created_to : option DateTime;
  f_query : option string;
  f_page : Z;
  f_per_page : Z;
}.

Definition filter_default : TaskFilter :=
  {| f_status := None; f_name := None; f_lane := None; f_idempotency_key := None;
     f_created_from := None; f_created_to := None; f_query := None; f_page := 1;
     f_per_page := 50 |}.

(** [mool]'s [Page]: one page of records and what it was cut from. *)
Record Page (A : Type) := { pg_items : list A; pg_total : Z; pg_page : Z; pg_per_page : Z }.
Arguments pg_items {A} p : rename.
Arguments pg_total {A} p : rename.
Arguments pg_page {A} p : rename.
Arguments pg_per_page {A} p : rename.
