(* ===== verification/Transitions.v ===== *)
(** * Transitions shared by the durable and in-memory stores ([tasks/store/transitions.rs])

    Direct admission, capability checks, terminal results, the budget of one
    turn, validation of an [all] group and the encoding of its results. A body
    that takes [&mut TaskRecord] is an [M TaskRecord]; [append_result] returns
    the buffer it leaves when it succeeds. *)
From S2P Require Import Prelude Externals Failure Config Models.
#[local] Open Scope Z_scope.

Definition sticky (record : TaskRecord) (conf : TaskStoreConf) : bool :=
  match conf_lane conf (t_lane record) with Some lane => is_sticky lane | None => false end.

(** [ready_at.is_none_or(|at| at <= now)]. *)
Definition ready_by (record : TaskRecord) (now : DateTime) : bool :=
  match t_ready_at record with None => true | Some at_ => at_ <=? now end.

Definition direct (record : TaskRecord) (conf : TaskStoreConf) (now : DateTime) : bool :=
  bool_decide (t_status record = Pending) && negb (t_cancelled record) && ready_by record now &&
  match conf_lane conf (t_lane record) with
  | Some lane =>
      bool_decide (lc_lane_lock lane = None)
      && (bool_decide (t_kind record = Flow) || bool_decide (lc_global_rate lane = None))
  | None => false
  end.

(** The two checked counters, ownership and the clock, which [admit] and the store's
    [claim_task] write alike; a failed check leaves what was written before it. *)
Definition admit_record (node : Uuid) (now : DateTime) : M TaskRecord TaskRuntimeError unit :=
  do! record := getM in
  do! attempts := liftR (ok_or (i32_checked_add (t_attempts record) 1)
                           (TaskExecutionError "task attempt count overflowed")) in
  modifyM (set_attempts attempts) ;!
  do! step := liftR (ok_or (i32_checked_add (t_step_attempts record) 1)
                       (TaskExecutionError "task step attempt count overflowed")) in
  modifyM (set_step_attempts step) ;!
  modifyM (set_status Running) ;!
  modifyM (set_node_id (Some node)) ;!
  modifyM (set_updated_at now).

Definition has_handler (handlers : list (string * TaskKind)) (record : TaskRecord) : bool :=
  existsb (λ h, String.eqb h.1 (t_name record) && bool_decide (h.2 = t_kind record)) handlers.

Definition capability_error (kind : TaskKind) (outcome : TaskOutcome)
    (handlers : list (string * TaskKind)) : option string :=
  match kind, outcome with
  | Work, (OutSleep _ _ | OutSpawn _ _ | OutAll _ _) => Some "Work tasks cannot sleep or spawn"%string
  | Flow, OutRetry _ => Some "Flow handlers cannot request retry"%string
  | _, OutSpawn _ child =>
      if has_handler handlers (w_record child) then None
      else Some "Child task kind does not match registered handler"%string
  | _, _ => None
  end.

Definition cancellation : TaskOutcome := outcome_fail "Task cancelled".

Definition terminal_result (status : TaskStatus) (result : option string) :
    Prelude.result TaskRuntimeError (option string) :=
  match status with
  | Succeeded | Failed =>
      let? value := ok_or result (TaskExecutionError "Terminal outcome omitted its result") in
      Ok (Some value)
  | _ => Ok None
  end.

Definition weight (outcome : TaskOutcome) : Z :=
  match outcome with
  | OutAll _ children => usize_saturating (zlen children + 1)
  | _ => 1
  end.

(** [TaskCommit::weight]. *)
Definition commit_weight (c : TaskCommit) : Z :=
  match commit_outcome c with Some outcome => weight outcome | None => 1 end.

Definition is_all (outcome : option TaskOutcome) : bool :=
  match outcome with Some (OutAll _ _) => true | _ => false end.

(** [try_fold] with [checked_add]: [None] once the sum overflows. *)
Fixpoint total_weight (sum : Z) (commits : list TaskCommit) : option Z :=
  match commits with
  | [] => Some sum
  | c :: commits => usize_checked_add sum (commit_weight c) ≫= λ sum, total_weight sum commits
  end.

Definition validate_turn (commits : list TaskCommit) (batch maximum : Z) :
    result TaskRuntimeError unit :=
  if negb (existsb (λ c, is_all (commit_outcome c)) commits) then Ok tt
  else
    reject_if
      ((batch <? zlen commits) ||
       match total_weight 0 commits with
       | None => true
       | Some sum => Z.max batch (usize_saturating (maximum + 1)) <? sum
       end)
      (InvalidOptions "Expanded all flush exceeds its budget").

(** The checks of one member, against the identities of the members before it. *)
Definition invalid_child (conf : TaskStoreConf) (ids : list TaskId) (child : TaskWrite) : bool :=
  let record := w_record child in
  w_ignore_conflicts child
  || match w_initial_delay child with Some delay => MAX_TASK_DELAY <? delay | None => false end
  || bool_decide (t_id record ∈ ids)
  || negb (has_handler (sc_handlers conf) record)
  || negb (existsb (λ lane, String.eqb (lc_lane lane) (t_lane record)) (sc_lanes conf))
  || negb (bool_decide (t_status record = Pending))
  || t_cancelled record
  || (bool_decide (is_Some (t_idempotency_key record))
      && bool_decide (t_idempotency_fingerprint record = None)).

Fixpoint validate_members (conf : TaskStoreConf) (ids : list TaskId)
    (keys : list (string * string)) (children : list TaskWrite) : result TaskRuntimeError unit :=
  match children with
  | [] => Ok tt
  | child :: children =>
      let record := w_record child in
      if invalid_child conf ids child then Err (InvalidOptions "Invalid all child")
      else match t_idempotency_key record with
           | Some key =>
               if bool_decide ((t_name record, key) ∈ keys)
               then Err (InvalidOptions "Duplicate all child key")
               else validate_members conf (t_id record :: ids) ((t_name record, key) :: keys) children
           | None => validate_members conf (t_id record :: ids) keys children
           end
  end.

Definition validate_group (children : list TaskWrite) (conf : TaskStoreConf) :
    result TaskRuntimeError unit :=
  if sc_max_all_children conf <? zlen children then Err (InvalidOptions "Too many all children")
  else validate_members conf [] [] children.

Section Encoding.
Context `{X : Externals}.

(** [buffer.len() > 7]: something follows the opening bracket. The [reserve_exact]
    that sizes the allocation does not change the text. *)
Definition append_result (buffer : string) (result : option string) (terminal : bool) :
    Prelude.result string string :=
  match (if terminal then result else None) with
  | None => Err "All child result is missing or nonterminal"%string
  | Some result =>
      if negb (is_ok (validate_resume result)) then Err "All child result is malformed"%string
      else
        let separator := if 7 <? str_len buffer then 1 else 0 in
        if RESULT_LIMIT <? usize_saturating (usize_saturating (usize_saturating
               (str_len buffer + separator) + str_len result) + 2)
        then Err "All results exceed the 32768-byte resume limit"%string
        else
          let buffer := if separator =? 0 then buffer else buffer +:+ "," in
          Ok (buffer +:+ result)
  end.

(** [transitions::failure]: the trace it writes is not modelled. *)
Definition group_failure (parent : TaskId) (message : string) : string :=
  failure parent message.
End Encoding.

(** ** Facts *)

Lemma admit_record_ok node now r u r' :
  admit_record node now r = (Ok u, r') →
  r' = set_updated_at now (set_node_id (Some node) (set_status Running
         (set_step_attempts (t_step_attempts r + 1) (set_attempts (t_attempts r + 1) r))))
  ∧ t_attempts r + 1 ≤ I32_MAX ∧ t_step_attempts r + 1 ≤ I32_MAX.
Proof.
  unfold admit_record. intros H. run_ok.
  repeat match goal with
  | H : ok_or _ _ = Ok _ |- _ => apply ok_or_ok in H
  | H : i32_checked_add _ _ = Some _ |- _ => apply i32_checked_add_Some in H as [-> ?]
  end.
  simpl in *. split; [done|lia].
Qed.

Lemma usize_saturating_id z : 0 ≤ z ≤ USIZE_MAX → usize_saturating z = z.
Proof. unfold usize_saturating. lia. Qed.

Section EncodingFacts.
Context `{X : Externals}.

(** What a successful append did, and that the closing bracket still fits. *)
Lemma append_result_ok buffer result terminal buffer' :
  append_result buffer result terminal = Ok buffer' →
  ∃ value, terminal = true ∧ result = Some value ∧ is_ok (validate_resume value) = true
    ∧ buffer' = (if 7 <? str_len buffer then buffer +:+ "," else buffer) +:+ value
    ∧ str_len buffer' + 2 ≤ RESULT_LIMIT.
Proof.
  unfold append_result. destruct terminal; [|done]. destruct result as [value|]; [|done].
  destruct (is_ok (validate_resume value)) eqn:Hv; [|done]. simpl.
  pose proof (str_len_nonneg buffer). pose proof (str_len_nonneg value).
  case_match eqn:Hs; [done|]. intros [= <-]. exists value.
  apply Z.ltb_ge in Hs. unfold usize_saturating, USIZE_MAX, RESULT_LIMIT in *.
  destruct (7 <? str_len buffer); simpl in *.
  - split_and!; [done..|]. rewrite !str_len_app. change (str_len ",") with 1. lia.
  - split_and!; [done..|]. rewrite str_len_app. lia.
Qed.
End EncodingFacts.
