(* ===== verification/Lifecycle.v ===== *)
(** * Lifecycle of one record ([tasks/store/memory/store.rs], [queries.rs])

    What an accepted outcome, a claim and the end of an idempotency key do to
    one task record, the order in which due records are taken, and the
    well-formedness every stored record keeps ([record_ok]). *)
From Stdlib Require Import ZifyBool.
From S2P Require Import Prelude Externals Failure Config Models Transitions.
#[local] Open Scope Z_scope.

Section Lifecycle.
Context `{X : Externals}.

Definition chrono_duration (duration : Duration) : result TaskRuntimeError TimeDelta :=
  ok_or (td_from_std duration)
    (InvalidConfig "task duration exceeds supported timestamp range").

Definition checked_deadline (now : DateTime) (delay : Duration) :
    result TaskRuntimeError (option DateTime) :=
  let? delta := chrono_duration delay in
  let? at_ := ok_or (checked_add_signed now delta)
                (InvalidConfig "task delay exceeds timestamp range") in
  Ok (Some at_).

(** Releases or archives a key when its task reaches a terminal status. *)
Definition finalize_idempotency (conf : TaskStoreConf) (now : DateTime) :
    M TaskRecord TaskRuntimeError unit :=
  do! task := getM in
  if negb (is_terminal (t_status task)) then retM tt
  else if bool_decide (t_idempotency_key task = None) then retM tt
  else
    do! policy := liftR (ok_or (idempotency_for conf (t_name task))
      (InvalidConfig ("task '" +:+ t_name task +:+ "' has no idempotency policy"))) in
    do! expires := match policy with
                   | ActiveOnly => retM None
                   | RetainFor duration => liftR (checked_deadline now duration)
                   end in
    modifyM (set_idempotency_expires_at expires).

Definition is_reassignable (status : TaskStatus) : bool :=
  match status with Pending | Suspended => true | _ => false end.

Definition is_due (task : TaskRecord) (now : DateTime) : bool :=
  match t_status task with Pending | Running => true | _ => false end
  && bool_decide (t_node_id task = None) && ready_by task now.

Definition readiness (task : TaskRecord) (now : DateTime) : DateTime * DateTime * TaskId :=
  (default now (t_ready_at task), t_created_at task, t_id task).

Definition idempotency_held (task : TaskRecord) (now : DateTime) : bool :=
  is_active (t_status task)
  || match t_idempotency_expires_at task with Some expiry => now <? expiry | None => false end.

(** [claim_task]: [default_lease] is ignored, as in the code ([let _ = default_lease]). *)
Definition claim_task (runner_id : Uuid) (now : DateTime) (default_lease : Duration) :
    M TaskRecord TaskRuntimeError unit :=
  admit_record runner_id now.

Definition complete (status : TaskStatus) (now : DateTime) : M TaskRecord TaskRuntimeError unit :=
  modifyM (set_status status) ;!
  modifyM (set_ready_at None) ;!
  modifyM (set_completed_at (Some now)).

Definition suspend (state : string) : M TaskRecord TaskRuntimeError unit :=
  modifyM (set_last_result None) ;!
  modifyM (set_step_attempts 0) ;!
  modifyM (set_status Suspended) ;!
  modifyM (set_state (Some state)) ;!
  modifyM (set_ready_at None).

Definition sleep (state : string) (delay : Duration) (now : DateTime) :
    M TaskRecord TaskRuntimeError unit :=
  modifyM (set_step_attempts 0) ;!
  modifyM (set_last_result None) ;!
  modifyM (set_status Pending) ;!
  modifyM (set_state (Some state)) ;!
  do! at_ := liftR (checked_deadline now delay) in
  modifyM (set_ready_at at_).

Definition fail (error : string) (now : DateTime) : M TaskRecord TaskRuntimeError unit :=
  modifyM (λ task, set_last_result (Some (failure (t_id task) error)) task) ;!
  complete Failed now.

Definition retry (policy : TaskRetry) (error : string) (now : DateTime) :
    M TaskRecord TaskRuntimeError unit :=
  modifyM (λ task, set_last_result (Some (failure (t_id task) error)) task) ;!
  do! task := getM in
  do! done := liftR (exhausted policy (t_step_attempts task)) in
  if (done : bool) then complete Failed now
  else
    modifyM (set_status Pending) ;!
    do! delay := liftR (retry_delay policy (t_step_attempts task)) in
    do! at_ := liftR (checked_deadline now delay) in
    modifyM (set_ready_at at_).

Definition preserves_resume (outcome : TaskOutcome) : bool :=
  match outcome with OutRetry _ => true | _ => false end.

Definition apply_outcome (outcome : TaskOutcome) (retry_policy : TaskRetry) (now : DateTime) :
    M TaskRecord TaskRuntimeError unit :=
  match outcome with
  | OutComplete =>
      modifyM (set_last_result (Some UNIT_RESULT)) ;!
      complete Succeeded now
  | OutCompleteWith output =>
      match validate_output output with
      | Ok _ =>
          modifyM (set_last_result (Some (success output))) ;!
          complete Succeeded now
      | Err error => fail (error_to_string error) now
      end
  | OutSuspend state | OutSpawn state _ | OutAll state _ => suspend state
  | OutSleep state delay => sleep state delay now
  | OutRetry error => retry retry_policy error now
  | OutFail error => fail error now
  end ;!
  (if preserves_resume outcome then retM tt else modifyM (set_resume_input None)) ;!
  modifyM (set_node_id None) ;!
  modifyM (set_updated_at now).
End Lifecycle.

(** ** Stable selection order

    [sort_by_key] on a [Vec] is stable; keys compare lexicographically, the
    [None] of a missing row before every [Some]. *)

Definition readiness_le (a b : DateTime * DateTime * TaskId) : bool :=
  let '(a1, a2, a3) := a in
  let '(b1, b2, b3) := b in
  (a1 <? b1) || ((a1 =? b1) && ((a2 <? b2) || ((a2 =? b2) && (a3 <=? b3)%N))).

Definition option_le {A} (le : A → A → bool) (a b : option A) : bool :=
  match a, b with
  | None, _ => true
  | Some _, None => false
  | Some a, Some b => le a b
  end.

Section StableSort.
Context {A K : Type} (le : K → K → bool) (key : A → K).

(** Before the first entry that does not come strictly earlier. *)
Fixpoint insert_by (x : A) (l : list A) : list A :=
  match l with
  | [] => [x]
  | y :: l' => if le (key x) (key y) then x :: l else y :: insert_by x l'
  end.
Definition sort_by_key (l : list A) : list A := foldr insert_by [] l.

Lemma insert_by_perm x l : insert_by x l ≡ₚ x :: l.
Proof.
  induction l as [|y l IH]; simpl; [done|]. case_match; [done|].
  rewrite IH. apply Permutation_swap.
Qed.
Lemma sort_by_key_perm l : sort_by_key l ≡ₚ l.
Proof. induction l as [|x l IH]; simpl; [done|]. by rewrite insert_by_perm, IH. Qed.

Context (le_total : ∀ a b, le a b = true ∨ le b a = true).
Context (le_trans : ∀ a b c, le a b = true → le b c = true → le a c = true).

Definition ordered : list A → Prop := StronglySorted (λ x y, le (key x) (key y) = true).

Lemma insert_by_ordered x l : ordered l → ordered (insert_by x l).
Proof.
  induction 1 as [|y l Hl IH Hy]; simpl; [repeat constructor|].
  destruct (le (key x) (key y)) eqn:Hxy; constructor; [by constructor| |done|].
  - constructor; [done|]. eapply Forall_impl; [exact Hy|]. simpl. eauto.
  - apply Forall_forall. intros z Hz. rewrite insert_by_perm in Hz.
    apply elem_of_cons in Hz as [->|Hz].
    + by destruct (le_total (key x) (key y)) as [?|?]; [congruence|].
    + by eapply Forall_forall in Hy.
Qed.
Lemma sort_by_key_ordered l : ordered (sort_by_key l).
Proof. induction l; simpl; [constructor|by apply insert_by_ordered]. Qed.
End StableSort.

Lemma readiness_le_total a b : readiness_le a b = true ∨ readiness_le b a = true.
Proof. destruct a as [[]], b as [[]]. unfold readiness_le. lia. Qed.
Lemma readiness_le_trans a b c :
  readiness_le a b = true → readiness_le b c = true → readiness_le a c = true.
Proof. destruct a as [[]], b as [[]], c as [[]]. unfold readiness_le. lia. Qed.
Lemma option_le_total {A} (le : A → A → bool) a b :
  (∀ a b, le a b = true ∨ le b a = true) → option_le le a b = true ∨ option_le le b a = true.
Proof. destruct a, b; simpl; auto. Qed.
Lemma option_le_trans {A} (le : A → A → bool) a b c :
  (∀ a b c, le a b = true → le b c = true → le a c = true) →
  option_le le a b = true → option_le le b c = true → option_le le a c = true.
Proof. destruct a, b, c; simpl; eauto; done. Qed.

#[global] Arguments apply_outcome : simpl never.
#[global] Arguments finalize_idempotency : simpl never.
#[global] Arguments admit_record : simpl never.
#[global] Arguments claim_task : simpl never.

(** ** Well-formed records *)

(** What every stored record satisfies: an owner only while it runs, a completion
    time and a result exactly when terminal, a readiness time exactly while it is
    pending or running, counters in range, bounded texts, and a cancelled record is
    a failed one. *)
Record record_ok (r : TaskRecord) : Prop := {
  ro_owner : t_node_id r ≠ None → t_status r = Running;
  ro_terminal : is_terminal (t_status r) = true →
    is_Some (t_completed_at r) ∧ is_Some (t_last_result r) ∧ t_ready_at r = None;
  ro_active : is_terminal (t_status r) = false → t_completed_at r = None;
  ro_ready : t_status r = Pending ∨ t_status r = Running → is_Some (t_ready_at r);
  ro_suspended : t_status r = Suspended →
    t_ready_at r = None ∧ is_Some (t_state r) ∧ t_step_attempts r = 0;
  ro_counts : 0 ≤ t_step_attempts r ≤ t_attempts r ∧ t_attempts r ≤ I32_MAX;
  ro_result : ∀ s, t_last_result r = Some s → str_len s ≤ RESULT_LIMIT;
  ro_resume : ∀ s, t_resume_input r = Some s → str_len s ≤ RESULT_LIMIT;
  ro_cancelled : t_cancelled r = true → t_status r = Failed;
}.

(** The part of it that a cancelled record still satisfies before its failure is written. *)
Record record_base (r : TaskRecord) : Prop := {
  rb_active : is_terminal (t_status r) = false ∧ t_completed_at r = None;
  rb_counts : 0 ≤ t_step_attempts r ≤ t_attempts r ∧ t_attempts r ≤ I32_MAX;
  rb_resume : ∀ s, t_resume_input r = Some s → str_len s ≤ RESULT_LIMIT;
}.

Lemma record_ok_base r : record_ok r → is_terminal (t_status r) = false → record_base r.
Proof. intros [] ?. split; auto. Qed.

(** What no operation on a record changes. *)
Definition identity (r : TaskRecord) :=
  (t_id r, t_parent_id r, t_root_id r, t_kind r, t_name r, t_input r,
   t_idempotency_key r, t_idempotency_fingerprint r, t_created_at r).
Definition same_identity (r r' : TaskRecord) : Prop := identity r' = identity r.
#[export] Instance same_identity_preorder : PreOrder same_identity.
Proof. unfold same_identity. split; [done|]. intros ???. congruence. Qed.
Lemma same_identity_id r r' : same_identity r r' → t_id r' = t_id r.
Proof. unfold same_identity, identity. congruence. Qed.

Lemma respects_modify {S E} (R : relation S) (f : S → S) :
  (∀ s, R s (f s)) → respects (E:=E) R (modifyM f).
Proof. intros Hf s. apply Hf. Qed.

Section LifecycleFacts.
Context `{X : Externals, L : !ExternalLaws X}.

Ltac keeps := respects_auto; try (apply respects_modify; intros ?; reflexivity).

Lemma admit_identity node now : respects same_identity (admit_record node now).
Proof. unfold admit_record. keeps. Qed.
Lemma finalize_idempotency_identity conf now :
  respects same_identity (finalize_idempotency conf now).
Proof. unfold finalize_idempotency. keeps. Qed.
Lemma apply_outcome_identity outcome policy now :
  respects same_identity (apply_outcome outcome policy now).
Proof.
  unfold apply_outcome, complete, suspend, sleep, retry, fail, complete. keeps.
Qed.

Lemma checked_deadline_ok now d o :
  checked_deadline now d = Ok o → o = Some (now + d).
Proof.
  unfold checked_deadline, chrono_duration. intros H.
  apply result_bind_ok in H as (x & Hx & H). apply ok_or_ok, td_from_std_exact in Hx as ->.
  apply result_bind_ok in H as (y & Hy & [= <-]).
  apply ok_or_ok, checked_add_signed_exact in Hy as ->. done.
Qed.

Lemma finalize_idempotency_ok conf now r u r' :
  finalize_idempotency conf now r = (Ok u, r') →
  ∃ e, r' = set_idempotency_expires_at e r
    ∧ (is_terminal (t_status r) = false ∨ t_idempotency_key r = None →
       r' = r).
Proof.
  unfold finalize_idempotency. intros H. run_simpl_in H.
  assert (Hid : r = set_idempotency_expires_at (t_idempotency_expires_at r) r) by by destruct r.
  destruct (is_terminal (t_status r)) eqn:Ht; simpl in H.
  - case_bool_decide; unfold retM in H; simplify_eq; [eauto|].
    apply bindM_liftR_ok in H as (p & _ & H).
    destruct p; run_ok; eexists; (split; [done|naive_solver]).
  - unfold retM in H. simplify_eq. eauto.
Qed.

Lemma record_ok_expires e r : record_ok r → record_ok (set_idempotency_expires_at e r).
Proof. intros []. split; assumption. Qed.
End LifecycleFacts.

(** ** Facts about the lifecycle of one record

    An accepted outcome leaves a well-formed record, whatever it was ([apply_outcome_record_ok]);
    a claim charges exactly one attempt; and the functional behaviour of each outcome. *)

Section LifecycleFacts.
Context `{X : Externals, L : !ExternalLaws X}.

(** The record an outcome leaves, where the code does not fail. *)
Definition outcome_record (outcome : TaskOutcome) (policy : TaskRetry) (now : DateTime)
    (r r' : TaskRecord) : Prop :=
  let finish status result :=
    r' = set_updated_at now (set_node_id None (set_resume_input None
           (set_completed_at (Some now) (set_ready_at None (set_status status
             (set_last_result (Some result) r)))))) in
  match outcome with
  | OutComplete => finish Succeeded UNIT_RESULT
  | OutCompleteWith output =>
      match validate_output output with
      | Ok _ => finish Succeeded (success output)
      | Err error => finish Failed (failure (t_id r) (error_to_string error))
      end
  | OutFail error => finish Failed (failure (t_id r) error)
  | OutSuspend state | OutSpawn state _ | OutAll state _ =>
      r' = set_updated_at now (set_node_id None (set_resume_input None
             (set_ready_at None (set_state (Some state) (set_status Suspended
               (set_step_attempts 0 (set_last_result None r)))))))
  | OutSleep state delay =>
      r' = set_updated_at now (set_node_id None (set_resume_input None
             (set_ready_at (Some (now + delay)) (set_state (Some state) (set_status Pending
               (set_last_result None (set_step_attempts 0 r)))))))
  | OutRetry error =>
      0 ≤ t_step_attempts r ∧
      if max_attempts policy <=? t_step_attempts r
      then r' = set_updated_at now (set_node_id None
             (set_completed_at (Some now) (set_ready_at None (set_status Failed
               (set_last_result (Some (failure (t_id r) error)) r)))))
      else ∃ delay, retry_delay policy (t_step_attempts r) = Ok delay ∧
           r' = set_updated_at now (set_node_id None
             (set_ready_at (Some (now + delay)) (set_status Pending
               (set_last_result (Some (failure (t_id r) error)) r))))
  end.

Lemma exhausted_ok policy n b :
  exhausted policy n = Ok b → 0 ≤ n ∧ b = (max_attempts policy <=? n).
Proof.
  unfold exhausted, u32_try_from. case_match eqn:Hn; simpl; [|done].
  intros [= <-]. lia.
Qed.

Lemma apply_outcome_ok outcome policy now r u r' :
  apply_outcome outcome policy now r = (Ok u, r') → outcome_record outcome policy now r r'.
Proof.
  unfold apply_outcome, complete, suspend, sleep, retry, fail, complete, outcome_record.
  destruct outcome; simpl preserves_resume; cbv iota; intros H.
  all: try (destruct (validate_output output)).
  all: run_simpl_in H.
  all: try (unfold modifyM in H; simplify_eq; reflexivity).
  - apply bindM_liftR_ok in H as (o & Ho & H). run_ok.
    apply checked_deadline_ok in Ho as ->. reflexivity.
  - apply bindM_liftR_ok in H as (b & Hb & H). apply exhausted_ok in Hb as [Hn ->].
    split; [exact Hn|]. simpl in H. destruct (max_attempts policy <=? t_step_attempts r).
    + run_ok. reflexivity.
    + run_simpl_in H. apply bindM_liftR_ok in H as (d & Hd & H). exists d. split; [exact Hd|]. run_simpl_in H.
      apply bindM_liftR_ok in H as (o & Ho & H). apply checked_deadline_ok in Ho as ->.
      run_ok. reflexivity.
Qed.

Lemma apply_outcome_record_ok outcome policy now r u r' :
  apply_outcome outcome policy now r = (Ok u, r') → record_base r →
  (t_cancelled r = true → ∃ e, outcome = OutFail e) → record_ok r'.
Proof.
  intros Happ [[Ha Hc] Hn Hr] Hcan. apply apply_outcome_ok in Happ.
  destruct outcome; cbn [outcome_record] in Happ.
  all: try destruct (validate_output output) as [[]|e] eqn:Hv.
  all: try (destruct Happ as [Hst Happ]; case_match; [|destruct Happ as (d & _ & Happ)]).
  all: subst r'; split; simpl; intros; try done; try lia; eauto; simplify_eq.
  all: try (split_and!; by eauto).
  all: try (by destruct_or?).
  all: try (by apply success_fits).
  all: try (by destruct Hcan).
  all: apply failure_len.
Qed.

Lemma admit_record_ok_ok node now r u r' :
  admit_record node now r = (Ok u, r') → record_ok r → is_due r now = true →
  t_cancelled r = false → record_ok r'.
Proof.
  intros Hadm [? ? Hact] Hdue Hc. apply admit_record_ok in Hadm as (-> & ? & ?).
  unfold is_due in Hdue.
  assert (Hst : t_status r = Pending ∨ t_status r = Running)
    by (destruct (t_status r); simpl in Hdue; auto; done).
  split; simpl; intros; try done; try lia; eauto; try congruence.
  apply Hact. by destruct Hst as [-> | ->].
Qed.
End LifecycleFacts.

