(* ===== verification/MemoryState.v ===== *)
(** * The memory store's state and its queries ([tasks/store/memory/{store,queries}.rs])

    [MemoryState] is what the store's mutex guards. A [HashMap] is a [gmap];
    [tasks] is the [Vec] in insertion order, and an index into it is a [nat].
    The clock is read by the caller and passed as [now]. *)
From S2P Require Import Prelude Externals Failure Config Rate Models Transitions Lifecycle.
#[local] Open Scope Z_scope.

Record MemoryLaneLock := {
  ml_owner_id : option string;
  ml_owner_token : option string;
  ml_leased_until : option DateTime;
  ml_phase : LaneOwnerPhase;
  ml_flushing : bool;
  ml_empty_since : option DateTime;
  ml_generation : Z;
  ml_hook_retry_at : option DateTime;
  ml_last_hook_error : option string;
}.

Record TaskWait := { tw_children : list TaskId; tw_remaining_completions : Z }.

Record MemoryState := {
  ms_nodes : gmap Uuid (DateTime * DateTime);
  ms_tasks : list TaskRecord;
  ms_conf : option TaskStoreConf;
  ms_rates : gmap string RateBucket;
  ms_schedules : gmap string DateTime;
  ms_lane_locks : gmap string MemoryLaneLock;
  ms_waits : gmap TaskId TaskWait;
}.

Definition set_nodes (v : gmap Uuid (DateTime * DateTime)) (s : MemoryState) : MemoryState :=
  {| ms_nodes := v; ms_tasks := ms_tasks s; ms_conf := ms_conf s; ms_rates := ms_rates s;
     ms_schedules := ms_schedules s; ms_lane_locks := ms_lane_locks s; ms_waits := ms_waits s |}.
Definition set_tasks (v : list TaskRecord) (s : MemoryState) : MemoryState :=
  {| ms_nodes := ms_nodes s; ms_tasks := v; ms_conf := ms_conf s; ms_rates := ms_rates s;
     ms_schedules := ms_schedules s; ms_lane_locks := ms_lane_locks s; ms_waits := ms_waits s |}.
Definition set_rates (v : gmap string RateBucket) (s : MemoryState) : MemoryState :=
  {| ms_nodes := ms_nodes s; ms_tasks := ms_tasks s; ms_conf := ms_conf s; ms_rates := v;
     ms_schedules := ms_schedules s; ms_lane_locks := ms_lane_locks s; ms_waits := ms_waits s |}.
Definition set_schedules (v : gmap string DateTime) (s : MemoryState) : MemoryState :=
  {| ms_nodes := ms_nodes s; ms_tasks := ms_tasks s; ms_conf := ms_conf s; ms_rates := ms_rates s;
     ms_schedules := v; ms_lane_locks := ms_lane_locks s; ms_waits := ms_waits s |}.
Definition set_lane_locks (v : gmap string MemoryLaneLock) (s : MemoryState) : MemoryState :=
  {| ms_nodes := ms_nodes s; ms_tasks := ms_tasks s; ms_conf := ms_conf s; ms_rates := ms_rates s;
     ms_schedules := ms_schedules s; ms_lane_locks := v; ms_waits := ms_waits s |}.
Definition set_waits (v : gmap TaskId TaskWait) (s : MemoryState) : MemoryState :=
  {| ms_nodes := ms_nodes s; ms_tasks := ms_tasks s; ms_conf := ms_conf s; ms_rates := ms_rates s;
     ms_schedules := ms_schedules s; ms_lane_locks := ms_lane_locks s; ms_waits := v |}.

(** [HashMap::entry(k).or_insert(v)], as a map. *)
Definition or_insert {V} (k : string) (v : V) (m : gmap string V) : gmap string V :=
  match m !! k with Some _ => m | None => <[k:=v]> m end.

(** The first element [Iterator::find] stops at, updated through [iter_mut]. *)
Fixpoint update_first {A} (p : A → bool) (f : A → A) (l : list A) : list A :=
  match l with
  | [] => []
  | x :: l => if p x then f x :: l else x :: update_first p f l
  end.

Definition has_id (id : TaskId) (task : TaskRecord) : bool := (t_id task =? id)%N.
Definition find_task (id : TaskId) (tasks : list TaskRecord) : option TaskRecord :=
  List.find (has_id id) tasks.

(** [Iterator::min] over durations. *)
Definition min_duration (l : list Duration) : option Duration :=
  match l with [] => None | d :: l => Some (fold_left Z.min l d) end.

Section Queries.
Context `{X : Externals}.

Definition deadline_after (now : DateTime) (task : TaskRecord) : option Duration :=
  match t_status task with
  | Pending | Running => if bool_decide (t_node_id task = None) then t_ready_at task else None
  | _ => None
  end ≫= λ deadline,
  if now <? deadline then td_to_std (deadline - now) else None.

Definition task_deadline (tasks : list TaskRecord) (lane : string) (now : DateTime) :
    option Duration :=
  min_duration (omap (deadline_after now) (List.filter (λ t, String.eqb (t_lane t) lane) tasks)).

Definition effective_lane_wake (rate_blocked : bool) (rate_wake task_wake : option Duration)
    (has_flows : bool) : option Duration :=
  if has_flows then min_duration (option_list rate_wake ++ option_list task_wake)
  else if rate_blocked then rate_wake
  else (λ task, match rate_wake with Some permit => Z.max permit task | None => task end)
         <$> task_wake.

(** [str::contains]. *)
Definition contains (haystack needle : string) : bool :=
  bool_decide (is_Some (String.index 0 needle haystack)).

Definition matches_query (task : TaskRecord) (query : option string) : bool :=
  match query with
  | None => true
  | Some query =>
      let query := to_lowercase query in
      contains (to_lowercase (t_name task)) query
      || contains (to_lowercase (t_lane task)) query
      || match t_idempotency_key task with
         | Some value => contains (to_lowercase value) query
         | None => false
         end
  end.

(** [Option::is_none_or]. *)
Definition none_or {A} (o : option A) (p : A → bool) : bool :=
  match o with None => true | Some a => p a end.

Definition matches_filter (task : TaskRecord) (filter : TaskFilter) : bool :=
  none_or (f_status filter) (λ status, bool_decide (t_status task = status))
  && none_or (f_name filter) (λ name, String.eqb (t_name task) name)
  && none_or (f_lane filter) (λ lane, String.eqb (t_lane task) lane)
  && none_or (f_idempotency_key filter)
       (λ key, bool_decide (t_idempotency_key task = Some key))
  && none_or (f_created_from filter) (λ time, time <=? t_created_at task)
  && none_or (f_created_to filter) (λ time, t_created_at task <=? time)
  && matches_query task (f_query filter).

Definition page (records : list TaskRecord) (filter : TaskFilter) : Page TaskRecord :=
  let total := default I64_MAX (i64_try_from (zlen records)) in
  let offset := usize_saturating (usize_saturating (f_page filter - 1) * f_per_page filter) in
  {| pg_items := take (Z.to_nat (f_per_page filter)) (drop (Z.to_nat offset) records);
     pg_total := total; pg_page := f_page filter; pg_per_page := f_per_page filter |}.

Definition full_bucket (rate : TaskRate) (now : DateTime) : RateBucket :=
  {| rb_tokens_micros := i64_saturating (burst_size rate * TOKEN_SCALE); rb_updated_at := now |}.

Definition initialize_rates (conf : TaskStoreConf) (now : DateTime) (s : MemoryState) :
    MemoryState :=
  fold_left (λ s lane,
    match lc_global_rate lane with
    | Some rate => set_rates (or_insert (lc_lane lane) (full_bucket rate now) (ms_rates s)) s
    | None => s
    end) (sc_lanes conf) s.

Definition fresh_lane_lock : MemoryLaneLock :=
  {| ml_owner_id := None; ml_owner_token := None; ml_leased_until := None; ml_phase := Active;
     ml_flushing := false; ml_empty_since := None; ml_generation := 0;
     ml_hook_retry_at := None; ml_last_hook_error := None |}.

Definition initialize_lane_locks (conf : TaskStoreConf) (s : MemoryState) : MemoryState :=
  fold_left (λ s lane,
    match lc_lane_lock lane with
    | Some _ => set_lane_locks (or_insert (lc_lane lane) fresh_lane_lock (ms_lane_locks s)) s
    | None => s
    end) (sc_lanes conf) s.

Definition reject_orphaned_tasks (tasks : list TaskRecord) (conf : TaskStoreConf) :
    result TaskRuntimeError unit :=
  let configured := lc_lane <$> sc_lanes conf in
  let handlers := fst <$> sc_handlers conf in
  match List.find (λ t, is_active (t_status t) && negb (bool_decide (t_lane t ∈ configured)))
          tasks with
  | Some task => Err (UnknownLane (t_lane task))
  | None =>
      match List.find (λ t, is_active (t_status t) && negb (bool_decide (t_name t ∈ handlers)))
              tasks with
      | Some task => Err (TaskNotFound (t_name task))
      | None => Ok tt
      end
  end.

Definition keeps_node (node : Uuid) (cutoff : DateTime) (id : Uuid)
    (times : DateTime * DateTime) : Prop := id = node ∨ cutoff ≤ times.2.
#[global] Instance keeps_node_dec node cutoff id times : Decision (keeps_node node cutoff id times).
Proof. unfold keeps_node. apply _. Defined.

(** The nodes [HashMap::retain] keeps, and the tasks whose owner it removed. *)
Definition retire_nodes (node : Uuid) (cutoff : DateTime) (s : MemoryState) : MemoryState :=
  let keep := λ p : Uuid * (DateTime * DateTime), keeps_node node cutoff p.1 p.2 in
  let retired : gset Uuid := dom (filter (λ p, ¬ keep p) (ms_nodes s)) in
  let nodes := filter keep (ms_nodes s) in
  let release task :=
    match t_node_id task with
    | Some id => if bool_decide (id ∈ retired) then set_node_id None task else task
    | None => task
    end in
  set_tasks (release <$> ms_tasks s) (set_nodes nodes s).

Definition due_indices (tasks : list TaskRecord) (lane : string) (now : DateTime) : list nat :=
  omap (λ p : nat * TaskRecord,
          if String.eqb (t_lane p.2) lane && is_due p.2 now then Some p.1 else None)
    (imap pair tasks).

(** The key [sort_by_key] compares candidates by. *)
Definition index_key (tasks : list TaskRecord) (now : DateTime) (index : nat) :
    option (DateTime * DateTime * TaskId) :=
  (λ task, readiness task now) <$> tasks !! index.

Definition sort_candidates (tasks : list TaskRecord) (now : DateTime) : list nat → list nat :=
  sort_by_key (option_le readiness_le) (index_key tasks now).
End Queries.

#[global] Arguments retire_nodes : simpl never.
#[global] Arguments due_indices : simpl never.
#[global] Arguments sort_candidates : simpl never.

(** ** Facts about candidate selection *)

Lemma elem_of_due_indices tasks lane now i :
  i ∈ due_indices tasks lane now ↔
  ∃ task, tasks !! i = Some task ∧ t_lane task = lane ∧ is_due task now = true.
Proof.
  unfold due_indices. rewrite list_elem_of_omap. split.
  - intros ([j task] & Hin & Hf). simpl in Hf.
    destruct (String.eqb (t_lane task) lane) eqn:Hl; [|done].
    destruct (is_due task now) eqn:Hd; [|done]. simpl in Hf. injection Hf as ->.
    apply elem_of_lookup_imap in Hin as (k & y & Hk & Hy). injection Hk as -> ->.
    apply String.eqb_eq in Hl. eauto.
  - intros (task & Ht & <- & Hd). exists (i, task). split.
    + apply elem_of_lookup_imap. eauto.
    + simpl. by rewrite String.eqb_refl, Hd.
Qed.

Lemma due_indices_increasing tasks lane now : StronglySorted lt (due_indices tasks lane now).
Proof.
  unfold due_indices. assert (H : ∀ k, StronglySorted lt
    (omap (λ p : nat * TaskRecord,
       if String.eqb (t_lane p.2) lane && is_due p.2 now then Some p.1 else None)
       (imap (λ i, pair (k + i)%nat) tasks)) ∧ Forall (λ i, k ≤ i)%nat
    (omap (λ p : nat * TaskRecord,
       if String.eqb (t_lane p.2) lane && is_due p.2 now then Some p.1 else None)
       (imap (λ i, pair (k + i)%nat) tasks))).
  { induction tasks as [|task tasks IH]; intros k; [by split; constructor|].
    rewrite imap_cons. specialize (IH (S k)) as [IH1 IH2].
    replace (imap _ tasks) with (imap (λ i, pair (S k + i)%nat) tasks)
      by (apply imap_ext; intros; simpl; f_equal; lia).
    cbn [omap list_omap]. rewrite Nat.add_0_r.
    assert (Forall (λ i, k ≤ i)%nat (omap (λ p : nat * TaskRecord,
       if String.eqb (t_lane p.2) lane && is_due p.2 now then Some p.1 else None)
       (imap (λ i, pair (S k + i)%nat) tasks))).
    { eapply Forall_impl; [exact IH2|]. simpl. lia. }
    case_match eqn:Hc; [|done]. simpl in Hc. case_match; [|done]. injection Hc as <-.
    split; constructor; [done| |lia|done].
    eapply Forall_impl; [exact IH2|]. simpl. lia. }
  specialize (H 0%nat) as [H _]. exact H.
Qed.

Lemma due_indices_nodup tasks lane now : NoDup (due_indices tasks lane now).
Proof.
  pose proof (due_indices_increasing tasks lane now) as H.
  induction H as [|i l _ IH Hi]; constructor; [|done].
  intros Hin. eapply Forall_forall in Hi; [|exact Hin]. lia.
Qed.

Lemma sort_candidates_perm tasks now l : sort_candidates tasks now l ≡ₚ l.
Proof. apply sort_by_key_perm. Qed.

Lemma sort_candidates_ordered tasks now l :
  ordered (option_le readiness_le) (index_key tasks now) (sort_candidates tasks now l).
Proof.
  apply sort_by_key_ordered.
  - intros. apply option_le_total, readiness_le_total.
  - intros. eapply option_le_trans; eauto. apply readiness_le_trans.
Qed.

(** ** Staging submissions ([tasks/store/memory/store.rs])

    Validation of one write against the configured lanes and handlers, and
    [stage_write], which decides between a new record, an existing one with
    the same idempotency key, and a conflict. The staged batch is the state
    of the body. *)

Definition require_lane (conf : option TaskStoreConf) (lane : string) :
    result TaskRuntimeError unit :=
  let configured := match conf with
                    | Some conf => existsb (λ entry, String.eqb (lc_lane entry) lane) (sc_lanes conf)
                    | None => false
                    end in
  if configured then Ok tt else Err (UnknownLane lane).

Definition require_handler (conf : option TaskStoreConf) (handler : string) :
    result TaskRuntimeError unit :=
  let known := match conf with
               | Some conf => existsb (λ h, String.eqb h.1 handler) (sc_handlers conf)
               | None => false
               end in
  if known then Ok tt else Err (TaskNotFound handler).

Fixpoint validate_write_lanes (conf : option TaskStoreConf) (writes : list TaskWrite) :
    result TaskRuntimeError unit :=
  match writes with
  | [] => Ok tt
  | write :: writes =>
      let? _ := require_lane conf (t_lane (w_record write)) in
      let? _ := require_handler conf (t_name (w_record write)) in
      validate_write_lanes conf writes
  end.

(** The newest still-held key of the same handler: the staged batch from its end, then
    the stored tasks from their end. *)
Definition matching_key (existing staged : list TaskRecord) (record : TaskRecord)
    (now : DateTime) : option TaskRecord :=
  t_idempotency_key record ≫= λ key,
  List.find (λ task, String.eqb (t_name task) (t_name record)
                     && bool_decide (t_idempotency_key task = Some key)
                     && idempotency_held task now)
    (rev staged ++ rev existing).

Section Staging.
Context `{X : Externals}.

(** The record as it is stored: stamped with the store's clock. *)
Definition stamp (now : DateTime) (ready_at : option DateTime) (record : TaskRecord) : TaskRecord :=
  set_ready_at ready_at (set_updated_at now (set_created_at now record)).

Definition stage_write (existing : list TaskRecord) (write : TaskWrite) (now : DateTime) :
    M (list TaskRecord) TaskRuntimeError TaskReceipt :=
  do! ready_at := match w_initial_delay write with
                  | Some delay => liftR (checked_deadline now delay)
                  | None => retM (Some now)
                  end in
  let record := stamp now ready_at (w_record write) in
  do! staged := getM in
  if existsb (has_id (t_id record)) (existing ++ staged)
  then throwM (AlreadyExists (uuid_display (t_id record)))
  else match matching_key existing staged record now with
       | Some owner =>
           if bool_decide (t_idempotency_fingerprint owner = t_idempotency_fingerprint record)
           then retM (Existing (t_id owner))
           else if w_ignore_conflicts write then retM (Ignored (t_id owner))
           else throwM (IdempotencyConflict (t_id owner))
       | None =>
           modifyM (λ staged, staged ++ [record]) ;!
           retM (Queued (t_id record))
       end.

(** The loop of the submission paths: one receipt per write, in order. *)
Definition stage_writes (existing : list TaskRecord) (writes : list TaskWrite) (now : DateTime) :
    M (list TaskRecord) TaskRuntimeError (list TaskReceipt) :=
  mapM_M writes (λ write, stage_write existing write now).
End Staging.

#[global] Arguments stage_write : simpl never.

(** ** Facts *)

Definition ids (tasks : list TaskRecord) : list TaskId := t_id <$> tasks.

Lemma ids_app l k : ids (l ++ k) = ids l ++ ids k.
Proof. apply fmap_app. Qed.

Lemma existsb_has_id id l : existsb (has_id id) l = true ↔ id ∈ ids l.
Proof.
  rewrite existsb_exists. unfold ids, has_id. rewrite list_elem_of_fmap. split.
  - intros (x & Hx & He). apply N.eqb_eq in He. exists x.
    split; [done|by apply list_elem_of_In].
  - intros (x & -> & Hx). exists x. split; [by apply list_elem_of_In|apply N.eqb_refl].
Qed.

(** Two records of one handler whose key is still held collide. *)
Definition key_clash (now : DateTime) (r r' : TaskRecord) : Prop :=
  t_name r = t_name r' ∧ is_Some (t_idempotency_key r) ∧
  t_idempotency_key r = t_idempotency_key r' ∧ idempotency_held r now = true.

Lemma matching_key_none existing staged record now :
  matching_key existing staged record now = None →
  ∀ r, r ∈ existing ++ staged → ¬ key_clash now r record.
Proof.
  unfold matching_key. destruct (t_idempotency_key record) as [key|] eqn:Hk; simpl.
  - intros Hf r Hr (Hn & _ & Hkr & Hh).
    assert (Hin : In r (rev staged ++ rev existing)).
    { rewrite in_app_iff, <- !in_rev, <- !list_elem_of_In.
      apply elem_of_app in Hr as [?|?]; auto. }
    apply (List.find_none _ _ Hf) in Hin.
    rewrite Hn, String.eqb_refl, Hh in Hin. rewrite Hkr, Hk in Hin.
    by rewrite bool_decide_true in Hin.
  - intros _ r _ (_ & [k Hs] & He & _). congruence.
Qed.

Lemma matching_key_some existing staged record now owner :
  matching_key existing staged record now = Some owner →
  owner ∈ existing ++ staged ∧ key_clash now owner record.
Proof.
  unfold matching_key. destruct (t_idempotency_key record) as [key|] eqn:Hk; simpl; [|done].
  intros Hf. apply find_some in Hf as [Hin Hp].
  rewrite in_app_iff, <- !in_rev, <- !list_elem_of_In in Hin.
  apply andb_prop in Hp as [[Hn Hkey]%andb_prop Hh].
  apply String.eqb_eq in Hn. apply bool_decide_eq_true in Hkey.
  split; [apply elem_of_app; tauto|]. split_and!; [done|by rewrite Hkey| |done].
  by rewrite Hkey, Hk.
Qed.

Section StagingFacts.
Context `{X : Externals, L : !ExternalLaws X}.

(** What each receipt says about the batch. *)
Lemma stage_write_ok existing write now staged receipt staged' :
  stage_write existing write now staged = (Ok receipt, staged') →
  ∃ ready_at, is_Some ready_at ∧
  let record := stamp now ready_at (w_record write) in
  t_id record ∉ ids (existing ++ staged) ∧
  match receipt with
  | Queued id => id = t_id record ∧ staged' = staged ++ [record] ∧
      ∀ r, r ∈ existing ++ staged → ¬ key_clash now r record
  | Existing id | Ignored id => staged' = staged ∧
      ∃ owner, owner ∈ existing ++ staged ∧ t_id owner = id ∧ key_clash now owner record
  end.
Proof.
  unfold stage_write. intros H. apply bindM_ok in H as (ready_at & s & Hr & H).
  assert (s = staged ∧ is_Some ready_at) as [-> Hsome].
  { destruct (w_initial_delay write) as [d|]; [|unfold retM in Hr; simplify_eq; eauto].
    destruct (checked_deadline now d) as [o|] eqn:Hd; [|done]. injection Hr as <- <-.
    apply checked_deadline_ok in Hd as ->. eauto. }
  exists ready_at. split; [done|].
  set (record := stamp now ready_at (w_record write)). run_simpl_in H. fold record in H.
  destruct (existsb _ _) eqn:He; [done|].
  split. { rewrite <- existsb_has_id, He. done. }
  destruct (matching_key existing staged record now) as [owner|] eqn:Hm.
  - apply matching_key_some in Hm as [Hin Hc].
    repeat case_match; unfold retM, throwM in H; simplify_eq; eauto.
  - run_ok. split_and!; [done..|]. by eapply matching_key_none.
Qed.

Lemma stage_write_err existing write now staged e staged' :
  stage_write existing write now staged = (Err e, staged') → staged' = staged.
Proof.
  unfold stage_write. intros H. apply bindM_err in H as [H|(r & s & Hr & H)].
  - destruct (w_initial_delay write); unfold liftR, retM in H; by simplify_eq.
  - assert (s = staged) as ->
      by (destruct (w_initial_delay write); unfold liftR, retM in Hr; by simplify_eq).
    run_simpl_in H. repeat case_match; unfold retM, throwM, modifyM in H; by simplify_eq.
Qed.

(** The batch only grows, by records with identities not used before. *)
Definition grows (existing staged staged' : list TaskRecord) : Prop :=
  ∃ new, staged' = staged ++ new ∧
    (NoDup (ids (existing ++ staged)) → NoDup (ids (existing ++ staged'))).

#[export] Instance grows_preorder existing : PreOrder (grows existing).
Proof.
  split.
  - intros s. exists []. by rewrite app_nil_r.
  - intros s1 s2 s3 (n1 & -> & H1) (n2 & -> & H2). exists (n1 ++ n2).
    rewrite app_assoc. split; [done|]. intros Hn. by apply H2, H1.
Qed.

Lemma stage_write_grows existing write now : respects (grows existing) (stage_write existing write now).
Proof.
  intros s. destruct (stage_write existing write now s) as [[receipt|e] s'] eqn:H; simpl.
  - apply stage_write_ok in H as (ready_at & _ & Hid & H).
    destruct receipt; [destruct H as (-> & -> & _)|destruct H as [-> _]; reflexivity..].
    eexists; split; [done|]. intros Hn. rewrite app_assoc, ids_app.
    apply NoDup_app. split; [done|]. split; [|apply NoDup_singleton].
    intros x Hx Hx'. apply list_elem_of_singleton in Hx' as ->. done.
  - apply stage_write_err in H as ->. reflexivity.
Qed.
End StagingFacts.
#[export] Hint Resolve stage_write_grows : respects.
