(* ===== verification/LaneLock.v ===== *)
(** * The lane lock row ([tasks/store/memory/lane_owner.rs])

    The steps of the lane-owner state machine that touch only the lock row:
    liveness, phase transitions, release and what a poll reports of it. *)
From S2P Require Import Prelude Externals Failure Config Models Transitions Lifecycle.
From S2P Require Import MemoryState.
#[local] Open Scope Z_scope.

Definition set_owner_id (v : option string) (o : MemoryLaneLock) : MemoryLaneLock :=
  {| ml_owner_id := v; ml_owner_token := ml_owner_token o; ml_leased_until :=
     ml_leased_until o; ml_phase := ml_phase o; ml_flushing := ml_flushing o; ml_empty_since
     := ml_empty_since o; ml_generation := ml_generation o; ml_hook_retry_at :=
     ml_hook_retry_at o; ml_last_hook_error := ml_last_hook_error o |}.
Definition set_owner_token (v : option string) (o : MemoryLaneLock) : MemoryLaneLock :=
  {| ml_owner_id := ml_owner_id o; ml_owner_token := v; ml_leased_until := ml_leased_until
     o; ml_phase := ml_phase o; ml_flushing := ml_flushing o; ml_empty_since :=
     ml_empty_since o; ml_generation := ml_generation o; ml_hook_retry_at :=
     ml_hook_retry_at o; ml_last_hook_error := ml_last_hook_error o |}.
Definition set_leased_until (v : option DateTime) (o : MemoryLaneLock) : MemoryLaneLock :=
  {| ml_owner_id := ml_owner_id o; ml_owner_token := ml_owner_token o; ml_leased_until := v;
     ml_phase := ml_phase o; ml_flushing := ml_flushing o; ml_empty_since := ml_empty_since
     o; ml_generation := ml_generation o; ml_hook_retry_at := ml_hook_retry_at o;
     ml_last_hook_error := ml_last_hook_error o |}.
Definition set_phase (v : LaneOwnerPhase) (o : MemoryLaneLock) : MemoryLaneLock :=
  {| ml_owner_id := ml_owner_id o; ml_owner_token := ml_owner_token o; ml_leased_until :=
     ml_leased_until o; ml_phase := v; ml_flushing := ml_flushing o; ml_empty_since :=
     ml_empty_since o; ml_generation := ml_generation o; ml_hook_retry_at :=
     ml_hook_retry_at o; ml_last_hook_error := ml_last_hook_error o |}.
Definition set_flushing (v : bool) (o : MemoryLaneLock) : MemoryLaneLock :=
  {| ml_owner_id := ml_owner_id o; ml_owner_token := ml_owner_token o; ml_leased_until :=
     ml_leased_until o; ml_phase := ml_phase o; ml_flushing := v; ml_empty_since :=
     ml_empty_since o; ml_generation := ml_generation o; ml_hook_retry_at :=
     ml_hook_retry_at o; ml_last_hook_error := ml_last_hook_error o |}.
Definition set_empty_since (v : option DateTime) (o : MemoryLaneLock) : MemoryLaneLock :=
  {| ml_owner_id := ml_owner_id o; ml_owner_token := ml_owner_token o; ml_leased_until :=
     ml_leased_until o; ml_phase := ml_phase o; ml_flushing := ml_flushing o; ml_empty_since
     := v; ml_generation := ml_generation o; ml_hook_retry_at := ml_hook_retry_at o;
     ml_last_hook_error := ml_last_hook_error o |}.
Definition set_generation (v : Z) (o : MemoryLaneLock) : MemoryLaneLock :=
  {| ml_owner_id := ml_owner_id o; ml_owner_token := ml_owner_token o; ml_leased_until :=
     ml_leased_until o; ml_phase := ml_phase o; ml_flushing := ml_flushing o; ml_empty_since
     := ml_empty_since o; ml_generation := v; ml_hook_retry_at := ml_hook_retry_at o;
     ml_last_hook_error := ml_last_hook_error o |}.
Definition set_hook_retry_at (v : option DateTime) (o : MemoryLaneLock) : MemoryLaneLock :=
  {| ml_owner_id := ml_owner_id o; ml_owner_token := ml_owner_token o; ml_leased_until :=
     ml_leased_until o; ml_phase := ml_phase o; ml_flushing := ml_flushing o; ml_empty_since
     := ml_empty_since o; ml_generation := ml_generation o; ml_hook_retry_at := v;
     ml_last_hook_error := ml_last_hook_error o |}.
Definition set_last_hook_error (v : option string) (o : MemoryLaneLock) : MemoryLaneLock :=
  {| ml_owner_id := ml_owner_id o; ml_owner_token := ml_owner_token o; ml_leased_until :=
     ml_leased_until o; ml_phase := ml_phase o; ml_flushing := ml_flushing o; ml_empty_since
     := ml_empty_since o; ml_generation := ml_generation o; ml_hook_retry_at :=
     ml_hook_retry_at o; ml_last_hook_error := v |}.

Definition memory_owner_live (owner : MemoryLaneLock) (now : DateTime) : bool :=
  bool_decide (is_Some (ml_owner_token owner))
  && match ml_leased_until owner with Some deadline => now <? deadline | None => false end.

Definition memory_action (phase : LaneOwnerPhase) : option LaneHookAction :=
  match phase with Idling => Some HookIdle | Busying => Some HookBusy | _ => None end.

Definition memory_transition (phase : LaneOwnerPhase) : M MemoryLaneLock TaskRuntimeError unit :=
  do! owner := getM in
  do! generation := liftR (ok_or (i64_checked_add (ml_generation owner) 1)
                             (TaskExecutionError "lane lifecycle generation overflowed")) in
  modifyM (set_generation generation) ;!
  modifyM (set_phase phase) ;!
  modifyM (set_hook_retry_at None) ;!
  modifyM (set_last_hook_error None).

Definition memory_activate (owner : MemoryLaneLock) : MemoryLaneLock :=
  set_last_hook_error None (set_hook_retry_at None (set_empty_since None (set_phase Active owner))).

Definition memory_release (phase : LaneOwnerPhase) (owner : MemoryLaneLock) : MemoryLaneLock :=
  set_flushing false (set_phase phase (set_leased_until None (set_owner_token None
    (set_owner_id None owner)))).

Definition memory_owner_poll (owner : MemoryLaneLock) (action : option LaneHookAction) :
    LaneOwnerPoll :=
  {| op_token := ml_owner_token owner; op_generation := ml_generation owner;
     op_phase := ml_phase owner; op_action := action; op_takeover := false |}.

(** [memory_poll_with], [memory_poll] and [memory_poll_action] only read the row. *)
Definition memory_poll_with (lane : TaskLane) (owner : MemoryLaneLock)
    (action : option LaneHookAction) (wake : option Duration) : LanePoll :=
  {| lp_lane := lane; lp_tasks := []; lp_reclaimed := 0; lp_saturated := false;
     lp_next_wake_in := wake; lp_owner := Some (memory_owner_poll owner action) |}.
Definition memory_poll_action (lane : TaskLane) (owner : MemoryLaneLock) (action : LaneHookAction)
    (wake : option Duration) : LanePoll := memory_poll_with lane owner (Some action) wake.
Definition memory_poll (lane : TaskLane) (owner : MemoryLaneLock) (wake : option Duration) :
    LanePoll := memory_poll_with lane owner None wake.

Definition set_lp_owner (v : option LaneOwnerPoll) (p : LanePoll) : LanePoll :=
  {| lp_lane := lp_lane p; lp_tasks := lp_tasks p; lp_reclaimed := lp_reclaimed p;
     lp_saturated := lp_saturated p; lp_next_wake_in := lp_next_wake_in p; lp_owner := v |}.
Definition set_lp_wake (v : option Duration) (p : LanePoll) : LanePoll :=
  {| lp_lane := lp_lane p; lp_tasks := lp_tasks p; lp_reclaimed := lp_reclaimed p;
     lp_saturated := lp_saturated p; lp_next_wake_in := v; lp_owner := lp_owner p |}.
Definition set_lp_tasks (v : list TaskRecord) (p : LanePoll) : LanePoll :=
  {| lp_lane := lp_lane p; lp_tasks := v; lp_reclaimed := lp_reclaimed p;
     lp_saturated := lp_saturated p; lp_next_wake_in := lp_next_wake_in p; lp_owner := lp_owner p |}.

(** A poll that grants nothing: the token and the action are withheld. *)
Definition memory_wait_poll (lane : TaskLane) (owner : MemoryLaneLock) (wake : option Duration) :
    LanePoll :=
  let poll := memory_poll lane owner wake in
  set_lp_owner
    ((λ o, {| op_token := None; op_generation := op_generation o; op_phase := op_phase o;
              op_action := None; op_takeover := op_takeover o |}) <$> lp_owner poll) poll.

Section LaneLock.
Context `{X : Externals}.

(** Renews the requester's live token, or takes an unowned or expired row with the fresh
    token [fresh] ([Uuid::now_v7()]). *)
Definition memory_owner (fresh : Uuid) (runner_id : Uuid) (claim : LaneClaim)
    (duration : Duration) (now : DateTime) : M MemoryLaneLock TaskRuntimeError bool :=
  do! owner := getM in
  let requested := lcl_owner claim ≫= or_token in
  let current := match requested with
                 | Some token =>
                     bool_decide (ml_owner_id owner = Some (uuid_display runner_id))
                     && bool_decide (ml_owner_token owner = Some token)
                     && memory_owner_live owner now
                 | None => false
                 end in
  if current then
    do! lease := liftR (checked_deadline now duration) in
    modifyM (set_leased_until lease) ;!
    retM true
  else if bool_decide (is_Some requested) || memory_owner_live owner now then retM false
  else
    modifyM (set_owner_id (Some (uuid_display runner_id))) ;!
    modifyM (set_owner_token (Some (uuid_display fresh))) ;!
    do! lease := liftR (checked_deadline now duration) in
    modifyM (set_leased_until lease) ;!
    retM true.

Definition memory_start_idle (lane_name : TaskLane) (lane : TaskLaneConf) :
    M MemoryLaneLock TaskRuntimeError LanePoll :=
  if bool_decide (is_Some (lc_lane_lock lane ≫= ll_idle_hook)) then
    memory_transition Idling ;!
    getsM (λ owner, memory_poll_action lane_name owner HookIdle None)
  else
    modifyM (memory_release Idle) ;!
    getsM (λ owner, memory_poll lane_name owner None).

Definition memory_start_busy (lane_name : TaskLane) (lane : TaskLaneConf) (now : DateTime) :
    M MemoryLaneLock TaskRuntimeError LanePoll :=
  do! owner := getM in
  if match ml_hook_retry_at owner with Some retry => now <? retry | None => false end then
    let wake := ml_hook_retry_at owner ≫= λ retry, td_to_std (retry - now) in
    modifyM (memory_release BusyFailed) ;!
    getsM (λ owner, memory_poll lane_name owner wake)
  else if bool_decide (is_Some (lc_lane_lock lane ≫= ll_busy_hook)) then
    memory_transition Busying ;!
    getsM (λ owner, memory_poll_action lane_name owner HookBusy None)
  else
    modifyM memory_activate ;!
    getsM (λ owner, memory_poll lane_name owner (Some 0)).

Definition memory_empty (tasks : list TaskRecord) (claim : LaneClaim) (lane : TaskLaneConf)
    (now : DateTime) : M MemoryLaneLock TaskRuntimeError LanePoll :=
  do! owner := getM in
  match ml_phase owner with
  | Idle | IdleFailed | BusyFailed =>
      modifyM (memory_release (ml_phase owner)) ;!
      getsM (λ owner, memory_poll (lcl_lane claim) owner
                        (task_deadline tasks (lcl_lane claim) now))
  | _ =>
      let quiescent := match lcl_owner claim with Some r => or_quiescent r | None => false end in
      if negb quiescent then retM (memory_poll (lcl_lane claim) owner None)
      else
        let delay := match lc_lane_lock lane with Some l => ll_idle_after l | None => 0 end in
        let started := default now (ml_empty_since owner) in
        modifyM (set_empty_since (Some started)) ;!
        let elapsed := default 0 (td_to_std (now - started)) in
        if elapsed <? delay then
          getsM (λ owner, memory_poll (lcl_lane claim) owner
                            (Some (duration_saturating_sub delay elapsed)))
        else memory_start_idle (lcl_lane claim) lane
  end.

Definition memory_fail_idle (error : string) (owner : MemoryLaneLock) : MemoryLaneLock :=
  memory_release IdleFailed (set_last_hook_error (Some error) owner).

Definition memory_fail_busy (conf : option TaskStoreConf) (error : string) (now : DateTime) :
    M MemoryLaneLock TaskRuntimeError unit :=
  let delay := match conf with Some conf => sc_poll_interval conf | None => from_secs 1 end in
  modifyM (set_last_hook_error (Some error)) ;!
  do! retry := liftR (checked_deadline now delay) in
  modifyM (set_hook_retry_at retry) ;!
  modifyM (memory_release BusyFailed).

Definition finish_memory_idle (tasks : list TaskRecord) (lane_name : TaskLane)
    (lane : TaskLaneConf) (now : DateTime) : M MemoryLaneLock TaskRuntimeError unit :=
  if bool_decide (due_indices tasks lane_name now = []) then modifyM (memory_release Idle)
  else if bool_decide (is_Some (lc_lane_lock lane ≫= ll_busy_hook))
  then memory_transition Busying
  else modifyM memory_activate.

(** A result for another generation or for a hook the row is not waiting for is ignored. *)
Definition apply_memory_hook (conf : option TaskStoreConf) (tasks : list TaskRecord)
    (hook : LaneHookResult) (lane_name : TaskLane) (lane : TaskLaneConf) (now : DateTime) :
    M MemoryLaneLock TaskRuntimeError unit :=
  do! owner := getM in
  if negb (ml_generation owner =? hr_generation hook)
     || negb (bool_decide (memory_action (ml_phase owner) = Some (hr_action hook)))
  then retM tt
  else match hr_action hook, hr_result hook with
       | HookIdle, Ok _ => finish_memory_idle tasks lane_name lane now
       | HookIdle, Err error => modifyM (memory_fail_idle error)
       | HookBusy, Ok _ => modifyM memory_activate
       | HookBusy, Err error => memory_fail_busy conf error now
       end.

(** The ordered, bounded window of due candidates. *)
Definition memory_candidates (tasks : list TaskRecord) (lane_name : TaskLane)
    (lane : TaskLaneConf) (now : DateTime) : list nat :=
  let size := match lc_lane_lock lane with Some l => ll_batch_size l | None => 1 end in
  take (Z.to_nat size) (sort_candidates tasks now (due_indices tasks lane_name now)).

Definition memory_flush_wake (tasks : list TaskRecord) (candidates : list nat)
    (lane : TaskLaneConf) (now : DateTime) : result TaskRuntimeError (option Duration) :=
  match lc_lane_lock lane ≫= ll_deadline with
  | None => Ok None
  | Some deadline =>
      match head candidates ≫= λ index, tasks !! index with
      | None => Ok None
      | Some task =>
          let oldest := (readiness task now).1.1 in
          let? delta := chrono_duration deadline in
          let? due := ok_or (checked_add_signed oldest delta)
                        (InvalidConfig "lane lock deadline exceeds timestamp range") in
          Ok (Some (default 0 (td_to_std (due - now))))
      end
  end.

Definition memory_flush (tasks : list TaskRecord) (candidates : list nat) (lane : TaskLaneConf)
    (now : DateTime) : result TaskRuntimeError bool :=
  match lc_lane_lock lane with
  | None => Err (InvalidConfig "locked lane lost its policy")
  | Some lock =>
      if ll_batch_size lock <=? zlen candidates then Ok true
      else let? wake := memory_flush_wake tasks candidates lane now in
           Ok (bool_decide (wake = Some 0))
  end.
End LaneLock.
