(* ===== verification/Workflow.v ===== *)
(** * Workflow transitions ([tasks/store/memory/workflow.rs])

    Staging of accepted outcomes and their children, delivery of child
    results to suspended parents, the wait set of an [all] join and the
    aggregation of its results. The infallible finalizers are functions of
    the state; the fallible stage is a body over the batch it fills. *)
From S2P Require Import Prelude Externals Failure Config Models Transitions Lifecycle MemoryState.
From S2P Require Import LaneLock.
#[local] Open Scope Z_scope.

Abbreviation Delivery := (TaskId * string)%type (only parsing).

(** [len as i32]. *)
Definition as_i32 (z : Z) : Z := (z + 2147483648) `mod` 4294967296 - 2147483648.
Definition i32_checked_sub (a b : Z) : option Z := i32_checked_add a (- b).

(** What a batch of commits stages before any stored task changes. *)
Record Batch := {
  bt_updates : list (nat * TaskRecord);
  bt_children : list TaskRecord;
  bt_deliveries : list Delivery;
  bt_waits : list (TaskId * TaskWait);
}.
Definition empty_batch : Batch :=
  {| bt_updates := []; bt_children := []; bt_deliveries := []; bt_waits := [] |}.
Definition put_children (v : list TaskRecord) (b : Batch) : Batch :=
  {| bt_updates := bt_updates b; bt_children := v; bt_deliveries := bt_deliveries b;
     bt_waits := bt_waits b |}.
Definition put_deliveries (v : list Delivery) (b : Batch) : Batch :=
  {| bt_updates := bt_updates b; bt_children := bt_children b; bt_deliveries := v;
     bt_waits := bt_waits b |}.
Definition push_update (u : nat * TaskRecord) (b : Batch) : Batch :=
  {| bt_updates := bt_updates b ++ [u]; bt_children := bt_children b;
     bt_deliveries := bt_deliveries b; bt_waits := bt_waits b |}.
Definition push_wait (w : TaskId * TaskWait) (b : Batch) : Batch :=
  {| bt_updates := bt_updates b; bt_children := bt_children b;
     bt_deliveries := bt_deliveries b; bt_waits := bt_waits b ++ [w] |}.

Definition not_initialized : TaskRuntimeError := InvalidConfig "task store is not initialized".

Section Workflow.
Context `{X : Externals}.

Definition queue_delivery (task : TaskRecord) : M (list Delivery) TaskRuntimeError unit :=
  match t_parent_id task with
  | None => retM tt
  | Some parent =>
      do! result := liftR (terminal_result (t_status task) (t_last_result task)) in
      match result with
      | Some result => modifyM (λ deliveries, deliveries ++ [(parent, result)])
      | None => retM tt
      end
  end.

(** The child as its parent's turn stages it: linked to the parent and its root, unowned. *)
Definition link_child (parent : TaskRecord) (child : TaskWrite) : TaskWrite :=
  on_record (λ r, set_node_id None (set_root_id (Some (default (t_id parent) (t_root_id parent)))
                    (set_parent_id (Some (t_id parent)) r))) child.

(** [false] at the first member that is not newly queued, with the batch as it is there. *)
Fixpoint stage_group (existing : list TaskRecord) (parent : TaskRecord) (group : list TaskWrite)
    (now : DateTime) (children : list TaskRecord) : bool * list TaskRecord :=
  match group with
  | [] => (true, children)
  | child :: group =>
      match stage_write existing (link_child parent child) now children with
      | (Ok (Queued _), children) => stage_group existing parent group now children
      | (_, children) => (false, children)
      end
  end.

(** Stages a whole group, undoing its inserts on any identity conflict. *)
Definition prepare (conf : option TaskStoreConf) (existing : list TaskRecord)
    (parent : TaskRecord) (checkpoint : string) (group : list TaskWrite) (now : DateTime) :
    M (list TaskRecord) TaskRuntimeError TaskOutcome :=
  do! conf := liftR (ok_or conf (InvalidConfig "Store not initialized")) in
  match validate_group group conf with
  | Err error => retM (outcome_fail (error_to_string error))
  | Ok _ =>
      do! children := getM in
      let start := length children in
      let '(queued, children) := stage_group existing parent group now children in
      modifyM (λ _, if queued then children else take start children) ;!
      retM (if queued then OutSuspend checkpoint
            else outcome_fail "All child preparation or identity conflict")
  end.

(** Resolves child identity conflicts without adopting an independent task. *)
Definition prepare_spawn (conf : option TaskStoreConf) (existing : list TaskRecord)
    (parent : TaskRecord) (outcome : TaskOutcome) (now : DateTime) :
    M (list TaskRecord) TaskRuntimeError TaskOutcome :=
  match outcome with
  | OutAll checkpoint group => prepare conf existing parent checkpoint group now
  | OutSpawn checkpoint child =>
      do! _ := liftR (validate_write_lanes conf [child]) in
      if w_ignore_conflicts child then throwM (InvalidOptions "spawn cannot ignore conflicts")
      else λ children,
        match stage_write existing (link_child parent child) now children with
        | (Ok (Queued _), children) => (Ok (OutSuspend checkpoint), children)
        | (Ok _, children)
        | (Err (IdempotencyConflict _ | AlreadyExists _), children) =>
            (Ok (outcome_fail "Child task identity conflicts with an existing task"), children)
        | (Err error, children) => (Err error, children)
        end
  | _ => retM outcome
  end.

Definition memory_commit_allowed (state : MemoryState) (commit : TaskCommit) (now : DateTime) :
    result TaskRuntimeError bool :=
  match commit with
  | CommitCancel _ => Ok true
  | CommitOutcome node_id _ _ lane _ owner_token =>
      let locked := match ms_conf state ≫= λ conf, conf_lane conf lane with
                    | Some lane => bool_decide (is_Some (lc_lane_lock lane))
                    | None => false
                    end in
      if negb locked then Ok true
      else match ms_lane_locks state !! lane with
           | None => Err (InvalidConfig ("task lane lock '" +:+ lane +:+ "' is not initialized"))
           | Some owner =>
               Ok (bool_decide (ml_owner_id owner = Some (uuid_display node_id))
                   && bool_decide (ml_owner_token owner = owner_token)
                   && memory_owner_live owner now)
           end
  end.

(** [iter().enumerate().find(p)]. *)
Fixpoint find_index_from {A} (i : nat) (p : A → bool) (l : list A) : option (nat * A) :=
  match l with
  | [] => None
  | x :: l => if p x then Some (i, x) else find_index_from (S i) p l
  end.

Definition accepted_by (commit : TaskCommit) (task : TaskRecord) : bool :=
  has_id (commit_task_id commit) task
  && accepts commit (t_status task) (t_node_id task) (t_attempts task).

Definition owned_task (state : MemoryState) (commit : TaskCommit) :
    result TaskRuntimeError (option (nat * TaskRecord)) :=
  let owned := find_index_from 0 (accepted_by commit) (ms_tasks state) in
  match owned, commit_lane commit with
  | Some (_, task), Some lane =>
      if String.eqb (t_lane task) lane then Ok owned else Err (UnknownLane (t_lane task))
  | _, _ => Ok owned
  end.

(** The record an accepted commit leaves, its children and its delivery. *)
Definition staged_task (state : MemoryState) (task : TaskRecord) (commit : TaskCommit)
    (now : DateTime) : M Batch TaskRuntimeError TaskRecord :=
  do! conf := liftR (ok_or (ms_conf state) not_initialized) in
  let task := set_cancelled (t_cancelled task || commit_is_cancel commit) task in
  let outcome := default cancellation (commit_outcome commit) in
  do! outcome :=
    if t_cancelled task then retM cancellation
    else match capability_error (t_kind task) outcome (sc_handlers conf) with
         | Some error => retM (outcome_fail error)
         | None => zoomM bt_children put_children
                     (prepare_spawn (ms_conf state) (ms_tasks state) task outcome now)
         end in
  do! retry := liftR (ok_or (lc_retry <$> conf_lane conf (t_lane task))
                        (UnknownLane (t_lane task))) in
  do! task := (λ batch,
    match (apply_outcome outcome retry now ;! finalize_idempotency conf now) task with
    | (Ok _, task) => (Ok task, batch)
    | (Err error, _) => (Err error, batch)
    end) in
  zoomM bt_deliveries put_deliveries (queue_delivery task) ;!
  retM task.

Definition prepared_wait (parent : TaskId) (children : list TaskRecord) : TaskWait :=
  let children := t_id <$> List.filter (λ c, bool_decide (t_parent_id c = Some parent)) children in
  {| tw_children := children; tw_remaining_completions := as_i32 (zlen children) |}.

Fixpoint stage_commits (state : MemoryState) (seen : list TaskId) (commits : list TaskCommit)
    (now : DateTime) : M Batch TaskRuntimeError unit :=
  match commits with
  | [] => retM tt
  | commit :: commits =>
      if bool_decide (commit_task_id commit ∈ seen)
      then throwM (InvalidOptions "duplicate task outcome")
      else
        let continue := stage_commits state (commit_task_id commit :: seen) commits now in
        do! allowed := liftR (memory_commit_allowed state commit now) in
        if negb allowed then continue
        else
          do! owned := liftR (owned_task state commit) in
          match owned with
          | None => continue
          | Some (index, task) =>
              do! task := staged_task state task commit now in
              (if is_all (commit_outcome commit) && bool_decide (t_status task = Suspended)
               then modifyM (λ b, push_wait (t_id task, prepared_wait (t_id task) (bt_children b)) b)
               else retM tt) ;!
              modifyM (push_update (index, task)) ;!
              continue
          end
  end.

Definition stage_outcomes (state : MemoryState) (commits : list TaskCommit) (now : DateTime) :
    result TaskRuntimeError Batch :=
  match stage_commits state [] commits now empty_batch with
  | (Ok _, batch) => Ok batch
  | (Err error, _) => Err error
  end.
End Workflow.

(** ** Finalizing a turn ([tasks/store/memory/workflow.rs])

    What a turn does after everything that can fail has succeeded: inserting
    children, delivering results, installing wait sets, materializing the
    input of claimed parents, and reconciling the poll. *)

(** Threads a state through the elements of a list. *)
Fixpoint map_state {S A B} (f : A → S → B * S) (l : list A) (s : S) : list B * S :=
  match l with
  | [] => ([], s)
  | a :: l => let '(b, s) := f a s in let '(bs, s) := map_state f l s in (b :: bs, s)
  end.

(** Deliveries of one turn grouped by parent, in the order of a [BTreeMap]: the count and the
    first result of each parent. The [i32] count is bounded by the turn's deliveries. *)
Fixpoint group_insert (id : TaskId) (result : string) (l : list (TaskId * (Z * string))) :
    list (TaskId * (Z * string)) :=
  match l with
  | [] => [(id, (1, result))]
  | (id', (count, first)) :: l' =>
      if (id =? id')%N then (id', (count + 1, first)) :: l'
      else if (id <? id')%N then (id, (1, result)) :: l
      else (id', (count, first)) :: group_insert id result l'
  end.
Definition group_deliveries (deliveries : list Delivery) : list (TaskId * (Z * string)) :=
  fold_left (λ grouped d, group_insert d.1 d.2 grouped) deliveries [].

Section Finalize.
Context `{X : Externals}.

Definition awaits_delivery (id : TaskId) (task : TaskRecord) : bool :=
  has_id id task && negb (t_cancelled task) && bool_decide (t_status task = Suspended).

Definition wake_parent (now : DateTime) (task : TaskRecord) : TaskRecord :=
  set_updated_at now (set_ready_at (Some now) (set_status Pending task)).

Definition put_remaining (r : Z) (w : TaskWait) : TaskWait :=
  {| tw_children := tw_children w; tw_remaining_completions := r |}.

(** One group: [continue] leaves the parent suspended. *)
Definition deliver_group (now : DateTime) (acc : MemoryState * list string)
    (group : TaskId * (Z * string)) : MemoryState * list string :=
  let '(s, names) := acc in
  let '(id, (count, result)) := group in
  match List.find (awaits_delivery id) (ms_tasks s) with
  | None => acc
  | Some parent =>
      let resume f s :=
        (set_tasks (update_first (awaits_delivery id) (λ t, wake_parent now (f t)) (ms_tasks s)) s,
         t_lane parent :: names) in
      match ms_waits s !! id with
      | None => resume (set_resume_input (Some result)) s
      | Some wait =>
          match i32_checked_sub (tw_remaining_completions wait) count with
          | Some remaining =>
              if remaining <? 0 then
                resume (set_resume_input (Some (group_failure id "All completion counter underflow")))
                  (set_waits (delete id (ms_waits s)) s)
              else
                let s := set_waits (<[id := put_remaining remaining wait]> (ms_waits s)) s in
                if 0 <? remaining then (s, names) else resume (λ t, t) s
          | None =>
              resume (set_resume_input (Some (group_failure id "All completion counter underflow")))
                (set_waits (delete id (ms_waits s)) s)
          end
      end
  end.

Definition finalize_workflow (children : list TaskRecord) (deliveries : list Delivery)
    (now : DateTime) (s : MemoryState) : list TaskLane * MemoryState :=
  let names := t_lane <$> children in
  let s := set_tasks (ms_tasks s ++ children) s in
  let '(s, names) := fold_left (deliver_group now) (group_deliveries deliveries) (s, names) in
  let lanes := match ms_conf s with Some conf => lc_lane <$> sc_lanes conf | None => [] end in
  (List.filter (λ lane, bool_decide (lane ∈ names)) lanes, s).

(** Installs one wait; a group with no child wakes its parent at once. *)
Definition install_wait (now : DateTime) (acc : list TaskLane * MemoryState)
    (w : TaskId * TaskWait) : list TaskLane * MemoryState :=
  let '(wake, s) := acc in
  let '(id, wait) := w in
  let '(wake, s) :=
    match tw_children wait, find_task id (ms_tasks s) with
    | [], Some parent =>
        (match ms_conf s ≫= λ conf, conf_lane conf (t_lane parent) with
         | Some lane => wake ++ [lc_lane lane]
         | None => wake
         end,
         set_tasks (update_first (has_id id) (λ t, set_ready_at (Some now) (set_status Pending t))
                      (ms_tasks s)) s)
    | _, _ => (wake, s)
    end in
  (wake, set_waits (<[id := wait]> (ms_waits s)) s).

Definition install (waits : list (TaskId * TaskWait)) (now : DateTime) (s : MemoryState) :
    list TaskLane * MemoryState :=
  fold_left (install_wait now) waits ([], s).

(** Member results in submission order, or the error that ends the encoding. *)
Fixpoint append_members (tasks : list TaskRecord) (members : list TaskId) (buffer : string) :
    result string string :=
  match members with
  | [] => Ok buffer
  | id :: members =>
      let child := find_task id tasks in
      let terminal := match child with Some c => is_terminal (t_status c) | None => false end in
      let? buffer := append_result buffer (child ≫= t_last_result) terminal in
      append_members tasks members buffer
  end.

Definition aggregate (tasks : list TaskRecord) (parent : TaskId) (wait : TaskWait) : string :=
  if negb (tw_remaining_completions wait =? 0)
  then group_failure parent "All claimed before completion"
  else match append_members tasks (tw_children wait) (jtext "{'Ok':[") with
       | Err error => group_failure parent error
       | Ok buffer => buffer +:+ jtext "]}"
       end.

(** One claimed snapshot: its wait set is consumed and its input persisted. *)
Definition materialize_task (snapshot : TaskRecord) (s : MemoryState) : TaskRecord * MemoryState :=
  match ms_waits s !! t_id snapshot with
  | None => (snapshot, s)
  | Some wait =>
      let s := set_waits (delete (t_id snapshot) (ms_waits s)) s in
      let input := aggregate (ms_tasks s) (t_id snapshot) wait in
      match find_task (t_id snapshot) (ms_tasks s) with
      | None => (snapshot, s)
      | Some parent =>
          (set_resume_input (Some input) parent,
           set_tasks (update_first (has_id (t_id snapshot)) (set_resume_input (Some input))
                        (ms_tasks s)) s)
      end
  end.

Definition put_poll_lanes (lanes : list LanePoll) (poll : TaskPoll) : TaskPoll :=
  {| tp_wake_lanes := tp_wake_lanes poll; tp_lanes := lanes |}.

Definition materialize (poll : TaskPoll) (s : MemoryState) : TaskPoll * MemoryState :=
  let '(lanes, s) := map_state (λ lane s,
    let '(tasks, s) := map_state materialize_task (lp_tasks lane) s in
    (set_lp_tasks tasks lane, s)) (tp_lanes poll) s in
  (put_poll_lanes lanes poll, s).

Definition clear_terminal (touched : list TaskRecord) (s : MemoryState) : MemoryState :=
  fold_left (λ s task,
    if bool_decide (is_Some (ms_waits s !! t_id task))
       && existsb (λ current, has_id (t_id task) current && is_terminal (t_status current))
            (ms_tasks s)
    then set_waits (delete (t_id task) (ms_waits s)) s else s) touched s.

(** Cancels only a newly proposed idle hook when finalization added ready work. *)
Definition reconcile_lane (lanes : list TaskLane) (phases : gmap string LaneOwnerPhase)
    (now : DateTime) (lane : LanePoll) (s : MemoryState) : LanePoll * MemoryState :=
  let name := lp_lane lane in
  if negb (bool_decide (name ∈ lanes)) then (lane, s)
  else
    let lane := set_lp_wake (Some 0) lane in
    if negb (existsb (λ t, String.eqb (t_lane t) name && is_due t now) (ms_tasks s)) then (lane, s)
    else match ms_lane_locks s !! name with
         | None => (lane, s)
         | Some owner =>
             let owner := set_empty_since None owner in
             if bool_decide (ml_phase owner = Idling)
                && negb (bool_decide (phases !! name = Some Idling))
             then
               let owner := memory_activate owner in
               (set_lp_owner (Some (memory_owner_poll owner None)) lane,
                set_lane_locks (<[name := owner]> (ms_lane_locks s)) s)
             else (lane, set_lane_locks (<[name := owner]> (ms_lane_locks s)) s)
         end.

Definition reconcile_poll (lanes : list TaskLane) (phases : gmap string LaneOwnerPhase)
    (now : DateTime) (poll : TaskPoll) (s : MemoryState) : TaskPoll * MemoryState :=
  let '(polls, s) := map_state (reconcile_lane lanes phases now) (tp_lanes poll) s in
  (put_poll_lanes polls poll, s).

Definition push_task (task : TaskRecord) (r : CommitResult) : CommitResult :=
  {| cr_wake_lanes := cr_wake_lanes r; cr_rejected := cr_rejected r; cr_tasks := cr_tasks r ++ [task] |}.

(** A cached suspended snapshot of this very record, resumed in this turn. *)
Definition cache_match (cached : list TaskRecord) (task : TaskRecord) : bool :=
  existsb (λ base, (t_id base =? t_id task)%N && bool_decide (t_node_id base = None)
                   && (t_attempts base =? t_attempts task)
                   && bool_decide (t_status base = Suspended)
                   && String.eqb (t_lane base) (t_lane task)) cached.

(** One row of the promotion loop, over the remaining budget and the result. *)
Definition admit_committed_row (conf : TaskStoreConf) (waits : gmap TaskId TaskWait)
    (before : nat) (commits : list TaskCommit) (node : Uuid) (cached : list TaskRecord)
    (now : DateTime) (row : nat * TaskRecord) (acc : Z * CommitResult) :
    TaskRecord * (Z * CommitResult) :=
  let '(index, task) := row in
  let '(limit, result) := acc in
  let candidate := (before <=? index)%nat
    || (cache_match cached task && bool_decide (t_node_id task = None)
        && (t_updated_at task =? now) && bool_decide (waits !! t_id task = None)) in
  let '(task, (limit, result)) :=
    if candidate && (0 <? limit) && bool_decide (t_node_id task = None) && sticky task conf
       && (t_attempts task <? I32_MAX) && (t_step_attempts task <? I32_MAX)
       && direct task conf now
    then match admit_record node now task with
         | (Ok _, admitted) => (admitted, (limit - 1, push_task admitted result))
         | (Err _, _) => (task, (limit, result))
         end
    else (task, (limit, result)) in
  if bool_decide (t_kind task = Flow)
     && existsb (λ c, (commit_task_id c =? t_id task)%N) commits
     && negb (bool_decide (t_id task ∈ cr_rejected result))
  then (task, (limit, push_task task result))
  else (task, (limit, result)).

Definition admit_committed (before : nat) (commits : list TaskCommit) (node : Uuid) (limit : Z)
    (cached : list TaskRecord) (now : DateTime) (result : CommitResult) (s : MemoryState) :
    CommitResult * MemoryState :=
  match ms_conf s with
  | None => (result, s)
  | Some conf =>
      let '(tasks, (_, result)) :=
        map_state (admit_committed_row conf (ms_waits s) before commits node cached now)
          (imap pair (ms_tasks s)) (limit, result) in
      (result, set_tasks tasks s)
  end.
End Finalize.

#[global] Arguments deliver_group : simpl never.
#[global] Arguments install_wait : simpl never.
#[global] Arguments materialize_task : simpl never.
#[global] Arguments aggregate : simpl never.
#[global] Arguments reconcile_lane : simpl never.
#[global] Arguments admit_committed_row : simpl never.
