(* ===== verification/Claims.v ===== *)
(** * Claiming a lane ([tasks/store/memory/store.rs])

    The bodies that run under the store's mutex with [&mut MemoryState],
    [&mut deliveries] and [&mut undo] are bodies over a [Turn], which holds the
    three and the number of identifiers [Uuid::now_v7] has handed out. *)
From S2P Require Import Prelude Externals Failure Config Rate Models Transitions Lifecycle.
From S2P Require Import MemoryState LaneLock Workflow.
#[local] Open Scope Z_scope.

Record Turn := {
  tn_state : MemoryState;
  tn_deliveries : list Delivery;
  tn_undo : list TaskRecord;
  tn_uuids : nat;
}.
Definition put_state (v : MemoryState) (t : Turn) : Turn :=
  {| tn_state := v; tn_deliveries := tn_deliveries t; tn_undo := tn_undo t; tn_uuids := tn_uuids t |}.
Definition put_turn_deliveries (v : list Delivery) (t : Turn) : Turn :=
  {| tn_state := tn_state t; tn_deliveries := v; tn_undo := tn_undo t; tn_uuids := tn_uuids t |}.
Definition put_uuids (v : nat) (t : Turn) : Turn :=
  {| tn_state := tn_state t; tn_deliveries := tn_deliveries t; tn_undo := tn_undo t; tn_uuids := v |}.
Definition push_undo (task : TaskRecord) (t : Turn) : Turn :=
  {| tn_state := tn_state t; tn_deliveries := tn_deliveries t; tn_undo := tn_undo t ++ [task];
     tn_uuids := tn_uuids t |}.
Definition put_tasks (v : list TaskRecord) (t : Turn) : Turn := put_state (set_tasks v (tn_state t)) t.
Definition tn_tasks (t : Turn) : list TaskRecord := ms_tasks (tn_state t).

(** [tasks.get_mut(index).ok_or_else(..)?] and what follows it on that task. *)
Definition at_task {A} (index : nat) (missing : TaskRuntimeError)
    (m : M TaskRecord TaskRuntimeError A) : M Turn TaskRuntimeError A := λ t,
  match tn_tasks t !! index with
  | None => (Err missing, t)
  | Some task =>
      let '(r, task') := m task in (r, put_tasks (<[index := task']> (tn_tasks t)) t)
  end.

Record ClaimReservation := {
  cl_claim : LaneClaim;
  cl_permits : Z;
  cl_rate_wake : option Duration;
  cl_candidates : Z;
}.

Definition bounded_claim (claim : LaneClaim) (batch_size : Z) : LaneClaim :=
  {| lcl_lane := lcl_lane claim; lcl_limit := Z.min (lcl_limit claim) batch_size;
     lcl_owner := lcl_owner claim |}.

Definition configured_rate (conf : option TaskStoreConf) (lane : TaskLane) :
    result TaskRuntimeError (option TaskRate) :=
  ok_or (lc_global_rate <$> (conf ≫= λ conf, conf_lane conf lane)) (UnknownLane lane).
Definition configured_retry (conf : option TaskStoreConf) (lane : TaskLane) :
    result TaskRuntimeError TaskRetry :=
  ok_or (lc_retry <$> (conf ≫= λ conf, conf_lane conf lane)) (UnknownLane lane).

Section Claims.
Context `{X : Externals}.

(** The row is logged, failed, delivered to its parent and released. *)
Definition fail_row (conf : TaskStoreConf) (policy : TaskRetry) (now : DateTime) (index : nat)
    (task : TaskRecord) : M Turn TaskRuntimeError unit :=
  let disappeared := TaskExecutionError "task candidate disappeared during finalization" in
  modifyM (push_undo task) ;!
  at_task index disappeared
    (apply_outcome (if t_cancelled task then cancellation
                    else outcome_fail "Maximum task attempts exhausted") policy now) ;!
  do! task := at_task index disappeared getM in
  zoomM tn_deliveries put_turn_deliveries (queue_delivery task) ;!
  at_task index disappeared
    (modifyM (set_node_id None) ;! modifyM (set_updated_at now) ;!
     finalize_idempotency conf now).

(** One candidate of [fail_exhausted]: finalized when cancelled or out of attempts. *)
Definition fail_candidate (conf : TaskStoreConf) (policy : TaskRetry) (now : DateTime)
    (index : nat) : M Turn TaskRuntimeError unit :=
  do! tasks := getsM tn_tasks in
  do! task := liftR (ok_or (tasks !! index)
    (TaskExecutionError "task candidate disappeared during finalization")) in
  do! done := (if t_cancelled task then retM true
               else liftR (exhausted policy (t_step_attempts task))) in
  if done then fail_row conf policy now index task else retM tt.

Definition fail_exhausted (lane : string) (limit : Z) (now : DateTime) (conf : TaskStoreConf)
    (policy : TaskRetry) : M Turn TaskRuntimeError unit :=
  do! tasks := getsM tn_tasks in
  for_eachM (take (Z.to_nat limit) (sort_candidates tasks now (due_indices tasks lane now)))
    (fail_candidate conf policy now).

(** Refills and reserves one lane bucket while holding the store mutex. *)
Definition reserve_permits (lane : TaskLane) (limit : Z) (rate : option TaskRate)
    (now : DateTime) : M Turn TaskRuntimeError (Z * option Duration) :=
  if limit =? 0 then retM (0, None)
  else match rate with
       | None => retM (limit, None)
       | Some rate =>
           do! rates := getsM (λ t, ms_rates (tn_state t)) in
           let bucket := default (full_bucket rate now) (rates !! lane) in
           λ t, let '(r, bucket) := take_permits limit rate now bucket in
                (r, put_state (set_rates (<[lane := bucket]> rates) (tn_state t)) t)
       end.

(** Cancelled candidates are skipped, Flow ones are free, Work ones take a permit each. *)
Fixpoint retain_permitted (tasks : list TaskRecord) (permits : Z) (candidates : list nat) :
    list nat :=
  match candidates with
  | [] => []
  | index :: candidates =>
      match tasks !! index with
      | None => retain_permitted tasks permits candidates
      | Some task =>
          if t_cancelled task then retain_permitted tasks permits candidates
          else if bool_decide (t_kind task = Flow)
          then index :: retain_permitted tasks permits candidates
          else if permits =? 0 then retain_permitted tasks permits candidates
          else index :: retain_permitted tasks (permits - 1) candidates
      end
  end.

Definition is_flow (tasks : list TaskRecord) (index : nat) : bool :=
  match tasks !! index with Some task => bool_decide (t_kind task = Flow) | None => false end.

(** The due candidates [claim_lane] considers, in selection order. *)
Definition lane_candidates (tasks : list TaskRecord) (lane : string) (permit_limit : Z)
    (now : DateTime) : list nat :=
  let candidates := due_indices tasks lane now in
  let candidates := if permit_limit =? 0 then List.filter (is_flow tasks) candidates
                    else candidates in
  sort_candidates tasks now candidates.

(** The indices it claims. *)
Definition selected (tasks : list TaskRecord) (claim : LaneClaim) (permit_limit : Z)
    (now : DateTime) : list nat :=
  retain_permitted tasks permit_limit
    (take (Z.to_nat (lcl_limit claim)) (lane_candidates tasks (lcl_lane claim) permit_limit now)).

Definition claim_candidate (runner_id : Uuid) (now : DateTime) (default_lease : Duration)
    (index : nat) : M Turn TaskRuntimeError TaskRecord :=
  let disappeared := TaskExecutionError "task candidate disappeared during claim" in
  do! tasks := getsM tn_tasks in
  do! task := liftR (ok_or (tasks !! index) disappeared) in
  modifyM (push_undo task) ;!
  at_task index disappeared (claim_task runner_id now default_lease) ;!
  at_task index disappeared getM.

Definition is_running (tasks : list TaskRecord) (index : nat) : bool :=
  match tasks !! index with Some task => bool_decide (t_status task = Running) | None => false end.

Definition claim_lane (runner_id : Uuid) (claim : LaneClaim) (permit_limit : Z) (now : DateTime)
    (default_lease : Duration) : M Turn TaskRuntimeError LanePoll :=
  do! tasks := getsM tn_tasks in
  let requested := lcl_limit claim in
  let candidates := lane_candidates tasks (lcl_lane claim) permit_limit now in
  let saturated := (0 <? requested) && (requested <=? zlen candidates) in
  let candidates := selected tasks claim permit_limit now in
  let reclaimed := zlen (List.filter (is_running tasks) candidates) in
  do! claimed := mapM_M candidates (claim_candidate runner_id now default_lease) in
  retM {| lp_lane := lcl_lane claim; lp_tasks := claimed; lp_reclaimed := reclaimed;
          lp_saturated := saturated; lp_next_wake_in := None; lp_owner := None |}.

Definition has_flows (conf : option TaskStoreConf) : bool :=
  match conf with
  | Some conf => existsb (λ h, bool_decide (h.2 = Flow)) (sc_handlers conf)
  | None => false
  end.

Definition claim_lane_state (runner_id : Uuid) (reservation : ClaimReservation)
    (lease_duration : Duration) (now : DateTime) : M Turn TaskRuntimeError LanePoll :=
  do! poll := claim_lane runner_id (cl_claim reservation) (cl_permits reservation) now
                lease_duration in
  do! s := getsM tn_state in
  let task_wake := task_deadline (ms_tasks s) (lcl_lane (cl_claim reservation)) now in
  retM (set_lp_wake
          (effective_lane_wake (cl_permits reservation <? cl_candidates reservation)
             (cl_rate_wake reservation) task_wake (has_flows (ms_conf s))) poll).

(** [filter(..).count()] of the Work candidates a rate applies to. *)
Definition work_candidates (tasks : list TaskRecord) (lane : string) (now : DateTime) : Z :=
  zlen (List.filter (λ t, bool_decide (t_kind t = Work) && negb (t_cancelled t)
                          && String.eqb (t_lane t) lane && is_due t now) tasks).

(** The loop body of [claim_tasks_state] for a lane without a lock. *)
Definition claim_unlocked (runner_id : Uuid) (claim : LaneClaim) (lane_conf : TaskLaneConf)
    (conf : TaskStoreConf) (lease_duration : Duration) (now : DateTime) :
    M Turn TaskRuntimeError LanePoll :=
  let bounded := bounded_claim claim (lc_claim_batch_size lane_conf) in
  do! s := getsM tn_state in
  do! policy := liftR (configured_retry (ms_conf s) (lcl_lane bounded)) in
  fail_exhausted (lcl_lane bounded) (lcl_limit bounded) now conf policy ;!
  do! s := getsM tn_state in
  let candidates := work_candidates (ms_tasks s) (lcl_lane bounded) now in
  do! rate := liftR (configured_rate (ms_conf s) (lcl_lane bounded)) in
  do! reserved := reserve_permits (lcl_lane bounded) candidates rate now in
  claim_lane_state runner_id
    {| cl_claim := bounded; cl_permits := reserved.1; cl_rate_wake := reserved.2;
       cl_candidates := candidates |} lease_duration now.
End Claims.

#[global] Arguments at_task : simpl never.

(** ** The lane owner state machine ([tasks/store/memory/lane_owner.rs])

    [claim_owned_state] takes the lock row out of the map for the duration of
    its turn, as the code does, so the inner bodies run over a turn and the
    row. Each owned claim draws one identifier, used when it acquires. *)

Definition OwnerTurn : Type := (Turn * MemoryLaneLock)%type.
Definition on_turn {A} (m : M Turn TaskRuntimeError A) : M OwnerTurn TaskRuntimeError A :=
  zoomM fst (λ t p, (t, p.2)) m.
Definition on_owner {A} (m : M MemoryLaneLock TaskRuntimeError A) :
    M OwnerTurn TaskRuntimeError A :=
  zoomM snd (λ o p, (p.1, o)) m.

Definition claim_lock_size (lane : TaskLaneConf) : Z :=
  match lc_lane_lock lane with Some l => ll_batch_size l | None => 1 end.

(** The runner's own running work in the lane whose lease it lost. *)
Definition held_by (runner_id : Uuid) (lane : TaskLane) (task : TaskRecord) : bool :=
  bool_decide (t_node_id task = Some runner_id) && String.eqb (t_lane task) lane
  && bool_decide (t_status task = Running).

Definition disown (runner_id : Uuid) (lane : TaskLane) (now : DateTime) (task : TaskRecord) :
    TaskRecord :=
  if held_by runner_id lane task then set_updated_at now (set_node_id None task) else task.

Definition release_held (runner_id : Uuid) (lane : TaskLane) (now : DateTime) (t : Turn) : Turn :=
  let held := List.filter (held_by runner_id lane) (tn_tasks t) in
  put_tasks (disown runner_id lane now <$> tn_tasks t)
    {| tn_state := tn_state t; tn_deliveries := tn_deliveries t; tn_undo := tn_undo t ++ held;
       tn_uuids := tn_uuids t |}.

Definition requests_token (claim : LaneClaim) : bool :=
  bool_decide (is_Some (lcl_owner claim ≫= or_token)).

Section LaneOwner.
Context `{X : Externals}.

Definition memory_claim (runner_id : Uuid) (claim : LaneClaim) (lane : TaskLaneConf)
    (lease_duration : Duration) (now : DateTime) : M OwnerTurn TaskRuntimeError LanePoll :=
  let size := claim_lock_size lane in
  do! s := on_turn (getsM tn_state) in
  do! conf := liftR (ok_or (ms_conf s) not_initialized) in
  on_turn (fail_exhausted (lcl_lane claim) size now conf (lc_retry lane)) ;!
  do! s := on_turn (getsM tn_state) in
  let candidates := Z.min (work_candidates (ms_tasks s) (lcl_lane claim) now) size in
  do! reserved := on_turn (reserve_permits (lcl_lane claim) candidates (lc_global_rate lane) now) in
  do! poll := on_turn (claim_lane_state runner_id
    {| cl_claim := {| lcl_lane := lcl_lane claim; lcl_limit := size; lcl_owner := None |};
       cl_permits := reserved.1; cl_rate_wake := reserved.2; cl_candidates := candidates |}
    lease_duration now) in
  do! owner := on_owner getM in
  retM (set_lp_owner (Some (memory_owner_poll owner None)) poll).

(** Continues an open cohort or waits for its threshold before claiming. *)
Definition memory_flush_poll (runner_id : Uuid) (claim : LaneClaim) (lane : TaskLaneConf)
    (lease_duration : Duration) (now : DateTime) (candidates : list nat) :
    M OwnerTurn TaskRuntimeError LanePoll :=
  do! tasks := on_turn (getsM tn_tasks) in
  do! owner := on_owner getM in
  do! flush := (if ml_flushing owner then retM true
                else liftR (memory_flush tasks candidates lane now)) in
  if negb flush then
    do! wake := liftR (memory_flush_wake tasks candidates lane now) in
    retM (memory_poll (lcl_lane claim) owner wake)
  else
    on_owner (modifyM (set_flushing true)) ;!
    let allow_claim := match lcl_owner claim with Some r => or_allow_claim r | None => false end in
    if negb allow_claim
    then on_owner (getsM (λ owner, memory_poll (lcl_lane claim) owner (Some 0)))
    else memory_claim runner_id claim lane lease_duration now.

Definition memory_phase_poll (runner_id : Uuid) (claim : LaneClaim) (lane : TaskLaneConf)
    (lease_duration : Duration) (now : DateTime) : M OwnerTurn TaskRuntimeError LanePoll :=
  let quiescent := match lcl_owner claim with Some r => or_quiescent r | None => false end in
  do! owner := on_owner getM in
  if match ml_phase owner with Active | IdleFailed => negb quiescent | _ => false end
  then retM (memory_poll (lcl_lane claim) owner None)
  else
    let completed_work :=
      match lcl_owner claim with Some r => or_completed_work r | None => false end in
    (if bool_decide (ml_phase owner = IdleFailed) && completed_work
     then on_owner (modifyM memory_activate) else retM tt) ;!
    do! tasks := on_turn (getsM tn_tasks) in
    let candidates := memory_candidates tasks (lcl_lane claim) lane now in
    match candidates with
    | [] =>
        on_owner (modifyM (set_flushing false) ;! memory_empty tasks claim lane now)
    | _ :: _ =>
        on_owner (modifyM (set_empty_since None)) ;!
        do! owner := on_owner getM in
        match ml_phase owner with
        | Idle | BusyFailed => on_owner (memory_start_busy (lcl_lane claim) lane now)
        | _ => memory_flush_poll runner_id claim lane lease_duration now candidates
        end
    end.

Definition claim_owned_inner (runner_id : Uuid) (claim : LaneClaim) (lane : TaskLaneConf)
    (lease_duration : Duration) (now : DateTime) : M OwnerTurn TaskRuntimeError LanePoll :=
  do! t := on_turn getM in
  on_turn (modifyM (put_uuids (S (tn_uuids t)))) ;!
  do! owned := on_owner (memory_owner (uuid_now_v7 (tn_uuids t)) runner_id claim
                           lease_duration now) in
  if negb owned then
    (if requests_token claim
     then on_turn (modifyM (release_held runner_id (lcl_lane claim) now)) else retM tt) ;!
    do! tasks := on_turn (getsM tn_tasks) in
    do! owner := on_owner getM in
    let wake := match ml_leased_until owner ≫= λ deadline, td_to_std (deadline - now) with
                | Some wake => Some wake
                | None => task_deadline tasks (lcl_lane claim) now
                end in
    retM (memory_wait_poll (lcl_lane claim) owner wake)
  else
    do! s := on_turn (getsM tn_state) in
    match lcl_owner claim ≫= or_hook with
    | Some hook =>
        on_owner (apply_memory_hook (ms_conf s) (ms_tasks s) hook (lcl_lane claim) lane now)
    | None => retM tt
    end ;!
    do! owner := on_owner getM in
    match memory_action (ml_phase owner) with
    | Some action => retM (memory_poll_action (lcl_lane claim) owner action None)
    | None => memory_phase_poll runner_id claim lane lease_duration now
    end.

Definition mark_takeover (poll : LanePoll) : LanePoll :=
  set_lp_owner
    ((λ o, {| op_token := op_token o; op_generation := op_generation o; op_phase := op_phase o;
              op_action := op_action o; op_takeover := true |}) <$> lp_owner poll) poll.

Definition claim_owned_state (runner_id : Uuid) (claim : LaneClaim) (lane : TaskLaneConf)
    (lease_duration : Duration) (now : DateTime) : M Turn TaskRuntimeError LanePoll := λ t,
  let name := lcl_lane claim in
  let locks := ms_lane_locks (tn_state t) in
  match locks !! name with
  | None => (Err (InvalidConfig ("task lane lock '" +:+ name +:+ "' is not initialized")), t)
  | Some owner =>
      let t := put_state (set_lane_locks (delete name locks) (tn_state t)) t in
      let had_owner := bool_decide (is_Some (ml_owner_token owner)) in
      let acquiring :=
        match lcl_owner claim with Some r => bool_decide (or_token r = None) | None => false end in
      let '(r, (t, owner)) := claim_owned_inner runner_id claim lane lease_duration now (t, owner) in
      let r := match r with
               | Ok poll =>
                   if acquiring && had_owner
                      && bool_decide (is_Some (lp_owner poll ≫= op_token))
                   then Ok (mark_takeover poll) else Ok poll
               | Err error => Err error
               end in
      (r, put_state (set_lane_locks (<[name := owner]> (ms_lane_locks (tn_state t)))
                       (tn_state t)) t)
  end.

(** The loop body of [claim_tasks_state]. *)
Definition claim_one (runner_id : Uuid) (conf : TaskStoreConf) (lease_duration : Duration)
    (now : DateTime) (claim : LaneClaim) : M Turn TaskRuntimeError LanePoll :=
  do! lane_conf := liftR (ok_or (conf_lane conf (lcl_lane claim)) (UnknownLane (lcl_lane claim))) in
  if bool_decide (is_Some (lc_lane_lock lane_conf))
  then claim_owned_state runner_id claim lane_conf lease_duration now
  else claim_unlocked runner_id claim lane_conf conf lease_duration now.

Definition claim_tasks_state (runner_id : Uuid) (claims : list LaneClaim)
    (lease_duration : Duration) (now : DateTime) : M Turn TaskRuntimeError TaskPoll :=
  do! s := getsM tn_state in
  do! conf := liftR (ok_or (ms_conf s) not_initialized) in
  do! lanes := mapM_M claims (claim_one runner_id conf lease_duration now) in
  retM {| tp_wake_lanes := []; tp_lanes := lanes |}.
End LaneOwner.

#[global] Arguments release_held : simpl never.
#[global] Arguments claim_owned_state : simpl never.
