(* ===== verification/Atomic.v ===== *)
(** * One atomic turn ([tasks/store/memory/{store,workflow}.rs])

    [atomic_operation] runs a turn and, when any part of it fails, replays the
    undo log over the task rows and restores the buckets and lock rows it
    copied. *)
From S2P Require Import Prelude Externals Failure Config Rate Models Transitions Lifecycle.
From S2P Require Import MemoryState LaneLock Workflow Claims.
#[local] Open Scope Z_scope.

(** What survives between operations: the guarded state, and how many identifiers
    [Uuid::now_v7] has handed out in this process. *)
Record StoreState := { st_state : MemoryState; st_uuids : nat }.

Definition put_st (v : MemoryState) (s : StoreState) : StoreState :=
  {| st_state := v; st_uuids := st_uuids s |}.

(** The fields of [MemoryTaskStore] beside the state. *)
Record StoreParams := { commit_batch_size : Z; store_lease_duration : Duration }.

Section Atomic.
Context `{X : Externals}.

Definition apply_update (update : nat * TaskRecord) : M Turn TaskRuntimeError unit :=
  let disappeared := TaskExecutionError "staged task disappeared" in
  do! current := at_task update.1 disappeared getM in
  modifyM (push_undo current) ;!
  at_task update.1 disappeared (modifyM (λ _, update.2)).

(** The children, deliveries and waits of the batch, whose updates are applied. *)
Definition commit_outcomes_state (commits : list TaskCommit) (now : DateTime) :
    M Turn TaskRuntimeError Batch :=
  do! s := getsM tn_state in
  do! batch := liftR (stage_outcomes s commits now) in
  for_eachM (bt_updates batch) apply_update ;!
  retM batch.

Definition empty_poll : TaskPoll := {| tp_wake_lanes := []; tp_lanes := [] |}.

(** The fallible part: commits, then claims. *)
Definition turn_body (runner : option Uuid) (claims : list LaneClaim)
    (commits : list TaskCommit) (lease : Duration) (now : DateTime) :
    M Turn TaskRuntimeError (Batch * gmap string LaneOwnerPhase * TaskPoll) :=
  do! batch := commit_outcomes_state commits now in
  modifyM (put_turn_deliveries (bt_deliveries batch)) ;!
  do! phases := getsM (λ t, ml_phase <$> ms_lane_locks (tn_state t)) in
  do! poll := match runner with
              | Some runner => claim_tasks_state runner claims lease now
              | None => retM empty_poll
              end in
  retM (batch, phases, poll).

(** The infallible part. *)
Definition turn_finish (batch : Batch) (phases : gmap string LaneOwnerPhase) (poll : TaskPoll)
    (commits : list TaskCommit) (now : DateTime) (t : Turn) : (TaskPoll * CommitResult) * Turn :=
  let '(poll, s) := materialize poll (tn_state t) in
  let '(wake_lanes, s) := install (bt_waits batch) now s in
  let '(more, s) := finalize_workflow (bt_children batch) (tn_deliveries t) now s in
  let wake_lanes := wake_lanes ++ more in
  let s := clear_terminal (tn_undo t) s in
  let '(poll, s) := reconcile_poll wake_lanes phases now poll s in
  let rejected :=
    List.filter (λ id, negb (existsb (has_id id) (tn_undo t))) (commit_task_id <$> commits) in
  ({| tp_wake_lanes := wake_lanes; tp_lanes := tp_lanes poll |},
   {| cr_wake_lanes := wake_lanes; cr_rejected := rejected; cr_tasks := [] |}, put_state s t).

Definition run_turn (runner : option Uuid) (claims : list LaneClaim) (commits : list TaskCommit)
    (lease : Duration) (now : DateTime) : M Turn TaskRuntimeError (TaskPoll * CommitResult) :=
  do! staged := turn_body runner claims commits lease now in
  let '(batch, phases, poll) := staged in
  λ t, let '(result, t) := turn_finish batch phases poll commits now t in (Ok result, t).

(** [undo.into_iter().rev()], each original put back over the row with its identity. *)
Definition restore_task (tasks : list TaskRecord) (original : TaskRecord) : list TaskRecord :=
  update_first (has_id (t_id original)) (λ _, original) tasks.
Definition roll_back (undo tasks : list TaskRecord) : list TaskRecord :=
  fold_left restore_task (rev undo) tasks.

Definition turn_of (s : StoreState) : Turn :=
  {| tn_state := st_state s; tn_deliveries := []; tn_undo := []; tn_uuids := st_uuids s |}.

Definition atomic_operation (runner : option Uuid) (claims : list LaneClaim)
    (commits : list TaskCommit) (batch_size : Z) (lease : Duration) (now : DateTime) :
    M StoreState TaskRuntimeError (TaskPoll * CommitResult) := λ s,
  let state := st_state s in
  let maximum := match ms_conf state with Some conf => sc_max_all_children conf | None => 256 end in
  match validate_turn commits batch_size maximum with
  | Err error => (Err error, s)
  | Ok _ =>
      match run_turn runner claims commits lease now (turn_of s) with
      | (Ok result, t) => (Ok result, {| st_state := tn_state t; st_uuids := tn_uuids t |})
      | (Err error, t) =>
          (Err error,
           {| st_state := set_lane_locks (ms_lane_locks state) (set_rates (ms_rates state)
                (set_tasks (roll_back (tn_undo t) (tn_tasks t)) (tn_state t)));
              st_uuids := tn_uuids t |})
      end
  end.
End Atomic.

#[global] Arguments turn_finish : simpl never.
#[global] Arguments run_turn : simpl never.
#[global] Arguments atomic_operation : simpl never.

(** ** The memory store's operations ([tasks/store/memory/{store,workflow,recovery}.rs])

    Every method of [impl TaskStore for MemoryTaskStore]. A method that takes
    the mutex once is one body over [StoreState]; [recover_outputs], which
    takes it twice, is given what other operations did in between. *)

Abbreviation StoreM := (M StoreState TaskRuntimeError) (only parsing).

(** The mutex guard: a body over the guarded state. *)
Definition locked {E A} (m : M MemoryState E A) : M StoreState E A := zoomM st_state put_st m.

(** [?] from [TaskRuntimeError] into [StoreFailure]. *)
Definition before_commit {T A} (m : M StoreState TaskRuntimeError A) :
    M StoreState (StoreFailure T) A := λ s,
  match m s with
  | (Ok a, s) => (Ok a, s)
  | (Err error, s) => (Err (BeforeCommit error), s)
  end.

Definition registration_missing : TaskRuntimeError :=
  TaskExecutionError "task node registration missing".

Section MemoryStore.
Context `{X : Externals} (params : StoreParams).

(** ** Nodes *)

Definition register_node (node : Uuid) (now : DateTime) : M MemoryState TaskRuntimeError unit :=
  modifyM (λ s, set_nodes (match ms_nodes s !! node with
                           | Some _ => ms_nodes s
                           | None => <[node := (now, now)]> (ms_nodes s)
                           end) s).

Definition heartbeat (node : Uuid) (stale_after : Duration) (now : DateTime) :
    M MemoryState TaskRuntimeError bool :=
  do! cutoff := liftR (ok_or (td_from_std stale_after ≫= checked_sub_signed now)
                         (InvalidOptions "node retirement duration exceeds clock range")) in
  do! s := getM in
  match ms_nodes s !! node with
  | None => retM false
  | Some (registered, _) =>
      modifyM (λ s, set_nodes (<[node := (registered, now)]> (ms_nodes s)) s) ;!
      modifyM (retire_nodes node cutoff) ;!
      retM true
  end.

Definition returnable (node : option Uuid) (task : TaskRecord) : bool :=
  (bool_decide (t_status task = Running)
   || (bool_decide (is_Some (t_node_id task))
       && match t_status task with Pending | Suspended => true | _ => false end))
  && match node with Some node => bool_decide (t_node_id task = Some node) | None => true end.

Definition return_task (now : DateTime) (task : TaskRecord) : TaskRecord :=
  let task := if bool_decide (t_status task = Running)
              then set_ready_at (Some now) (set_status Pending task) else task in
  set_updated_at now (set_node_id None task).

Definition return_claims (node : option Uuid) (now : DateTime) :
    M MemoryState TaskRuntimeError Z :=
  do! s := getM in
  modifyM (set_tasks ((λ t, if returnable node t then return_task now t else t) <$> ms_tasks s)) ;!
  retM (zlen (List.filter (returnable node) (ms_tasks s))).

(** ** Start-up *)

(** Runs on a copy that replaces the state only when everything succeeded. *)
Definition initialize (now : DateTime) : M MemoryState TaskRuntimeError unit :=
  do! s := getM in
  do! conf := liftR (ok_or (ms_conf s)
                       (TaskExecutionError "task store configuration is missing")) in
  do! _ := liftR (reject_orphaned_tasks (ms_tasks s) conf) in
  let s := initialize_lane_locks conf (initialize_rates conf now s) in
  let '(_, s) := finalize_workflow [] [] now s in
  modifyM (λ _, s).

(** ** Claims and commits *)

Definition claim_tasks (node : Uuid) (claims : list LaneClaim) (now : DateTime) :
    M StoreState (StoreFailure TaskPoll) TaskPoll :=
  do! s := getM in
  if bool_decide (ms_nodes (st_state s) !! node = None)
     && existsb (λ c, 0 <? lcl_limit c) claims
  then throwM (BeforeCommit registration_missing)
  else
    do! result := before_commit (atomic_operation (Some node) claims [] (commit_batch_size params)
                                   (store_lease_duration params) now) in
    retM result.1.

Definition coordinate_lanes (node : Uuid) (claims : list LaneClaim) (now : DateTime) :
    M StoreState (StoreFailure TaskPoll) TaskPoll :=
  do! _ := before_commit (liftR (validate_coordination claims)) in
  claim_tasks node claims now.

Definition commit_tasks (commits : list TaskCommit) (now : DateTime) :
    M StoreState (StoreFailure CommitResult) CommitResult :=
  do! result := before_commit (atomic_operation None [] commits (commit_batch_size params)
                                 (store_lease_duration params) now) in
  retM result.2.

Definition commit_admitted (commits : list TaskCommit) (node : Uuid) (limit : Z)
    (cached : list TaskRecord) (now : DateTime) :
    M StoreState (StoreFailure CommitResult) CommitResult :=
  do! s := getM in
  let before := length (ms_tasks (st_state s)) in
  do! result := before_commit (atomic_operation None [] commits (commit_batch_size params)
                                 (store_lease_duration params) now) in
  locked (λ s, let '(result, s) := admit_committed before commits node limit cached now result.2 s
               in (Ok result, s)).

(** ** Submission *)

Definition store_tasks (writes : list TaskWrite) (now : DateTime) :
    M MemoryState TaskRuntimeError (list TaskReceipt) :=
  do! s := getM in
  do! _ := liftR (validate_write_lanes (ms_conf s) writes) in
  match stage_writes (ms_tasks s) writes now [] with
  | (Err error, _) => throwM error
  | (Ok receipts, staged) =>
      modifyM (λ s, set_tasks (ms_tasks s ++ staged) s) ;! retM receipts
  end.

(** Takes direct ownership of eligible staged records while the limit lasts. *)
Fixpoint admit_staged (conf : TaskStoreConf) (node : Uuid) (limit : Z) (now : DateTime)
    (staged tasks : list TaskRecord) :
    result TaskRuntimeError (list TaskRecord * list TaskRecord) :=
  match staged with
  | [] => Ok ([], tasks)
  | record :: staged =>
      if (zlen tasks <? limit) && direct record conf now then
        match admit_record node now record with
        | (Err error, _) => Err error
        | (Ok _, record) =>
            let? rest := admit_staged conf node limit now staged (tasks ++ [record]) in
            Ok (record :: rest.1, rest.2)
        end
      else
        let? rest := admit_staged conf node limit now staged tasks in
        Ok (record :: rest.1, rest.2)
  end.

Definition store_admitted (writes : list TaskWrite) (node : Uuid) (limit : Z) (now : DateTime) :
    M MemoryState TaskRuntimeError (list TaskReceipt * list TaskRecord) :=
  do! s := getM in
  if bool_decide (ms_nodes s !! node = None) then throwM registration_missing
  else
    do! _ := liftR (validate_write_lanes (ms_conf s) writes) in
    match stage_writes (ms_tasks s) writes now [] with
    | (Err error, _) => throwM error
    | (Ok receipts, staged) =>
        do! admitted := liftR (match ms_conf s with
                               | Some conf => admit_staged conf node limit now staged []
                               | None => Ok (staged, [])
                               end) in
        modifyM (λ s, set_tasks (ms_tasks s ++ admitted.1) s) ;!
        retM (receipts, admitted.2)
    end.

(** ** Schedules *)

Definition schedule_snapshot (names : list string) (now : DateTime) (s : MemoryState) :
    TaskScheduleSnapshot :=
  {| ss_now := now;
     ss_cursors := filter (λ p, p.1 ∈ names) (ms_schedules s) |}.

Definition store_scheduled (scheduled : ScheduledTaskWrite) (now : DateTime) :
    M MemoryState TaskRuntimeError (option TaskReceipt) :=
  do! s := getM in
  if match ms_schedules s !! sw_name scheduled with
     | Some last => sw_occurrence scheduled <=? last
     | None => false
     end
  then retM None
  else
    do! _ := liftR (validate_write_lanes (ms_conf s) [sw_write scheduled]) in
    match stage_write (ms_tasks s) (sw_write scheduled) now [] with
    | (Err error, _) => throwM error
    | (Ok receipt, staged) =>
        modifyM (λ s, set_tasks (ms_tasks s ++ staged) s) ;!
        modifyM (λ s, set_schedules
          (<[sw_name scheduled := Z.max now (sw_occurrence scheduled)]> (ms_schedules s)) s) ;!
        retM (Some receipt)
    end.

(** ** Administration *)

Definition reassign_lane (from to : string) (now : DateTime) : M MemoryState TaskRuntimeError Z :=
  do! s := getM in
  do! _ := liftR (require_lane (ms_conf s) to) in
  if existsb (λ t, String.eqb (t_lane t) from && bool_decide (t_status t = Running)) (ms_tasks s)
  then throwM (LaneBusy from)
  else
    let moves t := String.eqb (t_lane t) from && is_reassignable (t_status t) in
    modifyM (set_tasks ((λ t, if moves t
                              then set_updated_at now (set_node_id None (set_lane to t))
                              else t) <$> ms_tasks s)) ;!
    retM (zlen (List.filter moves (ms_tasks s))).

Definition resume (id : TaskId) (input : string) (now : DateTime) :
    M MemoryState TaskRuntimeError bool :=
  do! _ := liftR (validate_resume input) in
  do! s := getM in
  match find_task id (ms_tasks s) with
  | None => retM false
  | Some task =>
      if t_cancelled task || negb (bool_decide (t_status task = Suspended)) then retM false
      else
        modifyM (set_tasks (update_first (has_id id) (λ t,
          set_updated_at now (set_ready_at (Some now) (set_resume_input (Some input)
            (set_status Pending t)))) (ms_tasks s))) ;!
        retM true
  end.

(** [sort_by_key] on [Reverse((created_at, id))]: newest first. *)
Definition newest_first (a b : DateTime * TaskId) : bool :=
  (b.1 <? a.1) || ((b.1 =? a.1) && (b.2 <=? a.2)%N).

Definition list_tasks (filter : TaskFilter) (s : MemoryState) : Page TaskRecord :=
  page (sort_by_key newest_first (λ t, (t_created_at t, t_id t))
          (List.filter (λ t, matches_filter t filter) (ms_tasks s))) filter.

Definition get_task (id : TaskId) (s : MemoryState) : option TaskRecord :=
  find_task id (ms_tasks s).

(** ** Recovery after a lost acknowledgement *)

Definition release_lane (node : Uuid) (lane : TaskLane) (now : DateTime) (s : MemoryState) :
    MemoryState :=
  set_tasks (disown node lane now <$> ms_tasks s) s.

(** Restores live ownership and renews its lease before publishing recovered snapshots. *)
Definition recover_owner (node : Uuid) (lane : TaskLane) (claim : option LaneClaim)
    (prepared : TaskPoll) (now : DateTime) (lease : Duration) :
    M MemoryState TaskRuntimeError (option LaneOwnerPoll) :=
  match claim with
  | None => retM None
  | Some claim =>
      if bool_decide (lcl_owner claim = None) then retM None
      else
        do! s := getM in
        do! row := liftR (ok_or (ms_lane_locks s !! lane) (UnknownLane lane)) in
        let live := recovery_token claim prepared (ml_owner_token row)
                    && bool_decide (ml_owner_id row = Some (uuid_display node))
                    && memory_owner_live row now in
        (if live then
           do! lease := liftR (checked_deadline now lease) in
           modifyM (λ s, set_lane_locks (<[lane := set_leased_until lease row]> (ms_lane_locks s)) s)
         else retM tt) ;!
        retM (Some {| op_token := if live then ml_owner_token row else None;
                      op_generation := ml_generation row; op_phase := ml_phase row;
                      op_action := if live then memory_action (ml_phase row) else None;
                      op_takeover := false |})
  end.

Definition still_current (node : Uuid) (expected task : TaskRecord) : bool :=
  has_id (t_id expected) task && (t_attempts task =? t_attempts expected)
  && bool_decide (t_node_id task = Some node) && bool_decide (t_status task = Running).

Definition lost_owner (owner : option LaneOwnerPoll) : bool :=
  match owner with Some o => bool_decide (op_token o = None) | None => false end.

(** Copies only still-current snapshots; cancelled ones are queued for their failure. *)
Fixpoint recover_tasks (node : Uuid) (expected : list TaskRecord) (owner : option LaneOwnerPoll)
    (now : DateTime) (s : MemoryState) (cancelled : list TaskCommit) :
    list TaskRecord * MemoryState * list TaskCommit :=
  match expected with
  | [] => ([], s, cancelled)
  | e :: expected =>
      match List.find (still_current node e) (ms_tasks s) with
      | None => recover_tasks node expected owner now s cancelled
      | Some task =>
          if lost_owner owner then
            recover_tasks node expected owner now
              (set_tasks (update_first (still_current node e)
                            (λ t, set_updated_at now (set_node_id None t)) (ms_tasks s)) s) cancelled
          else if t_cancelled task
          then recover_tasks node expected owner now s (cancelled ++ [CommitCancel (t_id task)])
          else
            let '(tasks, s, cancelled) := recover_tasks node expected owner now s cancelled in
            (task :: tasks, s, cancelled)
      end
  end.

Definition recover_one (node : Uuid) (claims : list LaneClaim) (prepared : TaskPoll)
    (now : DateTime) (lane : LanePoll) :
    M (MemoryState * list TaskCommit) TaskRuntimeError LanePoll :=
  let on_state {A} (m : M MemoryState TaskRuntimeError A) :
      M (MemoryState * list TaskCommit) TaskRuntimeError A := zoomM fst (λ s p, (s, p.2)) m in
  let claim := List.find (λ c, String.eqb (lcl_lane c) (lp_lane lane)) claims in
  do! owner := on_state (recover_owner node (lp_lane lane) claim prepared now
                           (store_lease_duration params)) in
  (if lost_owner owner then on_state (modifyM (release_lane node (lp_lane lane) now))
   else retM tt) ;!
  λ p,
    let '(tasks, s, cancelled) := recover_tasks node (lp_tasks lane) owner now p.1 p.2 in
    (Ok {| lp_lane := lp_lane lane; lp_tasks := tasks; lp_reclaimed := 0; lp_saturated := false;
           lp_next_wake_in := Some 0; lp_owner := owner |}, (s, cancelled)).

(** Stages recovery alongside cancellation delivery; errors restore the complete state. *)
Definition recover_poll (node : Uuid) (claims : list LaneClaim) (prepared : TaskPoll)
    (now : DateTime) : M StoreState TaskRuntimeError TaskPoll := λ st,
  match mapM_M (tp_lanes prepared) (recover_one node claims prepared now) (st_state st, []) with
  | (Err error, _) => (Err error, st)
  | (Ok lanes, (staged, cancelled)) =>
      match atomic_operation None [] cancelled (commit_batch_size params)
              (store_lease_duration params) now (put_st staged st) with
      | (Err error, st') => (Err error, {| st_state := st_state st; st_uuids := st_uuids st' |})
      | (Ok (_, result), st') =>
          (Ok {| tp_wake_lanes := merge_wakes (tp_wake_lanes prepared) (cr_wake_lanes result);
                 tp_lanes := lanes |}, st')
      end
  end.

Definition recover_claims (node : Uuid) (claims : list LaneClaim) (prepared : TaskPoll)
    (now : DateTime) : M StoreState (StoreFailure TaskPoll) TaskPoll := λ st,
  match recover_poll node claims prepared now st with
  | (Ok poll, st) => (Ok poll, st)
  | (Err error, st) => (Err (CommitUnknown error prepared), st)
  end.

(** A prepared snapshot is published again only while it is still what the store holds. *)
Definition still_published (node : Uuid) (previous task : TaskRecord) : bool :=
  has_id (t_id previous) task
  && ((bool_decide (t_status task = Running) && bool_decide (t_node_id task = Some node))
      || (bool_decide (t_kind task = Flow) && bool_decide (t_node_id task = None)
          && negb (bool_decide (t_status task = Running))))
  && (t_attempts task =? t_attempts previous)
  && bool_decide (t_status task = t_status previous).

(** [between] is what other operations did between the two critical sections. *)
Definition recover_outputs (node : Uuid) (commits : list TaskCommit) (prepared : CommitResult)
    (between : StoreState → StoreState) (now : DateTime) :
    M StoreState (StoreFailure CommitResult) CommitResult := λ st,
  match commit_tasks commits now st with
  | (Err error, st) => (Err (retain prepared error), st)
  | (Ok result, st) =>
      let st := between st in
      let current := omap (λ previous,
        List.find (still_published node previous) (ms_tasks (st_state st))) (cr_tasks prepared) in
      (Ok {| cr_wake_lanes := merge_wakes (cr_wake_lanes result) (cr_wake_lanes prepared);
             cr_rejected := cr_rejected result;
             cr_tasks := cr_tasks result ++ current |}, st)
  end.
End MemoryStore.
