(* ===== verification/Evolution.v ===== *)
(** * The lifecycle specification and how records evolve

    [lifecycle] is the abstract contract of one task: its status, whether it
    was cancelled and how many attempts it was charged, and the only steps
    they may take. [evolves] relates a stored record to what it became:
    its identity is kept, its abstract state took lifecycle steps, and a
    terminal record did not change at all. [tasks_ok] is the invariant of a
    task table. *)
From S2P Require Import Prelude Externals Failure Config Models Transitions Lifecycle.
From S2P Require Import MemoryState.
#[local] Open Scope Z_scope.

Record TaskPhase := { ph_status : TaskStatus; ph_cancelled : bool; ph_attempts : Z }.

Definition phase (r : TaskRecord) : TaskPhase :=
  {| ph_status := t_status r; ph_cancelled := t_cancelled r; ph_attempts := t_attempts r |}.

(** The steps the runtime promises: only a claim charges an attempt, only running work
    succeeds, suspends or asks to run again, cancellation always fails the task, and no
    step leaves a terminal status. *)
Inductive lifecycle : TaskPhase → TaskPhase → Prop :=
  | life_claim status n :
      status = Pending ∨ status = Running →
      lifecycle {| ph_status := status; ph_cancelled := false; ph_attempts := n |}
                {| ph_status := Running; ph_cancelled := false; ph_attempts := n + 1 |}
  | life_succeed n :
      lifecycle {| ph_status := Running; ph_cancelled := false; ph_attempts := n |}
                {| ph_status := Succeeded; ph_cancelled := false; ph_attempts := n |}
  | life_suspend n :
      lifecycle {| ph_status := Running; ph_cancelled := false; ph_attempts := n |}
                {| ph_status := Suspended; ph_cancelled := false; ph_attempts := n |}
  | life_again n :
      lifecycle {| ph_status := Running; ph_cancelled := false; ph_attempts := n |}
                {| ph_status := Pending; ph_cancelled := false; ph_attempts := n |}
  | life_wake n :
      lifecycle {| ph_status := Suspended; ph_cancelled := false; ph_attempts := n |}
                {| ph_status := Pending; ph_cancelled := false; ph_attempts := n |}
  | life_fail status n :
      status = Pending ∨ status = Running →
      lifecycle {| ph_status := status; ph_cancelled := false; ph_attempts := n |}
                {| ph_status := Failed; ph_cancelled := false; ph_attempts := n |}
  | life_cancel status n :
      is_terminal status = false →
      lifecycle {| ph_status := status; ph_cancelled := false; ph_attempts := n |}
                {| ph_status := Failed; ph_cancelled := true; ph_attempts := n |}.

Lemma lifecycle_attempts p p' : lifecycle p p' → ph_attempts p ≤ ph_attempts p'.
Proof. destruct 1; simpl; lia. Qed.

Lemma lifecycle_from_active p p' : lifecycle p p' → is_terminal (ph_status p) = false.
Proof. destruct 1; simpl; naive_solver. Qed.

Record evolves (r r' : TaskRecord) : Prop := {
  ev_identity : same_identity r r';
  ev_lifecycle : rtc lifecycle (phase r) (phase r');
  ev_terminal : is_terminal (t_status r) = true → r' = r;
}.

#[export] Instance evolves_preorder : PreOrder evolves.
Proof.
  split.
  - intros r. split; [reflexivity|reflexivity|done].
  - intros r1 r2 r3 [Hi1 Hl1 Ht1] [Hi2 Hl2 Ht2]. split.
    + etrans; eauto.
    + etrans; eauto.
    + intros Ht. specialize (Ht1 Ht). subst r2. auto.
Qed.

Lemma evolves_id r r' : evolves r r' → t_id r' = t_id r.
Proof. intros [H _ _]. by apply same_identity_id. Qed.

Lemma evolves_attempts r r' : evolves r r' → t_attempts r ≤ t_attempts r'.
Proof.
  intros [_ H _]. change (ph_attempts (phase r) ≤ ph_attempts (phase r')).
  induction H as [|p q p' Hs _ IH]; [done|]. apply lifecycle_attempts in Hs. lia.
Qed.

(** Writing only fields outside the identity and the phase of an active record. *)
Lemma evolves_quiet r r' :
  same_identity r r' → phase r' = phase r → is_terminal (t_status r) = false → evolves r r'.
Proof. intros Hi Hp Ht. split; [done|by rewrite Hp|congruence]. Qed.

Lemma evolves_step r r' :
  same_identity r r' → lifecycle (phase r) (phase r') → evolves r r'.
Proof.
  intros Hi Hl. split; [done|by apply rtc_once|].
  intros Ht. apply lifecycle_from_active in Hl. simpl in Hl. congruence.
Qed.

(** ** Task tables *)

Definition keys_unique (tasks : list TaskRecord) : Prop :=
  ∀ i j r r', tasks !! i = Some r → tasks !! j = Some r' → i ≠ j →
  t_name r = t_name r' → is_Some (t_idempotency_key r) →
  t_idempotency_key r = t_idempotency_key r' →
  is_active (t_status r) = true → is_active (t_status r') = true → False.

(** Identities are unique, every record is well formed, and no two active records of one
    handler hold the same idempotency key. *)
Record tasks_ok (tasks : list TaskRecord) : Prop := {
  tk_nodup : NoDup (ids tasks);
  tk_records : Forall record_ok tasks;
  tk_keys : keys_unique tasks;
}.

(** A table whose rows evolved in place. *)
Definition rows_evolve : relation (list TaskRecord) := Forall2 evolves.

#[export] Instance rows_evolve_preorder : PreOrder rows_evolve.
Proof. unfold rows_evolve. split; apply _. Qed.

Lemma rows_evolve_ids l k : rows_evolve l k → ids k = ids l.
Proof. induction 1 as [|r r' l k Hr _ IH]; [done|]. simpl. by rewrite IH, (evolves_id _ _ Hr). Qed.

Lemma active_or_terminal s : is_active s = negb (is_terminal s).
Proof. by destruct s. Qed.

Lemma evolves_was_active r r' :
  evolves r r' → is_active (t_status r') = true → is_active (t_status r) = true.
Proof.
  intros [_ _ Ht]. rewrite !active_or_terminal. destruct (is_terminal (t_status r)) eqn:H; [|done].
  by rewrite (Ht eq_refl), H.
Qed.

Lemma rows_evolve_keys l k : rows_evolve l k → keys_unique l → keys_unique k.
Proof.
  intros Hev Hu i j r r' Hi Hj Hij Hn Hs Hk Ha Ha'.
  destruct (Forall2_lookup_r _ _ _ _ _ Hev Hi) as (r0 & Hi0 & He).
  destruct (Forall2_lookup_r _ _ _ _ _ Hev Hj) as (r0' & Hj0 & He').
  assert (Hid := ev_identity _ _ He). assert (Hid' := ev_identity _ _ He').
  unfold same_identity, identity in *.
  apply (Hu i j r0 r0'); eauto using evolves_was_active; congruence.
Qed.

Lemma rows_evolve_ok l k :
  rows_evolve l k → Forall record_ok k → tasks_ok l → tasks_ok k.
Proof.
  intros Hev Hr [Hn _ Hk]. split; [|done|by eapply rows_evolve_keys].
  by rewrite (rows_evolve_ids _ _ Hev).
Qed.

Lemma rows_evolve_insert l i r r' :
  l !! i = Some r → evolves r r' → rows_evolve l (<[i:=r']> l).
Proof.
  intros Hl He. apply Forall2_same_length_lookup. split; [by rewrite length_insert|].
  intros j x y Hx Hy. destruct (decide (i = j)) as [<-|Hne].
  - rewrite list_lookup_insert_eq in Hy by (by eapply lookup_lt_Some). by simplify_eq.
  - rewrite list_lookup_insert_ne in Hy by done. simplify_eq. reflexivity.
Qed.

Lemma rows_evolve_fmap f l : (∀ r, r ∈ l → evolves r (f r)) → rows_evolve l (f <$> l).
Proof.
  intros Hf. apply Forall2_fmap_r, Forall_Forall2_diag, Forall_forall. auto.
Qed.

Lemma update_first_fmap_lookup {A} (p : A → bool) f (l : list A) i x :
  update_first p f l !! i = Some x →
  l !! i = Some x ∨ ∃ y, l !! i = Some y ∧ p y = true ∧ x = f y.
Proof.
  revert i. induction l as [|y l IH]; intros i; simpl; [done|].
  destruct (p y) eqn:Hp.
  - destruct i; simpl; [intros [= <-]; eauto|auto].
  - destruct i; simpl; [auto|apply IH].
Qed.

Lemma update_first_length {A} (p : A → bool) f (l : list A) :
  length (update_first p f l) = length l.
Proof. induction l as [|y l IH]; simpl; [done|]. destruct (p y); simpl; auto. Qed.

Lemma rows_evolve_update_first p f l :
  (∀ r, r ∈ l → p r = true → evolves r (f r)) → rows_evolve l (update_first p f l).
Proof.
  intros Hf. induction l as [|r l IH]; simpl; [constructor|].
  destruct (p r) eqn:Hp; constructor; [by apply Hf; [left|]|reflexivity|reflexivity|].
  apply IH. intros x Hx. apply Hf. by right.
Qed.

Lemma Forall_update_first {A} (P : A → Prop) p f (l : list A) :
  Forall P l → (∀ x, x ∈ l → P x → p x = true → P (f x)) → Forall P (update_first p f l).
Proof.
  intros Hl. induction Hl as [|x l Hx Hl IH]; simpl; intros Hf; [constructor|].
  destruct (p x) eqn:Hp; constructor; auto.
  - apply Hf; [by left|done..].
  - apply IH. intros y Hy. apply Hf. by right.
Qed.

(** ** Admitting new rows *)

(** A row a store may add: well formed, and its key is not held by an active row. *)
Definition admissible (tasks : list TaskRecord) (r : TaskRecord) : Prop :=
  record_ok r ∧ t_id r ∉ ids tasks ∧
  (∀ r', r' ∈ tasks → t_name r' = t_name r → is_Some (t_idempotency_key r') →
     t_idempotency_key r' = t_idempotency_key r → is_active (t_status r') = false).

Lemma tasks_ok_snoc tasks r : tasks_ok tasks → admissible tasks r → tasks_ok (tasks ++ [r]).
Proof.
  intros [Hn Hr Hk] (Hok & Hid & Hcl). split.
  - rewrite ids_app. apply NoDup_app. split; [done|]. split; [|apply NoDup_singleton].
    intros x Hx Hx'. by apply list_elem_of_singleton in Hx' as ->.
  - apply Forall_app. split; [done|]. by constructor.
  - assert (Hone : ∀ i j a b, (tasks ++ [r]) !! i = Some a → tasks !! j = Some b →
      i ≠ j → t_name b = t_name a → is_Some (t_idempotency_key b) →
      t_idempotency_key b = t_idempotency_key a →
      is_active (t_status b) = true → is_active (t_status a) = true → False).
    { intros i j a b Ha Hb Hij Hnm Hs Hkk Hab Haa.
      apply lookup_app_Some in Ha as [Ha|[Hlen Ha]].
      - eapply (Hk j i b a); eauto; congruence.
      - apply list_lookup_singleton_Some in Ha as [_ <-].
        apply list_elem_of_lookup_2 in Hb. rewrite (Hcl b) in Hab; done. }
    intros i j a b Ha Hb Hij Hnm Hs Hkk Haa Hab.
    assert (Hb0 := Hb). apply lookup_app_Some in Hb as [Hb|[Hlen Hb]].
    + apply (Hone i j a b); eauto; congruence.
    + apply lookup_app_Some in Ha as [Ha|[Hlen' Ha]].
      * apply (Hone j i b a); eauto; congruence.
      * apply list_lookup_singleton_Some in Ha as [Hi _].
        apply list_lookup_singleton_Some in Hb as [Hj _]. lia.
Qed.
