(* ===== verification/ClaimFacts.v ===== *)
(** * Facts about claiming

    What one claim selects and what it does to the rows it takes
    ([claim_lane_ok]), and that every claiming body keeps a turn's rows well
    formed and evolving from the rows it started with ([turn_ok]). *)
From S2P Require Import Prelude Externals Failure Config Rate Models Transitions Lifecycle.
From S2P Require Import MemoryState LaneLock Workflow Claims Evolution.
#[local] Open Scope Z_scope.

(** ** Selection *)

Lemma sublist_due tasks lane permit now :
  lane_candidates tasks lane permit now ⊆ due_indices tasks lane now
  ∧ NoDup (lane_candidates tasks lane permit now).
Proof.
  unfold lane_candidates. rewrite sort_candidates_perm.
  assert (Hf : ∀ l, List.filter (is_flow tasks) l ⊆ l).
  { intros l x Hx. apply list_elem_of_In, filter_In in Hx as [Hx _]. by apply list_elem_of_In. }
  case_match; [|split; [done|apply due_indices_nodup]].
  split; [apply Hf|]. rewrite NoDup_ListNoDup. apply List.NoDup_filter.
  rewrite <- NoDup_ListNoDup. apply due_indices_nodup.
Qed.

Lemma retain_permitted_sublist tasks permits l :
  retain_permitted tasks permits l `sublist_of` l.
Proof.
  revert permits. induction l as [|i l IH]; intros permits; simpl; [constructor|].
  repeat case_match; by constructor.
Qed.

(** What a selected index satisfies. *)
Lemma retain_permitted_spec tasks permits l i :
  i ∈ retain_permitted tasks permits l →
  ∃ r, tasks !! i = Some r ∧ t_cancelled r = false.
Proof.
  revert permits. induction l as [|j l IH]; intros permits; simpl; [by intros ?%elem_of_nil|].
  destruct (tasks !! j) as [r|] eqn:Hj; [|apply IH].
  destruct (t_cancelled r) eqn:Hc; [apply IH|].
  repeat case_match; try apply IH; intros [->|Hi]%elem_of_cons; eauto.
Qed.

Definition is_work (tasks : list TaskRecord) (index : nat) : bool :=
  match tasks !! index with Some task => bool_decide (t_kind task = Work) | None => false end.

Lemma retain_permitted_work tasks permits l :
  0 ≤ permits → zlen (List.filter (is_work tasks) (retain_permitted tasks permits l)) ≤ permits.
Proof.
  revert permits. induction l as [|j l IH]; intros permits Hp; simpl; [unfold zlen; simpl; lia|].
  destruct (tasks !! j) as [r|] eqn:Hj; [|by apply IH].
  destruct (t_cancelled r); [by apply IH|]. case_bool_decide as Hk.
  - simpl. unfold is_work at 1. rewrite Hj, Hk. by apply IH.
  - destruct (permits =? 0) eqn:H0; [by apply IH|]. apply Z.eqb_neq in H0.
    simpl. case_match; [|etrans; [apply IH; lia|lia]].
    specialize (IH (permits - 1)). unfold zlen in *. simpl. lia.
Qed.

Lemma selected_sublist tasks claim permit now :
  selected tasks claim permit now `sublist_of` lane_candidates tasks (lcl_lane claim) permit now.
Proof. unfold selected. etrans; [apply retain_permitted_sublist|apply sublist_take]. Qed.

Lemma selected_nodup tasks claim permit now : NoDup (selected tasks claim permit now).
Proof.
  eapply sublist_NoDup; [|apply selected_sublist]. apply sublist_due.
Qed.

Lemma selected_due tasks claim permit now i :
  i ∈ selected tasks claim permit now →
  ∃ r, tasks !! i = Some r ∧ is_due r now = true ∧ t_lane r = lcl_lane claim
       ∧ t_cancelled r = false.
Proof.
  intros Hi. assert (Hc := Hi). unfold selected in Hc.
  apply retain_permitted_spec in Hc as (r & Hr & Hc).
  eapply sublist_subseteq in Hi; [|apply selected_sublist].
  apply sublist_due, elem_of_due_indices in Hi as (r' & Hr' & Hl & Hd). simplify_eq. eauto.
Qed.

Lemma selected_length tasks claim permit now :
  0 ≤ lcl_limit claim → zlen (selected tasks claim permit now) ≤ lcl_limit claim.
Proof.
  intros Hl. unfold selected, zlen.
  etrans; [apply inj_le, sublist_length, retain_permitted_sublist|].
  rewrite length_take. lia.
Qed.

(** ** Turn bodies over one row *)

Section ClaimFacts.
Context `{X : Externals, L : !ExternalLaws X}.

Lemma at_task_ok {A} i missing (m : M TaskRecord TaskRuntimeError A) t a t' :
  at_task i missing m t = (Ok a, t') →
  ∃ r r', tn_tasks t !! i = Some r ∧ m r = (Ok a, r')
          ∧ t' = put_tasks (<[i:=r']> (tn_tasks t)) t.
Proof.
  unfold at_task. destruct (tn_tasks t !! i) as [r|]; [|done].
  destruct (m r) as [x r'] eqn:Hm. intros [= -> <-]. eauto.
Qed.

Definition claimed (runner : Uuid) (now : DateTime) (r : TaskRecord) : TaskRecord :=
  set_updated_at now (set_node_id (Some runner) (set_status Running
    (set_step_attempts (t_step_attempts r + 1) (set_attempts (t_attempts r + 1) r)))).

Lemma claim_candidate_ok runner now lease i t r' t' :
  claim_candidate runner now lease i t = (Ok r', t') →
  ∃ r, tn_tasks t !! i = Some r ∧ r' = claimed runner now r
    ∧ t' = put_tasks (<[i:=r']> (tn_tasks t)) (push_undo r t)
    ∧ t_attempts r + 1 ≤ I32_MAX ∧ t_step_attempts r + 1 ≤ I32_MAX.
Proof.
  unfold claim_candidate. rewrite bindM_gets, bindM_liftR. intros H.
  destruct (tn_tasks t !! i) as [r|] eqn:Hi; [|done]. simpl in H. rewrite bindM_modify in H.
  apply bindM_ok in H as ([] & t1 & Ha & Hg).
  apply at_task_ok in Ha as (r0 & r1 & Hi0 & Hm & ->).
  change (tn_tasks (push_undo r t)) with (tn_tasks t) in *. simplify_eq.
  apply admit_record_ok in Hm as (-> & ? & ?).
  apply at_task_ok in Hg as (r2 & r3 & Hi2 & Hm2 & ->). unfold getM in Hm2. simplify_eq.
  change (tn_tasks (put_tasks ?l ?u)) with l in *.
  rewrite list_lookup_insert_eq in Hi2 by (by eapply lookup_lt_Some). simplify_eq.
  exists r. split_and!; try done. rewrite list_insert_insert_eq. done.
Qed.

(** Claiming distinct rows in sequence: each is claimed from its first value. *)
Lemma mapM_claim_ok runner now lease l t rs t' :
  NoDup l → mapM_M l (claim_candidate runner now lease) t = (Ok rs, t') →
  Forall2 (λ i r', ∃ r, tn_tasks t !! i = Some r ∧ r' = claimed runner now r
                        ∧ t_attempts r + 1 ≤ I32_MAX ∧ t_step_attempts r + 1 ≤ I32_MAX) l rs
  ∧ (∀ j, tn_tasks t' !! j = (if bool_decide (j ∈ l) then claimed runner now else id)
                               <$> tn_tasks t !! j)
  ∧ tn_deliveries t' = tn_deliveries t
  ∧ ms_conf (tn_state t') = ms_conf (tn_state t).
Proof.
  revert t rs. induction l as [|i l IH]; intros t rs Hn H; simpl in H.
  { unfold retM in H. simplify_eq. split_and!; [constructor| |done|done].
    intros j. by destruct (tn_tasks t' !! j). }
  apply NoDup_cons in Hn as [Hni Hn].
  apply bindM_ok in H as (r' & t1 & Hc & H). apply bindM_ok in H as (rs' & t2 & Hm & H).
  unfold retM in H. simplify_eq.
  apply claim_candidate_ok in Hc as (r & Hr & -> & -> & Hb).
  apply IH in Hm as (Hf & Hl & Hd & Hcf); [|done].
  change (tn_tasks (put_tasks ?l ?u)) with l in *.
  assert (Hlen := lookup_lt_Some _ _ _ Hr).
  split_and!; [| |exact Hd|exact Hcf].
  - constructor; [eauto|]. clear -Hf Hni. induction Hf as [|j x l' rs Hj Hf IH]; constructor.
    + apply not_elem_of_cons in Hni as [Hij _].
      rewrite list_lookup_insert_ne in Hj by done. exact Hj.
    + apply IH. by apply not_elem_of_cons in Hni as [_ ?].
  - intros j. rewrite Hl. destruct (decide (i = j)) as [<-|Hij].
    + rewrite list_lookup_insert_eq by done. rewrite bool_decide_false by done.
      rewrite bool_decide_true by by left. by rewrite Hr.
    + rewrite list_lookup_insert_ne by done.
      rewrite (bool_decide_ext (j ∈ i :: l) (j ∈ l)); [done|].
      rewrite elem_of_cons. naive_solver.
Qed.

Lemma claim_lane_ok runner claim permit now lease t poll t' :
  claim_lane runner claim permit now lease t = (Ok poll, t') →
  let taken := selected (tn_tasks t) claim permit now in
  lp_lane poll = lcl_lane claim
  ∧ Forall2 (λ i r', ∃ r, tn_tasks t !! i = Some r ∧ r' = claimed runner now r
                        ∧ t_attempts r + 1 ≤ I32_MAX ∧ t_step_attempts r + 1 ≤ I32_MAX)
      taken (lp_tasks poll)
  ∧ (∀ j, tn_tasks t' !! j = (if bool_decide (j ∈ taken) then claimed runner now else id)
                               <$> tn_tasks t !! j)
  ∧ tn_deliveries t' = tn_deliveries t
  ∧ ms_conf (tn_state t') = ms_conf (tn_state t).
Proof.
  unfold claim_lane. rewrite bindM_gets. cbv zeta. intros H.
  apply bindM_ok in H as (rs & t1 & Hm & H). unfold retM in H. simplify_eq.
  apply mapM_claim_ok in Hm as (Hf & Hl & Hd & Hc); [|apply selected_nodup].
  by split_and!.
Qed.
End ClaimFacts.

(** ** Claiming turns keep the table well formed

    [turn_ok base] says that the rows of a turn evolved in place from [base],
    are all well formed, and that every queued delivery fits the limit. Every
    claiming body keeps it, and the snapshots it returns were not terminal in
    [base]. *)

Definition fits_delivery (d : Delivery) : Prop := str_len d.2 ≤ RESULT_LIMIT.

Record turn_ok (base : list TaskRecord) (t : Turn) : Prop := {
  to_rows : rows_evolve base (tn_tasks t);
  to_records : Forall record_ok (tn_tasks t);
  to_deliveries : Forall fits_delivery (tn_deliveries t);
}.

(** A snapshot of a row that was not terminal when the turn began. *)
Definition live_in (base : list TaskRecord) (r : TaskRecord) : Prop :=
  ∀ b, b ∈ base → t_id b = t_id r → is_terminal (t_status b) = false.

Lemma is_due_active r now : is_due r now = true → t_status r = Pending ∨ t_status r = Running.
Proof. unfold is_due. destruct (t_status r); simpl; auto; done. Qed.

Lemma active_not_cancelled r :
  record_ok r → is_terminal (t_status r) = false → t_cancelled r = false.
Proof. intros [] Ht. destruct (t_cancelled r); [|done]. by rewrite ro_cancelled in Ht. Qed.

Section Outcome.
Context `{X : Externals, L : !ExternalLaws X}.

(** An applied outcome is one step of the lifecycle. *)
Lemma apply_outcome_lifecycle outcome policy now c r u r' :
  apply_outcome outcome policy now (set_cancelled c r) = (Ok u, r') →
  record_ok r → is_terminal (t_status r) = false →
  (c = true → ∃ e, outcome = OutFail e) →
  t_status r = Running ∨ (∃ e, outcome = OutFail e) ∧ (c = true ∨ t_status r = Pending) →
  evolves r r'.
Proof.
  intros Happ Hr Ht Hc Hst.
  pose proof (apply_outcome_identity outcome policy now (set_cancelled c r)) as Hid.
  rewrite Happ in Hid. simpl in Hid. apply apply_outcome_ok in Happ.
  apply evolves_step; [exact Hid|].
  assert (Hcan := active_not_cancelled r Hr Ht). unfold phase at 1. rewrite Hcan.
  assert (Hcases : c = true ∨ c = false) by (destruct c; auto).
  destruct Hcases as [-> | ->].
  { destruct Hc as [e ->]; [done|]. cbn [outcome_record] in Happ. subst r'. by apply life_cancel. }
  destruct Hst as [Hst|[[e ->] [?|Hst]]]; [|done|].
  2: { cbn [outcome_record] in Happ. subst r'. apply life_fail. by left. }
  rewrite Hst. destruct outcome; cbn [outcome_record] in Happ.
  all: try (destruct (validate_output output) as [[]|er]).
  all: try (destruct Happ as [_ Happ]; case_match; [|destruct Happ as (d & _ & Happ)]).
  all: subst r'; unfold phase; simpl; constructor; by right.
Qed.
End Outcome.

Section Turns.
Context `{X : Externals, L : !ExternalLaws X}.
Context (base : list TaskRecord) (Hbase : NoDup (ids base)).

Lemma turn_ok_put t i r r' :
  turn_ok base t → tn_tasks t !! i = Some r → evolves r r' → record_ok r' →
  turn_ok base (put_tasks (<[i:=r']> (tn_tasks t)) t).
Proof.
  intros [Hrows Hok Hd] Hi He Hr. split; [| |exact Hd].
  - etrans; [exact Hrows|]. by eapply rows_evolve_insert.
  - by apply Forall_insert.
Qed.

Lemma turn_ok_push t r : turn_ok base t → turn_ok base (push_undo r t).
Proof. by intros []. Qed.

(** The row with a snapshot's identity was live in the base if it is live now. *)
Lemma live_row t i r :
  turn_ok base t → tn_tasks t !! i = Some r → is_terminal (t_status r) = false → live_in base r.
Proof.
  intros [Hrows _ _] Hi Hr b Hb Hid. apply list_elem_of_lookup in Hb as [j Hj].
  destruct (Forall2_lookup_r _ _ _ _ _ Hrows Hi) as (b' & Hi' & He).
  assert (j = i) as ->.
  { eapply NoDup_lookup; [exact Hbase| |]; unfold ids; rewrite list_lookup_fmap.
    - by rewrite Hj.
    - rewrite Hi'. simpl. f_equal. by rewrite Hid, (evolves_id _ _ He). }
  simplify_eq. destruct (is_terminal (t_status b)) eqn:Ht; [|done].
  rewrite (ev_terminal _ _ He Ht) in Hr. congruence.
Qed.

Lemma queue_delivery_ok task d u d' :
  queue_delivery task d = (Ok u, d') → record_ok task → Forall fits_delivery d →
  Forall fits_delivery d'.
Proof.
  unfold queue_delivery. intros H Hr Hd. destruct (t_parent_id task); [|by run_ok].
  apply bindM_liftR_ok in H as (o & Ho & H). destruct o as [s|]; run_ok; [|done].
  apply Forall_app. split; [done|]. constructor; [|constructor]. unfold fits_delivery. simpl.
  unfold terminal_result in Ho. destruct (t_last_result task) as [s'|] eqn:Hs; [|by destruct (t_status task)].
  apply (ro_result _ Hr). by destruct (t_status task); simplify_eq/=.
Qed.

(** What failing one row does to the turn. *)
Lemma fail_row_run conf policy now i r t u t' :
  fail_row conf policy now i r t = (Ok u, t') → tn_tasks t !! i = Some r →
  ∃ r1 e d,
    apply_outcome (if t_cancelled r then cancellation
                   else outcome_fail "Maximum task attempts exhausted") policy now r = (Ok tt, r1)
    ∧ queue_delivery r1 (tn_deliveries t) = (Ok tt, d)
    ∧ t' = put_tasks (<[i := set_idempotency_expires_at e
                            (set_updated_at now (set_node_id None r1))]> (tn_tasks t))
             (put_turn_deliveries d (push_undo r t)).
Proof.
  unfold fail_row. rewrite bindM_modify. intros H Hi. assert (Hlen := lookup_lt_Some _ _ _ Hi).
  apply bindM_ok in H as ([] & t1 & H1 & H). apply at_task_ok in H1 as (r0 & r1 & Hi0 & Ha & ->).
  change (tn_tasks (push_undo r t)) with (tn_tasks t) in *. rewrite Hi in Hi0. injection Hi0 as <-.
  apply bindM_ok in H as (r1' & t2 & H2 & H).
  apply at_task_ok in H2 as (x & y & Hx & Hg & ->). unfold getM in Hg. simplify_eq.
  change (tn_tasks (put_tasks ?l ?u)) with l in *.
  rewrite list_lookup_insert_eq in Hx by done. injection Hx as <-.
  apply bindM_ok in H as ([] & t3 & H3 & H). unfold zoomM in H3.
  destruct (queue_delivery _ _) as [q d] eqn:Hq. injection H3 as -> <-.
  apply at_task_ok in H as (x & r2 & Hx & Hfin & ->).
  change (tn_tasks (put_turn_deliveries d ?u)) with (tn_tasks u) in *.
  change (tn_tasks (put_tasks ?l ?u)) with l in *.
  rewrite list_insert_insert_eq, list_lookup_insert_eq in Hx by done. injection Hx as <-.
  rewrite !bindM_modify in Hfin. apply finalize_idempotency_ok in Hfin as (e & -> & _).
  exists r1, e, d. split_and!; [done|done|]. by rewrite !list_insert_insert_eq.
Qed.

Lemma fail_row_ok conf policy now i r t u t' :
  fail_row conf policy now i r t = (Ok u, t') →
  turn_ok base t → tn_tasks t !! i = Some r → is_due r now = true →
  turn_ok base t' ∧ ∀ j, j ≠ i → tn_tasks t' !! j = tn_tasks t !! j.
Proof.
  intros H Hok Hi Hdue. apply fail_row_run in H as (r1 & e & d & Ha & Hq & ->); [|done].
  assert (Hr : record_ok r) by (eapply Forall_lookup; [apply (to_records _ _ Hok)|done]).
  assert (Hst := is_due_active r now Hdue).
  assert (Hta : is_terminal (t_status r) = false) by (by destruct Hst as [-> | ->]).
  assert (Hc := active_not_cancelled r Hr Hta). rewrite Hc in Ha.
  assert (Hr1 : record_ok r1).
  { eapply apply_outcome_record_ok; [exact Ha|by apply record_ok_base|congruence]. }
  assert (Hid := apply_outcome_identity (outcome_fail "Maximum task attempts exhausted") policy now r).
  rewrite Ha in Hid. simpl in Hid.
  apply apply_outcome_ok in Ha. cbn [outcome_record outcome_fail] in Ha. split.
  - apply (turn_ok_put (put_turn_deliveries d (push_undo r t)) i r); [|done| |].
    + destruct Hok. split; [done|done|]. by eapply queue_delivery_ok.
    + apply evolves_step; [exact Hid|]. subst r1. unfold phase. simpl. rewrite Hc.
      by apply life_fail.
    + apply record_ok_expires. destruct Hr1. by split.
  - intros j Hj. change (tn_tasks (put_tasks ?l ?u)) with l. by apply list_lookup_insert_ne.
Qed.

Lemma fail_candidate_ok conf policy now i t u t' :
  fail_candidate conf policy now i t = (Ok u, t') →
  turn_ok base t → (∃ r, tn_tasks t !! i = Some r ∧ is_due r now = true) →
  turn_ok base t' ∧ ∀ j, j ≠ i → tn_tasks t' !! j = tn_tasks t !! j.
Proof.
  unfold fail_candidate. rewrite bindM_gets, bindM_liftR. intros H Hok (r & Hi & Hd).
  rewrite Hi in H. simpl in H. apply bindM_ok in H as (b & t1 & Hb & H).
  assert (t1 = t) as -> by (destruct (t_cancelled r); unfold retM, liftR in Hb; by simplify_eq).
  destruct b; [by eapply fail_row_ok|]. unfold retM in H. by simplify_eq.
Qed.

(** Bodies over distinct due rows, each of which writes only its own row. *)
Lemma for_each_rows (f : nat → M Turn TaskRuntimeError unit) (pre : TaskRecord → Prop) l :
  (∀ i t u t', f i t = (Ok u, t') → turn_ok base t →
     (∃ r, tn_tasks t !! i = Some r ∧ pre r) →
     turn_ok base t' ∧ ∀ j, j ≠ i → tn_tasks t' !! j = tn_tasks t !! j) →
  NoDup l → ∀ t u t', for_eachM l f t = (Ok u, t') → turn_ok base t →
  (∀ i, i ∈ l → ∃ r, tn_tasks t !! i = Some r ∧ pre r) → turn_ok base t'.
Proof.
  intros Hf. induction 1 as [|i l Hi Hn IH]; intros t u t' H Hok Hpre; simpl in H.
  { unfold retM in H. by simplify_eq. }
  apply bindM_ok in H as ([] & t1 & H1 & H).
  apply Hf in H1 as [Hok1 Hj]; [|done|by apply Hpre; left].
  eapply IH; [exact H|done|]. intros j Hjl.
  rewrite Hj by congruence. apply Hpre. by right.
Qed.

Lemma fail_exhausted_ok lane limit now conf policy :
  triple (turn_ok base) (fail_exhausted lane limit now conf policy) (λ _, turn_ok base).
Proof.
  intros t u t' Hok. unfold fail_exhausted. rewrite bindM_gets. intros H.
  set (l := take _ _) in H.
  assert (Hsub : l `sublist_of` sort_candidates (tn_tasks t) now (due_indices (tn_tasks t) lane now))
    by apply sublist_take.
  eapply (for_each_rows _ (λ r, is_due r now = true)); [|eapply sublist_NoDup, Hsub|exact H|done|].
  - intros. by eapply fail_candidate_ok.
  - rewrite sort_candidates_perm. apply due_indices_nodup.
  - intros i Hi. eapply elem_of_sublist in Hi; [|exact Hsub].
    rewrite sort_candidates_perm in Hi. apply elem_of_due_indices in Hi. naive_solver.
Qed.

Lemma reserve_permits_ok lane limit rate now :
  triple (turn_ok base) (reserve_permits lane limit rate now) (λ _, turn_ok base).
Proof.
  intros t a t' Hok. unfold reserve_permits. case_match; [by intros [= _ <-]|].
  case_match; [|by intros [= _ <-]]. rewrite bindM_gets.
  destruct (take_permits _ _ _ _). intros [= _ <-]. by destruct Hok.
Qed.

Lemma claimed_evolves runner now r :
  record_ok r → is_due r now = true → evolves r (claimed runner now r).
Proof.
  intros Hr Hd. assert (Hst := is_due_active r now Hd).
  assert (Hc : t_cancelled r = false)
    by (apply active_not_cancelled; [done|]; by destruct Hst as [-> | ->]).
  apply evolves_step; [done|]. unfold phase. simpl. rewrite Hc. by constructor.
Qed.

Lemma claimed_ok runner now r :
  record_ok r → is_due r now = true → t_attempts r + 1 ≤ I32_MAX → record_ok (claimed runner now r).
Proof.
  intros [? ? Hact ? ? ? ? ? Hcan] Hd Hb. assert (Hst := is_due_active r now Hd).
  split; simpl; intros; try done; try lia; eauto.
  - apply Hact. by destruct Hst as [-> | ->].
  - rewrite Hcan in Hst by done. by destruct Hst.
Qed.

(** The poll's tasks were live when the turn began. *)
Definition poll_live (poll : LanePoll) : Prop := Forall (live_in base) (lp_tasks poll).

Lemma claim_lane_triple runner claim permit now lease :
  triple (turn_ok base) (claim_lane runner claim permit now lease)
    (λ poll t, turn_ok base t ∧ poll_live poll).
Proof.
  intros t poll t' Hok H. apply claim_lane_ok in H as (_ & Hf & Hl & Hd & _).
  set (taken := selected _ _ _ _) in *.
  assert (Htaken : ∀ i, i ∈ taken → ∃ r, tn_tasks t !! i = Some r ∧ record_ok r
            ∧ is_due r now = true ∧ t_attempts r + 1 ≤ I32_MAX).
  { intros i Hi. destruct (selected_due _ _ _ _ _ Hi) as (r & Hr & Hdue & _).
    apply list_elem_of_lookup in Hi as [k Hk].
    destruct (Forall2_lookup_l _ _ _ _ _ Hf Hk) as (r' & _ & r0 & Hr0 & _ & Hb & _).
    simplify_eq. exists r. split_and!; [done| |done|done].
    eapply Forall_lookup; [apply (to_records _ _ Hok)|done]. }
  assert (Hrow : ∀ j r, tn_tasks t !! j = Some r →
    ∃ r', tn_tasks t' !! j = Some r' ∧ evolves r r' ∧ record_ok r').
  { intros j r Hj. rewrite Hl, Hj. case_bool_decide as Hin; simpl.
    - destruct (Htaken j Hin) as (r0 & Hr0 & Hrok & Hdue & Hb). simplify_eq.
      eexists. split_and!; [done|by apply claimed_evolves|by apply claimed_ok].
    - exists r. split_and!; [done|reflexivity|].
      eapply Forall_lookup; [apply (to_records _ _ Hok)|done]. }
  assert (Hlen : length (tn_tasks t') = length (tn_tasks t)).
  { assert (∀ j, is_Some (tn_tasks t' !! j) ↔ is_Some (tn_tasks t !! j))
      by (intros j; rewrite Hl; apply fmap_is_Some).
    assert (∀ j, (j < length (tn_tasks t'))%nat ↔ (j < length (tn_tasks t))%nat)
      by (intros j; by rewrite <- !lookup_lt_is_Some).
    destruct (decide (length (tn_tasks t') = length (tn_tasks t))); [done|].
    pose proof (H0 (length (tn_tasks t))). pose proof (H0 (length (tn_tasks t'))). lia. }
  split; [split|].
  - etrans; [apply (to_rows _ _ Hok)|]. apply Forall2_same_length_lookup. split; [done|].
    intros j x y Hx Hy. destruct (Hrow j x Hx) as (y' & Hy' & He & _). by simplify_eq.
  - apply Forall_lookup. intros j r' Hj.
    assert (is_Some (tn_tasks t !! j)) as [r Hr]
      by (apply lookup_lt_is_Some; rewrite <- Hlen; by eapply lookup_lt_Some).
    destruct (Hrow j r Hr) as (y & Hy & _ & ?). by simplify_eq.
  - rewrite Hd. apply (to_deliveries _ _ Hok).
  - apply Forall_lookup. intros k r' Hk.
    destruct (Forall2_lookup_r _ _ _ _ _ Hf Hk) as (i & Hi & r & Hr & -> & _).
    apply list_elem_of_lookup_2, Htaken in Hi as (r0 & Hr0 & _ & Hdue & _). simplify_eq.
    intros b Hb Hid. eapply live_row; [done|exact Hr0| |done|exact Hid].
    by destruct (is_due_active r0 now Hdue) as [-> | ->].
Qed.

Abbreviation polls m := (triple (turn_ok base) m (λ poll t, turn_ok base t ∧ poll_live poll))
  (only parsing).

Lemma claim_lane_state_triple runner reservation lease now :
  polls (claim_lane_state runner reservation lease now).
Proof.
  unfold claim_lane_state. eapply triple_bind; [apply claim_lane_triple|]. intros poll.
  apply triple_gets. intros t [Hok Hp]. by apply triple_ret; intros ? ->.
Qed.

Lemma claim_unlocked_triple runner claim lane conf lease now :
  polls (claim_unlocked runner claim lane conf lease now).
Proof.
  unfold claim_unlocked. apply triple_gets. intros t Hok.
  eapply (triple_bind _ (λ _, turn_ok base)); [by apply triple_lift; intros ? ? _ ->|intros policy].
  eapply triple_bind; [apply fail_exhausted_ok|intros _u].
  apply triple_gets. intros t1 Hok1.
  eapply (triple_bind _ (λ _, turn_ok base)); [by apply triple_lift; intros ? ? _ ->|intros rate].
  eapply triple_bind; [apply reserve_permits_ok|intros reserved].
  apply claim_lane_state_triple.
Qed.

(** ** Locked lanes *)

Definition owner_ok (p : OwnerTurn) : Prop := turn_ok base p.1.

Lemma on_owner_triple {A} (m : M MemoryLaneLock TaskRuntimeError A) :
  triple owner_ok (on_owner m) (λ _, owner_ok).
Proof.
  intros p a p' Hok. unfold on_owner, zoomM. destruct (m p.2). by intros [= _ <-].
Qed.
Lemma on_turn_triple {A} (m : M Turn TaskRuntimeError A) (Q : A → Turn → Prop) :
  triple (turn_ok base) m Q → triple owner_ok (on_turn m) (λ a p, Q a p.1).
Proof.
  intros Hm p a p' Hok. unfold on_turn, zoomM. destruct (m p.1) as [r t] eqn:Hr.
  intros [= -> <-]. by eapply Hm.
Qed.
Lemma on_turn_gets_triple {A} (f : Turn → A) :
  triple owner_ok (on_turn (getsM f)) (λ _, owner_ok).
Proof. apply (on_turn_triple _ (λ _, turn_ok base)). by intros t a t' Hok [= _ <-]. Qed.
Lemma on_turn_get_triple : triple owner_ok (on_turn getM) (λ _, owner_ok).
Proof. apply (on_turn_triple _ (λ _, turn_ok base)). by intros t a t' Hok [= _ <-]. Qed.
Lemma lift_owner_triple {A} (r : result TaskRuntimeError A) :
  triple owner_ok (liftR r) (λ _, owner_ok).
Proof. by apply triple_lift. Qed.

Lemma release_held_ok runner lane now t : turn_ok base t → turn_ok base (release_held runner lane now t).
Proof.
  intros [Hrows Hrec Hd]. unfold release_held. split; [| |exact Hd].
  - etrans; [exact Hrows|]. apply rows_evolve_fmap. intros r _. unfold disown.
    destruct (held_by runner lane r) eqn:Hh; [|reflexivity]. apply evolves_quiet; [done..|].
    unfold held_by in Hh. apply andb_prop in Hh as [_ Hs]. apply bool_decide_eq_true in Hs.
    by rewrite Hs.
  - apply Forall_fmap. eapply Forall_impl; [exact Hrec|]. intros r Hr. simpl. unfold disown.
    case_match; [|done]. destruct Hr. by split.
Qed.

Lemma no_tasks_live poll : lp_tasks poll = [] → poll_live poll.
Proof. intros H. unfold poll_live. by rewrite H. Qed.

Abbreviation owner_polls m := (triple owner_ok m (λ poll p, owner_ok p ∧ poll_live poll))
  (only parsing).

(** A poll of the row alone carries no task. *)
Lemma ret_poll_triple poll : lp_tasks poll = [] → owner_polls (retM poll : M OwnerTurn TaskRuntimeError LanePoll).
Proof. intros Hp. apply triple_ret. intros p Hok. by split; [|apply no_tasks_live]. Qed.

Lemma row_poll_triple (m : M MemoryLaneLock TaskRuntimeError LanePoll) :
  triple (λ _, True) m (λ poll _, lp_tasks poll = []) → owner_polls (on_owner m).
Proof.
  intros Hm p poll p' Hok. unfold on_owner, zoomM. destruct (m p.2) as [r o] eqn:Hr.
  intros [= -> <-]. split; [exact Hok|]. apply no_tasks_live. by eapply (Hm p.2).
Qed.

Ltac row_polls :=
  repeat first
    [ (apply triple_ret; done) | (apply triple_gets; intros ? _; apply triple_ret; done)
    | (eapply (triple_bind _ (λ _ _, True)); [done|intros ?])
    | (match goal with |- triple _ (match ?x with _ => _ end) _ => destruct x end)
    | (intros ? ? ? _ H; injection H as <- <-; done) ].

Lemma start_busy_tasks name lane now :
  triple (λ _, True) (memory_start_busy name lane now) (λ poll _, lp_tasks poll = []).
Proof. unfold memory_start_busy. row_polls. Qed.
Lemma memory_empty_tasks tasks claim lane now :
  triple (λ _, True) (memory_empty tasks claim lane now) (λ poll _, lp_tasks poll = []).
Proof. unfold memory_empty, memory_start_idle. row_polls. Qed.

Lemma memory_claim_triple runner claim lane lease now :
  owner_polls (memory_claim runner claim lane lease now).
Proof.
  unfold memory_claim.
  eapply triple_bind; [apply on_turn_gets_triple|intros s].
  eapply triple_bind; [apply lift_owner_triple|intros conf].
  eapply triple_bind; [apply on_turn_triple, fail_exhausted_ok|intros _u].
  eapply triple_bind; [apply on_turn_gets_triple|intros s'].
  eapply triple_bind; [apply on_turn_triple, reserve_permits_ok|intros reserved].
  eapply triple_bind; [apply on_turn_triple, claim_lane_state_triple|intros poll].
  intros p poll' p' [Hok Hp] H. apply bindM_ok in H as (o & q & Ho & H).
  unfold on_owner, zoomM, getM in Ho. simplify_eq. unfold retM in H. simplify_eq.
  by split.
Qed.

Lemma memory_flush_poll_triple runner claim lane lease now candidates :
  owner_polls (memory_flush_poll runner claim lane lease now candidates).
Proof.
  unfold memory_flush_poll.
  eapply triple_bind; [apply on_turn_gets_triple|intros tasks].
  eapply triple_bind; [apply on_owner_triple|intros owner].
  eapply (triple_bind _ (λ _, owner_ok)); [case_match; [by apply triple_ret|apply lift_owner_triple]|].
  intros flush. destruct (negb flush).
  - eapply triple_bind; [apply lift_owner_triple|intros wake]. by apply ret_poll_triple.
  - eapply triple_bind; [apply on_owner_triple|intros _u]. case_match.
    + apply row_poll_triple. by intros o poll o' _ [= <- _].
    + apply memory_claim_triple.
Qed.

Lemma memory_phase_poll_triple runner claim lane lease now :
  owner_polls (memory_phase_poll runner claim lane lease now).
Proof.
  unfold memory_phase_poll.
  eapply triple_bind; [apply on_owner_triple|intros owner].
  match goal with |- triple _ (if ?b then _ else _) _ => destruct b end; [by apply ret_poll_triple|].
  eapply (triple_bind _ (λ _, owner_ok)).
  { match goal with |- triple _ (if ?b then _ else _) _ => destruct b end;
      [apply on_owner_triple|by apply triple_ret]. }
  intros _u. eapply triple_bind; [apply on_turn_gets_triple|intros tasks].
  cbv zeta. destruct (memory_candidates _ _ _ _) as [|i l].
  - apply row_poll_triple. eapply (triple_bind _ (λ _ _, True)); [done|intros _u'].
    apply memory_empty_tasks.
  - eapply triple_bind; [apply on_owner_triple|intros _u'].
    eapply triple_bind; [apply on_owner_triple|intros owner'].
    destruct (ml_phase owner'); try apply memory_flush_poll_triple;
      apply row_poll_triple, start_busy_tasks.
Qed.

Lemma claim_owned_inner_triple runner claim lane lease now :
  owner_polls (claim_owned_inner runner claim lane lease now).
Proof.
  unfold claim_owned_inner.
  eapply triple_bind; [apply on_turn_get_triple|intros t].
  eapply (triple_bind _ (λ _, owner_ok)).
  { apply (on_turn_triple _ (λ _, turn_ok base)). intros u a u' Hok [= _ <-]. by destruct Hok. }
  intros _u. eapply triple_bind; [apply on_owner_triple|intros owned]. destruct (negb owned).
  - eapply (triple_bind _ (λ _, owner_ok)).
    { case_match; [|by apply triple_ret]. apply (on_turn_triple _ (λ _, turn_ok base)).
      apply triple_modify. intros u. apply release_held_ok. }
    intros _u'. eapply triple_bind; [apply on_turn_gets_triple|intros tasks].
    eapply triple_bind; [apply on_owner_triple|intros owner]. by apply ret_poll_triple.
  - eapply triple_bind; [apply on_turn_gets_triple|intros s].
    eapply (triple_bind _ (λ _, owner_ok)).
    { case_match; [apply on_owner_triple|by apply triple_ret]. }
    intros _u'. eapply triple_bind; [apply on_owner_triple|intros owner].
    destruct (memory_action _); [by apply ret_poll_triple|apply memory_phase_poll_triple].
Qed.

Lemma mark_takeover_live poll : poll_live poll → poll_live (mark_takeover poll).
Proof. done. Qed.

Lemma claim_owned_state_triple runner claim lane lease now :
  polls (claim_owned_state runner claim lane lease now).
Proof.
  intros t poll t' Hok. unfold claim_owned_state. case_match; [|done].
  match goal with |- context [claim_owned_inner ?a ?b ?c ?d ?e ?p] =>
    pose proof (claim_owned_inner_triple a b c d e p) as Hin;
    destruct (claim_owned_inner a b c d e p) as [r [u o]] eqn:Hrun end.
  destruct r as [poll0|]; [|done]. destruct (Hin poll0 (u, o)) as [Hu Hp]; [by destruct Hok|done|].
  intros [= Hpoll <-]. split; [by destruct Hu|].
  case_match; simplify_eq; [by apply mark_takeover_live|done].
Qed.

Lemma claim_tasks_triple runner claims lease now :
  triple (turn_ok base) (claim_tasks_state runner claims lease now)
    (λ poll t, turn_ok base t ∧ Forall poll_live (tp_lanes poll)).
Proof.
  unfold claim_tasks_state. apply triple_gets. intros t0 Hok.
  eapply (triple_bind _ (λ _, turn_ok base)); [by apply triple_lift; intros ? ? _ ->|intros conf].
  eapply (triple_bind _ (λ lanes t, turn_ok base t ∧ Forall poll_live lanes)).
  - apply triple_mapM. intros claim _. unfold claim_one.
    eapply (triple_bind _ (λ _, turn_ok base)); [by apply triple_lift|intros lane].
    case_match; [apply claim_owned_state_triple|apply claim_unlocked_triple].
  - intros lanes. by apply triple_ret.
Qed.
End Turns.

(** ** Facts about staging a batch of commits

    What staging one accepted commit does to the batch, and the updates,
    children and waits of a whole batch. *)

Lemma find_index_from_ok {A} k (p : A → bool) l i x :
  find_index_from k p l = Some (i, x) → ∃ j, i = (k + j)%nat ∧ l !! j = Some x ∧ p x = true.
Proof.
  revert k. induction l as [|y l IH]; intros k; simpl; [done|].
  destruct (p y) eqn:Hp.
  - intros [= <- <-]. exists 0%nat. by rewrite Nat.add_0_r.
  - intros H. apply IH in H as (j & -> & Hj & Hx). exists (S j). by rewrite Nat.add_succ_r.
Qed.

Lemma find_index_from_none {A} k (p : A → bool) l :
  find_index_from k p l = None → ∀ x, x ∈ l → p x = false.
Proof.
  revert k. induction l as [|y l IH]; intros k; simpl; [by intros _ x ?%elem_of_nil|].
  destruct (p y) eqn:Hp; [done|]. intros H x Hx.
  apply elem_of_cons in Hx as [->|Hx]; eauto.
Qed.

Section WorkflowFacts.
Context `{X : Externals, L : !ExternalLaws X}.

Lemma owned_task_ok state commit i task :
  owned_task state commit = Ok (Some (i, task)) →
  ms_tasks state !! i = Some task ∧ accepted_by commit task = true
  ∧ (∀ lane, commit_lane commit = Some lane → t_lane task = lane).
Proof.
  unfold owned_task. destruct (find_index_from 0 _ _) as [[j t]|] eqn:Hf; [|done].
  assert (Hf0 := Hf). apply find_index_from_ok in Hf as (k & -> & Hk & Hp). simpl in *.
  destruct (commit_lane commit) as [lane|].
  - destruct (String.eqb (t_lane t) lane) eqn:Hl; [|done]. intros [= <- <-].
    apply String.eqb_eq in Hl. naive_solver.
  - intros [= <- <-]. naive_solver.
Qed.

(** The record a commit works on: cancellation is marked before anything else. *)
Definition marked (commit : TaskCommit) (task : TaskRecord) : TaskRecord :=
  set_cancelled (t_cancelled task || commit_is_cancel commit) task.

(** How a commit's outcome becomes the one applied, and which children it stages. *)
Definition resolved (state : MemoryState) (conf : TaskStoreConf) (task : TaskRecord)
    (commit : TaskCommit) (now : DateTime) (children : list TaskRecord)
    (outcome : TaskOutcome) (children' : list TaskRecord) : Prop :=
  let requested := default cancellation (commit_outcome commit) in
  if t_cancelled (marked commit task) then outcome = cancellation ∧ children' = children
  else match capability_error (t_kind task) requested (sc_handlers conf) with
       | Some error => outcome = outcome_fail error ∧ children' = children
       | None => prepare_spawn (Some conf) (ms_tasks state) (marked commit task) requested now
                   children = (Ok outcome, children')
       end.

Lemma staged_task_ok state task commit now b task' b' :
  staged_task state task commit now b = (Ok task', b') →
  ∃ conf outcome policy task1,
    ms_conf state = Some conf
    ∧ resolved state conf task commit now (bt_children b) outcome (bt_children b')
    ∧ lc_retry <$> conf_lane conf (t_lane task) = Some policy
    ∧ apply_outcome outcome policy now (marked commit task) = (Ok tt, task1)
    ∧ finalize_idempotency conf now task1 = (Ok tt, task')
    ∧ bt_updates b' = bt_updates b ∧ bt_waits b' = bt_waits b
    ∧ queue_delivery task' (bt_deliveries b) = (Ok tt, bt_deliveries b').
Proof.
  unfold staged_task. intros H. apply bindM_liftR_ok in H as (conf & Hc & H).
  apply ok_or_ok in Hc. cbv zeta in H. fold (marked commit task) in H.
  apply bindM_ok in H as (outcome & b1 & Ho & H).
  assert (Hres : resolved state conf task commit now (bt_children b) outcome (bt_children b1)
    ∧ bt_updates b1 = bt_updates b ∧ bt_waits b1 = bt_waits b
    ∧ bt_deliveries b1 = bt_deliveries b).
  { unfold resolved. cbv zeta. destruct (t_cancelled (marked commit task)).
    { unfold retM in Ho. simplify_eq. done. }
    change (t_kind (marked commit task)) with (t_kind task) in Ho.
    destruct (capability_error _ _ _). { unfold retM in Ho. simplify_eq. done. }
    unfold zoomM in Ho. rewrite Hc in Ho.
    destruct (prepare_spawn _ _ _ _ _ _) as [r c] eqn:Hp. simplify_eq. done. }
  destruct Hres as (Hres & Hu & Hw & Hd).
  apply bindM_liftR_ok in H as (policy & Hpol & H). apply ok_or_ok in Hpol.
  apply bindM_ok in H as (task2 & b2 & Ht & H).
  destruct ((apply_outcome outcome policy now;! finalize_idempotency conf now)
    (marked commit task)) as [[[]|e] t2] eqn:Happ; [|done]. simplify_eq.
  apply bindM_ok in Happ as ([] & task1 & Ha & Hf).
  apply bindM_ok in H as ([] & b3 & Hq & H). unfold retM in H. simplify_eq.
  unfold zoomM in Hq. destruct (queue_delivery task' _) as [r d] eqn:Hqd. simplify_eq.
  exists conf, outcome, policy, task1. simpl. rewrite <- Hd. by split_and!.
Qed.

Lemma staged_task_identity state task commit now b task' b' :
  staged_task state task commit now b = (Ok task', b') → same_identity task task'.
Proof.
  intros H. apply staged_task_ok in H as (conf & o & p & t1 & _ & _ & _ & Ha & Hf & _).
  pose proof (apply_outcome_identity o p now (marked commit task)) as H1. rewrite Ha in H1.
  pose proof (finalize_idempotency_identity conf now t1) as H2. rewrite Hf in H2.
  etrans; [|etrans; [exact H1|exact H2]]. reflexivity.
Qed.

(** Induction over an accepted batch, with the identities seen so far: what holds of the
    empty batch and is kept by each commit, accepted or not, holds of the batch. *)
Lemma stage_commits_ind (P : list TaskId → Batch → Prop) state now commits :
  (∀ id seen b, P seen b → P (id :: seen) b) →
  (∀ commit i task task' seen b b' b'',
     commit ∈ commits → P seen b → commit_task_id commit ∉ seen →
     memory_commit_allowed state commit now = Ok true →
     owned_task state commit = Ok (Some (i, task)) →
     staged_task state task commit now b = (Ok task', b') →
     b'' = push_update (i, task')
             (if is_all (commit_outcome commit) && bool_decide (t_status task' = Suspended)
              then push_wait (t_id task', prepared_wait (t_id task') (bt_children b')) b'
              else b') → P (commit_task_id commit :: seen) b'') →
  ∀ seen, triple (P seen) (stage_commits state seen commits now) (λ _ b, ∃ seen', P seen' b).
Proof.
  intros Hskip. induction commits as [|commit commits IH]; intros Hstep seen; simpl.
  { apply triple_ret. eauto. }
  case_bool_decide as Hseen; [done|].
  assert (IH' : ∀ seen, triple (P seen) (stage_commits state seen commits now)
                          (λ _ b, ∃ seen', P seen' b)).
  { apply IH. intros. eapply Hstep; eauto. by right. }
  intros b u b' HP Hrun. apply bindM_liftR_ok in Hrun as (allowed & Ha & Hrun).
  destruct allowed; simpl in Hrun; [|eapply IH'; [by apply Hskip|done]].
  apply bindM_liftR_ok in Hrun as (owned & Ho & Hrun).
  destruct owned as [[i task]|]; [|eapply IH'; [by apply Hskip|done]].
  apply bindM_ok in Hrun as (task' & b1 & Hs & Hrun).
  apply bindM_ok in Hrun as ([] & b2 & Hw & Hrun).
  rewrite bindM_modify in Hrun. eapply IH'; [|exact Hrun].
  eapply (Hstep commit i task task' seen b b1); [by left|done..|].
  destruct (_ && _); unfold modifyM, retM in Hw; by simplify_eq.
Qed.

Lemma stage_outcomes_triple (P : list TaskId → Batch → Prop) state commits now batch :
  P [] empty_batch →
  triple (P []) (stage_commits state [] commits now) (λ _ b, ∃ seen', P seen' b) →
  stage_outcomes state commits now = Ok batch → ∃ seen, P seen batch.
Proof.
  intros HP Ht. unfold stage_outcomes.
  destruct (stage_commits _ _ _ _ _) as [[u|e] b] eqn:Hs; [|done].
  intros [= <-]. by eapply Ht.
Qed.

(** Every update goes to the row with its identity. *)
Lemma stage_outcomes_ids state commits now batch :
  stage_outcomes state commits now = Ok batch →
  Forall (λ u, ids (ms_tasks state) !! u.1 = Some (t_id u.2)) (bt_updates batch).
Proof.
  intros H. set (P (_ : list TaskId) b :=
    Forall (λ u, ids (ms_tasks state) !! u.1 = Some (t_id u.2)) (bt_updates b)).
  destruct (stage_outcomes_triple P state commits now batch) as [seen HP];
    [constructor| |done|exact HP]. apply stage_commits_ind; [done|]. clear H.
  intros commit i task task' seen b b' b'' _ HP _ _ Ho Hs ->.
  apply owned_task_ok in Ho as (Hi & _).
  assert (Hid := staged_task_identity _ _ _ _ _ _ _ Hs). apply same_identity_id in Hid.
  apply staged_task_ok in Hs as (? & ? & ? & ? & _ & _ & _ & _ & _ & Hu & _).
  unfold P in *. simpl. apply Forall_app. split; [by destruct (_ && _); simpl; rewrite Hu|].
  constructor; [|constructor]. simpl. unfold ids. by rewrite list_lookup_fmap, Hi, Hid.
Qed.
End WorkflowFacts.

#[global] Arguments staged_task : simpl never.
#[global] Arguments prepare_spawn : simpl never.
