(* ===== verification/Commits.v ===== *)
(** * What an accepted batch promises

    A batch staged from well-formed rows updates distinct rows by one
    lifecycle step each, adds admissible children, delivers bounded results
    and waits only for parents it suspended ([batch_ok]). *)
From S2P Require Import Prelude Externals Failure Config Models Transitions Lifecycle MemoryState.
From S2P Require Import LaneLock Workflow Claims Atomic Evolution ClaimFacts.
#[local] Open Scope Z_scope.

(** A record as the typed client submits it: not yet executed, not owned, not cancelled. *)
Record fresh_record (r : TaskRecord) : Prop := {
  fr_status : t_status r = Pending;
  fr_cancelled : t_cancelled r = false;
  fr_attempts : t_attempts r = 0;
  fr_step : t_step_attempts r = 0;
  fr_node : t_node_id r = None;
  fr_completed : t_completed_at r = None;
  fr_result : t_last_result r = None;
  fr_resume : t_resume_input r = None;
}.
Definition fresh_write (w : TaskWrite) : Prop := fresh_record (w_record w).

(** The children an outcome may submit. *)
Definition commit_fresh (c : TaskCommit) : Prop :=
  match commit_outcome c with
  | Some (OutSpawn _ child) => fresh_write child
  | Some (OutAll _ children) => Forall fresh_write children
  | _ => True
  end.

Lemma fresh_stamp now ready_at r :
  fresh_record r → is_Some ready_at → record_ok (stamp now ready_at r).
Proof.
  intros [Hs Hc Ha Hst Hn Hco Hr Hi] [d ->]. unfold stamp.
  split; simpl; rewrite ?Hs, ?Hc, ?Ha, ?Hst, ?Hn, ?Hco, ?Hr, ?Hi; intros; try done.
Qed.

Lemma fresh_link parent w : fresh_write w → fresh_write (link_child parent w).
Proof. intros []. by split. Qed.

Section Commits.
Context `{X : Externals, L : !ExternalLaws X}.

Lemma stage_write_tasks_ok existing write now staged receipt staged' :
  stage_write existing write now staged = (Ok receipt, staged') → fresh_write write →
  tasks_ok (existing ++ staged) → tasks_ok (existing ++ staged').
Proof.
  intros H Hf Hok. apply stage_write_ok in H as (ready & Hsome & Hid & H).
  destruct receipt; [destruct H as (_ & -> & Hclash)|by destruct H as [-> _]..].
  rewrite app_assoc. apply tasks_ok_snoc; [done|]. split_and!.
  - by apply fresh_stamp.
  - exact Hid.
  - intros r Hr Hn Hs Hk. destruct (is_active (t_status r)) eqn:Ha; [|done].
    destruct (Hclash r Hr). split_and!; [done..|]. unfold idempotency_held. by rewrite Ha.
Qed.

Lemma stage_group_ok existing parent group now children queued children' :
  stage_group existing parent group now children = (queued, children') →
  Forall fresh_write group → tasks_ok (existing ++ children) →
  tasks_ok (existing ++ children') ∧ children `prefix_of` children'.
Proof.
  revert children. induction group as [|w group IH]; intros children H Hf Hok; simpl in H.
  { by simplify_eq. }
  apply Forall_cons in Hf as [Hw Hf].
  destruct (stage_write existing (link_child parent w) now children) as [[receipt|e] c] eqn:Hs.
  - assert (Hok' : tasks_ok (existing ++ c))
      by (eapply stage_write_tasks_ok; [exact Hs|by apply fresh_link|done]).
    assert (Hp : children `prefix_of` c).
    { pose proof (stage_write_grows existing (link_child parent w) now children) as (n & Hg & _).
      rewrite Hs in Hg. simpl in Hg. subst c. by exists n. }
    destruct receipt; simplify_eq; [|done..].
    destruct (IH c H Hf Hok') as [? ?]. split; [done|]. by etrans.
  - apply stage_write_err in Hs as ->. by simplify_eq.
Qed.

Lemma prepare_ok conf existing parent checkpoint group now children outcome children' :
  prepare conf existing parent checkpoint group now children = (Ok outcome, children') →
  Forall fresh_write group → tasks_ok (existing ++ children) → tasks_ok (existing ++ children').
Proof.
  unfold prepare. intros H Hf Hok. apply bindM_liftR_ok in H as (c & _ & H).
  destruct (validate_group group c); [|unfold retM in H; by simplify_eq].
  rewrite bindM_get in H. destruct (stage_group _ _ _ _ _) as [q k] eqn:Hg.
  apply stage_group_ok in Hg as [Hok' [n ->]]; [|done..].
  rewrite bindM_modify in H. unfold retM in H. simplify_eq. destruct q; [done|].
  by rewrite take_app_length.
Qed.

Lemma prepare_spawn_ok conf existing parent outcome now children outcome' children' :
  prepare_spawn conf existing parent outcome now children = (Ok outcome', children') →
  (match outcome with
   | OutSpawn _ child => fresh_write child
   | OutAll _ group => Forall fresh_write group
   | _ => True
   end) →
  tasks_ok (existing ++ children) → tasks_ok (existing ++ children').
Proof.
  unfold prepare_spawn. intros H Hf Hok.
  destruct outcome as [checkpoint group| | |checkpoint child| | | |];
    try (unfold retM in H; by simplify_eq).
  - by eapply prepare_ok.
  - apply bindM_liftR_ok in H as ([] & _ & H). destruct (w_ignore_conflicts child); [done|].
    destruct (stage_write existing (link_child parent child) now children) as [[receipt|e] c] eqn:Hs.
    + assert (tasks_ok (existing ++ c))
        by (eapply stage_write_tasks_ok; [exact Hs|by apply fresh_link|done]).
      destruct receipt; by simplify_eq.
    + apply stage_write_err in Hs as ->. destruct e; by simplify_eq.
Qed.

Lemma resolved_ok state conf task commit now children outcome children' :
  resolved state conf task commit now children outcome children' → commit_fresh commit →
  tasks_ok (ms_tasks state ++ children) → tasks_ok (ms_tasks state ++ children').
Proof.
  unfold resolved, commit_fresh. intros H Hf Hok. cbv zeta in H.
  destruct (t_cancelled _); [by destruct H as [_ ->]|].
  destruct (capability_error _ _ _); [by destruct H as [_ ->]|].
  eapply prepare_spawn_ok; [exact H| |done].
  by destruct (commit_outcome commit) as [[]|].
Qed.

Lemma resolved_cancelled state conf task commit now children outcome children' :
  resolved state conf task commit now children outcome children' →
  t_cancelled (marked commit task) = true → outcome = cancellation.
Proof. unfold resolved. cbv zeta. intros H Hc. rewrite Hc in H. by destruct H. Qed.

(** An accepted row was active; without cancellation it was running. *)
Lemma accepted_active commit r :
  accepted_by commit r = true →
  is_terminal (t_status r) = false
  ∧ (commit_is_cancel commit = false → t_status r = Running).
Proof.
  unfold accepted_by, accepts. intros [_ H]%andb_prop. destruct commit.
  - apply andb_prop in H as [[H _]%andb_prop _]. apply bool_decide_eq_true in H.
    by rewrite H.
  - rewrite active_or_terminal in H. by destruct (is_terminal _).
Qed.

(** One accepted commit is one lifecycle step to a well-formed row. *)
Lemma staged_task_step state task commit now b task' b' :
  staged_task state task commit now b = (Ok task', b') → accepted_by commit task = true →
  record_ok task → evolves task task' ∧ record_ok task'.
Proof.
  intros H Hacc Hr. apply staged_task_ok in H as (conf & o & p & t1 & _ & Hres & _ & Ha & Hf & _).
  apply accepted_active in Hacc as [Ht Hrun].
  assert (Hc := active_not_cancelled _ Hr Ht).
  assert (Hm : marked commit task = set_cancelled (commit_is_cancel commit) task)
    by (unfold marked; by rewrite Hc).
  assert (Hcan : commit_is_cancel commit = true → ∃ e, o = OutFail e).
  { intros Hk. apply resolved_cancelled in Hres as ->; [by eexists|]. by rewrite Hm. }
  rewrite Hm in Ha.
  assert (He : evolves task t1).
  { eapply apply_outcome_lifecycle; [exact Ha|done..|].
    destruct (commit_is_cancel commit); [right; eauto|left; by apply Hrun]. }
  assert (Hok : record_ok t1).
  { eapply apply_outcome_record_ok; [exact Ha| |exact Hcan].
    destruct (record_ok_base _ Hr Ht). by split. }
  apply finalize_idempotency_ok in Hf as (e & -> & _). split; [|by apply record_ok_expires].
  split; [apply (ev_identity _ _ He)|apply (ev_lifecycle _ _ He)|congruence].
Qed.

(** ** The batch *)

Record batch_ok (state : MemoryState) (seen : list TaskId) (b : Batch) : Prop := {
  bo_updates : Forall (λ u, ∃ r, ms_tasks state !! u.1 = Some r ∧ evolves r u.2 ∧ record_ok u.2)
                 (bt_updates b);
  bo_distinct : NoDup (bt_updates b).*1;
  bo_seen : ∀ u, u ∈ bt_updates b → t_id u.2 ∈ seen;
  bo_children : tasks_ok (ms_tasks state ++ bt_children b);
  bo_deliveries : Forall fits_delivery (bt_deliveries b);
  bo_waits : Forall (λ w, ∃ u, u ∈ bt_updates b ∧ t_id u.2 = w.1 ∧ t_status u.2 = Suspended)
               (bt_waits b);
}.

Lemma empty_batch_ok state : tasks_ok (ms_tasks state) → batch_ok state [] empty_batch.
Proof.
  intros H. split; simpl; [constructor|constructor| |by rewrite app_nil_r|constructor|constructor].
  intros u Hu. by apply elem_of_nil in Hu.
Qed.

Lemma batch_ok_step state now commit i task task' seen b b' b'' :
  tasks_ok (ms_tasks state) → commit_fresh commit → batch_ok state seen b →
  commit_task_id commit ∉ seen → owned_task state commit = Ok (Some (i, task)) →
  staged_task state task commit now b = (Ok task', b') →
  b'' = push_update (i, task')
          (if is_all (commit_outcome commit) && bool_decide (t_status task' = Suspended)
           then push_wait (t_id task', prepared_wait (t_id task') (bt_children b')) b'
           else b') → batch_ok state (commit_task_id commit :: seen) b''.
Proof.
  intros Htasks Hfresh [Hu Hn Hs Hc Hd Hw] Hseen Ho Hrun ->.
  apply owned_task_ok in Ho as (Hi & Hacc & _).
  assert (Hr : record_ok task) by (eapply Forall_lookup; [apply (tk_records _ Htasks)|done]).
  destruct (staged_task_step _ _ _ _ _ _ _ Hrun Hacc Hr) as [Hev Hok].
  assert (Hid : t_id task' = commit_task_id commit).
  { rewrite (evolves_id _ _ Hev). unfold accepted_by, has_id in Hacc.
    apply andb_prop in Hacc as [Hacc _]. by apply N.eqb_eq in Hacc. }
  apply staged_task_ok in Hrun as (conf & o & p & t1 & _ & Hres & _ & _ & _ & Hu' & Hw' & Hq).
  match goal with |- batch_ok _ _ (push_update _ ?x) => set (b1 := x) end.
  assert (Hb1 : bt_updates b1 = bt_updates b ∧ bt_children b1 = bt_children b'
    ∧ bt_deliveries b1 = bt_deliveries b'
    ∧ Forall (λ w, ∃ u, u ∈ bt_updates b ++ [(i, task')] ∧ t_id u.2 = w.1
                        ∧ t_status u.2 = Suspended) (bt_waits b1)).
  { assert (Hold : Forall (λ w, ∃ u, u ∈ bt_updates b ++ [(i, task')] ∧ t_id u.2 = w.1
      ∧ t_status u.2 = Suspended) (bt_waits b)).
    { eapply Forall_impl; [exact Hw|]. intros w (u & Hin & ?). exists u.
      split; [apply elem_of_app; by left|done]. }
    unfold b1. destruct (is_all (commit_outcome commit)); simpl; rewrite ?Hu', ?Hw'; [|done].
    case_bool_decide as Hsus; simpl; rewrite ?Hu', ?Hw'; [|done]. split_and!; try done.
    apply Forall_app. split; [done|]. constructor; [|constructor].
    exists (i, task'). split; [apply elem_of_app; right; by left|done]. }
  destruct Hb1 as (Eu & Ec & Ed & Ew). clearbody b1. split; simpl; rewrite ?Eu, ?Ec, ?Ed.
  - apply Forall_app. split; [done|]. constructor; [eauto|constructor].
  - rewrite fmap_app. apply NoDup_app. split; [done|]. split; [|apply NoDup_singleton].
    intros j Hj Hj'. apply list_elem_of_singleton in Hj'. simpl in Hj'. subst j.
    apply list_elem_of_fmap in Hj as ([j u] & Hji & Hin). simpl in Hji. subst j.
    rewrite Forall_forall in Hu. destruct (Hu _ Hin) as (r & Hr' & He & _). simpl in *.
    apply Hseen. rewrite <- Hid, (evolves_id _ _ Hev). simplify_eq.
    rewrite <- (evolves_id _ _ He). by apply (Hs (i, u)).
  - intros u [Hin|Hin]%elem_of_app; [right; by apply Hs|].
    apply list_elem_of_singleton in Hin as ->. simpl. rewrite Hid. by left.
  - by eapply resolved_ok.
  - by eapply queue_delivery_ok.
  - exact Ew.
Qed.

Lemma stage_outcomes_ok state commits now batch :
  tasks_ok (ms_tasks state) → Forall commit_fresh commits →
  stage_outcomes state commits now = Ok batch → ∃ seen, batch_ok state seen batch.
Proof.
  intros Hok Hf. apply stage_outcomes_triple; [by apply empty_batch_ok|].
  apply stage_commits_ind.
  - intros id seen b []. split; try done. intros u Hu. right. auto.
  - intros commit i task task' seen b b' b'' Hin Hb Hs _ Ho Hrun ->.
    eapply batch_ok_step; eauto. rewrite Forall_forall in Hf. by apply Hf.
Qed.
End Commits.

(** ** Finalizing keeps the table well formed

    Every finalizer of a turn keeps the rows well formed and evolving from
    the rows the turn began with ([rows_ok]). *)

Record rows_ok (base : list TaskRecord) (s : MemoryState) : Prop := {
  rw_rows : rows_evolve base (ms_tasks s);
  rw_records : Forall record_ok (ms_tasks s);
}.

Lemma rows_ok_tasks base s s' : ms_tasks s' = ms_tasks s → rows_ok base s → rows_ok base s'.
Proof. intros He []. split; by rewrite He. Qed.

(** Rewriting the first row a predicate selects, seen from the base. *)
Lemma update_first_evolve base rows p f :
  rows_evolve base rows → Forall record_ok rows →
  (∀ b r, b ∈ base → r ∈ rows → evolves b r → record_ok r → p r = true →
     evolves b (f r) ∧ record_ok (f r)) →
  rows_evolve base (update_first p f rows) ∧ Forall record_ok (update_first p f rows).
Proof.
  unfold rows_evolve. intros Hrows.
  induction Hrows as [|b r base' rows Hbr Hrows IH]; intros Hrec Hf; simpl; [by split|].
  apply Forall_cons in Hrec as [Hr Hrec]. destruct (p r) eqn:Hp.
  - destruct (Hf b r) as [He Hok]; [by left|by left|done..|]. split; by constructor.
  - destruct IH as [IH1 IH2]; [done| |split; by constructor].
    intros b' r' Hb' Hr'. apply Hf; by right.
Qed.

Lemma rows_ok_update base s p f :
  rows_ok base s →
  (∀ b r, b ∈ base → r ∈ ms_tasks s → evolves b r → record_ok r → p r = true →
     evolves b (f r) ∧ record_ok (f r)) →
  rows_ok base (set_tasks (update_first p f (ms_tasks s)) s).
Proof.
  intros [Hrows Hrec] Hf. destruct (update_first_evolve _ _ p f Hrows Hrec Hf). by split.
Qed.

Section Finalizers.
Context `{X : Externals, L : !ExternalLaws X}.

(** ** The input of a join *)

Lemma append_members_fits tasks members buffer buffer' :
  str_len buffer + 2 ≤ RESULT_LIMIT → append_members tasks members buffer = Ok buffer' →
  str_len buffer' + 2 ≤ RESULT_LIMIT.
Proof.
  revert buffer. induction members as [|id members IH]; intros buffer Hb; simpl.
  { by intros [= <-]. }
  intros H. apply result_bind_ok in H as (b1 & H1 & H).
  apply append_result_ok in H1 as (v & _ & _ & _ & _ & Hf). by eapply IH.
Qed.

Lemma aggregate_fits tasks parent wait : str_len (aggregate tasks parent wait) ≤ RESULT_LIMIT.
Proof.
  unfold aggregate, group_failure. case_match; [apply failure_len|].
  destruct (append_members _ _ _) as [b|e] eqn:Ha; [|apply failure_len].
  apply append_members_fits in Ha; [|by vm_compute].
  rewrite str_len_app. change (str_len (jtext "]}")) with 2. lia.
Qed.

(** Writing a bounded resume input to a row that was live. *)
Lemma evolves_resume b r v :
  evolves b r → record_ok r → is_terminal (t_status b) = false → str_len v ≤ RESULT_LIMIT →
  evolves b (set_resume_input (Some v) r) ∧ record_ok (set_resume_input (Some v) r).
Proof.
  intros [Hi Hl _] [] Hb Hv. split.
  - split; [exact Hi|exact Hl|congruence].
  - split; simpl; intros; simplify_eq; eauto.
Qed.

Lemma materialize_task_ok base snapshot s snapshot' s' :
  materialize_task snapshot s = (snapshot', s') → live_in base snapshot → rows_ok base s →
  rows_ok base s'.
Proof.
  unfold materialize_task. intros H Hlive Hok.
  destruct (ms_waits s !! t_id snapshot) as [wait|]; [|by simplify_eq]. cbv zeta in H.
  destruct (find_task _ _); simplify_eq; [|by eapply rows_ok_tasks; [|exact Hok]].
  eapply (rows_ok_update base s) in Hok; [eapply rows_ok_tasks, Hok; done|].
  intros b r Hb _ He Hr Hp. apply evolves_resume; [done|done| |apply aggregate_fits].
  apply Hlive; [done|]. unfold has_id in Hp. apply N.eqb_eq in Hp.
  by rewrite <- Hp, (evolves_id _ _ He).
Qed.

Lemma map_state_ind {S A B} (P : S → Prop) (f : A → S → B * S) l s l' s' :
  map_state f l s = (l', s') → P s → (∀ a s b s', a ∈ l → f a s = (b, s') → P s → P s') → P s'.
Proof.
  revert s l'. induction l as [|a l IH]; intros s l' H HP Hf; simpl in H; [by simplify_eq|].
  destruct (f a s) as [b t] eqn:Ha. destruct (map_state f l t) as [bs t'] eqn:Hm. simplify_eq.
  eapply IH; [exact Hm|eapply Hf; [by left|done..]|]. intros. eapply Hf; [by right|done..].
Qed.

Lemma materialize_ok base poll s poll' s' :
  materialize poll s = (poll', s') → Forall (poll_live base) (tp_lanes poll) → rows_ok base s →
  rows_ok base s'.
Proof.
  unfold materialize. intros H Hlive Hok. destruct (map_state _ _ _) as [l t] eqn:Hm.
  simplify_eq. eapply (map_state_ind (rows_ok base)); [exact Hm|done|].
  intros lane s0 lane' s1 Hin Hl Hok0. cbv beta in Hl.
  destruct (map_state materialize_task (lp_tasks lane) s0) as [l0 t0] eqn:Ht.
  simplify_eq. eapply (map_state_ind (rows_ok base)); [exact Ht|done|].
  intros snap s2 snap' s3 Hsnap Hms. eapply materialize_task_ok; [exact Hms|].
  rewrite Forall_forall in Hlive. specialize (Hlive lane Hin). unfold poll_live in Hlive.
  rewrite Forall_forall in Hlive. by apply Hlive.
Qed.

(** ** Wait sets *)

(** A parent whose wait set is installed is suspended, or already woken. *)
Definition dormant (r : TaskRecord) : Prop := t_status r = Suspended ∨ t_status r = Pending.
Definition waits_dormant (waits : list (TaskId * TaskWait)) (s : MemoryState) : Prop :=
  ∀ w r, w ∈ waits → r ∈ ms_tasks s → t_id r = w.1 → dormant r.

(** Materializing writes resume inputs only. *)
Lemma materialize_task_dormant waits snapshot s snapshot' s' :
  materialize_task snapshot s = (snapshot', s') → waits_dormant waits s → waits_dormant waits s'.
Proof.
  unfold materialize_task. intros H Hd. destruct (ms_waits s !! t_id snapshot); [|by simplify_eq].
  cbv zeta in H. destruct (find_task _ _); simplify_eq; [|exact Hd].
  intros w r Hw Hr Hid. simpl in Hr. apply list_elem_of_lookup in Hr as [i Hi].
  apply update_first_fmap_lookup in Hi as [Hi|(y & Hy & _ & ->)].
  - apply list_elem_of_lookup_2 in Hi. by eapply Hd.
  - apply list_elem_of_lookup_2 in Hy. by apply (Hd w y).
Qed.
Lemma materialize_waits waits poll s poll' s' :
  materialize poll s = (poll', s') → waits_dormant waits s → waits_dormant waits s'.
Proof.
  unfold materialize. intros H Hd. destruct (map_state _ _ _) as [l t] eqn:Hm.
  simplify_eq. eapply (map_state_ind (waits_dormant waits)); [exact Hm|done|].
  intros lane s0 lane' s1 _ Hl Hd0. cbv beta in Hl.
  destruct (map_state materialize_task (lp_tasks lane) s0) as [l0 t0] eqn:Ht.
  simplify_eq. eapply (map_state_ind (waits_dormant waits)); [exact Ht|done|].
  intros snap s2 snap' s3 _ Hms. by eapply materialize_task_dormant.
Qed.

Lemma evolves_wake b r f :
  evolves b r → record_ok r → dormant r → t_completed_at (f r) = t_completed_at r →
  same_identity r (f r) → t_status (f r) = Pending → t_cancelled (f r) = t_cancelled r →
  t_attempts (f r) = t_attempts r → evolves b (f r).
Proof.
  intros [Hi Hl Ht] Hr Hd _ Hid Hs Hc Ha.
  assert (Hact : is_terminal (t_status r) = false) by (by destruct Hd as [-> | ->]).
  assert (Hcan := active_not_cancelled _ Hr Hact).
  split.
  - by etrans.
  - etrans; [exact Hl|]. unfold phase. rewrite Hs, Hc, Ha, Hcan.
    destruct Hd as [-> | ->]; [apply rtc_once, life_wake|reflexivity].
  - intros Hb. specialize (Ht Hb). congruence.
Qed.

Lemma install_wait_ok base now w wake s wake' s' waits :
  install_wait now (wake, s) w = (wake', s') → rows_ok base s → w ∈ waits →
  waits_dormant waits s → rows_ok base s' ∧ waits_dormant waits s'.
Proof.
  unfold install_wait. destruct w as [id wait]. intros H Hok Hin Hd.
  assert (Hsame : ∀ ws, rows_ok base (set_waits ws s) ∧ waits_dormant waits (set_waits ws s))
    by (intros ws; split; [by eapply rows_ok_tasks; [|exact Hok]|exact Hd]).
  destruct (tw_children wait); [|simplify_eq; apply Hsame].
  destruct (find_task id (ms_tasks s)); simplify_eq; [|apply Hsame].
  set (f := λ t, set_ready_at (Some now) (set_status Pending t)).
  assert (Hu : rows_ok base (set_tasks (update_first (has_id id) f (ms_tasks s)) s)).
  { apply rows_ok_update; [done|]. intros b r _ Hr He Hrok Hp.
    assert (Hdr : dormant r) by (eapply (Hd (id, wait)); [done..|]; by apply N.eqb_eq).
    split.
    - by apply (evolves_wake b r f).
    - assert (Hact : is_terminal (t_status r) = false) by (by destruct Hdr as [-> | ->]).
      assert (Hcan := active_not_cancelled _ Hrok Hact). destruct Hrok as [Ho _ Hc _ _ ? ? ? _].
      unfold f. split; simpl; intros; try done; eauto; [|congruence].
      unfold dormant in Hdr. rewrite Ho in Hdr by done. by destruct Hdr. }
  split; [by eapply rows_ok_tasks; [|exact Hu]|].
  intros w r Hw Hr Hid. simpl in Hr. apply list_elem_of_lookup in Hr as [i Hi].
  apply update_first_fmap_lookup in Hi as [Hi|(y & Hy & _ & ->)].
  - apply list_elem_of_lookup_2 in Hi. by eapply Hd.
  - by right.
Qed.

Lemma install_ok base waits now s wake s' :
  install waits now s = (wake, s') → rows_ok base s → waits_dormant waits s → rows_ok base s'.
Proof.
  unfold install. intros H Hok Hd.
  assert (Hgen : ∀ l acc, l ⊆ waits → rows_ok base acc.2 → waits_dormant waits acc.2 →
            rows_ok base (fold_left (install_wait now) l acc).2).
  { induction l as [|w l IH]; intros [wk t] Hsub Hok0 Hd0; simpl; [done|].
    destruct (install_wait now (wk, t) w) as [wk' t'] eqn:Hw.
    eapply (install_wait_ok base now w wk t wk' t' waits) in Hw as [? ?];
      [|done|by apply Hsub; left|done].
    apply IH; [|done..]. intros x Hx. apply Hsub. by right. }
  specialize (Hgen waits ([], s)). rewrite H in Hgen. by apply Hgen.
Qed.

(** ** Deliveries *)

Lemma group_insert_fits id result l :
  str_len result ≤ RESULT_LIMIT → Forall (λ g, str_len g.2.2 ≤ RESULT_LIMIT) l →
  Forall (λ g : TaskId * (Z * string), str_len g.2.2 ≤ RESULT_LIMIT) (group_insert id result l).
Proof.
  intros Hr. induction 1 as [|[id' [c first]] l Hg Hl IH]; simpl; [by repeat constructor|].
  repeat case_match; by repeat constructor.
Qed.
Lemma group_deliveries_fits deliveries :
  Forall fits_delivery deliveries →
  Forall (λ g : TaskId * (Z * string), str_len g.2.2 ≤ RESULT_LIMIT) (group_deliveries deliveries).
Proof.
  unfold group_deliveries. intros Hd.
  assert (H : ∀ acc, Forall (λ g : TaskId * (Z * string), str_len g.2.2 ≤ RESULT_LIMIT) acc →
    Forall (λ g : TaskId * (Z * string), str_len g.2.2 ≤ RESULT_LIMIT)
      (fold_left (λ grouped d, group_insert d.1 d.2 grouped) deliveries acc)).
  { induction Hd as [|d ds Hd1 Hds IH]; intros acc Hacc; simpl; [done|].
    apply IH. by apply group_insert_fits. }
  by apply H.
Qed.

Lemma deliver_group_ok base now s names group :
  str_len group.2.2 ≤ RESULT_LIMIT → rows_ok base s →
  rows_ok base (deliver_group now (s, names) group).1.
Proof.
  intros Hfit Hok. unfold deliver_group. destruct group as [id [count result]]. simpl in Hfit.
  destruct (List.find _ _); [|done].
  assert (Hresume : ∀ f s0, ms_tasks s0 = ms_tasks s → rows_ok base s0 →
    (∀ r, f r = r ∨ ∃ v, f r = set_resume_input (Some v) r ∧ str_len v ≤ RESULT_LIMIT) →
    rows_ok base (set_tasks (update_first (awaits_delivery id) (λ t, wake_parent now (f t))
                               (ms_tasks s0)) s0)).
  { intros f s0 _ Hok0 Hf. apply rows_ok_update; [done|].
    intros b r _ _ He Hrok Hp. unfold awaits_delivery in Hp.
    apply andb_prop in Hp as [[_ Hcan]%andb_prop Hs]. apply negb_true_iff in Hcan.
    apply bool_decide_eq_true in Hs. split.
    - apply (evolves_wake b r (λ t, wake_parent now (f t))); try done; [by left|..];
        by destruct (Hf r) as [-> |(v & -> & _)].
    - destruct Hrok as [Ho _ Hc _ _ ? ? ? _]. specialize (Hc ltac:(by rewrite Hs)).
      assert (Hno : t_node_id r = None) by (destruct (t_node_id r); [|done]; by rewrite Ho in Hs).
      destruct (Hf r) as [-> |(v & -> & Hv)]; split; simpl; intros; try done; simplify_eq; eauto;
        congruence. }
  assert (Hfail : ∀ m r, set_resume_input (Some (group_failure id m)) r = r ∨
    ∃ v, set_resume_input (Some (group_failure id m)) r = set_resume_input (Some v) r
         ∧ str_len v ≤ RESULT_LIMIT) by (intros; right; eexists; split; [done|apply failure_len]).
  assert (Hset : ∀ ws, rows_ok base (set_waits ws s)) by (intros; by eapply rows_ok_tasks; [|exact Hok]).
  destruct (ms_waits s !! id) as [wait|].
  - destruct (i32_checked_sub _ _) as [remaining|]; [|by apply Hresume].
    destruct (remaining <? 0); [by apply Hresume|].
    destruct (0 <? remaining); simpl; [apply Hset|].
    apply (Hresume (λ t, t) (set_waits _ s)); [done|apply Hset|by left].
  - apply Hresume; [done|done|]. eauto.
Qed.

Lemma deliver_groups_ok base now groups s names :
  Forall (λ g : TaskId * (Z * string), str_len g.2.2 ≤ RESULT_LIMIT) groups → rows_ok base s →
  rows_ok base (fold_left (deliver_group now) groups (s, names)).1.
Proof.
  intros Hg. revert s names. induction Hg as [|g groups Hg _ IH]; intros s names Hok; simpl; [done|].
  destruct (deliver_group now (s, names) g) as [s' names'] eqn:Hd.
  apply IH. change s' with (s', names').1. rewrite <- Hd. by apply deliver_group_ok.
Qed.

Lemma finalize_workflow_ok base children deliveries now s lanes s' :
  finalize_workflow children deliveries now s = (lanes, s') →
  rows_ok base s → Forall record_ok children → Forall fits_delivery deliveries →
  rows_ok (base ++ children) s'.
Proof.
  unfold finalize_workflow. intros H Hok Hc Hd.
  destruct (fold_left _ _ _) as [t names] eqn:Hf. injection H as _ <-.
  pose proof (deliver_groups_ok (base ++ children) now (group_deliveries deliveries)
    (set_tasks (ms_tasks s ++ children) s) (t_lane <$> children)) as Hdel.
  rewrite Hf in Hdel. apply Hdel; [by apply group_deliveries_fits|]. destruct Hok. split; simpl.
  - by apply Forall2_app.
  - by apply Forall_app.
Qed.

Lemma clear_terminal_tasks touched s : ms_tasks (clear_terminal touched s) = ms_tasks s.
Proof.
  unfold clear_terminal. revert s. induction touched as [|t l IH]; intros s; simpl; [done|].
  rewrite IH. by case_match.
Qed.

Lemma reconcile_poll_tasks lanes phases now poll s poll' s' :
  reconcile_poll lanes phases now poll s = (poll', s') → ms_tasks s' = ms_tasks s.
Proof.
  unfold reconcile_poll. destruct (map_state _ _ _) as [l t] eqn:Hm. intros [= _ <-].
  eapply (map_state_ind (λ t, ms_tasks t = ms_tasks s)); [exact Hm|done|].
  intros lane s0 lane' s1 _ H <-. unfold reconcile_lane in H.
  repeat case_match; by simplify_eq.
Qed.
End Finalizers.
