(* ===== verification/Turns.v ===== *)
(** * A successful turn keeps the table well formed

    The rows of the table before the turn, followed by the children it
    added, evolved into the rows after it ([grown]). *)
From S2P Require Import Prelude Externals Failure Config Rate Models Transitions Lifecycle.
From S2P Require Import MemoryState LaneLock Workflow Claims Atomic Evolution ClaimFacts.
From S2P Require Import Commits.
#[local] Open Scope Z_scope.

(** What an operation made of a table: rows may be added, and every row evolved. *)
Definition grown (base tasks : list TaskRecord) : Prop :=
  ∃ new, tasks_ok (base ++ new) ∧ rows_evolve (base ++ new) tasks ∧ Forall record_ok tasks.

Lemma grown_ok base tasks : grown base tasks → tasks_ok tasks.
Proof. intros (new & Hok & Hev & Hr). by eapply rows_evolve_ok. Qed.

Lemma grown_refl tasks : tasks_ok tasks → grown tasks tasks.
Proof.
  intros Hok. exists []. rewrite app_nil_r. split_and!; [done|reflexivity|apply Hok].
Qed.

Lemma grown_rows base tasks : tasks_ok base → rows_evolve base tasks → Forall record_ok tasks →
  grown base tasks.
Proof. intros Hok Hev Hr. exists []. by rewrite app_nil_r. Qed.

Lemma grown_app base new : tasks_ok (base ++ new) → grown base (base ++ new).
Proof. intros Hok. exists new. split_and!; [done|reflexivity|apply Hok]. Qed.

(** A stored row is still there afterwards, evolved. *)
Lemma grown_lookup base tasks i r :
  grown base tasks → base !! i = Some r → ∃ r', tasks !! i = Some r' ∧ evolves r r'.
Proof.
  intros (new & _ & Hev & _) Hi. apply (Forall2_lookup_l _ _ _ i r Hev).
  by apply lookup_app_l_Some.
Qed.

Lemma rows_evolve_put base rows i r r' :
  rows_evolve base rows → base !! i = Some r → evolves r r' → rows_evolve base (<[i:=r']> rows).
Proof.
  intros Hrows Hi He. apply Forall2_same_length_lookup.
  split; [rewrite length_insert; by eapply Forall2_length|].
  intros j x y Hx Hy. destruct (decide (i = j)) as [<-|Hij].
  - rewrite list_lookup_insert_eq in Hy
      by (rewrite <- (Forall2_length _ _ _ Hrows); by eapply lookup_lt_Some).
    by simplify_eq.
  - rewrite list_lookup_insert_ne in Hy by done. by eapply (Forall2_lookup_lr _ _ _ _ _ _ Hrows).
Qed.

Section Turns.
Context `{X : Externals, L : !ExternalLaws X}.

Lemma apply_update_run u t v t' :
  apply_update u t = (Ok v, t') →
  ∃ r, tn_tasks t !! u.1 = Some r ∧ t' = put_tasks (<[u.1:=u.2]> (tn_tasks t)) (push_undo r t).
Proof.
  unfold apply_update. intros H. apply bindM_ok in H as (r & t1 & Hg & H).
  apply at_task_ok in Hg as (x & y & Hx & Hg & ->). unfold getM in Hg. simplify_eq.
  rewrite list_insert_id in H by done.
  replace (put_tasks (tn_tasks t) t) with t in H by (by destruct t as [[]]).
  rewrite bindM_modify in H. apply at_task_ok in H as (x & z & Hz & Hm & ->).
  unfold modifyM in Hm. simplify_eq. eauto.
Qed.

Lemma apply_updates_run updates t v t' :
  for_eachM updates apply_update t = (Ok v, t') → NoDup updates.*1 →
  (∀ u, u ∈ updates → tn_tasks t' !! u.1 = Some u.2)
  ∧ (∀ j, j ∉ updates.*1 → tn_tasks t' !! j = tn_tasks t !! j)
  ∧ tn_deliveries t' = tn_deliveries t.
Proof.
  revert t. induction updates as [|u updates IH]; intros t H Hn; simpl in H.
  { unfold retM in H. simplify_eq. split_and!; [|done|done]. by intros u ?%elem_of_nil. }
  apply NoDup_cons in Hn as [Hu Hn]. apply bindM_ok in H as ([] & t1 & H1 & H).
  apply apply_update_run in H1 as (r & Hr & ->). apply IH in H as (Hin & Hout & Hd); [|done].
  change (tn_tasks (put_tasks ?l ?u)) with l in *. split_and!; [| |exact Hd].
  - intros w [->|Hw]%elem_of_cons; [|by apply Hin]. rewrite Hout by done.
    apply list_lookup_insert_eq. by eapply lookup_lt_Some.
  - intros j [Hj1 Hj2]%not_elem_of_cons. rewrite Hout by done. by apply list_lookup_insert_ne.
Qed.

Lemma apply_updates_ok base updates t v t' :
  for_eachM updates apply_update t = (Ok v, t') →
  Forall (λ u, ∃ r, base !! u.1 = Some r ∧ evolves r u.2 ∧ record_ok u.2) updates →
  turn_ok base t → turn_ok base t'.
Proof.
  revert t. induction updates as [|u updates IH]; intros t H Hu Hok; simpl in H.
  { unfold retM in H. by simplify_eq. }
  apply Forall_cons in Hu as [(b & Hb & He & Hr) Hu].
  apply bindM_ok in H as ([] & t1 & H1 & H). apply apply_update_run in H1 as (r & _ & ->).
  eapply IH; [exact H|done|]. destruct Hok as [Hrows Hrec Hd]. split; [| |exact Hd].
  - by eapply rows_evolve_put.
  - by apply Forall_insert.
Qed.

(** What the fallible part of a turn leaves for the finalizers. *)
Record body_ok (base : list TaskRecord) (batch : Batch) (poll : TaskPoll) (t : Turn) : Prop := {
  by_turn : turn_ok base t;
  by_children : tasks_ok (base ++ bt_children batch);
  by_polls : Forall (poll_live base) (tp_lanes poll);
  by_waits : waits_dormant (bt_waits batch) (tn_state t);
}.

Lemma turn_body_ok runner claims commits lease now s batch phases poll t :
  turn_body runner claims commits lease now (turn_of s) = (Ok (batch, phases, poll), t) →
  tasks_ok (ms_tasks (st_state s)) → Forall commit_fresh commits → commits = [] ∨ runner = None →
  body_ok (ms_tasks (st_state s)) batch poll t.
Proof.
  intros H Hok Hf Hcase. unfold turn_body in H. set (base := ms_tasks (st_state s)) in *.
  apply bindM_ok in H as (batch0 & t1 & Hc & H). unfold commit_outcomes_state in Hc.
  rewrite bindM_gets in Hc. apply bindM_liftR_ok in Hc as (batch1 & Hs & Hc).
  apply bindM_ok in Hc as ([] & t2 & Hu & Hc). unfold retM in Hc. simplify_eq.
  assert (Hstage := Hs). simpl in Hs.
  apply stage_outcomes_ok in Hs as [seen [Hup Hdis _ Hch Hdel Hw]]; [|done..].
  assert (Hok1 : turn_ok base t1).
  { eapply apply_updates_ok; [exact Hu|done|]. split; simpl; [reflexivity|apply Hok|constructor]. }
  apply apply_updates_run in Hu as (Hin & _ & _); [|done].
  rewrite bindM_modify, bindM_gets in H. set (t2 := put_turn_deliveries _ t1) in *.
  assert (Hok2 : turn_ok base t2) by (by destruct Hok1).
  assert (Hw1 : waits_dormant (bt_waits batch0) (tn_state t1)).
  { intros w r Hwin Hr Hid. rewrite Forall_forall in Hw. destruct (Hw w Hwin) as (u & Huin & Huid & Hus).
    apply list_elem_of_lookup in Hr as [j Hj]. change (ms_tasks (tn_state t1)) with (tn_tasks t1) in Hj.
    assert (j = u.1) as ->.
    { eapply (NoDup_lookup (ids (tn_tasks t1))); [| |].
      - rewrite (rows_evolve_ids _ _ (to_rows _ _ Hok1)). apply (tk_nodup _ Hok).
      - unfold ids. by rewrite list_lookup_fmap, Hj.
      - unfold ids. rewrite list_lookup_fmap, (Hin u Huin). simpl. congruence. }
    rewrite (Hin u Huin) in Hj. simplify_eq. by left. }
  apply bindM_ok in H as (poll' & t3 & Hp & H). unfold retM in H. simplify_eq.
  destruct Hcase as [-> | ->].
  - unfold stage_outcomes in Hstage. simpl in Hstage. simplify_eq.
    destruct runner as [runner|].
    + eapply claim_tasks_triple in Hp as [Hok3 Hpl]; [|apply (tk_nodup _ Hok)|exact Hok2].
      split; [done..|]. by intros w r ?%elem_of_nil.
    + unfold retM in Hp. simplify_eq. by split.
  - unfold retM in Hp. simplify_eq. by split.
Qed.

Lemma turn_finish_ok base batch phases poll commits now t res t' :
  turn_finish batch phases poll commits now t = (res, t') → body_ok base batch poll t →
  grown base (tn_tasks t').
Proof.
  intros H [[Hrows Hrec Hdel] Hch Hp Hw]. unfold turn_finish in H.
  destruct (materialize poll (tn_state t)) as [poll1 s1] eqn:Hm.
  destruct (install (bt_waits batch) now s1) as [wake s2] eqn:Hi.
  destruct (finalize_workflow _ _ now s2) as [more s3] eqn:Hf.
  destruct (reconcile_poll _ _ _ _ _) as [poll2 s4] eqn:Hr. injection H as _ <-.
  assert (Hok0 : rows_ok base (tn_state t)) by (by split).
  assert (Hok1 : rows_ok base s1) by (by eapply materialize_ok).
  assert (Hw1 : waits_dormant (bt_waits batch) s1) by (by eapply materialize_waits).
  assert (Hok2 : rows_ok base s2) by (by eapply install_ok).
  eapply finalize_workflow_ok in Hf; [|exact Hok2| |exact Hdel].
  2: { apply tk_records, Forall_app in Hch. by destruct Hch. }
  apply reconcile_poll_tasks in Hr. rewrite clear_terminal_tasks in Hr.
  destruct Hf as [Hrows3 Hrec3]. exists (bt_children batch).
  unfold tn_tasks. simpl. rewrite Hr. by split_and!.
Qed.

Lemma atomic_operation_grown runner claims commits batch lease now s res s' :
  atomic_operation runner claims commits batch lease now s = (Ok res, s') →
  tasks_ok (ms_tasks (st_state s)) → Forall commit_fresh commits → commits = [] ∨ runner = None →
  grown (ms_tasks (st_state s)) (ms_tasks (st_state s')).
Proof.
  unfold atomic_operation. destruct (validate_turn _ _ _); [|done].
  destruct (run_turn _ _ _ _ _ _) as [[res'|e] t] eqn:Hrun; [|done].
  intros [= -> <-] Hok Hf Hcase. unfold run_turn in Hrun.
  apply bindM_ok in Hrun as ([[b p] q] & t1 & Hb & Hfin).
  eapply turn_body_ok in Hb; [|done..].
  destruct (turn_finish b p q commits now t1) as [r t2] eqn:Ht. simplify_eq.
  by eapply turn_finish_ok.
Qed.
End Turns.

(** ** A failed turn changes nothing

    The undo log of a turn always replays to the rows the turn started from
    ([logged]), whatever the turn did before it failed: every body first logs
    the row it is about to write. *)

(** ** Replaying an undo log *)

Lemma restore_ids tasks x : ids (restore_task tasks x) = ids tasks.
Proof.
  unfold restore_task. induction tasks as [|y l IH]; simpl; [done|].
  unfold has_id at 1. destruct (t_id y =? t_id x)%N eqn:He; simpl.
  - apply N.eqb_eq in He. by rewrite He.
  - by rewrite IH.
Qed.

Lemma restore_at tasks i old x :
  NoDup (ids tasks) → tasks !! i = Some old → t_id old = t_id x →
  restore_task tasks x = <[i:=x]> tasks.
Proof.
  unfold restore_task. revert i. induction tasks as [|y l IH]; intros i Hn Hi He; [done|].
  simpl. unfold has_id at 1. apply NoDup_cons in Hn as [Hy Hn].
  destruct i as [|i]; simpl in *.
  - injection Hi as ->. by rewrite He, N.eqb_refl.
  - rewrite (proj2 (N.eqb_neq _ _)); [by rewrite (IH i)|].
    intros Heq. apply Hy. rewrite Heq, <- He. unfold ids.
    apply list_elem_of_fmap_2. by eapply list_elem_of_lookup_2.
Qed.

Lemma restore_ne tasks i new old x :
  tasks !! i = Some old → t_id new = t_id old → t_id x ≠ t_id old →
  restore_task (<[i:=new]> tasks) x = <[i:=new]> (restore_task tasks x)
  ∧ restore_task tasks x !! i = Some old.
Proof.
  unfold restore_task. revert i. induction tasks as [|y l IH]; intros i Hi Hn Hx; [done|].
  destruct i as [|i]; simpl in *.
  - injection Hi as ->. unfold has_id. rewrite Hn.
    by rewrite (proj2 (N.eqb_neq (t_id old) (t_id x))) by congruence.
  - destruct (IH i Hi Hn Hx) as [IH1 IH2]. unfold has_id at 1 3 5.
    destruct (t_id y =? t_id x)%N; simpl; [done|]. by rewrite IH1.
Qed.

Lemma roll_back_snoc undo x tasks :
  roll_back (undo ++ [x]) tasks = roll_back undo (restore_task tasks x).
Proof. unfold roll_back. by rewrite rev_unit. Qed.

Lemma roll_back_app undo more tasks :
  roll_back (undo ++ more) tasks = roll_back undo (roll_back more tasks).
Proof. unfold roll_back. by rewrite rev_app_distr, fold_left_app. Qed.

(** A logged row may be written again. *)
Lemma roll_back_insert undo tasks i old new :
  NoDup (ids tasks) → tasks !! i = Some old → t_id new = t_id old → t_id old ∈ ids undo →
  roll_back undo (<[i:=new]> tasks) = roll_back undo tasks.
Proof.
  revert tasks. induction undo as [|x undo IH] using rev_ind; intros tasks Hn Hi He Hin.
  { by apply elem_of_nil in Hin. }
  rewrite !roll_back_snoc. destruct (decide (t_id x = t_id old)) as [Hx|Hx].
  - rewrite (restore_at tasks i old x) by congruence.
    rewrite (restore_at (<[i:=new]> tasks) i new x).
    + by rewrite list_insert_insert_eq.
    + unfold ids. rewrite list_fmap_insert, He, list_insert_id; [done|].
      by rewrite list_lookup_fmap, Hi.
    + apply list_lookup_insert_eq. by eapply lookup_lt_Some.
    + congruence.
  - destruct (restore_ne tasks i new old x Hi He Hx) as [-> Hr].
    apply IH; [by rewrite restore_ids|done|done|].
    rewrite ids_app in Hin. apply elem_of_app in Hin as [?|Hin]; [done|].
    apply list_elem_of_singleton in Hin. congruence.
Qed.

Lemma roll_back_cons undo x tasks :
  t_id x ∉ ids undo → roll_back undo (x :: tasks) = x :: roll_back undo tasks.
Proof.
  revert tasks. induction undo as [|y undo IH] using rev_ind; intros tasks Hx; [done|].
  rewrite !roll_back_snoc. rewrite ids_app in Hx. simpl in Hx.
  assert (Hne : (t_id x =? t_id y)%N = false).
  { apply N.eqb_neq. intros He. apply Hx, elem_of_app. right. rewrite He. by left. }
  unfold restore_task at 1. simpl. unfold has_id at 1. rewrite Hne. apply IH.
  intros Hin. apply Hx, elem_of_app. auto.
Qed.

(** Rows rewritten in one pass are restored by logging exactly those rewritten. *)
Lemma roll_back_fmap f p tasks :
  NoDup (ids tasks) → (∀ r, t_id (f r) = t_id r) → (∀ r, p r = false → f r = r) →
  roll_back (List.filter p tasks) (f <$> tasks) = tasks.
Proof.
  intros Hn Hid Hf. induction tasks as [|x l IH]; [done|].
  apply NoDup_cons in Hn as [Hx Hn]. specialize (IH Hn).
  assert (Hni : t_id x ∉ ids (List.filter p l)).
  { intros Hin. apply Hx. unfold ids in *. apply list_elem_of_fmap in Hin as (y & -> & Hy).
    apply list_elem_of_fmap_2. apply list_elem_of_In in Hy.
    apply filter_In in Hy as [Hy _]. by apply list_elem_of_In. }
  rewrite fmap_cons. cbn [List.filter]. destruct (p x) eqn:Hp.
  - change (x :: List.filter p l) with ([x] ++ List.filter p l).
    rewrite roll_back_app, roll_back_cons by (by rewrite Hid). rewrite IH.
    unfold roll_back. simpl. unfold restore_task. simpl. unfold has_id at 1.
    by rewrite Hid, N.eqb_refl.
  - rewrite (Hf x Hp), roll_back_cons by done. by rewrite IH.
Qed.

(** ** Turns that can be undone *)

Definition logged (base : list TaskRecord) (t : Turn) : Prop :=
  NoDup (ids base) ∧ ids (tn_tasks t) = ids base ∧ roll_back (tn_undo t) (tn_tasks t) = base.

(** Everything the failure path does not restore is untouched, and the log stays complete. *)
Record undoable (t t' : Turn) : Prop := {
  un_nodes : ms_nodes (tn_state t') = ms_nodes (tn_state t);
  un_conf : ms_conf (tn_state t') = ms_conf (tn_state t);
  un_schedules : ms_schedules (tn_state t') = ms_schedules (tn_state t);
  un_waits : ms_waits (tn_state t') = ms_waits (tn_state t);
  un_ids : ids (tn_tasks t') = ids (tn_tasks t);
  un_log : ∀ base, logged base t → logged base t';
}.

#[export] Instance undoable_preorder : PreOrder undoable.
Proof.
  split; [by intros t; split|]. intros t1 t2 t3 [] []. split; try congruence; eauto.
Qed.

Definition index_logged (i : nat) (t : Turn) : Prop :=
  ∃ task, tn_tasks t !! i = Some task ∧ t_id task ∈ ids (tn_undo t).
Definition undoable_at (i : nat) (t t' : Turn) : Prop :=
  index_logged i t → undoable t t' ∧ index_logged i t'.

#[export] Instance undoable_at_preorder i : PreOrder (undoable_at i).
Proof.
  unfold undoable_at. split; [intros t H; split; [reflexivity|done]|].
  intros t1 t2 t3 H12 H23 H1. destruct (H12 H1) as [U12 H2]. destruct (H23 H2) as [U23 H3].
  split; [by etrans|done].
Qed.

Section Undo.
Context `{X : Externals, L : !ExternalLaws X}.

Lemma undoable_put i task task' t :
  tn_tasks t !! i = Some task → t_id task' = t_id task → t_id task ∈ ids (tn_undo t) →
  undoable t (put_tasks (<[i:=task']> (tn_tasks t)) t)
  ∧ index_logged i (put_tasks (<[i:=task']> (tn_tasks t)) t).
Proof.
  intros Hi Hm Hlog. unfold tn_tasks in *.
  assert (Hids : ids (<[i:=task']> (ms_tasks (tn_state t))) = ids (ms_tasks (tn_state t))).
  { unfold ids. rewrite list_fmap_insert, Hm, list_insert_id; [done|].
    by rewrite list_lookup_fmap, Hi. }
  split.
  - split; try done. intros base (Hn & Hb & Hr'). split; [done|]. unfold tn_tasks in *. simpl.
    split; [congruence|]. rewrite (roll_back_insert _ _ _ task); [done| |done|done|done].
    rewrite Hb. exact Hn.
  - exists task'. unfold tn_tasks. simpl. split.
    + apply list_lookup_insert_eq. by eapply lookup_lt_Some.
    + by rewrite Hm.
Qed.

Lemma undoable_at_task {A} i missing (m : M TaskRecord TaskRuntimeError A) :
  respects same_identity m → respects (undoable_at i) (at_task i missing m).
Proof.
  intros Hm t (task & Hi & Hlog). unfold at_task. rewrite Hi.
  specialize (Hm task). destruct (m task) as [r task'] eqn:Hr. simpl in Hm |- *.
  apply same_identity_id in Hm. by apply (undoable_put i task).
Qed.

Lemma undoable_at_deliveries {A} i (m : M (list Delivery) TaskRuntimeError A) :
  respects (undoable_at i) (zoomM tn_deliveries put_turn_deliveries m).
Proof.
  intros t H. unfold zoomM. destruct (m (tn_deliveries t)). simpl. split; [|exact H].
  by split.
Qed.

(** Logging a row that is current. *)
Lemma undoable_logged i task t :
  tn_tasks t !! i = Some task → undoable t (push_undo task t).
Proof.
  intros Hi. split; try done. intros base (Hn & Hb & Hr). split; [done|]. split; [exact Hb|].
  cbn [tn_undo push_undo]. change (tn_tasks (push_undo task t)) with (tn_tasks t).
  rewrite roll_back_snoc, (restore_at _ i task); [by rewrite list_insert_id| |done|done].
  by rewrite Hb.
Qed.

Lemma undoable_push {A} i task (m : M Turn TaskRuntimeError A) t :
  tn_tasks t !! i = Some task → respects (undoable_at i) m →
  undoable t ((modifyM (push_undo task) ;! m) t).2.
Proof.
  intros Hi Hm. rewrite bindM_modify.
  assert (Hl : index_logged i (push_undo task t)).
  { exists task. split; [exact Hi|]. simpl. rewrite ids_app. apply elem_of_app. right. by left. }
  destruct (Hm (push_undo task t) Hl) as [U _]. etrans; [by apply (undoable_logged i)|exact U].
Qed.

Lemma undoable_fail_row conf policy now i task t :
  tn_tasks t !! i = Some task → undoable t (fail_row conf policy now i task t).2.
Proof.
  intros Hi. apply (undoable_push i); [done|].
  repeat first [ respects_step | apply undoable_at_deliveries | apply undoable_at_task
               | apply apply_outcome_identity | apply finalize_idempotency_identity
               | (intros r; reflexivity) ].
Qed.

Lemma undoable_fail_candidate conf policy now i :
  respects undoable (fail_candidate conf policy now i).
Proof.
  intros t. unfold fail_candidate. rewrite bindM_gets, bindM_liftR.
  destruct (tn_tasks t !! i) as [task|] eqn:Hi; simpl; [|reflexivity].
  destruct (t_cancelled task); [by apply undoable_fail_row|].
  rewrite bindM_liftR. destruct (exhausted _ _) as [[]|]; [|reflexivity..].
  by apply undoable_fail_row.
Qed.

Lemma undoable_fail_exhausted lane limit now conf policy :
  respects undoable (fail_exhausted lane limit now conf policy).
Proof.
  unfold fail_exhausted. respects_auto. apply undoable_fail_candidate.
Qed.
Lemma undoable_claim_candidate runner now lease i :
  respects undoable (claim_candidate runner now lease i).
Proof.
  intros t. unfold claim_candidate. rewrite bindM_gets, bindM_liftR.
  destruct (tn_tasks t !! i) as [task|] eqn:Hi; simpl; [|reflexivity].
  apply (undoable_push i); [done|].
  apply respects_bind; [apply _| |intros _]; apply undoable_at_task;
    [apply admit_identity|intros r; reflexivity].
Qed.

Lemma undoable_rates lane b rates (t : Turn) :
  undoable t (put_state (set_rates (<[lane:=b]> rates) (tn_state t)) t).
Proof. by split. Qed.

Lemma undoable_reserve lane limit rate now : respects undoable (reserve_permits lane limit rate now).
Proof.
  unfold reserve_permits. respects_auto. intros t0.
  destruct (take_permits _ _ _ _) as [r b]. apply undoable_rates.
Qed.

Lemma undoable_claim_lane_state runner reservation lease now :
  respects undoable (claim_lane_state runner reservation lease now).
Proof.
  unfold claim_lane_state, claim_lane. respects_auto. apply undoable_claim_candidate.
Qed.

Lemma undoable_claim_unlocked runner claim lane conf lease now :
  respects undoable (claim_unlocked runner claim lane conf lease now).
Proof.
  unfold claim_unlocked. respects_auto;
    [apply undoable_fail_exhausted|apply undoable_reserve|apply undoable_claim_lane_state].
Qed.

(** A body over the lock row and the turn undoes its turn part. *)
Definition undoable_owner (p p' : OwnerTurn) : Prop := undoable p.1 p'.1.
#[local] Instance undoable_owner_preorder : PreOrder undoable_owner.
Proof.
  unfold undoable_owner. split; [intros p; reflexivity|].
  intros p q r H1 H2. by etrans.
Qed.

Lemma undoable_on_owner {A} (m : M MemoryLaneLock TaskRuntimeError A) :
  respects undoable_owner (on_owner m).
Proof. intros p. unfold on_owner, zoomM, undoable_owner. by destruct (m p.2). Qed.
Lemma undoable_on_turn {A} (m : M Turn TaskRuntimeError A) :
  respects undoable m → respects undoable_owner (on_turn m).
Proof.
  intros Hm p. unfold on_turn, zoomM, undoable_owner. specialize (Hm p.1).
  by destruct (m p.1).
Qed.

Lemma undoable_release runner lane now t : undoable t (release_held runner lane now t).
Proof.
  unfold release_held.
  assert (Hid : ∀ r, t_id (disown runner lane now r) = t_id r)
    by (intros r; unfold disown; by case_match).
  assert (Hids : ids (disown runner lane now <$> tn_tasks t) = ids (tn_tasks t)).
  { unfold ids. rewrite <- list_fmap_compose. apply list_fmap_ext. intros; apply Hid. }
  split; try done. intros base (Hn & Hb & Hr). unfold logged, tn_tasks in *. simpl in *.
  split; [done|]. split; [congruence|].
  rewrite roll_back_app, roll_back_fmap; [done|congruence|done|].
  intros r Hp. unfold disown. by rewrite Hp.
Qed.

Ltac owner_auto :=
  repeat first
    [ assumption | respects_step | apply undoable_on_owner | apply undoable_on_turn
    | apply undoable_fail_exhausted | apply undoable_reserve | apply undoable_claim_lane_state ];
  try (apply respects_modify; intros ?; apply undoable_release);
  try (apply respects_modify; intros ?; by split).

Lemma undoable_claim_owned_inner runner claim lane lease now :
  respects undoable_owner (claim_owned_inner runner claim lane lease now).
Proof.
  unfold claim_owned_inner, memory_phase_poll, memory_flush_poll, memory_claim. owner_auto.
Qed.

Lemma undoable_claim_owned_state runner claim lane lease now :
  respects undoable (claim_owned_state runner claim lane lease now).
Proof.
  intros t. unfold claim_owned_state. case_match; [|reflexivity].
  match goal with |- context [claim_owned_inner ?a ?b ?c ?d ?e ?p] =>
    pose proof (undoable_claim_owned_inner a b c d e p) as U;
    destruct (claim_owned_inner a b c d e p) as [r [t' owner]] end.
  simpl. unfold undoable_owner in U. simpl in U.
  etrans; [|etrans; [exact U|]]; by split.
Qed.

Lemma undoable_claim_tasks runner claims lease now :
  respects undoable (claim_tasks_state runner claims lease now).
Proof.
  unfold claim_tasks_state, claim_one.
  respects_auto; [apply undoable_claim_owned_state|apply undoable_claim_unlocked].
Qed.
End Undo.

Section Atomicity.
Context `{X : Externals, L : !ExternalLaws X}.

Lemma undoable_apply_update update t :
  ids (tn_tasks t) !! update.1 = Some (t_id update.2) → undoable t (apply_update update t).2.
Proof.
  intros Hid. unfold ids in Hid. rewrite list_lookup_fmap in Hid.
  destruct (tn_tasks t !! update.1) as [task|] eqn:Hi; [|done]. injection Hid as Hid.
  unfold apply_update, bindM at 1. unfold at_task at 1. rewrite Hi. simpl.
  rewrite list_insert_id by done.
  replace (put_tasks (tn_tasks t) t) with t by (by destruct t as [[]]).
  rewrite bindM_modify. etrans; [by apply (undoable_logged update.1)|]. unfold at_task.
  change (tn_tasks (push_undo task t)) with (tn_tasks t). rewrite Hi. simpl.
  apply (undoable_put update.1 task (update.2) (push_undo task t)); [done|done|].
  simpl. rewrite ids_app. apply elem_of_app. right. by left.
Qed.

Lemma undoable_apply_updates updates t :
  Forall (λ u, ids (tn_tasks t) !! u.1 = Some (t_id u.2)) updates →
  undoable t ((for_eachM updates apply_update) t).2.
Proof.
  revert t. induction updates as [|u updates IH]; intros t Hu; simpl; [reflexivity|].
  apply Forall_cons in Hu as [Hu Hus]. pose proof (undoable_apply_update u t Hu) as U.
  unfold bindM. destruct (apply_update u t) as [[a|e] t']; simpl in *; [|done].
  etrans; [exact U|]. apply IH. by rewrite (un_ids _ _ U).
Qed.

Lemma undoable_commit_outcomes commits now :
  respects undoable (commit_outcomes_state commits now).
Proof.
  intros t. unfold commit_outcomes_state. rewrite bindM_gets, bindM_liftR.
  destruct (stage_outcomes _ _ _) as [batch|e] eqn:Hs; [|reflexivity].
  apply stage_outcomes_ids in Hs. pose proof (undoable_apply_updates _ _ Hs) as U.
  unfold bindM. destruct (for_eachM _ _ t) as [[u|e] t']; exact U.
Qed.

Lemma undoable_turn_body runner claims commits lease now :
  respects undoable (turn_body runner claims commits lease now).
Proof.
  unfold turn_body. respects_auto; [apply undoable_commit_outcomes| |apply undoable_claim_tasks].
  apply respects_modify. intros t0. by split.
Qed.

Lemma set_parts_id s :
  set_lane_locks (ms_lane_locks s) (set_rates (ms_rates s) (set_tasks (ms_tasks s) s)) = s.
Proof. by destruct s. Qed.

(** A turn that fails leaves the guarded state exactly as it was. *)
Lemma failed_turn_restores runner claims commits batch lease now s e s' :
  NoDup (ids (ms_tasks (st_state s))) →
  atomic_operation runner claims commits batch lease now s = (Err e, s') →
  st_state s' = st_state s.
Proof.
  intros Hn. unfold atomic_operation. destruct (validate_turn _ _ _); [|by intros [= _ <-]].
  unfold run_turn, bindM.
  pose proof (undoable_turn_body runner claims commits lease now (turn_of s)) as U.
  destruct (turn_body _ _ _ _ _ (turn_of s)) as [[[[b p] q]|e'] t].
  { by destruct (turn_finish _ _ _ _ _ _). }
  intros [= _ <-]. simpl in U |- *. destruct U as [Hnd Hcf Hsc Hw _ Hlog].
  destruct (Hlog (ms_tasks (st_state s))) as (_ & _ & Hr); [by split_and!|].
  unfold tn_tasks in Hr. unfold tn_tasks. rewrite Hr.
  rewrite <- (set_parts_id (st_state s)) at 4. simpl in *.
  unfold set_lane_locks, set_rates, set_tasks. simpl. by rewrite Hnd, Hcf, Hsc, Hw.
Qed.
End Atomicity.

(** ** Every store operation keeps the table well formed

    [StoreOp] enumerates the operations of the store contract, [run_op] is
    what each does to the state whether it succeeds or fails, and [progress]
    what every one of them guarantees: the table stays well formed, no record
    disappears, and every record evolves along the lifecycle. *)

Definition progress (base tasks : list TaskRecord) : Prop :=
  tasks_ok tasks ∧ ∀ i r, base !! i = Some r → ∃ r', tasks !! i = Some r' ∧ evolves r r'.

Lemma progress_refl tasks : tasks_ok tasks → progress tasks tasks.
Proof. intros Hok. split; [done|]. intros i r Hi. exists r. by split. Qed.

Lemma progress_trans l k m : progress l k → progress k m → progress l m.
Proof.
  intros [_ H1] [Hok H2]. split; [done|]. intros i r Hi.
  destruct (H1 i r Hi) as (r1 & Hi1 & He1). destruct (H2 i r1 Hi1) as (r2 & Hi2 & He2).
  exists r2. split; [done|]. by etrans.
Qed.

Lemma progress_grown base tasks : grown base tasks → progress base tasks.
Proof. intros Hg. split; [by eapply grown_ok|]. intros i r Hi. by eapply grown_lookup. Qed.

(** Rewriting rows in place. *)
Lemma progress_fmap f tasks :
  tasks_ok tasks →
  (∀ r, r ∈ tasks → record_ok r → evolves r (f r) ∧ record_ok (f r)) →
  progress tasks (f <$> tasks).
Proof.
  intros Hok Hf. assert (Hr := tk_records _ Hok). rewrite Forall_forall in Hr.
  apply progress_grown, grown_rows; [done| |].
  - apply rows_evolve_fmap. intros r Hin. by apply Hf; auto.
  - apply Forall_fmap, Forall_forall. intros r Hin. simpl. by apply Hf; auto.
Qed.

Lemma progress_update_first p f tasks :
  tasks_ok tasks →
  (∀ r, r ∈ tasks → record_ok r → p r = true → evolves r (f r) ∧ record_ok (f r)) →
  progress tasks (update_first p f tasks).
Proof.
  intros Hok Hf. assert (Hr := tk_records _ Hok). assert (Hr' := Hr). rewrite Forall_forall in Hr'.
  apply progress_grown, grown_rows; [done| |].
  - apply rows_evolve_update_first. intros r Hin Hp. by apply Hf; auto.
  - apply Forall_update_first; [done|]. intros r Hin Hrok Hp. by apply Hf.
Qed.

(** A row with an owner is running, so clearing the owner is quiet. *)
Lemma disowned_ok r now :
  record_ok r → t_status r = Running →
  evolves r (set_updated_at now (set_node_id None r))
  ∧ record_ok (set_updated_at now (set_node_id None r)).
Proof.
  intros [] Hs. split.
  - apply evolves_quiet; [done..|by rewrite Hs].
  - by split.
Qed.

Lemma find_task_unique tasks id r task :
  NoDup (ids tasks) → find_task id tasks = Some task → r ∈ tasks → has_id id r = true → r = task.
Proof.
  intros Hn Hf Hr Hp. unfold find_task in Hf. apply find_some in Hf as [Hin Hid].
  unfold has_id in *. apply N.eqb_eq in Hp, Hid. apply list_elem_of_In in Hin.
  apply list_elem_of_lookup in Hr as [i Hi]. apply list_elem_of_lookup in Hin as [j Hj].
  assert (i = j) as ->; [|congruence].
  eapply (NoDup_lookup (ids tasks)); [done| |]; unfold ids; rewrite list_lookup_fmap.
  - by rewrite Hi.
  - rewrite Hj. simpl. congruence.
Qed.

Lemma fold_left_keep {S A B} (f : S → B) (g : S → A → S) l s :
  (∀ s a, f (g s a) = f s) → f (fold_left g l s) = f s.
Proof. intros Hg. revert s. induction l as [|a l IH]; intros s; simpl; [done|]. by rewrite IH. Qed.

Section Operations.
Context `{X : Externals, L : !ExternalLaws X} (params : StoreParams).

(** ** Nodes, administration and submission *)

Lemma heartbeat_progress node stale now s :
  tasks_ok (ms_tasks s) → progress (ms_tasks s) (ms_tasks (heartbeat node stale now s).2).
Proof.
  intros Hok. unfold heartbeat. rewrite bindM_liftR. case_match; [|by apply progress_refl].
  rewrite bindM_get. case_match; [case_match|by apply progress_refl].
  rewrite !bindM_modify. unfold retire_nodes. simpl. apply progress_fmap; [done|].
  intros r _ Hr. destruct (t_node_id r) as [id|] eqn:Hn; [|by split].
  case_match; [|by split]. assert (Hs := ro_owner _ Hr ltac:(by rewrite Hn)).
  destruct Hr. split; [by apply evolves_quiet; [| |rewrite Hs]|by split].
Qed.

Lemma return_claims_progress node now s :
  tasks_ok (ms_tasks s) → progress (ms_tasks s) (ms_tasks (return_claims node now s).2).
Proof.
  intros Hok. unfold return_claims. rewrite bindM_get, bindM_modify. simpl.
  apply progress_fmap; [done|]. intros r _ Hr. destruct (returnable node r) eqn:Hret; [|by split].
  assert (Hs : t_status r = Running).
  { unfold returnable in Hret. apply andb_prop in Hret as [Hret _].
    apply orb_prop in Hret as [Hret|Hret]; [by apply bool_decide_eq_true in Hret|].
    apply andb_prop in Hret as [Hn _]. apply bool_decide_eq_true in Hn as [n Hn].
    apply (ro_owner _ Hr). by rewrite Hn. }
  unfold return_task. rewrite bool_decide_true by done.
  assert (Hc : t_cancelled r = false) by (apply active_not_cancelled; [done|by rewrite Hs]).
  split.
  - apply evolves_step; [done|]. unfold phase. simpl. rewrite Hs, Hc. apply life_again.
  - destruct Hr as [? ? Ha]. split; simpl; intros; try done; eauto; [|congruence].
    apply Ha. by rewrite Hs.
Qed.

Lemma reassign_lane_progress from to now s :
  tasks_ok (ms_tasks s) → progress (ms_tasks s) (ms_tasks (reassign_lane from to now s).2).
Proof.
  intros Hok. unfold reassign_lane. rewrite bindM_get, bindM_liftR.
  case_match; [|by apply progress_refl]. case_match; [by apply progress_refl|].
  rewrite bindM_modify. simpl. apply progress_fmap; [done|]. intros r _ Hr.
  destruct (_ && is_reassignable (t_status r)) eqn:Hm; [|by split].
  apply andb_prop in Hm as [_ Hm]. destruct Hr as [Ho]. split.
  - apply evolves_quiet; [done|done|]. by destruct (t_status r).
  - split; simpl; intros; try done; eauto.
Qed.

Lemma resume_progress id input now s :
  tasks_ok (ms_tasks s) → progress (ms_tasks s) (ms_tasks (resume id input now s).2).
Proof.
  intros Hok. unfold resume. rewrite bindM_liftR.
  destruct (validate_resume input) as [[]|] eqn:Hv; [|by apply progress_refl].
  rewrite bindM_get. destruct (find_task id (ms_tasks s)) as [task|] eqn:Hf; [|by apply progress_refl].
  destruct (t_cancelled task || _) eqn:Hg; [by apply progress_refl|].
  apply orb_false_iff in Hg as [Hc Hs]. apply negb_false_iff, bool_decide_eq_true in Hs.
  rewrite bindM_modify. simpl. apply progress_update_first; [done|]. intros r Hin Hr Hp.
  assert (r = task) as -> by (by eapply find_task_unique; [apply (tk_nodup _ Hok)|..]).
  split.
  - apply evolves_step; [done|]. unfold phase. simpl. rewrite Hs, Hc. apply life_wake.
  - destruct Hr as [Ho ? Ha]. split; simpl; intros; try done; eauto.
    + rewrite Ho in Hs by done. done.
    + apply Ha. by rewrite Hs.
    + simplify_eq. by apply validate_resume_fits.
    + congruence.
Qed.

Lemma stage_writes_ok existing writes now receipts staged :
  stage_writes existing writes now [] = (Ok receipts, staged) → Forall fresh_write writes →
  tasks_ok existing → tasks_ok (existing ++ staged).
Proof.
  intros H Hf Hok. unfold stage_writes in H.
  eapply (triple_mapM (λ k, tasks_ok (existing ++ k)) (λ _, True)) in H as [? _]; [done| |].
  - intros w Hw k receipt k' Hk Hrun. rewrite Forall_forall in Hf. split; [|done].
    eapply stage_write_tasks_ok; eauto.
  - by rewrite app_nil_r.
Qed.

Lemma store_tasks_progress writes now s :
  tasks_ok (ms_tasks s) → Forall fresh_write writes →
  progress (ms_tasks s) (ms_tasks (store_tasks writes now s).2).
Proof.
  intros Hok Hf. unfold store_tasks. rewrite bindM_get, bindM_liftR.
  case_match; [|by apply progress_refl].
  destruct (stage_writes _ _ _ _) as [[receipts|e] staged] eqn:Hs; [|by apply progress_refl].
  rewrite bindM_modify. simpl. apply progress_grown, grown_app. by eapply stage_writes_ok.
Qed.

Lemma direct_due r conf now : record_ok r → direct r conf now = true →
  is_due r now = true ∧ t_cancelled r = false.
Proof.
  unfold direct, is_due. intros [Ho] H.
  apply andb_prop in H as [[[Hs Hc]%andb_prop Hr]%andb_prop _].
  apply bool_decide_eq_true in Hs. apply negb_true_iff in Hc. split; [|done].
  rewrite Hs, Hr, bool_decide_true; [done|].
  destruct (t_node_id r); [|done]. rewrite Ho in Hs; done.
Qed.

(** Direct admission is a claim. *)
Lemma admit_row_ok node conf now r u r' :
  admit_record node now r = (Ok u, r') → record_ok r → direct r conf now = true →
  evolves r r' ∧ record_ok r'.
Proof.
  intros Ha Hr Hd. apply direct_due in Hd as [Hdue Hc]; [|done].
  apply admit_record_ok in Ha as (-> & Hb & _). change (set_updated_at now _) with (claimed node now r).
  split; [by apply claimed_evolves|by apply claimed_ok].
Qed.

Lemma admit_staged_ok conf node limit now staged tasks admitted :
  admit_staged conf node limit now staged tasks = Ok admitted → Forall record_ok staged →
  Forall2 evolves staged admitted.1 ∧ Forall record_ok admitted.1.
Proof.
  revert tasks admitted. induction staged as [|r staged IH]; intros tasks admitted H Hr; simpl in H.
  { simplify_eq. by split. }
  apply Forall_cons in Hr as [Hr Hrs]. destruct (_ && direct r conf now) eqn:Hd.
  - apply andb_prop in Hd as [_ Hd]. destruct (admit_record node now r) as [[u|e] r'] eqn:Ha; [|done].
    apply result_bind_ok in H as (rest & H & [= <-]). apply IH in H as [H1 H2]; [|done].
    eapply admit_row_ok in Ha as [? ?]; [|done..]. simpl. split; by constructor.
  - apply result_bind_ok in H as (rest & H & [= <-]). apply IH in H as [H1 H2]; [|done].
    simpl. split; by constructor.
Qed.

Lemma store_admitted_progress writes node limit now s :
  tasks_ok (ms_tasks s) → Forall fresh_write writes →
  progress (ms_tasks s) (ms_tasks (store_admitted writes node limit now s).2).
Proof.
  intros Hok Hf. unfold store_admitted. rewrite bindM_get. case_match; [by apply progress_refl|].
  rewrite bindM_liftR. case_match; [|by apply progress_refl].
  destruct (stage_writes _ _ _ _) as [[receipts|e] staged] eqn:Hs; [|by apply progress_refl].
  apply stage_writes_ok in Hs; [|done..]. rewrite bindM_liftR.
  assert (Hst := tk_records _ Hs). apply Forall_app in Hst as [Hold Hst].
  assert (Hadm : ∀ admitted, (match ms_conf s with
    | Some conf => admit_staged conf node limit now staged []
    | None => Ok (staged, []) end) = Ok admitted →
    Forall2 evolves staged admitted.1 ∧ Forall record_ok admitted.1).
  { destruct (ms_conf s); [intros; by eapply admit_staged_ok|]. intros ? [= <-]. split; [|done].
    apply Forall_Forall2_diag, Forall_forall. reflexivity. }
  destruct (match ms_conf s with Some _ => _ | None => _ end) as [admitted|]; [|by apply progress_refl].
  destruct (Hadm admitted eq_refl) as [Hev Hrec].
  rewrite bindM_modify. simpl. apply progress_grown. exists staged. split_and!; [done| |].
  - apply Forall2_app; [reflexivity|done].
  - by apply Forall_app.
Qed.

Lemma store_scheduled_progress scheduled now s :
  tasks_ok (ms_tasks s) → fresh_write (sw_write scheduled) →
  progress (ms_tasks s) (ms_tasks (store_scheduled scheduled now s).2).
Proof.
  intros Hok Hf. unfold store_scheduled. rewrite bindM_get.
  match goal with |- context [if ?b then _ else _] => destruct b end; [by apply progress_refl|].
  rewrite bindM_liftR. case_match; [|by apply progress_refl].
  destruct (stage_write _ _ _ _) as [[receipt|e] staged] eqn:Hs; [|by apply progress_refl].
  rewrite !bindM_modify. simpl. apply progress_grown, grown_app.
  eapply stage_write_tasks_ok; [exact Hs|done|]. by rewrite app_nil_r.
Qed.

Lemma initialize_progress now s :
  tasks_ok (ms_tasks s) → progress (ms_tasks s) (ms_tasks (initialize now s).2).
Proof.
  intros Hok. unfold initialize. rewrite bindM_get, bindM_liftR. case_match; [|by apply progress_refl].
  rewrite bindM_liftR. case_match; [|by apply progress_refl].
  match goal with H : ok_or _ _ = Ok ?c |- _ => rename c into conf end.
  assert (Ht : ms_tasks (initialize_lane_locks conf (initialize_rates conf now s)) = ms_tasks s)
    by (unfold initialize_lane_locks, initialize_rates;
        rewrite !(fold_left_keep ms_tasks); [done|intros; by case_match..]).
  destruct (finalize_workflow _ _ _ _) as [lanes s'] eqn:Hf. simpl.
  eapply (finalize_workflow_ok (ms_tasks s)) in Hf as [Hrows Hrec]; [|split|constructor|constructor].
  - rewrite app_nil_r in Hrows. by apply progress_grown, grown_rows.
  - rewrite Ht. reflexivity.
  - rewrite Ht. apply Hok.
Qed.
End Operations.
