(* ===== verification/StoreSpec.v ===== *)
(** * The store as a transition system

    The operations of the store contract as labels, the state each leaves,
    and what holds of every state reachable by any sequence of them. *)
From S2P Require Import Prelude Externals Failure Config Rate Models Transitions Lifecycle.
From S2P Require Import MemoryState LaneLock Workflow Claims Atomic Evolution ClaimFacts.
From S2P Require Import Commits Turns.
#[local] Open Scope Z_scope.

(** The operations that change the state; inspection ([list_tasks], [get_task],
    [schedule_snapshot]) does not. *)
Inductive StoreOp :=
  | OpRegisterNode (node : Uuid)
  | OpHeartbeat (node : Uuid) (stale_after : Duration)
  | OpReturnClaims (node : option Uuid)
  | OpInitialize
  | OpClaimTasks (node : Uuid) (claims : list LaneClaim)
  | OpCoordinateLanes (node : Uuid) (claims : list LaneClaim)
  | OpCommitTasks (commits : list TaskCommit)
  | OpCommitAdmitted (commits : list TaskCommit) (node : Uuid) (limit : Z) (cached : list TaskRecord)
  | OpRecoverClaims (node : Uuid) (claims : list LaneClaim) (prepared : TaskPoll)
  | OpStoreTasks (writes : list TaskWrite)
  | OpStoreAdmitted (writes : list TaskWrite) (node : Uuid) (limit : Z)
  | OpStoreScheduled (scheduled : ScheduledTaskWrite)
  | OpReassignLane (from to : string)
  | OpResume (id : TaskId) (input : string).

(** What callers submit: fresh records, as the typed client builds them. *)
Definition op_fresh (op : StoreOp) : Prop :=
  match op with
  | OpCommitTasks commits | OpCommitAdmitted commits _ _ _ => Forall commit_fresh commits
  | OpStoreTasks writes | OpStoreAdmitted writes _ _ => Forall fresh_write writes
  | OpStoreScheduled scheduled => fresh_write (sw_write scheduled)
  | _ => True
  end.

Section StoreSpec.
Context `{X : Externals} (params : StoreParams).

(** The state an operation leaves, whatever it answers. *)
Definition run_op (op : StoreOp) (now : DateTime) (s : StoreState) : StoreState :=
  match op with
  | OpRegisterNode node => (locked (register_node node now) s).2
  | OpHeartbeat node stale => (locked (heartbeat node stale now) s).2
  | OpReturnClaims node => (locked (return_claims node now) s).2
  | OpInitialize => (locked (initialize now) s).2
  | OpClaimTasks node claims => (claim_tasks params node claims now s).2
  | OpCoordinateLanes node claims => (coordinate_lanes params node claims now s).2
  | OpCommitTasks commits => (commit_tasks params commits now s).2
  | OpCommitAdmitted commits node limit cached =>
      (commit_admitted params commits node limit cached now s).2
  | OpRecoverClaims node claims prepared => (recover_claims params node claims prepared now s).2
  | OpStoreTasks writes => (locked (store_tasks writes now) s).2
  | OpStoreAdmitted writes node limit => (locked (store_admitted writes node limit now) s).2
  | OpStoreScheduled scheduled => (locked (store_scheduled scheduled now) s).2
  | OpReassignLane from to => (locked (reassign_lane from to now) s).2
  | OpResume id input => (locked (resume id input now) s).2
  end.

(** Whether the operation answers [Ok]. *)
Definition op_succeeds (op : StoreOp) (now : DateTime) (s : StoreState) : bool :=
  match op with
  | OpRegisterNode node => is_ok (locked (register_node node now) s).1
  | OpHeartbeat node stale => is_ok (locked (heartbeat node stale now) s).1
  | OpReturnClaims node => is_ok (locked (return_claims node now) s).1
  | OpInitialize => is_ok (locked (initialize now) s).1
  | OpClaimTasks node claims => is_ok (claim_tasks params node claims now s).1
  | OpCoordinateLanes node claims => is_ok (coordinate_lanes params node claims now s).1
  | OpCommitTasks commits => is_ok (commit_tasks params commits now s).1
  | OpCommitAdmitted commits node limit cached =>
      is_ok (commit_admitted params commits node limit cached now s).1
  | OpRecoverClaims node claims prepared => is_ok (recover_claims params node claims prepared now s).1
  | OpStoreTasks writes => is_ok (locked (store_tasks writes now) s).1
  | OpStoreAdmitted writes node limit => is_ok (locked (store_admitted writes node limit now) s).1
  | OpStoreScheduled scheduled => is_ok (locked (store_scheduled scheduled now) s).1
  | OpReassignLane from to => is_ok (locked (reassign_lane from to now) s).1
  | OpResume id input => is_ok (locked (resume id input now) s).1
  end.

Definition run_ops (ops : list (StoreOp * DateTime)) (s : StoreState) : StoreState :=
  fold_left (λ s op, run_op op.1 op.2 s) ops s.

(** [MemoryTaskStore::with_lease_duration]. *)
Definition memory_store_new (conf : TaskStoreConf) : StoreState :=
  {| st_state := {| ms_nodes := ∅; ms_tasks := []; ms_conf := Some conf; ms_rates := ∅;
                    ms_schedules := ∅; ms_lane_locks := ∅; ms_waits := ∅ |};
     st_uuids := 0 |}.
Definition store_params (batch_size : Z) (lease : Duration) : StoreParams :=
  {| commit_batch_size := Z.max batch_size 1; store_lease_duration := lease |}.
End StoreSpec.

Definition st_tasks (s : StoreState) : list TaskRecord := ms_tasks (st_state s).

Section Preservation.
Context `{X : Externals, L : !ExternalLaws X} (params : StoreParams).

Lemma locked_tasks {E A} (m : M MemoryState E A) s :
  st_tasks (locked m s).2 = ms_tasks (m (st_state s)).2.
Proof. unfold locked, zoomM, st_tasks. by destruct (m (st_state s)). Qed.

Lemma before_commit_state {T A} (m : M StoreState TaskRuntimeError A) s :
  (before_commit (T:=T) m s).2 = (m s).2.
Proof. unfold before_commit. by destruct (m s) as [[a|e] s']. Qed.

Lemma atomic_progress runner claims commits batch lease now s :
  tasks_ok (st_tasks s) → Forall commit_fresh commits → commits = [] ∨ runner = None →
  progress (st_tasks s) (st_tasks (atomic_operation runner claims commits batch lease now s).2).
Proof.
  intros Hok Hf Hcase.
  destruct (atomic_operation _ _ _ _ _ _ s) as [[res|e] s'] eqn:Ha; simpl.
  - by eapply progress_grown, atomic_operation_grown.
  - apply failed_turn_restores in Ha; [|apply Hok]. unfold st_tasks. rewrite Ha.
    by apply progress_refl.
Qed.

Lemma claim_tasks_progress node claims now s :
  tasks_ok (st_tasks s) → progress (st_tasks s) (st_tasks (claim_tasks params node claims now s).2).
Proof.
  intros Hok. unfold claim_tasks. rewrite bindM_get. case_match; [by apply progress_refl|].
  unfold bindM.
  pose proof (atomic_progress (Some node) claims [] (commit_batch_size params)
    (store_lease_duration params) now s Hok (Forall_nil_2 _) (or_introl eq_refl)) as Hp.
  rewrite <- (before_commit_state (T:=TaskPoll)) in Hp.
  by destruct (before_commit _ s) as [[res|e] s'].
Qed.

Lemma commit_tasks_progress commits now s :
  tasks_ok (st_tasks s) → Forall commit_fresh commits →
  progress (st_tasks s) (st_tasks (commit_tasks params commits now s).2).
Proof.
  intros Hok Hf. unfold commit_tasks, bindM.
  pose proof (atomic_progress None [] commits (commit_batch_size params)
    (store_lease_duration params) now s Hok Hf (or_intror eq_refl)) as Hp.
  rewrite <- (before_commit_state (T:=CommitResult)) in Hp.
  by destruct (before_commit _ s) as [[res|e] s'].
Qed.

(** ** Direct admission after a commit *)

Lemma admit_committed_row_ok conf waits before commits node cached now row acc task acc' :
  admit_committed_row conf waits before commits node cached now row acc = (task, acc') →
  record_ok row.2 → evolves row.2 task ∧ record_ok task.
Proof.
  unfold admit_committed_row. destruct row as [index r], acc as [limit result]. simpl. intros H Hr.
  assert (Hadm : ∀ x y, (if ((before <=? index)%nat
      || (cache_match cached r && bool_decide (t_node_id r = None) && (t_updated_at r =? now)
          && bool_decide (waits !! t_id r = None)))
     && (0 <? limit) && bool_decide (t_node_id r = None) && sticky r conf
     && (t_attempts r <? I32_MAX) && (t_step_attempts r <? I32_MAX) && direct r conf now
    then match admit_record node now r with
         | (Ok _, admitted) => (admitted, (limit - 1, push_task admitted result))
         | (Err _, _) => (r, (limit, result))
         end
    else (r, (limit, result))) = (x, y) → evolves r x ∧ record_ok x).
  { intros x y Hx. destruct (_ && direct r conf now) eqn:Hd; [|by simplify_eq].
    apply andb_prop in Hd as [_ Hd].
    destruct (admit_record node now r) as [[u|e] r'] eqn:Ha; simplify_eq; [|done].
    by eapply admit_row_ok. }
  match type of H with (let '(_, _) := ?e in _) = _ => destruct e as [x [lim res]] end.
  specialize (Hadm _ _ eq_refl).
  case_match; by simplify_eq.
Qed.

Lemma map_state_Forall2 {S A B} (R : A → B → Prop) (f : A → S → B * S) l s l' s' :
  map_state f l s = (l', s') → (∀ a s b s', a ∈ l → f a s = (b, s') → R a b) → Forall2 R l l'.
Proof.
  revert s l'. induction l as [|a l IH]; intros s l' H Hf; simpl in H; simplify_eq; [constructor|].
  destruct (f a s) as [b t] eqn:Ha. destruct (map_state f l t) as [bs t'] eqn:Hm. simplify_eq.
  constructor; [eapply Hf; [by left|done]|]. eapply IH; [exact Hm|].
  intros. eapply Hf; [by right|done].
Qed.

Lemma admit_committed_progress before commits node limit cached now result s :
  tasks_ok (ms_tasks s) →
  progress (ms_tasks s) (ms_tasks (admit_committed before commits node limit cached now result s).2).
Proof.
  intros Hok. unfold admit_committed. destruct (ms_conf s) as [conf|]; [|by apply progress_refl].
  destruct (map_state _ _ _) as [tasks [lim res]] eqn:Hm. simpl.
  assert (Hf : Forall2 (λ row task, evolves row.2 task ∧ record_ok task)
                 (imap pair (ms_tasks s)) tasks).
  { eapply map_state_Forall2; [exact Hm|]. intros row acc task acc' Hin Hrun.
    eapply admit_committed_row_ok; [exact Hrun|].
    apply elem_of_lookup_imap in Hin as (i & r & -> & Hi).
    eapply Forall_lookup; [apply (tk_records _ Hok)|exact Hi]. }
  apply progress_grown, grown_rows; [done| |].
  - apply Forall2_same_length_lookup. split.
    + by rewrite <- (Forall2_length _ _ _ Hf), length_imap.
    + intros i x y Hx Hy.
      by destruct (Forall2_lookup_lr _ _ _ i (i, x) y Hf) as [? _]; [rewrite list_lookup_imap, Hx|..].
  - eapply Forall_lookup. intros i y Hy.
    by destruct (Forall2_lookup_r _ _ _ _ _ Hf Hy) as (x & _ & _ & ?).
Qed.

Lemma commit_admitted_progress commits node limit cached now s :
  tasks_ok (st_tasks s) → Forall commit_fresh commits →
  progress (st_tasks s) (st_tasks (commit_admitted params commits node limit cached now s).2).
Proof.
  intros Hok Hf. unfold commit_admitted. rewrite bindM_get. unfold bindM.
  pose proof (atomic_progress None [] commits (commit_batch_size params)
    (store_lease_duration params) now s Hok Hf (or_intror eq_refl)) as Hp.
  rewrite <- (before_commit_state (T:=CommitResult)) in Hp.
  destruct (before_commit _ s) as [[res|e] s'] in Hp |- *; [|done]. simpl in Hp.
  eapply progress_trans; [exact Hp|]. rewrite locked_tasks.
  pose proof (admit_committed_progress (length (ms_tasks (st_state s))) commits node limit cached now
    res.2 (st_state s')) as Ha. destruct (admit_committed _ _ _ _ _ _ _ _). simpl in Ha.
  apply Ha. apply Hp.
Qed.

(** ** Recovery *)

Lemma disown_rows_ok base s node lane now :
  rows_ok base s → rows_ok base (set_tasks (disown node lane now <$> ms_tasks s) s).
Proof.
  intros [Hrows Hrec]. assert (Hd : ∀ r, r ∈ ms_tasks s → evolves r (disown node lane now r)
    ∧ record_ok (disown node lane now r)).
  { intros r Hin. rewrite Forall_forall in Hrec. specialize (Hrec r Hin). unfold disown.
    destruct (held_by node lane r) eqn:Hh; [|by split]. unfold held_by in Hh.
    apply andb_prop in Hh as [_ Hs]. apply bool_decide_eq_true in Hs. by apply disowned_ok. }
  split; simpl.
  - etrans; [exact Hrows|]. apply rows_evolve_fmap. intros r Hin. by apply Hd.
  - apply Forall_fmap, Forall_forall. intros r Hin. by apply Hd.
Qed.

Lemma recover_tasks_ok base node expected owner now s cancelled tasks s' cancelled' :
  recover_tasks node expected owner now s cancelled = (tasks, s', cancelled') →
  rows_ok base s → Forall commit_fresh cancelled → rows_ok base s' ∧ Forall commit_fresh cancelled'.
Proof.
  revert s cancelled tasks. induction expected as [|e expected IH]; intros s cancelled tasks H Hok Hc;
    simpl in H; [by simplify_eq|].
  destruct (List.find (still_current node e) (ms_tasks s)) as [task|]; [|by eapply IH].
  destruct (lost_owner owner).
  - eapply IH; [exact H| |done]. apply rows_ok_update; [done|]. intros b r _ _ He Hr Hp.
    unfold still_current in Hp. apply andb_prop in Hp as [_ Hs]. apply bool_decide_eq_true in Hs.
    destruct (disowned_ok r now Hr Hs). split; [by etrans|done].
  - destruct (t_cancelled task).
    + eapply IH; [exact H|done|]. apply Forall_app. split; [done|]. by constructor.
    + destruct (recover_tasks node expected owner now s cancelled) as [[ts s1] c1] eqn:Hr.
      simplify_eq. by eapply IH.
Qed.

Definition recovering (base : list TaskRecord) (p : MemoryState * list TaskCommit) : Prop :=
  rows_ok base p.1 ∧ Forall commit_fresh p.2.

Lemma recover_one_ok base node claims prepared now lane :
  triple (recovering base) (recover_one params node claims prepared now lane)
    (λ _, recovering base).
Proof.
  unfold recover_one.
  eapply (triple_bind _ (λ _, recovering base)).
  { intros p o p' [Hok Hc] H. unfold zoomM in H.
    destruct (recover_owner _ _ _ _ _ _ p.1) as [r s] eqn:Hr. simplify_eq. split; [|exact Hc].
    eapply rows_ok_tasks; [|exact Hok]. simpl. unfold recover_owner in Hr.
    destruct (List.find _ claims) as [c|]; [|unfold retM in Hr; by simplify_eq].
    case_match; [unfold retM in Hr; by simplify_eq|]. rewrite bindM_get in Hr.
    apply bindM_liftR_ok in Hr as (row & _ & Hr). cbv zeta in Hr.
    apply bindM_ok in Hr as ([] & s1 & H1 & Hr). unfold retM in Hr. simplify_eq.
    case_match; [|unfold retM in H1; by simplify_eq].
    apply bindM_liftR_ok in H1 as (d & _ & H1). unfold modifyM in H1. by simplify_eq. }
  intros owner. eapply (triple_bind _ (λ _, recovering base)).
  { destruct (lost_owner owner); [|by apply triple_ret].
    intros p u p' [Hok Hc] H. unfold zoomM, modifyM in H. simplify_eq. split; [|exact Hc].
    by apply disown_rows_ok. }
  intros u p poll p' [Hok Hc] H.
  destruct (recover_tasks _ _ _ _ _ _) as [[ts s1] c1] eqn:Hr. simplify_eq.
  by eapply recover_tasks_ok in Hr.
Qed.

Lemma recover_claims_progress node claims prepared now s :
  tasks_ok (st_tasks s) →
  progress (st_tasks s) (st_tasks (recover_claims params node claims prepared now s).2).
Proof.
  intros Hok. unfold recover_claims, recover_poll.
  destruct (mapM_M _ _ _) as [[lanes|e] [staged cancelled]] eqn:Hm; [|by apply progress_refl].
  eapply (triple_mapM (recovering (st_tasks s)) (λ _, True)) in Hm as [[[Hrows Hrec] Hc] _];
    [|intros; eapply triple_conseq; [apply recover_one_ok|done|by split]
     |split; [split; [reflexivity|apply Hok]|constructor]].
  simpl in Hrows, Hrec, Hc.
  assert (Hok1 : tasks_ok (st_tasks (put_st staged s))) by (by eapply rows_evolve_ok).
  pose proof (atomic_progress None [] cancelled (commit_batch_size params)
    (store_lease_duration params) now _ Hok1 Hc (or_intror eq_refl)) as Hp.
  destruct (atomic_operation _ _ _ _ _ _ _) as [[[poll result]|e] s']; simpl in Hp |- *;
    [|by apply progress_refl].
  eapply progress_trans; [|exact Hp]. by apply progress_grown, grown_rows.
Qed.

(** ** Failing operations *)

Lemma locked_failure {E A} (m : M MemoryState E A) s :
  (∀ ms e, (m ms).1 = Err e → (m ms).2 = ms) →
  is_ok (locked m s).1 = false → st_state (locked m s).2 = st_state s.
Proof.
  intros Hm. unfold locked, zoomM. specialize (Hm (st_state s)).
  destruct (m (st_state s)) as [[a|e] ms]; simpl in *; [done|]. intros _. by eapply Hm.
Qed.

Lemma atomic_failure {T A} runner claims commits batch lease now (k : TaskPoll * CommitResult →
    M StoreState (StoreFailure T) A) s :
  NoDup (ids (st_tasks s)) → (∀ r s', is_ok (k r s').1 = true) →
  is_ok (bindM (before_commit (atomic_operation runner claims commits batch lease now)) k s).1 = false →
  st_state (bindM (before_commit (atomic_operation runner claims commits batch lease now)) k s).2
    = st_state s.
Proof.
  intros Hn Hk. unfold bindM, before_commit.
  destruct (atomic_operation _ _ _ _ _ _ s) as [[r|e] s'] eqn:Ha; simpl.
  - by rewrite Hk.
  - intros _. by eapply failed_turn_restores.
Qed.

(** Bodies that decide before they write. *)
Ltac pure_failure :=
  intros ms e; unfold heartbeat, initialize, store_tasks, store_admitted, store_scheduled,
    reassign_lane, resume;
  repeat first
    [ done | rewrite bindM_get | rewrite bindM_liftR | rewrite bindM_modify
    | match goal with |- context [match ?x with _ => _ end] => destruct x end ];
  try (intros; done).

Lemma claim_tasks_failure node claims now s :
  NoDup (ids (st_tasks s)) → is_ok (claim_tasks params node claims now s).1 = false →
  st_state (claim_tasks params node claims now s).2 = st_state s.
Proof.
  intros Hn. unfold claim_tasks. rewrite bindM_get. case_match; [done|].
  by apply atomic_failure.
Qed.

Lemma run_op_failure op now s :
  NoDup (ids (st_tasks s)) → op_succeeds params op now s = false →
  st_state (run_op params op now s) = st_state s.
Proof.
  intros Hn. destruct op; cbn [op_succeeds run_op].
  - apply locked_failure. pure_failure.
  - apply locked_failure. pure_failure.
  - apply locked_failure. pure_failure.
  - apply locked_failure. pure_failure.
  - by apply claim_tasks_failure.
  - unfold coordinate_lanes. unfold bindM at 1 2. unfold before_commit, liftR.
    destruct (validate_coordination claims); [|done]. by apply claim_tasks_failure.
  - unfold commit_tasks. by apply atomic_failure.
  - unfold commit_admitted. rewrite bindM_get. apply atomic_failure; [done|].
    intros r s'. unfold locked, zoomM. by destruct (admit_committed _ _ _ _ _ _ _ _).
  - unfold recover_claims, recover_poll.
    destruct (mapM_M _ _ _) as [[lanes|e] [staged cancelled]]; [|done].
    by destruct (atomic_operation _ _ _ _ _ _ _) as [[[poll result]|e] s'].
  - apply locked_failure. pure_failure.
  - apply locked_failure. pure_failure.
  - apply locked_failure. pure_failure.
  - apply locked_failure. pure_failure.
  - apply locked_failure. pure_failure.
Qed.

(** ** Every operation *)

Lemma run_op_progress op now s :
  tasks_ok (st_tasks s) → op_fresh op → progress (st_tasks s) (st_tasks (run_op params op now s)).
Proof.
  intros Hok Hf. destruct op; simpl in *; rewrite ?locked_tasks.
  - by apply progress_refl.
  - by apply heartbeat_progress.
  - by apply return_claims_progress.
  - by apply initialize_progress.
  - by apply claim_tasks_progress.
  - unfold coordinate_lanes. unfold bindM at 1. unfold before_commit, liftR at 1.
    destruct (validate_coordination claims); [|by apply progress_refl].
    by apply claim_tasks_progress.
  - by apply commit_tasks_progress.
  - by apply commit_admitted_progress.
  - by apply recover_claims_progress.
  - by apply store_tasks_progress.
  - by apply store_admitted_progress.
  - by apply store_scheduled_progress.
  - by apply reassign_lane_progress.
  - by apply resume_progress.
Qed.

Lemma run_ops_progress ops s :
  tasks_ok (st_tasks s) → Forall (λ op, op_fresh op.1) ops →
  progress (st_tasks s) (st_tasks (run_ops params ops s)).
Proof.
  revert s. induction ops as [|[op now] ops IH]; intros s Hok Hf; simpl; [by apply progress_refl|].
  apply Forall_cons in Hf as [Hf1 Hf]. pose proof (run_op_progress op now s Hok Hf1) as Hp.
  eapply progress_trans; [exact Hp|]. apply IH; [apply Hp|done].
Qed.

Lemma new_store_ok conf : tasks_ok (st_tasks (memory_store_new conf)).
Proof. split; [constructor|constructor|]. by intros i j r r' Hi. Qed.
End Preservation.

(** ** A small concrete deployment

    One runner, three lanes (plain, rate limited, locked) and two handlers,
    over the concrete third-party functions of [DemoExternals]: what the
    witnesses of the theorems run. *)

Definition demo_retry : TaskRetry := exponential 2 (from_secs 1).
Definition demo_lanes : list TaskLaneConf :=
  [ with_retry demo_retry (lane_conf_new "default" 4);
    with_retry demo_retry (global_rate_limit (per_second 2) (lane_conf_new "mail" 4));
    with_retry demo_retry (lock (idle_after (from_secs 5) (lane_lock_new 2)) (lane_conf_new "serial" 1)) ].
Definition demo_conf : TaskStoreConf :=
  {| sc_max_all_children := 8; sc_handlers := [("work", Work); ("flow", Flow)]%string;
     sc_lanes := demo_lanes;
     sc_idempotency := [ {| ic_handler := "work"; ic_lane := "default"; ic_revision := "r1";
                            ic_retention := RetainFor (from_secs 60) |} ]%string;
     sc_poll_interval := from_secs 1 |}.

Definition demo_record (id : N) (kind : TaskKind) (name lane : string) : TaskRecord :=
  {| t_id := id; t_parent_id := None; t_root_id := None; t_kind := kind; t_name := name;
     t_input := "1"; t_state := None; t_resume_input := None; t_status := Pending;
     t_cancelled := false; t_attempts := 0; t_step_attempts := 0; t_lane := lane;
     t_last_result := None; t_idempotency_key := None; t_idempotency_fingerprint := None;
     t_idempotency_expires_at := None; t_node_id := None; t_ready_at := None; t_created_at := 0;
     t_updated_at := 0; t_completed_at := None |}%string.
Definition demo_write (id : N) (kind : TaskKind) (name lane : string) : TaskWrite :=
  {| w_record := demo_record id kind name lane; w_ignore_conflicts := false;
     w_initial_delay := None |}.
Definition work_write (id : N) : TaskWrite := demo_write id Work "work" "default".
Definition flow_write (id : N) : TaskWrite := demo_write id Flow "flow" "default".

Definition keyed (key print : string) (w : TaskWrite) : TaskWrite :=
  on_record (λ r, {| t_id := t_id r; t_parent_id := t_parent_id r; t_root_id := t_root_id r;
     t_kind := t_kind r; t_name := t_name r; t_input := t_input r; t_state := t_state r;
     t_resume_input := t_resume_input r; t_status := t_status r; t_cancelled := t_cancelled r;
     t_attempts := t_attempts r; t_step_attempts := t_step_attempts r; t_lane := t_lane r;
     t_last_result := t_last_result r; t_idempotency_key := Some key;
     t_idempotency_fingerprint := Some print;
     t_idempotency_expires_at := t_idempotency_expires_at r; t_node_id := t_node_id r;
     t_ready_at := t_ready_at r; t_created_at := t_created_at r; t_updated_at := t_updated_at r;
     t_completed_at := t_completed_at r |}) w.

Definition node1 : Uuid := 1%N.
Definition node2 : Uuid := 2%N.
Definition demo_params : StoreParams := store_params 16 (from_secs 30).

Definition demo_claim (lane : string) (limit : Z) : LaneClaim :=
  {| lcl_lane := lane; lcl_limit := limit; lcl_owner := None |}.
Definition owner_request (token : option string) (quiescent : bool) : LaneOwnerRequest :=
  {| or_token := token; or_quiescent := quiescent; or_allow_claim := true; or_completed_work := false;
     or_hook := None |}.

#[local] Existing Instance DemoExternals.externals.

(** Registered, started, with one flow and one work task submitted at time 0. *)
Definition demo_ops : list (StoreOp * DateTime) :=
  [ (OpRegisterNode node1, 0); (OpInitialize, 0);
    (OpStoreTasks [flow_write 10; keyed "k" "p" (work_write 11)], 0) ].
Definition demo_state : StoreState := run_ops demo_params demo_ops (memory_store_new demo_conf).

(** Both claimed by [node1] one second later. *)
Definition claimed_ops : list (StoreOp * DateTime) :=
  demo_ops ++ [(OpClaimTasks node1 [demo_claim "default" 8], from_secs 1)].
Definition claimed_state : StoreState :=
  run_ops demo_params claimed_ops (memory_store_new demo_conf).

(** The flow spawned two children and waits for both; the work task completed. *)
Definition all_commit : TaskCommit :=
  CommitOutcome node1 1 10 "default" (OutAll "s" [work_write 20; work_write 21]) None.
Definition done_commit : TaskCommit :=
  CommitOutcome node1 1 11 "default" (OutCompleteWith "42") None.
Definition joined_ops : list (StoreOp * DateTime) :=
  claimed_ops ++ [(OpCommitTasks [all_commit; done_commit], from_secs 2)].
Definition joined_state : StoreState :=
  run_ops demo_params joined_ops (memory_store_new demo_conf).
