(* ===== verification/StoreTheorems.v ===== *)
(** * The store as a whole: invariant, refinement, atomicity, claiming *)
From S2P Require Import Prelude Externals Failure Config Rate Models Transitions Lifecycle.
From S2P Require Import MemoryState LaneLock Workflow Claims.
From S2P Require Import Evolution ClaimFacts Commits Atomic.
From S2P Require Import Turns StoreSpec.
#[local] Open Scope Z_scope.

Lemma ordered_sublist {A K} (le : K → K → bool) (key : A → K) l k :
  l `sublist_of` k → ordered le key k → ordered le key l.
Proof.
  unfold ordered. induction 1 as [|x l k Hs IH|x l k Hs IH]; intros Hk; [done| |].
  - apply StronglySorted_inv in Hk as [Hk Hx]. constructor; [by apply IH|].
    apply Forall_forall. intros y Hy. rewrite Forall_forall in Hx. apply Hx.
    by eapply elem_of_sublist.
  - apply StronglySorted_inv in Hk as [Hk _]. by apply IH.
Qed.

(** ** Which rows a claim takes

    Said of the rows alone, without indices, sorting or a walk over a list: a row contends when it
    may be claimed now, the window holds the contenders with fewer than the limit ahead of them,
    and a Work row in it is taken when fewer than the permits are ahead of it. *)

(** Pending, or running without an owner, and its time has come. *)
Definition awaiting (now : DateTime) (r : TaskRecord) : bool :=
  (bool_decide (t_status r = Pending) || bool_decide (t_status r = Running))
  && bool_decide (t_node_id r = None)
  && match t_ready_at r with Some ready => ready <=? now | None => true end.

(** Work contends only when there is a permit at all. *)
Definition contends (lane : TaskLane) (permits : Z) (now : DateTime) (r : TaskRecord) : bool :=
  String.eqb (t_lane r) lane && awaiting now r
  && (bool_decide (t_kind r = Flow) || negb (permits =? 0)).

(** Ready earlier; submitted earlier; the smaller identity. *)
Definition ahead (now : DateTime) (a b : TaskRecord) : Prop :=
  let ready r := default now (t_ready_at r) in
  ready a < ready b ∨ ready a = ready b
    ∧ (t_created_at a < t_created_at b
       ∨ t_created_at a = t_created_at b ∧ (t_id a < t_id b)%N).
#[global] Instance ahead_dec now a b : Decision (ahead now a b).
Proof. unfold ahead. apply _. Defined.
#[global] Instance ahead_strict now : StrictOrder (ahead now).
Proof. unfold ahead. split; [intros x H|intros x y z H H0]; cbv zeta in *; lia. Qed.

(** How many rows with a property are ahead of a row. *)
Definition rank (now : DateTime) (p : TaskRecord → bool) (tasks : list TaskRecord)
    (r : TaskRecord) : Z :=
  zlen (List.filter (λ x, p x && bool_decide (ahead now x r)) tasks).

Definition in_window (tasks : list TaskRecord) (claim : LaneClaim) (permits : Z) (now : DateTime)
    (r : TaskRecord) : bool :=
  contends (lcl_lane claim) permits now r
  && (rank now (contends (lcl_lane claim) permits now) tasks r <? lcl_limit claim).

Definition costs_permit (r : TaskRecord) : bool :=
  negb (t_cancelled r) && negb (bool_decide (t_kind r = Flow)).

Definition takes (tasks : list TaskRecord) (claim : LaneClaim) (permits : Z) (now : DateTime)
    (r : TaskRecord) : bool :=
  in_window tasks claim permits now r && negb (t_cancelled r)
  && (bool_decide (t_kind r = Flow)
      || (rank now (λ x, in_window tasks claim permits now x && costs_permit x) tasks r
          <? permits)).

(** *** Ranks in a sorted list *)

Section Rank.
Context (now : DateTime).

Lemma rank_nonneg p l r : 0 ≤ rank now p l r.
Proof. unfold rank, zlen. lia. Qed.

Lemma rank_cons p x l r :
  rank now p (x :: l) r = (if p x && bool_decide (ahead now x r) then 1 else 0) + rank now p l r.
Proof. unfold rank, zlen. simpl. case_match; simpl; lia. Qed.

Lemma rank_perm p l k r : l ≡ₚ k → rank now p l r = rank now p k r.
Proof.
  induction 1 as [|x l k _ IH|x y l|l k m _ IH1 _ IH2]; rewrite ?rank_cons; lia.
Qed.

Lemma rank_filter p q l r : rank now p (List.filter q l) r = rank now (λ x, q x && p x) l r.
Proof.
  induction l as [|x l IH]; [done|]. rewrite rank_cons. simpl.
  destruct (q x); rewrite ?rank_cons, IH; simpl; lia.
Qed.

Lemma rank_ext p q l r : (∀ x, x ∈ l → p x = q x) → rank now p l r = rank now q l r.
Proof.
  induction l as [|x l IH]; intros H; [done|]. rewrite !rank_cons, IH, H; [done|by left|].
  intros y Hy. apply H. by right.
Qed.

(** Nothing behind a row counts towards its rank. *)
Lemma rank_behind p l r : Forall (ahead now r) l → rank now p l r = 0.
Proof.
  induction 1 as [|x l Hx _ IH]; [done|]. rewrite rank_cons, IH, bool_decide_false.
  - by rewrite andb_false_r.
  - intros Hr. apply (irreflexivity (ahead now) r). by etrans.
Qed.

Lemma rank_head p x l : Forall (ahead now x) l → rank now p (x :: l) x = 0.
Proof.
  intros H. rewrite rank_cons, rank_behind, bool_decide_false; [by rewrite andb_false_r|apply irreflexivity, _|done].
Qed.

Lemma sorted_head x l y :
  StronglySorted (ahead now) (x :: l) → y ∈ l → ahead now x y ∧ y ≠ x.
Proof.
  intros [_ Hx]%StronglySorted_inv Hy. rewrite Forall_forall in Hx. split; [by apply Hx|].
  intros ->. by apply (irreflexivity (ahead now) x), Hx.
Qed.

(** The first [n] of a sorted list are the rows with fewer than [n] ahead of them. *)
Lemma elem_of_take_rank l n r :
  StronglySorted (ahead now) l →
  r ∈ take n l ↔ r ∈ l ∧ rank now (λ _, true) l r < Z.of_nat n.
Proof.
  intros Hl. revert n. induction l as [|x l IH]; intros n; [by rewrite take_nil, elem_of_nil; naive_solver|].
  destruct n as [|n].
  { simpl. rewrite elem_of_nil. pose proof (rank_nonneg (λ _, true) (x :: l) r). split; [done|lia]. }
  assert (Hs := Hl). apply StronglySorted_inv in Hl as [Hl Hx]. specialize (IH Hl n). simpl.
  rewrite !elem_of_cons. destruct (decide (r = x)) as [->|Hne].
  { rewrite rank_head by done. split; [intros _; split; [by left|lia]|intros _; by left]. }
  rewrite rank_cons. split.
  - intros [?|Hr]; [done|]. apply IH in Hr as [Hr Hk]. split; [by right|].
    rewrite bool_decide_true by (by eapply sorted_head). simpl. lia.
  - intros [[?|Hr] Hk]; [done|]. right. apply IH. split; [done|].
    rewrite bool_decide_true in Hk by (by eapply sorted_head). simpl in Hk. lia.
Qed.

(** The walk of [retain_permitted] over rows. *)
Fixpoint permitted (permits : Z) (l : list TaskRecord) : list TaskRecord :=
  match l with
  | [] => []
  | r :: l => if t_cancelled r then permitted permits l
              else if bool_decide (t_kind r = Flow) then r :: permitted permits l
              else if permits =? 0 then permitted permits l else r :: permitted (permits - 1) l
  end.

Lemma elem_of_permitted l permits r :
  StronglySorted (ahead now) l → 0 ≤ permits →
  r ∈ permitted permits l ↔ r ∈ l ∧ t_cancelled r = false
    ∧ (t_kind r = Flow ∨ rank now costs_permit l r < permits).
Proof.
  intros Hl. revert permits. induction l as [|x l IH]; intros permits Hp.
  { simpl. rewrite elem_of_nil. naive_solver. }
  assert (Hs := Hl). apply StronglySorted_inv in Hl as [Hl Hx]. specialize (IH Hl).
  rewrite elem_of_cons. simpl. destruct (decide (r = x)) as [->|Hne].
  - assert (Hout : ∀ k, 0 ≤ k → x ∉ permitted k l).
    { intros k Hk Hin. apply IH in Hin as [Hin _]; [|done]. by eapply sorted_head in Hin as [_ ?]. }
    rewrite rank_head by done. destruct (t_cancelled x) eqn:Hc; [naive_solver|].
    case_bool_decide as Hf; [rewrite elem_of_cons; naive_solver|].
    destruct (permits =? 0) eqn:H0; [apply Z.eqb_eq in H0|apply Z.eqb_neq in H0; rewrite elem_of_cons].
    + split; [intros ?; by destruct (Hout permits)|]. intros (_ & _ & [?|?]); [done|lia].
    + split; [intros _|by left]. split_and!; [by left|done|right; lia].
  - assert (Hr : r ∈ l → rank now costs_permit (x :: l) r
      = (if costs_permit x then 1 else 0) + rank now costs_permit l r).
    { intros Hin. rewrite rank_cons, bool_decide_true by (by eapply sorted_head).
      by rewrite andb_true_r. }
    unfold costs_permit at 2 in Hr. pose proof (rank_nonneg costs_permit l r) as Hnn.
    assert (Hgoal : ∀ k l', (∀ y, y ∈ l' ↔ y ∈ permitted k l ∨ y = x) ∨ l' = permitted k l → 0 ≤ k →
      (r ∈ l → rank now costs_permit (x :: l) r < permits ↔ rank now costs_permit l r < k) →
      r ∈ l' ↔ (r = x ∨ r ∈ l) ∧ t_cancelled r = false
        ∧ (t_kind r = Flow ∨ rank now costs_permit (x :: l) r < permits)).
    { intros k l' Hl' Hk Hrk. assert (r ∈ l' ↔ r ∈ permitted k l) as -> by (destruct Hl' as [Hl'| ->]; [rewrite Hl'|]; naive_solver).
      rewrite IH by done. naive_solver. }
    destruct (t_cancelled x) eqn:Hc; simpl in Hr;
      [|case_bool_decide as Hf; simpl in Hr; [|destruct (permits =? 0) eqn:H0]].
    + apply (Hgoal permits); [by right|done|]. intros Hin. rewrite Hr; [|done]. lia.
    + apply (Hgoal permits); [left; intros y; rewrite elem_of_cons; naive_solver|done|].
      intros Hin. rewrite Hr; [|done]. lia.
    + apply Z.eqb_eq in H0. apply (Hgoal permits); [by right|done|]. intros Hin. rewrite Hr; [|done]. lia.
    + apply Z.eqb_neq in H0. apply (Hgoal (permits - 1)); [left; intros y; rewrite elem_of_cons; naive_solver|lia|].
      intros Hin. rewrite Hr; [|done]. lia.
Qed.
End Rank.

(** *** The rows behind the selected indices *)

Section Selection.
Context (tasks : list TaskRecord) (Hids : NoDup (ids tasks)).

Definition rows_at (l : list nat) : list TaskRecord := omap (λ i, tasks !! i) l.

Lemma elem_of_rows_at l r : r ∈ rows_at l ↔ ∃ i, i ∈ l ∧ tasks !! i = Some r.
Proof. apply list_elem_of_omap. Qed.

Lemma row_index i j r r' :
  tasks !! i = Some r → tasks !! j = Some r' → t_id r = t_id r' → i = j.
Proof.
  intros Hi Hj He. eapply (NoDup_lookup (ids tasks)); [done| |];
    unfold ids; rewrite list_lookup_fmap; [by rewrite Hi|rewrite Hj; simpl; congruence].
Qed.

Lemma rows_at_index l i r : tasks !! i = Some r → r ∈ rows_at l ↔ i ∈ l.
Proof.
  intros Hi. rewrite elem_of_rows_at. split; [|eauto].
  intros (j & Hj & Hr). by rewrite (row_index i j r r Hi Hr eq_refl).
Qed.

Lemma rows_at_permitted permits l :
  rows_at (retain_permitted tasks permits l) = permitted permits (rows_at l).
Proof.
  unfold rows_at. revert permits. induction l as [|i l IH]; intros permits; simpl; [done|].
  destruct (tasks !! i) as [r|] eqn:Hi; simpl; [|apply IH].
  repeat case_match; simpl; rewrite ?Hi; simpl; rewrite ?IH; done.
Qed.

Lemma rows_at_take n l : (∀ i, i ∈ l → is_Some (tasks !! i)) → rows_at (take n l) = take n (rows_at l).
Proof.
  unfold rows_at. revert n. induction l as [|i l IH]; intros [|n] H; simpl; [done..|].
  destruct (H i) as [r ->]; [by left|]. simpl. f_equal. apply IH. intros j Hj. apply H. by right.
Qed.

(** Candidates of distinct identities in readiness order are strictly sorted. *)
Lemma rows_at_sorted now l :
  NoDup l → ordered (option_le readiness_le) (index_key tasks now) l →
  StronglySorted (ahead now) (rows_at l).
Proof.
  unfold rows_at. induction l as [|i l IH]; intros Hn Ho; simpl; [constructor|].
  apply NoDup_cons in Hn as [Hi Hn]. apply StronglySorted_inv in Ho as [Ho Hx].
  destruct (tasks !! i) as [r|] eqn:Hr; simpl; [|by apply IH]. constructor; [by apply IH|].
  apply Forall_forall. intros x Hxl. apply elem_of_rows_at in Hxl as (j & Hj & Hxj).
  rewrite Forall_forall in Hx. specialize (Hx j Hj). unfold index_key in Hx.
  rewrite Hr, Hxj in Hx. simpl in Hx. unfold readiness_le, readiness in Hx. unfold ahead.
  assert (t_id r ≠ t_id x).
  { intros He. apply Hi. by rewrite (row_index i j r x Hr Hxj He). }
  cbv zeta. lia.
Qed.

Lemma awaiting_due r now : is_due r now = awaiting now r.
Proof.
  unfold is_due, awaiting, ready_by. destruct (t_status r), (t_ready_at r); reflexivity.
Qed.

Lemma elem_of_candidates lane permits now i r :
  tasks !! i = Some r →
  i ∈ lane_candidates tasks lane permits now ↔ contends lane permits now r = true.
Proof.
  intros Hi. unfold lane_candidates. rewrite sort_candidates_perm. unfold contends.
  rewrite !andb_true_iff, orb_true_iff, <- awaiting_due, String.eqb_eq, bool_decide_eq_true.
  assert (Hd : i ∈ due_indices tasks lane now ↔ t_lane r = lane ∧ is_due r now = true).
  { rewrite elem_of_due_indices. naive_solver. }
  destruct (permits =? 0); simpl; [|rewrite Hd; naive_solver].
  rewrite list_elem_of_In, filter_In, <- list_elem_of_In, Hd. unfold is_flow. rewrite Hi.
  rewrite bool_decide_eq_true. naive_solver.
Qed.

Lemma sorted_filter_perm now p l :
  StronglySorted (ahead now) l → (∀ r, r ∈ l ↔ r ∈ tasks ∧ p r = true) → l ≡ₚ List.filter p tasks.
Proof.
  intros Hl Hr. apply NoDup_Permutation.
  - clear -Hl. induction Hl as [|x l _ IH Hx]; constructor; [|done]. intros Hin.
    rewrite Forall_forall in Hx. by apply (irreflexivity (ahead now) x), Hx.
  - rewrite NoDup_ListNoDup. apply List.NoDup_filter. rewrite <- NoDup_ListNoDup.
    by eapply NoDup_fmap_1.
  - intros r. rewrite Hr, (list_elem_of_In (List.filter _ _)), filter_In, <- list_elem_of_In. done.
Qed.

Lemma sorted_candidates lane permits now :
  StronglySorted (ahead now) (rows_at (lane_candidates tasks lane permits now)).
Proof. apply rows_at_sorted; [apply sublist_due|apply sort_candidates_ordered]. Qed.

Lemma candidates_rows lane permits now :
  rows_at (lane_candidates tasks lane permits now) ≡ₚ List.filter (contends lane permits now) tasks.
Proof.
  eapply sorted_filter_perm; [apply sorted_candidates|]. intros r. rewrite elem_of_rows_at. split.
  - intros (i & Hi & Hr). split; [by eapply list_elem_of_lookup_2|]. by eapply elem_of_candidates.
  - intros [Hr Hc]. apply list_elem_of_lookup in Hr as [i Hi]. exists i. split; [|done].
    by eapply elem_of_candidates.
Qed.

(** The window as a list, and as a property of rows. *)
Lemma window_rows claim permits now :
  0 ≤ lcl_limit claim →
  let window := take (Z.to_nat (lcl_limit claim))
                  (rows_at (lane_candidates tasks (lcl_lane claim) permits now)) in
  StronglySorted (ahead now) window
  ∧ window ≡ₚ List.filter (in_window tasks claim permits now) tasks.
Proof.
  intros Hl window. assert (Hs := sorted_candidates (lcl_lane claim) permits now).
  assert (Hw : StronglySorted (ahead now) window).
  { eapply StronglySorted_app_1_l. unfold window. by rewrite take_drop. }
  split; [done|]. eapply sorted_filter_perm; [done|]. intros r. unfold window.
  rewrite elem_of_take_rank by done. rewrite candidates_rows at 1.
  rewrite (rank_perm _ _ _ _ _ (candidates_rows _ _ _)), rank_filter.
  rewrite (list_elem_of_In (List.filter _ _)), filter_In, <- list_elem_of_In.
  unfold in_window. rewrite andb_true_iff, Z.ltb_lt.
  rewrite (rank_ext _ _ (contends (lcl_lane claim) permits now) tasks r) by
    (intros; apply andb_true_r).
  rewrite Z2Nat.id by done. naive_solver.
Qed.

(** Exactly the rows [takes] names are selected, the earliest first. *)
Lemma selected_rows claim permits now :
  0 ≤ lcl_limit claim → 0 ≤ permits →
  StronglySorted (ahead now) (rows_at (selected tasks claim permits now))
  ∧ ∀ r, r ∈ rows_at (selected tasks claim permits now)
         ↔ r ∈ tasks ∧ takes tasks claim permits now r = true.
Proof.
  intros Hl Hp. split.
  { apply rows_at_sorted; [apply selected_nodup|].
    eapply ordered_sublist; [apply selected_sublist|apply sort_candidates_ordered]. }
  intros r. destruct (window_rows claim permits now Hl) as [Hs Hperm].
  unfold selected. rewrite rows_at_permitted, rows_at_take.
  2: { intros i Hi. apply sublist_due, elem_of_due_indices in Hi as (x & Hx & _). eauto. }
  rewrite elem_of_permitted by done. rewrite Hperm at 1.
  rewrite (rank_perm _ _ _ _ _ Hperm), rank_filter.
  rewrite (list_elem_of_In (List.filter _ _)), filter_In, <- list_elem_of_In.
  unfold takes. rewrite !andb_true_iff, orb_true_iff, negb_true_iff, bool_decide_eq_true, Z.ltb_lt.
  naive_solver.
Qed.

Lemma rows_at_count p q l :
  (∀ i, i ∈ l → ∃ r, tasks !! i = Some r ∧ q i = p r) →
  zlen (List.filter p (rows_at l)) = zlen (List.filter q l).
Proof.
  unfold rows_at, zlen. induction l as [|i l IH]; intros H; [done|].
  destruct (H i) as (r & Hr & Hq); [by left|]. cbn [omap list_omap]. rewrite Hr. simpl. rewrite Hq.
  specialize (IH (λ j Hj, H j (list_elem_of_further _ _ _ Hj))). destruct (p r); simpl; lia.
Qed.

Lemma rows_at_length l : (∀ i, i ∈ l → is_Some (tasks !! i)) → length (rows_at l) = length l.
Proof.
  unfold rows_at. induction l as [|i l IH]; intros H; [done|]. cbn [omap list_omap].
  destruct (H i) as [r ->]; [by left|]. simpl. f_equal. apply IH. intros j Hj. apply H. by right.
Qed.

(** A row by row image of the indices is the image of the rows. *)
Lemma rows_at_map {B} (f : TaskRecord → B) l (k : list B) :
  Forall2 (λ i y, ∃ r, tasks !! i = Some r ∧ y = f r) l k → k = f <$> rows_at l.
Proof.
  unfold rows_at. induction 1 as [|i y l k (r & Hr & ->) _ ->]; [done|]. simpl. by rewrite Hr.
Qed.
End Selection.

(** ** The failing pass *)

Section FailingPass.
Context `{X : Externals, L : !ExternalLaws X}.

(** What one candidate becomes: left alone with attempts to spare, or terminal. *)
Definition passed (policy : TaskRetry) (before after : TaskRecord) : Prop :=
  (after = before ∧ t_cancelled before = false ∧ 0 ≤ t_step_attempts before < max_attempts policy)
  ∨ is_terminal (t_status after) = true.

Lemma fail_candidate_spec conf policy now i t u t' :
  fail_candidate conf policy now i t = (Ok u, t') →
  (∀ j, j ≠ i → tn_tasks t' !! j = tn_tasks t !! j)
  ∧ ∃ r r', tn_tasks t !! i = Some r ∧ tn_tasks t' !! i = Some r' ∧ passed policy r r'.
Proof.
  unfold fail_candidate. rewrite bindM_gets, bindM_liftR. intros H.
  destruct (tn_tasks t !! i) as [r|] eqn:Hi; [|done]. simpl in H.
  apply bindM_ok in H as (b & t1 & Hb & H).
  assert (t1 = t) as -> by (destruct (t_cancelled r); unfold retM, liftR in Hb; by simplify_eq).
  destruct b.
  - apply fail_row_run in H as (r1 & e & d & Ha & _ & ->); [|done].
    change (tn_tasks (put_tasks ?l ?u)) with l. split; [intros j Hj; by apply list_lookup_insert_ne|].
    exists r. eexists. split_and!; [done|apply list_lookup_insert_eq; by eapply lookup_lt_Some|].
    right. simpl. apply apply_outcome_ok in Ha.
    destruct (t_cancelled r); cbn [outcome_record cancellation outcome_fail] in Ha; by subst r1.
  - unfold retM in H. simplify_eq. split; [done|]. exists r, r. split_and!; [done..|]. left.
    destruct (t_cancelled r); [done|]. unfold liftR in Hb. injection Hb as Hb.
    apply exhausted_ok in Hb as [? Hb]. split_and!; [done..|lia].
Qed.

Lemma fail_pass_spec conf policy now l t u t' :
  for_eachM l (fail_candidate conf policy now) t = (Ok u, t') → NoDup l →
  ∀ i r', tn_tasks t' !! i = Some r' →
  (i ∉ l ∧ tn_tasks t !! i = Some r')
  ∨ (i ∈ l ∧ ∃ r, tn_tasks t !! i = Some r ∧ passed policy r r').
Proof.
  revert t. induction l as [|k l IH]; intros t H Hn i r' Hi; simpl in H.
  { unfold retM in H. simplify_eq. left. split; [|done]. apply not_elem_of_nil. }
  apply NoDup_cons in Hn as [Hk Hn]. apply bindM_ok in H as ([] & t1 & H1 & H).
  apply fail_candidate_spec in H1 as (Hj & r & r1 & Hr & Hr1 & Hp).
  destruct (IH t1 H Hn i r' Hi) as [[Hil Hi1]|(Hil & x & Hx & Hpx)].
  - destruct (decide (i = k)) as [->|Hik].
    + right. split; [by left|]. exists r. split; [done|]. by simplify_eq.
    + left. rewrite <- Hj by done. split; [by apply not_elem_of_cons|done].
  - right. split; [by right|]. exists x. split; [|done]. rewrite <- Hj; [done|congruence].
Qed.
End FailingPass.

Section Store.
Context `{X : Externals, L : !ExternalLaws X}.

(** C1: in every state any sequence of store operations reaches from a new store, succeeding or
    failing, at any times, task identities are unique, no two active tasks of a handler hold the
    same idempotency key, and every record is well formed: an owner only while running, a
    completion time and a bounded result exactly when terminal, counters in range, and a
    cancelled task has failed. *)
Theorem reachable_tables_well_formed params conf ops :
  Forall (λ op, op_fresh op.1) ops →
  tasks_ok (st_tasks (run_ops params ops (memory_store_new conf))).
Proof. intros Hf. apply run_ops_progress; [apply new_store_ok|done]. Qed.

(** C2: the store refines the task lifecycle: whatever operations run, a stored task never
    disappears, keeps its identity, moves only along the lifecycle's steps, is never charged
    fewer attempts, and once terminal its record never changes again. *)
Theorem history_refines_lifecycle params conf before after i r :
  Forall (λ op, op_fresh op.1) before → Forall (λ op, op_fresh op.1) after →
  st_tasks (run_ops params before (memory_store_new conf)) !! i = Some r →
  ∃ r', st_tasks (run_ops params after (run_ops params before (memory_store_new conf))) !! i = Some r'
    ∧ same_identity r r' ∧ rtc lifecycle (phase r) (phase r') ∧ t_attempts r ≤ t_attempts r'
    ∧ (is_terminal (t_status r) = true → r' = r).
Proof.
  intros Hb Ha Hi.
  assert (Hok : tasks_ok (st_tasks (run_ops params before (memory_store_new conf))))
    by (apply run_ops_progress; [apply new_store_ok|done]).
  destruct (run_ops_progress params after _ Hok Ha) as [_ Hp]. destruct (Hp i r Hi) as (r' & Hr' & He).
  exists r'. split_and!; [done|apply He|apply He|by apply evolves_attempts|apply He].
Qed.

(** C3: a failing operation changes nothing: in every reachable state, whichever operation is
    called, when it answers an error the guarded state is the one before, although a claim or
    commit turn may already have written rows, buckets and lane locks. *)
Theorem failed_operations_change_nothing params conf ops op now :
  Forall (λ o, op_fresh o.1) ops →
  let s := run_ops params ops (memory_store_new conf) in
  op_succeeds params op now s = false → st_state (run_op params op now s) = st_state s.
Proof.
  intros Hf s. apply run_op_failure.
  apply (run_ops_progress params ops (memory_store_new conf) (new_store_ok conf) Hf).
Qed.

(** What one claim answers, row for row. *)
Lemma claim_lane_poll runner claim permits now lease t poll t' :
  claim_lane runner claim permits now lease t = (Ok poll, t') →
  lp_reclaimed poll
    = zlen (List.filter (is_running (tn_tasks t)) (selected (tn_tasks t) claim permits now))
  ∧ lp_saturated poll
    = (0 <? lcl_limit claim)
      && (lcl_limit claim <=? zlen (lane_candidates (tn_tasks t) (lcl_lane claim) permits now)).
Proof.
  unfold claim_lane. rewrite bindM_gets. cbv zeta. intros H.
  apply bindM_ok in H as (rs & t1 & _ & H). unfold retM in H. by simplify_eq.
Qed.

(** C4: a claim takes exactly the rows [takes] names, which says of the rows alone: unowned,
    pending or running, ready and uncancelled records of the lane, those with fewer than the
    requested number of contenders ahead of them (by ready time, submission time, identity), and
    of these every Flow record and the Work records with fewer than the permits of Work ahead of
    them. It answers them in that order, each charged one attempt and given to the runner, and
    writes exactly these rows: every other row, the configuration and the deliveries are
    untouched. The counts of reclaimed rows and the saturation it reports are the true ones. *)
Theorem claim_takes_due_work runner claim permits now lease t poll t' :
  claim_lane runner claim permits now lease t = (Ok poll, t') →
  NoDup (ids (tn_tasks t)) → 0 ≤ lcl_limit claim → 0 ≤ permits →
  ∃ rows,
    StronglySorted (ahead now) rows
    ∧ (∀ r, r ∈ rows ↔ r ∈ tn_tasks t ∧ takes (tn_tasks t) claim permits now r = true)
    ∧ lp_tasks poll = claimed runner now <$> rows
    ∧ tn_tasks t' = (λ r, if takes (tn_tasks t) claim permits now r then claimed runner now r
                          else r) <$> tn_tasks t
    ∧ zlen rows ≤ lcl_limit claim
    ∧ zlen (List.filter (λ r, bool_decide (t_kind r = Work)) rows) ≤ permits
    ∧ lp_lane poll = lcl_lane claim
    ∧ lp_reclaimed poll = zlen (List.filter (λ r, bool_decide (t_status r = Running)) rows)
    ∧ lp_saturated poll
      = (0 <? lcl_limit claim)
        && (lcl_limit claim
            <=? zlen (List.filter (contends (lcl_lane claim) permits now) (tn_tasks t)))
    ∧ tn_deliveries t' = tn_deliveries t
    ∧ ms_conf (tn_state t') = ms_conf (tn_state t).
Proof.
  intros H Hn Hl Hp. apply claim_lane_poll in H as Hpoll. destruct Hpoll as [Hrec Hsat].
  apply claim_lane_ok in H as (Hlane & Hf & Hrow & Hd & Hc). set (l := selected _ _ _ _) in *.
  destruct (selected_rows (tn_tasks t) Hn claim permits now Hl Hp) as [Hs Hin].
  exists (rows_at (tn_tasks t) l). fold l in Hs, Hin.
  assert (Hv : ∀ i, i ∈ l → is_Some (tn_tasks t !! i))
    by (intros i Hi; apply selected_due in Hi as (r & ? & _); eauto).
  split_and!; [done|done| | | | |done| | |done|done].
  - apply rows_at_map. eapply Forall2_impl; [exact Hf|]. intros i r' (r & Hr & -> & _). eauto.
  - apply list_eq. intros j. rewrite Hrow, list_lookup_fmap.
    destruct (tn_tasks t !! j) as [r|] eqn:Hj; [|done]. simpl. f_equal.
    assert (Hiff : j ∈ l ↔ takes (tn_tasks t) claim permits now r = true).
    { rewrite <- (rows_at_index _ Hn l j r Hj), Hin. split; [by intros [_ ?]|].
      intros ?. split; [by eapply list_elem_of_lookup_2|done]. }
    destruct (takes _ _ _ _ r); [by rewrite bool_decide_true by tauto|].
    rewrite bool_decide_false; [done|]. intros Hj'. by apply Hiff in Hj'.
  - unfold zlen. rewrite rows_at_length by done. by apply selected_length.
  - rewrite (rows_at_count _ _ (is_work (tn_tasks t))); [by apply retain_permitted_work|].
    intros i Hi. destruct (Hv i Hi) as [r Hr]. exists r. unfold is_work. by rewrite Hr.
  - rewrite Hrec. symmetry. apply rows_at_count.
    intros i Hi. destruct (Hv i Hi) as [r Hr]. exists r. unfold is_running. by rewrite Hr.
  - rewrite Hsat. unfold zlen. rewrite <- (Permutation_length (candidates_rows _ Hn _ _ _)).
    rewrite rows_at_length; [done|]. intros i Hi. apply sublist_due, elem_of_due_indices in Hi as (x & Hx & _). eauto.
Qed.

(** When the lane has no more due records than the claim's window, no record the failing
    pass leaves due is out of attempts: every record claimed from it may still run. *)
Theorem failing_pass_covers_window lane limit now conf policy t u t' :
  fail_exhausted lane limit now conf policy t = (Ok u, t') →
  zlen (due_indices (tn_tasks t) lane now) ≤ limit →
  ∀ i r, tn_tasks t' !! i = Some r → t_lane r = lane → is_due r now = true →
  t_cancelled r = false ∧ 0 ≤ t_step_attempts r < max_attempts policy.
Proof.
  intros H Hlim i r Hi Hlane Hdue. unfold fail_exhausted in H. rewrite bindM_gets in H.
  rewrite take_ge in H by (rewrite (Permutation_length (sort_candidates_perm _ _ _));
    unfold zlen in Hlim; lia).
  eapply fail_pass_spec in H; [|rewrite sort_candidates_perm; apply due_indices_nodup|exact Hi].
  destruct H as [[Hin Hr]|(_ & r0 & _ & [(-> & Hc & Hs)|Ht])]; [|done|].
  - destruct Hin. rewrite sort_candidates_perm. apply elem_of_due_indices. eauto.
  - by destruct (is_due_active r now Hdue) as [Hs|Hs]; rewrite Hs in Ht.
Qed.
End Store.

#[local] Existing Instances DemoExternals.externals DemoExternals.laws.

Lemma demo_ops_fresh : Forall (λ op, op_fresh op.1) demo_ops.
Proof. repeat constructor. Defined.

Lemma reachable_tables_well_formed_witness :
  tasks_ok (st_tasks (run_ops demo_params demo_ops (memory_store_new demo_conf))).
Proof. apply (reachable_tables_well_formed demo_params demo_conf demo_ops). repeat constructor. Defined.

(** Claimed, then committed. *)
Definition demo_turns : list (StoreOp * DateTime) :=
  [ (OpClaimTasks node1 [demo_claim "default" 8], from_secs 1);
    (OpCommitTasks [all_commit; done_commit], from_secs 2) ].

Lemma demo_turns_fresh : Forall (λ op, op_fresh op.1) demo_turns.
Proof. repeat constructor. Defined.

(** The flow task submitted first is claimed, charged one attempt and suspended. *)
Lemma history_refines_lifecycle_witness :
  ∃ r', st_tasks (run_ops demo_params demo_turns demo_state) !! 0%nat = Some r'
    ∧ rtc lifecycle {| ph_status := Pending; ph_cancelled := false; ph_attempts := 0 |} (phase r').
Proof.
  assert (Hi : st_tasks (run_ops demo_params demo_ops (memory_store_new demo_conf)) !! 0%nat
    = Some (stamp 0 (Some 0) (demo_record 10 Flow "flow" "default"))) by (vm_compute; reflexivity).
  pose proof (history_refines_lifecycle demo_params demo_conf demo_ops demo_turns 0%nat _
    demo_ops_fresh demo_turns_fresh Hi) as H.
  destruct H as (r' & Hr' & _ & Hl & _). exists r'. split; [exact Hr'|exact Hl].
Defined.

Definition wrong_lane_commit : StoreOp :=
  OpCommitTasks [all_commit; CommitOutcome node1 1 11 "mail" OutComplete None].

(** A wrong lane in the batch fails the whole turn. *)
Lemma failed_operations_change_nothing_witness :
  op_succeeds demo_params wrong_lane_commit 0 claimed_state = false
  ∧ st_state (run_op demo_params wrong_lane_commit 0 claimed_state) = st_state claimed_state.
Proof.
  assert (Hf : Forall (λ o, op_fresh o.1) claimed_ops) by repeat constructor.
  assert (He : op_succeeds demo_params wrong_lane_commit 0
    (run_ops demo_params claimed_ops (memory_store_new demo_conf)) = false)
    by (vm_compute; reflexivity).
  split; [exact He|].
  exact (failed_operations_change_nothing demo_params demo_conf claimed_ops wrong_lane_commit 0 Hf He).
Defined.

(** With one permit and a window of one the flow submitted first is taken, the work task behind it
    is not; with a window of eight both are. *)
Lemma claim_takes_due_work_witness :
  t_id <$> List.filter (takes (st_tasks demo_state) (demo_claim "default" 1) 1 (from_secs 1))
    (st_tasks demo_state) = [10%N]
  ∧ t_id <$> List.filter (takes (st_tasks demo_state) (demo_claim "default" 8) 1 (from_secs 1))
    (st_tasks demo_state) = [10%N; 11%N]
  ∧ ∃ poll t' rows,
      claim_lane node1 (demo_claim "default" 1) 1 (from_secs 1) 0 (turn_of demo_state) = (Ok poll, t')
      ∧ lp_tasks poll = claimed node1 (from_secs 1) <$> rows
      ∧ ∀ r, r ∈ rows ↔ r ∈ st_tasks demo_state
          ∧ takes (st_tasks demo_state) (demo_claim "default" 1) 1 (from_secs 1) r = true.
Proof.
  split; [vm_compute; reflexivity|]. split; [vm_compute; reflexivity|].
  destruct (claim_lane node1 (demo_claim "default" 1) 1 (from_secs 1) 0 (turn_of demo_state))
    as [[poll|e] t'] eqn:H; [|vm_compute in H; discriminate].
  destruct (claim_takes_due_work node1 (demo_claim "default" 1) 1 (from_secs 1) 0 _ poll t' H)
    as (rows & _ & Hin & Hp & _).
  - apply (tk_nodup _ (proj1 (run_ops_progress demo_params demo_ops (memory_store_new demo_conf)
      (new_store_ok demo_conf) demo_ops_fresh))).
  - vm_compute; discriminate.
  - vm_compute; discriminate.
  - exists poll, t', rows. split; [reflexivity|]. split; [exact Hp|exact Hin].
Defined.

Lemma failing_pass_covers_window_witness :
  Forall (λ r, is_due r (from_secs 1) = true → t_lane r = "default"%string →
               t_step_attempts r < 2) (st_tasks demo_state).
Proof.
  destruct (fail_exhausted "default" 8 (from_secs 1) demo_conf demo_retry (turn_of demo_state))
    as [[[]|e] t'] eqn:H; [|vm_compute in H; discriminate].
  assert (Ht : tn_tasks t' = st_tasks demo_state)
    by (vm_compute in H; injection H as <-; vm_compute; reflexivity).
  apply Forall_lookup. intros i r Hi Hd Hl.
  apply (failing_pass_covers_window "default" 8 (from_secs 1) demo_conf demo_retry _ _ _ H
    ltac:(vm_compute; discriminate) i r); [rewrite Ht; exact Hi|exact Hl|exact Hd].
Defined.

(** ** Exhausted rows beyond the failing pass's window

    [fail_exhausted] looks at the first rows of the window, [claim_lane] then selects a window
    anew: once the first rows are finalized, rows the pass never looked at move into it. *)

(** Claimed and abandoned twice: both tasks used the two attempts their policy allows. *)
Definition abandoned_state : StoreState :=
  run_ops demo_params (demo_ops ++
    [ (OpClaimTasks node1 [demo_claim "default" 8], from_secs 1);
      (OpReturnClaims (Some node1), from_secs 2);
      (OpClaimTasks node1 [demo_claim "default" 8], from_secs 3);
      (OpReturnClaims (Some node1), from_secs 4) ]) (memory_store_new demo_conf).

(** The status and the attempts of the current step of every row after a claim of one task. *)
Definition after_third_claim : list (TaskStatus * Z) :=
  (λ r, (t_status r, t_step_attempts r)) <$>
    st_tasks (claim_tasks demo_params node1 [demo_claim "default" 1] (from_secs 5) abandoned_state).2.

(** A claim of one task from a lane with two records that used both their attempts fails the
    first as exhausted and starts a third attempt of the second, beyond the policy's maximum. *)
Example exhausted_row_beyond_window_is_claimed :
  max_attempts demo_retry = 2 ∧ after_third_claim = [(Failed, 2); (Running, 3)].
Proof. vm_compute. split; reflexivity. Qed.
