(* ===== verification/CommitTheorems.v ===== *)
(** * Commits: fencing, acceptance, cancellation, resumption of parents *)
From S2P Require Import Prelude Externals Failure Config Rate Models Transitions Lifecycle.
From S2P Require Import MemoryState LaneLock Workflow Claims.
From S2P Require Import Evolution ClaimFacts Commits Atomic.
From S2P Require Import Turns StoreSpec.
#[local] Open Scope Z_scope.

Section CommitFacts.
Context `{X : Externals, L : !ExternalLaws X}.

Lemma set_tasks_same s : set_tasks (ms_tasks s ++ []) s = s.
Proof. rewrite app_nil_r. by destruct s. Qed.

(** How a commit fares against the state its batch began with. *)

Definition current (state : MemoryState) (now : DateTime) (c : TaskCommit) : bool :=
  match memory_commit_allowed state c now, owned_task state c with
  | Ok true, Ok (Some _) => true
  | _, _ => false
  end.
Definition refused (state : MemoryState) (now : DateTime) (c : TaskCommit) : Prop :=
  memory_commit_allowed state c now = Ok false ∨ owned_task state c = Ok None.

(** A batch none of whose commits is accepted stages nothing. *)
Lemma stage_commits_none state now commits :
  (∀ c, c ∈ commits → refused state now c) →
  ∀ seen b u b', stage_commits state seen commits now b = (Ok u, b') → b' = b.
Proof.
  induction commits as [|c commits IH]; intros Hno seen b u b' H; simpl in H.
  { unfold retM in H. by simplify_eq. }
  case_bool_decide; [done|]. apply bindM_liftR_ok in H as (allowed & Ha & H).
  assert (IH' := IH (λ d Hd, Hno d (list_elem_of_further _ _ _ Hd))).
  destruct (Hno c) as [Hc|Hc]; [by left|rewrite Hc in Ha; simplify_eq; exact (IH' _ _ _ _ H)|].
  destruct allowed; [|exact (IH' _ _ _ _ H)]. apply bindM_liftR_ok in H as (owned & Ho & H).
  rewrite Hc in Ho. simplify_eq. exact (IH' _ _ _ _ H).
Qed.

Lemma owned_task_some state c i r :
  NoDup (ids (ms_tasks state)) → ms_tasks state !! i = Some r → accepted_by c r = true →
  commit_lane c = None ∨ commit_lane c = Some (t_lane r) →
  owned_task state c = Ok (Some (i, r)).
Proof.
  intros Hn Hi Hacc Hlane. unfold owned_task.
  destruct (find_index_from 0 _ _) as [[j x]|] eqn:Hf.
  - apply find_index_from_ok in Hf as (k & -> & Hk & Hp). simpl in *.
    assert (k = i) as ->.
    { unfold accepted_by, has_id in *. apply andb_prop in Hp as [Hp _], Hacc as [Hacc _].
      apply N.eqb_eq in Hp, Hacc. eapply (NoDup_lookup (ids (ms_tasks state))); [done| |];
        unfold ids; rewrite list_lookup_fmap; [by rewrite Hk|rewrite Hi; simpl; congruence]. }
    simplify_eq. destruct Hlane as [-> | ->]; [done|]. by rewrite String.eqb_refl.
  - eapply find_index_from_none in Hf; [by rewrite Hf in Hacc|]. by eapply list_elem_of_lookup_2.
Qed.

(** The run of a commit turn: its fallible body, then its finalizers. *)
Lemma commit_tasks_body params commits now s res s' :
  commit_tasks params commits now s = (Ok res, s') →
  ∃ batch phases poll0 t poll t',
    turn_body None [] commits (store_lease_duration params) now (turn_of s)
      = (Ok (batch, phases, poll0), t)
    ∧ turn_finish batch phases poll0 commits now t = ((poll, res), t')
    ∧ st_state s' = tn_state t'.
Proof.
  unfold commit_tasks. intros H. apply bindM_ok in H as (r & s1 & H & Hr).
  unfold retM in Hr. simplify_eq. unfold before_commit in H.
  destruct (atomic_operation _ _ _ _ _ _ s) as [[r0|e] s2] eqn:Ha; simplify_eq.
  unfold atomic_operation in Ha. destruct (validate_turn _ _ _); [|done].
  destruct (run_turn _ _ _ _ _ _) as [[r0|e] t] eqn:Hrun; [|done]. simplify_eq.
  unfold run_turn in Hrun. apply bindM_ok in Hrun as ([[b p] q] & t1 & Hb & Hfin).
  destruct (turn_finish _ _ _ _ _ _) as [[poll res'] t4] eqn:Hf. simplify_eq.
  by exists b, p, q, t1, poll, t.
Qed.

Lemma turn_body_commits commits lease now s batch phases poll t :
  turn_body None [] commits lease now (turn_of s) = (Ok (batch, phases, poll), t) →
  poll = empty_poll ∧ ∃ u t1,
    stage_outcomes (st_state s) commits now = Ok batch
    ∧ for_eachM (bt_updates batch) apply_update (turn_of s) = (Ok u, t1)
    ∧ phases = ml_phase <$> ms_lane_locks (tn_state t1)
    ∧ t = put_turn_deliveries (bt_deliveries batch) t1.
Proof.
  unfold turn_body, commit_outcomes_state. intros Hb.
  apply bindM_ok in Hb as (b0 & t2 & Hc & Hb). rewrite bindM_gets in Hc.
  apply bindM_liftR_ok in Hc as (b1 & Hs & Hc). apply bindM_ok in Hc as (u & t3 & Hu & Hc).
  unfold retM in Hc. simplify_eq. rewrite bindM_modify, bindM_gets in Hb.
  rewrite bindM_ret in Hb. unfold retM in Hb. simplify_eq. split; [done|].
  by exists u, t2.
Qed.

Lemma commit_tasks_run params commits now s res s' :
  commit_tasks params commits now s = (Ok res, s') →
  ∃ batch u t poll t',
    stage_outcomes (st_state s) commits now = Ok batch
    ∧ for_eachM (bt_updates batch) apply_update (turn_of s) = (Ok u, t)
    ∧ turn_finish batch (ml_phase <$> ms_lane_locks (tn_state t)) empty_poll commits now
        (put_turn_deliveries (bt_deliveries batch) t) = ((poll, res), t')
    ∧ st_state s' = tn_state t'.
Proof.
  intros H. apply commit_tasks_body in H as (b & p & q & t & poll & t' & Hb & Hf & Hst).
  apply turn_body_commits in Hb as (-> & u & t1 & Hs & Hu & -> & ->). by exists b, u, t1, poll, t'.
Qed.

(** Without waits, finishing a commit turn only inserts the children and delivers. *)
Lemma turn_finish_commit batch phases commits now t poll res t' :
  turn_finish batch phases empty_poll commits now t = ((poll, res), t') → bt_waits batch = [] →
  ms_tasks (tn_state t') = ms_tasks (finalize_workflow (bt_children batch) (tn_deliveries t) now (tn_state t)).2
  ∧ cr_rejected res
    = List.filter (λ id, negb (existsb (has_id id) (tn_undo t))) (commit_task_id <$> commits).
Proof.
  unfold turn_finish. intros H Hw. rewrite Hw in H. simpl in H.
  destruct (finalize_workflow _ _ _ _) as [more s1] eqn:Hf. simplify_eq. simpl.
  split; [|done]. by rewrite clear_terminal_tasks.
Qed.

(** Delivery writes suspended rows only. *)
Lemma update_first_keep {A} (p : A → bool) f l i x :
  l !! i = Some x → p x = false → update_first p f l !! i = Some x.
Proof.
  revert i. induction l as [|y l IH]; intros i Hi Hp; [done|]. simpl.
  destruct i as [|i]; simpl in Hi.
  - simplify_eq. by rewrite Hp.
  - destruct (p y); simpl; [done|by apply IH].
Qed.

Lemma deliver_group_keep now s names group i r :
  ms_tasks s !! i = Some r → awaits_delivery group.1 r = false →
  ms_tasks (deliver_group now (s, names) group).1 !! i = Some r.
Proof.
  intros Hi Hs. unfold deliver_group. destruct group as [id [count result]]. simpl in Hs.
  repeat case_match; simpl; try done; by apply update_first_keep.
Qed.

Lemma deliver_groups_keep now groups s names i r :
  ms_tasks s !! i = Some r → Forall (λ g : TaskId * (Z * string), awaits_delivery g.1 r = false) groups →
  ms_tasks (fold_left (deliver_group now) groups (s, names)).1 !! i = Some r.
Proof.
  intros Hi Hg. revert s names Hi. induction Hg as [|g groups Hg _ IH]; intros s names Hi; simpl; [done|].
  destruct (deliver_group now (s, names) g) as [s' names'] eqn:Hd. apply IH.
  change s' with (s', names').1. rewrite <- Hd. by apply deliver_group_keep.
Qed.

Lemma finalize_workflow_keep children deliveries now s i r :
  ms_tasks s !! i = Some r →
  Forall (λ g : TaskId * (Z * string), awaits_delivery g.1 r = false) (group_deliveries deliveries) →
  ms_tasks (finalize_workflow children deliveries now s).2 !! i = Some r.
Proof.
  intros Hi Hs. unfold finalize_workflow.
  pose proof (deliver_groups_keep now (group_deliveries deliveries)
    (set_tasks (ms_tasks s ++ children) s) (t_lane <$> children) i r) as Hd.
  destruct (fold_left _ _ _) as [s' names]. apply Hd; [|done].
  simpl. by apply lookup_app_l_Some.
Qed.

(** One accepted commit that is not a join. *)
Lemma commit_one_run params c now s res s' i r :
  commit_tasks params [c] now s = (Ok res, s') → tasks_ok (st_tasks s) →
  memory_commit_allowed (st_state s) c now = Ok true →
  owned_task (st_state s) c = Ok (Some (i, r)) → is_all (commit_outcome c) = false →
  ∃ task' b, staged_task (st_state s) r c now empty_batch = (Ok task', b)
    ∧ st_tasks s' = ms_tasks (finalize_workflow (bt_children b) (bt_deliveries b) now
        (set_tasks (<[i:=task']> (st_tasks s)) (st_state s))).2
    ∧ cr_rejected res = [].
Proof.
  intros H Hok Hal Ho Hna. apply commit_tasks_run in H as (batch & u & t & poll & t' & Hs & Hu & Hf & Hst).
  unfold stage_outcomes in Hs. simpl in Hs.
  destruct (bool_decide (commit_task_id c ∈ [])) eqn:Hb;
    [by apply bool_decide_eq_true, elem_of_nil in Hb|].
  rewrite bindM_liftR, Hal in Hs. simpl in Hs. rewrite bindM_liftR, Ho in Hs.
  rewrite Hna in Hs. simpl in Hs. unfold bindM at 1 in Hs.
  destruct (staged_task (st_state s) r c now empty_batch) as [[task'|e] b] eqn:Hrun; [|done].
  rewrite bindM_ret, bindM_modify in Hs. unfold retM in Hs. simplify_eq.
  exists task', b. assert (Hstage := Hrun).
  apply staged_task_ok in Hrun as (conf & o & p & t1 & _ & _ & _ & _ & _ & Hub & Hwb & _).
  simpl in Hu, Hub, Hwb. rewrite Hub in Hu. simpl in Hu. apply bindM_ok in Hu as (u1 & t2 & Hu & Hend).
  unfold retM in Hend. simplify_eq. apply apply_update_run in Hu as (r0 & Hr0 & ->). simpl in Hr0.
  apply turn_finish_commit in Hf as [Ht Hrej]; [|simpl; by rewrite Hwb].
  split_and!; [done| |].
  - unfold st_tasks at 1. rewrite Hst, Ht. done.
  - rewrite Hrej. simpl. apply owned_task_ok in Ho as (Hi & Hacc & _).
    change (tn_tasks (turn_of s)) with (ms_tasks (st_state s)) in Hr0. simplify_eq.
    unfold accepted_by in Hacc. apply andb_prop in Hacc as [Hid _]. by rewrite Hid.
Qed.

Lemma queue_delivery_cases task d u d' :
  queue_delivery task d = (Ok u, d') →
  d' = d ∨ ∃ p v, t_parent_id task = Some p ∧ t_last_result task = Some v
                   ∧ is_terminal (t_status task) = true ∧ d' = d ++ [(p, v)].
Proof.
  unfold queue_delivery. intros H. destruct (t_parent_id task) as [p|]; [|unfold retM in H; simplify_eq; auto].
  apply bindM_liftR_ok in H as (o & Ho & H). destruct o as [v|]; [|unfold retM in H; simplify_eq; auto].
  unfold modifyM in H. simplify_eq. right. exists p, v.
  destruct (t_last_result task), (t_status task); simplify_eq/=; done.
Qed.

(** The row it was accepted for holds exactly what was staged. *)
Lemma commit_one_row params c now s res s' i r :
  commit_tasks params [c] now s = (Ok res, s') → tasks_ok (st_tasks s) →
  memory_commit_allowed (st_state s) c now = Ok true →
  owned_task (st_state s) c = Ok (Some (i, r)) → is_all (commit_outcome c) = false →
  ∃ task' b, staged_task (st_state s) r c now empty_batch = (Ok task', b)
    ∧ st_tasks s' !! i = Some task' ∧ cr_rejected res = [].
Proof.
  intros H Hok Hal Ho Hna.
  destruct (commit_one_run params c now s res s' i r H Hok Hal Ho Hna) as (task' & b & Hs & Ht & Hr).
  exists task', b. split_and!; [done| |done]. rewrite Ht. apply finalize_workflow_keep.
  - simpl. apply list_lookup_insert_eq. apply owned_task_ok in Ho as (Hi & _).
    by eapply lookup_lt_Some.
  - apply staged_task_ok in Hs as (conf & o & p & t1 & _ & _ & _ & _ & _ & _ & _ & Hq).
    apply queue_delivery_cases in Hq as [->|(q & v & _ & _ & Hterm & ->)]; [constructor|].
    repeat constructor. simpl. unfold awaits_delivery. rewrite (bool_decide_false (_ = Suspended)).
    + by rewrite andb_false_r.
    + intros Hsus. by rewrite Hsus in Hterm.
Qed.

(** Marking cancellation always applies the fixed failure. *)
Lemma staged_cancel state r c now b task' b' :
  staged_task state r c now b = (Ok task', b') → commit_is_cancel c = true →
  t_status task' = Failed ∧ t_cancelled task' = true
  ∧ t_last_result task' = Some (failure (t_id r) "Task cancelled")
  ∧ t_completed_at task' = Some now ∧ t_node_id task' = None ∧ t_attempts task' = t_attempts r.
Proof.
  intros H Hc. apply staged_task_ok in H as (conf & o & p & t1 & _ & Hres & _ & Ha & Hf & _).
  assert (Hm : t_cancelled (marked c r) = true) by (unfold marked; simpl; by rewrite Hc, orb_true_r).
  apply resolved_cancelled in Hres as ->; [|done].
  apply apply_outcome_ok in Ha. cbn [outcome_record cancellation outcome_fail] in Ha.
  apply finalize_idempotency_ok in Hf as (e & -> & _). subst t1. by split_and!.
Qed.

(** A batch all of whose commits are refused. *)
Lemma refused_batch params commits now s res s' :
  commit_tasks params commits now s = (Ok res, s') →
  (∀ c, c ∈ commits → refused (st_state s) now c) →
  st_tasks s' = st_tasks s ∧ cr_rejected res = commit_task_id <$> commits.
Proof.
  intros H Hno. apply commit_tasks_run in H as (batch & u & t & poll & t' & Hs & Hu & Hf & Hst).
  assert (batch = empty_batch) as ->.
  { unfold stage_outcomes in Hs. destruct (stage_commits _ _ _ _ _) as [[v|e] b] eqn:Hb; [|done].
    simplify_eq. by eapply stage_commits_none. }
  simpl in Hu. unfold retM in Hu. simplify_eq. apply turn_finish_commit in Hf as [Ht Hrej]; [|done].
  split.
  - unfold st_tasks. rewrite Hst, Ht. simpl. by rewrite app_nil_r.
  - rewrite Hrej. simpl. generalize (commit_task_id <$> commits).
    intros l. induction l as [|x l IH]; simpl; [done|]. by f_equal.
Qed.

(** No outcome leaves its row running. *)
Lemma applied_not_accepted outcome policy now c r r' :
  outcome_record outcome policy now (marked c r) r' →
  t_status r' ≠ Running.
Proof.
  destruct outcome; simpl; intros H.
  all: try (destruct (validate_output output) as [[]|e]).
  all: try (destruct H as [_ H]; case_match; [|destruct H as (d & _ & H)]).
  all: by subst r'.
Qed.

(** ** Which commits of a batch are refused *)

(** An accepted batch names each task once, judges every commit, and stages one update for
    each current one. *)
Lemma stage_commits_judged state now commits seen b u b' :
  stage_commits state seen commits now b = (Ok u, b') →
  (∀ c, c ∈ commits → commit_task_id c ∉ seen) ∧ NoDup (commit_task_id <$> commits)
  ∧ (∀ c, c ∈ commits → current state now c = false → refused state now c)
  ∧ ids (bt_updates b').*2
    = ids (bt_updates b).*2 ++ (commit_task_id <$> List.filter (current state now) commits).
Proof.
  revert seen b. induction commits as [|c commits IH]; intros seen b H; simpl in H.
  { unfold retM in H. simplify_eq. rewrite app_nil_r.
    split_and!; [by intros ? ?%elem_of_nil|constructor|by intros ? ?%elem_of_nil|done]. }
  case_bool_decide as Hseen; [done|]. apply bindM_liftR_ok in H as (allowed & Ha & H).
  assert (Hgo : ∀ b1, stage_commits state (commit_task_id c :: seen) commits now b1 = (Ok u, b') →
    (current state now c = false → refused state now c) →
    ids (bt_updates b1).*2 = ids (bt_updates b).*2
      ++ (if current state now c then [commit_task_id c] else []) →
    (∀ d, d ∈ c :: commits → commit_task_id d ∉ seen) ∧ NoDup (commit_task_id <$> c :: commits)
    ∧ (∀ d, d ∈ c :: commits → current state now d = false → refused state now d)
    ∧ ids (bt_updates b').*2
      = ids (bt_updates b).*2 ++ (commit_task_id <$> List.filter (current state now) (c :: commits))).
  { intros b1 Hb Hc Hu. apply IH in Hb as (Hs & Hn & Hr & ->). rewrite Hu.
    split_and!.
    - intros d [->|Hd]%elem_of_cons; [done|]. intros Hin. apply (Hs d Hd). by right.
    - rewrite fmap_cons. constructor; [|done].
      intros (d & Hd & Hdin)%list_elem_of_fmap. apply (Hs d Hdin). rewrite <- Hd. by left.
    - intros d [->|Hd]%elem_of_cons; [done|by apply Hr].
    - cbn [List.filter]. rewrite <- app_assoc. by destruct (current state now c). }
  unfold current at 1 2, refused at 1 in Hgo. rewrite Ha in Hgo. destruct allowed; simpl in H.
  2: { apply (Hgo b H); [auto|by rewrite app_nil_r]. }
  apply bindM_liftR_ok in H as (owned & Ho & H). rewrite Ho in Hgo.
  destruct owned as [[i r]|].
  2: { apply (Hgo b H); [auto|by rewrite app_nil_r]. }
  apply bindM_ok in H as (r' & b1 & Hs & H). apply bindM_ok in H as ([] & b2 & Hw & H).
  rewrite bindM_modify in H. apply (Hgo _ H); [done|].
  apply owned_task_ok in Ho as (_ & Hacc & _). apply staged_task_identity in Hs as Hid.
  apply same_identity_id in Hid.
  apply staged_task_ok in Hs as (? & ? & ? & ? & _ & _ & _ & _ & _ & Hu & _).
  assert (Hb2 : bt_updates b2 = bt_updates b)
    by (destruct (_ && _); unfold modifyM, retM in Hw; by simplify_eq).
  unfold accepted_by, has_id in Hacc. apply andb_prop in Hacc as [Hacc _].
  apply N.eqb_eq in Hacc. unfold ids. simpl. rewrite Hb2, !fmap_app. simpl. by rewrite Hid, Hacc.
Qed.

Lemma distinct_by {A K} (f : A → K) l x y :
  NoDup (f <$> l) → x ∈ l → y ∈ l → f x = f y → x = y.
Proof.
  intros Hn [i Hi]%list_elem_of_lookup [j Hj]%list_elem_of_lookup Hxy.
  assert (i = j) as ->; [|congruence].
  eapply (NoDup_lookup (f <$> l)); [done| |]; rewrite list_lookup_fmap; [by rewrite Hi|].
  rewrite Hj. simpl. congruence.
Qed.

Lemma apply_updates_undo updates t v t' :
  for_eachM updates apply_update t = (Ok v, t') →
  Forall (λ u, ids (tn_tasks t) !! u.1 = Some (t_id u.2)) updates →
  ids (tn_undo t') = ids (tn_undo t) ++ ids updates.*2.
Proof.
  revert t. induction updates as [|u updates IH]; intros t H Hu; simpl in H.
  { unfold retM in H. simplify_eq. by rewrite app_nil_r. }
  apply Forall_cons in Hu as [Hu Hus]. apply bindM_ok in H as ([] & t1 & H1 & H).
  apply apply_update_run in H1 as (r & Hr & ->). assert (Hid : t_id r = t_id u.2).
  { unfold ids in Hu. rewrite list_lookup_fmap, Hr in Hu. by injection Hu. }
  apply IH in H as ->.
  - simpl. rewrite ids_app, <- app_assoc. simpl. by rewrite Hid.
  - change (tn_tasks (put_tasks ?l ?x)) with l. unfold ids. by rewrite list_fmap_insert, list_insert_id.
Qed.

(** The answer of a successful batch: exactly the commits that are not current are refused. *)
Lemma commit_tasks_rejected params commits now s res s' c :
  commit_tasks params commits now s = (Ok res, s') → c ∈ commits →
  (current (st_state s) now c = false → refused (st_state s) now c)
  ∧ (commit_task_id c ∈ cr_rejected res ↔ current (st_state s) now c = false).
Proof.
  intros H Hin. apply commit_tasks_run in H as (batch & u & t & poll & t' & Hs & Hu & Hf & _).
  eapply apply_updates_undo in Hu; [|by eapply stage_outcomes_ids].
  unfold stage_outcomes in Hs. destruct (stage_commits _ _ _ _ _) as [[v|e] b] eqn:Hb; [|done].
  simplify_eq. apply stage_commits_judged in Hb as (_ & Hn & Hr & Hup). split; [by apply Hr|].
  assert (Hrej : cr_rejected res
    = List.filter (λ id, negb (existsb (has_id id) (tn_undo t))) (commit_task_id <$> commits)).
  { unfold turn_finish in Hf. repeat case_match. by simplify_eq. }
  rewrite Hrej, list_elem_of_In, filter_In, <- list_elem_of_In, negb_true_iff.
  assert (Hex : existsb (has_id (commit_task_id c)) (tn_undo t) = true
    ↔ current (st_state s) now c = true).
  { rewrite existsb_exists. transitivity (commit_task_id c ∈ ids (tn_undo t)).
    - unfold ids. rewrite list_elem_of_fmap. setoid_rewrite <- list_elem_of_In.
      unfold has_id. setoid_rewrite N.eqb_eq. naive_solver.
    - rewrite Hu, Hup. simpl. rewrite list_elem_of_fmap.
      setoid_rewrite list_elem_of_In. setoid_rewrite filter_In. setoid_rewrite <- list_elem_of_In. split.
      + intros (d & Hd & Hdin & Hcur). by rewrite (distinct_by commit_task_id commits c d Hn Hin Hdin Hd).
      + eauto. }
  rewrite <- !not_true_iff_false, Hex. split; [by intros [_ ?]|].
  intros ?. split; [by apply list_elem_of_fmap_2|done].
Qed.

(** ** Commits that are out of date

    Said of the rows and the lock rows alone. *)

(** The lane lock is no longer the runner's: another owner or token holds it, or its lease ran
    out (now is at or past the deadline, if there is one at all). *)
Definition lock_lost (lock : MemoryLaneLock) (runner : Uuid) (token : option string)
    (now : DateTime) : Prop :=
  ml_owner_id lock ≠ Some (uuid_display runner) ∨ ml_owner_token lock ≠ token ∨ token = None
  ∨ ∀ deadline, ml_leased_until lock = Some deadline → deadline ≤ now.

(** An outcome is stale when no row with the task's identity is running on that runner at that
    attempt, or when its lane has a lock the runner lost; a cancellation when the task ended. *)
Definition stale (s : StoreState) (now : DateTime) (c : TaskCommit) : Prop :=
  match c with
  | CommitCancel id => ∀ r, r ∈ st_tasks s → t_id r = id → is_terminal (t_status r) = true
  | CommitOutcome runner attempts id lane _ token =>
      (∀ r, r ∈ st_tasks s → t_id r = id →
         t_status r ≠ Running ∨ t_node_id r ≠ Some runner ∨ t_attempts r ≠ attempts)
      ∨ ∃ conf lane_conf lock,
          ms_conf (st_state s) = Some conf ∧ conf_lane conf lane = Some lane_conf
          ∧ is_Some (lc_lane_lock lane_conf) ∧ ms_lane_locks (st_state s) !! lane = Some lock
          ∧ lock_lost lock runner token now
  end.

Lemma owner_live_iff lock runner token now :
  bool_decide (ml_owner_id lock = Some (uuid_display runner))
  && bool_decide (ml_owner_token lock = token) && memory_owner_live lock now = false
  ↔ lock_lost lock runner token now.
Proof.
  unfold lock_lost, memory_owner_live.
  rewrite !andb_false_iff, !bool_decide_eq_false.
  destruct (ml_leased_until lock) as [d|]; [rewrite Z.ltb_ge|];
    destruct (decide (ml_owner_token lock = token)) as [<-|]; try naive_solver.
  rewrite <- eq_None_not_Some. naive_solver.
Qed.

Lemma refused_stale s now c : refused (st_state s) now c → stale s now c.
Proof.
  intros [H|H].
  - destruct c as [runner attempts id lane outcome token|]; simpl in H; [|done]. right.
    destruct (ms_conf (st_state s)) as [conf|] eqn:Hc; [|done]. simpl in H.
    destruct (conf_lane conf lane) as [lc|] eqn:Hl; [|done].
    case_bool_decide as Hk; simpl in H; [|done].
    destruct (ms_lane_locks (st_state s) !! lane) as [lock|] eqn:Ho; [|done]. injection H as H.
    exists conf, lc, lock. split_and!; try done. by apply owner_live_iff.
  - assert (Hno : ∀ r, r ∈ st_tasks s → accepted_by c r = false).
    { unfold owned_task in H. destruct (find_index_from 0 _ _) as [[i r]|] eqn:Hf.
      - repeat case_match; done.
      - by eapply find_index_from_none. }
    unfold accepted_by, has_id in Hno. destruct c as [runner attempts id lane outcome token|id]; [left|];
      simpl in *; intros r Hr Hid; specialize (Hno r Hr); rewrite Hid, N.eqb_refl in Hno; simpl in Hno.
    + rewrite !andb_false_iff, !bool_decide_eq_false, Z.eqb_neq in Hno. tauto.
    + rewrite active_or_terminal in Hno. by apply negb_false_iff.
Qed.

Lemma current_not_stale s now c : current (st_state s) now c = true → ¬ stale s now c.
Proof.
  unfold current. intros H.
  destruct (memory_commit_allowed (st_state s) c now) as [[]|] eqn:Hal; [|done..].
  destruct (owned_task (st_state s) c) as [[[i r]|]|] eqn:Ho; [|done..].
  apply owned_task_ok in Ho as (Hi & Hacc & _). apply list_elem_of_lookup_2 in Hi.
  unfold accepted_by, has_id in Hacc. apply andb_prop in Hacc as [Hid Hacc]. apply N.eqb_eq in Hid.
  destruct c as [runner attempts id lane outcome token|id]; simpl in *.
  - apply andb_prop in Hacc as [[Hs Hn]%andb_prop Ha].
    apply bool_decide_eq_true in Hs, Hn. apply Z.eqb_eq in Ha.
    intros [Hrow|(conf & lc & lock & Hc & Hl & Hk & Hlock & Hlost)].
    + specialize (Hrow r Hi Hid). tauto.
    + rewrite Hc in Hal. simpl in Hal. rewrite Hl, (bool_decide_true _ Hk) in Hal. simpl in Hal.
      rewrite Hlock in Hal. apply owner_live_iff in Hlost. rewrite Hlost in Hal. done.
  - intros Hrow. rewrite active_or_terminal, (Hrow r Hi Hid) in Hacc. done.
Qed.

(** ** What an applied commit makes of its row for good *)

(** A later attempt was charged, or this one is over; after a cancellation, the task ended. *)
Definition spent (c : TaskCommit) (r : TaskRecord) : Prop :=
  match c with
  | CommitCancel _ => is_terminal (t_status r) = true
  | CommitOutcome _ attempts _ _ _ _ =>
      attempts < t_attempts r ∨ t_attempts r = attempts ∧ t_status r ≠ Running
  end.

Lemma spent_evolves c r r' : evolves r r' → spent c r → spent c r'.
Proof.
  intros He. destruct c as [runner n id lane outcome token|id]; simpl.
  - destruct He as [_ Hl _].
    change (t_attempts r) with (ph_attempts (phase r)). change (t_status r) with (ph_status (phase r)).
    change (t_attempts r') with (ph_attempts (phase r')).
    change (t_status r') with (ph_status (phase r')).
    induction Hl as [|p q p' Hs _ IH]; [done|]. intros H. apply IH.
    destruct Hs; simpl in *; try (destruct H as [H|[H Hne]]; [left; lia|]; naive_solver).
    left. destruct H; lia.
  - intros Ht. by rewrite (ev_terminal _ _ He Ht).
Qed.

Lemma outcome_keeps_attempts outcome policy now c r r' :
  outcome_record outcome policy now (marked c r) r' → t_attempts r' = t_attempts r.
Proof.
  destruct outcome; simpl; intros H.
  all: try (destruct (validate_output output) as [[]|e]).
  all: try (destruct H as [_ H]; case_match; [|destruct H as (d & _ & H)]).
  all: by subst r'.
Qed.

Lemma staged_spent state r c now b r' b' :
  staged_task state r c now b = (Ok r', b') → accepted_by c r = true → spent c r'.
Proof.
  intros H Hacc. destruct c as [runner n id lane outcome token|id]; simpl.
  - right. apply staged_task_ok in H as (conf & o & p & t1 & _ & _ & _ & Ha & Hf & _).
    apply apply_outcome_ok in Ha. apply finalize_idempotency_ok in Hf as (e & -> & _).
    unfold accepted_by in Hacc. apply andb_prop in Hacc as [_ Hacc].
    apply andb_prop in Hacc as [_ Hn]. apply Z.eqb_eq in Hn. split.
    + simpl. rewrite (outcome_keeps_attempts _ _ _ _ _ _ Ha). done.
    + by eapply applied_not_accepted in Ha.
  - eapply staged_cancel in H as (-> & _); done.
Qed.

(** The update staged for a commit spends it. *)
Lemma staged_updates_spent state commits now batch :
  stage_outcomes state commits now = Ok batch →
  ∀ u, u ∈ bt_updates batch → ∃ c, c ∈ commits ∧ t_id u.2 = commit_task_id c ∧ spent c u.2.
Proof.
  set (P (_ : list TaskId) b := ∀ u, u ∈ bt_updates b →
    ∃ c, c ∈ commits ∧ t_id u.2 = commit_task_id c ∧ spent c u.2).
  intros H. destruct (stage_outcomes_triple P state commits now batch) as [seen HP];
    [by intros u ?%elem_of_nil| |done|exact HP]. apply stage_commits_ind; [done|]. clear H.
  intros c i r r' seen b b' b'' Hin HP _ _ Ho Hs -> u Hu. unfold P in HP.
  apply owned_task_ok in Ho as (_ & Hacc & _).
  assert (Hid := staged_task_identity _ _ _ _ _ _ _ Hs). apply same_identity_id in Hid.
  assert (Hsp := staged_spent _ _ _ _ _ _ _ Hs Hacc).
  apply staged_task_ok in Hs as (? & ? & ? & ? & _ & _ & _ & _ & _ & Hu' & _).
  assert (Hup : u ∈ bt_updates b ++ [(i, r')]).
  { rewrite <- Hu'. by destruct (_ && _). }
  apply elem_of_app in Hup as [Hup|Hup%list_elem_of_singleton]; [by apply HP|]. subst u.
  exists c. split_and!; [done| |done]. simpl. rewrite Hid. unfold accepted_by, has_id in Hacc.
  apply andb_prop in Hacc as [Hacc _]. by apply N.eqb_eq in Hacc.
Qed.

(** The finalizers start from the rows the updates left. *)
Lemma body_rebase base batch poll t :
  body_ok base batch poll t → tp_lanes poll = [] → body_ok (tn_tasks t) batch poll t.
Proof.
  intros [[Hrows Hrec Hd] Hch _ Hw] Hp. split; [by split; [reflexivity|..]| | |done].
  - eapply rows_evolve_ok; [|apply Forall_app; split; [exact Hrec|]|exact Hch].
    + apply Forall2_app; [exact Hrows|reflexivity].
    + apply tk_records, Forall_app in Hch. by destruct Hch.
  - rewrite Hp. constructor.
Qed.

(** A current commit leaves its row spent, whatever its outcome: joins and cancellations too. *)
Lemma current_commit_spent params commits now s res s' c :
  commit_tasks params commits now s = (Ok res, s') → tasks_ok (st_tasks s) →
  Forall commit_fresh commits → c ∈ commits → current (st_state s) now c = true →
  ∃ i r, st_tasks s' !! i = Some r ∧ t_id r = commit_task_id c ∧ spent c r.
Proof.
  intros H Hok Hf Hin Hcur. apply commit_tasks_body in H as (b & p & q & t & poll & t' & Hb & Hfin & Hst).
  assert (Hbody := turn_body_ok _ _ _ _ _ _ _ _ _ _ Hb Hok Hf (or_intror eq_refl)).
  apply turn_body_commits in Hb as (-> & u & t1 & Hs & Hu & -> & ->).
  apply body_rebase in Hbody; [|done].
  eapply turn_finish_ok in Hfin; [|exact Hbody].
  assert (Hst1 := Hs). apply stage_outcomes_ok in Hst1 as [seen Hbo]; [|done..].
  apply apply_updates_run in Hu as (Hrow & _ & _); [|apply (bo_distinct _ _ _ Hbo)].
  assert (Hw := staged_updates_spent _ _ _ _ Hs). unfold stage_outcomes in Hs.
  destruct (stage_commits _ _ _ _ _) as [[v|e] b1] eqn:Hsc; [|done]. simplify_eq.
  apply stage_commits_judged in Hsc as (_ & Hn & _ & Hup).
  assert (Hidin : commit_task_id c ∈ ids (bt_updates b).*2).
  { rewrite Hup. apply elem_of_app. right. apply list_elem_of_fmap_2, list_elem_of_In, filter_In.
    by rewrite <- list_elem_of_In. }
  unfold ids in Hidin. apply list_elem_of_fmap in Hidin as (x & Hx & Hxin).
  apply list_elem_of_fmap in Hxin as (w & -> & Hwin).
  destruct (Hw w Hwin) as (d & Hd & Hdid & Hsp).
  assert (d = c) as -> by (eapply (distinct_by commit_task_id); [exact Hn|done|done|congruence]).
  destruct (grown_lookup _ _ _ _ Hfin (Hrow w Hwin)) as (r & Hr & He).
  exists w.1, r. unfold st_tasks. rewrite Hst. split_and!; [exact Hr| |by eapply spent_evolves].
  rewrite (evolves_id _ _ He). congruence.
Qed.

(** The commits an accepted one settles: other reports on the same or an earlier attempt, and
    everything about a task it cancelled. *)
Definition supersedes (c d : TaskCommit) : Prop :=
  commit_task_id d = commit_task_id c
  ∧ match c, d with
    | CommitOutcome _ n _ _ _ _, CommitOutcome _ n' _ _ _ _ => n' ≤ n
    | CommitOutcome _ _ _ _ _ _, CommitCancel _ => False
    | CommitCancel _, _ => True
    end.

Lemma supersedes_refl c : supersedes c c.
Proof. by destruct c. Qed.

Lemma superseded_not_current c d now s i r :
  NoDup (ids (st_tasks s)) → st_tasks s !! i = Some r → t_id r = commit_task_id c → spent c r →
  supersedes c d → current (st_state s) now d = false.
Proof.
  intros Hn Hi Hid Hsp [Hsame Hsup]. unfold current. destruct (memory_commit_allowed _ d _) as [[]|]; [|done..].
  destruct (owned_task (st_state s) d) as [[[j x]|]|] eqn:Ho; [|done..]. exfalso.
  apply owned_task_ok in Ho as (Hj & Hacc & _). unfold accepted_by, has_id in Hacc.
  apply andb_prop in Hacc as [Hxid Hacc]. apply N.eqb_eq in Hxid.
  assert (x = r) as ->.
  { eapply (distinct_by t_id); [exact Hn|by eapply list_elem_of_lookup_2..|congruence]. }
  destruct c as [runner n id lane outcome token|id], d as [runner' n' id' lane' outcome' token'|id'];
    simpl in *; [|done| |].
  - apply andb_prop in Hacc as [[Hs _]%andb_prop Ha]. apply bool_decide_eq_true in Hs.
    apply Z.eqb_eq in Ha. destruct Hsp as [?|[? ?]]; [lia|done].
  - apply andb_prop in Hacc as [[Hs _]%andb_prop _]. apply bool_decide_eq_true in Hs.
    by rewrite Hs in Hsp.
  - by rewrite active_or_terminal, Hsp in Hacc.
Qed.

End CommitFacts.

Section CommitTheorems.
Context `{X : Externals, L : !ExternalLaws X}.

(** C10: fencing: a batch that succeeds rejects exactly its stale commits - an outcome for a
    task that is not running on that runner at that attempt, or of a locked lane whose lock row
    has another owner, another token or an expired lease; a cancellation of a task that has
    ended - and when every commit is stale the task rows are exactly those before. *)
Theorem stale_commits_change_nothing params commits now s res s' :
  commit_tasks params commits now s = (Ok res, s') →
  (∀ c, c ∈ commits → commit_task_id c ∈ cr_rejected res ↔ stale s now c)
  ∧ ((∀ c, c ∈ commits → stale s now c) →
     st_tasks s' = st_tasks s ∧ cr_rejected res = commit_task_id <$> commits).
Proof.
  intros H. assert (Hcur : ∀ c, stale s now c → current (st_state s) now c = false).
  { intros c Hc. destruct (current _ _ c) eqn:E; [|done]. by apply current_not_stale in E. }
  split.
  - intros c Hc. destruct (commit_tasks_rejected params commits now s res s' c H Hc) as [Hr ->].
    split; [|by apply Hcur]. intros E. by apply refused_stale, Hr.
  - intros Hall. apply (refused_batch params commits now s res s' H). intros c Hc.
    apply (commit_tasks_rejected params commits now s res s' c H Hc). by apply Hcur, Hall.
Qed.

(** C8: an accepted commit that is not a join takes effect exactly: the owned row becomes the
    record the resolved outcome leaves (its result, status, readiness, continuation and counters
    as the outcome says), apart from the expiry of its idempotency key, and it is not rejected. *)
Theorem accepted_commit_applied params c now s res s' i r :
  commit_tasks params [c] now s = (Ok res, s') → tasks_ok (st_tasks s) →
  memory_commit_allowed (st_state s) c now = Ok true →
  owned_task (st_state s) c = Ok (Some (i, r)) → is_all (commit_outcome c) = false →
  cr_rejected res = [] ∧
  ∃ conf outcome children policy r1 expires,
    ms_conf (st_state s) = Some conf
    ∧ resolved (st_state s) conf r c now [] outcome children
    ∧ lc_retry <$> conf_lane conf (t_lane r) = Some policy
    ∧ outcome_record outcome policy now (marked c r) r1
    ∧ st_tasks s' !! i = Some (set_idempotency_expires_at expires r1).
Proof.
  intros H Hok Hal Ho Hna.
  destruct (commit_one_row params c now s res s' i r H Hok Hal Ho Hna) as (task' & b & Hs & Hi & Hr).
  split; [done|]. apply staged_task_ok in Hs as (conf & o & p & t1 & Hc & Hres & Hp & Ha & Hf & _).
  apply apply_outcome_ok in Ha. apply finalize_idempotency_ok in Hf as (e & -> & _).
  exists conf, o, (bt_children b), p, t1, e. by split_and!.
Qed.

(** Cancellation wins: an active task that is cancelled - pending, suspended, or running on
    any node at any attempt - ends Failed, marked cancelled, with the fixed cancellation failure
    as its result, without an owner and without being charged an attempt. *)
Theorem cancellation_fails_active_task params id now s res s' i r :
  commit_tasks params [CommitCancel id] now s = (Ok res, s') → tasks_ok (st_tasks s) →
  st_tasks s !! i = Some r → t_id r = id → is_active (t_status r) = true →
  cr_rejected res = [] ∧
  ∃ r', st_tasks s' !! i = Some r' ∧ t_status r' = Failed ∧ t_cancelled r' = true
    ∧ t_last_result r' = Some (failure id "Task cancelled") ∧ t_completed_at r' = Some now
    ∧ t_node_id r' = None ∧ t_attempts r' = t_attempts r.
Proof.
  intros H Hok Hi <- Hact.
  assert (Hacc : accepted_by (CommitCancel (t_id r)) r = true)
    by (unfold accepted_by, has_id; simpl; by rewrite N.eqb_refl, Hact).
  assert (Ho : owned_task (st_state s) (CommitCancel (t_id r)) = Ok (Some (i, r))).
  { apply owned_task_some; [apply Hok|done|done|by left]. }
  destruct (commit_one_row params _ now s res s' i r H Hok eq_refl Ho eq_refl) as (task' & b & Hs & Hrow & Hr).
  split; [done|]. exists task'. split; [done|]. by eapply staged_cancel in Hs.
Qed.

(** C9: a commit takes effect at most once: once the store accepted a commit - any outcome, a join
    or a cancellation, in any batch of any reachable state - then after any further operations,
    at any clocks, every commit it supersedes (the same one again, another outcome for the same
    or an earlier attempt, anything for a task it cancelled) is rejected by every batch that
    succeeds, and a batch of such commits alone changes no task row. *)
Theorem replayed_commit_is_rejected params conf before commits now res s' after again now' res' s'' :
  Forall (λ op, op_fresh op.1) before → Forall commit_fresh commits →
  Forall (λ op, op_fresh op.1) after →
  commit_tasks params commits now (run_ops params before (memory_store_new conf)) = (Ok res, s') →
  commit_tasks params again now' (run_ops params after s') = (Ok res', s'') →
  let accepted c := c ∈ commits ∧ commit_task_id c ∉ cr_rejected res in
  (∀ c d, accepted c → supersedes c d → d ∈ again → commit_task_id d ∈ cr_rejected res')
  ∧ ((∀ d, d ∈ again → ∃ c, accepted c ∧ supersedes c d) →
     st_tasks s'' = st_tasks (run_ops params after s')
     ∧ cr_rejected res' = commit_task_id <$> again).
Proof.
  intros Hb Hf Ha H H' accepted.
  assert (Hok : tasks_ok (st_tasks (run_ops params before (memory_store_new conf))))
    by (apply run_ops_progress; [apply new_store_ok|done]).
  assert (Hno : ∀ c d, accepted c → supersedes c d → d ∈ again →
    current (st_state (run_ops params after s')) now' d = false).
  { intros c d [Hin Hacc] Hsup _.
    destruct (current (st_state (run_ops params before (memory_store_new conf))) now c) eqn:Hcur.
    2: { destruct Hacc. by eapply commit_tasks_rejected. }
    destruct (current_commit_spent params commits now _ res s' c H Hok Hf Hin Hcur)
      as (i & r & Hi & Hid & Hsp).
    destruct (commit_tasks_progress params commits now _ Hok Hf) as [Hok' _]. rewrite H in Hok'.
    destruct (run_ops_progress params after s' Hok' Ha) as [[Hn _ _] Hp].
    destruct (Hp i r Hi) as (r' & Hi' & He). apply (superseded_not_current c d now' _ i r' Hn Hi').
    - by rewrite (evolves_id _ _ He).
    - by eapply spent_evolves.
    - done. }
  split.
  - intros c d Hc Hsup Hd. eapply commit_tasks_rejected; [exact H'|done|by eapply Hno].
  - intros Hall. apply (refused_batch params again now' _ res' s'' H'). intros d Hd.
    destruct (Hall d Hd) as (c & Hc & Hsup).
    by eapply (commit_tasks_rejected params again now' _ res' s'' d H' Hd), Hno.
Qed.
End CommitTheorems.

#[local] Existing Instances DemoExternals.externals DemoExternals.laws.

Lemma claimed_state_ok : tasks_ok (st_tasks claimed_state).
Proof.
  assert (Hf : Forall (λ op, op_fresh op.1) claimed_ops) by repeat constructor.
  exact (proj1 (run_ops_progress demo_params claimed_ops (memory_store_new demo_conf)
    (new_store_ok demo_conf) Hf)).
Defined.

(** Two more tasks, in the lane with a lock; [node1] owns it and runs both. *)
Definition guarded_ops : list (StoreOp * DateTime) :=
  claimed_ops ++
  [ (OpStoreTasks [demo_write 50 Work "work" "serial"; demo_write 51 Work "work" "serial"], from_secs 1);
    (OpClaimTasks node1 [{| lcl_lane := "serial"; lcl_limit := 2;
                            lcl_owner := Some (owner_request None true) |}], from_secs 2) ].
Definition guarded_state : StoreState :=
  run_ops demo_params guarded_ops (memory_store_new demo_conf).

(** [node2] never owned the task it reports on, attempt 2 was never charged, and a runner of
    a locked lane that lost its token cannot report on the tasks it still runs. *)
Definition stale_commit : TaskCommit := CommitOutcome node2 1 11 "default" OutComplete None.
Definition stale_attempt : TaskCommit := CommitOutcome node1 2 10 "default" OutComplete None.
Definition stale_token : TaskCommit := CommitOutcome node1 1 50 "serial" OutComplete (Some "lost"%string).

Lemma stale_commits_are_stale c :
  c ∈ [stale_commit; stale_attempt; stale_token] → stale guarded_state (from_secs 2) c.
Proof.
  rewrite !elem_of_cons, elem_of_nil. intros [->|[->|[->|[]]]]; [left|left|right].
  - assert (H : Forall (λ r, t_id r = 11%N → t_node_id r ≠ Some node2) (st_tasks guarded_state))
      by (apply (bool_decide_unpack _); vm_compute; exact I).
    rewrite Forall_forall in H. intros r Hr Hid. right. left. by apply (H r).
  - assert (H : Forall (λ r, t_id r = 10%N → t_attempts r ≠ 2) (st_tasks guarded_state))
      by (apply (bool_decide_unpack _); vm_compute; exact I).
    rewrite Forall_forall in H. intros r Hr Hid. right. right. by apply (H r).
  - assert (Hlock : ∃ conf lane_conf lock, ms_conf (st_state guarded_state) = Some conf
      ∧ conf_lane conf "serial" = Some lane_conf ∧ is_Some (lc_lane_lock lane_conf)
      ∧ ms_lane_locks (st_state guarded_state) !! "serial" = Some lock
      ∧ ml_owner_id lock = Some (uuid_display node1) ∧ ml_owner_token lock ≠ Some "lost"%string).
    { vm_compute. do 3 eexists. split_and!; [reflexivity..|eexists; reflexivity|reflexivity|reflexivity|discriminate]. }
    destruct Hlock as (conf & lc & lock & ? & ? & ? & ? & _ & ?). exists conf, lc, lock.
    split_and!; [done..|]. right. by left.
Qed.

Lemma stale_commits_change_nothing_witness :
  ∃ res s', commit_tasks demo_params [stale_commit; stale_attempt; stale_token] (from_secs 2)
      guarded_state = (Ok res, s')
    ∧ st_tasks s' = st_tasks guarded_state ∧ cr_rejected res = [11%N; 10%N; 50%N].
Proof.
  destruct (commit_tasks demo_params [stale_commit; stale_attempt; stale_token] (from_secs 2)
    guarded_state) as [[res|e] s'] eqn:H; [|vm_compute in H; discriminate].
  exists res, s'. split; [reflexivity|].
  exact (proj2 (stale_commits_change_nothing demo_params _ (from_secs 2) guarded_state res s' H)
    stale_commits_are_stale).
Defined.

(** The work task completes with an output. *)
Lemma accepted_commit_applied_witness :
  ∃ res s', commit_tasks demo_params [done_commit] (from_secs 2) claimed_state = (Ok res, s')
    ∧ cr_rejected res = [].
Proof.
  destruct (commit_tasks demo_params [done_commit] (from_secs 2) claimed_state)
    as [[res|e] s'] eqn:H; [|vm_compute in H; discriminate].
  exists res, s'. split; [reflexivity|].
  destruct (owned_task (st_state claimed_state) done_commit) as [[[i r]|]|e] eqn:Ho;
    [|vm_compute in Ho; discriminate..].
  apply (accepted_commit_applied demo_params done_commit (from_secs 2) claimed_state res s' i r H
    claimed_state_ok ltac:(vm_compute; reflexivity) Ho ltac:(reflexivity)).
Defined.

(** The running flow is cancelled. *)
Lemma cancellation_fails_active_task_witness :
  ∃ res s' r', commit_tasks demo_params [CommitCancel 10] (from_secs 2) claimed_state = (Ok res, s')
    ∧ st_tasks s' !! 0%nat = Some r' ∧ t_status r' = Failed ∧ t_cancelled r' = true.
Proof.
  destruct (commit_tasks demo_params [CommitCancel 10] (from_secs 2) claimed_state)
    as [[res|e] s'] eqn:H; [|vm_compute in H; discriminate].
  destruct (st_tasks claimed_state !! 0%nat) as [r|] eqn:Hr; [|vm_compute in Hr; discriminate].
  assert (Hid : t_id r = 10%N) by (vm_compute in Hr; injection Hr as <-; reflexivity).
  assert (Hact : is_active (t_status r) = true) by (vm_compute in Hr; injection Hr as <-; reflexivity).
  destruct (cancellation_fails_active_task demo_params 10 (from_secs 2) claimed_state res s' 0%nat r H
    claimed_state_ok Hr Hid Hact) as (_ & r' & Hr' & Hs & Hc & _).
  exists res, s', r'. repeat split; assumption.
Defined.

(** The join and the completion of the work task are accepted and the children of the join are
    claimed; then both tasks are reported on again, one of them with another outcome. *)
Definition replayed_batch : list TaskCommit :=
  [all_commit; CommitOutcome node1 1 11 "default" (OutFail "late") None].
Lemma replayed_commit_is_rejected_witness :
  ∃ res s' res' s'',
    commit_tasks demo_params [all_commit; done_commit] (from_secs 2) claimed_state = (Ok res, s')
    ∧ cr_rejected res = []
    ∧ commit_tasks demo_params replayed_batch (from_secs 4)
        (run_ops demo_params [(OpClaimTasks node1 [demo_claim "default" 8], from_secs 3)] s')
      = (Ok res', s'')
    ∧ cr_rejected res' = [10%N; 11%N]
    ∧ st_tasks s'' = st_tasks
        (run_ops demo_params [(OpClaimTasks node1 [demo_claim "default" 8], from_secs 3)] s').
Proof.
  set (after := [(OpClaimTasks node1 [demo_claim "default" 8], from_secs 3)]).
  destruct (commit_tasks demo_params [all_commit; done_commit] (from_secs 2) claimed_state)
    as [[res|e] s'] eqn:H; [|vm_compute in H; discriminate].
  assert (Hr : cr_rejected res = []).
  { assert (He : match (commit_tasks demo_params [all_commit; done_commit] (from_secs 2) claimed_state).1
      with Ok res => cr_rejected res | Err _ => [0%N] end = []) by (vm_compute; reflexivity).
    rewrite H in He. exact He. }
  destruct (commit_tasks demo_params replayed_batch (from_secs 4) (run_ops demo_params after s'))
    as [[res'|e] s''] eqn:H'.
  2: { assert (He : match (commit_tasks demo_params replayed_batch (from_secs 4)
      (run_ops demo_params after
        (commit_tasks demo_params [all_commit; done_commit] (from_secs 2) claimed_state).2)).1
      with Ok _ => true | Err _ => false end = true) by (vm_compute; reflexivity).
    rewrite H in He. cbn [snd] in He. rewrite H' in He. discriminate. }
  exists res, s', res', s''. split; [reflexivity|]. split; [exact Hr|]. split; [exact H'|].
  destruct (replayed_commit_is_rejected demo_params demo_conf claimed_ops [all_commit; done_commit]
    (from_secs 2) res s' after replayed_batch (from_secs 4) res' s''
    ltac:(repeat constructor) ltac:(repeat constructor) ltac:(repeat constructor) H H') as [_ Hall].
  destruct Hall as [Ht Hrej]; [|split; [exact Hrej|exact Ht]].
  intros d Hd. rewrite Hr. apply elem_of_cons in Hd as [->|Hd].
  - exists all_commit. split; [split; [left|apply not_elem_of_nil]|]. by split.
  - apply list_elem_of_singleton in Hd as ->. exists done_commit.
    split; [split; [right; left|apply not_elem_of_nil]|]. by split.
Defined.
