(* ===== verification/WorkflowTheorems.v ===== *)
(** * Workflows: delivery, joins and their aggregated input *)
From S2P Require Import Prelude Externals Failure Config Rate Models Transitions Lifecycle.
From S2P Require Import MemoryState LaneLock Workflow Claims.
From S2P Require Import Evolution ClaimFacts Commits Atomic.
From S2P Require Import Turns StoreSpec CommitTheorems.
#[local] Open Scope Z_scope.

(** ** Grouping deliveries *)

Abbreviation Groups := (list (TaskId * (Z * string))) (only parsing).

(** The results delivered to one parent, in order. *)
Definition deliveries_to (id : TaskId) (deliveries : list Delivery) : list string :=
  omap (λ d, if (d.1 =? id)%N then Some d.2 else None) deliveries.

Definition keys_sorted (l : Groups) : Prop := StronglySorted N.lt l.*1.

Lemma keys_sorted_head k cv (l : Groups) id g :
  keys_sorted ((k, cv) :: l) → (id, g) ∈ l → (k < id)%N.
Proof.
  unfold keys_sorted. rewrite fmap_cons. intros H Hin. apply StronglySorted_inv in H as [_ H].
  rewrite Forall_forall in H. apply H. apply list_elem_of_fmap. by exists (id, g).
Qed.

Lemma group_insert_keys id result l x :
  x ∈ (group_insert id result l).*1 → x = id ∨ x ∈ l.*1.
Proof.
  induction l as [|[k [c v]] l IH]; simpl.
  - rewrite list_elem_of_singleton. auto.
  - repeat case_match; simpl; rewrite ?elem_of_cons; naive_solver.
Qed.

Lemma group_insert_sorted id result l : keys_sorted l → keys_sorted (group_insert id result l).
Proof.
  unfold keys_sorted. induction l as [|[k [c v]] l IH]; simpl; intros Hs.
  { repeat constructor. }
  apply StronglySorted_inv in Hs as [Hs Hk].
  destruct (id =? k)%N eqn:He; simpl; [by constructor|].
  destruct (id <? k)%N eqn:Hlt; simpl.
  - constructor; [by constructor|]. apply N.ltb_lt in Hlt. constructor; [done|].
    eapply Forall_impl; [exact Hk|]. simpl. intros y Hy. by etrans.
  - constructor; [by apply IH|]. apply Forall_forall. intros y Hy.
    apply group_insert_keys in Hy as [->|Hy]; [lia|]. rewrite Forall_forall in Hk. by apply Hk.
Qed.

Lemma group_insert_elem id result l id' c v :
  keys_sorted l →
  (id', (c, v)) ∈ group_insert id result l ↔
  if (id =? id')%N
  then (∃ c0, (id, (c0, v)) ∈ l ∧ c = c0 + 1) ∨ ((∀ g, (id, g) ∉ l) ∧ c = 1 ∧ v = result)
  else (id', (c, v)) ∈ l.
Proof.
  induction l as [|[k [c1 v1]] l IH]; simpl; intros Hs.
  - rewrite list_elem_of_singleton. destruct (id =? id')%N eqn:He.
    + apply N.eqb_eq in He as <-. split; [intros [= -> ->]; right|].
      * split; [|done]. intros g Hg. by apply elem_of_nil in Hg.
      * intros [(c0 & Hc & _)|(_ & -> & ->)]; [by apply elem_of_nil in Hc|done].
    + apply N.eqb_neq in He. split; [congruence|intros Hx; by apply elem_of_nil in Hx].
  - assert (Hhead : ∀ i g, (i, g) ∈ l → (k < i)%N) by (intros; by eapply keys_sorted_head).
    assert (Hs' : keys_sorted l) by (by apply StronglySorted_inv in Hs as [? _]).
    destruct (id =? k)%N eqn:Hk.
    + apply N.eqb_eq in Hk as ->. rewrite elem_of_cons. destruct (k =? id')%N eqn:He.
      * apply N.eqb_eq in He as <-. setoid_rewrite elem_of_cons. split.
        -- intros [[= -> ->]|Hin]; [eauto|]. apply Hhead in Hin. lia.
        -- intros [(c0 & [[= -> ->]|Hin] & ->)|(Hno & _ & _)]; [by left| |].
           ++ apply Hhead in Hin. lia.
           ++ by destruct (Hno (c1, v1)); left.
      * apply N.eqb_neq in He. rewrite elem_of_cons. split; (intros [Hx|Hx]; [congruence|by right]).
    + apply N.eqb_neq in Hk. destruct (id <? k)%N eqn:Hlt.
      * apply N.ltb_lt in Hlt. rewrite elem_of_cons.
        assert (Hno : ∀ g, (id, g) ∉ (k, (c1, v1)) :: l).
        { intros g [[= ]|Hg]%elem_of_cons; [done|]. apply Hhead in Hg. lia. }
        destruct (id =? id')%N eqn:He.
        -- apply N.eqb_eq in He as <-. split.
           ++ intros [[= -> ->]|Hx]; [by right|by apply Hno in Hx].
           ++ intros [(c0 & Hx & _)|(_ & -> & ->)]; [by apply Hno in Hx|by left].
        -- apply N.eqb_neq in He. split; [intros [Hx|Hx]; [congruence|done]|by right].
      * rewrite elem_of_cons, (IH Hs'). destruct (id =? id')%N eqn:He.
        -- apply N.eqb_eq in He as <-. setoid_rewrite elem_of_cons. split.
           ++ intros [[= ]|[(c0 & Hx & ->)|(Hno & -> & ->)]]; [done|left; eauto|right].
              split; [|done]. intros g [[=]|Hg]; [done|by apply Hno in Hg].
           ++ intros [(c0 & [[=]|Hx] & ->)|(Hno & -> & ->)]; [done|right; left; eauto|right; right].
              split; [|done]. intros g Hg. by apply (Hno g); right.
        -- rewrite elem_of_cons. done.
Qed.

Lemma deliveries_to_snoc id d x : deliveries_to id (d ++ [x]) =
  deliveries_to id d ++ (if (x.1 =? id)%N then [x.2] else []).
Proof. unfold deliveries_to. rewrite omap_app. simpl. by destruct (x.1 =? id)%N. Qed.

(** One group per parent, in ascending order, with its count and its first result. *)
Lemma group_deliveries_spec deliveries :
  keys_sorted (group_deliveries deliveries) ∧
  ∀ id c v, (id, (c, v)) ∈ group_deliveries deliveries ↔
    head (deliveries_to id deliveries) = Some v ∧ c = zlen (deliveries_to id deliveries).
Proof.
  unfold group_deliveries. induction deliveries as [|d deliveries IH] using rev_ind.
  { split; [constructor|]. intros id c v. simpl. split; [intros Hx; by apply elem_of_nil in Hx|].
    by intros [? _]. }
  destruct IH as [Hs IH]. rewrite fold_left_app. simpl. set (l := fold_left _ deliveries []) in *.
  split; [by apply group_insert_sorted|]. intros id c v.
  rewrite group_insert_elem by done. rewrite deliveries_to_snoc.
  destruct (d.1 =? id)%N eqn:He; [|by rewrite app_nil_r].
  apply N.eqb_eq in He as <-. rewrite zlen_app. change (zlen [d.2]) with 1.
  destruct (deliveries_to d.1 deliveries) as [|w ws] eqn:Hd.
  - simpl. split.
    + intros [(c0 & Hx & ->)|(_ & -> & ->)]; [|done]. apply IH in Hx as [Hx _]. by rewrite Hd in Hx.
    + intros [[= ->] ->]. right. split; [|done]. intros [c0 v0] Hx. apply IH in Hx as [Hx _].
      by rewrite Hd in Hx.
  - simpl. split.
    + intros [(c0 & Hx & ->)|(Hno & _)].
      * apply IH in Hx as [Hx ->]. rewrite Hd in Hx |- *. done.
      * destruct (Hno (zlen (w :: ws), w)). apply IH. by rewrite Hd.
    + intros [[= ->] ->]. left. exists (zlen (v :: ws)). split; [|done]. apply IH. by rewrite Hd.
Qed.

(** ** Delivering to one parent *)

Section Delivery.
Context `{X : Externals, L : !ExternalLaws X}.

(** The parent row and its wait set after the results of one turn. *)
Definition delivered (now : DateTime) (results : list string) (parent : TaskRecord)
    (wait : option TaskWait) : TaskRecord * option TaskWait :=
  match results, wait with
  | [], _ => (parent, wait)
  | v :: _, None => (wake_parent now (set_resume_input (Some v) parent), None)
  | _, Some w =>
      let left := tw_remaining_completions w - zlen results in
      if left <? 0 then
        (wake_parent now (set_resume_input
           (Some (group_failure (t_id parent) "All completion counter underflow")) parent), None)
      else if left =? 0 then (wake_parent now parent, Some (put_remaining 0 w))
      else (parent, Some (put_remaining left w))
  end.

Lemma deliver_group_ids now acc group :
  ids (ms_tasks (deliver_group now acc group).1) = ids (ms_tasks acc.1).
Proof.
  unfold deliver_group. destruct acc as [s names], group as [id [count result]].
  assert (Hu : ∀ f, (∀ r, t_id (f r) = t_id r) →
    ids (update_first (awaits_delivery id) f (ms_tasks s)) = ids (ms_tasks s)).
  { intros f Hf. induction (ms_tasks s) as [|r l IH]; simpl; [done|].
    case_match; simpl; [by rewrite Hf|by rewrite IH]. }
  repeat case_match; simpl; try done; by apply Hu.
Qed.

Lemma update_first_hit {A} (p : A → bool) f l i x :
  l !! i = Some x → p x = true → (∀ y, y ∈ l → p y = true → y = x) → NoDup l →
  update_first p f l !! i = Some (f x).
Proof.
  revert i. induction l as [|y l IH]; intros i Hi Hp Hu Hn; [done|].
  apply NoDup_cons in Hn as [Hy Hn]. simpl. destruct i as [|i]; simpl in Hi.
  - simplify_eq. by rewrite Hp.
  - destruct (p y) eqn:Hpy.
    + destruct Hy. rewrite (Hu y) by (by left || done). by eapply list_elem_of_lookup_2.
    + simpl. apply IH; [done|done| |done]. intros z Hz. apply Hu. by right.
Qed.

Lemma awaits_unique tasks i r y :
  NoDup (ids tasks) → tasks !! i = Some r → y ∈ tasks → awaits_delivery (t_id r) y = true → y = r.
Proof.
  intros Hn Hi Hy Ha. unfold awaits_delivery, has_id in Ha.
  apply andb_prop in Ha as [[Ha _]%andb_prop _]. apply N.eqb_eq in Ha.
  apply list_elem_of_lookup in Hy as [j Hj].
  assert (i = j) as ->; [|congruence].
  eapply (NoDup_lookup (ids tasks)); [done| |]; unfold ids; rewrite list_lookup_fmap.
  - by rewrite Hi.
  - rewrite Hj. simpl. congruence.
Qed.

Lemma ids_nodup tasks : NoDup (ids tasks) → NoDup tasks.
Proof. unfold ids. apply NoDup_fmap_1. Qed.

(** The group of the row's own identity decides it. *)
Lemma deliver_group_hit now s names i r count v :
  NoDup (ids (ms_tasks s)) → ms_tasks s !! i = Some r →
  t_cancelled r = false → t_status r = Suspended →
  (∀ w, ms_waits s !! t_id r = Some w → tw_remaining_completions w ≤ I32_MAX) → 0 < count →
  let s' := (deliver_group now (s, names) (t_id r, (count, v))).1 in
  match ms_waits s !! t_id r with
  | None => ms_tasks s' !! i = Some (wake_parent now (set_resume_input (Some v) r))
            ∧ ms_waits s' !! t_id r = None
  | Some w =>
      let left := tw_remaining_completions w - count in
      if left <? 0 then
        ms_tasks s' !! i = Some (wake_parent now (set_resume_input
           (Some (group_failure (t_id r) "All completion counter underflow")) r))
        ∧ ms_waits s' !! t_id r = None
      else if left =? 0 then
        ms_tasks s' !! i = Some (wake_parent now r) ∧ ms_waits s' !! t_id r = Some (put_remaining 0 w)
      else ms_tasks s' !! i = Some r ∧ ms_waits s' !! t_id r = Some (put_remaining left w)
  end.
Proof.
  intros Hn Hi Hc Hs Hw Hpos. assert (Hp : awaits_delivery (t_id r) r = true).
  { unfold awaits_delivery, has_id. rewrite N.eqb_refl, Hc. by apply bool_decide_eq_true. }
  assert (Huniq := λ y, awaits_unique _ _ _ y Hn Hi).
  assert (Hhit : ∀ f, update_first (awaits_delivery (t_id r)) f (ms_tasks s) !! i = Some (f r)).
  { intros f. apply update_first_hit; [done|done|exact Huniq|by apply ids_nodup]. }
  unfold deliver_group.
  destruct (List.find (awaits_delivery (t_id r)) (ms_tasks s)) as [y|] eqn:Hf.
  2: { rewrite (List.find_none _ _ Hf r) in Hp; [done|].
       apply list_elem_of_In. by eapply list_elem_of_lookup_2. }
  cbv zeta. destruct (ms_waits s !! t_id r) as [w|] eqn:Hwait.
  - specialize (Hw w eq_refl). unfold i32_checked_sub, i32_checked_add.
    change (tw_remaining_completions w - count) with (tw_remaining_completions w + - count).
    set (left := tw_remaining_completions w + - count) in *.
    destruct ((left <=? I32_MAX) && (-2147483648 <=? left)) eqn:Hr.
    + destruct (left <? 0) eqn:Hneg; simpl.
      * rewrite Hhit, lookup_delete_eq. done.
      * assert (Hz : (0 <? left) = negb (left =? 0)) by lia. rewrite Hz.
        destruct (left =? 0) eqn:H0; simpl; rewrite ?Hhit, lookup_insert_eq; [|done].
        apply Z.eqb_eq in H0. by rewrite H0.
    + assert (left <? 0 = true) as ->.
      { apply andb_false_iff in Hr. apply Z.ltb_lt. unfold left in *. lia. }
      simpl. rewrite Hhit, lookup_delete_eq. done.
  - simpl. by rewrite Hhit.
Qed.

(** Groups of other parents leave the row and its wait set alone. *)
Lemma deliver_groups_miss now groups s names i r :
  ms_tasks s !! i = Some r → t_id r ∉ groups.*1 →
  let s' := (fold_left (deliver_group now) groups (s, names)).1 in
  ms_tasks s' !! i = Some r ∧ ms_waits s' !! t_id r = ms_waits s !! t_id r.
Proof.
  revert s names. induction groups as [|g groups IH]; intros s names Hi Hno; simpl; [done|].
  rewrite fmap_cons in Hno. apply not_elem_of_cons in Hno as [Hg Hno].
  destruct (deliver_group now (s, names) g) as [s1 names1] eqn:Hd.
  assert (H1 : ms_tasks s1 !! i = Some r).
  { change s1 with (s1, names1).1. rewrite <- Hd. apply deliver_group_keep; [done|].
    unfold awaits_delivery, has_id. by rewrite (proj2 (N.eqb_neq _ _)). }
  assert (H2 : ms_waits s1 !! t_id r = ms_waits s !! t_id r).
  { unfold deliver_group in Hd. destruct g as [id [c v]]. simpl in Hg.
    repeat case_match; simplify_eq; simpl; try done;
      rewrite ?lookup_delete_ne, ?lookup_insert_ne by done; done. }
  destruct (IH s1 names1 H1 Hno) as [H3 H4]. split; [done|congruence].
Qed.

Lemma deliver_groups_ids now groups acc :
  ids (ms_tasks (fold_left (deliver_group now) groups acc).1) = ids (ms_tasks acc.1).
Proof.
  revert acc. induction groups as [|g groups IH]; intros acc; simpl; [done|].
  by rewrite IH, deliver_group_ids.
Qed.

Lemma keys_sorted_nodup (groups : list (TaskId * (Z * string))) :
  keys_sorted groups → NoDup groups.*1.
Proof.
  unfold keys_sorted. induction 1 as [|x l _ IH Hx]; constructor; [|done].
  intros Hin. rewrite Forall_forall in Hx. specialize (Hx x Hin). lia.
Qed.

(** A single group among others, of distinct parents, decides its parent's row and wait set. *)
Lemma deliver_groups_hit now groups s names i r v vs :
  NoDup groups.*1 → (t_id r, (zlen (v :: vs), v)) ∈ groups →
  NoDup (ids (ms_tasks s)) → ms_tasks s !! i = Some r →
  t_cancelled r = false → t_status r = Suspended →
  (∀ w, ms_waits s !! t_id r = Some w → tw_remaining_completions w ≤ I32_MAX) →
  let s' := (fold_left (deliver_group now) groups (s, names)).1 in
  let expected := delivered now (v :: vs) r (ms_waits s !! t_id r) in
  ms_tasks s' !! i = Some expected.1 ∧ ms_waits s' !! t_id r = expected.2.
Proof.
  intros Hnd Hin Hn Hi Hc Hs Hw. apply list_elem_of_split in Hin as (g1 & g2 & ->).
  rewrite fmap_app, fmap_cons in Hnd. apply NoDup_app in Hnd as (_ & Hn1 & Hn2).
  apply NoDup_cons in Hn2 as [Hn2 _].
  assert (Hno1 : t_id r ∉ g1.*1) by (intros Hx; apply (Hn1 _ Hx); by left).
  rewrite fold_left_app. simpl.
  destruct (deliver_groups_miss now g1 s names i r Hi Hno1) as [Hi2 Hw2].
  pose proof (deliver_groups_ids now g1 (s, names)) as Hids.
  destruct (fold_left (deliver_group now) g1 (s, names)) as [s2 names2]. simpl in Hi2, Hw2, Hids.
  rewrite <- Hids in Hn. rewrite <- Hw2 in Hw |- *.
  pose proof (deliver_group_hit now s2 names2 i r (zlen (v :: vs)) v Hn Hi2 Hc Hs Hw
    ltac:(unfold zlen; simpl; lia)) as Hhit.
  destruct (deliver_group now (s2, names2) _) as [s3 names3]. simpl in Hhit.
  assert (Hlast : ∀ r', t_id r' = t_id r → ms_tasks s3 !! i = Some r' →
    ms_tasks (fold_left (deliver_group now) g2 (s3, names3)).1 !! i = Some r'
    ∧ ms_waits (fold_left (deliver_group now) g2 (s3, names3)).1 !! t_id r = ms_waits s3 !! t_id r).
  { intros r' Hid Hr'. rewrite <- Hid. apply deliver_groups_miss; [done|by rewrite Hid]. }
  unfold delivered. destruct (ms_waits s2 !! t_id r) as [w|]; cbv zeta in *.
  - destruct (_ <? 0); [|destruct (_ =? 0)]; destruct Hhit as [Ht Hwt]; simpl;
      (apply Hlast in Ht as [-> ->]; done).
  - destruct Hhit as [Ht Hwt]. simpl. by apply Hlast in Ht as [-> ->].
Qed.

(** C5: the results of a turn reach a suspended parent exactly: without a wait set it becomes
    ready with the first result as its input; with one, the count of outstanding members falls
    by the number of results, the parent becomes ready exactly when it reaches zero, stays
    suspended while members are outstanding, and a count below zero is an encoded failure. *)
Theorem delivery_reaches_parent children deliveries now s lanes s' i r :
  finalize_workflow children deliveries now s = (lanes, s') →
  NoDup (ids (ms_tasks s ++ children)) →
  ms_tasks s !! i = Some r → t_cancelled r = false → t_status r = Suspended →
  (∀ w, ms_waits s !! t_id r = Some w → tw_remaining_completions w ≤ I32_MAX) →
  let expected := delivered now (deliveries_to (t_id r) deliveries) r (ms_waits s !! t_id r) in
  ms_tasks s' !! i = Some expected.1 ∧ ms_waits s' !! t_id r = expected.2.
Proof.
  unfold finalize_workflow. intros H Hn Hi Hc Hs Hw. set (s0 := set_tasks _ s) in H.
  destruct (fold_left _ _ _) as [s1 names1] eqn:Hf. injection H as _ <-.
  assert (Hi0 : ms_tasks s0 !! i = Some r) by (by apply lookup_app_l_Some).
  destruct (group_deliveries_spec deliveries) as [Hsort Hspec].
  destruct (deliveries_to (t_id r) deliveries) as [|v vs] eqn:Hd.
  - pose proof (deliver_groups_miss now (group_deliveries deliveries) s0 (t_lane <$> children) i r Hi0)
      as Hm. rewrite Hf in Hm. apply Hm. intros Hin.
    apply list_elem_of_fmap in Hin as ([id [c w]] & Heq & Hin). simpl in Heq. subst id.
    apply Hspec in Hin as [Hx _]. by rewrite Hd in Hx.
  - assert (Hin : (t_id r, (zlen (v :: vs), v)) ∈ group_deliveries deliveries)
      by (apply Hspec; by rewrite Hd).
    pose proof (deliver_groups_hit now (group_deliveries deliveries) s0 (t_lane <$> children) i r v vs)
      as Hhit. rewrite Hf in Hhit. apply Hhit; try done. by apply keys_sorted_nodup.
Qed.
End Delivery.

(** ** The aggregated input of a join *)

Section Aggregate.
Context `{X : Externals, L : !ExternalLaws X}.

(** The result of one member, when it is there, terminal and well formed. *)
Definition member_result (tasks : list TaskRecord) (id : TaskId) : option string :=
  find_task id tasks ≫= λ child,
  if is_terminal (t_status child) then
    t_last_result child ≫= λ v, if is_ok (validate_resume v) then Some v else None
  else None.

Fixpoint member_results (tasks : list TaskRecord) (members : list TaskId) : option (list string) :=
  match members with
  | [] => Some []
  | id :: members =>
      member_result tasks id ≫= λ v, member_results tasks members ≫= λ vs, Some (v :: vs)
  end.

(** The reference encoding: the results, in submission order, as one JSON array. *)
Definition join_text (results : list string) : string :=
  jtext "{'Ok':[" +:+ (String.concat "," results +:+ jtext "]}").

Definition extend (buffer v : string) : string :=
  (if 7 <? str_len buffer then buffer +:+ "," else buffer) +:+ v.
Definition separated (buffer : string) (results : list string) : string := foldl extend buffer results.

Lemma str_app_assoc (a b c : string) : (a +:+ b) +:+ c = a +:+ (b +:+ c).
Proof. induction a as [|x a IH]; [done|]. change (String x ((a +:+ b) +:+ c) = String x (a +:+ (b +:+ c))). by rewrite IH. Qed.
Lemma str_app_nil_r (a : string) : a +:+ "" = a.
Proof. induction a as [|x a IH]; [done|]. change (String x (a +:+ "") = String x a). by rewrite IH. Qed.

Lemma extend_len buffer v : str_len buffer + str_len v ≤ str_len (extend buffer v) ≤ str_len buffer + str_len v + 1.
Proof.
  unfold extend. destruct (7 <? str_len buffer); rewrite !str_len_app;
    try change (str_len ",") with 1; lia.
Qed.

Lemma separated_len buffer results : str_len buffer ≤ str_len (separated buffer results).
Proof.
  unfold separated. revert buffer. induction results as [|v vs IH]; intros buffer; simpl; [done|].
  pose proof (extend_len buffer v). pose proof (str_len_nonneg v). specialize (IH (extend buffer v)). lia.
Qed.

Definition tail_text (results : list string) : string :=
  match results with [] => EmptyString | _ => "," +:+ String.concat "," results end.
Lemma concat_cons v vs : String.concat "," (v :: vs) = v +:+ tail_text vs.
Proof. destruct vs; [symmetry; apply str_app_nil_r|done]. Qed.

Lemma separated_tail buffer results :
  7 < str_len buffer → separated buffer results = buffer +:+ tail_text results.
Proof.
  revert buffer. induction results as [|v vs IH]; intros buffer Hb; [symmetry; apply str_app_nil_r|].
  change (separated buffer (v :: vs)) with (separated (extend buffer v) vs).
  pose proof (extend_len buffer v). pose proof (str_len_nonneg v).
  rewrite IH by lia. unfold extend. rewrite (proj2 (Z.ltb_lt _ _)) by lia.
  unfold tail_text at 2. by rewrite concat_cons, !str_app_assoc.
Qed.

(** Started at the seven-byte opening, the appended text is the reference's. *)
Lemma separated_join results :
  Forall (λ v, 0 < str_len v) results →
  separated (jtext "{'Ok':[") results = jtext "{'Ok':[" +:+ String.concat "," results.
Proof.
  intros Hv. destruct results as [|v vs]; [symmetry; apply str_app_nil_r|].
  apply Forall_cons in Hv as [Hv _].
  change (separated (jtext "{'Ok':[") (v :: vs)) with (separated (jtext "{'Ok':[" +:+ v) vs).
  rewrite separated_tail, concat_cons, str_app_assoc; [done|].
  rewrite str_len_app. change (str_len (jtext "{'Ok':[")) with 7. lia.
Qed.

Lemma append_result_fits buffer v :
  is_ok (validate_resume v) = true → str_len (extend buffer v) + 2 ≤ RESULT_LIMIT →
  append_result buffer (Some v) true = Ok (extend buffer v).
Proof.
  intros Hv Hf. unfold append_result, extend in *. rewrite Hv. simpl.
  pose proof (str_len_nonneg buffer). pose proof (str_len_nonneg v).
  unfold usize_saturating, USIZE_MAX, RESULT_LIMIT in *.
  destruct (7 <? str_len buffer); simpl; rewrite !str_len_app in Hf;
    try change (str_len ",") with 1 in Hf; rewrite (proj2 (Z.ltb_ge _ _)); try done; lia.
Qed.

Lemma append_members_join tasks members buffer results :
  member_results tasks members = Some results →
  str_len (separated buffer results) + 2 ≤ RESULT_LIMIT →
  append_members tasks members buffer = Ok (separated buffer results).
Proof.
  revert buffer results. induction members as [|id members IH]; intros buffer results Hr Hf; simpl in *.
  { by simplify_eq. }
  destruct (member_result tasks id) as [v|] eqn:Hv; [|done]. simpl in Hr.
  destruct (member_results tasks members) as [vs|] eqn:Hvs; [|done]. simplify_eq/=.
  unfold member_result in Hv. destruct (find_task id tasks) as [child|]; [|done]. simpl in Hv |- *.
  destruct (is_terminal (t_status child)); [|done].
  destruct (t_last_result child) as [v'|]; [|done]. simpl in Hv.
  destruct (is_ok (validate_resume v')) eqn:Hok; [|done]. simplify_eq.
  change (separated buffer (v :: vs)) with (separated (extend buffer v) vs) in *.
  pose proof (separated_len (extend buffer v) vs).
  rewrite append_result_fits by (done || lia). simpl. by apply IH.
Qed.

Lemma append_members_inv tasks members buffer buffer' :
  append_members tasks members buffer = Ok buffer' →
  ∃ results, member_results tasks members = Some results ∧ buffer' = separated buffer results.
Proof.
  revert buffer. induction members as [|id members IH]; intros buffer H; simpl in *.
  { simplify_eq. by exists []. }
  apply result_bind_ok in H as (b & Hb & H). apply IH in H as (vs & Hvs & ->).
  apply append_result_ok in Hb as (v & Ht & Hres & Hok & -> & _).
  exists (v :: vs). unfold member_result. destruct (find_task id tasks) as [child|]; [|done].
  simpl in *. by rewrite Ht, Hres, Hvs; simpl; rewrite Hok.
Qed.

Lemma member_results_nonempty tasks members results :
  member_results tasks members = Some results → Forall (λ v, 0 < str_len v) results.
Proof.
  revert results. induction members as [|id members IH]; intros results H; simpl in H; [by simplify_eq|].
  destruct (member_result tasks id) as [v|] eqn:Hv; [|done]. simpl in H.
  destruct (member_results tasks members) as [vs|]; [|done]. simplify_eq/=. constructor; [|by apply IH].
  unfold member_result in Hv. destruct (find_task id tasks) as [child|]; [|done]. simpl in Hv.
  destruct (is_terminal _); [|done]. destruct (t_last_result child) as [v'|]; [|done]. simpl in Hv.
  destruct (is_ok (validate_resume v')) eqn:Hok; [|done]. simplify_eq.
  destruct v; [|unfold str_len; simpl; lia]. unfold validate_resume, json_check in Hok.
  simpl in Hok. destruct (resume_error "") eqn:He; [done|]. by destruct resume_error_empty.
Qed.

(** C38: the input of a complete join is the reference encoding of its members' results in
    submission order when every member is terminal with a well-formed result and the text fits
    the resume limit; otherwise, and when members are outstanding, it is a failure envelope
    naming the parent; it always fits the limit. *)
Theorem aggregate_is_ordered_join tasks parent wait :
  str_len (aggregate tasks parent wait) ≤ RESULT_LIMIT
  ∧ match member_results tasks (tw_children wait) with
    | Some results =>
        if (tw_remaining_completions wait =? 0) && (str_len (join_text results) <=? RESULT_LIMIT)
        then aggregate tasks parent wait = join_text results
        else ∃ message, aggregate tasks parent wait = failure parent message
    | None => ∃ message, aggregate tasks parent wait = failure parent message
    end.
Proof.
  split; [apply aggregate_fits|]. unfold aggregate.
  destruct (tw_remaining_completions wait =? 0); simpl.
  2: { destruct (member_results _ _); eauto. }
  assert (Hlen : ∀ vs, Forall (λ v, 0 < str_len v) vs →
    str_len (join_text vs) = str_len (separated (jtext "{'Ok':[") vs) + 2).
  { intros vs Hv. rewrite separated_join by done. unfold join_text. rewrite !str_len_app.
    change (str_len (jtext "]}")) with 2. lia. }
  destruct (append_members tasks (tw_children wait) (jtext "{'Ok':[")) as [b|e] eqn:Ha.
  - assert (Hf := Ha). apply append_members_fits in Hf; [|by vm_compute].
    apply append_members_inv in Ha as (vs & Hvs & ->). rewrite Hvs.
    assert (Hne := member_results_nonempty _ _ _ Hvs).
    rewrite (proj2 (Z.leb_le _ _)) by (rewrite Hlen by done; lia).
    rewrite separated_join by done. by rewrite str_app_assoc.
  - destruct (member_results _ _) as [vs|] eqn:Hvs; [|eauto].
    destruct (str_len (join_text vs) <=? RESULT_LIMIT) eqn:Hf; [|eauto].
    apply Z.leb_le in Hf. rewrite Hlen in Hf by (by eapply member_results_nonempty).
    by rewrite (append_members_join _ _ _ _ Hvs Hf) in Ha.
Qed.

(** A group of children is staged all or nothing: the parent suspends with its checkpoint and
    every member is appended in submission order, linked to the parent and to its root, without
    an owner; or nothing is appended and the parent fails. *)
Theorem all_group_is_atomic conf existing parent checkpoint group now children outcome children' :
  prepare conf existing parent checkpoint group now children = (Ok outcome, children') →
  (outcome = OutSuspend checkpoint ∧ ∃ staged, children' = children ++ staged
     ∧ Forall2 (λ w r, ∃ ready_at, r = stamp now ready_at (w_record (link_child parent w))
         ∧ t_parent_id r = Some (t_id parent)
         ∧ t_root_id r = Some (default (t_id parent) (t_root_id parent)) ∧ t_node_id r = None)
         group staged)
  ∨ (∃ message, outcome = OutFail message) ∧ children' = children.
Proof.
  unfold prepare. intros H. apply bindM_liftR_ok in H as (c & _ & H).
  destruct (validate_group group c) as [u|e]; [|unfold retM in H; simplify_eq; right; by eauto].
  rewrite bindM_get in H. destruct (stage_group _ _ _ _ _) as [q k] eqn:Hg.
  rewrite bindM_modify in H. unfold retM in H. simplify_eq.
  assert (Hstage : ∀ group children q k, stage_group existing parent group now children = (q, k) →
    ∃ staged, k = children ++ staged ∧ (q = true → Forall2 (λ w r, ∃ ready_at,
      r = stamp now ready_at (w_record (link_child parent w))
         ∧ t_parent_id r = Some (t_id parent)
         ∧ t_root_id r = Some (default (t_id parent) (t_root_id parent)) ∧ t_node_id r = None)
         group staged)).
  { clear -L. induction group as [|w group IH]; intros children q k Hg; simpl in Hg.
    { simplify_eq. exists []. by rewrite app_nil_r. }
    destruct (stage_write existing (link_child parent w) now children) as [[r|e] c] eqn:Hs.
    - apply stage_write_ok in Hs as (ready & _ & _ & Hs).
      destruct r as [x|x|]; [|destruct Hs as [-> _]; simplify_eq; exists []; by rewrite app_nil_r..].
      destruct Hs as (_ & -> & _). apply IH in Hg as (staged & -> & Hf).
      eexists (_ :: staged). rewrite <- app_assoc. split; [done|]. intros Hq.
      constructor; [|by apply Hf]. by exists ready.
    - apply stage_write_err in Hs as ->. simplify_eq. exists []. by rewrite app_nil_r. }
  apply Hstage in Hg as (staged & -> & Hf). destruct q.
  - left. split; [done|]. exists staged. split; [done|]. by apply Hf.
  - right. split; [by eauto|]. apply take_app_length.
Qed.
End Aggregate.

#[local] Existing Instances DemoExternals.externals DemoExternals.laws.

(** One of the two children of the waiting flow completed. *)
Lemma delivery_reaches_parent_witness :
  ∃ r, ms_tasks (st_state joined_state) !! 0%nat = Some r ∧
  ms_waits (finalize_workflow [] [(10%N, UNIT_RESULT)] (from_secs 4) (st_state joined_state)).2 !! t_id r
  = Some {| tw_children := [20%N; 21%N]; tw_remaining_completions := 1 |}.
Proof.
  assert (Hw : ms_waits (st_state joined_state) !! 10%N
    = Some {| tw_children := [20%N; 21%N]; tw_remaining_completions := 2 |}) by (vm_compute; reflexivity).
  assert (Hn : NoDup (ids (ms_tasks (st_state joined_state) ++ []))).
  { apply (bool_decide_unpack _). vm_compute. exact I. }
  assert (He : ∃ r, ms_tasks (st_state joined_state) !! 0%nat = Some r
    ∧ t_id r = 10%N ∧ t_cancelled r = false ∧ t_status r = Suspended).
  { vm_compute. eexists. repeat split. }
  destruct He as (r & Hr & Hid & Hc & Hs). exists r. split; [exact Hr|].
  revert Hw Hn Hr. generalize (st_state joined_state). intros s Hw Hn Hr.
  destruct (finalize_workflow [] [(10%N, UNIT_RESULT)] (from_secs 4) s) as [lanes s'] eqn:Hf.
  destruct (delivery_reaches_parent [] [(10%N, UNIT_RESULT)] (from_secs 4) s
    lanes s' 0%nat r Hf Hn Hr Hc Hs) as [_ H].
  - rewrite Hid, Hw. intros w [= <-]. discriminate.
  - rewrite Hid, Hw in H. rewrite Hid. exact H.
Defined.

Lemma all_group_is_atomic_witness :
  ∃ children, prepare (Some demo_conf) [] (demo_record 1 Flow "flow" "default") "s"
      [work_write 2; work_write 3] 0 [] = (Ok (OutSuspend "s"), children)
    ∧ ids children = [2%N; 3%N].
Proof.
  destruct (prepare (Some demo_conf) [] (demo_record 1 Flow "flow" "default") "s"
      [work_write 2; work_write 3] 0 []) as [[o|e] children] eqn:H; [|vm_compute in H; discriminate].
  assert (Ho : o = OutSuspend "s") by (vm_compute in H; injection H as <- _; reflexivity).
  subst o. exists children. split; [reflexivity|].
  destruct (all_group_is_atomic (Some demo_conf) [] (demo_record 1 Flow "flow" "default") "s"
    [work_write 2; work_write 3] 0 [] (OutSuspend "s") children H) as [(_ & staged & -> & Hf)|[[m Hm] _]];
    [|discriminate].
  apply Forall2_cons_inv_l in Hf as (r1 & l1 & (d1 & -> & _) & Hf & ->).
  apply Forall2_cons_inv_l in Hf as (r2 & l2 & (d2 & -> & _) & Hf & ->).
  apply Forall2_nil_inv_l in Hf as ->. reflexivity.
Defined.

(** Two members that ended out of order, joined in submission order. *)
Definition ended (id : N) (text : string) : TaskRecord :=
  set_last_result (Some text) (set_status Succeeded (demo_record id Work "work" "default")).

Lemma aggregate_is_ordered_join_witness :
  aggregate [ended 21 "2"; ended 20 "1"] 10%N
    {| tw_children := [20%N; 21%N]; tw_remaining_completions := 0 |} = join_text ["1"; "2"].
Proof.
  destruct (aggregate_is_ordered_join [ended 21 "2"; ended 20 "1"] 10%N
    {| tw_children := [20%N; 21%N]; tw_remaining_completions := 0 |}) as [_ H].
  assert (Hm : member_results [ended 21 "2"; ended 20 "1"] [20%N; 21%N] = Some ["1"; "2"]%string)
    by (vm_compute; reflexivity).
  cbn [tw_children tw_remaining_completions] in H. rewrite Hm in H.
  assert (Hl : str_len (join_text ["1"; "2"]%string) <=? RESULT_LIMIT = true) by (vm_compute; reflexivity).
  rewrite Hl in H. exact H.
Defined.
