(* ===== verification/SubmissionTheorems.v ===== *)
(** * Submission: receipts, idempotency keys, schedules and direct admission *)
From S2P Require Import Prelude Externals Failure Config Rate Models Transitions Lifecycle.
From S2P Require Import MemoryState LaneLock Workflow Claims.
From S2P Require Import Evolution ClaimFacts Commits Atomic.
From S2P Require Import Turns StoreSpec.
#[local] Open Scope Z_scope.

Section Spec.
Context `{X : Externals}.
(** The ready time a write asks for. *)
Definition requested_ready (now : DateTime) (write : TaskWrite) :
    result TaskRuntimeError (option DateTime) :=
  match w_initial_delay write with Some delay => checked_deadline now delay | None => Ok (Some now) end.

(** What one receipt says of a write, against the table after the batch and the rows it added. *)
Definition receipt_says (now : DateTime) (all staged : list TaskRecord) (write : TaskWrite)
    (receipt : TaskReceipt) : Prop :=
  let same_key owner id := owner ∈ all ∧ t_id owner = id ∧ key_clash now owner (w_record write) in
  match receipt with
  | Queued id => id = t_id (w_record write) ∧ ∃ ready_at, requested_ready now write = Ok ready_at
      ∧ stamp now ready_at (w_record write) ∈ staged
  | Existing id => ∃ owner, same_key owner id
      ∧ t_idempotency_fingerprint owner = t_idempotency_fingerprint (w_record write)
  | Ignored id => ∃ owner, same_key owner id ∧ w_ignore_conflicts write = true
      ∧ t_idempotency_fingerprint owner ≠ t_idempotency_fingerprint (w_record write)
  end.

Definition queued_id (receipt : TaskReceipt) : option TaskId :=
  match receipt with Queued id => Some id | _ => None end.

(** What a key held by [owner] answers to another write. *)
Definition held_answer (owner : TaskRecord) (write : TaskWrite) :
    result TaskRuntimeError (list TaskReceipt) :=
  if bool_decide (t_idempotency_fingerprint owner = t_idempotency_fingerprint (w_record write))
  then Ok [Existing (t_id owner)]
  else if w_ignore_conflicts write then Ok [Ignored (t_id owner)]
  else Err (IdempotencyConflict (t_id owner)).

End Spec.

Section Receipts.
Context `{X : Externals, L : !ExternalLaws X}.

Lemma stage_write_run existing write now staged :
  stage_write existing write now staged =
  match requested_ready now write with
  | Err e => (Err e, staged)
  | Ok ready_at =>
      let record := stamp now ready_at (w_record write) in
      if existsb (has_id (t_id record)) (existing ++ staged)
      then (Err (AlreadyExists (uuid_display (t_id record))), staged)
      else match matching_key existing staged record now with
           | Some owner =>
               if bool_decide (t_idempotency_fingerprint owner = t_idempotency_fingerprint record)
               then (Ok (Existing (t_id owner)), staged)
               else if w_ignore_conflicts write then (Ok (Ignored (t_id owner)), staged)
               else (Err (IdempotencyConflict (t_id owner)), staged)
           | None => (Ok (Queued (t_id record)), staged ++ [record])
           end
  end.
Proof.
  unfold stage_write, requested_ready.
  destruct (w_initial_delay write) as [d|]; [rewrite bindM_liftR; destruct (checked_deadline now d)|];
    [|done|]; rewrite ?bindM_ret, bindM_get; cbv zeta;
    repeat case_match; done.
Qed.

Lemma stage_write_says existing write now staged receipt staged' :
  stage_write existing write now staged = (Ok receipt, staged') →
  ∃ new, staged' = staged ++ new ∧ ids new = option_list (queued_id receipt)
    ∧ receipt_says now (existing ++ staged') staged' write receipt.
Proof.
  rewrite stage_write_run. destruct (requested_ready now write) as [ready|e] eqn:Hr; [|done].
  cbv zeta. destruct (existsb _ _); [done|].
  destruct (matching_key _ _ _ _) as [owner|] eqn:Hm.
  - apply matching_key_some in Hm as [Hin Hk].
    intros H. exists []. rewrite app_nil_r.
    destruct (bool_decide _) eqn:Hb; [apply bool_decide_eq_true in Hb|apply bool_decide_eq_false in Hb].
    + simplify_eq. split_and!; [done..|]. by exists owner.
    + destruct (w_ignore_conflicts write) eqn:Hi; [|done]. simplify_eq. split_and!; [done..|].
      exists owner. simpl. by rewrite Hi.
  - intros [= <- <-]. eexists. split_and!; [done|done|]. simpl. split; [done|].
    exists ready. split; [done|]. apply elem_of_app. right. by left.
Qed.

Lemma receipt_says_more now all staged write receipt all' staged' :
  receipt_says now all staged write receipt → all ⊆ all' → staged ⊆ staged' →
  receipt_says now all' staged' write receipt.
Proof. unfold receipt_says. destruct receipt; naive_solver. Qed.

Lemma stage_writes_says existing writes now staged receipts staged' :
  stage_writes existing writes now staged = (Ok receipts, staged') →
  ∃ new, staged' = staged ++ new ∧ ids new = omap queued_id receipts
    ∧ Forall2 (receipt_says now (existing ++ staged') staged') writes receipts.
Proof.
  unfold stage_writes. revert staged receipts. induction writes as [|w writes IH];
    intros staged receipts H; simpl in H.
  { unfold retM in H. simplify_eq. exists []. rewrite app_nil_r. by split_and!. }
  apply bindM_ok in H as (rc & t & Hw & H). apply bindM_ok in H as (rcs & t' & Hws & H).
  unfold retM in H. simplify_eq.
  apply stage_write_says in Hw as (n1 & -> & Hi1 & Hs1).
  apply IH in Hws as (n2 & -> & Hi2 & Hs2). exists (n1 ++ n2). rewrite app_assoc.
  split_and!; [done| |constructor; [|done]].
  - rewrite ids_app, Hi1, Hi2. simpl. by destruct (queued_id rc).
  - eapply receipt_says_more; [exact Hs1| |]; intros x; rewrite !elem_of_app; tauto.
Qed.

(** A submission that returns gives one receipt per write, in order, and adds exactly the
    queued rows behind the table: a queued write is stored under its own identity with the clock
    and the ready time it asked for, an existing one names a stored row of the same handler and
    still-held key with the same fingerprint, an ignored one a row with another fingerprint and
    only when the write allows it; nothing else of the store changes. *)
Theorem submission_receipts writes now s receipts s' :
  store_tasks writes now s = (Ok receipts, s') →
  ∃ staged, s' = set_tasks (ms_tasks s ++ staged) s
    ∧ ids staged = omap queued_id receipts
    ∧ Forall2 (receipt_says now (ms_tasks s') staged) writes receipts.
Proof.
  unfold store_tasks. rewrite bindM_get. intros H. apply bindM_liftR_ok in H as (u & _ & H).
  destruct (stage_writes _ _ _ _) as [[rcs|e] staged] eqn:Hs; [|done].
  rewrite bindM_modify in H. unfold retM in H. simplify_eq.
  apply stage_writes_says in Hs as (new & -> & Hi & Hf). exists new. by split_and!.
Qed.

(** While a stored row holds its idempotency key, another write of the same handler and key
    stores nothing: it is answered with that row when the fingerprints agree, ignored when they
    differ and the write allows it, and refused as a conflict naming the row otherwise. *)
Theorem held_key_answers_resubmission write owner now s :
  is_ok (validate_write_lanes (ms_conf s) [write]) = true →
  is_ok (requested_ready now write) = true →
  t_id (w_record write) ∉ ids (ms_tasks s) →
  owner ∈ ms_tasks s → key_clash now owner (w_record write) →
  (∀ r, r ∈ ms_tasks s → key_clash now r (w_record write) → r = owner) →
  store_tasks [write] now s = (held_answer owner write, s).
Proof.
  intros Hv Hr Hid Hin Hk Hu. unfold store_tasks. rewrite bindM_get, bindM_liftR.
  destruct (validate_write_lanes (ms_conf s) [write]); [|done].
  unfold stage_writes. simpl. unfold bindM at 1. rewrite stage_write_run.
  destruct (requested_ready now write) as [ready|]; [|done]. cbv zeta.
  destruct (existsb _ _) eqn:He.
  { rewrite app_nil_r in He. by apply existsb_has_id in He. }
  assert (Hm : matching_key (ms_tasks s) [] (stamp now ready (w_record write)) now = Some owner).
  { destruct (matching_key _ _ _ _) as [r|] eqn:Hm.
    - apply matching_key_some in Hm as [Hr' Hc]. rewrite app_nil_r in Hr'. f_equal. by apply Hu.
    - eapply matching_key_none in Hm; [|by rewrite app_nil_r]. by destruct Hm. }
  rewrite Hm. unfold held_answer. cbn [stamp t_idempotency_fingerprint set_ready_at set_updated_at
    set_created_at]. unfold bindM, retM, modifyM, throwM. simpl.
  assert (Hs : set_tasks (ms_tasks s ++ []) s = s) by (destruct s; simpl; by rewrite app_nil_r).
  destruct (bool_decide _); [by rewrite Hs|].
  destruct (w_ignore_conflicts write); [by rewrite Hs|done].
Qed.

(** A schedule's occurrence is stored at most once: a run that stores moves the cursor of
    that schedule strictly forward to at least the occurrence and moves no other, after which
    every occurrence up to the cursor is skipped without a change at any later clock; a skipped
    run changes nothing. *)
Theorem schedule_fires_once scheduled now s r s' :
  store_scheduled scheduled now s = (Ok r, s') →
  match r with
  | None => s' = s ∧ ∃ last, ms_schedules s !! sw_name scheduled = Some last
                     ∧ sw_occurrence scheduled ≤ last
  | Some _ =>
      ∃ cursor, ms_schedules s' = <[sw_name scheduled := cursor]> (ms_schedules s)
        ∧ sw_occurrence scheduled ≤ cursor
        ∧ (∀ last, ms_schedules s !! sw_name scheduled = Some last → last < cursor)
        ∧ ∀ again now', sw_name again = sw_name scheduled → sw_occurrence again ≤ cursor →
            store_scheduled again now' s' = (Ok None, s')
  end.
Proof.
  intros H. assert (Hc : ∀ c, ms_schedules s !! sw_name scheduled = Some c →
    (sw_occurrence scheduled <=? c) = false ∨ r = None).
  { intros c Hc. unfold store_scheduled in H. rewrite bindM_get, Hc in H.
    destruct (_ <=? _); [right; by inversion H|by left]. }
  unfold store_scheduled in H. rewrite bindM_get in H.
  destruct (ms_schedules s !! sw_name scheduled) as [last|] eqn:Hl.
  - destruct (sw_occurrence scheduled <=? last) eqn:Hle.
    { unfold retM in H. simplify_eq. split; [done|]. exists last. split; [done|lia]. }
    apply bindM_liftR_ok in H as (u & _ & H).
    destruct (stage_write _ _ _ _) as [[rc|e] staged]; [|done].
    rewrite !bindM_modify in H. unfold retM in H. simplify_eq.
    exists (Z.max now (sw_occurrence scheduled)). split_and!; [done|lia|intros l [= <-]; lia|].
    intros again now' Hn Ho. unfold store_scheduled. rewrite bindM_get. simpl.
    rewrite Hn, lookup_insert_eq. by rewrite (proj2 (Z.leb_le _ _)).
  - apply bindM_liftR_ok in H as (u & _ & H).
    destruct (stage_write _ _ _ _) as [[rc|e] staged]; [|done].
    rewrite !bindM_modify in H. unfold retM in H. simplify_eq.
    exists (Z.max now (sw_occurrence scheduled)). split_and!; [done|lia|done|].
    intros again now' Hn Ho. unfold store_scheduled. rewrite bindM_get. simpl.
    rewrite Hn, lookup_insert_eq. by rewrite (proj2 (Z.leb_le _ _)).
Qed.

Lemma admit_staged_spec conf node limit now staged tasks rows tasks' :
  admit_staged conf node limit now staged tasks = Ok (rows, tasks') →
  tasks' = tasks ++ (claimed node now <$>
    take (Z.to_nat (limit - zlen tasks)) (List.filter (λ r, direct r conf now) staged))
  ∧ Forall2 (λ r row, row = r ∨ direct r conf now = true ∧ row = claimed node now r ∧ row ∈ tasks')
      staged rows.
Proof.
  revert tasks rows tasks'. induction staged as [|r staged IH]; intros tasks rows tasks' H; simpl in H.
  { simplify_eq. split; [|constructor]. destruct (Z.to_nat _); by rewrite app_nil_r. }
  destruct (direct r conf now) eqn:Hd; [|rewrite andb_false_r in H].
  - simpl. rewrite Hd, andb_true_r in *. destruct (zlen tasks <? limit) eqn:Hl.
    + destruct (admit_record node now r) as [[u|e] r'] eqn:Ha; [|done].
      apply admit_record_ok in Ha as (-> & _ & _). change (set_updated_at now _) with (claimed node now r) in H.
      apply result_bind_ok in H as ([rest out] & H & [= <- <-]). apply IH in H as [Ht Hf].
      rewrite zlen_app, <- app_assoc in Ht. change (zlen [claimed node now r]) with 1 in Ht.
      replace (Z.to_nat (limit - zlen tasks)) with (S (Z.to_nat (limit - (zlen tasks + 1)))) by lia.
      split; [exact Ht|]. constructor; [|exact Hf].
      right. split; [done|]. split; [done|]. rewrite Ht. apply elem_of_app. right. by left.
    + apply result_bind_ok in H as ([rest out] & H & [= <- <-]). apply IH in H as [Ht Hf].
      replace (Z.to_nat (limit - zlen tasks)) with 0%nat in * by lia.
      split; [exact Ht|]. constructor; [by left|exact Hf].
  - apply result_bind_ok in H as ([rest out] & H & [= <- <-]). apply IH in H as [-> Hf].
    simpl. rewrite Hd. split; [done|]. constructor; [by left|done].
Qed.

(** A submission with direct admission stores the rows a plain submission would, with the
    first rows that are eligible for direct admission, as many as the limit allows, already claimed
    by the submitting node: running, owned, charged one attempt; exactly those are returned for
    execution and every other row is stored as it was staged. *)
Theorem direct_admission writes node limit now conf s receipts tasks s' :
  store_admitted writes node limit now s = (Ok (receipts, tasks), s') → ms_conf s = Some conf →
  is_Some (ms_nodes s !! node) ∧
  ∃ staged rows,
    stage_writes (ms_tasks s) writes now [] = (Ok receipts, staged)
    ∧ s' = set_tasks (ms_tasks s ++ rows) s
    ∧ tasks = claimed node now <$>
        take (Z.to_nat limit) (List.filter (λ r, direct r conf now) staged)
    ∧ Forall2 (λ r row, row = r ∨ direct r conf now = true ∧ row = claimed node now r ∧ row ∈ tasks)
        staged rows.
Proof.
  unfold store_admitted. rewrite bindM_get. intros H Hc.
  destruct (bool_decide _) eqn:Hn; [done|]. apply bool_decide_eq_false in Hn. rewrite Hc in H.
  apply bindM_liftR_ok in H as (u & _ & H).
  destruct (stage_writes _ _ _ _) as [[rcs|e] staged] eqn:Hs; [|done].
  apply bindM_liftR_ok in H as ([rows out] & Ha & H). rewrite bindM_modify in H.
  unfold retM in H. simplify_eq/=. apply admit_staged_spec in Ha as [Ht Hf].
  change (zlen []) with 0 in Ht. rewrite Z.sub_0_r in Ht.
  split; [by destruct (ms_nodes s !! node)|]. exists staged, rows. by split_and!.
Qed.
End Receipts.

#[local] Existing Instances DemoExternals.externals DemoExternals.laws.

(** Two writes with one key: the second is answered with the first. *)
Lemma submission_receipts_witness :
  ∃ s', store_tasks [keyed "a" "p" (work_write 30); keyed "a" "p" (work_write 31)] 5
      (st_state demo_state) = (Ok [Queued 30%N; Existing 30%N], s')
    ∧ ∃ staged, s' = set_tasks (ms_tasks (st_state demo_state) ++ staged) (st_state demo_state)
      ∧ ids staged = [30%N].
Proof.
  destruct (store_tasks [keyed "a" "p" (work_write 30); keyed "a" "p" (work_write 31)] 5
      (st_state demo_state)) as [[res|e] s'] eqn:H; [|vm_compute in H; discriminate].
  assert (Hres : res = [Queued 30%N; Existing 30%N]) by (vm_compute in H; injection H as <- _; reflexivity).
  subst res. exists s'. split; [reflexivity|].
  pose proof (submission_receipts [keyed "a" "p" (work_write 30); keyed "a" "p" (work_write 31)] 5
    (st_state demo_state) [Queued 30%N; Existing 30%N] s' H) as (staged & Hs & Hi & _).
  exists staged. split; [exact Hs|exact Hi].
Defined.

(** The second row of the demo holds the key [k] with another fingerprint: a conflict. *)
Lemma held_key_answers_resubmission_witness :
  store_tasks [keyed "k" "q" (work_write 30)] 5 (st_state demo_state)
  = (Err (IdempotencyConflict 11%N), st_state demo_state).
Proof.
  assert (Hv : is_ok (validate_write_lanes (ms_conf (st_state demo_state))
    [keyed "k" "q" (work_write 30)]) = true) by (vm_compute; reflexivity).
  assert (Hr : is_ok (requested_ready 5 (keyed "k" "q" (work_write 30))) = true) by (vm_compute; reflexivity).
  assert (Hid : t_id (w_record (keyed "k" "q" (work_write 30))) ∉ ids (ms_tasks (st_state demo_state))).
  { apply (bool_decide_unpack _). vm_compute. exact I. }
  assert (Ho : ∃ f o, ms_tasks (st_state demo_state) = [f; o]
    ∧ key_clash 5 o (w_record (keyed "k" "q" (work_write 30)))
    ∧ t_idempotency_key f = None ∧ t_id o = 11%N
    ∧ t_idempotency_fingerprint o = Some "p"%string).
  { vm_compute. eexists _, _. repeat split. eexists. reflexivity. }
  destruct Ho as (f & o & Ht & Hk & Hf & Hi & Hp).
  pose proof (held_key_answers_resubmission (keyed "k" "q" (work_write 30)) o 5 (st_state demo_state)
    Hv Hr Hid) as H.
  revert H. generalize (st_state demo_state) Ht. intros s -> H. rewrite H.
  - unfold held_answer. rewrite Hp, Hi. reflexivity.
  - right. left.
  - exact Hk.
  - intros r Hin (_ & [x Hx] & _). apply elem_of_cons in Hin as [->|Hin]; [congruence|].
    by apply list_elem_of_singleton in Hin.
Defined.

Definition demo_scheduled (occurrence : DateTime) : ScheduledTaskWrite :=
  {| sw_name := "nightly"%string; sw_occurrence := occurrence; sw_write := work_write 40 |}.

(** The occurrence at 100 is stored at 120 and later skipped. *)
Lemma schedule_fires_once_witness :
  ∃ s', store_scheduled (demo_scheduled 100) 120 (st_state demo_state) = (Ok (Some (Queued 40%N)), s')
    ∧ ∃ cursor, 100 ≤ cursor ∧ store_scheduled (demo_scheduled 100) 500 s' = (Ok None, s').
Proof.
  destruct (store_scheduled (demo_scheduled 100) 120 (st_state demo_state)) as [[r|e] s'] eqn:H;
    [|vm_compute in H; discriminate].
  assert (Hr : r = Some (Queued 40%N)) by (vm_compute in H; injection H as <- _; reflexivity).
  subst r. exists s'. split; [reflexivity|].
  pose proof (schedule_fires_once (demo_scheduled 100) 120 (st_state demo_state) (Some (Queued 40%N)) s' H)
    as (cursor & _ & Hc & _ & Hskip).
  exists cursor. split; [exact Hc|]. apply Hskip; [reflexivity|exact Hc].
Defined.

(** Two submissions, one admitted directly. *)
Lemma direct_admission_witness :
  ∃ s' r, store_admitted [work_write 30; work_write 31] node1 1 5 (st_state demo_state)
      = (Ok ([Queued 30%N; Queued 31%N], [r]), s')
    ∧ t_status r = Running ∧ t_node_id r = Some node1.
Proof.
  destruct (store_admitted [work_write 30; work_write 31] node1 1 5 (st_state demo_state))
    as [[[rcs tasks]|e] s'] eqn:H; [|vm_compute in H; discriminate].
  assert (Hr : rcs = [Queued 30%N; Queued 31%N] ∧ length tasks = 1%nat)
    by (vm_compute in H; injection H as <- <- _; split; reflexivity).
  destruct Hr as [-> Hlen]. destruct tasks as [|r [|? ?]]; try discriminate.
  assert (Hc : ms_conf (st_state demo_state) = Some demo_conf) by (vm_compute; reflexivity).
  exists s', r. split; [reflexivity|].
  pose proof (direct_admission [work_write 30; work_write 31] node1 1 5 demo_conf (st_state demo_state)
    [Queued 30%N; Queued 31%N] [r] s' H Hc) as (_ & staged & rows & _ & _ & Ht & _).
  destruct (List.filter _ staged) as [|x l]; [discriminate|].
  injection Ht as ->. split; reflexivity.
Defined.
