(* ===== verification/LaneFacts.v ===== *)
(** * How a lock row moves

    [lane_step] is the contract of the lane-owner state machine: the phases,
    with the generation that tells the results of its hooks apart. Every
    body that returns moves a well-formed row to a well-formed row along
    those steps ([row_from]), and the bodies over the turn leave the lock
    rows alone. *)
From S2P Require Import Prelude Externals Failure Config Rate Models Transitions Lifecycle.
From S2P Require Import MemoryState LaneLock Workflow Claims.
From S2P Require Import ClaimFacts Atomic StoreSpec.
#[local] Open Scope Z_scope.

Definition LaneView : Type := (LaneOwnerPhase * Z)%type.
Definition lane_view (o : MemoryLaneLock) : LaneView := (ml_phase o, ml_generation o).

(** A hook is requested under a fresh generation; nothing else changes the generation. *)
Inductive lane_step : LaneView → LaneView → Prop :=
  | step_idling g : lane_step (Active, g) (Idling, g + 1)
  | step_rest g : lane_step (Active, g) (Idle, g)
  | step_idle_done g : lane_step (Idling, g) (Idle, g)
  | step_idle_failed g : lane_step (Idling, g) (IdleFailed, g)
  | step_idle_overtaken g : lane_step (Idling, g) (Active, g)
  | step_idle_to_busy g : lane_step (Idling, g) (Busying, g + 1)
  | step_busying p g : p = Idle ∨ p = BusyFailed → lane_step (p, g) (Busying, g + 1)
  | step_start p g : p = Idle ∨ p = BusyFailed → lane_step (p, g) (Active, g)
  | step_busy_done g : lane_step (Busying, g) (Active, g)
  | step_busy_failed g : lane_step (Busying, g) (BusyFailed, g)
  | step_recovered g : lane_step (IdleFailed, g) (Active, g).

Lemma lane_step_generation v w : lane_step v w → v.2 ≤ w.2.
Proof. destruct 1; simpl; lia. Qed.
Lemma lane_steps_generation v w : rtc lane_step v w → v.2 ≤ w.2.
Proof. induction 1 as [|v w x Hs _ IH]; [done|]. apply lane_step_generation in Hs. lia. Qed.

(** Owner, token and lease come and go together; the retry time and the error of a failed hook
    are kept only while the row is in the phase of that failure. *)
Record lock_ok (o : MemoryLaneLock) : Prop := {
  lk_token : is_Some (ml_owner_token o) ↔ is_Some (ml_owner_id o);
  lk_lease : is_Some (ml_leased_until o) ↔ is_Some (ml_owner_id o);
  lk_generation : 0 ≤ ml_generation o ≤ I64_MAX;
  lk_retry : is_Some (ml_hook_retry_at o) → ml_phase o = BusyFailed;
  lk_error : is_Some (ml_last_hook_error o) → ml_phase o = IdleFailed ∨ ml_phase o = BusyFailed;
}.

Lemma fresh_lane_lock_ok : lock_ok fresh_lane_lock.
Proof. split; simpl; try done; try (by intros [? ?]). Qed.

Record row_from (o o' : MemoryLaneLock) : Prop := {
  rf_ok : lock_ok o';
  rf_steps : rtc lane_step (lane_view o) (lane_view o');
}.

Lemma row_from_refl o : lock_ok o → row_from o o.
Proof. by split. Qed.

Lemma row_from_trans o1 o2 o3 : row_from o1 o2 → row_from o2 o3 → row_from o1 o3.
Proof. intros [_ H1] [H2 H3]. split; [done|by etrans]. Qed.

(** Writing what the view does not show. *)
Lemma row_from_quiet o o' : lock_ok o' → lane_view o' = lane_view o → row_from o o'.
Proof. intros Hok Hv. split; [done|by rewrite Hv]. Qed.

Lemma row_from_step o o' : lock_ok o' → lane_step (lane_view o) (lane_view o') → row_from o o'.
Proof. intros Hok Hs. split; [done|by apply rtc_once]. Qed.

Section Rows.
Context `{X : Externals, L : !ExternalLaws X}.
Context (o0 : MemoryLaneLock).

Abbreviation from o := (row_from o0 o) (only parsing).

Lemma row_owner fresh runner claim duration now :
  triple (λ o, from o) (memory_owner fresh runner claim duration now) (λ _ o, from o).
Proof.
  intros o b o' H. unfold memory_owner. rewrite bindM_get. cbv zeta. intros Hrun.
  destruct (match lcl_owner claim ≫= or_token with Some _ => _ | None => _ end) eqn:Hcur.
  - apply bindM_liftR_ok in Hrun as (d & Hd & Hrun). apply checked_deadline_ok in Hd as ->.
    rewrite bindM_modify in Hrun. unfold retM in Hrun. simplify_eq.
    destruct (lcl_owner claim ≫= or_token); [|done].
    apply andb_prop in Hcur as [[Hid _]%andb_prop _]. apply bool_decide_eq_true in Hid.
    eapply row_from_trans; [exact H|]. destruct H as [[] _]. apply row_from_quiet; [|done].
    by split; simpl.
  - case_match; [unfold retM in Hrun; by simplify_eq|]. rewrite !bindM_modify in Hrun.
    apply bindM_liftR_ok in Hrun as (d & Hd & Hrun). apply checked_deadline_ok in Hd as ->.
    rewrite bindM_modify in Hrun. unfold retM in Hrun. simplify_eq.
    eapply row_from_trans; [exact H|]. destruct H as [[] _]. apply row_from_quiet; [|done].
    split; simpl; try done; by split.
Qed.

Lemma lock_ok_release phase o :
  lock_ok o → (is_Some (ml_hook_retry_at o) → phase = BusyFailed) →
  (is_Some (ml_last_hook_error o) → phase = IdleFailed ∨ phase = BusyFailed) →
  lock_ok (memory_release phase o).
Proof. intros [] Hr He. split; simpl; try done; split; by intros [? ?]. Qed.

Lemma lock_ok_activate o : lock_ok o → lock_ok (memory_activate o).
Proof. intros []. split; simpl; try done; by intros [? ?]. Qed.

(** Releasing into the phase the row is in. *)
Lemma row_release_same o : from o → from (memory_release (ml_phase o) o).
Proof.
  intros H. eapply row_from_trans; [exact H|]. destruct H as [Hok _]. apply row_from_quiet; [|done].
  apply lock_ok_release; [done|apply Hok|apply Hok].
Qed.

(** An active or idling row has no failed hook, so it may rest. *)
Lemma row_release_idle o :
  from o → ml_phase o = Active ∨ ml_phase o = Idling → from (memory_release Idle o).
Proof.
  intros H Hp. eapply row_from_trans; [exact H|]. destruct H as [Hok _]. apply row_from_step.
  - apply lock_ok_release; [done| |]; intros Hs.
    + apply (lk_retry _ Hok) in Hs. destruct Hp; congruence.
    + apply (lk_error _ Hok) in Hs. destruct Hp, Hs; congruence.
  - unfold lane_view. simpl. destruct Hp as [-> | ->]; constructor.
Qed.

Lemma row_activate o : from o → from (memory_activate o).
Proof.
  intros H. eapply row_from_trans; [exact H|]. destruct H as [Hok _].
  assert (Ha := lock_ok_activate o Hok). destruct (ml_phase o) eqn:Hp.
  all: try (apply row_from_step; [done|]; unfold lane_view; simpl; rewrite Hp; constructor; by auto).
  apply row_from_quiet; [done|]. unfold lane_view. simpl. by rewrite Hp.
Qed.

Lemma row_transition (ok : LaneOwnerPhase → Prop) phase :
  (∀ p g, ok p → lane_step (p, g) (phase, g + 1)) →
  triple (λ o, from o ∧ ok (ml_phase o)) (memory_transition phase) (λ _ o, from o).
Proof.
  intros Hstep o u o' [H Hp] Hrun. unfold memory_transition in Hrun. run_ok.
  apply ok_or_ok in E. unfold i64_checked_add in E. case_match; [|done]. simplify_eq.
  eapply row_from_trans; [exact H|]. destruct H as [[] _]. apply row_from_step.
  - split; simpl; try done; try lia; by intros [? ?].
  - unfold lane_view. simpl. by apply Hstep.
Qed.

Lemma row_gets {A} (f : MemoryLaneLock → A) :
  triple (λ o, from o) (getsM (E:=TaskRuntimeError) f) (λ _ o, from o).
Proof. by intros o a o' H [= _ <-]. Qed.

Lemma row_start_idle name lane :
  triple (λ o, from o ∧ ml_phase o = Active) (memory_start_idle name lane) (λ _ o, from o).
Proof.
  unfold memory_start_idle. case_match; (eapply triple_bind; [|intros u; apply row_gets]).
  - apply (row_transition (λ p, p = Active)). intros p g ->. constructor.
  - apply triple_modify. intros o [Hf Hp]. by apply row_release_idle; [|left].
Qed.

Lemma row_start_busy name lane now :
  triple (λ o, from o ∧ (ml_phase o = Idle ∨ ml_phase o = BusyFailed))
    (memory_start_busy name lane now) (λ _ o, from o).
Proof.
  intros o p o' [H Hp] Hrun. unfold memory_start_busy in Hrun. rewrite bindM_get in Hrun.
  destruct (ml_hook_retry_at o) as [retry|] eqn:Hr; [destruct (now <? retry)|].
  - rewrite bindM_modify in Hrun. unfold getsM in Hrun. simplify_eq.
    assert (ml_phase o = BusyFailed) as <- by (apply H; rewrite Hr; by eexists).
    by apply row_release_same.
  - revert Hrun. case_match; intros Hrun.
    + apply bindM_ok in Hrun as (u & o1 & Ht & Hg). unfold getsM in Hg. simplify_eq.
      eapply (row_transition (λ p, p = Idle ∨ p = BusyFailed)); [|by split|exact Ht].
      intros. by constructor.
    + rewrite bindM_modify in Hrun. unfold getsM in Hrun. simplify_eq. by apply row_activate.
  - revert Hrun. case_match; intros Hrun.
    + apply bindM_ok in Hrun as (u & o1 & Ht & Hg). unfold getsM in Hg. simplify_eq.
      eapply (row_transition (λ p, p = Idle ∨ p = BusyFailed)); [|by split|exact Ht].
      intros. by constructor.
    + rewrite bindM_modify in Hrun. unfold getsM in Hrun. simplify_eq. by apply row_activate.
Qed.

Lemma row_empty_since v o : from o → from (set_empty_since v o).
Proof.
  intros H. eapply row_from_trans; [exact H|]. destruct H as [[] _].
  by apply row_from_quiet; [split|].
Qed.
Lemma row_flushing v o : from o → from (set_flushing v o).
Proof.
  intros H. eapply row_from_trans; [exact H|]. destruct H as [[] _].
  by apply row_from_quiet; [split|].
Qed.

Lemma row_empty tasks claim lane now :
  triple (λ o, from o ∧ memory_action (ml_phase o) = None) (memory_empty tasks claim lane now)
    (λ _ o, from o).
Proof.
  intros o p o' [H Hp] Hrun. unfold memory_empty in Hrun. rewrite bindM_get in Hrun.
  destruct (ml_phase o) eqn:Hph; try done; rewrite ?bindM_modify in Hrun.
  2-4: unfold getsM in Hrun; simplify_eq; rewrite <- Hph; by apply row_release_same.
  match type of Hrun with (if ?b then _ else _) _ = _ => destruct b end;
    [unfold retM in Hrun; by simplify_eq|]. cbv zeta in Hrun. rewrite bindM_modify in Hrun.
  match type of Hrun with (if ?b then _ else _) _ = _ => destruct b end.
  - unfold getsM in Hrun. simplify_eq. by apply row_empty_since.
  - eapply row_start_idle; [|exact Hrun]. by split; [apply row_empty_since|].
Qed.

Lemma row_hook conf tasks hook name lane now :
  triple (λ o, from o) (apply_memory_hook conf tasks hook name lane now) (λ _ o, from o).
Proof.
  intros o u o' H Hrun. unfold apply_memory_hook in Hrun. rewrite bindM_get in Hrun.
  destruct (_ || _) eqn:Hm; [unfold retM in Hrun; by simplify_eq|].
  apply orb_false_iff in Hm as [_ Ha]. apply negb_false_iff, bool_decide_eq_true in Ha.
  destruct (hr_action hook), (hr_result hook) as [v|e].
  - assert (Hp : ml_phase o = Idling) by (by destruct (ml_phase o)).
    unfold finish_memory_idle in Hrun. case_match; [|case_match].
    + unfold modifyM in Hrun. simplify_eq. by apply row_release_idle; [|right].
    + eapply (row_transition (λ p, p = Idling)); [|by split|exact Hrun]. intros p g ->. constructor.
    + unfold modifyM in Hrun. simplify_eq. by apply row_activate.
  - assert (Hp : ml_phase o = Idling) by (by destruct (ml_phase o)).
    unfold modifyM in Hrun. simplify_eq. eapply row_from_trans; [exact H|]. destruct H as [Hok _].
    assert (Hno : ¬ is_Some (ml_hook_retry_at o)).
    { intros Hs. apply (lk_retry _ Hok) in Hs. congruence. }
    apply row_from_step; [|unfold lane_view; simpl; rewrite Hp; constructor].
    destruct Hok. split; simpl; try done; auto; split; by intros [? ?].
  - unfold modifyM in Hrun. simplify_eq. by apply row_activate.
  - assert (Hp : ml_phase o = Busying) by (by destruct (ml_phase o)).
    unfold memory_fail_busy in Hrun. rewrite bindM_modify in Hrun.
    apply bindM_liftR_ok in Hrun as (d & Hd & Hrun). rewrite bindM_modify in Hrun.
    unfold modifyM in Hrun. simplify_eq. eapply row_from_trans; [exact H|]. destruct H as [Hok _].
    apply row_from_step; [|unfold lane_view; simpl; rewrite Hp; constructor].
    destruct Hok. split; simpl; try done; auto; split; by intros [? ?].
Qed.
End Rows.

(** ** Bodies over a turn *)

(** The bodies over tasks, deliveries and buckets leave the lock rows alone. *)
Definition keeps_locks (t t' : Turn) : Prop :=
  ms_lane_locks (tn_state t') = ms_lane_locks (tn_state t).

#[export] Instance keeps_locks_preorder : PreOrder keeps_locks.
Proof. split; [by intros t|]. intros t1 t2 t3 H1 H2. unfold keeps_locks in *. congruence. Qed.

Section KeepsLocks.
Context `{X : Externals}.

Lemma locks_at_task {A} i missing (m : M TaskRecord TaskRuntimeError A) :
  respects keeps_locks (at_task i missing m).
Proof. intros t. unfold at_task. case_match; [|done]. by destruct (m _). Qed.

Lemma locks_deliveries {A} (m : M (list Delivery) TaskRuntimeError A) :
  respects keeps_locks (zoomM tn_deliveries put_turn_deliveries m).
Proof. intros t. unfold zoomM. by destruct (m _). Qed.

Lemma locks_modify (f : Turn → Turn) :
  (∀ t, keeps_locks t (f t)) → respects keeps_locks (E:=TaskRuntimeError) (modifyM f).
Proof. intros Hf t. apply Hf. Qed.

Ltac locks_auto :=
  repeat first
    [ assumption | respects_step | apply locks_at_task | apply locks_deliveries
    | (apply locks_modify; intros ?; reflexivity) ].

Lemma locks_fail_exhausted lane limit now conf policy :
  respects keeps_locks (fail_exhausted lane limit now conf policy).
Proof. unfold fail_exhausted, fail_candidate, fail_row. locks_auto. Qed.

Lemma locks_reserve lane limit rate now :
  respects keeps_locks (reserve_permits lane limit rate now).
Proof.
  unfold reserve_permits. locks_auto. intros t0. by destruct (take_permits _ _ _ _).
Qed.

Lemma locks_claim_lane_state runner reservation lease now :
  respects keeps_locks (claim_lane_state runner reservation lease now).
Proof. unfold claim_lane_state, claim_lane, claim_candidate. locks_auto. Qed.

Lemma locks_claim_unlocked runner claim lane conf lease now :
  respects keeps_locks (claim_unlocked runner claim lane conf lease now).
Proof.
  unfold claim_unlocked. locks_auto;
    [apply locks_fail_exhausted|apply locks_reserve|apply locks_claim_lane_state].
Qed.

Lemma locks_release runner lane now t : keeps_locks t (release_held runner lane now t).
Proof. done. Qed.

Lemma locks_apply_update update : respects keeps_locks (apply_update update).
Proof. unfold apply_update. locks_auto. Qed.
End KeepsLocks.

Section OwnerTurns.
Context `{X : Externals, L : !ExternalLaws X}.

(** The turn still holds the rows [locks], and the row taken out of them came from [o0]. *)
Definition owner_from (locks : gmap string MemoryLaneLock) (o0 : MemoryLaneLock) (p : OwnerTurn) :
    Prop := ms_lane_locks (tn_state p.1) = locks ∧ row_from o0 p.2.

Context (locks : gmap string MemoryLaneLock) (o0 : MemoryLaneLock).

Lemma from_on_turn {A} (m : M Turn TaskRuntimeError A) (Q : MemoryLaneLock → Prop) :
  respects keeps_locks m →
  triple (λ p, owner_from locks o0 p ∧ Q p.2) (on_turn m) (λ _ p, owner_from locks o0 p ∧ Q p.2).
Proof.
  intros Hm p a p' [[Hl Hr] HQ] H. unfold on_turn, zoomM in H. specialize (Hm p.1).
  destruct (m p.1) as [r t]. simpl in Hm. simplify_eq. split; [split|]; [|done..].
  unfold keeps_locks in Hm. simpl. congruence.
Qed.

Lemma from_on_owner {A} (m : M MemoryLaneLock TaskRuntimeError A) (P : MemoryLaneLock → Prop)
    (Q : A → MemoryLaneLock → Prop) :
  triple (λ o, row_from o0 o ∧ P o) m (λ a o, row_from o0 o ∧ Q a o) →
  triple (λ p, owner_from locks o0 p ∧ P p.2) (on_owner m)
    (λ a p, owner_from locks o0 p ∧ Q a p.2).
Proof.
  intros Hm p a p' [[Hl Hr] HP] H. unfold on_owner, zoomM in H.
  destruct (m p.2) as [r o] eqn:Hrun. simplify_eq.
  destruct (Hm p.2 a o) as [? ?]; [by split|done|]. by split; [split|].
Qed.

Abbreviation from := (owner_from locks o0).
(** Bodies that keep the row related to [o0], whatever else holds of it. *)
Abbreviation keeps m := (triple (E:=TaskRuntimeError) from m (λ _, from)) (only parsing).

Lemma keeps_on_turn {A} (m : M Turn TaskRuntimeError A) : respects keeps_locks m → keeps (on_turn m).
Proof.
  intros Hm. eapply triple_conseq; [by apply (from_on_turn m (λ _, True))|by split|by intros ? ? []].
Qed.
Lemma keeps_on_owner {A} (m : M MemoryLaneLock TaskRuntimeError A) :
  triple (λ o, row_from o0 o) m (λ _ o, row_from o0 o) → keeps (on_owner m).
Proof.
  intros Hm. eapply triple_conseq; [apply (from_on_owner m (λ _, True) (λ _ _, True))|by split|by intros ? ? []].
  eapply triple_conseq; [exact Hm|by intros ? []|by split].
Qed.
Lemma keeps_gets {A} (f : MemoryLaneLock → A) : keeps (on_owner (getsM f)).
Proof. apply keeps_on_owner. by intros o a o' H [= _ <-]. Qed.
Lemma keeps_reads {A} (f : Turn → A) : keeps (on_turn (getsM f)).
Proof. by apply keeps_on_turn. Qed.
Lemma keeps_lift {A} (r : result TaskRuntimeError A) : keeps (liftR r).
Proof. by apply triple_lift. Qed.
Lemma keeps_ret {A} (a : A) : keeps (retM a).
Proof. by apply triple_ret. Qed.
Lemma keeps_modify (f : MemoryLaneLock → MemoryLaneLock) :
  (∀ o, row_from o0 o → row_from o0 (f o)) → keeps (on_owner (modifyM f)).
Proof. intros Hf. by apply keeps_on_owner, triple_modify. Qed.

Lemma keeps_claim runner claim lane lease now : keeps (memory_claim runner claim lane lease now).
Proof.
  unfold memory_claim.
  eapply triple_bind; [apply keeps_reads|intros s]. eapply triple_bind; [apply keeps_lift|intros conf].
  eapply triple_bind; [apply keeps_on_turn, locks_fail_exhausted|intros _u].
  eapply triple_bind; [apply keeps_reads|intros s'].
  eapply triple_bind; [apply keeps_on_turn, locks_reserve|intros reserved].
  eapply triple_bind; [apply keeps_on_turn, locks_claim_lane_state|intros poll].
  eapply triple_bind; [apply (keeps_gets id)|intros owner]. apply keeps_ret.
Qed.

Lemma keeps_flush_poll runner claim lane lease now candidates :
  keeps (memory_flush_poll runner claim lane lease now candidates).
Proof.
  unfold memory_flush_poll. eapply triple_bind; [apply keeps_reads|intros tasks].
  eapply triple_bind; [apply (keeps_gets id)|intros owner].
  eapply triple_bind; [case_match; [apply keeps_ret|apply keeps_lift]|intros flush].
  destruct (negb flush).
  - eapply triple_bind; [apply keeps_lift|intros wake]. apply keeps_ret.
  - eapply triple_bind; [apply keeps_modify, row_flushing|intros _u].
    case_match; [apply keeps_gets|apply keeps_claim].
Qed.

Definition no_hook_due (p : OwnerTurn) : Prop := memory_action (ml_phase p.2) = None.

(** The first read of the row, which the branches that follow know. *)
Lemma knows_row {B} (P : OwnerTurn → Prop) (k : MemoryLaneLock → M OwnerTurn TaskRuntimeError B) Q :
  (∀ o, triple (λ p, P p ∧ p.2 = o) (k o) Q) → triple P (bindM (on_owner getM) k) Q.
Proof.
  intros Hk p b p' HP H. unfold on_owner, bindM, zoomM, getM in H.
  eapply (Hk p.2 p); [by split|]. by destruct p.
Qed.

Lemma keeps_phase_poll runner claim lane lease now :
  triple (λ p, from p ∧ no_hook_due p) (memory_phase_poll runner claim lane lease now) (λ _, from).
Proof.
  unfold memory_phase_poll. apply knows_row. intros o.
  match goal with |- triple _ (if ?b then _ else _) _ => destruct b end;
    [by apply triple_ret; intros p [[? _] _]|].
  eapply (triple_bind _ (λ _ p, from p ∧ no_hook_due p)).
  { match goal with |- triple _ (if ?b then _ else _) _ => destruct b end;
      [|by apply triple_ret; intros p [? _]].
    intros p u p' [[[Hl Hr] _] _] H. unfold on_owner, zoomM, modifyM in H. simplify_eq.
    split; [split; [done|by apply row_activate]|done]. }
  intros _u. eapply triple_bind; [by apply (from_on_turn _ (λ o, memory_action (ml_phase o) = None))|].
  intros tasks. cbv zeta. destruct (memory_candidates _ _ _ _) as [|i l].
  - eapply triple_conseq;
      [apply (from_on_owner _ (λ o, memory_action (ml_phase o) = None) (λ _ _, True))|done|by intros ? ? []].
    eapply (triple_bind _ (λ _ o, row_from o0 o ∧ memory_action (ml_phase o) = None)).
    { apply triple_modify. intros o1 [Hr Hp]. split; [by apply row_flushing|done]. }
    intros _u'. eapply triple_conseq; [apply (row_empty o0)|done|by split].
  - eapply (triple_bind _ (λ _ p, from p)).
    { eapply triple_conseq; [apply keeps_modify, row_empty_since|by intros p []|done]. }
    intros _u'. apply knows_row. intros o'.
    assert (Hb : ml_phase o' = Idle ∨ ml_phase o' = BusyFailed →
      triple (λ p, from p ∧ p.2 = o') (on_owner (memory_start_busy (lcl_lane claim) lane now))
        (λ _, from)).
    { intros Hp. eapply triple_conseq; [apply (from_on_owner _
        (λ o, ml_phase o = Idle ∨ ml_phase o = BusyFailed) (λ _ _, True))| |by intros ? ? []].
      - eapply triple_conseq; [apply (row_start_busy o0)|done|by split].
      - by intros p [? <-]. }
    assert (Hf : triple (λ p, from p ∧ p.2 = o')
      (memory_flush_poll runner claim lane lease now (i :: l)) (λ _, from)).
    { eapply triple_conseq; [apply keeps_flush_poll|by intros p []|done]. }
    destruct (ml_phase o'); auto.
Qed.

Lemma keeps_owned_inner runner claim lane lease now :
  keeps (claim_owned_inner runner claim lane lease now).
Proof.
  unfold claim_owned_inner. eapply triple_bind; [by apply keeps_on_turn|intros t].
  eapply triple_bind; [by apply keeps_on_turn, locks_modify|intros _u].
  eapply triple_bind; [apply keeps_on_owner, row_owner|intros owned]. destruct (negb owned).
  - eapply triple_bind; [case_match; [apply keeps_on_turn, locks_modify, locks_release|apply keeps_ret]|].
    intros _u'. eapply triple_bind; [apply keeps_reads|intros tasks].
    eapply triple_bind; [apply (keeps_gets id)|intros owner]. apply keeps_ret.
  - eapply triple_bind; [apply keeps_reads|intros s].
    eapply triple_bind; [case_match; [apply keeps_on_owner, row_hook|apply keeps_ret]|intros _u'].
    apply knows_row. intros o. destruct (memory_action (ml_phase o)) eqn:Ha.
    + apply triple_ret. by intros p [? _].
    + eapply triple_conseq; [apply keeps_phase_poll| |done]. intros p [? <-]. by split.
Qed.
End OwnerTurns.
