(* ===== verification/LaneTheorems.v ===== *)
(** * Lane ownership: invariant, state machine and mutual exclusion *)
From S2P Require Import Prelude Externals Failure Config Rate Models Transitions Lifecycle.
From S2P Require Import MemoryState LaneLock Workflow Claims.
From S2P Require Import Evolution ClaimFacts Commits Atomic.
From S2P Require Import Turns StoreSpec LaneFacts.
#[local] Open Scope Z_scope.

Abbreviation LockMap := (gmap string MemoryLaneLock) (only parsing).

(** ** Lock rows of a whole store *)

Definition locks_ok (locks : LockMap) : Prop := ∀ name o, locks !! name = Some o → lock_ok o.

(** Rows are never dropped, stay well formed and move along the state machine. *)
Definition locks_move (locks locks' : LockMap) : Prop :=
  locks_ok locks → locks_ok locks' ∧
  ∀ name o, locks !! name = Some o →
    ∃ o', locks' !! name = Some o' ∧ rtc lane_step (lane_view o) (lane_view o').

#[export] Instance locks_move_preorder : PreOrder locks_move.
Proof.
  split.
  - intros l Hl. split; [done|]. eauto using rtc_refl.
  - intros l1 l2 l3 H12 H23 H1. destruct (H12 H1) as [H2 M12]. destruct (H23 H2) as [H3 M23].
    split; [done|]. intros name o Ho. destruct (M12 name o Ho) as (o' & Ho' & S1).
    destruct (M23 name o' Ho') as (o'' & Ho'' & S2). exists o''. split; [done|by etrans].
Qed.

Lemma locks_move_insert locks name o o' :
  locks !! name = Some o → (lock_ok o → row_from o o') → locks_move locks (<[name:=o']> locks).
Proof.
  intros Ho Hr Hl. destruct (Hr (Hl name o Ho)) as [Hok Hs]. split.
  - intros n x Hx. destruct (decide (name = n)) as [<-|Hn].
    + rewrite lookup_insert_eq in Hx. by simplify_eq.
    + rewrite lookup_insert_ne in Hx by done. by eapply Hl.
  - intros n x Hx. destruct (decide (name = n)) as [<-|Hn].
    + rewrite lookup_insert_eq. simplify_eq. eauto.
    + rewrite lookup_insert_ne by done. eauto using rtc_refl.
Qed.

Lemma locks_move_new locks name : locks_move locks (or_insert name fresh_lane_lock locks).
Proof.
  unfold or_insert. destruct (locks !! name) as [o|] eqn:Ho; [reflexivity|]. intros Hl. split.
  - intros n x Hx. destruct (decide (name = n)) as [<-|Hn].
    + rewrite lookup_insert_eq in Hx. simplify_eq. apply fresh_lane_lock_ok.
    + rewrite lookup_insert_ne in Hx by done. by eapply Hl.
  - intros n x Hx. rewrite lookup_insert_ne by congruence. eauto using rtc_refl.
Qed.

Definition st_locks (s : StoreState) : LockMap := ms_lane_locks (st_state s).

Section LaneMoves.
Context `{X : Externals, L : !ExternalLaws X}.

Definition turn_moves (t t' : Turn) : Prop :=
  locks_move (ms_lane_locks (tn_state t)) (ms_lane_locks (tn_state t')).

#[local] Instance turn_moves_preorder : PreOrder turn_moves.
Proof. unfold turn_moves. split; [intros t; reflexivity|]. intros t1 t2 t3 H1 H2. by etrans. Qed.

Lemma keeps_moves t t' : keeps_locks t t' → turn_moves t t'.
Proof. unfold keeps_locks, turn_moves. intros ->. reflexivity. Qed.

Lemma owned_state_moves runner claim lane lease now t poll t' :
  claim_owned_state runner claim lane lease now t = (Ok poll, t') → turn_moves t t'.
Proof.
  unfold claim_owned_state. destruct (ms_lane_locks (tn_state t) !! lcl_lane claim) as [o|] eqn:Ho; [|done].
  match goal with |- context [claim_owned_inner ?a ?b ?c ?d ?e ?p] =>
    destruct (claim_owned_inner a b c d e p) as [[poll0|e0] [u o']] eqn:Hrun end; [|done].
  intros [= _ <-]. unfold turn_moves. simpl.
  intros Hl. assert (Hr : row_from o o' ∧ ms_lane_locks (tn_state u) = delete (lcl_lane claim) (ms_lane_locks (tn_state t))).
  { eapply (keeps_owned_inner (delete (lcl_lane claim) (ms_lane_locks (tn_state t))) o) in Hrun as [? ?];
      [done|]. split; [done|]. apply row_from_refl. by eapply Hl. }
  destruct Hr as [Hr ->]. rewrite insert_delete_eq. by apply (locks_move_insert _ _ o).
Qed.

Lemma claim_tasks_moves runner claims lease now t poll t' :
  claim_tasks_state runner claims lease now t = (Ok poll, t') → turn_moves t t'.
Proof.
  intros H. assert (Ht : triple (turn_moves t) (claim_tasks_state runner claims lease now)
    (λ _, turn_moves t)).
  { unfold claim_tasks_state. apply triple_gets. intros t0 Ht0.
    eapply (triple_bind _ (λ _, turn_moves t)); [by apply triple_lift; intros ? ? _ ->|intros conf].
    eapply (triple_bind _ (λ lanes t', turn_moves t t' ∧ Forall (λ _, True) lanes)).
    - apply triple_mapM. intros claim _ u p u' Hu Hp. split; [|done]. etrans; [exact Hu|].
      unfold claim_one in Hp. apply bindM_liftR_ok in Hp as (lc & _ & Hp). revert Hp.
      case_match; intros Hp; [by eapply owned_state_moves|]. apply keeps_moves.
      pose proof (locks_claim_unlocked runner claim lc conf lease now u) as Hk. by rewrite Hp in Hk.
    - intros lanes. apply triple_ret. by intros ? []. }
  eapply Ht; [|exact H]. unfold turn_moves. reflexivity.
Qed.

(** ** The finalizers *)

Lemma deliver_group_locks now acc group :
  ms_lane_locks (deliver_group now acc group).1 = ms_lane_locks acc.1.
Proof.
  unfold deliver_group. destruct acc as [s names], group as [id [count result]].
  repeat case_match; done.
Qed.

Lemma finalize_locks children deliveries now s lanes s' :
  finalize_workflow children deliveries now s = (lanes, s') → ms_lane_locks s' = ms_lane_locks s.
Proof.
  unfold finalize_workflow. destruct (fold_left _ _ _) as [s1 names] eqn:Hf. intros [= _ <-].
  assert (Hg : ∀ gs acc, ms_lane_locks (fold_left (deliver_group now) gs acc).1 = ms_lane_locks acc.1).
  { induction gs as [|g gs IH]; intros acc; simpl; [done|]. by rewrite IH, deliver_group_locks. }
  specialize (Hg (group_deliveries deliveries) (set_tasks (ms_tasks s ++ children) s, t_lane <$> children)).
  by rewrite Hf in Hg.
Qed.

Lemma map_state_keeps {S A B} (R : relation S) `{!PreOrder R} (f : A → S → B * S) l s :
  (∀ a s, R s (f a s).2) → R s (map_state f l s).2.
Proof.
  intros Hf. revert s. induction l as [|a l IH]; intros s; simpl; [reflexivity|].
  specialize (Hf a s). destruct (f a s) as [b t]. specialize (IH t).
  destruct (map_state f l t). simpl in *. by etrans.
Qed.

Definition same_locks (s s' : MemoryState) : Prop := ms_lane_locks s' = ms_lane_locks s.
#[local] Instance same_locks_preorder : PreOrder same_locks.
Proof. unfold same_locks. split; [by intros s|]. intros s1 s2 s3 H1 H2. congruence. Qed.

Lemma materialize_locks poll s : same_locks s (materialize poll s).2.
Proof.
  unfold materialize. match goal with |- context [map_state ?f ?l s] =>
    assert (Hm : same_locks s (map_state f l s).2) end.
  { apply (map_state_keeps same_locks). intros lane s1.
    assert (Ht := map_state_keeps same_locks materialize_task (lp_tasks lane) s1).
    destruct (map_state materialize_task (lp_tasks lane) s1). simpl in *. apply Ht.
    intros r s2. unfold materialize_task. repeat case_match; done. }
  by destruct (map_state _ _ s).
Qed.

Lemma install_locks waits now s : same_locks s (install waits now s).2.
Proof.
  unfold install. generalize (@nil TaskLane). revert s.
  induction waits as [|w waits IH]; intros s wake; simpl; [reflexivity|].
  destruct (install_wait now (wake, s) w) as [wake1 s1] eqn:Hw. etrans; [|apply IH].
  unfold install_wait in Hw. destruct w as [id wait]. repeat case_match; by simplify_eq.
Qed.

Lemma clear_terminal_locks touched s : same_locks s (clear_terminal touched s).
Proof.
  unfold clear_terminal. revert s. induction touched as [|r touched IH]; intros s; simpl; [reflexivity|].
  etrans; [|apply IH]. by case_match.
Qed.

Definition state_moves (s s' : MemoryState) : Prop := locks_move (ms_lane_locks s) (ms_lane_locks s').
#[local] Instance state_moves_preorder : PreOrder state_moves.
Proof. unfold state_moves. split; [intros s; reflexivity|]. intros s1 s2 s3 H1 H2. by etrans. Qed.

Lemma reconcile_moves lanes phases now lane s : state_moves s (reconcile_lane lanes phases now lane s).2.
Proof.
  unfold reconcile_lane, state_moves. case_match; [reflexivity|]. cbv zeta. case_match; [reflexivity|].
  destruct (ms_lane_locks s !! lp_lane lane) as [o|] eqn:Ho; [|reflexivity].
  case_match; simpl; (apply (locks_move_insert _ _ o); [done|intros Hok]).
  - by apply row_activate, row_empty_since, row_from_refl.
  - by apply row_empty_since, row_from_refl.
Qed.

Lemma turn_finish_moves batch phases poll commits now t res t' :
  turn_finish batch phases poll commits now t = (res, t') → turn_moves t t'.
Proof.
  unfold turn_finish. intros H. pose proof (materialize_locks poll (tn_state t)) as H1.
  destruct (materialize poll (tn_state t)) as [poll1 s1].
  pose proof (install_locks (bt_waits batch) now s1) as H2.
  destruct (install (bt_waits batch) now s1) as [wake s2].
  destruct (finalize_workflow _ _ now s2) as [more s3] eqn:H3. apply finalize_locks in H3.
  pose proof (clear_terminal_locks (tn_undo t) s3) as H4.
  assert (H5 : state_moves (clear_terminal (tn_undo t) s3)
    (reconcile_poll (wake ++ more) phases now poll1 (clear_terminal (tn_undo t) s3)).2).
  { unfold reconcile_poll. pose proof (map_state_keeps state_moves (reconcile_lane (wake ++ more) phases now)
      (tp_lanes poll1) (clear_terminal (tn_undo t) s3) (reconcile_moves _ _ _)) as Hm.
    by destruct (map_state _ _ _). }
  destruct (reconcile_poll _ _ _ _ _) as [poll2 s4]. injection H as _ <-. unfold turn_moves, same_locks in *.
  unfold state_moves in H5. simpl in *. by rewrite H4, H3, H2, H1 in H5.
Qed.

Lemma atomic_moves runner claims commits batch lease now s :
  locks_move (st_locks s) (st_locks (atomic_operation runner claims commits batch lease now s).2).
Proof.
  unfold atomic_operation. destruct (validate_turn _ _ _); [|simpl; reflexivity].
  destruct (run_turn _ _ _ _ _ _) as [[res|e] t] eqn:Hrun; [|unfold st_locks; simpl; reflexivity].
  unfold run_turn in Hrun. apply bindM_ok in Hrun as ([[b p] q] & t1 & Hb & Hfin).
  destruct (turn_finish b p q commits now t1) as [r t2] eqn:Ht. simplify_eq.
  change (turn_moves (turn_of s) t). etrans; [|by eapply turn_finish_moves].
  unfold turn_body in Hb. apply bindM_ok in Hb as (b' & t0 & Hc & Hb).
  unfold commit_outcomes_state in Hc. rewrite bindM_gets in Hc.
  apply bindM_liftR_ok in Hc as (batch' & _ & Hc). apply bindM_ok in Hc as ([] & t3 & Hu & Hc).
  unfold retM in Hc. simplify_eq.
  assert (Hk : turn_moves (turn_of s) t0).
  { apply keeps_moves. pose proof (respects_for_each keeps_locks (bt_updates b') apply_update
      (λ u, locks_apply_update u) (turn_of s)) as Hk. by rewrite Hu in Hk. }
  rewrite bindM_modify, bindM_gets in Hb. apply bindM_ok in Hb as (poll & t4 & Hp & Hb).
  unfold retM in Hb. simplify_eq. etrans; [exact Hk|].
  destruct runner as [runner|].
  - by eapply claim_tasks_moves in Hp.
  - unfold retM in Hp. simplify_eq. by apply keeps_moves.
Qed.

Context (params : StoreParams).

Lemma bind_atomic_moves {T A} runner claims commits batch lease now
    (k : TaskPoll * CommitResult → M StoreState (StoreFailure T) A) s :
  (∀ r s', st_locks (k r s').2 = st_locks s') →
  locks_move (st_locks s) (st_locks
    (bindM (before_commit (atomic_operation runner claims commits batch lease now)) k s).2).
Proof.
  intros Hk. unfold bindM, before_commit.
  pose proof (atomic_moves runner claims commits batch lease now s) as Hm.
  destruct (atomic_operation _ _ _ _ _ _ s) as [[r|e] s']; simpl in *; [|done]. by rewrite Hk.
Qed.

Lemma claim_op_moves node claims now s :
  locks_move (st_locks s) (st_locks (claim_tasks params node claims now s).2).
Proof.
  unfold claim_tasks. rewrite bindM_get. case_match; [simpl; reflexivity|]. by apply bind_atomic_moves.
Qed.

Lemma recover_owner_moves node lane claim prepared now lease s r s' :
  recover_owner node lane claim prepared now lease s = (r, s') → state_moves s s'.
Proof.
  unfold recover_owner. destruct claim as [claim|]; [|unfold retM; intros [= _ <-]; reflexivity].
  case_bool_decide; [unfold retM; intros [= _ <-]; reflexivity|]. rewrite bindM_get.
  rewrite bindM_liftR. destruct (ms_lane_locks s !! lane) as [o|] eqn:Ho; simpl; [|by intros [= _ <-]].
  destruct (_ && memory_owner_live o now) eqn:Hlive; [|unfold retM; by intros [= _ <-]].
  rewrite bindM_assoc, bindM_liftR. destruct (checked_deadline now lease) as [d|e] eqn:Hd; [|by intros [= _ <-]].
  rewrite bindM_modify. unfold retM. intros [= _ <-]. unfold state_moves. simpl.
  apply (locks_move_insert _ _ o); [done|]. intros Hok. apply row_from_quiet; [|done].
  apply checked_deadline_ok in Hd as ->.
  apply andb_prop in Hlive as [[_ Hid]%andb_prop _]. apply bool_decide_eq_true in Hid.
  destruct Hok. by split; simpl.
Qed.

Lemma recover_tasks_locks node expected owner now s cancelled :
  same_locks s (recover_tasks node expected owner now s cancelled).1.2.
Proof.
  revert s cancelled. induction expected as [|e expected IH]; intros s cancelled; simpl; [reflexivity|].
  destruct (List.find _ _) as [task|]; [|apply IH]. destruct (lost_owner owner); [by etrans; [|apply IH]|].
  destruct (t_cancelled task); [apply IH|].
  specialize (IH s cancelled). by destruct (recover_tasks _ _ _ _ _ _) as [[ts s1] c1].
Qed.

Definition recovery_moves (p q : MemoryState * list TaskCommit) : Prop := state_moves p.1 q.1.
#[local] Instance recovery_moves_preorder : PreOrder recovery_moves.
Proof. unfold recovery_moves. split; [intros p; reflexivity|]. intros p q r H1 H2. by etrans. Qed.

Lemma recover_one_moves node claims prepared now lane p :
  state_moves p.1 (recover_one params node claims prepared now lane p).2.1.
Proof.
  unfold recover_one. unfold bindM at 1. unfold zoomM at 1.
  destruct (recover_owner _ _ _ _ _ _ p.1) as [[o|e] s] eqn:Hr; apply recover_owner_moves in Hr; [|done].
  unfold bindM. assert (Hs : ∃ s1, (if lost_owner o
      then zoomM fst (λ (s : MemoryState) (q : MemoryState * list TaskCommit), (s, q.2))
             (modifyM (E:=TaskRuntimeError) (release_lane node (lp_lane lane) now))
      else retM tt) (s, p.2) = (Ok tt, (s1, p.2)) ∧ same_locks s s1).
  { destruct (lost_owner o); [exists (release_lane node (lp_lane lane) now s)|exists s]; by split. }
  destruct Hs as (s1 & -> & Hs1). simpl.
  pose proof (recover_tasks_locks node (lp_tasks lane) o now s1 p.2) as Ht.
  destruct (recover_tasks _ _ _ _ _ _) as [[ts s2] c2]. simpl in *.
  unfold state_moves, same_locks in *. by rewrite Ht, Hs1.
Qed.

Lemma recover_op_moves node claims prepared now s :
  locks_move (st_locks s) (st_locks (recover_claims params node claims prepared now s).2).
Proof.
  unfold recover_claims, recover_poll.
  pose proof (respects_mapM recovery_moves (tp_lanes prepared)
    (recover_one params node claims prepared now)
    (λ lane p, recover_one_moves node claims prepared now lane p) (st_state s, [])) as Hm.
  destruct (mapM_M _ _ _) as [[lanes|e] [staged cancelled]]; [|simpl; reflexivity]. unfold recovery_moves in Hm. simpl in Hm.
  pose proof (atomic_moves None [] cancelled (commit_batch_size params)
    (store_lease_duration params) now (put_st staged s)) as Ha.
  destruct (atomic_operation _ _ _ _ _ _ _) as [[[poll result]|e] s']; simpl; [|reflexivity].
  etrans; [exact Hm|exact Ha].
Qed.

Lemma initialize_moves now s :
  locks_move (st_locks s) (st_locks (locked (initialize now) s).2).
Proof.
  unfold locked, zoomM, initialize. rewrite bindM_get, bindM_liftR.
  destruct (ms_conf (st_state s)) as [conf|]; cbn [ok_or]; [|simpl; reflexivity].
  rewrite bindM_liftR. destruct (reject_orphaned_tasks _ _); [|simpl; reflexivity].
  destruct (finalize_workflow _ _ _ _) as [lanes s1] eqn:Hf. apply finalize_locks in Hf.
  unfold modifyM, st_locks. simpl. rewrite Hf.
  assert (Hr : ms_lane_locks (initialize_rates conf now (st_state s)) = ms_lane_locks (st_state s)).
  { unfold initialize_rates. generalize (st_state s). induction (sc_lanes conf) as [|l ls IH]; intros m;
      simpl; [done|]. rewrite IH. by case_match. }
  rewrite <- Hr. unfold initialize_lane_locks. generalize (initialize_rates conf now (st_state s)).
  induction (sc_lanes conf) as [|l ls IH]; intros m; simpl; [reflexivity|].
  etrans; [|apply IH]. case_match; [apply locks_move_new|reflexivity].
Qed.

Lemma commit_op_moves commits now s :
  locks_move (st_locks s) (st_locks (commit_tasks params commits now s).2).
Proof. unfold commit_tasks. by apply bind_atomic_moves. Qed.

Lemma admitted_op_moves commits node limit cached now s :
  locks_move (st_locks s) (st_locks (commit_admitted params commits node limit cached now s).2).
Proof.
  unfold commit_admitted. rewrite bindM_get. apply bind_atomic_moves. intros r s'.
  unfold locked, zoomM, admit_committed, st_locks. destruct (ms_conf _); [|done].
  by destruct (map_state _ _ _) as [tasks [lim res]].
Qed.

(** The other operations never write a lock row. *)
Lemma locked_same {E A} (m : M MemoryState E A) s :
  (∀ ms, same_locks ms (m ms).2) → st_locks (locked m s).2 = st_locks s.
Proof. intros Hm. unfold locked, zoomM, st_locks. specialize (Hm (st_state s)). by destruct (m _). Qed.

Lemma retire_nodes_locks node cutoff s : same_locks s (retire_nodes node cutoff s).
Proof. done. Qed.

Ltac same_body :=
  apply locked_same; intros ms; unfold register_node, heartbeat, return_claims, store_tasks,
    store_admitted, store_scheduled, reassign_lane, resume;
  repeat first
    [ done | rewrite bindM_get | rewrite bindM_liftR | rewrite bindM_modify
    | match goal with |- context [match ?x with _ => _ end] => destruct x end ].

Lemma run_op_moves op now s : locks_move (st_locks s) (st_locks (run_op params op now s)).
Proof.
  destruct op; cbn [run_op].
  4: apply initialize_moves. 4: apply claim_op_moves.
  4: { unfold coordinate_lanes. unfold bindM at 1. unfold before_commit, liftR at 1.
       destruct (validate_coordination claims); [apply claim_op_moves|simpl; reflexivity]. }
  4: apply commit_op_moves. 4: apply admitted_op_moves. 4: apply recover_op_moves.
  all: match goal with |- locks_move ?l (st_locks ?s') =>
         assert (Hs : st_locks s' = l) by same_body; rewrite Hs; reflexivity end.
Qed.

Lemma run_ops_moves ops s : locks_move (st_locks s) (st_locks (run_ops params ops s)).
Proof.
  revert s. induction ops as [|[op now] ops IH]; intros s; simpl; [reflexivity|].
  etrans; [apply run_op_moves|apply IH].
Qed.

Lemma new_locks_ok conf : locks_ok (st_locks (memory_store_new conf)).
Proof. intros name o Ho. unfold st_locks in Ho. simpl in Ho. by rewrite lookup_empty in Ho. Qed.

(** In every store reached from a fresh one, whatever the operations did and returned, each
    lane's lock row has its owner, token and lease together or not at all, keeps a retry time only
    after a failed busy hook and an error only after a failed hook, and its generation is in
    range. *)
Theorem reachable_lock_rows_ok conf ops name o :
  st_locks (run_ops params ops (memory_store_new conf)) !! name = Some o → lock_ok o.
Proof.
  destruct (run_ops_moves ops (memory_store_new conf)) as [Hok _]; [apply new_locks_ok|apply Hok].
Qed.

(** C6: the lane owner refines its state machine: between any two points of any history of
    operations a lane's lock row is kept, its phase moves only along the transitions of
    [lane_step], and so its hook generation never decreases. *)
Theorem lane_phases_refine_state_machine conf before after name o :
  st_locks (run_ops params before (memory_store_new conf)) !! name = Some o →
  ∃ o', st_locks (run_ops params (before ++ after) (memory_store_new conf)) !! name = Some o'
    ∧ rtc lane_step (lane_view o) (lane_view o') ∧ ml_generation o ≤ ml_generation o'.
Proof.
  intros Ho. unfold run_ops. rewrite fold_left_app.
  destruct (run_ops_moves before (memory_store_new conf)) as [Hok _]; [apply new_locks_ok|].
  destruct (run_ops_moves after _ Hok) as [_ Hm]. destruct (Hm name o Ho) as (o' & Ho' & Hs).
  exists o'. split_and!; [exact Ho'|done|]. by apply lane_steps_generation in Hs.
Qed.
End LaneMoves.

(** ** Mutual exclusion *)

Section Exclusion.
Context `{X : Externals, L : !ExternalLaws X}.

(** The request presents the row's own token from the row's own node. *)
Definition presents_token (runner : Uuid) (claim : LaneClaim) (o : MemoryLaneLock) : bool :=
  match lcl_owner claim ≫= or_token with
  | Some token => bool_decide (ml_owner_id o = Some (uuid_display runner))
                  && bool_decide (ml_owner_token o = Some token)
  | None => false
  end.

Lemma denied fresh runner claim lease now o :
  memory_owner_live o now = true → presents_token runner claim o = false →
  memory_owner fresh runner claim lease now o = (Ok false, o).
Proof.
  intros Hlive Hp. unfold memory_owner. rewrite bindM_get. cbv zeta. unfold presents_token in Hp.
  destruct (lcl_owner claim ≫= or_token) as [token|]; [by rewrite Hp|].
  by rewrite Hlive, orb_true_r.
Qed.

Lemma owned_inner_denied runner claim lane lease now t o :
  memory_owner (uuid_now_v7 (tn_uuids t)) runner claim lease now o = (Ok false, o) →
  ∃ wake, claim_owned_inner runner claim lane lease now (t, o) =
    (Ok (memory_wait_poll (lcl_lane claim) o wake),
     ((if requests_token claim then release_held runner (lcl_lane claim) now else id)
        (put_uuids (S (tn_uuids t)) t), o)).
Proof.
  intros Hown. unfold claim_owned_inner, on_turn, on_owner, bindM, zoomM, modifyM, getM.
  cbn [fst snd]. rewrite Hown. destruct (requests_token claim); by eexists.
Qed.

(** While a lane's lease is live, a claim that does not present the owner's node and token
    gets nothing: no task, no token and no hook; the lock rows are unchanged, and no task row
    changes except that a requester with a token it no longer holds gives up its own running
    work in the lane. *)
Theorem live_owner_excludes_others runner claim lane lease now t o r t' :
  claim_owned_state runner claim lane lease now t = (r, t') →
  ms_lane_locks (tn_state t) !! lcl_lane claim = Some o →
  memory_owner_live o now = true → presents_token runner claim o = false →
  (∃ poll, r = Ok poll ∧ lp_tasks poll = [] ∧ lp_owner poll = Some
     {| op_token := None; op_generation := ml_generation o; op_phase := ml_phase o;
        op_action := None; op_takeover := false |})
  ∧ ms_lane_locks (tn_state t') = ms_lane_locks (tn_state t)
  ∧ tn_tasks t' = (if requests_token claim then disown runner (lcl_lane claim) now <$> tn_tasks t
                   else tn_tasks t).
Proof.
  intros H Ho Hlive Hp. unfold claim_owned_state in H. rewrite Ho in H. cbv zeta in H.
  set (t0 := put_state _ t) in H.
  destruct (owned_inner_denied runner claim lane lease now t0 o) as [wake Hin]; [by apply denied|].
  rewrite Hin in H. rewrite andb_false_r in H. injection H as <- <-.
  split; [by eexists|]. destruct (requests_token claim); simpl;
    (split; [by rewrite insert_delete_id|done]).
Qed.

(** ** Who is handed the work of a locked lane *)

Definition same_owner (o o' : MemoryLaneLock) : Prop :=
  ml_owner_id o' = ml_owner_id o ∧ ml_owner_token o' = ml_owner_token o
  ∧ ml_leased_until o' = ml_leased_until o.

(** What a poll that carries tasks says of them. *)
Definition hands_out (runner : Uuid) (lane : TaskLaneConf) (poll : LanePoll) (o : MemoryLaneLock) : Prop :=
  lp_owner poll = Some (memory_owner_poll o None)
  ∧ (length (lp_tasks poll) ≤ Z.to_nat (claim_lock_size lane))%nat
  ∧ Forall (λ r, t_node_id r = Some runner ∧ t_status r = Running) (lp_tasks poll).

Lemma on_turn_row {A} (m : M Turn TaskRuntimeError A) p a p' :
  on_turn m p = (Ok a, p') → p'.2 = p.2.
Proof. unfold on_turn, zoomM. destruct (m p.1). by intros [= _ <-]. Qed.

Lemma claim_lane_hands runner claim permit now lease t poll t' :
  claim_lane runner claim permit now lease t = (Ok poll, t') →
  (length (lp_tasks poll) ≤ Z.to_nat (lcl_limit claim))%nat
  ∧ Forall (λ r, t_node_id r = Some runner ∧ t_status r = Running) (lp_tasks poll).
Proof.
  intros H. apply claim_lane_ok in H as (_ & Hf & _). split.
  - rewrite <- (Forall2_length _ _ _ Hf). unfold selected.
    etrans; [eapply sublist_length, retain_permitted_sublist|]. rewrite length_take. lia.
  - apply Forall_lookup. intros k r Hk.
    destruct (Forall2_lookup_r _ _ _ _ _ Hf Hk) as (i & _ & r0 & _ & -> & _). done.
Qed.

Lemma memory_claim_hands runner claim lane lease now p poll p' :
  memory_claim runner claim lane lease now p = (Ok poll, p') →
  p'.2 = p.2 ∧ hands_out runner lane poll p'.2.
Proof.
  unfold memory_claim. intros H.
  apply bindM_ok in H as (s & p1 & H1 & H). apply on_turn_row in H1.
  apply bindM_liftR_ok in H as (conf & _ & H).
  apply bindM_ok in H as (u & p2 & H2 & H). apply on_turn_row in H2.
  apply bindM_ok in H as (s' & p3 & H3 & H). apply on_turn_row in H3.
  apply bindM_ok in H as (reserved & p4 & H4 & H). apply on_turn_row in H4.
  apply bindM_ok in H as (poll0 & p5 & H5 & H). assert (H5' := H5). apply on_turn_row in H5'.
  apply bindM_ok in H as (o & p6 & H6 & H). unfold on_owner, zoomM, getM in H6. simplify_eq.
  unfold retM in H. simplify_eq. simpl. split; [congruence|].
  unfold on_turn, zoomM in H5. destruct (claim_lane_state _ _ _ _ _) as [r t] eqn:Hc. simplify_eq.
  unfold claim_lane_state in Hc. apply bindM_ok in Hc as (poll1 & t1 & Hc & Hw).
  apply claim_lane_hands in Hc as [Hlen Hall]. rewrite bindM_gets in Hw. unfold retM in Hw. simplify_eq.
  by split_and!.
Qed.

Lemma on_owner_run {A} (m : M MemoryLaneLock TaskRuntimeError A) p a p' :
  on_owner m p = (Ok a, p') → m p.2 = (Ok a, p'.2) ∧ p'.1 = p.1.
Proof. unfold on_owner, zoomM. destruct (m p.2). by intros [= -> <-]. Qed.

Lemma flush_poll_hands runner claim lane lease now candidates p poll p' :
  memory_flush_poll runner claim lane lease now candidates p = (Ok poll, p') →
  lp_tasks poll = [] ∨ same_owner p.2 p'.2 ∧ hands_out runner lane poll p'.2.
Proof.
  unfold memory_flush_poll. intros H.
  apply bindM_ok in H as (tasks & p1 & H1 & H). apply on_turn_row in H1.
  apply bindM_ok in H as (o & p2 & H2 & H). apply on_owner_run in H2 as [H2 _].
  unfold getM in H2. injection H2 as <- H2.
  apply bindM_ok in H as (flush & p3 & H3 & H).
  assert (H3' : p3 = p2) by (destruct (ml_flushing _); unfold retM, liftR in H3; by simplify_eq).
  subst p3. destruct (negb flush).
  - apply bindM_liftR_ok in H as (w & _ & H). unfold retM in H. simplify_eq. by left.
  - apply bindM_ok in H as (u & p4 & H4 & H). apply on_owner_run in H4 as [H4 _].
    unfold modifyM in H4. injection H4 as _ H4. match type of H with (if ?b then _ else _) _ = _ => destruct b end.
    + left. apply on_owner_run in H as [H _]. unfold getsM in H. by injection H as <- _.
    + right. apply memory_claim_hands in H as [Hp Hh]. split; [|done].
      rewrite Hp, <- H4. unfold same_owner. simpl. by rewrite <- H2, H1.
Qed.

(** A phase poll hands out work only for a row that is not in a failed-busy phase and whose
    lane has due work, and then the owner fields are those it found. *)
Lemma phase_poll_hands runner claim lane lease now p poll p' :
  memory_phase_poll runner claim lane lease now p = (Ok poll, p') →
  lp_tasks poll = [] ∨ ml_phase p.2 ≠ BusyFailed
    ∧ due_indices (tn_tasks p.1) (lcl_lane claim) now ≠ []
    ∧ same_owner p.2 p'.2 ∧ hands_out runner lane poll p'.2.
Proof.
  unfold memory_phase_poll. intros H. apply bindM_ok in H as (o & p1 & H1 & H).
  apply on_owner_run in H1 as [H1 Ht1]. unfold getM in H1. injection H1 as <- H1.
  match type of H with (if ?b then _ else _) _ = _ => destruct b end.
  { unfold retM in H. simplify_eq. by left. }
  apply bindM_ok in H as (u & p2 & H2 & H).
  assert (Hp2 : same_owner p.2 p2.2 ∧ (ml_phase p.2 = BusyFailed → ml_phase p2.2 = BusyFailed)
    ∧ p2.1 = p.1).
  { revert H2. case_match eqn:Hb; intros H2.
    - apply on_owner_run in H2 as [H2 Ht2]. unfold modifyM in H2. injection H2 as _ <-.
      rewrite <- H1. split_and!; [done| |congruence]. intros Hph.
      apply andb_prop in Hb as [Hb _]. apply bool_decide_eq_true in Hb. congruence.
    - unfold retM in H2. simplify_eq. rewrite H1. by split_and!. }
  destruct Hp2 as (Hso & Hph & Ht2).
  apply bindM_ok in H as (tasks & p3 & H3 & H). assert (H3' := H3). apply on_turn_row in H3'.
  unfold on_turn, zoomM, getsM in H3. injection H3 as <- _.
  destruct (memory_candidates _ _ _ _) as [|i l] eqn:Hc.
  { left. apply on_owner_run in H as [H _]. apply bindM_ok in H as (u' & o' & Hf & H).
    by apply memory_empty_tasks in H. }
  assert (Hdue : due_indices (tn_tasks p.1) (lcl_lane claim) now ≠ []).
  { intros Hd. unfold memory_candidates in Hc. rewrite Ht2, Hd in Hc. unfold sort_candidates in Hc.
    simpl in Hc. rewrite take_nil in Hc. done. }
  apply bindM_ok in H as (u' & p4 & H4 & H). apply on_owner_run in H4 as [H4 _].
  unfold modifyM in H4. injection H4 as _ H4.
  apply bindM_ok in H as (o & p5 & H5 & H). apply on_owner_run in H5 as [H5 _].
  unfold getM in H5. injection H5 as <- H5.
  assert (Hbusy : (ml_phase p4.2 = Idle ∨ ml_phase p4.2 = BusyFailed) ∧
      on_owner (memory_start_busy (lcl_lane claim) lane now) p5 = (Ok poll, p')
    ∨ (ml_phase p4.2 ≠ BusyFailed) ∧
      memory_flush_poll runner claim lane lease now (i :: l) p5 = (Ok poll, p')).
  { destruct (ml_phase p4.2); auto. }
  destruct Hbusy as [[_ Hb]|[Hnb Hb]].
  - left. apply on_owner_run in Hb as [Hb _]. by apply start_busy_tasks in Hb.
  - apply flush_poll_hands in Hb as [Hb|[Hs Hh]]; [by left|right].
    assert (Heq : same_owner p2.2 p4.2 ∧ ml_phase p4.2 = ml_phase p2.2)
      by (rewrite <- H4, H3'; by split).
    destruct Heq as [Heq Hph4]. split_and!; [|done| |done].
    + intros Hx. apply Hnb. rewrite Hph4. by apply Hph.
    + rewrite <- H5 in Hs. unfold same_owner in *. destruct_and!. split_and!; congruence.
Qed.

Lemma owner_granted fresh runner claim lease now o o' :
  memory_owner fresh runner claim lease now o = (Ok true, o') →
  ml_owner_id o' = Some (uuid_display runner) ∧ is_Some (ml_owner_token o')
  ∧ ml_leased_until o' = Some (now + lease).
Proof.
  unfold memory_owner. rewrite bindM_get. cbv zeta. intros H.
  destruct (match lcl_owner claim ≫= or_token with Some _ => _ | None => _ end) eqn:Hcur.
  - apply bindM_liftR_ok in H as (d & Hd & H). apply checked_deadline_ok in Hd as ->.
    rewrite bindM_modify in H. unfold retM in H. simplify_eq.
    destruct (lcl_owner claim ≫= or_token) as [token|]; [|done].
    apply andb_prop in Hcur as [[Hid Htok]%andb_prop _].
    apply bool_decide_eq_true in Hid, Htok. simpl. rewrite Htok. eauto.
  - match type of H with (if ?b then _ else _) _ = _ => destruct b end;
      [unfold retM in H; by simplify_eq|].
    rewrite !bindM_modify in H. apply bindM_liftR_ok in H as (d & Hd & H).
    apply checked_deadline_ok in Hd as ->. rewrite bindM_modify in H. unfold retM in H.
    simplify_eq. simpl. eauto.
Qed.

Definition not_failed_idle (hook : LaneHookResult) : Prop :=
  hr_action hook = HookIdle → is_ok (hr_result hook) = true.

(** A hook result other than a failed idle hook gives the row up only where no work can be handed out. *)
Lemma hook_effect conf tasks hook name lane now o u o' :
  apply_memory_hook conf tasks hook name lane now o = (Ok u, o') → not_failed_idle hook →
  same_owner o o' ∨ ml_phase o' = BusyFailed ∨ due_indices tasks name now = [].
Proof.
  unfold apply_memory_hook, not_failed_idle. rewrite bindM_get. intros H Hh.
  match type of H with (if ?b then _ else _) _ = _ => destruct b end;
    [unfold retM in H; simplify_eq; by left|].
  destruct (hr_action hook), (hr_result hook) as [v|e].
  - unfold finish_memory_idle in H. case_bool_decide as Hd; [auto|].
    match type of H with (if ?b then _ else _) _ = _ => destruct b end;
      [|unfold modifyM in H; simplify_eq; by left].
    left. unfold memory_transition in H. run_ok. done.
  - by specialize (Hh eq_refl).
  - unfold modifyM in H. simplify_eq. by left.
  - unfold memory_fail_busy in H. rewrite bindM_modify in H. apply bindM_liftR_ok in H as (d & _ & H).
    rewrite bindM_modify in H. unfold modifyM in H. simplify_eq. auto.
Qed.

Lemma owned_inner_hands runner claim lane lease now p poll p' :
  claim_owned_inner runner claim lane lease now p = (Ok poll, p') →
  (∀ hook, lcl_owner claim ≫= or_hook = Some hook → not_failed_idle hook) →
  lp_tasks poll = [] ∨ ml_owner_id p'.2 = Some (uuid_display runner)
    ∧ is_Some (ml_owner_token p'.2) ∧ ml_leased_until p'.2 = Some (now + lease)
    ∧ hands_out runner lane poll p'.2.
Proof.
  unfold claim_owned_inner. intros H Hhook.
  apply bindM_ok in H as (t & p1 & H1 & H). apply bindM_ok in H as (u & p2 & H2 & H).
  apply bindM_ok in H as (owned & p3 & H3 & H). apply on_owner_run in H3 as [H3 _].
  destruct owned; simpl in H.
  2: { left. apply bindM_ok in H as (u' & p4 & _ & H). apply bindM_ok in H as (ts & p5 & _ & H).
       apply bindM_ok in H as (o & p6 & _ & H). unfold retM in H. by simplify_eq. }
  apply owner_granted in H3 as (Hid & Htok & Hlease).
  apply bindM_ok in H as (s & p4 & H4 & H). assert (Hr4 := H4). apply on_turn_row in Hr4.
  unfold on_turn, zoomM, getsM in H4. injection H4 as <- H4.
  apply bindM_ok in H as (u' & p5 & H5 & H).
  assert (Hrow : (same_owner p4.2 p5.2 ∨ ml_phase p5.2 = BusyFailed
    ∨ due_indices (tn_tasks p3.1) (lcl_lane claim) now = []) ∧ p5.1 = p4.1).
  { destruct (lcl_owner claim ≫= or_hook) as [hook|].
    - apply on_owner_run in H5 as [H5 Ht]. split; [|done]. eapply hook_effect; [exact H5|auto].
    - unfold retM in H5. simplify_eq. by split; [left|]. }
  destruct Hrow as [Hrow Ht5].
  apply bindM_ok in H as (o & p6 & H6 & H). apply on_owner_run in H6 as [H6 Ht6].
  unfold getM in H6. injection H6 as <- H6.
  destruct (memory_action _); [unfold retM in H; simplify_eq; by left|].
  apply phase_poll_hands in H as [H|(Hnb & Hdue & Hs & Hh)]; [by left|].
  rewrite <- H6 in *. rewrite Ht6, Ht5, <- H4 in Hdue. simpl in Hdue.
  destruct Hrow as [Ho|[Hx|Hx]]; [|done|done]. right.
  destruct Ho as (Ha & Hb & Hc), Hs as (Hd & He & Hf). rewrite Hr4 in *.
  rewrite Hd, Ha, He, Hb, Hf, Hc. by split_and!.
Qed.

(** C7: the work of a locked lane is handed out only to its owner: when a claim, other than one
    that reports a failed idle hook, returns tasks, the lane's row names the claiming node with a
    token and a lease that runs from now, the poll carries that very token, and the tasks, no more
    than the lane's batch size, are running and owned by that node. *)
Theorem locked_work_goes_to_the_owner runner claim lane lease now t poll t' :
  claim_owned_state runner claim lane lease now t = (Ok poll, t') →
  (∀ hook, lcl_owner claim ≫= or_hook = Some hook → not_failed_idle hook) →
  lp_tasks poll ≠ [] →
  ∃ o po token, ms_lane_locks (tn_state t') !! lcl_lane claim = Some o
    ∧ ml_owner_id o = Some (uuid_display runner) ∧ ml_owner_token o = Some token
    ∧ ml_leased_until o = Some (now + lease)
    ∧ lp_owner poll = Some po ∧ op_token po = Some token
    ∧ (length (lp_tasks poll) ≤ Z.to_nat (claim_lock_size lane))%nat
    ∧ Forall (λ r, t_node_id r = Some runner ∧ t_status r = Running) (lp_tasks poll).
Proof.
  unfold claim_owned_state. intros H Hhook Hne.
  destruct (ms_lane_locks (tn_state t) !! lcl_lane claim) as [o0|]; [|done]. cbv zeta in H.
  destruct (claim_owned_inner _ _ _ _ _ _) as [[poll0|e] [u o]] eqn:Hrun; [|done].
  apply owned_inner_hands in Hrun; [|done].
  injection H as H <-.
  assert (Hpoll : poll = mark_takeover poll0 ∨ poll = poll0)
    by (destruct (_ && _) in H; simplify_eq; auto).
  destruct Hrun as [Hrun|(Hid & [token Htok] & Hlease & Hown & Hlen & Hall)];
    [by destruct Hpoll as [-> | ->]|].
  simpl in *. assert (Hpo : ∃ po, lp_owner poll = Some po ∧ op_token po = Some token
    ∧ lp_tasks poll = lp_tasks poll0).
  { destruct Hpoll as [-> | ->]; [unfold mark_takeover; simpl|]; rewrite Hown; by eexists. }
  destruct Hpo as (po & Hpo & Hptok & ->). exists o, po, token.
  split_and!; try done. by rewrite lookup_insert_eq.
Qed.
End Exclusion.

(** ** Instances *)

#[local] Existing Instances DemoExternals.externals DemoExternals.laws.

Definition serial_write (id : N) : TaskWrite := demo_write id Work "work" "serial".
Definition serial_claim (request : LaneOwnerRequest) : LaneClaim :=
  {| lcl_lane := "serial"; lcl_limit := 2; lcl_owner := Some request |}.
Definition serial_conf : TaskLaneConf :=
  with_retry demo_retry (lock (idle_after (from_secs 5) (lane_lock_new 2)) (lane_conf_new "serial" 1)).

(** Two tasks in the locked lane; [node1] owns it from time 2 on. *)
Definition serial_ops : list (StoreOp * DateTime) :=
  demo_ops ++ [(OpStoreTasks [serial_write 50; serial_write 51], from_secs 1)].
Definition serial_state : StoreState := run_ops demo_params serial_ops (memory_store_new demo_conf).
Definition owned_ops : list (StoreOp * DateTime) :=
  [(OpClaimTasks node1 [serial_claim (owner_request None true)], from_secs 2)].
Definition owned_state : StoreState :=
  run_ops demo_params (serial_ops ++ owned_ops) (memory_store_new demo_conf).

Lemma reachable_lock_rows_ok_witness :
  ∃ o, st_locks (run_ops demo_params (serial_ops ++ owned_ops) (memory_store_new demo_conf)) !! "serial"
    = Some o ∧ lock_ok o.
Proof.
  destruct (st_locks (run_ops demo_params (serial_ops ++ owned_ops) (memory_store_new demo_conf))
    !! "serial") as [o|] eqn:Ho; [|vm_compute in Ho; discriminate].
  exists o. split; [reflexivity|].
  exact (reachable_lock_rows_ok demo_params demo_conf (serial_ops ++ owned_ops) "serial" o Ho).
Defined.

Lemma lane_phases_refine_state_machine_witness :
  ∃ o', st_locks (run_ops demo_params (serial_ops ++ owned_ops) (memory_store_new demo_conf)) !! "serial"
    = Some o' ∧ rtc lane_step (Active, 0) (lane_view o').
Proof.
  assert (He : ∃ o, st_locks (run_ops demo_params serial_ops (memory_store_new demo_conf)) !! "serial"
    = Some o ∧ lane_view o = (Active, 0)) by (vm_compute; eexists; split; reflexivity).
  destruct He as (o & Ho & Hv).
  destruct (lane_phases_refine_state_machine demo_params demo_conf serial_ops owned_ops "serial" o Ho)
    as (o' & Ho' & Hs & _).
  exists o'. split; [exact Ho'|]. rewrite <- Hv. exact Hs.
Defined.

(** [node2] asks while [node1] holds the lease. *)
Lemma live_owner_excludes_others_witness :
  ∃ r t', claim_owned_state node2 (serial_claim (owner_request None true)) serial_conf
      (from_secs 30) (from_secs 3) (turn_of owned_state) = (r, t')
    ∧ tn_tasks t' = tn_tasks (turn_of owned_state).
Proof.
  assert (He : ∃ o, ms_lane_locks (tn_state (turn_of owned_state)) !! "serial" = Some o
    ∧ memory_owner_live o (from_secs 3) = true) by (vm_compute; eexists; split; reflexivity).
  revert He. generalize (turn_of owned_state). intros t (o & Ho & Hl).
  destruct (claim_owned_state node2 (serial_claim (owner_request None true)) serial_conf
      (from_secs 30) (from_secs 3) t) as [r t'] eqn:H.
  exists r, t'. split; [reflexivity|].
  destruct (live_owner_excludes_others node2 (serial_claim (owner_request None true)) serial_conf
    (from_secs 30) (from_secs 3) t o r t' H Ho Hl eq_refl) as (_ & _ & Ht).
  rewrite Ht. reflexivity.
Defined.

(** [node1] acquires the lane and gets both tasks. *)
Lemma locked_work_goes_to_the_owner_witness :
  ∃ poll t' o, claim_owned_state node1 (serial_claim (owner_request None true)) serial_conf
      (from_secs 30) (from_secs 2) (turn_of serial_state) = (Ok poll, t')
    ∧ ms_lane_locks (tn_state t') !! "serial" = Some o
    ∧ ml_owner_id o = Some (uuid_display node1) ∧ ml_leased_until o = Some (from_secs 2 + from_secs 30).
Proof.
  destruct (claim_owned_state node1 (serial_claim (owner_request None true)) serial_conf
      (from_secs 30) (from_secs 2) (turn_of serial_state)) as [[poll|e] t'] eqn:H;
    [|vm_compute in H; discriminate].
  assert (Hne : lp_tasks poll ≠ []) by (vm_compute in H; injection H as <- _; discriminate).
  assert (Hhook : ∀ hook, lcl_owner (serial_claim (owner_request None true)) ≫= or_hook = Some hook →
    not_failed_idle hook) by (intros hook; discriminate).
  destruct (locked_work_goes_to_the_owner node1 (serial_claim (owner_request None true)) serial_conf
    (from_secs 30) (from_secs 2) (turn_of serial_state) poll t' H Hhook Hne)
    as (o & po & token & Ho & Hid & _ & Hl & _).
  exists poll, t', o. split; [reflexivity|]. split; [exact Ho|]. split; [exact Hid|exact Hl].
Defined.

(** ** A failed idle hook

    [memory_fail_idle] releases the row, and [claim_owned_inner] goes on to poll its phase: with
    due work in the lane and a request that allows a claim, tasks are handed out although the row
    no longer has an owner. The database store stops after a hook that released the row. *)

Definition hooked_lane : TaskLaneConf :=
  with_retry demo_retry (lock (on_busy "busy" (on_idle "idle" (lane_lock_new 2)))
    (lane_conf_new "hooked" 1)).
Definition hooked_conf : TaskStoreConf :=
  {| sc_max_all_children := 8; sc_handlers := [("work", Work)]%string; sc_lanes := [hooked_lane];
     sc_idempotency := []; sc_poll_interval := from_secs 1 |}.
Definition hooked_write (id : N) : TaskWrite := demo_write id Work "work" "hooked".
Definition hooked_claim (token : option string) (hook : option LaneHookResult) : LaneClaim :=
  {| lcl_lane := "hooked"; lcl_limit := 2;
     lcl_owner := Some {| or_token := token; or_quiescent := true; or_allow_claim := true;
                          or_completed_work := false; or_hook := hook |} |}.

(** The empty lane asks [node1] for its idle hook; two tasks arrive while the hook runs. *)
Definition hooked_state : StoreState :=
  run_ops demo_params
    [ (OpRegisterNode node1, 0); (OpInitialize, 0);
      (OpClaimTasks node1 [hooked_claim None None], from_secs 1);
      (OpStoreTasks [hooked_write 60; hooked_write 61], from_secs 2) ]
    (memory_store_new hooked_conf).

Definition hooked_token : option string :=
  st_locks hooked_state !! "hooked" ≫= ml_owner_token.
Definition failed_idle : LaneHookResult :=
  {| hr_generation := 1; hr_action := HookIdle; hr_result := Err "hook failed" |}.

(** What the claim that reports the failed hook leaves: the tasks handed out and the row's owner. *)
Definition after_failed_idle : option (nat * option string * option string) :=
  match claim_tasks demo_params node1 [hooked_claim hooked_token (Some failed_idle)] (from_secs 3)
          hooked_state with
  | (Ok poll, s) =>
      o ← st_locks s !! "hooked";
      Some (length (concat (lp_tasks <$> tp_lanes poll)), ml_owner_id o, ml_owner_token o)
  | (Err _, _) => None
  end.

(** After a failed idle hook has released the lane, the same claim still starts both due tasks
    of the locked lane, although its row has no owner and no token. *)
Example failed_idle_hook_claims_without_owner : after_failed_idle = Some (2%nat, None, None).
Proof. vm_compute. reflexivity. Qed.
