(* ===== verification/AdminTheorems.v ===== *)
(** * Administration: nodes, start-up, lanes, inspection and recovery *)
From S2P Require Import Prelude Externals Failure Config Rate Models Transitions Lifecycle.
From S2P Require Import MemoryState LaneLock Workflow Claims.
From S2P Require Import Evolution ClaimFacts Commits Atomic.
From S2P Require Import Turns StoreSpec.
#[local] Open Scope Z_scope.

Section Nodes.
Context `{X : Externals, L : !ExternalLaws X}.

(** Whether a returned claim is one of this node's (of any node, without one). *)
Definition owned_by (node : option Uuid) (r : TaskRecord) : Prop :=
  match node with Some n => t_node_id r = Some n | None => True end.

Lemma returnable_true node r :
  returnable node r = true ↔
  (t_status r = Running ∨ is_Some (t_node_id r) ∧ (t_status r = Pending ∨ t_status r = Suspended))
  ∧ owned_by node r.
Proof.
  unfold returnable, owned_by. rewrite andb_true_iff, orb_true_iff, andb_true_iff, !bool_decide_eq_true.
  destruct node; rewrite ?bool_decide_eq_true; destruct (t_status r); naive_solver.
Qed.

(** Returning the claims of a node (or of every node) leaves it holding no active task: no row
    of its is running any more and no active row names it; a returned running row is pending and
    ready now, every returned row keeps its attempts, results and continuation, and the answer
    counts exactly the returned rows. *)
Theorem return_claims_releases_node node now s :
  ∃ s' returned, return_claims node now s = (Ok (zlen returned), s')
    ∧ s' = set_tasks (ms_tasks s') s
    ∧ Forall2 (λ r r', r' = r ∧ r ∉ returned ∨
          r ∈ returned ∧ t_node_id r' = None ∧ r' = set_updated_at now (set_node_id None r')
          ∧ t_status r' = (if bool_decide (t_status r = Running) then Pending else t_status r)
          ∧ (t_status r = Running → t_ready_at r' = Some now)
          ∧ (t_attempts r', t_step_attempts r', t_state r', t_resume_input r', t_last_result r')
            = (t_attempts r, t_step_attempts r, t_state r, t_resume_input r, t_last_result r)
          ∧ same_identity r r') (ms_tasks s) (ms_tasks s')
    ∧ (∀ r', r' ∈ ms_tasks s' → owned_by node r' →
         t_status r' ≠ Running ∧ (is_active (t_status r') = true → t_node_id r' = None)).
Proof.
  unfold return_claims. rewrite bindM_get, bindM_modify. unfold retM.
  exists (set_tasks ((λ t, if returnable node t then return_task now t else t) <$> ms_tasks s) s),
    (List.filter (returnable node) (ms_tasks s)).
  split_and!; [done|by destruct s| |].
  - simpl. apply Forall2_fmap_r, Forall_Forall2_diag, Forall_forall. intros r Hr.
    destruct (returnable node r) eqn:Hret.
    + right. split; [apply list_elem_of_In, filter_In; by rewrite <- list_elem_of_In|].
      unfold return_task. unfold same_identity.
      rewrite ?Hret. case_bool_decide as Hs; by split_and!.
    + left. rewrite ?Hret. split; [done|]. intros Hin. apply list_elem_of_In, filter_In in Hin as [_ Hin].
      congruence.
  - simpl. intros r' Hin Ho. apply list_elem_of_fmap in Hin as (r & -> & Hin).
    destruct (returnable node r) eqn:Hret.
    + rewrite ?Hret. unfold return_task. case_bool_decide as Hs; simpl; [by split|].
      apply returnable_true in Hret as [[?|[_ [Hp|Hp]]] _]; [done|by rewrite Hp..].
    + assert (Hno : ¬ (t_status r = Running ∨ is_Some (t_node_id r) ∧ (t_status r = Pending ∨ t_status r = Suspended)))
        by (intros Hx; assert (returnable node r = true) by (by apply returnable_true); congruence).
      split; [tauto|]. intros Ha. destruct (t_node_id r) eqn:Hn; [|done]. exfalso. apply Hno.
      destruct (t_status r); auto; by right; split; [eexists|auto].
Qed.

(** A heartbeat of an unregistered node answers [false] and changes nothing; of a registered
    one it moves that node's last heartbeat to now, drops exactly the other nodes last heard of
    before the retirement cutoff, and takes the ownership of a dropped node off its tasks while
    every other row is kept. *)
Theorem heartbeat_retires_stale_nodes node stale now s alive s' :
  heartbeat node stale now s = (Ok alive, s') →
  if alive then
    ∃ registered last, ms_nodes s !! node = Some (registered, last)
      ∧ ms_nodes s' !! node = Some (registered, now)
      ∧ (∀ id times, id ≠ node →
           ms_nodes s' !! id = Some times ↔ ms_nodes s !! id = Some times ∧ now - stale ≤ times.2)
      ∧ Forall2 (λ r r',
          match t_node_id r with
          | Some id => if bool_decide (is_Some (ms_nodes s !! id) ∧ ms_nodes s' !! id = None)
                       then r' = set_node_id None r else r' = r
          | None => r' = r
          end) (ms_tasks s) (ms_tasks s')
  else ms_nodes s !! node = None ∧ s' = s.
Proof.
  unfold heartbeat. intros H. apply bindM_liftR_ok in H as (cutoff & Hcut & H).
  apply ok_or_ok in Hcut. destruct (td_from_std stale) as [d|] eqn:Hd; [|done]. simpl in Hcut.
  apply td_from_std_exact in Hd as ->. apply checked_sub_signed_exact in Hcut as ->.
  rewrite bindM_get in H. destruct (ms_nodes s !! node) as [[registered last]|] eqn:Hn.
  2: { unfold retM in H. by simplify_eq. }
  rewrite !bindM_modify in H. unfold retM in H. simplify_eq. exists registered, last.
  unfold retire_nodes. simpl. set (nodes := <[node := _]> _). set (cutoff := now - stale).
  assert (Hkeep : ∀ id times, filter (λ p : Uuid * (DateTime * DateTime), keeps_node node cutoff p.1 p.2) nodes
      !! id = Some times ↔ nodes !! id = Some times ∧ (id = node ∨ cutoff ≤ times.2))
    by (intros; by rewrite map_lookup_filter_Some).
  split_and!; [done| | |].
  - apply Hkeep. unfold nodes. rewrite lookup_insert_eq. auto.
  - intros id times Hid. rewrite Hkeep. unfold nodes. rewrite lookup_insert_ne by done. naive_solver.
  - apply Forall2_fmap_r, Forall_Forall2_diag, Forall_forall. intros r _.
    destruct (t_node_id r) as [id|] eqn:Hr; unfold compose; rewrite Hr; [|done].
    rewrite (bool_decide_ext (id ∈ _) (is_Some (ms_nodes s !! id)
      ∧ filter (λ p : Uuid * (DateTime * DateTime), keeps_node node cutoff p.1 p.2) nodes !! id = None)).
    { by case_bool_decide. }
    rewrite elem_of_dom. split.
    + intros [times Ht]. apply map_lookup_filter_Some in Ht as [Ht Hk]. simpl in Hk.
      assert (Hid : id ≠ node) by (intros ->; by destruct Hk; left).
      split; [unfold nodes in Ht; rewrite lookup_insert_ne in Ht by done; by eexists|].
      apply map_lookup_filter_None. right. intros x Hx. simpl. by simplify_eq.
    + intros [[times Ht] Hno]. apply map_lookup_filter_None in Hno as [Hno|Hno].
      * unfold nodes in Hno. apply lookup_insert_None in Hno as [Hno _]. congruence.
      * destruct (decide (id = node)) as [->|Hid].
        { exfalso. apply (Hno (registered, now)); [by unfold nodes; rewrite lookup_insert_eq|by left]. }
        exists times. apply map_lookup_filter_Some.
        assert (Hl : nodes !! id = Some times) by (unfold nodes; by rewrite lookup_insert_ne).
        split; [done|]. simpl. by apply Hno.
Qed.
End Nodes.

(** ** Inspection *)

Section Inspection.
Context `{X : Externals, L : !ExternalLaws X}.

Definition list_key (r : TaskRecord) : DateTime * TaskId := (t_created_at r, t_id r).

Lemma newest_first_total a b : newest_first a b = true ∨ newest_first b a = true.
Proof. unfold newest_first. destruct a, b. simpl. lia. Qed.
Lemma newest_first_trans a b c :
  newest_first a b = true → newest_first b c = true → newest_first a c = true.
Proof. unfold newest_first. destruct a, b, c. simpl. lia. Qed.

(** The records a filter selects, in listing order. *)
Definition listing (filter : TaskFilter) (s : MemoryState) : list TaskRecord :=
  sort_by_key newest_first list_key (List.filter (λ t, matches_filter t filter) (ms_tasks s)).

Definition with_page (k : nat) (f : TaskFilter) : TaskFilter :=
  {| f_status := f_status f; f_name := f_name f; f_lane := f_lane f;
     f_idempotency_key := f_idempotency_key f; f_created_from := f_created_from f;
     f_created_to := f_created_to f; f_query := f_query f; f_page := Z.of_nat k;
     f_per_page := f_per_page f |}.

Lemma page_items (k : nat) filter records :
  0 ≤ f_per_page filter → Z.of_nat (S k) * f_per_page filter ≤ USIZE_MAX → Z.of_nat (S k) ≤ USIZE_MAX →
  pg_items (page records (with_page (S k) filter)) =
  take (Z.to_nat (f_per_page filter)) (drop (k * Z.to_nat (f_per_page filter)) records).
Proof.
  intros Hp Hk Hs. unfold page. simpl pg_items. cbn [f_page f_per_page with_page].
  rewrite (usize_saturating_id (Z.of_nat (S k) - 1)) by lia.
  rewrite usize_saturating_id by nia. do 2 f_equal. nia.
Qed.

(** listing is a lossless enumeration of the matching tasks: they are in order of creation,
    newest first and ties by descending identity; the reported total counts them; and the first [n]
    pages, one after the other, are exactly the first [n] page sizes of that order. *)
Theorem pages_enumerate_matches filter s n :
  0 ≤ f_per_page filter → Z.of_nat n * f_per_page filter ≤ USIZE_MAX → Z.of_nat n ≤ USIZE_MAX →
  zlen (listing filter s) ≤ I64_MAX →
  listing filter s ≡ₚ List.filter (λ t, matches_filter t filter) (ms_tasks s)
  ∧ StronglySorted (λ r r', t_created_at r' < t_created_at r
      ∨ t_created_at r' = t_created_at r ∧ (t_id r' <= t_id r)%N) (listing filter s)
  ∧ concat ((λ k, pg_items (list_tasks (with_page (S k) filter) s)) <$> seq 0 n)
    = take (n * Z.to_nat (f_per_page filter)) (listing filter s)
  ∧ ∀ k, pg_total (list_tasks (with_page k filter) s) = zlen (listing filter s).
Proof.
  intros Hp Hn Hn' Htot. split_and!.
  - apply sort_by_key_perm.
  - eapply StronglySorted_ind; [constructor| |apply (sort_by_key_ordered newest_first list_key
      newest_first_total newest_first_trans)].
    intros r l _ IH Hf. constructor; [done|]. eapply Forall_impl; [exact Hf|].
    unfold newest_first, list_key. simpl. intros r'. lia.
  - change (λ k, _) with (λ k, pg_items (page (listing filter s) (with_page (S k) filter))).
    induction n as [|n IH]; [done|]. rewrite seq_S, fmap_app, concat_app, IH, Nat.add_0_l by lia.
    rewrite list_fmap_singleton, concat_cons, concat_nil, app_nil_r, page_items by lia.
    replace (S n * Z.to_nat (f_per_page filter))%nat
      with (n * Z.to_nat (f_per_page filter) + Z.to_nat (f_per_page filter))%nat by lia.
    by rewrite <- take_take_drop.
  - intros k. unfold list_tasks, page. simpl pg_total.
    change (sort_by_key _ _ _) with (listing filter s). unfold i64_try_from.
    pose proof (zlen_nonneg (listing filter s)).
    rewrite (proj2 (Z.leb_le I64_MIN _)), (proj2 (Z.leb_le _ I64_MAX)) by (unfold I64_MIN in *; lia). done.
Qed.
End Inspection.

(** ** Start-up, reassignment and resumption *)

Section Admin.
Context `{X : Externals, L : !ExternalLaws X}.

(** Every active task names a configured lane and handler. *)
Definition tasks_configured (conf : TaskStoreConf) (tasks : list TaskRecord) : Prop :=
  Forall (λ r, is_active (t_status r) = true →
    t_lane r ∈ lc_lane <$> sc_lanes conf ∧ t_name r ∈ fst <$> sc_handlers conf) tasks.

Lemma reject_orphaned_ok tasks conf :
  reject_orphaned_tasks tasks conf = Ok tt ↔ tasks_configured conf tasks.
Proof.
  unfold reject_orphaned_tasks, tasks_configured. rewrite Forall_forall.
  set (bad_lane := λ t, is_active (t_status t) && negb (bool_decide (t_lane t ∈ _))).
  set (bad_name := λ t, is_active (t_status t) && negb (bool_decide (t_name t ∈ _))).
  destruct (List.find bad_lane tasks) as [x|] eqn:H1.
  { split; [done|]. intros H. apply find_some in H1 as [Hin Hp].
    apply andb_prop in Hp as [Ha Hl]. apply negb_true_iff, bool_decide_eq_false in Hl.
    apply list_elem_of_In in Hin. by destruct Hl, (H x Hin Ha). }
  destruct (List.find bad_name tasks) as [x|] eqn:H2.
  { split; [done|]. intros H. apply find_some in H2 as [Hin Hp].
    apply andb_prop in Hp as [Ha Hl]. apply negb_true_iff, bool_decide_eq_false in Hl.
    apply list_elem_of_In in Hin. by destruct Hl, (H x Hin Ha). }
  split; [|intros _; reflexivity]. intros _ r Hin Ha. apply list_elem_of_In in Hin.
  apply (List.find_none _ _ H1) in Hin as Hl. apply (List.find_none _ _ H2) in Hin as Hh.
  unfold bad_lane, bad_name in Hl, Hh. rewrite Ha in Hl, Hh. simpl in Hl, Hh. apply negb_false_iff, bool_decide_eq_true in Hl, Hh. done.
Qed.

Lemma initialize_parts conf now s :
  let s1 := initialize_lane_locks conf (initialize_rates conf now s) in
  ms_tasks s1 = ms_tasks s ∧ ms_nodes s1 = ms_nodes s ∧ ms_waits s1 = ms_waits s
  ∧ ms_schedules s1 = ms_schedules s ∧ ms_conf s1 = ms_conf s.
Proof.
  cbv zeta. unfold initialize_lane_locks, initialize_rates.
  split_and!; match goal with |- ?f _ = _ => rewrite !(fold_left_keep f); [done|intros; by case_match..] end.
Qed.

Lemma or_insert_some {V} k (v : V) m : is_Some (or_insert k v m !! k).
Proof. unfold or_insert. destruct (m !! k) eqn:H; rewrite ?H, ?lookup_insert_eq; eauto. Qed.
Lemma or_insert_keep {V} k k' (v x : V) m : m !! k' = Some x → or_insert k v m !! k' = Some x.
Proof. unfold or_insert. case_match; [done|]. intros ?. rewrite lookup_insert_ne by congruence. done. Qed.

Lemma rates_filled conf now s : 
  (∀ lane rate, lane ∈ sc_lanes conf → lc_global_rate lane = Some rate →
     is_Some (ms_rates (initialize_rates conf now s) !! lc_lane lane))
  ∧ ∀ k b, ms_rates s !! k = Some b → ms_rates (initialize_rates conf now s) !! k = Some b.
Proof.
  unfold initialize_rates. generalize (sc_lanes conf). intros lanes. revert s.
  induction lanes as [|l lanes IH]; intros s; simpl.
  { split; [|done]. by intros lane rate ?%elem_of_nil. }
  destruct (IH (match lc_global_rate l with
    | Some rate => set_rates (or_insert (lc_lane l) (full_bucket rate now) (ms_rates s)) s
    | None => s end)) as [H1 H2]. split.
  - intros lane rate [->|Hin]%elem_of_cons Hr; [|by eapply H1]. rewrite Hr in H2 |- *.
    destruct (or_insert_some (lc_lane l) (full_bucket rate now) (ms_rates s)) as [b Hb].
    exists b. by apply H2.
  - intros k b Hb. apply H2. case_match; [by apply or_insert_keep|done].
Qed.

Lemma locks_filled conf s :
  (∀ lane, lane ∈ sc_lanes conf → is_Some (lc_lane_lock lane) →
     is_Some (ms_lane_locks (initialize_lane_locks conf s) !! lc_lane lane))
  ∧ ∀ k b, ms_lane_locks s !! k = Some b → ms_lane_locks (initialize_lane_locks conf s) !! k = Some b.
Proof.
  unfold initialize_lane_locks. generalize (sc_lanes conf). intros lanes. revert s.
  induction lanes as [|l lanes IH]; intros s; simpl.
  { split; [|done]. by intros lane ?%elem_of_nil. }
  destruct (IH (match lc_lane_lock l with
    | Some _ => set_lane_locks (or_insert (lc_lane l) fresh_lane_lock (ms_lane_locks s)) s
    | None => s end)) as [H1 H2]. split.
  - intros lane [->|Hin]%elem_of_cons Hr; [|by eapply H1]. destruct Hr as [x Hr]. rewrite Hr in H2 |- *.
    destruct (or_insert_some (lc_lane l) fresh_lane_lock (ms_lane_locks s)) as [b Hb].
    exists b. by apply H2.
  - intros k b Hb. apply H2. case_match; [by apply or_insert_keep|done].
Qed.

(** Start-up accepts a configuration exactly when every active task's lane and handler are in
    it; an accepted start gives every rate-limited lane a bucket and every locked lane a lock row,
    keeps the buckets and rows that were there, and leaves tasks, nodes, waits and schedules as
    they were; a refused start changes nothing. *)
Theorem initialize_accepts_configured_tasks conf now s r s' :
  ms_conf s = Some conf → initialize now s = (r, s') →
  (r = Ok tt ↔ tasks_configured conf (ms_tasks s)) ∧
  if is_ok r then
    (ms_tasks s', ms_nodes s', ms_waits s', ms_schedules s') = (ms_tasks s, ms_nodes s, ms_waits s, ms_schedules s)
    ∧ (∀ lane rate, lane ∈ sc_lanes conf → lc_global_rate lane = Some rate →
         is_Some (ms_rates s' !! lc_lane lane))
    ∧ (∀ lane, lane ∈ sc_lanes conf → is_Some (lc_lane_lock lane) →
         is_Some (ms_lane_locks s' !! lc_lane lane))
    ∧ (∀ k b, ms_rates s !! k = Some b → ms_rates s' !! k = Some b)
    ∧ (∀ k o, ms_lane_locks s !! k = Some o → ms_lane_locks s' !! k = Some o)
  else s' = s.
Proof.
  intros Hc H. unfold initialize in H. rewrite bindM_get, bindM_liftR, Hc in H. cbn [ok_or] in H.
  rewrite bindM_liftR in H. destruct (reject_orphaned_tasks _ _) as [[]|e] eqn:Hrej.
  2: { simplify_eq. split; [|done]. split; [done|]. rewrite <- reject_orphaned_ok. congruence. }
  set (s1 := initialize_lane_locks conf _) in H.
  assert (Hf : finalize_workflow [] [] now s1 = ((finalize_workflow [] [] now s1).1, s1)).
  { unfold finalize_workflow. simpl. f_equal. destruct s1. unfold set_tasks. simpl. by rewrite app_nil_r. }
  rewrite Hf in H. unfold modifyM in H. injection H as <- <-.
  split; [by rewrite reject_orphaned_ok in Hrej|]. simpl.
  destruct (initialize_parts conf now s) as (H1 & H2 & H3 & H4 & _). fold s1 in H1, H2, H3, H4.
  destruct (rates_filled conf now s) as [R1 R2].
  destruct (locks_filled conf (initialize_rates conf now s)) as [K1 K2].
  assert (Hr : ms_rates s1 = ms_rates (initialize_rates conf now s)).
  { unfold s1, initialize_lane_locks. rewrite (fold_left_keep ms_rates); [done|intros; by case_match]. }
  assert (Hk : ms_lane_locks (initialize_rates conf now s) = ms_lane_locks s).
  { unfold initialize_rates. rewrite (fold_left_keep ms_lane_locks); [done|intros; by case_match]. }
  rewrite H1, H2, H3, H4, Hr. split_and!; [done|done|exact K1|done|].
  intros k o Ho. apply K2. by rewrite Hk.
Qed.

(** Reassigning a lane is refused, with nothing changed, when the target lane is not configured
    or the source lane has running work; otherwise exactly its pending and suspended tasks move,
    ownerless and otherwise as they were, and the answer counts them. *)
Theorem reassign_lane_moves_waiting_tasks from to now s r s' :
  reassign_lane from to now s = (r, s') →
  match r with
  | Err e => s' = s ∧ (e = UnknownLane to ∧ is_ok (require_lane (ms_conf s) to) = false
      ∨ e = LaneBusy from ∧ ∃ t, t ∈ ms_tasks s ∧ t_lane t = from ∧ t_status t = Running)
  | Ok n =>
      s' = set_tasks (ms_tasks s') s
      ∧ (∀ t, t ∈ ms_tasks s → t_lane t = from → t_status t ≠ Running)
      ∧ n = zlen (List.filter (λ t, String.eqb (t_lane t) from && is_reassignable (t_status t)) (ms_tasks s))
      ∧ Forall2 (λ t t',
          if String.eqb (t_lane t) from && is_reassignable (t_status t)
          then t' = set_updated_at now (set_node_id None (set_lane to t)) else t' = t)
          (ms_tasks s) (ms_tasks s')
      ∧ (from ≠ to → ∀ t', t' ∈ ms_tasks s' → t_lane t' = from → is_terminal (t_status t') = true)
  end.
Proof.
  unfold reassign_lane. rewrite bindM_get, bindM_liftR. unfold require_lane at 1.
  destruct (match ms_conf s with Some _ => _ | None => _ end) eqn:Hconf.
  2: { intros [= <- <-]. split; [done|]. left. split; [done|]. unfold require_lane. by rewrite Hconf. }
  destruct (existsb _ _) eqn:Hbusy.
  { intros [= <- <-]. split; [done|]. right. split; [done|]. apply existsb_exists in Hbusy as (t & Hin & Ht).
    apply andb_prop in Ht as [Hl Hs]. apply String.eqb_eq in Hl. apply bool_decide_eq_true in Hs.
    exists t. by rewrite list_elem_of_In. }
  cbv zeta. rewrite bindM_modify. intros [= <- <-].
  assert (Hidle : ∀ t, t ∈ ms_tasks s → t_lane t = from → t_status t ≠ Running).
  { intros t Hin Hl Hs. rewrite <- not_true_iff_false, existsb_exists in Hbusy. apply Hbusy.
    exists t. rewrite <- list_elem_of_In. split; [done|]. by rewrite Hl, Hs, String.eqb_refl. }
  split_and!; [by destruct s|done|done| |].
  - apply Forall2_fmap_r, Forall_Forall2_diag, Forall_forall. intros t _.
    unfold compose. by destruct (String.eqb (t_lane t) from && is_reassignable (t_status t)).
  - simpl. intros Hne t' Hin Hl. apply list_elem_of_fmap in Hin as (t & -> & Hin).
    destruct (String.eqb (t_lane t) from && is_reassignable (t_status t)) eqn:Hm; simpl in Hl; [congruence|].
    specialize (Hidle t Hin Hl). rewrite Hl, String.eqb_refl in Hm. simpl in Hm.
    by destruct (t_status t).
Qed.

(** Resuming answers an invalid input with its error and an unknown, cancelled or not suspended
    task with [false], changing nothing; a suspended task becomes pending and ready now with exactly
    that input, and no other row changes. *)
Theorem resume_wakes_suspended_task id input now s r s' :
  resume id input now s = (r, s') →
  match validate_resume input with
  | Err e => r = Err e ∧ s' = s
  | Ok _ =>
      match find_task id (ms_tasks s) with
      | Some t =>
          if negb (t_cancelled t) && bool_decide (t_status t = Suspended)
          then ∃ i, r = Ok true ∧ ms_tasks s !! i = Some t
            ∧ s' = set_tasks (<[i := set_updated_at now (set_ready_at (Some now)
                     (set_resume_input (Some input) (set_status Pending t)))]> (ms_tasks s)) s
          else r = Ok false ∧ s' = s
      | None => r = Ok false ∧ s' = s
      end
  end.
Proof.
  unfold resume. rewrite bindM_liftR. destruct (validate_resume input) as [u|e]; [|by intros [= <- <-]].
  rewrite bindM_get. destruct (find_task id (ms_tasks s)) as [t|] eqn:Hf; [|unfold retM; by intros [= <- <-]].
  destruct (t_cancelled t); simpl; [unfold retM; by intros [= <- <-]|].
  destruct (bool_decide (t_status t = Suspended)); simpl; [|unfold retM; by intros [= <- <-]].
  rewrite bindM_modify. unfold retM. intros [= <- <-].
  assert (Hup : ∀ f l, find_task id l = Some t →
    ∃ i, l !! i = Some t ∧ update_first (has_id id) f l = <[i := f t]> l).
  { clear. intros f l. unfold find_task. induction l as [|x l IH]; simpl; [done|].
    destruct (has_id id x); [intros [= ->]; by exists 0%nat|].
    intros H. destruct (IH H) as (i & Hi & ->). by exists (S i). }
  destruct (Hup (λ t, set_updated_at now (set_ready_at (Some now)
    (set_resume_input (Some input) (set_status Pending t)))) _ Hf) as (i & Hi & ->). by exists i.
Qed.

Context (params : StoreParams).

(** A stored row of one of the expected snapshots, still this node's at the same attempt. *)
Definition current_row (node : Uuid) (expected : list TaskRecord) (s : MemoryState) (r : TaskRecord) :
    Prop :=
  r ∈ ms_tasks s ∧ t_node_id r = Some node ∧ t_status r = Running ∧ t_cancelled r = false
  ∧ ∃ e, e ∈ expected ∧ t_id r = t_id e ∧ t_attempts r = t_attempts e.
(** The cancellation of a stored row that is marked cancelled. *)
Definition cancels_row (s : MemoryState) (c : TaskCommit) : Prop :=
  ∃ r, c = CommitCancel (t_id r) ∧ r ∈ ms_tasks s ∧ t_cancelled r = true.

Lemma recover_tasks_lost node expected owner now s cancelled :
  lost_owner owner = true →
  (recover_tasks node expected owner now s cancelled).1.1 = []
  ∧ (recover_tasks node expected owner now s cancelled).2 = cancelled.
Proof.
  intros Hl. revert s cancelled. induction expected as [|e expected IH]; intros s c; simpl; [done|].
  rewrite Hl. case_match; apply IH.
Qed.

Lemma current_row_weaken node e expected s tasks :
  Forall (current_row node expected s) tasks → Forall (current_row node (e :: expected) s) tasks.
Proof.
  intros Hf. eapply Forall_impl; [exact Hf|]. intros r. unfold current_row.
  setoid_rewrite elem_of_cons. naive_solver.
Qed.

Lemma still_current_row node e expected s r :
  r ∈ ms_tasks s → still_current node e r = true → t_cancelled r = false →
  current_row node (e :: expected) s r.
Proof.
  intros Hin Hcur Hc. unfold still_current, has_id in Hcur.
  repeat (apply andb_prop in Hcur as [Hcur ?]). repeat match goal with
    | H : (_ =? _)%N = true |- _ => apply N.eqb_eq in H | H : (_ =? _) = true |- _ => apply Z.eqb_eq in H
    | H : bool_decide _ = true |- _ => apply bool_decide_eq_true in H end.
  split_and!; try done. exists e. split; [by left|done].
Qed.

Lemma recover_tasks_current node expected owner now s cancelled tasks s' cancelled' :
  lost_owner owner = false →
  recover_tasks node expected owner now s cancelled = (tasks, s', cancelled') →
  s' = s ∧ Forall (current_row node expected s) tasks
  ∧ ∃ more, cancelled' = cancelled ++ more ∧ Forall (cancels_row s) more.
Proof.
  intros Hl. revert s cancelled tasks s' cancelled'.
  induction expected as [|e expected IH]; intros s cancelled tasks s' c' H; simpl in H.
  { simplify_eq. split_and!; [done|constructor|]. exists []. by rewrite app_nil_r. }
  destruct (List.find (still_current node e) (ms_tasks s)) as [task|] eqn:Hf.
  2: { destruct (IH _ _ _ _ _ H) as (-> & Hts & Hm). by split_and!; [|apply current_row_weaken|]. }
  rewrite Hl in H. apply find_some in Hf as [Hin Hcur]. apply list_elem_of_In in Hin.
  destruct (t_cancelled task) eqn:Hcan.
  - destruct (IH _ _ _ _ _ H) as (-> & Hts & more & -> & Hm).
    split_and!; [done|by apply current_row_weaken|].
    exists (CommitCancel (t_id task) :: more). rewrite <- app_assoc. split; [done|].
    constructor; [by exists task|done].
  - destruct (recover_tasks node expected owner now s cancelled) as [[ts s1] c1] eqn:Hr.
    simplify_eq. destruct (IH _ _ _ _ _ Hr) as (-> & Hts & Hm). split_and!; [done| |done].
    constructor; [by apply still_current_row|by apply current_row_weaken].
Qed.

(** recovery after a lost acknowledgement publishes only snapshots that are still current: each
    recovered task is a stored row that is running on this node at the attempt the prepared poll
    recorded, without a new attempt charged, and is not cancelled; a cancelled one is queued for
    cancellation instead, and a lane whose lease was lost publishes none. *)
Theorem recovered_snapshots_are_current node claims prepared now lane s cancelled poll s' cancelled' :
  recover_one params node claims prepared now lane (s, cancelled) = (Ok poll, (s', cancelled')) →
  lp_lane poll = lp_lane lane
  ∧ (lost_owner (lp_owner poll) = true → lp_tasks poll = [])
  ∧ Forall (current_row node (lp_tasks lane) s') (lp_tasks poll)
  ∧ ∃ more, cancelled' = cancelled ++ more ∧ Forall (cancels_row s') more.
Proof.
  unfold recover_one. intros H. apply bindM_ok in H as (owner & p1 & H1 & H).
  apply bindM_ok in H as (u & p2 & H2 & H).
  assert (Hc : p2.2 = cancelled).
  { unfold zoomM in H1. destruct (recover_owner _ _ _ _ _ _ _) in H1. simplify_eq.
    destruct (lost_owner owner); [unfold zoomM, modifyM in H2|unfold retM in H2]; by simplify_eq. }
  destruct (recover_tasks _ _ _ _ _ _) as [[tasks s1] c1] eqn:Hr. simplify_eq. simpl.
  split; [done|]. destruct (lost_owner owner) eqn:Hl; (split; [|]).
  - intros _. by destruct (recover_tasks_lost node (lp_tasks lane) owner now p2.1 p2.2 Hl) as [Ht _];
      rewrite Hr in Ht.
  - destruct (recover_tasks_lost node (lp_tasks lane) owner now p2.1 p2.2 Hl) as [Ht Hcc].
    rewrite Hr in Ht, Hcc. simpl in Ht, Hcc. subst. split; [constructor|].
    exists []. by rewrite app_nil_r.
  - done.
  - by destruct (recover_tasks_current _ _ _ _ _ _ _ _ _ Hl Hr) as (-> & Hf & Hm).
Qed.
End Admin.

(** ** Instances *)

#[local] Existing Instances DemoExternals.externals DemoExternals.laws.

(** [node1] beats after [node2] was last heard of a minute ago. *)
Lemma heartbeat_retires_stale_nodes_witness :
  ∃ s', heartbeat node1 (from_secs 30) (from_secs 60)
      (register_node node2 0 (st_state claimed_state)).2 = (Ok true, s')
    ∧ ∃ registered, ms_nodes s' !! node1 = Some (registered, from_secs 60).
Proof.
  destruct (heartbeat node1 (from_secs 30) (from_secs 60)
      (register_node node2 0 (st_state claimed_state)).2) as [[b|e] s'] eqn:H; [|vm_compute in H; discriminate].
  assert (Hb : b = true) by (vm_compute in H; injection H as <- _; reflexivity). subst b.
  exists s'. split; [reflexivity|]. revert H.
  generalize (register_node node2 0 (st_state claimed_state)).2. intros s H.
  destruct (heartbeat_retires_stale_nodes node1 (from_secs 30) (from_secs 60) s true s' H)
    as (registered & last & _ & Hn & _).
  exists registered. exact Hn.
Defined.

Definition one_per_page : TaskFilter :=
  {| f_status := None; f_name := None; f_lane := None; f_idempotency_key := None;
     f_created_from := None; f_created_to := None; f_query := None; f_page := 1; f_per_page := 1 |}.

(** The two tasks of the demo, one per page. *)
Lemma pages_enumerate_matches_witness :
  ids (concat ((λ k, pg_items (list_tasks (with_page (S k) one_per_page) (st_state demo_state))) <$> seq 0 2))
  = [11%N; 10%N].
Proof.
  assert (Hl : ids (listing one_per_page (st_state demo_state)) = [11%N; 10%N]) by (vm_compute; reflexivity).
  assert (Hz : zlen (listing one_per_page (st_state demo_state)) ≤ I64_MAX) by (vm_compute; discriminate).
  revert Hl Hz. generalize (st_state demo_state). intros s Hl Hz.
  destruct (pages_enumerate_matches one_per_page s 2) as (_ & _ & Hp & _);
    [vm_compute; discriminate..|exact Hz|].
  rewrite Hp. destruct (listing one_per_page s) as [|x [|y [|z l]]]; try discriminate. exact Hl.
Defined.

(** The demo's tasks are all configured, so starting again succeeds. *)
Lemma initialize_accepts_configured_tasks_witness :
  ∃ s', initialize (from_secs 5) (st_state demo_state) = (Ok tt, s')
    ∧ ms_tasks s' = ms_tasks (st_state demo_state).
Proof.
  assert (Hc : ms_conf (st_state demo_state) = Some demo_conf) by (vm_compute; reflexivity).
  destruct (initialize (from_secs 5) (st_state demo_state)) as [[[]|e] s'] eqn:H; [|vm_compute in H; discriminate].
  exists s'. split; [reflexivity|]. revert Hc H. generalize (st_state demo_state). intros s Hc H.
  destruct (initialize_accepts_configured_tasks demo_conf (from_secs 5) s (Ok tt) s' Hc H) as [_ [Hs _]].
  injection Hs as Hs _ _ _. exact Hs.
Defined.

(** Both waiting tasks of the demo move to the mail lane. *)
Lemma reassign_lane_moves_waiting_tasks_witness :
  ∃ s', reassign_lane "default" "mail" (from_secs 5) (st_state demo_state) = (Ok 2, s')
    ∧ ∀ t', t' ∈ ms_tasks s' → t_lane t' = "default"%string → is_terminal (t_status t') = true.
Proof.
  destruct (reassign_lane "default" "mail" (from_secs 5) (st_state demo_state)) as [r s'] eqn:H.
  assert (Hr : r = Ok 2) by (vm_compute in H; injection H as <- _; reflexivity). subst r.
  exists s'. split; [reflexivity|]. revert H. generalize (st_state demo_state). intros s H.
  destruct (reassign_lane_moves_waiting_tasks "default" "mail" (from_secs 5) s (Ok 2) s' H)
    as (_ & _ & _ & _ & Hd).
  apply Hd. discriminate.
Defined.

(** Resuming the flow that waits for its children. *)
Lemma resume_wakes_suspended_task_witness :
  ∃ s', resume 10%N UNIT_RESULT (from_secs 5) (st_state joined_state) = (Ok true, s')
    ∧ ∃ i t, ms_tasks s' !! i = Some t ∧ t_status t = Pending ∧ t_resume_input t = Some UNIT_RESULT.
Proof.
  destruct (resume 10%N UNIT_RESULT (from_secs 5) (st_state joined_state)) as [r s'] eqn:H.
  assert (Hr : r = Ok true) by (vm_compute in H; injection H as <- _; reflexivity). subst r.
  exists s'. split; [reflexivity|].
  assert (Hf : ∃ t, find_task 10%N (ms_tasks (st_state joined_state)) = Some t
    ∧ t_cancelled t = false ∧ t_status t = Suspended) by (vm_compute; eexists; repeat split).
  assert (Hv : is_ok (validate_resume UNIT_RESULT) = true) by (vm_compute; reflexivity).
  revert Hf H. generalize (st_state joined_state). intros s (t & Hf & Hc & Hs) H.
  pose proof (resume_wakes_suspended_task 10%N UNIT_RESULT (from_secs 5) s (Ok true) s' H) as Hres.
  destruct (validate_resume UNIT_RESULT); [|discriminate]. rewrite Hf, Hc, Hs in Hres.
  destruct Hres as (i & _ & Hi & ->). exists i. eexists.
  split; [apply list_lookup_insert_eq; eapply lookup_lt_Some; exact Hi|split; reflexivity].
Defined.

(** The poll of the demo's claim is recovered while both tasks run. *)
Definition prepared_lane (s : StoreState) : LanePoll :=
  {| lp_lane := "default"; lp_tasks := st_tasks s; lp_reclaimed := 0; lp_saturated := false;
     lp_next_wake_in := None; lp_owner := None |}%string.

Lemma recovered_snapshots_are_current_witness :
  ∃ poll s' c', recover_one demo_params node1 [demo_claim "default" 8] empty_poll (from_secs 2)
      (prepared_lane claimed_state) (st_state claimed_state, []) = (Ok poll, (s', c'))
    ∧ length (lp_tasks poll) = 2%nat
    ∧ Forall (current_row node1 (st_tasks claimed_state) s') (lp_tasks poll).
Proof.
  destruct (recover_one demo_params node1 [demo_claim "default" 8] empty_poll (from_secs 2)
      (prepared_lane claimed_state) (st_state claimed_state, [])) as [[poll|e] [s' c']] eqn:H;
    [|vm_compute in H; discriminate].
  assert (Hlen : length (lp_tasks poll) = 2%nat) by (vm_compute in H; injection H as <- _; reflexivity).
  exists poll, s', c'. split; [reflexivity|]. split; [exact Hlen|].
  revert H. generalize claimed_state. intros s H.
  destruct (recovered_snapshots_are_current demo_params node1 [demo_claim "default" 8] empty_poll
    (from_secs 2) (prepared_lane s) (st_state s) [] poll s' c' H) as (_ & _ & Hf & _).
  exact Hf.
Defined.
