(* ===== verification/ValueTheorems.v ===== *)
(** * Values: encodings, truncation, normalization and the budget of a turn *)
From S2P Require Import Prelude Externals Failure Config Models Transitions Lifecycle.
From S2P Require Import StoreSpec.
#[local] Open Scope Z_scope.

(** ** Truncation at character boundaries *)

Lemma get_substring s e i :
  (i < e)%nat → String.get i (String.substring 0 e s) = String.get i s.
Proof.
  revert e i. induction s as [|c s IH]; intros [|e] [|i] Hi; try lia; simpl; try done.
  apply IH. lia.
Qed.

Lemma substring_substring s d e :
  (d ≤ e)%nat → String.substring 0 d (String.substring 0 e s) = String.substring 0 d s.
Proof.
  revert d e. induction s as [|c s IH]; intros [|d] [|e] Hd; try lia; simpl; try done.
  f_equal. apply IH. lia.
Qed.

(** A boundary of a text cut at a boundary is a boundary of the text. *)
Lemma boundary_substring s d e :
  (e ≤ String.length s)%nat → (d ≤ e)%nat → is_char_boundary s e = true →
  is_char_boundary (truncate s e) d = true → is_char_boundary s d = true.
Proof.
  intros He Hd Hb. unfold truncate. destruct (decide (d = e)) as [->|Hne]; [done|].
  unfold is_char_boundary. destruct d as [|d]; [done|]. rewrite get_substring by lia.
  destruct (String.get (S d) s) eqn:Hg; [done|]. rewrite substring_length. intros Hl.
  apply Nat.eqb_eq in Hl. lia.
Qed.

(** [t] is the text [s] cut at a character boundary. *)
Definition cut_of (s t : string) : Prop :=
  ∃ e, (e ≤ String.length s)%nat ∧ is_char_boundary s e = true ∧ t = truncate s e.

Lemma truncate_full s : truncate s (String.length s) = s.
Proof. unfold truncate. induction s as [|c s IH]; [done|]. simpl. by rewrite IH. Qed.

Lemma boundary_end s : is_char_boundary s (String.length s) = true.
Proof.
  unfold is_char_boundary. destruct (String.length s) as [|n] eqn:Hl; [done|].
  assert (Hg : String.get (S n) s = None).
  { rewrite <- Hl. clear. induction s as [|c s IH]; [done|]. simpl. done. }
  rewrite Hg. by apply Nat.eqb_refl.
Qed.

Lemma cut_of_refl s : cut_of s s.
Proof. exists (String.length s). split_and!; [done|apply boundary_end|by rewrite truncate_full]. Qed.

Lemma cut_of_trans s t u : cut_of s t → cut_of t u → cut_of s u.
Proof.
  intros (e & He & Hb & ->) (d & Hd & Hbd & ->). assert (Hlen := He).
  unfold truncate in Hd. rewrite substring_length in Hd. exists d. split_and!; [lia| |].
  - eapply boundary_substring; [exact He|lia|done|done].
  - unfold truncate. apply substring_substring. lia.
Qed.

Lemma cut_back s n : (n ≤ String.length s)%nat → cut_of s (truncate s (back_to_boundary s n)).
Proof.
  intros Hn. pose proof (back_to_boundary_le s n). exists (back_to_boundary s n).
  split_and!; [lia|apply back_to_boundary_boundary|done].
Qed.

Section Values.
Context `{X : Externals, L : !ExternalLaws X}.

(** Truncating a text to a limit keeps it when it fits, and otherwise gives its longest cut
    at a character boundary that fits: the result is within the limit, is the text up to such a
    boundary, and no boundary between the cut and the limit exists. *)
Theorem truncate_utf8_longest_cut value limit :
  0 ≤ limit →
  str_len (truncate_utf8 value limit) ≤ limit
  ∧ cut_of value (truncate_utf8 value limit)
  ∧ ∀ i, str_len (truncate_utf8 value limit) < Z.of_nat i ≤ limit →
      (i ≤ String.length value)%nat → is_char_boundary value i = false ∨ truncate_utf8 value limit = value.
Proof.
  intros Hl. split; [by apply truncate_utf8_len|]. unfold truncate_utf8.
  destruct (str_len value <=? limit) eqn:Hf.
  - split; [apply cut_of_refl|]. by right.
  - apply Z.leb_gt in Hf. unfold str_len in Hf. split; [apply cut_back; lia|].
    pose proof (back_to_boundary_le value (Z.to_nat limit)).
    intros i Hi Hlen. left. apply (back_to_boundary_max value (Z.to_nat limit)).
    rewrite truncate_len in Hi by lia. lia.
Qed.

Lemma failure_step_cut id message message' :
  failure_step id message = inr message' → cut_of message message'.
Proof.
  unfold failure_step. case_match; [done|]. intros [= <-]. apply cut_back.
  set (q := (str_len (failure_envelope id message) - RESULT_LIMIT + 5) / 6).
  assert (0 ≤ q) by (apply Z.div_pos; [apply Z.leb_gt in H; lia|lia]).
  unfold str_len. lia.
Qed.

Lemma failure_loop_cut fuel id message r :
  failure_loop fuel id message = Some r → ∃ m, cut_of message m ∧ r = failure_envelope id m.
Proof.
  revert message. induction fuel as [|fuel IH]; intros message; [done|]. cbn [failure_loop].
  destruct (failure_step id message) as [r'|m'] eqn:Hs.
  - intros [= ->]. exists message. split; [apply cut_of_refl|].
    unfold failure_step in Hs. by case_match; simplify_eq.
  - intros Hr. apply IH in Hr as (m & Hc & ->). exists m. split; [|done].
    eapply cut_of_trans; [by eapply failure_step_cut|done].
Qed.

(** Encoding a failure always ends, within the 32768-byte limit whatever the message, with the
    envelope of that task and the message cut at a character boundary; a message whose envelope
    fits is not shortened. *)
Theorem failure_encoding_bounded id message :
  is_Some (failure_loop (S (String.length message)) id message)
  ∧ str_len (failure id message) ≤ RESULT_LIMIT
  ∧ (∃ m, cut_of message m ∧ failure id message = failure_envelope id m)
  ∧ (str_len (failure_envelope id message) ≤ RESULT_LIMIT →
     failure id message = failure_envelope id message).
Proof.
  assert (Ht := failure_loop_terminates (S (String.length message)) id message (Nat.lt_succ_diag_r _)).
  split_and!; [done|apply failure_len| |].
  - unfold failure. destruct Ht as [r Hr]. rewrite Hr. cbn [default from_option]. by eapply failure_loop_cut.
  - intros Hf. unfold failure. cbn [failure_loop]. unfold failure_step.
    by rewrite (proj2 (Z.leb_le _ _) Hf).
Qed.

(** The size of the text an outcome carries. *)
Definition state_fits (payload_limit : Z) (outcome : TaskOutcome) : Prop :=
  match outcome with
  | OutAll state _ | OutSpawn state _ | OutSuspend state => str_len state ≤ payload_limit
  | OutSleep state delay => str_len state ≤ payload_limit ∧ delay ≤ MAX_TASK_DELAY
  | OutCompleteWith output => is_ok (validate_output output) = true
  | _ => True
  end.
Definition error_fits (error_limit : Z) (outcome : TaskOutcome) : Prop :=
  match outcome with
  | OutRetry error | OutFail error => str_len error ≤ error_limit
  | _ => True
  end.

(** An outcome is within the configured limits after normalization: its continuation state,
    sleep and output are valid, and its error is within the error limit, or it was replaced by one
    of the three fixed failures; an outcome within the limits is kept, and normalizing twice with
    limits that admit the fixed texts changes nothing more. *)
Theorem normalized_outcome_within_limits outcome payload_limit error_limit :
  0 ≤ error_limit →
  let result := normalize_outcome outcome payload_limit error_limit in
  state_fits payload_limit result
  ∧ (error_fits error_limit result ∨ ¬ state_fits payload_limit outcome ∧ ∃ e, result = OutFail e)
  ∧ (state_fits payload_limit outcome → error_fits error_limit outcome → result = outcome)
  ∧ (80 ≤ error_limit → normalize_outcome result payload_limit error_limit = result).
Proof.
  intros He. cbv zeta.
  assert (Hkeep : ∀ e, str_len e ≤ error_limit → truncate_utf8 e error_limit = e).
  { intros e Hle. unfold truncate_utf8. by rewrite (proj2 (Z.leb_le _ _) Hle). }
  assert (Hcut := truncate_utf8_len).
  destruct outcome as [st ch| |out|st ch|st|st d|e|e]; simpl.
  all: try (destruct (payload_limit <? str_len st) eqn:Hp;
    [apply Z.ltb_lt in Hp|apply Z.ltb_ge in Hp]).
  all: try (destruct (MAX_TASK_DELAY <? d) eqn:Hd; [apply Z.ltb_lt in Hd|apply Z.ltb_ge in Hd]).
  all: try destruct (is_ok (validate_output out)) eqn:Ho.
  all: simpl; rewrite ?Ho, ?(proj2 (Z.ltb_ge _ _) Hp), ?(proj2 (Z.ltb_ge _ _) Hd).
  all: split_and!; try done; try lia; auto.
  all: try (intros; f_equal; apply Hkeep; try done; by apply Hcut).
  all: try (right; split; [lia || congruence|by eexists]).
  all: try (intros H80; rewrite Hkeep; [done|vm_compute in H80 |- *]; lia).
  all: try (intros H80; unfold outcome_fail; simpl; f_equal; apply Hkeep;
    match goal with |- str_len ?t ≤ _ => let v := eval vm_compute in (str_len t) in change (str_len t) with v end; lia).
  all: try (intros; lia). all: congruence.
Qed.
End Values.

(** ** Persisted codes *)

(** The discriminants [LaneOwnerPhase] is cast to. *)
Definition phase_code (p : LaneOwnerPhase) : Z :=
  match p with Active => 0 | Idling => 1 | Idle => 2 | Busying => 3 | IdleFailed => 4 | BusyFailed => 5 end.

(** the integer codes of statuses, kinds and lane phases are read back as they were written,
    distinct values have distinct codes, and every other integer is refused. *)
Theorem persisted_codes_roundtrip value :
  (∀ s, status_from_i16 value = Ok s ↔ value = status_as_i16 s)
  ∧ (∀ k, kind_from_i16 value = Ok k ↔ value = kind_as_i16 k)
  ∧ (∀ p, phase_from_i16 value = Ok p ↔ value = phase_code p).
Proof.
  split_and!; intros x; (split; [|intros ->; by destruct x]);
    unfold status_from_i16, kind_from_i16, phase_from_i16; intros Hv;
    repeat (case_match; simplify_eq; try done).
Qed.

(** ** The budget of a turn *)

Definition turn_weight (commits : list TaskCommit) : Z :=
  foldr (λ c w, commit_weight c + w) 0 commits.

Lemma commit_weight_nonneg c : 0 ≤ commit_weight c.
Proof.
  unfold commit_weight, weight, usize_saturating. destruct (commit_outcome c) as [[]|]; simpl; lia.
Qed.

Lemma turn_weight_nonneg commits : 0 ≤ turn_weight commits.
Proof. induction commits as [|c commits IH]; simpl; [lia|]. pose proof (commit_weight_nonneg c). lia. Qed.

(** The checked sum is the sum, or nothing once it leaves [usize]. *)
Lemma total_weight_spec commits sum :
  0 ≤ sum ≤ USIZE_MAX →
  total_weight sum commits =
    if sum + turn_weight commits <=? USIZE_MAX then Some (sum + turn_weight commits) else None.
Proof.
  revert sum. induction commits as [|c commits IH]; intros sum Hs; simpl.
  { rewrite Z.add_0_r. by rewrite (proj2 (Z.leb_le _ _)) by lia. }
  pose proof (commit_weight_nonneg c). pose proof (turn_weight_nonneg commits).
  unfold usize_checked_add. destruct (sum + commit_weight c <=? USIZE_MAX) eqn:Hc; simpl.
  - apply Z.leb_le in Hc. rewrite IH by lia. by rewrite Z.add_assoc.
  - apply Z.leb_gt in Hc. by rewrite (proj2 (Z.leb_gt _ _)) by lia.
Qed.

(** A turn without a join is always admitted; a turn with one is admitted exactly when it has no
    more commits than the batch size and its total weight, a join counting its children and itself,
    is within the larger of the batch size and one maximal join, which the sum decides without
    overflowing; otherwise it is refused as a whole. *)
Theorem turn_budget_exact commits batch maximum :
  0 ≤ batch ≤ USIZE_MAX → 0 ≤ maximum →
  (validate_turn commits batch maximum = Ok tt ↔
     (∀ c, c ∈ commits → is_all (commit_outcome c) = false)
     ∨ zlen commits ≤ batch ∧ turn_weight commits ≤ Z.max batch (Z.min USIZE_MAX (maximum + 1)))
  ∧ (is_ok (validate_turn commits batch maximum) = false →
     validate_turn commits batch maximum = Err (InvalidOptions "Expanded all flush exceeds its budget")).
Proof.
  intros Hb Hm. unfold validate_turn, reject_if.
  assert (Hsat : usize_saturating (maximum + 1) = Z.min USIZE_MAX (maximum + 1))
    by (unfold usize_saturating, USIZE_MAX; lia).
  rewrite Hsat, total_weight_spec by (unfold USIZE_MAX; lia). rewrite Z.add_0_l.
  destruct (existsb _ commits) eqn:He; simpl.
  - apply existsb_exists in He as (c & Hin & Hc). apply list_elem_of_In in Hin. split.
    2: { case_match; done. }
    set (budget := Z.max batch (Z.min USIZE_MAX (maximum + 1))).
    assert (Hbud : budget ≤ USIZE_MAX) by (unfold budget; lia).
    destruct (batch <? zlen commits) eqn:Hlen; simpl; [apply Z.ltb_lt in Hlen|apply Z.ltb_ge in Hlen].
    { split; [done|]. intros [Hno|[? _]]; [by rewrite Hno in Hc|lia]. }
    destruct (turn_weight commits <=? USIZE_MAX) eqn:Hw; [apply Z.leb_le in Hw|apply Z.leb_gt in Hw].
    + destruct (budget <? turn_weight commits) eqn:Hx; [apply Z.ltb_lt in Hx|apply Z.ltb_ge in Hx].
      * split; [done|]. intros [Hno|[_ ?]]; [by rewrite Hno in Hc|lia].
      * split; [intros _; right; split; lia|done].
    + split; [done|]. intros [Hno|[_ ?]]; [by rewrite Hno in Hc|lia].
  - split; [|done]. split; [intros _; left|done]. intros c Hin. apply not_true_iff_false. intros Hc.
    rewrite <- not_true_iff_false, existsb_exists in He. apply He. exists c. by rewrite <- list_elem_of_In.
Qed.

(** ** Instances *)

#[local] Existing Instances DemoExternals.externals DemoExternals.laws.

Lemma truncate_utf8_longest_cut_witness : str_len (truncate_utf8 "abcdef" 4) ≤ 4.
Proof. exact (proj1 (truncate_utf8_longest_cut "abcdef" 4 ltac:(lia))). Defined.

Lemma normalized_outcome_within_limits_witness :
  state_fits 3 (normalize_outcome (OutSuspend "state") 3 100).
Proof. exact (proj1 (normalized_outcome_within_limits (OutSuspend "state") 3 100 ltac:(lia))). Defined.

Lemma turn_budget_exact_witness : validate_turn [all_commit; done_commit] 16 8 = Ok tt.
Proof.
  apply (proj1 (turn_budget_exact [all_commit; done_commit] 16 8
    ltac:(vm_compute; split; discriminate) ltac:(lia))).
  right. vm_compute. split; discriminate.
Defined.

Lemma failure_encoding_bounded_witness : failure 10%N "boom" = failure_envelope 10%N "boom".
Proof.
  apply (proj2 (proj2 (proj2 (failure_encoding_bounded 10%N "boom")))). vm_compute. discriminate.
Defined.
