(* ===== verification/Json.v ===== *)
(** * Canonical JSON ([tasks/submission.rs])

    A [serde_json::Value] with the workspace's [preserve_order] feature: the
    members of an object are in insertion order and their keys are distinct.
    [canonical_value] orders the members of every object by key, so that
    inputs which differ only in member order have one text. *)
From S2P Require Import Prelude Externals Lifecycle.
#[local] Open Scope Z_scope.

Inductive Json :=
  | JNull
  | JBool (b : bool)
  (** A number by its text. *)
  | JNumber (text : string)
  | JString (s : string)
  | JArray (values : list Json)
  | JObject (members : list (string * Json)).

(** [str]'s [Ord]: the bytes, lexicographically. *)
Definition str_le : string → string → bool := String.leb.

(** The members are sorted after their values are canonical instead of before; sorting looks at
    the keys only. *)
Fixpoint canonical_value (value : Json) : Json :=
  match value with
  | JArray values => JArray (List.map canonical_value values)
  | JObject members =>
      JObject (sort_by_key str_le fst (List.map (λ m, (m.1, canonical_value m.2)) members))
  | other => other
  end.

(** ** Induction through arrays and objects *)

Section JsonInd.
Context (P : Json → Prop).
Context (Hnull : P JNull) (Hbool : ∀ b, P (JBool b)) (Hnum : ∀ s, P (JNumber s))
  (Hstr : ∀ s, P (JString s)) (Harr : ∀ l, Forall P l → P (JArray l))
  (Hobj : ∀ m, Forall (λ p, P p.2) m → P (JObject m)).

Fixpoint json_nested_ind (v : Json) : P v :=
  match v with
  | JNull => Hnull
  | JBool b => Hbool b
  | JNumber s => Hnum s
  | JString s => Hstr s
  | JArray l => Harr l ((fix go l : Forall P l :=
      match l with [] => Forall_nil_2 _ | x :: l => Forall_cons_2 _ _ _ (json_nested_ind x) (go l) end) l)
  | JObject m => Hobj m ((fix go m : Forall (λ p, P p.2) m :=
      match m with [] => Forall_nil_2 _ | x :: m => Forall_cons_2 _ _ _ (json_nested_ind x.2) (go m) end) m)
  end.
End JsonInd.

(** ** The specification *)

(** What [serde_json] guarantees of a value: the keys of an object are distinct. *)
Inductive json_wf : Json → Prop :=
  | wf_null : json_wf JNull
  | wf_bool b : json_wf (JBool b)
  | wf_number s : json_wf (JNumber s)
  | wf_string s : json_wf (JString s)
  | wf_array l : Forall json_wf l → json_wf (JArray l)
  | wf_object m : NoDup m.*1 → Forall (λ p, json_wf p.2) m → json_wf (JObject m).

(** The same JSON value, whatever the order of the members of its objects. *)
Inductive same_json : Json → Json → Prop :=
  | same_refl v : same_json v v
  | same_array l l' : Forall2 same_json l l' → same_json (JArray l) (JArray l')
  | same_object m m' m'' :
      m ≡ₚ m' → Forall2 (λ p q, p.1 = q.1 ∧ same_json p.2 q.2) m' m'' →
      same_json (JObject m) (JObject m'').

(** ** Order on keys *)

Lemma ascii_compare_le a b : Ascii.compare a b ≠ Gt ↔ (Ascii.N_of_ascii a <= Ascii.N_of_ascii b)%N.
Proof. unfold Ascii.compare. apply N.compare_le_iff. Qed.

Lemma str_le_cons a s b t :
  str_le (String a s) (String b t) = true ↔
  (Ascii.N_of_ascii a < Ascii.N_of_ascii b)%N ∨ a = b ∧ str_le s t = true.
Proof.
  unfold str_le, String.leb. simpl. destruct (Ascii.compare a b) eqn:Hc.
  - apply Ascii.compare_eq_iff in Hc as ->. split; [by right|]. intros [?|[_ ?]]; [lia|done].
  - split; [|done]. intros _. left. by apply N.compare_lt_iff.
  - split; [done|]. unfold Ascii.compare in Hc. apply N.compare_gt_iff in Hc.
    intros [?|[-> _]]; lia.
Qed.

Lemma str_le_trans s t u : str_le s t = true → str_le t u = true → str_le s u = true.
Proof.
  revert t u. induction s as [|a s IH]; intros [|b t] [|c u] H1 H2; try done.
  apply str_le_cons in H1, H2. apply str_le_cons.
  destruct H1 as [?|[-> ?]], H2 as [?|[-> ?]]; [left; lia|by left|by left|right; eauto].
Qed.

(** Sorting by key is determined by the members alone when the keys are distinct. *)
Lemma sorted_members_unique (m m' : list (string * Json)) :
  m ≡ₚ m' → NoDup m.*1 → sort_by_key str_le fst m = sort_by_key str_le fst m'.
Proof.
  intros Hp Hn.
  assert (Hs : ∀ m : list (string * Json), ordered str_le fst (sort_by_key str_le fst m)).
  { intros l. apply sort_by_key_ordered; [apply String.leb_total|apply str_le_trans]. }
  eapply StronglySorted_unique_strong; [|apply Hs|apply Hs|].
  2: by rewrite !sort_by_key_perm.
  intros [k v] [k' v'] Hx Hy H1 H2. simpl in H1, H2.
  assert (k = k') as -> by (by apply String.leb_antisym).
  rewrite !sort_by_key_perm in Hx, Hy. rewrite <- Hp in Hy.
  apply list_elem_of_lookup in Hx as [i Hx], Hy as [j Hy].
  assert (i = j) as ->; [|congruence].
  apply (NoDup_lookup m.*1 _ _ k'); [done|by rewrite list_lookup_fmap, Hx|by rewrite list_lookup_fmap, Hy].
Qed.

(** ** The canonical form *)

Lemma canonical_members_keys (m : list (string * Json)) :
  (List.map (λ p, (p.1, canonical_value p.2)) m).*1 = m.*1.
Proof. induction m as [|p m IH]; simpl; [done|]. by f_equal. Qed.

Lemma same_canonical v : same_json v (canonical_value v).
Proof.
  induction v as [| | | |l IH|m IH] using json_nested_ind; try constructor.
  - apply Forall2_fmap_r, Forall_Forall2_diag. exact IH.
  - simpl. set (f := λ p : string * Json, (p.1, canonical_value p.2)).
    assert (Hp : List.map f m ≡ₚ sort_by_key str_le fst (List.map f m)) by (by rewrite sort_by_key_perm).
    apply Permutation_sym in Hp. apply Permutation_map_inv in Hp as (m' & Hm & Hp).
    rewrite Hm. apply (same_object _ m'); [exact Hp|].
    apply Forall2_fmap_r, Forall_Forall2_diag.
    rewrite Hp in IH. eapply Forall_impl; [exact IH|]. by split.
Qed.

Lemma canonical_respects_same v w : json_wf v → same_json v w → canonical_value v = canonical_value w.
Proof.
  revert w. induction v as [| | | |l IH|m IH] using json_nested_ind; intros w Hwf Hs;
    inversion Hs as [|l0 l' Hl|m0 m' m'' Hp Hm]; subst; try done; simpl; f_equal.
  - inversion Hwf as [| | | |l0 Hwl|]; subst. clear Hs Hwf. revert Hwl IH.
    induction Hl as [|x y l l' Hx _ IHl]; intros Hwl IH; simpl; [done|].
    apply Forall_cons in Hwl as [? ?], IH as [Hxy ?]. f_equal; auto.
  - inversion Hwf as [| | | | |m0 Hn Hwm]; subst. rewrite Hp in IH, Hwm.
    transitivity (sort_by_key str_le fst (List.map (λ p, (p.1, canonical_value p.2)) m')).
    + apply sorted_members_unique; [by apply Permutation_map|by rewrite canonical_members_keys].
    + f_equal. clear Hp Hs Hwf. revert IH Hwm. induction Hm as [|p q m' m'' [Hk Hx] _ IHm];
        intros IH Hwm; simpl; [done|].
      apply Forall_cons in Hwm as [? ?], IH as [? ?]. f_equal; [f_equal; auto|auto].
Qed.

Lemma canonical_wf v : json_wf v → json_wf (canonical_value v).
Proof.
  induction v as [| | | |l IH|m IH] using json_nested_ind; intros Hwf; try done; simpl; constructor.
  - inversion Hwf as [| | | |l0 Hwl|]; subst. apply Forall_fmap.
    apply Forall_forall. intros x Hx. rewrite Forall_forall in IH, Hwl. simpl. auto.
  - inversion Hwf as [| | | | |m0 Hn Hwm]; subst.
    rewrite sort_by_key_perm. fold (fmap (M:=list) (fst (A:=string) (B:=Json))). by rewrite canonical_members_keys.
  - inversion Hwf as [| | | | |m0 Hn Hwm]; subst. rewrite sort_by_key_perm.
    apply Forall_fmap. apply Forall_forall. intros x Hx. rewrite Forall_forall in IH, Hwm. simpl. auto.
Qed.

(** ** Sameness is an equivalence, and the canonical form decides it *)

Lemma Forall2_permuted_r {A B} (R : A → B → Prop) l k k' :
  Forall2 R l k → k ≡ₚ k' → ∃ l', l ≡ₚ l' ∧ Forall2 R l' k'.
Proof.
  intros HF Hp. apply Forall2_flip in HF.
  destruct (Permutation_Forall2 (P:=flip R) Hp HF) as (l' & Hl & HF').
  exists l'. split; [done|]. by apply Forall2_flip.
Qed.

Lemma same_json_sym v w : same_json v w → same_json w v.
Proof.
  revert w. induction v as [| | | |l IH|m IH] using json_nested_ind; intros w Hs;
    inversion Hs as [|l0 l' Hl|m0 m' m'' Hp Hm]; subst; try constructor.
  - clear Hs. revert IH. induction Hl as [|x y l l' Hx Hl IHl]; intros IH; constructor;
      apply Forall_cons in IH as [? ?]; auto.
  - rewrite Hp in IH.
    assert (Hm' : Forall2 (λ p q, p.1 = q.1 ∧ same_json p.2 q.2) m'' m').
    { clear Hp Hs. revert IH. induction Hm as [|p q m' m'' [Hk Hx] Hm IHm]; intros IH; constructor;
        apply Forall_cons in IH as [? ?]; auto. }
    apply Permutation_sym in Hp. eapply Forall2_permuted_r in Hm' as (n & Hn & HF); [|exact Hp].
    by eapply same_object.
Qed.

Lemma same_json_trans v w u : same_json v w → same_json w u → same_json v u.
Proof.
  revert w u. induction v as [| | | |l IH|m IH] using json_nested_ind; intros w u H1 H2;
    inversion H1 as [|l0 l' Hl|m0 m' m'' Hp Hm]; subst; try exact H2;
    inversion H2 as [|l0 k Hk|m0 n' n'' Hn Hm2]; subst; try exact H1; constructor || idtac.
  - clear H1 H2. revert k Hk IH. induction Hl as [|x y l l' Hx Hl IHl]; intros k Hk IH;
      inversion Hk; subst; constructor; apply Forall_cons in IH as [? ?]; eauto.
  - destruct (Forall2_permuted_r _ _ _ _ Hm Hn) as (p & Hmp & HF).
    apply (same_object _ p); [by rewrite Hp|]. rewrite Hp, Hmp in IH. clear H1 H2 Hp Hm Hn Hmp.
    revert n'' Hm2 IH. induction HF as [|x y p n' [Hk Hx] HF IHF]; intros n'' Hm2 IH;
      inversion Hm2 as [|? z ? ? [Hk' Hy]]; subst; constructor; apply Forall_cons in IH as [? ?]; eauto.
    split; [congruence|eauto].
Qed.

(** Two values have one canonical form exactly when they differ only in member order. *)
Lemma canonical_iff_same v w : json_wf v → canonical_value v = canonical_value w ↔ same_json v w.
Proof.
  intros Hv. split; [|by apply canonical_respects_same]. intros He.
  eapply same_json_trans; [apply same_canonical|]. rewrite He. apply same_json_sym, same_canonical.
Qed.
