(* ===== verification/Metrics.v ===== *)
(** * Runtime counters ([tasks/metrics.rs])

    Counters are [AtomicU64]s in vectors indexed through a sorted name table;
    an index outside a vector would panic, which is the error of these bodies.
    [fetch_add] wraps at 64 bits. The text the counters are rendered to is not
    modelled, its label escaping ([escape]) is. *)
From S2P Require Import Prelude Externals Failure Config Models Lifecycle Json.
#[local] Open Scope Z_scope.

(** The one way a counter can fail. *)
Inductive Panic := IndexOutOfBounds.

(** A [BTreeMap<String, usize>]: in key order. *)
Abbreviation Indexes := (list (string * nat)) (only parsing).

Record Timing := { tm_count : Z; tm_total : Z }.

Record TaskMetrics := {
  mx_handlers : Indexes;
  mx_lanes : Indexes;
  mx_submissions : list (list Z);
  mx_starts : list Z;
  mx_batch_invocations : list Z;
  mx_batch_items : list Z;
  mx_outcomes : list (list Z);
  mx_claims : list Z;
  mx_reclaimed : list Z;
  mx_idempotency_conflicts : list Z;
  mx_ownership_acquires : list Z;
  mx_ownership_takeovers : list Z;
  mx_lane_owner_losses : list Z;
  mx_stale_hook_results : list Z;
  mx_lifecycle_transitions : list (list Z);
  mx_hook_starts : list (list Z);
  mx_hook_failures : list (list Z);
  mx_queue_micros : Timing;
  mx_handler_micros : Timing;
  mx_hook_micros : Timing;
  mx_commit_micros : Timing;
  mx_store_failures : Z;
  mx_heartbeat_successes : Z;
  mx_heartbeat_failures : Z;
  mx_heartbeat_micros : Timing;
}.

Definition mset_submissions (v : list (list Z)) (m : TaskMetrics) : TaskMetrics :=
  {| mx_handlers := mx_handlers m; mx_lanes := mx_lanes m; mx_submissions := v; mx_starts :=
     mx_starts m; mx_batch_invocations := mx_batch_invocations m; mx_batch_items :=
     mx_batch_items m; mx_outcomes := mx_outcomes m; mx_claims := mx_claims m; mx_reclaimed :=
     mx_reclaimed m; mx_idempotency_conflicts := mx_idempotency_conflicts m;
     mx_ownership_acquires := mx_ownership_acquires m; mx_ownership_takeovers :=
     mx_ownership_takeovers m; mx_lane_owner_losses := mx_lane_owner_losses m;
     mx_stale_hook_results := mx_stale_hook_results m; mx_lifecycle_transitions :=
     mx_lifecycle_transitions m; mx_hook_starts := mx_hook_starts m; mx_hook_failures :=
     mx_hook_failures m; mx_queue_micros := mx_queue_micros m; mx_handler_micros :=
     mx_handler_micros m; mx_hook_micros := mx_hook_micros m; mx_commit_micros :=
     mx_commit_micros m; mx_store_failures := mx_store_failures m; mx_heartbeat_successes :=
     mx_heartbeat_successes m; mx_heartbeat_failures := mx_heartbeat_failures m;
     mx_heartbeat_micros := mx_heartbeat_micros m |}.
Definition mset_starts (v : list Z) (m : TaskMetrics) : TaskMetrics :=
  {| mx_handlers := mx_handlers m; mx_lanes := mx_lanes m; mx_submissions := mx_submissions m;
     mx_starts := v; mx_batch_invocations := mx_batch_invocations m; mx_batch_items :=
     mx_batch_items m; mx_outcomes := mx_outcomes m; mx_claims := mx_claims m; mx_reclaimed :=
     mx_reclaimed m; mx_idempotency_conflicts := mx_idempotency_conflicts m;
     mx_ownership_acquires := mx_ownership_acquires m; mx_ownership_takeovers :=
     mx_ownership_takeovers m; mx_lane_owner_losses := mx_lane_owner_losses m;
     mx_stale_hook_results := mx_stale_hook_results m; mx_lifecycle_transitions :=
     mx_lifecycle_transitions m; mx_hook_starts := mx_hook_starts m; mx_hook_failures :=
     mx_hook_failures m; mx_queue_micros := mx_queue_micros m; mx_handler_micros :=
     mx_handler_micros m; mx_hook_micros := mx_hook_micros m; mx_commit_micros :=
     mx_commit_micros m; mx_store_failures := mx_store_failures m; mx_heartbeat_successes :=
     mx_heartbeat_successes m; mx_heartbeat_failures := mx_heartbeat_failures m;
     mx_heartbeat_micros := mx_heartbeat_micros m |}.
Definition mset_batch_invocations (v : list Z) (m : TaskMetrics) : TaskMetrics :=
  {| mx_handlers := mx_handlers m; mx_lanes := mx_lanes m; mx_submissions := mx_submissions m;
     mx_starts := mx_starts m; mx_batch_invocations := v; mx_batch_items := mx_batch_items m;
     mx_outcomes := mx_outcomes m; mx_claims := mx_claims m; mx_reclaimed := mx_reclaimed m;
     mx_idempotency_conflicts := mx_idempotency_conflicts m; mx_ownership_acquires :=
     mx_ownership_acquires m; mx_ownership_takeovers := mx_ownership_takeovers m;
     mx_lane_owner_losses := mx_lane_owner_losses m; mx_stale_hook_results :=
     mx_stale_hook_results m; mx_lifecycle_transitions := mx_lifecycle_transitions m;
     mx_hook_starts := mx_hook_starts m; mx_hook_failures := mx_hook_failures m; mx_queue_micros
     := mx_queue_micros m; mx_handler_micros := mx_handler_micros m; mx_hook_micros :=
     mx_hook_micros m; mx_commit_micros := mx_commit_micros m; mx_store_failures :=
     mx_store_failures m; mx_heartbeat_successes := mx_heartbeat_successes m;
     mx_heartbeat_failures := mx_heartbeat_failures m; mx_heartbeat_micros := mx_heartbeat_micros
     m |}.
Definition mset_batch_items (v : list Z) (m : TaskMetrics) : TaskMetrics :=
  {| mx_handlers := mx_handlers m; mx_lanes := mx_lanes m; mx_submissions := mx_submissions m;
     mx_starts := mx_starts m; mx_batch_invocations := mx_batch_invocations m; mx_batch_items :=
     v; mx_outcomes := mx_outcomes m; mx_claims := mx_claims m; mx_reclaimed := mx_reclaimed m;
     mx_idempotency_conflicts := mx_idempotency_conflicts m; mx_ownership_acquires :=
     mx_ownership_acquires m; mx_ownership_takeovers := mx_ownership_takeovers m;
     mx_lane_owner_losses := mx_lane_owner_losses m; mx_stale_hook_results :=
     mx_stale_hook_results m; mx_lifecycle_transitions := mx_lifecycle_transitions m;
     mx_hook_starts := mx_hook_starts m; mx_hook_failures := mx_hook_failures m; mx_queue_micros
     := mx_queue_micros m; mx_handler_micros := mx_handler_micros m; mx_hook_micros :=
     mx_hook_micros m; mx_commit_micros := mx_commit_micros m; mx_store_failures :=
     mx_store_failures m; mx_heartbeat_successes := mx_heartbeat_successes m;
     mx_heartbeat_failures := mx_heartbeat_failures m; mx_heartbeat_micros := mx_heartbeat_micros
     m |}.
Definition mset_outcomes (v : list (list Z)) (m : TaskMetrics) : TaskMetrics :=
  {| mx_handlers := mx_handlers m; mx_lanes := mx_lanes m; mx_submissions := mx_submissions m;
     mx_starts := mx_starts m; mx_batch_invocations := mx_batch_invocations m; mx_batch_items :=
     mx_batch_items m; mx_outcomes := v; mx_claims := mx_claims m; mx_reclaimed := mx_reclaimed
     m; mx_idempotency_conflicts := mx_idempotency_conflicts m; mx_ownership_acquires :=
     mx_ownership_acquires m; mx_ownership_takeovers := mx_ownership_takeovers m;
     mx_lane_owner_losses := mx_lane_owner_losses m; mx_stale_hook_results :=
     mx_stale_hook_results m; mx_lifecycle_transitions := mx_lifecycle_transitions m;
     mx_hook_starts := mx_hook_starts m; mx_hook_failures := mx_hook_failures m; mx_queue_micros
     := mx_queue_micros m; mx_handler_micros := mx_handler_micros m; mx_hook_micros :=
     mx_hook_micros m; mx_commit_micros := mx_commit_micros m; mx_store_failures :=
     mx_store_failures m; mx_heartbeat_successes := mx_heartbeat_successes m;
     mx_heartbeat_failures := mx_heartbeat_failures m; mx_heartbeat_micros := mx_heartbeat_micros
     m |}.
Definition mset_claims (v : list Z) (m : TaskMetrics) : TaskMetrics :=
  {| mx_handlers := mx_handlers m; mx_lanes := mx_lanes m; mx_submissions := mx_submissions m;
     mx_starts := mx_starts m; mx_batch_invocations := mx_batch_invocations m; mx_batch_items :=
     mx_batch_items m; mx_outcomes := mx_outcomes m; mx_claims := v; mx_reclaimed := mx_reclaimed
     m; mx_idempotency_conflicts := mx_idempotency_conflicts m; mx_ownership_acquires :=
     mx_ownership_acquires m; mx_ownership_takeovers := mx_ownership_takeovers m;
     mx_lane_owner_losses := mx_lane_owner_losses m; mx_stale_hook_results :=
     mx_stale_hook_results m; mx_lifecycle_transitions := mx_lifecycle_transitions m;
     mx_hook_starts := mx_hook_starts m; mx_hook_failures := mx_hook_failures m; mx_queue_micros
     := mx_queue_micros m; mx_handler_micros := mx_handler_micros m; mx_hook_micros :=
     mx_hook_micros m; mx_commit_micros := mx_commit_micros m; mx_store_failures :=
     mx_store_failures m; mx_heartbeat_successes := mx_heartbeat_successes m;
     mx_heartbeat_failures := mx_heartbeat_failures m; mx_heartbeat_micros := mx_heartbeat_micros
     m |}.
Definition mset_reclaimed (v : list Z) (m : TaskMetrics) : TaskMetrics :=
  {| mx_handlers := mx_handlers m; mx_lanes := mx_lanes m; mx_submissions := mx_submissions m;
     mx_starts := mx_starts m; mx_batch_invocations := mx_batch_invocations m; mx_batch_items :=
     mx_batch_items m; mx_outcomes := mx_outcomes m; mx_claims := mx_claims m; mx_reclaimed := v;
     mx_idempotency_conflicts := mx_idempotency_conflicts m; mx_ownership_acquires :=
     mx_ownership_acquires m; mx_ownership_takeovers := mx_ownership_takeovers m;
     mx_lane_owner_losses := mx_lane_owner_losses m; mx_stale_hook_results :=
     mx_stale_hook_results m; mx_lifecycle_transitions := mx_lifecycle_transitions m;
     mx_hook_starts := mx_hook_starts m; mx_hook_failures := mx_hook_failures m; mx_queue_micros
     := mx_queue_micros m; mx_handler_micros := mx_handler_micros m; mx_hook_micros :=
     mx_hook_micros m; mx_commit_micros := mx_commit_micros m; mx_store_failures :=
     mx_store_failures m; mx_heartbeat_successes := mx_heartbeat_successes m;
     mx_heartbeat_failures := mx_heartbeat_failures m; mx_heartbeat_micros := mx_heartbeat_micros
     m |}.
Definition mset_idempotency_conflicts (v : list Z) (m : TaskMetrics) : TaskMetrics :=
  {| mx_handlers := mx_handlers m; mx_lanes := mx_lanes m; mx_submissions := mx_submissions m;
     mx_starts := mx_starts m; mx_batch_invocations := mx_batch_invocations m; mx_batch_items :=
     mx_batch_items m; mx_outcomes := mx_outcomes m; mx_claims := mx_claims m; mx_reclaimed :=
     mx_reclaimed m; mx_idempotency_conflicts := v; mx_ownership_acquires :=
     mx_ownership_acquires m; mx_ownership_takeovers := mx_ownership_takeovers m;
     mx_lane_owner_losses := mx_lane_owner_losses m; mx_stale_hook_results :=
     mx_stale_hook_results m; mx_lifecycle_transitions := mx_lifecycle_transitions m;
     mx_hook_starts := mx_hook_starts m; mx_hook_failures := mx_hook_failures m; mx_queue_micros
     := mx_queue_micros m; mx_handler_micros := mx_handler_micros m; mx_hook_micros :=
     mx_hook_micros m; mx_commit_micros := mx_commit_micros m; mx_store_failures :=
     mx_store_failures m; mx_heartbeat_successes := mx_heartbeat_successes m;
     mx_heartbeat_failures := mx_heartbeat_failures m; mx_heartbeat_micros := mx_heartbeat_micros
     m |}.
Definition mset_ownership_acquires (v : list Z) (m : TaskMetrics) : TaskMetrics :=
  {| mx_handlers := mx_handlers m; mx_lanes := mx_lanes m; mx_submissions := mx_submissions m;
     mx_starts := mx_starts m; mx_batch_invocations := mx_batch_invocations m; mx_batch_items :=
     mx_batch_items m; mx_outcomes := mx_outcomes m; mx_claims := mx_claims m; mx_reclaimed :=
     mx_reclaimed m; mx_idempotency_conflicts := mx_idempotency_conflicts m;
     mx_ownership_acquires := v; mx_ownership_takeovers := mx_ownership_takeovers m;
     mx_lane_owner_losses := mx_lane_owner_losses m; mx_stale_hook_results :=
     mx_stale_hook_results m; mx_lifecycle_transitions := mx_lifecycle_transitions m;
     mx_hook_starts := mx_hook_starts m; mx_hook_failures := mx_hook_failures m; mx_queue_micros
     := mx_queue_micros m; mx_handler_micros := mx_handler_micros m; mx_hook_micros :=
     mx_hook_micros m; mx_commit_micros := mx_commit_micros m; mx_store_failures :=
     mx_store_failures m; mx_heartbeat_successes := mx_heartbeat_successes m;
     mx_heartbeat_failures := mx_heartbeat_failures m; mx_heartbeat_micros := mx_heartbeat_micros
     m |}.
Definition mset_ownership_takeovers (v : list Z) (m : TaskMetrics) : TaskMetrics :=
  {| mx_handlers := mx_handlers m; mx_lanes := mx_lanes m; mx_submissions := mx_submissions m;
     mx_starts := mx_starts m; mx_batch_invocations := mx_batch_invocations m; mx_batch_items :=
     mx_batch_items m; mx_outcomes := mx_outcomes m; mx_claims := mx_claims m; mx_reclaimed :=
     mx_reclaimed m; mx_idempotency_conflicts := mx_idempotency_conflicts m;
     mx_ownership_acquires := mx_ownership_acquires m; mx_ownership_takeovers := v;
     mx_lane_owner_losses := mx_lane_owner_losses m; mx_stale_hook_results :=
     mx_stale_hook_results m; mx_lifecycle_transitions := mx_lifecycle_transitions m;
     mx_hook_starts := mx_hook_starts m; mx_hook_failures := mx_hook_failures m; mx_queue_micros
     := mx_queue_micros m; mx_handler_micros := mx_handler_micros m; mx_hook_micros :=
     mx_hook_micros m; mx_commit_micros := mx_commit_micros m; mx_store_failures :=
     mx_store_failures m; mx_heartbeat_successes := mx_heartbeat_successes m;
     mx_heartbeat_failures := mx_heartbeat_failures m; mx_heartbeat_micros := mx_heartbeat_micros
     m |}.
Definition mset_lane_owner_losses (v : list Z) (m : TaskMetrics) : TaskMetrics :=
  {| mx_handlers := mx_handlers m; mx_lanes := mx_lanes m; mx_submissions := mx_submissions m;
     mx_starts := mx_starts m; mx_batch_invocations := mx_batch_invocations m; mx_batch_items :=
     mx_batch_items m; mx_outcomes := mx_outcomes m; mx_claims := mx_claims m; mx_reclaimed :=
     mx_reclaimed m; mx_idempotency_conflicts := mx_idempotency_conflicts m;
     mx_ownership_acquires := mx_ownership_acquires m; mx_ownership_takeovers :=
     mx_ownership_takeovers m; mx_lane_owner_losses := v; mx_stale_hook_results :=
     mx_stale_hook_results m; mx_lifecycle_transitions := mx_lifecycle_transitions m;
     mx_hook_starts := mx_hook_starts m; mx_hook_failures := mx_hook_failures m; mx_queue_micros
     := mx_queue_micros m; mx_handler_micros := mx_handler_micros m; mx_hook_micros :=
     mx_hook_micros m; mx_commit_micros := mx_commit_micros m; mx_store_failures :=
     mx_store_failures m; mx_heartbeat_successes := mx_heartbeat_successes m;
     mx_heartbeat_failures := mx_heartbeat_failures m; mx_heartbeat_micros := mx_heartbeat_micros
     m |}.
Definition mset_stale_hook_results (v : list Z) (m : TaskMetrics) : TaskMetrics :=
  {| mx_handlers := mx_handlers m; mx_lanes := mx_lanes m; mx_submissions := mx_submissions m;
     mx_starts := mx_starts m; mx_batch_invocations := mx_batch_invocations m; mx_batch_items :=
     mx_batch_items m; mx_outcomes := mx_outcomes m; mx_claims := mx_claims m; mx_reclaimed :=
     mx_reclaimed m; mx_idempotency_conflicts := mx_idempotency_conflicts m;
     mx_ownership_acquires := mx_ownership_acquires m; mx_ownership_takeovers :=
     mx_ownership_takeovers m; mx_lane_owner_losses := mx_lane_owner_losses m;
     mx_stale_hook_results := v; mx_lifecycle_transitions := mx_lifecycle_transitions m;
     mx_hook_starts := mx_hook_starts m; mx_hook_failures := mx_hook_failures m; mx_queue_micros
     := mx_queue_micros m; mx_handler_micros := mx_handler_micros m; mx_hook_micros :=
     mx_hook_micros m; mx_commit_micros := mx_commit_micros m; mx_store_failures :=
     mx_store_failures m; mx_heartbeat_successes := mx_heartbeat_successes m;
     mx_heartbeat_failures := mx_heartbeat_failures m; mx_heartbeat_micros := mx_heartbeat_micros
     m |}.
Definition mset_lifecycle_transitions (v : list (list Z)) (m : TaskMetrics) : TaskMetrics :=
  {| mx_handlers := mx_handlers m; mx_lanes := mx_lanes m; mx_submissions := mx_submissions m;
     mx_starts := mx_starts m; mx_batch_invocations := mx_batch_invocations m; mx_batch_items :=
     mx_batch_items m; mx_outcomes := mx_outcomes m; mx_claims := mx_claims m; mx_reclaimed :=
     mx_reclaimed m; mx_idempotency_conflicts := mx_idempotency_conflicts m;
     mx_ownership_acquires := mx_ownership_acquires m; mx_ownership_takeovers :=
     mx_ownership_takeovers m; mx_lane_owner_losses := mx_lane_owner_losses m;
     mx_stale_hook_results := mx_stale_hook_results m; mx_lifecycle_transitions := v;
     mx_hook_starts := mx_hook_starts m; mx_hook_failures := mx_hook_failures m; mx_queue_micros
     := mx_queue_micros m; mx_handler_micros := mx_handler_micros m; mx_hook_micros :=
     mx_hook_micros m; mx_commit_micros := mx_commit_micros m; mx_store_failures :=
     mx_store_failures m; mx_heartbeat_successes := mx_heartbeat_successes m;
     mx_heartbeat_failures := mx_heartbeat_failures m; mx_heartbeat_micros := mx_heartbeat_micros
     m |}.
Definition mset_hook_starts (v : list (list Z)) (m : TaskMetrics) : TaskMetrics :=
  {| mx_handlers := mx_handlers m; mx_lanes := mx_lanes m; mx_submissions := mx_submissions m;
     mx_starts := mx_starts m; mx_batch_invocations := mx_batch_invocations m; mx_batch_items :=
     mx_batch_items m; mx_outcomes := mx_outcomes m; mx_claims := mx_claims m; mx_reclaimed :=
     mx_reclaimed m; mx_idempotency_conflicts := mx_idempotency_conflicts m;
     mx_ownership_acquires := mx_ownership_acquires m; mx_ownership_takeovers :=
     mx_ownership_takeovers m; mx_lane_owner_losses := mx_lane_owner_losses m;
     mx_stale_hook_results := mx_stale_hook_results m; mx_lifecycle_transitions :=
     mx_lifecycle_transitions m; mx_hook_starts := v; mx_hook_failures := mx_hook_failures m;
     mx_queue_micros := mx_queue_micros m; mx_handler_micros := mx_handler_micros m;
     mx_hook_micros := mx_hook_micros m; mx_commit_micros := mx_commit_micros m;
     mx_store_failures := mx_store_failures m; mx_heartbeat_successes := mx_heartbeat_successes
     m; mx_heartbeat_failures := mx_heartbeat_failures m; mx_heartbeat_micros :=
     mx_heartbeat_micros m |}.
Definition mset_hook_failures (v : list (list Z)) (m : TaskMetrics) : TaskMetrics :=
  {| mx_handlers := mx_handlers m; mx_lanes := mx_lanes m; mx_submissions := mx_submissions m;
     mx_starts := mx_starts m; mx_batch_invocations := mx_batch_invocations m; mx_batch_items :=
     mx_batch_items m; mx_outcomes := mx_outcomes m; mx_claims := mx_claims m; mx_reclaimed :=
     mx_reclaimed m; mx_idempotency_conflicts := mx_idempotency_conflicts m;
     mx_ownership_acquires := mx_ownership_acquires m; mx_ownership_takeovers :=
     mx_ownership_takeovers m; mx_lane_owner_losses := mx_lane_owner_losses m;
     mx_stale_hook_results := mx_stale_hook_results m; mx_lifecycle_transitions :=
     mx_lifecycle_transitions m; mx_hook_starts := mx_hook_starts m; mx_hook_failures := v;
     mx_queue_micros := mx_queue_micros m; mx_handler_micros := mx_handler_micros m;
     mx_hook_micros := mx_hook_micros m; mx_commit_micros := mx_commit_micros m;
     mx_store_failures := mx_store_failures m; mx_heartbeat_successes := mx_heartbeat_successes
     m; mx_heartbeat_failures := mx_heartbeat_failures m; mx_heartbeat_micros :=
     mx_heartbeat_micros m |}.
Definition mset_queue_micros (v : Timing) (m : TaskMetrics) : TaskMetrics :=
  {| mx_handlers := mx_handlers m; mx_lanes := mx_lanes m; mx_submissions := mx_submissions m;
     mx_starts := mx_starts m; mx_batch_invocations := mx_batch_invocations m; mx_batch_items :=
     mx_batch_items m; mx_outcomes := mx_outcomes m; mx_claims := mx_claims m; mx_reclaimed :=
     mx_reclaimed m; mx_idempotency_conflicts := mx_idempotency_conflicts m;
     mx_ownership_acquires := mx_ownership_acquires m; mx_ownership_takeovers :=
     mx_ownership_takeovers m; mx_lane_owner_losses := mx_lane_owner_losses m;
     mx_stale_hook_results := mx_stale_hook_results m; mx_lifecycle_transitions :=
     mx_lifecycle_transitions m; mx_hook_starts := mx_hook_starts m; mx_hook_failures :=
     mx_hook_failures m; mx_queue_micros := v; mx_handler_micros := mx_handler_micros m;
     mx_hook_micros := mx_hook_micros m; mx_commit_micros := mx_commit_micros m;
     mx_store_failures := mx_store_failures m; mx_heartbeat_successes := mx_heartbeat_successes
     m; mx_heartbeat_failures := mx_heartbeat_failures m; mx_heartbeat_micros :=
     mx_heartbeat_micros m |}.
Definition mset_handler_micros (v : Timing) (m : TaskMetrics) : TaskMetrics :=
  {| mx_handlers := mx_handlers m; mx_lanes := mx_lanes m; mx_submissions := mx_submissions m;
     mx_starts := mx_starts m; mx_batch_invocations := mx_batch_invocations m; mx_batch_items :=
     mx_batch_items m; mx_outcomes := mx_outcomes m; mx_claims := mx_claims m; mx_reclaimed :=
     mx_reclaimed m; mx_idempotency_conflicts := mx_idempotency_conflicts m;
     mx_ownership_acquires := mx_ownership_acquires m; mx_ownership_takeovers :=
     mx_ownership_takeovers m; mx_lane_owner_losses := mx_lane_owner_losses m;
     mx_stale_hook_results := mx_stale_hook_results m; mx_lifecycle_transitions :=
     mx_lifecycle_transitions m; mx_hook_starts := mx_hook_starts m; mx_hook_failures :=
     mx_hook_failures m; mx_queue_micros := mx_queue_micros m; mx_handler_micros := v;
     mx_hook_micros := mx_hook_micros m; mx_commit_micros := mx_commit_micros m;
     mx_store_failures := mx_store_failures m; mx_heartbeat_successes := mx_heartbeat_successes
     m; mx_heartbeat_failures := mx_heartbeat_failures m; mx_heartbeat_micros :=
     mx_heartbeat_micros m |}.
Definition mset_hook_micros (v : Timing) (m : TaskMetrics) : TaskMetrics :=
  {| mx_handlers := mx_handlers m; mx_lanes := mx_lanes m; mx_submissions := mx_submissions m;
     mx_starts := mx_starts m; mx_batch_invocations := mx_batch_invocations m; mx_batch_items :=
     mx_batch_items m; mx_outcomes := mx_outcomes m; mx_claims := mx_claims m; mx_reclaimed :=
     mx_reclaimed m; mx_idempotency_conflicts := mx_idempotency_conflicts m;
     mx_ownership_acquires := mx_ownership_acquires m; mx_ownership_takeovers :=
     mx_ownership_takeovers m; mx_lane_owner_losses := mx_lane_owner_losses m;
     mx_stale_hook_results := mx_stale_hook_results m; mx_lifecycle_transitions :=
     mx_lifecycle_transitions m; mx_hook_starts := mx_hook_starts m; mx_hook_failures :=
     mx_hook_failures m; mx_queue_micros := mx_queue_micros m; mx_handler_micros :=
     mx_handler_micros m; mx_hook_micros := v; mx_commit_micros := mx_commit_micros m;
     mx_store_failures := mx_store_failures m; mx_heartbeat_successes := mx_heartbeat_successes
     m; mx_heartbeat_failures := mx_heartbeat_failures m; mx_heartbeat_micros :=
     mx_heartbeat_micros m |}.
Definition mset_commit_micros (v : Timing) (m : TaskMetrics) : TaskMetrics :=
  {| mx_handlers := mx_handlers m; mx_lanes := mx_lanes m; mx_submissions := mx_submissions m;
     mx_starts := mx_starts m; mx_batch_invocations := mx_batch_invocations m; mx_batch_items :=
     mx_batch_items m; mx_outcomes := mx_outcomes m; mx_claims := mx_claims m; mx_reclaimed :=
     mx_reclaimed m; mx_idempotency_conflicts := mx_idempotency_conflicts m;
     mx_ownership_acquires := mx_ownership_acquires m; mx_ownership_takeovers :=
     mx_ownership_takeovers m; mx_lane_owner_losses := mx_lane_owner_losses m;
     mx_stale_hook_results := mx_stale_hook_results m; mx_lifecycle_transitions :=
     mx_lifecycle_transitions m; mx_hook_starts := mx_hook_starts m; mx_hook_failures :=
     mx_hook_failures m; mx_queue_micros := mx_queue_micros m; mx_handler_micros :=
     mx_handler_micros m; mx_hook_micros := mx_hook_micros m; mx_commit_micros := v;
     mx_store_failures := mx_store_failures m; mx_heartbeat_successes := mx_heartbeat_successes
     m; mx_heartbeat_failures := mx_heartbeat_failures m; mx_heartbeat_micros :=
     mx_heartbeat_micros m |}.
Definition mset_store_failures (v : Z) (m : TaskMetrics) : TaskMetrics :=
  {| mx_handlers := mx_handlers m; mx_lanes := mx_lanes m; mx_submissions := mx_submissions m;
     mx_starts := mx_starts m; mx_batch_invocations := mx_batch_invocations m; mx_batch_items :=
     mx_batch_items m; mx_outcomes := mx_outcomes m; mx_claims := mx_claims m; mx_reclaimed :=
     mx_reclaimed m; mx_idempotency_conflicts := mx_idempotency_conflicts m;
     mx_ownership_acquires := mx_ownership_acquires m; mx_ownership_takeovers :=
     mx_ownership_takeovers m; mx_lane_owner_losses := mx_lane_owner_losses m;
     mx_stale_hook_results := mx_stale_hook_results m; mx_lifecycle_transitions :=
     mx_lifecycle_transitions m; mx_hook_starts := mx_hook_starts m; mx_hook_failures :=
     mx_hook_failures m; mx_queue_micros := mx_queue_micros m; mx_handler_micros :=
     mx_handler_micros m; mx_hook_micros := mx_hook_micros m; mx_commit_micros :=
     mx_commit_micros m; mx_store_failures := v; mx_heartbeat_successes := mx_heartbeat_successes
     m; mx_heartbeat_failures := mx_heartbeat_failures m; mx_heartbeat_micros :=
     mx_heartbeat_micros m |}.
Definition mset_heartbeat_successes (v : Z) (m : TaskMetrics) : TaskMetrics :=
  {| mx_handlers := mx_handlers m; mx_lanes := mx_lanes m; mx_submissions := mx_submissions m;
     mx_starts := mx_starts m; mx_batch_invocations := mx_batch_invocations m; mx_batch_items :=
     mx_batch_items m; mx_outcomes := mx_outcomes m; mx_claims := mx_claims m; mx_reclaimed :=
     mx_reclaimed m; mx_idempotency_conflicts := mx_idempotency_conflicts m;
     mx_ownership_acquires := mx_ownership_acquires m; mx_ownership_takeovers :=
     mx_ownership_takeovers m; mx_lane_owner_losses := mx_lane_owner_losses m;
     mx_stale_hook_results := mx_stale_hook_results m; mx_lifecycle_transitions :=
     mx_lifecycle_transitions m; mx_hook_starts := mx_hook_starts m; mx_hook_failures :=
     mx_hook_failures m; mx_queue_micros := mx_queue_micros m; mx_handler_micros :=
     mx_handler_micros m; mx_hook_micros := mx_hook_micros m; mx_commit_micros :=
     mx_commit_micros m; mx_store_failures := mx_store_failures m; mx_heartbeat_successes := v;
     mx_heartbeat_failures := mx_heartbeat_failures m; mx_heartbeat_micros := mx_heartbeat_micros
     m |}.
Definition mset_heartbeat_failures (v : Z) (m : TaskMetrics) : TaskMetrics :=
  {| mx_handlers := mx_handlers m; mx_lanes := mx_lanes m; mx_submissions := mx_submissions m;
     mx_starts := mx_starts m; mx_batch_invocations := mx_batch_invocations m; mx_batch_items :=
     mx_batch_items m; mx_outcomes := mx_outcomes m; mx_claims := mx_claims m; mx_reclaimed :=
     mx_reclaimed m; mx_idempotency_conflicts := mx_idempotency_conflicts m;
     mx_ownership_acquires := mx_ownership_acquires m; mx_ownership_takeovers :=
     mx_ownership_takeovers m; mx_lane_owner_losses := mx_lane_owner_losses m;
     mx_stale_hook_results := mx_stale_hook_results m; mx_lifecycle_transitions :=
     mx_lifecycle_transitions m; mx_hook_starts := mx_hook_starts m; mx_hook_failures :=
     mx_hook_failures m; mx_queue_micros := mx_queue_micros m; mx_handler_micros :=
     mx_handler_micros m; mx_hook_micros := mx_hook_micros m; mx_commit_micros :=
     mx_commit_micros m; mx_store_failures := mx_store_failures m; mx_heartbeat_successes :=
     mx_heartbeat_successes m; mx_heartbeat_failures := v; mx_heartbeat_micros :=
     mx_heartbeat_micros m |}.
Definition mset_heartbeat_micros (v : Timing) (m : TaskMetrics) : TaskMetrics :=
  {| mx_handlers := mx_handlers m; mx_lanes := mx_lanes m; mx_submissions := mx_submissions m;
     mx_starts := mx_starts m; mx_batch_invocations := mx_batch_invocations m; mx_batch_items :=
     mx_batch_items m; mx_outcomes := mx_outcomes m; mx_claims := mx_claims m; mx_reclaimed :=
     mx_reclaimed m; mx_idempotency_conflicts := mx_idempotency_conflicts m;
     mx_ownership_acquires := mx_ownership_acquires m; mx_ownership_takeovers :=
     mx_ownership_takeovers m; mx_lane_owner_losses := mx_lane_owner_losses m;
     mx_stale_hook_results := mx_stale_hook_results m; mx_lifecycle_transitions :=
     mx_lifecycle_transitions m; mx_hook_starts := mx_hook_starts m; mx_hook_failures :=
     mx_hook_failures m; mx_queue_micros := mx_queue_micros m; mx_handler_micros :=
     mx_handler_micros m; mx_hook_micros := mx_hook_micros m; mx_commit_micros :=
     mx_commit_micros m; mx_store_failures := mx_store_failures m; mx_heartbeat_successes :=
     mx_heartbeat_successes m; mx_heartbeat_failures := mx_heartbeat_failures m;
     mx_heartbeat_micros := v |}.

Definition fetch_add (value counter : Z) : Z := (counter + value) mod 2 ^ 64.

Definition timing_record (duration : Duration) (t : Timing) : Timing :=
  let micros := Z.min U64_MAX (as_micros duration) in
  {| tm_count := fetch_add 1 (tm_count t); tm_total := fetch_add micros (tm_total t) |}.

(** Collected through a [BTreeSet]: sorted, without repetitions, numbered in order. *)
Definition indexes (values : list string) : Indexes :=
  imap (λ index name, (name, index)) (sort_by_key str_le id (remove_dups values)).

Definition atomic_vector (size : nat) : list Z := replicate size 0.
Definition atomic_rows (width size : nat) : list (list Z) := replicate size (replicate width 0).

Definition metrics_new (handlers lanes : list string) : TaskMetrics :=
  let handlers := indexes handlers in
  let lanes := indexes lanes in
  let zero := {| tm_count := 0; tm_total := 0 |} in
  let vector {A} (names : list A) := atomic_vector (length names) in
  let rows {A} width (names : list A) := atomic_rows width (length names) in
  {| mx_handlers := handlers; mx_lanes := lanes; mx_submissions := rows 4%nat handlers;
     mx_starts := vector handlers; mx_batch_invocations := vector handlers;
     mx_batch_items := vector handlers; mx_outcomes := rows 5%nat handlers;
     mx_claims := vector lanes; mx_reclaimed := vector lanes;
     mx_idempotency_conflicts := vector handlers; mx_ownership_acquires := vector lanes;
     mx_ownership_takeovers := vector lanes; mx_lane_owner_losses := vector lanes;
     mx_stale_hook_results := vector lanes; mx_lifecycle_transitions := rows 6%nat lanes;
     mx_hook_starts := rows 2%nat lanes; mx_hook_failures := rows 2%nat lanes;
     mx_queue_micros := zero; mx_handler_micros := zero; mx_hook_micros := zero;
     mx_commit_micros := zero; mx_store_failures := 0; mx_heartbeat_successes := 0;
     mx_heartbeat_failures := 0; mx_heartbeat_micros := zero |}.

(** ** One counter *)

Definition index_of (names : Indexes) (name : string) : option nat :=
  snd <$> List.find (λ e, String.eqb e.1 name) names.

Definition bump (index : nat) (value : Z) (counters : list Z) : result Panic (list Z) :=
  let? counter := ok_or (counters !! index) IndexOutOfBounds in
  Ok (<[index := fetch_add value counter]> counters).
Definition bump_row (index column : nat) (value : Z) (rows : list (list Z)) :
    result Panic (list (list Z)) :=
  let? row := ok_or (rows !! index) IndexOutOfBounds in
  let? row := bump column value row in
  Ok (<[index := row]> rows).

(** Replaces one field by what a function that may panic makes of it. *)
Definition updateM {A} (get : TaskMetrics → A) (put : A → TaskMetrics → TaskMetrics)
    (f : A → result Panic A) : M TaskMetrics Panic unit :=
  do! m := getM in
  do! v := liftR (f (get m)) in
  modifyM (put v).

Definition increment (names : Indexes) (name : string) (value : Z) (counters : list Z) :
    result Panic (list Z) :=
  match index_of names name with Some index => bump index value counters | None => Ok counters end.
Definition increment_row (names : Indexes) (name : string) (column : nat) (rows : list (list Z)) :
    result Panic (list (list Z)) :=
  match index_of names name with Some index => bump_row index column 1 rows | None => Ok rows end.

Definition handler_counter get put (name : string) (value : Z) : M TaskMetrics Panic unit :=
  do! m := getM in updateM get put (increment (mx_handlers m) name value).
Definition lane_counter get put (name : string) (value : Z) : M TaskMetrics Panic unit :=
  do! m := getM in updateM get put (increment (mx_lanes m) name value).
Definition lane_row get put (name : string) (column : nat) : M TaskMetrics Panic unit :=
  do! m := getM in updateM get put (increment_row (mx_lanes m) name column).

(** ** Columns *)

Definition receipt_index (receipt : TaskReceipt) : nat :=
  match receipt with Queued _ => 0 | Existing _ => 1 | Ignored _ => 2 end%nat.
Definition outcome_index (outcome : TaskOutcome) : nat :=
  match outcome with
  | OutComplete | OutCompleteWith _ => 0
  | OutSuspend _ | OutSpawn _ _ | OutAll _ _ => 1
  | OutSleep _ _ => 2
  | OutRetry _ => 3
  | OutFail _ => 4
  end%nat.
Definition hook_index (action : LaneHookAction) : nat :=
  match action with HookIdle => 0 | HookBusy => 1 end%nat.
Definition phase_index (phase : LaneOwnerPhase) : nat :=
  match phase with
  | Active => 0 | Idling => 1 | Idle => 2 | Busying => 3 | IdleFailed => 4 | BusyFailed => 5
  end%nat.

(** ** What the runtime records *)

Definition record_store_failure : M TaskMetrics Panic unit :=
  modifyM (λ m, mset_store_failures (fetch_add 1 (mx_store_failures m)) m).

Definition is_store_error (error : TaskRuntimeError) : bool :=
  match error with DatabaseError _ | StoreError _ => true | _ => false end.

Definition submission (handler : string) (result : result TaskRuntimeError (list TaskReceipt)) :
    M TaskMetrics Panic unit :=
  do! m := getM in
  match index_of (mx_handlers m) handler with
  | None => retM tt
  | Some index =>
      let count column := updateM mx_submissions mset_submissions (bump_row index column 1) in
      match result with
      | Ok receipts => for_eachM receipts (λ receipt, count (receipt_index receipt))
      | Err (IdempotencyConflict _) =>
          updateM mx_idempotency_conflicts mset_idempotency_conflicts (bump index 1) ;!
          count 3%nat
      | Err error =>
          count 3%nat ;!
          if is_store_error error then record_store_failure else retM tt
      end
  end.

Definition record_claimed (lane : string) (total reclaimed : Z) : M TaskMetrics Panic unit :=
  lane_counter mx_claims mset_claims lane total ;!
  lane_counter mx_reclaimed mset_reclaimed lane reclaimed.

Definition record_started (handler : string) (queue : Duration) : M TaskMetrics Panic unit :=
  handler_counter mx_starts mset_starts handler 1 ;!
  modifyM (λ m, mset_queue_micros (timing_record queue (mx_queue_micros m)) m).

Definition record_outcome (handler : string) (outcome : TaskOutcome) : M TaskMetrics Panic unit :=
  do! m := getM in
  updateM mx_outcomes mset_outcomes (increment_row (mx_handlers m) handler (outcome_index outcome)).

Definition handler_completed (elapsed : Duration) : M TaskMetrics Panic unit :=
  modifyM (λ m, mset_handler_micros (timing_record elapsed (mx_handler_micros m)) m).

Definition batch_started (handler : string) (items : Z) : M TaskMetrics Panic unit :=
  handler_counter mx_batch_invocations mset_batch_invocations handler 1 ;!
  handler_counter mx_batch_items mset_batch_items handler items.

Definition owner_acquired (lane : string) := lane_counter mx_ownership_acquires mset_ownership_acquires lane 1.
Definition owner_takeover (lane : string) := lane_counter mx_ownership_takeovers mset_ownership_takeovers lane 1.
Definition owner_lost (lane : string) := lane_counter mx_lane_owner_losses mset_lane_owner_losses lane 1.
Definition stale_hook_result (lane : string) := lane_counter mx_stale_hook_results mset_stale_hook_results lane 1.

Definition lifecycle_transition (lane : string) (phase : LaneOwnerPhase) : M TaskMetrics Panic unit :=
  lane_row mx_lifecycle_transitions mset_lifecycle_transitions lane (phase_index phase).
Definition hook_started (lane : string) (action : LaneHookAction) : M TaskMetrics Panic unit :=
  lane_row mx_hook_starts mset_hook_starts lane (hook_index action).
Definition hook_completed (lane : string) (action : LaneHookAction) (failed : bool)
    (elapsed : Duration) : M TaskMetrics Panic unit :=
  modifyM (λ m, mset_hook_micros (timing_record elapsed (mx_hook_micros m)) m) ;!
  if failed then lane_row mx_hook_failures mset_hook_failures lane (hook_index action) else retM tt.

Definition record_commit (elapsed : Duration) (failed : bool) : M TaskMetrics Panic unit :=
  modifyM (λ m, mset_commit_micros (timing_record elapsed (mx_commit_micros m)) m) ;!
  if failed then record_store_failure else retM tt.

Definition record_heartbeat (elapsed : Duration) (failed : bool) : M TaskMetrics Panic unit :=
  modifyM (λ m, mset_heartbeat_micros (timing_record elapsed (mx_heartbeat_micros m)) m) ;!
  modifyM (λ m, if failed
                then mset_heartbeat_failures (fetch_add 1 (mx_heartbeat_failures m)) m
                else mset_heartbeat_successes (fetch_add 1 (mx_heartbeat_successes m)) m).

(** Label escaping: a backslash, a double quote and a line feed. The three replacements run one
    after the other; none of them produces a character a later one replaces, bar the backslashes
    the first has already doubled. *)
Definition backslash : Ascii.ascii := Ascii.ascii_of_nat 92.
Definition double_quote : Ascii.ascii := Ascii.ascii_of_nat 34.
Definition line_feed : Ascii.ascii := Ascii.ascii_of_nat 10.

Fixpoint replace_char (c : Ascii.ascii) (by_ : string) (value : string) : string :=
  match value with
  | EmptyString => EmptyString
  | String x rest =>
      if Ascii.eqb x c then by_ +:+ replace_char c by_ rest else String x (replace_char c by_ rest)
  end.
Definition escape (value : string) : string :=
  replace_char line_feed (String backslash "n")
    (replace_char double_quote (String backslash (String double_quote EmptyString))
       (replace_char backslash (String backslash (String backslash EmptyString)) value)).

(** ** The counters' invariant

    Every counter vector has one entry per registered name and every row one
    column per kind, so that no recording can index outside a vector. *)

(** ** Shapes *)

Definition names_ok (names : list (string * nat)) : Prop :=
  Forall (λ e, (e.2 < length names)%nat) names.
Definition rows_shaped (n width : nat) (rows : list (list Z)) : Prop :=
  length rows = n ∧ Forall (λ row, length row = width) rows.

Record metrics_ok (m : TaskMetrics) : Prop := {
  mo_handlers : names_ok (mx_handlers m);
  mo_lanes : names_ok (mx_lanes m);
  mo_handler_vectors : Forall (λ v, length v = length (mx_handlers m))
    [mx_starts m; mx_batch_invocations m; mx_batch_items m; mx_idempotency_conflicts m];
  mo_lane_vectors : Forall (λ v, length v = length (mx_lanes m))
    [mx_claims m; mx_reclaimed m; mx_ownership_acquires m; mx_ownership_takeovers m;
     mx_lane_owner_losses m; mx_stale_hook_results m];
  mo_submissions : rows_shaped (length (mx_handlers m)) 4 (mx_submissions m);
  mo_outcomes : rows_shaped (length (mx_handlers m)) 5 (mx_outcomes m);
  mo_transitions : rows_shaped (length (mx_lanes m)) 6 (mx_lifecycle_transitions m);
  mo_hook_starts : rows_shaped (length (mx_lanes m)) 2 (mx_hook_starts m);
  mo_hook_failures : rows_shaped (length (mx_lanes m)) 2 (mx_hook_failures m);
}.

Lemma indexes_ok values : names_ok (indexes values).
Proof.
  unfold names_ok, indexes. rewrite length_imap. apply Forall_forall. intros e He.
  apply elem_of_lookup_imap in He as (i & name & -> & Hi). by apply lookup_lt_Some in Hi.
Qed.

Lemma metrics_new_ok handlers lanes : metrics_ok (metrics_new handlers lanes).
Proof.
  unfold metrics_new, atomic_vector, atomic_rows.
  split; simpl; rewrite ?length_replicate; try apply indexes_ok;
    repeat constructor; rewrite ?length_replicate; try done; try (apply Forall_replicate; by rewrite ?length_replicate).
Qed.

(** ** Counters *)

Lemma index_of_lt names name index :
  names_ok names → index_of names name = Some index → (index < length names)%nat.
Proof.
  unfold index_of. intros Hn H. apply fmap_Some in H as (e & He & ->).
  apply find_some in He as [Hin _]. apply list_elem_of_In in Hin.
  by eapply Forall_forall in Hn.
Qed.

Lemma bump_ok index value counters :
  (index < length counters)%nat →
  ∃ c, counters !! index = Some c ∧ bump index value counters = Ok (<[index := fetch_add value c]> counters).
Proof. intros [c Hc]%lookup_lt_is_Some. exists c. split; [done|]. unfold bump. by rewrite Hc. Qed.

Lemma bump_row_ok n width index column value rows :
  rows_shaped n width rows → (index < n)%nat → (column < width)%nat →
  ∃ row c, rows !! index = Some row ∧ row !! column = Some c ∧
    bump_row index column value rows
      = Ok (<[index := <[column := fetch_add value c]> row]> rows) ∧
    rows_shaped n width (<[index := <[column := fetch_add value c]> row]> rows).
Proof.
  intros [Hlen Hw] Hi Hc. rewrite <- Hlen in Hi. apply lookup_lt_is_Some in Hi as [row Hrow].
  assert (Hl : length row = width) by (by eapply Forall_lookup in Hw).
  destruct (bump_ok column value row) as (c & Hlook & Hb); [by rewrite Hl|].
  exists row, c. split_and!; [done|done| |split].
  - unfold bump_row. rewrite Hrow. simpl. by rewrite Hb.
  - by rewrite length_insert.
  - apply Forall_insert; [done|]. by rewrite length_insert.
Qed.

(** ** Bodies that cannot panic *)

Definition records (m : M TaskMetrics Panic unit) : Prop :=
  ∀ s, metrics_ok s → ∃ s', m s = (Ok tt, s') ∧ metrics_ok s' ∧
    mx_handlers s' = mx_handlers s ∧ mx_lanes s' = mx_lanes s.

Lemma records_ret : records (retM tt).
Proof. intros s Hs. by exists s. Qed.

Lemma records_bind m (k : unit → M TaskMetrics Panic unit) :
  records m → records (k tt) → records (bindM m k).
Proof.
  intros Hm Hk s Hs. unfold bindM. destruct (Hm s Hs) as (t & -> & Ht & H1 & H2).
  destruct (Hk t Ht) as (u & Hu & ? & H3 & H4). exists u. split_and!; [done|done|congruence..].
Qed.

Lemma records_each {A} (l : list A) f : (∀ a, records (f a)) → records (for_eachM l f).
Proof.
  intros Hf. induction l as [|a l IH]; simpl; [apply records_ret|]. by apply records_bind.
Qed.

(** A field that keeps its shape. *)
Lemma records_modify (f : TaskMetrics → TaskMetrics) :
  (∀ s, metrics_ok s → metrics_ok (f s) ∧ mx_handlers (f s) = mx_handlers s ∧ mx_lanes (f s) = mx_lanes s) →
  records (modifyM f).
Proof. intros Hf s Hs. exists (f s). destruct (Hf s Hs) as (? & ? & ?). by split_and!. Qed.

Section Counter.
Context (get : TaskMetrics → list Z) (put : list Z → TaskMetrics → TaskMetrics)
  (names : TaskMetrics → list (string * nat)).
Context (Hnames : ∀ s, metrics_ok s → names_ok (names s) ∧ length (get s) = length (names s)).
Context (Hput : ∀ s v, metrics_ok s → length v = length (get s) →
  metrics_ok (put v s) ∧ mx_handlers (put v s) = mx_handlers s ∧ mx_lanes (put v s) = mx_lanes s).

Lemma records_counter name value :
  records (do! m := getM in updateM get put (increment (names m) name value)).
Proof.
  intros s Hs. rewrite bindM_get. unfold updateM. rewrite bindM_get, bindM_liftR.
  destruct (Hnames s Hs) as [Hn Hl]. unfold increment.
  destruct (index_of (names s) name) as [i|] eqn:Hi.
  - apply index_of_lt in Hi; [|done]. destruct (bump_ok i value (get s)) as (c & _ & ->); [lia|].
    eexists. split; [done|]. apply Hput; [done|apply length_insert].
  - eexists. split; [done|]. by apply Hput.
Qed.

End Counter.

Section Row.
Context (get : TaskMetrics → list (list Z)) (put : list (list Z) → TaskMetrics → TaskMetrics)
  (names : TaskMetrics → list (string * nat)) (width : nat).
Context (Hnames : ∀ s, metrics_ok s → names_ok (names s) ∧ rows_shaped (length (names s)) width (get s)).
Context (Hput : ∀ s v, metrics_ok s → rows_shaped (length (names s)) width v →
  metrics_ok (put v s) ∧ mx_handlers (put v s) = mx_handlers s ∧ mx_lanes (put v s) = mx_lanes s).

Lemma records_row name column :
  (column < width)%nat →
  records (do! m := getM in updateM get put (increment_row (names m) name column)).
Proof.
  intros Hc s Hs. rewrite bindM_get. unfold updateM. rewrite bindM_get, bindM_liftR.
  destruct (Hnames s Hs) as [Hn Hl]. unfold increment_row.
  destruct (index_of (names s) name) as [i|] eqn:Hi.
  - apply index_of_lt in Hi; [|done].
    destruct (bump_row_ok _ _ i column 1 (get s) Hl Hi Hc) as (row & c & _ & _ & -> & Hshape).
    eexists. split; [done|]. by apply Hput.
  - eexists. split; [done|]. by apply Hput.
Qed.
End Row.

(** Reads a field's shape off the invariant, and rebuilds the invariant around a new value. *)
Ltac field_shape :=
  let s := fresh "s" in intros s;
  first
    [ let Hs := fresh "Hs" in intros Hs; split; [apply Hs|destruct Hs; decompose_Forall; done]
    | let v := fresh "v" in let Hs := fresh "Hs" in let Hv := fresh "Hv" in
      intros v Hs Hv; (split; [|done]); destruct Hs; simpl in *; decompose_Forall; split; simpl;
      repeat first [assumption | constructor | congruence] ].
Ltac field_counter names := apply (records_counter _ _ names); field_shape.
Ltac field_row names width := apply (records_row _ _ names width); [field_shape|field_shape|].

Lemma records_timing get put duration :
  (∀ s v, metrics_ok s → metrics_ok (put v s) ∧ mx_handlers (put v s) = mx_handlers s
                         ∧ mx_lanes (put v s) = mx_lanes s) →
  records (modifyM (λ m, put (timing_record duration (get m)) m)).
Proof. intros Hp. apply records_modify. intros s Hs. by apply Hp. Qed.

Ltac untouched := apply records_modify; let s := fresh "s" in let Hs := fresh "Hs" in
  intros s Hs; split; [by destruct Hs|done].

Lemma submission_bump_records column :
  (column < 4)%nat → ∀ index s, metrics_ok s → (index < length (mx_handlers s))%nat →
  ∃ s', updateM mx_submissions mset_submissions (bump_row index column 1) s = (Ok tt, s') ∧
    metrics_ok s' ∧ mx_handlers s' = mx_handlers s ∧ mx_lanes s' = mx_lanes s.
Proof.
  intros Hc index s Hs Hi. unfold updateM. rewrite bindM_get, bindM_liftR.
  destruct (bump_row_ok _ _ index column 1 _ (mo_submissions _ Hs) Hi Hc)
    as (row & c & _ & _ & -> & Hshape).
  eexists. split; [done|]. split; [|done]. destruct Hs; by split.
Qed.

Lemma submissions_each index receipts s :
  metrics_ok s → (index < length (mx_handlers s))%nat →
  ∃ s', for_eachM receipts (λ receipt, updateM mx_submissions mset_submissions
          (bump_row index (receipt_index receipt) 1)) s = (Ok tt, s') ∧
    metrics_ok s' ∧ mx_handlers s' = mx_handlers s ∧ mx_lanes s' = mx_lanes s.
Proof.
  revert s. induction receipts as [|r receipts IH]; intros s Hs Hi; simpl; [by exists s|].
  destruct (submission_bump_records (receipt_index r)) with (index := index) (s := s)
    as (t & Ht & Hok & H1 & H2); [destruct r; simpl; lia|done|done|].
  unfold bindM. rewrite Ht. destruct (IH t Hok) as (u & -> & ? & ? & ?); [by rewrite H1|].
  exists u. split_and!; [done|done|congruence..].
Qed.

Lemma submission_records name result : records (submission name result).
Proof.
  intros s Hs. unfold submission. rewrite bindM_get.
  destruct (index_of (mx_handlers s) name) as [i|] eqn:Hi; [|by exists s].
  apply index_of_lt in Hi; [|apply Hs].
  assert (Hfail : ∀ s, metrics_ok s → (i < length (mx_handlers s))%nat → ∃ s',
    updateM mx_submissions mset_submissions (bump_row i 3 1) s = (Ok tt, s') ∧ metrics_ok s' ∧
    mx_handlers s' = mx_handlers s ∧ mx_lanes s' = mx_lanes s)
    by (apply submission_bump_records; lia).
  assert (Hstore : records record_store_failure) by untouched.
  destruct result as [receipts|e]; [by apply submissions_each|].
  assert (Hother : ∃ s', bindM (updateM mx_submissions mset_submissions (bump_row i 3 1))
      (λ _, if is_store_error e then record_store_failure else retM tt) s = (Ok tt, s') ∧
      metrics_ok s' ∧ mx_handlers s' = mx_handlers s ∧ mx_lanes s' = mx_lanes s).
  { unfold bindM. destruct (Hfail s Hs Hi) as (t & -> & Ht & H1 & H2).
    destruct (is_store_error e); [|by exists t].
    destruct (Hstore t Ht) as (u & -> & ? & ? & ?). exists u. split_and!; [done|done|congruence..]. }
  destruct e; try exact Hother. clear Hother.
  assert (Hconflict : ∃ t, updateM mx_idempotency_conflicts mset_idempotency_conflicts (bump i 1) s
      = (Ok tt, t) ∧ metrics_ok t ∧ mx_handlers t = mx_handlers s ∧ mx_lanes t = mx_lanes s).
  { assert (Hv : length (mx_idempotency_conflicts s) = length (mx_handlers s))
      by (destruct Hs; by decompose_Forall).
    unfold updateM. rewrite bindM_get, bindM_liftR.
    destruct (bump_ok i 1 (mx_idempotency_conflicts s)) as (c & _ & ->); [by rewrite Hv|].
    eexists. split; [done|]. split; [|done]. destruct Hs. decompose_Forall.
    split; simpl; repeat first [assumption|constructor]. by rewrite length_insert. }
  destruct Hconflict as (t & Ht & Hok & H1 & H2). unfold bindM. rewrite Ht.
  destruct (Hfail t Hok) as (u & Hu & ? & ? & ?); [by rewrite H1|]. exists u. split_and!; [done|done|congruence..].
Qed.

(** What the runtime records, in any order. *)
Inductive recording : M TaskMetrics Panic unit → Prop :=
  | rec_submission name result : recording (submission name result)
  | rec_claimed lane total reclaimed : recording (record_claimed lane total reclaimed)
  | rec_started handler queue : recording (record_started handler queue)
  | rec_outcome handler outcome : recording (record_outcome handler outcome)
  | rec_completed elapsed : recording (handler_completed elapsed)
  | rec_batch handler items : recording (batch_started handler items)
  | rec_acquired lane : recording (owner_acquired lane)
  | rec_takeover lane : recording (owner_takeover lane)
  | rec_lost lane : recording (owner_lost lane)
  | rec_stale lane : recording (stale_hook_result lane)
  | rec_transition lane phase : recording (lifecycle_transition lane phase)
  | rec_hook_started lane action : recording (hook_started lane action)
  | rec_hook lane action failed elapsed : recording (hook_completed lane action failed elapsed)
  | rec_commit elapsed failed : recording (record_commit elapsed failed)
  | rec_heartbeat elapsed failed : recording (record_heartbeat elapsed failed)
  | rec_store_failure : recording record_store_failure.

Lemma recording_records m : recording m → records m.
Proof.
  destruct 1.
  - apply submission_records.
  - apply records_bind; field_counter mx_lanes.
  - apply records_bind; [field_counter mx_handlers|untouched].
  - apply (records_row _ _ mx_handlers 5); [field_shape|field_shape|destruct outcome; simpl; lia].
  - untouched.
  - apply records_bind; field_counter mx_handlers.
  - field_counter mx_lanes.
  - field_counter mx_lanes.
  - field_counter mx_lanes.
  - field_counter mx_lanes.
  - apply (records_row _ _ mx_lanes 6); [field_shape|field_shape|destruct phase; simpl; lia].
  - apply (records_row _ _ mx_lanes 2); [field_shape|field_shape|destruct action; simpl; lia].
  - apply records_bind; [untouched|]. destruct failed; [|apply records_ret].
    apply (records_row _ _ mx_lanes 2); [field_shape|field_shape|destruct action; simpl; lia].
  - apply records_bind; [untouched|]. destruct failed; [untouched|apply records_ret].
  - apply records_bind; [untouched|]. apply records_modify. intros s Hs. destruct failed; (split; [by destruct Hs|done]).
  - untouched.
Qed.

(** ** What a submission counts *)

(** One counter of a table of rows; 0 outside it. *)
Definition cell (rows : list (list Z)) (index column : nat) : Z :=
  default 0 (rows !! index ≫= (.!! column)).

Lemma cell_insert rows i c row v index column :
  rows !! i = Some row → (c < length row)%nat →
  cell (<[i := <[c := v]> row]> rows) index column =
    if bool_decide (index = i ∧ column = c) then v else cell rows index column.
Proof.
  intros Hr Hc. unfold cell. destruct (decide (index = i)) as [->|Hi].
  - rewrite list_lookup_insert_eq by (by eapply lookup_lt_Some). simpl. rewrite Hr. simpl.
    destruct (decide (column = c)) as [->|Hne].
    + rewrite list_lookup_insert_eq by done. by rewrite bool_decide_true.
    + rewrite list_lookup_insert_ne by done. rewrite bool_decide_false by naive_solver. done.
  - rewrite list_lookup_insert_ne by done. rewrite bool_decide_false by naive_solver. done.
Qed.

(** How many of the receipts are of the column's kind. *)
Definition receipts_of (column : nat) (receipts : list TaskReceipt) : Z :=
  zlen (List.filter (λ r, (receipt_index r =? column)%nat) receipts).

Lemma submissions_counted index receipts s s' :
  metrics_ok s → (index < length (mx_handlers s))%nat →
  for_eachM receipts (λ receipt, updateM mx_submissions mset_submissions
    (bump_row index (receipt_index receipt) 1)) s = (Ok tt, s') →
  ∀ i column, cell (mx_submissions s') i column mod 2 ^ 64 =
    (cell (mx_submissions s) i column + if bool_decide (i = index) then receipts_of column receipts else 0) mod 2 ^ 64.
Proof.
  revert s. induction receipts as [|r receipts IH]; intros s Hs Hi Hrun i column; simpl in Hrun.
  - unfold retM in Hrun. simplify_eq. case_bool_decide; f_equal; unfold receipts_of, zlen; simpl; lia.
  - assert (Hr : (receipt_index r < 4)%nat) by (destruct r; simpl; lia).
    destruct (bump_row_ok _ _ index (receipt_index r) 1 _ (mo_submissions _ Hs) Hi Hr)
      as (row & c & Hrow & Hc & Hb & Hshape).
    unfold bindM at 1, updateM at 1 in Hrun. rewrite bindM_get, bindM_liftR, Hb in Hrun.
    eapply IH with (i := i) (column := column) in Hrun; [|destruct Hs; by split|done].
    rewrite Hrun. simpl. rewrite (cell_insert _ _ _ _ _ _ _ Hrow) by (by eapply lookup_lt_Some).
    case_bool_decide as Hii.
    + subst i. unfold receipts_of. simpl. destruct (Nat.eqb_spec (receipt_index r) column) as [<-|Hne].
      * rewrite bool_decide_true by done. unfold cell. rewrite Hrow. simpl. rewrite Hc. simpl.
        unfold fetch_add. rewrite Zplus_mod_idemp_l. f_equal. unfold zlen. simpl. lia.
      * rewrite bool_decide_false by naive_solver. done.
    + rewrite bool_decide_false by naive_solver. done.
Qed.

(** however much the runtime records, in any order, no counter is indexed outside its
    vector, so recording never panics and the name tables stay; and a successful submission of a
    known handler adds to each of its cells the number of receipts of that kind, modulo 2^64, and
    nothing to any other handler's. *)
Theorem recording_never_panics handlers lanes bodies :
  Forall recording bodies →
  ∃ m, for_eachM bodies (λ body, body) (metrics_new handlers lanes) = (Ok tt, m) ∧
    mx_handlers m = indexes handlers ∧ mx_lanes m = indexes lanes ∧
    ∀ name receipts index, index_of (indexes handlers) name = Some index →
      ∃ m', submission name (Ok receipts) m = (Ok tt, m') ∧
        ∀ i column, cell (mx_submissions m') i column mod 2 ^ 64 =
          (cell (mx_submissions m) i column
           + if bool_decide (i = index) then receipts_of column receipts else 0) mod 2 ^ 64.
Proof.
  intros Hb.
  assert (Hrun : ∀ s, metrics_ok s → ∃ m, for_eachM bodies (λ body, body) s = (Ok tt, m) ∧
    metrics_ok m ∧ mx_handlers m = mx_handlers s ∧ mx_lanes m = mx_lanes s).
  { induction Hb as [|m bodies Hm Hb IH]; intros s Hs; simpl; [by exists s|].
    apply recording_records in Hm. unfold bindM. destruct (Hm s Hs) as (t & -> & Ht & H1 & H2).
    destruct (IH t Ht) as (u & -> & ? & ? & ?). exists u. split_and!; [done|done|congruence..]. }
  destruct (Hrun _ (metrics_new_ok handlers lanes)) as (m & Hm & Hok & Hh & Hl).
  exists m. split_and!; [done|done|done|]. intros name receipts index Hi.
  assert (Hlt : (index < length (mx_handlers m))%nat).
  { rewrite Hh. apply (index_of_lt _ name); [apply indexes_ok|done]. }
  destruct (submissions_each index receipts m Hok Hlt) as (m' & Hm' & _).
  exists m'. split; [|by eapply submissions_counted].
  unfold submission. rewrite bindM_get, Hh. change (mx_handlers (metrics_new handlers lanes)) with (indexes handlers). by rewrite Hi.
Qed.

(** Two handlers and a lane; a claim, an outcome and a conflict, then two receipts. *)
Lemma recording_never_panics_witness :
  ∃ m m', for_eachM [record_claimed "default" 3 1; record_outcome "mail" OutComplete;
      submission "mail" (Err (IdempotencyConflict 4%N))] (λ body, body)
      (metrics_new ["mail"; "image"] ["default"]) = (Ok tt, m) ∧
    submission "mail" (Ok [Queued 1%N; Queued 2%N]) m = (Ok tt, m') ∧
    cell (mx_submissions m') 1 0 mod 2 ^ 64 = 2.
Proof.
  destruct (recording_never_panics ["mail"; "image"]%string ["default"]%string
    [record_claimed "default" 3 1; record_outcome "mail" OutComplete;
     submission "mail" (Err (IdempotencyConflict 4%N))]) as (m & Hm & _ & _ & Hcount).
  { constructor; [apply rec_claimed|]. constructor; [apply rec_outcome|].
    constructor; [apply rec_submission|constructor]. }
  destruct (Hcount "mail"%string [Queued 1%N; Queued 2%N] 1%nat) as (m' & Hs & Hc); [vm_compute; reflexivity|].
  exists m, m'. split; [exact Hm|]. split; [exact Hs|]. rewrite Hc.
  vm_compute in Hm. injection Hm as <-. vm_compute. reflexivity.
Defined.

(** ** Task runtime health ([tasks/health.rs])

    The state behind the mutex of [TaskHealth], the events that move it and
    what readiness makes of it. *)

Inductive TaskHealthState := Initializing | Healthy | Degraded | Unhealthy.
Inductive TaskFailureClass := Initialization | Store.

#[export] Instance TaskHealthState_eq_dec : EqDecision TaskHealthState.
Proof. solve_decision. Defined.
#[export] Instance TaskFailureClass_eq_dec : EqDecision TaskFailureClass.
Proof. solve_decision. Defined.

Definition health_state_as_str (s : TaskHealthState) : string :=
  match s with
  | Initializing => "initializing"
  | Healthy => "healthy"
  | Degraded => "degraded"
  | Unhealthy => "unhealthy"
  end.
Definition failure_class_as_str (c : TaskFailureClass) : string :=
  match c with Initialization => "initialization" | Store => "store" end.

Record HealthInner := {
  hi_state : TaskHealthState;
  hi_consecutive_failures : Z;
  hi_last_success : option DateTime;
  hi_last_failure : option TaskFailureClass;
}.

Record TaskHealth := {
  th_policy : TaskReadiness;
  th_enabled : bool;
  th_inner : HealthInner;
}.

Record TaskHealthSnapshot := {
  hs_state : TaskHealthState;
  hs_ready : bool;
  hs_consecutive_failures : Z;
  hs_last_success : option DateTime;
  hs_last_failure : option TaskFailureClass;
}.

Definition put_inner (inner : HealthInner) (h : TaskHealth) : TaskHealth :=
  {| th_policy := th_policy h; th_enabled := th_enabled h; th_inner := inner |}.
Definition put_health_state (s : TaskHealthState) (i : HealthInner) : HealthInner :=
  {| hi_state := s; hi_consecutive_failures := hi_consecutive_failures i;
     hi_last_success := hi_last_success i; hi_last_failure := hi_last_failure i |}.

Definition health_new (policy : TaskReadiness) (enabled : bool) : TaskHealth :=
  {| th_policy := policy; th_enabled := enabled;
     th_inner := {| hi_state := if enabled then Initializing else Healthy;
                    hi_consecutive_failures := 0; hi_last_success := None;
                    hi_last_failure := None |} |}.

(** [u32::saturating_add(1)]. *)
Definition one_more (n : Z) : Z := Z.min U32_MAX (n + 1).

Definition health_succeeded (now : DateTime) (h : TaskHealth) : TaskHealth :=
  put_inner {| hi_state := Healthy; hi_consecutive_failures := 0; hi_last_success := Some now;
               hi_last_failure := None |} h.

Definition health_failed (class : TaskFailureClass) (h : TaskHealth) : TaskHealth :=
  let inner := th_inner h in
  let failures := one_more (hi_consecutive_failures inner) in
  let state := match th_policy h with
               | AfterFailures limit => if limit <=? failures then Unhealthy else Degraded
               | _ => Degraded
               end in
  put_inner {| hi_state := state; hi_consecutive_failures := failures;
               hi_last_success := hi_last_success inner; hi_last_failure := Some class |} h.

Definition initialized (now : DateTime) (h : TaskHealth) : TaskHealth := health_succeeded now h.
Definition initialization_failed (h : TaskHealth) : TaskHealth :=
  let h := health_failed Initialization h in
  put_inner (put_health_state Unhealthy (th_inner h)) h.
Definition store_failed (h : TaskHealth) : TaskHealth := health_failed Store h.

Definition retired (h : TaskHealth) : TaskHealth :=
  let inner := th_inner h in
  put_inner {| hi_state := Unhealthy;
               hi_consecutive_failures := one_more (hi_consecutive_failures inner);
               hi_last_success := hi_last_success inner; hi_last_failure := Some Store |} h.

Definition ready_state (state : TaskHealthState) (h : TaskHealth) : bool :=
  negb (th_enabled h)
  || (match th_policy h with Disabled => true | _ => false end)
  || negb (match state with Initializing | Unhealthy => true | _ => false end).

Definition is_ready (h : TaskHealth) : bool := ready_state (hi_state (th_inner h)) h.

Definition health_snapshot (h : TaskHealth) : TaskHealthSnapshot :=
  let inner := th_inner h in
  {| hs_state := hi_state inner; hs_ready := ready_state (hi_state inner) h;
     hs_consecutive_failures := hi_consecutive_failures inner;
     hs_last_success := hi_last_success inner; hs_last_failure := hi_last_failure inner |}.

(** ** Events and the specification *)

Inductive HealthEvent :=
  | EvInitialized (now : DateTime)
  | EvInitializationFailed
  | EvSucceeded (now : DateTime)
  | EvStoreFailed
  | EvRetired.

Definition health_step (h : TaskHealth) (e : HealthEvent) : TaskHealth :=
  match e with
  | EvInitialized now => initialized now h
  | EvInitializationFailed => initialization_failed h
  | EvSucceeded now => health_succeeded now h
  | EvStoreFailed => store_failed h
  | EvRetired => retired h
  end.

Definition is_success (e : HealthEvent) : bool :=
  match e with EvInitialized _ | EvSucceeded _ => true | _ => false end.

(** The failures since the last success, newest first, of a history newest first. *)
Fixpoint failures_since (history : list HealthEvent) : list HealthEvent :=
  match history with
  | e :: history => if is_success e then [] else e :: failures_since history
  | [] => []
  end.

(** What the runtime should report after a history, newest event first. *)
Definition expected_state (policy : TaskReadiness) (enabled : bool) (history : list HealthEvent) :
    TaskHealthState :=
  match history with
  | [] => if enabled then Initializing else Healthy
  | (EvInitialized _ | EvSucceeded _) :: _ => Healthy
  | (EvInitializationFailed | EvRetired) :: _ => Unhealthy
  | EvStoreFailed :: _ =>
      match policy with
      | AfterFailures limit =>
          if limit <=? Z.min U32_MAX (zlen (failures_since history)) then Unhealthy else Degraded
      | _ => Degraded
      end
  end.

Lemma health_policy_kept policy enabled events :
  th_policy (fold_left health_step events (health_new policy enabled)) = policy
  ∧ th_enabled (fold_left health_step events (health_new policy enabled)) = enabled.
Proof.
  induction events as [|e events IH] using rev_ind; [done|].
  rewrite fold_left_app. simpl. by destruct e.
Qed.

Lemma health_counts policy enabled events :
  hi_consecutive_failures (th_inner (fold_left health_step events (health_new policy enabled)))
  = Z.min U32_MAX (zlen (failures_since (rev events))).
Proof.
  induction events as [|e events IH] using rev_ind; [done|].
  rewrite fold_left_app, rev_app_distr. simpl. unfold zlen in *.
  destruct e; simpl; rewrite ?IH; unfold one_more; try done; rewrite Nat2Z.inj_succ;
    unfold U32_MAX in *; lia.
Qed.

(** After any sequence of events the health is what the history says: the number of
    consecutive failures is that of the failures since the last success (saturating at 32 bits),
    the state follows the last event and, after a store failure, the configured threshold; and the
    runtime is ready exactly when it has no tasks, the policy ignores failures, or it is neither
    initializing nor unhealthy. *)
Theorem health_follows_history policy enabled events :
  let h := fold_left health_step events (health_new policy enabled) in
  let history := rev events in
  hs_state (health_snapshot h) = expected_state policy enabled history
  ∧ hs_consecutive_failures (health_snapshot h) = Z.min U32_MAX (zlen (failures_since history))
  ∧ hs_ready (health_snapshot h) = is_ready h
  ∧ (is_ready h = true ↔ enabled = false ∨ policy = Disabled
       ∨ expected_state policy enabled history ∈ [Healthy; Degraded]).
Proof.
  intros h history.
  assert (Hs : hi_state (th_inner h) = expected_state policy enabled history).
  { unfold h, history. destruct events as [|e events _] using rev_ind; [done|].
    rewrite fold_left_app, rev_app_distr. simpl.
    destruct (health_policy_kept policy enabled events) as [Hp _].
    pose proof (health_counts policy enabled events) as Hc.
    destruct e; simpl; try done. unfold expected_state. simpl. rewrite Hp, Hc.
    assert (one_more (Z.min U32_MAX (zlen (failures_since (rev events))))
      = Z.min U32_MAX (zlen (EvStoreFailed :: failures_since (rev events)))) as ->; [|done].
    unfold one_more, zlen, U32_MAX. simpl length. lia. }
  destruct (health_policy_kept policy enabled events) as [Hp He]. fold h in Hp, He.
  split_and!; [exact Hs|apply health_counts|done|].
  unfold is_ready, ready_state. rewrite Hs, Hp, He, !orb_true_iff, !negb_true_iff.
  destruct enabled, policy, (expected_state _ _ _); set_solver.
Qed.
