(* ===== verification/Registry.v ===== *)
(** * Task definitions and the registry ([tasks/models.rs], [tasks/handler.rs], [tasks/registry.rs])

    A typed task input is a [Payload]: its [TypeId], what serializing it gives
    and whether its box kept the serializer. Type parameters are erased the way
    the code erases them at registration: a handler, a key rule and a decoder
    are functions on payloads. *)
From S2P Require Import Prelude Externals Failure Config Models Lifecycle Json.
#[local] Open Scope Z_scope.

Abbreviation TypeId := N (only parsing).
(** [TypeId::of::<()>()]. *)
Definition unit_type : TypeId := 0%N.

Record Payload := {
  pl_type : TypeId;
  pl_type_name : string;
  (** [serde_json::to_value] and [serde_json::to_string] of the value. *)
  pl_value : result JsonError Json;
  pl_text : result JsonError string;
  (** Whether the [DataBox] was made with its JSON serializer. *)
  pl_wire : bool;
}.

(** [DataBox::to_json]; the serializer's downcast is to the boxed type itself. *)
Definition to_json (input : Payload) : option (result string Json) :=
  if pl_wire input then Some (pl_value input) else None.

(** ** Idempotency policies *)

(** [None] of the key rule is a callback that panicked. *)
Record TaskIdempotency := { ti_revision : string; ti_key : Payload → option string }.

Definition ti_key_for (policy : TaskIdempotency) (input : Payload) : result TaskRuntimeError string :=
  ok_or (ti_key policy input) (InvalidOptions "task idempotency callback panicked").

Record TaskDefinition := {
  td_type : TypeId;
  td_type_name : string;
  td_name : string;
  td_lane : TaskLane;
  td_idempotency : option TaskIdempotency;
}.

Definition task_definition_new (type : TypeId) (type_name name : string) : TaskDefinition :=
  {| td_type := type; td_type_name := type_name; td_name := name; td_lane := DEFAULT_TASK_LANE;
     td_idempotency := None |}.
Definition definition_lane (lane : TaskLane) (d : TaskDefinition) : TaskDefinition :=
  {| td_type := td_type d; td_type_name := td_type_name d; td_name := td_name d; td_lane := lane;
     td_idempotency := td_idempotency d |}.
Definition definition_idempotency (policy : TaskIdempotency) (d : TaskDefinition) : TaskDefinition :=
  {| td_type := td_type d; td_type_name := td_type_name d; td_name := td_name d;
     td_lane := td_lane d; td_idempotency := Some policy |}.

Record IdempotencyPolicy := { ip_revision : string }.

Record TaskPolicy := {
  tp_declared_lane : TaskLane;
  tp_effective_lane : TaskLane;
  tp_idempotency : option IdempotencyPolicy;
  tp_key : option (Payload → result TaskRuntimeError string);
}.

Definition erased_key (type : TypeId) (policy : TaskIdempotency) (input : Payload) :
    result TaskRuntimeError string :=
  if (pl_type input =? type)%N then ti_key_for policy input
  else Err (TaskExecutionError "task key input type changed").

(** [into_parts] and [erase]. *)
Definition erase_policy (d : TaskDefinition) : TaskPolicy :=
  {| tp_declared_lane := td_lane d; tp_effective_lane := td_lane d;
     tp_idempotency := (λ p, {| ip_revision := ti_revision p |}) <$> td_idempotency d;
     tp_key := erased_key (td_type d) <$> td_idempotency d |}.

(** [key_for] and [key_for_box]: [self.key.as_ref().map(..).transpose()]. *)
Definition policy_key_for (policy : TaskPolicy) (input : Payload) :
    result TaskRuntimeError (option string) :=
  match tp_key policy with
  | Some key => let? k := key input in Ok (Some k)
  | None => Ok None
  end.

(** ** Registered tasks *)

Record TaskOptions := { op_initial_delay : option Duration; op_ignore_conflicts : bool }.
Definition task_options_new : TaskOptions :=
  {| op_initial_delay := None; op_ignore_conflicts := false |}.
Definition options_delay (delay : Duration) (o : TaskOptions) : TaskOptions :=
  {| op_initial_delay := Some delay; op_ignore_conflicts := op_ignore_conflicts o |}.
Definition options_ignore_conflicts (o : TaskOptions) : TaskOptions :=
  {| op_initial_delay := op_initial_delay o; op_ignore_conflicts := true |}.

(** What a flow handler asks for; the [Work] routing of the pravah feature is not modelled. *)
Inductive FlowState :=
  | FlowComplete
  | FlowOutcome (outcome : TaskOutcome)
  | FlowAll (inputs : list Payload) (state : string)
  | FlowSpawn (input : Payload) (state : string) (options : TaskOptions).

(** What a handler's erased return value can be downcast to. *)
Inductive Boxed :=
  | BoxUnit
  | BoxOutcome (outcome : TaskOutcome)
  | BoxOutcomes (outcomes : list TaskOutcome)
  | BoxFlow (state : FlowState)
  | BoxOther.

(** A registered callable: decoding of the record's input, and the call, [None] when it fails. *)
Record Callable := {
  ca_decode : string → option Payload;
  ca_call : Payload → TaskRecord → option Boxed;
}.
Record BatchCallable := {
  bc_decode : string → option Payload;
  bc_call : list Payload → option Boxed;
}.

(** [FlowFactory] keeps what building it will give: [inl] a failure's text, [None] a panic. *)
Inductive RegisteredHandler :=
  | HFlowFactory (build : option (string + Callable))
  | HFlow (handler : Callable)
  | HSingle (handler : Callable)
  | HBatch (handler : BatchCallable).

Record RegisteredTask := {
  rt_name : string;
  rt_type_id : TypeId;
  rt_type_name : string;
  rt_handler : RegisteredHandler;
  rt_policy : TaskPolicy;
}.

Definition registered_new (d : TaskDefinition) (handler : RegisteredHandler) : RegisteredTask :=
  {| rt_name := td_name d; rt_type_id := td_type d; rt_type_name := td_type_name d;
     rt_handler := handler; rt_policy := erase_policy d |}.

Definition task_kind (t : RegisteredTask) : TaskKind :=
  match rt_handler t with HFlow _ | HFlowFactory _ => Flow | _ => Work end.
Definition is_batch (t : RegisteredTask) : bool :=
  match rt_handler t with HBatch _ => true | _ => false end.
Definition declared_lane (t : RegisteredTask) : TaskLane := tp_declared_lane (rt_policy t).
Definition effective_lane (t : RegisteredTask) : TaskLane := tp_effective_lane (rt_policy t).
Definition idempotency_policy (t : RegisteredTask) : option IdempotencyPolicy :=
  tp_idempotency (rt_policy t).
Definition idempotency_key (t : RegisteredTask) (input : Payload) :
    result TaskRuntimeError (option string) := policy_key_for (rt_policy t) input.

Definition put_handler (handler : RegisteredHandler) (t : RegisteredTask) : RegisteredTask :=
  {| rt_name := rt_name t; rt_type_id := rt_type_id t; rt_type_name := rt_type_name t;
     rt_handler := handler; rt_policy := rt_policy t |}.
Definition set_effective_lane (lane : TaskLane) (t : RegisteredTask) : RegisteredTask :=
  {| rt_name := rt_name t; rt_type_id := rt_type_id t; rt_type_name := rt_type_name t;
     rt_handler := rt_handler t;
     rt_policy := {| tp_declared_lane := tp_declared_lane (rt_policy t); tp_effective_lane := lane;
                     tp_idempotency := tp_idempotency (rt_policy t); tp_key := tp_key (rt_policy t) |} |}.

(** [validate_box] and, with the static type's id and name, [validate_object]. *)
Definition validate_box (t : RegisteredTask) (input : Payload) : result TaskRuntimeError unit :=
  if (rt_type_id t =? pl_type input)%N then Ok tt
  else Err (TypeMismatch (rt_type_name t) "emitter payload").
Definition validate_object (t : RegisteredTask) (type : TypeId) (type_name : string) :
    result TaskRuntimeError unit :=
  if negb (rt_type_id t =? type)%N then Err (TypeMismatch (rt_type_name t) type_name) else Ok tt.

(** Replaces a deferred declaration by the handler its factory builds. *)
Definition prepare_flow (t : RegisteredTask) : result TaskRuntimeError RegisteredTask :=
  match rt_handler t with
  | HFlowFactory None => Err (InvalidConfig ("Flow '" +:+ rt_name t +:+ "' factory panicked"))
  | HFlowFactory (Some (inl error)) =>
      Err (InvalidConfig ("Flow '" +:+ rt_name t +:+ "': " +:+ error))
  | HFlowFactory (Some (inr handler)) => Ok (put_handler (HFlow handler) t)
  | _ => Ok t
  end.

(** ** The registry

    A [HashMap] is a [gmap]; where the code iterates over one, the model does so
    in the order of [map_to_list], one of the orders the code may take. [lane_defaults], a
    [BTreeMap], is a list in key order. *)

Record TaskRegistry := {
  rg_config : TaskConf;
  rg_tasks : gmap string RegisteredTask;
  rg_typed_map : gmap TypeId string;
  rg_lane_defaults : list (TaskLane * TaskLaneConf);
  rg_lanes : list TaskLaneConf;
}.

Definition registry_new : TaskRegistry :=
  {| rg_config := task_conf_default; rg_tasks := ∅; rg_typed_map := ∅; rg_lane_defaults := [];
     rg_lanes := [] |}.

Definition put_rg_tasks (v : gmap string RegisteredTask) (r : TaskRegistry) : TaskRegistry :=
  {| rg_config := rg_config r; rg_tasks := v; rg_typed_map := rg_typed_map r;
     rg_lane_defaults := rg_lane_defaults r; rg_lanes := rg_lanes r |}.
Definition put_rg_typed_map (v : gmap TypeId string) (r : TaskRegistry) : TaskRegistry :=
  {| rg_config := rg_config r; rg_tasks := rg_tasks r; rg_typed_map := v;
     rg_lane_defaults := rg_lane_defaults r; rg_lanes := rg_lanes r |}.
Definition put_rg_lane_defaults (v : list (TaskLane * TaskLaneConf)) (r : TaskRegistry) : TaskRegistry :=
  {| rg_config := rg_config r; rg_tasks := rg_tasks r; rg_typed_map := rg_typed_map r;
     rg_lane_defaults := v; rg_lanes := rg_lanes r |}.

(** [str::chars().count()]: the bytes that start a character. *)
Definition char_count (s : string) : Z :=
  zlen (List.filter (λ c, (Ascii.N_of_ascii c <? 128)%N || (192 <=? Ascii.N_of_ascii c)%N)
          (String.list_ascii_of_string s)).

Definition validate_task_name (name : string) : result TaskRuntimeError unit :=
  if bool_decide (name = EmptyString) || (191 <? char_count name)
  then Err (InvalidConfig "task handler names must contain between 1 and 191 characters")
  else Ok tt.

Definition validate_key_revision (policy : option IdempotencyPolicy) : result TaskRuntimeError unit :=
  match policy with
  | None => Ok tt
  | Some policy =>
      let revision := ip_revision policy in
      if (str_len revision =? 0) || (64 <? str_len revision)
      then Err (InvalidConfig "task idempotency revisions must contain between 1 and 64 bytes")
      else if negb (forallb (λ byte, is_ascii_lowercase byte || is_ascii_digit byte
                                     || bool_decide (byte = Ascii.ascii_of_nat 45)
                                     || bool_decide (byte = Ascii.ascii_of_nat 95))
                      (String.list_ascii_of_string revision))
      then Err (InvalidConfig
             "task idempotency revisions use lowercase letters, digits, '-' or '_'")
      else Ok tt
  end.

Definition register (service : RegisteredTask) : M TaskRegistry TaskRuntimeError unit :=
  let name := rt_name service in
  do! _ := liftR (validate_task_name name) in
  do! r := getM in
  if bool_decide (is_Some (rg_tasks r !! name))
     || bool_decide (is_Some (rg_typed_map r !! rt_type_id service))
  then throwM (AlreadyExists name)
  else
    modifyM (λ r, put_rg_typed_map (<[rt_type_id service := name]> (rg_typed_map r)) r) ;!
    modifyM (λ r, put_rg_tasks (<[name := service]> (rg_tasks r)) r).

Definition register_lane (lane : TaskLaneConf) : M TaskRegistry TaskRuntimeError unit :=
  let name := lc_lane lane in
  if String.eqb name DEFAULT_TASK_LANE
  then throwM (InvalidConfig "bundles cannot configure the default task lane")
  else
    do! r := getM in
    if bool_decide (is_Some (lane_lookup name (rg_lane_defaults r)))
    then throwM (AlreadyExists ("task lane '" +:+ name +:+ "'"))
    else modifyM (put_rg_lane_defaults (lane_insert name lane (rg_lane_defaults r))).

Definition merge_task (entry : string * RegisteredTask) : M TaskRegistry TaskRuntimeError unit :=
  let '(name, task) := entry in
  do! _ := liftR (validate_task_name name) in
  do! r := getM in
  if bool_decide (is_Some (rg_tasks r !! name)) then throwM (AlreadyExists name)
  else if bool_decide (is_Some (rg_typed_map r !! rt_type_id task)) then throwM (AlreadyExists name)
  else
    modifyM (λ r, put_rg_typed_map (<[rt_type_id task := name]> (rg_typed_map r)) r) ;!
    modifyM (λ r, put_rg_tasks (<[name := task]> (rg_tasks r)) r).

Definition merge (other : TaskRegistry) : M TaskRegistry TaskRuntimeError unit :=
  for_eachM (rg_lane_defaults other).*2 register_lane ;!
  for_eachM (map_to_list (rg_tasks other)) merge_task.

Definition missing_lane_error (error : TaskRuntimeError) (task : string) (declared : TaskLane)
    (lanes : list TaskLaneConf) : TaskRuntimeError :=
  match error with
  | UnknownLane _ =>
      InvalidConfig ("task '" +:+ task +:+ "' declares lane '" +:+ declared
        +:+ "', but configured lanes are: " +:+ String.concat ", " (lc_lane <$> lanes))
  | error => error
  end.

Definition finalize_task (config : TaskConf) (lanes : list TaskLaneConf) (task : RegisteredTask) :
    result TaskRuntimeError RegisteredTask :=
  let declared := declared_lane task in
  let? _ := validate_key_revision (idempotency_policy task) in
  match resolve_lane config lanes declared with
  | Ok (effective, _) => Ok (set_effective_lane effective task)
  | Err error => Err (missing_lane_error error (rt_name task) declared lanes)
  end.

(** [for task in self.tasks.values_mut()]. *)
Fixpoint finalize_tasks (config : TaskConf) (lanes : list TaskLaneConf)
    (tasks : list (string * RegisteredTask)) : result TaskRuntimeError (list (string * RegisteredTask)) :=
  match tasks with
  | [] => Ok []
  | (name, task) :: tasks =>
      let? task := finalize_task config lanes task in
      let? tasks := finalize_tasks config lanes tasks in
      Ok ((name, task) :: tasks)
  end.

Fixpoint prepare_tasks (tasks : list (string * RegisteredTask)) :
    result TaskRuntimeError (list (string * RegisteredTask)) :=
  match tasks with
  | [] => Ok []
  | (name, task) :: tasks =>
      let? task := prepare_flow task in
      let? tasks := prepare_tasks tasks in
      Ok ((name, task) :: tasks)
  end.

(** In the order of the handlers' names. *)
Definition prepare_flows (r : TaskRegistry) : result TaskRuntimeError TaskRegistry :=
  let? tasks := prepare_tasks (sort_by_key str_le fst (map_to_list (rg_tasks r))) in
  Ok (put_rg_tasks (list_to_map tasks) r).

Section Registry.
Context `{X : Externals}.

Definition finalize (config : TaskConf) (r : TaskRegistry) : result TaskRuntimeError TaskRegistry :=
  let? lanes := resolve_lanes config (rg_lane_defaults r).*2 in
  let? tasks := finalize_tasks config lanes (map_to_list (rg_tasks r)) in
  Ok {| rg_config := config; rg_tasks := list_to_map tasks; rg_typed_map := rg_typed_map r;
        rg_lane_defaults := rg_lane_defaults r; rg_lanes := lanes |}.
End Registry.

Definition registry_is_batch (r : TaskRegistry) (name : string) : bool :=
  match rg_tasks r !! name with Some task => is_batch task | None => false end.

Definition lane_retention (lanes : list TaskLaneConf) (lane : TaskLane) :
    result TaskRuntimeError IdempotencyRetention :=
  ok_or (lc_idempotency_retention <$> List.find (λ entry, String.eqb (lc_lane entry) lane) lanes)
    (UnknownLane lane).

(** [filter_map(..).collect::<Result<_, _>>()]. *)
Fixpoint idempotency_entries (lanes : list TaskLaneConf) (tasks : list RegisteredTask) :
    result TaskRuntimeError (list TaskIdempotencyConf) :=
  match tasks with
  | [] => Ok []
  | task :: tasks =>
      match idempotency_policy task with
      | None => idempotency_entries lanes tasks
      | Some policy =>
          let? retention := lane_retention lanes (effective_lane task) in
          let? entries := idempotency_entries lanes tasks in
          Ok ({| ic_handler := rt_name task; ic_lane := effective_lane task;
                 ic_revision := ip_revision policy; ic_retention := retention |} :: entries)
      end
  end.

Definition registry_values (r : TaskRegistry) : list RegisteredTask := (map_to_list (rg_tasks r)).*2.

Definition idempotency_conf (r : TaskRegistry) : result TaskRuntimeError (list TaskIdempotencyConf) :=
  idempotency_entries (rg_lanes r) (registry_values r).

Definition store_conf (r : TaskRegistry) : result TaskRuntimeError TaskStoreConf :=
  let? idempotency := idempotency_conf r in
  Ok {| sc_max_all_children := cf_max_all_children (rg_config r);
        sc_handlers := (λ t, (rt_name t, task_kind t)) <$> registry_values r;
        sc_lanes := rg_lanes r; sc_idempotency := idempotency;
        sc_poll_interval := cf_poll_interval (rg_config r) |}.
