(* ===== verification/Submission.v ===== *)
(** * Building task writes ([tasks/submission.rs], the preparation methods of [tasks/client.rs])

    Everything between a typed input and the [TaskWrite] a store receives.
    [Serialization] is what the code uses of [serde_json] and [blake3] beyond
    [Externals]. A body that draws identifiers borrows the count of those
    [Uuid::now_v7] has handed out. *)
From S2P Require Import Prelude Externals Failure Config Models Lifecycle Json Registry.
#[local] Open Scope Z_scope.

Class Serialization := {
  (** [serde_json::to_string(&Value)]. *)
  value_text : Json → result JsonError string;
  (** [serde_json::to_string(&Err::<(), _>(failure))]. *)
  failure_text : TaskFailure → result JsonError string;
  (** The lowercase hexadecimal BLAKE3 digest of the bytes. *)
  blake3_hex : string → string;
}.

(** [?] on a [serde_json] result. *)
Definition json_result {A} (r : result JsonError A) : result TaskRuntimeError A :=
  match r with Ok a => Ok a | Err e => Err (JsonFailure e) end.

(** ** Limits *)

Definition duration_ms (duration : option Duration) : result TaskRuntimeError (option Z) :=
  match duration with
  | None => Ok None
  | Some value =>
      let? ms := ok_or (if as_millis value <=? I64_MAX then Some (as_millis value) else None)
          (InvalidOptions "task duration exceeds the supported range") in
      Ok (Some ms)
  end.

Definition validate_options (options : TaskOptions) : result TaskRuntimeError unit :=
  if match op_initial_delay options with Some value => MAX_TASK_DELAY <? value | None => false end
  then Err (InvalidOptions "task delays cannot exceed ten years")
  else let? _ := duration_ms (op_initial_delay options) in Ok tt.

Definition validate_spawn_options (options : TaskOptions) : result TaskRuntimeError unit :=
  if op_ignore_conflicts options
  then Err (InvalidOptions "spawn cannot ignore idempotency conflicts")
  else validate_options options.

Definition validate_payload (payload : string) (limit : Z) : result TaskRuntimeError unit :=
  if limit <? str_len payload
  then Err (InvalidOptions ("task payload exceeds the configured " +:+ pretty limit +:+ "-byte limit"))
  else Ok tt.

Definition validate_key (key : option string) : result TaskRuntimeError unit :=
  if match key with Some value => (str_len value =? 0) || (512 <? str_len value) | None => false end
  then Err (InvalidOptions "task idempotency keys must contain between 1 and 512 bytes")
  else Ok tt.

Definition over (value : option string) (limit : Z) : bool :=
  match value with Some value => limit <? str_len value | None => false end.

Definition validate_filter (filter : TaskFilter) : result TaskRuntimeError unit :=
  if (f_page filter =? 0) || (f_per_page filter =? 0) || (200 <? f_per_page filter)
  then Err (InvalidOptions "task pages are one-indexed and contain at most 200 records")
  else if over (f_query filter) 256
  then Err (InvalidOptions "task search text cannot exceed 256 bytes")
  else
    let limited := [(f_name filter, 191, "task name"); (f_lane filter, 64, "task lane");
                    (f_idempotency_key filter, 512, "task idempotency key")]%string in
    match List.find (λ '(value, limit, _), over value limit) limited with
    | Some (_, limit, label) =>
        Err (InvalidOptions (label +:+ " filters cannot exceed " +:+ pretty limit +:+ " bytes"))
    | None =>
        if match f_created_from filter, f_created_to filter with
           | Some from, Some to => to <? from
           | _, _ => false
           end
        then Err (InvalidOptions "task creation range starts after it ends")
        else Ok tt
    end.

Section Submission.
Context `{X : Externals, Y : Serialization}.

(** ** Texts and fingerprints *)

Definition canonical_json_value (value : Json) : result TaskRuntimeError string :=
  json_result (value_text (canonical_value value)).
Definition canonical_json (input : Payload) : result TaskRuntimeError string :=
  let? value := json_result (pl_value input) in canonical_json_value value.

(** What the hasher is fed: each part followed by a zero byte. *)
Definition hashed_bytes (parts : list string) : string :=
  String.concat EmptyString ((λ part, part +:+ String Ascii.zero EmptyString) <$> parts).

Definition fingerprint (name input : string) (service : RegisteredTask) :
    result TaskRuntimeError string :=
  let? policy := ok_or (idempotency_policy service)
      (TaskExecutionError "idempotent task is missing policy") in
  Ok (blake3_hex (hashed_bytes [name; ip_revision policy; input])).

(** [key.as_ref().map(|_| fingerprint(..)).transpose()]. *)
Definition fingerprint_of (key : option string) (name input : string) (service : RegisteredTask) :
    result TaskRuntimeError (option string) :=
  match key with
  | Some _ => let? f := fingerprint name input service in Ok (Some f)
  | None => Ok None
  end.

(** ** Records *)

Definition build_record (name input : string) (key print : option string) (lane : TaskLane)
    (kind : TaskKind) (now : DateTime) : M nat TaskRuntimeError TaskRecord :=
  do! drawn := getM in
  modifyM S ;!
  retM {| t_id := uuid_now_v7 drawn; t_parent_id := None; t_root_id := None; t_kind := kind;
          t_name := name; t_input := input; t_state := None; t_resume_input := None;
          t_status := Pending; t_cancelled := false; t_attempts := 0; t_step_attempts := 0;
          t_lane := lane; t_last_result := None; t_idempotency_key := key;
          t_idempotency_fingerprint := print; t_idempotency_expires_at := None;
          t_node_id := None; t_ready_at := Some now; t_created_at := now; t_updated_at := now;
          t_completed_at := None |}.

(** One turn of the loop of [build_writes]. *)
Definition build_write (service : RegisteredTask) (name : string) (input : Payload)
    (options : TaskOptions) (config : TaskConf) (now : DateTime) :
    M nat TaskRuntimeError TaskWrite :=
  do! _ := liftR (validate_object service (pl_type input) (pl_type_name input)) in
  do! key := liftR (idempotency_key service input) in
  if bool_decide (key = None) && op_ignore_conflicts options
  then throwM (InvalidOptions "ignore_conflicts requires an idempotent task definition")
  else
    do! serialized := liftR (if bool_decide (is_Some key) then canonical_json input
                             else json_result (pl_text input)) in
    do! _ := liftR (validate_payload serialized (cf_max_payload_bytes config)) in
    do! _ := liftR (validate_key key) in
    do! print := liftR (fingerprint_of key name serialized service) in
    do! record := build_record name serialized key print (effective_lane service)
                    (task_kind service) now in
    retM {| w_record := record; w_ignore_conflicts := op_ignore_conflicts options;
            w_initial_delay := op_initial_delay options |}.

Fixpoint build_each (service : RegisteredTask) (name : string) (inputs : list Payload)
    (options : TaskOptions) (config : TaskConf) (now : DateTime) (writes : list TaskWrite) :
    M nat TaskRuntimeError (list TaskWrite) :=
  match inputs with
  | [] => retM writes
  | input :: inputs =>
      if MAX_BATCH_SIZE <=? zlen writes
      then throwM (InvalidOptions "task submission exceeds the 10,000-input safety limit")
      else
        do! write := build_write service name input options config now in
        build_each service name inputs options config now (writes ++ [write])
  end.

Definition build_writes (service : RegisteredTask) (name : string) (inputs : list Payload)
    (options : TaskOptions) (config : TaskConf) (now : DateTime) :
    M nat TaskRuntimeError (list TaskWrite) :=
  do! _ := liftR (validate_options options) in
  build_each service name inputs options config now [].

Definition build_box_write (service : RegisteredTask) (input : Payload) (config : TaskConf)
    (now : DateTime) : M nat TaskRuntimeError TaskWrite :=
  do! _ := liftR (validate_box service input) in
  do! value := liftR (ok_or (to_json input)
                        (TaskExecutionError "task input cannot be serialized")) in
  do! value := liftR (match value with Ok v => Ok v | Err e => Err (TaskExecutionError e) end) in
  do! key := liftR (idempotency_key service input) in
  do! serialized := liftR (if bool_decide (is_Some key) then canonical_json_value value
                           else json_result (value_text value)) in
  do! _ := liftR (validate_payload serialized (cf_max_payload_bytes config)) in
  do! _ := liftR (validate_key key) in
  do! print := liftR (fingerprint_of key (rt_name service) serialized service) in
  do! record := build_record (rt_name service) serialized key print (effective_lane service)
                  (task_kind service) now in
  retM {| w_record := record; w_ignore_conflicts := false; w_initial_delay := None |}.

(** ** Requests of flow handlers ([Tasks::prepare_all], [TaskClient::prepare_child]) *)

Definition task_for_payload (registry : TaskRegistry) (payload : Payload) :
    result TaskRuntimeError RegisteredTask :=
  let? name := ok_or (rg_typed_map registry !! pl_type payload) (TaskNotFound "Unknown task type") in
  ok_or (rg_tasks registry !! name) (TaskNotFound name).

Definition prepare_member (registry : TaskRegistry) (now : DateTime) (input : Payload) :
    M nat TaskRuntimeError TaskWrite :=
  do! service := liftR (task_for_payload registry input) in
  build_box_write service input (rg_config registry) now.

Definition prepare_all (registry : TaskRegistry) (inputs : list Payload) (state : string)
    (now : DateTime) : M nat TaskRuntimeError TaskOutcome :=
  if cf_max_all_children (rg_config registry) <? zlen inputs
  then throwM (InvalidOptions "Too many all children")
  else
    do! _ := liftR (validate_payload state (cf_max_payload_bytes (rg_config registry))) in
    do! children := mapM_M inputs (prepare_member registry now) in
    retM (OutAll state children).

Definition with_initial_delay (delay : option Duration) (w : TaskWrite) : TaskWrite :=
  {| w_record := w_record w; w_ignore_conflicts := w_ignore_conflicts w; w_initial_delay := delay |}.

Definition prepare_child (registry : TaskRegistry) (input : Payload) (state : string)
    (options : TaskOptions) (now : DateTime) : M nat TaskRuntimeError TaskOutcome :=
  do! _ := liftR (validate_spawn_options options) in
  do! _ := liftR (validate_payload state (cf_max_payload_bytes (rg_config registry))) in
  do! child := prepare_member registry now input in
  retM (OutSpawn state (with_initial_delay (op_initial_delay options) child)).
End Submission.
