(* ===== verification/Handlers.v ===== *)
(** * Running handlers ([tasks/handler.rs], [tasks/handler_error.rs], [tasks/work/], [tasks/flow/], [tasks/outcome.rs])

    From a handler's typed return value to the [TaskOutcome] the runner
    commits, and the dispatch of claimed records to registered handlers. A
    handler is a function of what it is given; the records of one call are
    distinct, so a handler that keeps state of its own is some such function.
    Logging is not modelled. *)
From S2P Require Import Prelude Externals Failure Config Models Json Registry Submission.
#[local] Open Scope Z_scope.

(** ** Typed return values *)

Inductive WorkError := WorkRetry (failure : TaskFailure) | WorkFail (failure : TaskFailure).
Definition work_retry (message : string) : WorkError := WorkRetry (failure_new None message).
Definition work_fail (message : string) : WorkError := WorkFail (failure_new None message).
Definition work_error_outcome (e : WorkError) : TaskOutcome :=
  match e with
  | WorkRetry failure => OutRetry (into_message failure)
  | WorkFail failure => OutFail (into_message failure)
  end.

Inductive FlowError := FlowFail (failure : TaskFailure) | MissingDispatcher.
Definition flow_fail (message : string) : FlowError := FlowFail (failure_new None message).
Definition flow_error_outcome (e : FlowError) : TaskOutcome :=
  match e with
  | FlowFail failure => OutFail (into_message failure)
  | MissingDispatcher => OutFail "Flow requires a dispatcher"
  end.

Section Handlers.
Context `{X : Externals, Y : Serialization}.

Definition complete_output (output : Payload) : result TaskRuntimeError TaskOutcome :=
  if (pl_type output =? unit_type)%N then Ok OutComplete
  else
    let? text := json_result (pl_text output) in
    let? _ := validate_output text in
    Ok (if String.eqb text "null" then OutComplete else OutCompleteWith text).

Definition completion (output : Payload) : TaskOutcome :=
  match complete_output output with
  | Ok outcome => outcome
  | Err (ResultTooLarge _ _) => OutFail "Task result exceeds 32768-byte limit"
  | Err _ => OutFail "Task result serialization failed"
  end.

Inductive WorkState := WorkComplete (output : Payload) | WorkSuspend (state : string).
Definition work_suspend (state : Payload) : result TaskRuntimeError WorkState :=
  let? text := json_result (pl_text state) in Ok (WorkSuspend text).
Definition work_outcome (w : WorkState) : TaskOutcome :=
  match w with WorkComplete output => completion output | WorkSuspend state => OutSuspend state end.

(** [Result<WorkState<T>, WorkError>] of a single Work handler. *)
Definition into_work_outcome (r : result WorkError WorkState) : TaskOutcome :=
  match r with Ok w => work_outcome w | Err e => work_error_outcome e end.

Definition erase_outcome (outcome : TaskOutcome) : Boxed :=
  match outcome with OutComplete => BoxUnit | outcome => BoxOutcome outcome end.

(** A batch item may only complete, retry or fail. *)
Definition batch_safe (outcome : TaskOutcome) : TaskOutcome :=
  match outcome with
  | OutSuspend _ | OutSleep _ _ | OutSpawn _ _ | OutAll _ _ =>
      OutFail "Batch task handlers cannot suspend or sleep or spawn"
  | outcome => outcome
  end.

(** The sealed return forms of a batch handler. *)
Inductive BatchReturn :=
  | ReturnUnit
  | ReturnState (w : WorkState)
  | ReturnItems (items : list (result WorkError WorkState)).
Definition into_batch_return (r : result WorkError BatchReturn) : Boxed :=
  match r with
  | Ok ReturnUnit => erase_outcome OutComplete
  | Ok (ReturnState w) => erase_outcome (batch_safe (work_outcome w))
  | Ok (ReturnItems items) => BoxOutcomes ((λ item, batch_safe (into_work_outcome item)) <$> items)
  | Err error => erase_outcome (work_error_outcome error)
  end.

(** ** Flow requests *)

Definition flow_all (inputs : list Payload) (checkpoint : Payload) : result TaskRuntimeError FlowState :=
  let? state := json_result (pl_text checkpoint) in Ok (FlowAll inputs state).
Definition flow_spawn_with (input state : Payload) (options : TaskOptions) :
    result TaskRuntimeError FlowState :=
  let? _ := validate_spawn_options options in
  let? text := json_result (pl_text state) in
  Ok (FlowSpawn input text options).
Definition flow_spawn (input state : Payload) : result TaskRuntimeError FlowState :=
  flow_spawn_with input state task_options_new.
Definition flow_suspend (state : Payload) : result TaskRuntimeError FlowState :=
  let? text := json_result (pl_text state) in Ok (FlowOutcome (OutSuspend text)).
Definition flow_sleep (state : Payload) (delay : Duration) : result TaskRuntimeError FlowState :=
  let? text := json_result (pl_text state) in Ok (FlowOutcome (OutSleep text delay)).
(** [FlowState::complete] then [prepare]: the output is serialized before erasure. *)
Definition flow_complete (output : Payload) : FlowState := FlowOutcome (completion output).

Definition erase_flow (state : FlowState) : Boxed :=
  match state with
  | FlowComplete => erase_outcome OutComplete
  | FlowOutcome outcome => erase_outcome outcome
  | state => BoxFlow state
  end.

Definition resolve_owned (registry : TaskRegistry) (state : FlowState) (now : DateTime) :
    M nat TaskRuntimeError TaskOutcome :=
  match state with
  | FlowComplete => retM OutComplete
  | FlowOutcome outcome => retM outcome
  | FlowAll inputs state => prepare_all registry inputs state now
  | FlowSpawn input state options => prepare_child registry input state options now
  end.

(** ** Converting a handler's erased return *)

Definition prepared_outcome (data : Boxed) : result TaskRuntimeError TaskOutcome :=
  match data with
  | BoxUnit => Ok OutComplete
  | BoxOutcome outcome => Ok outcome
  | _ => Err (TaskExecutionError "Invalid prepared task outcome")
  end.

Definition prepared_flow (registry : TaskRegistry) (data : Boxed) (now : DateTime) :
    M nat TaskRuntimeError TaskOutcome :=
  match data with
  | BoxFlow state => resolve_owned registry state now
  | data => liftR (prepared_outcome data)
  end.

Definition resolve_batch (data : Boxed) (expected : nat) : result TaskRuntimeError (list TaskOutcome) :=
  match data with
  | BoxUnit => Ok (replicate expected OutComplete)
  | BoxOutcome outcome => Ok (replicate expected outcome)
  | BoxOutcomes outcomes =>
      if negb (length outcomes =? expected)%nat
      then Err (TaskExecutionError ("batch handler returned " +:+ pretty (zlen outcomes)
             +:+ " outcomes for " +:+ pretty (Z.of_nat expected) +:+ " inputs"))
      else Ok outcomes
  | _ => Err (TaskExecutionError "Invalid prepared batch outcome")
  end.

(** ** Execution *)

Record TaskExecutionResult := { ex_record : TaskRecord; ex_outcome : TaskOutcome }.

Definition kind_mismatch : TaskOutcome := outcome_fail "Task kind does not match registered handler".

Definition execute_single (handler : Callable) (record : TaskRecord) : TaskOutcome :=
  if negb (bool_decide (t_kind record = Work)) then kind_mismatch
  else match ca_decode handler (t_input record) with
       | None => outcome_fail "Task input is invalid"
       | Some payload =>
           match ca_call handler payload record with
           | None => handler_failed
           | Some data =>
               match prepared_outcome data with Ok outcome => outcome | Err _ => handler_failed end
           end
       end.

Definition execute_singles (handler : Callable) (records : list TaskRecord) : list TaskExecutionResult :=
  (λ record, {| ex_record := record; ex_outcome := execute_single handler record |}) <$> records.

(** [Err] is any error the caller logs and turns into a failed handler. *)
Definition invoke_flow (registry : TaskRegistry) (handler : Callable) (record : TaskRecord)
    (now : DateTime) : M nat TaskRuntimeError TaskOutcome :=
  if negb (bool_decide (t_kind record = Flow)) then retM kind_mismatch
  else match ca_decode handler (t_input record) with
       | None => retM (outcome_fail "Task input is invalid")
       | Some payload =>
           match ca_call handler payload record with
           | None => throwM (TaskExecutionError "flow handler failed")
           | Some data => prepared_flow registry data now
           end
       end.

Fixpoint execute_flows (registry : TaskRegistry) (handler : Callable) (records : list TaskRecord)
    (now : DateTime) (drawn : nat) : list TaskExecutionResult * nat :=
  match records with
  | [] => ([], drawn)
  | record :: records =>
      let '(result, drawn) := invoke_flow registry handler record now drawn in
      let outcome := match result with Ok outcome => outcome | Err _ => handler_failed end in
      let '(results, drawn) := execute_flows registry handler records now drawn in
      ({| ex_record := record; ex_outcome := outcome |} :: results, drawn)
  end.

(** A decoded batch: the accepted values with their positions, and an outcome for every other record. *)
Record DecodedBatch := {
  db_records : list TaskRecord;
  db_positions : list nat;
  db_outcomes : list (option TaskOutcome);
  db_payload : list Payload;
}.

(** One turn of the loop over [records.iter().enumerate()]. *)
Definition decode_record (decode : string → option Payload) (batch : DecodedBatch)
    (entry : nat * TaskRecord) : DecodedBatch :=
  let '(position, record) := entry in
  let refuse outcome := {| db_records := db_records batch; db_positions := db_positions batch;
                           db_outcomes := <[position := Some outcome]> (db_outcomes batch);
                           db_payload := db_payload batch |} in
  if negb (bool_decide (t_kind record = Work)) then refuse kind_mismatch
  else match decode (t_input record) with
       | Some value => {| db_records := db_records batch; db_positions := db_positions batch ++ [position];
                          db_outcomes := db_outcomes batch; db_payload := db_payload batch ++ [value] |}
       | None => refuse (outcome_fail "Task input is invalid")
       end.

Definition decode_batch (decode : string → option Payload) (records : list TaskRecord) : DecodedBatch :=
  fold_left (decode_record decode) (imap pair records)
    {| db_records := records; db_positions := []; db_outcomes := replicate (length records) None;
       db_payload := [] |}.

Definition call_batch (handler : BatchCallable) (payload : list Payload) (expected : nat) :
    list TaskOutcome :=
  match bc_call handler payload with
  | Some data =>
      match resolve_batch data expected with
      | Ok outcomes => outcomes
      | Err _ => replicate expected handler_failed
      end
  | None => replicate expected handler_failed
  end.

Definition apply_batch_outcomes (batch : DecodedBatch) (outcomes : list TaskOutcome) : DecodedBatch :=
  {| db_records := db_records batch; db_positions := db_positions batch;
     db_outcomes := fold_left (λ slots p, <[p.1 := Some p.2]> slots) (zip (db_positions batch) outcomes)
                      (db_outcomes batch);
     db_payload := db_payload batch |}.

Definition finish_batch (batch : DecodedBatch) : list TaskExecutionResult :=
  zip_with (λ record outcome, {| ex_record := record; ex_outcome := default handler_failed outcome |})
    (db_records batch) (db_outcomes batch).

Definition execute_batch (handler : BatchCallable) (records : list TaskRecord) : list TaskExecutionResult :=
  let batch := decode_batch (bc_decode handler) records in
  let batch := match db_positions batch with
               | [] => batch
               | positions =>
                   apply_batch_outcomes batch (call_batch handler (db_payload batch) (length positions))
               end in
  finish_batch batch.

Definition execute_many (registry : TaskRegistry) (task : RegisteredTask) (records : list TaskRecord)
    (now : DateTime) (drawn : nat) : list TaskExecutionResult * nat :=
  match rt_handler task with
  | HFlow handler => execute_flows registry handler records now drawn
  | HFlowFactory _ =>
      ((λ record, {| ex_record := record; ex_outcome := outcome_fail "Flow factory was not finalized" |})
         <$> records, drawn)
  | HSingle handler => (execute_singles handler records, drawn)
  | HBatch handler => (execute_batch handler records, drawn)
  end.

Definition missing_results (records : list TaskRecord) (name : string) : list TaskExecutionResult :=
  (λ record, {| ex_record := record; ex_outcome := outcome_fail ("Task '" +:+ name +:+ "' not found") |})
    <$> records.

(** [TaskRegistry::execute_many]: the records of one call are of one handler. *)
Definition registry_execute_many (registry : TaskRegistry) (records : list TaskRecord)
    (now : DateTime) (drawn : nat) : list TaskExecutionResult * nat :=
  match records with
  | [] => ([], drawn)
  | record :: _ =>
      match rg_tasks registry !! t_name record with
      | None => (missing_results records (t_name record), drawn)
      | Some task => execute_many registry task records now drawn
      end
  end.
End Handlers.
