(* ===== verification/Client.v ===== *)
(** * The task client ([tasks/client.rs], [TaskRegistry::client] of [tasks/registry.rs])

    The typed facade over a store. [TaskStore] is the interface the client is
    generic in, restricted to the operations it calls; [MemoryStoreInstance]
    is the in-memory store behind it. A client's state is the store, the
    broadcast events sent to the local runner, the ingress channel that feeds
    it, and the counters; an out-of-range counter is a panic. *)
From S2P Require Import Prelude Externals Failure Config Models Transitions Lifecycle.
From S2P Require Import MemoryState Claims Atomic.
From S2P Require Import Json Metrics Registry Submission.
#[local] Open Scope Z_scope.

(** The trait, for the operations a client uses. [ts_drawn] is the process's count of drawn
    identifiers, which a client and its store share. *)
Class TaskStore (S : Type) := {
  ts_drawn : S → nat;
  ts_put_drawn : nat → S → S;
  ts_store_tasks : list TaskWrite → DateTime → M S TaskRuntimeError (list TaskReceipt);
  ts_store_admitted : list TaskWrite → Uuid → Z → DateTime →
    M S TaskRuntimeError (list TaskReceipt * list TaskRecord);
  ts_store_scheduled : ScheduledTaskWrite → DateTime → M S TaskRuntimeError (option TaskReceipt);
  ts_commit_tasks : list TaskCommit → DateTime → M S (StoreFailure CommitResult) CommitResult;
  ts_resume : TaskId → string → DateTime → M S TaskRuntimeError bool;
  ts_reassign_lane : string → string → DateTime → M S TaskRuntimeError Z;
  ts_list_tasks : TaskFilter → S → Page TaskRecord;
  ts_get_task : TaskId → S → option TaskRecord;
  ts_schedule_snapshot : list string → DateTime → S → TaskScheduleSnapshot;
}.

Definition put_st_uuids (v : nat) (s : StoreState) : StoreState :=
  {| st_state := st_state s; st_uuids := v |}.

#[export] Instance MemoryStoreInstance `{Externals} (params : StoreParams) : TaskStore StoreState := {|
  ts_drawn := st_uuids;
  ts_put_drawn := put_st_uuids;
  ts_store_tasks writes now := locked (store_tasks writes now);
  ts_store_admitted writes node limit now := locked (store_admitted writes node limit now);
  ts_store_scheduled scheduled now := locked (store_scheduled scheduled now);
  ts_commit_tasks := commit_tasks params;
  ts_resume id input now := locked (resume id input now);
  ts_reassign_lane from to now := locked (reassign_lane from to now);
  ts_list_tasks filter s := list_tasks filter (st_state s);
  ts_get_task id s := get_task id (st_state s);
  ts_schedule_snapshot names now s := schedule_snapshot names now (st_state s);
|}.

Inductive RunnerEvent := EventWake | EventWakeLane (lane : TaskLane) | EventCancel (id : TaskId).

Record TaskScheduleConf := {
  ts_name : string;
  ts_task : string;
  ts_source : string;
  ts_expression : string;
  ts_start : string;
}.

(** What a client never changes: [ingress] is the receiving node and the channel's capacity. *)
Record TaskClient := {
  tc_registry : TaskRegistry;
  tc_schedules : list TaskScheduleConf;
  tc_ingress : option (Uuid * Z);
}.

Record ClientState (S : Type) := {
  cs_store : S;
  cs_events : list RunnerEvent;
  cs_queue : list TaskRecord;
  cs_metrics : TaskMetrics;
}.
Arguments cs_store {S} c.
Arguments cs_events {S} c.
Arguments cs_queue {S} c.
Arguments cs_metrics {S} c.

(** How a call ends other than by returning: an error of the API, or a panic. *)
Inductive Abort := Fails (error : TaskRuntimeError) | Panics (panic : Panic).

Definition registry_client (registry : TaskRegistry) (schedules : list TaskScheduleConf)
    (ingress : option (Uuid * Z)) : TaskClient :=
  {| tc_registry := registry; tc_schedules := schedules; tc_ingress := ingress |}.
(** [TaskMetrics::new] of [TaskRegistry::client]. *)
Definition registry_metrics (registry : TaskRegistry) : TaskMetrics :=
  metrics_new (map_to_list (rg_tasks registry)).*1 (lc_lane <$> rg_lanes registry).

Section Client.
Context `{X : Externals, Y : Serialization} {St : Type} `{T : !TaskStore St}.
Context (client : TaskClient).

Abbreviation ClientM := (M (ClientState St) Abort) (only parsing).
#[local] Abbreviation registry := (tc_registry client) (only parsing).

Definition put_store (v : St) (c : ClientState St) : ClientState St :=
  {| cs_store := v; cs_events := cs_events c; cs_queue := cs_queue c; cs_metrics := cs_metrics c |}.
Definition push_event (e : RunnerEvent) (c : ClientState St) : ClientState St :=
  {| cs_store := cs_store c; cs_events := cs_events c ++ [e]; cs_queue := cs_queue c;
     cs_metrics := cs_metrics c |}.
Definition push_records (records : list TaskRecord) (c : ClientState St) : ClientState St :=
  {| cs_store := cs_store c; cs_events := cs_events c; cs_queue := cs_queue c ++ records;
     cs_metrics := cs_metrics c |}.
Definition put_metrics (v : TaskMetrics) (c : ClientState St) : ClientState St :=
  {| cs_store := cs_store c; cs_events := cs_events c; cs_queue := cs_queue c; cs_metrics := v |}.

(** Runs a body with another error type on one part of the state. *)
Definition aborting {S E A} (abort : E → Abort) (m : M S E A) : M S Abort A := λ s,
  match m s with (Ok a, s) => (Ok a, s) | (Err e, s) => (Err (abort e), s) end.
Definition on_store {A} (m : M St TaskRuntimeError A) : ClientM A :=
  aborting Fails (zoomM cs_store put_store m).
Definition client_checked {A} (r : result TaskRuntimeError A) : ClientM A := aborting Fails (liftR r).
Definition drawing {A} (m : M nat TaskRuntimeError A) : ClientM A :=
  on_store (zoomM ts_drawn ts_put_drawn m).
Definition client_recording (m : M TaskMetrics Panic unit) : ClientM unit :=
  aborting Panics (zoomM cs_metrics put_metrics m).
(** A broadcast without a subscriber is not an error. *)
Definition notify (event : RunnerEvent) : ClientM unit := modifyM (push_event event).

(** ** Submission *)

(** [try_reserve_owned] until it fails or every write has a permit; no other sender holds one. *)
Definition reserved (writes : list TaskWrite) (capacity : Z) (queue : list TaskRecord) : Z :=
  Z.min (zlen writes) (Z.max 0 (capacity - zlen queue)).

Definition store_inputs (writes : list TaskWrite) (now : DateTime) : ClientM (list TaskReceipt) :=
  match tc_ingress client with
  | None => on_store (ts_store_tasks writes now)
  | Some (node, capacity) =>
      do! c := getM in
      let permits := reserved writes capacity (cs_queue c) in
      if permits =? 0 then on_store (ts_store_tasks writes now)
      else
        do! stored := on_store (ts_store_admitted writes node permits now) in
        if permits <? zlen stored.2
        then throwM (Fails (TaskExecutionError "task store exceeded reserved delivery capacity"))
        else modifyM (push_records stored.2) ;! retM stored.1
  end.

Definition task_name (type : TypeId) : result TaskRuntimeError string :=
  ok_or (rg_typed_map registry !! type) (TaskNotFound "Unknown task type").

Definition is_queued (receipt : TaskReceipt) : bool :=
  match receipt with Queued _ => true | _ => false end.

(** A call and its result, for the code that looks at a result before returning it. *)
Definition outcome_of {A} (m : ClientM A) : ClientM (result TaskRuntimeError A) := λ c,
  match m c with
  | (Ok a, c) => (Ok (Ok a), c)
  | (Err (Fails e), c) => (Ok (Err e), c)
  | (Err (Panics p), c) => (Err (Panics p), c)
  end.

(** The inputs are all of the static type [type]. *)
Definition submit_many_with (type : TypeId) (inputs : list Payload) (options : TaskOptions)
    (now : DateTime) : ClientM (list TaskReceipt) :=
  match inputs with
  | [] => retM []
  | inputs =>
      do! name := client_checked (task_name type) in
      do! service := client_checked (ok_or (rg_tasks registry !! name) (TaskNotFound name)) in
      do! writes := drawing (build_writes service name inputs options (rg_config registry) now) in
      do! result := outcome_of (store_inputs writes now) in
      client_recording (submission name result) ;!
      do! receipts := client_checked result in
      (if existsb is_queued receipts then notify EventWake else retM tt) ;!
      retM receipts
  end.

Definition submit_with (type : TypeId) (input : Payload) (options : TaskOptions) (now : DateTime) :
    ClientM TaskReceipt :=
  do! receipts := submit_many_with type [input] options now in
  client_checked (ok_or (last receipts) (TaskExecutionError "task store omitted a submission receipt")).

Definition submit (type : TypeId) (input : Payload) (now : DateTime) : ClientM TaskReceipt :=
  submit_with type input task_options_new now.
Definition submit_many (type : TypeId) (inputs : list Payload) (now : DateTime) :
    ClientM (list TaskReceipt) :=
  submit_many_with type inputs task_options_new now.

Definition require_schedule_target (schedule task : string) : result TaskRuntimeError unit :=
  match List.find (λ entry, String.eqb (ts_name entry) schedule) (tc_schedules client) with
  | Some entry =>
      if String.eqb (ts_task entry) task then Ok tt
      else Err (TaskExecutionError
             "task schedule payload type does not match its configured target")
  | None => Err (TaskExecutionError "task schedule is not registered by this site")
  end.

Definition submit_scheduled (schedule : string) (occurrence : DateTime) (payload : Payload)
    (now : DateTime) : ClientM (option TaskReceipt) :=
  do! service := client_checked (task_for_payload registry payload) in
  do! _ := client_checked (require_schedule_target schedule (rt_name service)) in
  do! write := drawing (build_box_write service payload (rg_config registry) now) in
  do! result := outcome_of (on_store (ts_store_scheduled
    {| sw_name := schedule; sw_occurrence := occurrence; sw_write := write |} now)) in
  (match result with Ok (Some (Queued _)) => notify EventWake | _ => retM tt end) ;!
  client_checked result.

(** ** Control *)

Definition failure_error {A} (f : StoreFailure A) : TaskRuntimeError :=
  match f with BeforeCommit error | CommitUnknown error _ => error end.

Definition cancel (id : TaskId) (now : DateTime) : ClientM unit :=
  do! _ := aborting (Fails ∘ failure_error)
             (zoomM cs_store put_store (ts_commit_tasks [CommitCancel id] now)) in
  notify (EventCancel id).

Definition failure_bounded (limit : Z) (f : TaskFailure) : TaskFailure :=
  failure_new (failure_task_id f) (truncate_utf8 (failure_message f) limit).

(** What follows the serialization of the result envelope in [resume_result]. *)
Definition resume_result (id : TaskId) (serialized : result JsonError string) (now : DateTime) :
    ClientM bool :=
  do! serialized := client_checked (json_result serialized) in
  do! _ := client_checked (validate_size serialized) in
  do! changed := on_store (ts_resume id serialized now) in
  (if (changed : bool) then notify EventWake else retM tt) ;!
  retM changed.

(** [Ok(input)] serializes as the success envelope of its text. *)
Definition client_resume (id : TaskId) (input : Payload) (now : DateTime) : ClientM bool :=
  resume_result id (let? text := pl_text input in Ok (success text)) now.
Definition resume_failed (id : TaskId) (failure : TaskFailure) (now : DateTime) : ClientM bool :=
  resume_result id (failure_text (failure_bounded (cf_max_error_bytes (rg_config registry)) failure)) now.

Definition client_require_lane (lane : TaskLane) : result TaskRuntimeError unit :=
  if existsb (λ entry, String.eqb (lc_lane entry) lane) (rg_lanes registry) then Ok tt
  else Err (UnknownLane lane).

Definition client_reassign_lane (from to : TaskLane) (now : DateTime) : ClientM Z :=
  do! _ := client_checked (client_require_lane to) in
  do! count := on_store (ts_reassign_lane from to now) in
  (if 0 <? count then notify EventWake else retM tt) ;!
  retM count.

(** ** Inspection *)

Definition client_list (filter : TaskFilter) : ClientM (Page TaskRecord) :=
  do! _ := client_checked (validate_filter filter) in
  getsM (λ c, ts_list_tasks filter (cs_store c)).
Definition client_get (id : TaskId) : ClientM (option TaskRecord) :=
  getsM (λ c, ts_get_task id (cs_store c)).
Definition client_schedule_snapshot (names : list string) (now : DateTime) : ClientM TaskScheduleSnapshot :=
  getsM (λ c, ts_schedule_snapshot names now (cs_store c)).
Definition has_tasks : bool := negb (bool_decide (rg_tasks registry = ∅)).
End Client.
