(* ===== verification/RegistryFacts.v ===== *)
(** * The registry's invariant

    Every handler is stored under its own valid name, and the typed index is
    exactly the inverse of the handlers' input types, in every registry a
    program can build ([built]). A finalized registry ([finalized]) gives every
    handler a configured lane and always has a store configuration. *)
From S2P Require Import Prelude Externals Failure Config Models Transitions.
From S2P Require Import Lifecycle MemoryState LaneLock Workflow Evolution Claims ClaimFacts.
From S2P Require Import Commits Json Registry Submission.
#[local] Open Scope Z_scope.

(** ** The invariant *)

Record registry_ok (r : TaskRegistry) : Prop := {
  ro_named n t : rg_tasks r !! n = Some t → rt_name t = n ∧ validate_task_name n = Ok tt;
  ro_typed ty n :
    rg_typed_map r !! ty = Some n ↔ ∃ t, rg_tasks r !! n = Some t ∧ rt_type_id t = ty;
  ro_lanes : keys_match (rg_lane_defaults r);
  ro_default : DEFAULT_TASK_LANE ∉ lc_lane <$> (rg_lane_defaults r).*2;
}.

(** Every registry a program can make: declarations succeed or fail, bundles are merged. *)
Inductive built : TaskRegistry → Prop :=
  | built_new : built registry_new
  | built_register r service : built r → built (register service r).2
  | built_lane r lane : built r → built (register_lane lane r).2
  | built_merge r other : built r → built other → built (merge other r).2
  | built_prepared r r' : built r → prepare_flows r = Ok r' → built r'
  | built_finalized `{X : Externals} r r' config :
      built r → finalize config r = Ok r' → built r'.

(** ** Declarations *)

Lemma registry_new_ok : registry_ok registry_new.
Proof.
  split; simpl; [by intros n t ?%lookup_empty_Some| |constructor|apply not_elem_of_nil].
  intros ty n. split; [by intros ?%lookup_empty_Some|by intros (t & ?%lookup_empty_Some & _)].
Qed.

(** Both [register] and [merge] end in these two insertions. *)
Lemma add_task_ok r n t :
  registry_ok r → rt_name t = n → validate_task_name n = Ok tt →
  rg_tasks r !! n = None → rg_typed_map r !! rt_type_id t = None →
  registry_ok (put_rg_tasks (<[n := t]> (rg_tasks r))
                 (put_rg_typed_map (<[rt_type_id t := n]> (rg_typed_map r)) r)).
Proof.
  intros [Hn Ht Hk Hd] Hname Hvalid Hfree Hty. split; simpl; [| |done|done].
  - intros m u. destruct (decide (m = n)) as [->|Hm].
    + rewrite lookup_insert_eq. by intros [= <-].
    + rewrite lookup_insert_ne by done. apply Hn.
  - intros ty m. destruct (decide (ty = rt_type_id t)) as [->|Hne].
    + rewrite lookup_insert_eq. split.
      * intros [= <-]. exists t. by rewrite lookup_insert_eq.
      * intros (u & Hu & Hut). destruct (decide (m = n)) as [->|Hm]; [done|].
        rewrite lookup_insert_ne in Hu by done.
        assert (rg_typed_map r !! rt_type_id t = Some m) by (apply Ht; eauto). congruence.
    + rewrite lookup_insert_ne by done. rewrite Ht. split; intros (u & Hu & Hut); exists u.
      * split; [|done]. rewrite lookup_insert_ne; [done|]. intros ->. congruence.
      * split; [|done]. destruct (decide (m = n)) as [->|Hm].
        -- rewrite lookup_insert_eq in Hu. congruence.
        -- by rewrite lookup_insert_ne in Hu.
Qed.

Lemma register_ok service r : registry_ok r → registry_ok (register service r).2.
Proof.
  intros Hr. unfold register. rewrite bindM_liftR.
  destruct (validate_task_name (rt_name service)) as [[]|] eqn:Hv; [|done].
  rewrite bindM_get. destruct (_ || _) eqn:Hc; [done|].
  apply orb_false_iff in Hc as [H1 H2]. apply bool_decide_eq_false in H1, H2.
  rewrite bindM_modify. cbn [modifyM snd]. apply (add_task_ok r); [done..| |]; by apply eq_None_not_Some.
Qed.

Lemma register_lane_ok lane r : registry_ok r → registry_ok (register_lane lane r).2.
Proof.
  intros Hr. unfold register_lane. destruct (String.eqb _ _) eqn:He; [done|].
  rewrite bindM_get. case_bool_decide as Hs; [done|]. cbn [modifyM snd].
  destruct Hr as [Hn Ht Hk Hd]. split; simpl; [done|done|by apply keys_match_insert|].
  rewrite lane_insert_fresh by (by apply eq_None_not_Some). csimpl.
  apply not_elem_of_cons. split; [|done]. intros Heq. by rewrite <- Heq in He.
Qed.

(** Entries of another well-formed registry. *)
Definition entry_ok (entry : string * RegisteredTask) : Prop := rt_name entry.2 = entry.1.

Lemma merge_task_ok entry r : entry_ok entry → registry_ok r → registry_ok (merge_task entry r).2.
Proof.
  destruct entry as [n t]. unfold entry_ok. simpl. intros He Hr. rewrite bindM_liftR.
  destruct (validate_task_name n) as [[]|] eqn:Hv; [|done].
  rewrite bindM_get. case_bool_decide as H1; [done|]. case_bool_decide as H2; [done|].
  rewrite bindM_modify. cbn [modifyM snd]. apply (add_task_ok r); [done..| |]; by apply eq_None_not_Some.
Qed.

(** A loop whose turns keep a predicate keeps it, wherever it stops. *)
Lemma for_each_keeps {S E A} (P : S → Prop) (Q : A → Prop) (f : A → M S E unit) l s :
  (∀ a s, Q a → P s → P (f a s).2) → Forall Q l → P s → P (for_eachM l f s).2.
Proof.
  intros Hf Hl. revert s. induction Hl as [|a l Ha Hl IH]; intros s Hs; simpl; [done|].
  unfold bindM. specialize (Hf a s Ha Hs). destruct (f a s) as [[u|e] t]; simpl in *; auto.
Qed.

Lemma merge_ok other r : registry_ok other → registry_ok r → registry_ok (merge other r).2.
Proof.
  intros Ho Hr. unfold merge, bindM.
  pose proof (for_each_keeps registry_ok (λ _, True) register_lane (rg_lane_defaults other).*2 r) as H1.
  destruct (for_eachM _ register_lane r) as [[u|e] t]; simpl in *.
  - apply (for_each_keeps registry_ok entry_ok); [intros; by apply merge_task_ok| |].
    + apply Forall_forall. intros [n x] Hin%elem_of_map_to_list. by apply Ho in Hin as [? _].
    + apply H1; [intros; by apply register_lane_ok|by apply Forall_true|done].
  - apply H1; [intros; by apply register_lane_ok|by apply Forall_true|done].
Qed.

(** ** Rebuilding the handlers *)

(** Loops over the handlers rebuild the map entry by entry, in any order. *)
Lemma rebuilt_lookup {A B} (R : A → B → Prop) (m : gmap string A) l l' n :
  l ≡ₚ map_to_list m → Forall2 (λ p q, p.1 = q.1 ∧ R p.2 q.2) l l' →
  option_Forall2 R (m !! n) ((list_to_map l' : gmap string B) !! n).
Proof.
  intros Hp HF.
  assert (Hm : m = list_to_map l).
  { rewrite <- (list_to_map_to_list (M:=gmap string) m). symmetry. apply list_to_map_proper; [|done].
    rewrite Hp. apply NoDup_fst_map_to_list. }
  subst m. clear Hp. induction HF as [|[k x] [k' y] l l' [Hk Hxy] _ IH]; simpl in *; [constructor|].
  subst k'. destruct (decide (k = n)) as [->|Hne].
  - rewrite !lookup_insert_eq. by constructor.
  - by rewrite !lookup_insert_ne.
Qed.

Lemma finalize_tasks_each config lanes tasks tasks' :
  finalize_tasks config lanes tasks = Ok tasks' →
  Forall2 (λ p q, p.1 = q.1 ∧ finalize_task config lanes p.2 = Ok q.2) tasks tasks'.
Proof.
  revert tasks'. induction tasks as [|[n t] tasks IH]; simpl; intros tasks' H; [by simplify_eq|].
  apply result_bind_ok in H as (t' & H1 & H). apply result_bind_ok in H as (ts & H2 & H).
  simplify_eq. constructor; [by split|auto].
Qed.

Lemma prepare_tasks_each tasks tasks' :
  prepare_tasks tasks = Ok tasks' →
  Forall2 (λ p q, p.1 = q.1 ∧ prepare_flow p.2 = Ok q.2) tasks tasks'.
Proof.
  revert tasks'. induction tasks as [|[n t] tasks IH]; simpl; intros tasks' H; [by simplify_eq|].
  apply result_bind_ok in H as (t' & H1 & H). apply result_bind_ok in H as (ts & H2 & H).
  simplify_eq. constructor; [by split|auto].
Qed.

(** What preparing or finalizing a handler keeps. *)
Definition same_handler (t t' : RegisteredTask) : Prop :=
  rt_name t' = rt_name t ∧ rt_type_id t' = rt_type_id t ∧ rt_type_name t' = rt_type_name t ∧
  task_kind t' = task_kind t ∧ idempotency_policy t' = idempotency_policy t ∧
  declared_lane t' = declared_lane t.

Lemma prepare_flow_identity t t' : prepare_flow t = Ok t' → same_handler t t'.
Proof.
  unfold prepare_flow, same_handler, task_kind.
  destruct (rt_handler t) as [[[e|h]|]| | |] eqn:Hh; intros H; simplify_eq; simpl; rewrite ?Hh;
    repeat split.
Qed.

Lemma finalize_task_spec config lanes t t' :
  finalize_task config lanes t = Ok t' →
  same_handler t t' ∧ validate_key_revision (idempotency_policy t) = Ok tt ∧
  ∃ lane b, resolve_lane config lanes (declared_lane t) = Ok (lane, b) ∧
    t' = set_effective_lane lane t.
Proof.
  unfold finalize_task. intros H. apply result_bind_ok in H as ([] & Hr & H).
  destruct (resolve_lane _ _ _) as [[lane b]|e] eqn:Hl; [|done]. simplify_eq.
  split; [by split_and!|]. split; [done|]. by exists lane, b.
Qed.

Lemma registry_ok_rebuilt r r' :
  registry_ok r → rg_typed_map r' = rg_typed_map r → rg_lane_defaults r' = rg_lane_defaults r →
  (∀ n, option_Forall2 same_handler (rg_tasks r !! n) (rg_tasks r' !! n)) → registry_ok r'.
Proof.
  intros [Hn Ht Hk Hd] Hty Hl Hf. split; rewrite ?Hl; [| |done|done].
  - intros n t' Ht'. specialize (Hf n). rewrite Ht' in Hf. inversion Hf as [t ? Hs Hx|]; subst.
    symmetry in Hx. apply Hn in Hx as [<- ?]. by destruct Hs as [-> _].
  - intros ty n. rewrite Hty, Ht. specialize (Hf n).
    destruct Hf as [t t' (_ & Hid & _)|]; [|by split; intros (u & ? & _)].
    split; intros (u & [= <-] & Hu); eexists; (split; [done|congruence]).
Qed.

Lemma prepare_flows_lookup r r' :
  prepare_flows r = Ok r' →
  rg_typed_map r' = rg_typed_map r ∧ rg_lane_defaults r' = rg_lane_defaults r ∧
  rg_config r' = rg_config r ∧ rg_lanes r' = rg_lanes r ∧
  ∀ n, option_Forall2 (λ t t', prepare_flow t = Ok t') (rg_tasks r !! n) (rg_tasks r' !! n).
Proof.
  unfold prepare_flows. intros H. apply result_bind_ok in H as (ts & H & [= <-]). simpl.
  do 4 (split; [done|]). intros n. eapply rebuilt_lookup; [|by apply prepare_tasks_each].
  apply sort_by_key_perm.
Qed.

Lemma finalize_lookup `{X : Externals} config r r' :
  finalize config r = Ok r' →
  rg_typed_map r' = rg_typed_map r ∧ rg_lane_defaults r' = rg_lane_defaults r ∧
  rg_config r' = config ∧ resolve_lanes config (rg_lane_defaults r).*2 = Ok (rg_lanes r') ∧
  ∀ n, option_Forall2 (λ t t', finalize_task config (rg_lanes r') t = Ok t')
         (rg_tasks r !! n) (rg_tasks r' !! n).
Proof.
  unfold finalize. intros H. apply result_bind_ok in H as (lanes & Hl & H).
  apply result_bind_ok in H as (ts & H & [= <-]). simpl.
  do 4 (split; [done|]). intros n. eapply rebuilt_lookup; [|by apply finalize_tasks_each]. done.
Qed.

Lemma option_Forall2_weaken {A B} (R R' : A → B → Prop) x y :
  (∀ a b, R a b → R' a b) → option_Forall2 R x y → option_Forall2 R' x y.
Proof. intros H []; constructor; auto. Qed.

Lemma prepare_flows_ok r r' : prepare_flows r = Ok r' → registry_ok r → registry_ok r'.
Proof.
  intros H Hr. apply prepare_flows_lookup in H as (H1 & H2 & _ & _ & H3).
  eapply registry_ok_rebuilt; [exact Hr|done..|]. intros n.
  eapply option_Forall2_weaken; [apply prepare_flow_identity|apply H3].
Qed.

Lemma finalize_ok `{X : Externals} config r r' :
  finalize config r = Ok r' → registry_ok r → registry_ok r'.
Proof.
  intros H Hr. apply finalize_lookup in H as (H1 & H2 & _ & _ & H3).
  eapply registry_ok_rebuilt; [exact Hr|done..|]. intros n.
  eapply option_Forall2_weaken; [|apply H3]. intros a b Hab.
  by apply finalize_task_spec in Hab as [? _].
Qed.

Lemma built_ok r : built r → registry_ok r.
Proof.
  induction 1; eauto using registry_new_ok, register_ok, register_lane_ok, merge_ok,
    prepare_flows_ok, finalize_ok.
Qed.

(** ** Finalized registries *)

(** What a site's clients and runner are given: a built registry after [finalize], its deferred
    flows prepared or not. *)
Inductive finalized `{X : Externals} : TaskRegistry → Prop :=
  | finalized_by r r' config : built r → finalize config r = Ok r' → finalized r'
  | finalized_prepared r r' : finalized r → prepare_flows r = Ok r' → finalized r'.

(** Every handler has a configured lane and a well-formed revision. *)
Record lanes_assigned (r : TaskRegistry) : Prop := {
  la_lane n t : rg_tasks r !! n = Some t → effective_lane t ∈ lc_lane <$> rg_lanes r;
  la_revision n t : rg_tasks r !! n = Some t → validate_key_revision (idempotency_policy t) = Ok tt;
}.

Lemma find_lane_Some n lanes l : find_lane n lanes = Some l → lc_lane l = n ∧ l ∈ lanes.
Proof.
  unfold find_lane. intros H. apply find_some in H as [Hin He]. apply String.eqb_eq in He.
  split; [done|]. by apply list_elem_of_In.
Qed.

Lemma elem_lane_find n lanes : n ∈ lc_lane <$> lanes → is_Some (find_lane n lanes).
Proof.
  intros (l & -> & Hin)%list_elem_of_fmap. unfold find_lane.
  destruct (List.find _ lanes) eqn:He; [done|].
  apply find_none with (x := l) in He; [|by apply list_elem_of_In]. by rewrite String.eqb_refl in He.
Qed.

Lemma resolve_lane_configured `{X : Externals} config defaults lanes lane effective b :
  resolve_lanes config defaults = Ok lanes → resolve_lane config lanes lane = Ok (effective, b) →
  effective ∈ lc_lane <$> lanes.
Proof.
  unfold resolve_lanes. intros H. accepted. apply validate_lanes_spec in E2 as (_ & _ & Hd & _).
  unfold resolve_lane. destruct (existsb _ _) eqn:He.
  - intros [= <- <-]. apply existsb_exists in He as (l & Hin & He). apply String.eqb_eq in He as <-.
    apply list_elem_of_fmap_2. by apply list_elem_of_In.
  - case_match; [|done]. intros [= <- <-]. destruct Hd as [l Hd]. apply find_lane_Some in Hd as [<- Hin].
    by apply list_elem_of_fmap_2.
Qed.

Lemma finalized_ok `{X : Externals} r : finalized r → registry_ok r ∧ lanes_assigned r.
Proof.
  induction 1 as [r r' config Hb Hf|r r' Hr [IH1 IH2] Hp].
  - split; [eapply finalize_ok; [done|by apply built_ok]|].
    apply finalize_lookup in Hf as (_ & _ & _ & Hl & Ht).
    split; intros n t Hn; specialize (Ht n); rewrite Hn in Ht; inversion Ht as [t0 ? Hs Hx|]; subst;
      apply finalize_task_spec in Hs as ((_ & _ & _ & _ & Hpol & _) & Hr & lane & b & Hres & ->).
    + cbn. by eapply resolve_lane_configured.
    + done.
  - split; [by eapply prepare_flows_ok|].
    apply prepare_flows_lookup in Hp as (_ & _ & _ & Hl & Ht).
    split; intros n t Hn; specialize (Ht n); rewrite Hn in Ht; inversion Ht as [t0 ? Hs Hx|]; subst;
      symmetry in Hx; unfold effective_lane.
    + rewrite Hl. replace (rt_policy t) with (rt_policy t0); [by eapply IH2|].
      unfold prepare_flow in Hs. by destruct (rt_handler t0) as [[[e|h]|]| | |]; simplify_eq.
    + apply prepare_flow_identity in Hs as (_ & _ & _ & _ & -> & _). by eapply IH2.
Qed.

Lemma finalized_lanes_unique `{X : Externals} r : finalized r → NoDup (lc_lane <$> rg_lanes r).
Proof.
  induction 1 as [r r' config Hb Hf|r r' Hr IH Hp].
  - unfold finalize in Hf. apply result_bind_ok in Hf as (lanes & Hl & Hf).
    apply result_bind_ok in Hf as (tasks & _ & Hf). injection Hf as <-. simpl.
    unfold resolve_lanes in Hl. accepted. by apply validate_lanes_spec in E2 as (Hn & _).
  - apply prepare_flows_lookup in Hp as (_ & _ & _ & Hl & _). by rewrite Hl.
Qed.

(** ** Store configuration *)

Lemma elem_registry_values r t :
  registry_ok r → t ∈ registry_values r ↔ rg_tasks r !! rt_name t = Some t.
Proof.
  intros Hr. unfold registry_values. rewrite list_elem_of_fmap. split.
  - intros ([n u] & -> & Hin%elem_of_map_to_list). simpl. by destruct (ro_named _ Hr _ _ Hin) as [-> _].
  - intros H. exists (rt_name t, t). split; [done|]. by apply elem_of_map_to_list.
Qed.

Lemma registry_values_names r : registry_ok r → rt_name <$> registry_values r = (map_to_list (rg_tasks r)).*1.
Proof.
  intros Hr. unfold registry_values.
  assert (H : ∀ p, p ∈ map_to_list (rg_tasks r) → rt_name p.2 = p.1).
  { intros [n t] Hin%elem_of_map_to_list. by apply Hr in Hin as [? _]. }
  revert H. induction (map_to_list (rg_tasks r)) as [|p l IH]; intros H; [done|].
  csimpl. rewrite H by (by left). f_equal. apply IH. intros q Hq. apply H. by right.
Qed.

Definition idempotency_entry_of (r : TaskRegistry) (e : TaskIdempotencyConf) (t : RegisteredTask) : Prop :=
  ∃ p lane, idempotency_policy t = Some p ∧ find_lane (effective_lane t) (rg_lanes r) = Some lane ∧
    e = {| ic_handler := rt_name t; ic_lane := effective_lane t; ic_revision := ip_revision p;
           ic_retention := lc_idempotency_retention lane |}.

Lemma idempotency_entries_spec r tasks :
  Forall (λ t, is_Some (find_lane (effective_lane t) (rg_lanes r))) tasks →
  ∃ es, idempotency_entries (rg_lanes r) tasks = Ok es ∧
    ∀ e, e ∈ es ↔ ∃ t, t ∈ tasks ∧ idempotency_entry_of r e t.
Proof.
  induction 1 as [|t tasks [lane Hl] _ (es & Hes & IH)]; simpl.
  - exists []. split; [done|]. intros e. split; [by intros ?%elem_of_nil|].
    by intros (t & ?%elem_of_nil & _).
  - destruct (idempotency_policy t) as [p|] eqn:Hp.
    + unfold lane_retention. fold (find_lane (effective_lane t) (rg_lanes r)). rewrite Hl. simpl.
      rewrite Hes. simpl. eexists. split; [done|]. intros e. rewrite elem_of_cons, IH. split.
      * intros [->|(u & Hu & He)]; [|exists u; split; [by right|done]].
        exists t. split; [by left|]. by exists p, lane.
      * intros (u & [->|Hu]%elem_of_cons & He); [left|right; by exists u].
        destruct He as (p' & lane' & Hp' & Hl' & ->). congruence.
    + exists es. split; [done|]. intros e. rewrite IH. split.
      * intros (u & Hu & He). exists u. split; [by right|done].
      * intros (u & [->|Hu]%elem_of_cons & He); [|by exists u].
        destruct He as (p' & _ & Hp' & _). congruence.
Qed.
