(* ===== verification/SubmissionFacts.v ===== *)
(** * What the client builds

    Every write made from a typed input is a fresh record of its handler,
    within the configured limits ([built_write]), and a store configured from
    the same registry accepts its lane and handler. *)
From S2P Require Import Prelude Externals Failure Config Models Transitions Lifecycle.
From S2P Require Import MemoryState LaneLock Workflow Claims Atomic Evolution ClaimFacts.
From S2P Require Import Commits SubmissionTheorems Json Metrics Registry Submission.
From S2P Require Import Client RegistryFacts.
#[local] Open Scope Z_scope.

Section SubmissionFacts.
Context `{X : Externals, Y : Serialization}.

(** The text and the fingerprint a keyed or unkeyed write carries. *)
Definition key_recorded (t : RegisteredTask) (r : TaskRecord) : Prop :=
  match t_idempotency_key r with
  | None => t_idempotency_fingerprint r = None
  | Some k => 1 ≤ str_len k ≤ 512 ∧ ∃ p, idempotency_policy t = Some p ∧
      t_idempotency_fingerprint r = Some (blake3_hex (hashed_bytes [rt_name t; ip_revision p; t_input r]))
  end.

Record built_write (config : TaskConf) (t : RegisteredTask) (w : TaskWrite) : Prop := {
  bw_fresh : fresh_write w;
  bw_name : t_name (w_record w) = rt_name t;
  bw_lane : t_lane (w_record w) = effective_lane t;
  bw_kind : t_kind (w_record w) = task_kind t;
  bw_input : str_len (t_input (w_record w)) ≤ cf_max_payload_bytes config;
  bw_key : key_recorded t (w_record w);
  bw_detached : t_parent_id (w_record w) = None ∧ t_root_id (w_record w) = None;
  bw_delay : match w_initial_delay w with Some d => d ≤ MAX_TASK_DELAY | None => True end;
}.

(** ** The limits *)

Lemma validate_payload_ok payload limit : validate_payload payload limit = Ok tt → str_len payload ≤ limit.
Proof. unfold validate_payload. case_match eqn:H; [done|]. intros _. by apply Z.ltb_ge in H. Qed.

Lemma validate_key_ok k : validate_key (Some k) = Ok tt → 1 ≤ str_len k ≤ 512.
Proof.
  unfold validate_key. case_match eqn:H; [done|]. intros _. apply orb_false_iff in H as [H1 H2].
  apply Z.eqb_neq in H1. apply Z.ltb_ge in H2. pose proof (str_len_nonneg k). lia.
Qed.

Lemma validate_options_ok options :
  validate_options options = Ok tt →
  match op_initial_delay options with Some d => d ≤ MAX_TASK_DELAY | None => True end.
Proof.
  unfold validate_options. destruct (op_initial_delay options) as [d|]; [|done].
  destruct (_ <? _) eqn:H; [done|]. intros _. by apply Z.ltb_ge in H.
Qed.

Lemma fingerprint_of_ok key name input t print :
  fingerprint_of key name input t = Ok print →
  match key with
  | None => print = None
  | Some _ => ∃ p, idempotency_policy t = Some p ∧
      print = Some (blake3_hex (hashed_bytes [name; ip_revision p; input]))
  end.
Proof.
  unfold fingerprint_of, fingerprint. destruct key; [|by intros [= <-]]. intros H.
  apply result_bind_ok in H as (f & H & [= <-]).
  apply result_bind_ok in H as (p & Hp%ok_or_ok & [= <-]). eauto.
Qed.

(** The common end of both builders. *)
Lemma built_write_of config t input key print now drawn r drawn' conflicts delay :
  build_record (rt_name t) input key print (effective_lane t) (task_kind t) now drawn = (Ok r, drawn') →
  validate_payload input (cf_max_payload_bytes config) = Ok tt → validate_key key = Ok tt →
  fingerprint_of key (rt_name t) input t = Ok print →
  match delay with Some d => d ≤ MAX_TASK_DELAY | None => True end →
  built_write config t {| w_record := r; w_ignore_conflicts := conflicts; w_initial_delay := delay |} ∧
  t_id r = uuid_now_v7 drawn ∧ drawn' = S drawn ∧ t_input r = input ∧ t_idempotency_key r = key.
Proof.
  intros Hb Hp Hk Hf Hd. unfold build_record in Hb. run_ok.
  split; [|done]. apply validate_payload_ok in Hp. apply fingerprint_of_ok in Hf.
  split; simpl; try done. unfold key_recorded; simpl. destruct key as [k|]; [|done].
  split; [by apply validate_key_ok|done].
Qed.

(** The serialized form of an input: canonical when the task is keyed. *)
Definition serialized_input (key : option string) (input : Payload) : result TaskRuntimeError string :=
  if bool_decide (is_Some key) then canonical_json input else json_result (pl_text input).

Lemma build_write_spec t input options config now drawn w drawn' :
  build_write t (rt_name t) input options config now drawn = (Ok w, drawn') →
  validate_options options = Ok tt →
  built_write config t w ∧ t_id (w_record w) = uuid_now_v7 drawn ∧ drawn' = S drawn ∧
  w_ignore_conflicts w = op_ignore_conflicts options ∧ w_initial_delay w = op_initial_delay options ∧
  idempotency_key t input = Ok (t_idempotency_key (w_record w)) ∧
  serialized_input (t_idempotency_key (w_record w)) input = Ok (t_input (w_record w)).
Proof.
  intros H Ho. unfold build_write in H.
  apply bindM_liftR_ok in H as ([] & _ & H). apply bindM_liftR_ok in H as (key & Hkey & H).
  destruct (_ && _); [by run_ok|].
  apply bindM_liftR_ok in H as (text & Htext & H). apply bindM_liftR_ok in H as ([] & Hpay & H).
  apply bindM_liftR_ok in H as ([] & Hval & H). apply bindM_liftR_ok in H as (print & Hprint & H).
  apply bindM_ok in H as (r & d & Hr & H). unfold retM in H. simplify_eq.
  apply validate_options_ok in Ho.
  eapply built_write_of in Hr as (? & ? & ? & Hi & Hk); [|done..].
  simpl. rewrite Hi, Hk. split_and!; done.
Qed.

Lemma build_box_write_spec t input config now drawn w drawn' :
  build_box_write t input config now drawn = (Ok w, drawn') →
  built_write config t w ∧ t_id (w_record w) = uuid_now_v7 drawn ∧ drawn' = S drawn ∧
  w_ignore_conflicts w = false ∧ w_initial_delay w = None ∧ validate_box t input = Ok tt.
Proof.
  intros H. unfold build_box_write in H.
  apply bindM_liftR_ok in H as ([] & Hbox & H). apply bindM_liftR_ok in H as (v0 & _ & H).
  apply bindM_liftR_ok in H as (v & _ & H). apply bindM_liftR_ok in H as (key & Hkey & H).
  apply bindM_liftR_ok in H as (text & Htext & H). apply bindM_liftR_ok in H as ([] & Hpay & H).
  apply bindM_liftR_ok in H as ([] & Hval & H). apply bindM_liftR_ok in H as (print & Hprint & H).
  apply bindM_ok in H as (r & d & Hr & H). unfold retM in H. simplify_eq.
  eapply (built_write_of _ _ _ _ _ _ _ _ _ false None) in Hr as (? & ? & ? & ? & ?); [|done..].
  by split_and!.
Qed.

(** ** Batches *)

Lemma build_each_spec t inputs options config now acc drawn writes drawn' :
  build_each t (rt_name t) inputs options config now acc drawn = (Ok writes, drawn') →
  validate_options options = Ok tt →
  ∃ built, writes = acc ++ built ∧ (drawn' = drawn + length inputs)%nat ∧
    (built ≠ [] → zlen writes ≤ MAX_BATCH_SIZE) ∧
    t_id ∘ w_record <$> built = uuid_now_v7 <$> seq drawn (length inputs) ∧
    Forall2 (λ input w, built_write config t w ∧
      w_ignore_conflicts w = op_ignore_conflicts options ∧
      w_initial_delay w = op_initial_delay options ∧
      idempotency_key t input = Ok (t_idempotency_key (w_record w)) ∧
      serialized_input (t_idempotency_key (w_record w)) input = Ok (t_input (w_record w))) inputs built.
Proof.
  intros H Ho. revert acc drawn H. induction inputs as [|input inputs IH]; intros acc drawn H; simpl in H.
  - run_ok. exists []. rewrite app_nil_r. split_and!; [done|simpl; lia|done|done|constructor].
  - destruct (_ <=? _) eqn:Hlen; [done|]. apply Z.leb_gt in Hlen.
    apply bindM_ok in H as (w & d & Hw & H). apply build_write_spec in Hw as (Hb & Hid & -> & Hrest); [|done].
    apply IH in H as (built & -> & -> & Hmax & Hids & HF). exists (w :: built).
    rewrite <- app_assoc. split_and!; [done|simpl; lia| |csimpl; by rewrite Hids, <- Hid|constructor; tauto].
    intros _. destruct built; [|by rewrite <- app_assoc in Hmax; apply Hmax].
    rewrite zlen_app. unfold zlen in *. simpl. lia.
Qed.

Lemma mapM_M_prepare registry now inputs drawn writes drawn' :
  mapM_M inputs (prepare_member registry now) drawn = (Ok writes, drawn') →
  (drawn' = drawn + length inputs)%nat ∧
  t_id ∘ w_record <$> writes = uuid_now_v7 <$> seq drawn (length inputs) ∧
  Forall2 (λ input w, ∃ t, task_for_payload registry input = Ok t ∧
    built_write (rg_config registry) t w ∧ w_ignore_conflicts w = false ∧ w_initial_delay w = None)
    inputs writes.
Proof.
  revert drawn writes. induction inputs as [|input inputs IH]; intros drawn writes H; simpl in H; run_ok.
  - split_and!; [simpl; lia|done|constructor].
  - unfold prepare_member in E. run_ok.
    apply build_box_write_spec in E as (Hb & Hid & -> & Hi & Hd & _).
    apply IH in E0 as (-> & Hids & HF). split_and!; [simpl; lia|csimpl; by rewrite Hids, <- Hid|].
    constructor; [eauto 6|done].
Qed.

(** ** Acceptance by the store *)

(** A store configured from the registry accepts the lane and the handler of every built write. *)
Lemma built_write_accepted r conf n t w :
  finalized r → store_conf r = Ok conf → rg_tasks r !! n = Some t →
  built_write (rg_config r) t w →
  require_lane (Some conf) (t_lane (w_record w)) = Ok tt ∧
  require_handler (Some conf) (t_name (w_record w)) = Ok tt.
Proof.
  intros Hf Hc Ht Hb. destruct (finalized_ok r Hf) as [Hr Hl].
  unfold store_conf in Hc. apply result_bind_ok in Hc as (es & _ & [= <-]).
  unfold require_lane, require_handler. rewrite (bw_lane _ _ _ Hb), (bw_name _ _ _ Hb). simpl.
  rewrite (proj2 (existsb_exists _ _)), (proj2 (existsb_exists _ _)); [done| |].
  - exists (rt_name t, task_kind t). split; [|by apply String.eqb_refl].
    apply list_elem_of_In, list_elem_of_fmap. exists t. split; [done|].
    apply elem_registry_values; [done|]. by destruct (ro_named _ Hr _ _ Ht) as [-> _].
  - pose proof (la_lane _ Hl _ _ Ht) as (l & Hn & Hin)%list_elem_of_fmap. exists l.
    rewrite Hn. split; [by apply list_elem_of_In|apply String.eqb_refl].
Qed.

Lemma validate_write_lanes_each conf writes :
  Forall (λ w, require_lane conf (t_lane (w_record w)) = Ok tt ∧
               require_handler conf (t_name (w_record w)) = Ok tt) writes →
  validate_write_lanes conf writes = Ok tt.
Proof. induction 1 as [|w writes [H1 H2] _ IH]; simpl; [done|]. by rewrite H1, H2. Qed.

(** Identifiers drawn one after the other are distinct. *)
Lemma drawn_distinct `{L : !ExternalLaws X} drawn n :
  Z.of_nat (drawn + n) ≤ U64_MAX → NoDup (uuid_now_v7 <$> seq drawn n).
Proof.
  intros Hb. apply NoDup_fmap_2_strong; [|apply NoDup_seq].
  intros i j Hi%elem_of_seq Hj%elem_of_seq. apply uuid_now_v7_fresh; lia.
Qed.
End SubmissionFacts.

(** ** Groups *)

Section Groups.
Context `{X : Externals, L : !ExternalLaws X, Y : Serialization}.

(** The handler and key that two members of one group may not share. *)
Definition member_key (w : TaskWrite) : option (string * string) :=
  pair (t_name (w_record w)) <$> t_idempotency_key (w_record w).

(** A member built by the client, with a group's delay rules. *)
Definition member_ok (conf : TaskStoreConf) (w : TaskWrite) : Prop :=
  ∀ ids, t_id (w_record w) ∉ ids → invalid_child conf ids w = false.

Lemma built_member_ok r conf n t w :
  finalized r → store_conf r = Ok conf → rg_tasks r !! n = Some t →
  built_write (rg_config r) t w → w_ignore_conflicts w = false → member_ok conf w.
Proof.
  intros Hf Hc Ht Hb Hi ids Hid. destruct (finalized_ok r Hf) as [Hr _].
  pose proof (built_write_accepted r conf n t w Hf Hc Ht Hb) as [Hlane _].
  unfold invalid_child. rewrite Hi. cbn [orb].
  rewrite bool_decide_false by done.
  destruct Hb as [[Hst Hcan _ _ _ _ _ _] Hn Hla Hk _ Hkey _ Hd].
  rewrite Hst, Hcan. rewrite bool_decide_true by done.
  assert (Hdelay : match w_initial_delay w with Some delay => MAX_TASK_DELAY <? delay | None => false end = false).
  { destruct (w_initial_delay w); [by apply Z.ltb_ge|done]. }
  rewrite Hdelay.
  assert (Hh : has_handler (sc_handlers conf) (w_record w) = true).
  { unfold store_conf in Hc. apply result_bind_ok in Hc as (es & _ & [= <-]). unfold has_handler. simpl.
    apply existsb_exists. exists (rt_name t, task_kind t). split.
    - apply list_elem_of_In, list_elem_of_fmap. exists t. split; [done|].
      apply elem_registry_values; [done|]. by destruct (ro_named _ Hr _ _ Ht) as [-> _].
    - simpl. rewrite Hn, Hk, String.eqb_refl. by rewrite bool_decide_true. }
  rewrite Hh. unfold require_lane in Hlane. destruct (existsb _ (sc_lanes conf)); [|done]. simpl.
  unfold key_recorded in Hkey. destruct (t_idempotency_key (w_record w)) as [k|]; [|done].
  destruct Hkey as (_ & p & _ & ->). done.
Qed.

Lemma validate_members_ok conf ids keys children :
  Forall (member_ok conf) children →
  NoDup (t_id ∘ w_record <$> children) → (∀ w, w ∈ children → t_id (w_record w) ∉ ids) →
  NoDup (omap member_key children) → (∀ k, k ∈ omap member_key children → k ∉ keys) →
  validate_members conf ids keys children = Ok tt.
Proof.
  intros Hok. revert ids keys. induction Hok as [|w children Hw Hok IH]; intros ids keys Hn Hi Hk Hks; [done|].
  csimpl in *. apply NoDup_cons in Hn as [Hn1 Hn].
  rewrite Hw by (by apply Hi, elem_of_cons; left).
  assert (Hids : ∀ x, x ∈ children → t_id (w_record x) ∉ t_id (w_record w) :: ids).
  { intros x Hx. apply not_elem_of_cons. split; [|by apply Hi; right].
    intros He. apply Hn1. rewrite <- He. apply list_elem_of_fmap. by exists x. }
  unfold member_key in Hk, Hks. destruct (t_idempotency_key (w_record w)) as [k|]; simpl in Hk, Hks.
  - apply NoDup_cons in Hk as [Hk1 Hk]. rewrite bool_decide_false by (apply Hks; by left).
    apply IH; [done|done|done|]. intros y Hy. apply not_elem_of_cons. split; [|by apply Hks; right].
    by intros ->.
  - by apply IH.
Qed.
End Groups.

(** ** The client's contract with its store

    [TaskStoreLaws] is what a client relies on of any store it runs over; the
    in-memory store discharges it. The client's own bodies are then proved
    against the interface. *)

(** A row taken over by the node before the store answered. *)
Definition delivered_to (node : Uuid) (r : TaskRecord) : Prop :=
  t_status r = Running ∧ t_node_id r = Some node.

Class TaskStoreLaws {St} (T : TaskStore St) : Prop := {
  (** One receipt per write. *)
  law_stored writes now s receipts s' :
    ts_store_tasks writes now s = (Ok receipts, s') → length receipts = length writes;
  (** Admission stays within the permits it was given, and hands over only owned rows. *)
  law_admitted writes node limit now s receipts tasks s' :
    0 ≤ limit → ts_store_admitted writes node limit now s = (Ok (receipts, tasks), s') →
    length receipts = length writes ∧ zlen tasks ≤ limit ∧ Forall (delivered_to node) tasks;
}.

(** ** The in-memory store *)

Lemma mapM_M_length {S E A B} (l : list A) (f : A → M S E B) s bs s' :
  mapM_M l f s = (Ok bs, s') → length bs = length l.
Proof.
  revert s bs. induction l as [|a l IH]; intros s bs H; simpl in H; run_ok; [done|].
  simpl. f_equal. by eapply IH.
Qed.

Lemma locked_ok {E A} (m : M MemoryState E A) s a s' :
  locked m s = (Ok a, s') → ∃ ms, m (st_state s) = (Ok a, ms).
Proof. unfold locked, zoomM. destruct (m (st_state s)) as [r ms]. intros [= -> _]. eauto. Qed.

#[export] Instance memory_store_laws `{X : Externals} params :
  TaskStoreLaws (MemoryStoreInstance params).
Proof.
  split.
  - intros writes now s receipts s' H. cbn in H. apply locked_ok in H as (ms & H).
    unfold store_tasks in H. rewrite bindM_get in H. apply bindM_liftR_ok in H as (u & _ & H).
    destruct (stage_writes _ _ _ _) as [[rcs|e] staged] eqn:Hs; [|done]. run_ok.
    by eapply mapM_M_length.
  - intros writes node limit now s receipts tasks s' Hl H. cbn in H. apply locked_ok in H as (ms & H).
    unfold store_admitted in H. rewrite bindM_get in H. destruct (bool_decide _); [done|].
    apply bindM_liftR_ok in H as (u & _ & H).
    destruct (stage_writes _ _ _ _) as [[rcs|e] staged] eqn:Hs; [|done].
    apply bindM_liftR_ok in H as ([rows out] & Ha & H). run_ok. apply mapM_M_length in Hs.
    split; [done|]. destruct (ms_conf _) as [conf|]; [|by simplify_eq].
    apply admit_staged_spec in Ha as [-> _]. simpl. rewrite Z.sub_0_r. split.
    + unfold zlen. rewrite length_fmap, length_take. lia.
    + apply Forall_fmap, Forall_forall. by intros r _.
Qed.

(** ** Running one part of a client's state *)

Section ClientRuns.
Context `{X : Externals, Y : Serialization} {St : Type} {T : TaskStore St}.

Lemma on_store_run {A} (m : M St TaskRuntimeError A) c :
  on_store m c = (match (m (cs_store c)).1 with Ok a => Ok a | Err e => Err (Fails e) end,
                  put_store (m (cs_store c)).2 c).
Proof. unfold on_store, aborting, zoomM. by destruct (m (cs_store c)) as [[a|e] s]. Qed.

Lemma drawing_run {A} (m : M nat TaskRuntimeError A) (c : ClientState St) :
  drawing m c = (match (m (ts_drawn (cs_store c))).1 with Ok a => Ok a | Err e => Err (Fails e) end,
                 put_store (ts_put_drawn (m (ts_drawn (cs_store c))).2 (cs_store c)) c).
Proof.
  unfold drawing. rewrite on_store_run. unfold zoomM.
  by destruct (m (ts_drawn (cs_store c))) as [[a|e] n].
Qed.

Lemma recording_run m (c : ClientState St) :
  records m → metrics_ok (cs_metrics c) →
  ∃ v, client_recording m c = (Ok tt, put_metrics v c) ∧ metrics_ok v ∧
    mx_handlers v = mx_handlers (cs_metrics c) ∧ mx_lanes v = mx_lanes (cs_metrics c).
Proof.
  intros Hm Hok. destruct (Hm _ Hok) as (v & Hv & ? & ? & ?). exists v.
  unfold client_recording, aborting, zoomM. rewrite Hv. by split_and!.
Qed.

Lemma checked_run {A} (r : result TaskRuntimeError A) (c : ClientState St) :
  client_checked r c = (match r with Ok a => Ok a | Err e => Err (Fails e) end, c).
Proof. unfold client_checked, aborting, liftR. by destruct r. Qed.
End ClientRuns.

(** What the ingress channel holds is within its capacity. *)
Definition within_capacity {St} (client : TaskClient) (c : ClientState St) : Prop :=
  match tc_ingress client with Some (_, capacity) => zlen (cs_queue c) ≤ capacity | None => True end.

(** What storing one batch of writes does to a client. *)
Definition stored_batch {St} (client : TaskClient) (writes : list TaskWrite)
    (r : result Abort (list TaskReceipt)) (c c' : ClientState St) : Prop :=
  cs_events c' = cs_events c ∧ cs_metrics c' = cs_metrics c ∧ within_capacity client c' ∧
  match r with
  | Ok receipts => length receipts = length writes ∧
      ∃ admitted, cs_queue c' = cs_queue c ++ admitted ∧ (length admitted ≤ length writes)%nat ∧
        match tc_ingress client with
        | Some (node, _) => Forall (delivered_to node) admitted
        | None => admitted = []
        end
  | Err (Fails e) => cs_queue c' = cs_queue c
  | Err (Panics _) => False
  end.

Section StoreInputs.
Context `{X : Externals, Y : Serialization} {St : Type} {T : TaskStore St} {TL : TaskStoreLaws T}.
Context (client : TaskClient).

Lemma store_plain_spec writes now c r c' :
  on_store (ts_store_tasks writes now) c = (r, c') → within_capacity client c →
  stored_batch client writes r c c'.
Proof.
  rewrite on_store_run. destruct (ts_store_tasks writes now (cs_store c)) as [[rs|e] s] eqn:Hs;
    intros H Hw; simplify_eq/=; (split; [done|split; [done|split; [exact Hw|]]]); [|done].
  split; [by eapply law_stored|]. exists []. rewrite app_nil_r.
  split_and!; [done|simpl; lia|]. by destruct (tc_ingress client) as [[n k]|].
Qed.

(** The permits reserved are never exceeded, so the reserved-capacity error cannot occur. *)
Lemma store_inputs_spec writes now c r c' :
  store_inputs client writes now c = (r, c') → within_capacity client c →
  stored_batch client writes r c c'.
Proof.
  unfold store_inputs. intros H Hw. destruct (tc_ingress client) as [[node capacity]|] eqn:Hi;
    [|by eapply store_plain_spec].
  rewrite bindM_get in H. set (permits := reserved writes capacity (cs_queue c)) in *.
  assert (Hp : 0 ≤ permits ≤ zlen writes ∧ (0 < permits → zlen (cs_queue c) + permits ≤ capacity)).
  { subst permits. unfold reserved. pose proof (zlen_nonneg writes). lia. }
  destruct (Z.eqb_spec permits 0) as [|Hne]; [by eapply store_plain_spec|].
  unfold bindM in H. rewrite on_store_run in H.
  destruct (ts_store_admitted writes node permits now (cs_store c)) as [[[rs tasks]|e] s] eqn:Hs; simpl in H.
  - apply law_admitted in Hs as (Hlen & Hmax & Hown); [|lia].
    destruct (Z.ltb_spec permits (zlen tasks)) as [|_]; [lia|].
    unfold modifyM, retM in H. simplify_eq/=. unfold stored_batch, within_capacity in *.
    rewrite Hi in *. simpl. split_and!; [done|done|rewrite zlen_app; lia|done|].
    exists tasks. split_and!; [done| |done]. unfold zlen in *. lia.
  - simplify_eq/=. unfold stored_batch, within_capacity in *. rewrite Hi in *. by split_and!.
Qed.
End StoreInputs.
