(* ===== verification/RegistryTheorems.v ===== *)
(** * The typed index of a registry

    First a small registry on which the client's theorems are instantiated (a
    keyed single handler, a batch handler and a flow, declared, finalized with
    the default configuration and its flows prepared), then what holds of every
    registry a program can build. *)
From S2P Require Import Prelude Externals Failure Config Models Transitions Lifecycle.
From S2P Require Import Json Registry Submission RegistryFacts.
#[local] Open Scope Z_scope.

(** Texts stand for their JSON values; the digest is the identity. *)
Fixpoint demo_value_text (v : Json) : string :=
  match v with
  | JNull => "null"
  | JBool b => if b then "true" else "false"
  | JNumber s => s
  | JString s => DemoExternals.demo_json_string s
  | JArray l => "[" +:+ String.concat "," (List.map demo_value_text l) +:+ "]"
  | JObject m =>
      "{" +:+ String.concat ","
        (List.map (λ p, DemoExternals.demo_json_string p.1 +:+ ":" +:+ demo_value_text p.2) m) +:+ "}"
  end.

Module DemoSerialization.
#[export] Instance serialization : Serialization := {|
  value_text v := Ok (demo_value_text v);
  failure_text f := Ok ("{" +:+ failure_message f +:+ "}");
  blake3_hex s := s;
|}.
End DemoSerialization.

Definition demo_payload (type : TypeId) (v : Json) : Payload :=
  {| pl_type := type; pl_type_name := "demo"; pl_value := Ok v; pl_text := Ok (demo_value_text v);
     pl_wire := true |}.

(** Decodes any text as a payload of the type. *)
Definition demo_decode (type : TypeId) (text : string) : option Payload :=
  Some (demo_payload type (JString text)).

Definition mail_type : TypeId := 1%N.
Definition image_type : TypeId := 2%N.
Definition order_type : TypeId := 3%N.

Definition mail_task : RegisteredTask :=
  registered_new
    (definition_idempotency {| ti_revision := "v1"; ti_key := λ p, match pl_text p with Ok t => Some t | Err _ => None end |}
       (task_definition_new mail_type "Mail" "mail"))
    (HSingle {| ca_decode := demo_decode mail_type; ca_call := λ _ _, Some BoxUnit |}).

(** Fails the second of its items. *)
Definition image_task : RegisteredTask :=
  registered_new (task_definition_new image_type "Image" "image")
    (HBatch {| bc_decode := demo_decode image_type;
               bc_call := λ items, Some (BoxOutcomes (imap (λ i _, if (i =? 1)%nat then OutFail "no" else OutComplete) items)) |}).

(** Spawns one mail. *)
Definition order_task : RegisteredTask :=
  registered_new (task_definition_new order_type "Order" "order")
    (HFlowFactory (Some (inr {| ca_decode := demo_decode order_type;
      ca_call := λ _ _, Some (BoxFlow (FlowSpawn (demo_payload mail_type (JString "hi")) "{}" task_options_new)) |}))).

Definition demo_declared : TaskRegistry :=
  (register order_task (register image_task (register mail_task registry_new).2).2).2.

#[local] Existing Instance DemoExternals.externals.

Definition or_new (r : result TaskRuntimeError TaskRegistry) : TaskRegistry :=
  match r with Ok r => r | Err _ => registry_new end.
Definition demo_finalized : TaskRegistry := or_new (finalize task_conf_default demo_declared).
Definition demo_registry : TaskRegistry := or_new (prepare_flows demo_finalized).

(** The registry is one a program can build and finalize. *)
Lemma demo_declared_ok : finalize task_conf_default demo_declared = Ok demo_finalized.
Proof. vm_compute. reflexivity. Qed.
Lemma demo_prepared_ok : prepare_flows demo_finalized = Ok demo_registry.
Proof. vm_compute. reflexivity. Qed.

(** ** Properties of the registry

    What registration and finalization promise to clients, stores and runners. *)

(** C35: in every registry a program can build, whatever declarations and merges succeed or
    fail, a payload resolves to a handler exactly when one is registered for its type, that
    handler is stored under its own valid name and accepts the payload's box, and no two
    handlers share an input type. *)
Theorem typed_index_is_exact r :
  built r →
  (∀ input t, task_for_payload r input = Ok t ↔
     rg_tasks r !! rt_name t = Some t ∧ validate_box t input = Ok tt) ∧
  (∀ n t, rg_tasks r !! n = Some t → rt_name t = n ∧ validate_task_name n = Ok tt) ∧
  (∀ n m t u, rg_tasks r !! n = Some t → rg_tasks r !! m = Some u →
     rt_type_id t = rt_type_id u → n = m).
Proof.
  intros Hb. pose proof (built_ok r Hb) as [Hn Ht _ _]. split_and!.
  - intros input t. unfold task_for_payload, validate_box. split.
    + intros H. apply result_bind_ok in H as (n & H1%ok_or_ok & H2%ok_or_ok).
      destruct (Hn _ _ H2) as [-> _]. split; [done|].
      apply Ht in H1 as (u & Hu & <-). simplify_eq. by rewrite N.eqb_refl.
    + intros [H1 H2]. destruct (N.eqb_spec (rt_type_id t) (pl_type input)) as [He|]; [|done].
      assert (H : rg_typed_map r !! pl_type input = Some (rt_name t)) by (apply Ht; eauto).
      rewrite H. simpl. by rewrite H1.
  - exact Hn.
  - intros n m t u H1 H2 He.
    assert (Ha : rg_typed_map r !! rt_type_id t = Some n) by (apply Ht; eauto).
    assert (Hc : rg_typed_map r !! rt_type_id t = Some m) by (apply Ht; eauto). congruence.
Qed.

(** every finalized registry has a store configuration, and it describes exactly the
    registry: each handler once with its kind, the resolved lanes, and for each keyed handler one
    idempotency entry with its effective lane, its revision and that lane's retention. *)
Theorem store_conf_describes_registry `{X : Externals} r :
  finalized r →
  ∃ conf, store_conf r = Ok conf ∧ sc_lanes conf = rg_lanes r ∧
    sc_max_all_children conf = cf_max_all_children (rg_config r) ∧
    NoDup (sc_handlers conf).*1 ∧
    (∀ n k, (n, k) ∈ sc_handlers conf ↔ ∃ t, rg_tasks r !! n = Some t ∧ task_kind t = k) ∧
    (∀ e, e ∈ sc_idempotency conf ↔
       ∃ t, rg_tasks r !! ic_handler e = Some t ∧ idempotency_entry_of r e t).
Proof.
  intros Hf. destruct (finalized_ok r Hf) as [Hr Hl].
  destruct (idempotency_entries_spec r (registry_values r)) as (es & Hes & Hspec).
  { apply Forall_forall. intros t Ht%elem_registry_values; [|done]. apply elem_lane_find.
    by eapply la_lane. }
  unfold store_conf, idempotency_conf. rewrite Hes. simpl. eexists. split; [done|]. simpl.
  split_and!; [done|done| | |].
  - rewrite <- list_fmap_compose. cbn.
    replace (fst ∘ _ <$> registry_values r) with (rt_name <$> registry_values r) by done.
    rewrite registry_values_names by done. apply NoDup_fst_map_to_list.
  - intros n k. rewrite list_elem_of_fmap. split.
    + intros (t & [= -> ->] & Ht%elem_registry_values); [|done]. by exists t.
    + intros (t & Ht & <-). exists t. destruct (ro_named _ Hr _ _ Ht) as [<- _].
      split; [done|]. by apply elem_registry_values.
  - intros e. rewrite Hspec. split.
    + intros (t & Ht%elem_registry_values & He); [|done]. exists t. split; [|done].
      by destruct He as (p & lane & _ & _ & ->).
    + intros (t & Ht & He). exists t. split; [|done]. apply elem_registry_values; [done|].
      by destruct (ro_named _ Hr _ _ Ht) as [<- _] in Ht.
Qed.

(** ** Witnesses *)

Lemma demo_declared_built : built demo_declared.
Proof. do 3 apply built_register. apply built_new. Qed.

#[local] Existing Instance DemoExternals.externals.

Lemma demo_finalized_finalized : finalized demo_finalized.
Proof. exact (finalized_by _ _ _ demo_declared_built demo_declared_ok). Qed.
Lemma demo_registry_finalized : finalized demo_registry.
Proof. exact (finalized_prepared _ _ demo_finalized_finalized demo_prepared_ok). Qed.

Lemma typed_index_is_exact_witness :
  task_for_payload demo_declared (demo_payload mail_type JNull) = Ok mail_task ∧
  validate_box mail_task (demo_payload mail_type JNull) = Ok tt.
Proof.
  destruct (typed_index_is_exact demo_declared demo_declared_built) as (H & _ & _).
  assert (Ht : task_for_payload demo_declared (demo_payload mail_type JNull) = Ok mail_task)
    by (vm_compute; reflexivity).
  split; [exact Ht|]. apply H. exact Ht.
Defined.

Lemma store_conf_describes_registry_witness :
  ∃ conf, store_conf demo_registry = Ok conf ∧ ("order", Flow)%string ∈ sc_handlers conf.
Proof.
  destruct (store_conf_describes_registry demo_registry demo_registry_finalized)
    as (conf & Hc & _ & _ & _ & Hh & _).
  exists conf. split; [exact Hc|]. apply Hh.
  destruct (rg_tasks demo_registry !! "order"%string) as [t|] eqn:Ht; [|vm_compute in Ht; discriminate].
  exists t. split; [reflexivity|]. vm_compute in Ht. injection Ht as <-. reflexivity.
Defined.
