(* ===== verification/ClientTheorems.v ===== *)
(** * Properties of the task client

    What a client builds is what a store accepts; a submission's effect on the
    store, the local runner's channel and the counters; canonical inputs. *)
From S2P Require Import Prelude Externals Failure Config Models Transitions.
From S2P Require Import Lifecycle MemoryState LaneLock Workflow Evolution.
From S2P Require Import Claims ClaimFacts Commits Atomic.
From S2P Require Import SubmissionTheorems Json Metrics Registry RegistryFacts.
From S2P Require Import Submission SubmissionFacts Handlers Client RegistryTheorems.
From S2P Require Import StoreSpec.
#[local] Open Scope Z_scope.

Section Writes.
Context `{X : Externals, L : !ExternalLaws X, Y : Serialization}.

(** C33: every write the client builds for a handler of a finalized registry is accepted by a
    store configured from that registry (lane and handler), is fresh, within the payload and key
    limits and the batch limit, in the order of the inputs with the input's text and the key its
    policy gives, and no two of them share an identifier. *)
Theorem submitted_writes_are_admissible r conf n t inputs options now drawn writes drawn' :
  finalized r → store_conf r = Ok conf → rg_tasks r !! n = Some t →
  Z.of_nat (drawn + length inputs) ≤ U64_MAX →
  build_writes t n inputs options (rg_config r) now drawn = (Ok writes, drawn') →
  validate_write_lanes (Some conf) writes = Ok tt ∧
  NoDup (t_id ∘ w_record <$> writes) ∧ zlen writes ≤ MAX_BATCH_SIZE ∧
  Forall2 (λ input w, built_write (rg_config r) t w ∧
    w_ignore_conflicts w = op_ignore_conflicts options ∧
    w_initial_delay w = op_initial_delay options ∧
    idempotency_key t input = Ok (t_idempotency_key (w_record w)) ∧
    serialized_input (t_idempotency_key (w_record w)) input = Ok (t_input (w_record w)))
    inputs writes.
Proof.
  intros Hf Hc Ht Hd H. destruct (finalized_ok r Hf) as [Hr _].
  destruct (ro_named _ Hr _ _ Ht) as [<- _]. unfold build_writes in H.
  apply bindM_liftR_ok in H as ([] & Ho & H).
  apply build_each_spec in H as (built & -> & _ & Hmax & Hids & HF); [|done]. simpl in *.
  split_and!; [| |destruct built; [done|by apply Hmax]|done].
  - apply validate_write_lanes_each, Forall_lookup. intros i w Hw.
    destruct (Forall2_lookup_r _ _ _ _ _ HF Hw) as (x & _ & Hb & _). by eapply built_write_accepted.
  - rewrite Hids. by apply drawn_distinct.
Qed.

(** A child write of a flow: a fresh, accepted write of the handler its payload resolves to. *)
Definition admissible_child (r : TaskRegistry) (conf : TaskStoreConf) (input : Payload) (w : TaskWrite) : Prop :=
  validate_write_lanes (Some conf) [w] = Ok tt ∧ w_ignore_conflicts w = false ∧
  ∃ t, task_for_payload r input = Ok t ∧ built_write (rg_config r) t w.

(** A flow's request resolves to what the store admits: a group of admissible writes of the
    inputs in order, within the configured size, that passes the store's group validation unless
    two members share a handler and key; one child with the requested delay; or the outcome as
    given; and the checkpoint is within the payload limit. *)
Theorem flow_requests_are_admissible r conf state now drawn outcome drawn' :
  finalized r → store_conf r = Ok conf →
  resolve_owned r state now drawn = (Ok outcome, drawn') → Z.of_nat drawn' ≤ U64_MAX →
  match state with
  | FlowComplete => outcome = OutComplete
  | FlowOutcome o => outcome = o
  | FlowAll inputs checkpoint => ∃ children, outcome = OutAll checkpoint children ∧
      str_len checkpoint ≤ cf_max_payload_bytes (rg_config r) ∧
      Forall2 (admissible_child r conf) inputs children ∧
      zlen children ≤ sc_max_all_children conf ∧
      (NoDup (omap member_key children) → validate_group children conf = Ok tt)
  | FlowSpawn input checkpoint options => ∃ child, outcome = OutSpawn checkpoint child ∧
      str_len checkpoint ≤ cf_max_payload_bytes (rg_config r) ∧
      admissible_child r conf input child ∧ w_initial_delay child = op_initial_delay options
  end.
Proof.
  intros Hf Hc H Hd. destruct (finalized_ok r Hf) as [Hr _].
  assert (Hacc : ∀ input t w, task_for_payload r input = Ok t → built_write (rg_config r) t w →
    validate_write_lanes (Some conf) [w] = Ok tt).
  { intros input t w Ht Hb. unfold task_for_payload in Ht.
    apply result_bind_ok in Ht as (n & _ & Ht%ok_or_ok).
    apply validate_write_lanes_each. constructor; [|constructor]. by eapply built_write_accepted. }
  destruct state as [|o|inputs checkpoint|input checkpoint options]; simpl in H.
  - unfold retM in H. by simplify_eq.
  - unfold retM in H. by simplify_eq.
  - unfold prepare_all in H. destruct (_ <? _) eqn:Hlen; [done|]. apply Z.ltb_ge in Hlen.
    apply bindM_liftR_ok in H as ([] & Hpay%validate_payload_ok & H).
    apply bindM_ok in H as (children & d & Hm & H). unfold retM in H. simplify_eq.
    apply mapM_M_prepare in Hm as (-> & Hids & HF). exists children.
    unfold store_conf in Hc. apply result_bind_ok in Hc as (es & Hes & [= <-]).
    assert (Hlen' : zlen children ≤ cf_max_all_children (rg_config r))
      by (unfold zlen; by rewrite <- (Forall2_length _ _ _ HF)).
    split_and!; [done|done| |done|].
    + eapply Forall2_impl; [exact HF|]. intros input w (t & Ht & Hb & Hi & _).
      split_and!; [by eapply Hacc|done|by exists t].
    + intros Hkeys. unfold validate_group. simpl. rewrite (proj2 (Z.ltb_ge _ _)) by done.
      apply validate_members_ok; [|rewrite Hids; apply drawn_distinct; lia|by intros ? ? ?%elem_of_nil|done
        |by intros ? ? ?%elem_of_nil].
      apply Forall_lookup. intros i w Hw.
      destruct (Forall2_lookup_r _ _ _ _ _ HF Hw) as (x & _ & t & Ht & Hb & Hi & _).
      unfold task_for_payload in Ht. apply result_bind_ok in Ht as (n & _ & Ht%ok_or_ok).
      eapply built_member_ok; [done| |done|done|done].
      unfold store_conf. rewrite Hes. done.
  - unfold prepare_child in H. apply bindM_liftR_ok in H as ([] & Ho & H).
    apply bindM_liftR_ok in H as ([] & Hpay%validate_payload_ok & H).
    apply bindM_ok in H as (child & d & Hm & H). unfold retM in H. simplify_eq.
    unfold prepare_member in Hm. apply bindM_liftR_ok in Hm as (t & Ht & Hm).
    apply build_box_write_spec in Hm as (Hb & _ & _ & Hi & Hdel & _).
    exists (with_initial_delay (op_initial_delay options) child).
    assert (Hb' : built_write (rg_config r) t (with_initial_delay (op_initial_delay options) child)).
    { destruct Hb. split; try done. simpl. unfold validate_spawn_options in Ho.
      destruct (op_ignore_conflicts options); [done|]. by apply validate_options_ok. }
    split_and!; [done|done| |done]. split_and!; [by eapply Hacc|done|by exists t].
Qed.

(** Canonicalization decides whether two JSON values differ only in the order of members,
    and so two keyed submissions of such values carry the same text and the same fingerprint:
    the store answers the later one with the task that holds the key, not with a conflict. *)
Theorem reordered_input_is_the_same_submission t input input' v v' options config now now' d d' w w' e e' k :
  json_wf v → pl_value input = Ok v → pl_value input' = Ok v' →
  validate_options options = Ok tt →
  build_write t (rt_name t) input options config now d = (Ok w, e) →
  build_write t (rt_name t) input' options config now' d' = (Ok w', e') →
  t_idempotency_key (w_record w) = Some k → t_idempotency_key (w_record w') = Some k →
  (canonical_value v = canonical_value v' ↔ same_json v v') ∧
  (same_json v v' →
   t_input (w_record w') = t_input (w_record w) ∧
   t_idempotency_fingerprint (w_record w') = t_idempotency_fingerprint (w_record w) ∧
   ∀ existing owner ready later,
     requested_ready later w' = Ok ready →
     existsb (has_id (t_id (w_record w'))) existing = false →
     matching_key existing [] (stamp later ready (w_record w')) later = Some owner →
     t_idempotency_fingerprint owner = t_idempotency_fingerprint (w_record w) →
     stage_write existing w' later [] = (Ok (Existing (t_id owner)), [])).
Proof.
  intros Hwf Hv Hv' Ho Hw Hw' Hk Hk'. split; [by apply canonical_iff_same|]. intros Hs.
  apply build_write_spec in Hw as (Hb & _ & _ & _ & _ & _ & Hi); [|done].
  apply build_write_spec in Hw' as (Hb' & _ & _ & _ & _ & _ & Hi'); [|done].
  rewrite Hk in Hi. rewrite Hk' in Hi'. unfold serialized_input, canonical_json in Hi, Hi'.
  rewrite Hv in Hi. rewrite Hv' in Hi'. simpl in Hi, Hi'. unfold canonical_json_value in Hi, Hi'.
  rewrite (canonical_respects_same v v') in Hi by done.
  assert (Hin : t_input (w_record w') = t_input (w_record w)) by congruence.
  assert (Hf : t_idempotency_fingerprint (w_record w') = t_idempotency_fingerprint (w_record w)).
  { pose proof (bw_key _ _ _ Hb) as H1. pose proof (bw_key _ _ _ Hb') as H2.
    unfold key_recorded in H1, H2. rewrite Hk in H1. rewrite Hk' in H2.
    destruct H1 as (_ & p & Hp & ->), H2 as (_ & p' & Hp' & ->). congruence. }
  split_and!; [done|done|]. intros existing owner ready later Hr Hid Hm Hown.
  rewrite stage_write_run, Hr. simpl. rewrite app_nil_r, Hid, Hm.
  rewrite bool_decide_true; [done|]. by rewrite Hown, <- Hf.
Qed.
End Writes.

Section Effect.
Context `{X : Externals, Y : Serialization} {St : Type} {T : TaskStore St} {TL : TaskStoreLaws T}.
Context (client : TaskClient).

Lemma build_each_length t name inputs options config now acc drawn writes drawn' :
  build_each t name inputs options config now acc drawn = (Ok writes, drawn') →
  length writes = (length acc + length inputs)%nat.
Proof.
  revert acc drawn. induction inputs as [|input inputs IH]; intros acc drawn H; simpl in H; [run_ok; simpl; lia|].
  destruct (_ <=? _); [done|]. apply bindM_ok in H as (w & d & _ & H). apply IH in H.
  rewrite length_app in H. simpl in *. lia.
Qed.

Lemma outcome_of_run {A} (m : M (ClientState St) Abort A) c :
  outcome_of m c = match m c with
                   | (Ok a, c') => (Ok (Ok a), c')
                   | (Err (Fails e), c') => (Ok (Err e), c')
                   | (Err (Panics p), c') => (Err (Panics p), c')
                   end.
Proof. reflexivity. Qed.

(** C34: over any store that keeps the store's laws, a submission never panics and keeps the
    counters and the local channel within bounds (the reserved-capacity error is unreachable); on
    success there is one receipt per input, the rows pushed to the local runner are owned by it
    and at most one per input, and the runner is woken exactly when something was queued; on
    failure nothing is pushed and nobody is woken. *)
Theorem submission_effect type inputs options now c r c' :
  within_capacity client c → metrics_ok (cs_metrics c) →
  submit_many_with client type inputs options now c = (r, c') →
  metrics_ok (cs_metrics c') ∧ within_capacity client c' ∧
  match r with
  | Ok receipts => length receipts = length inputs ∧
      cs_events c' = cs_events c ++ (if existsb is_queued receipts then [EventWake] else []) ∧
      ∃ admitted, cs_queue c' = cs_queue c ++ admitted ∧ (length admitted ≤ length inputs)%nat ∧
        match tc_ingress client with
        | Some (node, _) => Forall (delivered_to node) admitted
        | None => admitted = []
        end
  | Err (Fails _) => cs_queue c' = cs_queue c ∧ cs_events c' = cs_events c
  | Err (Panics _) => False
  end.
Proof.
  intros Hw Hm. unfold submit_many_with. destruct inputs as [|i0 inputs0].
  { intros [= <- <-]. split_and!; [done|done|done|by rewrite app_nil_r|]. exists [].
    rewrite app_nil_r. split_and!; [done|done|by destruct (tc_ingress client) as [[n k]|]]. }
  set (inputs := i0 :: inputs0). unfold bindM at 1. rewrite checked_run.
  destruct (task_name client type) as [name|e]; [|intros [= <- <-]; by split_and!].
  unfold bindM at 1. rewrite checked_run.
  destruct (ok_or _ _) as [service|e]; [|intros [= <- <-]; by split_and!].
  unfold bindM at 1. rewrite drawing_run.
  destruct (build_writes service name inputs options _ now (ts_drawn (cs_store c)))
    as [[writes|e] d] eqn:Hb; simpl; [|intros [= <- <-]; by split_and!].
  unfold build_writes in Hb. apply bindM_liftR_ok in Hb as ([] & _ & Hb).
  apply build_each_length in Hb. simpl in Hb.
  set (c1 := put_store _ c). unfold bindM at 1. rewrite outcome_of_run.
  destruct (store_inputs client writes now c1) as [stored c2] eqn:Hs.
  apply store_inputs_spec in Hs as (Hev & Hmx & Hcap & Hs); [|done]. simpl in Hev, Hmx.
  assert (Hrec : ∀ result, ∃ v, client_recording (submission name result) c2 = (Ok tt, put_metrics v c2) ∧ metrics_ok v).
  { intros result. destruct (recording_run (submission name result) c2) as (v & ? & ? & _);
      [apply submission_records|by rewrite Hmx|by exists v]. }
  destruct stored as [receipts|[e|p]]; [| |done].
  - destruct Hs as (Hlen & admitted & Hq & Hmax & Hown). simpl in Hq.
    destruct (Hrec (Ok receipts)) as (v & Hv & Hvok). unfold bindM at 1. rewrite Hv.
    unfold bindM at 1. rewrite checked_run.
    assert (Hl : length writes = length inputs) by (rewrite Hb; done). rewrite Hl in Hlen, Hmax.
    destruct (existsb is_queued receipts) eqn:Hx; unfold bindM, notify, modifyM, retM; intros [= <- <-];
      simpl; (split_and!; [done|done|done|by rewrite Hx, Hev, ?app_nil_r|]);
      exists admitted; by split_and!.
  - destruct (Hrec (Err e)) as (v & Hv & Hvok). unfold bindM at 1. rewrite Hv.
    unfold bindM at 1. rewrite checked_run. intros [= <- <-]. simpl. split_and!; [done|done|done|done].
Qed.
End Effect.

(** ** Witnesses *)

#[local] Existing Instances DemoExternals.externals DemoExternals.laws DemoSerialization.serialization.

Definition demo_registry_conf : TaskStoreConf :=
  match store_conf demo_registry with Ok c => c | Err _ => demo_conf end.
Lemma demo_registry_conf_ok : store_conf demo_registry = Ok demo_registry_conf.
Proof. vm_compute. reflexivity. Qed.

(** Two keyed mails, with the members of an object in either order. *)
Definition mail_input (swap : bool) : Payload :=
  demo_payload mail_type (JObject (if swap then [("b", JNull); ("a", JBool true)] else [("a", JBool true); ("b", JNull)])%string).

Definition demo_task (n : string) : RegisteredTask :=
  match rg_tasks demo_registry !! n with Some t => t | None => mail_task end.

Lemma submitted_writes_are_admissible_witness :
  ∃ writes, build_writes (demo_task "mail") "mail" [mail_input true; mail_input false] task_options_new
      (rg_config demo_registry) 5 7%nat = (Ok writes, 9%nat) ∧
    validate_write_lanes (Some demo_registry_conf) writes = Ok tt ∧ NoDup (t_id ∘ w_record <$> writes).
Proof.
  destruct (build_writes (demo_task "mail") "mail" [mail_input true; mail_input false] task_options_new
    (rg_config demo_registry) 5 7%nat) as [[writes|e] d] eqn:H; [|vm_compute in H; discriminate].
  assert (Hd : d = 9%nat) by (vm_compute in H; injection H as _ <-; reflexivity). subst d.
  exists writes. split; [reflexivity|].
  assert (Ht : rg_tasks demo_registry !! "mail"%string = Some (demo_task "mail")) by (vm_compute; reflexivity).
  destruct (submitted_writes_are_admissible demo_registry demo_registry_conf "mail" (demo_task "mail")
    [mail_input true; mail_input false] task_options_new 5 7%nat writes 9%nat demo_registry_finalized
    demo_registry_conf_ok Ht ltac:(simpl; unfold U64_MAX; lia) H) as (Hv & Hn & _).
  split; [exact Hv|exact Hn].
Defined.

(** The flow of the demo registry spawns one mail. *)
Lemma flow_requests_are_admissible_witness :
  ∃ child, resolve_owned demo_registry (FlowSpawn (mail_input true) "{}" task_options_new) 5 7%nat
      = (Ok (OutSpawn "{}" child), 8%nat) ∧
    admissible_child demo_registry demo_registry_conf (mail_input true) child.
Proof.
  destruct (resolve_owned demo_registry (FlowSpawn (mail_input true) "{}" task_options_new) 5 7%nat)
    as [[outcome|e] d] eqn:H; [|vm_compute in H; discriminate].
  assert (Hd : d = 8%nat) by (vm_compute in H; injection H as _ <-; reflexivity). subst d.
  destruct (flow_requests_are_admissible demo_registry demo_registry_conf
    (FlowSpawn (mail_input true) "{}" task_options_new) 5 7%nat outcome 8%nat demo_registry_finalized
    demo_registry_conf_ok H ltac:(unfold U64_MAX; lia)) as (child & -> & _ & Ha & _).
  exists child. split; [reflexivity|exact Ha].
Defined.

(** The key of a mail is its text, so the demo uses a constant key. *)
Definition notice_task : RegisteredTask :=
  registered_new (definition_idempotency {| ti_revision := "v1"; ti_key := λ _, Some "once"%string |}
    (task_definition_new mail_type "Mail" "mail")) (HSingle {| ca_decode := demo_decode mail_type; ca_call := λ _ _, Some BoxUnit |}).

Lemma reordered_input_is_the_same_submission_witness :
  ∃ w w', build_write notice_task "mail" (mail_input true) task_options_new task_conf_default 5 7%nat = (Ok w, 8%nat) ∧
    build_write notice_task "mail" (mail_input false) task_options_new task_conf_default 6 8%nat = (Ok w', 9%nat) ∧
    t_idempotency_fingerprint (w_record w') = t_idempotency_fingerprint (w_record w).
Proof.
  destruct (build_write notice_task "mail" (mail_input true) task_options_new task_conf_default 5 7%nat)
    as [[w|e] d] eqn:H; [|vm_compute in H; discriminate].
  destruct (build_write notice_task "mail" (mail_input false) task_options_new task_conf_default 6 8%nat)
    as [[w'|e] d'] eqn:H'; [|vm_compute in H'; discriminate].
  assert (Hd : d = 8%nat ∧ t_idempotency_key (w_record w) = Some "once"%string)
    by (vm_compute in H; injection H as <- <-; split; reflexivity).
  assert (Hd' : d' = 9%nat ∧ t_idempotency_key (w_record w') = Some "once"%string)
    by (vm_compute in H'; injection H' as <- <-; split; reflexivity).
  destruct Hd as [-> Hk], Hd' as [-> Hk']. exists w, w'. split; [reflexivity|]. split; [reflexivity|].
  eapply (reordered_input_is_the_same_submission notice_task (mail_input true) (mail_input false) _ _
    task_options_new task_conf_default 5 6 7%nat 8%nat w w' 8%nat 9%nat "once"%string);
    [|reflexivity|reflexivity|reflexivity|exact H|exact H'|exact Hk|exact Hk'|].
  - constructor; [|repeat constructor].
    apply (bool_decide_unpack (NoDup ["b"; "a"]%string)). vm_compute. exact I.
  - eapply same_object; [apply perm_swap|]. repeat constructor.
Defined.

(** A client of node 1 with room for one record, over the registry's in-memory store. *)
Definition demo_client : TaskClient := registry_client demo_registry [] (Some (node1, 1)).
Definition demo_client_state : ClientState StoreState :=
  {| cs_store := run_ops demo_params [(OpRegisterNode node1, 0); (OpInitialize, 0)]
                   (memory_store_new demo_registry_conf);
     cs_events := []; cs_queue := []; cs_metrics := registry_metrics demo_registry |}.

Lemma submission_effect_witness :
  ∃ rs c', submit_many_with (T := MemoryStoreInstance demo_params) demo_client mail_type
      [mail_input true; mail_input false] task_options_new 5 demo_client_state = (Ok rs, c') ∧
    length rs = 2%nat ∧ cs_events c' = [EventWake] ∧ within_capacity demo_client c'.
Proof.
  assert (Hq : ∃ rs c', submit_many_with (T := MemoryStoreInstance demo_params) demo_client mail_type
      [mail_input true; mail_input false] task_options_new 5 demo_client_state = (Ok rs, c') ∧
      existsb is_queued rs = true) by (vm_compute; do 2 eexists; split; reflexivity).
  destruct Hq as (rs & c' & H & Hx). exists rs, c'. split; [exact H|].
  destruct (submission_effect (T := MemoryStoreInstance demo_params) demo_client mail_type
    [mail_input true; mail_input false] task_options_new 5 demo_client_state (Ok rs) c')
    as (_ & Hw & Hl & He & _); [vm_compute; discriminate|apply metrics_new_ok|exact H|].
  split; [exact Hl|]. split; [|exact Hw]. rewrite Hx in He. exact He.
Defined.
