(* ===== verification/HandlerFacts.v ===== *)
(** * Running handlers: every record is answered, in its place

    [distribute] is the reference for a batch: refused records have their
    refusal, the accepted ones take the handler's outcomes in order. *)
From S2P Require Import Prelude Externals Failure Config Models Transitions Lifecycle.
From S2P Require Import MemoryState LaneLock Workflow Claims Evolution ClaimFacts Commits Json.
From S2P Require Import Registry Submission Handlers RegistryFacts SubmissionFacts RegistryTheorems.
#[local] Open Scope Z_scope.

Lemma list_insert_middle {A} (l k : list A) (x y : A) : <[length l := y]> (l ++ x :: k) = l ++ y :: k.
Proof. by rewrite <- (Nat.add_0_r (length l)), insert_app_r. Qed.

Section HandlerFacts.
Context `{X : Externals, Y : Serialization}.

(** Why a batch does not run a record. *)
Definition refusal (decode : string → option Payload) (r : TaskRecord) : option TaskOutcome :=
  if negb (bool_decide (t_kind r = Work)) then Some kind_mismatch
  else match decode (t_input r) with Some _ => None | None => Some (outcome_fail "Task input is invalid") end.
Definition accepted_payloads (decode : string → option Payload) (records : list TaskRecord) : list Payload :=
  omap (λ r, if bool_decide (t_kind r = Work) then decode (t_input r) else None) records.

Fixpoint distribute (decode : string → option Payload) (records : list TaskRecord)
    (outcomes : list TaskOutcome) : list TaskExecutionResult :=
  match records with
  | [] => []
  | r :: records =>
      match refusal decode r, outcomes with
      | Some outcome, _ => {| ex_record := r; ex_outcome := outcome |} :: distribute decode records outcomes
      | None, outcome :: outcomes =>
          {| ex_record := r; ex_outcome := outcome |} :: distribute decode records outcomes
      | None, [] => {| ex_record := r; ex_outcome := handler_failed |} :: distribute decode records []
      end
  end.

(** ** Decoding *)

Fixpoint positions_from (decode : string → option Payload) (k : nat) (records : list TaskRecord) : list nat :=
  match records with
  | [] => []
  | r :: records =>
      match refusal decode r with
      | Some _ => positions_from decode (S k) records
      | None => k :: positions_from decode (S k) records
      end
  end.

Lemma decode_batch_from decode records pre batch :
  db_outcomes batch = pre ++ replicate (length records) None →
  let out := fold_left (decode_record decode) (imap (λ i r, ((length pre + i)%nat, r)) records) batch in
  db_records out = db_records batch ∧
  db_positions out = db_positions batch ++ positions_from decode (length pre) records ∧
  db_outcomes out = pre ++ (refusal decode <$> records) ∧
  db_payload out = db_payload batch ++ accepted_payloads decode records.
Proof.
  revert pre batch. induction records as [|r records IH]; intros pre batch Hb.
  - simpl in *. by rewrite !app_nil_r in *.
  - cbv zeta. rewrite imap_cons. cbn [fold_left]. rewrite Nat.add_0_r.
    rewrite (imap_ext _ (λ i x, ((length (pre ++ [refusal decode r]) + i)%nat, x)));
      [|intros; rewrite length_app; simpl; f_equal; lia].
    assert (Hsnoc : length (pre ++ [refusal decode r]) = S (length pre)) by (rewrite length_app; simpl; lia).
    specialize (IH (pre ++ [refusal decode r]) (decode_record decode batch (length pre, r))).
    rewrite Hsnoc in *.
    assert (Hstep : db_records (decode_record decode batch (length pre, r)) = db_records batch ∧
      db_positions (decode_record decode batch (length pre, r))
        = db_positions batch ++ (match refusal decode r with Some _ => [] | None => [length pre] end) ∧
      db_outcomes (decode_record decode batch (length pre, r))
        = (pre ++ [refusal decode r]) ++ replicate (length records) None ∧
      db_payload (decode_record decode batch (length pre, r))
        = db_payload batch ++ accepted_payloads decode [r]).
    { unfold decode_record, refusal, accepted_payloads. rewrite Hb. cbn [omap list_omap length replicate].
      destruct (bool_decide (t_kind r = Work)); cbn [negb].
      - destruct (decode (t_input r)); simpl; rewrite ?app_nil_r, <- ?app_assoc; simpl.
        + done.
        + split_and!; [done|done| |done]. by rewrite list_insert_middle.
      - simpl. rewrite ?app_nil_r, <- ?app_assoc. simpl. split_and!; [done|done| |done].
        by rewrite list_insert_middle. }
    destruct Hstep as (H1 & H2 & H3 & H4). destruct (IH H3) as (I1 & I2 & I3 & I4).
    rewrite I1, I2, I3, I4, H1, H2, H4. split_and!; [done| | |].
    + rewrite <- app_assoc. simpl. by destruct (refusal decode r).
    + by rewrite <- app_assoc.
    + rewrite <- app_assoc. unfold accepted_payloads. simpl.
      destruct (if bool_decide _ then _ else _); done.
Qed.

Lemma decode_batch_spec decode records :
  decode_batch decode records =
  {| db_records := records; db_positions := positions_from decode 0 records;
     db_outcomes := refusal decode <$> records; db_payload := accepted_payloads decode records |}.
Proof.
  unfold decode_batch.
  pose proof (decode_batch_from decode records []
    {| db_records := records; db_positions := []; db_outcomes := replicate (length records) None;
       db_payload := [] |} eq_refl) as (H1 & H2 & H3 & H4).
  cbn [length] in *. change (imap (λ i r, (0 + i, r)%nat) records) with (imap pair records) in *.
  destruct (fold_left _ _ _) as [a b c d]; simpl in *. by subst.
Qed.

Lemma accepted_cons decode r records :
  length (accepted_payloads decode (r :: records)) =
  ((match refusal decode r with Some _ => 0 | None => 1 end) + length (accepted_payloads decode records))%nat.
Proof.
  unfold refusal, accepted_payloads. simpl. destruct (bool_decide (t_kind r = Work)); simpl; [|done].
  by destruct (decode (t_input r)).
Qed.

Lemma positions_accepted decode k records :
  length (positions_from decode k records) = length (accepted_payloads decode records).
Proof.
  revert k. induction records as [|r records IH]; intros k; [done|].
  rewrite accepted_cons, <- (IH (S k)). simpl. by destruct (refusal decode r).
Qed.

(** ** Putting the outcomes back *)

Definition put_back (slots : list (option TaskOutcome)) (entries : list (nat * TaskOutcome)) :
    list (option TaskOutcome) := fold_left (λ slots p, <[p.1 := Some p.2]> slots) entries slots.

Lemma put_back_shift decode k records outcomes pre :
  length pre = k →
  put_back (pre ++ (refusal decode <$> records)) (zip (positions_from decode k records) outcomes) =
  pre ++ put_back (refusal decode <$> records) (zip (positions_from decode 0 records) outcomes).
Proof.
  revert k outcomes pre. induction records as [|r records IH]; intros k outcomes pre Hk.
  - simpl. by rewrite app_nil_r.
  - assert (Hcons : ∀ x os j p, length p = j →
      put_back (p ++ x :: (refusal decode <$> records)) (zip (positions_from decode (S j) records) os) =
      p ++ x :: put_back (refusal decode <$> records) (zip (positions_from decode 0 records) os)).
    { intros x os j p Hj. change (x :: ?l) with ([x] ++ l). rewrite !app_assoc.
      apply IH. rewrite length_app. simpl. lia. }
    csimpl. destruct (refusal decode r) as [o|] eqn:Hr.
    + rewrite (Hcons (Some o) outcomes k pre Hk). f_equal. symmetry. exact (Hcons (Some o) outcomes 0%nat [] eq_refl).
    + destruct outcomes as [|o os]; [done|]. cbn [zip_with].
      assert (Hput : ∀ l p ps, put_back l (p :: ps) = put_back (<[p.1 := Some p.2]> l) ps) by done.
      rewrite !Hput. simpl.
      rewrite <- Hk, list_insert_middle. rewrite (Hcons (Some o) os (length pre) pre eq_refl).
      f_equal. symmetry. exact (Hcons (Some o) os 0%nat [] eq_refl).
Qed.

Definition result_of (record : TaskRecord) (outcome : option TaskOutcome) : TaskExecutionResult :=
  {| ex_record := record; ex_outcome := default handler_failed outcome |}.

Lemma put_back_distributes decode records outcomes :
  zip_with result_of records
    (put_back (refusal decode <$> records) (zip (positions_from decode 0 records) outcomes))
  = distribute decode records outcomes.
Proof.
  revert outcomes. induction records as [|r records IH]; intros outcomes; [done|].
  assert (Htail : ∀ x os,
      put_back (x :: (refusal decode <$> records)) (zip (positions_from decode 1 records) os) =
      x :: put_back (refusal decode <$> records) (zip (positions_from decode 0 records) os)).
  { intros x os. exact (put_back_shift decode 1 records os [x] eq_refl). }
  csimpl. destruct (refusal decode r) as [o|] eqn:Hr.
  - rewrite Htail. simpl. by rewrite IH.
  - destruct outcomes as [|o os]; simpl.
    + unfold result_of at 1. simpl. f_equal. specialize (IH []).
      by destruct (positions_from decode 0 records).
    + change (put_back ?l (?p :: ?ps)) with (put_back (<[p.1 := Some p.2]> l) ps). simpl.
      rewrite Htail. simpl. by rewrite IH.
Qed.

Lemma distribute_refused decode records outcomes :
  positions_from decode 0 records = [] →
  distribute decode records outcomes = distribute decode records [].
Proof.
  generalize 0%nat. revert outcomes. induction records as [|r records IH]; intros outcomes k H; simpl in *; [done|].
  destruct (refusal decode r); [|done]. f_equal. by eapply IH.
Qed.

Lemma execute_batch_distributes handler records :
  execute_batch handler records =
  distribute (bc_decode handler) records
    (call_batch handler (accepted_payloads (bc_decode handler) records)
       (length (accepted_payloads (bc_decode handler) records))).
Proof.
  unfold execute_batch. rewrite decode_batch_spec. cbn [db_positions db_payload].
  rewrite <- (positions_accepted _ 0).
  destruct (positions_from (bc_decode handler) 0 records) as [|p ps] eqn:Hp.
  - rewrite (distribute_refused _ _ _ Hp), <- put_back_distributes. by rewrite Hp.
  - rewrite <- Hp. apply put_back_distributes.
Qed.

(** The handler is always given back one outcome per accepted input. *)
Lemma call_batch_length handler payload expected : length (call_batch handler payload expected) = expected.
Proof.
  unfold call_batch. destruct (bc_call handler payload) as [data|]; [|apply length_replicate].
  destruct data; simpl; rewrite ?length_replicate; try done.
  destruct (length outcomes =? expected)%nat eqn:He; simpl; [by apply Nat.eqb_eq|apply length_replicate].
Qed.

Lemma distribute_records decode records outcomes :
  ex_record <$> distribute decode records outcomes = records.
Proof.
  revert outcomes. induction records as [|r records IH]; intros outcomes; simpl; [done|].
  destruct (refusal decode r); [|destruct outcomes]; csimpl; by rewrite IH.
Qed.

(** With one outcome per accepted input every accepted record has one of them. *)
Lemma distribute_outcomes (P : TaskRecord → TaskOutcome → Prop) decode records outcomes :
  length outcomes = length (accepted_payloads decode records) →
  (∀ r o, r ∈ records → refusal decode r = Some o → P r o) →
  (∀ r o, r ∈ records → refusal decode r = None → o ∈ outcomes → P r o) →
  Forall (λ x, P (ex_record x) (ex_outcome x)) (distribute decode records outcomes).
Proof.
  revert outcomes. induction records as [|r records IH]; intros outcomes Hlen H1 H2; simpl; [constructor|].
  assert (IH1 : ∀ os, length os = length (accepted_payloads decode records) →
    (∀ o, o ∈ os → o ∈ outcomes) → Forall (λ x, P (ex_record x) (ex_outcome x)) (distribute decode records os)).
  { intros os Hl Hsub. apply IH; [done| |].
    - intros x o Hx. apply H1. by right.
    - intros x o Hx Hr Ho. apply H2; [by right|done|by apply Hsub]. }
  rewrite accepted_cons in Hlen. destruct (refusal decode r) as [o|] eqn:Hr.
  - constructor; [apply H1; [by left|done]|]. by apply IH1.
  - destruct outcomes as [|o os]; [done|].
    constructor; [apply H2; [by left|done|by left]|]. apply IH1; [simpl in Hlen; lia|]. intros. by right.
Qed.

Lemma execute_flows_records registry handler records now drawn :
  ex_record <$> (execute_flows registry handler records now drawn).1 = records.
Proof.
  revert drawn. induction records as [|r records IH]; intros drawn; simpl; [done|].
  destruct (invoke_flow _ _ _ _ _) as [res d]. specialize (IH d).
  destruct (execute_flows _ _ _ _ _) as [results d']. cbn [fst] in *. csimpl. by rewrite IH.
Qed.

Lemma results_records (f : TaskRecord → TaskOutcome) (records : list TaskRecord) :
  ex_record <$> ((λ r, {| ex_record := r; ex_outcome := f r |}) <$> records) = records.
Proof. induction records as [|r records IH]; csimpl; [done|]. by rewrite IH. Qed.

Lemma execute_many_records registry task records now drawn :
  ex_record <$> (execute_many registry task records now drawn).1 = records.
Proof.
  unfold execute_many. destruct (rt_handler task); simpl.
  - apply results_records.
  - apply execute_flows_records.
  - apply (results_records (execute_single handler)).
  - rewrite execute_batch_distributes. apply distribute_records.
Qed.

Lemma registry_execute_many_records registry records now drawn :
  ex_record <$> (registry_execute_many registry records now drawn).1 = records.
Proof.
  unfold registry_execute_many. destruct records as [|r records]; [done|].
  destruct (rg_tasks registry !! t_name r); [apply execute_many_records|apply results_records].
Qed.
End HandlerFacts.

(** ** Properties of handler execution

    Every record is answered in its place, and what typed handlers return is
    something the store accepts of a task of that kind. *)

Section Typed.
Context `{X : Externals, Y : Serialization}.

(** What a flow handler's typed return can be. *)
Inductive flow_return : Boxed → Prop :=
  | fr_error e : flow_return (erase_outcome (flow_error_outcome e))
  | fr_done : flow_return (erase_flow FlowComplete)
  | fr_complete output : flow_return (erase_flow (flow_complete output))
  | fr_suspend state s : flow_suspend state = Ok s → flow_return (erase_flow s)
  | fr_sleep state delay s : flow_sleep state delay = Ok s → flow_return (erase_flow s)
  | fr_all inputs checkpoint s : flow_all inputs checkpoint = Ok s → flow_return (erase_flow s)
  | fr_spawn input state options s : flow_spawn_with input state options = Ok s → flow_return (erase_flow s).

(** A handler whose erased returns come from the typed adapters, as registration guarantees. *)
Definition typed_handler (h : RegisteredHandler) : Prop :=
  match h with
  | HSingle c => ∀ p r data, ca_call c p r = Some data → ∃ ret, data = erase_outcome (into_work_outcome ret)
  | HBatch c => ∀ ps data, bc_call c ps = Some data → ∃ ret, data = into_batch_return ret
  | HFlow c => ∀ p r data, ca_call c p r = Some data → flow_return data
  | HFlowFactory (Some (inr c)) => ∀ p r data, ca_call c p r = Some data → flow_return data
  | HFlowFactory _ => True
  end.
Definition typed_registry (r : TaskRegistry) : Prop :=
  ∀ n t, rg_tasks r !! n = Some t → typed_handler (rt_handler t).

Lemma typed_register service r :
  typed_handler (rt_handler service) → typed_registry r → typed_registry (register service r).2.
Proof.
  intros Hs Hr. unfold register. rewrite bindM_liftR. destruct (validate_task_name _); [|done].
  rewrite bindM_get. destruct (_ || _); [done|]. rewrite bindM_modify. cbn [modifyM snd].
  intros n t. simpl. destruct (decide (n = rt_name service)) as [->|Hn].
  - rewrite lookup_insert_eq. by intros [= <-].
  - rewrite lookup_insert_ne by done. apply Hr.
Qed.

Lemma typed_prepared r r' : prepare_flows r = Ok r' → typed_registry r → typed_registry r'.
Proof.
  intros H Hr n t Ht. apply prepare_flows_lookup in H as (_ & _ & _ & _ & H). specialize (H n).
  rewrite Ht in H. inversion H as [t0 ? Hp Hx|]; subst. symmetry in Hx. apply Hr in Hx.
  unfold prepare_flow in Hp. destruct (rt_handler t0) as [[[e|h]|]|h|h|h] eqn:Hh; simplify_eq; simpl;
    by rewrite ?Hh.
Qed.

Lemma typed_finalized config r r' : finalize config r = Ok r' → typed_registry r → typed_registry r'.
Proof.
  intros H Hr n t Ht. apply finalize_lookup in H as (_ & _ & _ & _ & H). specialize (H n).
  rewrite Ht in H. inversion H as [t0 ? Hp Hx|]; subst. symmetry in Hx. apply Hr in Hx.
  by apply finalize_task_spec in Hp as (_ & _ & lane & b & _ & ->).
Qed.

(** What may be committed for a task of the kind. *)
Record acceptable (conf : TaskStoreConf) (kind : TaskKind) (o : TaskOutcome) : Prop := {
  ac_capability : capability_error kind o (sc_handlers conf) = None;
  ac_children : match o with
                | OutSpawn _ child => fresh_write child ∧ validate_write_lanes (Some conf) [child] = Ok tt
                | OutAll _ children => Forall fresh_write children ∧
                    validate_write_lanes (Some conf) children = Ok tt ∧
                    zlen children ≤ sc_max_all_children conf
                | _ => True
                end;
}.

(** An outcome without children, retry, sleep: acceptable of any task. *)
Definition settled (o : TaskOutcome) : bool :=
  match o with OutComplete | OutCompleteWith _ | OutSuspend _ | OutFail _ => true | _ => false end.

Lemma settled_acceptable conf kind o : settled o = true → acceptable conf kind o.
Proof. by destruct o, kind; split. Qed.

Lemma completion_settled output : settled (completion output) = true.
Proof.
  unfold completion, complete_output. destruct (_ =? _)%N; [done|].
  destruct (json_result (pl_text output)) as [t|e]; simpl; [|by destruct e].
  destruct (validate_output t) as [u|e]; simpl; [|by destruct e].
  by destruct (String.eqb t "null").
Qed.

Lemma work_return_acceptable conf r : acceptable conf Work (into_work_outcome r).
Proof.
  destruct r as [[output|state]|[f|f]]; simpl; try (by split); apply settled_acceptable; [|done..].
  apply completion_settled.
Qed.

Lemma batch_safe_acceptable conf o : acceptable conf Work (batch_safe o).
Proof. destruct o; by split. Qed.

Lemma prepared_erased o : prepared_outcome (erase_outcome o) = Ok o.
Proof. by destruct o. Qed.

Lemma work_error_plain e : batch_safe (work_error_outcome e) = work_error_outcome e.
Proof. by destruct e. Qed.

(** ** Single and batch handlers *)

Lemma execute_single_acceptable conf h r :
  typed_handler (HSingle h) → acceptable conf (t_kind r) (execute_single h r).
Proof.
  intros Hh. unfold execute_single. destruct (decide (t_kind r = Work)) as [Hk|Hk].
  2: { rewrite (bool_decide_false (t_kind r = Work)) by done. by apply settled_acceptable. }
  rewrite bool_decide_true by done. simpl.
  destruct (ca_decode h (t_input r)) as [p|]; [|by apply settled_acceptable].
  destruct (ca_call h p r) as [data|] eqn:Hc; [|by apply settled_acceptable].
  apply Hh in Hc as [ret ->]. rewrite prepared_erased, Hk. apply work_return_acceptable.
Qed.

Lemma resolve_typed_batch conf ret n os :
  resolve_batch (into_batch_return ret) n = Ok os → Forall (acceptable conf Work) os.
Proof.
  assert (Hrep : ∀ o n os, resolve_batch (erase_outcome (batch_safe o)) n = Ok os →
    Forall (acceptable conf Work) os).
  { intros o m ps H. pose proof (batch_safe_acceptable conf o) as Ho.
    destruct (batch_safe o); simpl in H; simplify_eq; by apply Forall_replicate. }
  destruct ret as [[|w|items]|e]; cbn [into_batch_return].
  - apply (Hrep OutComplete).
  - apply Hrep.
  - simpl. destruct (_ =? n)%nat; [|done]. intros [= <-]. apply Forall_fmap, Forall_forall.
    intros item _. apply batch_safe_acceptable.
  - rewrite <- work_error_plain. apply Hrep.
Qed.

Lemma call_batch_acceptable conf h payload n :
  typed_handler (HBatch h) → Forall (acceptable conf Work) (call_batch h payload n).
Proof.
  intros Hh. unfold call_batch. assert (Hf : acceptable conf Work handler_failed) by (by apply settled_acceptable).
  destruct (bc_call h payload) as [data|] eqn:Hc; [|by apply Forall_replicate].
  destruct (resolve_batch data n) as [os|e] eqn:Hr; [|by apply Forall_replicate].
  apply Hh in Hc as [ret ->]. by eapply resolve_typed_batch.
Qed.

Lemma execute_batch_acceptable conf h records :
  typed_handler (HBatch h) →
  Forall (λ x, acceptable conf (t_kind (ex_record x)) (ex_outcome x)) (execute_batch h records).
Proof.
  intros Hh. rewrite execute_batch_distributes.
  apply (distribute_outcomes (λ r o, acceptable conf (t_kind r) o)); [apply call_batch_length| |].
  - intros r o _ Hr. unfold refusal in Hr. apply settled_acceptable.
    destruct (negb _); [by simplify_eq|]. destruct (bc_decode h (t_input r)); by simplify_eq.
  - intros r o _ Hr Ho. unfold refusal in Hr. destruct (decide (t_kind r = Work)) as [->|].
    + pose proof (call_batch_acceptable conf h (accepted_payloads (bc_decode h) records)
        (length (accepted_payloads (bc_decode h) records)) Hh) as Ha.
      rewrite Forall_forall in Ha. by apply Ha.
    + by rewrite bool_decide_false in Hr.
Qed.

(** ** Flow handlers *)

Lemma admissible_acceptable_spawn r conf state input w :
  finalized r → store_conf r = Ok conf → (∃ t, task_for_payload r input = Ok t ∧ built_write (rg_config r) t w) →
  w_ignore_conflicts w = false →
  acceptable conf Flow (OutSpawn state w).
Proof.
  intros Hf Hc (t & Ht & Hb) Hi. unfold task_for_payload in Ht. apply result_bind_ok in Ht as (n & _ & Ht%ok_or_ok).
  pose proof (built_member_ok r conf n t w Hf Hc Ht Hb Hi [] ltac:(apply not_elem_of_nil)) as Hm.
  unfold invalid_child in Hm. repeat (apply orb_false_iff in Hm as [Hm ?]).
  split; simpl.
  - match goal with H : negb (has_handler _ _) = false |- _ => apply negb_false_iff in H as -> end. done.
  - split; [apply Hb|]. apply (validate_write_lanes_each _ [w]). constructor; [|constructor].
    by eapply built_write_accepted.
Qed.

Lemma flow_request_acceptable r conf state now drawn outcome drawn' :
  finalized r → store_conf r = Ok conf →
  resolve_owned r state now drawn = (Ok outcome, drawn') →
  (∀ o, state = FlowOutcome o → acceptable conf Flow o) → acceptable conf Flow outcome.
Proof.
  intros Hf Hc H Ho. destruct state as [|o|inputs checkpoint|input checkpoint options]; simpl in H.
  - unfold retM in H. simplify_eq. by apply settled_acceptable.
  - unfold retM in H. simplify_eq. by apply Ho.
  - unfold prepare_all in H. destruct (_ <? _) eqn:Hlen; [done|]. apply Z.ltb_ge in Hlen.
    apply bindM_liftR_ok in H as ([] & _ & H). apply bindM_ok in H as (children & d & Hm & H).
    unfold retM in H. simplify_eq. apply mapM_M_prepare in Hm as (_ & _ & HF).
    assert (Hall : Forall (λ w, fresh_write w ∧ require_lane (Some conf) (t_lane (w_record w)) = Ok tt ∧
        require_handler (Some conf) (t_name (w_record w)) = Ok tt) children).
    { apply Forall_lookup. intros i w Hw.
      destruct (Forall2_lookup_r _ _ _ _ _ HF Hw) as (x & _ & t & Ht & Hb & _).
      unfold task_for_payload in Ht. apply result_bind_ok in Ht as (n & _ & Ht%ok_or_ok).
      split; [apply Hb|]. by eapply built_write_accepted. }
    split; [done|]. apply Forall_and in Hall as [H1 H2]. split_and!; [done|by apply validate_write_lanes_each|].
    unfold store_conf in Hc. apply result_bind_ok in Hc as (es & _ & [= <-]). simpl.
    unfold zlen in *. by rewrite <- (Forall2_length _ _ _ HF).
  - unfold prepare_child in H. apply bindM_liftR_ok in H as ([] & Hop & H).
    apply bindM_liftR_ok in H as ([] & _ & H). apply bindM_ok in H as (child & d & Hm & H).
    unfold retM in H. simplify_eq. unfold prepare_member in Hm.
    apply bindM_liftR_ok in Hm as (t & Ht & Hm).
    apply build_box_write_spec in Hm as (Hb & _ & _ & Hi & _ & _).
    eapply admissible_acceptable_spawn; [done|done| |exact Hi]. exists t. split; [done|].
    destruct Hb. split; try done. simpl. unfold validate_spawn_options in Hop.
    destruct (op_ignore_conflicts options); [done|]. by apply validate_options_ok.
Qed.

Lemma flow_return_acceptable r conf data now drawn outcome drawn' :
  finalized r → store_conf r = Ok conf → flow_return data →
  prepared_flow r data now drawn = (Ok outcome, drawn') → acceptable conf Flow outcome.
Proof.
  intros Hf Hc Hr H.
  assert (Hgiven : ∀ o, acceptable conf Flow o → data = erase_outcome o → acceptable conf Flow outcome).
  { intros o Ho ->. destruct o; simpl in H; unfold liftR in H; simpl in H; by simplify_eq. }
  destruct Hr as [e| |output|state s Hs|state delay s Hs|inputs checkpoint s Hs|input state options s Hs].
  - apply (Hgiven (flow_error_outcome e)); [|done]. destruct e; by apply settled_acceptable.
  - apply (Hgiven OutComplete); [by apply settled_acceptable|done].
  - apply (Hgiven (completion output)); [|done]. apply settled_acceptable, completion_settled.
  - unfold flow_suspend in Hs. apply result_bind_ok in Hs as (t & _ & [= <-]).
    apply (Hgiven (OutSuspend t)); [by apply settled_acceptable|done].
  - unfold flow_sleep in Hs. apply result_bind_ok in Hs as (t & _ & [= <-]).
    apply (Hgiven (OutSleep t delay)); [by split|done].
  - unfold flow_all in Hs. apply result_bind_ok in Hs as (t & _ & [= <-]).
    eapply flow_request_acceptable; [exact Hf|exact Hc|exact H|discriminate].
  - unfold flow_spawn_with in Hs. apply result_bind_ok in Hs as (u & _ & Hs).
    apply result_bind_ok in Hs as (t & _ & [= <-]). eapply flow_request_acceptable; [exact Hf|exact Hc|exact H|discriminate].
Qed.

Lemma invoke_flow_acceptable r conf h record now drawn outcome drawn' :
  finalized r → store_conf r = Ok conf → typed_handler (HFlow h) →
  invoke_flow r h record now drawn = (Ok outcome, drawn') → acceptable conf (t_kind record) outcome.
Proof.
  intros Hf Hc Hh H. unfold invoke_flow in H. destruct (decide (t_kind record = Flow)) as [Hk|Hk].
  2: { rewrite (bool_decide_false (t_kind record = Flow)) in H by done. simpl in H. unfold retM in H. simplify_eq.
       by apply settled_acceptable. }
  rewrite bool_decide_true in H by done. simpl in H.
  destruct (ca_decode h (t_input record)) as [p|]; [|unfold retM in H; simplify_eq; by apply settled_acceptable].
  destruct (ca_call h p record) as [data|] eqn:Hd; [|done]. rewrite Hk.
  eapply flow_return_acceptable; [done|done|by eapply Hh|done].
Qed.

Lemma execute_flows_acceptable r conf h records now drawn :
  finalized r → store_conf r = Ok conf → typed_handler (HFlow h) →
  Forall (λ x, acceptable conf (t_kind (ex_record x)) (ex_outcome x)) (execute_flows r h records now drawn).1.
Proof.
  intros Hf Hc Hh. revert drawn. induction records as [|record records IH]; intros drawn; simpl; [constructor|].
  destruct (invoke_flow r h record now drawn) as [res d] eqn:Hi. specialize (IH d).
  destruct (execute_flows _ _ _ _ _) as [results d']. cbn [fst] in *. constructor; [|done]. simpl.
  destruct res as [o|e]; [by eapply invoke_flow_acceptable|by apply settled_acceptable].
Qed.

Lemma failed_results_acceptable conf records message :
  Forall (λ x, acceptable conf (t_kind (ex_record x)) (ex_outcome x))
    ((λ r, {| ex_record := r; ex_outcome := outcome_fail message |}) <$> records).
Proof. apply Forall_fmap, Forall_forall. intros r _. by apply settled_acceptable. Qed.

Lemma execution_acceptable r conf records now drawn :
  finalized r → store_conf r = Ok conf → typed_registry r →
  Forall (λ x, acceptable conf (t_kind (ex_record x)) (ex_outcome x))
    (registry_execute_many r records now drawn).1.
Proof.
  intros Hf Hc Ht. unfold registry_execute_many. destruct records as [|record records]; [constructor|].
  destruct (rg_tasks r !! t_name record) as [task|] eqn:Hl; [|apply failed_results_acceptable].
  apply Ht in Hl. unfold execute_many. destruct (rt_handler task).
  - apply failed_results_acceptable.
  - by apply execute_flows_acceptable.
  - unfold execute_singles. apply Forall_fmap, Forall_forall. intros x _. by apply execute_single_acceptable.
  - by apply execute_batch_acceptable.
Qed.

(** Running any records answers each of them exactly once and in order, whatever the
    handlers do; and when the registry is finalized and its handlers return through the typed
    adapters, every outcome is one the store accepts of a task of that kind: no capability error,
    and children that are fresh writes with configured lanes and handlers, within the group size. *)
Theorem execution_answers_every_record r conf records now drawn :
  finalized r → store_conf r = Ok conf → typed_registry r →
  ex_record <$> (registry_execute_many r records now drawn).1 = records ∧
  Forall (λ x, acceptable conf (t_kind (ex_record x)) (ex_outcome x))
    (registry_execute_many r records now drawn).1.
Proof. intros. split; [apply registry_execute_many_records|by apply execution_acceptable]. Qed.

(** A batch gives each record its own answer: a record of another kind or with an undecodable
    input gets its refusal, and the i-th accepted record gets the i-th of exactly as many outcomes
    as there are accepted records, whether the handler returned one outcome for all, one for each,
    the wrong number, or failed. *)
Theorem batch_outcomes_reach_their_records handler records :
  let accepted := accepted_payloads (bc_decode handler) records in
  let outcomes := call_batch handler accepted (length accepted) in
  execute_batch handler records = distribute (bc_decode handler) records outcomes ∧
  length outcomes = length accepted ∧
  outcomes = match bc_call handler accepted with
             | Some BoxUnit => replicate (length accepted) OutComplete
             | Some (BoxOutcome o) => replicate (length accepted) o
             | Some (BoxOutcomes os) =>
                 if (length os =? length accepted)%nat then os else replicate (length accepted) handler_failed
             | _ => replicate (length accepted) handler_failed
             end.
Proof.
  split; [apply execute_batch_distributes|]. split; [apply call_batch_length|].
  unfold call_batch. destruct (bc_call handler _) as [[]|]; try done. simpl.
  by destruct (length outcomes =? _)%nat.
Qed.
End Typed.

(** ** Witnesses *)

#[local] Existing Instances DemoExternals.externals DemoSerialization.serialization.

Lemma demo_registry_typed : typed_registry demo_registry.
Proof.
  eapply typed_prepared; [exact demo_prepared_ok|]. eapply typed_finalized; [exact demo_declared_ok|].
  apply typed_register; [|apply typed_register; [|apply typed_register; [|intros n t H; exact (False_ind _ (lookup_empty_Some n t H))]]].
  - intros p r data [= <-].
    exact (fr_spawn (demo_payload mail_type (JString "hi"))
      {| pl_type := order_type; pl_type_name := ""; pl_value := Ok JNull; pl_text := Ok "{}"%string; pl_wire := true |}
      task_options_new _ eq_refl).
  - intros ps data [= <-].
    exists (Ok (ReturnItems (imap (λ i _, if (i =? 1)%nat then Err (work_fail "no") else
      Ok (WorkComplete {| pl_type := unit_type; pl_type_name := ""; pl_value := Ok JNull; pl_text := Ok "null"%string; pl_wire := true |})) ps))).
    simpl. f_equal. rewrite fmap_imap. apply imap_ext. intros i x _. simpl.
    by destruct (i =? 1)%nat.
  - intros p r data [= <-].
    by exists (Ok (WorkComplete {| pl_type := unit_type; pl_type_name := ""; pl_value := Ok JNull; pl_text := Ok "null"%string; pl_wire := true |})).
Qed.

Definition image_record (kind : TaskKind) : TaskRecord :=
  {| t_id := 1; t_parent_id := None; t_root_id := None; t_kind := kind; t_name := "image"; t_input := "1";
     t_state := None; t_resume_input := None; t_status := Running; t_cancelled := false; t_attempts := 1;
     t_step_attempts := 1; t_lane := "default"; t_last_result := None; t_idempotency_key := None;
     t_idempotency_fingerprint := None; t_idempotency_expires_at := None; t_node_id := Some 1%N;
     t_ready_at := None; t_created_at := 0; t_updated_at := 0; t_completed_at := None |}.

(** Of three images the second is a flow: the handler sees two, and fails the second of them. *)
Lemma execution_answers_every_record_witness :
  ex_outcome <$> (registry_execute_many demo_registry
      [image_record Work; image_record Flow; image_record Work] 5 7%nat).1
    = [OutComplete; kind_mismatch; OutFail "no"] ∧
  ∃ conf, Forall (λ x, acceptable conf (t_kind (ex_record x)) (ex_outcome x))
    (registry_execute_many demo_registry [image_record Work; image_record Flow; image_record Work] 5 7%nat).1.
Proof.
  split; [vm_compute; reflexivity|].
  destruct (store_conf demo_registry) as [conf|e] eqn:Hc; [|vm_compute in Hc; discriminate].
  exists conf. apply (execution_answers_every_record demo_registry conf
    [image_record Work; image_record Flow; image_record Work] 5 7%nat demo_registry_finalized Hc demo_registry_typed).
Defined.
