(* ===== verification/Runner.v ===== *)
(** * The runner's state ([tasks/runner/engine.rs], [lanes.rs], [execution.rs], [database.rs])

    What a [TaskRunner] holds, and beside it what lives outside the struct but
    belongs to the runner: the spawned futures and hooks, the messages in its
    channels, and the database operations under way. A semaphore is its number
    of available permits; a permit in use is a flag of the future or message
    that owns it. An [Instant] is nanoseconds of the monotonic clock, and a step
    reads the clock once. Tracing is not modelled. *)
From S2P Require Import Prelude Externals Failure Config Rate Models Transitions Lifecycle MemoryState.
From S2P Require Import Json Metrics Registry Submission Handlers Client.
#[local] Open Scope Z_scope.

Abbreviation Instant := Z (only parsing).

(** Bounds local drain and dispatch passes. *)
Definition SCHEDULER_BUDGET : nat := 250.

(** What the runner reads of allocations and of third-party errors. *)
Class RunnerExternals := {
  (** [std::mem::size_of::<TaskRecord>()]. *)
  record_size : Z;
  (** [String::capacity]. *)
  string_capacity : string → Z;
  (** Whether the [sqlx] error is an I/O, TLS or pool error or a crashed worker. *)
  sqlx_transient : string → bool;
  (** [StoreError]'s conversion from a [sqlx] error, and its code. *)
  into_store_error : string → string;
  store_error_code : string → string;
}.
Class RunnerLaws (R : RunnerExternals) : Prop := {
  record_size_nonneg : 0 ≤ record_size;
  (** A string's capacity is at least its length. *)
  string_capacity_len s : str_len s ≤ string_capacity s;
}.

(** ** Lanes *)

Record LaneState := {
  ls_conf : TaskLaneConf;
  ls_local_rate : option LocalRateBucket;
  ls_tasks : list TaskRecord;
  ls_slots : Z;
  ls_uncommitted : Z;
  ls_poll_after : Instant;
  ls_owner_token : option string;
  ls_owner_renew_at : option Instant;
  ls_owner_generation : Z;
  ls_owner_phase : LaneOwnerPhase;
  ls_completed_work : bool;
  ls_hook_result : option LaneHookResult;
  ls_flow_cache : list (TaskId * TaskRecord);
  ls_cached_bytes : Z;
}.

Definition lset_local_rate (v : option LocalRateBucket) (l : LaneState) : LaneState :=
  {| ls_conf := ls_conf l; ls_local_rate := v; ls_tasks := ls_tasks l; ls_slots := ls_slots l;
     ls_uncommitted := ls_uncommitted l; ls_poll_after := ls_poll_after l; ls_owner_token :=
     ls_owner_token l; ls_owner_renew_at := ls_owner_renew_at l; ls_owner_generation :=
     ls_owner_generation l; ls_owner_phase := ls_owner_phase l; ls_completed_work :=
     ls_completed_work l; ls_hook_result := ls_hook_result l; ls_flow_cache := ls_flow_cache l;
     ls_cached_bytes := ls_cached_bytes l |}.
Definition lset_tasks (v : list TaskRecord) (l : LaneState) : LaneState :=
  {| ls_conf := ls_conf l; ls_local_rate := ls_local_rate l; ls_tasks := v; ls_slots := ls_slots
     l; ls_uncommitted := ls_uncommitted l; ls_poll_after := ls_poll_after l; ls_owner_token :=
     ls_owner_token l; ls_owner_renew_at := ls_owner_renew_at l; ls_owner_generation :=
     ls_owner_generation l; ls_owner_phase := ls_owner_phase l; ls_completed_work :=
     ls_completed_work l; ls_hook_result := ls_hook_result l; ls_flow_cache := ls_flow_cache l;
     ls_cached_bytes := ls_cached_bytes l |}.
Definition lset_slots (v : Z) (l : LaneState) : LaneState :=
  {| ls_conf := ls_conf l; ls_local_rate := ls_local_rate l; ls_tasks := ls_tasks l; ls_slots :=
     v; ls_uncommitted := ls_uncommitted l; ls_poll_after := ls_poll_after l; ls_owner_token :=
     ls_owner_token l; ls_owner_renew_at := ls_owner_renew_at l; ls_owner_generation :=
     ls_owner_generation l; ls_owner_phase := ls_owner_phase l; ls_completed_work :=
     ls_completed_work l; ls_hook_result := ls_hook_result l; ls_flow_cache := ls_flow_cache l;
     ls_cached_bytes := ls_cached_bytes l |}.
Definition lset_uncommitted (v : Z) (l : LaneState) : LaneState :=
  {| ls_conf := ls_conf l; ls_local_rate := ls_local_rate l; ls_tasks := ls_tasks l; ls_slots :=
     ls_slots l; ls_uncommitted := v; ls_poll_after := ls_poll_after l; ls_owner_token :=
     ls_owner_token l; ls_owner_renew_at := ls_owner_renew_at l; ls_owner_generation :=
     ls_owner_generation l; ls_owner_phase := ls_owner_phase l; ls_completed_work :=
     ls_completed_work l; ls_hook_result := ls_hook_result l; ls_flow_cache := ls_flow_cache l;
     ls_cached_bytes := ls_cached_bytes l |}.
Definition lset_poll_after (v : Instant) (l : LaneState) : LaneState :=
  {| ls_conf := ls_conf l; ls_local_rate := ls_local_rate l; ls_tasks := ls_tasks l; ls_slots :=
     ls_slots l; ls_uncommitted := ls_uncommitted l; ls_poll_after := v; ls_owner_token :=
     ls_owner_token l; ls_owner_renew_at := ls_owner_renew_at l; ls_owner_generation :=
     ls_owner_generation l; ls_owner_phase := ls_owner_phase l; ls_completed_work :=
     ls_completed_work l; ls_hook_result := ls_hook_result l; ls_flow_cache := ls_flow_cache l;
     ls_cached_bytes := ls_cached_bytes l |}.
Definition lset_owner_token (v : option string) (l : LaneState) : LaneState :=
  {| ls_conf := ls_conf l; ls_local_rate := ls_local_rate l; ls_tasks := ls_tasks l; ls_slots :=
     ls_slots l; ls_uncommitted := ls_uncommitted l; ls_poll_after := ls_poll_after l;
     ls_owner_token := v; ls_owner_renew_at := ls_owner_renew_at l; ls_owner_generation :=
     ls_owner_generation l; ls_owner_phase := ls_owner_phase l; ls_completed_work :=
     ls_completed_work l; ls_hook_result := ls_hook_result l; ls_flow_cache := ls_flow_cache l;
     ls_cached_bytes := ls_cached_bytes l |}.
Definition lset_owner_renew_at (v : option Instant) (l : LaneState) : LaneState :=
  {| ls_conf := ls_conf l; ls_local_rate := ls_local_rate l; ls_tasks := ls_tasks l; ls_slots :=
     ls_slots l; ls_uncommitted := ls_uncommitted l; ls_poll_after := ls_poll_after l;
     ls_owner_token := ls_owner_token l; ls_owner_renew_at := v; ls_owner_generation :=
     ls_owner_generation l; ls_owner_phase := ls_owner_phase l; ls_completed_work :=
     ls_completed_work l; ls_hook_result := ls_hook_result l; ls_flow_cache := ls_flow_cache l;
     ls_cached_bytes := ls_cached_bytes l |}.
Definition lset_owner_generation (v : Z) (l : LaneState) : LaneState :=
  {| ls_conf := ls_conf l; ls_local_rate := ls_local_rate l; ls_tasks := ls_tasks l; ls_slots :=
     ls_slots l; ls_uncommitted := ls_uncommitted l; ls_poll_after := ls_poll_after l;
     ls_owner_token := ls_owner_token l; ls_owner_renew_at := ls_owner_renew_at l;
     ls_owner_generation := v; ls_owner_phase := ls_owner_phase l; ls_completed_work :=
     ls_completed_work l; ls_hook_result := ls_hook_result l; ls_flow_cache := ls_flow_cache l;
     ls_cached_bytes := ls_cached_bytes l |}.
Definition lset_owner_phase (v : LaneOwnerPhase) (l : LaneState) : LaneState :=
  {| ls_conf := ls_conf l; ls_local_rate := ls_local_rate l; ls_tasks := ls_tasks l; ls_slots :=
     ls_slots l; ls_uncommitted := ls_uncommitted l; ls_poll_after := ls_poll_after l;
     ls_owner_token := ls_owner_token l; ls_owner_renew_at := ls_owner_renew_at l;
     ls_owner_generation := ls_owner_generation l; ls_owner_phase := v; ls_completed_work :=
     ls_completed_work l; ls_hook_result := ls_hook_result l; ls_flow_cache := ls_flow_cache l;
     ls_cached_bytes := ls_cached_bytes l |}.
Definition lset_completed_work (v : bool) (l : LaneState) : LaneState :=
  {| ls_conf := ls_conf l; ls_local_rate := ls_local_rate l; ls_tasks := ls_tasks l; ls_slots :=
     ls_slots l; ls_uncommitted := ls_uncommitted l; ls_poll_after := ls_poll_after l;
     ls_owner_token := ls_owner_token l; ls_owner_renew_at := ls_owner_renew_at l;
     ls_owner_generation := ls_owner_generation l; ls_owner_phase := ls_owner_phase l;
     ls_completed_work := v; ls_hook_result := ls_hook_result l; ls_flow_cache := ls_flow_cache
     l; ls_cached_bytes := ls_cached_bytes l |}.
Definition lset_hook_result (v : option LaneHookResult) (l : LaneState) : LaneState :=
  {| ls_conf := ls_conf l; ls_local_rate := ls_local_rate l; ls_tasks := ls_tasks l; ls_slots :=
     ls_slots l; ls_uncommitted := ls_uncommitted l; ls_poll_after := ls_poll_after l;
     ls_owner_token := ls_owner_token l; ls_owner_renew_at := ls_owner_renew_at l;
     ls_owner_generation := ls_owner_generation l; ls_owner_phase := ls_owner_phase l;
     ls_completed_work := ls_completed_work l; ls_hook_result := v; ls_flow_cache :=
     ls_flow_cache l; ls_cached_bytes := ls_cached_bytes l |}.
Definition lset_flow_cache (v : list (TaskId * TaskRecord)) (l : LaneState) : LaneState :=
  {| ls_conf := ls_conf l; ls_local_rate := ls_local_rate l; ls_tasks := ls_tasks l; ls_slots :=
     ls_slots l; ls_uncommitted := ls_uncommitted l; ls_poll_after := ls_poll_after l;
     ls_owner_token := ls_owner_token l; ls_owner_renew_at := ls_owner_renew_at l;
     ls_owner_generation := ls_owner_generation l; ls_owner_phase := ls_owner_phase l;
     ls_completed_work := ls_completed_work l; ls_hook_result := ls_hook_result l; ls_flow_cache
     := v; ls_cached_bytes := ls_cached_bytes l |}.
Definition lset_cached_bytes (v : Z) (l : LaneState) : LaneState :=
  {| ls_conf := ls_conf l; ls_local_rate := ls_local_rate l; ls_tasks := ls_tasks l; ls_slots :=
     ls_slots l; ls_uncommitted := ls_uncommitted l; ls_poll_after := ls_poll_after l;
     ls_owner_token := ls_owner_token l; ls_owner_renew_at := ls_owner_renew_at l;
     ls_owner_generation := ls_owner_generation l; ls_owner_phase := ls_owner_phase l;
     ls_completed_work := ls_completed_work l; ls_hook_result := ls_hook_result l; ls_flow_cache
     := ls_flow_cache l; ls_cached_bytes := v |}.

(** ** Work under way *)

(** [tokio]'s abort handle is the invocation's identity. *)
Record RunningInvocation := { ri_lane : TaskLane; ri_task_ids : list TaskId }.
Record RunningLaneHook := {
  rh_token : string; rh_generation : Z; rh_action : LaneHookAction; rh_started : Instant;
}.

(** A spawned execution, with the permits it holds and whether it was aborted. *)
Record TaskExecution := {
  ex_node_id : Uuid;
  ex_invocation_id : Uuid;
  ex_records : list TaskRecord;
  ex_lane : TaskLane;
  ex_payload_limit : Z;
  ex_error_limit : Z;
  ex_owner_token : option string;
  ex_global_permit : bool;
  ex_lane_permit : bool;
  ex_aborted : bool;
}.
Record Completion := {
  co_invocation_id : Uuid;
  co_lane : TaskLane;
  co_commits : list TaskCommit;
  co_global_permit : bool;
  co_lane_permit : bool;
}.

(** A spawned lifecycle hook; [hc_hook] is the registered callable's identity. *)
Record HookCall := {
  hc_hook : LaneHook;
  hc_lane : TaskLane;
  hc_token : string;
  hc_generation : Z;
  hc_action : LaneHookAction;
  hc_error_limit : Z;
  hc_aborted : bool;
}.
Record HookCompletion := { hk_lane : TaskLane; hk_token : string; hk_result : LaneHookResult }.

(** The follow-up of an owner poll: [None] drops the lane, [Some] starts a hook. *)
Abbreviation HookStart := (option (string * Z * LaneHookAction)) (only parsing).
Record PollEffects := {
  pe_hooks : list (TaskLane * HookStart);
  pe_acquired : list TaskLane;
  pe_takeovers : list TaskLane;
  pe_lost : list TaskLane;
  pe_transitions : list (TaskLane * LaneOwnerPhase);
}.
Definition effects_default : PollEffects :=
  {| pe_hooks := []; pe_acquired := []; pe_takeovers := []; pe_lost := []; pe_transitions := [] |}.

Inductive RunMode := Running_ | Draining | Faulted | Retired | Dead | Finished.
#[export] Instance RunMode_eq_dec : EqDecision RunMode.
Proof. solve_decision. Defined.

(** ** Database requests *)

Inductive DbRequest :=
  | ReqHeartbeat
  | ReqGiveBack
  | ReqClaim (claims : list LaneClaim)
  | ReqCommit (commits : list TaskCommit) (capacity : Z) (cached : list TaskRecord)
  | ReqCoordinate (lanes : list LaneClaim).
Inductive DbResponse :=
  | ResHeartbeat (present : bool)
  | ResReturned
  | ResPoll (poll : TaskPoll)
  | ResFlushed (result : CommitResult).

Inductive DbPhase :=
  | PhaseRunning
  | PhaseRecovering
  | PhaseRetry (not_before : Instant) (prepared : option DbResponse).
Record InFlight := { if_request : DbRequest; if_phase : DbPhase }.

(** A pending database future and a finished one, each holding one database permit. *)
Record Operation := {
  opn_id : Uuid; opn_request : DbRequest; opn_prepared : option DbResponse; opn_started : Instant;
}.
Record DbCompletion := {
  dc_id : Uuid; dc_result : result (StoreFailure DbResponse) DbResponse; dc_started : Instant;
}.

(** What the broadcast receiver yields: an event, or how many it missed. *)
Inductive EventSlot := Event (e : RunnerEvent) | Lagged (count : Z).

(** ** The runner *)

Record RunnerState := {
  rn_lanes : list LaneState;
  rn_slots : Z;
  rn_db_slots : Z;
  rn_in_flight : gmap Uuid InFlight;
  rn_operations : list Operation;
  rn_settled : list DbCompletion;
  rn_running_tasks : gmap TaskId Uuid;
  rn_running : gmap Uuid RunningInvocation;
  rn_output : list TaskCommit;
  rn_hooks : gmap TaskLane RunningLaneHook;
  rn_flush_after : Instant;
  rn_heartbeat_after : option Instant;
  rn_death_at : option Instant;
  rn_mode : RunMode;
  rn_events : list EventSlot;
  rn_ingress : list TaskRecord;
  rn_ingress_open : bool;
  rn_futures : list TaskExecution;
  rn_completions : list Completion;
  rn_hook_calls : list HookCall;
  rn_hook_results : list HookCompletion;
  rn_metrics : TaskMetrics;
  rn_health : TaskHealth;
  rn_drawn : nat;
}.

Definition rset_lanes (v : list LaneState) (s : RunnerState) : RunnerState :=
  {| rn_lanes := v; rn_slots := rn_slots s; rn_db_slots := rn_db_slots s; rn_in_flight :=
     rn_in_flight s; rn_operations := rn_operations s; rn_settled := rn_settled s;
     rn_running_tasks := rn_running_tasks s; rn_running := rn_running s; rn_output := rn_output
     s; rn_hooks := rn_hooks s; rn_flush_after := rn_flush_after s; rn_heartbeat_after :=
     rn_heartbeat_after s; rn_death_at := rn_death_at s; rn_mode := rn_mode s; rn_events :=
     rn_events s; rn_ingress := rn_ingress s; rn_ingress_open := rn_ingress_open s; rn_futures :=
     rn_futures s; rn_completions := rn_completions s; rn_hook_calls := rn_hook_calls s;
     rn_hook_results := rn_hook_results s; rn_metrics := rn_metrics s; rn_health := rn_health s;
     rn_drawn := rn_drawn s |}.
Definition rset_slots (v : Z) (s : RunnerState) : RunnerState :=
  {| rn_lanes := rn_lanes s; rn_slots := v; rn_db_slots := rn_db_slots s; rn_in_flight :=
     rn_in_flight s; rn_operations := rn_operations s; rn_settled := rn_settled s;
     rn_running_tasks := rn_running_tasks s; rn_running := rn_running s; rn_output := rn_output
     s; rn_hooks := rn_hooks s; rn_flush_after := rn_flush_after s; rn_heartbeat_after :=
     rn_heartbeat_after s; rn_death_at := rn_death_at s; rn_mode := rn_mode s; rn_events :=
     rn_events s; rn_ingress := rn_ingress s; rn_ingress_open := rn_ingress_open s; rn_futures :=
     rn_futures s; rn_completions := rn_completions s; rn_hook_calls := rn_hook_calls s;
     rn_hook_results := rn_hook_results s; rn_metrics := rn_metrics s; rn_health := rn_health s;
     rn_drawn := rn_drawn s |}.
Definition rset_db_slots (v : Z) (s : RunnerState) : RunnerState :=
  {| rn_lanes := rn_lanes s; rn_slots := rn_slots s; rn_db_slots := v; rn_in_flight :=
     rn_in_flight s; rn_operations := rn_operations s; rn_settled := rn_settled s;
     rn_running_tasks := rn_running_tasks s; rn_running := rn_running s; rn_output := rn_output
     s; rn_hooks := rn_hooks s; rn_flush_after := rn_flush_after s; rn_heartbeat_after :=
     rn_heartbeat_after s; rn_death_at := rn_death_at s; rn_mode := rn_mode s; rn_events :=
     rn_events s; rn_ingress := rn_ingress s; rn_ingress_open := rn_ingress_open s; rn_futures :=
     rn_futures s; rn_completions := rn_completions s; rn_hook_calls := rn_hook_calls s;
     rn_hook_results := rn_hook_results s; rn_metrics := rn_metrics s; rn_health := rn_health s;
     rn_drawn := rn_drawn s |}.
Definition rset_in_flight (v : gmap Uuid InFlight) (s : RunnerState) : RunnerState :=
  {| rn_lanes := rn_lanes s; rn_slots := rn_slots s; rn_db_slots := rn_db_slots s; rn_in_flight
     := v; rn_operations := rn_operations s; rn_settled := rn_settled s; rn_running_tasks :=
     rn_running_tasks s; rn_running := rn_running s; rn_output := rn_output s; rn_hooks :=
     rn_hooks s; rn_flush_after := rn_flush_after s; rn_heartbeat_after := rn_heartbeat_after s;
     rn_death_at := rn_death_at s; rn_mode := rn_mode s; rn_events := rn_events s; rn_ingress :=
     rn_ingress s; rn_ingress_open := rn_ingress_open s; rn_futures := rn_futures s;
     rn_completions := rn_completions s; rn_hook_calls := rn_hook_calls s; rn_hook_results :=
     rn_hook_results s; rn_metrics := rn_metrics s; rn_health := rn_health s; rn_drawn :=
     rn_drawn s |}.
Definition rset_operations (v : list Operation) (s : RunnerState) : RunnerState :=
  {| rn_lanes := rn_lanes s; rn_slots := rn_slots s; rn_db_slots := rn_db_slots s; rn_in_flight
     := rn_in_flight s; rn_operations := v; rn_settled := rn_settled s; rn_running_tasks :=
     rn_running_tasks s; rn_running := rn_running s; rn_output := rn_output s; rn_hooks :=
     rn_hooks s; rn_flush_after := rn_flush_after s; rn_heartbeat_after := rn_heartbeat_after s;
     rn_death_at := rn_death_at s; rn_mode := rn_mode s; rn_events := rn_events s; rn_ingress :=
     rn_ingress s; rn_ingress_open := rn_ingress_open s; rn_futures := rn_futures s;
     rn_completions := rn_completions s; rn_hook_calls := rn_hook_calls s; rn_hook_results :=
     rn_hook_results s; rn_metrics := rn_metrics s; rn_health := rn_health s; rn_drawn :=
     rn_drawn s |}.
Definition rset_settled (v : list DbCompletion) (s : RunnerState) : RunnerState :=
  {| rn_lanes := rn_lanes s; rn_slots := rn_slots s; rn_db_slots := rn_db_slots s; rn_in_flight
     := rn_in_flight s; rn_operations := rn_operations s; rn_settled := v; rn_running_tasks :=
     rn_running_tasks s; rn_running := rn_running s; rn_output := rn_output s; rn_hooks :=
     rn_hooks s; rn_flush_after := rn_flush_after s; rn_heartbeat_after := rn_heartbeat_after s;
     rn_death_at := rn_death_at s; rn_mode := rn_mode s; rn_events := rn_events s; rn_ingress :=
     rn_ingress s; rn_ingress_open := rn_ingress_open s; rn_futures := rn_futures s;
     rn_completions := rn_completions s; rn_hook_calls := rn_hook_calls s; rn_hook_results :=
     rn_hook_results s; rn_metrics := rn_metrics s; rn_health := rn_health s; rn_drawn :=
     rn_drawn s |}.
Definition rset_running_tasks (v : gmap TaskId Uuid) (s : RunnerState) : RunnerState :=
  {| rn_lanes := rn_lanes s; rn_slots := rn_slots s; rn_db_slots := rn_db_slots s; rn_in_flight
     := rn_in_flight s; rn_operations := rn_operations s; rn_settled := rn_settled s;
     rn_running_tasks := v; rn_running := rn_running s; rn_output := rn_output s; rn_hooks :=
     rn_hooks s; rn_flush_after := rn_flush_after s; rn_heartbeat_after := rn_heartbeat_after s;
     rn_death_at := rn_death_at s; rn_mode := rn_mode s; rn_events := rn_events s; rn_ingress :=
     rn_ingress s; rn_ingress_open := rn_ingress_open s; rn_futures := rn_futures s;
     rn_completions := rn_completions s; rn_hook_calls := rn_hook_calls s; rn_hook_results :=
     rn_hook_results s; rn_metrics := rn_metrics s; rn_health := rn_health s; rn_drawn :=
     rn_drawn s |}.
Definition rset_running (v : gmap Uuid RunningInvocation) (s : RunnerState) : RunnerState :=
  {| rn_lanes := rn_lanes s; rn_slots := rn_slots s; rn_db_slots := rn_db_slots s; rn_in_flight
     := rn_in_flight s; rn_operations := rn_operations s; rn_settled := rn_settled s;
     rn_running_tasks := rn_running_tasks s; rn_running := v; rn_output := rn_output s; rn_hooks
     := rn_hooks s; rn_flush_after := rn_flush_after s; rn_heartbeat_after := rn_heartbeat_after
     s; rn_death_at := rn_death_at s; rn_mode := rn_mode s; rn_events := rn_events s; rn_ingress
     := rn_ingress s; rn_ingress_open := rn_ingress_open s; rn_futures := rn_futures s;
     rn_completions := rn_completions s; rn_hook_calls := rn_hook_calls s; rn_hook_results :=
     rn_hook_results s; rn_metrics := rn_metrics s; rn_health := rn_health s; rn_drawn :=
     rn_drawn s |}.
Definition rset_output (v : list TaskCommit) (s : RunnerState) : RunnerState :=
  {| rn_lanes := rn_lanes s; rn_slots := rn_slots s; rn_db_slots := rn_db_slots s; rn_in_flight
     := rn_in_flight s; rn_operations := rn_operations s; rn_settled := rn_settled s;
     rn_running_tasks := rn_running_tasks s; rn_running := rn_running s; rn_output := v; rn_hooks
     := rn_hooks s; rn_flush_after := rn_flush_after s; rn_heartbeat_after := rn_heartbeat_after
     s; rn_death_at := rn_death_at s; rn_mode := rn_mode s; rn_events := rn_events s; rn_ingress
     := rn_ingress s; rn_ingress_open := rn_ingress_open s; rn_futures := rn_futures s;
     rn_completions := rn_completions s; rn_hook_calls := rn_hook_calls s; rn_hook_results :=
     rn_hook_results s; rn_metrics := rn_metrics s; rn_health := rn_health s; rn_drawn :=
     rn_drawn s |}.
Definition rset_hooks (v : gmap TaskLane RunningLaneHook) (s : RunnerState) : RunnerState :=
  {| rn_lanes := rn_lanes s; rn_slots := rn_slots s; rn_db_slots := rn_db_slots s; rn_in_flight
     := rn_in_flight s; rn_operations := rn_operations s; rn_settled := rn_settled s;
     rn_running_tasks := rn_running_tasks s; rn_running := rn_running s; rn_output := rn_output
     s; rn_hooks := v; rn_flush_after := rn_flush_after s; rn_heartbeat_after :=
     rn_heartbeat_after s; rn_death_at := rn_death_at s; rn_mode := rn_mode s; rn_events :=
     rn_events s; rn_ingress := rn_ingress s; rn_ingress_open := rn_ingress_open s; rn_futures :=
     rn_futures s; rn_completions := rn_completions s; rn_hook_calls := rn_hook_calls s;
     rn_hook_results := rn_hook_results s; rn_metrics := rn_metrics s; rn_health := rn_health s;
     rn_drawn := rn_drawn s |}.
Definition rset_flush_after (v : Instant) (s : RunnerState) : RunnerState :=
  {| rn_lanes := rn_lanes s; rn_slots := rn_slots s; rn_db_slots := rn_db_slots s; rn_in_flight
     := rn_in_flight s; rn_operations := rn_operations s; rn_settled := rn_settled s;
     rn_running_tasks := rn_running_tasks s; rn_running := rn_running s; rn_output := rn_output
     s; rn_hooks := rn_hooks s; rn_flush_after := v; rn_heartbeat_after := rn_heartbeat_after s;
     rn_death_at := rn_death_at s; rn_mode := rn_mode s; rn_events := rn_events s; rn_ingress :=
     rn_ingress s; rn_ingress_open := rn_ingress_open s; rn_futures := rn_futures s;
     rn_completions := rn_completions s; rn_hook_calls := rn_hook_calls s; rn_hook_results :=
     rn_hook_results s; rn_metrics := rn_metrics s; rn_health := rn_health s; rn_drawn :=
     rn_drawn s |}.
Definition rset_heartbeat_after (v : option Instant) (s : RunnerState) : RunnerState :=
  {| rn_lanes := rn_lanes s; rn_slots := rn_slots s; rn_db_slots := rn_db_slots s; rn_in_flight
     := rn_in_flight s; rn_operations := rn_operations s; rn_settled := rn_settled s;
     rn_running_tasks := rn_running_tasks s; rn_running := rn_running s; rn_output := rn_output
     s; rn_hooks := rn_hooks s; rn_flush_after := rn_flush_after s; rn_heartbeat_after := v;
     rn_death_at := rn_death_at s; rn_mode := rn_mode s; rn_events := rn_events s; rn_ingress :=
     rn_ingress s; rn_ingress_open := rn_ingress_open s; rn_futures := rn_futures s;
     rn_completions := rn_completions s; rn_hook_calls := rn_hook_calls s; rn_hook_results :=
     rn_hook_results s; rn_metrics := rn_metrics s; rn_health := rn_health s; rn_drawn :=
     rn_drawn s |}.
Definition rset_death_at (v : option Instant) (s : RunnerState) : RunnerState :=
  {| rn_lanes := rn_lanes s; rn_slots := rn_slots s; rn_db_slots := rn_db_slots s; rn_in_flight
     := rn_in_flight s; rn_operations := rn_operations s; rn_settled := rn_settled s;
     rn_running_tasks := rn_running_tasks s; rn_running := rn_running s; rn_output := rn_output
     s; rn_hooks := rn_hooks s; rn_flush_after := rn_flush_after s; rn_heartbeat_after :=
     rn_heartbeat_after s; rn_death_at := v; rn_mode := rn_mode s; rn_events := rn_events s;
     rn_ingress := rn_ingress s; rn_ingress_open := rn_ingress_open s; rn_futures := rn_futures
     s; rn_completions := rn_completions s; rn_hook_calls := rn_hook_calls s; rn_hook_results :=
     rn_hook_results s; rn_metrics := rn_metrics s; rn_health := rn_health s; rn_drawn :=
     rn_drawn s |}.
Definition rset_mode (v : RunMode) (s : RunnerState) : RunnerState :=
  {| rn_lanes := rn_lanes s; rn_slots := rn_slots s; rn_db_slots := rn_db_slots s; rn_in_flight
     := rn_in_flight s; rn_operations := rn_operations s; rn_settled := rn_settled s;
     rn_running_tasks := rn_running_tasks s; rn_running := rn_running s; rn_output := rn_output
     s; rn_hooks := rn_hooks s; rn_flush_after := rn_flush_after s; rn_heartbeat_after :=
     rn_heartbeat_after s; rn_death_at := rn_death_at s; rn_mode := v; rn_events := rn_events s;
     rn_ingress := rn_ingress s; rn_ingress_open := rn_ingress_open s; rn_futures := rn_futures
     s; rn_completions := rn_completions s; rn_hook_calls := rn_hook_calls s; rn_hook_results :=
     rn_hook_results s; rn_metrics := rn_metrics s; rn_health := rn_health s; rn_drawn :=
     rn_drawn s |}.
Definition rset_events (v : list EventSlot) (s : RunnerState) : RunnerState :=
  {| rn_lanes := rn_lanes s; rn_slots := rn_slots s; rn_db_slots := rn_db_slots s; rn_in_flight
     := rn_in_flight s; rn_operations := rn_operations s; rn_settled := rn_settled s;
     rn_running_tasks := rn_running_tasks s; rn_running := rn_running s; rn_output := rn_output
     s; rn_hooks := rn_hooks s; rn_flush_after := rn_flush_after s; rn_heartbeat_after :=
     rn_heartbeat_after s; rn_death_at := rn_death_at s; rn_mode := rn_mode s; rn_events := v;
     rn_ingress := rn_ingress s; rn_ingress_open := rn_ingress_open s; rn_futures := rn_futures
     s; rn_completions := rn_completions s; rn_hook_calls := rn_hook_calls s; rn_hook_results :=
     rn_hook_results s; rn_metrics := rn_metrics s; rn_health := rn_health s; rn_drawn :=
     rn_drawn s |}.
Definition rset_ingress (v : list TaskRecord) (s : RunnerState) : RunnerState :=
  {| rn_lanes := rn_lanes s; rn_slots := rn_slots s; rn_db_slots := rn_db_slots s; rn_in_flight
     := rn_in_flight s; rn_operations := rn_operations s; rn_settled := rn_settled s;
     rn_running_tasks := rn_running_tasks s; rn_running := rn_running s; rn_output := rn_output
     s; rn_hooks := rn_hooks s; rn_flush_after := rn_flush_after s; rn_heartbeat_after :=
     rn_heartbeat_after s; rn_death_at := rn_death_at s; rn_mode := rn_mode s; rn_events :=
     rn_events s; rn_ingress := v; rn_ingress_open := rn_ingress_open s; rn_futures := rn_futures
     s; rn_completions := rn_completions s; rn_hook_calls := rn_hook_calls s; rn_hook_results :=
     rn_hook_results s; rn_metrics := rn_metrics s; rn_health := rn_health s; rn_drawn :=
     rn_drawn s |}.
Definition rset_ingress_open (v : bool) (s : RunnerState) : RunnerState :=
  {| rn_lanes := rn_lanes s; rn_slots := rn_slots s; rn_db_slots := rn_db_slots s; rn_in_flight
     := rn_in_flight s; rn_operations := rn_operations s; rn_settled := rn_settled s;
     rn_running_tasks := rn_running_tasks s; rn_running := rn_running s; rn_output := rn_output
     s; rn_hooks := rn_hooks s; rn_flush_after := rn_flush_after s; rn_heartbeat_after :=
     rn_heartbeat_after s; rn_death_at := rn_death_at s; rn_mode := rn_mode s; rn_events :=
     rn_events s; rn_ingress := rn_ingress s; rn_ingress_open := v; rn_futures := rn_futures s;
     rn_completions := rn_completions s; rn_hook_calls := rn_hook_calls s; rn_hook_results :=
     rn_hook_results s; rn_metrics := rn_metrics s; rn_health := rn_health s; rn_drawn :=
     rn_drawn s |}.
Definition rset_futures (v : list TaskExecution) (s : RunnerState) : RunnerState :=
  {| rn_lanes := rn_lanes s; rn_slots := rn_slots s; rn_db_slots := rn_db_slots s; rn_in_flight
     := rn_in_flight s; rn_operations := rn_operations s; rn_settled := rn_settled s;
     rn_running_tasks := rn_running_tasks s; rn_running := rn_running s; rn_output := rn_output
     s; rn_hooks := rn_hooks s; rn_flush_after := rn_flush_after s; rn_heartbeat_after :=
     rn_heartbeat_after s; rn_death_at := rn_death_at s; rn_mode := rn_mode s; rn_events :=
     rn_events s; rn_ingress := rn_ingress s; rn_ingress_open := rn_ingress_open s; rn_futures :=
     v; rn_completions := rn_completions s; rn_hook_calls := rn_hook_calls s; rn_hook_results :=
     rn_hook_results s; rn_metrics := rn_metrics s; rn_health := rn_health s; rn_drawn :=
     rn_drawn s |}.
Definition rset_completions (v : list Completion) (s : RunnerState) : RunnerState :=
  {| rn_lanes := rn_lanes s; rn_slots := rn_slots s; rn_db_slots := rn_db_slots s; rn_in_flight
     := rn_in_flight s; rn_operations := rn_operations s; rn_settled := rn_settled s;
     rn_running_tasks := rn_running_tasks s; rn_running := rn_running s; rn_output := rn_output
     s; rn_hooks := rn_hooks s; rn_flush_after := rn_flush_after s; rn_heartbeat_after :=
     rn_heartbeat_after s; rn_death_at := rn_death_at s; rn_mode := rn_mode s; rn_events :=
     rn_events s; rn_ingress := rn_ingress s; rn_ingress_open := rn_ingress_open s; rn_futures :=
     rn_futures s; rn_completions := v; rn_hook_calls := rn_hook_calls s; rn_hook_results :=
     rn_hook_results s; rn_metrics := rn_metrics s; rn_health := rn_health s; rn_drawn :=
     rn_drawn s |}.
Definition rset_hook_calls (v : list HookCall) (s : RunnerState) : RunnerState :=
  {| rn_lanes := rn_lanes s; rn_slots := rn_slots s; rn_db_slots := rn_db_slots s; rn_in_flight
     := rn_in_flight s; rn_operations := rn_operations s; rn_settled := rn_settled s;
     rn_running_tasks := rn_running_tasks s; rn_running := rn_running s; rn_output := rn_output
     s; rn_hooks := rn_hooks s; rn_flush_after := rn_flush_after s; rn_heartbeat_after :=
     rn_heartbeat_after s; rn_death_at := rn_death_at s; rn_mode := rn_mode s; rn_events :=
     rn_events s; rn_ingress := rn_ingress s; rn_ingress_open := rn_ingress_open s; rn_futures :=
     rn_futures s; rn_completions := rn_completions s; rn_hook_calls := v; rn_hook_results :=
     rn_hook_results s; rn_metrics := rn_metrics s; rn_health := rn_health s; rn_drawn :=
     rn_drawn s |}.
Definition rset_hook_results (v : list HookCompletion) (s : RunnerState) : RunnerState :=
  {| rn_lanes := rn_lanes s; rn_slots := rn_slots s; rn_db_slots := rn_db_slots s; rn_in_flight
     := rn_in_flight s; rn_operations := rn_operations s; rn_settled := rn_settled s;
     rn_running_tasks := rn_running_tasks s; rn_running := rn_running s; rn_output := rn_output
     s; rn_hooks := rn_hooks s; rn_flush_after := rn_flush_after s; rn_heartbeat_after :=
     rn_heartbeat_after s; rn_death_at := rn_death_at s; rn_mode := rn_mode s; rn_events :=
     rn_events s; rn_ingress := rn_ingress s; rn_ingress_open := rn_ingress_open s; rn_futures :=
     rn_futures s; rn_completions := rn_completions s; rn_hook_calls := rn_hook_calls s;
     rn_hook_results := v; rn_metrics := rn_metrics s; rn_health := rn_health s; rn_drawn :=
     rn_drawn s |}.
Definition rset_metrics (v : TaskMetrics) (s : RunnerState) : RunnerState :=
  {| rn_lanes := rn_lanes s; rn_slots := rn_slots s; rn_db_slots := rn_db_slots s; rn_in_flight
     := rn_in_flight s; rn_operations := rn_operations s; rn_settled := rn_settled s;
     rn_running_tasks := rn_running_tasks s; rn_running := rn_running s; rn_output := rn_output
     s; rn_hooks := rn_hooks s; rn_flush_after := rn_flush_after s; rn_heartbeat_after :=
     rn_heartbeat_after s; rn_death_at := rn_death_at s; rn_mode := rn_mode s; rn_events :=
     rn_events s; rn_ingress := rn_ingress s; rn_ingress_open := rn_ingress_open s; rn_futures :=
     rn_futures s; rn_completions := rn_completions s; rn_hook_calls := rn_hook_calls s;
     rn_hook_results := rn_hook_results s; rn_metrics := v; rn_health := rn_health s; rn_drawn :=
     rn_drawn s |}.
Definition rset_health (v : TaskHealth) (s : RunnerState) : RunnerState :=
  {| rn_lanes := rn_lanes s; rn_slots := rn_slots s; rn_db_slots := rn_db_slots s; rn_in_flight
     := rn_in_flight s; rn_operations := rn_operations s; rn_settled := rn_settled s;
     rn_running_tasks := rn_running_tasks s; rn_running := rn_running s; rn_output := rn_output
     s; rn_hooks := rn_hooks s; rn_flush_after := rn_flush_after s; rn_heartbeat_after :=
     rn_heartbeat_after s; rn_death_at := rn_death_at s; rn_mode := rn_mode s; rn_events :=
     rn_events s; rn_ingress := rn_ingress s; rn_ingress_open := rn_ingress_open s; rn_futures :=
     rn_futures s; rn_completions := rn_completions s; rn_hook_calls := rn_hook_calls s;
     rn_hook_results := rn_hook_results s; rn_metrics := rn_metrics s; rn_health := v; rn_drawn
     := rn_drawn s |}.
Definition rset_drawn (v : nat) (s : RunnerState) : RunnerState :=
  {| rn_lanes := rn_lanes s; rn_slots := rn_slots s; rn_db_slots := rn_db_slots s; rn_in_flight
     := rn_in_flight s; rn_operations := rn_operations s; rn_settled := rn_settled s;
     rn_running_tasks := rn_running_tasks s; rn_running := rn_running s; rn_output := rn_output
     s; rn_hooks := rn_hooks s; rn_flush_after := rn_flush_after s; rn_heartbeat_after :=
     rn_heartbeat_after s; rn_death_at := rn_death_at s; rn_mode := rn_mode s; rn_events :=
     rn_events s; rn_ingress := rn_ingress s; rn_ingress_open := rn_ingress_open s; rn_futures :=
     rn_futures s; rn_completions := rn_completions s; rn_hook_calls := rn_hook_calls s;
     rn_hook_results := rn_hook_results s; rn_metrics := rn_metrics s; rn_health := rn_health s;
     rn_drawn := v |}.

(** What [TaskRunner::new] copies from the configuration and never changes. *)
Record RunnerConf := {
  rc_registry : TaskRegistry;
  rc_concurrency : Z;
  rc_commit_batch_size : Z;
  rc_lease_duration : Duration;
  rc_poll_interval : Duration;
  rc_fallback_interval : Duration;
  rc_node_id : Uuid;
  rc_ingress_capacity : Z;
}.

Definition runner_conf (registry : TaskRegistry) (node : Uuid) : RunnerConf :=
  let config := rg_config registry in
  {| rc_registry := registry; rc_concurrency := cf_concurrency config;
     rc_commit_batch_size := cf_commit_batch_size config;
     rc_lease_duration := cf_lease_duration config; rc_poll_interval := cf_poll_interval config;
     rc_fallback_interval := cf_fallback_poll_interval config; rc_node_id := node;
     rc_ingress_capacity := cf_ingress_capacity config |}.

Definition lane_state_new (now : Instant) (conf : TaskLaneConf) : LaneState :=
  {| ls_conf := conf; ls_local_rate := (λ rate, local_new rate now) <$> lc_rate conf; ls_tasks := [];
     ls_slots := lc_concurrency conf; ls_uncommitted := 0; ls_poll_after := now;
     ls_owner_token := None; ls_owner_renew_at := None; ls_owner_generation := 0;
     ls_owner_phase := Active; ls_completed_work := false; ls_hook_result := None;
     ls_flow_cache := []; ls_cached_bytes := 0 |}.

(** [TaskRunner::new] over a client's counters and health; the node's identifier is drawn first. *)
Definition runner_new (rc : RunnerConf) (metrics : TaskMetrics) (health : TaskHealth) (drawn : nat)
    (now : Instant) : RunnerState :=
  {| rn_lanes := lane_state_new now <$> rg_lanes (rc_registry rc); rn_slots := rc_concurrency rc;
     rn_db_slots := cf_db_concurrency (rg_config (rc_registry rc)); rn_in_flight := ∅;
     rn_operations := []; rn_settled := []; rn_running_tasks := ∅; rn_running := ∅; rn_output := [];
     rn_hooks := ∅; rn_flush_after := now; rn_heartbeat_after := None; rn_death_at := None;
     rn_mode := Running_; rn_events := []; rn_ingress := []; rn_ingress_open := true;
     rn_futures := []; rn_completions := []; rn_hook_calls := []; rn_hook_results := [];
     rn_metrics := metrics; rn_health := health; rn_drawn := drawn |}.

(** ** Access *)

(** A lane's name. *)
Definition ls_name (lane : LaneState) : TaskLane := lc_lane (ls_conf lane).

(** [lane_mut(lane)] and what is done to the lane it finds. *)
Definition lane_mut (name : TaskLane) (f : LaneState → LaneState) (s : RunnerState) : RunnerState :=
  rset_lanes (update_first (λ l, String.eqb (ls_name l) name) f (rn_lanes s)) s.
Definition find_lane_state (name : TaskLane) (s : RunnerState) : option LaneState :=
  List.find (λ l, String.eqb (ls_name l) name) (rn_lanes s).

(** Recording never panics ([recording_never_panics]), so only its effect is kept. *)
Definition noted (body : M TaskMetrics Panic unit) (s : RunnerState) : RunnerState :=
  rset_metrics (body (rn_metrics s)).2 s.
