(* ===== verification/RunnerLanes.v ===== *)
(** * Lanes of the runner ([tasks/runner/lanes.rs], the lane and database queries of [engine.rs])

    Admission of claims, the application of a poll's lanes and owner edges,
    lifecycle hooks and the bounded flow cache. *)
From S2P Require Import Prelude Externals Failure Config Rate Models Transitions Lifecycle.
From S2P Require Import MemoryState Json Metrics Registry Submission Handlers Client Runner.
#[local] Open Scope Z_scope.

Definition usize_saturating_sub (a b : Z) : Z := Z.max 0 (a - b).
Definition zsum (l : list Z) : Z := foldr Z.add 0 l.

(** ** One lane ([LaneState]) *)

Definition needs_refill (l : LaneState) : bool :=
  usize_saturating (zlen (ls_tasks l) * 2) <? lc_concurrency (ls_conf l).

Definition available (l : LaneState) : Z :=
  if needs_refill l then
    Z.min
      (usize_saturating_sub
        (usize_saturating_sub (lc_concurrency (ls_conf l))
           ((lc_concurrency (ls_conf l) - ls_slots l) + zlen (ls_tasks l)))
        (ls_uncommitted l))
      (lc_claim_batch_size (ls_conf l))
  else 0.

Section LocalRate.
Context `{X : Externals}.

Definition claim_limit (limit : Z) (now : Instant) (l : LaneState) : Z * LaneState :=
  match ls_local_rate l with
  | Some rate =>
      let '(n, rate) := local_available now rate in (Z.min limit n, lset_local_rate (Some rate) l)
  | None => (limit, l)
  end.

Definition consume_local_rate (permits : Z) (now : Instant) (l : LaneState) : LaneState :=
  match ls_local_rate l with
  | Some rate => lset_local_rate (Some (local_consume permits now rate)) l
  | None => l
  end.

Definition local_rate_wake (now : Instant) (l : LaneState) : option Duration * LaneState :=
  match ls_local_rate l with
  | Some rate =>
      let '(wait, rate) := local_next_permit now rate in (wait, lset_local_rate (Some rate) l)
  | None => (None, l)
  end.
End LocalRate.

Definition lane_deadline (now : Instant) (saturated : bool) (global_rate : option TaskRate)
    (store_wake : option Duration) (poll_interval fallback_interval : Duration) : Instant :=
  if saturated then
    let short := now + poll_interval in
    if bool_decide (is_Some global_rate)
    then match store_wake with Some wake => Z.max short (now + wake) | None => short end
    else short
  else match store_wake with Some wake => now + wake | None => now + fallback_interval end.

Definition lane_idle (l : LaneState) : bool :=
  bool_decide (ls_tasks l = []) && (ls_slots l =? lc_concurrency (ls_conf l)) && (ls_uncommitted l =? 0).

Definition owned_lane_deadline (l : LaneState) (rate_deadline : Instant) : Instant :=
  if bool_decide (is_Some (ls_owner_token l))
     && ((ls_slots l <? lc_concurrency (ls_conf l)) || (0 <? ls_uncommitted l)
         || negb (bool_decide (ls_tasks l = [])))
  then default rate_deadline (ls_owner_renew_at l)
  else rate_deadline.

(** Distinguishes intentional idle release from lease or token loss. *)
Definition capture_owner_edge (lane : TaskLane) (previous : option string) (owner : LaneOwnerPoll)
    (effects : PollEffects) : PollEffects :=
  if bool_decide (is_Some previous) && bool_decide (op_token owner = None) then
    let lost := match op_phase owner with Active | Idling | Busying => true | _ => false end in
    {| pe_hooks := pe_hooks effects ++ [(lane, None)]; pe_acquired := pe_acquired effects;
       pe_takeovers := pe_takeovers effects;
       pe_lost := if lost then pe_lost effects ++ [lane] else pe_lost effects;
       pe_transitions := pe_transitions effects |}
  else
    {| pe_hooks := match op_token owner, op_action owner with
                   | Some token, Some action =>
                       pe_hooks effects ++ [(lane, Some (token, op_generation owner, action))]
                   | _, _ => pe_hooks effects
                   end;
       pe_acquired := if bool_decide (previous = None) && bool_decide (is_Some (op_token owner))
                      then pe_acquired effects ++ [lane] else pe_acquired effects;
       pe_takeovers := pe_takeovers effects; pe_lost := pe_lost effects;
       pe_transitions := pe_transitions effects |}.

Definition push_takeover (lane : TaskLane) (e : PollEffects) : PollEffects :=
  {| pe_hooks := pe_hooks e; pe_acquired := pe_acquired e; pe_takeovers := pe_takeovers e ++ [lane];
     pe_lost := pe_lost e; pe_transitions := pe_transitions e |}.
Definition push_transition (lane : TaskLane) (phase : LaneOwnerPhase) (e : PollEffects) : PollEffects :=
  {| pe_hooks := pe_hooks e; pe_acquired := pe_acquired e; pe_takeovers := pe_takeovers e;
     pe_lost := pe_lost e; pe_transitions := pe_transitions e ++ [(lane, phase)] |}.

(** Applies one fenced owner response; the side effects of its transitions are collected. *)
Definition apply_owner_poll (l : LaneState) (name : TaskLane) (owner : LaneOwnerPoll) (now : Instant)
    (lease_duration : Duration) (effects : PollEffects) : LaneState * PollEffects :=
  let previous := ls_owner_token l in
  let previous_phase := ls_owner_phase l in
  let effects := if op_takeover owner then push_takeover name effects else effects in
  let l := lset_owner_token (op_token owner) l in
  let l := if bool_decide (previous = op_token owner) then l
           else lset_cached_bytes 0 (lset_flow_cache [] l) in
  let l := lset_owner_renew_at ((λ _, now + lease_duration / 2) <$> op_token owner) l in
  let l := lset_owner_generation (op_generation owner) l in
  let l := lset_owner_phase (op_phase owner) l in
  let l := lset_completed_work (ls_completed_work l && bool_decide (op_phase owner = IdleFailed)) l in
  let l := lset_hook_result None l in
  let effects := capture_owner_edge name previous owner effects in
  (l, if bool_decide (previous_phase = op_phase owner) then effects
      else push_transition name (op_phase owner) effects).

Definition apply_lane_poll (l : LaneState) (poll : LanePoll) (now : Instant)
    (poll_interval fallback_interval lease_duration : Duration) (effects : PollEffects) :
    LaneState * PollEffects :=
  let '(l, effects) :=
    match lp_owner poll with
    | Some owner => apply_owner_poll l (lp_lane poll) owner now lease_duration effects
    | None => (l, effects)
    end in
  let l := lset_tasks (ls_tasks l ++ lp_tasks poll) l in
  let store_deadline := lane_deadline now (lp_saturated poll) (lc_global_rate (ls_conf l))
                          (lp_next_wake_in poll) poll_interval fallback_interval in
  (lset_poll_after (owned_lane_deadline l store_deadline) l, effects).

(** ** The flow cache *)

Section Cache.
Context `{R : RunnerExternals}.

Definition capacity_of (text : option string) : Z :=
  match text with Some text => string_capacity text | None => 0 end.
Definition flow_bytes (r : TaskRecord) : Z :=
  record_size + 128 + string_capacity (t_input r) + string_capacity (t_name r)
  + string_capacity (t_lane r) + capacity_of (t_state r) + capacity_of (t_resume_input r)
  + capacity_of (t_last_result r) + capacity_of (t_idempotency_key r)
  + capacity_of (t_idempotency_fingerprint r).

Definition forget_flow (id : TaskId) (l : LaneState) : LaneState :=
  match List.find (λ e, (e.1 =? id)%N) (ls_flow_cache l) with
  | Some (_, old) =>
      lset_cached_bytes (usize_saturating_sub (ls_cached_bytes l) (flow_bytes old))
        (lset_flow_cache (List.filter (λ e, negb (e.1 =? id)%N) (ls_flow_cache l)) l)
  | None => l
  end.

(** Drops the oldest snapshots until [size] more bytes fit, or none is left. *)
Fixpoint make_room (limit size : Z) (cache : list (TaskId * TaskRecord)) (bytes : Z) :
    list (TaskId * TaskRecord) * Z :=
  match cache with
  | [] => ([], bytes)
  | (_, old) :: rest =>
      if limit <? usize_saturating (bytes + size)
      then make_room limit size rest (usize_saturating_sub bytes (flow_bytes old))
      else (cache, bytes)
  end.

Definition remember_flow (r : TaskRecord) (l : LaneState) : LaneState :=
  let l := forget_flow (t_id r) l in
  let terminal := match t_status r with Succeeded | Failed => true | _ => false end in
  let size := flow_bytes r in
  let limit := cache_bytes (ls_conf l) in
  if negb (bool_decide (t_kind r = Flow)) || terminal || (limit <? size) then l
  else
    let '(cache, bytes) := make_room limit size (ls_flow_cache l) (ls_cached_bytes l) in
    lset_flow_cache (cache ++ [(t_id r, r)]) (lset_cached_bytes (bytes + size) l).
End Cache.

(** ** Queries over the whole runner *)

Definition lane_running (lane : TaskLane) (s : RunnerState) : bool :=
  existsb (λ i, String.eqb (ri_lane i) lane) (map_to_list (rn_running s)).*2.

Definition locked_lane (lane : TaskLane) (s : RunnerState) : bool :=
  match find_lane_state lane s with
  | Some l => bool_decide (is_Some (lc_lane_lock (ls_conf l)))
  | None => false
  end.

Definition requests (s : RunnerState) : list DbRequest := if_request <$> (map_to_list (rn_in_flight s)).*2.

Definition request_names (lane : TaskLane) (locked : bool) (request : DbRequest) : bool :=
  match request with
  | ReqHeartbeat | ReqGiveBack => false
  | ReqClaim claims | ReqCoordinate claims => existsb (λ c, String.eqb (lcl_lane c) lane) claims
  | ReqCommit commits _ _ => locked && existsb (λ c, bool_decide (commit_lane c = Some lane)) commits
  end.
Definition lane_busy (lane : TaskLane) (s : RunnerState) : bool :=
  existsb (request_names lane (locked_lane lane s)) (requests s).

(** The inputs a request may still bring. *)
Definition reserved_inputs (request : DbRequest) : Z :=
  match request with
  | ReqClaim claims => zsum (lcl_limit <$> claims)
  | ReqCommit _ capacity _ => capacity
  | _ => 0
  end.

Definition input_capacity (rc : RunnerConf) (lanes : list LaneState) : Z :=
  rc_ingress_capacity rc + zsum ((λ l, lc_concurrency (ls_conf l)) <$> lanes).
Definition resident (l : LaneState) : Z := zlen (ls_tasks l) + ls_uncommitted l.
Definition outstanding (s : RunnerState) : Z :=
  Z.of_nat (size (rn_running_tasks s)) + zsum (resident <$> rn_lanes s).
Definition reserved_room (s : RunnerState) : Z := zsum (reserved_inputs <$> requests s).

Definition input_room (rc : RunnerConf) (s : RunnerState) : Z :=
  usize_saturating_sub
    (usize_saturating_sub (input_capacity rc (rn_lanes s)) (outstanding s)) (reserved_room s).

Definition queued (s : RunnerState) : Z :=
  zlen (List.filter (λ r, bool_decide (t_kind r = Work)) (rn_lanes s ≫= ls_tasks)).

Definition reserved_work (request : DbRequest) : Z :=
  match request with
  | ReqClaim claims => zsum (lcl_limit <$> List.filter (λ c, bool_decide (lcl_owner c = None)) claims)
  | _ => 0
  end.
Definition claim_capacity (s : RunnerState) : Z :=
  usize_saturating_sub (usize_saturating_sub (rn_slots s) (queued s)) (zsum (reserved_work <$> requests s)).

Definition stopped (s : RunnerState) : bool :=
  match rn_mode s with Retired | Dead | Faulted | Finished => true | _ => false end.

Section Lanes.
Context `{X : Externals, R : RunnerExternals} (rc : RunnerConf).

(** [lane.poll_after.min(at)]. *)
Definition wake_by (at_ : Instant) (l : LaneState) : LaneState :=
  lset_poll_after (Z.min (ls_poll_after l) at_) l.
Definition wake_lane (now : Instant) (lane : TaskLane) (s : RunnerState) : RunnerState :=
  lane_mut lane (wake_by (now + rc_poll_interval rc)) s.
Definition wake_lanes (now : Instant) (s : RunnerState) : RunnerState :=
  rset_lanes (wake_by (now + rc_poll_interval rc) <$> rn_lanes s) s.

(** ** Inputs *)

Definition in_mode (modes : list RunMode) (s : RunnerState) : bool := bool_decide (rn_mode s ∈ modes).

Definition accept_input (r : TaskRecord) (s : RunnerState) : RunnerState :=
  let running := bool_decide (t_status r = Running) && bool_decide (t_node_id r = Some (rc_node_id rc)) in
  let duplicate := bool_decide (is_Some (rn_running_tasks s !! t_id r)) in
  match find_lane_state (t_lane r) s with
  | None => s
  | Some queue =>
      let s := if bool_decide (t_kind r = Flow) then lane_mut (t_lane r) (remember_flow r) s else s in
      if negb (in_mode [Running_; Draining] s) || negb running || duplicate then s
      else if existsb (has_id (t_id r)) (ls_tasks queue) then s
      else
        lane_mut (t_lane r) (λ l, lset_tasks (ls_tasks l ++ [r]) l)
          (noted (record_claimed (t_lane r) 1 0) s)
  end.

(** ** Requests *)

Definition locked_claim (l : LaneState) (allow_claim : bool) : LaneClaim :=
  {| lcl_lane := ls_name l;
     lcl_limit := match lc_lane_lock (ls_conf l) with Some lock => ll_batch_size lock | None => 1 end;
     lcl_owner := Some {| or_token := ls_owner_token l; or_quiescent := lane_idle l;
                          or_allow_claim := allow_claim; or_completed_work := ls_completed_work l;
                          or_hook := ls_hook_result l |} |}.

Definition set_quiescent (quiescent : bool) (o : LaneOwnerRequest) : LaneOwnerRequest :=
  {| or_token := or_token o; or_quiescent := quiescent; or_allow_claim := or_allow_claim o;
     or_completed_work := or_completed_work o; or_hook := or_hook o |}.
(** [if running && let Some(owner) = &mut claim.owner { owner.quiescent = false }]. *)
Definition not_quiescent_if (running : bool) (c : LaneClaim) : LaneClaim :=
  if running then {| lcl_lane := lcl_lane c; lcl_limit := lcl_limit c;
                     lcl_owner := set_quiescent false <$> lcl_owner c |} else c.

Definition due (now : Instant) (at_ : option Instant) : bool :=
  match at_ with Some at_ => at_ <=? now | None => false end.

Definition coordinate_request (now : Instant) (s : RunnerState) : option DbRequest * RunnerState :=
  match List.find (λ l,
      bool_decide (is_Some (ls_owner_token l)) && negb (lane_busy (ls_name l) s)
      && (due now (ls_owner_renew_at l)
          || ((ls_poll_after l <=? now)
              && (bool_decide (is_Some (ls_hook_result l))
                  || (in_mode [Draining] s && lane_idle l))))) (rn_lanes s) with
  | None => (None, s)
  | Some l =>
      let selected := ls_name l in
      let running := lane_running selected s in
      match find_lane_state selected s with
      | None => (None, s)
      | Some queue =>
          let claim := not_quiescent_if running (locked_claim queue false) in
          (Some (ReqCoordinate [claim]),
           lane_mut selected (lset_poll_after (now + rc_fallback_interval rc)) s)
      end
  end.

Definition lane_has_flows (lane : TaskLane) : bool :=
  existsb (λ task, bool_decide (task_kind task = Flow) && String.eqb (effective_lane task) lane)
    (registry_values (rc_registry rc)).

(** The lane is out of [self.lanes] while it is admitted. *)
Definition admit_lane (l : LaneState) (capacity : Z) (now : Instant) (s : RunnerState) :
    option LaneClaim * LaneState :=
  if bool_decide (is_Some (lc_lane_lock (ls_conf l))) then
    let request := not_quiescent_if (lane_running (ls_name l) s) (locked_claim l true) in
    let quiescent := match lcl_owner request with Some o => or_quiescent o | None => false end in
    (if quiescent then Some request else None, l)
  else
    let flows := lane_has_flows (ls_name l) in
    let '(limit, l) :=
      if flows then
        (Z.min (usize_saturating_sub (input_room rc s) (zlen (ls_tasks l) + ls_uncommitted l))
               (lc_claim_batch_size (ls_conf l)), l)
      else claim_limit (Z.min (available l) capacity) now l in
    (if 0 <? limit then Some {| lcl_lane := ls_name l; lcl_limit := limit; lcl_owner := None |}
     else None, l).

(** Rotates through the lanes, at most once each, until one has something to claim. *)
Fixpoint claim_rotation (turns : nat) (capacity : Z) (now : Instant) (s : RunnerState) :
    option DbRequest * RunnerState :=
  match turns, rn_lanes s with
  | S turns, l :: rest =>
      let busy := lane_busy (ls_name l) s in
      let popped := rset_lanes rest s in
      let eligible := negb busy && (ls_poll_after l <=? now) in
      let '(claim, l) := if eligible then admit_lane l capacity now popped else (None, l) in
      let l := match claim with
               | Some _ => lset_poll_after (now + rc_fallback_interval rc) l
               | None => l
               end in
      let s := rset_lanes (rest ++ [l]) s in
      match claim with
      | Some claim => (Some (ReqClaim [claim]), s)
      | None => claim_rotation turns capacity now s
      end
  | _, _ => (None, s)
  end.

Definition claim_request (now : Instant) (s : RunnerState) : option DbRequest * RunnerState :=
  if negb (in_mode [Running_] s) then (None, s)
  else
    let capacity := claim_capacity s in
    let room := input_room rc s in
    claim_rotation (length (rn_lanes s)) (Z.min capacity room) now s.

(** ** Invocations and hooks *)

Definition set_aborted (e : TaskExecution) : TaskExecution :=
  {| ex_node_id := ex_node_id e; ex_invocation_id := ex_invocation_id e; ex_records := ex_records e;
     ex_lane := ex_lane e; ex_payload_limit := ex_payload_limit e; ex_error_limit := ex_error_limit e;
     ex_owner_token := ex_owner_token e; ex_global_permit := ex_global_permit e;
     ex_lane_permit := ex_lane_permit e; ex_aborted := true |}.
(** [AbortHandle::abort]; the future and its permits go when [tokio] drops it. *)
Definition abort_execution (id : Uuid) (futures : list TaskExecution) : list TaskExecution :=
  (λ e, if (ex_invocation_id e =? id)%N then set_aborted e else e) <$> futures.

(** Removes the entries of the given tasks. *)
Definition remove_tasks (ids : list TaskId) (m : gmap TaskId Uuid) : gmap TaskId Uuid :=
  foldr delete m ids.

Definition abort_invocation (id : Uuid) (s : RunnerState) : RunnerState :=
  match rn_running s !! id with
  | None => s
  | Some invocation =>
      let s := rset_running (delete id (rn_running s)) s in
      let s := rset_futures (abort_execution id (rn_futures s)) s in
      rset_running_tasks (remove_tasks (ri_task_ids invocation) (rn_running_tasks s)) s
  end.

Definition same_hook (lane : TaskLane) (h : RunningLaneHook) (c : HookCall) : bool :=
  String.eqb (hc_lane c) lane && String.eqb (hc_token c) (rh_token h)
  && (hc_generation c =? rh_generation h) && bool_decide (hc_action c = rh_action h).
Definition set_hook_aborted (c : HookCall) : HookCall :=
  {| hc_hook := hc_hook c; hc_lane := hc_lane c; hc_token := hc_token c;
     hc_generation := hc_generation c; hc_action := hc_action c; hc_error_limit := hc_error_limit c;
     hc_aborted := true |}.
Definition abort_hook (lane : TaskLane) (h : RunningLaneHook) (calls : list HookCall) : list HookCall :=
  (λ c, if same_hook lane h c then set_hook_aborted c else c) <$> calls.
(** [if let Some(hook) = self.running_hooks.remove(&lane) { hook.abort.abort() }]. *)
Definition remove_hook (lane : TaskLane) (s : RunnerState) : RunnerState :=
  match rn_hooks s !! lane with
  | None => s
  | Some h => rset_hook_calls (abort_hook lane h (rn_hook_calls s)) (rset_hooks (delete lane (rn_hooks s)) s)
  end.
Definition abort_hooks (s : RunnerState) : RunnerState :=
  let calls := fold_left (λ calls p, abort_hook p.1 p.2 calls) (map_to_list (rn_hooks s)) (rn_hook_calls s) in
  rset_hook_calls calls (rset_hooks ∅ s).

(** The registered hook of a lane for an action. *)
Definition hook_for (lane : TaskLane) (action : LaneHookAction) (s : RunnerState) : option LaneHook :=
  match find_lane_state lane s with
  | Some l =>
      match lc_lane_lock (ls_conf l) with
      | Some lock => match action with HookIdle => ll_idle_hook lock | HookBusy => ll_busy_hook lock end
      | None => None
      end
  | None => None
  end.

Definition hook_is (token : string) (generation : Z) (action : LaneHookAction) (h : RunningLaneHook) : bool :=
  String.eqb (rh_token h) token && (rh_generation h =? generation) && bool_decide (rh_action h = action).

Definition spawn_hook (now : Instant) (lane : TaskLane) (token : string) (generation : Z)
    (action : LaneHookAction) (s : RunnerState) : RunnerState :=
  if match rn_hooks s !! lane with Some h => hook_is token generation action h | None => false end
  then s
  else
    let s := remove_hook lane s in
    match hook_for lane action s with
    | None => s
    | Some hook =>
        let call := {| hc_hook := hook; hc_lane := lane; hc_token := token; hc_generation := generation;
                       hc_action := action;
                       hc_error_limit := cf_max_error_bytes (rg_config (rc_registry rc));
                       hc_aborted := false |} in
        let s := noted (hook_started lane action) (rset_hook_calls (rn_hook_calls s ++ [call]) s) in
        rset_hooks (<[lane := {| rh_token := token; rh_generation := generation; rh_action := action;
                                 rh_started := now |}]> (rn_hooks s)) s
    end.

(** What the spawned hook sends back; [None] is a panic. *)
Definition execute_hook (call : HookCall) (outcome : option (result string unit)) : HookCompletion :=
  {| hk_lane := hc_lane call; hk_token := hc_token call;
     hk_result := {| hr_generation := hc_generation call; hr_action := hc_action call;
                     hr_result := match outcome with
                                  | Some (Ok _) => Ok tt
                                  | Some (Err error) => Err (truncate_utf8 error (hc_error_limit call))
                                  | None => Err "task lane lifecycle hook panicked"%string
                                  end |} |}.

Definition accept_hook (now : Instant) (c : HookCompletion) (s : RunnerState) : RunnerState :=
  let matched := match rn_hooks s !! hk_lane c with
                 | Some h => hook_is (hk_token c) (hr_generation (hk_result c)) (hr_action (hk_result c)) h
                 | None => false
                 end in
  if negb matched then noted (stale_hook_result (hk_lane c)) s
  else
    let s := match rn_hooks s !! hk_lane c with
             | Some h => noted (hook_completed (hk_lane c) (hr_action (hk_result c))
                                  (negb (is_ok (hr_result (hk_result c)))) (Z.max 0 (now - rh_started h)))
                           (rset_hooks (delete (hk_lane c) (rn_hooks s)) s)
             | None => s
             end in
    lane_mut (hk_lane c) (λ l,
      if bool_decide (ls_owner_token l = Some (hk_token c))
      then lset_poll_after (now + rc_poll_interval rc) (lset_hook_result (Some (hk_result c)) l)
      else l) s.

(** ** Losing a lane *)

(** [queue.uncommitted.saturating_sub(count)] for each lane of the commits that are gone. *)
Definition count_lane (lane : TaskLane) (commits : list TaskCommit) : Z :=
  zlen (List.filter (λ c, bool_decide (commit_lane c = Some lane)) commits).
Definition commit_lanes (commits : list TaskCommit) : list TaskLane := remove_dups (omap commit_lane commits).
Definition release_commits (commits : list TaskCommit) (s : RunnerState) : RunnerState :=
  fold_left (λ s lane, lane_mut lane (λ l,
      lset_uncommitted (usize_saturating_sub (ls_uncommitted l) (count_lane lane commits)) l) s)
    (commit_lanes commits) s.

Definition drop_pending (ids : list TaskId) (s : RunnerState) : RunnerState :=
  let lost c := bool_decide (commit_task_id c ∈ ids) in
  let removed := List.filter lost (rn_output s) in
  release_commits removed (rset_output (List.filter (λ c, negb (lost c)) (rn_output s)) s).

Definition drop_lane (lane : TaskLane) (s : RunnerState) : RunnerState :=
  let s := remove_hook lane s in
  let invocations := (List.filter (λ p, String.eqb (ri_lane p.2) lane) (map_to_list (rn_running s))).*1 in
  let s := fold_left (λ s id, abort_invocation id s) invocations s in
  let pending := commit_task_id <$> List.filter (λ c, bool_decide (commit_lane c = Some lane)) (rn_output s) in
  let s := drop_pending pending s in
  lane_mut lane (lset_tasks []) s.

(** ** Polls *)

(** A result produced after the request was built is kept for the next request. *)
Definition newer_hook (request : option LaneClaim) (l : LaneState) : option LaneHookResult :=
  let acknowledged := match request with
                      | Some c => match lcl_owner c with Some o => or_hook o | None => None end
                      | None => None
                      end in
  match ls_hook_result l, acknowledged with
  | Some hook, Some old =>
      if negb (hr_generation old =? hr_generation hook) || negb (bool_decide (hr_action old = hr_action hook))
      then Some hook else None
  | Some hook, None => Some hook
  | None, _ => None
  end.

Definition apply_lane_result (now : Instant) (claims : list LaneClaim)
    (acc : RunnerState * PollEffects) (poll : LanePoll) : RunnerState * PollEffects :=
  let '(s, effects) := acc in
  let s := noted (record_claimed (lp_lane poll) (zlen (lp_tasks poll)) (lp_reclaimed poll)) s in
  let request := List.find (λ c, String.eqb (lcl_lane c) (lp_lane poll)) claims in
  match find_lane_state (lp_lane poll) s with
  | None => (s, effects)
  | Some l =>
      let wake := ls_poll_after l in
      let pending := newer_hook request l in
      let l := if bool_decide (is_Some pending) then lset_hook_result None l else l in
      let '(l, effects) := apply_lane_poll l poll now (rc_poll_interval rc) (rc_fallback_interval rc)
                             (rc_lease_duration rc) effects in
      let l := if bool_decide (is_Some (ls_owner_token l))
               then lset_hook_result
                      (match pending with
                       | Some h => if hr_generation h =? ls_owner_generation l then Some h else None
                       | None => None
                       end) l
               else l in
      let l := lset_poll_after (Z.max (Z.min (ls_poll_after l) wake) (now + rc_poll_interval rc)) l in
      (lane_mut (lp_lane poll) (λ _, l) s, effects)
  end.

(** [PollEffects::record]. *)
Definition record_effects (effects : PollEffects) (s : RunnerState) : RunnerState :=
  let s := fold_left (λ s lane, noted (owner_acquired lane) s) (pe_acquired effects) s in
  let s := fold_left (λ s lane, noted (owner_takeover lane) s) (pe_takeovers effects) s in
  let s := fold_left (λ s lane, noted (owner_lost lane) s) (pe_lost effects) s in
  fold_left (λ s p, noted (lifecycle_transition p.1 p.2) s) (pe_transitions effects) s.

Definition apply_hook_start (now : Instant) (s : RunnerState) (start : TaskLane * HookStart) : RunnerState :=
  let '(lane, action) := start in
  match action with
  | Some (token, generation, action) =>
      let completed := match find_lane_state lane s ≫= ls_hook_result with
                       | Some h => (hr_generation h =? generation) && bool_decide (hr_action h = action)
                       | None => false
                       end in
      if in_mode [Running_] s && negb completed then spawn_hook now lane token generation action s else s
  | None => drop_lane lane s
  end.

Definition apply_poll (now : Instant) (claims : list LaneClaim) (poll : TaskPoll) (s : RunnerState) :
    RunnerState :=
  let '(s, effects) := fold_left (apply_lane_result now claims) (tp_lanes poll) (s, effects_default) in
  let s := record_effects effects s in
  let s := fold_left (apply_hook_start now) (pe_hooks effects) s in
  fold_left (λ s lane, wake_lane now lane s) (tp_wake_lanes poll) s.
End Lanes.

(** Validates per-lane results before they enter the scheduler's queues. *)
Definition invalid_lane_poll (lane : TaskLane) : TaskRuntimeError :=
  TaskExecutionError ("task store returned invalid polling evidence for lane '" +:+ lane +:+ "'").

Definition valid_lane_poll (claim : LaneClaim) (lanes : list LanePoll) : bool :=
  match List.filter (λ l, String.eqb (lp_lane l) (lcl_lane claim)) lanes with
  | [lane] => (zlen (lp_tasks lane) <=? lcl_limit claim) && (lp_reclaimed lane <=? zlen (lp_tasks lane))
              && forallb (λ t, String.eqb (t_lane t) (lcl_lane claim)) (lp_tasks lane)
  | _ => false
  end.
Definition validate_poll (claims : list LaneClaim) (poll : TaskPoll) : result TaskRuntimeError unit :=
  if negb (zlen claims =? zlen (tp_lanes poll))
  then Err (TaskExecutionError "task store returned incomplete per-lane polling evidence")
  else
    match List.find (λ c, negb (valid_lane_poll c (tp_lanes poll))) claims with
    | Some claim => Err (invalid_lane_poll (lcl_lane claim))
    | None => Ok tt
    end.
