(* ===== verification/RunnerExec.v ===== *)
(** * Dispatch and completions of the runner ([tasks/runner/execution.rs])

    Invocations leave a lane's queue with their permits, run as spawned
    futures, and come back as completions whose commits join the output
    buffer. [wall] is the wall clock, [now] the monotonic one. *)
From S2P Require Import Prelude Externals Failure Config Rate Models Transitions Lifecycle.
From S2P Require Import MemoryState Json Metrics Registry Submission Handlers Client.
From S2P Require Import Runner RunnerLanes.
#[local] Open Scope Z_scope.

(** ** The future of an invocation *)

Section Execute.
Context `{X : Externals, Y : Serialization}.

Definition panic_results (records : list TaskRecord) : list TaskExecutionResult :=
  (λ record, {| ex_record := record; ex_outcome := outcome_fail "Task handler panicked" |}) <$> records.

Definition task_commits (e : TaskExecution) (results : list TaskExecutionResult) : list TaskCommit :=
  (λ result,
     CommitOutcome (ex_node_id e) (t_attempts (ex_record result)) (t_id (ex_record result)) (ex_lane e)
       (normalize_outcome (ex_outcome result) (ex_payload_limit e) (ex_error_limit e)) (ex_owner_token e))
  <$> results.

(** The completion a future sends, the metrics it records and the identifiers it has drawn;
    [panicked] when the whole call unwound. *)
Definition execute_task (registry : TaskRegistry) (e : TaskExecution) (panicked : bool)
    (elapsed : Duration) (wall : DateTime) (drawn : nat) (metrics : TaskMetrics) :
    Completion * nat * TaskMetrics :=
  let '(results, drawn) :=
    if panicked then (panic_results (ex_records e), drawn)
    else registry_execute_many registry (ex_records e) wall drawn in
  let metrics := fold_left (λ m result,
      (record_outcome (t_name (ex_record result))
         (normalize_outcome (ex_outcome result) (ex_payload_limit e) (ex_error_limit e)) m).2)
      results metrics in
  ({| co_invocation_id := ex_invocation_id e; co_lane := ex_lane e;
      co_commits := task_commits e results; co_global_permit := ex_global_permit e;
      co_lane_permit := ex_lane_permit e |},
   drawn, (handler_completed elapsed metrics).2).
End Execute.

(** ** Permits *)

(** Dropping the permits a future or a completion holds. *)
Definition release_permits (lane : TaskLane) (global local : bool) (s : RunnerState) : RunnerState :=
  let s := if global then rset_slots (rn_slots s + 1) s else s in
  if local then lane_mut lane (λ l, lset_slots (ls_slots l + 1) l) s else s.

Section Exec.
Context `{X : Externals, Y : Serialization, R : RunnerExternals} (rc : RunnerConf).

(** ** Dispatch *)

Fixpoint position {A} (p : A → bool) (l : list A) : option nat :=
  match l with
  | [] => None
  | a :: l => if p a then Some 0%nat else S <$> position p l
  end.

(** Keeps flows runnable while work lacks execution capacity or local rate permits. *)
Definition next_invocation (l : LaneState) (global_available : bool) (now : Instant) :
    option nat * LaneState :=
  let '(work, l) :=
    if global_available && (0 <? ls_slots l)
    then let '(n, l) := claim_limit 1 now l in (0 <? n, l)
    else (false, l) in
  if work then (Some 0%nat, l)
  else
    match position (λ r, bool_decide (t_kind r = Flow)) (ls_tasks l) with
    | Some next => (Some next, l)
    | None =>
        match local_rate_wake now l with
        | (Some wait, l) => (None, lset_poll_after (now + wait) l)
        | (None, l) => (None, l)
        end
    end.

(** The records of [first]'s batch, in queue order, and what stays queued. *)
Fixpoint collect_batch (name : string) (limit : Z) (tasks records remaining : list TaskRecord) :
    list TaskRecord * list TaskRecord :=
  match tasks with
  | [] => (records, remaining)
  | r :: tasks =>
      if (zlen records <? limit) && String.eqb (t_name r) name
      then collect_batch name limit tasks (records ++ [r]) remaining
      else collect_batch name limit tasks records (remaining ++ [r])
  end.
Definition collect_invocation (l : LaneState) (first : TaskRecord) (limit : Z) (registry : TaskRegistry) :
    list TaskRecord * LaneState :=
  if (limit <=? 1) || negb (registry_is_batch registry (t_name first)) then ([first], l)
  else
    let '(records, remaining) := collect_batch (t_name first) limit (ls_tasks l) [first] [] in
    (records, lset_tasks remaining l).

(** What [pop_lane] hands to [spawn_task]. *)
Record Popped := {
  pp_lane : TaskLane; pp_token : option string; pp_records : list TaskRecord;
  pp_global : bool; pp_local : bool;
}.

(** Both permits are taken without waiting; a failed admission leaves the input untouched. *)
Definition pop_queue (now : Instant) (slots : Z) (l : LaneState) : option Popped * LaneState :=
  let '(next, l) := next_invocation l (0 <? slots) now in
  match next with
  | None => (None, l)
  | Some next =>
      match ls_tasks l !! next with
      | None => (None, l)
      | Some first =>
          let flow := bool_decide (t_kind first = Flow) in
          if negb flow && ((slots <=? 0) || (ls_slots l <=? 0)) then (None, l)
          else
            let l := if flow then l else lset_slots (ls_slots l - 1) l in
            let l := lset_tasks (delete next (ls_tasks l)) l in
            let count := zlen (ls_tasks l) + 1 in
            let '(limit, l) := if flow then (count, l) else claim_limit count now l in
            let '(records, l) := collect_invocation l first limit (rc_registry rc) in
            let l := if flow then l else consume_local_rate (zlen records) now l in
            (Some {| pp_lane := ls_name l; pp_token := ls_owner_token l; pp_records := records;
                     pp_global := negb flow; pp_local := negb flow |}, l)
      end
  end.

Definition pop_lane (now : Instant) (index : nat) (s : RunnerState) : option Popped * RunnerState :=
  match rn_lanes s !! index with
  | None => (None, s)
  | Some l =>
      let '(popped, l) := pop_queue now (rn_slots s) l in
      let s := rset_lanes (<[index := l]> (rn_lanes s)) s in
      match popped with
      | Some p => (Some p, if pp_global p then rset_slots (rn_slots s - 1) s else s)
      | None => (None, s)
      end
  end.

Definition record_starts (wall : DateTime) (records : list TaskRecord) (s : RunnerState) : RunnerState :=
  let s := fold_left (λ s r,
      noted (record_started (t_name r) (default 0 (td_to_std (wall - t_created_at r)))) s) records s in
  match records with
  | r :: _ => if registry_is_batch (rc_registry rc) (t_name r)
              then noted (batch_started (t_name r) (zlen records)) s else s
  | [] => s
  end.

(** Aborts the invocations that already run one of the tasks. *)
Definition replace_duplicates (ids : list TaskId) (s : RunnerState) : RunnerState :=
  fold_left (λ s id, abort_invocation id s) (remove_dups (omap (λ id, rn_running_tasks s !! id) ids)) s.

Definition insert_running (invocation : Uuid) (ids : list TaskId) (m : gmap TaskId Uuid) : gmap TaskId Uuid :=
  fold_left (λ m id, <[id := invocation]> m) ids m.

Definition spawn_task (wall : DateTime) (p : Popped) (s : RunnerState) : RunnerState :=
  let invocation := uuid_now_v7 (rn_drawn s) in
  let s := rset_drawn (S (rn_drawn s)) s in
  let s := record_starts wall (pp_records p) s in
  let task_ids := t_id <$> pp_records p in
  let s := fold_left (λ s r, lane_mut (pp_lane p) (remember_flow r) s) (pp_records p) s in
  let execution :=
    {| ex_node_id := rc_node_id rc; ex_invocation_id := invocation; ex_records := pp_records p;
       ex_lane := pp_lane p;
       ex_payload_limit := cf_max_payload_bytes (rg_config (rc_registry rc));
       ex_error_limit := cf_max_error_bytes (rg_config (rc_registry rc));
       ex_owner_token := pp_token p; ex_global_permit := pp_global p; ex_lane_permit := pp_local p;
       ex_aborted := false |} in
  let s := rset_futures (rn_futures s ++ [execution]) s in
  let s := replace_duplicates task_ids s in
  let s := rset_running_tasks (insert_running invocation task_ids (rn_running_tasks s)) s in
  rset_running (<[invocation := {| ri_lane := pp_lane p; ri_task_ids := task_ids |}]> (rn_running s)) s.

(** One pass over the lanes, and whether anything was dispatched. *)
Fixpoint dispatch_pass (now : Instant) (wall : DateTime) (indices : list nat) (s : RunnerState) :
    bool * RunnerState :=
  match indices with
  | [] => (false, s)
  | index :: indices =>
      match pop_lane now index s with
      | (Some p, s) => (true, (dispatch_pass now wall indices (spawn_task wall p s)).2)
      | (None, s) => dispatch_pass now wall indices s
      end
  end.
Fixpoint dispatch_passes (budget : nat) (now : Instant) (wall : DateTime) (s : RunnerState) : RunnerState :=
  match budget with
  | O => s
  | S budget =>
      match dispatch_pass now wall (seq 0 (length (rn_lanes s))) s with
      | (true, s) => dispatch_passes budget now wall s
      | (false, s) => s
      end
  end.
Definition dispatch_ready (now : Instant) (wall : DateTime) (s : RunnerState) : RunnerState :=
  if in_mode [Running_] s then dispatch_passes SCHEDULER_BUDGET now wall s else s.

(** ** Completions *)

Definition acknowledge_commits (commits : list TaskCommit) (s : RunnerState) : RunnerState :=
  release_commits commits s.

(** Outcomes are buffered before either permit is released; a completion of an invocation that is
    no longer running is dropped, permits included. *)
Definition accept_completion (now : Instant) (c : Completion) (s : RunnerState) : RunnerState :=
  match rn_running s !! co_invocation_id c with
  | None => release_permits (co_lane c) (co_global_permit c) (co_lane_permit c) s
  | Some invocation =>
      let commits := List.filter (λ commit,
          bool_decide (rn_running_tasks s !! commit_task_id commit = Some (co_invocation_id c)))
          (co_commits c) in
      let s := rset_output (rn_output s ++ commits) s in
      let s := rset_running_tasks (remove_tasks (ri_task_ids invocation) (rn_running_tasks s)) s in
      let s := rset_running (delete (co_invocation_id c) (rn_running s)) s in
      let s := lane_mut (co_lane c) (λ l,
          lset_completed_work true
            (lset_uncommitted (usize_saturating (ls_uncommitted l + zlen commits)) l)) s in
      let s := wake_lane rc now (co_lane c) s in
      release_permits (co_lane c) (co_global_permit c) (co_lane_permit c) s
  end.

(** ** Control events *)

(** A node that is giving its claims back, or has stopped, ignores control events. *)
Definition is_give_back (request : DbRequest) : bool :=
  match request with ReqGiveBack => true | _ => false end.
Definition accepts_events (s : RunnerState) : bool :=
  negb (stopped s) && negb (existsb is_give_back (requests s)).

Definition control_wake (now : Instant) (s : RunnerState) : RunnerState :=
  if in_mode [Running_] s && accepts_events s then wake_lanes rc now s else s.

(** Drops queued snapshots of cancelled tasks. *)
Definition cancel_queued (ids : list TaskId) (s : RunnerState) : RunnerState :=
  rset_lanes ((λ l,
    let l := lset_tasks (List.filter (λ r, negb (bool_decide (t_id r ∈ ids))) (ls_tasks l)) l in
    fold_left (λ l id, forget_flow id l) ids l) <$> rn_lanes s) s.

(** What one bounded batch of events asks for. *)
Record Control := { ct_cancelled : list TaskId; ct_wake : bool; ct_lanes : list TaskLane }.
Definition add_distinct {A} `{EqDecision A} (a : A) (l : list A) : list A :=
  if bool_decide (a ∈ l) then l else l ++ [a].

(** A lag wakes every lane at once; the others are gathered. *)
Definition collect_event (now : Instant) (acc : Control * RunnerState) (slot : EventSlot) :
    Control * RunnerState :=
  let '(c, s) := acc in
  match slot with
  | Event EventWake => ({| ct_cancelled := ct_cancelled c; ct_wake := true; ct_lanes := ct_lanes c |}, s)
  | Event (EventWakeLane lane) =>
      ({| ct_cancelled := ct_cancelled c; ct_wake := ct_wake c; ct_lanes := add_distinct lane (ct_lanes c) |}, s)
  | Event (EventCancel id) =>
      ({| ct_cancelled := add_distinct id (ct_cancelled c); ct_wake := true; ct_lanes := ct_lanes c |}, s)
  | Lagged _ => (c, control_wake now s)
  end.

Definition collect_events (now : Instant) (s : RunnerState) : RunnerState :=
  let taken := take SCHEDULER_BUDGET (rn_events s) in
  let s := rset_events (drop SCHEDULER_BUDGET (rn_events s)) s in
  let '(c, s) := fold_left (collect_event now) taken
                   ({| ct_cancelled := []; ct_wake := false; ct_lanes := [] |}, s) in
  let s := if negb (bool_decide (ct_cancelled c = [])) && accepts_events s
           then cancel_queued (ct_cancelled c) s else s in
  if ct_wake c then control_wake now s
  else if in_mode [Running_] s && accepts_events s
  then fold_left (λ s lane, wake_lane rc now lane s) (ct_lanes c) s
  else s.

(** One event selected while waiting; [None] when the channel is closed. *)
Definition accept_event (now : Instant) (slot : option EventSlot) (s : RunnerState) : RunnerState :=
  if negb (accepts_events s) then s
  else
    match slot with
    | Some (Event EventWake) => control_wake now s
    | Some (Event (EventWakeLane lane)) => if in_mode [Running_] s then wake_lane rc now lane s else s
    | Some (Event (EventCancel id)) => control_wake now (cancel_queued [id] s)
    | Some (Lagged _) => control_wake now s
    | None => s
    end.
End Exec.
