(* ===== verification/RunnerEngine.v ===== *)
(** * The runner's loop and its database operations ([tasks/runner/engine.rs], [database.rs])

    Requests are frozen, started under a database permit, answered, retried
    with the evidence they retained, and applied once. [loop_turn] is the body
    of the loop up to its wait and [wait_event] one branch of the wait. *)
From S2P Require Import Prelude Externals Failure Config Rate Models Transitions Lifecycle.
From S2P Require Import MemoryState LaneLock Workflow Claims Atomic.
From S2P Require Import Json Metrics Registry Submission Handlers Client Runner.
From S2P Require Import RunnerLanes RunnerExec.
#[local] Open Scope Z_scope.

Section Engine.
Context `{X : Externals, Y : Serialization, R : RunnerExternals} (rc : RunnerConf).
#[local] Abbreviation config := (rg_config (rc_registry rc)) (only parsing).

(** ** The end of a runner *)

Definition abort_all (s : RunnerState) : RunnerState :=
  rset_futures (fold_left (λ futures id, abort_execution id futures)
                  (map_to_list (rn_running s)).*1 (rn_futures s)) s.

Definition clear_lane (l : LaneState) : LaneState :=
  lset_hook_result None (lset_uncommitted 0 (lset_tasks [] (lset_cached_bytes 0 (lset_flow_cache [] l)))).

(** Dropping the database futures returns their permits. *)
Definition clear_operations (s : RunnerState) : RunnerState :=
  rset_operations [] (rset_settled []
    (rset_db_slots (rn_db_slots s + zlen (rn_operations s) + zlen (rn_settled s)) s)).

Definition discard_work (s : RunnerState) : RunnerState :=
  let s := rset_ingress [] (rset_ingress_open false s) in
  let s := rset_death_at None s in
  let s := rset_health (retired (rn_health s)) s in
  let s := noted record_store_failure s in
  let s := rset_running ∅ (abort_all s) in
  let s := rset_running_tasks ∅ s in
  let s := abort_hooks s in
  let s := clear_operations s in
  let s := rset_output [] (rset_in_flight ∅ s) in
  let s := rset_heartbeat_after None s in
  rset_lanes (clear_lane <$> rn_lanes s) s.

Definition retire (s : RunnerState) : RunnerState := discard_work (rset_mode Retired s).

(** Enforces the contact deadline; the answer is whether the runner has stopped. *)
Definition expire (now : Instant) (s : RunnerState) : bool * RunnerState :=
  let s := if negb (stopped s) && due now (rn_death_at s) then discard_work (rset_mode Dead s) else s in
  (stopped s, s).

Definition finished (s : RunnerState) : bool :=
  in_mode [Draining] s && bool_decide (rn_running s = ∅) && bool_decide (rn_output s = [])
  && bool_decide (rn_in_flight s = ∅).

(** ** Starting and retrying database operations *)

Definition death_deadline (now : Instant) : Instant :=
  now + duration_saturating_mul (cf_heartbeat_interval config) 6.

Definition retry_at (phase : DbPhase) : option Instant :=
  match phase with PhaseRetry not_before _ => Some not_before | _ => None end.
Definition min_option (a b : option Z) : option Z :=
  match a, b with Some a, Some b => Some (Z.min a b) | Some a, None => Some a | None, b => b end.
Definition minimum (l : list Z) : option Z := foldr (λ z m, min_option (Some z) m) None l.

Definition retry_deadline (s : RunnerState) : option Instant :=
  minimum (omap (λ entry, retry_at (if_phase entry)) (map_to_list (rn_in_flight s)).*2).

(** Smaller deadline first, then the smaller identifier. *)
Definition earlier (a b : Instant * Uuid) : bool := (a.1 <? b.1) || ((a.1 =? b.1) && (a.2 <=? b.2)%N).
Definition earliest (l : list (Instant * Uuid)) : option (Instant * Uuid) :=
  foldr (λ e m, match m with Some b => if earlier e b then Some e else Some b | None => Some e end) None l.
Definition retry_due (now : Instant) (s : RunnerState) : option Uuid :=
  snd <$> earliest (omap (λ p, match retry_at (if_phase p.2) with
                               | Some at_ => if at_ <=? now then Some (at_, p.1) else None
                               | None => None
                               end) (map_to_list (rn_in_flight s))).

(** The pushed future owns one permit. *)
Definition database_future (now : Instant) (id : Uuid) (request : DbRequest)
    (prepared : option DbResponse) (s : RunnerState) : RunnerState :=
  rset_operations (rn_operations s ++
    [{| opn_id := id; opn_request := request; opn_prepared := prepared; opn_started := now |}])
    (rset_db_slots (rn_db_slots s - 1) s).

Definition start_database (now : Instant) (request : DbRequest) (s : RunnerState) : RunnerState :=
  let id := uuid_now_v7 (rn_drawn s) in
  let s := rset_drawn (S (rn_drawn s)) s in
  let s := rset_in_flight
    (<[id := {| if_request := request; if_phase := PhaseRunning |}]> (rn_in_flight s)) s in
  let s := if bool_decide (rn_death_at s = None) then rset_death_at (Some (death_deadline now)) s else s in
  database_future now id request None s.

Definition retry_database (now : Instant) (id : Uuid) (s : RunnerState) : RunnerState :=
  match rn_in_flight s !! id with
  | Some {| if_request := request; if_phase := PhaseRetry _ prepared |} =>
      database_future now id request prepared
        (rset_in_flight
          (<[id := {| if_request := request; if_phase := PhaseRecovering |}]> (rn_in_flight s)) s)
  | _ => s
  end.

(** ** Requests *)

Definition is_heartbeat (request : DbRequest) : bool :=
  match request with ReqHeartbeat => true | _ => false end.
Definition heartbeat_deadline (s : RunnerState) : option Instant :=
  match rn_heartbeat_after s with
  | Some deadline => if existsb is_heartbeat (requests s) then None else Some deadline
  | None => None
  end.
Definition heartbeat_request (now : Instant) (s : RunnerState) : option DbRequest :=
  if due now (heartbeat_deadline s) then Some ReqHeartbeat else None.
Definition schedule_heartbeat (now : Instant) (s : RunnerState) : RunnerState :=
  rset_heartbeat_after (Some (now + cf_heartbeat_interval config)) s.

(** How many inputs a flush may bring back, with the cached flow bases it carries. *)
Definition generated (c : TaskCommit) : Z :=
  match commit_outcome c with
  | Some (OutSpawn _ _) => 1
  | Some (OutAll _ children) => zlen children
  | _ => 0
  end.
Definition delivery_request (commits : list TaskCommit) (s : RunnerState) : DbRequest :=
  let cached := rn_lanes s ≫= λ l, (ls_flow_cache l).*2 in
  let generated := usize_saturating (zsum (generated <$> commits) + Z.min (zlen cached) (zlen commits)) in
  let capacity :=
    if in_mode [Running_] s
    then Z.min (Z.min (input_room rc s) (rc_ingress_capacity rc - zlen (rn_ingress s))) generated
    else 0 in
  ReqCommit commits capacity cached.

(** A commit of an owned lane waits for that lane's other operations. *)
Definition commit_blocked (s : RunnerState) (c : TaskCommit) : bool :=
  match commit_lane c with
  | Some lane => locked_lane lane s && lane_busy lane s
  | None => false
  end.
Definition flush_budget : Z := Z.max (rc_commit_batch_size rc) (usize_saturating (cf_max_all_children config + 1)).

(** [take_while] with its running weight. *)
Fixpoint flush_count (s : RunnerState) (weight : Z) (commits : list TaskCommit) : nat :=
  match commits with
  | [] => O
  | c :: commits =>
      if commit_blocked s c then O
      else
        let weight := usize_saturating (weight + commit_weight c) in
        if weight <=? flush_budget then S (flush_count s weight commits) else O
  end.
Definition flush_request (now : Instant) (s : RunnerState) : option DbRequest * RunnerState :=
  if (now <? rn_flush_after s) || bool_decide (rn_output s = []) then (None, s)
  else
    let count := flush_count s 0 (take (Z.to_nat (rc_commit_batch_size rc)) (rn_output s)) in
    match count with
    | O => (None, s)
    | _ =>
        let commits := take count (rn_output s) in
        let s := rset_flush_after (now + rc_poll_interval rc) (rset_output (drop count (rn_output s)) s) in
        (Some (delivery_request commits s), s)
    end.

Definition or_else (m : option DbRequest * RunnerState)
    (next : RunnerState → option DbRequest * RunnerState) : option DbRequest * RunnerState :=
  match m with (Some r, s) => (Some r, s) | (None, s) => next s end.

(** Admits eligible work while a database permit is free; each turn uses one. *)
Fixpoint admit_loop (fuel : nat) (now : Instant) (s : RunnerState) : RunnerState :=
  match fuel with
  | O => s
  | S fuel =>
      if rn_db_slots s <=? 0 then s
      else if existsb is_give_back (requests s) then
        match retry_due now s with Some id => retry_database now id s | None => s end
      else
        let fresh (s : RunnerState) :=
          match or_else (or_else (or_else (heartbeat_request now s, s) (coordinate_request rc now))
                          (flush_request now)) (claim_request rc now) with
          | (Some request, s) => admit_loop fuel now (start_database now request s)
          | (None, s) => s
          end in
        match retry_due now s with
        | Some id =>
            if bool_decide (heartbeat_request now s = None)
            then admit_loop fuel now (retry_database now id s)
            else fresh s
        | None => fresh s
        end
  end.
Definition runner_admit (now : Instant) (s : RunnerState) : RunnerState :=
  let '(stop, s) := expire now s in
  if stop then s else admit_loop (S (Z.to_nat (rn_db_slots s))) now s.

(** Residual claims are returned once every operation and output has settled. *)
Definition give_back (now : Instant) (s : RunnerState) : bool * RunnerState :=
  if negb (finished s) then (false, s)
  else
    let s := rset_ingress_open false s in
    if rn_db_slots s <=? 0 then (false, s) else (true, start_database now ReqGiveBack s).

(** ** Answers *)

Definition apply_flush (now : Instant) (commits : list TaskCommit) (result : CommitResult)
    (elapsed : Duration) (s : RunnerState) : RunnerState :=
  let s := acknowledge_commits commits s in
  let s := noted (record_commit elapsed false) s in
  let s := fold_left (λ s r, accept_input rc r s) (cr_tasks result) s in
  fold_left (λ s lane, wake_lane rc now lane s) (omap commit_lane commits ++ cr_wake_lanes result) s.

Definition give_back_done (s : RunnerState) : RunnerState :=
  rset_mode Finished
    (rset_lanes (lset_tasks [] <$> rn_lanes s) (rset_death_at None (rset_in_flight ∅ s))).

Definition apply_response (now : Instant) (request : DbRequest) (response : DbResponse)
    (elapsed : Duration) (s : RunnerState) : result TaskRuntimeError unit * RunnerState :=
  match request, response with
  | ReqHeartbeat, ResHeartbeat true => (Ok tt, schedule_heartbeat now s)
  | ReqHeartbeat, ResHeartbeat false => (Ok tt, retire s)
  | ReqGiveBack, ResReturned => (Ok tt, give_back_done s)
  | (ReqClaim claims | ReqCoordinate claims), ResPoll poll =>
      match validate_poll claims poll with
      | Ok _ => (Ok tt, apply_poll rc now claims poll s)
      | Err e => (Err e, s)
      end
  | ReqCommit commits _ _, ResFlushed result => (Ok tt, apply_flush now commits result elapsed s)
  | _, _ => (Err (TaskExecutionError "mismatched task store response"), s)
  end.

(** With a database compiled in, a [sqlx] error is classified as a store error. *)
Definition classify (error : TaskRuntimeError) : TaskRuntimeError :=
  match error with DatabaseError source => StoreError (into_store_error source) | error => error end.
Definition retryable (error : TaskRuntimeError) : bool :=
  match error with
  | DatabaseError error => sqlx_transient error
  | StoreError error =>
      existsb (String.eqb (store_error_code error))
        ["connection_error"; "timeout"; "serialization_failure"; "deadlock"; "cancelled";
         "database_busy"; "database_locked"]%string
  | _ => false
  end.

Definition database_failed (now : Instant) (id : Uuid) (failure : StoreFailure DbResponse)
    (s : RunnerState) : RunnerState :=
  let '(error, prepared) := match failure with
                            | BeforeCommit error => (error, None)
                            | CommitUnknown error prepared => (error, Some prepared)
                            end in
  let error := classify error in
  let s := rset_health (store_failed (rn_health s)) s in
  let s := noted record_store_failure s in
  if negb (retryable error) then discard_work (rset_mode Faulted s)
  else
    match rn_in_flight s !! id with
    | Some entry =>
        rset_in_flight
          (<[id := {| if_request := if_request entry;
                      if_phase := PhaseRetry (now + rc_poll_interval rc) prepared |}]>
             (rn_in_flight s)) s
    | None => s
    end.

(** Applied between taking a finished operation and dropping its permit. *)
Definition apply_completion (now : Instant) (wall : DateTime) (c : DbCompletion) (s : RunnerState) :
    RunnerState :=
  let '(stop, s) := expire now s in
  if stop then s
  else
    match rn_in_flight s !! dc_id c with
    | None => s
    | Some entry =>
        let request := if_request entry in
        let elapsed := Z.max 0 (now - dc_started c) in
        let '(result, s) :=
          match dc_result c with
          | Ok response =>
              let '(r, s) := apply_response now request response elapsed s in
              (match r with Ok _ => Ok tt | Err e => Err (BeforeCommit e) end, s)
          | Err failure => (Err failure, s)
          end in
        let s := if is_heartbeat request
                 then noted (record_heartbeat elapsed (negb (is_ok result) || stopped s)) s else s in
        match result with
        | Err failure => database_failed now (dc_id c) failure s
        | Ok _ =>
            if stopped s then s
            else
              let s := rset_in_flight (delete (dc_id c) (rn_in_flight s)) s in
              let s := rset_death_at (if bool_decide (rn_in_flight s = ∅) then None
                                      else Some (death_deadline now)) s in
              if forallb (λ e, match if_phase e with PhaseRunning => true | _ => false end)
                   (map_to_list (rn_in_flight s)).*2
              then rset_health (health_succeeded wall (rn_health s)) s else s
        end
    end.
Definition apply_database (now : Instant) (wall : DateTime) (c : DbCompletion) (s : RunnerState) :
    RunnerState :=
  let s := apply_completion now wall c s in rset_db_slots (rn_db_slots s + 1) s.

(** ** The loop *)

Fixpoint drain_completions (budget : nat) (now : Instant) (s : RunnerState) : RunnerState :=
  match budget, rn_completions s with
  | S budget, c :: rest => drain_completions budget now (accept_completion rc now c (rset_completions rest s))
  | _, _ => s
  end.
Fixpoint drain_hooks (budget : nat) (now : Instant) (s : RunnerState) : RunnerState :=
  match budget, rn_hook_results s with
  | S budget, c :: rest => drain_hooks budget now (accept_hook rc now c (rset_hook_results rest s))
  | _, _ => s
  end.
Fixpoint drain_database (budget : nat) (now : Instant) (wall : DateTime) (s : RunnerState) : RunnerState :=
  match budget, rn_settled s with
  | S budget, c :: rest =>
      let s := apply_database now wall c (rset_settled rest s) in
      if stopped s then s else drain_database budget now wall s
  | _, _ => s
  end.

Definition collect_ready (now : Instant) (wall : DateTime) (s : RunnerState) : RunnerState :=
  let s := collect_events rc now s in
  let s := drain_completions (Z.to_nat (rc_concurrency rc)) now s in
  let s := drain_hooks (length (rn_lanes s)) now s in
  drain_database (Z.to_nat (cf_db_concurrency config)) now wall s.

Definition advance_pipeline (now : Instant) (wall : DateTime) (s : RunnerState) : RunnerState :=
  if in_mode [Running_; Draining] s then
    let s := dispatch_ready rc now wall s in
    if negb (finished s) then runner_admit now s else s
  else s.

(** The earliest useful wake. *)
Definition lane_wake (s : RunnerState) (capacity : Z) (l : LaneState) : option Instant :=
  if bool_decide (is_Some (lc_lane_lock (ls_conf l))) && bool_decide (is_Some (ls_owner_token l)) then
    let quiescent := lane_idle l && negb (lane_running (ls_name l) s) in
    min_option (ls_owner_renew_at l)
      (if quiescent || bool_decide (is_Some (ls_hook_result l)) then Some (ls_poll_after l) else None)
  else if in_mode [Running_] s
          && ((lane_has_flows rc (ls_name l) && (0 <? input_room rc s))
              || ((0 <? available l) && (0 <? capacity)))
  then Some (ls_poll_after l)
  else None.
Definition deadline (s : RunnerState) : option Instant :=
  if stopped s || (rn_db_slots s =? 0) then None
  else if existsb is_give_back (requests s) then retry_deadline s
  else
    let flush := match rn_output s with
                 | c :: _ => if commit_blocked s c then None else Some (rn_flush_after s)
                 | [] => None
                 end in
    let lanes := omap (lane_wake s (claim_capacity s))
                   (List.filter (λ l, negb (lane_busy (ls_name l) s)) (rn_lanes s)) in
    min_option (min_option (min_option flush (minimum lanes)) (heartbeat_deadline s)) (retry_deadline s).

(** One turn of the loop, up to its wait. *)
Definition loop_turn (now : Instant) (wall : DateTime) (s : RunnerState) : RunnerState :=
  let '(stop, s) := expire now s in
  if stop then s
  else
    let s := collect_ready now wall s in
    if stopped s then s
    else
      let s := advance_pipeline now wall s in
      let '(stop, s) := expire now s in
      if stop then s else (give_back now s).2.

(** What a wait may be ended by. *)
Inductive Wakeup := WakeIngress | WakeDatabase | WakeCompletion | WakeHook | WakeDeath
  | WakeEvent | WakeShutdown | WakeDeadline.

Definition wait_event (branch : Wakeup) (now : Instant) (wall : DateTime) (s : RunnerState) : RunnerState :=
  match branch with
  | WakeIngress =>
      match rn_ingress s with
      | r :: rest =>
          if in_mode [Running_] s && (0 <? input_room rc s)
          then accept_input rc r (rset_ingress rest s) else s
      | [] => s
      end
  | WakeDatabase =>
      match rn_settled s with
      | c :: rest => apply_database now wall c (rset_settled rest s)
      | [] => s
      end
  | WakeCompletion =>
      match rn_completions s with
      | c :: rest => accept_completion rc now c (rset_completions rest s)
      | [] => s
      end
  | WakeHook =>
      match rn_hook_results s with
      | c :: rest => accept_hook rc now c (rset_hook_results rest s)
      | [] => s
      end
  | WakeDeath => (expire now s).2
  | WakeEvent =>
      match rn_events s with
      | slot :: rest => accept_event rc now (Some slot) (rset_events rest s)
      | [] => s
      end
  | WakeShutdown =>
      if in_mode [Draining] s then s
      else abort_hooks (rset_ingress_open false (rset_mode Draining s))
  | WakeDeadline => s
  end.
End Engine.

(** ** The runner as a transition system

    [runner_step] interleaves the loop's turns and waits with what happens
    outside them: control events, records delivered by a client, invocations
    and hooks that finish or are dropped, and database operations that settle.
    [database_call] is what such an operation does over the in-memory store. *)

(** ** Database calls *)

Section Calls.
Context `{X : Externals} (params : StoreParams).

(** [.map(convert).map_err(|e| e.map(convert))]. *)
Definition converted {S A B} (convert : A → B) (m : M S (StoreFailure A) A) : M S (StoreFailure B) B := λ s,
  match m s with
  | (Ok a, s) => (Ok (convert a), s)
  | (Err f, s) => (Err (failure_map convert f), s)
  end.
(** [?] on an error of the contract. *)
Definition raised {S A} (m : M S TaskRuntimeError A) : M S (StoreFailure DbResponse) A := λ s,
  match m s with (Ok a, s) => (Ok a, s) | (Err e, s) => (Err (BeforeCommit e), s) end.

(** Dispatches bounded recovery without discarding the retained response. *)
Definition recover_call (node : Uuid) (request : DbRequest) (prepared : DbResponse)
    (between : StoreState → StoreState) (now : DateTime) :
    M StoreState (StoreFailure DbResponse) DbResponse :=
  match request, prepared with
  | (ReqClaim claims | ReqCoordinate claims), ResPoll poll =>
      converted ResPoll (recover_claims params node claims poll now)
  | ReqCommit commits _ _, ResFlushed result =>
      converted ResFlushed (recover_outputs params node commits result between now)
  | _, _ => throwM (BeforeCommit (TaskExecutionError "invalid recovery evidence"))
  end.

(** The same request on every attempt; only an uncertain transaction is recovered. *)
Definition database_call (node : Uuid) (request : DbRequest) (prepared : option DbResponse)
    (stale_after : Duration) (between : StoreState → StoreState) (now : DateTime) :
    M StoreState (StoreFailure DbResponse) DbResponse :=
  match prepared with
  | Some prepared => recover_call node request prepared between now
  | None =>
      match request with
      | ReqHeartbeat =>
          do! present := raised (locked (heartbeat node stale_after now)) in retM (ResHeartbeat present)
      | ReqGiveBack => do! _ := raised (locked (return_claims (Some node) now)) in retM ResReturned
      | ReqClaim claims => converted ResPoll (claim_tasks params node claims now)
      | ReqCoordinate lanes => converted ResPoll (coordinate_lanes params node lanes now)
      | ReqCommit commits capacity cached =>
          converted ResFlushed (commit_admitted params commits node capacity cached now)
      end
  end.
End Calls.

(** ** Outcomes held *)

Definition request_commits (r : DbRequest) : list TaskCommit :=
  match r with ReqCommit commits _ _ => commits | _ => [] end.
Definition in_flight_sum (f : DbRequest → Z) (m : gmap Uuid InFlight) : Z :=
  zsum ((λ p, f (if_request p.2)) <$> map_to_list m).
(** Every outcome the runner keeps: in a channel, buffered, or in flight. *)
Definition held (s : RunnerState) : Z :=
  zsum ((λ c, zlen (co_commits c)) <$> rn_completions s) + zlen (rn_output s)
  + in_flight_sum (λ r, zlen (request_commits r)) (rn_in_flight s).

(** ** Start-up *)

Section Start.
Context `{X : Externals, Y : Serialization, R : RunnerExternals} (rc : RunnerConf).

(** [initialize] over the in-memory store: coordination rows, the claims of an earlier standalone
    process, and this node's registration; health follows the outcome. *)
Definition start_store (node : Uuid) (clustered : bool) (now : DateTime) :
    M StoreState TaskRuntimeError unit :=
  do! _ := locked (Atomic.initialize now) in
  do! _ := if clustered then retM 0 else locked (return_claims None now) in
  do! _ := locked (register_node node now) in
  retM tt.
Definition is_clustered : bool :=
  match cf_mode (rg_config (rc_registry rc)) with Clustered => true | Standalone => false end.
Definition runner_initialize (wall : DateTime) (store : StoreState) (s : RunnerState) :
    result TaskRuntimeError unit * StoreState * RunnerState :=
  match start_store (rc_node_id rc) is_clustered wall store with
  | (Ok _, store) => (Ok tt, store, rset_health (initialized wall (rn_health s)) s)
  | (Err e, store) => (Err e, store, rset_health (initialization_failed (rn_health s)) s)
  end.

(** Where [run] enters its loop. *)
Definition run_start (now : Instant) (s : RunnerState) : RunnerState :=
  if is_clustered then schedule_heartbeat rc now s else s.

(** ** Steps *)

(** What a store may answer; a client of it is proved against this relation. *)
Context (answers : DbRequest → option DbResponse → result (StoreFailure DbResponse) DbResponse → Prop).

(** A process cannot hold more outcomes than an index can count, nor draw more identifiers than
    a counter can number. *)
Definition in_memory (s : RunnerState) : Prop :=
  held s ≤ USIZE_MAX ∧ Z.of_nat (rn_drawn s) ≤ U64_MAX.

Inductive runner_step : RunnerState → RunnerState → Prop :=
  | rs_turn now wall s :
      stopped s = false → runner_step s (loop_turn rc now wall s)
  | rs_wait branch now wall s :
      stopped s = false → runner_step s (wait_event rc branch now wall s)
  | rs_event slot s : runner_step s (rset_events (rn_events s ++ [slot]) s)
  | rs_deliver r s :
      rn_ingress_open s = true → zlen (rn_ingress s) < rc_ingress_capacity rc →
      runner_step s (rset_ingress (rn_ingress s ++ [r]) s)
  (** An invocation that was not aborted finishes, and its message fits the channel. *)
  | rs_execute before e after panicked elapsed wall completion drawn metrics s :
      rn_futures s = before ++ e :: after → ex_aborted e = false →
      zlen (rn_completions s) < rc_concurrency rc →
      execute_task (rc_registry rc) e panicked elapsed wall (rn_drawn s) (rn_metrics s)
        = (completion, drawn, metrics) →
      runner_step s
        (rset_metrics metrics (rset_drawn drawn
          (rset_completions (rn_completions s ++ [completion]) (rset_futures (before ++ after) s))))
  (** An aborted one is dropped. *)
  | rs_drop before e after s :
      rn_futures s = before ++ e :: after → ex_aborted e = true →
      runner_step s (release_permits (ex_lane e) (ex_global_permit e) (ex_lane_permit e)
                       (rset_futures (before ++ after) s))
  | rs_hook before c after outcome s :
      rn_hook_calls s = before ++ c :: after → hc_aborted c = false →
      runner_step s (rset_hook_results (rn_hook_results s ++ [execute_hook c outcome])
                       (rset_hook_calls (before ++ after) s))
  | rs_hook_drop before c after s :
      rn_hook_calls s = before ++ c :: after → hc_aborted c = true →
      runner_step s (rset_hook_calls (before ++ after) s)
  | rs_settle before o after result s :
      rn_operations s = before ++ o :: after → answers (opn_request o) (opn_prepared o) result →
      runner_step s
        (rset_settled (rn_settled s ++
            [{| dc_id := opn_id o; dc_result := result; dc_started := opn_started o |}])
          (rset_operations (before ++ after) s)).

(** The states a runner passes through while they fit in memory. *)
Inductive runner_reaches (s0 : RunnerState) : RunnerState → Prop :=
  | reaches_start : in_memory s0 → runner_reaches s0 s0
  | reaches_step s s' : runner_reaches s0 s → runner_step s s' → in_memory s' → runner_reaches s0 s'.
End Start.
