(* ===== verification/RunnerFacts.v ===== *)
(** * What the runner's bodies leave alone

    Most bodies only pace polls, queue inputs, cache snapshots, run hooks or
    count: they are [benign], that is they keep the permits, the buffered and
    outstanding commits, the invocations and the database operations. *)
From S2P Require Import Prelude Externals Failure Config Rate Models Transitions Lifecycle.
From S2P Require Import MemoryState Json Metrics Registry Submission Handlers Client Runner.
From S2P Require Import RunnerLanes RunnerExec RunnerEngine.
#[local] Open Scope Z_scope.

(** ** Benign changes *)

Record lane_same (l l' : LaneState) : Prop := {
  lm_conf : ls_conf l' = ls_conf l;
  lm_slots : ls_slots l' = ls_slots l;
  lm_uncommitted : ls_uncommitted l' = ls_uncommitted l;
}.
#[export] Instance lane_same_preorder : PreOrder lane_same.
Proof. split; [by split|]. intros l1 l2 l3 [] []. split; congruence. Qed.

(** The same lanes in some order, each changed benignly. *)
Definition lanes_same (ls ls' : list LaneState) : Prop :=
  ∃ mid, ls ≡ₚ mid ∧ Forall2 lane_same mid ls'.

Record benign (s s' : RunnerState) : Prop := {
  bn_lanes : lanes_same (rn_lanes s) (rn_lanes s');
  bn_slots : rn_slots s' = rn_slots s;
  bn_db_slots : rn_db_slots s' = rn_db_slots s;
  bn_in_flight : rn_in_flight s' = rn_in_flight s;
  bn_operations : rn_operations s' = rn_operations s;
  bn_settled : rn_settled s' = rn_settled s;
  bn_running_tasks : rn_running_tasks s' = rn_running_tasks s;
  bn_running : rn_running s' = rn_running s;
  bn_output : rn_output s' = rn_output s;
  bn_futures : rn_futures s' = rn_futures s;
  bn_completions : rn_completions s' = rn_completions s;
  bn_drawn : rn_drawn s' = rn_drawn s;
  bn_mode : rn_mode s' = rn_mode s;
  bn_death : rn_death_at s' = rn_death_at s;
}.

Lemma Forall2_permuted {A B} (R : A → B → Prop) l k k' :
  Forall2 R l k → k ≡ₚ k' → ∃ l', l ≡ₚ l' ∧ Forall2 R l' k'.
Proof. apply Forall2_permuted_r. Qed.

Lemma lanes_same_refl ls : lanes_same ls ls.
Proof. exists ls. split; [done|]. apply Forall_Forall2_diag, Forall_true. reflexivity. Qed.
Lemma lanes_same_trans l1 l2 l3 : lanes_same l1 l2 → lanes_same l2 l3 → lanes_same l1 l3.
Proof.
  intros (m1 & Hp1 & HF1) (m2 & Hp2 & HF2).
  destruct (Forall2_permuted _ _ _ _ HF1 Hp2) as (m & Hm & HF). exists m.
  split; [by rewrite Hp1|]. clear -HF HF2. revert l3 HF2.
  induction HF as [|x y m m2 Hxy HF IH]; intros l3 HF2; inversion HF2; subst; constructor; [|by apply IH].
  by etrans.
Qed.

#[export] Instance benign_preorder : PreOrder benign.
Proof.
  split.
  - intros s. split; try done. apply lanes_same_refl.
  - intros s1 s2 s3 [] []. split; try congruence. by eapply lanes_same_trans.
Qed.

Lemma lanes_same_Forall2 ls ls' : Forall2 lane_same ls ls' → lanes_same ls ls'.
Proof. by exists ls. Qed.

Lemma lanes_same_perm ls ls' : ls ≡ₚ ls' → lanes_same ls ls'.
Proof. intros Hp. exists ls'. split; [done|]. apply Forall_Forall2_diag, Forall_true. reflexivity. Qed.

(** A change of the lanes only. *)
Lemma benign_rset_lanes ls s : lanes_same (rn_lanes s) ls → benign s (rset_lanes ls s).
Proof. by split. Qed.

Lemma benign_noted body s : benign s (noted body s).
Proof. split; try done. apply lanes_same_refl. Qed.

Lemma update_first_Forall2 {A} (R : A → A → Prop) `{!Reflexive R} p f l :
  (∀ a, a ∈ l → p a = true → R a (f a)) → Forall2 R l (update_first p f l).
Proof.
  induction l as [|a l IH]; intros Hf; simpl; [constructor|]. destruct (p a) eqn:Hp.
  - constructor; [apply Hf; [by left|done]|]. apply Forall_Forall2_diag, Forall_true. reflexivity.
  - constructor; [reflexivity|]. apply IH. intros b Hb. apply Hf. by right.
Qed.

Lemma benign_lane_mut name f s : (∀ l, lane_same l (f l)) → benign s (lane_mut name f s).
Proof.
  intros Hf. apply benign_rset_lanes, lanes_same_Forall2, update_first_Forall2; [apply _|]. auto.
Qed.

Lemma benign_lanes_fmap f s : (∀ l, lane_same l (f l)) → benign s (rset_lanes (f <$> rn_lanes s) s).
Proof.
  intros Hf. apply benign_rset_lanes, lanes_same_Forall2, Forall2_fmap_r.
  apply Forall_Forall2_diag, Forall_true. exact Hf.
Qed.

Lemma benign_fold {A} (f : RunnerState → A → RunnerState) l s :
  (∀ s a, benign s (f s a)) → benign s (fold_left f l s).
Proof.
  intros Hf. revert s. induction l as [|a l IH]; intros s; simpl; [reflexivity|].
  etrans; [apply Hf|apply IH].
Qed.

(** Reads of the state a benign change keeps. *)
Lemma benign_stopped s s' : benign s s' → stopped s' = stopped s.
Proof. intros []. unfold stopped. by rewrite bn_mode0. Qed.

Ltac lane_done := intros; split; reflexivity.
Ltac only_fields := split; try reflexivity; apply lanes_same_refl.

Section Bodies.
Context `{X : Externals, Y : Serialization, R : RunnerExternals} (rc : RunnerConf).

(** ** Lanes *)

Lemma claim_limit_same limit now l : lane_same l (claim_limit limit now l).2.
Proof.
  unfold claim_limit. destruct (ls_local_rate l); [|reflexivity].
  destruct (local_available _ _). lane_done.
Qed.
Lemma consume_same n now l : lane_same l (consume_local_rate n now l).
Proof. unfold consume_local_rate. destruct (ls_local_rate l); lane_done. Qed.
Lemma rate_wake_same now l : lane_same l (local_rate_wake now l).2.
Proof.
  unfold local_rate_wake. destruct (ls_local_rate l); [|reflexivity].
  destruct (local_next_permit _ _). lane_done.
Qed.

Lemma forget_flow_same id l : lane_same l (forget_flow id l).
Proof. unfold forget_flow. destruct (List.find _ _) as [[i old]|]; lane_done. Qed.
Lemma remember_flow_same r l : lane_same l (remember_flow r l).
Proof.
  unfold remember_flow. destruct (_ || _); [apply forget_flow_same|].
  destruct (make_room _ _ _ _) as [c b]. etrans; [apply (forget_flow_same (t_id r))|]. lane_done.
Qed.

Lemma apply_owner_poll_same l name owner now lease effects :
  lane_same l (apply_owner_poll l name owner now lease effects).1.
Proof. unfold apply_owner_poll. simpl. case_bool_decide; lane_done. Qed.
Lemma apply_lane_poll_same l poll now interval fallback lease effects :
  lane_same l (apply_lane_poll l poll now interval fallback lease effects).1.
Proof.
  unfold apply_lane_poll. destruct (lp_owner poll) as [o|]; [|lane_done].
  pose proof (apply_owner_poll_same l (lp_lane poll) o now lease effects) as H.
  destruct (apply_owner_poll _ _ _ _ _ _) as [l' e']. simpl in *. etrans; [exact H|lane_done].
Qed.

(** ** The runner *)

Lemma benign_wake_lane now lane s : benign s (wake_lane rc now lane s).
Proof. apply benign_lane_mut. lane_done. Qed.
Lemma benign_wake_lanes now s : benign s (wake_lanes rc now s).
Proof. apply benign_lanes_fmap. lane_done. Qed.

Lemma benign_accept_input r s : benign s (accept_input rc r s).
Proof.
  unfold accept_input. destruct (find_lane_state _ s) as [q|]; [|reflexivity].
  assert (H1 : benign s (if bool_decide (t_kind r = Flow) then lane_mut (t_lane r) (remember_flow r) s else s)).
  { destruct (bool_decide _); [|reflexivity]. apply benign_lane_mut, remember_flow_same. }
  destruct (_ || _); [exact H1|]. destruct (existsb _ _); [exact H1|].
  etrans; [exact H1|]. etrans; [apply benign_noted|]. apply benign_lane_mut. lane_done.
Qed.

Lemma benign_coordinate now s : benign s (coordinate_request rc now s).2.
Proof.
  unfold coordinate_request. destruct (List.find _ _) as [l|]; [|reflexivity].
  destruct (find_lane_state _ s); [|reflexivity]. apply benign_lane_mut. lane_done.
Qed.

Lemma admit_lane_same l capacity now s : lane_same l (admit_lane rc l capacity now s).2.
Proof.
  unfold admit_lane. destruct (bool_decide _); [reflexivity|].
  destruct (lane_has_flows _ _); [reflexivity|].
  pose proof (claim_limit_same (Z.min (available l) capacity) now l) as H.
  by destruct (claim_limit _ _ _) as [n l'].
Qed.

Lemma benign_claim_rotation turns capacity now s : benign s (claim_rotation rc turns capacity now s).2.
Proof.
  revert s. induction turns as [|turns IH]; intros s; simpl; [reflexivity|].
  destruct (rn_lanes s) as [|l rest] eqn:Hl; [reflexivity|].
  set (popped := rset_lanes rest s).
  assert (Hadm : ∀ b : bool, lane_same l (if b then admit_lane rc l capacity now popped else (None, l)).2).
  { intros []; [apply admit_lane_same|reflexivity]. }
  specialize (Hadm (negb (lane_busy (ls_name l) s) && (ls_poll_after l <=? now))).
  destruct (if _ && _ then admit_lane _ _ _ _ _ else _) as [claim l'] eqn:Ha. simpl in Hadm.
  assert (Hstep : ∀ l2, lane_same l l2 → benign s (rset_lanes (rest ++ [l2]) s)).
  { intros l2 H2. apply benign_rset_lanes. rewrite Hl. exists (rest ++ [l]).
    split; [apply Permutation_cons_append|]. apply Forall2_app; [|by constructor].
    apply Forall_Forall2_diag, Forall_true. reflexivity. }
  destruct claim as [c|]; simpl.
  - apply Hstep. etrans; [exact Hadm|lane_done].
  - etrans; [by apply Hstep|apply IH].
Qed.
Lemma benign_claim now s : benign s (claim_request rc now s).2.
Proof. unfold claim_request. destruct (negb _); [reflexivity|apply benign_claim_rotation]. Qed.

(** ** Hooks *)

Lemma benign_remove_hook lane s : benign s (remove_hook lane s).
Proof. unfold remove_hook. destruct (rn_hooks s !! lane); [only_fields|reflexivity]. Qed.
Lemma benign_abort_hooks s : benign s (abort_hooks s).
Proof. only_fields. Qed.
Lemma benign_spawn_hook now lane token generation action s :
  benign s (spawn_hook rc now lane token generation action s).
Proof.
  unfold spawn_hook. destruct (match rn_hooks s !! lane with Some h => _ | None => false end); [reflexivity|].
  etrans; [apply (benign_remove_hook lane)|]. destruct (hook_for _ _ _); [only_fields|reflexivity].
Qed.
Lemma benign_accept_hook now c s : benign s (accept_hook rc now c s).
Proof.
  unfold accept_hook. destruct (negb _); [apply benign_noted|].
  destruct (rn_hooks s !! hk_lane c).
  - etrans; [|apply benign_lane_mut; intros l; case_bool_decide; lane_done]. only_fields.
  - apply benign_lane_mut. intros l. case_bool_decide; lane_done.
Qed.

(** ** Polls *)

Lemma lane_mut_found name l l' s :
  find_lane_state name s = Some l → lane_same l l' → benign s (lane_mut name (λ _, l') s).
Proof.
  intros Hf Hl. apply benign_rset_lanes, lanes_same_Forall2. unfold find_lane_state in Hf.
  revert Hf. induction (rn_lanes s) as [|x ls IH]; intros Hf; simpl in *; [done|].
  destruct (String.eqb (ls_name x) name).
  - simplify_eq. constructor; [done|]. apply Forall_Forall2_diag, Forall_true. reflexivity.
  - constructor; [reflexivity|by apply IH].
Qed.

Lemma benign_apply_lane_result now claims acc poll :
  benign acc.1 (apply_lane_result rc now claims acc poll).1.
Proof.
  destruct acc as [s effects]. unfold apply_lane_result. cbn [fst].
  set (s1 := noted _ s). assert (H1 : benign s s1) by apply benign_noted.
  destruct (find_lane_state (lp_lane poll) s1) as [l|] eqn:Hf; [|exact H1].
  set (l0 := if bool_decide (is_Some _) then lset_hook_result None l else l).
  assert (H0 : lane_same l l0) by (unfold l0; case_bool_decide; lane_done).
  pose proof (apply_lane_poll_same l0 poll now (rc_poll_interval rc) (rc_fallback_interval rc)
    (rc_lease_duration rc) effects) as H2.
  destruct (apply_lane_poll _ _ _ _ _ _ _) as [l1 e1]. cbn [fst] in *.
  etrans; [exact H1|]. eapply lane_mut_found; [exact Hf|].
  etrans; [exact H0|]. etrans; [exact H2|]. case_bool_decide; lane_done.
Qed.

Lemma benign_lane_results now claims polls acc :
  benign acc.1 (fold_left (apply_lane_result rc now claims) polls acc).1.
Proof.
  revert acc. induction polls as [|p polls IH]; intros acc; simpl; [reflexivity|].
  etrans; [apply benign_apply_lane_result|apply IH].
Qed.

Lemma benign_record_effects effects s : benign s (record_effects effects s).
Proof.
  unfold record_effects. repeat (etrans; [|apply benign_fold; intros; apply benign_noted]). reflexivity.
Qed.

(** ** Control events *)

Lemma benign_control_wake now s : benign s (control_wake rc now s).
Proof. unfold control_wake. destruct (_ && _); [apply benign_wake_lanes|reflexivity]. Qed.
Lemma forget_flows_same ids l : lane_same l (fold_left (λ l id, forget_flow id l) ids l).
Proof.
  revert l. induction ids as [|id ids IH]; intros l; simpl; [reflexivity|].
  etrans; [apply (forget_flow_same id)|apply IH].
Qed.
Lemma benign_cancel_queued ids s : benign s (cancel_queued ids s).
Proof. apply benign_lanes_fmap. intros l. etrans; [|apply forget_flows_same]. lane_done. Qed.

Lemma benign_collect_event now acc slot : benign acc.2 (collect_event rc now acc slot).2.
Proof.
  destruct acc as [c s]. destruct slot as [[| |]|n]; simpl; try reflexivity. apply benign_control_wake.
Qed.
Lemma benign_collect_event_fold now slots acc :
  benign acc.2 (fold_left (collect_event rc now) slots acc).2.
Proof.
  revert acc. induction slots as [|x slots IH]; intros acc; simpl; [reflexivity|].
  etrans; [apply benign_collect_event|apply IH].
Qed.

Lemma benign_collect_events now s : benign s (collect_events rc now s).
Proof.
  unfold collect_events. set (s0 := rset_events _ s). assert (H0 : benign s s0) by only_fields.
  pose proof (benign_collect_event_fold now (take SCHEDULER_BUDGET (rn_events s))
    ({| ct_cancelled := []; ct_wake := false; ct_lanes := [] |}, s0)) as H1.
  destruct (fold_left _ _ _) as [c s1]. cbn [snd] in H1.
  assert (H2 : benign s (if negb (bool_decide (ct_cancelled c = [])) && accepts_events s1
                         then cancel_queued (ct_cancelled c) s1 else s1)).
  { etrans; [exact H0|]. etrans; [exact H1|]. destruct (_ && _); [apply benign_cancel_queued|reflexivity]. }
  revert H2. generalize (if negb (bool_decide (ct_cancelled c = [])) && accepts_events s1
                         then cancel_queued (ct_cancelled c) s1 else s1). intros s2 H2.
  etrans; [exact H2|]. destruct (ct_wake c); [apply benign_control_wake|].
  destruct (_ && _); [|reflexivity]. apply benign_fold. intros. apply benign_wake_lane.
Qed.

Lemma benign_accept_event now slot s : benign s (accept_event rc now slot s).
Proof.
  unfold accept_event. destruct (negb _); [reflexivity|].
  destruct slot as [[[| |]|n]|]; try reflexivity; try apply benign_control_wake.
  - destruct (in_mode _ _); [apply benign_wake_lane|reflexivity].
  - etrans; [apply benign_cancel_queued|apply benign_control_wake].
Qed.

Lemma benign_schedule_heartbeat now s : benign s (schedule_heartbeat rc now s).
Proof. only_fields. Qed.
Lemma benign_record_starts wall records s : benign s (record_starts rc wall records s).
Proof.
  unfold record_starts. etrans.
  - apply (benign_fold (λ s r, noted (record_started (t_name r) (default 0 (td_to_std (wall - t_created_at r)))) s)
      records). intros. apply benign_noted.
  - destruct records as [|r rs]; [reflexivity|].
    destruct (registry_is_batch _ _); [apply benign_noted|reflexivity].
Qed.
End Bodies.

(** ** The runner's accounts

    What is free and what is in use add up: permits and their holders, each
    lane's uncommitted outcomes and the commits buffered or in flight, the
    tasks running and the invocations that run them ([accounts]). *)

(** ** Counting *)

Definition b2z (b : bool) : Z := if b then 1 else 0.
Definition count {A} (p : A → bool) (l : list A) : Z := zsum ((λ a, b2z (p a)) <$> l).

Lemma zsum_cons x l : zsum (x :: l) = x + zsum l.
Proof. done. Qed.
Lemma zsum_app l k : zsum (l ++ k) = zsum l + zsum k.
Proof. induction l as [|x l IH]; [done|]. rewrite <- app_comm_cons, !zsum_cons, IH. lia. Qed.
Lemma zsum_perm l k : l ≡ₚ k → zsum l = zsum k.
Proof. induction 1; rewrite ?zsum_cons; lia. Qed.
Lemma zsum_fmap_le {A} (f g : A → Z) l : (∀ a, a ∈ l → f a ≤ g a) → zsum (f <$> l) ≤ zsum (g <$> l).
Proof.
  induction l as [|a l IH]; intros H; [done|]. rewrite !fmap_cons, !zsum_cons.
  pose proof (H a ltac:(by left)). specialize (IH ltac:(intros b Hb; apply H; by right)). lia.
Qed.
Lemma zsum_fmap_nonneg {A} (f : A → Z) l : (∀ a, 0 ≤ f a) → 0 ≤ zsum (f <$> l).
Proof.
  intros Hf. induction l as [|a l IH]; [done|]. rewrite fmap_cons, zsum_cons. specialize (Hf a). lia.
Qed.

Lemma count_app {A} (p : A → bool) l k : count p (l ++ k) = count p l + count p k.
Proof. unfold count. by rewrite fmap_app, zsum_app. Qed.
Lemma count_cons {A} (p : A → bool) a l : count p (a :: l) = b2z (p a) + count p l.
Proof. done. Qed.
Lemma count_nonneg {A} (p : A → bool) l : 0 ≤ count p l.
Proof. apply zsum_fmap_nonneg. intros a. destruct (p a); simpl; lia. Qed.
Lemma zlen_filter {A} (p : A → bool) l : zlen (List.filter p l) = count p l.
Proof.
  induction l as [|a l IH]; [done|]. rewrite count_cons, <- IH. simpl.
  destruct (p a); simpl; unfold zlen; simpl; lia.
Qed.
Lemma count_fmap {A} (p : A → bool) (f : A → A) l : (∀ a, p (f a) = p a) → count p (f <$> l) = count p l.
Proof. intros H. induction l as [|a l IH]; [done|]. csimpl. by rewrite !count_cons, H, IH. Qed.
Lemma count_middle {A} (p : A → bool) l a k : count p (l ++ a :: k) = b2z (p a) + count p (l ++ k).
Proof. rewrite !count_app, count_cons. lia. Qed.
Lemma count_filter_split {A} (p q : A → bool) l :
  count p l = count p (List.filter q l) + count p (List.filter (λ a, negb (q a)) l).
Proof.
  induction l as [|a l IH]; [done|]. rewrite count_cons, IH. simpl.
  destruct (q a); simpl; rewrite count_cons; lia.
Qed.

Lemma count_lane_app name l k : count_lane name (l ++ k) = count_lane name l + count_lane name k.
Proof. unfold count_lane. rewrite !zlen_filter. apply count_app. Qed.
Lemma count_lane_nonneg name l : 0 ≤ count_lane name l.
Proof. apply zlen_nonneg. Qed.
Lemma count_lane_le name l : count_lane name l ≤ zlen l.
Proof.
  unfold count_lane, zlen. induction l as [|c l IH]; [done|]. simpl. case_bool_decide; simpl; lia.
Qed.

(** ** Outcomes held *)

Definition in_flight_commits (name : TaskLane) (s : RunnerState) : Z :=
  in_flight_sum (λ r, count_lane name (request_commits r)) (rn_in_flight s).

Lemma in_flight_sum_insert f m id e :
  m !! id = None → in_flight_sum f (<[id := e]> m) = f (if_request e) + in_flight_sum f m.
Proof.
  intros Hid. unfold in_flight_sum.
  by rewrite (zsum_perm _ _ (fmap_Permutation _ _ _ (map_to_list_insert m id e Hid))).
Qed.
Lemma in_flight_sum_delete f m id e :
  m !! id = Some e → in_flight_sum f m = f (if_request e) + in_flight_sum f (delete id m).
Proof.
  intros Hid. rewrite <- (in_flight_sum_insert f (delete id m) id e) by apply lookup_delete_eq.
  by rewrite insert_delete_eq, insert_id.
Qed.
(** Changing an entry's phase. *)
Lemma in_flight_sum_phase f m id e e' :
  m !! id = Some e → if_request e' = if_request e → in_flight_sum f (<[id := e']> m) = in_flight_sum f m.
Proof.
  intros Hid He. rewrite (in_flight_sum_delete f m id e Hid).
  rewrite <- insert_delete_eq, in_flight_sum_insert by apply lookup_delete_eq. by rewrite He.
Qed.
Lemma in_flight_sum_nonneg f m : (∀ r, 0 ≤ f r) → 0 ≤ in_flight_sum f m.
Proof. intros Hf. apply zsum_fmap_nonneg. auto. Qed.
Lemma in_flight_commits_nonneg name s : 0 ≤ in_flight_commits name s.
Proof. apply in_flight_sum_nonneg. intros r. apply count_lane_nonneg. Qed.

Lemma in_flight_commits_le name s :
  in_flight_commits name s ≤ in_flight_sum (λ r, zlen (request_commits r)) (rn_in_flight s).
Proof. apply zsum_fmap_le. intros p _. apply count_lane_le. Qed.

(** ** Permit holders *)

Definition global_holders (s : RunnerState) : Z :=
  count ex_global_permit (rn_futures s) + count co_global_permit (rn_completions s).
Definition local_holders (name : TaskLane) (s : RunnerState) : Z :=
  count (λ e, ex_lane_permit e && String.eqb (ex_lane e) name) (rn_futures s)
  + count (λ c, co_lane_permit c && String.eqb (co_lane c) name) (rn_completions s).

(** ** The invariant *)

Section Accounts.
Context `{X : Externals, L : !ExternalLaws X} (rc : RunnerConf).

(** An identifier this process has drawn. *)
Definition drawn_id (s : RunnerState) (id : Uuid) : Prop := ∃ k, (k < rn_drawn s)%nat ∧ id = uuid_now_v7 k.

Definition invocation_of (e : TaskExecution) : RunningInvocation :=
  {| ri_lane := ex_lane e; ri_task_ids := t_id <$> ex_records e |}.

Record lane_account (extra owed : TaskLane → Z) (s : RunnerState) (l : LaneState) : Prop := {
  la_permits : ls_slots l + local_holders (ls_name l) s + extra (ls_name l) = lc_concurrency (ls_conf l);
  la_nonneg : 0 ≤ ls_slots l;
  la_uncommitted : ls_uncommitted l = count_lane (ls_name l) (rn_output s)
    + in_flight_commits (ls_name l) s + owed (ls_name l);
}.

(** Inside a body some of it is in its hand: [db] permits of an operation being applied, [global] and
    [extra] permits of an invocation being
    spawned or accepted, [owed] outcomes of a request being built or acknowledged, and [pending],
    an invocation whose future exists but is not registered yet. *)
Record accounts_with (db global : Z) (extra owed : TaskLane → Z) (pending : option Uuid) (s : RunnerState) : Prop := {
  ac_names : NoDup (ls_name <$> rn_lanes s);
  ac_global : rn_slots s + global_holders s + global = rc_concurrency rc;
  ac_slots : 0 ≤ rn_slots s;
  ac_lanes : Forall (lane_account extra owed s) (rn_lanes s);
  ac_db : rn_db_slots s + zlen (rn_operations s) + zlen (rn_settled s) + db
            = cf_db_concurrency (rg_config (rc_registry rc));
  ac_db_slots : 0 ≤ rn_db_slots s;
  ac_running id inv :
    rn_running_tasks s !! id = Some inv ↔ ∃ ri, rn_running s !! inv = Some ri ∧ id ∈ ri_task_ids ri;
  ac_live e : e ∈ rn_futures s → ex_aborted e = false → pending ≠ Some (ex_invocation_id e) →
    rn_running s !! ex_invocation_id e = Some (invocation_of e);
  ac_distinct : NoDup ((ex_invocation_id <$> rn_futures s) ++ (co_invocation_id <$> rn_completions s));
  ac_completions : Forall (λ c, Forall (λ k, commit_lane k = Some (co_lane c)) (co_commits c)) (rn_completions s);
  ac_known : (∀ inv, is_Some (rn_running s !! inv) → drawn_id s inv) ∧
    Forall (λ e, drawn_id s (ex_invocation_id e)) (rn_futures s) ∧
    Forall (λ c, drawn_id s (co_invocation_id c)) (rn_completions s) ∧
    (∀ id, is_Some (rn_in_flight s !! id) → drawn_id s id);
  ac_give_back id e : rn_in_flight s !! id = Some e → if_request e = ReqGiveBack →
    rn_mode s = Draining ∧ rn_running s = ∅ ∧ rn_output s = [] ∧
    ∀ id' e', rn_in_flight s !! id' = Some e' → if_request e' = ReqGiveBack;
}.
Definition accounts (db : Z) : RunnerState → Prop := accounts_with db 0 (λ _, 0) (λ _, 0) None.

(** What every body of the loop keeps. *)
Definition sound (db : Z) (s s' : RunnerState) : Prop :=
  (rn_drawn s ≤ rn_drawn s')%nat ∧
  (accounts db s → held s ≤ USIZE_MAX → Z.of_nat (rn_drawn s') ≤ U64_MAX → accounts db s' ∧ held s' ≤ held s).

#[export] Instance sound_preorder db : PreOrder (sound db).
Proof.
  split.
  - intros s. split; [done|]. intros; split; [done|lia].
  - intros s1 s2 s3 [Hd1 H1] [Hd2 H2]. split; [lia|]. intros Ha Hh Hd.
    destruct H1 as [Ha2 Hh2]; [done|done|lia|]. destruct H2 as [Ha3 Hh3]; [done|lia|done|]. split; [done|lia].
Qed.

Lemma lanes_same_names ls ls' : lanes_same ls ls' → ls_name <$> ls ≡ₚ ls_name <$> ls'.
Proof.
  intros (mid & Hp & HF). rewrite Hp. clear Hp. induction HF as [|x y ls1 ls2 [Hc _ _] _ IH]; [done|].
  csimpl. unfold ls_name at 1 3. rewrite Hc. by constructor.
Qed.

Lemma lanes_same_Forall (P Q : LaneState → Prop) ls ls' :
  lanes_same ls ls' → (∀ l l', lane_same l l' → P l → Q l') → Forall P ls → Forall Q ls'.
Proof.
  intros (mid & Hp & HF) HPQ HP. rewrite Hp in HP. clear Hp. revert HP.
  induction HF; intros HP; [constructor|]. apply Forall_cons in HP as [? ?]. constructor; eauto.
Qed.

Lemma benign_accounts d g x o p s s' : benign s s' → accounts_with d g x o p s → accounts_with d g x o p s'.
Proof.
  intros [Bl Bs Bd Bi Bo Bse Brt Br Bou Bf Bc Bdr Bm Bde] [An Ag As Al Ad Ads Ar Ali Adi Ac Ak Agb].
  split; rewrite ?Bs, ?Bd, ?Bo, ?Bse; try done.
  - by rewrite <- (lanes_same_names _ _ Bl).
  - unfold global_holders in *. by rewrite Bf, Bc.
  - eapply lanes_same_Forall; [exact Bl| |exact Al]. intros l l' [Hc Hsl Hu] [H1 H2 H3].
    split; unfold local_holders, in_flight_commits, ls_name in *; by rewrite ?Hc, ?Hsl, ?Hu, ?Bf, ?Bc, ?Bou, ?Bi.
  - intros id inv. by rewrite Brt, Br.
  - intros e. rewrite Bf, Br. auto.
  - by rewrite Bf, Bc.
  - by rewrite Bc.
  - unfold drawn_id. by rewrite Bdr, Br, Bf, Bc, Bi.
  - intros id e. rewrite Bi, Bm, Br, Bou. eauto.
Qed.

Lemma benign_held s s' : benign s s' → held s' = held s.
Proof. intros Hb. unfold held. by rewrite (bn_completions _ _ Hb), (bn_output _ _ Hb), (bn_in_flight _ _ Hb). Qed.

Lemma benign_sound d s s' : benign s s' → sound d s s'.
Proof.
  intros Hb. split; [by rewrite (bn_drawn _ _ Hb)|]. intros Ha _ _.
  split; [by eapply benign_accounts|]. rewrite (benign_held _ _ Hb). lia.
Qed.

(** ** One lane's account *)

Lemma update_first_Forall (P Q : LaneState → Prop) name f ls :
  NoDup (ls_name <$> ls) → Forall P ls →
  (∀ l, ls_name l = name → P l → Q (f l)) → (∀ l, ls_name l ≠ name → P l → Q l) →
  Forall Q (update_first (λ l, String.eqb (ls_name l) name) f ls).
Proof.
  intros Hn HP H1 H2. induction HP as [|l ls Hl HP IH]; simpl; [constructor|].
  csimpl in Hn. apply NoDup_cons in Hn as [Hnin Hn].
  destruct (String.eqb_spec (ls_name l) name) as [He|He].
  - constructor; [by apply H1|]. apply Forall_forall. intros k Hk. rewrite Forall_forall in HP.
    apply H2; [|by apply HP]. intros He'. apply Hnin. rewrite He, <- He'. by apply list_elem_of_fmap_2.
  - constructor; [by apply H2|by apply IH].
Qed.

Lemma update_first_names name f ls :
  (∀ l, ls_conf (f l) = ls_conf l) →
  ls_name <$> update_first (λ l, String.eqb (ls_name l) name) f ls = ls_name <$> ls.
Proof.
  intros Hf. induction ls as [|l ls IH]; simpl; [done|].
  destruct (String.eqb _ _); csimpl; [|by rewrite IH]. unfold ls_name at 1. by rewrite Hf.
Qed.
End Accounts.
