(* ===== verification/RunnerBodies.v ===== *)
(** * The runner's bodies keep its accounts

    Permits, completions, aborted invocations and released commits. *)
From S2P Require Import Prelude Externals Failure Config Rate Models Transitions Lifecycle.
From S2P Require Import MemoryState Json Metrics Registry Submission Handlers Client Runner.
From S2P Require Import RunnerLanes RunnerExec RunnerEngine RunnerFacts.
#[local] Open Scope Z_scope.

(** The permit or the outcomes of one lane. *)
Definition at_lane (lane : TaskLane) (z : Z) : TaskLane → Z := λ name, if String.eqb lane name then z else 0.

Section Bodies.
Context `{X : Externals, L : !ExternalLaws X, Y : Serialization, R : RunnerExternals} (rc : RunnerConf).
#[local] Abbreviation accounts_with := (accounts_with rc).
#[local] Abbreviation accounts := (accounts rc).
#[local] Abbreviation sound := (sound rc).

Lemma accounts_ext d g x x' o o' p s :
  (∀ n, x n = x' n) → (∀ n, o n = o' n) → accounts_with d g x o p s → accounts_with d g x' o' p s.
Proof.
  intros Hx Ho []. split; try done. eapply Forall_impl; [exact ac_lanes|].
  intros l [H1 H2 H3]. split; [by rewrite <- Hx|done|by rewrite <- Ho].
Qed.

Lemma lane_accounts_kept x o s s' ls :
  rn_futures s' = rn_futures s → rn_completions s' = rn_completions s → rn_output s' = rn_output s →
  rn_in_flight s' = rn_in_flight s → Forall (lane_account x o s) ls → Forall (lane_account x o s') ls.
Proof.
  intros Hf Hc Ho Hi Hl. eapply Forall_impl; [exact Hl|]. intros l [H1 H2 H3].
  split; unfold local_holders, in_flight_commits in *; by rewrite ?Hf, ?Hc, ?Ho, ?Hi.
Qed.

(** ** Lanes *)

(** One lane changes together with what is in hand; nothing else of the state does. *)
Lemma accounts_lane_mut d g x x' o o' p name f s :
  (∀ l, ls_conf (f l) = ls_conf l) →
  (∀ l, ls_name l = name → lane_account x o s l → lane_account x' o' s (f l)) →
  (∀ n, n ≠ name → x' n = x n ∧ o' n = o n) →
  accounts_with d g x o p s → accounts_with d g x' o' p (lane_mut name f s).
Proof.
  intros Hc Hf Ho []. split; try done.
  - simpl. by rewrite update_first_names.
  - simpl. eapply update_first_Forall; [exact ac_names|exact ac_lanes| |].
    + intros l Hl HP. by destruct (Hf l Hl HP).
    + intros l Hl [H1 H2 H3]. destruct (Ho _ Hl) as [Hx' Ho']. split; [|done|].
      * change (ls_slots l + local_holders (ls_name l) s + x' (ls_name l) = lc_concurrency (ls_conf l)).
        by rewrite Hx'.
      * change (ls_uncommitted l = count_lane (ls_name l) (rn_output s) + in_flight_commits (ls_name l) s + o' (ls_name l)).
        by rewrite Ho'.
Qed.

Lemma release_permits_accounts d lane global local s :
  accounts_with d (b2z global) (at_lane lane (b2z local)) (λ _, 0) None s →
  accounts d (release_permits lane global local s).
Proof.
  intros Ha. unfold release_permits.
  assert (H1 : accounts_with d 0 (at_lane lane (b2z local)) (λ _, 0) None
    (if global then rset_slots (rn_slots s + 1) s else s)).
  { destruct global; [|exact Ha]. destruct Ha. split; try done.
    - change (rn_slots s + 1 + global_holders s + 0 = rc_concurrency rc). cbn [b2z] in *. lia.
    - cbn [rn_slots rset_slots]. lia.
    - by eapply lane_accounts_kept; [..|exact ac_lanes]. }
  destruct local.
  - eapply accounts_lane_mut; [done| | |exact H1].
    + intros l <- [Hp Hn Hu]. unfold at_lane in Hp. rewrite String.eqb_refl in Hp. cbn [b2z] in Hp.
      split; [|simpl; lia|done].
      cbn [ls_slots lset_slots]. change (ls_name (lset_slots (ls_slots l + 1) l)) with (ls_name l).
      change (ls_conf (lset_slots (ls_slots l + 1) l)) with (ls_conf l). lia.
    + intros n Hn. split; [|done]. unfold at_lane. destruct (String.eqb_spec lane n); [congruence|done].
  - eapply accounts_ext; [| |exact H1]; intros n; [|done]. unfold at_lane. by destruct (String.eqb lane n).
Qed.

Lemma release_permits_held lane global local s : held (release_permits lane global local s) = held s.
Proof. unfold release_permits. by destruct global, local. Qed.
Lemma release_permits_drawn lane global local s : rn_drawn (release_permits lane global local s) = rn_drawn s.
Proof. unfold release_permits. by destruct global, local. Qed.

(** ** Completions *)

Lemma pop_completion_accounts d c rest s :
  rn_completions s = c :: rest → accounts d s →
  accounts_with d (b2z (co_global_permit c)) (at_lane (co_lane c) (b2z (co_lane_permit c))) (λ _, 0) None
    (rset_completions rest s).
Proof.
  intros Hc []. rewrite Hc in *. split; try done.
  - unfold global_holders in *. rewrite Hc, count_cons in ac_global. simpl. lia.
  - eapply Forall_impl; [exact ac_lanes|]. intros l [H1 H2 H3]. split; [|done|done].
    unfold local_holders in *. rewrite Hc, count_cons in H1. simpl. unfold at_lane.
    destruct (String.eqb (co_lane c) (ls_name l)), (co_lane_permit c); simpl in *; lia.
  - csimpl in *. eapply sublist_NoDup; [exact ac_distinct|].
    apply sublist_app; [done|]. by apply sublist_cons.
  - by apply Forall_cons in ac_completions as [_ ?].
  - destruct ac_known as (H1 & H2 & H3 & H4). apply Forall_cons in H3 as [_ H3]. by split_and!.
Qed.

Lemma remove_tasks_lookup ids m id inv :
  remove_tasks ids m !! id = Some inv ↔ id ∉ ids ∧ m !! id = Some inv.
Proof.
  unfold remove_tasks. induction ids as [|i ids IH]; simpl; [set_solver|].
  destruct (decide (i = id)) as [->|Hi].
  - rewrite lookup_delete_eq. set_solver.
  - rewrite lookup_delete_ne, IH by done. set_solver.
Qed.

(** Removing an invocation with its tasks keeps the two maps in step. *)
Lemma running_removed (tasks : gmap TaskId Uuid) (running : gmap Uuid RunningInvocation) inv ri :
  (∀ id i, tasks !! id = Some i ↔ ∃ r, running !! i = Some r ∧ id ∈ ri_task_ids r) →
  running !! inv = Some ri →
  ∀ id i, remove_tasks (ri_task_ids ri) tasks !! id = Some i ↔
    ∃ r, delete inv running !! i = Some r ∧ id ∈ ri_task_ids r.
Proof.
  intros Hr Hri id i. rewrite remove_tasks_lookup, Hr. split.
  - intros [Hid (r & H1 & H2)]. exists r. split; [|done]. rewrite lookup_delete_ne; [done|].
    intros <-. congruence.
  - intros (r & H1 & H2). apply lookup_delete_Some in H1 as [Hne H1]. split; [|by exists r].
    intros Hid. apply Hne. assert (tasks !! id = Some inv) by (apply Hr; eauto).
    assert (tasks !! id = Some i) by (apply Hr; eauto). congruence.
Qed.

Lemma count_lane_all lane commits name :
  Forall (λ k, commit_lane k = Some lane) commits →
  count_lane name commits = at_lane lane (zlen commits) name.
Proof.
  unfold count_lane, at_lane. intros Hc. destruct (String.eqb_spec lane name) as [->|Hn].
  - f_equal. induction Hc as [|c commits Hc _ IH]; simpl; [done|]. rewrite bool_decide_true by done. by rewrite IH.
  - induction Hc as [|c commits Hc _ IH]; simpl; [done|]. rewrite bool_decide_false by congruence. done.
Qed.

Lemma accept_completion_sound d now c rest s :
  rn_completions s = c :: rest → sound d s (accept_completion rc now c (rset_completions rest s)).
Proof.
  intros Hc. unfold accept_completion. cbn [rn_running rset_completions].
  assert (Hheld : held s = zlen (co_commits c) + held (rset_completions rest s)).
  { unfold held. rewrite Hc. cbn [rn_completions rset_completions rn_output rn_in_flight].
    rewrite fmap_cons, zsum_cons. lia. }
  destruct (rn_running s !! co_invocation_id c) as [ri|] eqn:Hri.
  2: { split; [by rewrite release_permits_drawn|]. intros Ha _ _.
       split; [by apply release_permits_accounts, pop_completion_accounts|].
       rewrite release_permits_held, Hheld. pose proof (zlen_nonneg (co_commits c)). lia. }
  split; [by rewrite release_permits_drawn|]. intros Ha Hmax _. cbv zeta.
  set (commits := List.filter _ (co_commits c)).
  assert (Hlen : zlen commits ≤ zlen (co_commits c)).
  { unfold commits. rewrite zlen_filter. unfold count, zlen.
    rewrite <- (Z.mul_1_r (Z.of_nat _)). clear. induction (co_commits c) as [|k l IH]; [done|].
    rewrite fmap_cons, zsum_cons. destruct (bool_decide _); cbn [b2z length]; lia. }
  assert (Hcl : Forall (λ k, commit_lane k = Some (co_lane c)) commits).
  { pose proof (ac_completions _ _ _ _ _ _ _ Ha) as Hco. rewrite Hc in Hco. apply Forall_cons in Hco as [Hco _].
    apply Forall_forall. intros k Hk. rewrite Forall_forall in Hco. apply Hco.
    apply list_elem_of_In, filter_In in Hk as [Hk _]. by apply list_elem_of_In. }
  pose proof (pop_completion_accounts d c rest s Hc Ha) as Hp.
  split.
  2: { rewrite release_permits_held, (benign_held _ _ (benign_wake_lane _ _ _ _)).
       unfold held. rewrite Hc, fmap_cons, zsum_cons. simpl. rewrite zlen_app. lia. }
  apply release_permits_accounts. eapply benign_accounts; [apply benign_wake_lane|].
  (* outcomes enter the buffer and the lane's count together *)
  set (s1 := rset_running _ _). assert (Hs1 : accounts_with d (b2z (co_global_permit c))
    (at_lane (co_lane c) (b2z (co_lane_permit c))) (λ n, - at_lane (co_lane c) (zlen commits) n) None s1).
  { destruct Hp. split; try done.
    - eapply Forall_impl; [exact ac_lanes|]. intros l [H1 H2 H3]. split; [done|done|].
      rewrite H3. change (rn_output s1) with (rn_output s ++ commits).
      change (rn_output (rset_completions rest s)) with (rn_output s).
      rewrite count_lane_app, (count_lane_all _ _ (ls_name l) Hcl).
      change (in_flight_commits (ls_name l) s1) with (in_flight_commits (ls_name l) s).
      change (in_flight_commits (ls_name l) (rset_completions rest s)) with (in_flight_commits (ls_name l) s).
      lia.
    - apply running_removed; [exact ac_running|exact Hri].
    - intros e He Hab Hpe. unfold s1. cbn [rn_running rset_running]. rewrite lookup_delete_ne; [by apply ac_live|].
      intros Heq. pose proof (RunnerFacts.ac_distinct _ _ _ _ _ _ _ Ha) as Hd.
      rewrite Hc in Hd. csimpl in Hd. apply NoDup_app in Hd as (_ & Hd & _).
      apply (Hd (ex_invocation_id e)); [by apply list_elem_of_fmap_2|rewrite <- Heq; by left].
    - destruct ac_known as (H1 & H2 & H3 & H4). split_and!; try done.
      intros inv [r Hr]. change (delete (co_invocation_id c) (rn_running s) !! inv = Some r) in Hr.
      apply lookup_delete_Some in Hr as [_ Hr]. apply H1. by exists r.
    - intros id e He Hg. destruct (ac_give_back id e He Hg) as (_ & Hr & _).
      cbn [rn_running rset_completions] in Hr. by rewrite Hr in Hri. }
  eapply accounts_lane_mut; [done| | |exact Hs1].
  - intros l Hl [H1 H2 H3]. split; [done|done|].
    cbn [ls_uncommitted lset_completed_work lset_uncommitted].
    change (ls_name (lset_completed_work true (lset_uncommitted (usize_saturating (ls_uncommitted l + zlen commits)) l)))
      with (ls_name l).
    rewrite H3, usize_saturating_id; rewrite Hl; [unfold at_lane; rewrite String.eqb_refl; lia|].
    pose proof (count_lane_nonneg (co_lane c) (rn_output s1)).
    pose proof (in_flight_commits_nonneg (co_lane c) s1).
    pose proof (count_lane_le (co_lane c) (rn_output s1)) as H4.
    pose proof (in_flight_commits_le (co_lane c) s1) as H5.
    assert (H6 : 0 <= zsum ((λ c, zlen (co_commits c)) <$> rest))
      by (apply zsum_fmap_nonneg; intros; apply zlen_nonneg).
    unfold held in Hmax. rewrite Hc, fmap_cons, zsum_cons in Hmax.
    change (rn_output s1) with (rn_output s ++ commits) in *. change (rn_in_flight s1) with (rn_in_flight s) in H5.
    rewrite zlen_app in H4. unfold at_lane in *. rewrite Hl, String.eqb_refl in *. lia.
  - intros n Hn. split; [done|]. unfold at_lane. destruct (String.eqb_spec (co_lane c) n); [congruence|lia].
Qed.
End Bodies.

(** ** The runner's accounts when work is lost

    Aborted invocations, released outcomes, dropped lanes, applied polls, and
    the end of a runner that retires, dies or faults. *)

Section Losses.
Context `{X : Externals, L : !ExternalLaws X, Y : Serialization, R : RunnerExternals} (rc : RunnerConf).
#[local] Abbreviation accounts_with := (accounts_with rc).
#[local] Abbreviation accounts := (accounts rc).
#[local] Abbreviation sound := (sound rc).

(** A change that keeps the accounts whatever is in hand. *)
Definition kept (s s' : RunnerState) : Prop :=
  (∀ d g x o p, accounts_with d g x o p s → accounts_with d g x o p s') ∧
  held s' = held s ∧ rn_drawn s' = rn_drawn s.
#[export] Instance kept_preorder : PreOrder kept.
Proof.
  split; [by split|]. intros s1 s2 s3 (H1 & H2 & H3) (H4 & H5 & H6).
  split; [|split; congruence]. intros. by apply H4, H1.
Qed.
Lemma benign_kept s s' : benign s s' → kept s s'.
Proof.
  intros Hb. split; [intros; by eapply benign_accounts|].
  split; [by apply benign_held|apply (bn_drawn _ _ Hb)].
Qed.
Lemma kept_sound d s s' : kept s s' → sound d s s'.
Proof.
  intros (Ha & Hh & Hd). split; [by rewrite Hd|]. intros H _ _. split; [by apply Ha|]. rewrite Hh. lia.
Qed.
Lemma kept_fold {A} (f : RunnerState → A → RunnerState) l s :
  (∀ s a, kept s (f s a)) → kept s (fold_left f l s).
Proof.
  intros Hf. revert s. induction l as [|a l IH]; intros s; simpl; [reflexivity|]. etrans; [apply Hf|apply IH].
Qed.
Lemma sound_fold {A} d (f : RunnerState → A → RunnerState) l s :
  (∀ s a, sound d s (f s a)) → sound d s (fold_left f l s).
Proof.
  intros Hf. revert s. induction l as [|a l IH]; intros s; simpl; [reflexivity|]. etrans; [apply Hf|apply IH].
Qed.

(** ** Aborted invocations *)

Lemma abort_execution_ids id futures :
  ex_invocation_id <$> abort_execution id futures = ex_invocation_id <$> futures.
Proof.
  unfold abort_execution. rewrite <- list_fmap_compose. apply list_fmap_ext. intros i e _. simpl.
  by destruct (_ =? _)%N.
Qed.
Lemma abort_execution_count (p : TaskExecution → bool) id futures :
  (∀ e, p (set_aborted e) = p e) → count p (abort_execution id futures) = count p futures.
Proof. intros Hp. apply count_fmap. intros e. by destruct (_ =? _)%N. Qed.
(** A live execution after an abort was live before and is another one. *)
Lemma abort_execution_live id futures e :
  e ∈ abort_execution id futures → ex_aborted e = false → e ∈ futures ∧ ex_invocation_id e ≠ id.
Proof.
  unfold abort_execution. intros (e0 & He & He0)%list_elem_of_fmap Hab.
  destruct (N.eqb_spec (ex_invocation_id e0) id); subst e; [done|by split].
Qed.

Lemma abort_invocation_kept id s : kept s (abort_invocation id s).
Proof.
  unfold abort_invocation. destruct (rn_running s !! id) as [ri|] eqn:Hri; [|reflexivity].
  split; [|done]. intros d g x o p [].
  split; try done.
  - unfold global_holders. simpl. by rewrite abort_execution_count.
  - eapply Forall_impl; [exact ac_lanes|]. intros l [H1 H2 H3]. split; [|done|done].
    unfold local_holders. simpl. by rewrite abort_execution_count.
  - by apply running_removed.
  - simpl. intros e He Hab Hp. destruct (abort_execution_live _ _ _ He Hab) as [He' Hne].
    rewrite lookup_delete_ne by done. by apply ac_live.
  - simpl. by rewrite abort_execution_ids.
  - destruct ac_known as (H1 & H2 & H3 & H4). split; [|split; [|done]].
    + simpl. intros inv [r Hr]. apply lookup_delete_Some in Hr as [_ Hr]. apply H1. by exists r.
    + simpl. apply Forall_fmap. eapply Forall_impl; [exact H2|]. intros e He. simpl.
      by destruct (_ =? _)%N.
  - intros i e He Hg. destruct (ac_give_back i e He Hg) as (_ & Hr & _). by rewrite Hr in Hri.
Qed.

(** ** Released outcomes *)

Lemma count_lane_absent n commits : n ∉ commit_lanes commits → count_lane n commits = 0.
Proof.
  intros Hn. unfold count_lane. rewrite zlen_filter. unfold count.
  assert (Hall : ∀ k, k ∈ commits → commit_lane k ≠ Some n).
  { intros k Hk Hl. apply Hn. apply elem_of_remove_dups, list_elem_of_omap. by exists k. }
  clear Hn. induction commits as [|k commits IH]; [done|]. rewrite fmap_cons, zsum_cons, IH.
  - rewrite bool_decide_false; [done|]. apply Hall. by left.
  - intros k' Hk'. apply Hall. by right.
Qed.

Lemma release_fold_accounts d g x o p commits lanes s :
  NoDup lanes →
  (∀ n, 0 ≤ count_lane n (rn_output s) + in_flight_commits n s + o n) →
  accounts_with d g x (λ n, o n + if bool_decide (n ∈ lanes) then count_lane n commits else 0) p s →
  accounts_with d g x o p
    (fold_left (λ s lane, lane_mut lane (λ l,
       lset_uncommitted (usize_saturating_sub (ls_uncommitted l) (count_lane lane commits)) l) s) lanes s).
Proof.
  revert s. induction lanes as [|n lanes IH]; intros s Hd Hpos Ha; simpl.
  - eapply accounts_ext; [| |exact Ha]; [done|]. intros m. cbn beta. rewrite bool_decide_false by set_solver. lia.
  - apply NoDup_cons in Hd as [Hn Hd]. apply IH; [done|exact Hpos|].
    eapply accounts_lane_mut; [done| | |exact Ha].
    + intros l Hl [H1 H2 H3]. split; [done|done|]. cbn [ls_uncommitted lset_uncommitted].
      change (ls_name (lset_uncommitted (usize_saturating_sub (ls_uncommitted l) (count_lane n commits)) l))
        with (ls_name l).
      rewrite H3, Hl. rewrite bool_decide_true by set_solver. rewrite (bool_decide_false _ Hn).
      specialize (Hpos n). unfold usize_saturating_sub. lia.
    + intros m Hm. split; [done|]. cbn beta. destruct (decide (m ∈ lanes)).
      * by rewrite !bool_decide_true by set_solver.
      * by rewrite !bool_decide_false by set_solver.
Qed.

Lemma release_commits_accounts d g x o p commits s :
  (∀ n, 0 ≤ count_lane n (rn_output s) + in_flight_commits n s + o n) →
  accounts_with d g x (λ n, o n + count_lane n commits) p s →
  accounts_with d g x o p (release_commits commits s).
Proof.
  intros Hpos Ha. apply release_fold_accounts; [apply NoDup_remove_dups|done|].
  eapply accounts_ext; [| |exact Ha]; [done|]. intros n. cbn beta. case_bool_decide as Hn; [done|].
  by rewrite count_lane_absent.
Qed.

(** Releasing changes lanes only. *)
Lemma release_commits_only commits s : ∃ ls, release_commits commits s = rset_lanes ls s.
Proof.
  unfold release_commits. revert s. induction (commit_lanes commits) as [|n lanes IH]; intros s; simpl.
  - exists (rn_lanes s). by destruct s.
  - destruct (IH (lane_mut n (λ l, lset_uncommitted
      (usize_saturating_sub (ls_uncommitted l) (count_lane n commits)) l) s)) as [ls Hls]. by exists ls.
Qed.

Lemma count_lane_filter n (q : TaskCommit → bool) l :
  count_lane n l = count_lane n (List.filter q l) + count_lane n (List.filter (λ c, negb (q c)) l).
Proof. unfold count_lane. rewrite !zlen_filter. apply count_filter_split. Qed.
Lemma zlen_filter_le {A} (q : A → bool) l : zlen (List.filter q l) ≤ zlen l.
Proof. unfold zlen. induction l as [|a l IH]; [done|]. simpl. destruct (q a); simpl; lia. Qed.

Lemma drop_pending_sound d ids s : sound d s (drop_pending ids s).
Proof.
  unfold drop_pending. cbv zeta. set (lost := λ c, bool_decide (commit_task_id c ∈ ids)).
  set (s1 := rset_output _ s). destruct (release_commits_only (List.filter lost (rn_output s)) s1) as [ls Hls].
  split; [by rewrite Hls|]. intros Ha _ _. split.
  - apply release_commits_accounts.
    + intros n. pose proof (count_lane_nonneg n (rn_output s1)).
      pose proof (in_flight_commits_nonneg n s1). lia.
    + destruct Ha. split; try done.
      * eapply Forall_impl; [exact ac_lanes|]. intros l [H1 H2 H3]. split; [done|done|].
        rewrite H3. rewrite (count_lane_filter (ls_name l) lost (rn_output s)).
        change (in_flight_commits (ls_name l) s1) with (in_flight_commits (ls_name l) s).
        change (rn_output s1) with (List.filter (λ c, negb (lost c)) (rn_output s)). cbn beta. lia.
      * intros i e He Hg. destruct (ac_give_back i e He Hg) as (H1 & H2 & H3 & H4).
        split; [done|]. split; [done|]. split; [|done]. unfold s1. simpl. by rewrite H3.
  - rewrite Hls. unfold held. simpl. unfold s1. simpl.
    apply Z.add_le_mono_r, Z.add_le_mono_l, zlen_filter_le.
Qed.

Lemma drop_lane_sound d lane s : sound d s (drop_lane lane s).
Proof.
  unfold drop_lane. cbv zeta.
  etrans; [apply benign_sound, (benign_remove_hook lane s)|].
  etrans; [|apply benign_sound, benign_lane_mut; by split].
  etrans; [|apply drop_pending_sound]. apply kept_sound, kept_fold. intros. apply abort_invocation_kept.
Qed.

(** ** Polls *)

Lemma apply_hook_start_sound d now s start : sound d s (apply_hook_start rc now s start).
Proof.
  destruct start as [lane [[[token generation] action]|]]; unfold apply_hook_start; [|apply drop_lane_sound].
  destruct (_ && _); [apply benign_sound, benign_spawn_hook|reflexivity].
Qed.
Lemma apply_poll_sound d now claims poll s : sound d s (apply_poll rc now claims poll s).
Proof.
  unfold apply_poll. pose proof (benign_lane_results rc now claims (tp_lanes poll) (s, effects_default)) as H1.
  destruct (fold_left (apply_lane_result rc now claims) (tp_lanes poll) (s, effects_default)) as [s1 e].
  cbn [fst] in H1. etrans; [by apply benign_sound|]. cbv zeta.
  etrans; [apply benign_sound, (benign_record_effects e)|].
  etrans; [apply (sound_fold d (apply_hook_start rc now)); intros; apply apply_hook_start_sound|].
  apply benign_sound, benign_fold. intros. apply benign_wake_lane.
Qed.

(** ** The end of a runner *)

Lemma abort_all_ids s : ex_invocation_id <$> rn_futures (abort_all s) = ex_invocation_id <$> rn_futures s.
Proof.
  unfold abort_all. simpl. generalize (rn_futures s). induction ((map_to_list (rn_running s)).*1) as [|i l IH];
    intros fs; simpl; [done|]. by rewrite IH, abort_execution_ids.
Qed.
Lemma abort_all_count (p : TaskExecution → bool) s :
  (∀ e, p (set_aborted e) = p e) → count p (rn_futures (abort_all s)) = count p (rn_futures s).
Proof.
  intros Hp. unfold abort_all. simpl. generalize (rn_futures s).
  induction ((map_to_list (rn_running s)).*1) as [|i l IH]; intros fs; simpl; [done|].
  by rewrite IH, abort_execution_count.
Qed.
Lemma abort_fold_live ids futures e :
  e ∈ fold_left (λ futures id, abort_execution id futures) ids futures → ex_aborted e = false →
  e ∈ futures ∧ ex_invocation_id e ∉ ids.
Proof.
  revert futures. induction ids as [|i ids IH]; intros fs; simpl; [set_solver|].
  intros He Hab. destruct (IH _ He Hab) as [He1 Hn].
  destruct (abort_execution_live _ _ _ He1 Hab) as [He2 Hne]. split; [done|]. set_solver.
Qed.
Lemma abort_all_live s :
  (∀ e, e ∈ rn_futures s → ex_aborted e = false → is_Some (rn_running s !! ex_invocation_id e)) →
  ∀ e, e ∈ rn_futures (abort_all s) → ex_aborted e = true.
Proof.
  intros Hlive e He. destruct (ex_aborted e) eqn:Hab; [done|].
  unfold abort_all in He. simpl in He. destruct (abort_fold_live _ _ _ He Hab) as [He' Hn].
  destruct (Hlive e He' Hab) as [r Hr]. exfalso. apply Hn. apply list_elem_of_fmap.
  exists (ex_invocation_id e, r). split; [done|]. by apply elem_of_map_to_list.
Qed.

Lemma in_flight_commits_empty n s : rn_in_flight s = ∅ → in_flight_commits n s = 0.
Proof. intros Hs. unfold in_flight_commits, in_flight_sum. by rewrite Hs, map_to_list_empty. Qed.

Lemma discard_futures s : rn_futures (discard_work s) = rn_futures (abort_all s).
Proof. done. Qed.

(** Discarding settles every account, whatever outcomes were owed. *)
Lemma discard_work_accounts d o s : accounts_with d 0 (λ _, 0) o None s → accounts d (discard_work s).
Proof.
  intros []. pose proof (discard_futures s) as Hf.
  split; try done.
  - simpl. rewrite <- list_fmap_compose. exact ac_names.
  - unfold global_holders in *. rewrite Hf, (abort_all_count ex_global_permit s) by done. exact ac_global.
  - simpl. apply Forall_fmap. eapply Forall_impl; [exact ac_lanes|]. intros l [H1 H2 H3]. split; [|done|].
    + unfold local_holders in *. rewrite Hf, (abort_all_count _ s) by done. exact H1.
    + rewrite in_flight_commits_empty by done. done.
  - simpl. unfold zlen in *. simpl. lia.
  - simpl. pose proof (zlen_nonneg (rn_operations s)). pose proof (zlen_nonneg (rn_settled s)). lia.
  - simpl. intros id inv. rewrite !lookup_empty. split; [done|]. intros (r & Hr & _). done.
  - intros e He Hab _. rewrite Hf in He. rewrite (abort_all_live s) in Hab; [done| |exact He].
    intros e0 He0 Hab0. rewrite (ac_live e0 He0 Hab0) by done. eauto.
  - rewrite Hf, (abort_all_ids s). exact ac_distinct.
  - destruct ac_known as (H1 & H2 & H3 & H4). split; [|split; [|split; [done|]]].
    + simpl. intros inv [r Hr]. by rewrite lookup_empty in Hr.
    + apply (proj1 (Forall_fmap ex_invocation_id (drawn_id s) _)). rewrite Hf, abort_all_ids. by apply Forall_fmap.
    + simpl. intros id [r Hr]. by rewrite lookup_empty in Hr.
Qed.

Lemma discard_work_held s : held (discard_work s) ≤ held s.
Proof.
  unfold held. simpl. unfold in_flight_sum at 1. rewrite map_to_list_empty. simpl.
  pose proof (zlen_nonneg (rn_output s)).
  pose proof (in_flight_sum_nonneg (λ r, zlen (request_commits r)) (rn_in_flight s)
    ltac:(intros; apply zlen_nonneg)). unfold zlen at 2. simpl. lia.
Qed.

(** Whatever the mode becomes, when it is one of the stopped ones. *)
Lemma rset_mode_accounts d g x o p m s :
  (rn_in_flight s = ∅ ∨ m = rn_mode s) → accounts_with d g x o p s → accounts_with d g x o p (rset_mode m s).
Proof.
  intros Hm []. split; try done.
  - by eapply lane_accounts_kept; [..|exact ac_lanes].
  - intros i e He Hg. destruct (ac_give_back i e He Hg) as (H1 & H2 & H3 & H4).
    destruct Hm as [Hm| ->]; [|done]. simpl in He. by rewrite Hm, lookup_empty in He.
Qed.
Lemma discard_work_mode m s : discard_work (rset_mode m s) = rset_mode m (discard_work s).
Proof. done. Qed.

Lemma discard_mode_accounts d o m s :
  accounts_with d 0 (λ _, 0) o None s → accounts d (discard_work (rset_mode m s)).
Proof.
  intros Ha. rewrite discard_work_mode. apply rset_mode_accounts; [by left|]. by eapply discard_work_accounts.
Qed.
Lemma discard_mode_sound d m s : sound d s (discard_work (rset_mode m s)).
Proof.
  split; [done|]. intros Ha _ _. split; [exact (discard_mode_accounts d (λ _, 0) m s Ha)|].
  change (held s) with (held (rset_mode m s)). apply discard_work_held.
Qed.

Lemma expire_sound d now s : sound d s (expire now s).2.
Proof. unfold expire. simpl. destruct (_ && _); [apply discard_mode_sound|reflexivity]. Qed.
End Losses.
