(* ===== verification/RunnerRequests.v ===== *)
(** * The runner's accounts across database requests

    Building a request moves outcomes from the buffer into its hand, starting
    the operation puts them in flight, and the answer releases them. *)
From S2P Require Import Prelude Externals Failure Config Rate Models Transitions Lifecycle.
From S2P Require Import MemoryState Json Metrics Registry Submission Handlers Client Runner.
From S2P Require Import RunnerLanes RunnerExec RunnerEngine RunnerFacts RunnerBodies.
#[local] Open Scope Z_scope.

(** The outcomes of a request that was built. *)
Definition commits_of (r : option DbRequest) : list TaskCommit :=
  match r with Some r => request_commits r | None => [] end.

Section Requests.
Context `{X : Externals, L : !ExternalLaws X, Y : Serialization, R : RunnerExternals} (rc : RunnerConf).
#[local] Abbreviation accounts_with := (accounts_with rc).
#[local] Abbreviation accounts := (accounts rc).
#[local] Abbreviation sound := (sound rc).

(** ** Fresh identifiers *)

Lemma fresh_undrawn s : Z.of_nat (S (rn_drawn s)) ≤ U64_MAX → ¬ drawn_id s (uuid_now_v7 (rn_drawn s)).
Proof. intros Hd (k & Hk & He). apply uuid_now_v7_fresh in He; lia. Qed.

Lemma accounts_drawn d g x o p n s :
  (rn_drawn s ≤ n)%nat → accounts_with d g x o p s → accounts_with d g x o p (rset_drawn n s).
Proof.
  intros Hn []. split; try done.
  - by eapply lane_accounts_kept; [..|exact ac_lanes].
  - assert (Hm : ∀ id, drawn_id s id → drawn_id (rset_drawn n s) id).
    { intros id (k & Hk & He). exists k. split; [|done]. simpl. lia. }
    destruct ac_known as (H1 & H2 & H3 & H4). split; [|split; [|split]].
    + intros inv Hr. by apply Hm, H1.
    + eapply Forall_impl; [exact H2|]. intros e He. by apply Hm.
    + eapply Forall_impl; [exact H3|]. intros e He. by apply Hm.
    + intros id Hr. by apply Hm, H4.
Qed.

(** ** Building a request *)

Definition no_give_back (s : RunnerState) : Prop :=
  ∀ id e, rn_in_flight s !! id = Some e → if_request e ≠ ReqGiveBack.
Lemma no_give_back_spec s : existsb is_give_back (requests s) = false → no_give_back s.
Proof.
  intros Hn id e He Hg. apply not_true_iff_false in Hn. apply Hn. apply existsb_exists.
  exists (if_request e). split; [|by rewrite Hg]. apply list_elem_of_In. unfold requests.
  apply list_elem_of_fmap_2, list_elem_of_fmap. exists (id, e). split; [done|]. by apply elem_of_map_to_list.
Qed.

Record requested (d : Z) (s : RunnerState) (out : option DbRequest * RunnerState) : Prop := {
  rq_drawn : rn_drawn out.2 = rn_drawn s;
  rq_in_flight : rn_in_flight out.2 = rn_in_flight s;
  rq_death : rn_death_at out.2 = rn_death_at s;
  rq_slots : rn_db_slots out.2 = rn_db_slots s;
  rq_held : held out.2 + zlen (commits_of out.1) = held s;
  rq_kind : out.1 ≠ Some ReqGiveBack;
  rq_accounts : accounts d s →
    accounts_with d 0 (λ _, 0) (λ n, count_lane n (commits_of out.1)) None out.2;
}.

Lemma requested_benign d s s' r :
  benign s s' → commits_of r = [] → r ≠ Some ReqGiveBack → requested d s (r, s').
Proof.
  intros Hb Hc Hr. split; simpl; rewrite ?Hc.
  - apply (bn_drawn _ _ Hb).
  - apply (bn_in_flight _ _ Hb).
  - apply (bn_death _ _ Hb).
  - apply (bn_db_slots _ _ Hb).
  - rewrite (benign_held _ _ Hb). change (zlen (A:=TaskCommit) []) with 0. lia.
  - done.
  - intros Ha. by eapply benign_accounts.
Qed.

Lemma requested_trans d s m next :
  requested d s m → (m.1 = None → requested d m.2 (next m.2)) → requested d s (or_else m next).
Proof.
  intros Hm Hn. destruct m as [[r|] s1]; [exact Hm|]. simpl in *. specialize (Hn eq_refl).
  destruct Hm as [H1 H2 Hd H3 H4 _ H6]. destruct Hn as [N1 N2 Nd N3 N4 N5 N6]. simpl in *.
  split; try congruence.
  - change (zlen (A:=TaskCommit) []) with 0 in H4. lia.
  - intros Ha. apply N6. eapply accounts_ext; [| |exact (H6 Ha)]; done.
Qed.

Lemma requested_heartbeat d now s : requested d s (heartbeat_request now s, s).
Proof.
  unfold heartbeat_request. apply requested_benign; [reflexivity| |]; by destruct (due _ _).
Qed.
Lemma requested_coordinate d now s : requested d s (coordinate_request rc now s).
Proof.
  pose proof (benign_coordinate rc now s) as Hb.
  assert (H : commits_of (coordinate_request rc now s).1 = [] ∧
              (coordinate_request rc now s).1 ≠ Some ReqGiveBack).
  { unfold coordinate_request. destruct (List.find _ _); [|done]. by destruct (find_lane_state _ _). }
  destruct (coordinate_request rc now s) as [r s']. simpl in *. destruct H. by apply requested_benign.
Qed.
Lemma claim_rotation_kind turns capacity now s :
  commits_of (claim_rotation rc turns capacity now s).1 = [] ∧
  (claim_rotation rc turns capacity now s).1 ≠ Some ReqGiveBack.
Proof.
  revert s. induction turns as [|turns IH]; intros s; simpl; [done|].
  destruct (rn_lanes s) as [|l rest]; [done|].
  destruct (if _ && _ then admit_lane _ _ _ _ _ else _) as [[c|] l']; [done|apply IH].
Qed.
Lemma requested_claim d now s : requested d s (claim_request rc now s).
Proof.
  pose proof (benign_claim rc now s) as Hb.
  assert (H : commits_of (claim_request rc now s).1 = [] ∧ (claim_request rc now s).1 ≠ Some ReqGiveBack).
  { unfold claim_request. destruct (negb _); [done|apply claim_rotation_kind]. }
  destruct (claim_request rc now s) as [r s']. simpl in *. destruct H. by apply requested_benign.
Qed.

Lemma requested_flush d now s : requested d s (flush_request rc now s).
Proof.
  unfold flush_request. destruct (_ || _); [by apply requested_benign|]. cbv zeta.
  destruct (flush_count rc s 0 _) as [|k]; [by apply requested_benign|].
  set (commits := take (S k) (rn_output s)). set (rest := drop (S k) (rn_output s)).
  assert (Ho : rn_output s = commits ++ rest) by (symmetry; apply take_drop).
  split; try done; simpl.
  - unfold held. simpl. fold commits rest. rewrite Ho, zlen_app. lia.
  - fold commits rest. intros []. split; try done.
    + eapply Forall_impl; [exact ac_lanes|]. intros l [H1 H2 H3]. split; [done|done|].
      rewrite H3, Ho, count_lane_app. simpl. unfold in_flight_commits. simpl. lia.
    + intros i e He Hg. destruct (ac_give_back i e He Hg) as (H1 & H2 & H3 & H4).
      split; [done|]. split; [done|]. split; [|done]. simpl. unfold rest. by rewrite H3.
Qed.

(** The order in which [runner_admit] looks for a fresh request. *)
Lemma requested_fresh d now s :
  requested d s (or_else (or_else (or_else (heartbeat_request now s, s) (coordinate_request rc now))
                   (flush_request rc now)) (claim_request rc now)).
Proof.
  apply requested_trans; [apply requested_trans; [apply requested_trans|]|]; intros;
    [apply requested_heartbeat|apply requested_coordinate|apply requested_flush|apply requested_claim].
Qed.

(** ** Starting and retrying an operation *)

Lemma zlen_snoc {A} (l : list A) a : zlen (l ++ [a]) = zlen l + 1.
Proof. by rewrite zlen_app. Qed.

Lemma start_database_accounts d now r s :
  0 < rn_db_slots s → Z.of_nat (S (rn_drawn s)) ≤ U64_MAX →
  (r ≠ ReqGiveBack ∧ no_give_back s ∨
   r = ReqGiveBack ∧ rn_mode s = Draining ∧ rn_running s = ∅ ∧ rn_output s = [] ∧ rn_in_flight s = ∅) →
  accounts_with d 0 (λ _, 0) (λ n, count_lane n (request_commits r)) None s →
  accounts d (start_database rc now r s) ∧
  held (start_database rc now r s) = held s + zlen (request_commits r).
Proof.
  intros Hs Hd Hr Ha. unfold start_database. cbv zeta.
  pose proof (fresh_undrawn s Hd) as Hf. set (id := uuid_now_v7 (rn_drawn s)) in *.
  assert (Hid : rn_in_flight s !! id = None).
  { destruct (rn_in_flight s !! id) eqn:He; [|done]. exfalso. apply Hf.
    destruct Ha. by apply ac_known; eauto. }
  apply (accounts_drawn _ _ _ _ _ (S (rn_drawn s))) in Ha; [|lia].
  set (s1 := rset_in_flight _ _). set (s2 := if bool_decide (rn_death_at s1 = None) then _ else s1).
  assert (H1 : accounts_with d 0 (λ _, 0) (λ _, 0) None s1).
  { destruct Ha. split; try done.
    - eapply Forall_impl; [exact ac_lanes|]. intros l [A1 A2 A3]. split; [done|done|].
      rewrite A3. unfold in_flight_commits. simpl. rewrite in_flight_sum_insert by done. simpl. lia.
    - destruct ac_known as (K1 & K2 & K3 & K4). split; [done|]. split; [done|]. split; [done|].
      simpl. intros i [e He]. apply lookup_insert_Some in He as [[<- _]|[_ He]]; [|by apply K4; exists e].
      exists (rn_drawn s). split; [simpl; lia|done].
    - simpl. intros i e He Hg. apply lookup_insert_Some in He as [[<- <-]|[_ He]].
      + simpl in Hg. destruct Hr as [[Hr _]|(_ & M1 & M2 & M3 & M4)]; [done|].
        split; [done|]. split; [done|]. split; [done|]. intros j e'. rewrite M4.
        intros [[<- <-]|[_ He]]%lookup_insert_Some; [done|by rewrite lookup_empty in He].
      + destruct Hr as [[Hr Hn]|(_ & _ & _ & _ & M4)]; [by destruct (Hn i e He)|].
        by rewrite M4, lookup_empty in He. }
  assert (H2 : accounts_with d 0 (λ _, 0) (λ _, 0) None s2).
  { unfold s2. case_bool_decide; [|exact H1]. destruct H1. split; try done.
    by eapply lane_accounts_kept; [..|exact ac_lanes]. }
  assert (Hs2 : rn_db_slots s2 = rn_db_slots s) by (unfold s2; by case_bool_decide).
  split.
  - destruct H2. split; try done.
    + by eapply lane_accounts_kept; [..|exact ac_lanes].
    + simpl. rewrite zlen_snoc. lia.
    + simpl. lia.
  - transitivity (held s1); [unfold s2; by case_bool_decide|]. unfold held. simpl.
    rewrite in_flight_sum_insert by done. simpl. lia.
Qed.

Lemma in_flight_phase_kept id e e' s :
  rn_in_flight s !! id = Some e → if_request e' = if_request e →
  kept rc s (rset_in_flight (<[id := e']> (rn_in_flight s)) s).
Proof.
  intros He Hr. split; [|split; [|done]].
  - intros d g x o p []. split; try done.
    + eapply Forall_impl; [exact ac_lanes|]. intros l [H1 H2 H3]. split; [done|done|].
      rewrite H3. unfold in_flight_commits. simpl. by rewrite (in_flight_sum_phase _ _ _ _ _ He Hr).
    + destruct ac_known as (K1 & K2 & K3 & K4). split; [done|]. split; [done|]. split; [done|].
      simpl. intros i [f Hf]. apply lookup_insert_Some in Hf as [[<- _]|[_ Hf]]; apply K4; eauto.
    + simpl. assert (Hsame : ∀ i f, <[id:=e']> (rn_in_flight s) !! i = Some f →
        ∃ f0, rn_in_flight s !! i = Some f0 ∧ if_request f0 = if_request f).
      { intros i f [[<- <-]|[_ Hf]]%lookup_insert_Some; eauto. }
      intros i f Hf Hg. destruct (Hsame i f Hf) as (f0 & Hf0 & Hq). rewrite <- Hq in Hg.
      destruct (ac_give_back i f0 Hf0 Hg) as (G1 & G2 & G3 & G4).
      split; [done|]. split; [done|]. split; [done|]. intros j f' Hf'.
      destruct (Hsame j f' Hf') as (f1 & Hf1 & Hq1). rewrite <- Hq1. by eapply G4.
  - unfold held. simpl. by rewrite (in_flight_sum_phase _ _ _ _ _ He Hr).
Qed.

Lemma retry_database_sound d now id s : 0 < rn_db_slots s → sound d s (retry_database now id s).
Proof.
  intros Hs. unfold retry_database. destruct (rn_in_flight s !! id) as [[r [| |at_ prepared]]|] eqn:He;
    try reflexivity.
  set (s1 := rset_in_flight _ s).
  pose proof (in_flight_phase_kept id _ {| if_request := r; if_phase := PhaseRecovering |} s He eq_refl) as Hk.
  fold s1 in Hk. etrans; [by apply kept_sound|]. split; [done|]. intros Ha _ _. split; [|done].
  destruct Ha. split; try done.
  - by eapply lane_accounts_kept; [..|exact ac_lanes].
  - simpl in *. rewrite zlen_snoc. lia.
  - simpl in *. lia.
Qed.

(** ** Admission *)

Lemma start_requested_sound d now s r s' :
  requested d s (Some r, s') → 0 < rn_db_slots s → existsb is_give_back (requests s) = false →
  sound d s (start_database rc now r s').
Proof.
  intros [] Hs Hn. simpl in *. split.
  { unfold start_database, database_future. cbv zeta. case_bool_decide; simpl; lia. }
  intros Ha _ Hd.
  assert (Hd' : rn_drawn (start_database rc now r s') = S (rn_drawn s')).
  { unfold start_database, database_future. cbv zeta. by case_bool_decide. }
  destruct (start_database_accounts d now r s') as [H1 H2].
  - by rewrite rq_slots0.
  - by rewrite <- Hd'.
  - left. split; [by intros ->|]. intros id e. rewrite rq_in_flight0. by apply no_give_back_spec.
  - by apply rq_accounts0.
  - split; [done|]. lia.
Qed.

Lemma admit_loop_sound d fuel now s : sound d s (admit_loop rc fuel now s).
Proof.
  revert s. induction fuel as [|fuel IH]; intros s; [reflexivity|]. cbn [admit_loop].
  destruct (Z.leb_spec (rn_db_slots s) 0) as [|Hs]; [reflexivity|].
  destruct (existsb is_give_back (requests s)) eqn:Hg.
  { destruct (retry_due now s); [by apply retry_database_sound|reflexivity]. }
  pose proof (requested_fresh d now s) as Hf.
  destruct (or_else _ (claim_request rc now)) as [[r|] s'].
  - assert (H : sound d s (admit_loop rc fuel now (start_database rc now r s'))).
    { etrans; [by eapply start_requested_sound|apply IH]. }
    destruct (retry_due now s) as [id|]; [|exact H]. case_bool_decide; [|exact H].
    etrans; [by apply (retry_database_sound d now id)|apply IH].
  - assert (H : sound d s s').
    { destruct Hf. simpl in *. split; [by rewrite rq_drawn0|]. intros Ha _ _. split.
      - eapply accounts_ext; [| |exact (rq_accounts0 Ha)]; done.
      - change (zlen (A:=TaskCommit) []) with 0 in *. lia. }
    destruct (retry_due now s) as [id|]; [|exact H]. case_bool_decide; [|exact H].
    etrans; [by apply (retry_database_sound d now id)|apply IH].
Qed.

Lemma admit_sound d now s : sound d s (runner_admit rc now s).
Proof.
  unfold runner_admit. pose proof (expire_sound rc d now s) as He. destruct (expire now s) as [stop s1]. simpl in He.
  destruct stop; [done|]. etrans; [exact He|apply admit_loop_sound].
Qed.

Lemma finished_spec s :
  finished s = true → rn_mode s = Draining ∧ rn_running s = ∅ ∧ rn_output s = [] ∧ rn_in_flight s = ∅.
Proof.
  unfold finished, in_mode. intros (((H1 & H2)%andb_true_iff & H3)%andb_true_iff & H4)%andb_true_iff.
  apply bool_decide_eq_true in H1, H2, H3, H4. apply list_elem_of_singleton in H1. done.
Qed.

Lemma give_back_sound d now s : sound d s (give_back rc now s).2.
Proof.
  unfold give_back. destruct (finished s) eqn:Hf; [|reflexivity]. cbn [negb]. cbv zeta.
  set (s1 := rset_ingress_open false s).
  assert (Hb : benign s s1) by (split; try done; apply lanes_same_refl).
  destruct (Z.leb_spec (rn_db_slots s1) 0) as [|Hs]; [by apply benign_sound|]. cbn [snd].
  etrans; [by apply benign_sound|]. destruct (finished_spec s Hf) as (H1 & H2 & H3 & H4).
  assert (Hd' : rn_drawn (start_database rc now ReqGiveBack s1) = S (rn_drawn s1)).
  { unfold start_database, database_future. cbv zeta. by case_bool_decide. }
  split; [rewrite Hd'; lia|]. intros Ha _ Hd. rewrite Hd' in Hd.
  destruct (start_database_accounts d now ReqGiveBack s1 Hs Hd) as [Ha' Hh].
  - by right.
  - eapply accounts_ext; [| |exact Ha]; done.
  - split; [done|]. rewrite Hh. change (zlen (request_commits ReqGiveBack)) with 0. lia.
Qed.
End Requests.

(** ** The runner's accounts when an operation is answered

    An answer is applied while its request is still in flight; what it
    acknowledges is released with the request's removal. *)

Section Answers.
Context `{X : Externals, L : !ExternalLaws X, Y : Serialization, R : RunnerExternals} (rc : RunnerConf).
#[local] Abbreviation accounts_with := (accounts_with rc).
#[local] Abbreviation accounts := (accounts rc).
#[local] Abbreviation sound := (sound rc).

(** ** What a poll leaves alone *)

Record same_flight (s s' : RunnerState) : Prop := {
  sf_in_flight : rn_in_flight s' = rn_in_flight s;
  sf_mode : rn_mode s' = rn_mode s;
  sf_drawn : rn_drawn s' = rn_drawn s;
  sf_death : rn_death_at s' = rn_death_at s;
}.
#[export] Instance same_flight_preorder : PreOrder same_flight.
Proof. split; [by split|]. intros s1 s2 s3 [] []. split; congruence. Qed.
Lemma benign_same_flight s s' : benign s s' → same_flight s s'.
Proof. intros []. by split. Qed.
Lemma same_flight_fold {A} (f : RunnerState → A → RunnerState) l s :
  (∀ s a, same_flight s (f s a)) → same_flight s (fold_left f l s).
Proof.
  intros Hf. revert s. induction l as [|a l IH]; intros s; simpl; [reflexivity|]. etrans; [apply Hf|apply IH].
Qed.

Lemma same_flight_abort id s : same_flight s (abort_invocation id s).
Proof. unfold abort_invocation. by destruct (rn_running s !! id). Qed.
Lemma same_flight_drop_pending ids s : same_flight s (drop_pending ids s).
Proof.
  unfold drop_pending. cbv zeta. set (s1 := rset_output _ s).
  destruct (release_commits_only (List.filter (λ c, bool_decide (commit_task_id c ∈ ids)) (rn_output s)) s1)
    as [ls Hls]. by rewrite Hls.
Qed.
Lemma same_flight_drop_lane lane s : same_flight s (drop_lane lane s).
Proof.
  unfold drop_lane. cbv zeta. etrans; [apply benign_same_flight, (benign_remove_hook lane s)|].
  etrans; [|apply benign_same_flight, benign_lane_mut; by split].
  etrans; [|apply same_flight_drop_pending]. apply same_flight_fold. intros. apply same_flight_abort.
Qed.
Lemma same_flight_hook_start now s start : same_flight s (apply_hook_start rc now s start).
Proof.
  destruct start as [lane [[[token generation] action]|]]; unfold apply_hook_start; [|apply same_flight_drop_lane].
  destruct (_ && _); [apply benign_same_flight, benign_spawn_hook|reflexivity].
Qed.
Lemma same_flight_poll now claims poll s : same_flight s (apply_poll rc now claims poll s).
Proof.
  unfold apply_poll. pose proof (benign_lane_results rc now claims (tp_lanes poll) (s, effects_default)) as H1.
  destruct (fold_left (apply_lane_result rc now claims) (tp_lanes poll) (s, effects_default)) as [s1 e].
  cbn [fst] in H1. etrans; [by apply benign_same_flight|]. cbv zeta.
  etrans; [apply benign_same_flight, (benign_record_effects e)|].
  etrans; [apply (same_flight_fold (apply_hook_start rc now)); intros; apply same_flight_hook_start|].
  apply benign_same_flight, benign_fold. intros. apply benign_wake_lane.
Qed.

(** ** Answers *)

(** The accounts when the answered request [r] is still in flight. *)
Definition acknowledged (d : Z) (r : DbRequest) (s s' : RunnerState) : Prop :=
  held s' ≤ held s ∧ rn_drawn s' = rn_drawn s ∧
  (stopped s' = true ∧ accounts d s' ∨
   rn_in_flight s' = rn_in_flight s ∧ rn_mode s' = rn_mode s ∧
   accounts_with d 0 (λ _, 0) (λ n, - count_lane n (request_commits r)) None s').

Lemma acknowledged_plain d r s s' :
  request_commits r = [] → benign s s' → accounts d s → acknowledged d r s s'.
Proof.
  intros Hr Hb Ha. split; [rewrite (benign_held _ _ Hb); lia|]. split; [apply (bn_drawn _ _ Hb)|].
  right. split; [apply (bn_in_flight _ _ Hb)|]. split; [apply (bn_mode _ _ Hb)|]. rewrite Hr. by eapply benign_accounts.
Qed.

Lemma in_flight_commits_entry n s id e :
  rn_in_flight s !! id = Some e → count_lane n (request_commits (if_request e)) ≤ in_flight_commits n s.
Proof.
  intros He. unfold in_flight_commits. rewrite (in_flight_sum_delete _ _ _ _ He).
  pose proof (in_flight_sum_nonneg (λ r, count_lane n (request_commits r)) (delete id (rn_in_flight s))
    ltac:(intros; apply count_lane_nonneg)). lia.
Qed.

Lemma benign_flush_tail now commits result s :
  benign s (fold_left (λ s lane, wake_lane rc now lane s) (omap commit_lane commits ++ cr_wake_lanes result)
              (fold_left (λ s r, accept_input rc r s) (cr_tasks result) s)).
Proof.
  etrans; [|apply (benign_fold (λ s lane, wake_lane rc now lane s)); intros; apply benign_wake_lane].
  apply (benign_fold (λ s r, accept_input rc r s)). intros. apply benign_accept_input.
Qed.

Lemma apply_flush_acknowledged d now commits capacity cached result elapsed s id e :
  rn_in_flight s !! id = Some e → if_request e = ReqCommit commits capacity cached → accounts d s →
  acknowledged d (ReqCommit commits capacity cached) s (apply_flush rc now commits result elapsed s).
Proof.
  intros He Hr Ha. unfold apply_flush. cbv zeta. unfold acknowledge_commits.
  destruct (release_commits_only commits s) as [ls Hls].
  set (s1 := release_commits commits s) in *. set (s2 := noted _ s1).
  assert (Hb : benign s1 (fold_left (λ s lane, wake_lane rc now lane s)
                            (omap commit_lane commits ++ cr_wake_lanes result)
                            (fold_left (λ s r, accept_input rc r s) (cr_tasks result) s2))).
  { etrans; [apply benign_noted|apply benign_flush_tail]. }
  revert Hb. generalize (fold_left (λ s lane, wake_lane rc now lane s)
    (omap commit_lane commits ++ cr_wake_lanes result)
    (fold_left (λ s r, accept_input rc r s) (cr_tasks result) s2)). intros s3 Hb.
  split; [rewrite (benign_held _ _ Hb); rewrite Hls; unfold held; simpl; lia|].
  split; [rewrite (bn_drawn _ _ Hb), Hls; done|]. right.
  split; [rewrite (bn_in_flight _ _ Hb), Hls; done|].
  split; [rewrite (bn_mode _ _ Hb), Hls; done|]. eapply benign_accounts; [exact Hb|].
  apply release_commits_accounts.
  - intros n. pose proof (in_flight_commits_entry n s id e He) as H. rewrite Hr in H.
    simpl in H. pose proof (count_lane_nonneg n (rn_output s)). simpl. lia.
  - eapply accounts_ext; [| |exact Ha]; [done|]. intros n. simpl. lia.
Qed.

Lemma give_back_done_accounts d s :
  (∀ id e, rn_in_flight s !! id = Some e → if_request e = ReqGiveBack) → accounts d s →
  accounts d (give_back_done s).
Proof.
  intros Hg []. assert (Hz : ∀ n, in_flight_commits n s = 0).
  { intros n. unfold in_flight_commits, in_flight_sum.
    assert (Hall : ∀ p, p ∈ map_to_list (rn_in_flight s) → if_request p.2 = ReqGiveBack).
    { intros [i e] Hp. apply elem_of_map_to_list in Hp. by eapply Hg. }
    induction (map_to_list (rn_in_flight s)) as [|p l IH]; [done|]. rewrite fmap_cons, zsum_cons.
    rewrite IH by (intros; apply Hall; by right). by rewrite (Hall p) by by left. }
  split; try done.
  - simpl. rewrite <- list_fmap_compose. exact ac_names.
  - simpl. apply Forall_fmap. eapply Forall_impl; [exact ac_lanes|]. intros l [H1 H2 H3].
    split; [done|done|]. simpl. rewrite H3. f_equal. f_equal.
    change (ls_name (lset_tasks [] l)) with (ls_name l). by rewrite Hz.
  - destruct ac_known as (K1 & K2 & K3 & K4). split; [done|]. split; [done|]. split; [done|].
    simpl. intros i [e He]. by rewrite lookup_empty in He.
Qed.

Lemma give_back_done_held s : held (give_back_done s) ≤ held s.
Proof.
  unfold held. simpl. unfold in_flight_sum at 1. rewrite map_to_list_empty. simpl.
  pose proof (in_flight_sum_nonneg (λ r, zlen (request_commits r)) (rn_in_flight s)
    ltac:(intros; apply zlen_nonneg)). lia.
Qed.

Lemma apply_response_acknowledged d now r response elapsed s s' id e :
  rn_in_flight s !! id = Some e → if_request e = r →
  apply_response rc now r response elapsed s = (Ok tt, s') →
  accounts d s → held s ≤ USIZE_MAX → Z.of_nat (rn_drawn s) ≤ U64_MAX → acknowledged d r s s'.
Proof.
  intros He Hr Hs Ha Hh Hd.
  assert (Hpoll : ∀ claims poll, (r = ReqClaim claims ∨ r = ReqCoordinate claims) →
    match validate_poll claims poll with
    | Ok _ => (Ok tt, apply_poll rc now claims poll s)
    | Err e0 => (Err e0, s)
    end = (Ok tt, s') → acknowledged d r s s').
  { intros claims poll Hk Hp. destruct (validate_poll claims poll); [|done]. simplify_eq.
    destruct (apply_poll_sound rc d now claims poll s) as [_ Hsound].
    destruct (same_flight_poll now claims poll s) as [Hfl Hmode Hdr _].
    rewrite Hdr in Hsound. destruct (Hsound Ha Hh Hd) as [Ha' Hh']. split; [exact Hh'|]. split; [exact Hdr|].
    right. split; [exact Hfl|]. split; [exact Hmode|]. eapply accounts_ext; [| |exact Ha']; [done|].
    intros n. by destruct Hk as [-> | ->]. }
  unfold apply_response in Hs. destruct r as [| |claims|commits capacity cached|claims];
    destruct response as [[]| |poll|result]; try discriminate Hs.
  - injection Hs as <-. apply acknowledged_plain; [done|apply benign_schedule_heartbeat|done].
  - injection Hs as <-. split; [apply (discard_work_held (rset_mode Retired s))|]. split; [done|].
    left. split; [done|]. by apply (discard_mode_accounts rc d (λ _, 0)).
  - injection Hs as <-. split; [apply give_back_done_held|]. split; [done|]. left. split; [done|].
    apply give_back_done_accounts; [|done].
    destruct Ha. destruct (ac_give_back id e He Hr) as (_ & _ & _ & H4). exact H4.
  - eapply Hpoll; [by left|exact Hs].
  - injection Hs as <-. by eapply apply_flush_acknowledged.
  - eapply Hpoll; [by right|exact Hs].
Qed.

(** The answered request leaves; an acknowledged one takes what it owed with it. *)
Lemma in_flight_removed d id e s :
  rn_in_flight s !! id = Some e →
  accounts_with d 0 (λ _, 0) (λ n, - count_lane n (request_commits (if_request e))) None s →
  accounts d (rset_in_flight (delete id (rn_in_flight s)) s).
Proof.
  intros He []. split; try done.
  - eapply Forall_impl; [exact ac_lanes|]. intros l [H1 H2 H3]. split; [done|done|].
    rewrite H3. unfold in_flight_commits. simpl.
    rewrite (in_flight_sum_delete (λ r, count_lane (ls_name l) (request_commits r)) _ _ _ He). lia.
  - destruct ac_known as (K1 & K2 & K3 & K4). split; [done|]. split; [done|]. split; [done|].
    simpl. intros i [f [_ Hf]%lookup_delete_Some]. apply K4. by exists f.
  - simpl. intros i f [_ Hf]%lookup_delete_Some Hg. destruct (ac_give_back i f Hf Hg) as (G1 & G2 & G3 & G4).
    split; [done|]. split; [done|]. split; [done|]. intros j f' [_ Hf']%lookup_delete_Some. by eapply G4.
Qed.
Lemma held_removed id s : held (rset_in_flight (delete id (rn_in_flight s)) s) ≤ held s.
Proof.
  unfold held. simpl. destruct (rn_in_flight s !! id) as [e|] eqn:He.
  - rewrite (in_flight_sum_delete _ _ _ _ He). pose proof (zlen_nonneg (request_commits (if_request e))). lia.
  - rewrite delete_id by done. lia.
Qed.

Lemma apply_response_drawn now r response elapsed s res s' :
  apply_response rc now r response elapsed s = (res, s') → rn_drawn s' = rn_drawn s.
Proof.
  unfold apply_response. intros H.
  assert (Hpoll : ∀ claims poll, rn_drawn (apply_poll rc now claims poll s) = rn_drawn s)
    by (intros; apply (sf_drawn _ _ (same_flight_poll now claims poll s))).
  assert (Hflush : ∀ commits result, rn_drawn (apply_flush rc now commits result elapsed s) = rn_drawn s).
  { intros. unfold apply_flush. rewrite (bn_drawn _ _ (benign_flush_tail _ _ _ _)).
    unfold acknowledge_commits. by destruct (release_commits_only commits s) as [ls ->]. }
  destruct r as [| |claims|commits capacity cached|claims]; destruct response as [[]| |poll|result];
    try destruct (validate_poll claims poll); injection H as _ <-; done || apply Hpoll || apply Hflush.
Qed.

(** Changes of the deadlines and of health are benign but for the contact deadline. *)
Lemma rset_death_at_kept v s : kept rc s (rset_death_at v s).
Proof.
  split; [|done]. intros d g x o p []. split; try done. by eapply lane_accounts_kept; [..|exact ac_lanes].
Qed.
Lemma benign_rset_health v s : benign s (rset_health v s).
Proof. split; try done. apply lanes_same_refl. Qed.

Lemma database_failed_sound d now id failure s : sound d s (database_failed rc now id failure s).
Proof.
  unfold database_failed. destruct (match failure with BeforeCommit _ => _ | CommitUnknown _ _ => _ end)
    as [error prepared]. cbv zeta.
  set (s1 := noted record_store_failure _).
  assert (Hb : benign s s1) by (etrans; [apply benign_rset_health|apply benign_noted]).
  etrans; [by apply benign_sound|]. destruct (negb _); [apply discard_mode_sound|].
  destruct (rn_in_flight s1 !! id) as [e|] eqn:He; [|reflexivity].
  by eapply kept_sound, in_flight_phase_kept.
Qed.

Lemma apply_response_error now r response elapsed s e s' :
  apply_response rc now r response elapsed s = (Err e, s') → s' = s.
Proof.
  unfold apply_response.
  destruct r as [| |claims|commits capacity cached|claims]; destruct response as [[]| |poll|result];
    try destruct (validate_poll claims poll); by intros [= <- <-] || by intros [= _ <-].
Qed.

(** The rest of [apply_completion] after a successful answer. *)
Definition settle (now : Instant) (wall : DateTime) (id : Uuid) (s : RunnerState) : RunnerState :=
  if stopped s then s
  else
    let s := rset_in_flight (delete id (rn_in_flight s)) s in
    let s := rset_death_at (if bool_decide (rn_in_flight s = ∅) then None
                            else Some (death_deadline rc now)) s in
    if forallb (λ e, match if_phase e with PhaseRunning => true | _ => false end)
         (map_to_list (rn_in_flight s)).*2
    then rset_health (health_succeeded wall (rn_health s)) s else s.

Lemma settle_accounts d now wall id e s s1 s2 :
  rn_in_flight s !! id = Some e → stopped s = false → acknowledged d (if_request e) s s1 → benign s1 s2 →
  accounts d (settle now wall id s2) ∧ held (settle now wall id s2) ≤ held s ∧
  rn_drawn (settle now wall id s2) = rn_drawn s.
Proof.
  intros He Hst (Hh & Hd & Hack) Hb. rewrite <- (benign_held _ _ Hb) in Hh. rewrite <- (bn_drawn _ _ Hb) in Hd.
  unfold settle. rewrite (benign_stopped _ _ Hb).
  destruct Hack as [[Hst1 Ha]|(Hfl & Hm & Ha)].
  { rewrite Hst1. split; [by eapply benign_accounts|done]. }
  assert (Hst1 : stopped s1 = false) by (unfold stopped in *; by rewrite Hm). rewrite Hst1. cbv zeta.
  set (s3 := rset_in_flight _ s2). set (s4 := rset_death_at _ s3).
  assert (H4 : accounts d s4).
  { apply rset_death_at_kept. eapply in_flight_removed; [rewrite (bn_in_flight _ _ Hb), Hfl; exact He|].
    by eapply benign_accounts. }
  assert (Hh4 : held s4 ≤ held s).
  { etrans; [|exact Hh]. change (held s4) with (held s3). apply held_removed. }
  destruct (forallb _ _); [|done].
  split; [eapply benign_accounts; [apply benign_rset_health|exact H4]|].
  by rewrite (benign_held _ _ (benign_rset_health _ _)).
Qed.

Lemma apply_completion_sound d now wall c s : sound d s (apply_completion rc now wall c s).
Proof.
  unfold apply_completion. pose proof (expire_sound rc d now s) as Hx.
  assert (Hstop : (expire now s).1 = stopped (expire now s).2) by done.
  destruct (expire now s) as [stop s0]. cbn [fst snd] in *. destruct stop; [done|]. etrans; [exact Hx|]. clear Hx.
  destruct (rn_in_flight s0 !! dc_id c) as [e|] eqn:He; [|reflexivity].
  set (elapsed := Z.max 0 (now - dc_started c)).
  assert (Hfail : ∀ failure b,
    sound d s0 (database_failed rc now (dc_id c) failure
      (if is_heartbeat (if_request e) then noted (record_heartbeat elapsed b) s0 else s0))).
  { intros failure b. etrans; [|apply database_failed_sound]. apply benign_sound.
    destruct (is_heartbeat _); [apply benign_noted|reflexivity]. }
  destruct (dc_result c) as [response|failure]; [|apply Hfail].
  destruct (apply_response rc now (if_request e) response elapsed s0) as [[[]|err] s1] eqn:Hr.
  2: { rewrite (apply_response_error _ _ _ _ _ _ _ Hr). apply Hfail. }
  set (s2 := if is_heartbeat (if_request e) then _ else s1).
  assert (Hb : benign s1 s2) by (unfold s2; destruct (is_heartbeat _); [apply benign_noted|reflexivity]).
  fold (settle now wall (dc_id c) s2).
  assert (Hdr : rn_drawn (settle now wall (dc_id c) s2) = rn_drawn s0).
  { transitivity (rn_drawn s2).
    - unfold settle. destruct (stopped s2); [done|]. cbv zeta. by destruct (forallb _ _).
    - rewrite (bn_drawn _ _ Hb). by eapply apply_response_drawn. }
  split; [by rewrite Hdr|]. intros Ha Hh Hd. rewrite Hdr in Hd.
  pose proof (apply_response_acknowledged d now _ _ _ _ _ _ _ He eq_refl Hr Ha Hh Hd) as Hack.
  destruct (settle_accounts d now wall (dc_id c) e s0 s1 s2 He (eq_sym Hstop) Hack Hb) as (H1 & H2 & _).
  by split.
Qed.

(** An operation's permit is in hand from its removal to the end of its application. *)
Lemma pop_settled_accounts c rest s :
  rn_settled s = c :: rest → accounts 0 s → accounts 1 (rset_settled rest s).
Proof.
  intros Hc []. split; try done.
  - by eapply lane_accounts_kept; [..|exact ac_lanes].
  - rewrite Hc in ac_db. simpl. unfold zlen in *. simpl in *. lia.
Qed.
Lemma return_db_permit s : accounts 1 s → accounts 0 (rset_db_slots (rn_db_slots s + 1) s).
Proof.
  intros []. split; try done.
  - by eapply lane_accounts_kept; [..|exact ac_lanes].
  - simpl. lia.
  - simpl. lia.
Qed.

Lemma apply_database_sound now wall c rest s :
  rn_settled s = c :: rest → sound 0 s (apply_database rc now wall c (rset_settled rest s)).
Proof.
  intros Hc. destruct (apply_completion_sound 1 now wall c (rset_settled rest s)) as [Hd Hs].
  unfold apply_database. cbv zeta.
  set (s' := apply_completion rc now wall c (rset_settled rest s)) in *.
  split; [exact Hd|]. intros Ha Hh Hdr.
  destruct (Hs (pop_settled_accounts c rest s Hc Ha) Hh Hdr) as [Ha' Hh'].
  split; [by apply return_db_permit|exact Hh'].
Qed.
End Answers.
