(* ===== verification/RunnerDispatch.v ===== *)
(** * The runner's accounts across dispatch

    An invocation takes its permits, then its identifier, and enters the
    running maps once no other invocation runs one of its tasks. *)
From S2P Require Import Prelude Externals Failure Config Rate Models Transitions Lifecycle.
From S2P Require Import MemoryState Json Metrics Registry Submission Handlers Client.
From S2P Require Import Runner RunnerLanes RunnerExec RunnerEngine RunnerFacts.
From S2P Require Import RunnerBodies.
From S2P Require Import RunnerRequests.
#[local] Open Scope Z_scope.

Section Dispatch.
Context `{X : Externals, L : !ExternalLaws X, Y : Serialization, R : RunnerExternals} (rc : RunnerConf).
#[local] Abbreviation accounts_with := (accounts_with rc).
#[local] Abbreviation accounts := (accounts rc).
#[local] Abbreviation sound := (sound rc).

(** ** Leaving the queue *)

Lemma next_invocation_same l global now : lane_same l (next_invocation l global now).2.
Proof.
  unfold next_invocation.
  assert (H : lane_same l (if global && (0 <? ls_slots l)
    then let '(n, l) := claim_limit 1 now l in (0 <? n, l) else (false, l)).2).
  { destruct (_ && _); [|reflexivity]. pose proof (claim_limit_same 1 now l) as H.
    by destruct (claim_limit 1 now l). }
  destruct (if global && _ then _ else _) as [work l1]. simpl in H.
  destruct work; [done|]. destruct (position _ _); [done|].
  pose proof (rate_wake_same now l1) as H2. destruct (local_rate_wake now l1) as [[wait|] l2]; simpl in *.
  - etrans; [exact H|]. etrans; [exact H2|]. by split.
  - by etrans.
Qed.
Lemma collect_invocation_same l first limit registry :
  lane_same l (collect_invocation l first limit registry).2.
Proof.
  unfold collect_invocation. destruct (_ || _); [reflexivity|].
  destruct (collect_batch _ _ _ _ _). by split.
Qed.

(** What leaves the lane takes a permit of each kind or none of either. *)
Lemma pop_queue_spec now slots l popped l' :
  pop_queue rc now slots l = (popped, l') →
  match popped with
  | None => lane_same l l'
  | Some p => pp_lane p = ls_name l ∧ pp_global p = pp_local p ∧ ls_conf l' = ls_conf l ∧
      ls_uncommitted l' = ls_uncommitted l ∧ ls_slots l' = ls_slots l - b2z (pp_local p) ∧
      (pp_global p = true → 0 < slots ∧ 0 < ls_slots l)
  end.
Proof.
  unfold pop_queue. pose proof (next_invocation_same l (0 <? slots) now) as H1.
  destruct (next_invocation l (0 <? slots) now) as [[next|] l1]; simpl in H1; [|by intros [= <- <-]].
  destruct (ls_tasks l1 !! next) as [first|]; [|by intros [= <- <-]].
  set (flow := bool_decide (t_kind first = Flow)). cbv zeta.
  destruct (negb flow && _) eqn:Hadm; [by intros [= <- <-]|].
  set (l2 := lset_tasks _ _). set (count := zlen (ls_tasks l2) + 1).
  assert (Hlimit : ∃ l3, (if flow then (count, l2) else claim_limit count now l2).2 = l3 ∧ lane_same l2 l3).
  { eexists. split; [done|]. destruct flow; [reflexivity|apply claim_limit_same]. }
  destruct Hlimit as (l3 & Hl3 & H3).
  destruct (if flow then (count, l2) else claim_limit count now l2) as [limit l3']. simpl in Hl3. subst l3'.
  pose proof (collect_invocation_same l3 first limit (rc_registry rc)) as H4.
  destruct (collect_invocation l3 first limit (rc_registry rc)) as [records l4]. simpl in H4.
  set (l5 := if flow then l4 else consume_local_rate (zlen records) now l4).
  assert (H5 : lane_same l4 l5) by (unfold l5; destruct flow; [reflexivity|apply consume_same]).
  intros [= <- <-]. cbn [pp_lane pp_global pp_local].
  destruct H1 as [C1 S1 U1], H3 as [C3 S3 U3], H4 as [C4 S4 U4], H5 as [C5 S5 U5].
  assert (C2 : ls_conf l2 = ls_conf l1) by (unfold l2; by destruct flow).
  assert (U2 : ls_uncommitted l2 = ls_uncommitted l1) by (unfold l2; by destruct flow).
  assert (S2 : ls_slots l2 = ls_slots l1 - b2z (negb flow)) by (unfold l2; destruct flow; simpl; lia).
  split; [unfold ls_name; congruence|]. split; [done|]. split; [congruence|]. split; [congruence|].
  split; [congruence|]. intros Hg. rewrite Hg in Hadm. simpl in Hadm.
  apply orb_false_iff in Hadm as [A1%Z.leb_gt A2%Z.leb_gt]. lia.
Qed.

(** The lane at an index, as [lane_mut] does for a name. *)
Lemma lane_at_Forall (P Q : LaneState → Prop) index l l' ls :
  NoDup (ls_name <$> ls) → ls !! index = Some l → ls_name l' = ls_name l →
  Forall P ls → (P l → Q l') → (∀ k, ls_name k ≠ ls_name l → P k → Q k) → Forall Q (<[index := l']> ls).
Proof.
  intros Hn Hi Hl HP Hc Ho. rewrite Forall_lookup in HP. apply Forall_lookup. intros j k.
  intros Hk. destruct (decide (j = index)) as [->|Hj].
  - rewrite list_lookup_insert_eq in Hk by (by eapply lookup_lt_Some). simplify_eq. apply Hc. by eapply HP.
  - rewrite list_lookup_insert_ne in Hk by done. apply Ho; [|by eapply HP].
    intros He. apply Hj. eapply (NoDup_lookup _ j index (ls_name l)); [exact Hn| |].
    + rewrite list_lookup_fmap, Hk. simpl. by rewrite He.
    + by rewrite list_lookup_fmap, Hi.
Qed.
Lemma lane_at_names (index : nat) l l' (ls : list LaneState) :
  ls !! index = Some l → ls_name l' = ls_name l → ls_name <$> <[index := l']> ls = ls_name <$> ls.
Proof. intros Hi Hl. rewrite list_fmap_insert, Hl. apply list_insert_id. by rewrite list_lookup_fmap, Hi. Qed.

(** The permits of a popped invocation. *)
Definition hand_global (p : option Popped) : Z := match p with Some p => b2z (pp_global p) | None => 0 end.
Definition hand_local (p : option Popped) : TaskLane → Z :=
  match p with Some p => at_lane (pp_lane p) (b2z (pp_local p)) | None => λ _, 0 end.

Lemma at_lane_eq lane z : at_lane lane z lane = z.
Proof. unfold at_lane. by rewrite String.eqb_refl. Qed.
Lemma at_lane_ne lane n z : n ≠ lane → at_lane lane z n = 0.
Proof. intros Hn. unfold at_lane. by destruct (String.eqb_spec lane n). Qed.

Lemma pop_lane_accounts d now index s popped s' :
  pop_lane rc now index s = (popped, s') → accounts d s →
  accounts_with d (hand_global popped) (hand_local popped) (λ _, 0) None s' ∧
  held s' = held s ∧ rn_drawn s' = rn_drawn s ∧ rn_mode s' = rn_mode s ∧
  ls_name <$> rn_lanes s' = ls_name <$> rn_lanes s.
Proof.
  unfold pop_lane. intros Hp Ha. destruct (rn_lanes s !! index) as [l|] eqn:Hi; [|by simplify_eq].
  destruct (pop_queue rc now (rn_slots s) l) as [pq l'] eqn:Hq. pose proof (pop_queue_spec _ _ _ _ _ Hq) as Hs.
  assert (Hname : ls_name l' = ls_name l).
  { destruct pq; [destruct Hs as (_ & _ & Hc & _)|destruct Hs as [Hc _ _]]; unfold ls_name; by rewrite Hc. }
  assert (Hlanes : accounts_with d 0 (hand_local pq) (λ _, 0) None (rset_lanes (<[index := l']> (rn_lanes s)) s)).
  { destruct Ha. split; try done.
    - simpl. by rewrite (lane_at_names _ _ _ _ Hi Hname).
    - simpl. eapply lane_at_Forall; [exact ac_names|exact Hi|exact Hname|exact ac_lanes| |].
      + intros [A1 A2 A3]. destruct pq as [p|].
        * destruct Hs as (P1 & P2 & P3 & P4 & P5 & P6). split; rewrite ?Hname, ?P3, ?P4, ?P5.
          -- change (local_holders (ls_name l) (rset_lanes (<[index:=l']> (rn_lanes s)) s)) with (local_holders (ls_name l) s).
             simpl. rewrite P1, at_lane_eq. lia.
          -- rewrite P2 in P6. destruct (pp_local p); simpl; [|lia]. destruct P6; [done|]. lia.
          -- exact A3.
        * destruct Hs as [P1 P2 P3]. split; rewrite ?Hname, ?P1, ?P2, ?P3; [exact A1|exact A2|exact A3].
      + intros k Hk [A1 A2 A3]. split; [|done|exact A3].
        change (ls_slots k + local_holders (ls_name k) s + hand_local pq (ls_name k) = lc_concurrency (ls_conf k)).
        destruct pq as [p|]; [|exact A1]. destruct Hs as (P1 & _). simpl. rewrite at_lane_ne by congruence. lia. }
  destruct pq as [p|]; injection Hp as <- <-.
  - split; [|destruct (pp_global p); (split; [done|]; split; [done|]; split; [done|]);
               exact (lane_at_names index l l' (rn_lanes s) Hi Hname)].
    destruct Hs as (P1 & P2 & P3 & P4 & P5 & P6). destruct (pp_global p) eqn:Hg; [|cbn [hand_global]; rewrite Hg; exact Hlanes].
    destruct (P6 eq_refl) as [P7 _]. destruct Hlanes. split; try done.
    + simpl. rewrite Hg. simpl. unfold global_holders in *. simpl in *. lia.
    + simpl. lia.
    + by eapply lane_accounts_kept; [..|exact ac_lanes].
  - split; [exact Hlanes|]. split; [done|]. split; [done|]. split; [done|]. by apply lane_at_names with l.
Qed.
(** ** Replacing duplicates *)

Lemma abort_shrinks id s :
  (∀ i r, rn_running (abort_invocation id s) !! i = Some r → rn_running s !! i = Some r) ∧
  (invocation_of <$> rn_futures (abort_invocation id s) = invocation_of <$> rn_futures s) ∧
  (ex_invocation_id <$> rn_futures (abort_invocation id s) = ex_invocation_id <$> rn_futures s) ∧
  rn_drawn (abort_invocation id s) = rn_drawn s ∧ rn_mode (abort_invocation id s) = rn_mode s ∧
  rn_lanes (abort_invocation id s) = rn_lanes s ∧ rn_in_flight (abort_invocation id s) = rn_in_flight s.
Proof.
  unfold abort_invocation. destruct (rn_running s !! id) as [ri|]; [|done]. simpl.
  split; [by intros i r [_ Hr]%lookup_delete_Some|]. split; [|split; [apply abort_execution_ids|done]].
  unfold abort_execution. rewrite <- list_fmap_compose. apply list_fmap_ext. intros i e _. simpl.
  by destruct (_ =? _)%N.
Qed.
Lemma abort_clears d g x o p id s t i :
  accounts_with d g x o p s → rn_running_tasks (abort_invocation id s) !! t = Some i →
  rn_running_tasks s !! t = Some i ∧ i ≠ id.
Proof.
  intros Ha. unfold abort_invocation. destruct (rn_running s !! id) as [ri|] eqn:Hri.
  - simpl. intros [Hn Ht]%remove_tasks_lookup. split; [done|]. intros ->.
    apply (ac_running _ _ _ _ _ _ _ Ha) in Ht as (r & Hr & Hin). simplify_eq. done.
  - intros Ht. split; [done|]. intros ->. apply (ac_running _ _ _ _ _ _ _ Ha) in Ht as (r & Hr & _). simplify_eq.
Qed.

Record replaced (ids : list Uuid) (s s' : RunnerState) : Prop := {
  rp_running i r : rn_running s' !! i = Some r → rn_running s !! i = Some r;
  rp_tasks t i : rn_running_tasks s' !! t = Some i → rn_running_tasks s !! t = Some i ∧ i ∉ ids;
  rp_invocations : invocation_of <$> rn_futures s' = invocation_of <$> rn_futures s;
  rp_ids : ex_invocation_id <$> rn_futures s' = ex_invocation_id <$> rn_futures s;
  rp_drawn : rn_drawn s' = rn_drawn s;
  rp_mode : rn_mode s' = rn_mode s;
  rp_lanes : rn_lanes s' = rn_lanes s;
}.
Lemma abort_fold_replaced d g x o p ids s :
  accounts_with d g x o p s → replaced ids s (fold_left (λ s id, abort_invocation id s) ids s).
Proof.
  revert s. induction ids as [|id ids IH]; intros s Ha; simpl.
  - split; try done. intros t i Ht. split; [done|set_solver].
  - pose proof (proj1 (abort_invocation_kept rc id s) _ _ _ _ _ Ha) as Ha1.
    destruct (IH _ Ha1) as [R1 R2 R3 R4 R5 R6 R7].
    destruct (abort_shrinks id s) as (S1 & S2 & S3 & S4 & S5 & S6 & _).
    split; try congruence; [by eauto|]. intros t i Ht. destruct (R2 t i Ht) as [Ht1 Hn].
    destruct (abort_clears _ _ _ _ _ _ _ _ _ Ha Ht1) as [Ht2 Hne]. split; [done|]. set_solver.
Qed.
Lemma replace_duplicates_spec d g x o p ids s :
  accounts_with d g x o p s →
  accounts_with d g x o p (replace_duplicates ids s) ∧ held (replace_duplicates ids s) = held s ∧
  (∃ invs, replaced invs s (replace_duplicates ids s)) ∧
  ∀ t, t ∈ ids → rn_running_tasks (replace_duplicates ids s) !! t = None.
Proof.
  intros Ha. unfold replace_duplicates. set (invs := remove_dups _).
  destruct (kept_fold rc (λ s id, abort_invocation id s) invs s (λ s i, abort_invocation_kept rc i s))
    as (K1 & K2 & K3).
  pose proof (abort_fold_replaced _ _ _ _ _ invs s Ha) as Hr.
  split; [by apply K1|]. split; [exact K2|]. split; [by exists invs|].
  intros t Ht. destruct (rn_running_tasks _ !! t) as [i|] eqn:Hti; [|done]. exfalso.
  destruct (rp_tasks _ _ _ Hr t i Hti) as [Hs Hn]. apply Hn. unfold invs.
  apply elem_of_remove_dups, list_elem_of_omap. by exists t.
Qed.

(** ** Spawning *)

Lemma insert_running_lookup inv ids m t :
  insert_running inv ids m !! t = if bool_decide (t ∈ ids) then Some inv else m !! t.
Proof.
  unfold insert_running. revert m. induction ids as [|i ids IH]; intros m; cbn [fold_left].
  - done.
  - rewrite IH. destruct (decide (t ∈ ids)) as [H|H].
    + by rewrite !bool_decide_true by set_solver.
    + rewrite (bool_decide_false _ H). destruct (decide (t = i)) as [->|Hn].
      * rewrite lookup_insert_eq, bool_decide_true by set_solver. done.
      * rewrite lookup_insert_ne, bool_decide_false by set_solver. done.
Qed.

(** An identifier that names nothing yet. *)
Definition unused (id : Uuid) (s : RunnerState) : Prop :=
  drawn_id s id ∧ rn_running s !! id = None ∧
  id ∉ ex_invocation_id <$> rn_futures s ∧ id ∉ co_invocation_id <$> rn_completions s.

Lemma draw_unused d g x o p s :
  Z.of_nat (S (rn_drawn s)) ≤ U64_MAX → accounts_with d g x o p s →
  unused (uuid_now_v7 (rn_drawn s)) (rset_drawn (S (rn_drawn s)) s).
Proof.
  intros Hd Ha. pose proof (fresh_undrawn s Hd) as Hf. destruct Ha. destruct ac_known as (K1 & K2 & K3 & _).
  split; [|split; [|split]].
  - exists (rn_drawn s). split; [simpl; lia|done].
  - simpl. destruct (rn_running s !! _) eqn:Hr; [|done]. exfalso. apply Hf, K1. by rewrite Hr.
  - simpl. intros (e & He & Hin)%list_elem_of_fmap. rewrite Forall_forall in K2. apply Hf. rewrite He. by apply K2.
  - simpl. intros (c & Hc & Hin)%list_elem_of_fmap. rewrite Forall_forall in K3. apply Hf. rewrite Hc. by apply K3.
Qed.
Lemma benign_unused id s s' : benign s s' → unused id s → unused id s'.
Proof.
  intros Hb (H1 & H2 & H3 & H4). unfold unused, drawn_id.
  by rewrite (bn_drawn _ _ Hb), (bn_running _ _ Hb), (bn_futures _ _ Hb), (bn_completions _ _ Hb).
Qed.

(** The future is there, its identifier is not yet in the running maps. *)
Lemma add_future_accounts d e s :
  unused (ex_invocation_id e) s →
  accounts_with d (b2z (ex_global_permit e)) (at_lane (ex_lane e) (b2z (ex_lane_permit e))) (λ _, 0) None s →
  accounts_with d 0 (λ _, 0) (λ _, 0) (Some (ex_invocation_id e)) (rset_futures (rn_futures s ++ [e]) s).
Proof.
  intros (U1 & U2 & U3 & U4) []. split; try done.
  - unfold global_holders in *. simpl. rewrite count_app, count_cons.
    change (count ex_global_permit []) with 0. lia.
  - eapply Forall_impl; [exact ac_lanes|]. intros l [A1 A2 A3]. split; [|done|done].
    unfold local_holders in *. simpl. rewrite count_app, count_cons.
    change (count (λ e, ex_lane_permit e && String.eqb (ex_lane e) (ls_name l)) []) with 0.
    unfold at_lane in A1. destruct (ex_lane_permit e), (String.eqb (ex_lane e) (ls_name l)); simpl in *; lia.
  - simpl. intros e' [He|He%list_elem_of_singleton]%elem_of_app Hab Hp; [by apply ac_live|congruence].
  - simpl. rewrite fmap_app, <- app_assoc. simpl.
    rewrite <- Permutation_middle.
    apply NoDup_cons. split; [|done]. rewrite elem_of_app. tauto.
  - destruct ac_known as (K1 & K2 & K3 & K4). split; [done|]. split; [|done]. simpl.
    apply Forall_app. by repeat constructor.
Qed.

Lemma register_invocation_accounts d inv ri s :
  rn_mode s = Running_ → drawn_id s inv → rn_running s !! inv = None →
  (∀ e, e ∈ rn_futures s → ex_invocation_id e = inv → invocation_of e = ri) →
  (∀ t, t ∈ ri_task_ids ri → rn_running_tasks s !! t = None) →
  accounts_with d 0 (λ _, 0) (λ _, 0) (Some inv) s →
  accounts d (rset_running (<[inv := ri]> (rn_running s))
    (rset_running_tasks (insert_running inv (ri_task_ids ri) (rn_running_tasks s)) s)).
Proof.
  intros Hm U1 U2 He Ht []. split; try done.
  - by eapply lane_accounts_kept; [..|exact ac_lanes].
  - simpl. intros t i. rewrite insert_running_lookup. case_bool_decide as Hin.
    + split.
      * intros [= <-]. exists ri. by rewrite lookup_insert_eq.
      * intros (r & [[-> _]|[_ Hr]]%lookup_insert_Some & Hri); [done|].
        assert (Hc : rn_running_tasks s !! t = Some i) by (apply ac_running; eauto). by rewrite Ht in Hc.
    + rewrite ac_running. split.
      * intros (r & Hr & Hri). exists r. rewrite lookup_insert_ne; [done|]. intros ->. congruence.
      * intros (r & [[-> <-]|[_ Hr]]%lookup_insert_Some & Hri); [done|eauto].
  - simpl. intros e Hin Hab _. destruct (decide (ex_invocation_id e = inv)) as [Hi|Hi].
    + by rewrite Hi, lookup_insert_eq, (He e).
    + rewrite lookup_insert_ne by done. apply ac_live; [done|done|congruence].
  - destruct ac_known as (K1 & K2 & K3 & K4). split; [|done]. simpl.
    intros i [r [[<- _]|[_ Hr]]%lookup_insert_Some]; [exact U1|apply K1; by exists r].
  - simpl. intros i e Hi Hg. destruct (ac_give_back i e Hi Hg) as (Hdr & _). congruence.
Qed.

Lemma benign_spawn_prelude wall p s :
  benign s (fold_left (λ s r, lane_mut (pp_lane p) (remember_flow r) s) (pp_records p)
              (record_starts rc wall (pp_records p) s)).
Proof.
  etrans; [apply benign_record_starts|].
  apply (benign_fold (λ s r, lane_mut (pp_lane p) (remember_flow r) s)). intros.
  apply benign_lane_mut. intros l. apply remember_flow_same.
Qed.

Lemma spawn_task_accounts d wall p s :
  accounts_with d (hand_global (Some p)) (hand_local (Some p)) (λ _, 0) None s →
  rn_mode s = Running_ → Z.of_nat (S (rn_drawn s)) ≤ U64_MAX →
  accounts d (spawn_task rc wall p s) ∧ held (spawn_task rc wall p s) = held s.
Proof.
  intros Ha Hm Hd. unfold spawn_task. cbv zeta.
  pose proof (draw_unused _ _ _ _ _ s Hd Ha) as Hu. set (inv := uuid_now_v7 (rn_drawn s)) in *.
  apply (accounts_drawn rc _ _ _ _ _ (S (rn_drawn s))) in Ha; [|lia].
  set (s1 := rset_drawn (S (rn_drawn s)) s) in *.
  pose proof (benign_spawn_prelude wall p s1) as Hb. revert Hb.
  generalize (fold_left (λ s r, lane_mut (pp_lane p) (remember_flow r) s) (pp_records p)
                (record_starts rc wall (pp_records p) s1)). intros s3 Hb.
  apply (benign_accounts rc _ _ _ _ _ _ _ Hb) in Ha. apply (benign_unused _ _ _ Hb) in Hu.
  assert (Hm3 : rn_mode s3 = Running_) by by rewrite (bn_mode _ _ Hb).
  assert (Hh3 : held s3 = held s) by (rewrite (benign_held _ _ Hb); done).
  set (e := {| ex_node_id := _ |}). 
  assert (H4 := add_future_accounts d e s3 Hu Ha).
  destruct (replace_duplicates_spec _ _ _ _ _ (t_id <$> pp_records p) _ H4) as (H5 & Hh5 & (invs & Hr) & Hnone).
  set (s4 := rset_futures (rn_futures s3 ++ [e]) s3) in *.
  set (s5 := replace_duplicates (t_id <$> pp_records p) s4) in *. destruct Hu as (U1 & U2 & U3 & U4).
  split; [|rewrite <- Hh3; exact Hh5].
  set (ri := {| ri_lane := pp_lane p; ri_task_ids := t_id <$> pp_records p |}).
  change (accounts d (rset_running (<[inv := ri]> (rn_running s5))
    (rset_running_tasks (insert_running inv (ri_task_ids ri) (rn_running_tasks s5)) s5))).
  apply register_invocation_accounts.
  - by rewrite (rp_mode _ _ _ Hr).
  - destruct U1 as (k & Hk & Hi). exists k. split; [|exact Hi]. by rewrite (rp_drawn _ _ _ Hr).
  - destruct (rn_running s5 !! inv) as [r|] eqn:Hri; [|done].
    apply (rp_running _ _ _ Hr) in Hri. simpl in Hri. congruence.
  - intros e' He' Hid. apply list_elem_of_lookup in He' as [k Hk].
    assert (Hids : (ex_invocation_id <$> rn_futures s4) !! k = Some inv).
    { by rewrite <- (rp_ids _ _ _ Hr), list_lookup_fmap, Hk, <- Hid. }
    assert (Hinv : (invocation_of <$> rn_futures s4) !! k = Some (invocation_of e')).
    { by rewrite <- (rp_invocations _ _ _ Hr), list_lookup_fmap, Hk. }
    rewrite list_lookup_fmap in Hids. rewrite list_lookup_fmap in Hinv. destruct (rn_futures s4 !! k) as [e0|] eqn:He0; [|done].
    change (Some (ex_invocation_id e0) = Some inv) in Hids. change (Some (invocation_of e0) = Some (invocation_of e')) in Hinv.
    apply (inj Some) in Hids, Hinv. rewrite <- Hinv.
    apply lookup_app_Some in He0 as [He0|[_ He0]].
    + exfalso. apply U3. apply list_elem_of_fmap. exists e0. split; [congruence|]. by eapply list_elem_of_lookup_2.
    + apply list_elem_of_lookup_2, list_elem_of_singleton in He0. by subst e0.
  - exact Hnone.
  - exact H5.
Qed.
End Dispatch.
