(* ===== verification/RunnerTurns.v ===== *)
(** * The runner's accounts across a turn and across its surroundings

    Every turn of the loop, every wait and every step of what surrounds the
    loop keep the accounts; identifiers are only ever drawn. *)
From S2P Require Import Prelude Externals Failure Config Rate Models Transitions Lifecycle.
From S2P Require Import MemoryState Json Metrics Registry Submission Handlers Client.
From S2P Require Import HandlerFacts Runner RunnerLanes RunnerExec RunnerEngine RunnerFacts.
From S2P Require Import RunnerBodies RunnerRequests RunnerDispatch.
#[local] Open Scope Z_scope.

(** ** Drawing identifiers *)

Definition draws {E A} (m : M nat E A) : Prop := ∀ n, (n ≤ (m n).2)%nat.
Lemma draws_ret {E A} (a : A) : draws (retM (E:=E) a).
Proof. intros n. cbn. lia. Qed.
Lemma draws_throw {E A} (e : E) : draws (throwM (A:=A) e).
Proof. intros n. cbn. lia. Qed.
Lemma draws_lift {E A} (r : result E A) : draws (liftR r).
Proof. intros n. cbn. lia. Qed.
Lemma draws_bind {E A B} (m : M nat E A) (k : A → M nat E B) :
  draws m → (∀ a, draws (k a)) → draws (bindM m k).
Proof.
  intros Hm Hk n. unfold bindM. specialize (Hm n). destruct (m n) as [[a|e] n1]; simpl in *; [|done].
  specialize (Hk a n1). lia.
Qed.
Lemma draws_mapM {E A B} (l : list A) (f : A → M nat E B) : (∀ a, draws (f a)) → draws (mapM_M l f).
Proof.
  intros Hf. induction l as [|a l IH]; simpl; [apply draws_ret|].
  apply draws_bind; [done|]. intros b. apply draws_bind; [done|]. intros bs. apply draws_ret.
Qed.
Create HintDb draws.
#[export] Hint Resolve draws_ret draws_throw draws_lift draws_bind draws_mapM : draws.

Section Drawn.
Context `{X : Externals, Y : Serialization}.

Lemma build_record_draws name input key print lane kind now :
  draws (build_record name input key print lane kind now).
Proof. intros n. cbn. lia. Qed.
#[local] Hint Resolve build_record_draws : draws.

Lemma prepare_member_draws registry now input : draws (prepare_member registry now input).
Proof.
  unfold prepare_member, build_box_write. repeat (apply draws_bind; [solve [auto with draws]|intros ?]).
  auto with draws.
Qed.
#[local] Hint Resolve prepare_member_draws : draws.

Lemma resolve_owned_draws registry state now : draws (resolve_owned registry state now).
Proof.
  destruct state; simpl; [apply draws_ret|apply draws_ret| |].
  - unfold prepare_all. destruct (_ <? _); [apply draws_throw|].
    repeat (apply draws_bind; [solve [auto with draws]|intros ?]). apply draws_ret.
  - unfold prepare_child. repeat (apply draws_bind; [solve [auto with draws]|intros ?]). apply draws_ret.
Qed.

Lemma invoke_flow_draws registry handler record now : draws (invoke_flow registry handler record now).
Proof.
  unfold invoke_flow. destruct (negb _); [apply draws_ret|]. destruct (ca_decode _ _); [|apply draws_ret].
  destruct (ca_call _ _ _) as [[]|]; simpl; auto using resolve_owned_draws with draws.
Qed.

Lemma execute_flows_drawn registry handler records now drawn :
  (drawn ≤ (execute_flows registry handler records now drawn).2)%nat.
Proof.
  revert drawn. induction records as [|r records IH]; intros drawn; simpl; [done|].
  pose proof (invoke_flow_draws registry handler r now drawn) as H.
  destruct (invoke_flow registry handler r now drawn) as [res d]. simpl in H. specialize (IH d).
  destruct (execute_flows registry handler records now d) as [results d']. simpl in *. lia.
Qed.
Lemma registry_execute_many_drawn registry records now drawn :
  (drawn ≤ (registry_execute_many registry records now drawn).2)%nat.
Proof.
  unfold registry_execute_many. destruct records as [|r records]; [done|].
  destruct (rg_tasks registry !! t_name r) as [t|]; [|done]. unfold execute_many.
  destruct (rt_handler t); try done. apply execute_flows_drawn.
Qed.

(** What an execution sends back carries its own lane. *)
Lemma task_commits_lane e results : Forall (λ k, commit_lane k = Some (ex_lane e)) (task_commits e results).
Proof. apply Forall_fmap, Forall_true. done. Qed.

Lemma execute_task_spec registry e panicked elapsed wall drawn metrics completion drawn' metrics' :
  execute_task registry e panicked elapsed wall drawn metrics = (completion, drawn', metrics') →
  (drawn ≤ drawn')%nat ∧ co_invocation_id completion = ex_invocation_id e ∧ co_lane completion = ex_lane e ∧
  co_global_permit completion = ex_global_permit e ∧ co_lane_permit completion = ex_lane_permit e ∧
  Forall (λ k, commit_lane k = Some (co_lane completion)) (co_commits completion).
Proof.
  unfold execute_task.
  assert (H : (drawn ≤ (if panicked then (panic_results (ex_records e), drawn)
    else registry_execute_many registry (ex_records e) wall drawn).2)%nat).
  { destruct panicked; [done|]. apply registry_execute_many_drawn. }
  destruct (if panicked then _ else _) as [results d]. simpl in H. intros [= <- <- <-].
  split; [done|]. do 4 (split; [done|]). apply task_commits_lane.
Qed.
End Drawn.

Section Turns.
Context `{X : Externals, L : !ExternalLaws X, Y : Serialization, R : RunnerExternals} (rc : RunnerConf).
#[local] Abbreviation accounts_with := (accounts_with rc).
#[local] Abbreviation accounts := (accounts rc).
#[local] Abbreviation sound := (sound rc).

(** ** Dispatch *)

Lemma spawn_task_fields wall p s :
  rn_drawn (spawn_task rc wall p s) = S (rn_drawn s) ∧ rn_mode (spawn_task rc wall p s) = rn_mode s.
Proof.
  unfold spawn_task. cbv zeta. simpl.
  pose proof (benign_spawn_prelude rc wall p (rset_drawn (S (rn_drawn s)) s)) as Hb. revert Hb.
  generalize (fold_left (λ s r, lane_mut (pp_lane p) (remember_flow r) s) (pp_records p)
                (record_starts rc wall (pp_records p) (rset_drawn (S (rn_drawn s)) s))). intros s3 Hb.
  set (s4 := rset_futures _ s3).
  destruct (kept_fold rc (λ s id, abort_invocation id s)
    (remove_dups (omap (λ id, rn_running_tasks s4 !! id) (t_id <$> pp_records p))) s4
    (λ s i, abort_invocation_kept rc i s)) as (_ & _ & Hd).
  destruct (same_flight_fold (λ s id, abort_invocation id s)
    (remove_dups (omap (λ id, rn_running_tasks s4 !! id) (t_id <$> pp_records p))) s4
    (λ s i, same_flight_abort i s)) as [_ Hm _ _].
  unfold replace_duplicates. split.
  - etrans; [exact Hd|]. exact (bn_drawn _ _ Hb).
  - etrans; [exact Hm|]. exact (bn_mode _ _ Hb).
Qed.

Lemma dispatched_sound d now wall index s p s1 :
  pop_lane rc now index s = (Some p, s1) → rn_mode s = Running_ → sound d s (spawn_task rc wall p s1).
Proof.
  intros Hp Hm. destruct (spawn_task_fields wall p s1) as [Hd _].
  assert (Hd1 : rn_drawn s1 = rn_drawn s ∧ rn_mode s1 = rn_mode s).
  { unfold pop_lane in Hp. destruct (rn_lanes s !! index); [|done].
    destruct (pop_queue _ _ _ _) as [[q|] l']; [|done]. injection Hp as <- <-. by destruct (pp_global q). }
  destruct Hd1 as [Hd1 Hm1]. split; [rewrite Hd, Hd1; lia|]. intros Ha Hh Hmax.
  destruct (pop_lane_accounts rc d now index s _ _ Hp Ha) as (Ha1 & Hh1 & _).
  destruct (spawn_task_accounts rc d wall p s1 Ha1) as [Ha2 Hh2]; [congruence|lia|].
  split; [exact Ha2|]. lia.
Qed.

Lemma pop_nothing_sound d now index s s1 :
  pop_lane rc now index s = (None, s1) → sound d s s1 ∧ rn_mode s1 = rn_mode s.
Proof.
  intros Hp.
  assert (Hf : rn_drawn s1 = rn_drawn s ∧ rn_mode s1 = rn_mode s).
  { unfold pop_lane in Hp. destruct (rn_lanes s !! index); [|by simplify_eq].
    destruct (pop_queue _ _ _ _) as [[q|] l']; [done|]. by simplify_eq. }
  destruct Hf as [Hd Hm]. split; [|done]. split; [by rewrite Hd|]. intros Ha _ _.
  destruct (pop_lane_accounts rc d now index s _ _ Hp Ha) as (Ha1 & Hh1 & _). split; [exact Ha1|]. lia.
Qed.

Lemma dispatch_pass_sound d now wall indices s :
  rn_mode s = Running_ →
  sound d s (dispatch_pass rc now wall indices s).2 ∧ rn_mode (dispatch_pass rc now wall indices s).2 = Running_.
Proof.
  revert s. induction indices as [|index indices IH]; intros s Hm; simpl; [done|].
  destruct (pop_lane rc now index s) as [[p|] s1] eqn:Hp; simpl.
  - assert (Hm1 : rn_mode (spawn_task rc wall p s1) = Running_).
    { destruct (spawn_task_fields wall p s1) as [_ ->]. unfold pop_lane in Hp.
      destruct (rn_lanes s !! index); [|done]. destruct (pop_queue _ _ _ _) as [[q|] l']; [|done].
      injection Hp as <- <-. by destruct (pp_global q). }
    destruct (IH _ Hm1) as [H1 H2]. split; [|done]. etrans; [by eapply dispatched_sound|exact H1].
  - destruct (pop_nothing_sound d _ _ _ _ Hp) as [H1 H2]. rewrite Hm in H2.
    destruct (IH _ H2) as [H3 H4]. split; [|done]. by etrans.
Qed.
Lemma dispatch_passes_sound d budget now wall s :
  rn_mode s = Running_ → sound d s (dispatch_passes rc budget now wall s).
Proof.
  revert s. induction budget as [|budget IH]; intros s Hm; [reflexivity|]. cbn [dispatch_passes].
  destruct (dispatch_pass_sound d now wall (seq 0 (length (rn_lanes s))) s Hm) as [H1 H2].
  destruct (dispatch_pass rc now wall (seq 0 (length (rn_lanes s))) s) as [[] s1]; simpl in *; [|done].
  etrans; [exact H1|]. by apply IH.
Qed.
Lemma dispatch_ready_sound d now wall s : sound d s (dispatch_ready rc now wall s).
Proof.
  unfold dispatch_ready, in_mode. case_bool_decide as Hm; [|reflexivity].
  apply dispatch_passes_sound. by apply list_elem_of_singleton in Hm.
Qed.

(** ** The turn *)

Lemma drain_completions_sound d budget now s : sound d s (drain_completions rc budget now s).
Proof.
  revert s. induction budget as [|budget IH]; intros s; simpl; [reflexivity|].
  destruct (rn_completions s) as [|c rest] eqn:Hc; [reflexivity|].
  etrans; [by apply (accept_completion_sound rc d now c rest)|apply IH].
Qed.
Lemma benign_pop_hook c rest now s : benign s (accept_hook rc now c (rset_hook_results rest s)).
Proof. etrans; [|apply benign_accept_hook]. split; try done. apply lanes_same_refl. Qed.
Lemma drain_hooks_sound d budget now s : sound d s (drain_hooks rc budget now s).
Proof.
  revert s. induction budget as [|budget IH]; intros s; simpl; [reflexivity|].
  destruct (rn_hook_results s) as [|c rest]; [reflexivity|].
  etrans; [apply benign_sound, benign_pop_hook|apply IH].
Qed.
Lemma drain_database_sound budget now wall s : sound 0 s (drain_database rc budget now wall s).
Proof.
  revert s. induction budget as [|budget IH]; intros s; simpl; [reflexivity|].
  destruct (rn_settled s) as [|c rest] eqn:Hc; [reflexivity|].
  pose proof (apply_database_sound rc now wall c rest s Hc) as H.
  destruct (stopped _); [exact H|]. etrans; [exact H|apply IH].
Qed.

Lemma collect_ready_sound now wall s : sound 0 s (collect_ready rc now wall s).
Proof.
  unfold collect_ready. cbv zeta. etrans; [apply benign_sound, (benign_collect_events rc now)|].
  etrans; [apply drain_completions_sound|]. etrans; [apply drain_hooks_sound|]. apply drain_database_sound.
Qed.
Lemma advance_pipeline_sound now wall s : sound 0 s (advance_pipeline rc now wall s).
Proof.
  unfold advance_pipeline. destruct (in_mode _ _); [|reflexivity]. cbv zeta.
  etrans; [apply dispatch_ready_sound|]. destruct (negb _); [apply admit_sound|reflexivity].
Qed.

Lemma loop_turn_sound now wall s : sound 0 s (loop_turn rc now wall s).
Proof.
  unfold loop_turn. pose proof (expire_sound rc 0 now s) as H1. destruct (expire now s) as [stop s1].
  cbn [snd] in H1. destruct stop; [done|]. etrans; [exact H1|]. cbv zeta.
  etrans; [apply (collect_ready_sound now wall)|]. destruct (stopped _); [reflexivity|].
  etrans; [apply (advance_pipeline_sound now wall)|].
  pose proof (expire_sound rc 0 now (advance_pipeline rc now wall (collect_ready rc now wall s1))) as H2.
  destruct (expire now (advance_pipeline rc now wall (collect_ready rc now wall s1))) as [stop s2].
  cbn [snd] in H2. destruct stop; [done|]. etrans; [exact H2|]. apply give_back_sound.
Qed.

Lemma wait_event_sound branch now wall s : sound 0 s (wait_event rc branch now wall s).
Proof.
  destruct branch; simpl; try reflexivity.
  - destruct (rn_ingress s) as [|r rest]; [reflexivity|]. destruct (_ && _); [|reflexivity].
    apply benign_sound. etrans; [|apply benign_accept_input]. split; try done. apply lanes_same_refl.
  - destruct (rn_settled s) as [|c rest] eqn:Hc; [reflexivity|]. by apply apply_database_sound.
  - destruct (rn_completions s) as [|c rest] eqn:Hc; [reflexivity|]. by apply accept_completion_sound.
  - destruct (rn_hook_results s) as [|c rest]; [reflexivity|]. apply benign_sound, benign_pop_hook.
  - apply expire_sound.
  - destruct (rn_events s) as [|slot rest]; [reflexivity|]. apply benign_sound.
    etrans; [|apply benign_accept_event]. split; try done. apply lanes_same_refl.
  - destruct (in_mode _ _) eqn:Hm; [reflexivity|].
    etrans; [|apply benign_sound, benign_abort_hooks].
    apply kept_sound. split; [|done]. intros d g x o p []. split; try done.
    + by eapply lane_accounts_kept; [..|exact ac_lanes].
    + intros i e He Hg. destruct (ac_give_back i e He Hg) as (_ & H). by split.
Qed.

(** ** What surrounds the loop *)

Lemma finished_execution_accounts before e after completion drawn metrics s :
  rn_futures s = before ++ e :: after → co_invocation_id completion = ex_invocation_id e →
  co_lane completion = ex_lane e → co_global_permit completion = ex_global_permit e →
  co_lane_permit completion = ex_lane_permit e →
  Forall (λ k, commit_lane k = Some (co_lane completion)) (co_commits completion) →
  (rn_drawn s ≤ drawn)%nat → accounts 0 s →
  accounts 0 (rset_metrics metrics (rset_drawn drawn
    (rset_completions (rn_completions s ++ [completion]) (rset_futures (before ++ after) s)))).
Proof.
  intros Hf Hi Hl Hg Hp Hc Hd Ha.
  set (s1 := rset_completions (rn_completions s ++ [completion]) (rset_futures (before ++ after) s)).
  assert (H1 : accounts 0 s1).
  { destruct Ha. rewrite Hf in *. split; try done.
    - unfold global_holders in *. simpl. rewrite Hf, count_middle in ac_global.
      rewrite (count_app _ (rn_completions s)), count_cons, Hg. change (count co_global_permit []) with 0. lia.
    - eapply Forall_impl; [exact ac_lanes|]. intros l [A1 A2 A3]. split; [|done|done].
      unfold local_holders in *. rewrite Hf, count_middle in A1. simpl.
      rewrite (count_app _ (rn_completions s)), count_cons, Hl, Hp.
      change (count (λ c, co_lane_permit c && String.eqb (co_lane c) (ls_name l)) []) with 0. lia.
    - intros e' He'. apply ac_live. simpl in He'. set_solver.
    - simpl. rewrite !fmap_app in *. csimpl in *. rewrite Hi.
      rewrite app_assoc, <- Permutation_cons_append. by rewrite <- Permutation_middle in ac_distinct.
    - simpl. apply Forall_app. by repeat constructor.
    - destruct ac_known as (K1 & K2 & K3 & K4). simpl.
      apply Forall_app in K2 as [K2 K5]. apply Forall_cons in K5 as [K5 K6].
      split; [done|]. split; [by apply Forall_app|]. split; [|done].
      apply Forall_app. split; [done|]. repeat constructor. by rewrite Hi. }
  apply (accounts_drawn rc _ _ _ _ _ drawn) in H1; [|done].
  eapply benign_accounts; [|exact H1]. split; try done. apply lanes_same_refl.
Qed.

Lemma dropped_execution_accounts before e after s :
  rn_futures s = before ++ e :: after → ex_aborted e = true → accounts 0 s →
  accounts 0 (release_permits (ex_lane e) (ex_global_permit e) (ex_lane_permit e)
                (rset_futures (before ++ after) s)).
Proof.
  intros Hf Hab Ha. apply release_permits_accounts. destruct Ha. rewrite Hf in *. split; try done.
  - unfold global_holders in *. simpl. rewrite Hf, count_middle in ac_global. lia.
  - eapply Forall_impl; [exact ac_lanes|]. intros l [A1 A2 A3]. split; [|done|done].
    unfold local_holders in *. rewrite Hf, count_middle in A1. simpl. unfold at_lane.
    destruct (ex_lane_permit e), (String.eqb (ex_lane e) (ls_name l)); simpl in *; lia.
  - intros e' He'. apply ac_live. simpl in He'. set_solver.
  - simpl. rewrite !fmap_app in *. csimpl in *. eapply sublist_NoDup; [exact ac_distinct|].
    apply sublist_app; [|done]. apply sublist_app; [done|]. by apply sublist_cons.
  - destruct ac_known as (K1 & K2 & K3 & K4). apply Forall_app in K2 as [K2 K5].
    apply Forall_cons in K5 as [K5 K6]. split; [done|]. split; [by apply Forall_app|]. by split.
Qed.

Lemma settled_operation_accounts before o after c s :
  rn_operations s = before ++ o :: after → accounts 0 s →
  accounts 0 (rset_settled (rn_settled s ++ [c]) (rset_operations (before ++ after) s)).
Proof.
  intros Ho []. rewrite Ho in *. split; try done.
  - by eapply lane_accounts_kept; [..|exact ac_lanes].
  - simpl. rewrite !zlen_app in *. unfold zlen in *. simpl in *. lia.
Qed.

Context (answers : DbRequest → option DbResponse → result (StoreFailure DbResponse) DbResponse → Prop).

Lemma step_accounts s s' :
  runner_step rc answers s s' → accounts 0 s → in_memory s → in_memory s' → accounts 0 s'.
Proof.
  intros Hstep Ha [Hh Hd] [Hh' Hd'].
  assert (Hsound : sound 0 s s' → accounts 0 s') by (intros [_ H]; by destruct (H Ha Hh Hd')).
  destruct Hstep.
  - apply Hsound, loop_turn_sound.
  - apply Hsound, wait_event_sound.
  - apply Hsound, benign_sound. split; try done. apply lanes_same_refl.
  - apply Hsound, benign_sound. split; try done. apply lanes_same_refl.
  - destruct (execute_task_spec _ _ _ _ _ _ _ _ _ _ H2) as (E1 & E2 & E3 & E4 & E5 & E6).
    by eapply finished_execution_accounts.
  - by eapply dropped_execution_accounts.
  - apply Hsound, benign_sound. split; try done. apply lanes_same_refl.
  - apply Hsound, benign_sound. split; try done. apply lanes_same_refl.
  - by eapply settled_operation_accounts.
Qed.

Lemma reaches_accounts s0 s :
  accounts 0 s0 → runner_reaches rc answers s0 s → accounts 0 s ∧ in_memory s.
Proof.
  intros H0 Hr. induction Hr as [Hm|s s' Hr [IH Hm] Hs Hm']; [done|]. split; [|done]. by eapply step_accounts.
Qed.
End Turns.

(** ** The first state *)

Section Start.
Context `{X : Externals, L : !ExternalLaws X}.

(** Counts are machine integers. *)
Definition unsigned_conf (registry : TaskRegistry) : Prop :=
  0 ≤ cf_concurrency (rg_config registry) ∧ 0 ≤ cf_db_concurrency (rg_config registry) ∧
  Forall (λ l, 0 ≤ lc_concurrency l) (rg_lanes registry).

Lemma runner_new_accounts registry node metrics health drawn now :
  NoDup (lc_lane <$> rg_lanes registry) → unsigned_conf registry →
  accounts (runner_conf registry node) 0 (runner_new (runner_conf registry node) metrics health drawn now).
Proof.
  intros Hn (H1 & H2 & H3). split; try done.
  - simpl. rewrite <- list_fmap_compose. exact Hn.
  - simpl. unfold global_holders, count. simpl. lia.
  - simpl. apply Forall_fmap. eapply Forall_impl; [exact H3|]. intros l Hl. split; [|done|done].
    simpl. unfold local_holders, count. simpl. lia.
  - simpl. unfold zlen. simpl. lia.
  - simpl. intros id inv. rewrite lookup_empty. split; [done|]. intros (r & Hr & _). done.
  - simpl. intros e He. by apply not_elem_of_nil in He.
  - simpl. constructor.
  - split; [|split; [constructor|split; [constructor|]]]; simpl; intros i [r Hr]; done.
Qed.
Lemma runner_start_accounts registry node metrics health drawn now :
  NoDup (lc_lane <$> rg_lanes registry) → unsigned_conf registry →
  accounts (runner_conf registry node) 0
    (run_start (runner_conf registry node) now
       (runner_new (runner_conf registry node) metrics health drawn now)).
Proof.
  intros Hn Hu. unfold run_start. destruct (is_clustered _); [|by apply runner_new_accounts].
  eapply benign_accounts; [apply benign_schedule_heartbeat|]. by apply runner_new_accounts.
Qed.
End Start.

(** ** The contact deadline

    While a database request is unanswered the runner has a deadline at which
    it gives its work up; nothing but an answer moves it. *)

(** An unanswered request has a deadline. *)
Definition contact (s : RunnerState) : Prop := rn_in_flight s = ∅ ∨ is_Some (rn_death_at s).
Definition contacts (s s' : RunnerState) : Prop := contact s → contact s'.
#[export] Instance contacts_preorder : PreOrder contacts.
Proof. split; [by intros s H|]. intros s1 s2 s3 H1 H2 H. auto. Qed.

Lemma same_flight_contacts s s' : same_flight s s' → contacts s s'.
Proof. intros [Hf _ _ Hd] [H|H]; [left|right]; congruence. Qed.
Lemma benign_contacts s s' : benign s s' → contacts s s'.
Proof. intros Hb. by apply same_flight_contacts, benign_same_flight. Qed.
Lemma empty_contacts s s' : rn_in_flight s' = ∅ → contacts s s'.
Proof. intros He _. by left. Qed.

Section Contact.
Context `{X : Externals, L : !ExternalLaws X, Y : Serialization, R : RunnerExternals} (rc : RunnerConf).

Lemma same_flight_release lane global local s : same_flight s (release_permits lane global local s).
Proof. unfold release_permits. by destruct global, local. Qed.
Lemma same_flight_accept_completion now c rest s : same_flight s (accept_completion rc now c (rset_completions rest s)).
Proof.
  unfold accept_completion. destruct (rn_running _ !! _); cbv zeta.
  - etrans; [|apply same_flight_release]. by split.
  - etrans; [|apply same_flight_release]. by split.
Qed.
Lemma same_flight_discard m s : contacts s (discard_work (rset_mode m s)).
Proof. by apply empty_contacts. Qed.
Lemma expire_contacts now s : contacts s (expire now s).2.
Proof. unfold expire. simpl. destruct (_ && _); [apply same_flight_discard|reflexivity]. Qed.

(** ** Dispatch *)

Lemma pop_lane_contacts now index s : contacts s (pop_lane rc now index s).2.
Proof.
  unfold pop_lane. destruct (rn_lanes s !! index); [|reflexivity].
  destruct (pop_queue _ _ _ _) as [[q|] l']; apply same_flight_contacts; simpl; [destruct (pp_global q)|]; by split.
Qed.
Lemma spawn_task_contacts wall p s : contacts s (spawn_task rc wall p s).
Proof.
  unfold spawn_task. cbv zeta.
  pose proof (benign_spawn_prelude rc wall p (rset_drawn (S (rn_drawn s)) s)) as Hb. revert Hb.
  generalize (fold_left (λ s r, lane_mut (pp_lane p) (remember_flow r) s) (pp_records p)
                (record_starts rc wall (pp_records p) (rset_drawn (S (rn_drawn s)) s))). intros s3 Hb.
  set (s4 := rset_futures _ s3).
  destruct (same_flight_fold (λ s id, abort_invocation id s)
    (remove_dups (omap (λ id, rn_running_tasks s4 !! id) (t_id <$> pp_records p))) s4
    (λ s i, same_flight_abort i s)) as [Hf _ _ Hd].
  intros [H|H].
  - left. etrans; [exact Hf|]. etrans; [exact (bn_in_flight _ _ Hb)|exact H].
  - right. assert (Hd' : rn_death_at (replace_duplicates (t_id <$> pp_records p) s4) = rn_death_at s).
    { etrans; [exact Hd|exact (bn_death _ _ Hb)]. }
    rewrite <- Hd' in H. exact H.
Qed.
Lemma dispatch_pass_contacts now wall indices s : contacts s (dispatch_pass rc now wall indices s).2.
Proof.
  revert s. induction indices as [|index indices IH]; intros s; simpl; [reflexivity|].
  pose proof (pop_lane_contacts now index s) as H. destruct (pop_lane rc now index s) as [[p|] s1]; simpl in *.
  - etrans; [exact H|]. etrans; [apply (spawn_task_contacts wall p)|apply IH].
  - etrans; [exact H|apply IH].
Qed.
Lemma dispatch_ready_contacts now wall s : contacts s (dispatch_ready rc now wall s).
Proof.
  unfold dispatch_ready. destruct (in_mode _ _); [|reflexivity].
  generalize SCHEDULER_BUDGET. intros budget. revert s.
  induction budget as [|budget IH]; intros s; [reflexivity|]. cbn [dispatch_passes].
  pose proof (dispatch_pass_contacts now wall (seq 0 (length (rn_lanes s))) s) as H.
  destruct (dispatch_pass rc now wall (seq 0 (length (rn_lanes s))) s) as [[] s1]; simpl in H; [|done].
  etrans; [exact H|apply IH].
Qed.

(** ** Requests and answers *)

Lemma start_database_contacts now r s : contacts s (start_database rc now r s).
Proof.
  intros _. right. unfold start_database, database_future. cbv zeta. simpl.
  destruct (bool_decide _) eqn:H; simpl; [done|]. apply bool_decide_eq_false in H. simpl in H.
  destruct (rn_death_at s); [by eexists|done].
Qed.
Lemma retry_database_contacts now id s : contacts s (retry_database now id s).
Proof.
  unfold retry_database. destruct (rn_in_flight s !! id) as [[r [| |at_ prepared]]|] eqn:He; try reflexivity.
  intros [H|H]; [by rewrite H, lookup_empty in He|]. right. exact H.
Qed.
Lemma admit_loop_contacts fuel now s : contacts s (admit_loop rc fuel now s).
Proof.
  revert s. induction fuel as [|fuel IH]; intros s; [reflexivity|]. cbn [admit_loop].
  destruct (rn_db_slots s <=? 0); [reflexivity|]. destruct (existsb is_give_back (requests s)).
  { destruct (retry_due now s); [apply retry_database_contacts|reflexivity]. }
  destruct (requested_fresh rc 0 now s) as [_ Hf Hd _ _ _ _].
  assert (Hreq : contacts s (or_else (or_else (or_else (heartbeat_request now s, s) (coordinate_request rc now))
      (flush_request rc now)) (claim_request rc now)).2).
  { intros [H|H]; [left|right]; congruence. }
  destruct (or_else _ (claim_request rc now)) as [[r|] s']; cbn [snd] in Hreq.
  - assert (H : contacts s (admit_loop rc fuel now (start_database rc now r s'))).
    { etrans; [exact Hreq|]. etrans; [apply (start_database_contacts now r)|apply IH]. }
    destruct (retry_due now s) as [id|]; [|exact H]. case_bool_decide; [|exact H].
    etrans; [apply (retry_database_contacts now id)|apply IH].
  - destruct (retry_due now s) as [id|]; [|exact Hreq]. case_bool_decide; [|exact Hreq].
    etrans; [apply (retry_database_contacts now id)|apply IH].
Qed.
Lemma admit_contacts now s : contacts s (runner_admit rc now s).
Proof.
  unfold runner_admit. pose proof (expire_contacts now s) as He. destruct (expire now s) as [stop s1]. simpl in He.
  destruct stop; [done|]. etrans; [exact He|apply admit_loop_contacts].
Qed.
Lemma give_back_contacts now s : contacts s (give_back rc now s).2.
Proof.
  unfold give_back. destruct (negb (finished s)); [reflexivity|]. cbv zeta.
  assert (H : contacts s (rset_ingress_open false s)) by by apply same_flight_contacts.
  destruct (_ <=? _); [exact H|]. etrans; [exact H|apply start_database_contacts].
Qed.

Lemma apply_response_contacts now r response elapsed s res s' :
  apply_response rc now r response elapsed s = (res, s') → contacts s s'.
Proof.
  unfold apply_response. intros H.
  assert (Hpoll : ∀ claims poll, contacts s (apply_poll rc now claims poll s))
    by (intros; apply same_flight_contacts, same_flight_poll).
  assert (Hflush : ∀ commits result, contacts s (apply_flush rc now commits result elapsed s)).
  { intros. unfold apply_flush. cbv zeta. etrans; [|apply benign_contacts, benign_flush_tail].
    etrans; [|apply benign_contacts, benign_noted]. unfold acknowledge_commits.
    destruct (release_commits_only commits s) as [ls ->]. by apply same_flight_contacts. }
  destruct r as [| |claims|commits capacity cached|claims]; destruct response as [[]| |poll|result];
    try destruct (validate_poll claims poll); injection H as _ <-;
    first [apply Hpoll | apply Hflush | reflexivity | by apply empty_contacts | by apply same_flight_contacts].
Qed.
Lemma database_failed_contacts now id failure s : contacts s (database_failed rc now id failure s).
Proof.
  unfold database_failed. destruct (match failure with BeforeCommit _ => _ | CommitUnknown _ _ => _ end)
    as [error prepared]. cbv zeta. set (s1 := noted record_store_failure _).
  assert (H1 : contacts s s1) by by apply same_flight_contacts.
  etrans; [exact H1|]. destruct (negb _); [by apply empty_contacts|].
  destruct (rn_in_flight s1 !! id) as [e|] eqn:He; [|reflexivity].
  intros [H|H]; [by rewrite H, lookup_empty in He|by right].
Qed.

Lemma settle_contacts now wall id s : contacts s (settle rc now wall id s).
Proof.
  unfold settle. destruct (stopped s); [reflexivity|]. intros _. cbv zeta.
  set (s3 := rset_in_flight _ s). set (s4 := rset_death_at _ s3).
  assert (H4 : contact s4).
  { unfold s4. case_bool_decide as He; [by left|right; by eexists]. }
  destruct (forallb _ _); [|exact H4]. exact H4.
Qed.

Lemma apply_completion_contacts now wall c s : contacts s (apply_completion rc now wall c s).
Proof.
  unfold apply_completion. pose proof (expire_contacts now s) as Hx.
  destruct (expire now s) as [stop s0]. cbn [fst snd] in *. destruct stop; [done|]. etrans; [exact Hx|]. clear Hx.
  destruct (rn_in_flight s0 !! dc_id c) as [e|]; [|reflexivity].
  set (elapsed := Z.max 0 (now - dc_started c)).
  assert (Hbeat : ∀ b s1, contacts s0 s1 → contacts s0
    (if is_heartbeat (if_request e) then noted (record_heartbeat elapsed b) s1 else s1)).
  { intros b s1 H. destruct (is_heartbeat _); [|done]. etrans; [exact H|by apply same_flight_contacts]. }
  assert (Hfail : ∀ failure b s1, contacts s0 s1 → contacts s0 (database_failed rc now (dc_id c) failure
      (if is_heartbeat (if_request e) then noted (record_heartbeat elapsed b) s1 else s1))).
  { intros failure b s1 H. etrans; [|apply database_failed_contacts]. by apply Hbeat. }
  destruct (dc_result c) as [response|failure]; [|by apply Hfail].
  destruct (apply_response rc now (if_request e) response elapsed s0) as [[[]|err] s1] eqn:Hr;
    pose proof (apply_response_contacts _ _ _ _ _ _ _ Hr) as H1; [|by apply Hfail].
  set (s2 := if is_heartbeat (if_request e) then _ else s1).
  fold (settle rc now wall (dc_id c) s2). etrans; [|apply settle_contacts]. by apply Hbeat.
Qed.
Lemma apply_database_contacts now wall c rest s :
  contacts s (apply_database rc now wall c (rset_settled rest s)).
Proof.
  unfold apply_database. cbv zeta.
  etrans; [|by apply same_flight_contacts]. etrans; [|apply apply_completion_contacts].
  by apply same_flight_contacts.
Qed.

(** ** Turns, waits and steps *)

Lemma collect_ready_contacts now wall s : contacts s (collect_ready rc now wall s).
Proof.
  unfold collect_ready. cbv zeta. etrans; [apply benign_contacts, (benign_collect_events rc now)|].
  generalize (collect_events rc now s). intros s1.
  transitivity (drain_completions rc (Z.to_nat (rc_concurrency rc)) now s1).
  { generalize (Z.to_nat (rc_concurrency rc)). intros budget. revert s1.
    induction budget as [|budget IH]; intros s1; simpl; [reflexivity|].
    destruct (rn_completions s1) as [|c rest]; [reflexivity|].
    etrans; [apply same_flight_contacts, (same_flight_accept_completion now c rest)|apply IH]. }
  generalize (drain_completions rc (Z.to_nat (rc_concurrency rc)) now s1). clear s1. intros s1.
  transitivity (drain_hooks rc (length (rn_lanes s1)) now s1).
  { generalize (length (rn_lanes s1)). intros budget. revert s1.
    induction budget as [|budget IH]; intros s1; simpl; [reflexivity|].
    destruct (rn_hook_results s1) as [|c rest]; [reflexivity|].
    etrans; [apply benign_contacts, benign_pop_hook|apply IH]. }
  generalize (drain_hooks rc (length (rn_lanes s1)) now s1). clear s1. intros s1.
  generalize (Z.to_nat (cf_db_concurrency (rg_config (rc_registry rc)))). intros budget. revert s1.
  induction budget as [|budget IH]; intros s1; simpl; [reflexivity|].
  destruct (rn_settled s1) as [|c rest]; [reflexivity|].
  pose proof (apply_database_contacts now wall c rest s1) as H.
  destruct (stopped _); [exact H|]. etrans; [exact H|apply IH].
Qed.

Lemma loop_turn_contacts now wall s : contacts s (loop_turn rc now wall s).
Proof.
  unfold loop_turn. pose proof (expire_contacts now s) as H1. destruct (expire now s) as [stop s1].
  cbn [snd] in H1. destruct stop; [done|]. etrans; [exact H1|]. cbv zeta.
  etrans; [apply (collect_ready_contacts now wall)|]. generalize (collect_ready rc now wall s1). clear. intros s.
  destruct (stopped s); [reflexivity|].
  transitivity (advance_pipeline rc now wall s).
  { unfold advance_pipeline. destruct (in_mode _ _); [|reflexivity]. cbv zeta.
    etrans; [apply dispatch_ready_contacts|]. destruct (negb _); [apply admit_contacts|reflexivity]. }
  pose proof (expire_contacts now (advance_pipeline rc now wall s)) as H2.
  destruct (expire now (advance_pipeline rc now wall s)) as [stop s2].
  cbn [snd] in H2. destruct stop; [done|]. etrans; [exact H2|]. apply give_back_contacts.
Qed.

Lemma wait_event_contacts branch now wall s : contacts s (wait_event rc branch now wall s).
Proof.
  destruct branch; simpl; try reflexivity.
  - destruct (rn_ingress s) as [|r rest]; [reflexivity|]. destruct (_ && _); [|reflexivity].
    etrans; [|apply benign_contacts, benign_accept_input]. by apply same_flight_contacts.
  - destruct (rn_settled s) as [|c rest]; [reflexivity|]. apply apply_database_contacts.
  - destruct (rn_completions s) as [|c rest]; [reflexivity|].
    apply same_flight_contacts, same_flight_accept_completion.
  - destruct (rn_hook_results s) as [|c rest]; [reflexivity|]. apply benign_contacts, benign_pop_hook.
  - apply expire_contacts.
  - destruct (rn_events s) as [|slot rest]; [reflexivity|].
    etrans; [|apply benign_contacts, benign_accept_event]. by apply same_flight_contacts.
  - destruct (in_mode _ _); [reflexivity|]. intros [H|H]; [by left|by right].
Qed.

Context (answers : DbRequest → option DbResponse → result (StoreFailure DbResponse) DbResponse → Prop).

Lemma step_contacts s s' : runner_step rc answers s s' → contacts s s'.
Proof.
  destruct 1; try (intros [H'|H']; [by left|by right]).
  - apply loop_turn_contacts.
  - apply wait_event_contacts.
  - etrans; [|apply same_flight_contacts, same_flight_release]. intros [H'|H']; [by left|by right].
Qed.
Lemma reaches_contact s0 s : contact s0 → runner_reaches rc answers s0 s → contact s.
Proof. intros H0. induction 1 as [|s s' _ IH Hs]; [done|]. by eapply step_contacts. Qed.
End Contact.
