(* ===== verification/RunnerTheorems.v ===== *)
(** * Properties of the runner

    What holds in every state a runner reaches, whatever its clients, its
    handlers, its hooks and its store do and in whatever order they finish. *)
From S2P Require Import Prelude Externals Failure Config Rate Models Transitions.
From S2P Require Import Lifecycle MemoryState StoreSpec ValueTheorems Json Metrics Registry.
From S2P Require Import Submission Handlers Client RegistryFacts RegistryTheorems Runner.
From S2P Require Import RunnerLanes RunnerExec RunnerEngine RunnerFacts RunnerBodies RunnerRequests.
From S2P Require Import RunnerDispatch RunnerTurns.
#[local] Open Scope Z_scope.

Section Reachable.
Context `{X : Externals, L : !ExternalLaws X, Y : Serialization, R : RunnerExternals}.
Context (answers : DbRequest → option DbResponse → result (StoreFailure DbResponse) DbResponse → Prop).

(** The states of a runner that serves [registry] as [node]. *)
Definition runs (registry : TaskRegistry) (node : Uuid) (s : RunnerState) : Prop :=
  ∃ metrics health drawn now,
    runner_reaches (runner_conf registry node) answers
      (run_start (runner_conf registry node) now
         (runner_new (runner_conf registry node) metrics health drawn now)) s.

Lemma runs_accounts registry node s :
  finalized registry → unsigned_conf registry → runs registry node s →
  accounts (runner_conf registry node) 0 s.
Proof.
  intros Hf Hu (metrics & health & drawn & now & Hr). eapply reaches_accounts; [|exact Hr].
  apply runner_start_accounts; [by apply finalized_lanes_unique|done].
Qed.
Lemma runs_contact registry node s : runs registry node s → contact s.
Proof.
  intros (metrics & health & drawn & now & Hr). eapply reaches_contact; [|exact Hr].
  left. unfold run_start. by destruct (is_clustered _).
Qed.

Lemma count_bound {A} (p : A → bool) slots l r total :
  slots + (count p l + r) = total → 0 ≤ slots → 0 ≤ r → zlen (List.filter p l) ≤ total.
Proof. rewrite zlen_filter. lia. Qed.

(** C11: in every state a runner reaches, each permit is free or held exactly once: free global
    permits and those of unfinished invocations and unread completions add up to the task
    concurrency, likewise in every lane and for database operations, so neither the invocations
    nor a lane's nor the operations ever exceed their configured limits. *)
Theorem permits_are_held_once registry node s :
  finalized registry → unsigned_conf registry → runs registry node s →
  (rn_slots s + global_holders s = cf_concurrency (rg_config registry) ∧
   zlen (List.filter ex_global_permit (rn_futures s)) ≤ cf_concurrency (rg_config registry)) ∧
  Forall (λ l, ls_slots l + local_holders (ls_name l) s = lc_concurrency (ls_conf l) ∧
    zlen (List.filter (λ e, ex_lane_permit e && String.eqb (ex_lane e) (ls_name l)) (rn_futures s))
      ≤ lc_concurrency (ls_conf l)) (rn_lanes s) ∧
  (rn_db_slots s + zlen (rn_operations s) + zlen (rn_settled s) = cf_db_concurrency (rg_config registry) ∧
   zlen (rn_operations s) ≤ cf_db_concurrency (rg_config registry)).
Proof.
  intros Hf Hu Hr. destruct (runs_accounts _ _ _ Hf Hu Hr). cbn [rc_concurrency rc_registry runner_conf] in *.
  split; [|split].
  - split; [lia|]. unfold global_holders in *.
    eapply count_bound; [rewrite <- ac_global; symmetry; apply Z.add_0_r|done|apply count_nonneg].
  - eapply Forall_impl; [exact ac_lanes|]. intros l [H1 H2 H3]. split; [lia|]. unfold local_holders in H1.
    eapply count_bound; [rewrite <- H1; symmetry; apply Z.add_0_r|done|apply count_nonneg].
  - pose proof (zlen_nonneg (rn_operations s)). pose proof (zlen_nonneg (rn_settled s)). lia.
Qed.

(** C13: a lane's count of uncommitted outcomes, which throttles its claims and keeps an owned
    lane from looking idle, is exact in every reachable state: it is the number of its outcomes
    that wait in the buffer or travel in an unacknowledged commit. *)
Theorem uncommitted_outcomes_are_counted registry node s :
  finalized registry → unsigned_conf registry → runs registry node s →
  Forall (λ l, ls_uncommitted l = count_lane (ls_name l) (rn_output s) + in_flight_commits (ls_name l) s)
    (rn_lanes s).
Proof.
  intros Hf Hu Hr. destruct (runs_accounts _ _ _ Hf Hu Hr).
  eapply Forall_impl; [exact ac_lanes|]. intros l [H1 H2 H3]. lia.
Qed.

(** C12: a node never runs one task twice at a time: in every reachable state two spawned
    invocations that were not aborted and share a task are the same invocation, and that
    invocation is the one the runner's maps name for the task. *)
Theorem a_task_runs_once registry node s :
  finalized registry → unsigned_conf registry → runs registry node s →
  ∀ i j e e' id,
    rn_futures s !! i = Some e → rn_futures s !! j = Some e' →
    ex_aborted e = false → ex_aborted e' = false →
    id ∈ t_id <$> ex_records e → id ∈ t_id <$> ex_records e' →
    i = j ∧ rn_running_tasks s !! id = Some (ex_invocation_id e).
Proof.
  intros Hf Hu Hr i j e e' id Hi Hj Ha Ha' Hid Hid'. destruct (runs_accounts _ _ _ Hf Hu Hr).
  assert (Hrun : ∀ e, e ∈ rn_futures s → ex_aborted e = false → id ∈ t_id <$> ex_records e →
    rn_running_tasks s !! id = Some (ex_invocation_id e)).
  { intros e0 He0 Hab0 Hid0. apply ac_running. exists (invocation_of e0). split; [by apply ac_live|done]. }
  assert (H1 := Hrun e (list_elem_of_lookup_2 _ _ _ Hi) Ha Hid).
  assert (H2 := Hrun e' (list_elem_of_lookup_2 _ _ _ Hj) Ha' Hid').
  split; [|exact H1]. rewrite H1 in H2. injection H2 as Heq.
  apply NoDup_app in ac_distinct as (Hn & _ & _).
  eapply (NoDup_lookup _ i j (ex_invocation_id e)); [exact Hn| |]; rewrite list_lookup_fmap.
  - by rewrite Hi.
  - rewrite Hj. simpl. by rewrite Heq.
Qed.

(** A node hands its claims back only after everything else has settled: while the request
    that returns them is in flight, the runner is draining, no invocation runs, no outcome waits
    to be committed and no other request is in flight. *)
Theorem claims_return_last registry node s id e :
  finalized registry → unsigned_conf registry → runs registry node s →
  rn_in_flight s !! id = Some e → if_request e = ReqGiveBack →
  rn_mode s = Draining ∧ rn_running s = ∅ ∧ rn_output s = [] ∧
  ∀ id' e', rn_in_flight s !! id' = Some e' → if_request e' = ReqGiveBack.
Proof.
  intros Hf Hu Hr He Hg. destruct (runs_accounts _ _ _ Hf Hu Hr). by eapply ac_give_back.
Qed.

(** Nothing is left of a runner's work. *)
Record discarded (s : RunnerState) : Prop := {
  di_running : rn_running s = ∅ ∧ rn_running_tasks s = ∅;
  di_output : rn_output s = [];
  di_in_flight : rn_in_flight s = ∅ ∧ rn_operations s = [] ∧ rn_settled s = [];
  di_futures : Forall (λ e, ex_aborted e = true) (rn_futures s);
  di_lanes : Forall (λ l, ls_tasks l = [] ∧ ls_uncommitted l = 0) (rn_lanes s);
  di_ingress : rn_ingress s = [] ∧ rn_ingress_open s = false;
}.
Lemma discard_work_discarded rc m s : accounts rc 0 s → discarded (discard_work (rset_mode m s)).
Proof.
  intros []. split; try done.
  - apply Forall_forall. intros e He. rewrite (discard_futures (rset_mode m s)) in He.
    eapply abort_all_live; [|exact He]. simpl. intros e0 He0 Hab. rewrite ac_live; [eauto|done|done|done].
  - simpl. apply Forall_fmap, Forall_true. done.
Qed.

Lemma expired_turn rc now wall s t :
  stopped s = false → rn_death_at s = Some t → t ≤ now →
  loop_turn rc now wall s = discard_work (rset_mode Dead s).
Proof.
  intros Hs Ht Hn. unfold loop_turn, expire. rewrite Hs, Ht. simpl.
  by rewrite (proj2 (Z.leb_le t now) Hn).
Qed.

(** C14: a runner that lost contact with its store gives up: in every reachable running state with
    an unanswered request there is a deadline, and the first turn at or after it leaves the runner
    dead, with every invocation aborted and every queued, buffered, delivered and in-flight piece
    of work discarded, so the store may reclaim it without two nodes working on it. *)
Theorem silence_ends_the_runner registry node s :
  finalized registry → unsigned_conf registry → runs registry node s →
  stopped s = false → rn_in_flight s ≠ ∅ →
  ∃ t, rn_death_at s = Some t ∧
    ∀ now wall, t ≤ now →
      let s' := loop_turn (runner_conf registry node) now wall s in
      rn_mode s' = Dead ∧ discarded s'.
Proof.
  intros Hf Hu Hr Hs Hi. destruct (runs_contact _ _ _ Hr) as [He|[t Ht]]; [done|].
  exists t. split; [done|]. intros now wall Hn. cbv zeta. rewrite (expired_turn _ _ _ _ t) by done.
  split; [done|]. eapply discard_work_discarded. by apply runs_accounts.
Qed.
End Reachable.

(** ** Witnesses *)

#[local] Existing Instances DemoExternals.externals DemoExternals.laws DemoSerialization.serialization.

(** One mail is delivered, dispatched, executed and its outcome flushed. *)
Section Demo.
#[local] Instance demo_sizes : RunnerExternals := {|
  record_size := 400; string_capacity := str_len; sqlx_transient _ := false;
  into_store_error e := e; store_error_code e := e |}.

Definition demo_node : Uuid := 7%N.
Definition demo_runner : RunnerConf := runner_conf demo_registry demo_node.
Definition any_answer (_ : DbRequest) (_ : option DbResponse) (_ : result (StoreFailure DbResponse) DbResponse) : Prop :=
  True.

Definition demo_mail : TaskRecord :=
  {| t_id := 1; t_parent_id := None; t_root_id := None; t_kind := Work; t_name := "mail"; t_input := "1";
     t_state := None; t_resume_input := None; t_status := Running; t_cancelled := false; t_attempts := 1;
     t_step_attempts := 1; t_lane := DEFAULT_TASK_LANE; t_last_result := None; t_idempotency_key := None;
     t_idempotency_fingerprint := None; t_idempotency_expires_at := None; t_node_id := Some demo_node;
     t_ready_at := None; t_created_at := 0; t_updated_at := 0; t_completed_at := None |}.

Definition demo_start : RunnerState :=
  run_start demo_runner 0 (runner_new demo_runner (metrics_new ["mail"; "image"; "order"] [DEFAULT_TASK_LANE])
    (health_new StartupOnly true) 1 0)%string.
Definition demo_delivered : RunnerState := rset_ingress (rn_ingress demo_start ++ [demo_mail]) demo_start.
Definition demo_accepted : RunnerState := wait_event demo_runner WakeIngress 1 1 demo_delivered.
Definition demo_dispatched : RunnerState := loop_turn demo_runner 2 2 demo_accepted.
Definition demo_executed : RunnerState :=
  match rn_futures demo_dispatched with
  | e :: after =>
      let '(completion, drawn, metrics) :=
        execute_task demo_registry e false 3 3 (rn_drawn demo_dispatched) (rn_metrics demo_dispatched) in
      rset_metrics metrics (rset_drawn drawn
        (rset_completions (rn_completions demo_dispatched ++ [completion]) (rset_futures ([] ++ after) demo_dispatched)))
  | [] => demo_dispatched
  end.
Definition demo_flushed : RunnerState := loop_turn demo_runner 4 4 demo_executed.
Definition demo_draining : RunnerState := wait_event demo_runner WakeShutdown 1 1 demo_start.
Definition demo_returning : RunnerState := loop_turn demo_runner 2 2 demo_draining.

Lemma in_memory_b s :
  (held s <=? USIZE_MAX) && (Z.of_nat (rn_drawn s) <=? U64_MAX) = true → in_memory s.
Proof. intros [H1 H2]%andb_true_iff. split; by apply Z.leb_le. Qed.

Lemma demo_unsigned : unsigned_conf demo_registry.
Proof.
  split; [vm_compute; discriminate|]. split; [vm_compute; discriminate|].
  assert (H : forallb (λ l, 0 <=? lc_concurrency l) (rg_lanes demo_registry) = true) by (vm_compute; reflexivity).
  rewrite forallb_forall in H. apply Forall_forall. intros l Hl. apply Z.leb_le, H. by apply list_elem_of_In.
Qed.

Lemma demo_step s s' :
  runs any_answer demo_registry demo_node s → runner_step demo_runner any_answer s s' →
  (held s' <=? USIZE_MAX) && (Z.of_nat (rn_drawn s') <=? U64_MAX) = true →
  runs any_answer demo_registry demo_node s'.
Proof.
  intros (metrics & health & drawn & now & Hr) Hs Hm. exists metrics, health, drawn, now.
  eapply reaches_step; [exact Hr|exact Hs|]. by apply in_memory_b.
Qed.
Lemma demo_runs_start : runs any_answer demo_registry demo_node demo_start.
Proof.
  do 4 eexists. apply reaches_start, in_memory_b. vm_compute. reflexivity.
Qed.
Lemma demo_runs_dispatched : runs any_answer demo_registry demo_node demo_dispatched.
Proof.
  eapply demo_step; [|apply rs_turn; vm_compute; reflexivity|vm_compute; reflexivity].
  eapply demo_step; [|apply rs_wait; vm_compute; reflexivity|vm_compute; reflexivity].
  eapply demo_step; [|apply rs_deliver; vm_compute; reflexivity|vm_compute; reflexivity].
  exact demo_runs_start.
Qed.
Lemma only_live (l : list TaskExecution) :
  match l with [e] => ex_aborted e = false | _ => False end → ∃ e, l = [e] ∧ ex_aborted e = false.
Proof. destruct l as [|e [|]]; [intros []| |intros []]. by exists e. Qed.
Lemma demo_runs_executed : runs any_answer demo_registry demo_node demo_executed.
Proof.
  destruct (only_live (rn_futures demo_dispatched)) as (e & He & Ha); [vm_compute; reflexivity|].
  destruct (execute_task demo_registry e false 3 3 (rn_drawn demo_dispatched) (rn_metrics demo_dispatched))
    as [[completion drawn] metrics] eqn:Hx.
  assert (Hd : demo_executed = rset_metrics metrics (rset_drawn drawn
    (rset_completions (rn_completions demo_dispatched ++ [completion]) (rset_futures ([] ++ []) demo_dispatched)))).
  { unfold demo_executed. rewrite He, Hx. reflexivity. }
  eapply demo_step; [exact demo_runs_dispatched| |vm_compute; reflexivity].
  rewrite Hd. eapply (rs_execute demo_runner any_answer [] e []); [exact He|exact Ha|vm_compute; reflexivity|exact Hx].
Qed.
Lemma demo_runs_flushed : runs any_answer demo_registry demo_node demo_flushed.
Proof.
  eapply demo_step; [exact demo_runs_executed|apply rs_turn; vm_compute; reflexivity|vm_compute; reflexivity].
Qed.
Lemma demo_runs_returning : runs any_answer demo_registry demo_node demo_returning.
Proof.
  eapply demo_step; [|apply rs_turn; vm_compute; reflexivity|vm_compute; reflexivity].
  eapply demo_step; [|apply rs_wait; vm_compute; reflexivity|vm_compute; reflexivity].
  exact demo_runs_start.
Qed.

(** After the dispatch one of the ten permits is taken. *)
Lemma permits_are_held_once_witness :
  rn_slots demo_dispatched = 9 ∧ global_holders demo_dispatched = 1 ∧
  rn_slots demo_dispatched + global_holders demo_dispatched = cf_concurrency (rg_config demo_registry).
Proof.
  split; [vm_compute; reflexivity|]. split; [vm_compute; reflexivity|].
  destruct (permits_are_held_once any_answer demo_registry demo_node demo_dispatched
    demo_registry_finalized demo_unsigned demo_runs_dispatched) as ((H & _) & _). exact H.
Defined.

(** One outcome waits behind the claim that holds the only database permit. *)
Lemma uncommitted_outcomes_are_counted_witness :
  ls_uncommitted <$> rn_lanes demo_flushed = [1] ∧ zlen (rn_output demo_flushed) = 1 ∧
  Forall (λ l, ls_uncommitted l = count_lane (ls_name l) (rn_output demo_flushed)
    + in_flight_commits (ls_name l) demo_flushed) (rn_lanes demo_flushed).
Proof.
  split; [vm_compute; reflexivity|]. split; [vm_compute; reflexivity|].
  exact (uncommitted_outcomes_are_counted any_answer demo_registry demo_node demo_flushed
    demo_registry_finalized demo_unsigned demo_runs_flushed).
Defined.

Lemma a_task_runs_once_witness :
  ∃ e, rn_futures demo_dispatched !! 0%nat = Some e ∧
    rn_running_tasks demo_dispatched !! t_id demo_mail = Some (ex_invocation_id e).
Proof.
  assert (Hf : match rn_futures demo_dispatched !! 0%nat with
               | Some e => ex_aborted e = false ∧ t_id <$> ex_records e = [t_id demo_mail]
               | None => False
               end) by (vm_compute; split; reflexivity).
  destruct (rn_futures demo_dispatched !! 0%nat) as [e|] eqn:He; [|destruct Hf]. destruct Hf as [Ha Hr].
  exists e. split; [reflexivity|].
  assert (Hin : t_id demo_mail ∈ t_id <$> ex_records e) by (rewrite Hr; by left).
  apply (a_task_runs_once any_answer demo_registry demo_node demo_dispatched
    demo_registry_finalized demo_unsigned demo_runs_dispatched 0%nat 0%nat e e _ He He Ha Ha Hin Hin).
Defined.

Lemma claims_return_last_witness :
  ∃ id e, rn_in_flight demo_returning !! id = Some e ∧ if_request e = ReqGiveBack ∧
    rn_mode demo_returning = Draining ∧ rn_output demo_returning = [].
Proof.
  assert (Hf : if_request <$> rn_in_flight demo_returning !! 1%N = Some ReqGiveBack) by (vm_compute; reflexivity).
  destruct (rn_in_flight demo_returning !! 1%N) as [e|] eqn:He; [|discriminate Hf]. injection Hf as Hg.
  exists 1%N, e. split; [exact He|]. split; [exact Hg|].
  destruct (claims_return_last any_answer demo_registry demo_node demo_returning 1%N e
    demo_registry_finalized demo_unsigned demo_runs_returning He Hg) as (H1 & _ & H3 & _). by split.
Defined.

Lemma silence_ends_the_runner_witness :
  rn_death_at demo_dispatched = Some 72000000002 ∧
  rn_mode (loop_turn demo_runner 72000000002 9 demo_dispatched) = Dead ∧
  discarded (loop_turn demo_runner 72000000002 9 demo_dispatched).
Proof.
  assert (Hd : rn_death_at demo_dispatched = Some 72000000002) by (vm_compute; reflexivity).
  split; [exact Hd|].
  assert (Hs : stopped demo_dispatched = false) by (vm_compute; reflexivity).
  assert (Hi : rn_in_flight demo_dispatched ≠ ∅).
  { intros H. assert (Hz : length (map_to_list (rn_in_flight demo_dispatched)) = 1%nat) by (vm_compute; reflexivity).
    rewrite H in Hz. discriminate Hz. }
  destruct (silence_ends_the_runner any_answer demo_registry demo_node demo_dispatched
    demo_registry_finalized demo_unsigned demo_runs_dispatched Hs Hi) as (t & Ht & H).
  rewrite Hd in Ht. injection Ht as <-. apply (H 72000000002 9). reflexivity.
Defined.
End Demo.

(** ** Properties of the runner's queues

    What one flush, one dispatch and one cached snapshot take, keep and bound. *)

(** ** Flushes *)

Section Flush.
Context `{X : Externals, Y : Serialization, R : RunnerExternals}.

Lemma turn_weight_snoc commits c : turn_weight (commits ++ [c]) = turn_weight commits + commit_weight c.
Proof. induction commits as [|k commits IH]; simpl; [lia|]. rewrite IH. lia. Qed.

Lemma usize_saturating_leb x budget :
  0 ≤ x → budget < USIZE_MAX → (usize_saturating x <=? budget) = (x <=? budget).
Proof. intros Hx Hb. unfold usize_saturating. destruct (Z.leb_spec x budget); [apply Z.leb_le|apply Z.leb_gt]; lia. Qed.
Lemma commit_weight_spec c :
  1 ≤ commit_weight c ∧ (1 < commit_weight c → ∃ state children, commit_outcome c = Some (OutAll state children) ∧
    commit_weight c ≤ zlen children + 1).
Proof.
  unfold commit_weight, weight. destruct (commit_outcome c) as [[]|]; try (split; [done|lia]).
  pose proof (zlen_nonneg children). unfold usize_saturating, USIZE_MAX. split; [lia|].
  intros _. do 2 eexists. split; [done|]. lia.
Qed.

Lemma flush_count_spec rc s w commits :
  0 ≤ w → flush_budget rc < USIZE_MAX →
  let taken := take (flush_count rc s w commits) commits in
  Forall (λ c, commit_blocked s c = false) taken ∧
  (w ≤ flush_budget rc → w + turn_weight taken ≤ flush_budget rc) ∧
  ∀ c, commits !! flush_count rc s w commits = Some c →
    commit_blocked s c = true ∨ flush_budget rc < w + turn_weight (taken ++ [c]).
Proof.
  intros Hw Hb. revert w Hw. induction commits as [|c commits IH]; intros w Hw; cbn [flush_count].
  - split; [constructor|]. split; [simpl; lia|done].
  - pose proof (commit_weight_nonneg c) as Hc. destruct (commit_blocked s c) eqn:Hbl.
    { split; [constructor|]. split; [simpl; lia|]. intros k [= <-]. by left. }
    cbv zeta. rewrite usize_saturating_leb by lia. destruct (Z.leb_spec (w + commit_weight c) (flush_budget rc)) as [Hle|Hgt].
    + assert (Hsat : usize_saturating (w + commit_weight c) = w + commit_weight c)
        by (unfold usize_saturating; lia).
      rewrite Hsat. destruct (IH (w + commit_weight c)) as (H1 & H2 & H3); [lia|].
      split; [by constructor|]. split; [simpl; lia|]. intros k Hk. destruct (H3 k Hk) as [H|H]; [by left|right].
      simpl. lia.
    + split; [constructor|]. split; [simpl; lia|]. intros k [= <-]. right. simpl. lia.
Qed.

Lemma conf_bounds config :
  validate config = Ok tt →
  1 ≤ cf_commit_batch_size config ≤ MAX_BATCH_SIZE ∧ cf_max_all_children config ≤ MAX_BATCH_SIZE.
Proof.
  unfold validate, validate_scalars, validate_capacity. intros H. accepted. lia.
Qed.

Lemma no_saturation registry node :
  validate (rg_config registry) = Ok tt →
  let rc := runner_conf registry node in
  rc_commit_batch_size rc ≤ flush_budget rc < USIZE_MAX ∧
  flush_budget rc = Z.max (rc_commit_batch_size rc) (usize_saturating (cf_max_all_children (rg_config registry) + 1)) ∧
  cf_max_all_children (rg_config registry) + 1 ≤ flush_budget rc.
Proof.
  intros Hv. destruct (conf_bounds _ Hv) as [H1 H2]. unfold flush_budget, usize_saturating, MAX_BATCH_SIZE, USIZE_MAX in *.
  simpl in *. lia.
Qed.

(** A turn within the budget is one the store admits. *)
Lemma turn_admitted commits batch maximum :
  0 ≤ batch → Z.max batch (usize_saturating (maximum + 1)) < USIZE_MAX → zlen commits ≤ batch →
  turn_weight commits ≤ Z.max batch (usize_saturating (maximum + 1)) → validate_turn commits batch maximum = Ok tt.
Proof.
  intros Hb Hm Hl Hw. unfold validate_turn, reject_if. destruct (negb _); [done|].
  rewrite (proj2 (Z.ltb_ge batch (zlen commits)) Hl). rewrite total_weight_spec by (unfold USIZE_MAX; lia).
  rewrite Z.add_0_l, (proj2 (Z.leb_le (turn_weight commits) USIZE_MAX)) by lia.
  by rewrite (proj2 (Z.ltb_ge _ _) Hw).
Qed.

Lemma take_take_window {A} (k n : nat) (l : list A) : (k ≤ length (take n l))%nat → take k (take n l) = take k l.
Proof. rewrite length_take. intros Hk. rewrite take_take. f_equal. lia. Qed.
Lemma flush_count_le rc s w commits : (flush_count rc s w commits ≤ length commits)%nat.
Proof.
  revert w. induction commits as [|c commits IH]; intros w; simpl; [done|].
  destruct (commit_blocked s c); [lia|]. destruct (_ <=? _); [|lia]. specialize (IH (usize_saturating (w + commit_weight c))). lia.
Qed.

(** A flush takes the longest prefix of the buffer that the batch size, the weight budget and
    the lanes' other operations allow, leaves the rest in order, and is always a turn the store
    admits; no flush is made only before its time, with an empty buffer, behind a commit of an
    owned lane that is busy, or behind a join larger than the configured maximum, which the store
    would refuse. *)
Theorem flush_takes_an_admissible_prefix registry node now s :
  validate (rg_config registry) = Ok tt →
  let rc := runner_conf registry node in
  match flush_request rc now s with
  | (Some r, s') =>
      ∃ commits capacity cached, r = ReqCommit commits capacity cached ∧ commits ≠ [] ∧
        rn_output s = commits ++ rn_output s' ∧ zlen commits ≤ cf_commit_batch_size (rg_config registry) ∧
        Forall (λ c, commit_blocked s c = false) commits ∧
        validate_turn commits (cf_commit_batch_size (rg_config registry))
          (cf_max_all_children (rg_config registry)) = Ok tt ∧
        ∀ c rest, rn_output s' = c :: rest → zlen commits < cf_commit_batch_size (rg_config registry) →
          commit_blocked s c = true ∨ flush_budget rc < turn_weight (commits ++ [c])
  | (None, s') =>
      s' = s ∧ (now < rn_flush_after s ∨ rn_output s = [] ∨
        ∃ c rest, rn_output s = c :: rest ∧
          (commit_blocked s c = true ∨
           ∃ state children, commit_outcome c = Some (OutAll state children) ∧
             cf_max_all_children (rg_config registry) < zlen children))
  end.
Proof.
  intros Hv rc. destruct (no_saturation registry node Hv) as ((Hbat & Hsat) & Hbud & Hall). fold rc in Hbat, Hsat, Hbud, Hall.
  destruct (conf_bounds _ Hv) as [Hb _]. set (batch := cf_commit_batch_size (rg_config registry)) in *.
  change (rc_commit_batch_size rc) with batch in *.
  unfold flush_request. destruct (_ || _) eqn:Hempty.
  { split; [done|]. apply orb_true_iff in Hempty as [H%Z.ltb_lt|H%bool_decide_eq_true]; [by left|by right; left]. }
  apply orb_false_iff in Hempty as [_ Hne%bool_decide_eq_false].
  set (window := take (Z.to_nat (rc_commit_batch_size rc)) (rn_output s)). cbv zeta.
  destruct (flush_count_spec rc s 0 window ltac:(lia) Hsat) as (F1 & F2 & F3).
  pose proof (flush_count_le rc s 0 window) as Hle.
  assert (Hw : ∀ c, rn_output s !! flush_count rc s 0 window = Some c → (flush_count rc s 0 window < Z.to_nat batch)%nat →
    window !! flush_count rc s 0 window = Some c).
  { intros c Hc Hlt. unfold window. by rewrite lookup_take_lt. }
  unfold window in Hle at 2. rewrite length_take in Hle. change (rc_commit_batch_size rc) with batch in Hle.
  assert (Htake : take (flush_count rc s 0 window) window = take (flush_count rc s 0 window) (rn_output s)).
  { unfold window at 2. apply take_take_window. rewrite length_take. exact Hle. }
  rewrite Htake in F1, F2, F3. destruct (flush_count rc s 0 window) as [|k].
  - split; [done|]. right. right. destruct (rn_output s) as [|c rest] eqn:Ho; [done|]. exists c, rest.
    split; [done|]. destruct (F3 c) as [H|H]; [apply Hw; [done|lia]|by left|]. right.
    simpl in H. destruct (commit_weight_spec c) as [_ Hc].
    destruct Hc as (state & children & Hc & Hcw); [lia|]. exists state, children. split; [done|]. lia.
  - set (commits := take (S k) (rn_output s)) in *. do 3 eexists. split; [done|].
    cbn [rn_output rset_flush_after rset_output].
    assert (Hlen : zlen commits ≤ batch) by (unfold commits, zlen; rewrite length_take; lia).
    split; [unfold commits; by destruct (rn_output s)|]. split; [symmetry; apply take_drop|].
    split; [exact Hlen|]. split; [exact F1|]. split.
    + apply turn_admitted; [lia|lia|exact Hlen|]. rewrite <- Hbud. specialize (F2 ltac:(lia)). lia.
    + intros c rest Hrest Hlt. destruct (F3 c) as [H|H]; [|by left|right; lia].
      assert (Hc : rn_output s !! S k = Some c).
      { rewrite <- (Nat.add_0_r (S k)), <- lookup_drop. fold (drop (S k) (rn_output s)). by rewrite Hrest. }
      apply Hw; [exact Hc|]. unfold commits, zlen in Hlt. rewrite length_take in Hlt.
      apply lookup_lt_Some in Hc. lia.
Qed.
End Flush.

(** ** Dispatch *)

Section Dispatch.
Context `{X : Externals, Y : Serialization, R : RunnerExternals} (rc : RunnerConf).

(** Every record goes to the batch or stays, in order. *)
Lemma collect_batch_spec name limit tasks records remaining :
  let '(taken, kept) := collect_batch name limit tasks records remaining in
  ∃ ts ks, taken = records ++ ts ∧ kept = remaining ++ ks ∧ ts ++ ks ≡ₚ tasks ∧
    sublist ts tasks ∧ sublist ks tasks ∧ Forall (λ r, t_name r = name) ts ∧
    (zlen records ≤ limit → zlen taken ≤ limit) ∧
    (zlen taken < limit → Forall (λ r, t_name r ≠ name) ks).
Proof.
  revert records remaining. induction tasks as [|r tasks IH]; intros records remaining; cbn [collect_batch].
  { exists [], []. rewrite !app_nil_r. repeat split; try done; constructor. }
  destruct (_ && _) eqn:Hc.
  - apply andb_true_iff in Hc as [Hl%Z.ltb_lt Hn%String.eqb_eq].
    specialize (IH (records ++ [r]) remaining). destruct (collect_batch _ _ _ _ _) as [taken kept].
    destruct IH as (ts & ks & H1 & H2 & H3 & H4 & H5 & H6 & H7 & H8). exists (r :: ts), ks.
    rewrite <- app_assoc in H1. split; [exact H1|]. split; [done|]. split; [by constructor|].
    split; [by apply sublist_skip|]. split; [by apply sublist_cons|]. split; [by constructor|].
    split; [|exact H8]. intros _. apply H7. rewrite zlen_app. unfold zlen. simpl. unfold zlen in Hl. lia.
  - specialize (IH records (remaining ++ [r])). destruct (collect_batch _ _ _ _ _) as [taken kept].
    destruct IH as (ts & ks & H1 & H2 & H3 & H4 & H5 & H6 & H7 & H8). exists ts, (r :: ks).
    rewrite <- app_assoc in H2. split; [done|]. split; [exact H2|].
    split; [rewrite <- Permutation_middle; by constructor|]. split; [by apply sublist_cons|].
    split; [by apply sublist_skip|]. split; [done|]. split; [done|]. intros Hlt. constructor; [|by apply H8].
    intros Hn. apply andb_false_iff in Hc as [Hl%Z.ltb_ge|Hx%String.eqb_neq]; [|done].
    subst taken. rewrite zlen_app in Hlt. pose proof (zlen_nonneg ts). lia.
Qed.


Lemma position_spec {A} (p : A → bool) l :
  match position p l with
  | Some i => ∃ a, l !! i = Some a ∧ p a = true
  | None => Forall (λ b, p b = false) l
  end.
Proof.
  induction l as [|a l IH]; simpl; [constructor|]. destruct (p a) eqn:Hp; [by exists a|].
  destruct (position p l) as [i|]; simpl; [exact IH|by constructor].
Qed.

(** Whether the lane's own rate has no permit left. *)
Definition rate_exhausted (now : Instant) (l : LaneState) : Prop :=
  ∃ rate, ls_local_rate l = Some rate ∧ (local_available now rate).1 ≤ 0.

Lemma claim_limit_tasks limit now l : ls_tasks (claim_limit limit now l).2 = ls_tasks l.
Proof. unfold claim_limit. destruct (ls_local_rate l); [|done]. by destruct (local_available _ _). Qed.

Lemma next_invocation_spec l global now :
  let '(next, l') := next_invocation l global now in
  ls_tasks l' = ls_tasks l ∧
  match next with
  | Some i => i = 0%nat ∧ global = true ∧ 0 < ls_slots l ∨ ∃ r, ls_tasks l !! i = Some r ∧ t_kind r = Flow
  | None => Forall (λ r, t_kind r ≠ Flow) (ls_tasks l) ∧
            (global = false ∨ ls_slots l ≤ 0 ∨ rate_exhausted now l)
  end.
Proof.
  unfold next_invocation. destruct (global && (0 <? ls_slots l)) eqn:Hg.
  - apply andb_true_iff in Hg as [-> Hs%Z.ltb_lt]. pose proof (claim_limit_tasks 1 now l) as Ht.
    assert (Hlim : 0 <? (claim_limit 1 now l).1 = false → rate_exhausted now l).
    { unfold claim_limit. destruct (ls_local_rate l) as [rate|] eqn:Hr; [|done].
      destruct (local_available now rate) as [n b] eqn:Hav. simpl. intros Hn%Z.ltb_ge.
      exists rate. split; [done|]. rewrite Hav. simpl. lia. }
    destruct (claim_limit 1 now l) as [n l1]. simpl in Ht, Hlim. destruct (0 <? n) eqn:Hn.
    + split; [exact Ht|]. by left.
    + pose proof (position_spec (λ r, bool_decide (t_kind r = Flow)) (ls_tasks l1)) as Hp.
      destruct (position _ (ls_tasks l1)) as [i|].
      * destruct Hp as (r & Hr & Hk%bool_decide_eq_true). split; [exact Ht|]. right. exists r. by rewrite <- Ht.
      * assert (Hno : Forall (λ r, t_kind r ≠ Flow) (ls_tasks l)).
        { rewrite <- Ht. eapply Forall_impl; [exact Hp|]. intros r. apply bool_decide_eq_false. }
        assert (Hw : ls_tasks (local_rate_wake now l1).2 = ls_tasks l1).
        { unfold local_rate_wake. destruct (ls_local_rate l1); [|done]. by destruct (local_next_permit _ _). }
        destruct (local_rate_wake now l1) as [[wait|] l2]; simpl in *; (split; [congruence|]);
          (split; [exact Hno|]); right; right; by apply Hlim.
  - pose proof (position_spec (λ r, bool_decide (t_kind r = Flow)) (ls_tasks l)) as Hp.
    destruct (position _ (ls_tasks l)) as [i|].
    + destruct Hp as (r & Hr & Hk%bool_decide_eq_true). split; [done|]. right. by exists r.
    + assert (Hno : Forall (λ r, t_kind r ≠ Flow) (ls_tasks l)).
      { eapply Forall_impl; [exact Hp|]. intros r. apply bool_decide_eq_false. }
      assert (Hw : ls_tasks (local_rate_wake now l).2 = ls_tasks l).
      { unfold local_rate_wake. destruct (ls_local_rate l); [|done]. by destruct (local_next_permit _ _). }
      assert (Hwhy : global = false ∨ ls_slots l ≤ 0 ∨ rate_exhausted now l).
      { apply andb_false_iff in Hg as [->|Hs%Z.ltb_ge]; [by left|by right; left]. }
      destruct (local_rate_wake now l) as [[wait|] l2]; simpl in *; done.
Qed.

Lemma collect_invocation_spec l first limit registry :
  let '(records, l') := collect_invocation l first limit registry in
  ∃ more, records = first :: more ∧ more ++ ls_tasks l' ≡ₚ ls_tasks l ∧
    sublist more (ls_tasks l) ∧ sublist (ls_tasks l') (ls_tasks l) ∧
    Forall (λ r, t_name r = t_name first) more ∧ (more ≠ [] → registry_is_batch registry (t_name first) = true) ∧
    zlen records ≤ Z.max 1 limit.
Proof.
  unfold collect_invocation. destruct (_ || _) eqn:Hc.
  { exists []. repeat split; try done; try constructor; [apply sublist_nil_l|]. unfold zlen. simpl. lia. }
  apply orb_false_iff in Hc as [Hl%Z.leb_gt Hb%negb_false_iff].
  pose proof (collect_batch_spec (t_name first) limit (ls_tasks l) [first] []) as H.
  destruct (collect_batch _ _ _ _ _) as [records remaining].
  destruct H as (ts & ks & H1 & H2 & H3 & H4 & H5 & H6 & H7 & _). exists ts. simpl in *. subst remaining.
  repeat split; try done. apply Z.max_le_iff. right. apply H7. unfold zlen. simpl. lia.
Qed.

(** One dispatch of a lane takes exactly one invocation out of its queue and loses or
    reorders nothing: the head, or the first flow when work lacks permits, joined by later records
    of the same handler only if that handler takes batches; a flow needs no permits while work
    takes one of each kind; and nothing is taken only if the queue is empty, or holds no flow and
    work lacks a permit or its rate is exhausted. *)
Theorem dispatch_takes_one_invocation now slots l :
  match pop_queue rc now slots l with
  | (Some p, l') =>
      ∃ first more, pp_records p = first :: more ∧ pp_records p ++ ls_tasks l' ≡ₚ ls_tasks l ∧
        sublist more (ls_tasks l) ∧ sublist (ls_tasks l') (ls_tasks l) ∧
        (head (ls_tasks l) = Some first ∨ t_kind first = Flow) ∧
        Forall (λ r, t_name r = t_name first) more ∧
        (more ≠ [] → registry_is_batch (rc_registry rc) (t_name first) = true) ∧
        (if bool_decide (t_kind first = Flow) then ls_slots l' = ls_slots l ∧ pp_global p = false
         else ls_slots l' = ls_slots l - 1 ∧ pp_global p = true ∧ 0 < slots ∧ 0 < ls_slots l)
  | (None, l') =>
      ls_tasks l' = ls_tasks l ∧
      (ls_tasks l = [] ∨
       Forall (λ r, t_kind r ≠ Flow) (ls_tasks l) ∧ (slots ≤ 0 ∨ ls_slots l ≤ 0 ∨ rate_exhausted now l))
  end.
Proof.
  destruct (pop_queue rc now slots l) as [popped l'] eqn:Hp.
  pose proof (pop_queue_spec rc now slots l popped l' Hp) as Hspec. revert Hp. unfold pop_queue.
  pose proof (next_invocation_spec l (0 <? slots) now) as Hn.
  pose proof (next_invocation_same l (0 <? slots) now) as Hsame.
  destruct (next_invocation l (0 <? slots) now) as [next l1]. cbn [snd] in Hsame. destruct Hn as [Ht Hn]. rewrite Ht.
  destruct next as [i|].
  2: { intros [= <- <-]. destruct Hn as [H1 H2]. split; [exact Ht|]. right. split; [exact H1|].
       destruct H2 as [H2%Z.ltb_ge|H2]; [by left|by right]. }
  destruct (ls_tasks l !! i) as [first|] eqn:Hi.
  2: { intros [= <- <-]. split; [exact Ht|]. left. destruct Hn as [(-> & _ & _)|(r & Hr & _)]; [|congruence].
       by destruct (ls_tasks l). }
  set (flow := bool_decide (t_kind first = Flow)). cbv zeta.
  destruct (negb flow && _) eqn:Hadm.
  { intros [= <- <-]. exfalso. apply andb_true_iff in Hadm as [Hfl%negb_true_iff Hadm]. unfold flow in Hfl.
    apply bool_decide_eq_false in Hfl. destruct Hn as [(-> & Hs%Z.ltb_lt & Hl)|(r & Hr & Hk)]; [|congruence].
    apply orb_true_iff in Hadm as [H%Z.leb_le|H%Z.leb_le]; [lia|]. rewrite (lm_slots _ _ Hsame) in H. lia. }
  set (l2 := lset_tasks _ _). set (count := zlen (ls_tasks l2) + 1).
  assert (H3 : ls_tasks (if flow then (count, l2) else claim_limit count now l2).2 = delete i (ls_tasks l)).
  { rewrite <- Ht. unfold l2. destruct flow; [done|]. by rewrite claim_limit_tasks. }
  destruct (if flow then (count, l2) else claim_limit count now l2) as [limit l3]. simpl in H3.
  pose proof (collect_invocation_spec l3 first limit (rc_registry rc)) as Hc.
  destruct (collect_invocation l3 first limit (rc_registry rc)) as [records l4].
  destruct Hc as (more & -> & C1 & C2 & C3 & C4 & C5 & _). rewrite H3 in C1, C2, C3.
  pose proof (sublist_delete (ls_tasks l) i) as Hdel.
  assert (H5 : ls_tasks (if flow then l4 else consume_local_rate (zlen (first :: more)) now l4) = ls_tasks l4).
  { destruct flow; [done|]. unfold consume_local_rate. by destruct (ls_local_rate l4). }
  intros [= <- <-]. rewrite H5. cbn [pp_records pp_global pp_local] in *. exists first, more.
  split; [done|]. split; [simpl; rewrite C1; symmetry; by apply delete_Permutation|].
  split; [by etrans|]. split; [by etrans|]. split.
  { destruct Hn as [(-> & _ & _)|(r & Hr & Hk)]; [left|right; congruence]. by destruct (ls_tasks l). }
  split; [exact C4|]. split; [exact C5|]. destruct Hspec as (_ & _ & _ & _ & Hs & Hg).
  fold flow. destruct flow; simpl in *; [split; [lia|done]|]. destruct Hg as [G1 G2]; [done|].
  split; [lia|]. split; [done|]. by split.
Qed.
End Dispatch.

(** ** The flow cache *)

Section Cache.
Context `{R : RunnerExternals, RL : !RunnerLaws R}.

Definition snapshot_bytes (cache : list (TaskId * TaskRecord)) : Z := zsum ((λ e, flow_bytes e.2) <$> cache).
(** A flow that may still be dispatched. *)
Definition resumable (r : TaskRecord) : bool :=
  bool_decide (t_kind r = Flow) && match t_status r with Succeeded | Failed => false | _ => true end.

Record cache_ok (l : LaneState) : Prop := {
  ck_ids : NoDup (ls_flow_cache l).*1;
  ck_records : Forall (λ e, t_id e.2 = e.1 ∧ resumable e.2 = true) (ls_flow_cache l);
  ck_bytes : ls_cached_bytes l = snapshot_bytes (ls_flow_cache l);
  ck_bound : ls_cached_bytes l ≤ cache_bytes (ls_conf l);
}.

Lemma string_capacity_nonneg s : 0 ≤ string_capacity s.
Proof. pose proof (string_capacity_len s). unfold str_len in *. lia. Qed.
Lemma flow_bytes_nonneg r : 0 ≤ flow_bytes r.
Proof.
  unfold flow_bytes. pose proof record_size_nonneg.
  assert (∀ o, 0 ≤ capacity_of o) by (intros [t|]; [apply string_capacity_nonneg|done]).
  repeat match goal with |- context [capacity_of ?o] => generalize (H0 o); generalize (capacity_of o); intros end.
  pose proof (string_capacity_nonneg (t_input r)). pose proof (string_capacity_nonneg (t_name r)).
  pose proof (string_capacity_nonneg (t_lane r)). lia.
Qed.
Lemma snapshot_bytes_nonneg cache : 0 ≤ snapshot_bytes cache.
Proof. apply zsum_fmap_nonneg. intros. apply flow_bytes_nonneg. Qed.

(** Dropping one identifier. *)
Definition without (id : TaskId) (cache : list (TaskId * TaskRecord)) : list (TaskId * TaskRecord) :=
  List.filter (λ e, negb (e.1 =? id)%N) cache.
Lemma without_ids id cache : (without id cache).*1 = List.filter (λ i, negb (i =? id)%N) cache.*1.
Proof. induction cache as [|e cache IH]; [done|]. simpl. destruct (negb _); csimpl; by rewrite IH. Qed.
Lemma without_absent id cache : id ∉ cache.*1 → without id cache = cache.
Proof.
  induction cache as [|e cache IH]; [done|]. csimpl. intros [Hne Hn]%not_elem_of_cons.
  rewrite (proj2 (N.eqb_neq e.1 id)) by done. simpl. by rewrite IH.
Qed.
Lemma without_found id cache e :
  NoDup cache.*1 → List.find (λ e, (e.1 =? id)%N) cache = Some e →
  snapshot_bytes cache = flow_bytes e.2 + snapshot_bytes (without id cache).
Proof.
  induction cache as [|x cache IH]; [done|]. csimpl. intros [Hn Hd]%NoDup_cons.
  destruct (N.eqb_spec x.1 id) as [Hx|Hx]; simpl.
  - intros [= <-]. fold (without id cache). rewrite without_absent by congruence. done.
  - intros Hf. fold (without id cache). unfold snapshot_bytes in *. rewrite !fmap_cons, !zsum_cons, (IH Hd Hf). lia.
Qed.
Lemma without_missing id cache : List.find (λ e, (e.1 =? id)%N) cache = None → without id cache = cache.
Proof.
  intros Hf. apply without_absent. intros (e & -> & He)%list_elem_of_fmap.
  apply find_none with (x := e) in Hf; [|by apply list_elem_of_In]. by rewrite N.eqb_refl in Hf.
Qed.

Lemma forget_flow_ok id l :
  cache_ok l → cache_ok (forget_flow id l) ∧ ls_flow_cache (forget_flow id l) = without id (ls_flow_cache l) ∧
  ls_conf (forget_flow id l) = ls_conf l.
Proof.
  intros []. unfold forget_flow. destruct (List.find _ _) as [[i old]|] eqn:Hf.
  - split; [|done]. pose proof (without_found _ _ _ ck_ids0 Hf) as Hb. simpl in Hb.
    pose proof (snapshot_bytes_nonneg (without id (ls_flow_cache l))). pose proof (flow_bytes_nonneg old).
    split; simpl.
    + fold (without id (ls_flow_cache l)). rewrite without_ids.
      by apply NoDup_ListNoDup, List.NoDup_filter, NoDup_ListNoDup.
    + apply Forall_forall. intros e He. apply list_elem_of_In, filter_In in He as [He _].
      rewrite Forall_forall in ck_records0. apply ck_records0. by apply list_elem_of_In.
    + fold (without id (ls_flow_cache l)). unfold usize_saturating_sub. lia.
    + unfold usize_saturating_sub. lia.
  - split; [by split|]. split; [|done]. symmetry. by apply without_missing.
Qed.

(** The oldest snapshots go, and no more of them than needed. *)
Lemma make_room_spec limit size cache :
  limit < USIZE_MAX → 0 ≤ size ≤ limit →
  let '(kept, bytes) := make_room limit size cache (snapshot_bytes cache) in
  ∃ dropped, cache = dropped ++ kept ∧ bytes = snapshot_bytes kept ∧ bytes + size ≤ limit ∧
    ∀ before last, dropped = before ++ [last] → limit < flow_bytes last.2 + bytes + size.
Proof.
  intros Hl Hs. induction cache as [|[id old] cache IH]; cbn [make_room].
  { exists []. split; [done|]. split; [done|]. split; [unfold snapshot_bytes; simpl; lia|].
    intros before last H. by destruct before. }
  pose proof (flow_bytes_nonneg old). pose proof (snapshot_bytes_nonneg cache).
  assert (Hb : snapshot_bytes ((id, old) :: cache) = flow_bytes old + snapshot_bytes cache) by done.
  rewrite Hb. destruct (Z.ltb_spec limit (usize_saturating (flow_bytes old + snapshot_bytes cache + size))) as [Hgt|Hle].
  - replace (usize_saturating_sub (flow_bytes old + snapshot_bytes cache) (flow_bytes old)) with (snapshot_bytes cache)
      by (unfold usize_saturating_sub; lia).
    destruct (make_room limit size cache (snapshot_bytes cache)) as [kept bytes].
    destruct IH as (dropped & H1 & H2 & H3 & H4). exists ((id, old) :: dropped). split; [by rewrite H1|].
    split; [done|]. split; [done|]. intros before last Hd. destruct before as [|x before].
    + injection Hd as <- ->. simpl in H1. subst. simpl. unfold usize_saturating in Hgt. lia.
    + injection Hd as _ Hd. by eapply H4.
  - exists []. split; [done|]. split; [by rewrite Hb|]. split; [unfold usize_saturating in Hle; lia|].
    intros before last Hd. by destruct before.
Qed.

(** the flow cache is consistent and bounded: remembering a snapshot keeps one entry per flow,
    an exact byte count within the lane's configured cache size, and only flows that may run
    again; the new snapshot becomes the newest entry and only as many of the oldest ones are
    evicted as it needs, while a snapshot that is terminal, no flow or larger than the whole cache
    just replaces its older version by nothing. *)
Theorem flow_cache_is_bounded r l :
  cache_ok l → cache_bytes (ls_conf l) < USIZE_MAX →
  let l' := remember_flow r l in
  cache_ok l' ∧
  if resumable r && (flow_bytes r <=? cache_bytes (ls_conf l)) then
    ∃ dropped kept, without (t_id r) (ls_flow_cache l) = dropped ++ kept ∧
      ls_flow_cache l' = kept ++ [(t_id r, r)] ∧
      ∀ before last, dropped = before ++ [last] →
        cache_bytes (ls_conf l) < flow_bytes last.2 + snapshot_bytes kept + flow_bytes r
  else ls_flow_cache l' = without (t_id r) (ls_flow_cache l).
Proof.
  intros Hok Hl. cbv zeta. unfold remember_flow.
  destruct (forget_flow_ok (t_id r) l Hok) as (Hf & Hc & Hconf). rewrite Hconf.
  replace (negb (bool_decide (t_kind r = Flow)) || _ || (cache_bytes (ls_conf l) <? flow_bytes r))
    with (negb (resumable r && (flow_bytes r <=? cache_bytes (ls_conf l)))).
  2: { unfold resumable. rewrite Z.ltb_antisym, !negb_andb. do 2 f_equal. by destruct (t_status r). }
  destruct (resumable r && _) eqn:He; simpl; [|by split].
  apply andb_true_iff in He as [Hr Hs%Z.leb_le]. pose proof (flow_bytes_nonneg r) as Hpos.
  destruct Hf as [F1 F2 F3 F4]. rewrite F3, Hc.
  pose proof (make_room_spec (cache_bytes (ls_conf l)) (flow_bytes r) (without (t_id r) (ls_flow_cache l)) Hl
    (conj Hpos Hs)) as H.
  destruct (make_room _ _ _ _) as [kept bytes]. destruct H as (dropped & H1 & H2 & H3 & H4).
  rewrite Hc, H1 in F1, F2. split.
  2: { exists dropped, kept. split; [done|]. split; [done|]. intros before last Hd. rewrite <- H2. by eapply H4. }
  split; simpl.
  - rewrite fmap_app in F1 |- *. apply NoDup_app in F1 as (_ & _ & F1). apply NoDup_app. split; [exact F1|].
    split; [|apply NoDup_singleton]. intros i Hi ->%list_elem_of_singleton. simpl in Hi.
    assert (Hin : t_id r ∈ (without (t_id r) (ls_flow_cache l)).*1) by (rewrite H1, fmap_app; set_solver).
    rewrite without_ids in Hin. apply list_elem_of_In, filter_In in Hin as [_ Hx]. by rewrite N.eqb_refl in Hx.
  - apply Forall_app in F2 as [_ F2]. apply Forall_app. split; [exact F2|]. by repeat constructor.
  - unfold snapshot_bytes in *. rewrite fmap_app, zsum_app, <- H2. simpl. lia.
  - rewrite Hconf. lia.
Qed.
End Cache.

(** ** Witnesses *)

#[local] Existing Instances DemoExternals.externals DemoSerialization.serialization demo_sizes.

Definition demo_commit (id : TaskId) : TaskCommit :=
  CommitOutcome demo_node 1 id DEFAULT_TASK_LANE OutComplete None.

(** Both buffered outcomes are flushed at once. *)
Lemma flush_takes_an_admissible_prefix_witness :
  validate (rg_config demo_registry) = Ok tt ∧
  ∃ s' capacity cached,
    flush_request demo_runner 1 (rset_output [demo_commit 1; demo_commit 2] demo_start)
      = (Some (ReqCommit [demo_commit 1; demo_commit 2] capacity cached), s') ∧
    validate_turn [demo_commit 1; demo_commit 2] (cf_commit_batch_size (rg_config demo_registry))
      (cf_max_all_children (rg_config demo_registry)) = Ok tt.
Proof.
  assert (Hv : validate (rg_config demo_registry) = Ok tt) by (vm_compute; reflexivity).
  split; [exact Hv|].
  pose proof (flush_takes_an_admissible_prefix demo_registry demo_node 1
    (rset_output [demo_commit 1; demo_commit 2] demo_start) Hv) as H. cbv zeta in H. fold demo_runner in H.
  assert (Hc : match (flush_request demo_runner 1 (rset_output [demo_commit 1; demo_commit 2] demo_start)).1 with
               | Some r => request_commits r = [demo_commit 1; demo_commit 2] | None => False end)
    by (vm_compute; reflexivity).
  destruct (flush_request demo_runner 1 (rset_output [demo_commit 1; demo_commit 2] demo_start)) as [[r|] s'];
    [|destruct Hc].
  destruct H as (commits & capacity & cached & -> & _ & _ & _ & _ & Ht & _).
  cbn [fst request_commits] in Hc. subst commits. exists s', capacity, cached. split; [reflexivity|exact Ht].
Defined.

#[local] Instance demo_sizes_ok : RunnerLaws demo_sizes.
Proof. split; [done|]. intros s. apply Z.le_refl. Qed.

Definition demo_lane : LaneState := lane_state_new 0 (with_sticky true (lane_conf_new DEFAULT_TASK_LANE 4)).
Definition demo_flow (id : TaskId) : TaskRecord := demo_record id Flow "order" DEFAULT_TASK_LANE.

Lemma flow_cache_is_bounded_witness :
  cache_ok demo_lane ∧ ls_flow_cache (remember_flow (demo_flow 3) demo_lane) = [(3%N, demo_flow 3)] ∧
  cache_ok (remember_flow (demo_flow 3) demo_lane).
Proof.
  assert (H0 : cache_ok demo_lane).
  { split; [apply NoDup_nil_2|apply List.Forall_nil|reflexivity|vm_compute; discriminate]. }
  split; [exact H0|]. split; [vm_compute; reflexivity|].
  assert (Hl : cache_bytes (ls_conf demo_lane) < USIZE_MAX) by (vm_compute; reflexivity).
  exact (proj1 (flow_cache_is_bounded (demo_flow 3) demo_lane H0 Hl)).
Defined.
