(* ===== verification/CacheKeys.v ===== *)
(** * Cache keys, scopes and errors ([cache/key.rs], [cache/error.rs], names of [cache/config.rs])

    A cache key spells the provider, the namespaces and the application key
    with their lengths, so that no two different triples share a spelling and a
    provider's scope is a prefix of its own keys only; both are proved here. *)
From S2P Require Import Prelude Externals.
#[local] Open Scope Z_scope.

(** The content of a [Bytes]. *)
Abbreviation Bytes := string (only parsing).
Abbreviation CacheName := string (only parsing).
Abbreviation CacheKey := string (only parsing).
Abbreviation CacheScope := string (only parsing).

Inductive CacheError :=
  | InvalidProviderName
  | ProviderNotFound
  | DuplicateProvider
  | MissingDefaultProvider
  | InvalidDefaultProvider
  | InvalidKey
  | BulkLimitExceeded
  | ValueTooLarge
  | InvalidTtl
  | CacheSerialize (error : JsonError)
  | CacheDeserialize (error : JsonError)
  | InvalidInteger
  | IntegerOverflow
  | UnsupportedOperation
  | InvalidProviderConfig
  | CacheProviderFailed (operation : string).

Definition DEFAULT_CACHE : CacheName := "default"%string.
Definition MAX_KEY_BYTES : Z := 512.
Definition MAX_NAMESPACE_BYTES : Z := 128.
Definition MAX_NAMESPACE_DEPTH : Z := 8.
Definition MAX_BULK_ITEMS : Z := 256.

(** [u8::is_ascii_alphanumeric] and [u8::is_ascii_control]. *)
Definition is_ascii_alphanumeric (c : Ascii.ascii) : bool :=
  let n := Ascii.N_of_ascii c in
  ((48 <=? n)%N && (n <=? 57)%N) || ((65 <=? n)%N && (n <=? 90)%N) || ((97 <=? n)%N && (n <=? 122)%N).
Definition is_ascii_control (c : Ascii.ascii) : bool :=
  let n := Ascii.N_of_ascii c in (n <? 32)%N || (n =? 127)%N.

Definition validate_provider_name (value : string) : result CacheError unit :=
  if negb (str_len value =? 0) && (str_len value <=? 64)
     && forallb (λ byte, is_ascii_alphanumeric byte || bool_decide (byte = Ascii.ascii_of_nat 45)
                         || bool_decide (byte = Ascii.ascii_of_nat 95))
          (String.list_ascii_of_string value)
  then Ok tt else Err InvalidProviderName.

Definition validate_cache_key (value : string) (limit : Z) : result CacheError unit :=
  if negb (str_len value =? 0) && (str_len value <=? limit)
     && negb (existsb is_ascii_control (String.list_ascii_of_string value))
  then Ok tt else Err InvalidKey.

Definition append_part (output value : string) : string :=
  output +:+ pretty (str_len value) +:+ ":" +:+ value +:+ ":".

Definition provider_scope (provider : CacheName) : string :=
  append_part "vyuh-cache:v1:provider:" provider +:+ ":".

(** The loop over the namespaces: each is validated when its turn comes. *)
Fixpoint append_namespaces (output : string) (namespaces : list string) : result CacheError string :=
  match namespaces with
  | [] => Ok output
  | namespace :: namespaces =>
      let? _ := validate_cache_key namespace MAX_NAMESPACE_BYTES in
      append_namespaces (append_part output namespace) namespaces
  end.

Definition cache_key (provider : CacheName) (namespaces : list string) (key : string) :
    result CacheError CacheKey :=
  let? _ := validate_cache_key key MAX_KEY_BYTES in
  if MAX_NAMESPACE_DEPTH <? zlen namespaces then Err InvalidKey
  else
    let output := provider_scope provider +:+ "ns:" +:+ pretty (zlen namespaces) +:+ ":" in
    let? output := append_namespaces output namespaces in
    Ok (append_part (output +:+ "key:") key).

Definition cache_scope (provider : CacheName) : CacheScope := provider_scope provider.

(** ** Reading a spelling back *)

(** The text [append_part] adds. *)
Definition part (value : string) : string := pretty (str_len value) +:+ ":" +:+ value +:+ ":".

Lemma append_part_eq output value : append_part output value = output +:+ part value.
Proof. done. Qed.

Definition colon : Ascii.ascii := Ascii.ascii_of_nat 58.

(** No colon occurs in the text. *)
Definition colonless (s : string) : Prop := Forall (λ c, c ≠ colon) (String.list_ascii_of_string s).

(** Two texts without a colon that continue with one are the same up to it. *)
Lemma colon_split (a b c d : string) :
  colonless a → colonless b → a +:+ ":" +:+ c = b +:+ ":" +:+ d → a = b ∧ c = d.
Proof.
  unfold colonless. revert b.
  induction a as [|x a IH]; intros [|y b] Ha Hb; simpl in *; decompose_Forall_hyps;
    rewrite ?string_app_cons.
  - intros [= Heq]. by split.
  - intros [= Heq _]. by destruct H.
  - intros [= Heq _]. by destruct H.
  - intros [= -> Heq]. apply IH in Heq as [-> ->]; done.
Qed.

Lemma pretty_digit_colonless n : pretty_N_char n ≠ colon.
Proof. unfold pretty_N_char. by repeat case_match. Qed.

Lemma pretty_N_go_colonless n s : colonless s → colonless (pretty_N_go n s).
Proof.
  revert s. induction n as [n IH] using (well_founded_induction N.lt_wf_0). intros s Hs.
  destruct (decide (0 < n)%N) as [Hn|Hn].
  - rewrite pretty_N_go_step by done. apply IH; [by apply N.div_lt|].
    constructor; [apply pretty_digit_colonless|done].
  - assert (n = 0%N) as -> by lia. done.
Qed.

Lemma pretty_nonneg_colonless z : 0 ≤ z → colonless (pretty z).
Proof.
  intros Hz.
  assert (Hgo : ∀ n : N, colonless (pretty n)).
  { intros n. unfold pretty, pretty_N. case_decide; [by repeat constructor|].
    apply pretty_N_go_colonless. constructor. }
  destruct z as [|p|p]; [by repeat constructor|exact (Hgo (Npos p))|lia].
Qed.

(** A part determines its text and where it ends. *)
Lemma part_inj (a b r s : string) : part a +:+ r = part b +:+ s → a = b ∧ r = s.
Proof.
  unfold part. rewrite <- !string_app_assoc. intros H.
  apply colon_split in H as [Hlen H]; [|apply pretty_nonneg_colonless, str_len_nonneg..].
  apply (inj pretty) in Hlen. unfold str_len in Hlen.
  apply string_app_inv_length in H as [-> H]; [|lia]. rewrite !string_app_cons in H.
  by injection H.
Qed.

Definition parts (l : list string) : string := foldr (λ a s, part a +:+ s) EmptyString l.

Lemma parts_inj (l k : list string) r s :
  length l = length k → parts l +:+ r = parts k +:+ s → l = k ∧ r = s.
Proof.
  revert k. induction l as [|a l IH]; intros [|b k]; simpl; [done..|].
  intros [= Hlen]. rewrite <- !string_app_assoc. intros H.
  apply part_inj in H as [-> H]. apply IH in H as [-> ->]; done.
Qed.

Lemma append_namespaces_ok output namespaces text :
  append_namespaces output namespaces = Ok text → text = output +:+ parts namespaces.
Proof.
  revert output. induction namespaces as [|n ns IH]; intros output; simpl.
  - intros [= <-]. by rewrite string_app_nil_r.
  - intros (? & _ & H)%result_bind_ok. apply IH in H as ->.
    by rewrite append_part_eq, <- string_app_assoc.
Qed.

(** The spelling of a valid key. *)
Lemma cache_key_ok provider namespaces key text :
  cache_key provider namespaces key = Ok text →
  text = "vyuh-cache:v1:provider:" +:+ (part provider +:+ (":ns:" +:+ (pretty (zlen namespaces)
           +:+ (":" +:+ (parts namespaces +:+ ("key:" +:+ part key)))))).
Proof.
  unfold cache_key. intros (? & _ & H)%result_bind_ok. case_match; [done|].
  apply result_bind_ok in H as (out & Hns & [= <-]). apply append_namespaces_ok in Hns as ->.
  unfold provider_scope. rewrite !append_part_eq. by rewrite <- !string_app_assoc.
Qed.

Lemma cache_scope_eq provider :
  cache_scope provider = "vyuh-cache:v1:provider:" +:+ (part provider +:+ ":").
Proof. unfold cache_scope, provider_scope. by rewrite append_part_eq, <- string_app_assoc. Qed.

(** The application's part of a key is read back from its spelling. *)
Lemma cache_key_inj provider provider' namespaces namespaces' key key' text :
  cache_key provider namespaces key = Ok text → cache_key provider' namespaces' key' = Ok text →
  provider = provider' ∧ namespaces = namespaces' ∧ key = key'.
Proof.
  intros H1%cache_key_ok H2%cache_key_ok. rewrite H1 in H2. clear H1 text.
  apply string_app_inv_length in H2 as [_ H]; [|done].
  apply part_inj in H as [-> H]. apply string_app_inv_length in H as [_ H]; [|done].
  apply colon_split in H as [Hlen H]; [|apply pretty_nonneg_colonless, zlen_nonneg..].
  apply (inj pretty) in Hlen. unfold zlen in Hlen.
  apply parts_inj in H as [-> H]; [|lia]. apply string_app_inv_length in H as [_ H]; [|done].
  rewrite <- (string_app_nil_r (part key)), <- (string_app_nil_r (part key')) in H.
  by apply part_inj in H as [-> _].
Qed.

Lemma prefix_spec (a b : string) : String.prefix a b = true ↔ ∃ c, b = a +:+ c.
Proof.
  revert b. induction a as [|x a IH]; intros b.
  - split; [|by destruct b]. intros _. by exists b.
  - destruct b as [|y b]; [split; [done|intros [c Hc]; discriminate Hc]|].
    cbn [String.prefix]. destruct (Ascii.ascii_dec x y) as [->|Hne].
    + rewrite IH. split; intros [c Hc]; exists c; rewrite string_app_cons in *; congruence.
    + split; [done|]. intros [c Hc]. rewrite string_app_cons in Hc. congruence.
Qed.

(** A scope is a prefix of the keys of its own provider and of no other. *)
Lemma scope_prefix provider provider' namespaces key text :
  cache_key provider namespaces key = Ok text →
  String.prefix (cache_scope provider') text = bool_decide (provider' = provider).
Proof.
  intros H%cache_key_ok. case_bool_decide as Hp.
  - apply prefix_spec. rewrite H, cache_scope_eq, Hp.
    eexists. by rewrite <- !string_app_assoc.
  - apply not_true_is_false. intros (c & Hc)%prefix_spec. rewrite H, cache_scope_eq in Hc.
    rewrite <- !string_app_assoc in Hc. apply string_app_inv_length in Hc as [_ Hc]; [|done].
    by apply part_inj in Hc as [-> _].
Qed.

(** ** When a key is refused *)

Definition key_text_ok (limit : Z) (value : string) : Prop :=
  0 < str_len value ≤ limit ∧
  Forall (λ c, is_ascii_control c = false) (String.list_ascii_of_string value).

Lemma validate_cache_key_ok value limit :
  validate_cache_key value limit = Ok tt ↔ key_text_ok limit value.
Proof.
  unfold validate_cache_key, key_text_ok.
  assert (Hctl : existsb is_ascii_control (String.list_ascii_of_string value) = false ↔
                 Forall (λ c, is_ascii_control c = false) (String.list_ascii_of_string value)).
  { induction (String.list_ascii_of_string value) as [|c l IH]; simpl; [by split|].
    rewrite orb_false_iff, IH, Forall_cons. done. }
  rewrite <- Hctl. pose proof (str_len_nonneg value).
  destruct (existsb _ _); rewrite ?andb_false_r, ?andb_true_r; simpl; [naive_solver|].
  destruct (str_len value =? 0) eqn:?, (str_len value <=? limit) eqn:?; simpl; split; intros Hok;
    first [done | split; [lia|done] | exfalso; destruct Hok; lia].
Qed.

Lemma validate_cache_key_err value limit e :
  validate_cache_key value limit = Err e → e = InvalidKey ∧ ¬ key_text_ok limit value.
Proof.
  intros H. split.
  - unfold validate_cache_key in H. case_match; congruence.
  - intros Hok%validate_cache_key_ok. congruence.
Qed.

Definition key_ok (namespaces : list string) (key : string) : Prop :=
  key_text_ok MAX_KEY_BYTES key ∧ zlen namespaces ≤ MAX_NAMESPACE_DEPTH ∧
  Forall (key_text_ok MAX_NAMESPACE_BYTES) namespaces.

Lemma append_namespaces_err output namespaces e :
  append_namespaces output namespaces = Err e →
  e = InvalidKey ∧ ¬ Forall (key_text_ok MAX_NAMESPACE_BYTES) namespaces.
Proof.
  revert output. induction namespaces as [|n ns IH]; intros output; simpl; [done|].
  destruct (validate_cache_key n _) as [u|e'] eqn:Hn; simpl.
  - intros (-> & Hns)%IH. split; [done|]. by intros (_ & ?)%Forall_cons.
  - apply validate_cache_key_err in Hn as [-> Hn]. intros [= <-].
    split; [done|]. by intros (? & _)%Forall_cons.
Qed.

Lemma append_namespaces_valid output namespaces text :
  append_namespaces output namespaces = Ok text →
  Forall (key_text_ok MAX_NAMESPACE_BYTES) namespaces.
Proof.
  revert output. induction namespaces as [|n ns IH]; intros output; simpl; [done|].
  intros ([] & Hn%validate_cache_key_ok & H)%result_bind_ok. eauto.
Qed.

(** A key is spelled exactly when its parts are valid; the one error is [InvalidKey]. *)
Lemma cache_key_valid provider namespaces key text :
  cache_key provider namespaces key = Ok text → key_ok namespaces key.
Proof.
  unfold cache_key. intros ([] & Hk%validate_cache_key_ok & H)%result_bind_ok.
  case_match eqn:Hd; [done|]. apply result_bind_ok in H as (out & Hns & _).
  apply append_namespaces_valid in Hns. split_and!; [done|lia|done].
Qed.

Lemma cache_key_err provider namespaces key e :
  cache_key provider namespaces key = Err e → e = InvalidKey ∧ ¬ key_ok namespaces key.
Proof.
  unfold cache_key, key_ok. destruct (validate_cache_key key _) as [u|e'] eqn:Hk; simpl.
  - case_match eqn:Hd; [intros [= <-]; split; [done|lia]|].
    destruct (append_namespaces _ _) as [out|e'] eqn:Hns; simpl; [done|].
    apply append_namespaces_err in Hns as [-> Hns]. intros [= <-]. naive_solver.
  - apply validate_cache_key_err in Hk as [-> Hk]. intros [= <-]. naive_solver.
Qed.
