(* ===== verification/CacheStore.v ===== *)
(** * The bounded store behind the memory cache ([cache/memory_store.rs])

    A map and a queue of markers, oldest first. A marker names a key and the
    sequence the entry had when the marker was pushed; it is stale once the
    entry moved on, and an eviction skips it. [compact_lru] rebuilds an
    overlong queue by walking the map, whose order is not determined: the walk
    is the argument [order] of every operation that compacts. *)
From S2P Require Import Prelude Externals CacheKeys.
#[local] Open Scope Z_scope.

Record MemoryLimits := { lm_max_entries : Z; lm_max_bytes : option Z }.

Inductive MemoryAction (V R : Type) :=
  | Keep (result : R)
  | Remove (result : R)
  | Replace (value : V) (bytes : Z) (result : R).
Arguments Keep {V R} _.
Arguments Remove {V R} _.
Arguments Replace {V R} _ _ _.

Record StoredValue (V : Type) := { sv_value : V; sv_bytes : Z; sv_sequence : Z }.
Arguments sv_value {V} _.
Arguments sv_bytes {V} _.
Arguments sv_sequence {V} _.

(** A queue marker: a key and a sequence. *)
Abbreviation Marker := (string * Z)%type (only parsing).

Record BoundedStore (V : Type) := {
  st_entries : gmap string (StoredValue V);
  st_lru : list Marker;
  st_retained_bytes : Z;
  st_sequence : Z;
  st_limits : MemoryLimits;
}.
Arguments st_entries {V} _.
Arguments st_lru {V} _.
Arguments st_retained_bytes {V} _.
Arguments st_sequence {V} _.
Arguments st_limits {V} _.

Section Store.
Context {V : Type}.
Implicit Types (s : BoundedStore V) (e : StoredValue V).

Definition put_entries (v : gmap string (StoredValue V)) s : BoundedStore V :=
  {| st_entries := v; st_lru := st_lru s; st_retained_bytes := st_retained_bytes s;
     st_sequence := st_sequence s; st_limits := st_limits s |}.
Definition put_lru (v : list Marker) s : BoundedStore V :=
  {| st_entries := st_entries s; st_lru := v; st_retained_bytes := st_retained_bytes s;
     st_sequence := st_sequence s; st_limits := st_limits s |}.
Definition put_retained_bytes (v : Z) s : BoundedStore V :=
  {| st_entries := st_entries s; st_lru := st_lru s; st_retained_bytes := v;
     st_sequence := st_sequence s; st_limits := st_limits s |}.
Definition put_sequence (v : Z) s : BoundedStore V :=
  {| st_entries := st_entries s; st_lru := st_lru s; st_retained_bytes := st_retained_bytes s;
     st_sequence := v; st_limits := st_limits s |}.
Definition put_limits (v : MemoryLimits) s : BoundedStore V :=
  {| st_entries := st_entries s; st_lru := st_lru s; st_retained_bytes := st_retained_bytes s;
     st_sequence := st_sequence s; st_limits := v |}.

Definition store_new (limits : MemoryLimits) : BoundedStore V :=
  {| st_entries := ∅; st_lru := []; st_retained_bytes := 0; st_sequence := 0; st_limits := limits |}.

(** The number of entries. *)
Definition entry_count s : Z := Z.of_nat (size (st_entries s)).

(** A walk of the map in the map's own order. *)
Definition Walk : Type := gmap string (StoredValue V) → list (string * StoredValue V).

(** [wrapping_add]. *)
Definition next_sequence s : Z * BoundedStore V :=
  let sequence := (st_sequence s + 1) `mod` (U64_MAX + 1) in
  (sequence, put_sequence sequence s).

Definition lru_limit s : Z :=
  usize_saturating (usize_saturating (entry_count s * 4) + 16).

Definition compact_lru (order : Walk) s : BoundedStore V :=
  if zlen (st_lru s) <=? lru_limit s then s
  else put_lru ((λ x, (x.1, sv_sequence x.2)) <$> order (st_entries s)) s.

Definition store_remove (key : string) s : BoundedStore V :=
  match st_entries s !! key with
  | Some entry =>
      put_retained_bytes (usize_saturating (st_retained_bytes s - sv_bytes entry))
        (put_entries (delete key (st_entries s)) s)
  | None => s
  end.

Definition over_limit s : bool :=
  (lm_max_entries (st_limits s) <? entry_count s)
  || match lm_max_bytes (st_limits s) with
     | Some limit => limit <? st_retained_bytes s
     | None => false
     end.

Definition is_current s (m : Marker) : bool :=
  match st_entries s !! m.1 with
  | Some entry => sv_sequence entry =? m.2
  | None => false
  end.

(** Pops markers up to the first current one, whose entry goes. *)
Fixpoint pop_markers (lru : list Marker) s : bool * BoundedStore V :=
  match lru with
  | [] => (false, put_lru [] s)
  | m :: lru =>
      if is_current s m then (true, store_remove m.1 (put_lru lru s)) else pop_markers lru s
  end.
Definition evict_oldest s : bool * BoundedStore V := pop_markers (st_lru s) s.

(** The loop of [evict]: every turn that goes on has popped a marker. *)
Fixpoint evict_loop (fuel : nat) s : BoundedStore V :=
  match fuel with
  | O => s
  | S fuel =>
      if over_limit s then
        let '(evicted, s) := evict_oldest s in
        if evicted then evict_loop fuel s else s
      else s
  end.
Definition evict (order : Walk) s : BoundedStore V :=
  compact_lru order (evict_loop (S (length (st_lru s))) s).

Definition store_insert (order : Walk) (key : string) (value : V) (bytes : Z) s : BoundedStore V :=
  let s := store_remove key s in
  let '(sequence, s) := next_sequence s in
  let s := put_retained_bytes (usize_saturating (st_retained_bytes s + bytes)) s in
  let s := put_entries (<[key := {| sv_value := value; sv_bytes := bytes; sv_sequence := sequence |}]>
                          (st_entries s)) s in
  let s := put_lru (st_lru s ++ [(key, sequence)]) s in
  evict order s.

(** The fold over the values saturates; of a saturating sum of sizes the order does not matter. *)
Definition store_retain (order : Walk) (keep : string → bool) s : BoundedStore V :=
  let s := put_entries (filter (λ x, keep x.1 = true) (st_entries s)) s in
  let s := put_retained_bytes
             (foldr (λ x total, usize_saturating (total + sv_bytes x.2)) 0
                (map_to_list (st_entries s))) s in
  compact_lru order s.

Definition store_touch (order : Walk) (key : string) s : BoundedStore V :=
  let '(sequence, s) := next_sequence s in
  let s := match st_entries s !! key with
           | Some entry =>
               put_lru (st_lru s ++ [(key, sequence)])
                 (put_entries (<[key := {| sv_value := sv_value entry; sv_bytes := sv_bytes entry;
                                           sv_sequence := sequence |}]> (st_entries s)) s)
           | None => s
           end in
  compact_lru order s.

Definition apply_action {R} (order : Walk) (key : string) (action : MemoryAction V R) s :
    R * BoundedStore V :=
  match action with
  | Keep result =>
      (result, if bool_decide (is_Some (st_entries s !! key)) then store_touch order key s else s)
  | Remove result => (result, store_remove key s)
  | Replace value bytes result => (result, store_insert order key value bytes s)
  end.

Definition access {R} (order : Walk) (key : string) (action : option V → MemoryAction V R) s :
    R * BoundedStore V :=
  apply_action order key (action (sv_value <$> st_entries s !! key)) s.

Definition set_limits (order : Walk) (limits : MemoryLimits) s : BoundedStore V :=
  evict order (put_limits limits s).

(** ** The calls of a store *)

(** Every method that takes the lock, with the walk its compaction would see. *)
Inductive StoreCall :=
  | CallInsert (key : string) (value : V) (bytes : Z)
  | CallRemove (key : string)
  | CallRetain (keep : string → bool)
  | CallAccess (key : string) (action : option V → MemoryAction V unit)
  | CallSetLimits (limits : MemoryLimits).

Definition run_store_call (order : Walk) (call : StoreCall) s : BoundedStore V :=
  match call with
  | CallInsert key value bytes => store_insert order key value bytes s
  | CallRemove key => store_remove key s
  | CallRetain keep => store_retain order keep s
  | CallAccess key action => (access order key action s).2
  | CallSetLimits limits => set_limits order limits s
  end.
End Store.
Arguments Walk V : clear implicits.
Arguments StoreCall V : clear implicits.

(** ** The bounded store as an ideal queue

    [queue] reads the store back as the entries in the order they would be
    evicted. Each method of the store is then an operation on that list
    ([ideal_call]): an insertion or a read moves the entry to the back, and
    while the limits do not hold the front goes. *)

(** ** The ideal store *)

(** A key with its value and its size. *)
Abbreviation Item V := (string * (V * Z))%type (only parsing).

Section Ideal.
Context {V : Type}.

Implicit Types (q : list (Item V)).

Definition total q : Z := foldr (λ x n, x.2.2 + n) 0 q.

Definition ideal_over (limits : MemoryLimits) q : bool :=
  (lm_max_entries limits <? zlen q)
  || match lm_max_bytes limits with Some limit => limit <? total q | None => false end.

Fixpoint ideal_evict (limits : MemoryLimits) q : list (Item V) :=
  match q with
  | [] => []
  | _ :: rest => if ideal_over limits q then ideal_evict limits rest else q
  end.

Definition ideal_remove (key : string) q : list (Item V) := filter (λ x, x.1 ≠ key) q.

Definition ideal_insert (limits : MemoryLimits) (key : string) (value : V) (bytes : Z) q : list (Item V) :=
  ideal_evict limits (ideal_remove key q ++ [(key, (value, bytes))]).

Definition ideal_find (key : string) q : option (Item V) := snd <$> list_find (λ x, x.1 = key) q.

Definition ideal_touch (key : string) q : list (Item V) :=
  match ideal_find key q with
  | Some x => ideal_remove key q ++ [x]
  | None => q
  end.

Definition ideal_call (limits : MemoryLimits) (call : StoreCall V) q : list (Item V) :=
  match call with
  | CallInsert key value bytes => ideal_insert limits key value bytes q
  | CallRemove key => ideal_remove key q
  | CallRetain keep => filter (λ x, keep x.1 = true) q
  | CallAccess key action =>
      match action ((λ x, x.2.1) <$> ideal_find key q) with
      | Keep _ => ideal_touch key q
      | Remove _ => ideal_remove key q
      | Replace value bytes _ => ideal_insert limits key value bytes q
      end
  | CallSetLimits limits => ideal_evict limits q
  end.

Lemma total_app q q' : total (q ++ q') = total q + total q'.
Proof. induction q as [|x q IH]; simpl; [done|]. lia. Qed.

Lemma total_perm q q' : q ≡ₚ q' → total q = total q'.
Proof. induction 1; simpl; lia. Qed.

Lemma total_nonneg q : Forall (λ x, 0 ≤ x.2.2) q → 0 ≤ total q.
Proof. induction 1; simpl; lia. Qed.

Lemma ideal_remove_absent key q : key ∉ q.*1 → ideal_remove key q = q.
Proof.
  unfold ideal_remove. induction q as [|x q IH]; [done|]. rewrite fmap_cons, not_elem_of_cons.
  intros [Hx Hq]. rewrite filter_cons_True by done. by rewrite IH.
Qed.

Lemma ideal_remove_keys key q : NoDup q.*1 → NoDup (ideal_remove key q).*1 ∧ key ∉ (ideal_remove key q).*1.
Proof.
  intros Hq. split.
  - eapply sublist_NoDup; [exact Hq|]. apply fmap_sublist. apply sublist_filter.
  - intros (x & -> & Hx)%list_elem_of_fmap. by apply list_elem_of_filter in Hx as [? _].
Qed.

Lemma total_remove key value bytes q :
  NoDup q.*1 → (key, (value, bytes)) ∈ q → total (ideal_remove key q) = total q - bytes.
Proof.
  unfold ideal_remove. induction q as [|x q IH]; simpl; [by intros _ ?%elem_of_nil|].
  intros [Hx Hq]%NoDup_cons. intros [<-|Hin]%elem_of_cons.
  - rewrite filter_cons_False by naive_solver. fold (ideal_remove key q).
    rewrite ideal_remove_absent by done. simpl. lia.
  - rewrite filter_cons_True; [simpl; rewrite IH by done; lia|].
    intros <-. destruct Hx. apply list_elem_of_fmap. by exists (x.1, (value, bytes)).
Qed.

Lemma ideal_evict_suffix limits q : ∃ dropped, q = dropped ++ ideal_evict limits q.
Proof.
  induction q as [|x q IH]; simpl; [by exists []|]. case_match; [|by exists []].
  destruct IH as [d Hd]. exists (x :: d). simpl. by f_equal.
Qed.

(** What the limits allow of nothing. *)
Definition limits_sane (limits : MemoryLimits) : Prop :=
  0 ≤ lm_max_entries limits ∧ from_option (λ l, 0 ≤ l) True (lm_max_bytes limits).

Lemma ideal_evict_within limits q : limits_sane limits → ideal_over limits (ideal_evict limits q) = false.
Proof.
  intros [He Hb]. induction q as [|x q IH]; simpl.
  - cbn [ideal_evict]. unfold ideal_over, zlen. apply orb_false_iff.
    split; [by apply Z.ltb_ge|]. destruct (lm_max_bytes limits); [by apply Z.ltb_ge|done].
  - destruct (ideal_over limits (x :: q)) eqn:Ho; done.
Qed.

Lemma ideal_evict_id limits q : ideal_over limits q = false → ideal_evict limits q = q.
Proof. destruct q as [|x q]; simpl; [done|]. by intros ->. Qed.

(** The last item of a queue survives an eviction when it fits on its own. *)
Lemma ideal_evict_last limits q x :
  ideal_over limits [x] = false → ∃ kept, ideal_evict limits (q ++ [x]) = kept ++ [x].
Proof.
  intros Hx. induction q as [|y q IH].
  - exists []. by apply ideal_evict_id.
  - simpl. case_match; [exact IH|]. by exists (y :: q).
Qed.

Lemma ideal_find_spec key q :
  NoDup q.*1 → ideal_find key q = (λ y, (key, y)) <$> (list_to_map q : gmap string (V * Z)) !! key.
Proof.
  unfold ideal_find. induction q as [|[k y] q IH]; [done|]. rewrite fmap_cons, NoDup_cons.
  intros [Hk Hq]. simpl. case_decide as Heq; simpl in *.
  - subst. by rewrite lookup_insert_eq.
  - rewrite lookup_insert_ne by done. rewrite <- IH by done.
    destruct (list_find _ q) as [[? ?]|]; done.
Qed.
End Ideal.

(** ** Reading a store back *)

Section Queue.
Context {V : Type}.
Implicit Types (s : BoundedStore V) (m : gmap string (StoredValue V)).

Definition item_of (k : string) (e : StoredValue V) : Item V := (k, (sv_value e, sv_bytes e)).

Definition current_item m (x : Marker) : option (Item V) :=
  match m !! x.1 with
  | Some e => if sv_sequence e =? x.2 then Some (item_of x.1 e) else None
  | None => None
  end.

Definition queue_of m (lru : list Marker) : list (Item V) := omap (current_item m) lru.

(** The entries in the order of their eviction. *)
Definition queue s : list (Item V) := queue_of (st_entries s) (st_lru s).

(** The entries without their sequences. *)
Definition stored m : gmap string (V * Z) := (λ e, (sv_value e, sv_bytes e)) <$> m.

Lemma queue_cons m x lru :
  queue_of m (x :: lru) =
  match current_item m x with Some y => y :: queue_of m lru | None => queue_of m lru end.
Proof. done. Qed.

Lemma elem_of_queue m lru k y :
  (k, y) ∈ queue_of m lru ↔
  ∃ e, m !! k = Some e ∧ (k, sv_sequence e) ∈ lru ∧ y = (sv_value e, sv_bytes e).
Proof.
  unfold queue_of. rewrite list_elem_of_omap. unfold current_item. split.
  - intros ([k' q] & Hin & Hx). simpl in Hx. destruct (m !! k') as [e|] eqn:He; [|done].
    destruct (Z.eqb_spec (sv_sequence e) q) as [<-|]; [|done]. injection Hx as <- <-. eauto.
  - intros (e & He & Hin & ->). exists (k, sv_sequence e). split; [done|]. simpl.
    by rewrite He, Z.eqb_refl.
Qed.

Lemma queue_keys_NoDup m lru : NoDup lru → NoDup (queue_of m lru).*1.
Proof.
  induction 1 as [|x lru Hx Hlru IH]; [constructor|]. unfold queue_of in *. simpl.
  destruct (current_item m x) as [[k y]|] eqn:Hc; [|done]. rewrite fmap_cons.
  constructor; [|done]. simpl. intros ([k' y'] & -> & Hin)%list_elem_of_fmap. simpl in *.
  apply elem_of_queue in Hin as (e & He & Hin & _). unfold current_item in Hc.
  destruct x as [k q]. simpl in Hc. destruct (m !! k) as [e'|] eqn:He'; [|done].
  destruct (Z.eqb_spec (sv_sequence e') q) as [<-|]; [|done]. injection Hc as <- _. naive_solver.
Qed.

Definition all_marked m (lru : list Marker) : Prop :=
  ∀ k e, m !! k = Some e → (k, sv_sequence e) ∈ lru.

Lemma queue_stored m lru :
  NoDup lru → all_marked m lru → list_to_map (queue_of m lru) = stored m.
Proof.
  intros Hlru Hm. apply map_eq. intros k. apply option_eq. intros y.
  rewrite <- elem_of_list_to_map by by apply queue_keys_NoDup.
  rewrite elem_of_queue. unfold stored. rewrite lookup_fmap_Some. naive_solver.
Qed.

Lemma queue_perm m lru :
  NoDup lru → all_marked m lru → queue_of m lru ≡ₚ map_to_list (stored m).
Proof.
  intros Hlru Hm. rewrite <- (queue_stored m lru) by done. symmetry.
  apply map_to_list_to_map, queue_keys_NoDup, Hlru.
Qed.

Lemma queue_length m lru :
  NoDup lru → all_marked m lru → zlen (queue_of m lru) = Z.of_nat (size m).
Proof.
  intros Hlru Hm. unfold zlen. rewrite queue_perm by done.
  rewrite length_map_to_list. unfold stored. by rewrite map_size_fmap.
Qed.

Lemma queue_delete m lru k : queue_of (delete k m) lru = ideal_remove k (queue_of m lru).
Proof.
  unfold ideal_remove. induction lru as [|x lru IH]; [done|]. rewrite !queue_cons, IH. clear IH.
  unfold current_item. destruct (decide (x.1 = k)) as [Hk|Hk].
  - rewrite Hk, lookup_delete_eq. destruct (m !! k); [|done]. destruct (_ =? x.2); [|done].
    rewrite filter_cons_False; [done|]. intros Hn. by apply Hn.
  - rewrite lookup_delete_ne by done. destruct (m !! x.1); [|done]. destruct (_ =? x.2); [|done].
    by rewrite filter_cons_True by done.
Qed.

Lemma queue_filter (keep : string → bool) m lru :
  queue_of (filter (λ x, keep x.1 = true) m) lru = filter (λ x, keep x.1 = true) (queue_of m lru).
Proof.
  induction lru as [|x lru IH]; [done|]. rewrite !queue_cons, IH. clear IH.
  unfold current_item. destruct (m !! x.1) as [e|] eqn:He.
  - destruct (keep x.1) eqn:Hk.
    + rewrite (map_lookup_filter_Some_2 _ _ _ e) by done. destruct (_ =? x.2); [|done].
      by rewrite filter_cons_True by done.
    + rewrite map_lookup_filter_None_2 by (right; intros ? ? [=]%eq_sym; simpl; congruence).
      destruct (_ =? x.2); [|done].
      by rewrite filter_cons_False by (simpl; congruence).
  - by rewrite map_lookup_filter_None_2 by auto.
Qed.

(** A fresh marker moves its entry to the back. *)
Lemma queue_push m lru k e :
  (k, sv_sequence e) ∉ lru →
  queue_of (<[k := e]> m) (lru ++ [(k, sv_sequence e)]) =
  ideal_remove k (queue_of m lru) ++ [item_of k e].
Proof.
  intros Hfresh. unfold queue_of. rewrite omap_app. f_equal.
  - fold (queue_of (<[k:=e]> m) lru) (queue_of m lru). rewrite <- queue_delete.
    induction lru as [|x lru IH]; [done|]. apply not_elem_of_cons in Hfresh as [Hx Hfresh].
    rewrite !queue_cons, IH by done. replace (current_item (<[k:=e]> m) x) with (current_item (delete k m) x);
      [done|]. unfold current_item. destruct (decide (x.1 = k)) as [Hk|Hk].
    + rewrite Hk, lookup_delete_eq, lookup_insert_eq.
      destruct (Z.eqb_spec (sv_sequence e) x.2); [|done]. destruct Hx, x; simpl in *; congruence.
    + by rewrite lookup_delete_ne, lookup_insert_ne by done.
  - simpl. unfold current_item. simpl. by rewrite lookup_insert_eq, Z.eqb_refl.
Qed.

(** The markers a compaction leaves, and what they stand for. *)
Definition walk_ok (order : Walk V) : Prop := ∀ m, order m ≡ₚ map_to_list m.

Definition markers_of (l : list (string * StoredValue V)) : list Marker :=
  (λ x, (x.1, sv_sequence x.2)) <$> l.

Lemma markers_fst l : (markers_of l).*1 = l.*1.
Proof. unfold markers_of. rewrite <- list_fmap_compose. by apply list_fmap_ext. Qed.

Section Walked.
Context (order : Walk V) (Horder : walk_ok order).

Lemma walk_keys m : NoDup (order m).*1.
Proof. rewrite (Horder m). apply NoDup_fst_map_to_list. Qed.

Lemma walk_markers_NoDup m : NoDup (markers_of (order m)).
Proof. apply (NoDup_fmap_1 fst). rewrite markers_fst. apply walk_keys. Qed.

Lemma walk_marked m : all_marked m (markers_of (order m)).
Proof.
  intros k e He. apply list_elem_of_fmap. exists (k, e). split; [done|].
  rewrite (Horder m). by apply elem_of_map_to_list.
Qed.

Lemma walk_length m : zlen (markers_of (order m)) = Z.of_nat (size m).
Proof. unfold zlen, markers_of. by rewrite length_fmap, (Horder m), length_map_to_list. Qed.

Lemma walk_old m lru bound :
  all_marked m lru → Forall (λ x : Marker, x.2 ≤ bound) lru →
  Forall (λ x : Marker, x.2 ≤ bound) (markers_of (order m)).
Proof.
  intros Hm Hold. apply Forall_forall. intros ? ([k e] & -> & Hin)%list_elem_of_fmap. simpl.
  rewrite (Horder m) in Hin. apply elem_of_map_to_list, Hm in Hin.
  rewrite Forall_forall in Hold. exact (Hold _ Hin).
Qed.
End Walked.
End Queue.
