(* ===== verification/CacheStoreSim.v ===== *)
(** * The bounded store follows the ideal queue

    [store_inv] is what every method keeps; [follows] that a method left the
    store reading as a given queue, up to the order a compaction brings in. *)
From S2P Require Import Prelude Externals CacheKeys CacheStore.
#[local] Open Scope Z_scope.

Section Sim.
Context {V : Type}.
Implicit Types (s : BoundedStore V) (m : gmap string (StoredValue V)) (q : list (Item V)).

Record store_inv s : Prop := {
  inv_nodup : NoDup (st_lru s);
  inv_old : Forall (λ x : Marker, x.2 ≤ st_sequence s) (st_lru s);
  inv_sequence : 0 ≤ st_sequence s ≤ U64_MAX;
  inv_marked : all_marked (st_entries s) (st_lru s);
  inv_sizes : Forall (λ x : Item V, 0 ≤ x.2.2) (queue s);
  inv_retained : st_retained_bytes s = total (queue s) ∧ total (queue s) ≤ USIZE_MAX;
}.

Lemma store_new_inv limits : store_inv (store_new (V:=V) limits).
Proof.
  split; simpl; [constructor|constructor|done| |constructor|done].
  intros k e. by rewrite lookup_empty.
Qed.

Lemma inv_keys s : store_inv s → NoDup (queue s).*1.
Proof. intros H. apply queue_keys_NoDup, H. Qed.

Lemma inv_stored s : store_inv s → list_to_map (queue s) = stored (st_entries s).
Proof. intros H. apply queue_stored; apply H. Qed.

Lemma inv_count s : store_inv s → entry_count s = zlen (queue s).
Proof. intros H. symmetry. apply queue_length; apply H. Qed.

Lemma inv_over s : store_inv s → over_limit s = ideal_over (st_limits s) (queue s).
Proof.
  intros H. unfold over_limit, ideal_over. rewrite (inv_count s H).
  by rewrite (proj1 (inv_retained s H)).
Qed.

Lemma inv_lookup s k e :
  store_inv s → st_entries s !! k = Some e → item_of k e ∈ queue s.
Proof. intros H He. apply elem_of_queue. exists e. split_and!; [done|by apply H|done]. Qed.

Lemma inv_find s k : store_inv s → ideal_find k (queue s) = item_of k <$> st_entries s !! k.
Proof.
  intros H. rewrite ideal_find_spec by by apply inv_keys. rewrite (inv_stored s H).
  unfold stored. rewrite lookup_fmap. by destruct (st_entries s !! k).
Qed.

(** ** Removal *)

Lemma remove_parts k s :
  st_lru (store_remove k s) = st_lru s ∧ st_sequence (store_remove k s) = st_sequence s ∧
  st_limits (store_remove k s) = st_limits s ∧
  st_entries (store_remove k s) = delete k (st_entries s).
Proof.
  unfold store_remove. destruct (st_entries s !! k) eqn:He; [done|]. by rewrite delete_id.
Qed.

Lemma remove_queue k s : queue (store_remove k s) = ideal_remove k (queue s).
Proof.
  destruct (remove_parts k s) as (Hl & _ & _ & He). unfold queue. rewrite Hl, He.
  apply queue_delete.
Qed.

Lemma remove_inv k s : store_inv s → store_inv (store_remove k s).
Proof.
  intros H. destruct (remove_parts k s) as (Hl & Hs & _ & He).
  assert (Hsizes : Forall (λ x : Item V, 0 ≤ x.2.2) (queue (store_remove k s))).
  { rewrite remove_queue. apply Forall_forall. intros x [_ Hx]%list_elem_of_filter.
    pose proof (inv_sizes s H) as Hall. rewrite Forall_forall in Hall. by apply Hall. }
  pose proof (total_nonneg _ Hsizes) as Hnn.
  destruct (inv_retained s H) as [Hr Hmax].
  split; rewrite ?Hl, ?Hs; [apply H..| |done|].
  - rewrite He. intros j e Hj. apply lookup_delete_Some in Hj as [_ Hj]. by apply H.
  - rewrite remove_queue in *. unfold store_remove.
    destruct (st_entries s !! k) as [e|] eqn:Hk; simpl.
    + rewrite (total_remove k (sv_value e) (sv_bytes e)) in *
        by first [by apply inv_keys | by apply (inv_lookup s k e)].
      pose proof (inv_sizes s H) as Hall. rewrite Forall_forall in Hall.
      specialize (Hall _ (inv_lookup s k e H Hk)). simpl in Hall.
      unfold usize_saturating. lia.
    + rewrite ideal_remove_absent; [done|].
      intros ([k' y] & -> & Hin)%list_elem_of_fmap. apply elem_of_queue in Hin as (e & He' & _).
      simpl in *. congruence.
Qed.

(** ** Eviction *)

Lemma pop_markers_spec lru s :
  NoDup lru →
  match queue_of (st_entries s) lru with
  | [] => pop_markers lru s = (false, put_lru [] s)
  | x :: rest =>
      ∃ lru', pop_markers lru s = (true, store_remove x.1 (put_lru lru' s)) ∧
        lru' `sublist_of` lru ∧ (length lru' < length lru)%nat ∧
        queue_of (delete x.1 (st_entries s)) lru' = rest ∧
        (all_marked (st_entries s) lru → all_marked (delete x.1 (st_entries s)) lru')
  end.
Proof.
  intros Hlru. induction Hlru as [|mk lru Hmk Hlru IH]; [done|]. rewrite queue_cons. simpl.
  assert (Hcur : is_current s mk = true ↔ is_Some (current_item (st_entries s) mk)).
  { unfold is_current, current_item. destruct (st_entries s !! mk.1) as [e|]; [destruct (_ =? mk.2)|];
      split; intros Hx; first [done|by eexists|by destruct Hx]. }
  destruct (is_current s mk) eqn:Hc.
  - destruct (proj1 Hcur eq_refl) as [x Hx]. rewrite Hx.
    assert (Hk : mk.1 = x.1).
    { unfold current_item in Hx. destruct (st_entries s !! mk.1); [|done].
      destruct (_ =? mk.2); [|done]. by injection Hx as <-. }
    exists lru. rewrite Hk. split_and!; [done|by apply sublist_cons|lia| |].
    + rewrite queue_delete. apply ideal_remove_absent.
      pose proof (queue_keys_NoDup (st_entries s) (mk :: lru)) as Hkeys.
      rewrite queue_cons, Hx, fmap_cons in Hkeys.
      apply NoDup_cons in Hkeys as [? _]; [done|by constructor].
    + intros Hm k e (Hne & He)%lookup_delete_Some. apply Hm, elem_of_cons in He as [<-|?]; [|done].
      by destruct Hne.
  - destruct (current_item (st_entries s) mk) as [x|] eqn:Hx; [naive_solver|].
    assert (Hm' : all_marked (st_entries s) (mk :: lru) → all_marked (st_entries s) lru).
    { intros Hm k e He. pose proof He as He'. apply Hm, elem_of_cons in He as [<-|?]; [|done].
      unfold current_item in Hx. simpl in Hx. by rewrite He', Z.eqb_refl in Hx. }
    destruct (queue_of (st_entries s) lru) as [|y rest]; [done|].
    destruct IH as (lru' & ? & ? & ? & ? & ?). exists lru'.
    split_and!; [done|by apply sublist_cons|lia|done|auto].
Qed.

(** The state a turn of the loop leaves. *)
Lemma evict_oldest_spec s x rest :
  store_inv s → queue s = x :: rest →
  ∃ s', evict_oldest s = (true, s') ∧ store_inv s' ∧ queue s' = rest ∧
    (length (st_lru s') < length (st_lru s))%nat ∧ st_limits s' = st_limits s ∧
    st_sequence s' = st_sequence s.
Proof.
  intros H Hq. pose proof (pop_markers_spec (st_lru s) s (inv_nodup s H)) as Hpop.
  fold (queue s) in Hpop. rewrite Hq in Hpop.
  destruct Hpop as (lru' & Hp & Hsub & Hlen & Hrest & Hmarked).
  eexists. split; [exact Hp|]. specialize (Hmarked (inv_marked s H)).
  destruct (remove_parts x.1 (put_lru lru' s)) as (Hl & Hs & Hlim & He). simpl in *.
  assert (Hq' : queue (store_remove x.1 (put_lru lru' s)) = rest) by (unfold queue; by rewrite He, Hl).
  destruct (inv_retained s H) as [Hr Hmax]. pose proof (inv_sizes s H) as Hsizes.
  rewrite Hq in *. simpl in Hr, Hmax. apply Forall_cons in Hsizes as [Hx Hsizes].
  pose proof (total_nonneg _ Hsizes) as Hnn.
  assert (∃ e, st_entries s !! x.1 = Some e ∧ x.2.2 = sv_bytes e) as (e & Hxe & Hxb).
  { assert (Hin : (x.1, x.2) ∈ queue s) by (rewrite Hq; destruct x; by left).
    apply elem_of_queue in Hin as (e & ? & _ & ->). by exists e. }
  split_and!; [|done|by rewrite Hl|done|done].
  split; rewrite ?Hl, ?Hs, ?Hq'.
  - eapply sublist_NoDup; [apply H|exact Hsub].
  - pose proof (inv_old s H) as Hold. rewrite Forall_forall in *. intros z Hz. apply Hold.
    by eapply elem_of_sublist.
  - apply H.
  - by rewrite He.
  - done.
  - unfold store_remove. simpl. rewrite Hxe. simpl. rewrite Hxb in *. unfold usize_saturating. lia.
Qed.

Lemma evict_loop_spec fuel s :
  store_inv s → (length (st_lru s) < fuel)%nat →
  let s' := evict_loop fuel s in
  store_inv s' ∧ queue s' = ideal_evict (st_limits s) (queue s) ∧
  (length (st_lru s') ≤ length (st_lru s))%nat ∧ st_limits s' = st_limits s ∧
  st_sequence s' = st_sequence s.
Proof.
  revert s. induction fuel as [|fuel IH]; intros s H Hf; [lia|]. simpl.
  rewrite (inv_over s H). destruct (queue s) as [|x rest] eqn:Hq.
  - pose proof (pop_markers_spec (st_lru s) s (inv_nodup s H)) as Hpop.
    fold (queue s) in Hpop. rewrite Hq in Hpop. unfold evict_oldest. rewrite Hpop.
    case_match; [|done]. split_and!; try done; [|simpl; lia].
    assert (He : ∀ k, st_entries s !! k = None).
    { intros k. destruct (st_entries s !! k) as [e|] eqn:He; [|done].
      apply (inv_lookup s k e H) in He. rewrite Hq in He. by apply elem_of_nil in He. }
    destruct (inv_retained s H) as [Hr Hmax]. rewrite Hq in Hr, Hmax.
    split; simpl; [constructor|constructor|apply H| |constructor|done].
    intros k e. by rewrite He.
  - cbn [ideal_evict]. destruct (ideal_over (st_limits s) (x :: rest)); [|done].
    destruct (evict_oldest_spec s x rest H Hq) as (s' & -> & H' & Hq' & Hlen & Hlim & Hs).
    destruct (IH s' H' ltac:(lia)) as (HA & HB & HC & HD & HE).
    rewrite Hq', Hlim in HB. rewrite Hlim in HD. rewrite Hs in HE. split_and!; try done; lia.
Qed.

(** ** Compaction *)

Section Order.
Context (order : Walk V) (Horder : walk_ok order).

Lemma compact_parts s :
  st_entries (compact_lru order s) = st_entries s ∧
  st_retained_bytes (compact_lru order s) = st_retained_bytes s ∧
  st_sequence (compact_lru order s) = st_sequence s ∧
  st_limits (compact_lru order s) = st_limits s.
Proof. unfold compact_lru. by case_match. Qed.

Lemma compact_spec s :
  store_inv s →
  let s' := compact_lru order s in
  store_inv s' ∧ queue s' ≡ₚ queue s ∧ (zlen (st_lru s) ≤ lru_limit s' → queue s' = queue s) ∧
  zlen (st_lru s') ≤ 4 * zlen (queue s') + 16.
Proof using Horder.
  intros H. simpl. assert (Hlim : lru_limit (compact_lru order s) = lru_limit s).
  { unfold lru_limit, entry_count. by rewrite (proj1 (compact_parts s)). }
  rewrite Hlim. unfold compact_lru. destruct (zlen (st_lru s) <=? lru_limit s) eqn:Hc.
  - split_and!; [done..|]. apply Z.leb_le in Hc. rewrite <- (inv_count s H).
    pose proof (zlen_nonneg (st_lru s)). unfold lru_limit, usize_saturating in Hc.
    unfold entry_count in *. lia.
  - fold (markers_of (order (st_entries s))). set (s' := put_lru _ s).
    assert (Hq : queue s' ≡ₚ queue s).
    { unfold queue. rewrite !queue_perm; [done|apply H|apply H| |];
        [by apply walk_markers_NoDup|by apply walk_marked]. }
    assert (Hinv : store_inv s').
    { destruct (inv_retained s H) as [Hr Hmax].
      split; simpl; [by apply walk_markers_NoDup| |apply H|by apply walk_marked| |].
      - eapply walk_old; [done|by apply H|apply H].
      - rewrite Hq. apply H.
      - by rewrite (total_perm _ _ Hq). }
    split_and!; [done|done|lia|].
    rewrite <- (inv_count s' Hinv). unfold s' at 1. simpl. rewrite walk_length by done.
    unfold entry_count. simpl. lia.
Qed.

(** ** What a method leaves *)

(** The store reads as [q], in the same order unless markers had piled up. *)
Definition follows s s' q : Prop :=
  queue s' ≡ₚ q ∧ (zlen (st_lru s) < lru_limit s' → queue s' = q).

(** The limits in force, [limit] bytes and what one value may add, stay within [usize]. *)
Definition room (largest : Z) (limits : MemoryLimits) : Prop :=
  0 ≤ lm_max_entries limits ∧
  ∃ limit, lm_max_bytes limits = Some limit ∧ 0 ≤ limit ∧ limit + largest ≤ USIZE_MAX.

Record store_ok (largest : Z) s : Prop := {
  ok_inv : store_inv s;
  ok_within : over_limit s = false;
  ok_markers : zlen (st_lru s) ≤ 4 * lm_max_entries (st_limits s) + 16;
  ok_room : room largest (st_limits s);
}.

Lemma room_sane largest limits : room largest limits → limits_sane limits.
Proof. intros (? & l & Hl & ? & _). split; [done|]. by rewrite Hl. Qed.

(** The end of every method: a well-formed state within its limits is compacted. *)
Lemma compact_ok largest s :
  store_inv s → over_limit s = false → room largest (st_limits s) →
  store_ok largest (compact_lru order s) ∧ queue (compact_lru order s) ≡ₚ queue s ∧
  (zlen (st_lru s) ≤ lru_limit (compact_lru order s) → queue (compact_lru order s) = queue s).
Proof using Horder.
  intros H Hover Hroom. destruct (compact_spec s H) as (H' & Hp & Hq & Hlen).
  destruct (compact_parts s) as (He & Hr & _ & Hl).
  split_and!; [|done|done]. split; [done| |rewrite Hl|by rewrite Hl].
  - unfold over_limit, entry_count. by rewrite He, Hr, Hl.
  - rewrite <- (inv_count _ H') in Hlen. unfold entry_count in Hlen. rewrite He in Hlen.
    unfold over_limit, entry_count in Hover. apply orb_false_iff in Hover as [Hover _]. lia.
Qed.

Lemma evict_ok largest s :
  store_inv s → room largest (st_limits s) →
  store_ok largest (evict order s) ∧
  queue (evict order s) ≡ₚ ideal_evict (st_limits s) (queue s) ∧
  (zlen (st_lru s) ≤ lru_limit (evict order s) →
   queue (evict order s) = ideal_evict (st_limits s) (queue s)) ∧
  st_limits (evict order s) = st_limits s ∧ st_sequence (evict order s) = st_sequence s.
Proof using Horder.
  intros H Hroom. unfold evict.
  destruct (evict_loop_spec (S (length (st_lru s))) s H ltac:(lia)) as (H' & Hq & Hlen & Hl & Hs).
  set (s' := evict_loop _ s) in *. rewrite <- Hq.
  assert (Hover : over_limit s' = false).
  { rewrite (inv_over s' H'), Hl, Hq. by eapply ideal_evict_within, room_sane. }
  destruct (compact_ok largest s' H' Hover) as (Hok & Hp & Heq); [by rewrite Hl|].
  destruct (compact_parts s') as (_ & _ & -> & ->).
  split_and!; [done|done| |done|done]. intros Hm. apply Heq. unfold zlen in *. lia.
Qed.

(** ** A fresh marker *)

Definition pushed (k : string) (v : V) (bytes retained : Z) s : BoundedStore V :=
  {| st_entries := <[k := {| sv_value := v; sv_bytes := bytes; sv_sequence := st_sequence s + 1 |}]>
                     (st_entries s);
     st_lru := st_lru s ++ [(k, st_sequence s + 1)];
     st_retained_bytes := retained;
     st_sequence := st_sequence s + 1;
     st_limits := st_limits s |}.

Lemma fresh_marker k s : store_inv s → (k, st_sequence s + 1) ∉ st_lru s.
Proof.
  intros H Hin. pose proof (inv_old s H) as Hold. rewrite Forall_forall in Hold.
  specialize (Hold _ Hin). simpl in Hold. lia.
Qed.

Lemma pushed_queue k v bytes retained s :
  store_inv s →
  queue (pushed k v bytes retained s) = ideal_remove k (queue s) ++ [(k, (v, bytes))].
Proof.
  intros H.
  exact (queue_push (st_entries s) (st_lru s) k
           {| sv_value := v; sv_bytes := bytes; sv_sequence := st_sequence s + 1 |}
           (fresh_marker k s H)).
Qed.

Lemma pushed_inv k v bytes retained s :
  store_inv s → st_sequence s < U64_MAX → 0 ≤ bytes →
  retained = total (ideal_remove k (queue s)) + bytes → retained ≤ USIZE_MAX →
  store_inv (pushed k v bytes retained s).
Proof.
  intros H Hseq Hb Hret Hmax. pose proof (pushed_queue k v bytes retained s H) as Hq.
  split.
  - apply NoDup_app. split_and!; [apply H| |apply NoDup_singleton].
    intros x Hx ->%list_elem_of_singleton. by apply (fresh_marker k s H).
  - apply Forall_app. split; [|by repeat constructor].
    eapply Forall_impl; [exact (inv_old s H)|]. simpl. lia.
  - simpl. pose proof (inv_sequence s H). lia.
  - intros j e. simpl. destruct (decide (j = k)) as [->|Hne].
    + rewrite lookup_insert_eq. intros [= <-]. apply elem_of_app. right. by left.
    + rewrite lookup_insert_ne by done. intros He%(inv_marked s H). apply elem_of_app. by left.
  - rewrite Hq. apply Forall_app. split; [|by repeat constructor].
    apply Forall_forall. intros x [_ Hx]%list_elem_of_filter.
    pose proof (inv_sizes s H) as Hall. rewrite Forall_forall in Hall. by apply Hall.
  - rewrite Hq, total_app. simpl. lia.
Qed.

(** ** The methods *)

Lemma total_filter (P : Item V → Prop) `{!∀ x, Decision (P x)} q :
  Forall (λ x, 0 ≤ x.2.2) q → total (filter P q) ≤ total q.
Proof.
  induction 1 as [|x q Hx Hq IH]; [done|]. destruct (decide (P x)).
  - rewrite filter_cons_True by done. simpl. lia.
  - rewrite filter_cons_False by done. simpl. lia.
Qed.

Lemma ideal_over_filter (P : Item V → Prop) `{!∀ x, Decision (P x)} limits q :
  Forall (λ x, 0 ≤ x.2.2) q → ideal_over limits q = false → ideal_over limits (filter P q) = false.
Proof.
  intros Hq. pose proof (total_filter P q Hq) as Ht.
  assert (zlen (filter P q) ≤ zlen q) as Hl by (unfold zlen; pose proof (length_filter P q); lia).
  unfold ideal_over. rewrite !orb_false_iff. intros [He Hb]. split; [lia|].
  destruct (lm_max_bytes limits); [lia|done].
Qed.

Definition leaves (largest : Z) s s' q : Prop :=
  store_ok largest s' ∧ follows s s' q ∧ st_sequence s' ≤ st_sequence s + 1.

Lemma leaves_intro largest s s' q :
  store_ok largest s' → queue s' ≡ₚ q → (zlen (st_lru s) < lru_limit s' → queue s' = q) →
  st_sequence s' ≤ st_sequence s + 1 → leaves largest s s' q.
Proof. intros ????. split; [done|]. split; [by split|done]. Qed.

Lemma remove_leaves largest k s :
  store_ok largest s → leaves largest s (store_remove k s) (ideal_remove k (queue s)) ∧
  st_limits (store_remove k s) = st_limits s.
Proof.
  intros [H Hover Hm Hroom]. destruct (remove_parts k s) as (Hl & Hs & Hlim & _).
  split; [|done]. apply leaves_intro; [|by rewrite remove_queue|by rewrite remove_queue|lia].
  pose proof (remove_inv k s H) as H'.
  split; rewrite ?Hlim, ?Hl; [done| |done|done].
  rewrite (inv_over _ H'), Hlim, remove_queue. apply ideal_over_filter; [apply H|].
  by rewrite <- (inv_over s H).
Qed.

Lemma insert_leaves largest k v bytes s :
  store_ok largest s → st_sequence s < U64_MAX → 0 ≤ bytes ≤ largest →
  leaves largest s (store_insert order k v bytes s)
    (ideal_insert (st_limits s) k v bytes (queue s)) ∧
  st_limits (store_insert order k v bytes s) = st_limits s.
Proof using Horder.
  intros Hok Hseq Hb. destruct (remove_leaves largest k s Hok) as [[Hok1 _] _].
  destruct (remove_parts k s) as (Hl & Hs & Hlim & He). destruct Hok1 as [H1 Hover1 _ Hroom1].
  pose proof (inv_sequence s (ok_inv _ _ Hok)) as Hpos.
  destruct (inv_retained _ H1) as [Hr Hmax]. rewrite remove_queue in Hr, Hmax.
  destruct Hroom1 as (Hroom1 & limit & Hlimit & Hl0 & Hroom2).
  assert (Htotal : 0 ≤ total (ideal_remove k (queue s)) ≤ limit).
  { rewrite <- remove_queue. split; [apply total_nonneg, H1|].
    unfold over_limit in Hover1. rewrite Hlimit, Hr, orb_false_iff in Hover1.
    rewrite remove_queue. lia. }
  set (ret := total (ideal_remove k (queue s)) + bytes).
  assert (Heq : store_insert order k v bytes s = evict order (pushed k v bytes ret (store_remove k s))).
  { unfold store_insert, next_sequence, pushed. cbn [put_sequence st_sequence].
    rewrite Z.mod_small by (rewrite Hs; lia). unfold put_lru, put_entries, put_retained_bytes. simpl.
    do 2 f_equal. rewrite Hr. unfold usize_saturating, ret. lia. }
  assert (Hid : ideal_remove k (ideal_remove k (queue s)) = ideal_remove k (queue s)).
  { apply ideal_remove_absent, ideal_remove_keys, inv_keys, Hok. }
  assert (Hp : store_inv (pushed k v bytes ret (store_remove k s))).
  { apply pushed_inv; [done|lia|lia| |unfold ret; lia]. by rewrite remove_queue, Hid. }
  rewrite Heq. destruct (evict_ok largest _ Hp) as (Hev & Hperm & Hexact & Hl' & Hs').
  { simpl. rewrite Hlim in *. split; [done|]. exists limit. done. }
  rewrite pushed_queue, remove_queue, Hid in Hperm, Hexact by done.
  simpl in *. rewrite Hlim in *. split; [|done]. apply leaves_intro; [done| | |lia].
  - exact Hperm.
  - intros Hm. apply Hexact. rewrite Hl. unfold zlen in *. rewrite length_app. simpl. lia.
Qed.

Lemma touch_leaves largest k s :
  store_ok largest s → st_sequence s < U64_MAX → is_Some (st_entries s !! k) →
  leaves largest s (store_touch order k s) (ideal_touch k (queue s)) ∧
  st_limits (store_touch order k s) = st_limits s.
Proof using Horder.
  intros [H Hover Hm Hroom] Hseq [e He].
  pose proof (inv_sequence s H) as Hpos. destruct (inv_retained s H) as [Hr Hmax].
  assert (Heq : store_touch order k s =
                compact_lru order (pushed k (sv_value e) (sv_bytes e) (st_retained_bytes s) s)).
  { unfold store_touch, next_sequence. cbn [put_sequence st_entries]. rewrite He.
    rewrite Z.mod_small by lia. done. }
  assert (Hb : 0 ≤ sv_bytes e).
  { pose proof (inv_sizes s H) as Hall. rewrite Forall_forall in Hall.
    exact (Hall _ (inv_lookup s k e H He)). }
  assert (Hp : store_inv (pushed k (sv_value e) (sv_bytes e) (st_retained_bytes s) s)).
  { apply pushed_inv; [done|done|done| |by rewrite Hr].
    rewrite (total_remove k (sv_value e) (sv_bytes e)); [lia|by apply inv_keys|by apply inv_lookup]. }
  rewrite Heq. destruct (compact_ok largest _ Hp) as (Hok & Hperm & Hexact); [|done|].
  { unfold over_limit, entry_count in *. simpl. by rewrite map_size_insert_Some. }
  rewrite pushed_queue in Hperm, Hexact by done. rewrite <- Heq in *.
  assert (Ht : ideal_touch k (queue s) = ideal_remove k (queue s) ++ [item_of k e]).
  { unfold ideal_touch. by rewrite (inv_find s k H), He. }
  rewrite Ht. destruct (compact_parts (pushed k (sv_value e) (sv_bytes e) (st_retained_bytes s) s))
    as (_ & _ & Hs & Hl). rewrite <- Heq in Hs, Hl. simpl in Hs, Hl.
  split; [|done]. apply leaves_intro; [done|done| |lia].
  intros Hlt. apply Hexact. simpl. unfold zlen in *. rewrite length_app. simpl. lia.
Qed.

Lemma saturating_total (l : list (string * StoredValue V)) q :
  Forall (λ x, 0 ≤ x.2.2) q → total q ≤ USIZE_MAX →
  (λ x, (x.1, (sv_value x.2, sv_bytes x.2))) <$> l ≡ₚ q →
  foldr (λ x n, usize_saturating (n + sv_bytes x.2)) 0 l = total q.
Proof.
  intros Hq Hmax Hp. rewrite <- (total_perm _ _ Hp) in *. rewrite <- Hp in Hq. clear Hp q.
  induction l as [|x l IH]; [done|]. rewrite fmap_cons in *. apply Forall_cons in Hq as [Hx Hq].
  pose proof (total_nonneg _ Hq). cbn [foldr total fst snd] in *.
  fold (total ((λ x, (x.1, (sv_value x.2, sv_bytes x.2))) <$> l)) in *.
  rewrite IH by (done || lia). unfold usize_saturating. lia.
Qed.

Lemma retain_leaves largest keep s :
  store_ok largest s →
  leaves largest s (store_retain order keep s) (filter (λ x, keep x.1 = true) (queue s)) ∧
  st_limits (store_retain order keep s) = st_limits s.
Proof using Horder.
  intros [H Hover Hm Hroom]. unfold store_retain.
  set (m := filter _ (st_entries s)). set (s1 := put_retained_bytes _ _).
  set (q := filter (λ x, keep x.1 = true) (queue s)).
  assert (Hq : queue s1 = q) by apply queue_filter.
  assert (Hsizes : Forall (λ x : Item V, 0 ≤ x.2.2) q).
  { apply Forall_forall. intros x [_ Hx]%list_elem_of_filter.
    pose proof (inv_sizes s H) as Hall. rewrite Forall_forall in Hall. by apply Hall. }
  assert (Hmarked : all_marked m (st_lru s)).
  { intros k e [He _]%map_lookup_filter_Some. by apply (inv_marked s H). }
  assert (Hover' : ideal_over (st_limits s) q = false).
  { apply ideal_over_filter; [apply H|]. by rewrite <- (inv_over s H). }
  destruct Hroom as (Hroom1 & limit & Hlimit & Hl0 & Hroom2).
  assert (Htotal : total q ≤ total (queue s)) by apply total_filter, H.
  destruct (inv_retained s H) as [Hr Hmax].
  assert (Hret : st_retained_bytes s1 = total q).
  { apply saturating_total; [done|lia|]. rewrite <- Hq. unfold queue.
    rewrite (queue_perm (V:=V)) by (apply H || done). simpl. unfold stored.
    rewrite map_to_list_fmap. by apply Permutation_refl'. }
  assert (H1 : store_inv s1).
  { split; [apply H|apply H|apply H|done|by rewrite Hq|rewrite Hq, Hret; split; [done|lia]]. }
  assert (Hover1 : over_limit s1 = false) by (by rewrite (inv_over s1 H1), Hq).
  destruct (compact_ok largest s1 H1 Hover1) as (Hok & Hp & Hexact).
  { split; [done|]. by exists limit. }
  destruct (compact_parts s1) as (_ & _ & Hs & Hl). rewrite Hq in *.
  split; [|by rewrite Hl]. apply leaves_intro; [done|done| |rewrite Hs; simpl; lia].
  intros Hlt. apply Hexact. simpl. lia.
Qed.

Definition call_fits (largest : Z) s (call : StoreCall V) : Prop :=
  match call with
  | CallInsert _ _ bytes => 0 ≤ bytes ≤ largest
  | CallAccess key action =>
      match action (sv_value <$> st_entries s !! key) with
      | Replace _ bytes _ => 0 ≤ bytes ≤ largest
      | _ => True
      end
  | CallSetLimits limits => room largest limits
  | _ => True
  end.

Definition call_limits (call : StoreCall V) (limits : MemoryLimits) : MemoryLimits :=
  match call with CallSetLimits limits => limits | _ => limits end.

(** Every call keeps the store well formed and leaves the ideal queue. *)
Lemma call_leaves largest call s :
  store_ok largest s → st_sequence s < U64_MAX → call_fits largest s call →
  leaves largest s (run_store_call order call s) (ideal_call (st_limits s) call (queue s)) ∧
  st_limits (run_store_call order call s) = call_limits call (st_limits s).
Proof using Horder.
  intros Hok Hseq Hfits. destruct call as [k v b|k|keep|k action|limits]; simpl in *.
  - by apply insert_leaves.
  - by apply remove_leaves.
  - by apply retain_leaves.
  - unfold access. rewrite (inv_find s k) by apply Hok.
    assert (Hv : (λ x : Item V, x.2.1) <$> (item_of k <$> st_entries s !! k) =
                 sv_value <$> st_entries s !! k) by by destruct (st_entries s !! k).
    rewrite Hv.
    destruct (action _) as [r|r|v b r]; simpl.
    + case_bool_decide as He; [by apply touch_leaves|].
      apply eq_None_not_Some in He. unfold ideal_touch. rewrite (inv_find s k), He by apply Hok.
      split; [|done]. apply leaves_intro; [done|done|done|lia].
    + by apply remove_leaves.
    + by apply insert_leaves.
  - pose proof (ok_inv _ _ Hok) as H.
    assert (H' : store_inv (put_limits limits s)) by (split; apply H).
    destruct (evict_ok largest _ H' Hfits) as (Hok' & Hp & Hexact & Hl & Hs).
    split; [|done]. simpl in *. apply leaves_intro; [done|exact Hp| |unfold set_limits; lia].
    intros Hm. apply Hexact. simpl. unfold set_limits in Hm. lia.
Qed.

(** ** Contents *)

(** The values by key. *)
Definition values s : gmap string V := sv_value <$> st_entries s.
Definition values_of q : gmap string V := fst <$> (list_to_map q : gmap string (V * Z)).

Lemma values_queue s : store_inv s → values s = values_of (queue s).
Proof.
  intros H. unfold values_of. rewrite (inv_stored s H). unfold stored, values.
  rewrite <- map_fmap_compose. done.
Qed.

Lemma values_of_perm q q' : NoDup q.*1 → q ≡ₚ q' → values_of q = values_of q'.
Proof. intros Hq Hp. unfold values_of. by rewrite (list_to_map_proper q q' Hq Hp). Qed.

Lemma list_to_map_remove k q :
  (list_to_map (ideal_remove k q) : gmap string (V * Z)) = delete k (list_to_map q).
Proof.
  unfold ideal_remove. induction q as [|[j y] q IH]; simpl.
  - by rewrite delete_empty.
  - destruct (decide (j = k)) as [->|Hne].
    + rewrite filter_cons_False by (intros Hn; by apply Hn). by rewrite IH, delete_insert_eq.
    + rewrite filter_cons_True by done. simpl. by rewrite IH, delete_insert_ne by done.
Qed.

Lemma values_of_remove k q : values_of (ideal_remove k q) = delete k (values_of q).
Proof. unfold values_of. by rewrite list_to_map_remove, fmap_delete. Qed.

Lemma values_of_push k v b q :
  NoDup q.*1 → values_of (ideal_remove k q ++ [(k, (v, b))]) = <[k := v]> (values_of q).
Proof.
  intros Hq. rewrite (values_of_perm _ ((k, (v, b)) :: ideal_remove k q)).
  - unfold values_of at 1. simpl. rewrite fmap_insert. simpl.
    change (<[k := v]> (values_of (ideal_remove k q)) = <[k := v]> (values_of q)).
    rewrite values_of_remove. apply insert_delete_eq.
  - rewrite fmap_app. destruct (ideal_remove_keys k q Hq) as [H1 H2].
    apply NoDup_app. split_and!; [done| |apply NoDup_singleton].
    by intros x Hx ->%list_elem_of_singleton.
  - by rewrite Permutation_app_comm.
Qed.

Lemma list_to_map_filter (keep : string → bool) q k :
  (list_to_map (filter (λ x, keep x.1 = true) q) : gmap string (V * Z)) !! k =
  if keep k then (list_to_map q : gmap string (V * Z)) !! k else None.
Proof.
  induction q as [|[j y] q IH]; [simpl; by destruct (keep k)|].
  destruct (keep j) eqn:Hj.
  - rewrite filter_cons_True by done. simpl. destruct (decide (j = k)) as [->|Hne].
    + by rewrite Hj, !lookup_insert_eq.
    + by rewrite !lookup_insert_ne by done.
  - rewrite filter_cons_False by (simpl; congruence). rewrite IH. simpl.
    destruct (decide (j = k)) as [->|Hne]; [by rewrite Hj|by rewrite lookup_insert_ne].
Qed.

Lemma values_of_filter (keep : string → bool) q :
  values_of (filter (λ x, keep x.1 = true) q) = filter (λ x, keep x.1 = true) (values_of q).
Proof.
  apply map_eq. intros k. unfold values_of. rewrite lookup_fmap, list_to_map_filter.
  destruct (keep k) eqn:Hk.
  - destruct (_ !! k) as [y|] eqn:Hy; simpl; symmetry.
    + apply map_lookup_filter_Some_2; [|done]. by rewrite lookup_fmap, Hy.
    + apply map_lookup_filter_None_2. left. by rewrite lookup_fmap, Hy.
  - symmetry. apply map_lookup_filter_None_2. right. intros v _. simpl. congruence.
Qed.

(** What a call makes of the queue before the limits are applied. *)
Definition ideal_target (call : StoreCall V) q : list (Item V) :=
  match call with
  | CallInsert key value bytes => ideal_remove key q ++ [(key, (value, bytes))]
  | CallAccess key action =>
      match action ((λ x, x.2.1) <$> ideal_find key q) with
      | Replace value bytes _ => ideal_remove key q ++ [(key, (value, bytes))]
      | _ => ideal_call {| lm_max_entries := 0; lm_max_bytes := None |} call q
      end
  | CallSetLimits _ => q
  | _ => ideal_call {| lm_max_entries := 0; lm_max_bytes := None |} call q
  end.

Lemma ideal_over_perm limits q q' : q ≡ₚ q' → ideal_over limits q = ideal_over limits q'.
Proof. intros Hp. unfold ideal_over, zlen. by rewrite (total_perm _ _ Hp), Hp. Qed.

Lemma ideal_touch_perm k q : NoDup q.*1 → ideal_touch k q ≡ₚ q.
Proof.
  intros Hq. unfold ideal_touch. destruct (ideal_find k q) as [x|] eqn:Hf; [|done].
  rewrite ideal_find_spec in Hf by done.
  apply fmap_Some in Hf as (y & Hy & ->). apply elem_of_list_to_map in Hy; [|done].
  rewrite Permutation_app_comm. simpl. unfold ideal_remove.
  induction q as [|z q IH]; [by apply elem_of_nil in Hy|].
  rewrite fmap_cons in Hq. apply NoDup_cons in Hq as [Hz Hq].
  apply elem_of_cons in Hy as [<-|Hy].
  - rewrite filter_cons_False by (intros Hn; by apply Hn).
    fold (ideal_remove k q). by rewrite ideal_remove_absent.
  - rewrite filter_cons_True.
    + rewrite Permutation_swap. by rewrite IH.
    + intros <-. destruct Hz. apply list_elem_of_fmap. by exists (z.1, y).
Qed.

Lemma ideal_call_target limits call q :
  NoDup q.*1 → Forall (λ x, 0 ≤ x.2.2) q → ideal_over limits q = false →
  ideal_call limits call q = ideal_evict (call_limits call limits) (ideal_target call q).
Proof.
  intros Hk Hq Hover. destruct call as [k v b|k|keep|k action|l]; simpl; [done| | | |done].
  - symmetry. by apply ideal_evict_id, ideal_over_filter.
  - symmetry. by apply ideal_evict_id, ideal_over_filter.
  - destruct (action _); [| |done]; symmetry; apply ideal_evict_id.
    + rewrite (ideal_over_perm _ _ q); [done|by apply ideal_touch_perm].
    + by apply ideal_over_filter.
Qed.

(** What a call leaves of the contents: what it makes of them, less what is evicted. *)
Lemma call_values largest call s :
  store_ok largest s → st_sequence s < U64_MAX → call_fits largest s call →
  let s' := run_store_call order call s in
  let target := ideal_target call (queue s) in
  queue s' ≡ₚ ideal_evict (call_limits call (st_limits s)) target ∧
  values s' ⊆ values_of target ∧ NoDup target.*1 ∧
  (ideal_over (call_limits call (st_limits s)) target = false → values s' = values_of target) ∧
  (∀ q0 x, target = q0 ++ [x] → ideal_over (call_limits call (st_limits s)) [x] = false →
     values s' !! x.1 = Some x.2.1).
Proof using Horder.
  intros Hok Hseq Hfits s' target. pose proof (ok_inv _ _ Hok) as H.
  destruct (call_leaves largest call s Hok Hseq Hfits) as [(Hok' & [Hp _] & _) _]. fold s' in Hok', Hp.
  assert (Hkeys : NoDup target.*1).
  { pose proof (inv_keys s H) as Hk.
    assert (Hpush : ∀ k y, NoDup (ideal_remove k (queue s) ++ [(k, y)]).*1).
    { intros k y. rewrite fmap_app. destruct (ideal_remove_keys k (queue s) Hk) as [H1 H2].
      apply NoDup_app. split_and!; [done| |apply NoDup_singleton].
      by intros x Hx ->%list_elem_of_singleton. }
    unfold target. destruct call as [k v b|k|keep|k action|l]; simpl; try done.
    - by apply ideal_remove_keys.
    - eapply sublist_NoDup; [exact Hk|]. apply fmap_sublist, sublist_filter.
    - destruct (action _); [|by apply ideal_remove_keys|done].
      by rewrite (ideal_touch_perm k (queue s) Hk). }
  rewrite ideal_call_target in Hp by first [apply H | by apply inv_keys | by rewrite <- inv_over; apply Hok].
  fold target in Hp. set (limits := call_limits call (st_limits s)) in *.
  rewrite (values_queue s') by apply Hok'.
  destruct (ideal_evict_suffix limits target) as [dropped Hd].
  assert (Hkeep : NoDup (ideal_evict limits target).*1).
  { rewrite Hd, fmap_app in Hkeys. by apply NoDup_app in Hkeys as (_ & _ & ?). }
  assert (Hv : values_of (queue s') = values_of (ideal_evict limits target)).
  { symmetry. by apply values_of_perm. }
  rewrite Hv. split_and!; [done| |done| |].
  - apply map_subseteq_spec. intros k v. unfold values_of. rewrite !lookup_fmap, !fmap_Some.
    intros (y & Hy & ->). exists y. split; [|done]. apply elem_of_list_to_map in Hy; [|done].
    apply elem_of_list_to_map; [done|]. rewrite Hd. apply elem_of_app. by right.
  - intros Ho. by rewrite (ideal_evict_id limits target Ho).
  - intros q0 x Ht Hx. rewrite Ht. destruct (ideal_evict_last limits q0 x Hx) as [kept Hkept].
    rewrite Ht in Hkeep. rewrite Hkept in *. unfold values_of. rewrite lookup_fmap.
    replace ((list_to_map (kept ++ [x]) : gmap string (V * Z)) !! x.1) with (Some x.2); [done|].
    symmetry. apply elem_of_list_to_map; [done|]. apply elem_of_app. right. destruct x. by left.
Qed.
End Order.
End Sim.
