(* ===== verification/CacheMemory.v ===== *)
(** * Providers and the memory cache ([cache/provider.rs], [cache/memory.rs])

    A provider is a record of its methods over the state [W] it works on; the
    batch methods a provider does not override are the trait's loops. A memory
    cache is its limits and the address of its store in [World], so that a
    clone and two names for one provider differ as they do in the code. A
    method reads the clock once; the walk of a compaction is chosen by [walk]
    from the store's sequence, so that it may differ each time. *)
From S2P Require Import Prelude Externals CacheKeys CacheStore.
#[local] Open Scope Z_scope.

(** ** Provider contract *)

(** [std::time::Instant], nanoseconds of a monotonic clock. *)
Abbreviation CacheInstant := Z (only parsing).

Inductive CacheTtl :=
  | TtlDefault
  | TtlFor (value : Duration)
  | TtlForever.

Definition ttl_for_duration (value : Duration) : CacheTtl := TtlFor value.

Definition ttl_validate (ttl : CacheTtl) : result CacheError unit :=
  match ttl with
  | TtlFor value => if value =? 0 then Err InvalidTtl else Ok tt
  | _ => Ok tt
  end.

Record CacheWrite := { cw_key : CacheKey; cw_value : Bytes; cw_ttl : CacheTtl }.

(** [dyn CacheProvider]. *)
Inductive CacheProvider (W : Type) : Type := {
  cp_validate : result CacheError unit;
  cp_for_site : option (W → CacheProvider W * W);
  cp_get : CacheInstant → CacheKey → M W CacheError (option Bytes);
  cp_set : CacheInstant → CacheKey → Bytes → CacheTtl → M W CacheError unit;
  cp_add : CacheInstant → CacheKey → Bytes → CacheTtl → M W CacheError bool;
  cp_delete : CacheInstant → CacheKey → M W CacheError unit;
  cp_touch : CacheInstant → CacheKey → CacheTtl → M W CacheError bool;
  cp_increment : CacheInstant → CacheKey → Z → M W CacheError Z;
  cp_clear : CacheInstant → CacheScope → M W CacheError unit;
  cp_get_many : CacheInstant → list CacheKey → M W CacheError (list (option Bytes));
  cp_set_many : CacheInstant → list CacheWrite → M W CacheError unit;
  cp_delete_many : CacheInstant → list CacheKey → M W CacheError unit;
}.
Arguments cp_validate {W} _.
Arguments cp_for_site {W} _.
Arguments cp_get {W} _.
Arguments cp_set {W} _.
Arguments cp_add {W} _.
Arguments cp_delete {W} _.
Arguments cp_touch {W} _.
Arguments cp_increment {W} _.
Arguments cp_clear {W} _.
Arguments cp_get_many {W} _.
Arguments cp_set_many {W} _.
Arguments cp_delete_many {W} _.

(** The trait's batch methods, over the single ones of the provider. *)
Section Defaults.
Context {W : Type}.

Definition default_get_many (get : CacheKey → M W CacheError (option Bytes)) (keys : list CacheKey) :
    M W CacheError (list (option Bytes)) :=
  mapM_M keys get.

Definition default_set_many (set : CacheKey → Bytes → CacheTtl → M W CacheError unit)
    (values : list CacheWrite) : M W CacheError unit :=
  for_eachM values (λ value, set (cw_key value) (cw_value value) (cw_ttl value)).

Definition default_delete_many (delete : CacheKey → M W CacheError unit) (keys : list CacheKey) :
    M W CacheError unit :=
  for_eachM keys delete.
End Defaults.

(** ** Integers as bytes *)

(** [i64::to_be_bytes]: the low [8 * n] bits of [z], the highest byte first. *)
Fixpoint be_bytes (n : nat) (z : Z) : Bytes :=
  match n with
  | O => EmptyString
  | S n =>
      String (Ascii.ascii_of_N (Z.to_N (Z.land (Z.shiftr z (8 * Z.of_nat n)) 255))) (be_bytes n z)
  end.
Definition to_be_bytes (z : Z) : Bytes := be_bytes 8 z.

Fixpoint be_value (acc : Z) (s : Bytes) : Z :=
  match s with
  | EmptyString => acc
  | String c s => be_value (Z.lor (Z.shiftl acc 8) (Z.of_N (Ascii.N_of_ascii c))) s
  end.
(** [i64::from_be_bytes]: two's complement. *)
Definition from_be_bytes (s : Bytes) : Z :=
  let z := be_value 0 s in if I64_MAX <? z then z - (U64_MAX + 1) else z.

(** ** The memory cache *)

Definition DEFAULT_MAX_ENTRIES : Z := 1024.
Definition DEFAULT_MAX_BYTES : Z := 16 * 1024 * 1024.
Definition DEFAULT_MAX_ENTRY_BYTES : Z := 1024 * 1024.
Definition DEFAULT_TTL : Duration := from_secs 300.

Record MemoryCacheLimits := {
  ml_max_entries : Z;
  ml_max_bytes : Z;
  ml_max_entry_bytes : Z;
  ml_default_ttl : Duration;
}.

Record MemoryEntry := { me_value : Bytes; me_expires_at : option CacheInstant }.

Definition store_limits (limits : MemoryCacheLimits) : MemoryLimits :=
  {| lm_max_entries := ml_max_entries limits; lm_max_bytes := Some (ml_max_bytes limits) |}.

Definition expired (entry : MemoryEntry) (now : CacheInstant) : bool :=
  match me_expires_at entry with Some expiry => expiry <=? now | None => false end.

Abbreviation CacheStore := (BoundedStore MemoryEntry) (only parsing).

Record MemoryCache := { mc_limits : MemoryCacheLimits; mc_store : CacheStore }.

Section Memory.
Context `{X : Externals} (walk : Z → Walk MemoryEntry).

Definition memory_cache_with (limits : MemoryCacheLimits) : MemoryCache :=
  {| mc_limits := limits; mc_store := store_new (store_limits limits) |}.

Definition memory_cache_new : MemoryCache :=
  memory_cache_with
    {| ml_max_entries := DEFAULT_MAX_ENTRIES; ml_max_bytes := DEFAULT_MAX_BYTES;
       ml_max_entry_bytes := DEFAULT_MAX_ENTRY_BYTES; ml_default_ttl := DEFAULT_TTL |}.

(** [Clone]: the limits with a store of its own. *)
Definition memory_cache_clone (c : MemoryCache) : MemoryCache := memory_cache_with (mc_limits c).

Definition update_limits (c : MemoryCache) : MemoryCache :=
  {| mc_limits := mc_limits c;
     mc_store := set_limits (walk (st_sequence (mc_store c))) (store_limits (mc_limits c)) (mc_store c) |}.

Definition with_max_entries (value : Z) (c : MemoryCache) : MemoryCache :=
  let l := mc_limits c in
  update_limits
    {| mc_limits := {| ml_max_entries := value; ml_max_bytes := ml_max_bytes l;
                       ml_max_entry_bytes := ml_max_entry_bytes l; ml_default_ttl := ml_default_ttl l |};
       mc_store := mc_store c |}.
Definition with_max_bytes (value : Z) (c : MemoryCache) : MemoryCache :=
  let l := mc_limits c in
  update_limits
    {| mc_limits := {| ml_max_entries := ml_max_entries l; ml_max_bytes := value;
                       ml_max_entry_bytes := ml_max_entry_bytes l; ml_default_ttl := ml_default_ttl l |};
       mc_store := mc_store c |}.
Definition with_max_entry_bytes (value : Z) (c : MemoryCache) : MemoryCache :=
  let l := mc_limits c in
  {| mc_limits := {| ml_max_entries := ml_max_entries l; ml_max_bytes := ml_max_bytes l;
                     ml_max_entry_bytes := value; ml_default_ttl := ml_default_ttl l |};
     mc_store := mc_store c |}.
Definition with_default_ttl (value : Duration) (c : MemoryCache) : MemoryCache :=
  let l := mc_limits c in
  {| mc_limits := {| ml_max_entries := ml_max_entries l; ml_max_bytes := ml_max_bytes l;
                     ml_max_entry_bytes := ml_max_entry_bytes l; ml_default_ttl := value |};
     mc_store := mc_store c |}.

Definition memory_validate (limits : MemoryCacheLimits) : result CacheError unit :=
  if (0 <? ml_max_entries limits) && (0 <? ml_max_bytes limits) && (0 <? ml_max_entry_bytes limits)
     && (ml_max_entry_bytes limits <=? ml_max_bytes limits) && negb (ml_default_ttl limits =? 0)
  then Ok tt else Err InvalidProviderConfig.

Definition expiry (limits : MemoryCacheLimits) (now : CacheInstant) (ttl : CacheTtl) :
    result CacheError (option CacheInstant) :=
  let? _ := ttl_validate ttl in
  let after (ttl : Duration) :=
    match instant_checked_add now ttl with Some t => Ok (Some t) | None => Err InvalidTtl end in
  match ttl with
  | TtlDefault => after (ml_default_ttl limits)
  | TtlFor value => after value
  | TtlForever => Ok None
  end.

Definition validate_value (limits : MemoryCacheLimits) (value : Bytes) : result CacheError unit :=
  if str_len value <=? ml_max_entry_bytes limits then Ok tt else Err ValueTooLarge.

(** One locked access of the store. *)
Definition accessM {R} (key : CacheKey) (action : option MemoryEntry → MemoryAction MemoryEntry R) :
    M CacheStore CacheError R :=
  λ s, let '(r, s) := access (walk (st_sequence s)) key action s in (Ok r, s).

Definition get_value (key : CacheKey) (now : CacheInstant) : M CacheStore CacheError (option Bytes) :=
  accessM key (λ entry, match entry with
    | Some entry => if negb (expired entry now) then Keep (Some (me_value entry)) else Remove None
    | None => Keep None
    end).

Definition add_value (key : CacheKey) (value : Bytes) (expiry : option CacheInstant)
    (now : CacheInstant) : M CacheStore CacheError bool :=
  let replace := Replace {| me_value := value; me_expires_at := expiry |} (str_len value) true in
  accessM key (λ entry, match entry with
    | Some entry => if negb (expired entry now) then Keep false else replace
    | None => replace
    end).

Definition touch_value (key : CacheKey) (expiry : option CacheInstant) (now : CacheInstant) :
    M CacheStore CacheError bool :=
  accessM key (λ entry, match entry with
    | Some entry =>
        if negb (expired entry now)
        then Replace {| me_value := me_value entry; me_expires_at := expiry |}
               (str_len (me_value entry)) true
        else Remove false
    | None => Keep false
    end).

Definition read_integer (entry : MemoryEntry) : result CacheError Z :=
  if str_len (me_value entry) =? 8 then Ok (from_be_bytes (me_value entry)) else Err InvalidInteger.

Definition replace_integer (value : Z) (expiry : option CacheInstant) :
    MemoryAction MemoryEntry (result CacheError Z) :=
  let bytes := to_be_bytes value in
  Replace {| me_value := bytes; me_expires_at := expiry |} (str_len bytes) (Ok value).

Definition increment_entry (entry : MemoryEntry) (delta : Z) :
    MemoryAction MemoryEntry (result CacheError Z) :=
  match read_integer entry with
  | Err error => Keep (Err error)
  | Ok value =>
      match i64_checked_add value delta with
      | Some value => replace_integer value (me_expires_at entry)
      | None => Keep (Err IntegerOverflow)
      end
  end.

Definition increment_value (key : CacheKey) (delta : Z) (default_expiry : option CacheInstant)
    (now : CacheInstant) : M CacheStore CacheError Z :=
  do! r := accessM key (λ entry, match entry with
    | Some entry =>
        if negb (expired entry now) then increment_entry entry delta
        else replace_integer delta default_expiry
    | None => replace_integer delta default_expiry
    end) in
  liftR r.

(** The methods of [impl CacheProvider for MemoryCache], over its store. *)
Definition memory_get (now : CacheInstant) (key : CacheKey) : M CacheStore CacheError (option Bytes) :=
  get_value key now.

Definition memory_set (limits : MemoryCacheLimits) (now : CacheInstant) (key : CacheKey)
    (value : Bytes) (ttl : CacheTtl) : M CacheStore CacheError unit :=
  do! _ := liftR (validate_value limits value) in
  do! expiry := liftR (expiry limits now ttl) in
  modifyM (λ s, store_insert (walk (st_sequence s)) key
                  {| me_value := value; me_expires_at := expiry |} (str_len value) s).

Definition memory_add (limits : MemoryCacheLimits) (now : CacheInstant) (key : CacheKey)
    (value : Bytes) (ttl : CacheTtl) : M CacheStore CacheError bool :=
  do! _ := liftR (validate_value limits value) in
  do! expiry := liftR (expiry limits now ttl) in
  add_value key value expiry now.

Definition memory_delete (key : CacheKey) : M CacheStore CacheError unit :=
  modifyM (store_remove key).

Definition memory_touch (limits : MemoryCacheLimits) (now : CacheInstant) (key : CacheKey)
    (ttl : CacheTtl) : M CacheStore CacheError bool :=
  do! expiry := liftR (expiry limits now ttl) in
  touch_value key expiry now.

Definition memory_increment (limits : MemoryCacheLimits) (now : CacheInstant) (key : CacheKey)
    (delta : Z) : M CacheStore CacheError Z :=
  do! expiry := liftR (expiry limits now TtlDefault) in
  increment_value key delta expiry now.

Definition memory_clear (scope : CacheScope) : M CacheStore CacheError unit :=
  modifyM (λ s, store_retain (walk (st_sequence s)) (λ key, negb (String.prefix scope key)) s).

(** ** The memory caches of a process *)

(** The stores of all memory caches, by address, and what other providers work on. *)
Record World (O : Type) := { w_stores : list CacheStore; w_outside : O }.
Arguments w_stores {O} _.
Arguments w_outside {O} _.

Section Provider.
Context {O : Type}.
Implicit Types (w : World O).

Definition store_at (loc : nat) w : CacheStore :=
  default (store_new {| lm_max_entries := 0; lm_max_bytes := None |}) (w_stores w !! loc).
Definition put_store_at (loc : nat) (s : CacheStore) w : World O :=
  {| w_stores := <[loc := s]> (w_stores w); w_outside := w_outside w |}.

(** A body of the memory cache at an address. *)
Definition atM {A} (loc : nat) (m : M CacheStore CacheError A) : M (World O) CacheError A :=
  zoomM (store_at loc) (put_store_at loc) m.

(** Places a store of its own in the process, at the next address. *)
Definition allocate (limits : MemoryCacheLimits) w : nat * World O :=
  (length (w_stores w),
   {| w_stores := w_stores w ++ [mc_store (memory_cache_with limits)]; w_outside := w_outside w |}).

Definition memory_methods (limits : MemoryCacheLimits) (loc : nat)
    (for_site : option (World O → CacheProvider (World O) * World O)) : CacheProvider (World O) :=
  let get now key := atM loc (memory_get now key) in
  let set now key value ttl := atM loc (memory_set limits now key value ttl) in
  let delete := λ (_ : CacheInstant) key, atM loc (memory_delete key) in
  {| cp_validate := memory_validate limits;
     cp_for_site := for_site;
     cp_get := get;
     cp_set := set;
     cp_add now key value ttl := atM loc (memory_add limits now key value ttl);
     cp_delete := delete;
     cp_touch now key ttl := atM loc (memory_touch limits now key ttl);
     cp_increment now key delta := atM loc (memory_increment limits now key delta);
     cp_clear _ scope := atM loc (memory_clear scope);
     cp_get_many now := default_get_many (get now);
     cp_set_many now := default_set_many (set now);
     cp_delete_many now := default_delete_many (delete now) |}.

(** The cache at an address as a provider. [for_site] makes a clone at a new
    address; the clone's own [for_site], which a site never calls, is left out. *)
Definition memory_provider (limits : MemoryCacheLimits) (loc : nat) : CacheProvider (World O) :=
  memory_methods limits loc
    (Some (λ w, let '(loc, w) := allocate limits w in (memory_methods limits loc None, w))).
End Provider.
End Memory.
Arguments w_stores {O} _.
Arguments w_outside {O} _.
