(* ===== verification/CacheMemoryFacts.v ===== *)
(** * The memory cache as a map that forgets

    [cache_spec] is the contract of a memory cache over a plain map from keys
    to values with an expiry. The cache answers as the map does and holds what
    the map holds, less what its limits made it evict. *)
From S2P Require Import Prelude Externals CacheKeys CacheStore CacheStoreSim CacheMemory.
#[local] Open Scope Z_scope.

(** ** Integers as bytes *)

Lemma be_value_bytes n acc z :
  0 ≤ acc → be_value acc (be_bytes n z) = acc * 2 ^ (8 * Z.of_nat n) + z `mod` 2 ^ (8 * Z.of_nat n).
Proof.
  revert acc. induction n as [|n IH]; intros acc Hacc; cbn [be_bytes be_value].
  - rewrite Z.mul_0_r, Z.pow_0_r, Z.mod_1_r. lia.
  - set (d := Z.land (Z.shiftr z (8 * Z.of_nat n)) 255).
    assert (Hd : d = (z / 2 ^ (8 * Z.of_nat n)) `mod` 256).
    { unfold d. rewrite Z.shiftr_div_pow2 by lia. by rewrite (Z.land_ones _ 8) by lia. }
    assert (Hd0 : 0 ≤ d < 256) by (rewrite Hd; apply Z.mod_pos_bound; lia).
    rewrite Ascii.N_ascii_embedding by lia. rewrite Z2N.id by lia.
    assert (Hacc' : Z.lor (Z.shiftl acc 8) d = acc * 256 + d).
    { rewrite Z.shiftl_mul_pow2 by lia. pose proof (Z.add_lor_land (acc * 2 ^ 8) d) as Hadd.
      assert (Z.land (acc * 2 ^ 8) d = 0) as Hland; [|lia]. apply Z.bits_inj'. intros i Hi.
      rewrite Z.land_spec, Z.bits_0. destruct (Z.ltb_spec i 8).
      - by rewrite Z.mul_pow2_bits_low.
      - replace d with (d `mod` 2 ^ 8) by (apply Z.mod_small; lia).
        by rewrite Z.mod_pow2_bits_high, andb_false_r by lia. }
    rewrite Hacc', IH by lia. rewrite Nat2Z.inj_succ, <- Z.add_1_r, Z.mul_add_distr_l.
    rewrite Z.pow_add_r by lia. set (p := 2 ^ (8 * Z.of_nat n)) in *.
    change (2 ^ (8 * 1)) with 256. assert (0 < p) by (apply Z.pow_pos_nonneg; lia).
    rewrite (Z.rem_mul_r z p 256) by lia. lia.
Qed.

Lemma be_bytes_length n z : str_len (be_bytes n z) = Z.of_nat n.
Proof. unfold str_len. f_equal. induction n as [|n IH]; simpl; [done|]. by rewrite IH. Qed.

Lemma integer_roundtrip z : I64_MIN ≤ z ≤ I64_MAX → from_be_bytes (to_be_bytes z) = z.
Proof.
  intros Hz. unfold from_be_bytes, to_be_bytes. rewrite be_value_bytes by lia.
  change (2 ^ (8 * Z.of_nat 8)) with (U64_MAX + 1). rewrite Z.mul_0_l, Z.add_0_l.
  unfold I64_MIN, I64_MAX, U64_MAX in *. destruct (Z.ltb_spec z 0) as [Hneg|Hpos].
  - replace (z `mod` _) with (z + 18446744073709551616).
    + case_match; lia.
    + rewrite <- (Z_mod_plus_full z 1). rewrite Z.mod_small; lia.
  - rewrite Z.mod_small by lia. case_match; lia.
Qed.

(** ** The calls of a memory cache *)

Inductive CacheOp :=
  | OpGet (key : CacheKey)
  | OpSet (key : CacheKey) (value : Bytes) (ttl : CacheTtl)
  | OpAdd (key : CacheKey) (value : Bytes) (ttl : CacheTtl)
  | OpDelete (key : CacheKey)
  | OpTouch (key : CacheKey) (ttl : CacheTtl)
  | OpIncrement (key : CacheKey) (delta : Z)
  | OpClear (scope : CacheScope).

Inductive CacheAnswer :=
  | AnsBytes (r : result CacheError (option Bytes))
  | AnsUnit (r : result CacheError unit)
  | AnsBool (r : result CacheError bool)
  | AnsInt (r : result CacheError Z).

Definition answered {A} (f : A → CacheAnswer) (r : A * CacheStore) : CacheAnswer * CacheStore :=
  (f r.1, r.2).

Section Spec.
Context `{X : Externals} (limits : MemoryCacheLimits).

(** What a map of entries answers and becomes. *)
Definition live (now : CacheInstant) (key : CacheKey) (m : gmap string MemoryEntry) : option MemoryEntry :=
  match m !! key with
  | Some entry => if expired entry now then None else Some entry
  | None => None
  end.

Definition drop_expired (now : CacheInstant) (key : CacheKey) (m : gmap string MemoryEntry) :
    gmap string MemoryEntry :=
  match live now key m with Some _ => m | None => delete key m end.

Definition spec_increment (key : CacheKey) (delta : Z) (fresh : option CacheInstant)
    (now : CacheInstant) (m : gmap string MemoryEntry) : CacheAnswer * gmap string MemoryEntry :=
  match live now key m with
  | None => (AnsInt (Ok delta), <[key := {| me_value := to_be_bytes delta; me_expires_at := fresh |}]> m)
  | Some entry =>
      if negb (str_len (me_value entry) =? 8) then (AnsInt (Err InvalidInteger), m)
      else
        let sum := from_be_bytes (me_value entry) + delta in
        if (I64_MIN <=? sum) && (sum <=? I64_MAX)
        then (AnsInt (Ok sum), <[key := {| me_value := to_be_bytes sum;
                                           me_expires_at := me_expires_at entry |}]> m)
        else (AnsInt (Err IntegerOverflow), m)
  end.

Definition cache_spec (now : CacheInstant) (op : CacheOp) (m : gmap string MemoryEntry) :
    CacheAnswer * gmap string MemoryEntry :=
  let fits value := str_len value <=? ml_max_entry_bytes limits in
  match op with
  | OpGet key => (AnsBytes (Ok (me_value <$> live now key m)), drop_expired now key m)
  | OpSet key value ttl =>
      if negb (fits value) then (AnsUnit (Err ValueTooLarge), m)
      else match expiry limits now ttl with
           | Err e => (AnsUnit (Err e), m)
           | Ok t => (AnsUnit (Ok tt), <[key := {| me_value := value; me_expires_at := t |}]> m)
           end
  | OpAdd key value ttl =>
      if negb (fits value) then (AnsBool (Err ValueTooLarge), m)
      else match expiry limits now ttl with
           | Err e => (AnsBool (Err e), m)
           | Ok t =>
               match live now key m with
               | Some _ => (AnsBool (Ok false), m)
               | None => (AnsBool (Ok true), <[key := {| me_value := value; me_expires_at := t |}]> m)
               end
           end
  | OpDelete key => (AnsUnit (Ok tt), delete key m)
  | OpTouch key ttl =>
      match expiry limits now ttl with
      | Err e => (AnsBool (Err e), m)
      | Ok t =>
          match live now key m with
          | Some entry =>
              (AnsBool (Ok true), <[key := {| me_value := me_value entry; me_expires_at := t |}]> m)
          | None => (AnsBool (Ok false), delete key m)
          end
      end
  | OpIncrement key delta =>
      match expiry limits now TtlDefault with
      | Err e => (AnsInt (Err e), m)
      | Ok t => spec_increment key delta t now m
      end
  | OpClear scope => (AnsUnit (Ok tt), filter (λ x, negb (String.prefix scope x.1) = true) m)
  end.

(** The bytes of all values of a map. *)
Definition held_bytes (m : gmap string MemoryEntry) : Z :=
  foldr (λ x n, str_len (me_value x.2) + n) 0 (map_to_list m).

Definition map_within (m : gmap string MemoryEntry) : Prop :=
  Z.of_nat (size m) ≤ ml_max_entries limits ∧ held_bytes m ≤ ml_max_bytes limits.

(** Limits whose arithmetic stays within [usize]: the largest value is one a
    [set] may store or an integer. *)
Definition largest : Z := Z.max (ml_max_entry_bytes limits) 8.
Definition limits_fit : Prop :=
  0 ≤ ml_max_entries limits ∧ 0 ≤ ml_max_bytes limits ∧ ml_max_bytes limits + largest ≤ USIZE_MAX.

Definition cache_op_key (op : CacheOp) : option CacheKey :=
  match op with
  | OpGet key | OpSet key _ _ | OpAdd key _ _ | OpDelete key | OpTouch key _ | OpIncrement key _ => Some key
  | OpClear _ => None
  end.
End Spec.

(** A call is about its own key. *)
Lemma spec_frame `{X : Externals} limits now op key j (m : gmap string MemoryEntry) :
  cache_op_key op = Some key → j ≠ key → (cache_spec limits now op m).2 !! j = m !! j.
Proof.
  intros Hop Hne. destruct op; simpl in Hop; simplify_eq; cbn [cache_spec];
    unfold drop_expired, spec_increment; cbv zeta; repeat case_match; cbn [fst snd];
    by rewrite ?lookup_insert_ne, ?lookup_delete_ne.
Qed.

Section Run.
Context `{X : Externals} (walk : Z → Walk MemoryEntry) (limits : MemoryCacheLimits).

Definition run_cache_op (now : CacheInstant) (op : CacheOp) (s : CacheStore) : CacheAnswer * CacheStore :=
  match op with
  | OpGet key => answered AnsBytes (memory_get walk now key s)
  | OpSet key value ttl => answered AnsUnit (memory_set walk limits now key value ttl s)
  | OpAdd key value ttl => answered AnsBool (memory_add walk limits now key value ttl s)
  | OpDelete key => answered AnsUnit (memory_delete key s)
  | OpTouch key ttl => answered AnsBool (memory_touch walk limits now key ttl s)
  | OpIncrement key delta => answered AnsInt (memory_increment walk limits now key delta s)
  | OpClear scope => answered AnsUnit (memory_clear walk scope s)
  end.

Definition run_cache (ops : list (CacheInstant * CacheOp)) (s : CacheStore) : CacheStore :=
  foldl (λ s x, (run_cache_op x.1 x.2 s).2) s ops.

(** ** What a method does to the store *)

Inductive Effect :=
  | NoEffect
  | Calls (call : StoreCall MemoryEntry).

Definition write_call (key : CacheKey) (entry : MemoryEntry) : StoreCall MemoryEntry :=
  CallInsert key entry (str_len (me_value entry)).
Definition touch_call (key : CacheKey) : StoreCall MemoryEntry := CallAccess key (λ _, Keep tt).

Definition run_effect (e : Effect) (s : CacheStore) : CacheStore :=
  match e with
  | NoEffect => s
  | Calls call => run_store_call (walk (st_sequence s)) call s
  end.

Definition effect_map (e : Effect) (m : gmap string MemoryEntry) : gmap string MemoryEntry :=
  match e with
  | NoEffect => m
  | Calls (CallInsert key entry _) => <[key := entry]> m
  | Calls (CallRemove key) => delete key m
  | Calls (CallRetain keep) => filter (λ x, keep x.1 = true) m
  | Calls _ => m
  end.

(** The calls the methods make. *)
Definition effect_shape (e : Effect) : Prop :=
  match e with
  | Calls (CallAccess _ action) => action = λ _, Keep tt
  | Calls (CallSetLimits _) => False
  | _ => True
  end.

(** What they write fits. *)
Definition effect_sane (e : Effect) (m : gmap string MemoryEntry) : Prop :=
  match e with
  | NoEffect => True
  | Calls (CallInsert key entry bytes) =>
      bytes = str_len (me_value entry) ∧ bytes ≤ largest limits
  | Calls (CallRemove _) | Calls (CallRetain _) => True
  | Calls (CallAccess key action) => action = λ _, Keep tt
  | Calls (CallSetLimits _) => False
  end.

(** An access decided by an action does what the action says. *)
Lemma accessM_run {R} key (action : option MemoryEntry → MemoryAction MemoryEntry R) s :
  accessM walk key action s =
  match action (values s !! key) with
  | Keep r => (Ok r, run_effect (Calls (touch_call key)) s)
  | Remove r => (Ok r, run_effect (Calls (CallRemove key)) s)
  | Replace v b r => (Ok r, run_effect (Calls (CallInsert key v b)) s)
  end.
Proof.
  unfold accessM, access, values. rewrite lookup_fmap. by destruct (action _).
Qed.

(** The effect of a run and of the contract are one. *)
Definition agrees (o : CacheAnswer * CacheStore) (o' : CacheAnswer * gmap string MemoryEntry)
    (s : CacheStore) : Prop :=
  ∃ e, o = (o'.1, run_effect e s) ∧ o'.2 = effect_map e (values s) ∧ effect_shape e ∧
    ((∀ k x, values s !! k = Some x → str_len (me_value x) ≤ largest limits) →
     effect_sane e (values s)).

Lemma agrees_none a s : agrees (a, s) (a, values s) s.
Proof. by exists NoEffect. Qed.

Lemma agrees_touch a key s :
  agrees (a, run_effect (Calls (touch_call key)) s) (a, values s) s.
Proof. by exists (Calls (touch_call key)). Qed.

Lemma agrees_remove a key s :
  agrees (a, run_effect (Calls (CallRemove key)) s) (a, delete key (values s)) s.
Proof. by exists (Calls (CallRemove key)). Qed.

Lemma agrees_write a key v t s :
  ((∀ k x, values s !! k = Some x → str_len (me_value x) ≤ largest limits) →
   str_len v ≤ largest limits) →
  agrees (a, run_effect (Calls (CallInsert key {| me_value := v; me_expires_at := t |} (str_len v))) s)
    (a, <[key := {| me_value := v; me_expires_at := t |}]> (values s)) s.
Proof. intros H. eexists (Calls (CallInsert key _ _)). split_and!; [done..|]. intros Hs. split; [done|auto]. Qed.

Lemma agrees_drop a key s :
  values s !! key = None →
  agrees (a, run_effect (Calls (touch_call key)) s) (a, delete key (values s)) s.
Proof. intros H. rewrite delete_id by done. apply agrees_touch. Qed.

Lemma fits_largest v : str_len v <=? ml_max_entry_bytes limits = true → str_len v ≤ largest limits.
Proof. unfold largest. lia. Qed.

Lemma increment_agrees key delta fresh now s :
  agrees (answered AnsInt (increment_value walk key delta fresh now s))
    (spec_increment key delta fresh now (values s)) s.
Proof.
  assert (Hint : ∀ z, str_len (to_be_bytes z) ≤ largest limits).
  { intros z. unfold to_be_bytes. rewrite be_bytes_length. unfold largest. lia. }
  unfold increment_value, spec_increment, live, bindM. rewrite accessM_run.
  destruct (values s !! key) as [x|] eqn:Hx; [|by apply agrees_write].
  destruct (expired x now); simpl; [by apply agrees_write|].
  unfold increment_entry, read_integer. destruct (str_len (me_value x) =? 8); [|apply agrees_touch].
  unfold i64_checked_add. rewrite andb_comm.
  destruct (_ && _); [by apply agrees_write|apply agrees_touch].
Qed.

Lemma op_agrees now op s : agrees (run_cache_op now op s) (cache_spec limits now op (values s)) s.
Proof.
  destruct op as [key|key v ttl|key v ttl|key|key ttl|key delta|scope]; cbn [run_cache_op cache_spec].
  - unfold memory_get, get_value, drop_expired, live. rewrite accessM_run.
    destruct (values s !! key) as [x|] eqn:Hx; [|by apply agrees_drop].
    destruct (expired x now); [apply agrees_remove|apply agrees_touch].
  - unfold memory_set, validate_value. rewrite bindM_liftR.
    destruct (str_len v <=? _) eqn:Hfit; cbn [negb]; [|apply agrees_none].
    rewrite bindM_liftR. destruct (expiry limits now ttl); [|apply agrees_none].
    apply agrees_write. intros _. by apply fits_largest.
  - unfold memory_add, validate_value, live. rewrite bindM_liftR.
    destruct (str_len v <=? _) eqn:Hfit; cbn [negb]; [|apply agrees_none].
    rewrite bindM_liftR. destruct (expiry limits now ttl) as [t|]; [|apply agrees_none].
    unfold add_value. rewrite accessM_run. apply fits_largest in Hfit.
    destruct (values s !! key) as [x|] eqn:Hx; [|by apply agrees_write].
    destruct (expired x now); [by apply agrees_write|apply agrees_touch].
  - apply agrees_remove.
  - unfold memory_touch, live. rewrite bindM_liftR.
    destruct (expiry limits now ttl) as [t|]; [|apply agrees_none].
    unfold touch_value. rewrite accessM_run.
    destruct (values s !! key) as [x|] eqn:Hx; [|by apply agrees_drop].
    destruct (expired x now); [apply agrees_remove|]. apply agrees_write. eauto.
  - unfold memory_increment. rewrite bindM_liftR.
    destruct (expiry limits now TtlDefault) as [t|]; [|apply agrees_none]. apply increment_agrees.
  - by exists (Calls (CallRetain (λ key, negb (String.prefix scope key)))).
Qed.

(** Whatever the state, a call leaves nothing its contract would not leave. *)
Lemma evict_loop_values fuel (s : CacheStore) : values (evict_loop fuel s) ⊆ values s.
Proof.
  revert s. induction fuel as [|fuel IH]; intros s; simpl; [done|].
  destruct (over_limit s); [|done]. unfold evict_oldest.
  assert (Hpop : ∀ lru (s0 : CacheStore), values (pop_markers lru s0).2 ⊆ values s0).
  { induction lru as [|m lru IHl]; intros s0; simpl; [done|]. destruct (is_current s0 m); [|apply IHl].
    simpl. unfold values. destruct (remove_parts m.1 (put_lru lru s0)) as (_ & _ & _ & ->).
    rewrite fmap_delete. apply delete_subseteq. }
  specialize (Hpop (st_lru s) s). destruct (pop_markers (st_lru s) s) as [[] s1]; simpl in Hpop; [|done].
  etrans; [apply IH|done].
Qed.

Lemma compact_values order (s : CacheStore) : values (compact_lru order s) = values s.
Proof. unfold values. by destruct (compact_parts order s) as (-> & _). Qed.

Lemma remove_values key (s : CacheStore) : values (store_remove key s) = delete key (values s).
Proof. unfold values. destruct (remove_parts key s) as (_ & _ & _ & ->). apply fmap_delete. Qed.

Lemma effect_values e s : effect_shape e → values (run_effect e s) ⊆ effect_map e (values s).
Proof.
  destruct e as [|[k v b|k|keep|k a|lim]]; simpl; intros Hshape; [done| | | | |done].
  - unfold store_insert, evict, next_sequence. rewrite compact_values.
    etrans; [apply evict_loop_values|]. unfold values. simpl. rewrite fmap_insert. simpl.
    by rewrite (proj2 (proj2 (proj2 (remove_parts k s)))), fmap_delete, insert_delete_eq.
  - by rewrite remove_values.
  - unfold store_retain. rewrite compact_values. unfold values. simpl.
    apply map_subseteq_spec. intros k v.
    rewrite lookup_fmap_Some. intros (x & <- & [Hx Hk]%map_lookup_filter_Some).
    apply map_lookup_filter_Some. by rewrite lookup_fmap, Hx.
  - subst a. unfold access. simpl. case_bool_decide as Hk; [|done]. destruct Hk as [x Hx].
    unfold store_touch, next_sequence. cbn [put_sequence st_entries]. rewrite Hx, compact_values.
    unfold values. simpl. rewrite fmap_insert. simpl. rewrite insert_id; [done|].
    by rewrite lookup_fmap, Hx.
Qed.

Lemma op_values now op s :
  (run_cache_op now op s).1 = (cache_spec limits now op (values s)).1 ∧
  values (run_cache_op now op s).2 ⊆ (cache_spec limits now op (values s)).2.
Proof.
  destruct (op_agrees now op s) as (e & -> & -> & Hshape & _). split; [done|].
  by apply effect_values.
Qed.

(** ** The invariant of a memory cache *)

Definition sized (x : Item MemoryEntry) : Prop :=
  x.2.2 = str_len (me_value x.2.1) ∧ x.2.2 ≤ largest limits.

Record cache_inv (s : CacheStore) : Prop := {
  ci_ok : store_ok (largest limits) s;
  ci_limits : st_limits s = store_limits limits;
  ci_sized : Forall sized (queue s);
}.

Lemma values_of_list (q : list (Item MemoryEntry)) :
  values_of q = list_to_map ((λ x, (x.1, x.2.1)) <$> q).
Proof.
  unfold values_of. induction q as [|[k [v b]] q IH]; simpl; [apply fmap_empty|].
  by rewrite fmap_insert, IH.
Qed.

Lemma held_perm (l l' : list (string * MemoryEntry)) :
  l ≡ₚ l' → foldr (λ x n, str_len (me_value x.2) + n) 0 l = foldr (λ x n, str_len (me_value x.2) + n) 0 l'.
Proof. induction 1; simpl; lia. Qed.

(** The sizes of a queue are those of its contents. *)
Lemma queue_contents (q : list (Item MemoryEntry)) :
  NoDup q.*1 → Forall sized q →
  total q = held_bytes (values_of q) ∧ zlen q = Z.of_nat (size (values_of q)).
Proof.
  intros Hk Hs. unfold held_bytes, zlen. rewrite values_of_list.
  assert (Hk' : NoDup ((λ x : Item MemoryEntry, (x.1, x.2.1)) <$> q).*1).
  { by rewrite <- list_fmap_compose. }
  rewrite (held_perm _ _ (map_to_list_to_map _ Hk')). split.
  - clear Hk Hk'. induction Hs as [|x q [Hx _] Hs IH]; [done|].
    rewrite fmap_cons. cbn [foldr total fst snd]. rewrite <- IH, <- Hx. done.
  - rewrite map_size_list_to_map by done. by rewrite length_fmap.
Qed.

Lemma within_over (q : list (Item MemoryEntry)) :
  NoDup q.*1 → Forall sized q →
  ideal_over (store_limits limits) q = false ↔ map_within limits (values_of q).
Proof.
  intros Hk Hs. destruct (queue_contents q Hk Hs) as [Ht Hl].
  unfold ideal_over, map_within. simpl. rewrite Ht, Hl, orb_false_iff. lia.
Qed.

Lemma cache_inv_within s : cache_inv s → map_within limits (values s).
Proof.
  intros [Hok Hl Hs]. rewrite (values_queue s (ok_inv _ _ Hok)).
  apply within_over; [by apply inv_keys, Hok|done|].
  rewrite <- Hl, <- inv_over by apply Hok. apply Hok.
Qed.

Lemma cache_inv_values s k x :
  cache_inv s → values s !! k = Some x → str_len (me_value x) ≤ largest limits.
Proof.
  intros [Hok _ Hs]. unfold values. rewrite lookup_fmap_Some. intros (e & <- & He).
  apply (inv_lookup s k e (ok_inv _ _ Hok)) in He. rewrite Forall_forall in Hs.
  destruct (Hs _ He) as [Heq Hle]. simpl in *. lia.
Qed.

Lemma fresh_cache_inv : limits_fit limits → cache_inv (store_new (store_limits limits)).
Proof.
  intros (He & Hb & Hm). split; [|done|constructor]. split; simpl.
  - apply store_new_inv.
  - apply orb_false_iff. split; apply Z.ltb_ge; [unfold entry_count; simpl; rewrite map_size_empty|]; done.
  - unfold zlen. cbn. lia.
  - split; [done|]. by exists (ml_max_bytes limits).
Qed.

Section Steps.
Context (Hwalk : ∀ n, walk_ok (walk n)) (Hfit : limits_fit limits).

(** What an effect leaves of the contents. *)
Definition effect_leaves (e : Effect) (s : CacheStore) : Prop :=
  let s' := run_effect e s in
  cache_inv s' ∧ st_sequence s' ≤ st_sequence s + 1 ∧
  values s' ⊆ effect_map e (values s) ∧
  (map_within limits (effect_map e (values s)) → values s' = effect_map e (values s)) ∧
  match e with
  | Calls (CallInsert key entry bytes) =>
      0 < ml_max_entries limits → bytes ≤ ml_max_bytes limits → values s' !! key = Some entry
  | _ => values s' = effect_map e (values s)
  end.

Lemma call_effect call s :
  cache_inv s → st_sequence s < U64_MAX → call_fits (largest limits) s call →
  call_limits call (store_limits limits) = store_limits limits →
  Forall sized (ideal_target call (queue s)) →
  values_of (ideal_target call (queue s)) = effect_map (Calls call) (values s) →
  match call with
  | CallInsert key entry bytes =>
      ideal_target call (queue s) = ideal_remove key (queue s) ++ [(key, (entry, bytes))]
  | _ => ideal_over (store_limits limits) (ideal_target call (queue s)) = false
  end →
  effect_leaves (Calls call) s.
Proof using Hwalk.
  intros [Hok Hl Hs] Hseq Hfits Hlim Hsized Hmap Hcase.
  pose proof (call_values (walk (st_sequence s)) (Hwalk _) _ call s Hok Hseq Hfits) as Hc.
  destruct (call_leaves (walk (st_sequence s)) (Hwalk _) _ call s Hok Hseq Hfits) as [(Hok' & _ & Hs') Hl'].
  simpl in Hc. rewrite Hl, Hlim, Hmap in Hc.
  destruct Hc as (Hp & Hsub & Hkeys & Hexact & Hlast). unfold effect_leaves. cbn [run_effect].
  split_and!; [|done|done| |].
  - split; [done|by rewrite Hl', Hl, Hlim|]. rewrite Hp.
    destruct (ideal_evict_suffix (store_limits limits) (ideal_target call (queue s))) as [d Hd].
    rewrite Hd in Hsized. by apply Forall_app in Hsized as [_ ?].
  - intros Hw. apply Hexact. by rewrite within_over, Hmap.
  - destruct call as [k v b|k|keep|k a|lim]; [|by apply Hexact..].
    intros He Hb. refine (Hlast _ _ Hcase _).
    apply orb_false_iff. split; apply Z.ltb_ge; [unfold zlen|]; cbn; lia.
Qed.

Lemma effect_step e s :
  cache_inv s → st_sequence s < U64_MAX → effect_sane e (values s) → effect_leaves e s.
Proof using Hwalk.
  intros Hinv Hseq Hsane. pose proof Hinv as [Hok Hl Hs]. pose proof (ok_inv _ _ Hok) as H.
  pose proof (inv_keys s H) as Hkeys.
  assert (Hover : ideal_over (store_limits limits) (queue s) = false).
  { rewrite <- Hl, <- inv_over by done. apply Hok. }
  assert (Hfilter : ∀ (P : Item MemoryEntry → Prop) `{!∀ x, Decision (P x)},
                    Forall sized (filter P (queue s)) ∧
                    ideal_over (store_limits limits) (filter P (queue s)) = false).
  { intros P HP. split; [|apply ideal_over_filter; [apply H|done]].
    apply Forall_forall. intros x [_ Hx]%list_elem_of_filter. rewrite Forall_forall in Hs. by apply Hs. }
  destruct e as [|[k v b|k|keep|k a|lim]]; simpl in Hsane.
  - split_and!; [done|simpl; lia|done|done|done].
  - destruct Hsane as [-> Hb]. apply call_effect; try done.
    + simpl. split; [apply str_len_nonneg|done].
    + simpl. apply Forall_app. split; [apply Hfilter|by repeat constructor].
    + simpl. rewrite values_of_push by done. by rewrite (values_queue s H).
  - apply call_effect; try done; simpl; [apply Hfilter| |apply Hfilter].
    by rewrite values_of_remove, (values_queue s H).
  - apply call_effect; try done; simpl; [apply Hfilter| |apply Hfilter].
    by rewrite values_of_filter, (values_queue s H).
  - subst a. apply call_effect; try done; simpl.
    + by rewrite (ideal_touch_perm k (queue s) Hkeys).
    + rewrite (values_queue s H). symmetry. apply values_of_perm; [done|].
      symmetry. by apply ideal_touch_perm.
    + by rewrite (ideal_over_perm _ _ _ (ideal_touch_perm k (queue s) Hkeys)).
  - done.
Qed.

(** One call of the cache, against its contract. *)
Lemma op_step now op s :
  cache_inv s → st_sequence s < U64_MAX →
  ∃ e, run_cache_op now op s = ((cache_spec limits now op (values s)).1, run_effect e s) ∧
    (cache_spec limits now op (values s)).2 = effect_map e (values s) ∧
    effect_sane e (values s) ∧ effect_leaves e s.
Proof using Hwalk.
  intros Hinv Hseq. destruct (op_agrees now op s) as (e & Hrun & Hmap & _ & Hsane).
  specialize (Hsane (λ k x, cache_inv_values s k x Hinv)).
  exists e. split_and!; [done..|]. by apply effect_step.
Qed.

Lemma run_cache_inv ops s :
  cache_inv s → st_sequence s + zlen ops ≤ U64_MAX →
  cache_inv (run_cache ops s) ∧ st_sequence (run_cache ops s) ≤ st_sequence s + zlen ops.
Proof using Hwalk.
  revert s. induction ops as [|[now op] ops IH]; intros s Hinv Hlen; [by split; [|simpl; unfold zlen; simpl; lia]|].
  unfold zlen in *. simpl in *.
  destruct (op_step now op s Hinv) as (e & Hrun & _ & _ & Hinv' & Hs' & _); [lia|].
  rewrite Hrun. simpl. destruct (IH (run_effect e s) Hinv') as [HA HB]; [lia|].
  split; [done|lia].
Qed.

Lemma fresh_run_inv ops :
  zlen ops < U64_MAX →
  cache_inv (run_cache ops (store_new (store_limits limits))) ∧
  st_sequence (run_cache ops (store_new (store_limits limits))) < U64_MAX.
Proof using Hwalk Hfit.
  intros Hlen. destruct (run_cache_inv ops (store_new (store_limits limits))) as [HA HB].
  - by apply fresh_cache_inv.
  - simpl. lia.
  - split; [done|]. simpl in HB. lia.
Qed.
End Steps.
End Run.
