(* ===== verification/CacheContract.v ===== *)
(** * The contract a cache needs of its providers

    [storage] is what all providers of a process hold, by the place a provider
    keeps its entries in and the key. [keeps_to] is the contract of one
    provider: it reads what its place holds, and a call stores nothing but what
    it was asked to store where it was asked to. Entries may vanish at any
    time. The memory cache keeps to it; the handles rely on nothing else. *)
From S2P Require Import Prelude Externals CacheKeys CacheStore CacheStoreSim CacheMemory CacheMemoryFacts.
#[local] Open Scope Z_scope.

(** A place: a memory cache's address or one outside of the process's memory caches. *)
Inductive Place := AtMemory (address : nat) | AtOutside (place : nat).
#[export] Instance place_eq_dec : EqDecision Place.
Proof. solve_decision. Defined.

Definition Held : Type := Place * string → option Bytes.

(** Where the entries of a state of the providers are. *)
Class Storage (W : Type) := storage : W → Held.

(** All that one holds the other holds too. *)
Definition within (h h' : Held) : Prop := ∀ x v, h x = Some v → h' x = Some v.
Infix "⊑" := within (at level 70) : vyuh_scope.

#[export] Instance within_preorder : PreOrder within.
Proof. split; [by intros h x v|]. intros h1 h2 h3 H12 H23 x v Hx. by apply H23, H12. Qed.

Definition put (x : Place * string) (v : Bytes) (h : Held) : Held :=
  λ y, if decide (y = x) then Some v else h y.
Definition drop (x : Place * string) (h : Held) : Held :=
  λ y, if decide (y = x) then None else h y.

Definition put_writes (loc : Place) (writes : list CacheWrite) (h : Held) : Held :=
  foldl (λ h x, put (loc, cw_key x) (cw_value x) h) h writes.
Definition drop_keys (loc : Place) (keys : list CacheKey) (h : Held) : Held :=
  foldl (λ h key, drop (loc, key) h) h keys.
Definition drop_scope (loc : Place) (scope : CacheScope) (h : Held) : Held :=
  λ x, if decide (x.1 = loc ∧ String.prefix scope x.2 = true) then None else h x.

Lemma put_mono x v h h' : h ⊑ h' → put x v h ⊑ put x v h'.
Proof. intros H y w. unfold put. case_decide; [done|apply H]. Qed.
Lemma drop_mono x h h' : h ⊑ h' → drop x h ⊑ drop x h'.
Proof. intros H y w. unfold drop. case_decide; [done|apply H]. Qed.
Lemma drop_within x h : drop x h ⊑ h.
Proof. intros y w. unfold drop. by case_decide. Qed.

Record keeps_to {W} `{!Storage W} (p : CacheProvider W) (loc : Place) : Prop := {
  keeps_get t key w r w' :
    cp_get p t key w = (r, w') →
    storage w' ⊑ storage w ∧ ∀ v, r = Ok (Some v) → storage w (loc, key) = Some v;
  keeps_set t key v ttl w r w' :
    cp_set p t key v ttl w = (r, w') →
    storage w' ⊑ if is_ok r then put (loc, key) v (storage w) else storage w;
  keeps_add t key v ttl w r w' :
    cp_add p t key v ttl w = (r, w') →
    storage w' ⊑ match r with Ok true => put (loc, key) v (storage w) | _ => storage w end;
  keeps_delete t key w r w' :
    cp_delete p t key w = (r, w') →
    storage w' ⊑ if is_ok r then drop (loc, key) (storage w) else storage w;
  keeps_touch t key ttl w r w' : cp_touch p t key ttl w = (r, w') → storage w' ⊑ storage w;
  keeps_increment t key delta w r w' :
    cp_increment p t key delta w = (r, w') →
    storage w' ⊑ match r with
                 | Ok n => put (loc, key) (to_be_bytes n) (storage w)
                 | Err _ => storage w
                 end;
  keeps_clear t scope w r w' :
    cp_clear p t scope w = (r, w') →
    storage w' ⊑ if is_ok r then drop_scope loc scope (storage w) else storage w;
  keeps_get_many t keys w r w' :
    cp_get_many p t keys w = (r, w') →
    storage w' ⊑ storage w ∧
    ∀ vs, r = Ok vs →
      Forall2 (λ key v, ∀ x, v = Some x → storage w (loc, key) = Some x) keys vs;
  keeps_set_many t writes w r w' :
    cp_set_many p t writes w = (r, w') →
    ∃ n, storage w' ⊑ put_writes loc (take n writes) (storage w) ∧
      (is_ok r = true → (length writes ≤ n)%nat);
  keeps_delete_many t keys w r w' :
    cp_delete_many p t keys w = (r, w') →
    storage w' ⊑ if is_ok r then drop_keys loc keys (storage w) else storage w;
}.

(** ** The trait's batch methods keep to it *)

Section Defaults.
Context {W : Type} `{!Storage W} (loc : Place).

Lemma put_writes_mono writes (h h' : Held) : h ⊑ h' → put_writes loc writes h ⊑ put_writes loc writes h'.
Proof.
  revert h h'. induction writes as [|x writes IH]; intros h h' Hm; [done|].
  simpl. by apply IH, put_mono.
Qed.

Lemma drop_keys_mono keys (h h' : Held) : h ⊑ h' → drop_keys loc keys h ⊑ drop_keys loc keys h'.
Proof.
  revert h h'. induction keys as [|x keys IH]; intros h h' Hm; [done|].
  simpl. by apply IH, drop_mono.
Qed.

Lemma drop_keys_subseteq keys (h : Held) : drop_keys loc keys h ⊑ h.
Proof.
  revert h. induction keys as [|x keys IH]; intros h; [done|]. simpl.
  etrans; [apply IH|apply drop_within].
Qed.

Lemma get_many_keeps (get : CacheKey → M W CacheError (option Bytes)) keys w r w' :
  (∀ key w r w', get key w = (r, w') →
     storage w' ⊑ storage w ∧ ∀ v, r = Ok (Some v) → storage w (loc, key) = Some v) →
  default_get_many get keys w = (r, w') →
  storage w' ⊑ storage w ∧
  ∀ vs, r = Ok vs → Forall2 (λ key v, ∀ x, v = Some x → storage w (loc, key) = Some x) keys vs.
Proof.
  intros Hget. unfold default_get_many. revert w r w'. induction keys as [|key keys IH]; intros w r w'; simpl.
  - intros [= <- <-]. split; [done|]. by intros vs [= <-].
  - unfold bindM, retM. destruct (get key w) as [[v|e] w1] eqn:H1; apply Hget in H1 as [Hs1 Hv1].
    + destruct (mapM_M keys get w1) as [[vs|e] w2] eqn:H2; apply IH in H2 as [Hs2 Hv2];
        intros [= <- <-]; (split; [by etrans|]); [|done].
      intros ? [= <-]. constructor; [intros x ->; by apply Hv1|].
      eapply Forall2_impl; [by apply Hv2|]. simpl. intros k o Hk x ->.
      by apply Hs1, Hk.
    + intros [= <- <-]. by split.
Qed.

Lemma set_many_keeps (set : CacheKey → Bytes → CacheTtl → M W CacheError unit) writes w r w' :
  (∀ key v ttl w r w', set key v ttl w = (r, w') →
     storage w' ⊑ if is_ok r then put (loc, key) v (storage w) else storage w) →
  default_set_many set writes w = (r, w') →
  ∃ n, storage w' ⊑ put_writes loc (take n writes) (storage w) ∧
    (is_ok r = true → (length writes ≤ n)%nat).
Proof.
  intros Hset. unfold default_set_many. revert w r w'. induction writes as [|x writes IH]; intros w r w'; simpl.
  - intros [= <- <-]. by exists O.
  - unfold bindM. destruct (set _ _ _ w) as [[u|e] w1] eqn:H1; apply Hset in H1; simpl in H1.
    + intros (n & Hn & Hlen)%IH. exists (S n). simpl. split; [|intros; specialize (Hlen H); lia].
      etrans; [exact Hn|]. by apply put_writes_mono.
    + intros [= <- <-]. by exists O.
Qed.

Lemma delete_many_keeps (del : CacheKey → M W CacheError unit) keys w r w' :
  (∀ key w r w', del key w = (r, w') →
     storage w' ⊑ if is_ok r then drop (loc, key) (storage w) else storage w) →
  default_delete_many del keys w = (r, w') →
  storage w' ⊑ if is_ok r then drop_keys loc keys (storage w) else storage w.
Proof.
  intros Hdel. unfold default_delete_many. revert w r w'. induction keys as [|key keys IH]; intros w r w'; simpl.
  - by intros [= <- <-].
  - unfold bindM. destruct (del key w) as [[u|e] w1] eqn:H1; apply Hdel in H1; simpl in H1.
    + intros H2%IH. destruct (is_ok r).
      * etrans; [exact H2|]. by apply drop_keys_mono.
      * etrans; [exact H2|]. etrans; [exact H1|apply drop_within].
    + by intros [= <- <-].
Qed.
End Defaults.

(** ** The memory cache keeps to it *)

(** What the providers that are not memory caches hold. *)
Class OutsideStorage (O : Type) := outside_storage : O → nat → string → option Bytes.

#[export] Instance world_storage {O} `{!OutsideStorage O} : Storage (World O) := λ w x,
  match x.1 with
  | AtMemory address => s ← w_stores w !! address; e ← st_entries s !! x.2; Some (me_value (sv_value e))
  | AtOutside place => outside_storage (w_outside w) place x.2
  end.

Section Memory.
Context `{X : Externals} {O : Type} `{!OutsideStorage O} (walk : Z → Walk MemoryEntry).
Implicit Types (w : World O).

(** What a store holds under a key. *)
Definition held_value (s : CacheStore) (key : string) : option Bytes := me_value <$> values s !! key.

Lemma held_storage address w key :
  held_value (store_at address w) key = storage w (AtMemory address, key).
Proof.
  unfold held_value, values, store_at, storage, world_storage. rewrite lookup_fmap. simpl.
  destruct (w_stores w !! address) as [s|]; simpl; [by destruct (st_entries s !! key)|].
  by rewrite lookup_empty.
Qed.

(** A body of the cache at an address changes that place only. *)
Lemma at_storage {A} address (m : M CacheStore CacheError A) w r w' :
  atM address m w = (r, w') →
  ∃ s', m (store_at address w) = (r, s') ∧
    ∀ x v, storage w' x = Some v →
      (∃ key, x = (AtMemory address, key) ∧ held_value s' key = Some v) ∨
      (x.1 ≠ AtMemory address ∧ storage w x = Some v).
Proof.
  unfold atM, zoomM. destruct (m (store_at address w)) as [r' s'] eqn:Hm. intros [= <- <-].
  exists s'. split; [done|]. intros [[a|place] key] v.
  - unfold storage at 1, world_storage. simpl. destruct (decide (a = address)) as [->|Hne].
    + destruct (decide (address < length (w_stores w))%nat) as [Hlt|Hge].
      * rewrite list_lookup_insert_eq by done. intros Hv. left. exists key. split; [done|].
        unfold held_value, values. rewrite lookup_fmap. simpl in Hv.
        by destruct (st_entries s' !! key).
      * rewrite list_insert_ge, lookup_ge_None_2 by lia. done.
    + rewrite list_lookup_insert_ne by done. intros Hv. right. split; [naive_solver|done].
  - intros Hv. right. by split.
Qed.

(** The same with a bound of what the body leaves. *)
Lemma at_within {A} address (m : M CacheStore CacheError A) w r w' (h : Held) :
  atM address m w = (r, w') →
  (∀ s' key v, m (store_at address w) = (r, s') → held_value s' key = Some v →
     h (AtMemory address, key) = Some v) →
  (∀ x, x.1 ≠ AtMemory address → h x = storage w x) →
  storage w' ⊑ h.
Proof.
  intros (s' & Hm & Hs')%at_storage Hin Hout x v [(key & -> & Hv)|[Hx Hv]]%Hs'.
  - by eapply Hin.
  - by rewrite Hout.
Qed.

Section Methods.
Context (limits : MemoryCacheLimits) (address : nat).
Notation place := (AtMemory address).

Lemma held_values (m : gmap string MemoryEntry) (s' : CacheStore) key v :
  values s' ⊆ m → held_value s' key = Some v → ∃ e, m !! key = Some e ∧ me_value e = v.
Proof.
  intros Hsub. unfold held_value. rewrite fmap_Some. intros (e & He & ->). exists e.
  split; [|done]. by eapply lookup_weaken.
Qed.

Lemma values_storage w key e v :
  values (store_at address w) !! key = Some e → me_value e = v → storage w (place, key) = Some v.
Proof. intros He <-. rewrite <- held_storage. unfold held_value. by rewrite He. Qed.

(** One call, through the contract of the cache. *)
Lemma method_within {A} (f : result CacheError A → CacheAnswer) (m : M CacheStore CacheError A)
    now op w r w' (h : Held) :
  (∀ s, answered f (m s) = run_cache_op walk limits now op s) →
  atM address m w = (r, w') →
  (∀ answer contents key e,
     cache_spec limits now op (values (store_at address w)) = (answer, contents) → answer = f r →
     contents !! key = Some e → h (place, key) = Some (me_value e)) →
  (∀ x, x.1 ≠ place → h x = storage w x) →
  storage w' ⊑ h.
Proof.
  intros Hrun Hat Hin Hout. eapply at_within; [exact Hat| |exact Hout].
  intros s' key v Hm Hv. specialize (Hrun (store_at address w)). rewrite Hm in Hrun.
  destruct (op_values walk limits now op (store_at address w)) as [Ha Hsub].
  rewrite <- Hrun in Ha, Hsub. destruct (held_values _ s' key v Hsub Hv) as (e & He & <-).
  destruct (cache_spec limits now op (values (store_at address w))) as [a c] eqn:Hspec.
  by eapply Hin.
Qed.

Lemma out_put key v h x : x.1 ≠ place → put (place, key) v h x = h x.
Proof. intros Hx. unfold put. rewrite decide_False; [done|]. intros ->. by apply Hx. Qed.
Lemma out_drop key h x : x.1 ≠ place → drop (place, key) h x = h x.
Proof. intros Hx. unfold drop. rewrite decide_False; [done|]. intros ->. by apply Hx. Qed.

Lemma insert_put w key entry k e :
  <[key := entry]> (values (store_at address w)) !! k = Some e →
  put (place, key) (me_value entry) (storage w) (place, k) = Some (me_value e).
Proof.
  intros [[-> ->]|[Hne He]]%lookup_insert_Some; unfold put.
  - by rewrite decide_True.
  - rewrite decide_False by naive_solver. by eapply values_storage.
Qed.

Lemma delete_drop w key k e :
  delete key (values (store_at address w)) !! k = Some e →
  drop (place, key) (storage w) (place, k) = Some (me_value e).
Proof.
  intros [Hne He]%lookup_delete_Some. unfold drop. rewrite decide_False by naive_solver.
  by eapply values_storage.
Qed.

Lemma get_keeps now key w r w' :
  atM address (memory_get walk now key) w = (r, w') →
  storage w' ⊑ storage w ∧ ∀ v, r = Ok (Some v) → storage w (place, key) = Some v.
Proof.
  intros Hat. split.
  - eapply (method_within AnsBytes _ now (OpGet key)); [done|exact Hat| |done].
    intros a c k e [= _ <-] _ Hc. unfold drop_expired in Hc.
    destruct (live _ _ _); [|apply lookup_delete_Some in Hc as [_ Hc]]; by eapply values_storage.
  - intros v ->. apply at_storage in Hat as (s' & Hm & _).
    destruct (op_values walk limits now (OpGet key) (store_at address w)) as [Ha _].
    simpl in Ha. rewrite Hm in Ha. injection Ha as Hv. symmetry in Hv.
    apply fmap_Some in Hv as (e & He & ->). unfold live in He.
    destruct (values _ !! key) as [e'|] eqn:Hk; [|done]. destruct (expired e' now); [done|].
    injection He as ->. by eapply values_storage.
Qed.

Lemma set_keeps now key v ttl w r w' :
  atM address (memory_set walk limits now key v ttl) w = (r, w') →
  storage w' ⊑ if is_ok r then put (place, key) v (storage w) else storage w.
Proof.
  intros Hat. eapply (method_within AnsUnit _ now (OpSet key v ttl)); [done|exact Hat| |].
  - intros a c k e Hspec -> Hc. simpl in Hspec.
    destruct (negb _); [|destruct (expiry limits now ttl)]; simplify_eq; simpl;
      first [by eapply values_storage|by apply (insert_put w key) in Hc].
  - intros x Hx. destruct (is_ok r); [by apply out_put|done].
Qed.

Lemma add_keeps now key v ttl w r w' :
  atM address (memory_add walk limits now key v ttl) w = (r, w') →
  storage w' ⊑ match r with Ok true => put (place, key) v (storage w) | _ => storage w end.
Proof.
  intros Hat. eapply (method_within AnsBool _ now (OpAdd key v ttl)); [done|exact Hat| |].
  - intros a c k e Hspec -> Hc. simpl in Hspec.
    destruct (negb _); [|destruct (expiry limits now ttl); [destruct (live _ _ _)|]]; simplify_eq; simpl;
      first [by eapply values_storage|by apply (insert_put w key) in Hc].
  - intros x Hx. destruct r as [[]|]; [by apply out_put|done..].
Qed.

Lemma delete_keeps key w r w' :
  atM address (memory_delete key) w = (r, w') →
  storage w' ⊑ if is_ok r then drop (place, key) (storage w) else storage w.
Proof.
  intros Hat. eapply (method_within AnsUnit _ 0 (OpDelete key)); [done|exact Hat| |].
  - intros a c k e [= <- <-] Hr Hc. assert (r = Ok tt) as -> by congruence. by eapply delete_drop.
  - intros x Hx. destruct (is_ok r); [by apply out_drop|done].
Qed.

Lemma touch_keeps now key ttl w r w' :
  atM address (memory_touch walk limits now key ttl) w = (r, w') → storage w' ⊑ storage w.
Proof.
  intros Hat. eapply (method_within AnsBool _ now (OpTouch key ttl)); [done|exact Hat| |done].
  intros a c k e Hspec -> Hc. simpl in Hspec.
  destruct (expiry _ _ _); [|simplify_eq; by eapply values_storage].
  destruct (live _ _ _) as [x|] eqn:Hl; simplify_eq.
  - apply lookup_insert_Some in Hc as [[<- <-]|[_ Hc]]; [|by eapply values_storage].
    unfold live in Hl. destruct (values _ !! key) as [e|] eqn:Hk; [|done].
    destruct (expired e now); [done|]. injection Hl as ->. by eapply values_storage.
  - apply lookup_delete_Some in Hc as [_ Hc]. by eapply values_storage.
Qed.

Lemma increment_keeps now key delta w r w' :
  atM address (memory_increment walk limits now key delta) w = (r, w') →
  storage w' ⊑ match r with
               | Ok n => put (place, key) (to_be_bytes n) (storage w)
               | Err _ => storage w
               end.
Proof.
  intros Hat. eapply (method_within AnsInt _ now (OpIncrement key delta)); [done|exact Hat| |].
  - intros a c k e Hspec -> Hc. cbn [cache_spec] in Hspec.
    destruct (expiry _ _ _); [|simplify_eq; by eapply values_storage].
    unfold spec_increment in Hspec. destruct (live _ _ _); [destruct (negb _); [|destruct (_ && _)]|];
      simplify_eq; first [by eapply values_storage|by apply (insert_put w key) in Hc].
  - intros x Hx. destruct r; [by apply out_put|done].
Qed.

Lemma clear_keeps scope w r w' :
  atM address (memory_clear walk scope) w = (r, w') →
  storage w' ⊑ if is_ok r then drop_scope place scope (storage w) else storage w.
Proof.
  intros Hat. eapply (method_within AnsUnit _ 0 (OpClear scope)); [done|exact Hat| |].
  - intros a c k e [= <- <-] Hr Hc. assert (r = Ok tt) as -> by congruence.
    apply map_lookup_filter_Some in Hc as [Hc Hp]. simpl in *. unfold drop_scope.
    rewrite decide_False; [by eapply values_storage|]. simpl. intros [_ Hs]. by rewrite Hs in Hp.
  - intros x Hx. destruct (is_ok r); [|done]. unfold drop_scope. rewrite decide_False; [done|].
    by intros [? _].
Qed.

(** The memory cache keeps to the contract at its address. *)
Lemma memory_keeps for_site : keeps_to (memory_methods walk limits address for_site) place.
Proof.
  split; intros *; cbn [cp_get cp_set cp_add cp_delete cp_touch cp_increment cp_clear cp_get_many
                        cp_set_many cp_delete_many memory_methods].
  - apply get_keeps.
  - apply set_keeps.
  - apply add_keeps.
  - apply delete_keeps.
  - apply touch_keeps.
  - apply increment_keeps.
  - apply clear_keeps.
  - apply get_many_keeps. intros *. apply get_keeps.
  - apply set_many_keeps. intros *. apply set_keeps.
  - apply delete_many_keeps. intros *. apply delete_keeps.
Qed.
End Methods.
End Memory.
