(* ===== verification/CacheRuntime.v ===== *)
(** * Handles, registry and counters of the caches ([cache/runtime.rs], [cache/config.rs], [cache/metrics.rs])

    A handle names a provider of the registry and a list of namespaces; its
    operations spell the key, encode the value, call the provider and count the
    call. [W] is what the providers work on; a codec is the JSON encoding of a
    type, [serde_json]'s over the type's own [Serialize] and [Deserialize]. *)
From S2P Require Import Prelude Externals CacheKeys CacheStore CacheMemory.
#[local] Open Scope Z_scope.

(** [serde_json::to_vec] and [from_slice] for one type. *)
Record Codec (T : Type) := {
  co_to_vec : T → result JsonError Bytes;
  co_from_slice : Bytes → result JsonError T;
}.
Arguments co_to_vec {T} _.
Arguments co_from_slice {T} _.

Definition encode {T} (c : Codec T) (value : T) : result CacheError Bytes :=
  match co_to_vec c value with Ok bytes => Ok bytes | Err e => Err (CacheSerialize e) end.
Definition decode {T} (c : Codec T) (value : Bytes) : result CacheError T :=
  match co_from_slice c value with Ok v => Ok v | Err e => Err (CacheDeserialize e) end.

(** ** Counters *)

Inductive CacheOperation :=
  | OGet | OSet | OAdd | OGetMany | OSetMany | ODelete | ODeleteMany | OTouch | OIncrement | OClear.

Definition operation_index (operation : CacheOperation) : nat :=
  match operation with
  | OGet => 0 | OSet => 1 | OAdd => 2 | OGetMany => 3 | OSetMany => 4
  | ODelete => 5 | ODeleteMany => 6 | OTouch => 7 | OIncrement => 8 | OClear => 9
  end.

Definition OPERATIONS : list string :=
  ["get"; "set"; "add"; "get_many"; "set_many"; "delete"; "delete_many"; "touch"; "increment"; "clear"]%string.

Record OperationMetrics := {
  om_successes : Z;
  om_failures : Z;
  om_hits : Z;
  om_misses : Z;
  om_duration_nanos : Z;
}.

Record CacheMetrics := {
  cm_indexes : gmap string nat;
  cm_values : list (list OperationMetrics);
  cm_unknown : list OperationMetrics;
}.

Definition operation_metrics_new : OperationMetrics :=
  {| om_successes := 0; om_failures := 0; om_hits := 0; om_misses := 0; om_duration_nanos := 0 |}.
Definition new_row : list OperationMetrics := replicate (length OPERATIONS) operation_metrics_new.

Fixpoint add_names (names : list string) (m : CacheMetrics) : CacheMetrics :=
  match names with
  | [] => m
  | name :: names =>
      if bool_decide (is_Some (cm_indexes m !! name)) then add_names names m
      else add_names names
             {| cm_indexes := <[name := length (cm_values m)]> (cm_indexes m);
                cm_values := cm_values m ++ [new_row]; cm_unknown := cm_unknown m |}
  end.
Definition cache_metrics_new (names : list string) : CacheMetrics :=
  add_names names {| cm_indexes := ∅; cm_values := []; cm_unknown := new_row |}.

(** [fetch_add] of an [AtomicU64]. *)
Definition u64_fetch_add (a b : Z) : Z := u64_wrapping_add a b.

Definition operation_record (success : bool) (hit : option bool) (duration : Duration)
    (m : OperationMetrics) : OperationMetrics :=
  {| om_successes := if success then u64_fetch_add (om_successes m) 1 else om_successes m;
     om_failures := if success then om_failures m else u64_fetch_add (om_failures m) 1;
     om_hits := if bool_decide (hit = Some true) then u64_fetch_add (om_hits m) 1 else om_hits m;
     om_misses := if bool_decide (hit = Some false) then u64_fetch_add (om_misses m) 1 else om_misses m;
     om_duration_nanos := u64_fetch_add (om_duration_nanos m) (Z.min (as_nanos duration) U64_MAX) |}.

(** One cell of a row; [None] is the panic of an index out of bounds. *)
Definition record_row (index : nat) (f : OperationMetrics → OperationMetrics)
    (row : list OperationMetrics) : option (list OperationMetrics) :=
  m ← row !! index; Some (<[index := f m]> row).

Definition metrics_record (name : string) (operation : CacheOperation) (success : bool)
    (hit : option bool) (duration : Duration) (m : CacheMetrics) : option CacheMetrics :=
  let f := operation_record success hit duration in
  match cm_indexes m !! name with
  | Some provider =>
      row ← cm_values m !! provider;
      row ← record_row (operation_index operation) f row;
      Some {| cm_indexes := cm_indexes m; cm_values := <[provider := row]> (cm_values m);
              cm_unknown := cm_unknown m |}
  | None =>
      row ← record_row (operation_index operation) f (cm_unknown m);
      Some {| cm_indexes := cm_indexes m; cm_values := cm_values m; cm_unknown := row |}
  end.

(** ** Configuration and registry *)

Section Runtime.
Context {W : Type}.

Record CacheDefinition := { df_name : CacheName; df_provider : CacheProvider W }.

Record CacheConf := {
  cc_providers : list CacheDefinition;
  cc_default_provider : option CacheName;
}.

Definition cache_conf_empty : CacheConf := {| cc_providers := []; cc_default_provider := None |}.
Definition conf_provider (name : CacheName) (provider : CacheProvider W) (c : CacheConf) : CacheConf :=
  {| cc_providers := cc_providers c ++ [{| df_name := name; df_provider := provider |}];
     cc_default_provider := cc_default_provider c |}.
Definition conf_default_provider (name : CacheName) (c : CacheConf) : CacheConf :=
  {| cc_providers := cc_providers c; cc_default_provider := Some name |}.

Fixpoint validate_definitions (names : list CacheName) (definitions : list CacheDefinition) :
    result CacheError (list CacheName) :=
  match definitions with
  | [] => Ok names
  | definition :: definitions =>
      let? _ := validate_provider_name (df_name definition) in
      if bool_decide (df_name definition ∈ names) then Err DuplicateProvider
      else
        let? _ := cp_validate (df_provider definition) in
        validate_definitions (df_name definition :: names) definitions
  end.

Definition cache_conf_validate (c : CacheConf) : result CacheError unit :=
  let? names := validate_definitions [] (cc_providers c) in
  let? default := ok_or (cc_default_provider c) MissingDefaultProvider in
  if bool_decide (default ∈ names) then Ok tt else Err InvalidDefaultProvider.

(** The immutable part of a registry; its counters are part of [CacheState]. *)
Record CacheRegistry := {
  cr_providers : gmap string (CacheProvider W);
  cr_default : CacheName;
}.

(** What handles change: the providers' world and the counters. *)
Record CacheState := { cs_world : W; cs_metrics : CacheMetrics }.

Fixpoint build_providers (definitions : list CacheDefinition)
    (providers : gmap string (CacheProvider W)) : M W CacheError (gmap string (CacheProvider W)) :=
  match definitions with
  | [] => retM providers
  | definition :: definitions =>
      do! provider := (match cp_for_site (df_provider definition) with
                       | Some for_site => λ w, let '(p, w) := for_site w in (Ok p, w)
                       | None => retM (df_provider definition)
                       end) in
      do! _ := liftR (cp_validate provider) in
      build_providers definitions (<[df_name definition := provider]> providers)
  end.

Definition registry_build (c : CacheConf) : M W CacheError (CacheRegistry * CacheMetrics) :=
  do! _ := liftR (cache_conf_validate c) in
  do! providers := build_providers (cc_providers c) ∅ in
  do! default := liftR (ok_or (cc_default_provider c) MissingDefaultProvider) in
  retM ({| cr_providers := providers; cr_default := default |},
        cache_metrics_new (df_name <$> cc_providers c)).

Definition registry_provider (r : CacheRegistry) (name : CacheName) :
    result CacheError (CacheProvider W) :=
  ok_or (cr_providers r !! name) ProviderNotFound.

(** ** Handles *)

Record Cache := {
  ca_registry : CacheRegistry;
  ca_name : CacheName;
  ca_namespaces : list string;
}.

Definition cache_new (registry : CacheRegistry) (name : CacheName) : Cache :=
  {| ca_registry := registry; ca_name := name; ca_namespaces := [] |}.
Definition default_handle (registry : CacheRegistry) : Cache := cache_new registry (cr_default registry).
Definition cache_using (name : CacheName) (c : Cache) : Cache :=
  {| ca_registry := ca_registry c; ca_name := name; ca_namespaces := ca_namespaces c |}.
Definition with_namespace (value : string) (c : Cache) : Cache :=
  {| ca_registry := ca_registry c; ca_name := ca_name c; ca_namespaces := ca_namespaces c ++ [value] |}.

Definition handle_key (c : Cache) (key : string) : result CacheError CacheKey :=
  cache_key (ca_name c) (ca_namespaces c) key.
Definition handle_provider (c : Cache) : result CacheError (CacheProvider W) :=
  registry_provider (ca_registry c) (ca_name c).

(** When a provider call starts and how long it takes. *)
Record CallTime := { ct_now : CacheInstant; ct_elapsed : Duration }.

(** A recording that would panic leaves the counters alone; it never happens
    ([cache_recording_never_panics]). *)
Definition noted_record (name : CacheName) (operation : CacheOperation) (success : bool)
    (hit : option bool) (t : CallTime) (w : W) (m : CacheMetrics) : CacheState :=
  {| cs_world := w;
     cs_metrics := default m (metrics_record name operation success hit (ct_elapsed t) m) |}.

Definition execute {A} (c : Cache) (t : CallTime) (operation : CacheOperation)
    (future : M W CacheError A) : M CacheState CacheError A :=
  λ s, let '(r, w) := future (cs_world s) in
       (r, noted_record (ca_name c) operation (is_ok r) None t w (cs_metrics s)).

Definition get_bytes (c : Cache) (t : CallTime) (operation : CacheOperation)
    (future : M W CacheError (option Bytes)) : M CacheState CacheError (option Bytes) :=
  λ s, let '(r, w) := future (cs_world s) in
       let hit := match r with Ok v => Some (bool_decide (is_Some v)) | Err _ => None end in
       (r, noted_record (ca_name c) operation (is_ok r) hit t w (cs_metrics s)).

Section Typed.
Context {T : Type} (codec : Codec T).

Definition cache_get (c : Cache) (t : CallTime) (key : string) : M CacheState CacheError (option T) :=
  do! key := liftR (handle_key c key) in
  do! provider := liftR (handle_provider c) in
  do! value := get_bytes c t OGet (cp_get provider (ct_now t) key) in
  match value with
  | None => retM None
  | Some bytes => liftR (let? v := decode codec bytes in Ok (Some v))
  end.

Definition cache_set (c : Cache) (t : CallTime) (key : string) (value : T) (ttl : CacheTtl) :
    M CacheState CacheError unit :=
  do! _ := liftR (ttl_validate ttl) in
  do! key := liftR (handle_key c key) in
  do! value := liftR (encode codec value) in
  do! provider := liftR (handle_provider c) in
  execute c t OSet (cp_set provider (ct_now t) key value ttl).

Definition cache_add (c : Cache) (t : CallTime) (key : string) (value : T) (ttl : CacheTtl) :
    M CacheState CacheError bool :=
  do! _ := liftR (ttl_validate ttl) in
  do! key := liftR (handle_key c key) in
  do! value := liftR (encode codec value) in
  do! provider := liftR (handle_provider c) in
  execute c t OAdd (cp_add provider (ct_now t) key value ttl).

(** The loop of [keys]; [seen] is what it has inserted. *)
Fixpoint spell_keys (c : Cache) (seen values : list string) :
    result CacheError (list (string * CacheKey)) :=
  match values with
  | [] => Ok []
  | value :: values =>
      if bool_decide (value ∈ seen) then Err InvalidKey
      else
        let? key := handle_key c value in
        let? keys := spell_keys c (value :: seen) values in
        Ok ((value, key) :: keys)
  end.
Definition handle_keys (c : Cache) (values : list string) : result CacheError (list (string * CacheKey)) :=
  if MAX_BULK_ITEMS <? zlen values then Err BulkLimitExceeded else spell_keys c [] values.

Fixpoint spell_writes (c : Cache) (ttl : CacheTtl) (seen : list string) (values : list (string * T)) :
    result CacheError (list CacheWrite) :=
  match values with
  | [] => Ok []
  | (key, value) :: values =>
      if bool_decide (key ∈ seen) then Err InvalidKey
      else
        let? text := handle_key c key in
        let? bytes := encode codec value in
        let? writes := spell_writes c ttl (key :: seen) values in
        Ok ({| cw_key := text; cw_value := bytes; cw_ttl := ttl |} :: writes)
  end.
Definition handle_writes (c : Cache) (values : list (string * T)) (ttl : CacheTtl) :
    result CacheError (list CacheWrite) :=
  if MAX_BULK_ITEMS <? zlen values then Err BulkLimitExceeded else spell_writes c ttl [] values.

(** [IndexMap::insert]: in place when the key is present, at the end otherwise. *)
Fixpoint index_insert (key : string) (value : T) (l : list (string * T)) : list (string * T) :=
  match l with
  | [] => [(key, value)]
  | (k, v) :: l => if bool_decide (k = key) then (k, value) :: l else (k, v) :: index_insert key value l
  end.

(** Hits are decoded in order; the first that fails ends the collection. *)
Fixpoint decode_hits (pairs : list ((string * CacheKey) * option Bytes)) (found : list (string * T)) :
    result CacheError (list (string * T)) :=
  match pairs with
  | [] => Ok found
  | ((name, _), Some value) :: pairs =>
      let? v := decode codec value in
      decode_hits pairs (index_insert name v found)
  | (_, None) :: pairs => decode_hits pairs found
  end.
Definition decode_many (keys : list (string * CacheKey)) (values : list (option Bytes)) :
    result CacheError (list (string * T)) :=
  if negb (zlen keys =? zlen values) then Err InvalidProviderConfig
  else decode_hits (zip keys values) [].

Definition cache_get_many (c : Cache) (t : CallTime) (keys : list string) :
    M CacheState CacheError (list (string * T)) :=
  do! pairs := liftR (handle_keys c keys) in
  do! provider := liftR (handle_provider c) in
  do! values := execute c t OGetMany (cp_get_many provider (ct_now t) pairs.*2) in
  liftR (decode_many pairs values).

Definition cache_set_many (c : Cache) (t : CallTime) (values : list (string * T)) (ttl : CacheTtl) :
    M CacheState CacheError unit :=
  do! _ := liftR (ttl_validate ttl) in
  do! writes := liftR (handle_writes c values ttl) in
  do! provider := liftR (handle_provider c) in
  execute c t OSetMany (cp_set_many provider (ct_now t) writes).
End Typed.

Definition cache_delete (c : Cache) (t : CallTime) (key : string) : M CacheState CacheError unit :=
  do! key := liftR (handle_key c key) in
  do! provider := liftR (handle_provider c) in
  execute c t ODelete (cp_delete provider (ct_now t) key).

Definition cache_delete_many (c : Cache) (t : CallTime) (keys : list string) :
    M CacheState CacheError unit :=
  do! keys := liftR (handle_keys c keys) in
  do! provider := liftR (handle_provider c) in
  execute c t ODeleteMany (cp_delete_many provider (ct_now t) keys.*2).

Definition cache_touch (c : Cache) (t : CallTime) (key : string) (ttl : CacheTtl) :
    M CacheState CacheError bool :=
  do! _ := liftR (ttl_validate ttl) in
  do! key := liftR (handle_key c key) in
  do! provider := liftR (handle_provider c) in
  execute c t OTouch (cp_touch provider (ct_now t) key ttl).

Definition cache_increment (c : Cache) (t : CallTime) (key : string) (delta : Z) :
    M CacheState CacheError Z :=
  do! key := liftR (handle_key c key) in
  do! provider := liftR (handle_provider c) in
  execute c t OIncrement (cp_increment provider (ct_now t) key delta).

Definition cache_decrement (c : Cache) (t : CallTime) (key : string) (amount : Z) :
    M CacheState CacheError Z :=
  do! delta := liftR (ok_or (i64_try_from (- amount)) IntegerOverflow) in
  cache_increment c t key delta.

Definition cache_clear (c : Cache) (t : CallTime) : M CacheState CacheError unit :=
  if bool_decide (ca_namespaces c ≠ []) then throwM UnsupportedOperation
  else
    do! provider := liftR (handle_provider c) in
    execute c t OClear (cp_clear provider (ct_now t) (cache_scope (ca_name c))).

(** ** Reading or computing *)

Inductive CacheGetOrSetError (E : Type) :=
  | CacheFailed (e : CacheError)
  | InitializerFailed (e : E).
Arguments CacheFailed {E} _.
Arguments InitializerFailed {E} _.

(** [?] on a cache operation. *)
Definition cacheM {E A} (m : M CacheState CacheError A) : M CacheState (CacheGetOrSetError E) A :=
  λ s, let '(r, s) := m s in
       (match r with Ok a => Ok a | Err e => Err (CacheFailed e) end, s).

(** Three provider calls at their own times; [initializer] is what happens
    until the application's value is there. *)
Definition get_or_try_set {T E} (codec : Codec T) (c : Cache) (t1 t2 t3 : CallTime) (key : string)
    (ttl : CacheTtl) (initializer : M CacheState E T) : M CacheState (CacheGetOrSetError E) T :=
  do! found := cacheM (cache_get codec c t1 key) in
  match found with
  | Some value => retM value
  | None =>
      do! value := (λ s, let '(r, s) := initializer s in
                         (match r with Ok a => Ok a | Err e => Err (InitializerFailed e) end, s)) in
      do! added := cacheM (cache_add codec c t2 key value ttl) in
      if (added : bool) then retM value
      else
        do! found := cacheM (cache_get codec c t3 key) in
        retM (default value found)
  end.

(** ** Namespaced handles *)

Record NamespacedCache := { nc_cache : Cache }.

Definition namespace (value : string) (c : Cache) : NamespacedCache :=
  {| nc_cache := with_namespace value c |}.
Definition nc_namespace (value : string) (n : NamespacedCache) : NamespacedCache :=
  {| nc_cache := with_namespace value (nc_cache n) |}.
Definition nc_get {T} (codec : Codec T) (n : NamespacedCache) := cache_get codec (nc_cache n).
Definition nc_set {T} (codec : Codec T) (n : NamespacedCache) := cache_set codec (nc_cache n).
Definition nc_add {T} (codec : Codec T) (n : NamespacedCache) := cache_add codec (nc_cache n).
Definition nc_get_many {T} (codec : Codec T) (n : NamespacedCache) := cache_get_many codec (nc_cache n).
Definition nc_set_many {T} (codec : Codec T) (n : NamespacedCache) := cache_set_many codec (nc_cache n).
Definition nc_delete (n : NamespacedCache) := cache_delete (nc_cache n).
Definition nc_delete_many (n : NamespacedCache) := cache_delete_many (nc_cache n).
Definition nc_touch (n : NamespacedCache) := cache_touch (nc_cache n).
Definition nc_increment (n : NamespacedCache) := cache_increment (nc_cache n).
Definition nc_decrement (n : NamespacedCache) := cache_decrement (nc_cache n).
Definition nc_get_or_try_set {T E} (codec : Codec T) (n : NamespacedCache) :=
  get_or_try_set (T:=T) (E:=E) codec (nc_cache n).
End Runtime.
Arguments CacheDefinition W : clear implicits.
Arguments CacheConf W : clear implicits.
Arguments CacheRegistry W : clear implicits.
Arguments CacheState W : clear implicits.
Arguments Cache W : clear implicits.
Arguments NamespacedCache W : clear implicits.

(** [CacheConf::default]: one memory cache under the default name. Boxing it
    puts its store in the process. *)
Definition cache_conf_default `{X : Externals} {O} (walk : Z → Walk MemoryEntry) (w : World O) :
    CacheConf (World O) * World O :=
  let c := memory_cache_new in
  let '(loc, w) := allocate (mc_limits c) w in
  (conf_default_provider DEFAULT_CACHE
     (conf_provider DEFAULT_CACHE (memory_provider walk (mc_limits c) loc) cache_conf_empty), w).
