(* ===== verification/CacheHandles.v ===== *)
(** * What an application sees of its caches

    [Believed] is what the calls made through handles say may be cached, by
    provider name, namespaces and key: a successful write leaves one candidate,
    a failed batch write adds candidates, a deletion leaves none. Over
    providers that keep to their contract every entry held is a candidate of
    the handle it is read through, whatever is shared below. *)
From S2P Require Import Prelude Externals CacheKeys CacheStore CacheMemory CacheMemoryFacts CacheContract CacheRuntime.
#[local] Open Scope Z_scope.

(** ** Counters *)

Definition row_ok (row : list OperationMetrics) : Prop := length row = length OPERATIONS.
Definition counters_ok (m : CacheMetrics) : Prop :=
  map_Forall (λ _ i, (i < length (cm_values m))%nat) (cm_indexes m) ∧
  Forall row_ok (cm_values m) ∧ row_ok (cm_unknown m).

Lemma operation_index_bound operation : (operation_index operation < length OPERATIONS)%nat.
Proof. destruct operation; simpl; lia. Qed.

Lemma record_row_ok operation f row :
  row_ok row → ∃ row', record_row (operation_index operation) f row = Some row' ∧ row_ok row'.
Proof.
  intros Hrow. unfold record_row, row_ok in *. pose proof (operation_index_bound operation) as Hi.
  destruct (lookup_lt_is_Some_2 row (operation_index operation)) as [m Hm]; [lia|].
  rewrite Hm. simpl. eexists. split; [done|]. by rewrite length_insert.
Qed.

Lemma cache_recording_never_panics name operation success hit duration m :
  counters_ok m →
  ∃ m', metrics_record name operation success hit duration m = Some m' ∧ counters_ok m'.
Proof.
  intros (Hi & Hv & Hu). unfold metrics_record.
  destruct (cm_indexes m !! name) as [i|] eqn:Hn.
  - pose proof (Hi name i Hn) as Hlt. simpl in Hlt. destruct (lookup_lt_is_Some_2 _ _ Hlt) as [row Hrow].
    rewrite Hrow. simpl. pose proof (Forall_lookup_1 _ _ _ _ Hv Hrow) as Hok.
    destruct (record_row_ok operation (operation_record success hit duration) row Hok)
      as (row' & -> & Hok'). simpl. eexists. split; [done|]. split_and!; simpl; [|by apply Forall_insert|done].
    intros j k Hjk. rewrite length_insert. by apply Hi in Hjk.
  - destruct (record_row_ok operation (operation_record success hit duration) _ Hu) as (row' & -> & Hok').
    simpl. eexists. split; [done|]. by split_and!.
Qed.

Lemma add_names_ok names m : counters_ok m → counters_ok (add_names names m).
Proof.
  revert m. induction names as [|name names IH]; intros m Hm; simpl; [done|].
  case_bool_decide; [by apply IH|]. apply IH. destruct Hm as (Hi & Hv & Hu).
  split_and!; simpl; [|apply Forall_app; split; [done|by repeat constructor]|done].
  intros j k. rewrite length_app. simpl. intros [[_ <-]|[_ Hjk]]%lookup_insert_Some; [lia|].
  apply Hi in Hjk. simpl in Hjk. lia.
Qed.

Lemma cache_metrics_new_ok names : counters_ok (cache_metrics_new names).
Proof. apply add_names_ok. by split_and!. Qed.

(** ** Beliefs *)

(** Provider name, namespaces and key of an application's entry. *)
Abbreviation Entry := (string * list string * string)%type (only parsing).

Section Handles.
Context {W : Type} `{!Storage W}.
Implicit Types (s : CacheState W) (c : Cache W).

Definition Believed : Type := Entry → list Bytes.

Definition g_put (x : Entry) (v : Bytes) (g : Believed) : Believed :=
  λ y, if decide (y = x) then [v] else g y.
Definition g_may (x : Entry) (v : Bytes) (g : Believed) : Believed :=
  λ y, if decide (y = x) then v :: g y else g y.
Definition g_drop (x : Entry) (g : Believed) : Believed := λ y, if decide (y = x) then [] else g y.
Definition g_clear (name : CacheName) (g : Believed) : Believed :=
  λ y, if decide (y.1.1 = name) then [] else g y.

Context (reg : CacheRegistry W) (place : CacheName → Place).

(** Every provider of the registry keeps to the contract at its place; two may share one. *)
Definition registry_keeps : Prop :=
  ∀ name p, cr_providers reg !! name = Some p → keeps_to p (place name).

(** What is held under an application's entry is believed of it. *)
Definition reflects (g : Believed) (h : Held) : Prop :=
  ∀ name namespaces key text v,
    cache_key name namespaces key = Ok text → h (place name, text) = Some v →
    v ∈ g (name, namespaces, key).

Lemma reflects_mono g h h' : h' ⊑ h → reflects g h → reflects g h'.
Proof. intros Hh Hg name ns key text v Hk Hv. by eapply Hg; [|apply Hh]. Qed.

Lemma reflects_put name ns key text v g h :
  cache_key name ns key = Ok text → reflects g h →
  reflects (g_put (name, ns, key) v g) (put (place name, text) v h).
Proof.
  intros Hk Hg name' ns' key' text' v' Hk'. unfold put, g_put. cbv beta.
  destruct (decide ((name', ns', key') = (name, ns, key))) as [[= -> -> ->]|Hne].
  - rewrite Hk in Hk'. injection Hk' as ->. rewrite decide_True by done. intros [= <-]. by left.
  - rewrite decide_False; [by eapply Hg|]. intros [= _ ->]. apply Hne.
    by destruct (cache_key_inj _ _ _ _ _ _ _ Hk Hk') as (-> & -> & ->).
Qed.

Lemma reflects_may name ns key text v g h h' :
  cache_key name ns key = Ok text → reflects g h → h' = h ∨ h' = put (place name, text) v h →
  reflects (g_may (name, ns, key) v g) h'.
Proof.
  intros Hk Hg Hh' name' ns' key' text' v' Hk'. unfold g_may. cbv beta.
  destruct (decide ((name', ns', key') = (name, ns, key))) as [[= -> -> ->]|Hne].
  - rewrite Hk in Hk'. injection Hk' as ->. destruct Hh' as [->| ->].
    + intros Hv. right. by eapply Hg.
    + unfold put. rewrite decide_True by done. intros [= <-]. by left.
  - destruct Hh' as [->| ->]; [by eapply Hg|]. unfold put. rewrite decide_False; [by eapply Hg|].
    intros [= _ ->]. apply Hne. by destruct (cache_key_inj _ _ _ _ _ _ _ Hk Hk') as (-> & -> & ->).
Qed.

Lemma reflects_drop name ns key text g h :
  cache_key name ns key = Ok text → reflects g h →
  reflects (g_drop (name, ns, key) g) (drop (place name, text) h).
Proof.
  intros Hk Hg name' ns' key' text' v' Hk'. unfold drop, g_drop. cbv beta. case_decide as Hx; [done|].
  rewrite decide_False; [by eapply Hg|]. intros [= -> -> ->]. apply Hx.
  rewrite Hk in Hk'. by injection Hk' as ->.
Qed.

Lemma reflects_clear name g h :
  reflects g h → reflects (g_clear name g) (drop_scope (place name) (cache_scope name) h).
Proof.
  intros Hg name' ns' key' text' v' Hk'. unfold drop_scope, g_clear. cbv beta. case_decide as Hx; [done|].
  simpl. rewrite decide_False; [by eapply Hg|]. intros ->. apply Hx. split; [done|]. simpl.
  rewrite (scope_prefix name name ns' key' text' Hk'). by apply bool_decide_eq_true_2.
Qed.

(** ** The calls of an application *)

Definition entry_of (c : Cache W) (key : string) : Entry := (ca_name c, ca_namespaces c, key).

(** The pairs of a batch that encode. *)
Definition encoded {T} (codec : Codec T) (values : list (string * T)) : list (string * Bytes) :=
  omap (λ x, match encode codec x.2 with Ok b => Some (x.1, b) | Err _ => None end) values.

Definition believe_set {T} (codec : Codec T) (c : Cache W) (key : string) (value : T) (g : Believed) : Believed :=
  match encode codec value with Ok bytes => g_put (entry_of c key) bytes g | Err _ => g end.
Definition believe_many (c : Cache W) (ok : bool) (pairs : list (string * Bytes)) (g : Believed) : Believed :=
  foldl (λ g x, (if ok then g_put else g_may) (entry_of c x.1) x.2 g) g pairs.

(** The states of the caches and what an application may believe of them, after
    any calls through any handles of the registry, in any order, at any times
    and with any results; entries may be lost in between. *)
Inductive cache_history : CacheState W → Believed → Prop :=
  | history_start s :
      (∀ name text, storage (cs_world s) (place name, text) = None) →
      cache_history s (λ _, [])
  | history_lost s s' g :
      cache_history s g → storage (cs_world s') ⊑ storage (cs_world s) → cache_history s' g
  | history_get {T} (codec : Codec T) c t key s r s' g :
      cache_history s g → ca_registry c = reg → cache_get codec c t key s = (r, s') → cache_history s' g
  | history_set {T} (codec : Codec T) c t key value ttl s r s' g :
      cache_history s g → ca_registry c = reg → cache_set codec c t key value ttl s = (r, s') →
      cache_history s' (if is_ok r then believe_set codec c key value g else g)
  | history_add {T} (codec : Codec T) c t key value ttl s r s' g :
      cache_history s g → ca_registry c = reg → cache_add codec c t key value ttl s = (r, s') →
      cache_history s' (match r with Ok true => believe_set codec c key value g | _ => g end)
  | history_get_many {T} (codec : Codec T) c t keys s r s' g :
      cache_history s g → ca_registry c = reg → cache_get_many codec c t keys s = (r, s') →
      cache_history s' g
  | history_set_many {T} (codec : Codec T) c t values ttl s r s' g :
      cache_history s g → ca_registry c = reg → cache_set_many codec c t values ttl s = (r, s') →
      cache_history s' (believe_many c (is_ok r) (encoded codec values) g)
  | history_delete c t key s r s' g :
      cache_history s g → ca_registry c = reg → cache_delete c t key s = (r, s') →
      cache_history s' (if is_ok r then g_drop (entry_of c key) g else g)
  | history_delete_many c t keys s r s' g :
      cache_history s g → ca_registry c = reg → cache_delete_many c t keys s = (r, s') →
      cache_history s' (if is_ok r then foldl (λ g key, g_drop (entry_of c key) g) g keys else g)
  | history_touch c t key ttl s r s' g :
      cache_history s g → ca_registry c = reg → cache_touch c t key ttl s = (r, s') → cache_history s' g
  | history_increment c t key delta s r s' g :
      cache_history s g → ca_registry c = reg → cache_increment c t key delta s = (r, s') →
      cache_history s' (match r with Ok n => g_put (entry_of c key) (to_be_bytes n) g | Err _ => g end)
  | history_clear c t s r s' g :
      cache_history s g → ca_registry c = reg → cache_clear c t s = (r, s') →
      cache_history s' (if is_ok r then g_clear (ca_name c) g else g).

(** ** Every state of a history is reflected *)

Lemma liftR_step {S E A B} (x : result E A) (k : A → M S E B) (s : S) r (s' : S) :
  bindM (liftR x) k s = (r, s') →
  (∃ e, r = Err e ∧ s' = s) ∨ ∃ a, x = Ok a ∧ k a s = (r, s').
Proof. destruct x as [a|e]; [eauto|]. intros [= <- <-]. eauto. Qed.

Lemma execute_world {A} c t op (future : M W CacheError A) s r s' :
  execute c t op future s = (r, s') → future (cs_world s) = (r, cs_world s').
Proof. unfold execute. destruct (future (cs_world s)) as [r' w']. by intros [= <- <-]. Qed.

Lemma get_bytes_world c t op (future : M W CacheError (option Bytes)) s r s' :
  get_bytes c t op future s = (r, s') → future (cs_world s) = (r, cs_world s').
Proof. unfold get_bytes. destruct (future (cs_world s)) as [r' w']. by intros [= <- <-]. Qed.

Lemma provider_keeps c p :
  registry_keeps → ca_registry c = reg → handle_provider c = Ok p → keeps_to p (place (ca_name c)).
Proof. intros Hreg Hc Hp. apply ok_or_ok in Hp. rewrite Hc in Hp. by apply Hreg. Qed.

(** Both outcomes of a get, before and after its value is decoded. *)
Lemma get_world {T} (codec : Codec T) c t key s r s' :
  cache_get codec c t key s = (r, s') →
  s' = s ∧ is_ok r = false ∨
  ∃ text p o, handle_key c key = Ok text ∧ handle_provider c = Ok p ∧
    cp_get p (ct_now t) text (cs_world s) = (o, cs_world s') ∧
    r = (let? o := o in match o with
                        | None => Ok None
                        | Some bytes => let? v := decode codec bytes in Ok (Some v)
                        end).
Proof.
  unfold cache_get. intros [(e & -> & ->)|(text & Hk & H)]%liftR_step; [by left|].
  apply liftR_step in H as [(e & -> & ->)|(p & Hp & H)]; [by left|].
  right. unfold bindM in H. destruct (get_bytes _ _ _ _ s) as [o s1] eqn:Hg.
  exists text, p, o. apply get_bytes_world in Hg.
  destruct o as [[bytes|]|e]; simpl in *; injection H as <- <-; by split_and!.
Qed.

Lemma spelled_keys c seen values pairs :
  spell_keys c seen values = Ok pairs →
  Forall2 (λ value pair, pair.1 = value ∧ handle_key c value = Ok pair.2) values pairs ∧
  NoDup values ∧ Forall (λ v, v ∉ seen) values.
Proof.
  revert seen pairs. induction values as [|v values IH]; intros seen pairs; simpl.
  - intros [= <-]. split_and!; constructor.
  - case_bool_decide as Hv; [done|]. intros (text & Hk & H)%result_bind_ok.
    apply result_bind_ok in H as (keys & Hks & [= <-]). apply IH in Hks as (HF & Hnd & Hseen).
    split_and!; [by constructor| |].
    + constructor; [|done]. intros Hin. rewrite Forall_forall in Hseen.
      apply (Hseen _ Hin). by left.
    + constructor; [done|]. eapply Forall_impl; [exact Hseen|]. simpl. intros x Hx Hin. apply Hx. by right.
Qed.

Lemma handle_keys_spelled c values pairs :
  handle_keys c values = Ok pairs →
  Forall2 (λ value pair, pair.1 = value ∧ handle_key c value = Ok pair.2) values pairs ∧ NoDup values.
Proof.
  unfold handle_keys. case_match; [done|]. intros (? & ? & _)%spelled_keys. done.
Qed.

Lemma spelled_writes {T} (codec : Codec T) c ttl seen values writes :
  spell_writes codec c ttl seen values = Ok writes →
  Forall2 (λ pair write, handle_key c pair.1 = Ok (cw_key write) ∧ cw_value write = pair.2)
    (encoded codec values) writes.
Proof.
  revert seen writes. induction values as [|[k v] values IH]; intros seen writes; simpl.
  - intros [= <-]. constructor.
  - case_bool_decide as Hk; [done|]. intros (text & Ht & H)%result_bind_ok.
    apply result_bind_ok in H as (bytes & Hb & H). apply result_bind_ok in H as (ws & Hws & [= <-]).
    unfold encoded. simpl. rewrite Hb. constructor; [by split|]. by eapply IH.
Qed.

Lemma reflects_writes c (pairs : list (string * Bytes)) writes (ok : bool) n g h :
  Forall2 (λ pair write, handle_key c pair.1 = Ok (cw_key write) ∧ cw_value write = pair.2) pairs writes →
  (ok = true → (length writes ≤ n)%nat) → reflects g h →
  reflects (believe_many c ok pairs g) (put_writes (place (ca_name c)) (take n writes) h).
Proof.
  intros Hpairs. revert n g h. induction Hpairs as [|[k v] x pairs writes [Hk Hv] _ IH]; intros n g h Hok Hg.
  - by rewrite take_nil.
  - simpl in *. subst v. destruct n as [|n].
    + destruct ok; [specialize (Hok eq_refl); lia|].
      apply (IH O); [done|]. eapply reflects_may; [exact Hk|exact Hg|by left].
    + apply IH; [intros Ht; specialize (Hok Ht); lia|]. destruct ok.
      * by apply reflects_put.
      * eapply reflects_may; [exact Hk|exact Hg|by right].
Qed.

Lemma reflects_believe_none c pairs g h :
  reflects g h → reflects (believe_many c false pairs g) h.
Proof.
  revert g. induction pairs as [|x pairs IH]; intros g Hg; [done|]. apply IH.
  intros name ns key text v Hk Hv. unfold g_may. cbv beta. specialize (Hg name ns key text v Hk Hv).
  case_decide; [by right|done].
Qed.

Lemma reflects_drops c keys pairs g h :
  Forall2 (λ value (pair : string * CacheKey), pair.1 = value ∧ handle_key c value = Ok pair.2) keys pairs →
  reflects g h →
  reflects (foldl (λ g key, g_drop (entry_of c key) g) g keys) (drop_keys (place (ca_name c)) pairs.*2 h).
Proof.
  intros Hpairs. revert g h. induction Hpairs as [|k x keys pairs [_ Hk] _ IH]; intros g h Hg; [done|].
  simpl. apply IH. by apply reflects_drop.
Qed.

(** A call that stops before its provider leaves the caches alone. *)
Ltac stop_early H :=
  let e := fresh "e" in
  apply liftR_step in H as [(e & -> & ->)|(? & ? & H)]; [done|].

Section Steps.
Context (Hreg : registry_keeps).

Lemma set_step {T} (codec : Codec T) c t key value ttl s r s' g :
  ca_registry c = reg → reflects g (storage (cs_world s)) →
  cache_set codec c t key value ttl s = (r, s') →
  reflects (if is_ok r then believe_set codec c key value g else g) (storage (cs_world s')).
Proof using Hreg.
  intros Hc Hg H. unfold cache_set in H. do 4 stop_early H.
  apply execute_world in H. eapply keeps_set in H; [|by eapply provider_keeps].
  eapply reflects_mono; [exact H|]. destruct r as [u|e]; simpl; [|done].
  unfold believe_set. match goal with E : encode _ _ = Ok _ |- _ => rewrite E end.
  by apply reflects_put.
Qed.

Lemma add_step {T} (codec : Codec T) c t key value ttl s r s' g :
  ca_registry c = reg → reflects g (storage (cs_world s)) →
  cache_add codec c t key value ttl s = (r, s') →
  reflects (match r with Ok true => believe_set codec c key value g | _ => g end)
    (storage (cs_world s')).
Proof using Hreg.
  intros Hc Hg H. unfold cache_add in H. do 4 stop_early H.
  apply execute_world in H. eapply keeps_add in H; [|by eapply provider_keeps].
  eapply reflects_mono; [exact H|]. destruct r as [[]|e]; simpl; [|done..].
  unfold believe_set. match goal with E : encode _ _ = Ok _ |- _ => rewrite E end.
  by apply reflects_put.
Qed.

Lemma get_step {T} (codec : Codec T) c t key s r s' :
  ca_registry c = reg → cache_get codec c t key s = (r, s') →
  storage (cs_world s') ⊑ storage (cs_world s) ∧
  ∀ x, r = Ok (Some x) → ∃ text bytes, handle_key c key = Ok text ∧ decode codec bytes = Ok x ∧
    storage (cs_world s) (place (ca_name c), text) = Some bytes.
Proof using Hreg.
  intros Hc [[-> Hr]|(text & p & o & Hk & Hp & Hget & ->)]%get_world.
  - split; [done|]. by intros x ->.
  - eapply keeps_get in Hget as [Hs Hv]; [|by eapply provider_keeps]. split; [done|].
    intros x Hx. destruct o as [[bytes|]|e]; simpl in Hx; [|done..].
    apply result_bind_ok in Hx as (v & Hd & [= ->]). exists text, bytes. split_and!; [done|done|by apply Hv].
Qed.

Lemma decoded_hits {T} (codec : Codec T) (pairs : list ((string * CacheKey) * option Bytes)) found found' :
  decode_hits codec pairs found = Ok found' →
  ∀ x, x ∈ found' → x ∈ found ∨
    ∃ text bytes, ((x.1, text), Some bytes) ∈ pairs ∧ decode codec bytes = Ok x.2.
Proof.
  revert found. induction pairs as [|[[name text] [bytes|]] pairs IH]; intros found; simpl.
  - intros [= ->]. by left.
  - intros (v & Hd & H)%result_bind_ok x Hx. destruct (IH _ H x Hx) as [Hin|(t & b & Hin & Hdec)].
    + assert (x = (name, v) ∨ x ∈ found) as [->|?]; [|right; exists text, bytes; split; [by left|done]|by left].
      clear -Hin. induction found as [|[k w] l IH]; simpl in Hin.
      * left. by apply list_elem_of_singleton in Hin.
      * case_bool_decide as Hk.
        -- subst k. apply elem_of_cons in Hin as [->|Hin]; [by left|right; by right].
        -- apply elem_of_cons in Hin as [->|Hin]; [right; by left|].
           destruct (IH Hin) as [->|?]; [by left|right; by right].
    + right. exists t, b. split; [by right|done].
  - intros H x Hx. destruct (IH _ H x Hx) as [?|(t & b & Hin & Hdec)]; [by left|].
    right. exists t, b. split; [by right|done].
Qed.

Lemma get_many_step {T} (codec : Codec T) c t keys s r s' :
  ca_registry c = reg → cache_get_many codec c t keys s = (r, s') →
  storage (cs_world s') ⊑ storage (cs_world s) ∧
  ∀ found, r = Ok found → ∀ x, x ∈ found → ∃ text bytes,
    handle_key c x.1 = Ok text ∧ decode codec bytes = Ok x.2 ∧
    storage (cs_world s) (place (ca_name c), text) = Some bytes.
Proof using Hreg.
  intros Hc H. unfold cache_get_many in H.
  apply liftR_step in H as [(e & -> & ->)|(pairs & Hpairs & H)]; [done|]. stop_early H.
  apply handle_keys_spelled in Hpairs as [Hpairs _].
  unfold bindM in H. destruct (execute _ _ _ _ s) as [o s1] eqn:Hrun. apply execute_world in Hrun.
  eapply keeps_get_many in Hrun as [Hs Hv]; [|by eapply provider_keeps].
  destruct o as [vs|e]; simpl in H; injection H as <- <-; [|done]. split; [done|].
  intros found Hf y Hin. unfold decode_many in Hf. case_match; [done|].
  destruct (decoded_hits codec _ _ _ Hf y Hin) as [[]%elem_of_nil|(text & bytes & Hz & Hd)].
  exists text, bytes. specialize (Hv vs eq_refl).
  apply list_elem_of_lookup_1 in Hz as [i Hz]. apply lookup_zip_Some in Hz as [Hz1 Hz2].
  destruct (Forall2_lookup_r _ _ _ _ _ Hpairs Hz1) as (key & _ & Hname & Hk). simpl in *. subst key.
  split_and!; [done|done|].
  assert (Hkey : pairs.*2 !! i = Some text) by by rewrite list_lookup_fmap, Hz1.
  destruct (Forall2_lookup_l _ _ _ _ _ Hv Hkey) as (o & Ho & Hob).
  apply Hob. rewrite Hz2 in Ho. by injection Ho.
Qed.

Lemma set_many_step {T} (codec : Codec T) c t values ttl s r s' g :
  ca_registry c = reg → reflects g (storage (cs_world s)) →
  cache_set_many codec c t values ttl s = (r, s') →
  reflects (believe_many c (is_ok r) (encoded codec values) g) (storage (cs_world s')).
Proof using Hreg.
  intros Hc Hg H. unfold cache_set_many in H.
  apply liftR_step in H as [(e & -> & ->)|(u & _ & H)]; [by apply reflects_believe_none|].
  apply liftR_step in H as [(e & -> & ->)|(writes & Hw & H)]; [by apply reflects_believe_none|].
  apply liftR_step in H as [(e & -> & ->)|(p & Hp & H)]; [by apply reflects_believe_none|].
  unfold handle_writes in Hw. case_match; [done|]. apply spelled_writes in Hw.
  apply execute_world in H.
  eapply keeps_set_many in H as (n & Hs & Hok); [|by eapply provider_keeps].
  eapply reflects_mono; [exact Hs|]. by apply reflects_writes.
Qed.

Lemma delete_step c t key s r s' g :
  ca_registry c = reg → reflects g (storage (cs_world s)) → cache_delete c t key s = (r, s') →
  reflects (if is_ok r then g_drop (entry_of c key) g else g) (storage (cs_world s')).
Proof using Hreg.
  intros Hc Hg H. unfold cache_delete in H. do 2 stop_early H.
  apply execute_world in H. eapply keeps_delete in H; [|by eapply provider_keeps].
  eapply reflects_mono; [exact H|]. destruct (is_ok r); [|done]. by apply reflects_drop.
Qed.

Lemma delete_many_step c t keys s r s' g :
  ca_registry c = reg → reflects g (storage (cs_world s)) → cache_delete_many c t keys s = (r, s') →
  reflects (if is_ok r then foldl (λ g key, g_drop (entry_of c key) g) g keys else g)
    (storage (cs_world s')).
Proof using Hreg.
  intros Hc Hg H. unfold cache_delete_many in H.
  apply liftR_step in H as [(e & -> & ->)|(pairs & Hpairs & H)]; [done|]. stop_early H.
  apply handle_keys_spelled in Hpairs as [Hpairs _]. apply execute_world in H.
  eapply keeps_delete_many in H; [|by eapply provider_keeps].
  eapply reflects_mono; [exact H|]. destruct (is_ok r); [|done]. by apply reflects_drops.
Qed.

Lemma increment_step c t key delta s r s' g :
  ca_registry c = reg → reflects g (storage (cs_world s)) → cache_increment c t key delta s = (r, s') →
  reflects (match r with Ok n => g_put (entry_of c key) (to_be_bytes n) g | Err _ => g end)
    (storage (cs_world s')).
Proof using Hreg.
  intros Hc Hg H. unfold cache_increment in H. do 2 stop_early H.
  apply execute_world in H. eapply keeps_increment in H; [|by eapply provider_keeps].
  eapply reflects_mono; [exact H|]. destruct r; [|done]. by apply reflects_put.
Qed.

Lemma touch_step c t key ttl s r s' :
  ca_registry c = reg → cache_touch c t key ttl s = (r, s') →
  storage (cs_world s') ⊑ storage (cs_world s).
Proof using Hreg.
  intros Hc H. unfold cache_touch in H. do 3 stop_early H.
  apply execute_world in H. eapply keeps_touch in H; [done|by eapply provider_keeps].
Qed.

Lemma clear_step c t s r s' g :
  ca_registry c = reg → reflects g (storage (cs_world s)) → cache_clear c t s = (r, s') →
  reflects (if is_ok r then g_clear (ca_name c) g else g) (storage (cs_world s')).
Proof using Hreg.
  intros Hc Hg H. unfold cache_clear in H. case_bool_decide; [by injection H as <- <-|]. stop_early H.
  apply execute_world in H. eapply keeps_clear in H; [|by eapply provider_keeps].
  eapply reflects_mono; [exact H|]. destruct (is_ok r); [|done]. by apply reflects_clear.
Qed.

Lemma history_reflects s g : cache_history s g → reflects g (storage (cs_world s)).
Proof using Hreg.
  induction 1; eauto using set_step, add_step, set_many_step, delete_step, delete_many_step,
    increment_step, clear_step, reflects_mono.
  - intros name ns key text v _ Hv. match goal with E : ∀ n t, _ = None |- _ => by rewrite E in Hv end.
  - eapply reflects_mono; [|eassumption]. by eapply get_step.
  - eapply reflects_mono; [|eassumption]. by eapply get_many_step.
  - eapply reflects_mono; [|eassumption]. by eapply touch_step.
Qed.
End Steps.
End Handles.
