(* ===== verification/CacheTheorems.v ===== *)
(** * What the memory cache guarantees *)
From S2P Require Import Prelude Externals CacheKeys CacheStore CacheStoreSim CacheMemory.
From S2P Require Import CacheMemoryFacts CacheContract CacheRuntime CacheHandles.
#[local] Open Scope Z_scope.

(** ** Keys *)

(** A cache key can be read back: it is spelled exactly when every part is
    valid, two spellings agree only when provider, namespaces and application
    key all agree, and the scope of a provider is a prefix of a key exactly when
    the key is that provider's. *)
Theorem cache_keys_are_unambiguous provider namespaces key :
  (match cache_key provider namespaces key with
   | Ok text =>
       key_ok namespaces key ∧
       (∀ provider' namespaces' key', cache_key provider' namespaces' key' = Ok text →
          provider' = provider ∧ namespaces' = namespaces ∧ key' = key) ∧
       (∀ provider', String.prefix (cache_scope provider') text = bool_decide (provider' = provider))
   | Err e => e = InvalidKey ∧ ¬ key_ok namespaces key
   end).
Proof.
  destruct (cache_key provider namespaces key) as [text|e] eqn:Hk; [|by apply cache_key_err in Hk].
  split_and!; [by eapply cache_key_valid| |].
  - intros p n k Hk'. by eapply cache_key_inj.
  - intros p. by eapply scope_prefix.
Qed.

(** ** The bounded store *)

Section Store.
Context {V : Type}.

(** The states calls bring a new store to, with their number. Each call has a
    walk of its own. *)
Inductive store_run (largest : Z) : BoundedStore V → nat → Prop :=
  | run_new limits :
      room largest limits → store_run largest (store_new limits) 0
  | run_call s n order call :
      store_run largest s n → walk_ok order → call_fits largest s call →
      store_run largest (run_store_call order call s) (S n).

Lemma store_run_ok largest s n :
  store_run largest s n → Z.of_nat n ≤ U64_MAX → store_ok largest s ∧ st_sequence s ≤ Z.of_nat n.
Proof.
  induction 1 as [limits Hroom|s n order call Hrun IH Hwalk Hfits]; intros Hn.
  - split; [|done]. destruct Hroom as (He & l & Hl & Hl0 & Hmax). split; simpl.
    + apply store_new_inv.
    + apply orb_false_iff. split; [apply Z.ltb_ge; unfold entry_count; simpl; by rewrite map_size_empty|].
      simpl. rewrite Hl. by apply Z.ltb_ge.
    + unfold zlen. cbn. lia.
    + split; [done|]. by exists l.
  - destruct IH as [Hok Hs]; [lia|].
    destruct (call_leaves order Hwalk largest call s Hok) as [(Hok' & _ & Hs') _]; [lia|done|].
    split; [done|lia].
Qed.

(** From any state calls bring a store to, a call does to the entries, read in
    the order of their eviction, what it does to the ideal queue: an insertion
    or a hit moves the entry to the back, and the front goes while a limit is
    exceeded. The order is the ideal one unless stale markers had piled up to
    the bound at which the queue is rebuilt; then it may be any. *)
Theorem memory_store_refines_queue largest s n order call :
  store_run largest s n → Z.of_nat n < U64_MAX → walk_ok order → call_fits largest s call →
  let s' := run_store_call order call s in
  (queue s' ≡ₚ ideal_call (st_limits s) call (queue s)) ∧
  (zlen (st_lru s) < lru_limit s' → queue s' = ideal_call (st_limits s) call (queue s)) ∧
  list_to_map (queue s') = stored (st_entries s') ∧ NoDup (queue s').*1 ∧
  ideal_over (st_limits s') (queue s') = false ∧
  zlen (st_lru s') ≤ 4 * lm_max_entries (st_limits s') + 16.
Proof.
  intros Hrun Hn Hwalk Hfits s'. destruct (store_run_ok largest s n Hrun) as [Hok Hs]; [lia|].
  destruct (call_leaves order Hwalk largest call s Hok) as [(Hok' & [Hp Hexact] & _) _]; [lia|done|].
  split_and!; [done|done| | | |].
  - apply inv_stored, Hok'.
  - apply inv_keys, Hok'.
  - rewrite <- inv_over by apply Hok'. apply Hok'.
  - apply Hok'.
Qed.
End Store.

(** Two entries fit: the read one stays when a third comes. *)
Definition two_entries : MemoryLimits := {| lm_max_entries := 2; lm_max_bytes := Some 100 |}.
Definition demo_walk : Walk nat := map_to_list.
Definition demo_store : BoundedStore nat :=
  run_store_call demo_walk (CallAccess "one" (λ _, Keep tt))
    (run_store_call demo_walk (CallInsert "two" 2%nat 1)
       (run_store_call demo_walk (CallInsert "one" 1%nat 1) (store_new two_entries))).

Lemma demo_walk_ok : walk_ok demo_walk.
Proof. intros m. reflexivity. Qed.

Lemma demo_store_run : store_run 10 demo_store 3.
Proof.
  repeat (apply run_call; [|apply demo_walk_ok|by vm_compute]).
  apply run_new. split; [by vm_compute|]. exists 100. by vm_compute.
Qed.

Lemma memory_store_refines_queue_witness :
  store_run 10 demo_store 3 ∧ queue demo_store = [("two", (2%nat, 1)); ("one", (1%nat, 1))]%string ∧
  queue (run_store_call demo_walk (CallInsert "three" 3%nat 1) demo_store) =
    [("one", (1%nat, 1)); ("three", (3%nat, 1))]%string.
Proof.
  split; [exact demo_store_run|]. split; [reflexivity|].
  rewrite (proj1 (proj2 (memory_store_refines_queue 10 demo_store 3 demo_walk
             (CallInsert "three" 3%nat 1) demo_store_run ltac:(done) demo_walk_ok ltac:(done))));
    reflexivity.
Defined.

(** A walk that happens to list the newest entry first. *)
Definition newer (x y : string * StoredValue nat) : Prop := sv_sequence y.2 ≤ sv_sequence x.2.
#[export] Instance newer_dec x y : Decision (newer x y) := Z_le_dec _ _.
Definition newest_walk : Walk nat := λ m, merge_sort newer (map_to_list m).

Lemma newest_walk_ok : walk_ok newest_walk.
Proof. intros m. apply merge_sort_Permutation. Qed.

(** An entry read just before, and more often than any other, is evicted before
    an older one: the reads filled the queue with markers, and the rebuilt
    queue is in the order of the walk. *)
Example compaction_forgets_recency :
  let reads := Nat.iter 23 (run_store_call newest_walk (CallAccess "one" (λ _, Keep tt))) in
  let s := run_store_call newest_walk (CallInsert "two" 2%nat 1)
             (run_store_call newest_walk (CallInsert "one" 1%nat 1) (store_new two_entries)) in
  let s' := run_store_call newest_walk (CallInsert "three" 3%nat 1) (reads s) in
  st_entries s' !! "one"%string = None ∧
  sv_value <$> st_entries s' !! "two"%string = Some 2%nat ∧
  sv_value <$> st_entries s' !! "three"%string = Some 3%nat.
Proof. vm_compute. done. Qed.

(** ** The memory cache *)

Section Cache.
Context `{X : Externals} (walk : Z → Walk MemoryEntry) (limits : MemoryCacheLimits).

(** A cache after any calls at any clocks. *)
Definition cache_after (ops : list (CacheInstant * CacheOp)) : CacheStore :=
  run_cache walk limits ops (store_new (store_limits limits)).

(** C37: After any calls a further call answers as the contract says of the entries
    held, and leaves no entry the contract would not leave. Only an eviction
    loses one: when the contract's entries are within the limits all of them
    are held, and the entry a call is about is always as the contract says, if
    its value fits at all. *)
Theorem memory_cache_refines_map ops now op :
  limits_fit limits → (∀ n, walk_ok (walk n)) → zlen ops < U64_MAX →
  let s := cache_after ops in
  let '(answer, m) := cache_spec limits now op (values s) in
  let '(answer', s') := run_cache_op walk limits now op s in
  answer' = answer ∧ values s' ⊆ m ∧
  (map_within limits m → values s' = m) ∧
  (∀ key, cache_op_key op = Some key →
     from_option (λ e, 0 < ml_max_entries limits ∧ str_len (me_value e) ≤ ml_max_bytes limits)
       True (m !! key) →
     values s' !! key = m !! key).
Proof.
  intros Hfit Hwalk Hlen s. destruct (fresh_run_inv walk limits Hwalk Hfit ops Hlen) as [Hinv Hseq].
  fold s in Hinv, Hseq. destruct (op_step walk limits Hwalk now op s Hinv Hseq)
    as (e & Hrun & Hmap & Hsane & _ & _ & Hsub & Hexact & Hkey).
  pose proof (λ key j Hop Hne, spec_frame limits now op key j (values s) Hop Hne) as Hframe.
  rewrite Hrun. destruct (cache_spec limits now op (values s)) as [answer m]. simpl in *. subst m.
  split_and!; [done..|].
  intros key Hop Hfits. destruct e as [|[k v b|k|keep|k a|lim]]; try by rewrite Hkey.
  destruct Hsane as [-> _]. cbn [effect_map] in *. destruct (decide (k = key)) as [->|Hne].
  - rewrite lookup_insert_eq in *. simpl in Hfits. naive_solver.
  - specialize (Hframe key k Hop Hne). rewrite lookup_insert_eq in Hframe.
    assert (Hsame : <[k := v]> (values s) = values s) by by apply insert_id.
    rewrite Hsame in *. rewrite Hexact; [done|]. by apply cache_inv_within.
Qed.

(** Whatever calls are made, at whatever clocks, the cache stays within its
    limits: entries, the bytes of all values, each value, and the markers its
    queue keeps. *)
Theorem memory_cache_is_bounded ops :
  limits_fit limits → (∀ n, walk_ok (walk n)) → zlen ops < U64_MAX →
  let s := cache_after ops in
  entry_count s ≤ ml_max_entries limits ∧
  held_bytes (values s) ≤ ml_max_bytes limits ∧
  (∀ key e, values s !! key = Some e → str_len (me_value e) ≤ Z.max (ml_max_entry_bytes limits) 8) ∧
  zlen (st_lru s) ≤ 4 * ml_max_entries limits + 16.
Proof.
  intros Hfit Hwalk Hlen s. destruct (fresh_run_inv walk limits Hwalk Hfit ops Hlen) as [Hinv _].
  fold s in Hinv. destruct (cache_inv_within limits s Hinv) as [He Hb]. split_and!; [|done| |].
  - unfold entry_count. unfold values in He. by rewrite map_size_fmap in He.
  - intros key e Hv. by eapply (cache_inv_values limits).
  - pose proof (ok_markers _ _ (ci_ok limits s Hinv)) as Hm. by rewrite (ci_limits limits s Hinv) in Hm.
Qed.
End Cache.

(** ** A small cache *)

Import DemoExternals.

Definition entry_walk : Z → Walk MemoryEntry := λ _, map_to_list.

Lemma entry_walk_ok n : walk_ok (entry_walk n).
Proof. intros m. reflexivity. Qed.

(** Two entries, twenty bytes in all, twelve in one; a minute by default. *)
Definition small_limits : MemoryCacheLimits :=
  {| ml_max_entries := 2; ml_max_bytes := 20; ml_max_entry_bytes := 12; ml_default_ttl := from_secs 60 |}.

Lemma small_limits_fit : limits_fit small_limits.
Proof. by vm_compute. Qed.

Definition small_ops : list (CacheInstant * CacheOp) :=
  [(0, OpSet "a" "twelve bytes" TtlForever); (1, OpIncrement "n" 5);
   (2, OpGet "a"); (3, OpIncrement "n" (-7))]%string.

(** The counter goes on from what it holds, and expires a minute after it was made. *)
Lemma memory_cache_refines_map_witness :
  (run_cache_op entry_walk small_limits 4 (OpIncrement "n" 3) (cache_after entry_walk small_limits small_ops)).1
    = AnsInt (Ok 1) ∧
  (let s := cache_after entry_walk small_limits small_ops in
   let '(answer, m) := cache_spec small_limits (from_secs 61) (OpGet "n"%string) (values s) in
   let '(answer', s') := run_cache_op entry_walk small_limits (from_secs 61) (OpGet "n"%string) s in
   answer' = answer ∧ values s' ⊆ m ∧ (map_within small_limits m → values s' = m) ∧
   (∀ key, cache_op_key (OpGet "n"%string) = Some key →
      from_option (λ e, 0 < ml_max_entries small_limits ∧
                        str_len (me_value e) ≤ ml_max_bytes small_limits) True (m !! key) →
      values s' !! key = m !! key)).
Proof.
  split; [reflexivity|].
  exact (memory_cache_refines_map entry_walk small_limits small_ops (from_secs 61) (OpGet "n"%string)
           small_limits_fit entry_walk_ok ltac:(done)).
Defined.

Definition more_ops : list (CacheInstant * CacheOp) :=
  small_ops ++ [(5, OpSet "b"%string "twelve bytes"%string TtlForever)].

(** A third entry evicts the first: both bounds hold with equality. *)
Lemma memory_cache_is_bounded_witness :
  let s := cache_after entry_walk small_limits more_ops in
  held_bytes (values s) = 20 ∧ entry_count s = 2 ∧ held_bytes (values s) ≤ 20.
Proof.
  split; [by vm_compute|]. split; [by vm_compute|].
  exact (proj1 (proj2 (memory_cache_is_bounded entry_walk small_limits
           more_ops
           small_limits_fit entry_walk_ok ltac:(done)))).
Defined.

(** Integers are stored whatever the largest value is: a valid cache for small
    values takes eight bytes where four are allowed, or forgets every counter. *)
Example counters_ignore_the_value_limit :
  let limits := {| ml_max_entries := 4; ml_max_bytes := 8; ml_max_entry_bytes := 4; ml_default_ttl := 1 |} in
  let tiny := {| ml_max_entries := 4; ml_max_bytes := 4; ml_max_entry_bytes := 4; ml_default_ttl := 1 |} in
  memory_validate limits = Ok tt ∧ memory_validate tiny = Ok tt ∧
  held_bytes (values (cache_after entry_walk limits [(0, OpIncrement "n"%string 1)])) = 8 ∧
  (run_cache_op entry_walk tiny 0 (OpIncrement "n" 1)
     (cache_after entry_walk tiny [(0, OpIncrement "n" 1)]%string)).1 = AnsInt (Ok 1).
Proof. split_and!; by vm_compute. Qed.

(** ** What an application may rely on: reads, batches and the caches of a site *)

(** ** Reads *)

Section Reads.
Context {W : Type} `{!Storage W} (reg : CacheRegistry W) (place : CacheName → Place).

(** C36: Over providers that keep to their contract, after any calls through any
    handles, a value that is read, alone or in a batch, decodes bytes that a
    call through the same provider name, namespaces and key may have left
    there: no entry of another handle, no overwritten, deleted or cleared value. *)
Theorem reads_return_what_was_written {T} (codec : Codec T) (c : Cache W) t s g :
  registry_keeps reg place → cache_history reg place s g → ca_registry c = reg →
  (∀ key x s', cache_get codec c t key s = (Ok (Some x), s') →
     ∃ bytes, bytes ∈ g (entry_of c key) ∧ decode codec bytes = Ok x) ∧
  (∀ keys found s', cache_get_many codec c t keys s = (Ok found, s') →
     ∀ x, x ∈ found → ∃ bytes, bytes ∈ g (entry_of c x.1) ∧ decode codec bytes = Ok x.2).
Proof.
  intros Hreg Hs Hc. pose proof (history_reflects reg place Hreg s g Hs) as Hg. split.
  - intros key x s' Hget. apply (get_step reg place Hreg) in Hget as [_ Hx]; [|done].
    destruct (Hx x eq_refl) as (text & bytes & Hk & Hd & Hv). exists bytes.
    split; [by eapply Hg|done].
  - intros keys found s' Hget x Hin. apply (get_many_step reg place Hreg) in Hget as [_ Hx]; [|done].
    destruct (Hx found eq_refl x Hin) as (text & bytes & Hk & Hd & Hv). exists bytes.
    split; [by eapply Hg|done].
Qed.
End Reads.

(** ** Batches *)

(** The keys a provider answered with a value, in the order of the request. *)
Definition hits (keys : list string) (values : list (option Bytes)) : list (string * Bytes) :=
  omap (λ x, b ← x.2; Some (x.1, b)) (zip keys values).

Section Batches.
Context {W T : Type} (codec : Codec T).
Implicit Types (c : Cache W).

Lemma index_insert_new key (v : T) l : key ∉ l.*1 → index_insert key v l = l ++ [(key, v)].
Proof.
  induction l as [|[k w] l IH]; [done|]. rewrite fmap_cons, not_elem_of_cons. intros [Hk Hl]. simpl in *.
  rewrite bool_decide_eq_false_2 by done. by rewrite IH.
Qed.

Lemma decode_hits_order (pairs : list (string * CacheKey)) (values : list (option Bytes)) found found' :
  NoDup (found.*1 ++ pairs.*1) →
  decode_hits codec (zip pairs values) found = Ok found' →
  ∃ l, found' = found ++ l ∧
    Forall2 (λ hit x, x.1 = hit.1 ∧ decode codec hit.2 = Ok x.2) (hits pairs.*1 values) l.
Proof.
  revert values found. induction pairs as [|[name text] pairs IH]; intros values found Hnd; simpl.
  - intros [= <-]. exists []. split; [by rewrite app_nil_r|constructor].
  - destruct values as [|[bytes|] values]; simpl.
    + intros [= <-]. exists []. split; [by rewrite app_nil_r|constructor].
    + intros (v & Hd & H)%result_bind_ok.
      assert (Hname : name ∉ found.*1).
      { apply NoDup_app in Hnd as (_ & Hdis & _). intros Hin. apply (Hdis _ Hin). by left. }
      rewrite index_insert_new in H by done. apply IH in H as (l & -> & HF).
      * exists ((name, v) :: l). split; [by rewrite <- (assoc_L (++))|].
        unfold hits. simpl. by constructor.
      * rewrite fmap_app, <- (assoc_L (++)). done.
    + intros H. apply IH in H as (l & -> & HF); [by exists l|].
      apply NoDup_app in Hnd as (H1 & H2 & H3). apply NoDup_cons in H3 as [_ H3].
      apply NoDup_app. split_and!; [done| |done]. intros x Hx Hin. apply (H2 x Hx). by right.
Qed.

Lemma spell_keys_dup c keys : ¬ NoDup keys → ∃ e, handle_keys c keys = Err e.
Proof.
  intros Hdup. destruct (handle_keys c keys) as [pairs|e] eqn:Hk; [|by exists e].
  by apply handle_keys_spelled in Hk as [_ ?].
Qed.

(** A batch read answers exactly the hits, decoded, in the order of the
    request. A request with a repeated key, of more than 256 keys or for a
    provider that is not configured is refused before any provider is asked. *)
Theorem bulk_reads_keep_order c t keys s r s' :
  cache_get_many codec c t keys s = (r, s') →
  match r with
  | Ok found =>
      NoDup keys ∧ zlen keys ≤ MAX_BULK_ITEMS ∧
      ∃ p texts values w, cr_providers (ca_registry c) !! ca_name c = Some p ∧
        Forall2 (λ key text, handle_key c key = Ok text) keys texts ∧
        cp_get_many p (ct_now t) texts (cs_world s) = (Ok values, w) ∧ length values = length keys ∧
        Forall2 (λ hit x, x.1 = hit.1 ∧ decode codec hit.2 = Ok x.2) (hits keys values) found
  | Err e =>
      (¬ NoDup keys ∨ MAX_BULK_ITEMS < zlen keys ∨ cr_providers (ca_registry c) !! ca_name c = None) →
      s' = s
  end.
Proof.
  unfold cache_get_many. intros H.
  apply liftR_step in H as [(e & -> & ->)|(pairs & Hpairs & H)]; [done|].
  pose proof Hpairs as Hlen. unfold handle_keys in Hlen. case_match eqn:Hmax; [done|]. clear Hlen.
  pose proof (handle_keys_spelled _ _ _ Hpairs) as [Hspelled Hnd].
  apply liftR_step in H as [(e & -> & ->)|(p & Hp & H)]; [done|]. apply ok_or_ok in Hp.
  assert (Hnames : pairs.*1 = keys).
  { clear -Hspelled. induction Hspelled as [|k x keys pairs [Hx _] _ IH]; [done|].
    rewrite fmap_cons. by rewrite Hx, IH. }
  assert (Htexts : Forall2 (λ key text, handle_key c key = Ok text) keys pairs.*2).
  { apply Forall2_fmap_r. eapply Forall2_impl; [exact Hspelled|]. by intros ?? [_ ?]. }
  unfold bindM in H. destruct (execute _ _ _ _ s) as [o s1] eqn:Hx. apply execute_world in Hx.
  assert (Hok : ∀ e, r = Err e → ¬ NoDup keys ∨ MAX_BULK_ITEMS < zlen keys ∨
                  cr_providers (ca_registry c) !! ca_name c = None → s' = s).
  { intros e _ [Hn|[Hn|Hn]]; [done|lia|congruence]. }
  destruct r as [found|e]; [|by apply (Hok e)].
  destruct o as [values|e]; simpl in H; [|done]. unfold liftR in H. injection H as Hd <-.
  unfold decode_many in Hd. destruct (zlen pairs =? zlen values) eqn:Hl; [|done]. simpl in Hd.
  destruct (decode_hits_order pairs values [] found) as (l & -> & HF); [by rewrite Hnames|done|].
  rewrite Hnames in HF. split_and!; [done|lia|]. exists p, pairs.*2, values, (cs_world s1).
  split_and!; try done. apply Forall2_length in Hspelled. unfold zlen in Hl. lia.
Qed.
End Batches.

(** ** The caches of a site *)

Section Site.
Context `{X : Externals} {O : Type} `{!OutsideStorage O} (walk : Z → Walk MemoryEntry).
Implicit Types (w : World O).

(** A definition of a memory cache, wherever its store is. *)
Definition memory_definition (d : CacheDefinition (World O)) : Prop :=
  ∃ limits loc, df_provider d = memory_provider walk limits loc.

(** The caches built so far are new: at or beyond [first], each at its own
    address, with an empty store. *)
Definition fresh_caches (first : nat) (ps : gmap string (CacheProvider (World O))) w
    (address : string → nat) : Prop :=
  (first ≤ length (w_stores w))%nat ∧
  ∀ name p, ps !! name = Some p →
    (first ≤ address name < length (w_stores w))%nat ∧
    (∃ limits, p = memory_methods walk limits (address name) None ∧
       memory_validate limits = Ok tt ∧
       w_stores w !! address name = Some (store_new (store_limits limits))) ∧
    ∀ name' p', ps !! name' = Some p' → address name' = address name → name' = name.

Lemma build_providers_fresh first defs ps ps' w w' address :
  Forall memory_definition defs → fresh_caches first ps w address →
  build_providers defs ps w = (Ok ps', w') →
  (∃ address', fresh_caches first ps' w' address') ∧
  w_outside w' = w_outside w ∧ w_stores w `prefix_of` w_stores w' ∧
  dom ps' = list_to_set (df_name <$> defs) ∪ dom ps.
Proof.
  intros Hdefs. revert ps w address. induction Hdefs as [|d defs (limits & loc & Hd) Hdefs IH];
    intros ps w address Hfresh; simpl.
  - intros [= <- <-]. split_and!; [by exists address|done|done|]. set_solver.
  - rewrite Hd. cbn [cp_for_site memory_provider memory_methods]. unfold bindM at 1. cbn [allocate].
    set (w1 := {| w_stores := _; w_outside := _ |}).
    intros (u & Hval & H)%bindM_liftR_ok. cbn [cp_validate memory_methods] in Hval.
    set (a := length (w_stores w)) in *.
    assert (Hlen : length (w_stores w1) = S a) by (simpl; rewrite length_app; simpl; lia).
    assert (Hf1 : fresh_caches first (<[df_name d := memory_methods walk limits a None]> ps) w1
                    (λ n, if decide (n = df_name d) then a else address n)).
    { destruct Hfresh as [Hfirst Hps]. split; [rewrite Hlen; lia|]. rewrite Hlen.
      intros name p [[<- <-]|[Hne Hp]]%lookup_insert_Some.
      - rewrite decide_True by done. split_and!; [lia|lia| |].
        + exists limits. destruct u. split_and!; [done|done|].
          simpl. by rewrite lookup_app_r, Nat.sub_diag by done.
        + intros name' p' [[<- _]|[Hne' Hp']]%lookup_insert_Some; [done|].
          rewrite decide_False by done. intros Ha. apply Hps in Hp' as (Hr & _ & _). lia.
      - rewrite decide_False by done. destruct (Hps _ _ Hp) as (Hr & (l & Hl & Hv & Hs) & Hinj).
        split_and!; [lia|lia| |].
        + exists l. split_and!; [done|done|]. simpl. by apply lookup_app_l_Some.
        + intros name' p' [[<- _]|[Hne' Hp']]%lookup_insert_Some.
          * rewrite decide_True by done. lia.
          * rewrite decide_False by done. by eapply Hinj. }
    apply (IH _ _ _ Hf1) in H as (Ha & Ho & Hpre & Hdom). split_and!; [done|done| |].
    + etrans; [|exact Hpre]. by apply prefix_app_r.
    + rewrite Hdom, dom_insert_L. set_solver.
Qed.

(** A site's registry of memory caches has exactly the configured names, and
    behind each a valid cache of its own: a new, empty store that neither the
    configuration, nor another site, nor another name of this site uses. It
    keeps to the contract handles need. *)
Theorem built_caches_are_independent (conf : CacheConf (World O)) w reg metrics w' :
  Forall memory_definition (cc_providers conf) →
  registry_build conf w = (Ok (reg, metrics), w') →
  w_outside w' = w_outside w ∧ w_stores w `prefix_of` w_stores w' ∧
  dom (cr_providers reg) = list_to_set (df_name <$> cc_providers conf) ∧
  cc_default_provider conf = Some (cr_default reg) ∧ is_Some (cr_providers reg !! cr_default reg) ∧
  counters_ok metrics ∧
  ∃ address, fresh_caches (length (w_stores w)) (cr_providers reg) w' address ∧
    registry_keeps reg (AtMemory ∘ address) ∧
    ∀ name key, is_Some (cr_providers reg !! name) → storage w' (AtMemory (address name), key) = None.
Proof.
  intros Hdefs H. unfold registry_build in H.
  apply bindM_liftR_ok in H as (u & Hvalid & H). apply bindM_ok in H as (ps & w1 & Hb & H).
  apply bindM_liftR_ok in H as (default & Hdefault & H). injection H as <- <- <-. simpl.
  destruct (build_providers_fresh (length (w_stores w)) (cc_providers conf) ∅ ps w w1 (λ _, 0%nat))
    as ((address & Hfresh) & Ho & Hpre & Hdom); [done| |done|].
  { split; [done|]. intros name p. by rewrite lookup_empty. }
  rewrite dom_empty_L, union_empty_r_L in Hdom. apply ok_or_ok in Hdefault.
  split_and!; [done|done|done|done| |apply cache_metrics_new_ok|].
  - unfold cache_conf_validate in Hvalid. apply result_bind_ok in Hvalid as (names & Hn & Hvalid).
    rewrite Hdefault in Hvalid. simpl in Hvalid. case_bool_decide as Hin; [|done].
    apply elem_of_dom. rewrite Hdom. apply elem_of_list_to_set.
    assert (Hnames : ∀ seen defs names, validate_definitions seen defs = Ok names →
              ∀ n, n ∈ names → n ∈ seen ∨ n ∈ (df_name <$> (defs : list (CacheDefinition (World O))))).
    { clear. intros seen defs. revert seen. induction defs as [|d defs IH]; intros seen names; simpl.
      - intros [= ->]. by left.
      - intros (? & _ & H)%result_bind_ok n Hn. case_bool_decide; [done|].
        apply result_bind_ok in H as (? & _ & H). destruct (IH _ _ H n Hn) as [Hs|?]; [|right; by right].
        apply elem_of_cons in Hs as [->|?]; [right; by left|by left]. }
    destruct (Hnames _ _ _ Hn default Hin) as [[]%elem_of_nil|?]; done.
  - exists address. split_and!; [done| |].
    + intros name p Hp. destruct Hfresh as [_ Hf].
      destruct (Hf name p Hp) as (_ & (limits & -> & _ & _) & _). apply memory_keeps.
    + intros name key [p Hp]. destruct Hfresh as [_ Hf].
      destruct (Hf name p Hp) as (_ & (limits & _ & _ & Hs) & _).
      unfold storage, world_storage. simpl. rewrite Hs. simpl. by rewrite lookup_empty.
Qed.
End Site.

(** ** A small site *)

Import DemoExternals.

#[export] Instance demo_outside : OutsideStorage unit := λ _ _ _, None.

(** Text is its own encoding. *)
Definition text_codec : Codec string := {| co_to_vec := Ok; co_from_slice := Ok |}.

Definition demo_cache_conf : CacheConf (World unit) * World unit :=
  cache_conf_default entry_walk {| w_stores := []; w_outside := tt |}.

Definition demo_cache_limits : MemoryCacheLimits := mc_limits memory_cache_new.

Definition demo_cache_registry : CacheRegistry (World unit) :=
  {| cr_providers := {["default"%string := memory_methods entry_walk demo_cache_limits 0 None]};
     cr_default := DEFAULT_CACHE |}.
Definition demo_place : CacheName → Place := λ _, AtMemory 0.

Definition empty_state : CacheState (World unit) :=
  {| cs_world := {| w_stores := [store_new (store_limits demo_cache_limits)]; w_outside := tt |};
     cs_metrics := cache_metrics_new ["default"%string] |}.
Definition demo_handle : Cache (World unit) := with_namespace "tenant" (default_handle demo_cache_registry).
Definition at_time (now : CacheInstant) : CallTime := {| ct_now := now; ct_elapsed := 5 |}.
Definition written_state : CacheState (World unit) :=
  (cache_set text_codec demo_handle (at_time 10) "product" "42" TtlForever empty_state).2.

Lemma demo_registry_keeps : registry_keeps demo_cache_registry demo_place.
Proof.
  intros name p Hp. unfold demo_cache_registry in Hp. cbn [cr_providers] in Hp.
  apply lookup_singleton_Some in Hp as [_ <-]. apply memory_keeps.
Qed.

Lemma demo_cache_history :
  cache_history demo_cache_registry demo_place written_state
    (believe_set text_codec demo_handle "product" "42" (λ _, [])).
Proof.
  eapply (history_set _ _ text_codec demo_handle (at_time 10) "product" "42" TtlForever empty_state (Ok tt)).
  - by apply history_start.
  - done.
  - reflexivity.
Qed.

Lemma reads_return_what_was_written_witness :
  (cache_get text_codec demo_handle (at_time 20) "product" written_state).1 = Ok (Some "42"%string) ∧
  ∃ bytes, bytes ∈ believe_set text_codec demo_handle "product" "42" (λ _, []) (entry_of demo_handle "product") ∧
    decode text_codec bytes = Ok "42"%string.
Proof.
  split; [reflexivity|].
  eapply (proj1 (reads_return_what_was_written demo_cache_registry demo_place text_codec demo_handle
            (at_time 20) written_state _ demo_registry_keeps demo_cache_history eq_refl)).
  apply (surjective_pairing (cache_get text_codec demo_handle (at_time 20) "product" written_state)).
Defined.

Lemma bulk_reads_keep_order_witness :
  let run := cache_get_many text_codec demo_handle (at_time 20) ["other"; "product"]%string written_state in
  run.1 = Ok [("product", "42")]%string ∧ NoDup ["other"; "product"]%string.
Proof.
  intros run. split; [reflexivity|].
  exact (proj1 (bulk_reads_keep_order text_codec demo_handle (at_time 20) ["other"; "product"]%string
           written_state _ _ (surjective_pairing run))).
Defined.

Lemma built_caches_are_independent_witness :
  ∃ reg metrics w', registry_build demo_cache_conf.1 demo_cache_conf.2 = (Ok (reg, metrics), w') ∧
    dom (cr_providers reg) = list_to_set ["default"%string] ∧ w_stores demo_cache_conf.2 `prefix_of` w_stores w'.
Proof.
  destruct (registry_build demo_cache_conf.1 demo_cache_conf.2) as [[[reg metrics]|e] w'] eqn:Hb.
  - exists reg, metrics, w'. split; [done|].
    destruct (built_caches_are_independent entry_walk demo_cache_conf.1 demo_cache_conf.2 reg metrics w'
                ltac:(repeat constructor; by eexists _, _) Hb) as (_ & Hpre & Hdom & _).
    split; [exact Hdom|exact Hpre].
  - exfalso. assert (is_ok (registry_build demo_cache_conf.1 demo_cache_conf.2).1 = true) as Hok by reflexivity.
    rewrite Hb in Hok. discriminate Hok.
Defined.
