(* ===== verification/Debounce.v ===== *)
(** * Debounced streams ([utils/debounce.rs])

    [Debouncer] selects which values of one stream are emitted; [DebounceQueue]
    holds the deadlines of many streams. [quiet_push] and [quiet_fire] are the
    contract: one timer per stream, that a value restarts or does not. *)
From Stdlib Require Import ZifyBool.
From S2P Require Import Prelude Externals.
#[local] Open Scope Z_scope.

Inductive DebounceMode := Leading | Trailing | LeadingAndTrailing.
#[export] Instance DebounceMode_eq_dec : EqDecision DebounceMode.
Proof. solve_decision. Defined.

Definition as_str (m : DebounceMode) : string :=
  match m with
  | Leading => "leading"
  | Trailing => "trailing"
  | LeadingAndTrailing => "leading_trailing"
  end.

Record DebounceConf := { dc_window : Duration; dc_mode : DebounceMode }.

Definition debounce_is_valid (c : DebounceConf) : bool := negb (dc_window c =? 0).
Definition trailing (window : Duration) : DebounceConf := {| dc_window := window; dc_mode := Trailing |}.

Record DebounceDeadline := { dd_generation : Z; dd_deadline : Z }.

Record DebouncePush (T : Type) := { dp_emission : option T; dp_deadline : option DebounceDeadline }.
Arguments dp_emission {T}.
Arguments dp_deadline {T}.

Record Debouncer (T : Type) := {
  db_conf : DebounceConf;
  db_active : bool;
  db_generation : Z;
  db_pending : option T;
  db_saw_extra : bool }.
Arguments db_conf {T}.
Arguments db_active {T}.
Arguments db_generation {T}.
Arguments db_pending {T}.
Arguments db_saw_extra {T}.

(** ** One stream *)

Section Stream.
Context {T : Type}.
Implicit Types d : Debouncer T.

Definition debouncer_new (conf : DebounceConf) : Debouncer T :=
  {| db_conf := conf; db_active := false; db_generation := 0; db_pending := None;
     db_saw_extra := false |}.

Definition debouncer_put (active : bool) (pending : option T) (extra : bool) d : Debouncer T :=
  {| db_conf := db_conf d; db_active := active; db_generation := db_generation d;
     db_pending := pending; db_saw_extra := extra |}.

(** [deadline]: the next generation, due after the window. *)
Definition next_deadline (now : Z) d : DebounceDeadline * Debouncer T :=
  let generation := u64_wrapping_add (db_generation d) 1 in
  ({| dd_generation := generation; dd_deadline := now + dc_window (db_conf d) |},
   {| db_conf := db_conf d; db_active := db_active d; db_generation := generation;
      db_pending := db_pending d; db_saw_extra := db_saw_extra d |}).

Definition debounce_start (now : Z) d : DebounceDeadline * Debouncer T :=
  next_deadline now (debouncer_put true None false d).
Definition debounce_reset d : Debouncer T := debouncer_put false None false d.

Definition push_leading (now : Z) (value : T) d : DebouncePush T * Debouncer T :=
  if db_active d then ({| dp_emission := None; dp_deadline := None |}, d)
  else
    let '(deadline, d) := debounce_start now d in
    ({| dp_emission := Some value; dp_deadline := Some deadline |}, d).

Definition push_trailing (now : Z) (value : T) d : DebouncePush T * Debouncer T :=
  let '(deadline, d) := next_deadline now (debouncer_put true (Some value) (db_saw_extra d) d) in
  ({| dp_emission := None; dp_deadline := Some deadline |}, d).

Definition push_both (now : Z) (value : T) d : DebouncePush T * Debouncer T :=
  if negb (db_active d) then
    let '(deadline, d) := debounce_start now d in
    ({| dp_emission := Some value; dp_deadline := Some deadline |}, d)
  else
    let '(deadline, d) := next_deadline now (debouncer_put (db_active d) (Some value) true d) in
    ({| dp_emission := None; dp_deadline := Some deadline |}, d).

(** [push]. *)
Definition debounce_push (now : Z) (value : T) d : DebouncePush T * Debouncer T :=
  match dc_mode (db_conf d) with
  | Leading => push_leading now value d
  | Trailing => push_trailing now value d
  | LeadingAndTrailing => push_both now value d
  end.

Definition finish_both d : option T * Debouncer T :=
  let emit := db_saw_extra d in
  (if emit then db_pending d else None, debouncer_put false None false d).

(** [due]. *)
Definition debounce_due (generation : Z) d : option T * Debouncer T :=
  if negb (generation =? db_generation d) then (None, d)
  else
    match dc_mode (db_conf d) with
    | Leading => (None, debounce_reset d)
    | Trailing => (db_pending d, debouncer_put false None (db_saw_extra d) d)
    | LeadingAndTrailing => finish_both d
    end.
End Stream.
Arguments debouncer_new : clear implicits.

(** ** The deadline heap

    A [BinaryHeap] of which the code observes an entry with an earliest
    deadline: the heap is the list of its entries, and [pop] is told which of
    the earliest ones it takes. *)

Section Queue.
Context {K : Type}.

Definition QueuedDeadline : Type := K * DebounceDeadline.

Definition heap_push (key : K) (deadline : DebounceDeadline) (heap : list QueuedDeadline) :
    list QueuedDeadline := heap ++ [(key, deadline)].

(** The entry at [pick] is a maximum of the reversed order. *)
Definition is_earliest (heap : list QueuedDeadline) (entry : QueuedDeadline) : bool :=
  forallb (λ other, dd_deadline entry.2 <=? dd_deadline other.2) heap.

(** [pop] at a moment it does not wait: an earliest entry, once due. *)
Definition queue_pop (now : Z) (pick : nat) (heap : list QueuedDeadline) :
    option (QueuedDeadline * list QueuedDeadline) :=
  match heap !! pick with
  | Some entry =>
      if is_earliest heap entry && (dd_deadline entry.2 <=? now)
      then Some (entry, delete pick heap) else None
  | None => None
  end.

(** When the scheduler looks again: at the earliest deadline, if there is one. *)
Definition queue_wait (heap : list QueuedDeadline) : option Z :=
  match heap with
  | [] => None
  | e :: heap => Some (foldr (λ x m, Z.min (dd_deadline x.2) m) (dd_deadline e.2) heap)
  end.
End Queue.
Arguments QueuedDeadline : clear implicits.

(** ** Many streams over one heap *)

Section Streams.
Context `{Countable K} {T : Type}.

(** The streams of a scheduler, by key, and their deadlines. *)
Record Streams := { ss_states : gmap K (Debouncer T); ss_heap : list (QueuedDeadline K) }.

Definition streams_new : Streams := {| ss_states := ∅; ss_heap := [] |}.

(** A value of a stream; a new stream is created with [conf]. *)
Definition stream_push (now : Z) (key : K) (conf : DebounceConf) (value : T) (s : Streams) :
    option T * Streams :=
  let state := default (debouncer_new T conf) (ss_states s !! key) in
  let '(push, state) := debounce_push now value state in
  (dp_emission push,
   {| ss_states := <[key := state]> (ss_states s);
      ss_heap := match dp_deadline push with
                 | Some deadline => heap_push key deadline (ss_heap s)
                 | None => ss_heap s
                 end |}).

(** What a popped deadline makes its stream emit. *)
Definition stream_due (entry : QueuedDeadline K) (s : Streams) : option T * Streams :=
  match ss_states s !! entry.1 with
  | Some state =>
      let '(value, state) := debounce_due (dd_generation entry.2) state in
      (value, {| ss_states := <[entry.1 := state]> (ss_states s); ss_heap := ss_heap s |})
  | None => (None, s)
  end.

Definition stream_pop (now : Z) (pick : nat) (s : Streams) :
    option (QueuedDeadline K * option T * Streams) :=
  match queue_pop now pick (ss_heap s) with
  | Some (entry, heap) =>
      let '(value, s) := stream_due entry {| ss_states := ss_states s; ss_heap := heap |} in
      Some (entry, value, s)
  | None => None
  end.

(** What reaches a scheduler, and what it emits. *)
Inductive StreamLabel :=
  | LPush (now : Z) (key : K) (conf : DebounceConf) (value : T)
  | LPop (now : Z) (pick : nat).

Record Emission := { em_at : Z; em_key : K; em_value : T }.

Definition emitted (now : Z) (key : K) (value : option T) : list Emission :=
  match value with
  | Some v => [{| em_at := now; em_key := key; em_value := v |}]
  | None => []
  end.

Definition stream_step (l : StreamLabel) (s : Streams) : option (list Emission * Streams) :=
  match l with
  | LPush now key conf value =>
      let '(out, s) := stream_push now key conf value s in Some (emitted now key out, s)
  | LPop now pick =>
      match stream_pop now pick s with
      | Some (entry, out, s) => Some (emitted now entry.1 out, s)
      | None => None
      end
  end.

Fixpoint stream_run (ls : list StreamLabel) (s : Streams) : option (list Emission * Streams) :=
  match ls with
  | [] => Some ([], s)
  | l :: ls =>
      match stream_step l s with
      | Some (out, s) =>
          match stream_run ls s with
          | Some (outs, s) => Some (out ++ outs, s)
          | None => None
          end
      | None => None
      end
  end.

(** ** The contract: one timer per stream *)

Inductive Quiet :=
  | Idle
  | Until (t : Z) (latest : option T).

Definition quiet_push (conf : DebounceConf) (now : Z) (v : T) (q : Quiet) : option T * Quiet :=
  let t := now + dc_window conf in
  match dc_mode conf, q with
  | Trailing, _ => (None, Until t (Some v))
  | Leading, Idle | LeadingAndTrailing, Idle => (Some v, Until t None)
  | Leading, Until _ _ => (None, q)
  | LeadingAndTrailing, Until _ _ => (None, Until t (Some v))
  end.

Definition timer (timers : gmap K (DebounceConf * Quiet)) (k : K) (conf : DebounceConf) :
    DebounceConf * Quiet := default (conf, Idle) (timers !! k).

Inductive timer_step (timers : gmap K (DebounceConf * Quiet)) :
    StreamLabel → list Emission → gmap K (DebounceConf * Quiet) → Prop :=
  | timer_push now k conf v c q out q' :
      timer timers k conf = (c, q) → quiet_push c now v q = (out, q') →
      timer_step timers (LPush now k conf v) (emitted now k out) (<[k := (c, q')]> timers)
  | timer_fire now pick k c t latest :
      timers !! k = Some (c, Until t latest) → t ≤ now →
      timer_step timers (LPop now pick) (emitted now k latest) (<[k := (c, Idle)]> timers)
  | timer_stale now pick : timer_step timers (LPop now pick) [] timers.

Inductive timer_run (timers : gmap K (DebounceConf * Quiet)) :
    list StreamLabel → list Emission → gmap K (DebounceConf * Quiet) → Prop :=
  | timer_run_nil : timer_run timers [] [] timers
  | timer_run_cons l ls out outs timers' timers'' :
      timer_step timers l out timers' → timer_run timers' ls outs timers'' →
      timer_run timers (l :: ls) (out ++ outs) timers''.

(** ** The scheduler refines the timers *)

(** The deadlines a heap holds of one generation of a stream. *)
Definition deadlines_of (k : K) (g : Z) (heap : list (QueuedDeadline K)) : list Z :=
  omap (λ e : QueuedDeadline K, if decide (e.1 = k ∧ dd_generation e.2 = g) then Some (dd_deadline e.2) else None) heap.

(** A debouncer that holds what its timer says. *)
Definition holds_timer (d : Debouncer T) (c : DebounceConf) (q : Quiet) : Prop :=
  db_conf d = c ∧
  match q with
  | Idle => db_active d = false ∧ db_pending d = None ∧ db_saw_extra d = false
  | Until _ latest =>
      db_active d = true ∧ db_pending d = latest ∧
      match dc_mode c with
      | Leading => latest = None
      | Trailing => is_Some latest ∧ db_saw_extra d = false
      | LeadingAndTrailing => db_saw_extra d = bool_decide (is_Some latest)
      end
  end.

Definition stream_ok (n : Z) (heap : list (QueuedDeadline K)) (k : K) (d : Debouncer T)
    (cq : DebounceConf * Quiet) : Prop :=
  holds_timer d cq.1 cq.2 ∧ 0 ≤ db_generation d ≤ n ∧
  (∀ e, e ∈ heap → e.1 = k → dd_generation e.2 ≤ db_generation d) ∧
  deadlines_of k (db_generation d) heap = match cq.2 with Idle => [] | Until t _ => [t] end.

(** Every stream has its timer, and the other way round; [n] bounds the generations. *)
Definition streams_ok (n : Z) (s : Streams) (timers : gmap K (DebounceConf * Quiet)) : Prop :=
  map_Forall2 (stream_ok n (ss_heap s)) (ss_states s) timers ∧
  ∀ e, e ∈ ss_heap s → is_Some (ss_states s !! e.1).

Lemma u64_wrapping_succ g : 0 ≤ g < U64_MAX → u64_wrapping_add g 1 = g + 1.
Proof. intros ?. unfold u64_wrapping_add, U64_MAX in *. apply Z.mod_small. lia. Qed.

Lemma deadlines_of_app k g h1 h2 : deadlines_of k g (h1 ++ h2) = deadlines_of k g h1 ++ deadlines_of k g h2.
Proof. apply omap_app. Qed.

Lemma deadlines_of_one k g e :
  deadlines_of k g [e] = if decide (e.1 = k ∧ dd_generation e.2 = g) then [dd_deadline e.2] else [].
Proof. unfold deadlines_of. simpl. by case_decide. Qed.

Lemma deadlines_of_cons k g e h :
  deadlines_of k g (e :: h) =
  (if decide (e.1 = k ∧ dd_generation e.2 = g) then [dd_deadline e.2] else []) ++ deadlines_of k g h.
Proof. unfold deadlines_of. cbn [omap list_omap]. by case_decide. Qed.

Lemma deadlines_of_fresh k g heap :
  (∀ e, e ∈ heap → e.1 = k → dd_generation e.2 < g) → deadlines_of k g heap = [].
Proof.
  intros Hlt. unfold deadlines_of. induction heap as [|e heap IH]; [done|]. cbn [omap list_omap].
  rewrite decide_False.
  - apply IH. intros e' He'. apply Hlt. by right.
  - intros [Hk Hg]. specialize (Hlt e ltac:(by left) Hk). lia.
Qed.

Lemma deadlines_of_perm k g h1 h2 : h1 ≡ₚ h2 → deadlines_of k g h1 ≡ₚ deadlines_of k g h2.
Proof. intros Hp. unfold deadlines_of. by rewrite Hp. Qed.

(** A push does to the debouncer what it does to the timer. *)
Lemma push_timer now v d c q :
  holds_timer d c q →
  let '(p, d') := debounce_push now v d in
  let '(out, q') := quiet_push c now v q in
  dp_emission p = out ∧ holds_timer d' c q' ∧
  match dp_deadline p with
  | Some dl =>
      dd_generation dl = u64_wrapping_add (db_generation d) 1 ∧ db_generation d' = dd_generation dl ∧
      ∃ latest, q' = Until (dd_deadline dl) latest
  | None => d' = d ∧ q' = q
  end.
Proof.
  destruct d as [conf active gen pending extra], q as [|t latest]; unfold holds_timer; cbn.
  - intros (<- & -> & -> & ->).
    unfold debounce_push, quiet_push, push_leading, push_trailing, push_both; cbn.
    destruct (dc_mode conf) eqn:Hm; cbn; rewrite ?Hm; naive_solver.
  - intros (<- & -> & -> & Hmode).
    unfold debounce_push, quiet_push, push_leading, push_trailing, push_both; cbn.
    destruct (dc_mode conf) eqn:Hm; cbn; rewrite ?Hm; naive_solver.
Qed.

(** The current deadline fires the timer; any other one is ignored. *)
Lemma due_timer g d c q :
  holds_timer d c q →
  let '(out, d') := debounce_due g d in
  db_generation d' = db_generation d ∧
  if g =? db_generation d then
    holds_timer d' c Idle ∧ match q with Until _ latest => out = latest | Idle => out = None end
  else out = None ∧ d' = d.
Proof.
  destruct d as [conf active gen pending extra]. unfold debounce_due. cbn.
  destruct (g =? gen) eqn:Hg; cbn; [|naive_solver].
  unfold holds_timer; cbn. destruct q as [|t latest]; cbn.
  - intros (<- & -> & -> & ->). destruct (dc_mode conf); cbn; by rewrite ?andb_false_r.
  - intros (<- & -> & -> & Hmode). destruct (dc_mode conf); cbn.
    + naive_solver.
    + naive_solver.
    + split; [done|]. split; [done|]. rewrite Hmode. by destruct latest.
Qed.

Lemma stream_ok_push n heap k d cq key dl :
  key ≠ k → stream_ok n heap k d cq → stream_ok (n + 1) (heap ++ [(key, dl)]) k d cq.
Proof.
  intros Hne (Ht & Hg & Hle & Hd). split; [done|]. split; [lia|]. split.
  - intros e [He|He%list_elem_of_singleton]%elem_of_app Hk; [eauto|]. by subst e.
  - rewrite deadlines_of_app, Hd, deadlines_of_one, decide_False by (intros [? _]; done).
    apply app_nil_r.
Qed.

Lemma stream_ok_mono n heap k d cq : stream_ok n heap k d cq → stream_ok (n + 1) heap k d cq.
Proof. intros (? & ? & ? & ?). unfold stream_ok. naive_solver lia. Qed.

Lemma stream_ok_new n heap k c :
  0 ≤ n → (∀ e, e ∈ heap → e.1 ≠ k) → stream_ok n heap k (debouncer_new T c) (c, Idle).
Proof.
  intros Hn Hnone. split; [done|]. split; [done|]. split; [naive_solver|].
  apply deadlines_of_fresh. naive_solver.
Qed.

Lemma streams_ok_lookup n s timers k conf :
  0 ≤ n → streams_ok n s timers →
  stream_ok n (ss_heap s) k (default (debouncer_new T conf) (ss_states s !! k)) (timer timers k conf).
Proof.
  intros Hn [Hrel Hkeys]. specialize (Hrel k). unfold timer.
  destruct (ss_states s !! k) as [d|] eqn:Hd; inversion Hrel; subst; [done|]. cbn.
  apply stream_ok_new; [done|]. intros e He <-. destruct (Hkeys e He). congruence.
Qed.

Lemma streams_ok_mono n s timers : streams_ok n s timers → streams_ok (n + 1) s timers.
Proof.
  intros [Hrel Hkeys]. split; [|done]. intros i. destruct (Hrel i); constructor. by apply stream_ok_mono.
Qed.

Lemma map_Forall2_insert_other {A B} (R : K → A → B → Prop) (R' : K → A → B → Prop)
    (m1 : gmap K A) (m2 : gmap K B) k x y :
  map_Forall2 R m1 m2 → R' k x y → (∀ i a b, i ≠ k → R i a b → R' i a b) →
  map_Forall2 R' (<[k := x]> m1) (<[k := y]> m2).
Proof.
  intros Hm Hk Hother i. destruct (decide (i = k)) as [->|Hne].
  - rewrite !lookup_insert_eq. by constructor.
  - rewrite !lookup_insert_ne by done. destruct (Hm i); constructor; eauto.
Qed.

Lemma keys_known_insert (m : gmap K (Debouncer T)) k d e :
  is_Some (m !! e) → is_Some (<[k := d]> m !! e).
Proof. rewrite lookup_insert_is_Some. destruct (decide (k = e)); [by left|right; eauto]. Qed.

Lemma stream_push_refines n now k conf v s timers out s' :
  0 ≤ n < U64_MAX → streams_ok n s timers → stream_push now k conf v s = (out, s') →
  ∃ timers', timer_step timers (LPush now k conf v) (emitted now k out) timers' ∧
    streams_ok (n + 1) s' timers'.
Proof.
  intros Hn Hok Hpush. unfold stream_push in Hpush.
  destruct (streams_ok_lookup n s timers k conf ltac:(lia) Hok) as (Ht & Hg & Hle & Hdl).
  revert Ht Hg Hle Hdl Hpush. generalize (default (debouncer_new T conf) (ss_states s !! k)) as d.
  intros d. destruct (timer timers k conf) as [c q] eqn:Htimer. cbn. intros Ht Hg Hle Hdl.
  pose proof (push_timer now v d c q Ht) as Hp. destruct (debounce_push now v d) as [p d'].
  destruct (quiet_push c now v q) as [out0 q'] eqn:Hq. destruct Hp as (Hout & Ht' & Hcase).
  intros [= <- <-]. subst out0. exists (<[k := (c, q')]> timers). split; [by econstructor|].
  destruct Hok as [Hrel Hkeys]. destruct (dp_deadline p) as [dl|]; unfold streams_ok, heap_push; cbn.
  - destruct Hcase as (Hgen & Hgen' & latest & Hq').
    rewrite u64_wrapping_succ in Hgen by lia. split.
    + apply (map_Forall2_insert_other (stream_ok n (ss_heap s))); [done| |naive_solver eauto using stream_ok_push].
      split; [done|]. cbn. split; [lia|]. split.
      * intros e [He|He%list_elem_of_singleton]%elem_of_app Hk.
        -- specialize (Hle e He Hk). lia.
        -- subst e. cbn. lia.
      * rewrite deadlines_of_app, deadlines_of_fresh, deadlines_of_one, decide_True by
          (first [cbn; lia | intros e He Hk; specialize (Hle e He Hk); lia | split; [done|by cbn]]).
        by rewrite Hq'.
    + intros e [He|He%list_elem_of_singleton]%elem_of_app.
      * apply keys_known_insert; eauto.
      * subst e. cbn. rewrite lookup_insert_eq. eauto.
  - destruct Hcase as [-> ->]. split.
    + apply (map_Forall2_insert_other (stream_ok n (ss_heap s))); [done| |naive_solver eauto using stream_ok_mono].
      by apply stream_ok_mono.
    + intros e He. apply keys_known_insert; eauto.
Qed.

Lemma queue_pop_spec now pick (heap : list (QueuedDeadline K)) e heap' :
  queue_pop now pick heap = Some (e, heap') →
  heap ≡ₚ e :: heap' ∧ dd_deadline e.2 ≤ now ∧ ∀ e', e' ∈ heap' → dd_deadline e.2 ≤ dd_deadline e'.2.
Proof.
  unfold queue_pop. destruct (heap !! pick) as [e'|] eqn:He; [|done].
  destruct (is_earliest heap e' && _) eqn:Hb; [|done]. intros [= <- <-].
  apply andb_true_iff in Hb as [Hmin Hdue].
  pose proof (delete_Permutation heap pick e' He) as Hp. split; [done|]. split; [lia|].
  intros e2 He2. unfold is_earliest in Hmin. rewrite forallb_forall in Hmin.
  specialize (Hmin e2). rewrite <- list_elem_of_In in Hmin. rewrite Hp in Hmin.
  specialize (Hmin ltac:(by right)). lia.
Qed.

Lemma stream_ok_pop n heap heap' e k d cq :
  heap ≡ₚ e :: heap' → e.1 ≠ k ∨ dd_generation e.2 ≠ db_generation d →
  stream_ok n heap k d cq → stream_ok n heap' k d cq.
Proof.
  intros Hp Hne (Ht & Hg & Hle & Hd). split; [done|]. split; [done|]. split.
  - intros e' He'. apply Hle. rewrite Hp. by right.
  - pose proof (deadlines_of_perm k (db_generation d) _ _ Hp) as Hq.
    rewrite deadlines_of_cons, decide_False in Hq by naive_solver.
    rewrite Hd in Hq. cbn in Hq. destruct cq.2.
    + by apply Permutation_nil in Hq.
    + by apply Permutation_singleton_l in Hq.
Qed.

(** The only deadline of the current generation is the timer's. *)
Lemma stream_ok_current n heap heap' e d c q :
  heap ≡ₚ e :: heap' → dd_generation e.2 = db_generation d → stream_ok n heap e.1 d (c, q) →
  (∃ latest, q = Until (dd_deadline e.2) latest) ∧ deadlines_of e.1 (db_generation d) heap' = [].
Proof.
  intros Hp Heq (_ & _ & _ & Hd).
  pose proof (deadlines_of_perm e.1 (db_generation d) _ _ Hp) as Hq.
  rewrite deadlines_of_cons, decide_True in Hq by done.
  rewrite Hd in Hq. cbn in Hq. destruct q as [|t latest].
  - by apply Permutation_nil_cons in Hq.
  - apply Permutation_singleton_l in Hq. simplify_eq. naive_solver.
Qed.

Lemma stream_pop_refines n now pick s timers e out s' :
  streams_ok n s timers → stream_pop now pick s = Some (e, out, s') →
  ∃ timers', timer_step timers (LPop now pick) (emitted now e.1 out) timers' ∧ streams_ok n s' timers'.
Proof.
  intros [Hrel Hkeys] Hpop. unfold stream_pop in Hpop.
  destruct (queue_pop now pick (ss_heap s)) as [[e0 heap]|] eqn:Hq; [|done].
  apply queue_pop_spec in Hq as (Hp & Hdue & Hmin). unfold stream_due in Hpop; cbn in Hpop.
  destruct (Hkeys e0) as [d Hd]; [rewrite Hp; by left|]. rewrite Hd in Hpop.
  pose proof (Hrel e0.1) as Hok. rewrite Hd in Hok. inversion Hok as [? [c q] Hs Heq1 Heq2|]; subst.
  pose proof (due_timer (dd_generation e0.2) d c q (proj1 Hs)) as Hdt.
  destruct (debounce_due (dd_generation e0.2) d) as [v d'] eqn:Hdd. simplify_eq.
  destruct Hdt as [Hgen Hdt]. assert (Hsub : ∀ x, x ∈ heap → x ∈ ss_heap s) by (intros x; rewrite Hp; by right).
  destruct (Z.eqb_spec (dd_generation e.2) (db_generation d)) as [Hcur|Hcur].
  - destruct (stream_ok_current n _ _ _ _ _ _ Hp Hcur Hs) as [[latest ->] Hnone].
    destruct Hdt as [Hidle ->]. eexists. split; [by eapply timer_fire|]. split; cbn.
    + apply (map_Forall2_insert_other (stream_ok n (ss_heap s))); [done| |].
      * destruct Hs as (_ & Hg & Hle & _). split; [done|]. rewrite Hgen. split; [done|]. split; [eauto|done].
      * intros i a b Hne. apply (stream_ok_pop _ _ _ e); [done|]. left. congruence.
    + intros x Hx. apply keys_known_insert; eauto.
  - destruct Hdt as [-> ->]. exists timers. split; [by constructor|]. split; cbn.
    + rewrite insert_id by done. intros i. specialize (Hrel i).
      destruct (ss_states s !! i) as [a|] eqn:Ha, (timers !! i) as [b|]; inversion Hrel; subst; constructor.
      apply (stream_ok_pop _ _ _ e _ _ _ Hp); [|done].
      destruct (decide (e.1 = i)) as [<-|]; [right; congruence|by left].
    + intros x Hx. apply keys_known_insert; eauto.
Qed.

Lemma stream_run_refines ls n s timers outs s' :
  0 ≤ n → n + zlen ls ≤ U64_MAX → streams_ok n s timers → stream_run ls s = Some (outs, s') →
  ∃ timers', timer_run timers ls outs timers' ∧ streams_ok (n + zlen ls) s' timers'.
Proof.
  revert n s timers outs. induction ls as [|l ls IH]; intros n s timers outs Hn Hmax Hok Hrun.
  { simplify_eq/=. exists timers. split; [constructor|]. by rewrite Z.add_0_r. }
  cbn in Hrun. destruct (stream_step l s) as [[out s1]|] eqn:Hstep; [|done].
  destruct (stream_run ls s1) as [[outs1 s2]|] eqn:Hls; [|done]. simplify_eq.
  assert (Hlen : zlen (l :: ls) = 1 + zlen ls) by (unfold zlen; cbn [length]; lia).
  rewrite Hlen in *. pose proof (zlen_nonneg ls).
  assert (∃ timers1, timer_step timers l out timers1 ∧ streams_ok (n + 1) s1 timers1)
    as (timers1 & Ht & Hok1).
  { destruct l as [now k conf v|now pick]; cbn in Hstep.
    - destruct (stream_push now k conf v s) as [o s0] eqn:Hp. simplify_eq.
      eapply stream_push_refines; eauto. lia.
    - destruct (stream_pop now pick s) as [[[e o] s0]|] eqn:Hp; [|done]. simplify_eq.
      destruct (stream_pop_refines _ _ _ _ _ _ _ _ Hok Hp) as (timers1 & ? & Hok1).
      exists timers1. split; [done|]. by apply streams_ok_mono. }
  destruct (IH (n + 1) s1 timers1 outs1 ltac:(lia) ltac:(lia) Hok1 Hls) as (timers2 & Hrun & Hok2).
  exists timers2. split; [by econstructor|]. by replace (n + (1 + zlen ls)) with (n + 1 + zlen ls) by lia.
Qed.

Lemma stream_run_app ls1 ls2 s outs s' :
  stream_run (ls1 ++ ls2) s = Some (outs, s') ↔
  ∃ o1 s1 o2, stream_run ls1 s = Some (o1, s1) ∧ stream_run ls2 s1 = Some (o2, s') ∧ outs = o1 ++ o2.
Proof.
  revert s outs. induction ls1 as [|l ls1 IH]; intros s outs; cbn.
  - split; [intros H1; by exists [], s, outs|naive_solver].
  - destruct (stream_step l s) as [[o s0]|]; [|naive_solver].
    specialize (IH s0). destruct (stream_run (ls1 ++ ls2) s0) as [[o12 s12]|].
    + split.
      * intros [= <- <-]. destruct (proj1 (IH o12) eq_refl) as (o1 & s1 & o2 & H1 & H2 & ->).
        rewrite H1. exists (o ++ o1), s1, o2. by rewrite <- app_assoc.
      * intros (o1 & s1 & o2 & H1 & H2 & ->). destruct (stream_run ls1 s0) as [[o1' s1']|]; [|done].
        simplify_eq. pose proof (proj2 (IH (o1' ++ o2)) ltac:(naive_solver)) as [= -> ->].
        by rewrite <- app_assoc.
    + split; [done|]. intros (o1 & s1 & o2 & H1 & H2 & ->).
      destruct (stream_run ls1 s0) as [[o1' s1']|]; [|done]. simplify_eq.
      by pose proof (proj2 (IH (o1' ++ o2)) ltac:(naive_solver)).
Qed.

(** No push of [k], no emission of [k]. *)
Definition no_push (k : K) (ls : list StreamLabel) : Prop :=
  Forall (λ l, match l with LPush _ k' _ _ => k' ≠ k | LPop _ _ => True end) ls.
Definition no_emission (k : K) (outs : list Emission) : Prop := Forall (λ e, em_key e ≠ k) outs.

(** [v], pushed at [t0], is the last value of [k]; nothing of [k] was emitted since. *)
Definition last_value (ls : list StreamLabel) (outs : list Emission) (k : K) (v : T) (t0 : Z) : Prop :=
  ∃ before conf since o1 s1 o2,
    ls = before ++ LPush t0 k conf v :: since ∧ no_push k since ∧
    stream_run before streams_new = Some (o1, s1) ∧ outs = o1 ++ o2 ∧ no_emission k o2.

Definition confs_are (conf_of : K → DebounceConf) (ls : list StreamLabel) : Prop :=
  Forall (λ l, match l with LPush _ k c _ => c = conf_of k | LPop _ _ => True end) ls.

(** What a timer waits to emit is the last value of its stream. *)
Definition waits_for_last (conf_of : K → DebounceConf) ls outs
    (timers : gmap K (DebounceConf * Quiet)) : Prop :=
  ∀ k c q, timers !! k = Some (c, q) →
    c = conf_of k ∧
    ∀ t v, q = Until t (Some v) →
      dc_mode c ≠ Leading ∧ ∃ t0, last_value ls outs k v t0 ∧ t = t0 + dc_window c.

Lemma last_value_snoc ls outs k v t0 l out :
  no_push k [l] → no_emission k out → last_value ls outs k v t0 → last_value (ls ++ [l]) (outs ++ out) k v t0.
Proof.
  intros Hl Hout (before & conf & since & o1 & s1 & o2 & -> & Hno & Hrun & -> & Hem).
  exists before, conf, (since ++ [l]), o1, s1, (o2 ++ out). split_and!.
  - by rewrite <- app_assoc.
  - by apply Forall_app.
  - done.
  - by rewrite <- app_assoc.
  - by apply Forall_app.
Qed.

Lemma emitted_other now k k' o : k ≠ k' → no_emission k' (emitted now k o).
Proof. intros Hne. destruct o; [|constructor]. by constructor. Qed.

(** A push that leaves a value waiting leaves its own. *)
Lemma quiet_push_waits c now v q o t v' :
  quiet_push c now v q = (o, Until t (Some v')) → (∀ t0 w, q = Until t0 (Some w) → dc_mode c ≠ Leading) →
  dc_mode c ≠ Leading ∧ v' = v ∧ t = now + dc_window c ∧ o = None.
Proof. unfold quiet_push. destruct (dc_mode c) eqn:?, q as [|t0 [w|]]; naive_solver. Qed.

Lemma waits_for_last_other conf_of ls outs timers l out k cq :
  waits_for_last conf_of ls outs timers → timers !! k = Some cq → no_push k [l] → no_emission k out →
  cq.1 = conf_of k ∧
  ∀ t v, cq.2 = Until t (Some v) →
    dc_mode cq.1 ≠ Leading ∧ ∃ t0, last_value (ls ++ [l]) (outs ++ out) k v t0 ∧ t = t0 + dc_window cq.1.
Proof.
  intros Hw Hk Hl Hout. destruct cq as [c q]. destruct (Hw k c q Hk) as [Hc Hlast].
  split; [done|]. intros t v Hq. destruct (Hlast t v Hq) as (Hmode & t0 & Ht0 & Ht).
  split; [done|]. exists t0. split; [|done]. by apply last_value_snoc.
Qed.

Lemma waits_for_last_step conf_of ls outs s timers l out timers' :
  stream_run ls streams_new = Some (outs, s) → confs_are conf_of [l] →
  waits_for_last conf_of ls outs timers → timer_step timers l out timers' →
  waits_for_last conf_of (ls ++ [l]) (outs ++ out) timers'.
Proof.
  intros Hrun Hconf Hw Hstep k c q Hk. inversion Hstep as
    [now k0 conf v c0 q0 o q' Htimer Hpush|now pick k0 c0 t latest Hk0 Hdue|now pick]; subst.
  - apply Forall_cons in Hconf as [Hconf _].
    assert (c0 = conf_of k0 ∧ ∀ t w, q0 = Until t (Some w) → dc_mode c0 ≠ Leading) as [Hc0 Hq0].
    { unfold timer in Htimer. destruct (timers !! k0) as [[c1 q1]|] eqn:Hk0; cbn in Htimer; simplify_eq.
      - destruct (Hw k0 c0 q0 Hk0) as [-> Hlast]. split; [done|]. intros t w Hq. by destruct (Hlast t w Hq).
      - by split. }
    destruct (decide (k = k0)) as [->|Hne].
    + rewrite lookup_insert_eq in Hk. simplify_eq. split; [done|]. intros t v' ->.
      destruct (quiet_push_waits _ _ _ _ _ _ _ Hpush Hq0) as (Hmode & -> & -> & ->).
      split; [done|]. exists now. split; [|done].
      exists ls, (conf_of k0), [], outs, s, []. split_and!; [done|constructor|done|done|constructor].
    + rewrite lookup_insert_ne in Hk by done.
      apply (waits_for_last_other _ _ _ _ _ _ _ _ Hw Hk); [by repeat constructor|by apply emitted_other].
  - destruct (decide (k = k0)) as [->|Hne].
    + rewrite lookup_insert_eq in Hk. simplify_eq. split; [|done]. by destruct (Hw k0 c _ Hk0).
    + rewrite lookup_insert_ne in Hk by done.
      apply (waits_for_last_other _ _ _ _ _ _ _ _ Hw Hk); [by repeat constructor|by apply emitted_other].
  - apply (waits_for_last_other _ _ _ _ _ _ _ _ Hw Hk); [by repeat constructor|constructor].
Qed.

Lemma timer_run_snoc timers ls outs timers1 l out timers2 :
  timer_run timers ls outs timers1 → timer_step timers1 l out timers2 →
  timer_run timers (ls ++ [l]) (outs ++ out) timers2.
Proof.
  induction 1 as [|timers l0 ls o0 outs t1 t2 Hs Hr IH]; intros Hl.
  - cbn. rewrite <- (app_nil_r out). econstructor; [exact Hl|constructor].
  - rewrite <- app_assoc. econstructor; [exact Hs|]. by apply IH.
Qed.

(** What any run establishes: its timers, and what they wait for. *)
Lemma stream_run_waits conf_of ls outs s :
  zlen ls ≤ U64_MAX → confs_are conf_of ls → stream_run ls streams_new = Some (outs, s) →
  ∃ timers, timer_run ∅ ls outs timers ∧ streams_ok (zlen ls) s timers ∧
    waits_for_last conf_of ls outs timers.
Proof.
  revert outs s. induction ls as [|l ls IH] using rev_ind; intros outs s Hlen Hconf Hrun.
  { simplify_eq/=. exists ∅. split; [constructor|]. split; [|by intros k c q ?].
    split; [|intros e He; by apply elem_of_nil in He]. intros k. rewrite !lookup_empty. constructor. }
  apply stream_run_app in Hrun as (o1 & s1 & o2 & H1 & H2 & ->).
  rewrite zlen_app in *. change (zlen [l]) with 1 in *. apply Forall_app in Hconf as [Hconf Hl].
  destruct (IH o1 s1 ltac:(lia) Hconf H1) as (timers & Ht & Hok & Hw). pose proof (zlen_nonneg ls).
  destruct (stream_run_refines [l] (zlen ls) s1 timers o2 s ltac:(lia)) as (timers' & Ht' & Hok'); [|done..|].
  { change (zlen [l]) with 1. lia. }
  inversion Ht' as [|? ? out outs' timers1 ? Hstep Hnil]; subst. inversion Hnil; subst. rewrite app_nil_r.
  exists timers'. split_and!; [by eapply timer_run_snoc|done|by eapply waits_for_last_step].
Qed.

(** The scheduler looks again no later than any stream's timer. *)
Lemma queue_wait_le (heap : list (QueuedDeadline K)) e :
  e ∈ heap → ∃ w, queue_wait heap = Some w ∧ w ≤ dd_deadline e.2.
Proof.
  destruct heap as [|e0 heap]; [by intros ?%elem_of_nil|]. intros He. cbn. eexists. split; [done|].
  revert e0 He. induction heap as [|e1 heap IH]; intros e0 He; cbn.
  - apply list_elem_of_singleton in He as ->. lia.
  - rewrite !elem_of_cons in He. destruct He as [->|[->|He]]; [|lia|].
    + specialize (IH e0 ltac:(by left)). lia.
    + specialize (IH e0 ltac:(by right)). lia.
Qed.

Lemma streams_ok_wakes n s timers k c t latest :
  streams_ok n s timers → timers !! k = Some (c, Until t latest) →
  ∃ w, queue_wait (ss_heap s) = Some w ∧ w ≤ t.
Proof.
  intros [Hrel _] Hk. specialize (Hrel k). rewrite Hk in Hrel. inversion Hrel as [d cq Hs|]; subst.
  destruct Hs as (_ & _ & _ & Hd). cbn in Hd.
  assert (Hin : t ∈ deadlines_of k (db_generation d) (ss_heap s)) by (rewrite Hd; by left).
  unfold deadlines_of in Hin. apply list_elem_of_omap in Hin as (e & He & Hcase).
  case_decide; [|done]. simplify_eq. by apply queue_wait_le.
Qed.
End Streams.
Arguments Streams K {_ _} T.
Arguments StreamLabel K T : clear implicits.
Arguments Emission K T : clear implicits.
Arguments Quiet T : clear implicits.

(** ** What the streams promise *)

(** C17: the streams of a scheduler behave as one timer each: a value of an
    idle stream starts its window and is emitted at once in the leading modes;
    later values restart the window (not in leading mode) and replace the value
    waiting; when the window ends, and only then, the value waiting is emitted
    and the stream is idle. Deadlines a later value made stale emit nothing, and
    the scheduler wakes no later than any window ends. *)
Theorem debounce_refines_timers `{Countable K} {T} (ls : list (StreamLabel K T)) outs s :
  stream_run ls streams_new = Some (outs, s) → zlen ls ≤ U64_MAX →
  ∃ timers, timer_run ∅ ls outs timers ∧
    (∀ k, db_active <$> ss_states s !! k =
          (λ cq : DebounceConf * Quiet T, match cq.2 with Idle => false | Until _ _ => true end) <$> timers !! k) ∧
    (∀ k c t latest, timers !! k = Some (c, Until t latest) →
       ∃ w, queue_wait (ss_heap s) = Some w ∧ w ≤ t).
Proof.
  intros Hrun Hlen.
  destruct (stream_run_refines ls 0 streams_new ∅ outs s) as (timers & Ht & Hok); [done|lia|..|done|].
  { split; [|intros e He; by apply elem_of_nil in He]. intros k. rewrite !lookup_empty. constructor. }
  exists timers. split_and!; [done| |intros k c t latest; by eapply streams_ok_wakes].
  intros k. destruct Hok as [Hrel _]. destruct (Hrel k) as [d [c q] Hs|]; [|done].
  destruct Hs as ([_ Hq] & _). cbn in *. destruct q as [|t l]; destruct Hq as (-> & _); done.
Qed.

(** A trailing stream: two values, a stale deadline, then the last value. *)
Example debounce_refines_timers_witness :
  let ls : list (StreamLabel Z string) :=
    [LPush 0 7 (trailing 10) "a"; LPush 4 7 (trailing 10) "b"; LPop 11 0; LPop 14 0]%string in
  ∃ s timers, stream_run ls streams_new = Some ([{| em_at := 14; em_key := 7; em_value := "b"%string |}], s) ∧
    timer_run ∅ ls [{| em_at := 14; em_key := 7; em_value := "b"%string |}] timers.
Proof.
  intros ls. destruct (stream_run ls streams_new) as [[outs s]|] eqn:Hrun; [|vm_compute in Hrun; discriminate].
  assert (outs = [{| em_at := 14; em_key := 7; em_value := "b"%string |}]) as -> by (vm_compute in Hrun; congruence).
  destruct (debounce_refines_timers ls _ s Hrun) as (timers & Ht & _); [by vm_compute|]. eauto.
Defined.

(** What a deadline emits is the last value of its stream, at least one
    whole window after that value arrived, and the stream has emitted nothing
    since: no value is emitted twice, and none that a later one replaced. A
    stream in leading mode emits nothing at its deadlines. *)
Theorem deadline_emits_last_value `{Countable K} {T} conf_of (ls : list (StreamLabel K T)) outs s now pick e s' :
  stream_run ls streams_new = Some (outs, s) → confs_are conf_of ls → zlen ls ≤ U64_MAX →
  stream_step (LPop now pick) s = Some ([e], s') →
  em_at e = now ∧ dc_mode (conf_of (em_key e)) ≠ Leading ∧
  ∃ t0, last_value ls outs (em_key e) (em_value e) t0 ∧ t0 + dc_window (conf_of (em_key e)) ≤ now.
Proof.
  intros Hrun Hconf Hlen Hstep.
  destruct (stream_run_waits conf_of ls outs s Hlen Hconf Hrun) as (timers & _ & Hok & Hw).
  unfold stream_step in Hstep.
  destruct (stream_pop now pick s) as [[[e0 o] s0]|] eqn:Hp; [|done]. injection Hstep as Ho _.
  destruct (stream_pop_refines _ _ _ _ _ _ _ _ Hok Hp) as (timers' & Ht & _). rewrite Ho in Ht.
  inversion Ht as [|? ? k c t latest Hk Hdue|]; subst. destruct latest as [v|]; [|done].
  simplify_eq/=. destruct (Hw k c _ Hk) as [-> Hlast].
  destruct (Hlast t v eq_refl) as (Hmode & t0 & Hv & ->). eauto.
Qed.

Example deadline_emits_last_value_witness :
  let ls : list (StreamLabel Z string) :=
    [LPush 0 7 (trailing 10) "a"; LPush 4 7 (trailing 10) "b"; LPop 11 0]%string in
  ∃ t0, last_value ls [] 7 "b"%string t0 ∧ t0 + 10 ≤ 14.
Proof.
  intros ls. destruct (stream_run ls streams_new) as [[outs s]|] eqn:Hrun; [|vm_compute in Hrun; discriminate].
  assert (outs = []) as -> by (vm_compute in Hrun; congruence).
  destruct (stream_step (LPop 14 0) s) as [[out s']|] eqn:Hstep;
    [|vm_compute in Hrun; injection Hrun as <-; vm_compute in Hstep; discriminate].
  assert (out = [{| em_at := 14; em_key := 7; em_value := "b"%string |}]) as ->
    by (vm_compute in Hrun; injection Hrun as <-; vm_compute in Hstep; congruence).
  destruct (deadline_emits_last_value (λ _, trailing 10) ls [] s 14 0
    {| em_at := 14; em_key := 7; em_value := "b"%string |} s' Hrun) as (_ & _ & t0 & Hv & Ht);
    [by repeat constructor|by vm_compute|exact Hstep|].
  cbn in *. eauto.
Defined.
