(* ===== verification/ChannelTypes.v ===== *)
(** * Keys, cursors, events and rules of channels ([channels/types.rs], [log.rs], [fanout.rs])

    A key and a type name are bytes of UTF-8. A typed signal is the [Payload]
    of the registry; a predicate is a function on payloads, made by [delivery]
    from a typed one with the downcast the code does. *)
From S2P Require Import Prelude Externals Failure Config Models Lifecycle Json Registry Submission CacheKeys.
#[local] Open Scope Z_scope.

(** What channels use of [serde_json] and [schemars] beyond [Serialization]. *)
Class ChannelExternals := {
  (** [serde_json::from_str::<Value>]. *)
  parse_value : string → result JsonError Json;
  (** [<T as JsonSchema>::schema_name()] of a type. *)
  type_schema : TypeId → string;
  (** [std::any::type_name]. *)
  type_name_of : TypeId → string;
  (** [serde_json::from_value::<T>]. *)
  from_value : TypeId → Json → result JsonError Payload;
}.

Inductive ChannelError :=
  | InvalidKey (message : string)
  | InvalidCursor (value : string)
  | MessageTooLarge (max got : Z)
  | BackendUnavailable
  | DebounceQueueFull
  | SerializationFailed (message : string)
  | Transport (message : string)
  | TransportNotAllowed
  | SubscriptionUnavailable
  | MissingChannelKey
  | ChannelLimitExceeded (max : Z).

(** [Display]. *)
Definition channel_error_text (e : ChannelError) : string :=
  match e with
  | InvalidKey m => "invalid channel key: " +:+ m
  | InvalidCursor v => "invalid channel cursor: " +:+ v
  | MessageTooLarge max got =>
      "channel message is too large: maximum is " +:+ pretty max +:+ " bytes, got " +:+ pretty got
  | BackendUnavailable => "channel backend unavailable"
  | DebounceQueueFull => "channel debounce scheduler is saturated"
  | SerializationFailed m => "channel serialization failed: " +:+ m
  | Transport m => "channel transport failed: " +:+ m
  | TransportNotAllowed => "channel transport is not allowed"
  | SubscriptionUnavailable => "channel subscription is unavailable"
  | MissingChannelKey => "a logical channel key is required before attaching"
  | ChannelLimitExceeded max =>
      "channel limit exceeded: at most " +:+ pretty max +:+ " logical channels per user"
  end.

(** [From<ChannelError> for Error]. *)
Inductive HttpError := BadRequest (text : string) | Unavailable (text : string) | OtherError (e : ChannelError).
Definition channel_http_error (err : ChannelError) : HttpError :=
  match err with
  | InvalidKey _ | InvalidCursor _ | TransportNotAllowed | MissingChannelKey
  | ChannelLimitExceeded _ | MessageTooLarge _ _ => BadRequest (channel_error_text err)
  | BackendUnavailable | DebounceQueueFull => Unavailable (channel_error_text err)
  | SubscriptionUnavailable => OtherError err
  | SerializationFailed _ | Transport _ => OtherError err
  end.

(** ** Configuration *)

Inductive SlowSubscriberPolicy := Disconnect.

Record ChannelConf := {
  cc_enabled : bool;
  cc_subscriber_queue : Z;
  cc_replay_limit : Z;
  cc_retention_events : Z;
  cc_max_channels_per_user : Z;
  cc_max_message_bytes : Z;
  cc_long_poll_timeout_ms : Z;
  cc_sse_keepalive_ms : Z;
  cc_slow_subscriber_policy : SlowSubscriberPolicy }.

Definition channel_conf_default : ChannelConf := {|
  cc_enabled := true;
  cc_subscriber_queue := 256;
  cc_replay_limit := 256;
  cc_retention_events := 10000;
  cc_max_channels_per_user := 64;
  cc_max_message_bytes := 1024 * 1024;
  cc_long_poll_timeout_ms := 25000;
  cc_sse_keepalive_ms := 15000;
  cc_slow_subscriber_policy := Disconnect |}.

(** ** Keys *)

Abbreviation UserKey := string (only parsing).
Abbreviation ChannelKey := string (only parsing).

(** [char::is_control] of some character: C0, DEL, or a C1 character, whose
    encoding is the byte 0xC2 and one from 0x80 to 0x9F. *)
Fixpoint has_control (s : string) : bool :=
  match s with
  | EmptyString => false
  | String c rest =>
      is_ascii_control c
      || ((Ascii.nat_of_ascii c =? 194)%nat
          && match rest with
             | String d _ => (128 <=? Ascii.nat_of_ascii d)%nat && (Ascii.nat_of_ascii d <=? 159)%nat
             | EmptyString => false
             end)
      || has_control rest
  end.

Definition validate_channel_key (name key : string) : result ChannelError unit :=
  if String.eqb key "" then Err (InvalidKey (name +:+ " cannot be empty"))
  else if 512 <? str_len key then Err (InvalidKey (name +:+ " cannot exceed 512 bytes"))
  else if has_control key then Err (InvalidKey (name +:+ " cannot contain control characters"))
  else Ok tt.

Definition user_key_new (key : string) : result ChannelError UserKey :=
  let? _ := validate_channel_key "user key" key in Ok key.
Definition channel_key_new (key : string) : result ChannelError ChannelKey :=
  let? _ := validate_channel_key "channel key" key in Ok key.

Definition slash : Ascii.ascii := Ascii.ascii_of_nat 47.

(** [trim_end_matches('/')]. *)
Fixpoint trim_end_slashes (s : string) : string :=
  match s with
  | EmptyString => EmptyString
  | String c rest =>
      match trim_end_slashes rest with
      | EmptyString => if Ascii.eqb c slash then EmptyString else String c EmptyString
      | trimmed => String c trimmed
      end
  end.

Definition normalize_path (path : string) : string :=
  if String.eqb path "/" then path else trim_end_slashes path.

Definition nul : string := String (Ascii.ascii_of_nat 0) EmptyString.
Definition beacon_material (name path : string) : string :=
  "vyuh.channel.beacon.v1" +:+ nul +:+ "GET" +:+ nul +:+ name +:+ nul +:+ normalize_path path.
(** [ChannelKey::beacon]. *)
Definition beacon_key `{Y : Serialization} (name path : string) : ChannelKey :=
  blake3_hex (beacon_material name path).
(** [SignalKey::from_type_name]. *)
Definition signal_key_from `{Y : Serialization} (type_name : string) : string := blake3_hex type_name.

(** ** Cursors *)

Definition digit_of (c : Ascii.ascii) : option Z :=
  let n := Z.of_nat (Ascii.nat_of_ascii c) in
  if (48 <=? n) && (n <=? 57) then Some (n - 48) else None.

(** The digits of [u64::from_str], each step checked. *)
Fixpoint u64_digits (acc : Z) (s : string) : option Z :=
  match s with
  | EmptyString => Some acc
  | String c rest =>
      match digit_of c with
      | Some d =>
          let acc := acc * 10 + d in
          if acc <=? U64_MAX then u64_digits acc rest else None
      | None => None
      end
  end.

(** [str::parse::<u64>]: digits after at most one plus sign. *)
Definition parse_u64 (s : string) : option Z :=
  match s with
  | EmptyString => None
  | String c rest =>
      if (Ascii.nat_of_ascii c =? 43)%nat then
        match rest with EmptyString => None | _ => u64_digits 0 rest end
      else u64_digits 0 s
  end.

(** [ChannelCursor]'s [Display] and [FromStr]. *)
Definition cursor_text (id : Z) : string := pretty id.
Definition cursor_from_str (value : string) : result ChannelError Z :=
  ok_or (parse_u64 value) (InvalidCursor value).

(** [to_ascii_lowercase]. *)
Definition ascii_lower (c : Ascii.ascii) : Ascii.ascii :=
  let n := Ascii.nat_of_ascii c in
  if (65 <=? n)%nat && (n <=? 90)%nat then Ascii.ascii_of_nat (n + 32) else c.
Fixpoint to_ascii_lowercase (s : string) : string :=
  match s with EmptyString => EmptyString | String c rest => String (ascii_lower c) (to_ascii_lowercase rest) end.

(** ** Events and rules *)

Record ChannelEvent := { ev_id : Z; ev_type : string; ev_data : Json; ev_created_at : Z }.

(** [unix_now]. *)
Definition unix_now (now : DateTime) : Z := if now <? 0 then 0 else now / 1000000000.
Definition channel_event_new (id : Z) (event_type : string) (data : Json) (now : DateTime) : ChannelEvent :=
  {| ev_id := id; ev_type := event_type; ev_data := data; ev_created_at := unix_now now |}.

Definition ChannelTransport : Type := Z.
Definition WS : ChannelTransport := 1.
Definition SSE : ChannelTransport := 2.
Definition POLL : ChannelTransport := 4.
Definition ALL_TRANSPORTS : ChannelTransport := Z.lor (Z.lor WS SSE) POLL.

Definition DeliveryPredicate : Type := Payload → bool.
Definition SignalDecoder : Type := Json → result ChannelError Payload.

Record DeliverySpec := {
  dl_type_id : TypeId;
  dl_signal_key : string;
  dl_predicate : DeliveryPredicate;
  dl_decoder : SignalDecoder;
  dl_debounce : option Duration }.

Record DeliveryRule := { dr_predicate : DeliveryPredicate; dr_debounce : option Duration }.

Definition decode_signal `{ChannelExternals} (t : TypeId) (value : Json) : result ChannelError Payload :=
  match from_value t value with Ok p => Ok p | Err e => Err (SerializationFailed e) end.

(** [delivery::<T, _>]: the predicate holds only of values of the type. *)
Definition delivery `{Y : Serialization, ChannelExternals} (t : TypeId) (predicate : Payload → bool) :
    DeliverySpec :=
  {| dl_type_id := t; dl_signal_key := signal_key_from (type_name_of t);
     dl_predicate := λ value, (pl_type value =? t)%N && predicate value;
     dl_decoder := decode_signal t; dl_debounce := None |}.

(** [sanitize_event_type]. *)
Fixpoint sanitize_event_type (value : string) : string :=
  match value with
  | EmptyString => EmptyString
  | String c rest =>
      String (if (Ascii.nat_of_ascii c =? 13)%nat || (Ascii.nat_of_ascii c =? 10)%nat
              then Ascii.ascii_of_nat 95 else c) (sanitize_event_type rest)
  end.

(** ** The replay log *)

(** The loop that drops the oldest events: the last [limit] stay. *)
Definition log_append (event : ChannelEvent) (limit : Z) (log : list ChannelEvent) : list ChannelEvent :=
  if limit =? 0 then log
  else let log := log ++ [event] in drop (Z.to_nat (zlen log - limit)) log.

Definition log_after (after limit : Z) (log : list ChannelEvent) : list ChannelEvent :=
  take (Z.to_nat limit) (List.filter (λ event, after <? ev_id event) log).

(** ** Fan-out between nodes *)

Record FanoutEnvelope := {
  fe_delivery_id : Uuid;
  fe_signal_key : string;
  fe_event_type : string;
  fe_created_at : Z;
  fe_payload : string;
  fe_origin_node : Uuid }.

Definition FANOUT_DEDUP_LIMIT : Z := 2048.

Record FanoutDedup := { fd_ids : list Uuid; fd_known : gset Uuid }.
Definition fanout_dedup_new : FanoutDedup := {| fd_ids := []; fd_known := ∅ |}.

(** [seen_or_insert]. *)
Definition seen_or_insert (id : Uuid) (d : FanoutDedup) : bool * FanoutDedup :=
  if bool_decide (id ∈ fd_known d) then (true, d)
  else
    let ids := fd_ids d ++ [id] in
    let known := {[id]} ∪ fd_known d in
    if FANOUT_DEDUP_LIMIT <? zlen ids then
      match ids with
      | expired :: ids => (false, {| fd_ids := ids; fd_known := known ∖ {[expired]} |})
      | [] => (false, {| fd_ids := ids; fd_known := known |})
      end
    else (false, {| fd_ids := ids; fd_known := known |}).

(** ** Digits *)

Lemma digit_of_pretty n : (n < 10)%N → digit_of (pretty_N_char n) = Some (Z.of_N n).
Proof. intros Hn. assert (∃ k, n = N.of_nat k ∧ (k < 10)%nat) as (k & -> & Hk)
    by (exists (N.to_nat n); lia).
  do 10 (destruct k as [|k]; [done|]). lia.
Qed.

(** The digits before what is already written. *)
Lemma u64_digits_pretty n : (Z.of_N n ≤ U64_MAX) → ∀ s, 
  u64_digits 0 (pretty_N_go n s) = u64_digits (Z.of_N n) s.
Proof.
  induction n as [n IH] using (well_founded_induction N.lt_wf_0). intros Hn s.
  destruct (decide (0 < n)%N) as [Hpos|Hz].
  - pose proof (N.div_lt n 10 Hpos ltac:(lia)). rewrite pretty_N_go_step by done. rewrite IH by lia.
    cbn. rewrite digit_of_pretty by (apply N.mod_lt; lia).
    assert (Heq : Z.of_N (n `div` 10) * 10 + Z.of_N (n `mod` 10) = Z.of_N n)
      by (pose proof (N.div_mod n 10 ltac:(done)); lia).
    rewrite Heq. by replace (Z.of_N n <=? U64_MAX) with true by lia.
  - assert (n = 0%N) as -> by lia. done.
Qed.

(** Digits are not a sign. *)
Lemma parse_u64_digits s z : s ≠ EmptyString → u64_digits 0 s = Some z → parse_u64 s = Some z.
Proof.
  destruct s as [|c rest]; [done|]. intros _. unfold parse_u64.
  destruct (Nat.eqb_spec (Ascii.nat_of_ascii c) 43) as [Hc|Hc]; [|done].
  cbn. unfold digit_of. by rewrite Hc.
Qed.

Lemma parse_u64_pretty z : 0 ≤ z ≤ U64_MAX → parse_u64 (pretty z) = Some z.
Proof.
  intros Hz. destruct z as [|p|p]; [done| |lia].
  change (pretty (Z.pos p)) with (pretty_N_go (N.pos p) "").
  pose proof (u64_digits_pretty (N.pos p) ltac:(lia) "") as Hd. cbn [u64_digits] in Hd.
  apply parse_u64_digits; [|done]. intros Hempty. by rewrite Hempty in Hd.
Qed.

(** Above 64 bits the digits are refused. *)
Lemma u64_digits_refused n : U64_MAX < Z.of_N n → ∀ s, u64_digits 0 (pretty_N_go n s) = None.
Proof.
  induction n as [n IH] using (well_founded_induction N.lt_wf_0). intros Hn s.
  rewrite pretty_N_go_step by (unfold U64_MAX in Hn; lia).
  pose proof (N.div_lt n 10 ltac:(unfold U64_MAX in Hn; lia) ltac:(lia)).
  destruct (decide (U64_MAX < Z.of_N (n `div` 10))) as [Hd|Hd]; [by apply IH|].
  rewrite u64_digits_pretty by lia. cbn. rewrite digit_of_pretty by (apply N.mod_lt; lia).
  assert (Heq : Z.of_N (n `div` 10) * 10 + Z.of_N (n `mod` 10) = Z.of_N n)
    by (pose proof (N.div_mod n 10 ltac:(done)); lia).
  rewrite Heq. by replace (Z.of_N n <=? U64_MAX) with false by lia.
Qed.

Lemma pretty_N_go_head n : (0 < n)%N → ∀ s, ∃ c rest,
  pretty_N_go n s = String c rest ∧ (Ascii.nat_of_ascii c =? 43)%nat = false.
Proof.
  induction n as [n IH] using (well_founded_induction N.lt_wf_0). intros Hn s.
  rewrite pretty_N_go_step by done. destruct (decide (0 < n `div` 10)%N) as [Hd|Hd].
  - apply IH; [by apply N.div_lt|done].
  - apply N.nlt_ge, N.le_0_r in Hd as ->. rewrite pretty_N_go_0. eexists _, _. split; [done|].
    unfold pretty_N_char. by repeat case_match.
Qed.

Lemma parse_u64_refused z : U64_MAX < z → parse_u64 (pretty z) = None.
Proof.
  intros Hz. destruct z as [|p|p]; [done| |done].
  change (pretty (Z.pos p)) with (pretty_N_go (N.pos p) "").
  destruct (pretty_N_go_head (N.pos p) ltac:(lia) "") as (c & rest & Hs & Hc).
  pose proof (u64_digits_refused (N.pos p) ltac:(lia) "") as Hr. rewrite Hs in *.
  unfold parse_u64. by rewrite Hc, Hr.
Qed.
