(* ===== verification/Channels.v ===== *)
(** * The runtime behind channels ([channels/runtime.rs])

    [LocalChannelState] is what the mutex guards, [ChannelRuntime] everything a
    runtime owns: its counters, the bounded queue of every physical session,
    the bounded queue of debounced payloads and the scheduler that drains it.
    An [mpsc::channel] is a list of what it holds and a flag for each half. *)
From S2P Require Import Prelude Externals Failure Config Models Lifecycle Json Registry Submission.
From S2P Require Import CacheKeys Debounce ChannelTypes.
#[local] Open Scope Z_scope.

Record ChannelTarget := { ct_user : UserKey; ct_channel : ChannelKey }.
#[export] Instance ChannelTarget_eq_dec : EqDecision ChannelTarget.
Proof. solve_decision. Defined.
#[export] Instance ChannelTarget_countable : Countable ChannelTarget.
Proof.
  refine (inj_countable' (λ t, (ct_user t, ct_channel t)) (λ p, {| ct_user := p.1; ct_channel := p.2 |}) _).
  by intros [].
Defined.

Abbreviation SessionId := Z (only parsing).

Record DeliveryTarget := { dt_channel : ChannelTarget; dt_generation : Z }.
Record DebounceKey := { dk_target : DeliveryTarget; dk_type : TypeId }.
#[export] Instance DeliveryTarget_eq_dec : EqDecision DeliveryTarget.
Proof. solve_decision. Defined.
#[export] Instance DebounceKey_eq_dec : EqDecision DebounceKey.
Proof. solve_decision. Defined.
#[export] Instance DeliveryTarget_countable : Countable DeliveryTarget.
Proof.
  refine (inj_countable' (λ t, (dt_channel t, dt_generation t))
            (λ p, {| dt_channel := p.1; dt_generation := p.2 |}) _).
  by intros [].
Defined.
#[export] Instance DebounceKey_countable : Countable DebounceKey.
Proof.
  refine (inj_countable' (λ t, (dk_target t, dk_type t)) (λ p, {| dk_target := p.1; dk_type := p.2 |}) _).
  by intros [].
Defined.

Record PendingPayload := { pp_event_type : string; pp_data : Json }.
Record DebounceInput := { di_key : DebounceKey; di_window : Duration; di_payload : PendingPayload }.
Record AcceptedChannel := { ac_target : DeliveryTarget; ac_debounce : option Duration }.
Record SignalCodec := { sc_type : TypeId; sc_decoder : SignalDecoder }.

Record ChannelState := {
  ch_generation : Z;
  ch_rules : gmap TypeId DeliveryRule;
  ch_log : list ChannelEvent;
  ch_sessions : gset SessionId }.
Definition channel_state_default : ChannelState :=
  {| ch_generation := 0; ch_rules := ∅; ch_log := []; ch_sessions := ∅ |}.

Record LocalChannelState := {
  lc_users : gmap UserKey (gmap ChannelKey ChannelState);
  lc_type_index : gmap TypeId (gset ChannelTarget);
  lc_codecs : gmap string SignalCodec;
  lc_delivered_fanout : FanoutDedup }.
Definition local_state_default : LocalChannelState :=
  {| lc_users := ∅; lc_type_index := ∅; lc_codecs := ∅; lc_delivered_fanout := fanout_dedup_new |}.

(** A session's queue: its sender is held by the channel, its receiver by the transport. *)
Record SessionQueue := { sq_buffer : list ChannelEvent; sq_sender : bool; sq_receiver : bool }.

(** The receiver of debounced payloads is taken by the scheduler, and dropped with it. *)
Inductive SchedulerPhase := SchedulerWaiting | SchedulerRunning | SchedulerStopped.
#[export] Instance SchedulerPhase_eq_dec : EqDecision SchedulerPhase.
Proof. solve_decision. Defined.

Record ChannelRuntime := {
  cr_conf : ChannelConf;
  cr_next_event : Z;
  cr_next_session : Z;
  cr_state : LocalChannelState;
  cr_queues : gmap SessionId SessionQueue;
  cr_inputs : list DebounceInput;
  cr_phase : SchedulerPhase;
  cr_streams : Streams DebounceKey PendingPayload;
  cr_beacon_channels : gmap Z ChannelKey }.

Definition subscription_runtime_new (conf : ChannelConf) (beacon_channels : gmap Z ChannelKey) :
    ChannelRuntime :=
  {| cr_conf := conf; cr_next_event := 1; cr_next_session := 1; cr_state := local_state_default;
     cr_queues := ∅; cr_inputs := []; cr_phase := SchedulerWaiting; cr_streams := streams_new;
     cr_beacon_channels := beacon_channels |}.

Definition debounce_capacity (conf : ChannelConf) : Z := Z.max (cc_retention_events conf) 1.
Definition session_capacity (conf : ChannelConf) : Z := Z.max (cc_subscriber_queue conf) 1.

Definition set_channel_state (v : LocalChannelState) (r : ChannelRuntime) : ChannelRuntime :=
  {| cr_conf := cr_conf r; cr_next_event := cr_next_event r; cr_next_session := cr_next_session r;
     cr_state := v; cr_queues := cr_queues r; cr_inputs := cr_inputs r; cr_phase := cr_phase r;
     cr_streams := cr_streams r; cr_beacon_channels := cr_beacon_channels r |}.
Definition set_queues (v : gmap SessionId SessionQueue) (r : ChannelRuntime) : ChannelRuntime :=
  {| cr_conf := cr_conf r; cr_next_event := cr_next_event r; cr_next_session := cr_next_session r;
     cr_state := cr_state r; cr_queues := v; cr_inputs := cr_inputs r; cr_phase := cr_phase r;
     cr_streams := cr_streams r; cr_beacon_channels := cr_beacon_channels r |}.
Definition set_inputs (v : list DebounceInput) (r : ChannelRuntime) : ChannelRuntime :=
  {| cr_conf := cr_conf r; cr_next_event := cr_next_event r; cr_next_session := cr_next_session r;
     cr_state := cr_state r; cr_queues := cr_queues r; cr_inputs := v; cr_phase := cr_phase r;
     cr_streams := cr_streams r; cr_beacon_channels := cr_beacon_channels r |}.
Definition set_scheduler_phase (v : SchedulerPhase) (r : ChannelRuntime) : ChannelRuntime :=
  {| cr_conf := cr_conf r; cr_next_event := cr_next_event r; cr_next_session := cr_next_session r;
     cr_state := cr_state r; cr_queues := cr_queues r; cr_inputs := cr_inputs r; cr_phase := v;
     cr_streams := cr_streams r; cr_beacon_channels := cr_beacon_channels r |}.
Definition set_streams (v : Streams DebounceKey PendingPayload) (r : ChannelRuntime) : ChannelRuntime :=
  {| cr_conf := cr_conf r; cr_next_event := cr_next_event r; cr_next_session := cr_next_session r;
     cr_state := cr_state r; cr_queues := cr_queues r; cr_inputs := cr_inputs r; cr_phase := cr_phase r;
     cr_streams := v; cr_beacon_channels := cr_beacon_channels r |}.

(** [fetch_add]: the value before, at 64 bits. *)
Definition take_event_id (r : ChannelRuntime) : Z * ChannelRuntime :=
  (cr_next_event r,
   {| cr_conf := cr_conf r; cr_next_event := u64_wrapping_add (cr_next_event r) 1;
      cr_next_session := cr_next_session r; cr_state := cr_state r; cr_queues := cr_queues r;
      cr_inputs := cr_inputs r; cr_phase := cr_phase r; cr_streams := cr_streams r;
      cr_beacon_channels := cr_beacon_channels r |}).
Definition take_session_id (r : ChannelRuntime) : Z * ChannelRuntime :=
  (cr_next_session r,
   {| cr_conf := cr_conf r; cr_next_event := cr_next_event r;
      cr_next_session := u64_wrapping_add (cr_next_session r) 1; cr_state := cr_state r;
      cr_queues := cr_queues r; cr_inputs := cr_inputs r; cr_phase := cr_phase r;
      cr_streams := cr_streams r; cr_beacon_channels := cr_beacon_channels r |}).

(** ** Policies *)

(** [channel_mut] and its shared form. *)
Definition channel_at (target : ChannelTarget) (st : LocalChannelState) : option ChannelState :=
  match lc_users st !! ct_user target with
  | Some channels => channels !! ct_channel target
  | None => None
  end.
Definition put_channel (target : ChannelTarget) (channel : ChannelState) (st : LocalChannelState) :
    LocalChannelState :=
  {| lc_users := <[ct_user target :=
        <[ct_channel target := channel]> (default ∅ (lc_users st !! ct_user target))]> (lc_users st);
     lc_type_index := lc_type_index st; lc_codecs := lc_codecs st;
     lc_delivered_fanout := lc_delivered_fanout st |}.
Definition set_index (v : gmap TypeId (gset ChannelTarget)) (st : LocalChannelState) : LocalChannelState :=
  {| lc_users := lc_users st; lc_type_index := v; lc_codecs := lc_codecs st;
     lc_delivered_fanout := lc_delivered_fanout st |}.
Definition set_codecs (v : gmap string SignalCodec) (st : LocalChannelState) : LocalChannelState :=
  {| lc_users := lc_users st; lc_type_index := lc_type_index st; lc_codecs := v;
     lc_delivered_fanout := lc_delivered_fanout st |}.
Definition set_fanout (v : FanoutDedup) (st : LocalChannelState) : LocalChannelState :=
  {| lc_users := lc_users st; lc_type_index := lc_type_index st; lc_codecs := lc_codecs st;
     lc_delivered_fanout := v |}.

Definition ensure_channel_limit (target : ChannelTarget) (limit : Z) (st : LocalChannelState) :
    result ChannelError unit :=
  let channels := lc_users st !! ct_user target in
  if match channels with None => true | Some m => bool_decide (is_Some (m !! ct_channel target)) end
  then Ok tt
  else if match channels with Some m => limit <=? Z.of_nat (size m) | None => false end
  then Err (ChannelLimitExceeded limit) else Ok tt.

Definition remove_indexes (target : ChannelTarget) (st : LocalChannelState) : LocalChannelState :=
  set_index (omap (λ targets : gset ChannelTarget,
                     let targets := targets ∖ {[target]} in
                     if decide (targets = ∅) then None else Some targets) (lc_type_index st)) st.

Definition type_index_insert (t : TypeId) (target : ChannelTarget) (index : gmap TypeId (gset ChannelTarget)) :
    gmap TypeId (gset ChannelTarget) :=
  <[t := {[target]} ∪ default ∅ (index !! t)]> index.

(** One turn of the loop over the deliveries of a policy. *)
Definition add_delivery (target : ChannelTarget) (delivery : DeliverySpec)
    (acc : ChannelState * LocalChannelState) : ChannelState * LocalChannelState :=
  let '(channel, st) := acc in
  ({| ch_generation := ch_generation channel;
      ch_rules := <[dl_type_id delivery := {| dr_predicate := dl_predicate delivery;
                                              dr_debounce := dl_debounce delivery |}]> (ch_rules channel);
      ch_log := ch_log channel; ch_sessions := ch_sessions channel |},
   set_codecs (<[dl_signal_key delivery := {| sc_type := dl_type_id delivery;
                                              sc_decoder := dl_decoder delivery |}]> (lc_codecs st))
     (set_index (type_index_insert (dl_type_id delivery) target (lc_type_index st)) st)).

Definition replace_policy (target : ChannelTarget) (deliveries : list DeliverySpec)
    (st : LocalChannelState) : LocalChannelState :=
  let st := remove_indexes target st in
  let channel := default channel_state_default (channel_at target st) in
  let channel := {| ch_generation := u64_wrapping_add (ch_generation channel) 1; ch_rules := ∅;
                    ch_log := ch_log channel; ch_sessions := ch_sessions channel |} in
  let '(channel, st) := foldl (λ acc d, add_delivery target d acc) (channel, st) deliveries in
  put_channel target channel st.

(** ** Acceptance *)

Definition channel_rule (target : ChannelTarget) (t : TypeId) (attached_only : bool)
    (st : LocalChannelState) : option (DeliveryTarget * DeliveryRule) :=
  match channel_at target st with
  | None => None
  | Some channel =>
      if attached_only && bool_decide (ch_sessions channel = ∅) then None
      else match ch_rules channel !! t with
           | Some rule => Some ({| dt_channel := target; dt_generation := ch_generation channel |}, rule)
           | None => None
           end
  end.

Definition delivery_candidates (t : TypeId) (attached_only : bool) (st : LocalChannelState) :
    list (DeliveryTarget * DeliveryRule) :=
  match lc_type_index st !! t with
  | None => []
  | Some targets => omap (λ target, channel_rule target t attached_only st) (elements targets)
  end.

(** [candidates_any]; [candidates] is the case of an emitted value and its own type. *)
Definition candidates_any (t : TypeId) (value : Payload) (attached_only : bool)
    (st : LocalChannelState) : list AcceptedChannel :=
  omap (λ c : DeliveryTarget * DeliveryRule,
          if dr_predicate c.2 value
          then Some {| ac_target := c.1; ac_debounce := dr_debounce c.2 |} else None)
    (delivery_candidates t attached_only st).

(** ** Delivery to sessions *)

(** [try_send]: [false] when the queue is full or its receiver gone. *)
Definition try_send (capacity : Z) (event : ChannelEvent) (id : SessionId)
    (queues : gmap SessionId SessionQueue) : bool * gmap SessionId SessionQueue :=
  match queues !! id with
  | Some q =>
      if negb (sq_receiver q) then (false, queues)
      else if capacity <=? zlen (sq_buffer q) then (false, queues)
      else (true, <[id := {| sq_buffer := sq_buffer q ++ [event]; sq_sender := sq_sender q;
                             sq_receiver := sq_receiver q |}]> queues)
  | None => (false, queues)
  end.

(** The sender of a removed session is dropped. *)
Definition drop_sender (id : SessionId) (queues : gmap SessionId SessionQueue) : gmap SessionId SessionQueue :=
  alter (λ q, {| sq_buffer := sq_buffer q; sq_sender := false; sq_receiver := sq_receiver q |}) id queues.

Fixpoint send_all (capacity : Z) (event : ChannelEvent) (ids : list SessionId)
    (queues : gmap SessionId SessionQueue) : list SessionId * gmap SessionId SessionQueue :=
  match ids with
  | [] => ([], queues)
  | id :: ids =>
      let '(sent, queues) := try_send capacity event id queues in
      let '(closed, queues) := send_all capacity event ids queues in
      (if sent then closed else id :: closed, queues)
  end.

Definition send_live (capacity : Z) (event : ChannelEvent) (channel : ChannelState)
    (queues : gmap SessionId SessionQueue) : ChannelState * gmap SessionId SessionQueue :=
  let '(closed, queues) := send_all capacity event (elements (ch_sessions channel)) queues in
  ({| ch_generation := ch_generation channel; ch_rules := ch_rules channel; ch_log := ch_log channel;
      ch_sessions := ch_sessions channel ∖ list_to_set closed |},
   foldr drop_sender queues closed).

(** Retains an event in a channel and offers it to its sessions. *)
Definition deliver_event (event : ChannelEvent) (target : ChannelTarget) (channel : ChannelState)
    (r : ChannelRuntime) : ChannelRuntime :=
  let channel := {| ch_generation := ch_generation channel; ch_rules := ch_rules channel;
                    ch_log := log_append event (cc_retention_events (cr_conf r)) (ch_log channel);
                    ch_sessions := ch_sessions channel |} in
  let '(channel, queues) := send_live (session_capacity (cr_conf r)) event channel (cr_queues r) in
  set_queues queues (set_channel_state (put_channel target channel (cr_state r)) r).

Definition append_one (event : ChannelEvent) (target : DeliveryTarget) (r : ChannelRuntime) : ChannelRuntime :=
  match channel_at (dt_channel target) (cr_state r) with
  | None => r
  | Some channel =>
      if negb (ch_generation channel =? dt_generation target) then r
      else deliver_event event (dt_channel target) channel r
  end.

Definition append_event (targets : list DeliveryTarget) (event : ChannelEvent) (r : ChannelRuntime) :
    ChannelRuntime :=
  foldl (λ r target, append_one event target r) r targets.

(** ** Publishing *)

Section Publish.
Context `{Y : Serialization, C : ChannelExternals}.

Definition ChannelM (A : Type) : Type := M ChannelRuntime ChannelError A.

Definition validate_payload_size (conf : ChannelConf) (value : Json) : result ChannelError unit :=
  match value_text value with
  | Err e => Err (SerializationFailed e)
  | Ok text =>
      if cc_max_message_bytes conf <? str_len text
      then Err (MessageTooLarge (cc_max_message_bytes conf) (str_len text)) else Ok tt
  end.

Definition enqueue_debounce (target : DeliveryTarget) (t : TypeId) (window : Duration)
    (payload : PendingPayload) : ChannelM unit := λ r,
  match cr_phase r with
  | SchedulerStopped => (Err BackendUnavailable, r)
  | _ =>
      if debounce_capacity (cr_conf r) <=? zlen (cr_inputs r) then (Err DebounceQueueFull, r)
      else (Ok tt, set_inputs (cr_inputs r ++
              [{| di_key := {| dk_target := target; dk_type := t |}; di_window := window;
                  di_payload := payload |}]) r)
  end.

Definition enqueue_accepted (t : TypeId) (payload : PendingPayload) (accepted : AcceptedChannel) : ChannelM unit :=
  match ac_debounce accepted with
  | Some window => enqueue_debounce (ac_target accepted) t window payload
  | None => retM tt
  end.

Definition immediate_targets (accepted : list AcceptedChannel) : list DeliveryTarget :=
  omap (λ a, match ac_debounce a with None => Some (ac_target a) | Some _ => None end) accepted.

Definition take_id : ChannelM Z := λ r, let '(id, r) := take_event_id r in (Ok id, r).

Definition publish_value (accepted : list AcceptedChannel) (t : TypeId) (event_type : string)
    (data : Json) (now : DateTime) : ChannelM unit :=
  let payload := {| pp_event_type := event_type; pp_data := data |} in
  let immediate := immediate_targets accepted in
  for_eachM accepted (enqueue_accepted t payload) ;!
  match immediate with
  | [] => retM tt
  | _ =>
      do! id := take_id in
      modifyM (append_event immediate (channel_event_new id event_type data now))
  end.

(** What the publishing functions hand to [publish_value]. *)
Record Prepared := {
  pr_accepted : list AcceptedChannel;
  pr_type : TypeId;
  pr_event_type : string;
  pr_data : Json }.

Definition publish_prepared (now : DateTime) (p : option Prepared) : ChannelM unit :=
  match p with
  | None => retM tt
  | Some p => publish_value (pr_accepted p) (pr_type p) (pr_event_type p) (pr_data p) now
  end.

Definition serialized {A} (r : result JsonError A) : result ChannelError A :=
  match r with Ok a => Ok a | Err e => Err (SerializationFailed e) end.

Definition prepare_signal (value : Payload) (r : ChannelRuntime) : result ChannelError (option Prepared) :=
  match candidates_any (pl_type value) value false (cr_state r) with
  | [] => Ok None
  | accepted =>
      let? data := serialized (pl_value value) in
      let? _ := validate_payload_size (cr_conf r) data in
      Ok (Some {| pr_accepted := accepted; pr_type := pl_type value;
                  pr_event_type := sanitize_event_type (type_schema (pl_type value)); pr_data := data |})
  end.
Definition publish_signal (value : Payload) (now : DateTime) : ChannelM unit :=
  do! r := getM in
  do! p := liftR (prepare_signal value r) in
  publish_prepared now p.

(** [DataBox::schema_name] of a box, kept with its serializer. *)
Definition box_schema (value : Payload) : option string :=
  if pl_wire value then Some (type_schema (pl_type value)) else None.

(** [publish_box]: a box may have lost its serializer and its schema. *)
Definition prepare_box (value : Payload) (r : ChannelRuntime) : result ChannelError (option Prepared) :=
  match candidates_any (pl_type value) value false (cr_state r) with
  | [] => Ok None
  | accepted =>
      let? json := ok_or (to_json value) (SerializationFailed "payload is not serializable") in
      let? data := serialized json in
      let? _ := validate_payload_size (cr_conf r) data in
      let? event_type := ok_or (sanitize_event_type <$> box_schema value)
                           (SerializationFailed "payload schema is not available") in
      Ok (Some {| pr_accepted := accepted; pr_type := pl_type value; pr_event_type := event_type;
                  pr_data := data |})
  end.
Definition publish_box (value : Payload) (now : DateTime) : ChannelM unit :=
  do! r := getM in
  do! p := liftR (prepare_box value r) in
  publish_prepared now p.

Definition fanout_codec (envelope : FanoutEnvelope) : ChannelM (option SignalCodec) := λ r,
  let '(seen, fanout) := seen_or_insert (fe_delivery_id envelope) (lc_delivered_fanout (cr_state r)) in
  let r := set_channel_state (set_fanout fanout (cr_state r)) r in
  (Ok (if seen then None else lc_codecs (cr_state r) !! fe_signal_key envelope), r).

(** The part of [ingest_fanout] after the codec is known. *)
Definition prepare_fanout (envelope : FanoutEnvelope) (codec : SignalCodec) (r : ChannelRuntime) :
    result ChannelError (option Prepared) :=
  let? payload := serialized (parse_value (fe_payload envelope)) in
  let? value := sc_decoder codec payload in
  match candidates_any (sc_type codec) value true (cr_state r) with
  | [] => Ok None
  | accepted =>
      let? _ := validate_payload_size (cr_conf r) payload in
      Ok (Some {| pr_accepted := accepted; pr_type := sc_type codec;
                  pr_event_type := fe_event_type envelope; pr_data := payload |})
  end.

Definition ingest_fanout (envelope : FanoutEnvelope) (now : DateTime) : ChannelM unit :=
  do! codec := fanout_codec envelope in
  match codec with
  | None => retM tt
  | Some codec =>
      do! r := getM in
      do! p := liftR (prepare_fanout envelope codec r) in
      publish_prepared now p
  end.

(** ** Debounced delivery *)

(** The policy that accepted the payload is in force and its rule still debounced. *)
Definition still_debounced (key : DebounceKey) (channel : ChannelState) : bool :=
  (ch_generation channel =? dt_generation (dk_target key))
  && match ch_rules channel !! dk_type key with
     | Some rule => bool_decide (is_Some (dr_debounce rule))
     | None => false
     end.

Definition deliver_debounced (key : DebounceKey) (payload : PendingPayload) (now : DateTime)
    (r : ChannelRuntime) : ChannelRuntime :=
  let target := dt_channel (dk_target key) in
  match channel_at target (cr_state r) with
  | None => r
  | Some channel =>
      if still_debounced key channel then
        let '(id, r) := take_event_id r in
        deliver_event (channel_event_new id (pp_event_type payload) (pp_data payload) now) target channel r
      else r
  end.

(** The scheduler takes the receiver; a second one finds it gone and returns. *)
Definition run_debounce_start (r : ChannelRuntime) : ChannelRuntime :=
  if decide (cr_phase r = SchedulerWaiting) then set_scheduler_phase SchedulerRunning r else r.

(** One input of the running scheduler: [schedule_debounce]. *)
Definition run_debounce_input (at_ : Z) (r : ChannelRuntime) : option ChannelRuntime :=
  match cr_phase r, cr_inputs r with
  | SchedulerRunning, input :: inputs =>
      let '(_, streams) := stream_push at_ (di_key input) (trailing (di_window input)) (di_payload input)
                             (cr_streams r) in
      Some (set_streams streams (set_inputs inputs r))
  | _, _ => None
  end.

(** One deadline of the running scheduler. *)
Definition run_debounce_due (at_ : Z) (pick : nat) (now : DateTime) (r : ChannelRuntime) : option ChannelRuntime :=
  match cr_phase r with
  | SchedulerRunning =>
      match stream_pop at_ pick (cr_streams r) with
      | Some (entry, payload, streams) =>
          let r := set_streams streams r in
          Some match payload with
               | Some payload => deliver_debounced entry.1 payload now r
               | None => r
               end
      | None => None
      end
  | _ => None
  end.

(** Shutdown drops the receiver, the streams and their deadlines. *)
Definition run_debounce_stop (r : ChannelRuntime) : ChannelRuntime :=
  match cr_phase r with
  | SchedulerRunning => set_scheduler_phase SchedulerStopped (set_inputs [] (set_streams streams_new r))
  | _ => r
  end.

(** ** Sessions *)

(** What an opened session has: its replay, its channel and its queue. *)
Record ChannelOpen := { co_replay : list ChannelEvent; co_target : ChannelTarget; co_session : SessionId }.

Definition open_session (target : ChannelTarget) (session : SessionId) (after : Z) : ChannelM ChannelOpen := λ r,
  match channel_at target (cr_state r) with
  | None => (Err BackendUnavailable, r)
  | Some channel =>
      let replay := log_after after (cc_replay_limit (cr_conf r)) (ch_log channel) in
      let channel := {| ch_generation := ch_generation channel; ch_rules := ch_rules channel;
                        ch_log := ch_log channel; ch_sessions := {[session]} ∪ ch_sessions channel |} in
      (Ok {| co_replay := replay; co_target := target; co_session := session |},
       set_queues (<[session := {| sq_buffer := []; sq_sender := true; sq_receiver := true |}]> (cr_queues r))
         (set_channel_state (put_channel target channel (cr_state r)) r))
  end.

Definition open_user (user_key : UserKey) (channel_key : ChannelKey) (deliveries : list DeliverySpec)
    (after : option Z) : ChannelM ChannelOpen :=
  let target := {| ct_user := user_key; ct_channel := channel_key |} in
  do! session := (λ r, let '(id, r) := take_session_id r in (Ok id, r)) in
  let after := default 0 after in
  do! r := getM in
  do! _ := liftR (ensure_channel_limit target (cc_max_channels_per_user (cr_conf r)) (cr_state r)) in
  modifyM (λ r, set_channel_state (replace_policy target deliveries (cr_state r)) r) ;!
  open_session target session after.

(** [recv]: an event, the end of the channel, or nothing yet. *)
Inductive Received := Event (event : ChannelEvent) | Closed | NotYet.
Definition session_recv (session : SessionId) (r : ChannelRuntime) : Received * ChannelRuntime :=
  match cr_queues r !! session with
  | Some q =>
      match sq_buffer q with
      | event :: buffer =>
          (Event event, set_queues (<[session := {| sq_buffer := buffer; sq_sender := sq_sender q;
                                                    sq_receiver := sq_receiver q |}]> (cr_queues r)) r)
      | [] => (if sq_sender q then NotYet else Closed, r)
      end
  | None => (Closed, r)
  end.

Definition remove_session (target : ChannelTarget) (id : SessionId) (r : ChannelRuntime) : ChannelRuntime :=
  match channel_at target (cr_state r) with
  | Some channel =>
      set_queues (if bool_decide (id ∈ ch_sessions channel) then drop_sender id (cr_queues r) else cr_queues r)
        (set_channel_state (put_channel target
           {| ch_generation := ch_generation channel; ch_rules := ch_rules channel;
              ch_log := ch_log channel; ch_sessions := ch_sessions channel ∖ {[id]} |} (cr_state r)) r)
  | None => r
  end.

(** Dropping a receiver: its guard unregisters the session, then the queue goes with its events. *)
Definition drop_receiver (target : ChannelTarget) (id : SessionId) (r : ChannelRuntime) : ChannelRuntime :=
  let r := remove_session target id r in
  set_queues (alter (λ q, {| sq_buffer := []; sq_sender := sq_sender q; sq_receiver := false |}) id
                (cr_queues r)) r.

Definition beacon_channel (operation : Z) (r : ChannelRuntime) : option ChannelKey :=
  cr_beacon_channels r !! operation.
End Publish.

(** ** Channels as a transition system

    [channel_step] interleaves what reaches a runtime from many tasks: a
    publishing task is a program counter that stops between its critical
    sections, every other operation holds the mutex once. [Observation]s are
    what the outside can see of a step. *)

(** A publishing task, after what it did last. *)
Inductive Publishing :=
  (** In the loop over the accepted channels that are debounced. *)
  | PubEnqueue (rest : list AcceptedChannel) (immediate : list DeliveryTarget) (t : TypeId)
      (payload : PendingPayload)
  (** About to take an event id for the other ones. *)
  | PubNumber (immediate : list DeliveryTarget) (payload : PendingPayload)
  (** About to lock the state and append. *)
  | PubAppend (immediate : list DeliveryTarget) (event : ChannelEvent)
  (** An envelope whose codec is known, its channels not yet. *)
  | PubFanout (envelope : FanoutEnvelope) (codec : SignalCodec).

Inductive Observation :=
  | Appended (target : ChannelTarget) (event : ChannelEvent)
  | Opened (session : SessionId) (target : ChannelTarget) (after : Z) (replay : list ChannelEvent)
  | Got (session : SessionId) (event : ChannelEvent).

Record ChannelSystem := {
  sy_runtime : ChannelRuntime;
  sy_threads : list Publishing;
  (** The receivers transports hold, by the session of their lease. *)
  sy_leases : gmap SessionId ChannelTarget }.

Definition system_new (conf : ChannelConf) (beacon_channels : gmap Z ChannelKey) : ChannelSystem :=
  {| sy_runtime := subscription_runtime_new conf beacon_channels; sy_threads := []; sy_leases := ∅ |}.

Inductive ChannelLabel :=
  | LSignal (value : Payload)
  | LBox (value : Payload)
  | LEnvelope (envelope : FanoutEnvelope)
  | LThread (i : nat) (now : DateTime)
  | LOpen (user_key : UserKey) (channel_key : ChannelKey) (deliveries : list DeliverySpec) (after : option Z)
  | LRecv (session : SessionId)
  | LDrop (session : SessionId)
  | LSchedulerStart
  | LSchedulerInput (at_ : Z)
  | LSchedulerDue (at_ : Z) (pick : nat) (now : DateTime)
  | LSchedulerStop.

Section System.
Context `{Y : Serialization, C : ChannelExternals}.

Definition pub_begin (p : Prepared) : Publishing :=
  PubEnqueue (pr_accepted p) (immediate_targets (pr_accepted p)) (pr_type p)
    {| pp_event_type := pr_event_type p; pp_data := pr_data p |}.

(** The next critical section of a publishing task; [None] when it returned. *)
Definition pub_step (now : DateTime) (p : Publishing) (r : ChannelRuntime) :
    option Publishing * ChannelRuntime :=
  match p with
  | PubEnqueue [] immediate t payload =>
      (match immediate with [] => None | _ => Some (PubNumber immediate payload) end, r)
  | PubEnqueue (a :: rest) immediate t payload =>
      match enqueue_accepted t payload a r with
      | (Ok _, r) => (Some (PubEnqueue rest immediate t payload), r)
      | (Err _, r) => (None, r)
      end
  | PubNumber immediate payload =>
      let '(id, r) := take_event_id r in
      (Some (PubAppend immediate (channel_event_new id (pp_event_type payload) (pp_data payload) now)), r)
  | PubAppend immediate event => (None, append_event immediate event r)
  | PubFanout envelope codec =>
      (match prepare_fanout envelope codec r with Ok (Some p) => Some (pub_begin p) | _ => None end, r)
  end.

Definition set_runtime (r : ChannelRuntime) (s : ChannelSystem) : ChannelSystem :=
  {| sy_runtime := r; sy_threads := sy_threads s; sy_leases := sy_leases s |}.
Definition add_thread (p : option Publishing) (s : ChannelSystem) : ChannelSystem :=
  {| sy_runtime := sy_runtime s;
     sy_threads := sy_threads s ++ match p with Some p => [p] | None => [] end; sy_leases := sy_leases s |}.
Definition set_thread (i : nat) (p : option Publishing) (s : ChannelSystem) : ChannelSystem :=
  {| sy_runtime := sy_runtime s;
     sy_threads := match p with Some p => <[i := p]> (sy_threads s) | None => delete i (sy_threads s) end;
     sy_leases := sy_leases s |}.
Definition set_leases (v : gmap SessionId ChannelTarget) (s : ChannelSystem) : ChannelSystem :=
  {| sy_runtime := sy_runtime s; sy_threads := sy_threads s; sy_leases := v |}.

(** The channels a thread's append reaches. *)
Definition reaches (r : ChannelRuntime) (target : DeliveryTarget) : bool :=
  match channel_at (dt_channel target) (cr_state r) with
  | Some channel => ch_generation channel =? dt_generation target
  | None => false
  end.
Definition appended (targets : list DeliveryTarget) (event : ChannelEvent) (r : ChannelRuntime) :
    list Observation :=
  (λ target, Appended (dt_channel target) event) <$> List.filter (reaches r) targets.
Definition pub_observed (p : Publishing) (r : ChannelRuntime) : list Observation :=
  match p with PubAppend immediate event => appended immediate event r | _ => [] end.

(** What a due deadline delivers. *)
Definition due_observed (at_ : Z) (pick : nat) (now : DateTime) (r : ChannelRuntime) : list Observation :=
  match stream_pop at_ pick (cr_streams r) with
  | Some (entry, Some payload, _) =>
      match channel_at (dt_channel (dk_target entry.1)) (cr_state r) with
      | Some channel =>
          if still_debounced entry.1 channel
          then [Appended (dt_channel (dk_target entry.1))
                  (channel_event_new (cr_next_event r) (pp_event_type payload) (pp_data payload) now)]
          else []
      | None => []
      end
  | _ => []
  end.

(** The thread of a prepared publication; an error ends the call. *)
Definition started (p : result ChannelError (option Prepared)) : option Publishing :=
  match p with Ok (Some p) => Some (pub_begin p) | _ => None end.

Definition channel_step (l : ChannelLabel) (s : ChannelSystem) : option (list Observation * ChannelSystem) :=
  let r := sy_runtime s in
  match l with
  | LSignal value => Some ([], add_thread (started (prepare_signal value r)) s)
  | LBox value => Some ([], add_thread (started (prepare_box value r)) s)
  | LEnvelope envelope =>
      match fanout_codec envelope r with
      | (Ok (Some codec), r) => Some ([], add_thread (Some (PubFanout envelope codec)) (set_runtime r s))
      | (_, r) => Some ([], set_runtime r s)
      end
  | LThread i now =>
      match sy_threads s !! i with
      | Some p =>
          let '(next, r') := pub_step now p r in
          Some (pub_observed p r, set_thread i next (set_runtime r' s))
      | None => None
      end
  | LOpen user_key channel_key deliveries after =>
      match open_user user_key channel_key deliveries after r with
      | (Ok open, r) =>
          Some ([Opened (co_session open) (co_target open) (default 0 after) (co_replay open)],
                set_leases (<[co_session open := co_target open]> (sy_leases s)) (set_runtime r s))
      | (Err _, r) => Some ([], set_runtime r s)
      end
  | LRecv session =>
      match sy_leases s !! session with
      | Some _ =>
          let '(got, r) := session_recv session r in
          Some (match got with Event event => [Got session event] | _ => [] end, set_runtime r s)
      | None => None
      end
  | LDrop session =>
      match sy_leases s !! session with
      | Some target =>
          Some ([], set_leases (delete session (sy_leases s)) (set_runtime (drop_receiver target session r) s))
      | None => None
      end
  | LSchedulerStart => Some ([], set_runtime (run_debounce_start r) s)
  | LSchedulerInput at_ =>
      match run_debounce_input at_ r with Some r => Some ([], set_runtime r s) | None => None end
  | LSchedulerDue at_ pick now =>
      match run_debounce_due at_ pick now r with
      | Some r' => Some (due_observed at_ pick now r, set_runtime r' s)
      | None => None
      end
  | LSchedulerStop => Some ([], set_runtime (run_debounce_stop r) s)
  end.

Fixpoint channel_run (ls : list ChannelLabel) (s : ChannelSystem) : option (list Observation * ChannelSystem) :=
  match ls with
  | [] => Some ([], s)
  | l :: ls =>
      match channel_step l s with
      | Some (out, s) =>
          match channel_run ls s with Some (outs, s) => Some (out ++ outs, s) | None => None end
      | None => None
      end
  end.

(** A task that publishes alone, to its end: at most one turn per accepted
    channel, two for the event and one to see there is none. *)
Fixpoint pub_run (fuel : nat) (now : DateTime) (p : Publishing) (r : ChannelRuntime) : option ChannelRuntime :=
  match fuel with
  | O => None
  | S fuel =>
      match pub_step now p r with
      | (Some p, r) => pub_run fuel now p r
      | (None, r) => Some r
      end
  end.
End System.
