(* ===== verification/ChannelFacts.v ===== *)
(** * What each operation of channels does, pointwise

    A channel is read back where it was put; an event is offered to each
    session of its channel by itself ([offered]); a new policy is exactly its
    deliveries, the last of a type winning. *)
From Stdlib Require Import ZifyBool.
From S2P Require Import Prelude Externals Failure Config Models Lifecycle Json Registry Submission CacheKeys.
From S2P Require Import Debounce ChannelTypes Channels.
#[local] Open Scope Z_scope.

(** ** Channels *)

Lemma channel_at_put target target' channel st :
  channel_at target' (put_channel target channel st) =
  if decide (target' = target) then Some channel else channel_at target' st.
Proof.
  destruct target as [u c], target' as [u' c']. unfold channel_at, put_channel; cbn.
  destruct (decide (u' = u)) as [->|Hu].
  - rewrite lookup_insert_eq. destruct (decide (c' = c)) as [->|Hc].
    + by rewrite lookup_insert_eq, decide_True.
    + rewrite lookup_insert_ne by done. rewrite decide_False by congruence.
      by destruct (lc_users st !! u).
  - rewrite lookup_insert_ne by done. by rewrite decide_False by congruence.
Qed.

Lemma channel_at_set_index v st target : channel_at target (set_index v st) = channel_at target st.
Proof. done. Qed.

(** ** Offering an event *)

(** A queue that takes one more event. *)
Definition sendable (capacity : Z) (q : SessionQueue) : bool :=
  sq_receiver q && (zlen (sq_buffer q) <? capacity).
Definition offered (capacity : Z) (event : ChannelEvent) (q : SessionQueue) : SessionQueue :=
  if sendable capacity q
  then {| sq_buffer := sq_buffer q ++ [event]; sq_sender := sq_sender q; sq_receiver := sq_receiver q |}
  else {| sq_buffer := sq_buffer q; sq_sender := false; sq_receiver := sq_receiver q |}.
Definition takes (capacity : Z) (queues : gmap SessionId SessionQueue) (id : SessionId) : bool :=
  match queues !! id with Some q => sendable capacity q | None => false end.

Lemma try_send_spec capacity event id queues :
  try_send capacity event id queues =
  (takes capacity queues id,
   if takes capacity queues id then alter (offered capacity event) id queues else queues).
Proof.
  unfold try_send, takes, sendable. destruct (queues !! id) as [q|] eqn:Hq; [|done].
  destruct (sq_receiver q) eqn:Hr; cbn; [|done].
  destruct (capacity <=? zlen (sq_buffer q)) eqn:Hc.
  - replace (zlen (sq_buffer q) <? capacity) with false by lia. done.
  - assert (zlen (sq_buffer q) <? capacity = true) as Hlt by lia. rewrite Hlt. f_equal.
    apply map_eq. intros i. destruct (decide (i = id)) as [->|Hne].
    + rewrite lookup_insert_eq, lookup_alter_eq, Hq. cbn. unfold offered, sendable.
      by rewrite Hr, Hlt.
    + by rewrite lookup_insert_ne, lookup_alter_ne by done.
Qed.

Lemma send_all_spec capacity event ids queues :
  NoDup ids →
  let '(closed, queues') := send_all capacity event ids queues in
  (∀ id, id ∈ closed ↔ id ∈ ids ∧ takes capacity queues id = false) ∧
  ∀ id, queues' !! id =
    if decide (id ∈ ids ∧ takes capacity queues id = true)
    then offered capacity event <$> queues !! id else queues !! id.
Proof.
  revert queues. induction ids as [|i ids IH]; intros queues Hnd; cbn.
  { split; [set_solver|]. intros id. rewrite decide_False; [done|set_solver]. }
  apply NoDup_cons in Hnd as [Hi Hnd]. rewrite try_send_spec.
  set (queues1 := if takes capacity queues i then _ else _).
  assert (Hother : ∀ id, id ≠ i → queues1 !! id = queues !! id).
  { intros id Hne. unfold queues1. destruct (takes capacity queues i); [|done]. by apply lookup_alter_ne. }
  specialize (IH queues1 Hnd). destruct (send_all capacity event ids queues1) as [closed queues2].
  destruct IH as [Hclosed Hq].
  assert (Htakes : ∀ id, id ∈ ids → takes capacity queues1 id = takes capacity queues id).
  { intros id Hid. unfold takes. rewrite Hother; [done|set_solver]. }
  split.
  - intros id. destruct (takes capacity queues i) eqn:Ht.
    + rewrite Hclosed, elem_of_cons. split.
      * intros [Hin Hf]. rewrite Htakes in Hf by done. auto.
      * intros [[->|Hin] Hf]; [congruence|]. rewrite Htakes by done. auto.
    + rewrite !elem_of_cons, Hclosed. split.
      * intros [->|[Hin Hf]]; [auto|]. rewrite Htakes in Hf by done. auto.
      * intros [[->|Hin] Hf]; [auto|]. right. rewrite Htakes by done. auto.
  - intros id. rewrite Hq. destruct (decide (id = i)) as [->|Hne].
    + rewrite decide_False by naive_solver. unfold queues1.
      destruct (takes capacity queues i) eqn:Ht.
      * rewrite lookup_alter_eq. rewrite decide_True by (split; [left|done]). done.
      * rewrite decide_False by naive_solver. done.
    + rewrite Hother by done. destruct (decide (id ∈ ids ∧ takes capacity queues1 id = true)) as [[Hin Ht]|Hn].
      * rewrite Htakes in Ht by done. rewrite decide_True; [done|]. split; [by right|done].
      * rewrite decide_False; [done|]. intros [[?|Hin]%elem_of_cons Ht]; [done|].
        apply Hn. rewrite Htakes by done. done.
Qed.

Lemma foldr_drop_sender closed queues id :
  foldr drop_sender queues closed !! id =
  if decide (id ∈ closed)
  then (λ q, {| sq_buffer := sq_buffer q; sq_sender := false; sq_receiver := sq_receiver q |}) <$> queues !! id
  else queues !! id.
Proof.
  induction closed as [|i closed IH]; cbn; [done|]. unfold drop_sender at 1.
  destruct (decide (id = i)) as [->|Hne].
  - rewrite lookup_alter_eq, IH. rewrite (decide_True (P := i ∈ i :: closed)) by by left.
    case_decide; [|done]. by destruct (queues !! i).
  - rewrite lookup_alter_ne, IH by done. apply decide_ext. set_solver.
Qed.

(** Every session of the channel is offered the event; one that cannot take it is removed. *)
Lemma send_live_spec capacity event channel queues :
  let '(channel', queues') := send_live capacity event channel queues in
  ch_generation channel' = ch_generation channel ∧ ch_rules channel' = ch_rules channel ∧
  ch_log channel' = ch_log channel ∧
  (∀ id, id ∈ ch_sessions channel' ↔ id ∈ ch_sessions channel ∧ takes capacity queues id = true) ∧
  ∀ id, queues' !! id =
    if decide (id ∈ ch_sessions channel) then offered capacity event <$> queues !! id else queues !! id.
Proof.
  unfold send_live.
  pose proof (send_all_spec capacity event (elements (ch_sessions channel)) queues (NoDup_elements _)) as Hs.
  destruct (send_all _ _ _ _) as [closed queues1]. destruct Hs as [Hclosed Hq]. cbn.
  split_and!; try done.
  - intros id. rewrite elem_of_difference, elem_of_list_to_set, Hclosed, elem_of_elements.
    destruct (takes capacity queues id); naive_solver.
  - intros id. rewrite foldr_drop_sender. rewrite (Hq id).
    destruct (decide (id ∈ ch_sessions channel)) as [Hin|Hout].
    + destruct (takes capacity queues id) eqn:Ht.
      * rewrite decide_False by (rewrite Hclosed; intros [_ ?]; congruence).
        rewrite decide_True by (rewrite elem_of_elements; done). done.
      * rewrite decide_True by (rewrite Hclosed, elem_of_elements; done).
        rewrite decide_False by (intros [_ ?]; congruence). unfold takes in Ht.
        destruct (queues !! id) as [q|]; [|done]. cbn. unfold offered. by rewrite Ht.
    + rewrite decide_False by (rewrite Hclosed, elem_of_elements; intros [? _]; done).
      rewrite decide_False by (rewrite elem_of_elements; intros [? _]; done). done.
Qed.

(** ** Policies *)

(** The last delivery of a type. *)
Definition last_rule (deliveries : list DeliverySpec) (t : TypeId) : option DeliveryRule :=
  foldl (λ acc d, if decide (dl_type_id d = t)
                  then Some {| dr_predicate := dl_predicate d; dr_debounce := dl_debounce d |} else acc)
    None deliveries.

Lemma add_deliveries_spec target deliveries channel st :
  let '(channel', st') := foldl (λ acc d, add_delivery target d acc) (channel, st) deliveries in
  ch_generation channel' = ch_generation channel ∧ ch_log channel' = ch_log channel ∧
  ch_sessions channel' = ch_sessions channel ∧
  (∀ t, ch_rules channel' !! t =
     foldl (λ acc d, if decide (dl_type_id d = t)
                     then Some {| dr_predicate := dl_predicate d; dr_debounce := dl_debounce d |} else acc)
       (ch_rules channel !! t) deliveries) ∧
  lc_users st' = lc_users st ∧ lc_delivered_fanout st' = lc_delivered_fanout st ∧
  (∀ t target', target' ∈ default ∅ (lc_type_index st' !! t) ↔
     target' ∈ default ∅ (lc_type_index st !! t) ∨ target' = target ∧ t ∈ dl_type_id <$> deliveries) ∧
  ((∀ t ts, lc_type_index st !! t = Some ts → ts ≠ ∅) → ∀ t ts, lc_type_index st' !! t = Some ts → ts ≠ ∅).
Proof.
  revert channel st. induction deliveries as [|d deliveries IH]; intros channel st; cbn.
  { split_and!; try done. intros t target'. rewrite elem_of_nil. naive_solver. }
  specialize (IH (add_delivery target d (channel, st)).1 (add_delivery target d (channel, st)).2).
  unfold add_delivery in *. cbn in *. destruct (foldl _ _ deliveries) as [channel' st'].
  destruct IH as (Hg & Hl & Hs & Hr & Hu & Hf & Hi & Hne). split_and!; try done.
  - intros t. rewrite Hr. f_equal. destruct (decide (dl_type_id d = t)) as [->|Hne'].
    + by rewrite lookup_insert_eq.
    + by rewrite lookup_insert_ne.
  - intros t target'. rewrite Hi, elem_of_cons. unfold type_index_insert.
    destruct (decide (t = dl_type_id d)) as [->|Hne'].
    + rewrite lookup_insert_eq. cbn. rewrite elem_of_union, elem_of_singleton. naive_solver.
    + rewrite lookup_insert_ne by done. naive_solver.
  - intros Hne0. apply Hne. intros t ts. unfold type_index_insert.
    destruct (decide (t = dl_type_id d)) as [->|Hne'].
    + rewrite lookup_insert_eq. intros [= <-]. set_solver.
    + rewrite lookup_insert_ne by done. apply Hne0.
Qed.

Lemma last_rule_is_Some deliveries t :
  is_Some (last_rule deliveries t) ↔ t ∈ dl_type_id <$> deliveries.
Proof.
  unfold last_rule. assert (Hgen : ∀ acc, is_Some (foldl (λ acc d, if decide (dl_type_id d = t)
      then Some {| dr_predicate := dl_predicate d; dr_debounce := dl_debounce d |} else acc) acc deliveries)
      ↔ is_Some acc ∨ t ∈ dl_type_id <$> deliveries).
  { induction deliveries as [|d deliveries IH]; intros acc; cbn; [rewrite elem_of_nil; naive_solver|].
    rewrite IH, elem_of_cons. case_decide; naive_solver. }
  rewrite Hgen. split; [|by right]. intros [[? ?]|?]; done.
Qed.

Lemma remove_indexes_spec target st t target' :
  target' ∈ default ∅ (lc_type_index (remove_indexes target st) !! t) ↔
  target' ∈ default ∅ (lc_type_index st !! t) ∧ target' ≠ target.
Proof.
  unfold remove_indexes; cbn. rewrite lookup_omap.
  destruct (lc_type_index st !! t) as [ts|]; cbn; [|set_solver].
  case_decide; cbn; set_solver.
Qed.

Lemma remove_indexes_nonempty target st t ts :
  lc_type_index (remove_indexes target st) !! t = Some ts → ts ≠ ∅.
Proof.
  unfold remove_indexes; cbn. rewrite lookup_omap_Some. intros (ts' & Hts & _).
  by destruct (decide (ts' ∖ {[target]} = ∅)); simplify_eq.
Qed.

(** The channel a policy is put on. *)
Definition channel_or_default (target : ChannelTarget) (st : LocalChannelState) : ChannelState :=
  default channel_state_default (channel_at target st).

Lemma replace_policy_spec target deliveries st :
  let st' := replace_policy target deliveries st in
  let old := channel_or_default target st in
  ∃ channel,
    ch_generation channel = u64_wrapping_add (ch_generation old) 1 ∧
    ch_log channel = ch_log old ∧ ch_sessions channel = ch_sessions old ∧
    (∀ t, ch_rules channel !! t = last_rule deliveries t) ∧
    lc_users st' = lc_users (put_channel target channel st) ∧
    lc_delivered_fanout st' = lc_delivered_fanout st ∧
    (∀ t target', target' ∈ default ∅ (lc_type_index st' !! t) ↔
       target' ∈ default ∅ (lc_type_index st !! t) ∧ target' ≠ target ∨
       target' = target ∧ t ∈ dl_type_id <$> deliveries) ∧
    (∀ t ts, lc_type_index st' !! t = Some ts → ts ≠ ∅).
Proof.
  cbn. unfold replace_policy.
  replace (channel_at target (remove_indexes target st)) with (channel_at target st) by done.
  fold (channel_or_default target st). set (old := channel_or_default target st).
  set (c0 := {| ch_generation := u64_wrapping_add (ch_generation old) 1; ch_rules := ∅;
                ch_log := ch_log old; ch_sessions := ch_sessions old |}).
  pose proof (add_deliveries_spec target deliveries c0 (remove_indexes target st)) as Hs.
  destruct (foldl _ _ deliveries) as [channel st1].
  destruct Hs as (Hg & Hl & Hss & Hr & Hu & Hf & Hi & Hne). exists channel. split_and!; try done.
  - cbn. by rewrite Hu.
  - intros t target'. change (lc_type_index (put_channel target channel st1)) with (lc_type_index st1).
    by rewrite Hi, remove_indexes_spec.
  - apply Hne. intros t ts. apply remove_indexes_nonempty.
Qed.

Lemma channel_at_users st st' target :
  lc_users st = lc_users st' → channel_at target st = channel_at target st'.
Proof. intros H. unfold channel_at. by rewrite H. Qed.

(** ** The invariant of the policies *)

(** The index names exactly the channels with a rule of the type; a user has
    at least one channel and no more than allowed; a delivery id is known
    exactly while it is in the window. *)
Record policies_ok (limit : Z) (st : LocalChannelState) : Prop := {
  po_index t target :
    target ∈ default ∅ (lc_type_index st !! t) ↔
    ∃ channel, channel_at target st = Some channel ∧ is_Some (ch_rules channel !! t);
  po_nonempty t ts : lc_type_index st !! t = Some ts → ts ≠ ∅;
  po_users user channels :
    lc_users st !! user = Some channels → 1 ≤ Z.of_nat (size channels) ≤ Z.max 1 limit;
  po_fanout :
    NoDup (fd_ids (lc_delivered_fanout st)) ∧
    fd_known (lc_delivered_fanout st) = list_to_set (fd_ids (lc_delivered_fanout st)) ∧
    zlen (fd_ids (lc_delivered_fanout st)) ≤ FANOUT_DEDUP_LIMIT }.

(** A change that leaves generations, rules, index and window alone. *)
Record same_policies (st st' : LocalChannelState) : Prop := {
  sp_channel target :
    (λ c, (ch_generation c, ch_rules c)) <$> channel_at target st' =
    (λ c, (ch_generation c, ch_rules c)) <$> channel_at target st;
  sp_sizes user : size <$> lc_users st' !! user = size <$> lc_users st !! user;
  sp_index : lc_type_index st' = lc_type_index st;
  sp_codecs : lc_codecs st' = lc_codecs st;
  sp_fanout : lc_delivered_fanout st' = lc_delivered_fanout st }.

#[export] Instance same_policies_preorder : PreOrder same_policies.
Proof.
  split; [by constructor|]. intros st1 st2 st3 [] []. constructor; intros; etrans; eauto.
Qed.

Lemma same_policies_put target channel channel' st :
  channel_at target st = Some channel → ch_generation channel' = ch_generation channel →
  ch_rules channel' = ch_rules channel → same_policies st (put_channel target channel' st).
Proof.
  intros Hc Hg Hr. constructor; try done.
  - intros target'. rewrite channel_at_put. case_decide as Heq; [|done]. subst target'.
    rewrite Hc. cbn. by rewrite Hg, Hr.
  - intros user. cbn. unfold channel_at in Hc.
    destruct (lc_users st !! ct_user target) as [m|] eqn:Hm; [|done]. cbn.
    destruct (decide (user = ct_user target)) as [->|Hne].
    + rewrite lookup_insert_eq, Hm. cbn. f_equal. rewrite map_size_insert_Some; eauto.
    + by rewrite lookup_insert_ne.
Qed.

Lemma policies_ok_same limit st st' : same_policies st st' → policies_ok limit st → policies_ok limit st'.
Proof.
  intros [Hc Hs Hi Hcod Hf] [Hindex Hne Hu Hfan]. constructor.
  - intros t target. rewrite Hi, Hindex. specialize (Hc target).
    destruct (channel_at target st) as [c|], (channel_at target st') as [c'|]; cbn in Hc; simplify_eq.
    + split; intros (? & [= <-] & Hr); eexists; (split; [done|]); congruence.
    + split; by intros (? & ? & ?).
  - intros t ts. rewrite Hi. apply Hne.
  - intros user m Hm. specialize (Hs user). rewrite Hm in Hs. cbn in Hs.
    destruct (lc_users st !! user) as [m0|] eqn:Hm0; [|done]. cbn in Hs. injection Hs as ->. eauto.
  - by rewrite Hf.
Qed.

Lemma ensure_channel_limit_spec target limit st :
  ensure_channel_limit target limit st =
  match lc_users st !! ct_user target with
  | Some m => if bool_decide (is_Some (m !! ct_channel target)) then Ok tt
              else if limit <=? Z.of_nat (size m) then Err (ChannelLimitExceeded limit) else Ok tt
  | None => Ok tt
  end.
Proof. unfold ensure_channel_limit. by destruct (lc_users st !! ct_user target). Qed.

Lemma policies_ok_replace limit target deliveries st :
  ensure_channel_limit target limit st = Ok tt → policies_ok limit st →
  policies_ok limit (replace_policy target deliveries st).
Proof.
  intros Hlim [Hindex Hne Hu Hfan].
  destruct (replace_policy_spec target deliveries st) as
    (channel & Hg & Hl & Hs & Hr & Husers & Hf & Hi & Hne'). constructor.
  - intros t target'. rewrite Hi, Hindex, (channel_at_users _ _ _ Husers), channel_at_put.
    destruct (decide (target' = target)) as [->|Hdiff].
    + rewrite <- last_rule_is_Some. setoid_rewrite <- Hr. naive_solver.
    + naive_solver.
  - exact Hne'.
  - intros user m. rewrite Husers. cbn. rewrite ensure_channel_limit_spec in Hlim.
    destruct (decide (user = ct_user target)) as [->|Hdiff]; [|rewrite lookup_insert_ne by done; apply Hu].
    rewrite lookup_insert_eq. intros [= <-].
    destruct (lc_users st !! ct_user target) as [m0|] eqn:Hm0; cbn.
    + specialize (Hu _ _ Hm0). case_bool_decide as Hin; cbn in Hlim.
      * destruct Hin as [c Hc]. rewrite map_size_insert_Some; eauto.
      * apply eq_None_not_Some in Hin. rewrite map_size_insert_None by done.
        destruct (limit <=? Z.of_nat (size m0)) eqn:Hle; [done|]. lia.
    + rewrite map_size_insert_None by apply lookup_empty. rewrite map_size_empty. lia.
  - by rewrite Hf.
Qed.

Lemma seen_or_insert_ok id d :
  NoDup (fd_ids d) → fd_known d = list_to_set (fd_ids d) → zlen (fd_ids d) ≤ FANOUT_DEDUP_LIMIT →
  let '(seen, d') := seen_or_insert id d in
  seen = bool_decide (id ∈ fd_ids d) ∧
  fd_ids d' = (if seen then fd_ids d
               else drop (Z.to_nat (zlen (fd_ids d) + 1 - FANOUT_DEDUP_LIMIT)) (fd_ids d ++ [id])) ∧
  NoDup (fd_ids d') ∧ fd_known d' = list_to_set (fd_ids d') ∧ zlen (fd_ids d') ≤ FANOUT_DEDUP_LIMIT.
Proof.
  intros Hnd Hk Hlen. unfold seen_or_insert. rewrite Hk.
  destruct (decide (id ∈ fd_ids d)) as [Hin|Hout].
  { rewrite !bool_decide_true by set_solver. done. }
  rewrite !bool_decide_false by set_solver.
  assert (Hnd' : NoDup (fd_ids d ++ [id])).
  { apply NoDup_app. split_and!; [done|set_solver|apply NoDup_singleton]. }
  rewrite zlen_app. change (zlen [id]) with 1.
  destruct (FANOUT_DEDUP_LIMIT <? zlen (fd_ids d) + 1) eqn:Hfull.
  - destruct (fd_ids d ++ [id]) as [|expired ids] eqn:Happ; [by destruct (fd_ids d)|].
    replace (zlen (fd_ids d) + 1 - FANOUT_DEDUP_LIMIT) with 1 by lia. cbn.
    apply NoDup_cons in Hnd' as [Hexp Hnd'].
    assert (Hl : zlen (fd_ids d) + 1 = 1 + zlen ids).
    { change 1 with (zlen [id]) at 1. rewrite <- zlen_app, Happ. unfold zlen. cbn [length]. lia. }
    split_and!; [done|done|done| |lia].
    replace ({[id]} ∪ list_to_set (fd_ids d) : gset Uuid) with (list_to_set (expired :: ids) : gset Uuid).
    + cbn. set_solver.
    + rewrite <- Happ. rewrite list_to_set_app_L. cbn. set_solver.
  - cbn. replace (Z.to_nat (zlen (fd_ids d) + 1 - FANOUT_DEDUP_LIMIT)) with 0%nat by lia. cbn.
    split_and!; [done|done|done| |rewrite zlen_app; change (zlen [id]) with 1; lia].
    rewrite list_to_set_app_L. cbn. set_solver.
Qed.

Lemma policies_ok_fanout limit id st :
  policies_ok limit st →
  policies_ok limit (set_fanout (seen_or_insert id (lc_delivered_fanout st)).2 st).
Proof.
  intros [Hindex Hne Hu (Hnd & Hk & Hlen)].
  pose proof (seen_or_insert_ok id _ Hnd Hk Hlen) as Hs. destruct (seen_or_insert id _) as [seen d'].
  constructor; [done..|]. cbn. naive_solver.
Qed.
