(* ===== verification/ChannelSessions.v ===== *)
(** * What sessions see

    [appended_to] is the history of a channel, [got] what a session received.
    The log is the end of the history; the events received by a session and
    those in its queue continue the history from where the session opened,
    without a gap while the session is attached. *)
From Stdlib Require Import ZifyBool.
From S2P Require Import Prelude Externals Failure Config Models Lifecycle Json Registry Submission CacheKeys.
From S2P Require Import Debounce ChannelTypes Channels ChannelFacts.
#[local] Open Scope Z_scope.

Definition appended_to (target : ChannelTarget) (outs : list Observation) : list ChannelEvent :=
  omap (λ o, match o with
             | Appended t event => if decide (t = target) then Some event else None
             | _ => None
             end) outs.
Definition got (session : SessionId) (outs : list Observation) : list ChannelEvent :=
  omap (λ o, match o with
             | Got id event => if decide (id = session) then Some event else None
             | _ => None
             end) outs.

(** The last [n] of a list. *)
Definition last_of {A} (n : Z) (l : list A) : list A := drop (Z.to_nat (zlen l - n)) l.

Lemma appended_to_app target o1 o2 : appended_to target (o1 ++ o2) = appended_to target o1 ++ appended_to target o2.
Proof. apply omap_app. Qed.
Lemma got_app session o1 o2 : got session (o1 ++ o2) = got session o1 ++ got session o2.
Proof. apply omap_app. Qed.

Lemma last_of_append event limit log :
  0 ≤ limit → log_append event limit (last_of limit log) = last_of limit (log ++ [event]).
Proof.
  intros Hl. unfold log_append, last_of. rewrite zlen_app. change (zlen [event]) with 1.
  destruct (Z.eqb_spec limit 0) as [->|Hne].
  - rewrite !Z.sub_0_r. unfold zlen. rewrite Nat2Z.id, drop_all.
    rewrite drop_ge; [done|]. rewrite length_app. cbn. lia.
  - rewrite zlen_app. change (zlen [event]) with 1. unfold zlen. rewrite length_drop.
    destruct (decide (Z.of_nat (length log) < limit)) as [Hlt|Hge].
    + replace (Z.to_nat (Z.of_nat (length log) - limit)) with 0%nat by lia. rewrite drop_0.
      f_equal. lia.
    + rewrite (drop_app_le log) by lia.
      assert (Hd : length (drop (Z.to_nat (Z.of_nat (length log) - limit)) log) = Z.to_nat limit)
        by (rewrite length_drop; lia).
      rewrite drop_app_le by (rewrite Hd; lia). rewrite drop_drop. f_equal. f_equal. lia.
Qed.

Lemma last_of_length {A} n (l : list A) : 0 ≤ n → zlen (last_of n l) ≤ n.
Proof. intros. unfold last_of, zlen. rewrite length_drop. lia. Qed.

(** What a session has seen of the history since it opened, [rest] being what it missed. *)
Definition session_follows (outs : list Observation) (session : SessionId) (target : ChannelTarget)
    (buffer rest : list ChannelEvent) : Prop :=
  appended_to target outs = got session outs ++ buffer ++ rest.

Record attached_ok (outs : list Observation) (s : ChannelSystem) : Prop := {
  at_lease target channel id :
    channel_at target (cr_state (sy_runtime s)) = Some channel → id ∈ ch_sessions channel →
    sy_leases s !! id = Some target;
  at_queue id target :
    sy_leases s !! id = Some target →
    ∃ q, cr_queues (sy_runtime s) !! id = Some q ∧ sq_receiver q = true ∧
      zlen (sq_buffer q) ≤ session_capacity (cr_conf (sy_runtime s)) ∧
      (sq_sender q = true ↔
       ∃ channel, channel_at target (cr_state (sy_runtime s)) = Some channel ∧ id ∈ ch_sessions channel);
  at_fresh id q : cr_queues (sy_runtime s) !! id = Some q → id < cr_next_session (sy_runtime s);
  at_log target :
    ch_log (channel_or_default target (cr_state (sy_runtime s))) =
    last_of (cc_retention_events (cr_conf (sy_runtime s))) (appended_to target outs);
  at_opened o1 id target after replay o2 :
    outs = o1 ++ Opened id target after replay :: o2 →
    id < cr_next_session (sy_runtime s) ∧
    replay = log_after after (cc_replay_limit (cr_conf (sy_runtime s)))
               (last_of (cc_retention_events (cr_conf (sy_runtime s))) (appended_to target o1)) ∧
    match sy_leases s !! id with
    | Some target' =>
        target' = target ∧
        ∃ q rest, cr_queues (sy_runtime s) !! id = Some q ∧ session_follows o2 id target (sq_buffer q) rest ∧
          (sq_sender q = true → rest = [])
    | None => ∃ rest, session_follows o2 id target [] rest
    end }.

Lemma sessions_of_none outs s target channel id :
  attached_ok outs s → channel_at target (cr_state (sy_runtime s)) = Some channel →
  sy_leases s !! id ≠ Some target → id ∉ ch_sessions channel.
Proof. intros Hok Hc Hl Hin. apply Hl. by eapply at_lease. Qed.

(** ** An event is delivered *)

Lemma deliver_event_spec event target channel r :
  let r' := deliver_event event target channel r in
  ∃ channel',
    ch_generation channel' = ch_generation channel ∧ ch_rules channel' = ch_rules channel ∧
    ch_log channel' = log_append event (cc_retention_events (cr_conf r)) (ch_log channel) ∧
    (∀ id, id ∈ ch_sessions channel' ↔
       id ∈ ch_sessions channel ∧ takes (session_capacity (cr_conf r)) (cr_queues r) id = true) ∧
    cr_state r' = put_channel target channel' (cr_state r) ∧
    (∀ id, cr_queues r' !! id =
       if decide (id ∈ ch_sessions channel)
       then offered (session_capacity (cr_conf r)) event <$> cr_queues r !! id else cr_queues r !! id) ∧
    cr_conf r' = cr_conf r ∧ cr_next_event r' = cr_next_event r ∧ cr_next_session r' = cr_next_session r ∧
    cr_inputs r' = cr_inputs r ∧ cr_phase r' = cr_phase r ∧ cr_streams r' = cr_streams r.
Proof.
  cbn. unfold deliver_event.
  set (c1 := {| ch_generation := _; ch_rules := _; ch_log := log_append _ _ _; ch_sessions := _ |}).
  pose proof (send_live_spec (session_capacity (cr_conf r)) event c1 (cr_queues r)) as Hs.
  destruct (send_live _ _ _ _) as [channel' queues']. destruct Hs as (Hg & Hr & Hl & Hss & Hq).
  exists channel'. by split_and!.
Qed.

Lemma deliver_same_policies event target channel r :
  channel_at target (cr_state r) = Some channel →
  same_policies (cr_state r) (cr_state (deliver_event event target channel r)).
Proof.
  intros Hc. destruct (deliver_event_spec event target channel r) as (c' & Hg & Hr & _ & _ & Hst & _).
  rewrite Hst. by eapply same_policies_put.
Qed.

Lemma appended_one target target' event :
  appended_to target' [Appended target event] = if decide (target = target') then [event] else [].
Proof. unfold appended_to. cbn. by case_decide. Qed.

Lemma app_split_cons {A} (l1 l2 : list A) (o1 : list A) x o2 :
  l1 ++ l2 = o1 ++ x :: o2 →
  (∃ o2', l1 = o1 ++ x :: o2' ∧ o2 = o2' ++ l2) ∨ (∃ o1', o1 = l1 ++ o1' ∧ l2 = o1' ++ x :: o2).
Proof.
  intros Heq. apply app_eq_inv in Heq as [(k & -> & Hk)|(k & -> & ->)]; [|by right; exists k].
  destruct k as [|y k]; cbn in Hk.
  - right. exists []. by rewrite !app_nil_r.
  - injection Hk as <- ->. left. by exists k.
Qed.

(** A step that adds observations of no event keeps what sessions see. *)
Lemma follows_app outs outs' session target buffer rest :
  session_follows outs session target buffer rest → got session outs' = [] →
  session_follows (outs ++ outs') session target buffer (rest ++ appended_to target outs').
Proof.
  unfold session_follows. intros H Hg. rewrite appended_to_app, got_app, Hg, app_nil_r, H. by rewrite <- !app_assoc.
Qed.

Lemma got_appended session target event : got session [Appended target event] = [].
Proof. done. Qed.

Lemma attached_ok_deliver outs s event target channel :
  attached_ok outs s → 0 ≤ cc_retention_events (cr_conf (sy_runtime s)) →
  channel_at target (cr_state (sy_runtime s)) = Some channel →
  attached_ok (outs ++ [Appended target event])
    (set_runtime (deliver_event event target channel (sy_runtime s)) s).
Proof.
  intros Hok Hret Hc.
  destruct (deliver_event_spec event target channel (sy_runtime s)) as
    (c' & _ & _ & Hlog & Hss & Hst & Hq & Hconf & _ & Hns & _).
  assert (Hold : channel_or_default target (cr_state (sy_runtime s)) = channel)
    by (unfold channel_or_default; by rewrite Hc).
  assert (Hin : ∀ id, sy_leases s !! id = Some target →
    takes (session_capacity (cr_conf (sy_runtime s))) (cr_queues (sy_runtime s)) id = true ↔
    ∃ q, cr_queues (sy_runtime s) !! id = Some q ∧
      sendable (session_capacity (cr_conf (sy_runtime s))) q = true).
  { intros id _. unfold takes. destruct (cr_queues (sy_runtime s) !! id); naive_solver. }
  constructor; cbn [sy_runtime sy_leases set_runtime].
  - intros target' channel' id. rewrite Hst, channel_at_put. case_decide as Heq.
    + subst target'. intros [= <-] Hid%Hss. by eapply (at_lease _ _ Hok); [done|apply Hid].
    + apply (at_lease _ _ Hok).
  - intros id target' Hl. destruct (at_queue _ _ Hok id target' Hl) as (q & Hqid & Hr & Hcap & Hiff).
    rewrite (Hq id), Hconf. setoid_rewrite Hst. setoid_rewrite channel_at_put.
    destruct (decide (id ∈ ch_sessions channel)) as [Hid|Hid].
    + assert (target' = target) as -> by (pose proof (at_lease _ _ Hok _ _ _ Hc Hid); congruence).
      rewrite Hqid. cbn. eexists. split; [done|].
      assert (sq_sender q = true) as Hsend by (apply Hiff; eauto).
      unfold offered. destruct (sendable _ q) eqn:Hsendable; cbn.
      * split; [done|]. split.
        { unfold sendable in Hsendable. rewrite zlen_app. change (zlen [event]) with 1. lia. }
        split; [intros _|done]. exists c'. split; [by rewrite decide_True|].
        apply Hss. split; [done|]. apply Hin; eauto.
      * split; [done|]. split; [done|]. split; [done|]. intros (c0 & Hc0 & Hid0).
        rewrite decide_True in Hc0 by done. injection Hc0 as <-. apply Hss in Hid0 as [_ Ht].
        apply Hin in Ht as (q0 & ? & ?); [congruence|done].
    + exists q. split; [done|]. split; [done|]. split; [done|]. rewrite Hiff.
      destruct (decide (target' = target)) as [->|Hne]; [|done].
      split; intros (c0 & Hc0 & Hid0).
      * rewrite Hc in Hc0. by injection Hc0 as <-.
      * injection Hc0 as <-. by apply Hss in Hid0 as [? _].
  - intros id q. rewrite (Hq id), Hns. case_decide; [|apply (at_fresh _ _ Hok)].
    destruct (cr_queues (sy_runtime s) !! id) eqn:Hqid; [|done]. intros _. by eapply (at_fresh _ _ Hok).
  - intros target'. rewrite Hconf, appended_to_app, appended_one.
    rewrite Hst. unfold channel_or_default. rewrite channel_at_put.
    destruct (decide (target = target')) as [<-|Hne].
    + rewrite decide_True by done. cbn. rewrite Hlog.
      rewrite <- last_of_append by done. f_equal. rewrite <- Hold. by apply (at_log _ _ Hok).
    + rewrite decide_False by done. rewrite app_nil_r. apply (at_log _ _ Hok).
  - intros o1 id target' after replay o2 Heq. rewrite Hconf, Hns.
    apply app_split_cons in Heq as [(o2' & -> & ->)|(o1' & -> & Hnil)].
    + destruct (at_opened _ _ Hok _ _ _ _ _ _ eq_refl) as (Hid & Hrep & Hcase).
      split; [done|]. split; [done|].
      destruct (sy_leases s !! id) as [t|] eqn:Hl.
      * destruct Hcase as (-> & q & rest & Hqid & Hf & Hsend). split; [done|].
        destruct (at_queue _ _ Hok id target' Hl) as (q' & Hqid' & _ & _ & Hiff).
        assert (q' = q) as -> by congruence.
        rewrite (Hq id). destruct (decide (id ∈ ch_sessions channel)) as [Hin0|Hout].
        -- assert (target' = target) as -> by (pose proof (at_lease _ _ Hok _ _ _ Hc Hin0); congruence).
           rewrite Hsend in Hf by (apply Hiff; eauto). rewrite Hqid. cbn. unfold offered.
           destruct (sendable _ q).
           ++ eexists _, []. split; [done|]. cbn. split; [|done]. unfold session_follows in *.
              rewrite appended_to_app, got_app, appended_one, decide_True, Hf by done. cbn.
              by rewrite !app_nil_r, <- app_assoc.
           ++ eexists _, _. split; [done|]. cbn. split; [by apply follows_app|done].
        -- exists q. eexists. split; [done|]. split; [by apply follows_app|]. intros Hs.
           rewrite Hsend by done. rewrite appended_one. case_decide; [|done]. subst target'.
           apply Hiff in Hs as (c0 & Hc0 & Hid0). congruence.
      * destruct Hcase as (rest & Hf). exists (rest ++ appended_to target' [Appended target event]).
        by apply follows_app.
    + destruct o1' as [|? [|? ?]]; discriminate Hnil.
Qed.

Lemma append_one_cases event target r :
  append_one event target r =
  match channel_at (dt_channel target) (cr_state r) with
  | Some channel => if reaches r target then deliver_event event (dt_channel target) channel r else r
  | None => r
  end.
Proof.
  unfold append_one, reaches. destruct (channel_at (dt_channel target) (cr_state r)) as [c|]; [|done].
  by destruct (ch_generation c =? dt_generation target).
Qed.

(** What the delivery of an event leaves alone. *)
Record same_work (r r' : ChannelRuntime) : Prop := {
  sw_conf : cr_conf r' = cr_conf r;
  sw_next_event : cr_next_event r' = cr_next_event r;
  sw_next_session : cr_next_session r' = cr_next_session r;
  sw_inputs : cr_inputs r' = cr_inputs r;
  sw_phase : cr_phase r' = cr_phase r;
  sw_streams : cr_streams r' = cr_streams r }.

#[export] Instance same_work_preorder : PreOrder same_work.
Proof. split; [by constructor|]. intros r1 r2 r3 [] []. constructor; congruence. Qed.

Lemma deliver_same_work event target channel r : same_work r (deliver_event event target channel r).
Proof.
  destruct (deliver_event_spec event target channel r) as
    (? & _ & _ & _ & _ & _ & _ & ? & ? & ? & ? & ? & ?). by constructor.
Qed.

Lemma append_one_same_policies event target r :
  same_policies (cr_state r) (cr_state (append_one event target r)) ∧
  same_work r (append_one event target r).
Proof.
  rewrite append_one_cases. destruct (channel_at _ _) as [c|] eqn:Hc; [|done].
  destruct (reaches r target); [|done].
  split; [by apply deliver_same_policies|apply deliver_same_work].
Qed.

Lemma reaches_same r r' target :
  same_policies (cr_state r) (cr_state r') → reaches r' target = reaches r target.
Proof.
  intros Hs. unfold reaches. pose proof (sp_channel _ _ Hs (dt_channel target)) as Hc.
  destruct (channel_at _ (cr_state r')), (channel_at _ (cr_state r)); cbn in Hc; [|done|done|done].
  injection Hc as Hg _. by rewrite Hg.
Qed.

Lemma append_event_same_policies event targets r :
  same_policies (cr_state r) (cr_state (append_event targets event r)) ∧
  same_work r (append_event targets event r).
Proof.
  unfold append_event. revert r. induction targets as [|t targets IH]; intros r; [done|]. cbn.
  destruct (append_one_same_policies event t r) as [Hs Hc]. destruct (IH (append_one event t r)) as [Hs' Hc'].
  split; by etrans.
Qed.

Lemma attached_ok_append outs s event targets :
  attached_ok outs s → 0 ≤ cc_retention_events (cr_conf (sy_runtime s)) →
  attached_ok (outs ++ appended targets event (sy_runtime s))
    (set_runtime (append_event targets event (sy_runtime s)) s).
Proof.
  unfold append_event. revert outs s. induction targets as [|t targets IH]; intros outs s Hok Hret.
  { unfold appended. cbn. rewrite app_nil_r. by destruct s. }
  cbn [foldl].
  destruct (append_one_same_policies event t (sy_runtime s)) as [Hs Hc].
  set (s1 := set_runtime (append_one event t (sy_runtime s)) s).
  assert (Happ : appended (t :: targets) event (sy_runtime s) =
    appended [t] event (sy_runtime s) ++ appended targets event (sy_runtime s1)).
  { unfold appended. cbn. replace (List.filter (reaches (append_one event t (sy_runtime s))) targets)
      with (List.filter (reaches (sy_runtime s)) targets)
      by (apply List.filter_ext; intros; symmetry; by apply reaches_same).
    by destruct (reaches (sy_runtime s) t). }
  rewrite Happ, app_assoc. change (set_runtime ?r s) with (set_runtime r s1).
  apply IH; [|by cbn; rewrite (sw_conf _ _ Hc)]. subst s1. rewrite append_one_cases.
  unfold appended. cbn. destruct (reaches (sy_runtime s) t) eqn:Hr; cbn; unfold reaches in Hr;
    destruct (channel_at (dt_channel t) (cr_state (sy_runtime s))) as [channel|] eqn:Hch; try done.
  - by apply attached_ok_deliver.
  - rewrite app_nil_r. by destruct s.
  - rewrite app_nil_r. by destruct s.
Qed.

(** ** The other operations *)

(** A step that leaves users, queues and leases alone. *)
Lemma attached_ok_frame outs s r' :
  attached_ok outs s → cr_conf r' = cr_conf (sy_runtime s) →
  lc_users (cr_state r') = lc_users (cr_state (sy_runtime s)) →
  cr_queues r' = cr_queues (sy_runtime s) → cr_next_session (sy_runtime s) ≤ cr_next_session r' →
  attached_ok outs (set_runtime r' s).
Proof.
  intros [Hl Hq Hf Hlog Ho] Hc Hu Hqs Hn.
  assert (Hch : ∀ target, channel_at target (cr_state r') = channel_at target (cr_state (sy_runtime s)))
    by (intros; by apply channel_at_users).
  constructor; cbn [sy_runtime sy_leases set_runtime].
  - intros target channel id. rewrite Hch. apply Hl.
  - intros id target Hid. rewrite Hqs, Hc. setoid_rewrite Hch. by apply Hq.
  - intros id q. rewrite Hqs. intros Hid%Hf. lia.
  - intros target. unfold channel_or_default. rewrite Hch, Hc. apply Hlog.
  - intros o1 id target after replay o2 Heq. rewrite Hc, Hqs.
    destruct (Ho _ _ _ _ _ _ Heq) as (Hid & ? & ?). split; [lia|done].
Qed.

Lemma attached_ok_threads outs s s' :
  sy_runtime s' = sy_runtime s → sy_leases s' = sy_leases s → attached_ok outs s → attached_ok outs s'.
Proof.
  intros Hr Hl [H1 H2 H3 H4 H5]. by constructor; rewrite ?Hr, ?Hl.
Qed.

Section Operations.
Context `{Y : Serialization, C : ChannelExternals}.

Lemma open_user_spec user channel_key deliveries after r :
  let target := {| ct_user := user; ct_channel := channel_key |} in
  let id := cr_next_session r in
  match ensure_channel_limit target (cc_max_channels_per_user (cr_conf r)) (cr_state r) with
  | Err e => open_user user channel_key deliveries after r = (Err e, (take_session_id r).2)
  | Ok _ =>
      let old := channel_or_default target (cr_state r) in
      ∃ channel r',
        open_user user channel_key deliveries after r =
          (Ok {| co_replay := log_after (default 0 after) (cc_replay_limit (cr_conf r)) (ch_log old);
                 co_target := target; co_session := id |}, r') ∧
        ch_generation channel = u64_wrapping_add (ch_generation old) 1 ∧
        ch_log channel = ch_log old ∧ ch_sessions channel = {[id]} ∪ ch_sessions old ∧
        (∀ t, ch_rules channel !! t = last_rule deliveries t) ∧
        lc_users (cr_state r') = lc_users (put_channel target channel (cr_state r)) ∧
        cr_queues r' = <[id := {| sq_buffer := []; sq_sender := true; sq_receiver := true |}]> (cr_queues r) ∧
        cr_conf r' = cr_conf r ∧ cr_next_event r' = cr_next_event r ∧
        cr_next_session r' = u64_wrapping_add id 1 ∧ cr_inputs r' = cr_inputs r ∧
        cr_phase r' = cr_phase r ∧ cr_streams r' = cr_streams r ∧
        same_policies (replace_policy target deliveries (cr_state r)) (cr_state r')
  end.
Proof.
  cbn zeta. set (target := {| ct_user := user; ct_channel := channel_key |}).
  unfold open_user. unfold bindM at 1. cbn [take_session_id fst snd]. run_simpl. rewrite bindM_liftR. cbn.
  change {| ct_user := user; ct_channel := channel_key |} with target.
  destruct (ensure_channel_limit target _ (cr_state r)) as [[]|e]; [|done]. run_simpl.
  destruct (replace_policy_spec target deliveries (cr_state r)) as (c & Hg & Hl & Hs & Hr & Hu & _).
  unfold open_session. cbn -[replace_policy].
  assert (Hat : channel_at target (replace_policy target deliveries (cr_state r)) = Some c).
  { rewrite (channel_at_users _ _ _ Hu), channel_at_put. by rewrite decide_True. }
  rewrite Hat.
  exists {| ch_generation := ch_generation c; ch_rules := ch_rules c; ch_log := ch_log c;
            ch_sessions := {[cr_next_session r]} ∪ ch_sessions c |}.
  eexists. split; [by rewrite Hl|]. cbn -[replace_policy]. split_and!; try done.
  - cbn. by rewrite Hs.
  - cbn -[replace_policy]. rewrite Hu. cbn. rewrite !lookup_insert_eq, insert_insert_eq. cbn.
    by rewrite insert_insert_eq, Hl.
  - by eapply same_policies_put.
Qed.

Lemma follows_nil session target : session_follows [] session target [] [].
Proof. done. Qed.

Lemma session_fresh outs s : attached_ok outs s →
  cr_queues (sy_runtime s) !! cr_next_session (sy_runtime s) = None ∧
  sy_leases s !! cr_next_session (sy_runtime s) = None.
Proof.
  intros Hok.
  assert (Hq : cr_queues (sy_runtime s) !! cr_next_session (sy_runtime s) = None).
  { destruct (cr_queues (sy_runtime s) !! _) eqn:Hq; [|done]. apply (at_fresh _ _ Hok) in Hq. lia. }
  split; [done|]. destruct (sy_leases s !! _) as [t|] eqn:Hl; [|done].
  apply (at_queue _ _ Hok) in Hl as (q & Hq' & _). congruence.
Qed.

Lemma attached_ok_open outs s user channel_key deliveries after open r' :
  attached_ok outs s → 0 ≤ cr_next_session (sy_runtime s) < U64_MAX →
  open_user user channel_key deliveries after (sy_runtime s) = (Ok open, r') →
  attached_ok (outs ++ [Opened (co_session open) (co_target open) (default 0 after) (co_replay open)])
    (set_leases (<[co_session open := co_target open]> (sy_leases s)) (set_runtime r' s)).
Proof.
  intros Hok Hid Hopen. destruct (session_fresh _ _ Hok) as [Hqn Hln].
  pose proof (open_user_spec user channel_key deliveries after (sy_runtime s)) as Hs. cbn zeta in Hs.
  destruct (ensure_channel_limit _ _ _) as [[]|e]; [|congruence].
  destruct Hs as (channel & r1 & Heq & _ & Hlog & Hss & _ & Hu & Hq & Hconf & _ & Hns & _).
  rewrite Hopen in Heq. injection Heq as -> ->. cbn [co_session co_target co_replay].
  set (target := {| ct_user := user; ct_channel := channel_key |}) in *.
  set (id := cr_next_session (sy_runtime s)) in *. rewrite u64_wrapping_succ in Hns by lia.
  assert (Hch : ∀ t, channel_at t (cr_state r1) =
    if decide (t = target) then Some channel else channel_at t (cr_state (sy_runtime s))).
  { intros t. rewrite (channel_at_users _ _ _ Hu). apply channel_at_put. }
  assert (Hmem : ∀ i, i ∈ ch_sessions channel ↔
    i = id ∨ ∃ c, channel_at target (cr_state (sy_runtime s)) = Some c ∧ i ∈ ch_sessions c).
  { intros i. rewrite Hss, elem_of_union, elem_of_singleton. unfold channel_or_default.
    destruct (channel_at target _) as [c|]; cbn; [naive_solver|]. rewrite elem_of_empty. naive_solver. }
  constructor; cbn [sy_runtime sy_leases set_runtime set_leases].
  - intros t c i. rewrite Hch. destruct (decide (t = target)) as [->|Hne].
    + intros [= <-] [->|(c0 & Hc & Hi)]%Hmem; [by rewrite lookup_insert_eq|].
      pose proof (at_lease _ _ Hok _ _ _ Hc Hi). rewrite lookup_insert_ne; [done|congruence].
    + intros Hc Hi. pose proof (at_lease _ _ Hok _ _ _ Hc Hi). rewrite lookup_insert_ne; [done|congruence].
  - intros i t. rewrite Hq, Hconf. destruct (decide (i = id)) as [->|Hne].
    + rewrite !lookup_insert_eq. intros [= <-]. eexists. split; [done|]. cbn. split; [done|]. split.
      { unfold session_capacity, zlen. cbn. lia. }
      split; [|done]. intros _. exists channel. rewrite Hch, decide_True by done. split; [done|]. apply Hmem. by left.
    + rewrite !lookup_insert_ne by done. intros Hl.
      destruct (at_queue _ _ Hok i t Hl) as (q & Hqi & Hr & Hcap & Hiff). exists q. split_and!; try done.
      rewrite Hiff. setoid_rewrite Hch. destruct (decide (t = target)) as [->|Hnt]; [|done].
      split; intros (c & Hc & Hi).
      * exists channel. split; [done|]. apply Hmem. right. eauto.
      * injection Hc as <-. apply Hmem in Hi as [?|?]; [done|eauto].
  - intros i q. rewrite Hq, Hns. destruct (decide (i = id)) as [->|Hne]; [lia|].
    rewrite lookup_insert_ne by done. intros Hqi. apply (at_fresh _ _ Hok) in Hqi. lia.
  - intros t. rewrite appended_to_app, Hconf. cbn. rewrite app_nil_r. rewrite <- (at_log _ _ Hok).
    unfold channel_or_default. rewrite Hch. destruct (decide (t = target)) as [->|Hne]; [|done].
    cbn. by rewrite Hlog.
  - intros o1 i t after' replay o2 Heq. rewrite Hconf, Hns, Hq.
    apply app_split_cons in Heq as [(o2' & -> & ->)|(o1' & -> & Hone)].
    + destruct (at_opened _ _ Hok _ _ _ _ _ _ eq_refl) as (Hi & Hrep & Hcase).
      split; [lia|]. split; [done|]. rewrite !lookup_insert_ne by lia.
      destruct (sy_leases s !! i) as [t'|].
      * destruct Hcase as (-> & q & rest & Hqi & Hf & Hsend). split; [done|].
        exists q, rest. split; [done|]. split; [|done]. rewrite <- (app_nil_r rest). by apply follows_app.
      * destruct Hcase as (rest & Hf). exists (rest ++ []). by apply follows_app.
    + destruct o1' as [|? [|? ?]]; [|discriminate Hone..]. injection Hone as <- <- <- <- <-.
      rewrite app_nil_r. split; [lia|]. split; [by rewrite (at_log _ _ Hok)|].
      rewrite !lookup_insert_eq. split; [done|]. eexists _, []. split; [done|]. split; [apply follows_nil|done].
Qed.
End Operations.

Lemma attached_ok_recv outs s session target :
  attached_ok outs s → sy_leases s !! session = Some target →
  let '(res, r') := session_recv session (sy_runtime s) in
  attached_ok (outs ++ match res with Event event => [Got session event] | _ => [] end) (set_runtime r' s).
Proof.
  intros Hok Hl. destruct (at_queue _ _ Hok _ _ Hl) as (q & Hq & Hr & Hcap & Hiff).
  unfold session_recv. rewrite Hq. destruct (sq_buffer q) as [|event buffer] eqn:Hb.
  { replace (match (if sq_sender q then NotYet else Closed) with Event _ => _ | _ => _ end) with (@nil Observation)
      by (by destruct (sq_sender q)). rewrite app_nil_r. by destruct s. }
  assert (Hlook : ∀ i, <[session := {| sq_buffer := buffer; sq_sender := sq_sender q; sq_receiver := sq_receiver q |}]>
      (cr_queues (sy_runtime s)) !! i =
    if decide (i = session) then Some {| sq_buffer := buffer; sq_sender := sq_sender q; sq_receiver := sq_receiver q |}
    else cr_queues (sy_runtime s) !! i).
  { intros i. case_decide; subst; [by rewrite lookup_insert_eq|by rewrite lookup_insert_ne]. }
  constructor; cbn [sy_runtime sy_leases set_runtime set_queues cr_queues cr_state cr_conf cr_next_session].
  - apply (at_lease _ _ Hok).
  - intros i t Hi. rewrite Hlook. case_decide as Heq; [|by apply (at_queue _ _ Hok)]. subst i.
    assert (t = target) as -> by congruence. eexists. split; [done|]. cbn. split; [done|]. split; [|done].
    unfold zlen in *. cbn [length] in *. lia.
  - intros i q'. rewrite Hlook. case_decide; [subst; intros _; by eapply (at_fresh _ _ Hok)|apply (at_fresh _ _ Hok)].
  - intros t. rewrite appended_to_app. cbn. rewrite app_nil_r. apply (at_log _ _ Hok).
  - intros o1 i t after replay o2 Heq.
    apply app_split_cons in Heq as [(o2' & -> & ->)|(o1' & -> & Hnil)];
      [|destruct o1' as [|? [|? ?]]; discriminate Hnil].
    destruct (at_opened _ _ Hok _ _ _ _ _ _ eq_refl) as (Hi & Hrep & Hcase). split; [done|]. split; [done|].
    unfold session_follows. rewrite appended_to_app, got_app, app_nil_r.
    destruct (decide (i = session)) as [->|Hne].
    + rewrite Hl in *. destruct Hcase as (-> & q' & rest & Hq' & Hf & Hsend). split; [done|].
      assert (q' = q) as -> by congruence. rewrite Hlook, decide_True by done.
      eexists _, rest. split; [done|]. cbn. rewrite decide_True by done. split; [|done].
      unfold session_follows in Hf. rewrite Hf, Hb, <- !app_assoc. done.
    + rewrite Hlook, decide_False by done. cbn. rewrite decide_False, app_nil_r by done. exact Hcase.
Qed.

Lemma attached_ok_drop outs s session target :
  attached_ok outs s → sy_leases s !! session = Some target →
  attached_ok outs
    (set_leases (delete session (sy_leases s)) (set_runtime (drop_receiver target session (sy_runtime s)) s)).
Proof.
  intros Hok Hl. set (r' := drop_receiver target session (sy_runtime s)).
  assert (cr_conf r' = cr_conf (sy_runtime s) ∧
                  cr_next_session r' = cr_next_session (sy_runtime s)) as [Hconf Hns].
  { subst r'. unfold drop_receiver, remove_session. by destruct (channel_at _ _). }
  assert (Hch : ∀ t, match channel_at t (cr_state r'), channel_at t (cr_state (sy_runtime s)) with
    | Some c', Some c => ch_log c' = ch_log c ∧ (∀ i, i ∈ ch_sessions c' ↔ i ∈ ch_sessions c ∧ i ≠ session)
    | None, None => True | _, _ => False end).
  { intros t. subst r'. unfold drop_receiver, remove_session. cbn.
    destruct (channel_at target (cr_state (sy_runtime s))) as [c|] eqn:Hc; cbn.
    - rewrite channel_at_put. destruct (decide (t = target)) as [->|Hne].
      + rewrite Hc. cbn. split; [done|]. set_solver.
      + destruct (channel_at t _) as [c0|] eqn:Hc0; [|done]. split; [done|]. intros i. split; [|naive_solver].
        intros Hi. split; [done|]. intros ->. pose proof (at_lease _ _ Hok _ _ _ Hc0 Hi). congruence.
    - destruct (channel_at t _) as [c0|] eqn:Hc0; [|done]. split; [done|]. intros i. split; [|naive_solver].
      intros Hi. split; [done|]. intros ->. pose proof (at_lease _ _ Hok _ _ _ Hc0 Hi). congruence. }
  assert (Hq : ∀ i, i ≠ session → cr_queues r' !! i = cr_queues (sy_runtime s) !! i).
  { intros i Hne. subst r'. unfold drop_receiver, remove_session.
    destruct (channel_at _ _); cbn; rewrite lookup_alter_ne by done; [|done].
    case_bool_decide; [|done]. unfold drop_sender. by rewrite lookup_alter_ne. }
  assert (Hqd : is_Some (cr_queues r' !! session) → is_Some (cr_queues (sy_runtime s) !! session)).
  { destruct (at_queue _ _ Hok _ _ Hl) as (q & -> & _). done. }
  constructor; cbn [sy_runtime sy_leases set_runtime set_leases].
  - intros t c i Hc Hi. specialize (Hch t). rewrite Hc in Hch.
    destruct (channel_at t (cr_state (sy_runtime s))) as [c0|] eqn:Hc0; [|done].
    apply Hch in Hi as [Hi Hne]. rewrite lookup_delete_ne by done. by eapply (at_lease _ _ Hok).
  - intros i t Hi. rewrite lookup_delete_Some in Hi. destruct Hi as [Hne Hi].
    destruct (at_queue _ _ Hok i t Hi) as (q & Hqi & Hr & Hcap & Hiff).
    exists q. rewrite Hq, Hconf by done. split_and!; try done. rewrite Hiff. specialize (Hch t).
    destruct (channel_at t (cr_state r')) as [c'|], (channel_at t (cr_state (sy_runtime s))) as [c|]; try done.
    split; intros (? & [= <-] & Hin); eexists; (split; [done|]).
    + by apply Hch.
    + by apply Hch in Hin as [? _].
  - intros i q. rewrite Hns. destruct (decide (i = session)) as [->|Hne].
    + intros Hi. destruct (Hqd ltac:(eauto)) as [q0 Hq0]. by eapply (at_fresh _ _ Hok).
    + rewrite Hq by done. apply (at_fresh _ _ Hok).
  - intros t. rewrite Hconf, <- (at_log _ _ Hok). unfold channel_or_default. specialize (Hch t).
    destruct (channel_at t (cr_state r')), (channel_at t (cr_state (sy_runtime s))); try done. cbn. apply Hch.
  - intros o1 i t after replay o2 Heq. rewrite Hconf, Hns.
    destruct (at_opened _ _ Hok _ _ _ _ _ _ Heq) as (Hi & Hrep & Hcase). split; [done|]. split; [done|].
    destruct (decide (i = session)) as [->|Hne].
    + rewrite lookup_delete_eq. rewrite Hl in Hcase. destruct Hcase as (-> & q & rest & _ & Hf & _).
      by exists (sq_buffer q ++ rest).
    + rewrite lookup_delete_ne by done. by rewrite Hq.
Qed.
