(* ===== verification/ChannelInvariant.v ===== *)
(** * The invariant of channels

    [authorised] is what a target accepted by a publishing task keeps until the
    event is appended: if its policy is still the one that accepted, the policy
    has a rule that accepts the value. [system_ok] holds of every reachable
    state; there is one lemma per operation. *)
From Stdlib Require Import ZifyBool.
From S2P Require Import Prelude Externals Failure Config Models Lifecycle Json Registry Submission CacheKeys.
From S2P Require Import Debounce ChannelTypes Channels ChannelFacts ChannelSessions.
#[local] Open Scope Z_scope.

Section Invariant.
Context `{Y : Serialization, C : ChannelExternals}.

(** [data] is what [v], a value of type [t], is on the wire. *)
Definition wire (v : Payload) (t : TypeId) (data : Json) : Prop :=
  pl_type v = t ∧ pl_value v = Ok data ∨ from_value t data = Ok v.

(** The rule of [t] in a policy accepts a value [data] stands for. *)
Definition rule_accepts (channel : ChannelState) (t : TypeId) (data : Json) : Prop :=
  ∃ rule v, ch_rules channel !! t = Some rule ∧ dr_predicate rule v = true ∧ wire v t data.

Definition authorised (st : LocalChannelState) (target : DeliveryTarget) (t : TypeId) (data : Json) : Prop :=
  ∃ channel, channel_at (dt_channel target) st = Some channel ∧
    dt_generation target ≤ ch_generation channel ∧
    (ch_generation channel = dt_generation target → rule_accepts channel t data).

Definition spec_ok (d : DeliverySpec) : Prop := dl_decoder d = decode_signal (dl_type_id d).
Definition codec_ok (c : SignalCodec) : Prop := sc_decoder c = decode_signal (sc_type c).

Definition thread_ok (st : LocalChannelState) (p : Publishing) : Prop :=
  match p with
  | PubEnqueue rest immediate t payload =>
      Forall (λ a, authorised st (ac_target a) t (pp_data payload)) rest ∧
      Forall (λ d, authorised st d t (pp_data payload)) immediate
  | PubNumber immediate payload => ∃ t, Forall (λ d, authorised st d t (pp_data payload)) immediate
  | PubAppend immediate event => ∃ t, Forall (λ d, authorised st d t (ev_data event)) immediate
  | PubFanout _ codec => codec_ok codec
  end.

Definition input_ok (st : LocalChannelState) (key : DebounceKey) (payload : PendingPayload) : Prop :=
  authorised st (dk_target key) (dk_type key) (pp_data payload).

Record work_ok (st : LocalChannelState) (threads : list Publishing) (inputs : list DebounceInput)
    (streams : Streams DebounceKey PendingPayload) : Prop := {
  wk_threads : Forall (thread_ok st) threads;
  wk_inputs : Forall (λ i, input_ok st (di_key i) (di_payload i)) inputs;
  wk_streams key d payload :
    ss_states streams !! key = Some d → db_pending d = Some payload → input_ok st key payload }.

Definition generations_ok (n : Z) (st : LocalChannelState) : Prop :=
  ∀ target channel, channel_at target st = Some channel → 0 ≤ ch_generation channel ≤ n.

Definition codecs_ok (st : LocalChannelState) : Prop :=
  ∀ key codec, lc_codecs st !! key = Some codec → codec_ok codec.

Record system_ok (conf : ChannelConf) (n : Z) (outs : list Observation) (s : ChannelSystem) : Prop := {
  sk_conf : cr_conf (sy_runtime s) = conf;
  sk_policies : policies_ok (cc_max_channels_per_user conf) (cr_state (sy_runtime s));
  sk_attached : attached_ok outs s;
  sk_next : 0 ≤ cr_next_session (sy_runtime s) ≤ n + 1;
  sk_generations : generations_ok n (cr_state (sy_runtime s));
  sk_codecs : codecs_ok (cr_state (sy_runtime s));
  sk_inputs : zlen (cr_inputs (sy_runtime s)) ≤ debounce_capacity conf;
  sk_work : work_ok (cr_state (sy_runtime s)) (sy_threads s) (cr_inputs (sy_runtime s))
              (cr_streams (sy_runtime s)) }.

(** ** Authorisation outlives everything but a new policy *)

Lemma authorised_same st st' target t data :
  same_policies st st' → authorised st target t data → authorised st' target t data.
Proof.
  intros Hs (channel & Hc & Hle & Hacc). pose proof (sp_channel _ _ Hs (dt_channel target)) as Heq.
  rewrite Hc in Heq. cbn in Heq. apply fmap_Some in Heq as (channel' & Hc' & Heq).
  injection Heq as Hg Hr. exists channel'. split; [done|]. rewrite <- Hg. split; [done|].
  intros H. destruct (Hacc H) as (rule & v & ? & ? & ?). exists rule, v. by rewrite <- Hr.
Qed.

Lemma authorised_replace n target deliveries st target' t data :
  generations_ok n st → n < U64_MAX → authorised st target' t data →
  authorised (replace_policy target deliveries st) target' t data.
Proof.
  intros Hgen Hn (channel & Hc & Hle & Hacc).
  destruct (replace_policy_spec target deliveries st) as (c & Hg & _ & _ & _ & Hu & _).
  unfold authorised. rewrite (channel_at_users _ _ _ Hu), channel_at_put.
  case_decide as Heq; [|by exists channel]. subst target. exists c. split; [done|].
  unfold channel_or_default in Hg. rewrite Hc in Hg. cbn in Hg. pose proof (Hgen _ _ Hc).
  rewrite u64_wrapping_succ in Hg by lia. split; [lia|]. intros. lia.
Qed.

Lemma thread_ok_mono st st' p :
  (∀ target t data, authorised st target t data → authorised st' target t data) →
  thread_ok st p → thread_ok st' p.
Proof.
  intros H. destruct p; cbn; [|intros (t & Ht); exists t..|done].
  - intros [H1 H2]. split; eapply Forall_impl; naive_solver.
  - eapply Forall_impl; naive_solver.
  - eapply Forall_impl; naive_solver.
Qed.

Lemma work_ok_mono st st' threads inputs streams :
  (∀ target t data, authorised st target t data → authorised st' target t data) →
  work_ok st threads inputs streams → work_ok st' threads inputs streams.
Proof.
  intros H [Ht Hi Hs]. constructor.
  - eapply Forall_impl; [exact Ht|]. intros p. by apply thread_ok_mono.
  - eapply Forall_impl; [exact Hi|]. intros i. apply H.
  - intros key d payload Hk Hp. apply H. by eapply Hs.
Qed.

Lemma generations_ok_same n st st' : same_policies st st' → generations_ok n st → generations_ok n st'.
Proof.
  intros Hs Hg target channel Hc. pose proof (sp_channel _ _ Hs target) as Heq. rewrite Hc in Heq.
  cbn in Heq. symmetry in Heq. apply fmap_Some in Heq as (c & Hc' & [= -> _]). by eapply Hg.
Qed.

Lemma generations_ok_replace n target deliveries st :
  generations_ok n st → 0 ≤ n < U64_MAX → generations_ok (n + 1) (replace_policy target deliveries st).
Proof.
  intros Hg Hn target' channel.
  destruct (replace_policy_spec target deliveries st) as (c & Hgen & _ & _ & _ & Hu & _).
  rewrite (channel_at_users _ _ _ Hu), channel_at_put. case_decide as Heq.
  - subst target'. intros [= <-]. rewrite Hgen. unfold channel_or_default.
    destruct (channel_at target st) as [c0|] eqn:Hc0; cbn.
    + pose proof (Hg _ _ Hc0). rewrite u64_wrapping_succ by lia. lia.
    + rewrite u64_wrapping_succ by lia. lia.
  - intros Hc. specialize (Hg _ _ Hc). lia.
Qed.

Lemma codecs_ok_replace target deliveries st :
  Forall spec_ok deliveries → codecs_ok st → codecs_ok (replace_policy target deliveries st).
Proof.
  intros Hd Hc. unfold replace_policy.
  set (channel := {| ch_generation := _; ch_rules := ∅; ch_log := _; ch_sessions := _ |}).
  clearbody channel.
  assert (Hst : codecs_ok (remove_indexes target st)) by done.
  revert channel Hst. generalize (remove_indexes target st) as st0.
  induction Hd as [|d deliveries Hd0 Hd IH]; intros st0 channel Hst; cbn; [done|].
  apply IH. intros key codec. cbn. destruct (decide (key = dl_signal_key d)) as [->|Hne].
  - rewrite lookup_insert_eq. by intros [= <-].
  - rewrite lookup_insert_ne by done. apply Hst.
Qed.

(** ** Candidates are authorised *)

Lemma candidates_authorised t value attached st data :
  wire value t data → Forall (λ a, authorised st (ac_target a) t data) (candidates_any t value attached st).
Proof.
  intros Hw. apply Forall_forall. intros a. unfold candidates_any.
  rewrite list_elem_of_omap. intros ([target rule] & Hin & Hp).
  cbn in Hp. destruct (dr_predicate rule value) eqn:Hpred; [|done]. injection Hp as <-. cbn.
  unfold delivery_candidates in Hin. destruct (lc_type_index st !! t) as [targets|]; [|by apply elem_of_nil in Hin].
  apply list_elem_of_omap in Hin as (tgt & _ & Hrule). unfold channel_rule in Hrule.
  destruct (channel_at tgt st) as [channel|] eqn:Hc; [|done].
  destruct (attached && _); [done|]. destruct (ch_rules channel !! t) as [rule'|] eqn:Hr; [|done].
  injection Hrule as <- <-. exists channel. split; [done|]. cbn. split; [lia|]. intros _.
  by exists rule', value.
Qed.

Lemma immediate_authorised st t data accepted :
  Forall (λ a, authorised st (ac_target a) t data) accepted →
  Forall (λ d, authorised st d t data) (immediate_targets accepted).
Proof.
  intros H. apply Forall_forall. intros d. unfold immediate_targets. rewrite list_elem_of_omap.
  intros (a & Ha & Hd). destruct (ac_debounce a); [done|]. injection Hd as <-.
  rewrite Forall_forall in H. by apply H.
Qed.

Lemma pub_begin_ok st p :
  Forall (λ a, authorised st (ac_target a) (pr_type p) (pr_data p)) (pr_accepted p) →
  thread_ok st (pub_begin p).
Proof. intros H. split; cbn; [done|by apply immediate_authorised]. Qed.

Lemma prepare_signal_ok value r p :
  prepare_signal value r = Ok (Some p) → thread_ok (cr_state r) (pub_begin p).
Proof.
  unfold prepare_signal. destruct (candidates_any _ _ _ _) as [|a l] eqn:Hc; [done|]. rewrite <- Hc.
  intros (data & Hd & H)%result_bind_ok. apply result_bind_ok in H as (u & _ & [= <-]).
  apply pub_begin_ok, candidates_authorised. cbn. left. split; [done|].
  unfold serialized in Hd. by destruct (pl_value value); simplify_eq.
Qed.

Lemma prepare_box_ok value r p :
  prepare_box value r = Ok (Some p) → thread_ok (cr_state r) (pub_begin p).
Proof.
  unfold prepare_box. destruct (candidates_any _ _ _ _) as [|a l] eqn:Hc; [done|]. rewrite <- Hc.
  intros (json & Hj & H)%result_bind_ok. apply result_bind_ok in H as (data & Hd & H).
  apply result_bind_ok in H as (u & _ & H). apply result_bind_ok in H as (t & _ & [= <-]).
  apply pub_begin_ok, candidates_authorised. cbn. left. split; [done|].
  apply ok_or_ok in Hj. unfold to_json in Hj. destruct (pl_wire value); [|done]. injection Hj as <-.
  unfold serialized in Hd. by destruct (pl_value value); simplify_eq.
Qed.

Lemma prepare_fanout_ok envelope codec r p :
  codec_ok codec → prepare_fanout envelope codec r = Ok (Some p) → thread_ok (cr_state r) (pub_begin p).
Proof.
  intros Hcodec. unfold prepare_fanout. intros (payload & _ & H)%result_bind_ok.
  apply result_bind_ok in H as (value & Hv & H).
  destruct (candidates_any _ _ _ _) as [|a l] eqn:Hc; [done|]. rewrite <- Hc in H.
  apply result_bind_ok in H as (u & _ & [= <-]).
  apply pub_begin_ok, candidates_authorised. cbn. right. rewrite Hcodec in Hv. unfold decode_signal in Hv.
  by destruct (from_value _ payload); simplify_eq.
Qed.

(** ** The debounced payloads *)

Lemma push_pending {T} now (v : T) d x :
  db_pending (debounce_push now v d).2 = Some x → x = v ∨ db_pending d = Some x.
Proof.
  unfold debounce_push, push_leading, push_trailing, push_both.
  destruct (dc_mode (db_conf d)); [destruct (db_active d)|..|destruct (db_active d)]; cbn; naive_solver.
Qed.

Lemma due_pending {T} g (d : Debouncer T) x :
  ((debounce_due g d).1 = Some x → db_pending d = Some x) ∧
  (db_pending (debounce_due g d).2 = Some x → db_pending d = Some x).
Proof.
  unfold debounce_due, finish_both, debounce_reset. destruct (negb _); [done|].
  by destruct (dc_mode (db_conf d)), (db_saw_extra d); cbn; split.
Qed.

Lemma work_ok_push st threads input inputs streams now conf :
  work_ok st threads (input :: inputs) streams →
  work_ok st threads inputs (stream_push now (di_key input) conf (di_payload input) streams).2.
Proof.
  intros [Ht Hi Hs]. apply Forall_cons in Hi as [Hin Hi]. constructor; [done..|].
  intros key d payload Hk Hp. unfold stream_push in Hk.
  set (d0 := default (debouncer_new _ conf) (ss_states streams !! di_key input)) in *.
  pose proof (push_pending now (di_payload input) d0 payload) as Hpend.
  destruct (debounce_push now (di_payload input) d0) as [push d']. cbn in *.
  destruct (decide (key = di_key input)) as [->|Hne].
  - rewrite lookup_insert_eq in Hk. injection Hk as <-. destruct (Hpend Hp) as [->|Hold]; [done|].
    subst d0. destruct (ss_states streams !! di_key input) as [d1|] eqn:Hd1; cbn in Hold; [|done]. by eapply Hs.
  - rewrite lookup_insert_ne in Hk by done. by eapply Hs.
Qed.

Lemma work_ok_pop st threads inputs streams now pick entry out streams' :
  work_ok st threads inputs streams → stream_pop now pick streams = Some (entry, out, streams') →
  work_ok st threads inputs streams' ∧ ∀ payload, out = Some payload → input_ok st entry.1 payload.
Proof.
  intros [Ht Hi Hs]. unfold stream_pop. destruct (queue_pop _ _ _) as [[e heap]|]; [|done].
  unfold stream_due. cbn. destruct (ss_states streams !! e.1) as [d|] eqn:Hd.
  - destruct (debounce_due (dd_generation e.2) d) as [v d'] eqn:Hdue. intros [= <- <- <-]. split.
    + constructor; [done..|]. intros key d1 payload Hk Hp. cbn in Hk.
      destruct (decide (key = e.1)) as [->|Hne].
      * rewrite lookup_insert_eq in Hk. injection Hk as <-. eapply Hs; [done|].
        apply (proj2 (due_pending (dd_generation e.2) d payload)). by rewrite Hdue.
      * rewrite lookup_insert_ne in Hk by done. by eapply Hs.
    + intros payload ->. eapply Hs; [done|]. apply (proj1 (due_pending (dd_generation e.2) d payload)).
      by rewrite Hdue.
  - intros [= <- <- <-]. split; [|done]. constructor; done.
Qed.

(** ** One lemma per label *)

(** A step that changes neither users, queues nor leases. *)
Lemma system_ok_work conf n outs s s' :
  system_ok conf n outs s →
  cr_conf (sy_runtime s') = cr_conf (sy_runtime s) →
  cr_state (sy_runtime s') = cr_state (sy_runtime s) →
  cr_queues (sy_runtime s') = cr_queues (sy_runtime s) →
  cr_next_session (sy_runtime s') = cr_next_session (sy_runtime s) →
  sy_leases s' = sy_leases s →
  zlen (cr_inputs (sy_runtime s')) ≤ debounce_capacity conf →
  work_ok (cr_state (sy_runtime s)) (sy_threads s') (cr_inputs (sy_runtime s')) (cr_streams (sy_runtime s')) →
  system_ok conf (n + 1) outs s'.
Proof.
  intros [Hc Hp Ha Hn Hg Hcod Hi Hw] Hconf Hst Hq Hns Hl Hi' Hw'. constructor; rewrite ?Hconf, ?Hst; try done.
  - apply (attached_ok_threads _ (set_runtime (sy_runtime s') s)); [done|by rewrite Hl|].
    apply attached_ok_frame; [done..|by rewrite Hst|done|lia].
  - lia.
  - intros target channel Hch. specialize (Hg _ _ Hch). lia.
Qed.

(** A step that keeps the policies. *)
Lemma system_ok_same conf n outs s outs' s' :
  system_ok conf n outs s → attached_ok outs' s' →
  cr_conf (sy_runtime s') = cr_conf (sy_runtime s) →
  same_policies (cr_state (sy_runtime s)) (cr_state (sy_runtime s')) →
  cr_next_session (sy_runtime s') = cr_next_session (sy_runtime s) →
  zlen (cr_inputs (sy_runtime s')) ≤ debounce_capacity conf →
  work_ok (cr_state (sy_runtime s)) (sy_threads s') (cr_inputs (sy_runtime s')) (cr_streams (sy_runtime s')) →
  system_ok conf (n + 1) outs' s'.
Proof.
  intros [Hc Hp Ha Hn Hg Hcod Hi Hw] Hat Hconf Hs Hns Hi' Hw'. constructor; rewrite ?Hconf; try done.
  - by eapply policies_ok_same.
  - lia.
  - apply (generations_ok_same _ _ _ Hs). intros target channel Hch. specialize (Hg _ _ Hch). lia.
  - intros key codec. rewrite (sp_codecs _ _ Hs). apply Hcod.
  - eapply work_ok_mono; [|exact Hw']. intros target t data. by apply authorised_same.
Qed.

Lemma threads_add st threads p : Forall (thread_ok st) threads → from_option (thread_ok st) True p →
  Forall (thread_ok st) (threads ++ match p with Some p => [p] | None => [] end).
Proof. intros Ht Hp. apply Forall_app. split; [done|]. destruct p; by repeat constructor. Qed.

Lemma threads_set st threads i p : Forall (thread_ok st) threads → from_option (thread_ok st) True p →
  Forall (thread_ok st) match p with Some p => <[i := p]> threads | None => delete i threads end.
Proof.
  intros Ht Hp. destruct p as [p|]; cbn in Hp.
  - by apply Forall_insert.
  - by apply Forall_delete.
Qed.

Lemma system_ok_start conf n outs s (prepared : result ChannelError (option Prepared)) :
  system_ok conf n outs s →
  (∀ p, prepared = Ok (Some p) → thread_ok (cr_state (sy_runtime s)) (pub_begin p)) →
  system_ok conf (n + 1) outs (add_thread (started prepared) s).
Proof.
  intros Hok Hp. destruct (sk_work _ _ _ _ Hok) as [Ht Hi Hs].
  apply (system_ok_work _ _ _ s); try done; [apply (sk_inputs _ _ _ _ Hok)|]. constructor; [|done..].
  apply threads_add; [done|]. destruct prepared as [[p|]|]; [by apply Hp|done..].
Qed.

Lemma enqueue_accepted_ok conf t payload a r res r' st threads :
  enqueue_accepted t payload a r = (res, r') → cr_conf r = conf →
  authorised st (ac_target a) t (pp_data payload) →
  zlen (cr_inputs r) ≤ debounce_capacity conf → work_ok st threads (cr_inputs r) (cr_streams r) →
  cr_conf r' = conf ∧ cr_state r' = cr_state r ∧ cr_queues r' = cr_queues r ∧
  cr_next_session r' = cr_next_session r ∧
  zlen (cr_inputs r') ≤ debounce_capacity conf ∧ work_ok st threads (cr_inputs r') (cr_streams r').
Proof.
  intros Heq <- Ha Hlen Hw. unfold enqueue_accepted in Heq.
  destruct (ac_debounce a) as [window|]; [|by injection Heq as _ <-].
  unfold enqueue_debounce in Heq. destruct (cr_phase r); [| |by injection Heq as _ <-].
  all: destruct (debounce_capacity (cr_conf r) <=? zlen (cr_inputs r)) eqn:Hfull; injection Heq as _ <-; [done|].
  all: split_and!; try done; cbn; [rewrite zlen_app; change (zlen [_]) with 1; lia|].
  all: destruct Hw as [Ht Hi Hs]; constructor; [done| |done].
  all: apply Forall_app; split; [done|]; by repeat constructor.
Qed.

Lemma system_ok_thread conf n outs s i now p :
  system_ok conf n outs s → 0 ≤ cc_retention_events conf → sy_threads s !! i = Some p →
  let '(next, r') := pub_step now p (sy_runtime s) in
  system_ok conf (n + 1) (outs ++ pub_observed p (sy_runtime s)) (set_thread i next (set_runtime r' s)).
Proof.
  intros Hok Hret Hp. pose proof (sk_work _ _ _ _ Hok) as Hwork. pose proof (wk_threads _ _ _ _ Hwork) as Ht.
  pose proof (Forall_lookup_1 _ _ _ _ Ht Hp) as Hthread.
  assert (Hquiet : ∀ next r', cr_conf r' = conf → cr_state r' = cr_state (sy_runtime s) →
    cr_queues r' = cr_queues (sy_runtime s) → cr_next_session r' = cr_next_session (sy_runtime s) →
    zlen (cr_inputs r') ≤ debounce_capacity conf →
    work_ok (cr_state (sy_runtime s)) (sy_threads s) (cr_inputs r') (cr_streams r') →
    from_option (thread_ok (cr_state (sy_runtime s))) True next →
    system_ok conf (n + 1) (outs ++ []) (set_thread i next (set_runtime r' s))).
  { intros next r' Hc Hst Hq Hns Hlen Hw Hnext. rewrite app_nil_r.
    apply (system_ok_work _ _ _ s); try done; [by rewrite (sk_conf _ _ _ _ Hok)|].
    destruct Hw as [Hw1 Hw2 Hw3]. constructor; [by apply threads_set|done..]. }
  destruct p as [[|a rest] immediate t payload|immediate payload|immediate event|envelope codec];
    cbn [pub_step pub_observed].
  - apply Hquiet; try done; [apply (sk_conf _ _ _ _ Hok)|apply (sk_inputs _ _ _ _ Hok)|].
    destruct Hthread as [_ Himm]. destruct immediate; [done|]. by exists t.
  - destruct Hthread as [Hrest Himm]. apply Forall_cons in Hrest as [Ha Hrest].
    destruct (enqueue_accepted t payload a (sy_runtime s)) as [res r'] eqn:Henq.
    destruct (enqueue_accepted_ok conf _ _ _ _ _ _ _ _ Henq (sk_conf _ _ _ _ Hok) Ha (sk_inputs _ _ _ _ Hok) Hwork)
      as (? & ? & ? & ? & ? & ?).
    destruct res; apply Hquiet; try done.
  - apply Hquiet; try done; [apply (sk_conf _ _ _ _ Hok)|apply (sk_inputs _ _ _ _ Hok)].
  - destruct (append_event_same_policies event immediate (sy_runtime s)) as [Hsame [Hconf _ Hns Hin _ Hstr]].
    apply (system_ok_same _ n outs s); cbn [sy_runtime set_thread set_runtime]; try done.
    + eapply attached_ok_threads; [..|apply (attached_ok_append outs s event immediate)]; try done.
      * apply (sk_attached _ _ _ _ Hok).
      * by rewrite (sk_conf _ _ _ _ Hok).
    + rewrite Hin. apply (sk_inputs _ _ _ _ Hok).
    + rewrite Hin, Hstr. destruct Hwork as [Hw1 Hw2 Hw3]. constructor; [by apply (threads_set _ _ _ None)|done..].
  - apply Hquiet; try done; [apply (sk_conf _ _ _ _ Hok)|apply (sk_inputs _ _ _ _ Hok)|].
    destruct (prepare_fanout envelope codec (sy_runtime s)) as [[q|]|] eqn:Hprep; [|done..].
    by apply (prepare_fanout_ok envelope codec).
Qed.

Lemma set_fanout_same_users v st target : channel_at target (set_fanout v st) = channel_at target st.
Proof. done. Qed.

Lemma system_ok_envelope conf n outs s envelope :
  system_ok conf n outs s →
  let '(res, r') := fanout_codec envelope (sy_runtime s) in
  system_ok conf (n + 1) outs (set_runtime r' s) ∧
  ∀ codec, res = Ok (Some codec) → codec_ok codec.
Proof.
  intros [Hc Hp Ha Hn Hg Hcod Hi [Ht Hin Hs]]. unfold fanout_codec.
  pose proof (policies_ok_fanout _ (fe_delivery_id envelope) _ Hp) as Hp'.
  destruct (seen_or_insert (fe_delivery_id envelope) _) as [seen fanout]. cbn in Hp'. split.
  - constructor; cbn [sy_runtime set_runtime]; try done.
    + by apply attached_ok_frame.
    + cbn. lia.
    + intros target channel Hch. specialize (Hg target channel Hch). lia.
  - intros codec. cbn. destruct seen; [done|]. intros [= Hk]. by eapply Hcod.
Qed.

Lemma system_ok_open conf n outs s user channel_key deliveries after :
  system_ok conf n outs s → 0 ≤ n → n + 1 < U64_MAX → Forall spec_ok deliveries →
  match open_user user channel_key deliveries after (sy_runtime s) with
  | (Ok open, r') =>
      system_ok conf (n + 1)
        (outs ++ [Opened (co_session open) (co_target open) (default 0 after) (co_replay open)])
        (set_leases (<[co_session open := co_target open]> (sy_leases s)) (set_runtime r' s))
  | (Err _, r') => system_ok conf (n + 1) outs (set_runtime r' s)
  end.
Proof.
  intros Hok Hn Hmax Hspec. pose proof Hok as [Hc Hp Ha Hnext Hg Hcod Hi Hw].
  pose proof (open_user_spec user channel_key deliveries after (sy_runtime s)) as Hs. cbn zeta in Hs.
  destruct (ensure_channel_limit _ _ _) as [[]|e] eqn:Hlim.
  - destruct Hs as (channel & r' & Heq & _ & _ & _ & _ & _ & _ & Hconf & _ & Hns & Hin & _ & Hstr & Hsame).
    pose proof (attached_ok_open outs s user channel_key deliveries after _ r' Ha ltac:(lia) Heq) as Hat.
    rewrite Heq. rewrite u64_wrapping_succ in Hns by lia. rewrite Hc in Hlim.
    constructor; cbn [sy_runtime set_runtime set_leases sy_threads]; [by rewrite Hconf|..|by rewrite Hin|].
    + eapply policies_ok_same; [exact Hsame|]. by apply policies_ok_replace.
    + exact Hat.
    + lia.
    + apply (generations_ok_same _ _ _ Hsame), generations_ok_replace; [done|lia].
    + intros key codec. rewrite (sp_codecs _ _ Hsame). by apply codecs_ok_replace.
    + rewrite Hin, Hstr. eapply work_ok_mono; [|exact Hw]. intros target t data Hauth.
      eapply authorised_same; [exact Hsame|]. eapply authorised_replace; [done|lia|done].
  - rewrite Hs. constructor; cbn [sy_runtime set_runtime]; try done.
    + apply attached_ok_frame; try done. cbn. rewrite u64_wrapping_succ by lia. lia.
    + cbn. rewrite u64_wrapping_succ by lia. lia.
    + intros target channel Hch. specialize (Hg target channel Hch). lia.
Qed.

Lemma system_ok_drop conf n outs s session target :
  system_ok conf n outs s → sy_leases s !! session = Some target →
  system_ok conf (n + 1) outs
    (set_leases (delete session (sy_leases s)) (set_runtime (drop_receiver target session (sy_runtime s)) s)).
Proof.
  intros Hok Hl. pose proof (attached_ok_drop _ _ _ _ (sk_attached _ _ _ _ Hok) Hl) as Hat.
  apply (system_ok_same _ _ _ _ _ _ Hok Hat); unfold drop_receiver, remove_session; cbn;
    destruct (channel_at target (cr_state (sy_runtime s))) as [c|] eqn:Hc; cbn; try done;
    try apply (sk_inputs _ _ _ _ Hok); try apply (sk_work _ _ _ _ Hok).
  by eapply same_policies_put.
Qed.

Lemma system_ok_recv conf n outs s session target :
  system_ok conf n outs s → sy_leases s !! session = Some target →
  let '(res, r') := session_recv session (sy_runtime s) in
  system_ok conf (n + 1) (outs ++ match res with Event event => [Got session event] | _ => [] end)
    (set_runtime r' s).
Proof.
  intros Hok Hl. pose proof (attached_ok_recv _ _ _ _ (sk_attached _ _ _ _ Hok) Hl) as Hat.
  destruct (session_recv session (sy_runtime s)) as [res r'] eqn:Hrecv.
  assert (cr_conf r' = cr_conf (sy_runtime s) ∧ cr_state r' = cr_state (sy_runtime s) ∧
    cr_next_session r' = cr_next_session (sy_runtime s) ∧ cr_inputs r' = cr_inputs (sy_runtime s) ∧
    cr_streams r' = cr_streams (sy_runtime s)) as (H1 & H2 & H3 & H4 & H5).
  { unfold session_recv in Hrecv. destruct (cr_queues _ !! session) as [q|]; [|by injection Hrecv as _ <-].
    destruct (sq_buffer q); by injection Hrecv as _ <-. }
  apply (system_ok_same _ _ _ _ _ _ Hok Hat); cbn [sy_runtime set_runtime sy_threads]; try done.
  - by rewrite H2.
  - rewrite H4. apply (sk_inputs _ _ _ _ Hok).
  - rewrite H4, H5. apply (sk_work _ _ _ _ Hok).
Qed.

Lemma take_event_id_ok conf n outs s :
  system_ok conf n outs s →
  system_ok conf n outs (set_runtime (take_event_id (sy_runtime s)).2 s).
Proof.
  intros [Hc Hp Ha Hn Hg Hcod Hi Hw]. constructor; try done. by apply attached_ok_frame.
Qed.

Lemma system_ok_due conf n outs s at_ pick now r' :
  system_ok conf n outs s → 0 ≤ cc_retention_events conf →
  run_debounce_due at_ pick now (sy_runtime s) = Some r' →
  system_ok conf (n + 1) (outs ++ due_observed at_ pick now (sy_runtime s)) (set_runtime r' s).
Proof.
  intros Hok Hret. unfold run_debounce_due, due_observed.
  destruct (cr_phase (sy_runtime s)); [done| |done].
  destruct (stream_pop at_ pick (cr_streams (sy_runtime s))) as [[[entry out] streams]|] eqn:Hpop; [|done].
  destruct (work_ok_pop _ _ _ _ _ _ _ _ _ (sk_work _ _ _ _ Hok) Hpop) as [Hw _].
  set (s1 := set_runtime (set_streams streams (sy_runtime s)) s).
  assert (Hok1 : attached_ok outs s1) by (apply attached_ok_frame; [apply (sk_attached _ _ _ _ Hok)|done..]).
  assert (Hquiet : system_ok conf (n + 1) (outs ++ []) s1).
  { rewrite app_nil_r. apply (system_ok_same _ _ _ _ _ _ Hok Hok1); try done. apply (sk_inputs _ _ _ _ Hok). }
  intros [= <-]. destruct out as [payload|]; [|done]. unfold deliver_debounced.
  change (cr_state (set_streams streams (sy_runtime s))) with (cr_state (sy_runtime s)).
  destruct (channel_at _ _) as [channel|] eqn:Hc; [|done].
  destruct (still_debounced entry.1 channel); [|done]. cbn [take_event_id].
  set (r2 := {| cr_conf := _ |}). set (event := channel_event_new _ _ _ _).
  assert (Hok2 : attached_ok outs (set_runtime r2 s)) by (apply (attached_ok_frame _ s1); done).
  destruct (deliver_same_work event (dt_channel (dk_target entry.1)) channel r2) as [Hconf _ Hns Hin _ Hstr].
  apply (system_ok_same _ _ _ _ _ _ Hok).
  - apply (attached_ok_deliver _ (set_runtime r2 s)); [done|by cbn; rewrite (sk_conf _ _ _ _ Hok)|done].
  - done.
  - by apply (deliver_same_policies event _ channel r2).
  - done.
  - cbn [sy_runtime set_runtime]. rewrite Hin. apply (sk_inputs _ _ _ _ Hok).
  - cbn [sy_runtime set_runtime sy_threads]. by rewrite Hin, Hstr.
Qed.

Lemma system_ok_input conf n outs s at_ r' :
  system_ok conf n outs s → run_debounce_input at_ (sy_runtime s) = Some r' →
  system_ok conf (n + 1) outs (set_runtime r' s).
Proof.
  intros Hok. unfold run_debounce_input. destruct (cr_phase (sy_runtime s)); [done| |done].
  pose proof (sk_work _ _ _ _ Hok) as Hw. pose proof (sk_inputs _ _ _ _ Hok) as Hi.
  destruct (cr_inputs (sy_runtime s)) as [|input inputs]; [done|].
  pose proof (work_ok_push _ _ _ _ _ at_ (trailing (di_window input)) Hw) as Hw'.
  destruct (stream_push at_ _ _ _ _) as [out streams]. intros [= <-].
  apply (system_ok_work _ _ _ s); try done. cbn. unfold zlen in *. cbn [length] in Hi. lia.
Qed.

Lemma system_ok_stop conf n outs s :
  system_ok conf n outs s → system_ok conf (n + 1) outs (set_runtime (run_debounce_stop (sy_runtime s)) s).
Proof.
  intros Hok. unfold run_debounce_stop. pose proof (sk_inputs _ _ _ _ Hok) as Hi.
  destruct (sk_work _ _ _ _ Hok) as [Ht Hin Hs].
  apply (system_ok_work _ _ _ s); try done; destruct (cr_phase (sy_runtime s)); try done; cbn.
  - unfold debounce_capacity, zlen. cbn. lia.
Qed.

(** Deliveries are made by [delivery] and the rules of beacons. *)
Definition label_ok (l : ChannelLabel) : Prop :=
  match l with LOpen _ _ deliveries _ => Forall spec_ok deliveries | _ => True end.

Lemma channel_step_ok conf n outs s l out s' :
  system_ok conf n outs s → 0 ≤ cc_retention_events conf → 0 ≤ n → n + 1 < U64_MAX → label_ok l →
  channel_step l s = Some (out, s') → system_ok conf (n + 1) (outs ++ out) s'.
Proof.
  intros Hok Hret Hn Hmax Hl. destruct l as [value|value|envelope|i now|user key deliveries after|session|session| |at_|at_ pick now|];
    cbn [channel_step].
  - intros [= <- <-]. rewrite app_nil_r. apply system_ok_start; [done|]. intros p. apply prepare_signal_ok.
  - intros [= <- <-]. rewrite app_nil_r. apply system_ok_start; [done|]. intros p. apply prepare_box_ok.
  - pose proof (system_ok_envelope _ _ _ _ envelope Hok) as He.
    destruct (fanout_codec envelope (sy_runtime s)) as [[[codec|]|e] r'] eqn:Hf; destruct He as [He Hcodec];
      intros [= <- <-]; rewrite app_nil_r; [|done..].
    destruct He as [Hc Hp Ha Hns Hg Hcod Hi [Ht Hin Hs]]. constructor; try done.
    + by apply (attached_ok_threads _ (set_runtime r' s)).
    + constructor; [|done..]. apply threads_add; [done|]. cbn. eauto.
  - destruct (sy_threads s !! i) as [p|] eqn:Hp; [|done].
    pose proof (system_ok_thread _ _ _ _ _ now _ Hok Hret Hp) as Ht.
    destruct (pub_step now p (sy_runtime s)) as [next r']. by intros [= <- <-].
  - pose proof (system_ok_open _ _ _ _ user key deliveries after Hok Hn Hmax Hl) as Ho.
    destruct (open_user user key deliveries after (sy_runtime s)) as [[open|e] r']; intros [= <- <-]; [done|].
    by rewrite app_nil_r.
  - destruct (sy_leases s !! session) as [target|] eqn:Hlease; [|done].
    pose proof (system_ok_recv _ _ _ _ _ _ Hok Hlease) as Hr.
    destruct (session_recv session (sy_runtime s)) as [res r']. by intros [= <- <-].
  - destruct (sy_leases s !! session) as [target|] eqn:Hlease; [|done]. intros [= <- <-]. rewrite app_nil_r.
    by apply system_ok_drop.
  - intros [= <- <-]. rewrite app_nil_r. unfold run_debounce_start.
    apply (system_ok_work _ _ _ s); try done; cbn; case_decide; try done;
      [apply (sk_inputs _ _ _ _ Hok)..|apply (sk_work _ _ _ _ Hok)|apply (sk_work _ _ _ _ Hok)].
  - destruct (run_debounce_input at_ (sy_runtime s)) as [r'|] eqn:Hi; [|done]. intros [= <- <-].
    rewrite app_nil_r. by eapply system_ok_input.
  - destruct (run_debounce_due at_ pick now (sy_runtime s)) as [r'|] eqn:Hd; [|done]. intros [= <- <-].
    by eapply system_ok_due.
  - intros [= <- <-]. rewrite app_nil_r. by apply system_ok_stop.
Qed.

Lemma system_new_ok conf beacons : system_ok conf 0 [] (system_new conf beacons).
Proof.
  constructor; try done.
  - constructor; try done.
    + intros t target. cbn. rewrite lookup_empty. cbn. split; [set_solver|]. intros (c & Hc & _).
      unfold channel_at in Hc. cbn in Hc. by rewrite lookup_empty in Hc.
    + split; [constructor|done].
  - constructor; try done.
    + intros target. cbn. unfold channel_or_default, channel_at. cbn. rewrite lookup_empty. unfold last_of. by rewrite drop_nil.
    + intros o1 id target after replay o2 Heq. by destruct o1.
  - cbn. unfold debounce_capacity, zlen. cbn. lia.
Qed.

Lemma channel_run_ok conf n outs s ls out s' :
  system_ok conf n outs s → 0 ≤ cc_retention_events conf → 0 ≤ n → n + zlen ls < U64_MAX → Forall label_ok ls →
  channel_run ls s = Some (out, s') → system_ok conf (n + zlen ls) (outs ++ out) s'.
Proof.
  revert n outs s out. induction ls as [|l ls IH]; intros n outs s out Hok Hret Hn Hmax Hls; cbn.
  { intros [= <- <-]. by rewrite Z.add_0_r, app_nil_r. }
  apply Forall_cons in Hls as [Hl Hls].
  assert (Hlen : zlen (l :: ls) = 1 + zlen ls) by (unfold zlen; cbn [length]; lia).
  rewrite Hlen in *. pose proof (zlen_nonneg ls).
  destruct (channel_step l s) as [[o s1]|] eqn:Hstep; [|done].
  destruct (channel_run ls s1) as [[os s2]|] eqn:Hrun; [|done]. intros [= <- <-].
  pose proof (channel_step_ok _ _ _ _ _ _ _ Hok Hret Hn ltac:(lia) Hl Hstep) as Hok1.
  rewrite app_assoc. replace (n + (1 + zlen ls)) with (n + 1 + zlen ls) by lia. eapply IH; eauto; lia.
Qed.

(** A reachable state, with what was seen on the way. *)
Definition channels_reach (conf : ChannelConf) (beacons : gmap Z ChannelKey) (outs : list Observation)
    (s : ChannelSystem) : Prop :=
  0 ≤ cc_retention_events conf ∧
  ∃ ls, zlen ls < U64_MAX ∧ Forall label_ok ls ∧ channel_run ls (system_new conf beacons) = Some (outs, s).

Lemma channels_reach_ok conf beacons outs s :
  channels_reach conf beacons outs s → ∃ n, 0 ≤ n < U64_MAX ∧ system_ok conf n outs s.
Proof.
  intros (Hret & ls & Hlen & Hls & Hrun). exists (zlen ls). split; [pose proof (zlen_nonneg ls); lia|].
  apply (channel_run_ok conf 0 [] (system_new conf beacons) ls outs s); try done. apply system_new_ok.
Qed.
End Invariant.
