(* ===== verification/ChannelTheorems.v ===== *)
(** * What channels promise *)
From Stdlib Require Import ZifyBool.
From S2P Require Import Prelude Externals Failure Config Models Lifecycle Json Registry Submission CacheKeys.
From S2P Require Import RegistryTheorems.
From S2P Require Import Debounce ChannelTypes Channels ChannelFacts ChannelSessions.
From S2P Require Import ChannelInvariant.
#[local] Open Scope Z_scope.

(** ** A small deployment *)

Module DemoChannels.
#[export] Existing Instance DemoSerialization.serialization.

Definition note_type : TypeId := 7%N.
Definition note (text : string) : Payload :=
  {| pl_type := note_type; pl_type_name := "Note"; pl_value := Ok (JString text);
     pl_text := Ok (DemoExternals.demo_json_string text); pl_wire := true |}.

#[export] Instance channel_externals : ChannelExternals := {|
  parse_value s := Ok (JString s);
  type_schema _ := "Note"%string;
  type_name_of _ := "app::Note"%string;
  from_value t j := match j with JString s => Ok (note s) | _ => Err "expected a string"%string end |}.

(** Two notes a channel, at most two sessions' worth of debounced inputs. *)
Definition conf : ChannelConf :=
  {| cc_enabled := true; cc_subscriber_queue := 1; cc_replay_limit := 2; cc_retention_events := 2;
     cc_max_channels_per_user := 1; cc_max_message_bytes := 100; cc_long_poll_timeout_ms := 1;
     cc_sse_keepalive_ms := 1; cc_slow_subscriber_policy := Disconnect |}.

Definition notes : DeliverySpec := delivery note_type (λ _, true).
Definition open_as (user : string) : ChannelLabel := LOpen user "notes" [notes] None.
Definition system : ChannelSystem := system_new conf ∅.

Lemma notes_ok : spec_ok notes.
Proof. done. Qed.

(** One note published to its end: enqueue loop, number, append. *)
Definition publish_note (text : string) : list ChannelLabel :=
  [LSignal (note text); LThread 0 0; LThread 0 0; LThread 0 0; LThread 0 0].

Lemma demo_reaches ls outs s :
  Forall label_ok ls → zlen ls < U64_MAX → channel_run ls system = Some (outs, s) →
  channels_reach conf ∅ outs s.
Proof. intros Hls Hlen Hrun. split; [by vm_compute|]. by exists ls. Qed.
End DemoChannels.

Section Theorems.
Context `{Y : Serialization, C : ChannelExternals}.

(** Whatever was opened, published, received and dropped before, and in
    whatever order, the type index of the channels names exactly the channels
    whose policy in force has a rule of the type, never an empty set; and the
    window of delivered fan-out ids holds no id twice and knows exactly the ids
    it holds. *)
Theorem channel_index_is_exact conf beacons outs s :
  channels_reach conf beacons outs s →
  let st := cr_state (sy_runtime s) in
  (∀ t target, target ∈ default ∅ (lc_type_index st !! t) ↔
     ∃ channel, channel_at target st = Some channel ∧ is_Some (ch_rules channel !! t)) ∧
  (∀ t targets, lc_type_index st !! t = Some targets → targets ≠ ∅) ∧
  NoDup (fd_ids (lc_delivered_fanout st)) ∧
  fd_known (lc_delivered_fanout st) = list_to_set (fd_ids (lc_delivered_fanout st)).
Proof.
  intros (n & _ & Hok)%channels_reach_ok.
  destruct (sk_policies _ _ _ _ Hok) as [Hi Hne _ (Hnd & Hk & _)]. done.
Qed.

(** C18: channels hold no more than their configuration allows, in every
    reachable state: events per log, events per session's queue, debounced
    payloads waiting, ids of delivered fan-out envelopes, and channels per user
    (of which the first is always granted). *)
Theorem channels_stay_within_bounds conf beacons outs s :
  channels_reach conf beacons outs s →
  let r := sy_runtime s in
  (∀ target channel, channel_at target (cr_state r) = Some channel →
     zlen (ch_log channel) ≤ cc_retention_events conf) ∧
  (∀ session target q, sy_leases s !! session = Some target → cr_queues r !! session = Some q →
     zlen (sq_buffer q) ≤ Z.max (cc_subscriber_queue conf) 1) ∧
  zlen (cr_inputs r) ≤ Z.max (cc_retention_events conf) 1 ∧
  zlen (fd_ids (lc_delivered_fanout (cr_state r))) ≤ 2048 ∧
  (∀ user channels, lc_users (cr_state r) !! user = Some channels →
     Z.of_nat (size channels) ≤ Z.max 1 (cc_max_channels_per_user conf)).
Proof.
  intros Hreach. pose proof Hreach as [Hret _].
  apply channels_reach_ok in Hreach as (n & _ & Hok).
  destruct Hok as [Hc [_ _ Hu (_ & _ & Hf)] Ha _ _ _ Hin _]. cbn. split_and!; try done.
  - intros target channel Hch. pose proof (at_log _ _ Ha target) as Hlog.
    unfold channel_or_default in Hlog. rewrite Hch in Hlog. cbn in Hlog.
    rewrite Hlog, Hc. by apply last_of_length.
  - intros session target q Hl Hq. destruct (at_queue _ _ Ha _ _ Hl) as (q' & Hq' & _ & Hcap & _).
    rewrite Hc in Hcap. unfold session_capacity in Hcap. congruence.
  - intros user channels Hm. apply Hu in Hm. lia.
Qed.

Lemma elem_of_appended targets event r target e :
  Appended target e ∈ appended targets event r →
  e = event ∧ ∃ d, d ∈ targets ∧ dt_channel d = target ∧ reaches r d = true.
Proof.
  unfold appended. intros (d & Heq & Hd)%list_elem_of_fmap. injection Heq as -> ->.
  split; [done|]. exists d. rewrite list_elem_of_In, filter_In, <- list_elem_of_In in Hd. naive_solver.
Qed.

Lemma authorised_accepts st target t data channel :
  authorised st target t data → channel_at (dt_channel target) st = Some channel →
  ch_generation channel = dt_generation target → rule_accepts channel t data.
Proof. intros (c & Hc & _ & H) Hch. assert (c = channel) as -> by congruence. done. Qed.


(** C16: what a session sees. Its replay is what the log of its channel held
    after the cursor, oldest first, up to the replay limit, the log being the
    last retained events of the channel's history. From then on the events it
    receives are those appended to its channel since, in order, none twice and
    none skipped: a prefix of them, and while the session is attached the rest
    is exactly what waits in its queue. *)
Theorem sessions_see_their_channel conf beacons outs s before session target after replay since :
  channels_reach conf beacons outs s →
  outs = before ++ Opened session target after replay :: since →
  replay = log_after after (cc_replay_limit conf) (last_of (cc_retention_events conf) (appended_to target before)) ∧
  got session since `prefix_of` appended_to target since ∧
  ∀ q, sy_leases s !! session = Some target → cr_queues (sy_runtime s) !! session = Some q → sq_sender q = true →
    appended_to target since = got session since ++ sq_buffer q.
Proof.
  intros (n & _ & Hok)%channels_reach_ok Heq.
  pose proof (sk_attached _ _ _ _ Hok) as Ha. rewrite <- (sk_conf _ _ _ _ Hok).
  destruct (at_opened _ _ Ha _ _ _ _ _ _ Heq) as (_ & Hrep & Hcase). split; [done|].
  destruct (sy_leases s !! session) as [t|].
  - destruct Hcase as (-> & q & rest & Hq & Hf & Hsend). split; [eexists; exact Hf|].
    intros q' _ Hq' Hs. assert (q' = q) as -> by congruence.
    rewrite Hsend in Hf by done. unfold session_follows in Hf. by rewrite app_nil_r in Hf.
  - destruct Hcase as (rest & Hf). split; [by exists rest|done].
Qed.
End Theorems.

(** ** The publishing task alone *)

Section Alone.
Context `{Y : Serialization, C : ChannelExternals}.

Lemma pub_run_enqueue now immediate t payload rest r fuel :
  pub_run (length rest + fuel) now (PubEnqueue rest immediate t payload) r =
  match for_eachM rest (enqueue_accepted t payload) r with
  | (Ok _, r) => pub_run fuel now (PubEnqueue [] immediate t payload) r
  | (Err _, r) => Some r
  end.
Proof.
  revert r. induction rest as [|a rest IH]; intros r; [done|]. cbn. unfold bindM.
  destruct (enqueue_accepted t payload a r) as [[u|e] r']; [apply IH|done].
Qed.

(** A publishing task that is not interrupted ends, within one turn per
    accepted channel and three more, in the state the publishing function
    computes: the interleaved steps are those of the code. *)
Theorem publishing_alone_is_publish_value p now r :
  pub_run (length (pr_accepted p) + 3) now (pub_begin p) r = Some (publish_prepared now (Some p) r).2.
Proof.
  unfold pub_begin. rewrite pub_run_enqueue. cbn [publish_prepared]. unfold publish_value, bindM.
  destruct (for_eachM _ _ r) as [[u|e] r']; [|done].
  by destruct (immediate_targets (pr_accepted p)) as [|d immediate].
Qed.
End Alone.

(** ** The window of fan-out ids *)

(** The ids of a sequence of envelopes that are not dropped, and the window after them. *)
Fixpoint fanout_run (ids accepted : list Uuid) (d : FanoutDedup) : list Uuid * FanoutDedup :=
  match ids with
  | [] => (accepted, d)
  | id :: ids =>
      let '(seen, d) := seen_or_insert id d in fanout_run ids (if seen then accepted else accepted ++ [id]) d
  end.

Lemma last_of_extend {A} n (l : list A) x :
  0 ≤ n → drop (Z.to_nat (zlen (last_of n l) + 1 - n)) (last_of n l ++ [x]) = last_of n (l ++ [x]).
Proof.
  intros Hn. unfold last_of, zlen. rewrite length_app, length_drop. cbn [length].
  rewrite <- (drop_app_le l) by lia. rewrite drop_drop. f_equal. lia.
Qed.

Definition window_ok (accepted : list Uuid) (d : FanoutDedup) : Prop :=
  fd_ids d = last_of FANOUT_DEDUP_LIMIT accepted ∧ NoDup (fd_ids d) ∧
  fd_known d = list_to_set (fd_ids d) ∧ zlen (fd_ids d) ≤ FANOUT_DEDUP_LIMIT.

Lemma window_step accepted d id :
  window_ok accepted d →
  let '(seen, d') := seen_or_insert id d in
  seen = bool_decide (id ∈ last_of FANOUT_DEDUP_LIMIT accepted) ∧
  window_ok (if seen then accepted else accepted ++ [id]) d'.
Proof.
  intros (Hids & Hnd & Hk & Hlen). pose proof (seen_or_insert_ok id d Hnd Hk Hlen) as Hs.
  destruct (seen_or_insert id d) as [seen d']. destruct Hs as (Hseen & Hids' & Hnd' & Hk' & Hlen').
  split; [by rewrite <- Hids|]. split_and!; [|done..]. rewrite Hids'.
  destruct seen; [done|]. rewrite Hids.
  by apply last_of_extend.
Qed.

(** Of any sequence of fan-out envelopes, one is dropped exactly when its
    delivery id is among the last 2048 ids that were not dropped. *)
Theorem fanout_window_is_exact ids id :
  let '(accepted, d) := fanout_run ids [] fanout_dedup_new in
  (seen_or_insert id d).1 = bool_decide (id ∈ last_of 2048 accepted) ∧ fd_ids d = last_of 2048 accepted.
Proof.
  assert (Hgen : ∀ accepted d, window_ok accepted d →
    window_ok (fanout_run ids accepted d).1 (fanout_run ids accepted d).2).
  { induction ids as [|i ids IH]; intros accepted d Hw; [done|]. cbn.
    pose proof (window_step accepted d i Hw) as Hs. destruct (seen_or_insert i d) as [seen d'].
    apply IH, Hs. }
  specialize (Hgen [] fanout_dedup_new). destruct (fanout_run ids [] fanout_dedup_new) as [accepted d].
  assert (window_ok accepted d) as Hw by (apply Hgen; split_and!; [done|constructor|done|done]).
  pose proof (window_step accepted d id Hw) as Hs. destruct (seen_or_insert id d) as [seen d'].
  split; [apply Hs|apply Hw].
Qed.

(** ** Cursors *)

(** The cursor a client is given is read back as the event id it was made
    from, for every 64-bit id. *)
Theorem cursor_roundtrip id : 0 ≤ id ≤ U64_MAX → cursor_from_str (cursor_text id) = Ok id.
Proof. intros Hid. apply ok_or_ok. by apply parse_u64_pretty. Qed.

Example cursor_roundtrip_witness : cursor_from_str (cursor_text 18446744073709551615) = Ok 18446744073709551615.
Proof. apply (cursor_roundtrip 18446744073709551615). by vm_compute. Defined.

(** ** The theorems on the demonstration *)

Module DemoRuns.
Import DemoChannels.

Definition ann : ChannelTarget := {| ct_user := "ann"; ct_channel := "notes" |}.
Definition run (ls : list ChannelLabel) : option (list Observation * ChannelSystem) := channel_run ls system.

(** What a run shows and where it ends, when it has one. *)
Definition shown (ls : list ChannelLabel) : list Observation := default [] (fst <$> run ls).
Definition final (ls : list ChannelLabel) : ChannelSystem := default system (snd <$> run ls).
Definition runs {A} (o : option A) : bool := if o then true else false.
Lemma runs_default {A B} (o : option (A * B)) a b :
  runs o = true → o = Some (default a (fst <$> o), default b (snd <$> o)).
Proof. by destruct o as [[]|]. Qed.
Lemma demo_final ls :
  Forall label_ok ls → zlen ls <? U64_MAX = true → runs (run ls) = true →
  channels_reach conf ∅ (shown ls) (final ls).
Proof.
  intros Hls Hlen Hrun. apply (demo_reaches ls); [done|by apply Z.ltb_lt|by apply runs_default].
Qed.

(** A note under way while [ann]'s stream is open, one step before it is hi_appended. *)
Definition before_append : list ChannelLabel :=
  open_as "ann" :: take 4 (publish_note "hi").

(** Two notes, of which the session receives the first. *)
Definition two_notes : list ChannelLabel :=
  open_as "ann" :: publish_note "a" ++ [LRecv 1] ++ publish_note "b".

(** Two publishing tasks: the one that took its event id first appends last,
    after [ann] saw the other event and left. *)
Definition overtaken : list ChannelLabel :=
  [open_as "ann"; LSignal (note "a"); LSignal (note "b"); LThread 0 0; LThread 0 0; LThread 0 0;
   LThread 1 0; LThread 1 0; LThread 1 0; LThread 1 0; LRecv 1; LDrop 1; LThread 0 0;
   LOpen "ann" "notes" [notes] (Some 2)].

(** A debounced rule of the same type. *)
Definition debounced : DeliverySpec :=
  {| dl_type_id := note_type; dl_signal_key := dl_signal_key notes; dl_predicate := λ _, true;
     dl_decoder := dl_decoder notes; dl_debounce := Some 5 |}.

(** [ann] opens a second session while a note waits for its window. *)
Definition second_session : list ChannelLabel :=
  [LSchedulerStart; LOpen "ann" "notes" [debounced] None; LSignal (note "a"); LThread 0 0; LThread 0 0;
   LSchedulerInput 0; LOpen "ann" "notes" [debounced] None; LSchedulerDue 5 0 0].

(** Two debounced channels fill the scheduler's queue before a third, and one without debounce. *)
Definition four_users : list ChannelLabel :=
  [LOpen "u1" "notes" [debounced] None; LOpen "u2" "notes" [debounced] None;
   LOpen "u3" "notes" [debounced] None; open_as "ann"].
(** The next step of [before_append]. *)
Definition hi_appended : list Observation := default [] (fst <$> channel_step (LThread 0 0) (final before_append)).
Definition hi_end : ChannelSystem :=
  default system (snd <$> channel_step (LThread 0 0) (final before_append)).
Definition hi : ChannelEvent :=
  {| ev_id := 1; ev_type := "Note"; ev_data := JString "hi"; ev_created_at := 0 |}.

End DemoRuns.

Section Examples.
Import DemoChannels DemoRuns.

Lemma two_notes_reaches : channels_reach conf ∅ (shown two_notes) (final two_notes).
Proof. apply demo_final; [by repeat constructor|by vm_compute..]. Qed.

Example channel_index_is_exact_witness :
  let s := final two_notes in runs (run two_notes) = true ∧
    (ann ∈ default ∅ (lc_type_index (cr_state (sy_runtime s)) !! note_type) ↔
     ∃ channel, channel_at ann (cr_state (sy_runtime s)) = Some channel ∧ is_Some (ch_rules channel !! note_type)).
Proof.
  split; [by vm_compute|]. apply (channel_index_is_exact conf ∅ _ (final two_notes) two_notes_reaches).
Defined.

Example channels_stay_within_bounds_witness :
  runs (run two_notes) = true ∧ zlen (cr_inputs (sy_runtime (final two_notes))) ≤ 2.
Proof.
  split; [by vm_compute|].
  apply (channels_stay_within_bounds conf ∅ _ (final two_notes) two_notes_reaches).
Defined.


Example sessions_see_their_channel_witness :
  ∃ since, shown two_notes = Opened 1 ann 0 [] :: since ∧
    got 1 since `prefix_of` appended_to ann since ∧ length (appended_to ann since) = 2%nat.
Proof.
  assert (Ho : shown two_notes = [] ++ Opened 1 ann 0 [] :: tail (shown two_notes))
    by (vm_compute; reflexivity).
  exists (tail (shown two_notes)). split; [done|].
  split; [|by vm_compute].
  apply (sessions_see_their_channel conf ∅ _ (final two_notes) [] 1 ann 0 [] _ two_notes_reaches Ho).
Defined.

(** Event ids are taken outside the lock that appends, so they are not in
    order in a log: a client that reconnects with the last id it received is
    not given an event that was hi_appended after it left, though the log still
    holds it. *)
Theorem reconnect_can_miss_a_retained_event :
  runs (run overtaken) = true ∧
  ∃ first second,
    appended_to ann (shown overtaken) = [second; first] ∧ ev_id first = 1 ∧ ev_id second = 2 ∧
    got 1 (shown overtaken) = [second] ∧ last (shown overtaken) = Some (Opened 2 ann (ev_id second) []) ∧
    ch_log (channel_or_default ann (cr_state (sy_runtime (final overtaken)))) = [second; first].
Proof.
  split; [by vm_compute|]. eexists _, _. split; [vm_compute; reflexivity|].
  split_and!; vm_compute; reflexivity.
Qed.

(** Opening another session of the same user and channel, with the same
    policy, makes a new generation, and a note that waited for its debounce
    window is delivered to nobody: neither retained nor received. *)
Theorem second_session_discards_pending_debounce :
  runs (run second_session) = true ∧ shown second_session = [Opened 1 ann 0 []; Opened 2 ann 0 []] ∧
  let r := sy_runtime (final second_session) in
  ss_heap (cr_streams r) = [] ∧ cr_inputs r = [] ∧ ch_log (channel_or_default ann (cr_state r)) = [].
Proof. by vm_compute. Qed.

(** When the scheduler's queue is full, the error of the first debounced
    channel that does not fit ends the publication: channels without debounce,
    which need no room in that queue, are not given the event either. *)
Theorem full_debounce_queue_stops_immediate_delivery :
  runs (run four_users) = true ∧
  let published := publish_signal (note "hi") 0 (sy_runtime (final four_users)) in
  fst published = Err DebounceQueueFull ∧ zlen (cr_inputs (snd published)) = debounce_capacity conf ∧
  ch_log (channel_or_default ann (cr_state (snd published))) = [].
Proof. by vm_compute. Qed.

Example publishing_alone_is_publish_value_demo :
  (candidates_any note_type (note "hi") false
     (cr_state (sy_runtime (default (system_new conf ∅) (snd <$> run [open_as "ann"]))))) =
  [{| ac_target := {| dt_channel := ann; dt_generation := 1 |}; ac_debounce := None |}].
Proof. vm_compute. reflexivity. Qed.
End Examples.
