(* ===== verification/Scopes.v ===== *)
(** * Application scopes and the identities that hold them ([scopes.rs], [auth/identity.rs])

    An identity keeps its scopes sorted and without duplicates so that a lookup
    is a binary search; [binary_search] is the standard library's. Names
    compare by their bytes. The request-only data of an identity is a flag. *)
From Stdlib Require Import ZifyBool.
From S2P Require Import Prelude Externals Lifecycle Json.
#[local] Open Scope Z_scope.

Definition MAX_SCOPES : Z := 128.
Definition MAX_SCOPE_BYTES : Z := 128.
Definition MAX_SCOPES_BYTES : Z := 8 * 1024.

Abbreviation Scope := string (only parsing).

(** ** [slice::binary_search] *)

Section Search.
Implicit Types l : list Scope.

(** The loop that halves [size]; as many turns as elements are enough. *)
Fixpoint search_loop (fuel : nat) (l : list Scope) (x : Scope) (size base : nat) : nat :=
  match fuel with
  | O => base
  | S fuel =>
      if (size <=? 1)%nat then base
      else
        let half := (size / 2)%nat in
        let mid := (base + half)%nat in
        let base := match l !! mid with
                    | Some y => match String.compare y x with Gt => base | _ => mid end
                    | None => base
                    end in
        search_loop fuel l x (size - half)%nat base
  end.

(** [Ok] the index of the element, or [Err] where it would go. *)
Definition binary_search (l : list Scope) (x : Scope) : result nat nat :=
  match l with
  | [] => Err 0%nat
  | _ =>
      let base := search_loop (length l) l x (length l) 0 in
      match l !! base with
      | Some y => match String.compare y x with Eq => Ok base | Lt => Err (S base) | Gt => Err base end
      | None => Err base
      end
  end.

(** [Vec::insert] at an index within the length. *)
Definition vec_insert (i : nat) (x : Scope) l : list Scope := take i l ++ x :: drop i l.

Fixpoint dedup l : list Scope :=
  match l with
  | a :: rest =>
      match dedup rest with
      | b :: rest' => if String.eqb a b then b :: rest' else a :: b :: rest'
      | [] => [a]
      end
  | [] => []
  end.

(** [normalize]. *)
Definition normalize (values : list Scope) : list Scope := dedup (sort_by_key str_le id values).

(** ** Rules *)

Definition valid_name (value : Scope) : bool :=
  negb (str_len value =? 0) && (str_len value <=? MAX_SCOPE_BYTES)
  && forallb (λ c, let byte := Z.of_nat (Ascii.nat_of_ascii c) in
                   (byte =? 33) || (35 <=? byte) && (byte <=? 91) || (93 <=? byte) && (byte <=? 126))
       (String.list_ascii_of_string value).

Inductive ScopeRuleError := ScopesEmpty | ScopesDuplicate | ScopesInvalid.

(** The lengths with a separator each; an overflow of the sum is invalid. *)
Fixpoint scope_bytes (total : Z) l : option Z :=
  match l with
  | [] => Some total
  | scope :: l =>
      match usize_checked_add total (str_len scope) with
      | Some total => match usize_checked_add total 1 with Some total => scope_bytes total l | None => None end
      | None => None
      end
  end.

Definition validate_scopes l : result ScopeRuleError unit :=
  if (MAX_SCOPES <? zlen l) || existsb (λ scope, negb (valid_name scope)) l then Err ScopesInvalid
  else if match scope_bytes 0 l with
          | None => true
          | Some value => MAX_SCOPES_BYTES <? usize_saturating (value - 1)
          end
  then Err ScopesInvalid else Ok tt.

(** Some neighbours in [windows(2)] are equal. *)
Fixpoint has_adjacent_equal l : bool :=
  match l with
  | a :: rest => match rest with b :: _ => String.eqb a b || has_adjacent_equal rest | [] => false end
  | [] => false
  end.

(** [normalize_rule]: the rule it leaves in place. *)
Definition normalize_rule l : result ScopeRuleError (list Scope) :=
  match l with
  | [] => Err ScopesEmpty
  | _ =>
      let? _ := validate_scopes l in
      let sorted := sort_by_key str_le id l in
      if has_adjacent_equal sorted then Err ScopesDuplicate else Ok sorted
  end.

Inductive ScopeExpr := ScopesAll (scopes : list Scope) | ScopesAny (scopes : list Scope).
Definition expr_scopes (e : ScopeExpr) : list Scope := match e with ScopesAll l | ScopesAny l => l end.
Definition requires_all (e : ScopeExpr) : bool := match e with ScopesAll _ => true | ScopesAny _ => false end.
Definition validate_expr (e : ScopeExpr) : result ScopeRuleError unit :=
  let? _ := normalize_rule (expr_scopes e) in Ok tt.

(** ** Identities *)

(** Seconds of the identity proof, the methods it used and its assurance class. *)
Record AuthenticationContext := {
  ac_auth_time : option Z;
  ac_methods : list string;
  ac_acr : option string }.
Definition authentication_default : AuthenticationContext :=
  {| ac_auth_time := None; ac_methods := []; ac_acr := None |}.

Record AuthUser := {
  au_subject : string;
  au_scopes : list Scope;
  au_provider : option string;
  au_extra : bool;
  au_authentication : AuthenticationContext }.

Definition auth_user_new (subject : string) : AuthUser :=
  {| au_subject := subject; au_scopes := []; au_provider := None; au_extra := false;
     au_authentication := authentication_default |}.
Definition put_scopes (v : list Scope) (u : AuthUser) : AuthUser :=
  {| au_subject := au_subject u; au_scopes := v; au_provider := au_provider u; au_extra := au_extra u;
     au_authentication := au_authentication u |}.

Definition with_scope (scope : Scope) (u : AuthUser) : AuthUser :=
  match binary_search (au_scopes u) scope with
  | Err position => put_scopes (vec_insert position scope (au_scopes u)) u
  | Ok _ => u
  end.
Definition with_scopes (scopes : list Scope) (u : AuthUser) : AuthUser :=
  put_scopes (normalize (au_scopes u ++ scopes)) u.
Definition set_provider (provider : string) (u : AuthUser) : AuthUser :=
  {| au_subject := au_subject u; au_scopes := au_scopes u; au_provider := Some provider; au_extra := au_extra u;
     au_authentication := au_authentication u |}.
Definition with_authentication (v : AuthenticationContext) (u : AuthUser) : AuthUser :=
  {| au_subject := au_subject u; au_scopes := au_scopes u; au_provider := au_provider u; au_extra := au_extra u;
     au_authentication := v |}.
Definition with_extra (u : AuthUser) : AuthUser :=
  {| au_subject := au_subject u; au_scopes := au_scopes u; au_provider := au_provider u; au_extra := true;
     au_authentication := au_authentication u |}.
Definition without_extra (u : AuthUser) : AuthUser :=
  {| au_subject := au_subject u; au_scopes := au_scopes u; au_provider := au_provider u; au_extra := false;
     au_authentication := au_authentication u |}.

Definition has_scope (u : AuthUser) (scope : Scope) : bool := is_ok (binary_search (au_scopes u) scope).
Definition has_all (u : AuthUser) (scopes : list Scope) : bool := forallb (has_scope u) scopes.
Definition has_any (u : AuthUser) (scopes : list Scope) : bool := existsb (has_scope u) scopes.
Definition allows (e : ScopeExpr) (u : AuthUser) : bool :=
  match e with ScopesAll scopes => has_all u scopes | ScopesAny scopes => has_any u scopes end.
Definition is_from (provider : string) (u : AuthUser) : bool := bool_decide (au_provider u = Some provider).

(** ** Sorted scopes *)

Definition scope_lt (a b : Scope) : Prop := String.compare a b = Lt.
Definition sorted_scopes l : Prop := StronglySorted scope_lt l.

Lemma scope_compare_refl x : String.compare x x = Eq.
Proof.
  pose proof (String.compare_antisym x x) as H. destruct (String.compare x x); done.
Qed.

#[export] Instance scope_lt_trans : Transitive scope_lt.
Proof.
  unfold scope_lt. intros a b c Hab Hbc.
  assert (Hle : str_le a c = true).
  { apply (str_le_trans a b c); unfold str_le, String.leb; by rewrite ?Hab, ?Hbc. }
  unfold str_le, String.leb in Hle. destruct (String.compare a c) eqn:Hac; [|done..].
  apply String.compare_eq_iff in Hac as ->. rewrite String.compare_antisym, Hbc in Hab. done.
Qed.

Lemma scope_lt_irrefl a : ¬ scope_lt a a.
Proof. unfold scope_lt. by rewrite scope_compare_refl. Qed.

Lemma sorted_lookup l i j a b :
  sorted_scopes l → l !! i = Some a → l !! j = Some b → (i < j)%nat → scope_lt a b.
Proof.
  intros Hs. revert i j. induction Hs as [|x l Hs IH Hx]; intros i j Ha Hb Hij; [done|].
  destruct i as [|i], j as [|j]; try lia; cbn in *.
  - injection Ha as ->. rewrite Forall_forall in Hx. by eapply Hx, list_elem_of_lookup_2.
  - eapply IH; [done|done|lia].
Qed.

Lemma compare_gt a b : String.compare a b = Gt ↔ scope_lt b a.
Proof.
  unfold scope_lt. rewrite String.compare_antisym. by destruct (String.compare b a).
Qed.

(** Everything from the end of the window on is larger; the start is no larger, unless it is 0. *)
Lemma search_loop_spec l x fuel size base :
  sorted_scopes l → (size ≤ fuel)%nat → (0 < size)%nat → (base + size ≤ length l)%nat →
  (base = 0%nat ∨ ∃ y, l !! base = Some y ∧ ¬ scope_lt x y) →
  (∀ j y, l !! j = Some y → (base + size ≤ j)%nat → scope_lt x y) →
  let b := search_loop fuel l x size base in
  (b < length l)%nat ∧ (b = 0%nat ∨ ∃ y, l !! b = Some y ∧ ¬ scope_lt x y) ∧
  ∀ j y, l !! j = Some y → (b < j)%nat → scope_lt x y.
Proof.
  intros Hs. revert size base. induction fuel as [|fuel IH]; intros size base Hf Hpos Hlen Hlow Hhigh; [lia|].
  cbn [search_loop]. cbv zeta. destruct (size <=? 1)%nat eqn:Hone.
  { split; [lia|]. split; [done|]. intros j y Hj Hlt. eapply Hhigh; [done|lia]. }
  set (half := (size / 2)%nat). assert (0 < half < size ∧ half ≤ size - half)%nat as Hhalf.
  { subst half. pose proof (Nat.div_lt size 2). pose proof (Nat.div_str_pos size 2).
    pose proof (Nat.Div0.mul_div_le size 2). lia. }
  destruct (lookup_lt_is_Some_2 l (base + half)) as [y Hy]; [lia|]. rewrite Hy.
  destruct (String.compare y x) eqn:Hcmp.
  - apply IH; [lia..| |].
    + right. exists y. split; [done|]. apply String.compare_eq_iff in Hcmp as ->. apply scope_lt_irrefl.
    + intros j z Hj Hle. eapply Hhigh; [done|lia].
  - apply IH; [lia..| |].
    + right. exists y. split; [done|]. intros Hxy. apply (scope_lt_irrefl x). by trans y.
    + intros j z Hj Hle. eapply Hhigh; [done|lia].
  - apply compare_gt in Hcmp. apply IH; [lia..|done|].
    intros j z Hj Hle. destruct (decide (j = (base + half)%nat)) as [->|Hne]; [congruence|].
    trans y; [done|]. eapply sorted_lookup; [done..|lia].
Qed.

(** The search finds the element where it is, or else where it would go. *)
Lemma binary_search_spec l x :
  sorted_scopes l →
  match binary_search l x with
  | Ok i => l !! i = Some x
  | Err i => x ∉ l ∧ (i ≤ length l)%nat ∧
      (∀ j y, l !! j = Some y → (j < i)%nat → scope_lt y x) ∧
      (∀ j y, l !! j = Some y → (i ≤ j)%nat → scope_lt x y)
  end.
Proof.
  intros Hs. unfold binary_search. destruct l as [|a l']; [split_and!; [apply not_elem_of_nil|done|done|done]|].
  set (l := a :: l') in *. fold l.
  destruct (search_loop_spec l x (length l) (length l) 0 Hs) as (Hb & Hlow & Hhigh); [done|cbn; lia|done|by left|..].
  { intros j y Hj Hle. apply lookup_lt_Some in Hj. lia. }
  set (b := search_loop (length l) l x (length l) 0) in *.
  destruct (lookup_lt_is_Some_2 l b Hb) as [y Hy]. rewrite Hy.
  assert (Hbelow : ¬ scope_lt x y → ∀ j z, l !! j = Some z → (j < b)%nat → scope_lt z y).
  { intros _ j z Hj Hlt. by eapply (sorted_lookup l j b). }
  destruct (String.compare y x) eqn:Hcmp.
  - by apply String.compare_eq_iff in Hcmp as <-.
  - split; [|split; [lia|split]].
    + intros (j & Hj)%list_elem_of_lookup_1. destruct (decide (j ≤ b)%nat) as [Hle|Hgt].
      * destruct (decide (j = b)) as [->|Hne]; [apply (scope_lt_irrefl x); congruence|].
        apply (scope_lt_irrefl x). trans y; [eapply (sorted_lookup l j b); [done..|lia]|done].
      * apply (scope_lt_irrefl x). eapply Hhigh; [done|lia].
    + intros j z Hj Hlt. destruct (decide (j = b)) as [->|Hne]; [congruence|].
      trans y; [eapply (sorted_lookup l j b); [done..|lia]|done].
    + intros j z Hj Hle. eapply Hhigh; [done|lia].
  - apply compare_gt in Hcmp. assert (b = 0%nat) as Hb0 by (destruct Hlow as [|(y' & Hy' & Hn)]; [done|congruence]).
    assert (Hall : ∀ j z, l !! j = Some z → (b ≤ j)%nat → scope_lt x z).
    { intros j z Hj Hle. destruct (decide (j = b)) as [->|Hne]; [congruence|]. eapply Hhigh; [done|lia]. }
    split; [|split; [lia|split; [|done]]].
    + intros (j & Hj)%list_elem_of_lookup_1. apply (scope_lt_irrefl x). eapply Hall; [done|lia].
    + intros j z Hj Hlt. lia.
Qed.

Lemma sorted_scopes_lookup l :
  (∀ i j a b, l !! i = Some a → l !! j = Some b → (i < j)%nat → scope_lt a b) → sorted_scopes l.
Proof.
  induction l as [|x l IH]; intros H; constructor.
  - apply IH. intros i j a b Ha Hb Hij. apply (H (S i) (S j)); [done..|lia].
  - apply Forall_forall. intros y (j & Hj)%list_elem_of_lookup_1. apply (H 0%nat (S j)); [done..|lia].
Qed.

Lemma sorted_app l1 l2 :
  sorted_scopes (l1 ++ l2) ↔ sorted_scopes l1 ∧ sorted_scopes l2 ∧ ∀ a b, a ∈ l1 → b ∈ l2 → scope_lt a b.
Proof. unfold sorted_scopes. rewrite StronglySorted_app. naive_solver. Qed.

Lemma vec_insert_sorted l i x :
  sorted_scopes l → (∀ j y, l !! j = Some y → (j < i)%nat → scope_lt y x) →
  (∀ j y, l !! j = Some y → (i ≤ j)%nat → scope_lt x y) → sorted_scopes (vec_insert i x l).
Proof.
  intros Hs Hlow Hhigh. unfold vec_insert.
  rewrite <- (take_drop i l) in Hs. apply sorted_app in Hs as (H1 & H2 & H12).
  assert (Hbefore : ∀ a, a ∈ take i l → scope_lt a x).
  { intros a (j & Hj)%list_elem_of_lookup_1. apply lookup_take_Some in Hj as [Hj Hlt]. eauto. }
  assert (Hafter : ∀ b, b ∈ drop i l → scope_lt x b).
  { intros b (j & Hj)%list_elem_of_lookup_1. rewrite lookup_drop in Hj. eapply Hhigh; [done|lia]. }
  apply sorted_app. split; [done|]. split.
  - constructor; [done|]. apply Forall_forall. exact Hafter.
  - intros a b Ha [->|Hb]%elem_of_cons; eauto.
Qed.

Lemma elem_of_vec_insert l i x y : y ∈ vec_insert i x l ↔ y = x ∨ y ∈ l.
Proof.
  unfold vec_insert. rewrite elem_of_app, elem_of_cons. rewrite <- (take_drop i l) at 3.
  rewrite elem_of_app. tauto.
Qed.

(** [dedup] of a sorted list is strictly sorted and keeps its elements. *)
Lemma elem_of_dedup l x : x ∈ dedup l ↔ x ∈ l.
Proof.
  induction l as [|a l IH]; [done|]. cbn. rewrite elem_of_cons, <- IH.
  destruct (dedup l) as [|b l']; [rewrite elem_of_cons; done|].
  destruct (String.eqb_spec a b) as [->|Hne]; rewrite !elem_of_cons; tauto.
Qed.

Lemma dedup_sorted l : ordered str_le id l → sorted_scopes (dedup l).
Proof.
  induction 1 as [|a l Hl IH Ha]; [constructor|]. cbn.
  destruct (dedup l) as [|b l'] eqn:Hd; [by repeat constructor|].
  destruct (String.eqb_spec a b) as [->|Hne]; [done|]. constructor; [done|].
  rewrite Forall_forall in Ha. apply Forall_forall. intros y Hy.
  assert (Hab : scope_lt a b).
  { assert (b ∈ l) as Hb by (rewrite <- elem_of_dedup, Hd; by left). specialize (Ha b Hb).
    unfold str_le, String.leb, id in Ha. unfold scope_lt. destruct (String.compare a b) eqn:Hc; [|done..].
    by apply String.compare_eq_iff in Hc. }
  apply elem_of_cons in Hy as [->|Hy]; [done|]. trans b; [done|].
  inversion IH as [|? ? _ Hb]; subst. rewrite Forall_forall in Hb. eauto.
Qed.

Lemma normalize_sorted l : sorted_scopes (normalize l).
Proof. apply dedup_sorted, sort_by_key_ordered; [apply String.leb_total|apply str_le_trans]. Qed.
Lemma elem_of_normalize l x : x ∈ normalize l ↔ x ∈ l.
Proof. unfold normalize. by rewrite elem_of_dedup, sort_by_key_perm. Qed.

(** ** What an identity holds *)

Lemma has_scope_spec u x : sorted_scopes (au_scopes u) → has_scope u x = true ↔ x ∈ au_scopes u.
Proof.
  intros Hs. unfold has_scope. pose proof (binary_search_spec (au_scopes u) x Hs) as Hb.
  destruct (binary_search (au_scopes u) x) as [i|i]; cbn.
  - split; [|done]. intros _. by eapply list_elem_of_lookup_2.
  - split; [done|]. by destruct Hb.
Qed.

Lemma with_scope_spec u x :
  sorted_scopes (au_scopes u) →
  sorted_scopes (au_scopes (with_scope x u)) ∧ ∀ y, y ∈ au_scopes (with_scope x u) ↔ y = x ∨ y ∈ au_scopes u.
Proof.
  intros Hs. unfold with_scope. pose proof (binary_search_spec (au_scopes u) x Hs) as Hb.
  destruct (binary_search (au_scopes u) x) as [i|i]; cbn.
  - split; [done|]. intros y. split; [by right|]. intros [->|?]; [by eapply list_elem_of_lookup_2|done].
  - destruct Hb as (_ & _ & Hlow & Hhigh). split; [by apply vec_insert_sorted|]. intros y. apply elem_of_vec_insert.
Qed.
End Search.

(** How the framework and applications build identities. *)
Inductive IdentityStep :=
  | GrantOne (scope : Scope)
  | GrantMany (scopes : list Scope)
  | Provided (provider : string)
  | WithExtra
  | WithoutExtra.
Definition identity_step (u : AuthUser) (s : IdentityStep) : AuthUser :=
  match s with
  | GrantOne scope => with_scope scope u
  | GrantMany scopes => with_scopes scopes u
  | Provided provider => set_provider provider u
  | WithExtra => with_extra u
  | WithoutExtra => without_extra u
  end.
Definition granted (s : IdentityStep) : list Scope :=
  match s with GrantOne scope => [scope] | GrantMany scopes => scopes | _ => [] end.

Lemma identity_scopes steps u :
  sorted_scopes (au_scopes u) →
  sorted_scopes (au_scopes (foldl identity_step u steps)) ∧
  ∀ x, x ∈ au_scopes (foldl identity_step u steps) ↔ x ∈ au_scopes u ∨ ∃ s, s ∈ steps ∧ x ∈ granted s.
Proof.
  revert u. induction steps as [|s steps IH]; intros u Hs; cbn.
  { split; [done|]. intros x. setoid_rewrite elem_of_nil. naive_solver. }
  assert (Hstep : sorted_scopes (au_scopes (identity_step u s)) ∧
    ∀ x, x ∈ au_scopes (identity_step u s) ↔ x ∈ au_scopes u ∨ x ∈ granted s).
  { destruct s as [scope|scopes|provider| |]; cbn; [|split|..].
    - destruct (with_scope_spec u scope Hs) as [H1 H2]. split; [done|]. intros x.
      rewrite H2, list_elem_of_singleton. tauto.
    - apply normalize_sorted.
    - intros x. by rewrite elem_of_normalize, elem_of_app.
    - split; [done|]. intros x. rewrite elem_of_nil. tauto.
    - split; [done|]. intros x. rewrite elem_of_nil. tauto.
    - split; [done|]. intros x. rewrite elem_of_nil. tauto. }
  destruct Hstep as [H1 H2]. destruct (IH _ H1) as [H3 H4]. split; [done|]. intros x. rewrite H4, H2.
  setoid_rewrite elem_of_cons. naive_solver.
Qed.

(** However an identity is built, its scopes are strictly sorted, and its
    binary search finds exactly the scopes it was granted: it has all of a list
    of scopes if and only if each was granted, and any if and only if some was. *)
Theorem identity_scopes_are_exact subject steps scopes :
  let u := foldl identity_step (auth_user_new subject) steps in
  let holds x := ∃ s, s ∈ steps ∧ x ∈ granted s in
  sorted_scopes (au_scopes u) ∧
  (has_all u scopes = true ↔ ∀ x, x ∈ scopes → holds x) ∧
  (has_any u scopes = true ↔ ∃ x, x ∈ scopes ∧ holds x).
Proof.
  cbn zeta. set (u := foldl identity_step (auth_user_new subject) steps).
  destruct (identity_scopes steps (auth_user_new subject)) as [Hs Hin]; [constructor|]. fold u in Hs, Hin.
  assert (Hhas : ∀ x, has_scope u x = true ↔ ∃ s, s ∈ steps ∧ x ∈ granted s).
  { intros x. rewrite has_scope_spec, Hin by done. cbn. rewrite elem_of_nil. tauto. }
  split; [done|]. unfold has_all, has_any. rewrite forallb_forall, existsb_exists.
  setoid_rewrite <- list_elem_of_In. by setoid_rewrite Hhas.
Qed.

Lemma sorted_adjacent l :
  ordered str_le id l → has_adjacent_equal l = false ↔ NoDup l.
Proof.
  induction 1 as [|a l Hl IH Ha]; cbn; [split; [constructor|done]|].
  rewrite NoDup_cons, <- IH. destruct l as [|b l]; [split; [split; [apply not_elem_of_nil|done]|done]|].
  rewrite orb_false_iff. destruct (String.eqb_spec a b) as [->|Hne].
  { split; [by intros [? _]|]. intros [Hn _]. destruct Hn. by left. }
  split; [|naive_solver]. intros [_ Hrest]. split; [|done]. intros Hin.
  apply elem_of_cons in Hin as [?|Hin]; [done|]. apply Hne.
  inversion Hl as [|? ? _ Hb]; subst. rewrite Forall_forall in Ha, Hb.
  apply String.leb_antisym; [apply Ha; by left|by apply Hb].
Qed.

(** A static scope rule is accepted exactly when it names at least one
    scope, none twice, each well formed, within the limits of count and size;
    what is left in its place is the rule in order. *)
Theorem scope_rules_are_validated l :
  match normalize_rule l with
  | Ok sorted => l ≠ [] ∧ NoDup l ∧ validate_scopes l = Ok tt ∧ sorted ≡ₚ l ∧ ordered str_le id sorted
  | Err ScopesEmpty => l = []
  | Err ScopesDuplicate => validate_scopes l = Ok tt ∧ ¬ NoDup l
  | Err ScopesInvalid => validate_scopes l = Err ScopesInvalid
  end.
Proof.
  unfold normalize_rule. destruct l as [|a l]; [done|]. set (k := a :: l).
  destruct (validate_scopes k) as [[]|e] eqn:Hv; cbn [result_bind].
  - pose proof (sort_by_key_ordered str_le id String.leb_total str_le_trans k) as Hord.
    pose proof (sort_by_key_perm str_le id k) as Hperm.
    destruct (has_adjacent_equal (sort_by_key str_le id k)) eqn:Hadj.
    + split; [done|]. rewrite <- Hperm, <- sorted_adjacent by done. by rewrite Hadj.
    + apply sorted_adjacent in Hadj; [|done]. rewrite Hperm in Hadj. by split_and!.
  - unfold validate_scopes in Hv. destruct (_ || _); [by injection Hv as <-|].
    by destruct (match scope_bytes 0 k with None => true | Some value => _ end); [injection Hv as <-|].
Qed.
