(* ===== verification/Beacon.v ===== *)
(** * Streams, beacons and the negotiation of a transport
    ([channels/mod.rs], [channels/beacon.rs], [channels/transports.rs], [routes/subscriber.rs])

    A [UserStream] collects the deliveries of a channel; a [Beacon] is a
    declared set of rules of which an identity gets those whose scopes it
    holds. A request is its decoded query pairs and the readable values of
    three headers. *)
From Stdlib Require Import ZifyBool.
From S2P Require Import Prelude Externals Failure Config Models Lifecycle Json Registry Submission CacheKeys Scopes.
From S2P Require Import Debounce ChannelTypes Channels ChannelFacts ChannelSessions.
From S2P Require Import RegistryTheorems ChannelInvariant ChannelTheorems.
#[local] Open Scope Z_scope.

(** ** Streams *)

Record UserStream := {
  us_user : UserKey;
  us_channel : option ChannelKey;
  us_deliveries : list DeliverySpec }.

Section Streams.
Context `{Y : Serialization, C : ChannelExternals}.

(** [Channels::user]. *)
Definition user_stream (user : UserKey) : UserStream :=
  {| us_user := user; us_channel := None; us_deliveries := [] |}.
Definition stream_channel (key : ChannelKey) (s : UserStream) : UserStream :=
  {| us_user := us_user s; us_channel := Some key; us_deliveries := us_deliveries s |}.
Definition deliver_spec (d : DeliverySpec) (s : UserStream) : UserStream :=
  {| us_user := us_user s; us_channel := us_channel s; us_deliveries := us_deliveries s ++ [d] |}.
Definition deliver (t : TypeId) (s : UserStream) : UserStream := deliver_spec (delivery t (λ _, true)) s.
Definition deliver_if (t : TypeId) (predicate : Payload → bool) (s : UserStream) : UserStream :=
  deliver_spec (delivery t predicate) s.

Definition open_stream (stream : UserStream) (after : option Z) : ChannelM ChannelOpen :=
  match us_channel stream with
  | None => throwM MissingChannelKey
  | Some key => open_user (us_user stream) key (us_deliveries stream) after
  end.

(** [ChannelLongPoll::from_events]: the cursor of the last event. *)
Definition poll_from_events (events : list ChannelEvent) : option Z * list ChannelEvent :=
  (ev_id <$> last events, events).

(** [ChannelLongPoll::wait]: what ended the wait. *)
Inductive PollEnd := PollShutdown | PollTimeout | PollReceived (r : Received).
Definition poll_wait (e : PollEnd) : list ChannelEvent :=
  match e with PollReceived (Event event) => [event] | _ => [] end.

(** [into_poll]: retained events are answered at once. *)
Definition into_poll (replay : list ChannelEvent) (e : PollEnd) : option Z * list ChannelEvent :=
  match replay with
  | [] => poll_from_events (poll_wait e)
  | _ => poll_from_events replay
  end.
End Streams.

(** ** Negotiation *)

Fixpoint string_contains (needle s : string) : bool :=
  String.prefix needle s || match s with String _ rest => string_contains needle rest | EmptyString => false end.

(** A request: its query pairs, and the headers whose value is text. *)
Record ChannelRequest := {
  rq_pairs : list (string * string);
  rq_upgrade : option string;
  rq_connection : option string;
  rq_accept : option string }.

Definition header_contains (header : option string) (needle : string) : bool :=
  match header with Some value => string_contains needle (to_ascii_lowercase value) | None => false end.
Definition wants_websocket (r : ChannelRequest) : bool :=
  header_contains (rq_upgrade r) "websocket" && header_contains (rq_connection r) "upgrade".
Definition wants_sse (r : ChannelRequest) : bool := header_contains (rq_accept r) "text/event-stream".

Definition transport_value (value : string) : option ChannelTransport :=
  if bool_decide (value ∈ ["ws"; "websocket"]%string) then Some WS
  else if bool_decide (value = "sse"%string) then Some SSE
  else if bool_decide (value ∈ ["poll"; "long_poll"; "long-poll"]%string) then Some POLL
  else None.

Definition explicit_mode (r : ChannelRequest) : option ChannelTransport :=
  head (omap (λ p : string * string,
                if bool_decide (p.1 ∈ ["transport"; "mode"]%string) then transport_value p.2 else None)
         (rq_pairs r)).

Definition request_mode (r : ChannelRequest) : ChannelTransport :=
  match explicit_mode r with
  | Some mode => mode
  | None => if wants_websocket r then WS else if wants_sse r then SSE else POLL
  end.

Fixpoint pairs_cursor (pairs : list (string * string)) : result ChannelError (option Z) :=
  match pairs with
  | [] => Ok None
  | (key, value) :: pairs =>
      if bool_decide (key ∈ ["after"; "cursor"]%string)
      then let? id := cursor_from_str value in Ok (Some id)
      else pairs_cursor pairs
  end.
Definition request_cursor (r : ChannelRequest) : result ChannelError (option Z) := pairs_cursor (rq_pairs r).

(** The extractor, given whether the upgrade of a WebSocket could be extracted. *)
Record Subscriber := { sub_mode : ChannelTransport; sub_upgrade : bool; sub_after : option Z }.
Definition extract_subscriber (upgrade : result string unit) (r : ChannelRequest) : result string Subscriber :=
  let mode := request_mode r in
  match request_cursor r with
  | Err e => Err (channel_error_text e)
  | Ok after =>
      if mode =? WS then
        let? _ := upgrade in Ok {| sub_mode := mode; sub_upgrade := true; sub_after := after |}
      else Ok {| sub_mode := mode; sub_upgrade := false; sub_after := after |}
  end.

(** [respond]: the response is the transport and what was opened. *)
Inductive AttachError := AttachChannel (e : ChannelError) | AttachUpgrade (text : string).
Definition attach_respond `{Y : Serialization, C : ChannelExternals} (mask : ChannelTransport)
    (subscriber : Subscriber) (stream : UserStream) (r : ChannelRuntime) :
    result AttachError (ChannelTransport * ChannelOpen) * ChannelRuntime :=
  if Z.land (sub_mode subscriber) mask =? 0 then (Err (AttachChannel TransportNotAllowed), r)
  else
    match open_stream stream (sub_after subscriber) r with
    | (Err e, r) => (Err (AttachChannel e), r)
    | (Ok open, r) =>
        if sub_mode subscriber =? WS then
          if sub_upgrade subscriber then (Ok (WS, open), r)
          else (Err (AttachUpgrade "websocket upgrade is required"),
                drop_receiver (co_target open) (co_session open) r)
        else if sub_mode subscriber =? SSE then (Ok (SSE, open), r)
        else if sub_mode subscriber =? POLL then (Ok (POLL, open), r)
        else (Err (AttachChannel TransportNotAllowed), drop_receiver (co_target open) (co_session open) r)
    end.

(** ** Beacons *)

Record BeaconConf := { bn_name : string; bn_path : string; bn_modes : ChannelTransport; bn_trim : bool }.
Definition beacon_conf_new (name path : string) : BeaconConf :=
  {| bn_name := name; bn_path := path; bn_modes := ALL_TRANSPORTS; bn_trim := true |}.
Definition beacon_modes (modes : ChannelTransport) (c : BeaconConf) : BeaconConf :=
  {| bn_name := bn_name c; bn_path := bn_path c; bn_modes := modes; bn_trim := bn_trim c |}.
Definition beacon_trim (enabled : bool) (c : BeaconConf) : BeaconConf :=
  {| bn_name := bn_name c; bn_path := bn_path c; bn_modes := bn_modes c; bn_trim := enabled |}.

Inductive BeaconError :=
  | DuplicateRule (type_name : string)
  | UnknownDebounce (type_name : string)
  | DuplicateDebounce (type_name : string)
  | ZeroDebounce
  | EmptyModes.

Record BeaconRule := {
  br_type : TypeId;
  br_signal_key : string;
  br_scopes : list Scope;
  br_predicate : AuthUser → Payload → bool;
  br_decoder : SignalDecoder;
  br_debounce : option Duration }.

Record Beacon := { bc_rules : list BeaconRule; bc_errors : list BeaconError }.

Section Beacons.
Context `{Y : Serialization, C : ChannelExternals}.

Definition beacon_builder : Beacon := {| bc_rules := []; bc_errors := [] |}.
Definition beacon_error (e : BeaconError) (b : Beacon) : Beacon :=
  {| bc_rules := bc_rules b; bc_errors := bc_errors b ++ [e] |}.

Definition add_rule (t : TypeId) (scopes : list Scope) (predicate : AuthUser → Payload → bool) (b : Beacon) : Beacon :=
  if existsb (λ rule, (br_type rule =? t)%N) (bc_rules b)
  then beacon_error (DuplicateRule (type_name_of t)) b
  else {| bc_rules := bc_rules b ++
            [{| br_type := t; br_signal_key := signal_key_from (type_name_of t); br_scopes := scopes;
                br_predicate := λ user value, (pl_type value =? t)%N && predicate user value;
                br_decoder := decode_signal t; br_debounce := None |}];
          bc_errors := bc_errors b |}.
(** [rule] and [rule_with]. *)
Definition beacon_rule (t : TypeId) (scopes : list Scope) (b : Beacon) : Beacon := add_rule t scopes (λ _ _, true) b.
Definition beacon_rule_with (t : TypeId) (scopes : list Scope) (predicate : AuthUser → Payload → bool) (b : Beacon) :
    Beacon := add_rule t scopes predicate b.

Definition set_debounce (window : Duration) (r : BeaconRule) : BeaconRule :=
  {| br_type := br_type r; br_signal_key := br_signal_key r; br_scopes := br_scopes r;
     br_predicate := br_predicate r; br_decoder := br_decoder r; br_debounce := Some window |}.

(** [iter_mut().find]: the first rule of the type, and the list around it. *)
Fixpoint find_rule (t : TypeId) (rules : list BeaconRule) :
    option (list BeaconRule * BeaconRule * list BeaconRule) :=
  match rules with
  | [] => None
  | r :: rules =>
      if (br_type r =? t)%N then Some ([], r, rules)
      else match find_rule t rules with
           | Some (before, found, after) => Some (r :: before, found, after)
           | None => None
           end
  end.

Definition beacon_debounce (t : TypeId) (window : Duration) (b : Beacon) : Beacon :=
  if window =? 0 then beacon_error ZeroDebounce b
  else
    match find_rule t (bc_rules b) with
    | None => beacon_error (UnknownDebounce (type_name_of t)) b
    | Some (before, rule, after) =>
        match br_debounce rule with
        | Some _ => beacon_error (DuplicateDebounce (type_name_of t)) b
        | None => {| bc_rules := before ++ set_debounce window rule :: after; bc_errors := bc_errors b |}
        end
    end.

Definition beacon_validate (conf : BeaconConf) (b : Beacon) : result BeaconError unit :=
  if Z.land (bn_modes conf) ALL_TRANSPORTS =? 0 then Err EmptyModes
  else match bc_errors b with [] => Ok tt | e :: _ => Err e end.

(** [BeaconRule::delivery]. *)
Definition rule_delivery (user : AuthUser) (rule : BeaconRule) : DeliverySpec :=
  {| dl_type_id := br_type rule; dl_signal_key := br_signal_key rule;
     dl_predicate := br_predicate rule user; dl_decoder := br_decoder rule; dl_debounce := br_debounce rule |}.

Definition eligible (user : AuthUser) (b : Beacon) : list BeaconRule :=
  List.filter (λ rule, has_all user (br_scopes rule)) (bc_rules b).

(** The loop over the rules: the stream it leaves and how many it took. *)
Definition beacon_stream (user : AuthUser) (b : Beacon) (stream : UserStream) : UserStream * Z :=
  foldl (λ acc rule,
           if negb (has_all user (br_scopes rule)) then acc
           else (deliver_spec (rule_delivery user rule) acc.1, usize_saturating (acc.2 + 1)))
    (stream, 0) (bc_rules b).

Inductive BeaconFailure := BeaconChannel (e : ChannelError) | BeaconForbidden | BeaconAttach (e : AttachError).

Definition beacon_open (b : Beacon) (operation : Z) (user : AuthUser) (subscriber : Subscriber)
    (modes : ChannelTransport) (r : ChannelRuntime) :
    result BeaconFailure (ChannelTransport * ChannelOpen) * ChannelRuntime :=
  match user_key_new (au_subject user) with
  | Err e => (Err (BeaconChannel e), r)
  | Ok user_key =>
      match beacon_channel operation r with
      | None => (Err (BeaconChannel SubscriptionUnavailable), r)
      | Some channel =>
          let '(stream, rules) := beacon_stream user b (stream_channel channel (user_stream user_key)) in
          if rules =? 0 then (Err BeaconForbidden, r)
          else match attach_respond modes subscriber stream r with
               | (Ok response, r) => (Ok response, r)
               | (Err e, r) => (Err (BeaconAttach e), r)
               end
      end
  end.

(** How a program builds a beacon. *)
Inductive BeaconStep :=
  | BeaconRuleStep (t : TypeId) (scopes : list Scope) (predicate : AuthUser → Payload → bool)
  | BeaconDebounceStep (t : TypeId) (window : Duration).
Definition beacon_step (b : Beacon) (s : BeaconStep) : Beacon :=
  match s with
  | BeaconRuleStep t scopes predicate => beacon_rule_with t scopes predicate b
  | BeaconDebounceStep t window => beacon_debounce t window b
  end.
Definition build_beacon (steps : list BeaconStep) : Beacon := foldl beacon_step beacon_builder steps.
End Beacons.

(** ** What negotiation and beacons promise *)

Section BeaconFacts.
Context `{Y : Serialization, C : ChannelExternals}.

Lemma transport_value_cases value mode : transport_value value = Some mode → mode = WS ∨ mode = SSE ∨ mode = POLL.
Proof. unfold transport_value. repeat case_bool_decide; naive_solver. Qed.

Lemma request_mode_cases rq : request_mode rq = WS ∨ request_mode rq = SSE ∨ request_mode rq = POLL.
Proof.
  unfold request_mode. destruct (explicit_mode rq) as [mode|] eqn:He.
  - unfold explicit_mode in He. apply head_Some_elem_of in He.
    apply list_elem_of_omap in He as ([key value] & _ & H). case_bool_decide; [|done].
    by eapply transport_value_cases.
  - destruct (wants_websocket rq); [auto|]. destruct (wants_sse rq); auto.
Qed.

(** A negotiated request is answered on the transport it asked for, and
    only if the endpoint allows that transport; a request on another one is
    refused before anything is opened. The refusals after a channel was opened
    cannot happen to a negotiated request. *)
Theorem attachment_respects_the_transports upgrade rq sub mask stream r :
  extract_subscriber upgrade rq = Ok sub →
  sub_mode sub = request_mode rq ∧ request_cursor rq = Ok (sub_after sub) ∧
  if Z.land (request_mode rq) mask =? 0
  then attach_respond mask sub stream r = (Err (AttachChannel TransportNotAllowed), r)
  else attach_respond mask sub stream r =
       match open_stream stream (sub_after sub) r with
       | (Ok open, r) => (Ok (request_mode rq, open), r)
       | (Err e, r) => (Err (AttachChannel e), r)
       end.
Proof.
  unfold extract_subscriber. destruct (request_cursor rq) as [after|e] eqn:Hc; [|done].
  intros H. assert (Hsub : sub = {| sub_mode := request_mode rq; sub_upgrade := request_mode rq =? WS; sub_after := after |}).
  { destruct (request_mode rq =? WS); [|congruence]. apply result_bind_ok in H as (? & _ & ?). congruence. }
  subst sub. cbn. split; [done|]. split; [done|]. unfold attach_respond; cbn.
  destruct (Z.land _ mask =? 0); [done|].
  destruct (open_stream stream after r) as [[open|e] r']; [|done].
  by destruct (request_mode_cases rq) as [-> | [-> | ->]].
Qed.

Lemma beacon_stream_spec user b stream :
  us_deliveries (beacon_stream user b stream).1 =
    us_deliveries stream ++ (rule_delivery user <$> eligible user b) ∧
  us_user (beacon_stream user b stream).1 = us_user stream ∧
  us_channel (beacon_stream user b stream).1 = us_channel stream ∧
  ((beacon_stream user b stream).2 =? 0) = match eligible user b with [] => true | _ => false end.
Proof.
  unfold beacon_stream, eligible.
  assert (Hgen : ∀ rules stream n, 0 ≤ n →
    let acc := foldl (λ acc rule, if negb (has_all user (br_scopes rule)) then acc
           else (deliver_spec (rule_delivery user rule) acc.1, usize_saturating (acc.2 + 1))) (stream, n) rules in
    let kept := List.filter (λ rule, has_all user (br_scopes rule)) rules in
    us_deliveries acc.1 = us_deliveries stream ++ (rule_delivery user <$> kept) ∧
    us_user acc.1 = us_user stream ∧ us_channel acc.1 = us_channel stream ∧
    (acc.2 =? 0) = (match kept with [] => n =? 0 | _ => false end) ∧ 0 ≤ acc.2).
  { intros rules. induction rules as [|rule rules IH]; intros s n Hn; cbn; [by rewrite app_nil_r|].
    destruct (has_all user (br_scopes rule)); cbn; [|by apply IH].
    assert (0 < usize_saturating (n + 1)) as Hpos by (unfold usize_saturating, USIZE_MAX; lia).
    destruct (IH (deliver_spec (rule_delivery user rule) s) (usize_saturating (n + 1)) ltac:(lia)) as (H1 & H2 & H3 & H4 & H5).
    split_and!; [|done|done| |done].
    - rewrite H1. cbn. by rewrite <- app_assoc.
    - rewrite H4. destruct (List.filter _ rules); [lia|done]. }
  destruct (Hgen (bc_rules b) stream 0 ltac:(lia)) as (H1 & H2 & H3 & H4 & _). done.
Qed.

(** ** Built beacons *)

(** Types are distinct; a rule decodes its own type, takes values of its own
    type only and, if debounced, has a window. *)
Definition rule_ok (r : BeaconRule) : Prop :=
  br_decoder r = decode_signal (br_type r) ∧
  (∀ user value, br_predicate r user value = true → pl_type value = br_type r) ∧
  br_debounce r ≠ Some 0.
Definition beacon_ok (b : Beacon) : Prop := NoDup (br_type <$> bc_rules b) ∧ Forall rule_ok (bc_rules b).

Lemma find_rule_spec t rules before rule after :
  find_rule t rules = Some (before, rule, after) → rules = before ++ rule :: after ∧ br_type rule = t.
Proof.
  revert before. induction rules as [|r rules IH]; intros before; cbn; [done|].
  destruct (N.eqb_spec (br_type r) t) as [Ht|Ht]; [by intros [= <- <- <-]|].
  destruct (find_rule t rules) as [[[b0 f] a0]|]; [|done]. intros [= <- <- <-].
  destruct (IH b0 eq_refl) as [-> ?]. done.
Qed.

Lemma build_beacon_ok steps : beacon_ok (build_beacon steps).
Proof.
  unfold build_beacon. assert (Hstart : beacon_ok beacon_builder) by (split; constructor).
  revert Hstart. generalize beacon_builder. induction steps as [|s steps IH]; intros b Hb; [done|].
  apply IH. destruct Hb as [Hnd Hr]. destruct s as [t scopes predicate|t window]; cbn.
  - unfold beacon_rule_with, add_rule. destruct (existsb _ (bc_rules b)) eqn:Hex; [done|]. split; cbn.
    + rewrite fmap_app. apply NoDup_app. split; [done|]. split; [|apply NoDup_singleton].
      intros x Hx ->%list_elem_of_singleton. apply list_elem_of_fmap in Hx as (r & Heq & Hin).
      rewrite <- not_true_iff_false, existsb_exists in Hex. apply Hex. exists r.
      rewrite <- list_elem_of_In. split; [done|]. cbn in Heq. lia.
    + apply Forall_app. split; [done|]. repeat constructor; [|done].
      intros user value. cbn. intros [H _]%andb_true_iff. lia.
  - unfold beacon_debounce. destruct (Z.eqb_spec window 0) as [|Hw]; [done|].
    destruct (find_rule t (bc_rules b)) as [[[before rule] after]|] eqn:Hf; [|done].
    destruct (br_debounce rule); [done|]. apply find_rule_spec in Hf as [Heq _].
    rewrite Heq in Hnd, Hr. split; cbn.
    + by rewrite !fmap_app, !fmap_cons in *.
    + apply Forall_app in Hr as [H1 H2]. apply Forall_cons in H2 as [H2 H3].
      apply Forall_app. split; [done|]. constructor; [|done]. destruct H2 as (? & ? & _). split_and!; try done.
      cbn. congruence.
Qed.

Lemma eligible_ok user b : beacon_ok b →
  NoDup (dl_type_id <$> (rule_delivery user <$> eligible user b)) ∧
  Forall spec_ok (rule_delivery user <$> eligible user b).
Proof.
  intros [Hnd Hr]. rewrite <- list_fmap_compose. unfold eligible. split.
  - change (dl_type_id ∘ rule_delivery user) with br_type.
    induction (bc_rules b) as [|r rules IH]; cbn; [constructor|].
    rewrite fmap_cons in Hnd. apply NoDup_cons in Hnd as [Hn Hnd].
    apply Forall_cons in Hr as [_ Hr]. destruct (has_all _ _); [|by apply IH].
    rewrite fmap_cons. apply NoDup_cons. split; [|by apply IH].
    intros Hin. apply Hn. apply list_elem_of_fmap in Hin as (r' & -> & Hin).
    apply list_elem_of_fmap. exists r'. split; [done|].
    rewrite list_elem_of_In, filter_In, <- list_elem_of_In in Hin. naive_solver.
  - apply Forall_fmap, Forall_forall. intros r Hin.
    rewrite list_elem_of_In, filter_In, <- list_elem_of_In in Hin. rewrite Forall_forall in Hr.
    by destruct (Hr r (proj1 Hin)).
Qed.

(** With distinct types every delivery is the rule of its type. *)
Lemma last_rule_some deliveries t rule :
  last_rule deliveries t = Some rule →
  ∃ d, d ∈ deliveries ∧ dl_type_id d = t ∧ rule = {| dr_predicate := dl_predicate d; dr_debounce := dl_debounce d |}.
Proof.
  unfold last_rule.
  assert (Hgen : ∀ acc, foldl (λ acc d, if decide (dl_type_id d = t)
      then Some {| dr_predicate := dl_predicate d; dr_debounce := dl_debounce d |} else acc) acc deliveries = Some rule →
    acc = Some rule ∨ ∃ d, d ∈ deliveries ∧ dl_type_id d = t ∧
      rule = {| dr_predicate := dl_predicate d; dr_debounce := dl_debounce d |}).
  { induction deliveries as [|d deliveries IH]; intros acc; cbn; [by left|].
    intros [H|(d' & Hin & H)]%IH; [|right; exists d'; split; [by right|done]].
    case_decide; [|by left]. right. exists d. split; [by left|]. split; [done|congruence]. }
  intros H. destruct (Hgen None H) as [|?]; [done|done].
Qed.

Lemma same_type_same_rule rules r1 r2 :
  NoDup (br_type <$> rules) → r1 ∈ rules → r2 ∈ rules → br_type r1 = br_type r2 → r1 = r2.
Proof.
  induction rules as [|r rules IH]; [by intros _ ?%elem_of_nil|].
  rewrite fmap_cons, NoDup_cons, !elem_of_cons. intros [Hn Hnd] [->|H1] [->|H2] Heq; [done|..].
  - destruct Hn. rewrite Heq. by apply list_elem_of_fmap_2.
  - destruct Hn. rewrite <- Heq. by apply list_elem_of_fmap_2.
  - by apply IH.
Qed.

Lemma elem_of_eligible user b br : br ∈ eligible user b ↔ br ∈ bc_rules b ∧ has_all user (br_scopes br) = true.
Proof. unfold eligible. by rewrite !list_elem_of_In, filter_In. Qed.

(** The policy made of the eligible rules. *)
Lemma eligible_last_rule user b t rule : beacon_ok b →
  last_rule (rule_delivery user <$> eligible user b) t = Some rule ↔
  ∃ br, br ∈ bc_rules b ∧ br_type br = t ∧ has_all user (br_scopes br) = true ∧
    rule = {| dr_predicate := br_predicate br user; dr_debounce := br_debounce br |}.
Proof.
  intros Hok. split.
  - intros (d & Hd & Ht & ->)%last_rule_some. apply list_elem_of_fmap in Hd as (br & -> & Hbr).
    apply elem_of_eligible in Hbr as [? ?]. by exists br.
  - intros (br & Hin & Ht & Hall & ->).
    assert (Hsome : is_Some (last_rule (rule_delivery user <$> eligible user b) t)).
    { apply last_rule_is_Some. rewrite <- list_fmap_compose. apply list_elem_of_fmap. exists br.
      split; [done|]. by apply elem_of_eligible. }
    destruct Hsome as [rule Hrule]. rewrite Hrule. f_equal.
    apply last_rule_some in Hrule as (d & Hd & Ht' & ->). apply list_elem_of_fmap in Hd as (br' & -> & Hbr').
    apply elem_of_eligible in Hbr' as [Hin' _].
    assert (br' = br) as -> by (eapply same_type_same_rule; [apply Hok|done|done|by rewrite Ht]). done.
Qed.

(** An identity that opens a beacon gets the rules whose scopes it was
    granted, all of them and no other: without any it is refused and nothing
    changes; once it is attached, the policy of its channel has a rule for a
    type exactly if the beacon has one whose every scope the identity holds,
    with that rule's predicate for this identity and its debounce window. *)
Theorem beacon_policy_is_scoped steps operation user sub modes r user_key channel_key :
  let b := build_beacon steps in
  user_key_new (au_subject user) = Ok user_key → beacon_channel operation r = Some channel_key →
  (eligible user b = [] → beacon_open b operation user sub modes r = (Err BeaconForbidden, r)) ∧
  ∀ response r', beacon_open b operation user sub modes r = (Ok response, r') →
    ∃ channel, channel_at {| ct_user := user_key; ct_channel := channel_key |} (cr_state r') = Some channel ∧
      ∀ t rule, ch_rules channel !! t = Some rule ↔
        ∃ br, br ∈ bc_rules b ∧ br_type br = t ∧ has_all user (br_scopes br) = true ∧
          rule = {| dr_predicate := br_predicate br user; dr_debounce := br_debounce br |}.
Proof.
  intros b Huser Hchannel. unfold beacon_open. rewrite Huser, Hchannel.
  pose proof (beacon_stream_spec user b (stream_channel channel_key (user_stream user_key))) as Hs.
  destruct (beacon_stream user b _) as [stream rules]. cbn [fst snd] in Hs.
  destruct Hs as (Hd & Hu & Hc & Hn). rewrite Hn. cbn in Hd, Hu, Hc. split; [by intros ->|].
  intros response r'. destruct (eligible user b) as [|e0 es] eqn:Hel; [done|]. rewrite <- Hel in *.
  unfold attach_respond, open_stream. rewrite Hc, Hu, Hd. destruct (Z.land _ modes =? 0); [done|].
  pose proof (open_user_spec user_key channel_key (rule_delivery user <$> eligible user b) (sub_after sub) r) as Ho.
  cbn zeta in Ho. destruct (ensure_channel_limit _ _ _) as [[]|e]; [|by rewrite Ho].
  destruct Ho as (channel & r1 & -> & _ & _ & _ & Hrules & Husers & _). intros Hok.
  assert (r1 = r') as ->.
  { destruct (sub_mode sub =? WS); [destruct (sub_upgrade sub); congruence|].
    destruct (sub_mode sub =? SSE); [congruence|]. destruct (sub_mode sub =? POLL); congruence. }
  exists channel. split; [by rewrite (channel_at_users _ _ _ Husers), channel_at_put, decide_True|].
  intros t rule. rewrite Hrules. apply eligible_last_rule, build_beacon_ok.
Qed.
End BeaconFacts.

Section BeaconExamples.
Import DemoChannels.

(** A WebSocket request on an endpoint without WebSockets, then with them. *)
Definition upgrade_request : ChannelRequest :=
  {| rq_pairs := [("cursor", "12")]; rq_upgrade := Some "WebSocket"; rq_connection := Some "keep-alive, Upgrade";
     rq_accept := None |}%string.

Example attachment_respects_the_transports_witness :
  ∃ sub, extract_subscriber (Ok tt) upgrade_request = Ok sub ∧ sub_after sub = Some 12 ∧
    attach_respond (Z.lor SSE POLL) sub (stream_channel "notes" (deliver note_type (user_stream "ann")))
      (sy_runtime system) = (Err (AttachChannel TransportNotAllowed), sy_runtime system).
Proof.
  destruct (extract_subscriber (Ok tt) upgrade_request) as [sub|e] eqn:Hsub; [|vm_compute in Hsub; discriminate].
  exists sub. split; [done|].
  destruct (attachment_respects_the_transports (Ok tt) upgrade_request sub (Z.lor SSE POLL)
    (stream_channel "notes" (deliver note_type (user_stream "ann"))) (sy_runtime system) Hsub) as (_ & Hc & Hr).
  split; [by vm_compute in Hsub; injection Hsub as <-|]. exact Hr.
Defined.

Definition reader : AuthUser := with_scopes ["notes:live"; "notes:read"]%string (auth_user_new "ann").
Definition demo_beacon : list BeaconStep :=
  [BeaconRuleStep note_type ["notes:read"]%string (λ _ _, true); BeaconDebounceStep note_type 5].

Example beacon_policy_is_scoped_witness :
  let r := sy_runtime (system_new conf {[1 := "beacon"%string]}) in
  let sub := {| sub_mode := POLL; sub_upgrade := false; sub_after := None |} in
  beacon_open (build_beacon demo_beacon) 1 (auth_user_new "bob") sub ALL_TRANSPORTS r = (Err BeaconForbidden, r) ∧
  ∃ response r' channel,
    beacon_open (build_beacon demo_beacon) 1 reader sub ALL_TRANSPORTS r = (Ok response, r') ∧
    channel_at {| ct_user := "ann"; ct_channel := "beacon" |} (cr_state r') = Some channel ∧
    is_Some (ch_rules channel !! note_type).
Proof.
  intros r sub. split.
  - apply (beacon_policy_is_scoped demo_beacon 1 (auth_user_new "bob") sub ALL_TRANSPORTS r "bob" "beacon");
      by vm_compute.
  - destruct (beacon_open (build_beacon demo_beacon) 1 reader sub ALL_TRANSPORTS r) as [[response|e] r'] eqn:Hopen;
      [|vm_compute in Hopen; discriminate].
    destruct (beacon_policy_is_scoped demo_beacon 1 reader sub ALL_TRANSPORTS r "ann" "beacon"
      ltac:(by vm_compute) ltac:(by vm_compute)) as [_ Hpolicy].
    destruct (Hpolicy response r' Hopen) as (channel & Hc & Hrules).
    exists response, r', channel. split; [done|]. split; [done|]. eexists. apply Hrules.
    eexists. split; [by left|]. split; [done|]. split; [by vm_compute|done].
Defined.
End BeaconExamples.
