(* ===== verification/Credentials.v ===== *)
(** * Where credentials travel, and who accepts them

    [auth/location.rs]: reading a credential from a request and the CSRF check
    of cookie credentials; the names of [auth/identity.rs]; the audience sets of
    [auth/runtime/contract.rs] and the dispatch index of
    [auth/runtime/indexes.rs]. Header syntax, cookies on the wire and URL
    decoding are third party: [HttpExternals]. *)
From S2P Require Import Prelude Externals Lifecycle Json ChannelTypes Scopes.
#[local] Open Scope Z_scope.

Inductive CookieSameSite := Lax | Strict | SameSiteNone.
Record CookieConf := {
  ckf_name : string; ckf_path : string; ckf_http_only : bool; ckf_secure : bool; ckf_same_site : CookieSameSite }.

Class HttpExternals := {
  (** [HeaderName::try_from], whose names are lower case, and [HeaderValue::to_str]. *)
  header_name : string → option string;
  header_text : string → option string;
  (** Whether [HeaderValue::try_from] accepts. *)
  header_value_ok : string → bool;
  (** [url::form_urlencoded::parse]. *)
  form_urlencoded : string → list (string * string);
  (** [Cookie::build(..)] of the configuration, rendered, with a value and a [Max-Age]. *)
  cookie_text : CookieConf → string → Z → string }.

(** ** Errors *)

Inductive AuthError :=
  | NoCredential | MalformedLocation | InvalidCredential | ExpiredCredential | CredentialNotYetValid
  | WrongTokenKind | AudienceMismatch | AuthForbidden | InsufficientScope | InvalidCsrfToken
  | MissingAudienceContext
  | ProviderNotFound (id : string)
  | InvalidProviderId (id : string)
  | ReservedProviderId (id : string)
  | InvalidAudience (name : string)
  | DuplicateProvider (id : string)
  | LoginMethodNotFound (id : string)
  | InvalidLoginMethod (id : string)
  | DuplicateLoginMethod (id : string)
  | LoginMethodTypeMismatch (id : string)
  | InvalidLoginState | ExpiredLoginState
  | AmbiguousProvider (text : string)
  | InvalidProviderConfig (text : string)
  | UnsupportedProviderCapability | ProviderUnavailable | UnsupportedLocationCapability | DeliveryFailed
  | AuthInternal (text : string).

Definition auth_status (e : AuthError) : Z :=
  match e with
  | AuthForbidden | InsufficientScope | InvalidCsrfToken => 403
  | NoCredential | MalformedLocation | InvalidCredential | ExpiredCredential | CredentialNotYetValid
  | WrongTokenKind | AudienceMismatch | InvalidLoginState | ExpiredLoginState => 401
  | ProviderUnavailable => 503
  | _ => 500
  end.

(** ** Text *)

Definition byte (c : Ascii.ascii) : nat := Ascii.nat_of_ascii c.
Definition newline : string := String (Ascii.ascii_of_nat 10) "".

(** The rest of a text after one leading [char::is_whitespace], in UTF-8. *)
Definition skip_space (s : string) : option string :=
  match s with
  | String a s1 =>
      if (9 <=? byte a)%nat && (byte a <=? 13)%nat || (byte a =? 32)%nat then Some s1
      else
        match s1 with
        | String b s2 =>
            if (byte a =? 194)%nat && ((byte b =? 133)%nat || (byte b =? 160)%nat) then Some s2
            else
              match s2 with
              | String c s3 =>
                  if (byte a =? 225)%nat && (byte b =? 154)%nat && (byte c =? 128)%nat
                     || (byte a =? 226)%nat && (byte b =? 128)%nat
                        && ((128 <=? byte c)%nat && (byte c <=? 138)%nat || (byte c =? 168)%nat
                            || (byte c =? 169)%nat || (byte c =? 175)%nat)
                     || (byte a =? 226)%nat && (byte b =? 129)%nat && (byte c =? 159)%nat
                     || (byte a =? 227)%nat && (byte b =? 128)%nat && (byte c =? 128)%nat
                  then Some s3 else None
              | EmptyString => None
              end
        | EmptyString => None
        end
  | EmptyString => None
  end.
(** [trim_start], with a turn a character at most. *)
Fixpoint trim_turns (fuel : nat) (s : string) : string :=
  match fuel with
  | O => s
  | S fuel => match skip_space s with Some rest => trim_turns fuel rest | None => s end
  end.
Definition trim_start (s : string) : string := trim_turns (String.length s) s.
(** [trim().is_empty()]. *)
Definition is_blank (s : string) : bool := String.eqb (trim_start s) "".
Fixpoint trim_end (s : string) : string :=
  match s with
  | String c rest => if is_blank s then EmptyString else String c (trim_end rest)
  | EmptyString => EmptyString
  end.
Definition trim (s : string) : string := trim_end (trim_start s).

Fixpoint split_once (sep : Ascii.ascii) (s : string) : option (string * string) :=
  match s with
  | EmptyString => None
  | String c rest =>
      if Ascii.eqb c sep then Some (EmptyString, rest)
      else match split_once sep rest with Some (a, b) => Some (String c a, b) | None => None end
  end.
Fixpoint split_all (sep : Ascii.ascii) (s : string) : list string :=
  match s with
  | EmptyString => [EmptyString]
  | String c rest =>
      if Ascii.eqb c sep then EmptyString :: split_all sep rest
      else match split_all sep rest with a :: l => String c a :: l | [] => [String c EmptyString] end
  end.
Definition eq_ignore_ascii_case (a b : string) : bool := String.eqb (to_ascii_lowercase a) (to_ascii_lowercase b).

Definition ascii_alphanumeric (c : Ascii.ascii) : bool :=
  let n := byte c in
  (48 <=? n)%nat && (n <=? 57)%nat || (65 <=? n)%nat && (n <=? 90)%nat || (97 <=? n)%nat && (n <=? 122)%nat.
Definition all_bytes (f : Ascii.ascii → bool) (s : string) : bool := forallb f (String.list_ascii_of_string s).

(** ** Names *)

Definition id_byte (c : Ascii.ascii) : bool := ascii_alphanumeric c || (byte c =? 45)%nat || (byte c =? 95)%nat.
Definition provider_id_new (value : string) : result AuthError string :=
  if is_blank value || negb (all_bytes id_byte value) then Err (InvalidProviderId value) else Ok value.
Definition login_method_id_new (value : string) : result AuthError string :=
  if is_blank value || negb (all_bytes id_byte value) then Err (InvalidLoginMethod value) else Ok value.

Definition audience_byte (c : Ascii.ascii) : bool :=
  id_byte c || (byte c =? 46)%nat || (byte c =? 58)%nat || (byte c =? 47)%nat.
Definition audience_id_new (value : string) : result AuthError string :=
  if is_blank value || (128 <? str_len value) || negb (all_bytes audience_byte value)
  then Err (InvalidAudience value) else Ok value.

Fixpoint collect_ids (values output : list string) : result AuthError (list string) :=
  match values with
  | [] => Ok output
  | value :: values =>
      let? audience := audience_id_new value in
      collect_ids values (if bool_decide (audience ∈ output) then output else output ++ [audience])
  end.
Definition collect_audiences (values : list string) : result AuthError (list string) :=
  let? output := collect_ids values [] in
  match output with
  | [] => Err (InvalidProviderConfig "credentials require at least one audience")
  | _ => Ok output
  end.
Definition resolve_audiences (values : list string) (default_audience : option string) :
    result AuthError (list string) :=
  match values with
  | [] => match default_audience with
          | Some value => Ok [value]
          | None => Err (InvalidProviderConfig "an explicit audience is required")
          end
  | _ => collect_audiences values
  end.

(** ** Requests *)

(** Header names are lower case, values as sent. *)
Record Parts := { pt_method : string; pt_headers : list (string * string); pt_query : option string }.
Definition get_all (name : string) (p : Parts) : list string :=
  (List.filter (λ h, String.eqb h.1 name) (pt_headers p)).*2.
Definition safe_method (method : string) : bool :=
  bool_decide (method ∈ ["GET"; "HEAD"; "OPTIONS"; "TRACE"]%string).

Definition MAX_CREDENTIAL_BYTES : Z := 16 * 1024.
Definition MAX_CREDENTIAL_SOURCE_BYTES : Z := 64 * 1024.

Definition semicolon : Ascii.ascii := Ascii.ascii_of_nat 59.
Definition equals_sign : Ascii.ascii := Ascii.ascii_of_nat 61.
Definition space : Ascii.ascii := Ascii.ascii_of_nat 32.

(** ** Cookies and queries of a request *)

(** A name, and its value unless it has none or is given twice. *)
Definition SourceValues : Type := list (string * option string).

(** [insert_cookie] and [insert_query]. *)
Fixpoint insert_value (name : string) (value : option string) (values : SourceValues) : SourceValues :=
  match values with
  | [] => [(name, value)]
  | (candidate, existing) :: rest =>
      if String.eqb candidate name then (candidate, None) :: rest
      else (candidate, existing) :: insert_value name value rest
  end.
Definition find_value (name : string) (values : SourceValues) : option (option string) :=
  snd <$> List.find (λ v, String.eqb v.1 name) values.
Definition selected_value (value : option (option string)) : result AuthError (option string) :=
  match value with
  | Some (Some value) => Ok (Some value)
  | Some None => Err MalformedLocation
  | None => Ok None
  end.

Definition parse_cookie_item (values : SourceValues) (item : string) : SourceValues :=
  let item := trim item in
  match split_once equals_sign item with
  | Some (name, value) => insert_value name (if String.eqb value "" then None else Some value) values
  | None => if String.eqb item "" then values else insert_value item None values
  end.
Definition parse_cookie_header (header : string) (values : SourceValues) : SourceValues :=
  foldl parse_cookie_item values (split_all semicolon header).

Section Locations.
Context `{H : HttpExternals}.

(** The cookies of a request, and whether a header is too much or no text. *)
Fixpoint parse_cookie_headers (scanned : Z) (headers : list string) (values : SourceValues) (malformed : bool) :
    SourceValues * bool :=
  match headers with
  | [] => (values, malformed)
  | header :: headers =>
      let scanned := usize_saturating (scanned + str_len header) in
      if MAX_CREDENTIAL_SOURCE_BYTES <? scanned then (values, true)
      else
        match header_text header with
        | Some text => parse_cookie_headers scanned headers (parse_cookie_header text values) malformed
        | None => parse_cookie_headers scanned headers values true
        end
  end.
Definition parse_cookies (p : Parts) : SourceValues * bool := parse_cookie_headers 0 (get_all "cookie" p) [] false.

Definition insert_pair (values : SourceValues) (pair : string * string) : SourceValues :=
  insert_value pair.1 (if String.eqb pair.2 "" then None else Some pair.2) values.
Definition parse_query (p : Parts) : SourceValues * bool :=
  match pt_query p with
  | Some query =>
      if MAX_CREDENTIAL_SOURCE_BYTES <? str_len query then ([], true)
      else (foldl insert_pair [] (form_urlencoded query), false)
  | None => ([], false)
  end.

(** [RequestCredentialScan::cookie] and [query], which parse a request once. *)
Definition scan_value (parsed : SourceValues * bool) (name : string) : result AuthError (option string) :=
  if parsed.2 then Err MalformedLocation else selected_value (find_value name parsed.1).
Definition has_authorization (p : Parts) : bool :=
  existsb (λ v, negb (String.eqb v "")) (get_all "authorization" p).

(** Without a scan: the walk ends at the first malformed item. *)
Fixpoint extract_items (name : string) (items : list string) (found : option string) :
    result AuthError (option string) :=
  match items with
  | [] => Ok found
  | item :: items =>
      match split_once equals_sign (trim item) with
      | None => Err MalformedLocation
      | Some (candidate, value) =>
          if negb (String.eqb candidate name) then extract_items name items found
          else if String.eqb value "" || bool_decide (is_Some found) then Err MalformedLocation
          else extract_items name items (Some value)
      end
  end.
Fixpoint extract_cookie_headers (name : string) (headers : list string) (found : option string) :
    result AuthError (option string) :=
  match headers with
  | [] => Ok found
  | header :: headers =>
      let? text := ok_or (header_text header) MalformedLocation in
      let? found := extract_items name (split_all semicolon text) found in
      extract_cookie_headers name headers found
  end.
Definition extract_cookie (p : Parts) (name : string) : result AuthError (option string) :=
  extract_cookie_headers name (get_all "cookie" p) None.

Fixpoint extract_pairs (key : string) (pairs : list (string * string)) (found : option string) :
    result AuthError (option string) :=
  match pairs with
  | [] => Ok found
  | (name, value) :: pairs =>
      if negb (String.eqb name key) then extract_pairs key pairs found
      else if String.eqb value "" || bool_decide (is_Some found) then Err MalformedLocation
      else extract_pairs key pairs (Some value)
  end.
Definition extract_query (p : Parts) (key : string) : result AuthError (option string) :=
  match pt_query p with Some query => extract_pairs key (form_urlencoded query) None | None => Ok None end.

(** ** CSRF *)

Record CsrfConf := { csrf_cookie : CookieConf; csrf_header_name : string }.

Definition cookie_conf_new (name : string) : CookieConf :=
  {| ckf_name := name; ckf_path := "/"; ckf_http_only := true; ckf_secure := true; ckf_same_site := Lax |}.
Definition cookie_http_only (value : bool) (c : CookieConf) : CookieConf :=
  {| ckf_name := ckf_name c; ckf_path := ckf_path c; ckf_http_only := value; ckf_secure := ckf_secure c;
     ckf_same_site := ckf_same_site c |}.
Definition csrf_conf_new (cookie_name : string) : CsrfConf :=
  {| csrf_cookie := cookie_http_only false (cookie_conf_new cookie_name); csrf_header_name := "x-csrf-token" |}.

Definition validate_header (name : string) (scheme : option string) : result AuthError unit :=
  if bool_decide (header_name name = None) then Err (InvalidProviderConfig "invalid credential header name")
  else if bool_decide (scheme = Some ""%string)
  then Err (InvalidProviderConfig "credential header scheme cannot be empty")
  else Ok tt.
Definition validate_cookie (c : CookieConf) : result AuthError unit :=
  if is_blank (ckf_name c) || negb (String.prefix "/" (ckf_path c))
  then Err (InvalidProviderConfig "credential cookie requires a name and absolute path") else Ok tt.

Definition csrf_validate (c : CsrfConf) : result AuthError unit :=
  let? _ := validate_cookie (csrf_cookie c) in
  if ckf_http_only (csrf_cookie c)
  then Err (InvalidProviderConfig "CSRF cookies must remain readable by the client")
  else validate_header (csrf_header_name c) None.

Definition csrf_verify (c : CsrfConf) (p : Parts) : result AuthError unit :=
  if safe_method (pt_method p) then Ok tt
  else
    let? header := ok_or (header_name (csrf_header_name c)) InvalidCsrfToken in
    let values := get_all header p in
    let? supplied := ok_or (match values with v :: _ => header_text v | [] => None end) InvalidCsrfToken in
    if String.eqb supplied "" || match values with _ :: _ :: _ => true | _ => false end then Err InvalidCsrfToken
    else
      let? cookie := extract_cookie p (ckf_name (csrf_cookie c)) in
      let? expected := ok_or cookie InvalidCsrfToken in
      if String.eqb expected supplied then Ok tt else Err InvalidCsrfToken.
Definition validate_csrf (c : option CsrfConf) (p : Parts) : result AuthError unit :=
  match c with Some c => csrf_verify c p | None => Ok tt end.

(** A header of a response. *)
Definition Attachment : Type := string * string.
Definition cookie_header (c : CookieConf) (value : string) (ttl : Z) : result AuthError Attachment :=
  let text := cookie_text c value ttl in
  if header_value_ok text then Ok ("set-cookie"%string, text) else Err DeliveryFailed.
Definition clear_cookie (c : CookieConf) : result AuthError Attachment := cookie_header c "" 0.

(** ** Locations *)

Inductive CredentialLocation :=
  | LocHeader (name : string) (parsed : option string) (scheme : option string)
  | LocCookie (cookie : CookieConf)
  | LocQuery (name : string).

Definition location_header (name : string) (scheme : option string) : CredentialLocation :=
  LocHeader name (header_name name) scheme.
Definition location_bearer : CredentialLocation := location_header "authorization" (Some "Bearer"%string).

Definition location_selector (l : CredentialLocation) : string :=
  match l with
  | LocHeader name _ scheme =>
      "header:" +:+ to_ascii_lowercase name +:+ ":" +:+ to_ascii_lowercase (default "" scheme)
  | LocCookie cookie => "cookie:" +:+ ckf_name cookie
  | LocQuery name => "query:" +:+ name
  end.
Definition is_cookie (l : CredentialLocation) : bool := match l with LocCookie _ => true | _ => false end.

Definition location_validate (l : CredentialLocation) : result AuthError unit :=
  match l with
  | LocHeader name parsed scheme =>
      if bool_decide (parsed = None) then Err (InvalidProviderConfig "invalid credential header name")
      else validate_header name scheme
  | LocCookie cookie => validate_cookie cookie
  | LocQuery name =>
      if is_blank name then Err (InvalidProviderConfig "credential query name cannot be empty") else Ok tt
  end.
Definition validate_production_cookie (l : CredentialLocation) : result AuthError unit :=
  match l with
  | LocCookie cookie =>
      if negb (ckf_secure cookie) || negb (ckf_http_only cookie)
      then Err (InvalidProviderConfig "authentication cookies must be Secure and HttpOnly in production")
      else
        match ckf_same_site cookie with
        | SameSiteNone =>
            if ckf_secure cookie then Ok tt
            else Err (InvalidProviderConfig "SameSite=None authentication cookies must be Secure")
        | _ => Ok tt
        end
  | _ => Ok tt
  end.
Definition default_csrf (l : CredentialLocation) : option CsrfConf :=
  match l with
  | LocCookie cookie =>
      Some {| csrf_cookie := {| ckf_name := ckf_name cookie +:+ "_csrf"; ckf_path := ckf_path cookie;
                                ckf_http_only := false; ckf_secure := ckf_secure cookie;
                                ckf_same_site := ckf_same_site cookie |};
              csrf_header_name := "x-csrf-token" |}
  | _ => None
  end.

Definition extract_header (p : Parts) (name scheme : option string) : result AuthError (option string) :=
  let? name := ok_or name MalformedLocation in
  match get_all name p with
  | [] => Ok None
  | _ :: _ :: _ => Err MalformedLocation
  | [value] =>
      let? text := ok_or (header_text value) MalformedLocation in
      let? raw := match scheme with
                  | Some scheme =>
                      match split_once space text with
                      | Some (actual, raw) =>
                          if eq_ignore_ascii_case actual scheme && negb (String.eqb raw "")
                          then Ok raw else Err MalformedLocation
                      | None => Err MalformedLocation
                      end
                  | None => Ok text
                  end in
      if String.eqb raw "" then Err MalformedLocation else Ok (Some raw)
  end.

Definition validate_extracted_size (value : option string) : result AuthError (option string) :=
  match value with
  | Some raw => if MAX_CREDENTIAL_BYTES <? str_len raw then Err MalformedLocation else Ok value
  | None => Ok value
  end.

(** [extract], and [extract_from] over a scan of the request. *)
Definition location_extract (l : CredentialLocation) (p : Parts) : result AuthError (option string) :=
  let? value := match l with
                | LocHeader _ parsed scheme => extract_header p parsed scheme
                | LocCookie cookie => extract_cookie p (ckf_name cookie)
                | LocQuery name => extract_query p name
                end in
  validate_extracted_size value.
Definition extract_from (l : CredentialLocation) (p : Parts) : result AuthError (option string) :=
  let? value := match l with
                | LocHeader _ parsed scheme => extract_header p parsed scheme
                | LocCookie cookie => scan_value (parse_cookies p) (ckf_name cookie)
                | LocQuery name => scan_value (parse_query p) name
                end in
  validate_extracted_size value.

Definition location_attachment (l : CredentialLocation) (value : string) (ttl : Z) :
    result AuthError (option Attachment) :=
  match l with
  | LocCookie cookie => let? a := cookie_header cookie value ttl in Ok (Some a)
  | _ => Ok None
  end.
Definition location_clear (l : CredentialLocation) : result AuthError (option Attachment) :=
  match l with LocCookie cookie => let? a := clear_cookie cookie in Ok (Some a) | _ => Ok None end.
Definition response_attachment (name value : string) : result AuthError Attachment :=
  let? name := ok_or (header_name name) DeliveryFailed in
  if header_value_ok value then Ok (name, value) else Err DeliveryFailed.
End Locations.

(** ** Audience coverage and dispatch *)

Inductive ProviderAudienceSet := AudAny | AudOnly (values : list string).

Definition audience_set_only (values : list string) : result AuthError ProviderAudienceSet :=
  let sorted := sort_by_key str_le id values in
  let values := dedup sorted in
  if (zlen values =? 0) || (64 <? zlen values) || negb (zlen values =? zlen sorted)
  then Err (InvalidProviderConfig "provider audiences must contain between 1 and 64 unique values")
  else Ok (AudOnly values).
Definition aud_supports (s : ProviderAudienceSet) (audience : string) : bool :=
  match s with AudAny => true | AudOnly values => is_ok (binary_search values audience) end.
Definition validate_requested (s : ProviderAudienceSet) (audiences : list string) : result AuthError unit :=
  if forallb (aud_supports s) audiences then Ok tt else Err AudienceMismatch.

Fixpoint declare_audiences (values : list string) : result AuthError (list string) :=
  match values with
  | [] => Ok []
  | value :: values =>
      let? id := audience_id_new value in let? ids := declare_audiences values in Ok (id :: ids)
  end.
(** [provider_audiences], over [resource_audiences]. *)
Definition provider_audiences (values : option (list string)) : result AuthError ProviderAudienceSet :=
  match values with
  | None => Ok AudAny
  | Some values => let? ids := declare_audiences values in audience_set_only ids
  end.

(** A [BTreeMap] read in the order of its keys. *)
Definition btree_entries {A} (m : gmap string A) : list (string * A) := sort_by_key str_le fst (map_to_list m).

Record AccessIndex := { ai_access : gmap string (gmap string nat); ai_unrestricted : gmap string nat }.
Definition access_index_new : AccessIndex := {| ai_access := ∅; ai_unrestricted := ∅ |}.

Definition ambiguous {A} (selector audience : string) : result AuthError A :=
  Err (AmbiguousProvider (selector +:+ " for audience '" +:+ audience +:+ "'")).

Definition insert_unrestricted (selector : string) (position : nat) (i : AccessIndex) : result AuthError AccessIndex :=
  if bool_decide (is_Some (ai_unrestricted i !! selector))
  then Err (AmbiguousProvider (selector +:+ " for unrestricted audiences"))
  else
    match List.find (λ e, bool_decide (is_Some (e.2 !! selector))) (btree_entries (ai_access i)) with
    | Some (audience, _) => ambiguous selector audience
    | None => Ok {| ai_access := ai_access i; ai_unrestricted := <[selector := position]> (ai_unrestricted i) |}
    end.
Definition insert_restricted (selector : string) (position : nat) (audience : string) (i : AccessIndex) :
    result AuthError AccessIndex :=
  if bool_decide (is_Some (ai_unrestricted i !! selector)) then ambiguous selector audience
  else
    let values := default ∅ (ai_access i !! audience) in
    if bool_decide (is_Some (values !! selector)) then ambiguous selector audience
    else Ok {| ai_access := <[audience := <[selector := position]> values]> (ai_access i);
               ai_unrestricted := ai_unrestricted i |}.
Fixpoint insert_audiences (selector : string) (position : nat) (audiences : list string) (i : AccessIndex) :
    result AuthError AccessIndex :=
  match audiences with
  | [] => Ok i
  | audience :: audiences =>
      let? i := insert_restricted selector position audience i in insert_audiences selector position audiences i
  end.
Definition access_insert (audiences : ProviderAudienceSet) (selector : string) (position : nat) (i : AccessIndex) :
    result AuthError AccessIndex :=
  match audiences with
  | AudAny => insert_unrestricted selector position i
  | AudOnly values => insert_audiences selector position values i
  end.

(** The loop of [validate_access_selectors] and of [RuntimeIndexes::build]. *)
Fixpoint build_access (position : nat) (values : list (string * ProviderAudienceSet)) (i : AccessIndex) :
    result AuthError AccessIndex :=
  match values with
  | [] => Ok i
  | (selector, audiences) :: values =>
      let? i := access_insert audiences selector position i in build_access (S position) values i
  end.
Definition validate_access_selectors (values : list (string * ProviderAudienceSet)) : result AuthError unit :=
  let? _ := build_access 0 values access_index_new in Ok tt.

(** The providers that may serve an audience. *)
Definition access_for (i : AccessIndex) (audience : string) : list nat :=
  (btree_entries (default ∅ (ai_access i !! audience))).*2 ++ (btree_entries (ai_unrestricted i)).*2.

(** ** What the index promises *)

Definition covers (s : ProviderAudienceSet) (audience : string) : Prop :=
  match s with AudAny => True | AudOnly values => audience ∈ values end.
(** Two providers a request for some audience could not be told apart by. *)
Definition overlaps (e e' : string * ProviderAudienceSet) : Prop :=
  e.1 = e'.1 ∧ ∃ audience, covers e.2 audience ∧ covers e'.2 audience.
Definition audience_set_ok (s : ProviderAudienceSet) : Prop :=
  match s with AudAny => True | AudOnly values => values ≠ [] ∧ sorted_scopes values end.
Definition unambiguous (values : list (string * ProviderAudienceSet)) : Prop :=
  ∀ i j e e', i ≠ j → values !! i = Some e → values !! j = Some e' → ¬ overlaps e e'.

Record index_ok (values : list (string * ProviderAudienceSet)) (i : AccessIndex) : Prop := {
  index_restricted a sel pos :
    default ∅ (ai_access i !! a) !! sel = Some pos ↔ ∃ l, values !! pos = Some (sel, AudOnly l) ∧ a ∈ l;
  index_unrestricted sel pos : ai_unrestricted i !! sel = Some pos ↔ values !! pos = Some (sel, AudAny) }.

Lemma only_sorted values s : audience_set_only values = Ok s → audience_set_ok s.
Proof.
  unfold audience_set_only. destruct (zlen _ =? 0) eqn:Hz; [done|]. destruct (64 <? _); [done|].
  destruct (negb _); [done|]. cbn. intros [= <-]. split.
  - intros Hn. rewrite Hn in Hz. done.
  - exact (normalize_sorted values).
Qed.

Lemma aud_supports_spec s audience : audience_set_ok s → aud_supports s audience = true ↔ covers s audience.
Proof.
  destruct s as [|values]; cbn; [done|]. intros [_ Hs].
  pose proof (has_scope_spec (put_scopes values (auth_user_new "")) audience Hs) as H. exact H.
Qed.

Lemma lookup_snoc {A} (l : list A) x i y : (l ++ [x]) !! i = Some y ↔ l !! i = Some y ∨ i = length l ∧ y = x.
Proof.
  rewrite lookup_app_Some. split.
  - intros [H|[Hi H]]; [by left|]. right. destruct (i - length l)%nat as [|n] eqn:Hn; [|done].
    injection H as <-. split; [lia|done].
  - intros [H|[-> ->]]; [by left|]. right. by rewrite Nat.sub_diag.
Qed.

Lemma insert_restricted_ok vs sel seen a i :
  index_ok (vs ++ [(sel, AudOnly seen)]) i →
  match insert_restricted sel (length vs) a i with
  | Ok i' => index_ok (vs ++ [(sel, AudOnly (seen ++ [a]))]) i' ∧ a ∉ seen ∧
      ∀ j s, vs !! j = Some (sel, s) → ¬ covers s a
  | Err _ => a ∈ seen ∨ ∃ j s, vs !! j = Some (sel, s) ∧ covers s a
  end.
Proof.
  intros [Hr Hu]. unfold insert_restricted, ambiguous.
  case_bool_decide as Hun.
  { destruct Hun as [pos Hpos]. apply Hu, lookup_snoc in Hpos as [Hpos|[_ [=]]]. right. by exists pos, AudAny. }
  case_bool_decide as Hin.
  { destruct Hin as [pos Hpos]. apply Hr in Hpos as (l & Hl & Ha).
    apply lookup_snoc in Hl as [Hl|[_ [= ->]]]; [right; by exists pos, (AudOnly l)|by left]. }
  assert (Hno : ∀ pos, ¬ default ∅ (ai_access i !! a) !! sel = Some pos) by (intros pos Hp; apply Hin; by exists pos).
  split_and!.
  - split; cbn.
    + intros a' sel' pos. destruct (decide (a = a')) as [<-|Ha].
      * rewrite lookup_insert_eq. cbn. destruct (decide (sel = sel')) as [<-|Hsel].
        -- rewrite lookup_insert_eq. split.
           ++ intros [= <-]. exists (seen ++ [a]). rewrite lookup_snoc. split; [by right|]. apply elem_of_app. right. by left.
           ++ intros (l & Hl & Hal). apply lookup_snoc in Hl as [Hl|[-> _]]; [|done].
              exfalso. apply (Hno pos), Hr. exists l. rewrite lookup_snoc. by split; [left|].
        -- rewrite lookup_insert_ne by done. rewrite Hr. split; intros (l & Hl & Hal); exists l;
             (split; [|done]); rewrite lookup_snoc in *; destruct Hl as [Hl|[_ [= ]]]; try congruence; by left.
      * rewrite lookup_insert_ne by done. rewrite Hr. split; intros (l & Hl & Hal); rewrite lookup_snoc in Hl.
        -- destruct Hl as [Hl|[-> [= -> ->]]]; [exists l; rewrite lookup_snoc; by split; [left|]|].
           exists (seen ++ [a]). rewrite lookup_snoc. split; [by right|]. apply elem_of_app. by left.
        -- destruct Hl as [Hl|[-> [= -> ->]]]; [exists l; rewrite lookup_snoc; by split; [left|]|].
           exists seen. rewrite lookup_snoc. split; [by right|]. apply elem_of_app in Hal as [Hal|Hal]; [done|].
           apply list_elem_of_singleton in Hal. congruence.
    + intros sel' pos. rewrite Hu, !lookup_snoc. naive_solver.
  - intros Hs. apply (Hno (length vs)), Hr. exists seen. rewrite lookup_snoc. by split; [right|].
  - intros j [|l] Hj Hc; cbn in Hc.
    + apply Hun. exists j. apply Hu. rewrite lookup_snoc. by left.
    + apply (Hno j), Hr. exists l. rewrite lookup_snoc. by split; [left|].
Qed.

Lemma insert_audiences_ok vs sel l : ∀ seen i,
  NoDup (seen ++ l) → index_ok (vs ++ [(sel, AudOnly seen)]) i →
  match insert_audiences sel (length vs) l i with
  | Ok i' => index_ok (vs ++ [(sel, AudOnly (seen ++ l))]) i' ∧
      ∀ j s a, vs !! j = Some (sel, s) → a ∈ l → ¬ covers s a
  | Err _ => ∃ j s a, vs !! j = Some (sel, s) ∧ a ∈ l ∧ covers s a
  end.
Proof.
  induction l as [|a l IH]; intros seen i Hnd Hok; cbn.
  - rewrite app_nil_r. split; [done|]. by intros j s a _ Ha%elem_of_nil.
  - pose proof (insert_restricted_ok vs sel seen a i Hok) as H.
    destruct (insert_restricted _ _ _ _) as [i'|e]; cbn.
    + destruct H as (Hok' & _ & Hcov).
      assert (Hnd' : NoDup ((seen ++ [a]) ++ l)) by (by rewrite <- app_assoc).
      specialize (IH (seen ++ [a]) i' Hnd' Hok'). destruct (insert_audiences _ _ _ _) as [i''|e].
      * destruct IH as [Hok'' Hc]. rewrite <- app_assoc in Hok''. split; [done|].
        intros j s a' Hj Ha'. apply elem_of_cons in Ha' as [->|Ha']; [by eapply Hcov|by eapply Hc].
      * destruct IH as (j & s & a' & Hj & Ha' & Hc). exists j, s, a'. split_and!; [done|by right|done].
    + destruct H as [Hin|(j & s & Hj & Hc)].
      * exfalso. apply NoDup_app in Hnd as (_ & Hd & _). apply (Hd a Hin). by left.
      * exists j, s, a. split_and!; [done|by left|done].
Qed.

Lemma sorted_scopes_NoDup l : sorted_scopes l → NoDup l.
Proof.
  induction 1 as [|x l Hs IH Hx]; constructor; [|done]. intros Hin. rewrite Forall_forall in Hx.
  by apply (scope_lt_irrefl x), Hx.
Qed.

Lemma btree_entries_lookup {A} (m : gmap string A) k x : (k, x) ∈ btree_entries m ↔ m !! k = Some x.
Proof. unfold btree_entries. rewrite sort_by_key_perm. apply elem_of_map_to_list. Qed.

Lemma index_ok_snoc_empty vs sel i : index_ok vs i → index_ok (vs ++ [(sel, AudOnly [])]) i.
Proof.
  intros [Hr Hu]. split.
  - intros a sel' pos. rewrite Hr. split; intros (l & Hl & Ha); exists l.
    + rewrite lookup_snoc. by split; [left|].
    + apply lookup_snoc in Hl as [Hl|[_ [= -> ->]]]; [done|by apply elem_of_nil in Ha].
  - intros sel' pos. rewrite Hu, lookup_snoc. naive_solver.
Qed.

Lemma insert_unrestricted_ok vs sel i :
  index_ok vs i → Forall (λ e, audience_set_ok e.2) vs →
  match insert_unrestricted sel (length vs) i with
  | Ok i' => index_ok (vs ++ [(sel, AudAny)]) i' ∧ ∀ j s, vs !! j ≠ Some (sel, s)
  | Err _ => ∃ j s, vs !! j = Some (sel, s)
  end.
Proof.
  intros [Hr Hu] Hwf. unfold insert_unrestricted, ambiguous.
  case_bool_decide as Hun; [destruct Hun as [pos Hpos]; exists pos, AudAny; by apply Hu|].
  destruct (List.find _ _) as [[a m]|] eqn:Hf.
  - apply find_some in Hf as [Hin Hm]. apply bool_decide_eq_true in Hm as [pos Hpos].
    apply list_elem_of_In, btree_entries_lookup in Hin.
    assert (Hp : default ∅ (ai_access i !! a) !! sel = Some pos) by (by rewrite Hin).
    apply Hr in Hp as (l & Hl & _). by exists pos, (AudOnly l).
  - assert (Hno : ∀ a pos, default ∅ (ai_access i !! a) !! sel ≠ Some pos).
    { intros a pos Hp. destruct (ai_access i !! a) as [m|] eqn:Hm; [|done]. cbn in Hp.
      assert (Hin : In (a, m) (btree_entries (ai_access i))) by (by apply list_elem_of_In, btree_entries_lookup).
      pose proof (find_none _ _ Hf _ Hin) as Hno. apply bool_decide_eq_false in Hno. apply Hno. by exists pos. }
    assert (Hfree : ∀ j s, vs !! j ≠ Some (sel, s)).
    { intros j [|l] Hj; [apply Hun; exists j; by apply Hu|]. pose proof Hj as Hw.
      eapply Forall_lookup_1 in Hw; [|done]. destruct Hw as [Hl _]. destruct l as [|a l]; [done|].
      apply (Hno a j), Hr. exists (a :: l). split; [done|by left]. }
    split; [|done]. split; cbn.
    + intros a sel' pos. rewrite Hr. split; intros (l & Hl & Ha); exists l; (split; [|done]);
        rewrite lookup_snoc in *; [by left|by destruct Hl as [?|[_ [= ]]]].
    + intros sel' pos. rewrite lookup_snoc. destruct (decide (sel = sel')) as [<-|Hsel].
      * rewrite lookup_insert_eq. split; [intros [= <-]; by right|].
        intros [Hp|[-> _]]; [|done]. by destruct (Hfree pos AudAny).
      * rewrite lookup_insert_ne by done. rewrite Hu. split; [by left|]. intros [?|[_ [= ]]]; [done|congruence].
Qed.

Lemma unambiguous_snoc vs e :
  unambiguous vs → (∀ j e', vs !! j = Some e' → ¬ overlaps e' e) → unambiguous (vs ++ [e]).
Proof.
  intros Hu He i j x y Hij Hx Hy. apply lookup_snoc in Hx as [Hx|[-> ->]]; apply lookup_snoc in Hy as [Hy|[-> ->]].
  - by eapply Hu.
  - by eapply He.
  - intros (Hs & a & Ha & Hb). apply (He j y Hy). split; [done|]. by exists a.
  - done.
Qed.

Lemma access_insert_ok vs sel s i :
  index_ok vs i → Forall (λ e, audience_set_ok e.2) vs → audience_set_ok s →
  match access_insert s sel (length vs) i with
  | Ok i' => index_ok (vs ++ [(sel, s)]) i' ∧ ∀ j e, vs !! j = Some e → ¬ overlaps e (sel, s)
  | Err _ => ∃ j e, vs !! j = Some e ∧ overlaps e (sel, s)
  end.
Proof.
  intros Hok Hwf Hs. destruct s as [|l]; cbn.
  - pose proof (insert_unrestricted_ok vs sel i Hok Hwf) as H. destruct (insert_unrestricted _ _ _) as [i'|e].
    + destruct H as [Hok' Hfree]. split; [done|]. intros j [sel' s] Hj [Hsel _]. cbn in Hsel. subst. by eapply Hfree.
    + destruct H as (j & s & Hj). exists j, (sel, s). split; [done|]. split; [done|]. cbn.
      pose proof Hj as Hw. eapply Forall_lookup_1 in Hw; [|done]. destruct s as [|[|a l]]; [by exists ""|by destruct Hw|].
      exists a. split; [by left|done].
  - destruct Hs as [_ Hsort]. apply sorted_scopes_NoDup in Hsort.
    pose proof (insert_audiences_ok vs sel l [] i Hsort (index_ok_snoc_empty vs sel i Hok)) as H.
    destruct (insert_audiences _ _ _ _) as [i'|e].
    + destruct H as [Hok' Hc]. split; [done|]. intros j [sel' s] Hj (Hsel & a & Ha & Hl). cbn in *. subst.
      by eapply Hc.
    + destruct H as (j & s & a & Hj & Ha & Hc). exists j, (sel, s). split; [done|]. split; [done|]. by exists a.
Qed.

Lemma build_access_ok rest : ∀ vs i,
  index_ok vs i → unambiguous vs → Forall (λ e, audience_set_ok e.2) (vs ++ rest) →
  match build_access (length vs) rest i with
  | Ok i' => index_ok (vs ++ rest) i' ∧ unambiguous (vs ++ rest)
  | Err _ => ¬ unambiguous (vs ++ rest)
  end.
Proof.
  induction rest as [|[sel s] rest IH]; intros vs i Hok Hun Hwf; cbn; [by rewrite app_nil_r|].
  pose proof Hwf as Hwf'. apply Forall_app in Hwf' as [Hv Hr]. apply Forall_cons in Hr as [Hs _]. cbn in Hs.
  pose proof (access_insert_ok vs sel s i Hok Hv Hs) as H. destruct (access_insert _ _ _ _) as [i'|e]; cbn.
  - destruct H as [Hok' Hno]. specialize (IH (vs ++ [(sel, s)]) i' Hok' (unambiguous_snoc vs _ Hun Hno)).
    rewrite <- app_assoc in IH. cbn in IH. specialize (IH Hwf). rewrite length_app, Nat.add_1_r in IH. exact IH.
  - destruct H as (j & e' & Hj & Ho). intros Hall. apply (Hall j (length vs) e' (sel, s)); [|by rewrite lookup_app_l; [|by eapply lookup_lt_Some]|by rewrite list_lookup_middle|done].
    apply lookup_lt_Some in Hj. lia.
Qed.

Lemma index_ok_new : index_ok [] access_index_new.
Proof. split; cbn; [|done]. intros a sel pos. rewrite lookup_empty. split; [done|by intros (? & ? & _)]. Qed.

Lemma access_for_spec values i audience :
  index_ok values i →
  ∀ pos, pos ∈ access_for i audience ↔ ∃ sel s, values !! pos = Some (sel, s) ∧ covers s audience.
Proof.
  intros [Hr Hu] pos. unfold access_for. rewrite elem_of_app, !list_elem_of_fmap. split.
  - intros [([sel p] & -> & Hin)|([sel p] & -> & Hin)]; apply btree_entries_lookup in Hin.
    + apply Hr in Hin as (l & Hl & Ha). by exists sel, (AudOnly l).
    + apply Hu in Hin. by exists sel, AudAny.
  - intros (sel & [|l] & Hp & Hc).
    + right. exists (sel, pos). split; [done|]. by apply btree_entries_lookup, Hu.
    + left. exists (sel, pos). split; [done|]. apply btree_entries_lookup, Hr. by exists l.
Qed.

Lemma access_for_NoDup values i audience : index_ok values i → NoDup (access_for i audience).
Proof.
  intros [Hr Hu]. assert (Hnd : ∀ m : gmap string nat,
    (∀ k k' p, m !! k = Some p → m !! k' = Some p → k = k') → NoDup (btree_entries m).*2).
  { intros m Hm. unfold btree_entries. rewrite sort_by_key_perm.
    assert (Hk : ∀ k k' p, (k, p) ∈ map_to_list m → (k', p) ∈ map_to_list m → k = k').
    { intros k k' p H1%elem_of_map_to_list H2%elem_of_map_to_list. by eapply Hm. }
    pose proof (NoDup_fst_map_to_list m) as Hf. clear Hm. induction (map_to_list m) as [|[k p] l IH]; [constructor|].
    cbn in *. apply NoDup_cons in Hf as [Hni Hf]. constructor.
    - intros Hin. apply list_elem_of_fmap in Hin as ([k' p'] & -> & Hin). apply Hni.
      apply list_elem_of_fmap. exists (k', p'). split; [|done]. cbn. apply (Hk k k' p'); [by left|by right].
    - apply IH; [|done]. intros k1 k2 q H1 H2. apply (Hk k1 k2 q); by right. }
  unfold access_for. apply NoDup_app. split_and!.
  - apply Hnd. intros k k' p H1%Hr H2%Hr. destruct H1 as (? & H1 & _), H2 as (? & H2 & _). congruence.
  - intros p H1 H2. apply list_elem_of_fmap in H1 as ([s1 p1] & -> & H1). apply list_elem_of_fmap in H2 as ([s2 p2] & Hp & H2).
    cbn in Hp. subst. apply btree_entries_lookup in H1, H2. apply Hr in H1 as (? & H1 & _). apply Hu in H2. congruence.
  - apply Hnd. intros k k' p H1%Hu H2%Hu. congruence.
Qed.

(** The providers of a site are accepted exactly when no two of them read
    the same selector for the same audience; the index then lists for an
    audience each provider that covers it, once, and no two of them read the
    same selector. *)
Theorem access_selectors_are_unambiguous values :
  Forall (λ e, audience_set_ok e.2) values →
  match build_access 0 values access_index_new with
  | Ok index =>
      unambiguous values ∧
      ∀ audience, NoDup (access_for index audience) ∧
        (∀ pos, pos ∈ access_for index audience ↔ ∃ sel s, values !! pos = Some (sel, s) ∧ covers s audience) ∧
        (∀ p q sel s s', p ∈ access_for index audience → q ∈ access_for index audience →
           values !! p = Some (sel, s) → values !! q = Some (sel, s') → p = q)
  | Err _ => ¬ unambiguous values
  end.
Proof.
  intros Hwf. pose proof (build_access_ok values [] access_index_new index_ok_new) as H. cbn in H.
  assert (Hnil : unambiguous []) by (intros i j e e' _ Hi; by rewrite lookup_nil in Hi).
  specialize (H Hnil Hwf). destruct (build_access _ _ _) as [index|e]; [|done].
  destruct H as [Hok Hun]. split; [done|]. intros audience. split; [by eapply access_for_NoDup|].
  split; [by apply access_for_spec|]. intros p q sel s s' Hp Hq Hvp Hvq. destruct (decide (p = q)) as [|Hne]; [done|].
  exfalso. apply (access_for_spec _ _ _ Hok) in Hp as (? & s1 & Hp & Hc1). apply (access_for_spec _ _ _ Hok) in Hq as (? & s2 & Hq & Hc2).
  apply (Hun p q (sel, s) (sel, s') Hne Hvp Hvq). split; [done|]. exists audience. cbn. split; congruence.
Qed.

Lemma access_selectors_are_unambiguous_witness :
  Forall (λ e, audience_set_ok e.2) [("header:a:"%string, AudAny); ("header:b:"%string, AudOnly ["api"; "web"]%string)] ∧
  unambiguous [("header:a:"%string, AudAny); ("header:b:"%string, AudOnly ["api"; "web"]%string)].
Proof.
  assert (Hwf : Forall (λ e, audience_set_ok e.2) [("header:a:"%string, AudAny); ("header:b:"%string, AudOnly ["api"; "web"]%string)]).
  { repeat constructor. done. }
  split; [exact Hwf|]. exact (proj1 (access_selectors_are_unambiguous _ Hwf)).
Defined.
