(* ===== verification/Tokens.v ===== *)
(** * Token and key providers ([auth/token.rs], [auth/runtime/])

    Issuing, accepting, rotating and revoking credentials, and the choice of the
    provider that serves a request. What an application or a format supplies
    (codecs, verifiers, lifecycles) acts on a world [W]; a value that is drawn
    ([Uuid::new_v4]) and the clock are arguments. A leeway keeps the clock within
    [chrono]'s range. *)
From S2P Require Import Prelude Externals Failure Config Models Lifecycle Json Submission ChannelTypes.
From S2P Require Import Scopes Credentials.
#[local] Open Scope Z_scope.

(** The dates of [chrono], in seconds. *)
Class DateRange := { date_min : Z; date_max : Z }.
Class DateRangeLaws (D : DateRange) := { date_range_epoch : date_min ≤ 0 ∧ 0 ≤ date_max }.

Definition TICKS : Z := 1000000000.

Inductive TokenKind := KindAccess | KindRefresh.
#[export] Instance TokenKind_eq_dec : EqDecision TokenKind.
Proof. solve_decision. Defined.

Definition MAX_SUBJECT_BYTES : Z := 512.
Definition MAX_AUDIENCES : Z := 32.
Definition MAX_NAME_BYTES : Z := 128.
Definition MAX_AUTH_METHODS : Z := 16.
Definition MAX_TOKEN_PAYLOAD_BYTES : Z := 16 * 1024.

Record AuthToken := {
  tk_version : Z;
  tk_provider : string;
  tk_kind : TokenKind;
  tk_subject : string;
  tk_scopes : list Scope;
  tk_audiences : option (list string);
  tk_issued_at : Z;
  tk_auth_time : option Z;
  tk_authentication_methods : list string;
  tk_authentication_class : option string;
  tk_not_before : option Z;
  tk_expires_at : Z;
  tk_token_id : option string;
  tk_family_id : option string;
  tk_issuer : option string;
  tk_legacy_binding : option string;
  tk_payload : Json }.

Definition token_authentication (t : AuthToken) : AuthenticationContext :=
  {| ac_auth_time := tk_auth_time t; ac_methods := tk_authentication_methods t;
     ac_acr := tk_authentication_class t |}.
Definition set_token_audiences (values : list string) (t : AuthToken) : AuthToken :=
  {| tk_version := tk_version t; tk_provider := tk_provider t; tk_kind := tk_kind t; tk_subject := tk_subject t;
     tk_scopes := tk_scopes t; tk_audiences := Some values; tk_issued_at := tk_issued_at t;
     tk_auth_time := tk_auth_time t; tk_authentication_methods := tk_authentication_methods t;
     tk_authentication_class := tk_authentication_class t; tk_not_before := tk_not_before t;
     tk_expires_at := tk_expires_at t; tk_token_id := tk_token_id t; tk_family_id := tk_family_id t;
     tk_issuer := tk_issuer t; tk_legacy_binding := tk_legacy_binding t; tk_payload := tk_payload t |}.
Definition embedded_user (t : AuthToken) : AuthUser :=
  with_authentication (token_authentication t) (with_scopes (tk_scopes t) (auth_user_new (tk_subject t))).

(** [AuthUser::validate]. *)
Definition validate_user (u : AuthUser) : result AuthError unit :=
  if is_blank (au_subject u) then Err InvalidCredential
  else match validate_scopes (au_scopes u) with Ok _ => Ok tt | Err _ => Err InvalidCredential end.

(** ** The structure of a token *)

Section Structure.
Context `{Y : Serialization, D : DateRange}.

Definition timestamp (value : Z) : result AuthError DateTime :=
  if (date_min <=? value) && (value <=? date_max) then Ok (value * TICKS) else Err InvalidCredential.
Definition optional_timestamp (value : option Z) : result AuthError (option DateTime) :=
  match value with Some value => let? t := timestamp value in Ok (Some t) | None => Ok None end.

Definition invalid_optional_name (value : option string) (maximum : Z) : bool :=
  match value with Some value => String.eqb value "" || (maximum <? str_len value) | None => false end.
Definition invalid_name (value : string) : bool := String.eqb value "" || (MAX_NAME_BYTES <? str_len value).

Definition validate_names (t : AuthToken) : result AuthError unit :=
  if negb (tk_version t =? 2) || negb (is_ok (provider_id_new (tk_provider t))) || is_blank (tk_subject t)
     || (MAX_SUBJECT_BYTES <? str_len (tk_subject t)) || invalid_optional_name (tk_token_id t) 512
     || invalid_optional_name (tk_family_id t) 512 || invalid_optional_name (tk_issuer t) 2048
     || bool_decide (is_Some (tk_legacy_binding t))
  then Err InvalidCredential
  else
    match validate_scopes (tk_scopes t) with
    | Err _ => Err InvalidCredential
    | Ok _ =>
        let audiences := default [] (tk_audiences t) in
        if bool_decide (tk_audiences t = Some []) || (MAX_AUDIENCES <? zlen audiences)
           || (MAX_AUTH_METHODS <? zlen (tk_authentication_methods t))
        then Err InvalidCredential
        else if existsb (λ a, negb (is_ok (audience_id_new a))) audiences then Err InvalidCredential
        else if existsb invalid_name (tk_authentication_methods t ++ option_list (tk_authentication_class t))
        then Err InvalidCredential
        else Ok tt
    end.

Definition validate_times (t : AuthToken) : result AuthError unit :=
  let? _ := timestamp (tk_issued_at t) in
  let? _ := timestamp (tk_expires_at t) in
  if (tk_expires_at t <=? tk_issued_at t)
     || match tk_not_before t with Some value => tk_expires_at t <? value | None => false end
  then Err InvalidCredential
  else
    let? _ := optional_timestamp (tk_not_before t) in
    let? _ := optional_timestamp (tk_auth_time t) in Ok tt.

Definition validate_token_payload (t : AuthToken) : result AuthError unit :=
  match value_text (tk_payload t) with
  | Ok text => if MAX_TOKEN_PAYLOAD_BYTES <? str_len text then Err InvalidCredential else Ok tt
  | Err _ => Err InvalidCredential
  end.

Definition validate_structure (t : AuthToken) : result AuthError unit :=
  let? _ := validate_names t in
  let? _ := validate_times t in
  validate_token_payload t.

(** ** Building a token from external claims *)

Record AuthTokenDraft := {
  td_provider : string;
  td_kind : option TokenKind;
  td_subject : option string;
  td_scopes : list Scope;
  td_audiences : option (list string);
  td_issued_at : option Z;
  td_auth_time : option Z;
  td_authentication_methods : list string;
  td_authentication_class : option string;
  td_not_before : option Z;
  td_expires_at : option Z;
  td_token_id : option string;
  td_family_id : option string;
  td_issuer : option string;
  td_legacy_binding : option string;
  td_payload : Json }.

(** [collect_wire_audiences]. *)
Definition collect_wire_audiences (values : list string) : result AuthError (list string) :=
  let? output := collect_ids values [] in
  if (zlen output =? 0) || (MAX_AUDIENCES <? zlen output) then Err InvalidCredential else Ok output.

Definition draft_build (d : AuthTokenDraft) : result AuthError AuthToken :=
  let? kind := ok_or (td_kind d) InvalidCredential in
  let? subject := ok_or (td_subject d) InvalidCredential in
  let? issued_at := ok_or (td_issued_at d) InvalidCredential in
  let? expires_at := ok_or (td_expires_at d) InvalidCredential in
  Ok {| tk_version := 2; tk_provider := td_provider d; tk_kind := kind; tk_subject := subject;
        tk_scopes := td_scopes d; tk_audiences := td_audiences d; tk_issued_at := issued_at;
        tk_auth_time := td_auth_time d; tk_authentication_methods := td_authentication_methods d;
        tk_authentication_class := td_authentication_class d; tk_not_before := td_not_before d;
        tk_expires_at := expires_at; tk_token_id := td_token_id d; tk_family_id := td_family_id d;
        tk_issuer := td_issuer d; tk_legacy_binding := td_legacy_binding d; tk_payload := td_payload d |}.
(** [AuthTokenBuilder::build]. *)
Definition token_build (draft : result AuthError AuthTokenDraft) : result AuthError AuthToken :=
  let? draft := draft in
  let? token := draft_build draft in
  let? _ := validate_structure token in Ok token.
End Structure.

(** ** Providers of tokens *)

(** What identifies the refresh token that replaces another one. *)
Record RefreshMetadata := {
  rm_token_id : string; rm_family_id : string; rm_expires_at : DateTime; rm_audiences : list string;
  rm_provider : string; rm_subject : string }.

(** The values one operation draws. *)
Record Draws := {
  dw_family : string; dw_access_id : string; dw_refresh_id : string; dw_access_csrf : string;
  dw_refresh_csrf : string }.

Inductive RequestCredentialLocation :=
  | SentHeader (name : string) (scheme : option string)
  | SentCookie (name : string) (csrf : option (string * string * string))
  | SentQuery (name : string).
Definition request_selector (l : CredentialLocation) (csrf : option (string * string * string)) :
    RequestCredentialLocation :=
  match l with
  | LocHeader name _ scheme => SentHeader name scheme
  | LocCookie cookie => SentCookie (ckf_name cookie) csrf
  | LocQuery name => SentQuery name
  end.

Record LoginResponse := {
  lr_access : string;
  lr_refresh : option string;
  lr_access_body : option string;
  lr_refresh_body : option string;
  lr_expires_in : Z;
  lr_attachments : list Attachment;
  lr_selector : RequestCredentialLocation }.

Definition validate_credential_size (value : string) (limit : Z) : result AuthError unit :=
  if limit <? str_len value then Err InvalidCredential else Ok tt.

(** [push_unique] over what each pair of a location and a CSRF policy clears. *)
Definition push_attachment (values : list Attachment) (value : Attachment) : list Attachment :=
  if bool_decide (value ∈ values) then values else values ++ [value].

Section Providers.
Context {W : Type} `{H : HttpExternals, Y : Serialization, D : DateRange}.

Record CodecRuntime := {
  cd_encode : option (AuthToken → M W AuthError string);
  cd_decode : string → M W AuthError AuthToken }.
Record TokenLifecycle := {
  lc_validate : AuthToken → M W AuthError unit;
  lc_rotate : AuthToken → RefreshMetadata → M W AuthError unit;
  lc_revoke : AuthToken → M W AuthError unit }.
Record KindRuntime := {
  kr_location : CredentialLocation;
  kr_response_header : option string;
  kr_ttl_seconds : Z;
  kr_codec : CodecRuntime;
  kr_issuer : option string;
  kr_csrf : option CsrfConf;
  kr_max_credential_bytes : Z }.
Record TokenRuntime := {
  tr_id : string;
  tr_access : KindRuntime;
  tr_refresh : option KindRuntime;
  tr_verifier : AuthToken → M W AuthError AuthUser;
  tr_lifecycle : option TokenLifecycle;
  tr_leeway_seconds : Z;
  tr_default_audience : option string;
  tr_audiences : ProviderAudienceSet }.

Definition codec_encode (c : CodecRuntime) (t : AuthToken) : M W AuthError string :=
  match cd_encode c with Some encode => encode t | None => throwM UnsupportedProviderCapability end.
Definition can_encode (c : CodecRuntime) : bool := bool_decide (is_Some (cd_encode c)).
(** [EmbeddedVerifier]. *)
Definition embedded_verifier (t : AuthToken) : M W AuthError AuthUser := retM (embedded_user t).

(** [issue_token], with [AuthToken::issued]. *)
Definition issue_token (id : string) (kind : TokenKind) (user : AuthUser) (audiences : list string)
    (conf : KindRuntime) (family : option string) (token_id : string) (now : DateTime) :
    result AuthError AuthToken :=
  let seconds := now / TICKS in
  match i64_checked_add seconds (kr_ttl_seconds conf) with
  | None => Err (InvalidProviderConfig "token expiry overflow")
  | Some expires_at =>
      let context := au_authentication user in
      Ok {| tk_version := 2; tk_provider := id; tk_kind := kind; tk_subject := au_subject user;
            tk_scopes := au_scopes user; tk_audiences := Some audiences; tk_issued_at := seconds;
            tk_auth_time := Some (default seconds (ac_auth_time context));
            tk_authentication_methods := ac_methods context; tk_authentication_class := ac_acr context;
            tk_not_before := None; tk_expires_at := expires_at; tk_token_id := Some token_id;
            tk_family_id := family; tk_issuer := kr_issuer conf; tk_legacy_binding := None;
            tk_payload := JNull |}
  end.

Definition delivery_of (conf : KindRuntime) (value csrf_token : string) :
    result AuthError (option string * list Attachment * option (string * string * string)) :=
  let? attachment := match kr_response_header conf with
                     | Some name => let? a := response_attachment name value in Ok (Some a)
                     | None => location_attachment (kr_location conf) value (kr_ttl_seconds conf)
                     end in
  let body := if bool_decide (attachment = None) && negb (is_cookie (kr_location conf)) then Some value else None in
  match kr_csrf conf with
  | Some csrf =>
      let? a := cookie_header (csrf_cookie csrf) csrf_token (kr_ttl_seconds conf) in
      Ok (body, option_list attachment ++ [a],
          Some (ckf_name (csrf_cookie csrf), csrf_header_name csrf, csrf_token))
  | None => Ok (body, option_list attachment, None)
  end.

(** ** Accepting a token *)

Definition validate_common (t : AuthToken) (provider : string) (leeway_seconds : Z) (now : DateTime) :
    result AuthError unit :=
  if negb (tk_version t =? 2) || negb (String.eqb (tk_provider t) provider) || negb (is_ok (validate_structure t))
  then Err InvalidCredential
  else
    let leeway := leeway_seconds * TICKS in
    let? issued_at := timestamp (tk_issued_at t) in
    let? authentication_time := optional_timestamp (tk_auth_time t) in
    let? expires_at := timestamp (tk_expires_at t) in
    if expires_at <=? now - leeway then Err ExpiredCredential
    else
      let? not_before := optional_timestamp (tk_not_before t) in
      if match not_before with Some value => now + leeway <? value | None => false end
         || (now + leeway <? issued_at)
         || match authentication_time with Some value => issued_at + leeway <? value | None => false end
      then Err CredentialNotYetValid
      else Ok tt.

Definition validate_token (t : AuthToken) (provider : string) (kind : TokenKind) (audiences : list string)
    (leeway_seconds : Z) (issuer : option string) (now : DateTime) : result AuthError unit :=
  let? _ := validate_common t provider leeway_seconds now in
  if negb (bool_decide (tk_kind t = kind)) then Err WrongTokenKind
  else if bool_decide (is_Some issuer) && negb (bool_decide (tk_issuer t = issuer)) then Err InvalidCredential
  else
    let? token_audiences := ok_or (tk_audiences t) AudienceMismatch in
    if existsb (λ a, negb (bool_decide (a ∈ token_audiences))) audiences then Err AudienceMismatch else Ok tt.

Definition kind_runtime (p : TokenRuntime) (kind : TokenKind) : result AuthError KindRuntime :=
  match kind with
  | KindAccess => Ok (tr_access p)
  | KindRefresh => ok_or (tr_refresh p) UnsupportedProviderCapability
  end.

(** [normalize]: a token without audiences is one of the default audience. *)
Definition normalize_token (p : TokenRuntime) (t : AuthToken) : result AuthError AuthToken :=
  let? t := match tk_audiences t with
            | Some _ => Ok t
            | None => let? audience := ok_or (tr_default_audience p) AudienceMismatch in
                      Ok (set_token_audiences [audience] t)
            end in
  let? _ := validate_structure t in Ok t.

Definition refuse_if (b : bool) (e : AuthError) : M W AuthError unit := if b then throwM e else retM tt.

Definition token_accept (p : TokenRuntime) (t : AuthToken) (kind : TokenKind) (audiences : list string)
    (now : DateTime) : M W AuthError AuthUser :=
  do! expected := liftR (kind_runtime p kind) in
  (liftR (validate_token t (tr_id p) kind audiences (tr_leeway_seconds p) (kr_issuer expected) now) ;!
   refuse_if (bool_decide (kind = KindRefresh) && bool_decide (tk_family_id t = None)) InvalidCredential ;!
   refuse_if (bool_decide (is_Some (tr_lifecycle p)) && bool_decide (tk_token_id t = None)) InvalidCredential ;!
   match tr_lifecycle p with Some lifecycle => lc_validate lifecycle t | None => retM tt end ;!
   do! user := tr_verifier p t in
   (liftR (validate_user user) ;!
    retM (with_authentication (token_authentication t) (set_provider (tr_id p) user)))).

(** Decoding within the bound. *)
Definition token_decode (p : TokenRuntime) (conf : KindRuntime) (raw : string) (parts : Parts) :
    M W AuthError AuthToken :=
  liftR (validate_credential_size raw (kr_max_credential_bytes conf)) ;!
  do! decoded := cd_decode (kr_codec conf) raw in
  do! token := liftR (normalize_token p decoded) in
  (liftR (validate_csrf (kr_csrf conf) parts) ;! retM token).

Definition token_authenticate (p : TokenRuntime) (raw : string) (parts : Parts) (audience : string)
    (now : DateTime) : M W AuthError AuthUser :=
  do! token := token_decode p (tr_access p) raw parts in
  token_accept p token KindAccess [audience] now.

(** ** Issuing, rotating, revoking *)

Definition token_pair (p : TokenRuntime) (user : AuthUser) (audiences : list string) (family : option string)
    (draws : Draws) (now : DateTime) : result AuthError (AuthToken * option AuthToken) :=
  let family := match tr_refresh p with Some _ => Some (default (dw_family draws) family) | None => None end in
  let? access := issue_token (tr_id p) KindAccess user audiences (tr_access p) family (dw_access_id draws) now in
  match tr_refresh p with
  | Some conf =>
      let? refresh := issue_token (tr_id p) KindRefresh user audiences conf family (dw_refresh_id draws) now in
      Ok (access, Some refresh)
  | None => Ok (access, None)
  end.

(** Encoding within the bound. *)
Definition token_encode (conf : KindRuntime) (t : AuthToken) : M W AuthError string :=
  do! encoded := codec_encode (kr_codec conf) t in
  (liftR (validate_credential_size encoded (kr_max_credential_bytes conf)) ;! retM encoded).

Definition token_response (p : TokenRuntime) (pair : AuthToken * option AuthToken) (draws : Draws) :
    M W AuthError (LoginResponse * option AuthToken) :=
  do! access := token_encode (tr_access p) pair.1 in
  do! refresh_value := match tr_refresh p, pair.2 with
                       | Some conf, Some token => do! encoded := token_encode conf token in retM (Some encoded)
                       | _, _ => retM None
                       end in
  do! access_delivery := liftR (delivery_of (tr_access p) access (dw_access_csrf draws)) in
  do! refresh_delivery := liftR (match tr_refresh p, refresh_value with
                                 | Some conf, Some value =>
                                     let? d := delivery_of conf value (dw_refresh_csrf draws) in Ok d.1
                                 | _, _ => Ok (None, [])
                                 end) in
  let '(access_body, access_attachments, csrf) := access_delivery in
  retM ({| lr_access := access; lr_refresh := refresh_value; lr_access_body := access_body;
           lr_refresh_body := refresh_delivery.1; lr_expires_in := kr_ttl_seconds (tr_access p);
           lr_attachments := access_attachments ++ refresh_delivery.2;
           lr_selector := request_selector (kr_location (tr_access p)) csrf |}, pair.2).

Definition token_login (p : TokenRuntime) (user : AuthUser) (audiences : list string) (draws : Draws)
    (now : DateTime) : M W AuthError LoginResponse :=
  liftR (validate_user user) ;!
  do! pair := liftR (token_pair p user audiences None draws now) in
  do! response := token_response p pair draws in retM response.1.

Definition refresh_metadata (t : AuthToken) : result AuthError RefreshMetadata :=
  let? token_id := ok_or (tk_token_id t) InvalidCredential in
  let? family_id := ok_or (tk_family_id t) InvalidCredential in
  let? expires_at := timestamp (tk_expires_at t) in
  Ok {| rm_token_id := token_id; rm_family_id := family_id; rm_expires_at := expires_at;
        rm_audiences := default [] (tk_audiences t); rm_provider := tk_provider t; rm_subject := tk_subject t |}.

Definition token_rotate (p : TokenRuntime) (current : AuthToken) (replacement : option AuthToken) :
    M W AuthError unit :=
  match tr_lifecycle p with
  | None => retM tt
  | Some lifecycle =>
      do! replacement := liftR (ok_or replacement UnsupportedProviderCapability) in
      do! metadata := liftR (refresh_metadata replacement) in
      lc_rotate lifecycle current metadata
  end.

Definition token_refresh (p : TokenRuntime) (raw : string) (parts : Parts) (draws : Draws) (now : DateTime) :
    M W AuthError LoginResponse :=
  do! conf := liftR (ok_or (tr_refresh p) UnsupportedProviderCapability) in
  do! current := token_decode p conf raw parts in
  do! audiences := liftR (ok_or (tk_audiences current) AudienceMismatch) in
  (liftR (validate_requested (tr_audiences p) audiences) ;!
   do! user := token_accept p current KindRefresh audiences now in
   do! pair := liftR (token_pair p user audiences (tk_family_id current) draws now) in
   do! response := token_response p pair draws in
   (token_rotate p current response.2 ;! retM response.1)).

Definition validate_logout_token (p : TokenRuntime) (t : AuthToken) (now : DateTime) : result AuthError unit :=
  let? _ := validate_common t (tr_id p) (tr_leeway_seconds p) now in
  let? conf := kind_runtime p (tk_kind t) in
  if bool_decide (is_Some (kr_issuer conf)) && negb (bool_decide (tk_issuer t = kr_issuer conf))
  then Err InvalidCredential
  else if bool_decide (tk_kind t = KindRefresh) && bool_decide (tk_family_id t = None) then Err InvalidCredential
  else if bool_decide (is_Some (tr_lifecycle p)) && bool_decide (tk_token_id t = None) then Err InvalidCredential
  else Ok tt.

Definition presented_with (p : TokenRuntime) (conf : KindRuntime) (raw : string) (parts : Parts)
    (now : DateTime) : M W AuthError (option AuthToken) :=
  do! token := token_decode p conf raw parts in
  (liftR (validate_logout_token p token now) ;! retM (Some token)).
Definition token_presented (p : TokenRuntime) (parts : Parts) (now : DateTime) :
    M W AuthError (option AuthToken) :=
  do! raw := liftR (location_extract (kr_location (tr_access p)) parts) in
  match raw with
  | Some raw => presented_with p (tr_access p) raw parts now
  | None =>
      match tr_refresh p with
      | None => retM None
      | Some refresh =>
          do! raw := liftR (location_extract (kr_location refresh) parts) in
          match raw with Some raw => presented_with p refresh raw parts now | None => retM None end
      end
  end.

(** What [clear_locations] adds for one location and its CSRF policy. *)
Definition clear_one (output : list Attachment) (value : option CredentialLocation * option CsrfConf) :
    result AuthError (list Attachment) :=
  let? output := match value.1 with
                 | Some location =>
                     let? a := location_clear location in
                     Ok (match a with Some a => push_attachment output a | None => output end)
                 | None => Ok output
                 end in
  match value.2 with
  | Some csrf => let? a := clear_cookie (csrf_cookie csrf) in Ok (push_attachment output a)
  | None => Ok output
  end.
Definition clear_locations (first second : option CredentialLocation * option CsrfConf) :
    result AuthError (list Attachment) :=
  let? output := clear_one [] first in clear_one output second.

Definition token_logout (p : TokenRuntime) (parts : Parts) (now : DateTime) : M W AuthError (list Attachment) :=
  do! token := token_presented p parts now in
  (match token, tr_lifecycle p with
   | Some token, Some lifecycle => lc_revoke lifecycle token
   | _, _ => retM tt
   end ;!
   liftR (clear_locations (Some (kr_location (tr_access p)), kr_csrf (tr_access p))
            (kr_location <$> tr_refresh p, tr_refresh p ≫= kr_csrf))).

(** ** Opaque keys *)

Record KeyRuntime := {
  ky_id : string;
  ky_location : CredentialLocation;
  ky_verifier : string → string → M W AuthError AuthUser;
  ky_csrf : option CsrfConf;
  ky_max_credential_bytes : Z;
  ky_lifecycle : option (string → M W AuthError unit);
  ky_audiences : ProviderAudienceSet }.

Definition key_authenticate (k : KeyRuntime) (raw : string) (parts : Parts) (audience : string) :
    M W AuthError AuthUser :=
  liftR (validate_credential_size raw (ky_max_credential_bytes k)) ;!
  liftR (validate_csrf (ky_csrf k) parts) ;!
  do! user := ky_verifier k raw audience in
  (liftR (validate_user user) ;! retM (set_provider (ky_id k) user)).

Definition key_logout (k : KeyRuntime) (parts : Parts) : M W AuthError (list Attachment) :=
  do! raw := liftR (location_extract (ky_location k) parts) in
  (match raw with
   | Some raw =>
       liftR (validate_credential_size raw (ky_max_credential_bytes k)) ;!
       liftR (validate_csrf (ky_csrf k) parts) ;!
       match ky_lifecycle k with Some revoke => revoke raw | None => retM tt end
   | None => retM tt
   end ;!
   liftR (clear_locations (Some (ky_location k), ky_csrf k) (None, None))).

(** ** The providers of a site *)

Record ProviderCapabilities := { cp_authenticate : bool; cp_login : bool; cp_refresh : bool; cp_logout : bool }.

(** [ProviderRuntimeContract]. *)
Record ProviderRuntime := {
  pr_id : string;
  (** The id in its documentation. *)
  pr_doc_id : string;
  pr_audiences : ProviderAudienceSet;
  pr_access_location : CredentialLocation;
  pr_refresh_location : option CredentialLocation;
  pr_capabilities : ProviderCapabilities;
  pr_authenticate : string → Parts → string → DateTime → M W AuthError AuthUser;
  pr_login : AuthUser → list string → Draws → DateTime → M W AuthError LoginResponse;
  pr_refresh : string → Parts → Draws → DateTime → M W AuthError LoginResponse;
  pr_logout : Parts → DateTime → M W AuthError (list Attachment) }.

Definition token_provider (p : TokenRuntime) : ProviderRuntime :=
  {| pr_id := tr_id p; pr_doc_id := tr_id p; pr_audiences := tr_audiences p;
     pr_access_location := kr_location (tr_access p); pr_refresh_location := kr_location <$> tr_refresh p;
     pr_capabilities := {| cp_authenticate := true; cp_login := can_encode (kr_codec (tr_access p));
                           cp_refresh := match tr_refresh p with
                                         | Some conf => can_encode (kr_codec conf)
                                         | None => false
                                         end;
                           cp_logout := true |};
     pr_authenticate := token_authenticate p; pr_login := token_login p; pr_refresh := token_refresh p;
     pr_logout := token_logout p |}.
Definition key_provider (k : KeyRuntime) : ProviderRuntime :=
  {| pr_id := ky_id k; pr_doc_id := ky_id k; pr_audiences := ky_audiences k; pr_access_location := ky_location k;
     pr_refresh_location := None;
     pr_capabilities := {| cp_authenticate := true; cp_login := false; cp_refresh := false; cp_logout := true |};
     pr_authenticate := λ raw parts audience _, key_authenticate k raw parts audience;
     pr_login := λ _ _ _ _, throwM UnsupportedProviderCapability;
     pr_refresh := λ _ _ _ _, throwM UnsupportedProviderCapability;
     pr_logout := λ parts _, key_logout k parts |}.

Definition provider_login (p : ProviderRuntime) (user : AuthUser) (audiences : list string) (draws : Draws)
    (now : DateTime) : M W AuthError LoginResponse :=
  liftR (validate_requested (pr_audiences p) audiences) ;! pr_login p user audiences draws now.
Definition provider_authenticate (p : ProviderRuntime) (raw : string) (parts : Parts) (audience : string)
    (now : DateTime) : M W AuthError AuthUser :=
  refuse_if (negb (cp_authenticate (pr_capabilities p))) UnsupportedProviderCapability ;!
  refuse_if (negb (aud_supports (pr_audiences p) audience)) AudienceMismatch ;!
  pr_authenticate p raw parts audience now.
Definition provider_logout (p : ProviderRuntime) (parts : Parts) (now : DateTime) :
    M W AuthError (list Attachment) :=
  refuse_if (negb (cp_logout (pr_capabilities p))) UnsupportedProviderCapability ;! pr_logout p parts now.

(** [Authenticator], with its [RuntimeIndexes]. *)
Record Authenticator := {
  at_providers : list ProviderRuntime;
  at_ids : gmap string nat;
  at_access : AccessIndex;
  at_default_audience : option string }.

Fixpoint build_indexes (position : nat) (providers : list ProviderRuntime) (ids : gmap string nat)
    (access : AccessIndex) : result AuthError (gmap string nat * AccessIndex) :=
  match providers with
  | [] => Ok (ids, access)
  | p :: providers =>
      if negb (String.eqb (pr_doc_id p) (pr_id p))
      then Err (InvalidProviderConfig "provider runtime metadata ID does not match its registry ID")
      else
        let? access := access_insert (pr_audiences p) (location_selector (pr_access_location p)) position access in
        build_indexes (S position) providers (<[pr_id p := position]> ids) access
  end.
Definition authenticator_new (providers : list ProviderRuntime) (default_audience : option string) :
    result AuthError Authenticator :=
  let? indexes := build_indexes 0 providers ∅ access_index_new in
  Ok {| at_providers := providers; at_ids := indexes.1; at_access := indexes.2;
        at_default_audience := default_audience |}.

Definition provider_at (a : Authenticator) (position : nat) : result AuthError ProviderRuntime :=
  ok_or (at_providers a !! position) (AuthInternal "authentication provider index is invalid").
Definition find_provider (a : Authenticator) (id : string) : result AuthError ProviderRuntime :=
  ok_or (at_ids a !! id ≫= λ position, at_providers a !! position) (ProviderNotFound id).

(** The loop of [authenticate]: at most one provider may be presented a credential. *)
Fixpoint select_credential (a : Authenticator) (parts : Parts) (positions : list nat)
    (chosen : option (nat * string)) : result AuthError (option (nat * string)) :=
  match positions with
  | [] => Ok chosen
  | position :: positions =>
      let? provider := provider_at a position in
      let? raw := extract_from (pr_access_location provider) parts in
      match raw with
      | None => select_credential a parts positions chosen
      | Some raw =>
          if bool_decide (is_Some chosen) then Err MalformedLocation
          else select_credential a parts positions (Some (position, raw))
      end
  end.

Definition authenticate (a : Authenticator) (parts : Parts) (audience : string) (now : DateTime) :
    M W AuthError AuthUser :=
  do! chosen := liftR (select_credential a parts (access_for (at_access a) audience) None) in
  do! chosen := liftR (ok_or chosen NoCredential) in
  let '(position, raw) := chosen in
  do! provider := liftR (provider_at a position) in
  (refuse_if (is_cookie (pr_access_location provider) && has_authorization parts) MalformedLocation ;!
   provider_authenticate provider raw parts audience now).

(** [ProviderAuth::issue], [refresh] and [logout] of the provider of a name. *)
Definition auth_provider (a : Authenticator) (name : string) : result AuthError ProviderRuntime :=
  let? id := provider_id_new name in find_provider a id.
Definition auth_issue (a : Authenticator) (name : string) (user : AuthUser) (audiences : list string)
    (draws : Draws) (now : DateTime) : M W AuthError LoginResponse :=
  do! audiences := liftR (resolve_audiences audiences (at_default_audience a)) in
  do! provider := liftR (auth_provider a name) in
  (refuse_if (negb (cp_login (pr_capabilities provider))) UnsupportedProviderCapability ;!
   provider_login provider user audiences draws now).
Definition auth_refresh (a : Authenticator) (name : string) (parts : Parts) (draws : Draws) (now : DateTime) :
    M W AuthError LoginResponse :=
  do! provider := liftR (auth_provider a name) in
  (refuse_if (negb (cp_refresh (pr_capabilities provider))) UnsupportedProviderCapability ;!
   do! location := liftR (ok_or (pr_refresh_location provider) UnsupportedProviderCapability) in
   do! raw := liftR (location_extract location parts) in
   do! raw := liftR (ok_or raw NoCredential) in
   pr_refresh provider raw parts draws now).
Definition auth_logout (a : Authenticator) (name : string) (parts : Parts) (now : DateTime) :
    M W AuthError (list Attachment) :=
  do! provider := liftR (auth_provider a name) in provider_logout provider parts now.
End Providers.
