(* ===== verification/TokenTheorems.v ===== *)
(** * What a credential that is accepted proves, and what is issued

    Over any codecs, verifiers and lifecycles; what a theorem needs of them is a
    law of it. *)
From S2P Require Import Prelude Externals Failure Config Models Lifecycle Json Submission ChannelTypes.
From S2P Require Import Scopes Credentials Tokens RegistryTheorems.
#[local] Open Scope Z_scope.

(** ** Runs that succeed *)

Lemma bind_ok {S E A B} (m : M S E A) (k : A → M S E B) s b s' :
  bindM m k s = (Ok b, s') → ∃ a s1, m s = (Ok a, s1) ∧ k a s1 = (Ok b, s').
Proof. unfold bindM. destruct (m s) as [[a|e] s1]; [by exists a, s1|done]. Qed.
Lemma lift_ok {S E A} (r : result E A) (s : S) a s' : liftR r s = (Ok a, s') → r = Ok a ∧ s' = s.
Proof. by intros [= -> ->]. Qed.
Lemma refuse_ok {W} b e (w : W) u w' : refuse_if b e w = (Ok u, w') → b = false ∧ w' = w.
Proof. unfold refuse_if. destruct b; [done|]. by intros [= _ ->]. Qed.

(** Takes a successful run apart into its steps. *)
Ltac run_ok H :=
  lazymatch type of H with
  | bindM _ _ _ = (Ok _, _) =>
      let a := fresh "a" in let w := fresh "w" in let H1 := fresh "Hs" in
      apply bind_ok in H as (a & w & H1 & H); run_ok H1; run_ok H
  | liftR _ _ = (Ok _, _) => let H2 := fresh "Hw" in apply lift_ok in H as [H H2]; subst; run_ok H
  | refuse_if _ _ _ = (Ok _, _) => let H2 := fresh "Hw" in apply refuse_ok in H as [H H2]; subst
  | retM _ _ = (Ok _, _) => injection H as H; subst
  | result_bind _ _ = Ok _ =>
      let a := fresh "a" in let H1 := fresh "Hs" in apply result_bind_ok in H as (a & H1 & H); run_ok H1; run_ok H
  | ok_or _ _ = Ok _ => apply ok_or_ok in H
  | _ => idtac
  end.

(** ** Which provider serves a request *)

Section Dispatch.
Context {W : Type} `{H : HttpExternals, Y : Serialization, D : DateRange}.
Implicit Types p : ProviderRuntime (W := W).

Definition provider_entry p : string * ProviderAudienceSet :=
  (location_selector (pr_access_location p), pr_audiences p).

Lemma build_indexes_access providers : ∀ pos ids access ids' access',
  build_indexes pos providers ids access = Ok (ids', access') →
  build_access pos (provider_entry <$> providers) access = Ok access'.
Proof.
  induction providers as [|p providers IH]; cbn; intros pos ids access ids' access'; [by intros [= _ ->]|].
  destruct (negb _); [done|]. destruct (access_insert _ _ _ _) as [access1|e]; cbn; [apply IH|done].
Qed.

Lemma select_credential_ok a parts positions : ∀ chosen pos raw,
  select_credential (W := W) a parts positions chosen = Ok (Some (pos, raw)) →
  (chosen = Some (pos, raw) ∧
     ∀ q, q ∈ positions → ∃ p, provider_at a q = Ok p ∧ extract_from (pr_access_location p) parts = Ok None) ∨
  (chosen = None ∧ pos ∈ positions ∧
     (∃ p, provider_at a pos = Ok p ∧ extract_from (pr_access_location p) parts = Ok (Some raw)) ∧
     (NoDup positions → ∀ q, q ∈ positions → q ≠ pos →
        ∃ p, provider_at a q = Ok p ∧ extract_from (pr_access_location p) parts = Ok None)).
Proof.
  induction positions as [|q positions IH]; intros chosen pos raw; cbn.
  { intros [= ->]. left. split; [done|]. by intros q Hq%elem_of_nil. }
  intros Hs. run_ok Hs. destruct a1 as [raw'|].
  - case_bool_decide as Hc; [done|]. apply IH in Hs as [[[= -> ->] Hrest]|([=] & _)].
    right. split_and!.
    + destruct chosen; [|done]. by destruct Hc.
    + by left.
    + by exists a0.
    + intros Hnd q' Hq' Hne. apply elem_of_cons in Hq' as [->|Hq']; [done|]. by apply Hrest.
  - apply IH in Hs as [[-> Hrest]|(-> & Hin & Hp & Hrest)].
    + left. split; [done|]. intros q' Hq'. apply elem_of_cons in Hq' as [->|Hq']; [by exists a0|by apply Hrest].
    + right. split_and!; [done|by right|done|]. intros Hnd q' Hq' Hne. apply NoDup_cons in Hnd as [_ Hnd].
      apply elem_of_cons in Hq' as [->|Hq']; [by exists a0|by apply Hrest].
Qed.

(** The provider that answered. *)
Lemma authenticate_reaches providers default_audience a parts audience now w user w' :
  Forall (λ p, audience_set_ok (pr_audiences p)) providers →
  authenticator_new providers default_audience = Ok a →
  authenticate a parts audience now w = (Ok user, w') →
  ∃ pos p raw, providers !! pos = Some p ∧ covers (pr_audiences p) audience ∧
    extract_from (pr_access_location p) parts = Ok (Some raw) ∧
    pr_authenticate p raw parts audience now w = (Ok user, w') ∧
    (is_cookie (pr_access_location p) = true → has_authorization parts = false) ∧
    ∀ pos' p', pos' ≠ pos → providers !! pos' = Some p' → covers (pr_audiences p') audience →
      extract_from (pr_access_location p') parts = Ok None.
Proof.
  intros Hwf Hnew Hauth. unfold authenticator_new in Hnew. run_ok Hnew. destruct a0 as [ids access].
  injection Hnew as <-. pose proof (build_indexes_access _ _ _ _ _ _ Hs) as Hb.
  assert (Hok : index_ok (provider_entry <$> providers) access).
  { pose proof (build_access_ok (provider_entry <$> providers) [] access_index_new index_ok_new) as Hok.
    cbn in Hok. rewrite Hb in Hok. apply Hok; [by intros i j e e' _ Hi; rewrite lookup_nil in Hi|].
    apply Forall_fmap. exact Hwf. }
  unfold authenticate in Hauth. cbn [at_access] in Hauth.
  apply bind_ok in Hauth as (chosen & w1 & Hsel & Hauth). apply lift_ok in Hsel as [Hsel ->].
  apply bind_ok in Hauth as ([pos raw] & w1 & Hc & Hauth). apply lift_ok in Hc as [Hc ->].
  apply ok_or_ok in Hc as ->. apply bind_ok in Hauth as (p & w1 & Hp & Hauth). apply lift_ok in Hp as [Hp ->].
  apply bind_ok in Hauth as (? & w1 & Hcookie & Hauth). apply refuse_ok in Hcookie as [Hcookie ->].
  unfold provider_authenticate in Hauth. apply bind_ok in Hauth as (? & w1 & Hr & Hauth). apply refuse_ok in Hr as [_ ->].
  apply bind_ok in Hauth as (? & w1 & Hr & Hauth). apply refuse_ok in Hr as [Haud ->].
  apply select_credential_ok in Hsel as [[[=] _]|(_ & Hin & (p' & Hp' & Hraw) & Hrest)].
  rewrite Hp in Hp'. injection Hp' as <-. unfold provider_at in Hp. apply ok_or_ok in Hp. cbn in Hp.
  exists pos, p, raw. split_and!; [done| |done|done| |].
  - apply aud_supports_spec; [|by apply negb_false_iff]. by eapply Forall_lookup_1 in Hwf.
  - intros Hck. by rewrite Hck in Hcookie.
  - intros q p' Hne Hq Hcov. specialize (Hrest (access_for_NoDup _ _ audience Hok) q).
    destruct Hrest as (p'' & Hp'' & Hnone); [|done|].
    + apply (access_for_spec _ _ _ Hok). exists (location_selector (pr_access_location p')), (pr_audiences p').
      split; [|done]. by rewrite list_lookup_fmap, Hq.
    + unfold provider_at in Hp''. apply ok_or_ok in Hp''. cbn in Hp''. congruence.
Qed.

(** C21: a request that is authenticated was served by one provider: it covers
    the audience of the route and was given the credential at its location,
    every other provider of the audience was given none, and a cookie did not
    come with an Authorization header. Nothing is tried on a second provider. *)
Theorem requests_reach_one_provider providers default_audience a parts audience now w user w' :
  Forall (λ p, audience_set_ok (pr_audiences p)) providers →
  authenticator_new providers default_audience = Ok a →
  authenticate a parts audience now w = (Ok user, w') →
  ∃ pos p raw, providers !! pos = Some p ∧ covers (pr_audiences p) audience ∧
    extract_from (pr_access_location p) parts = Ok (Some raw) ∧
    pr_authenticate p raw parts audience now w = (Ok user, w') ∧
    (is_cookie (pr_access_location p) = true → has_authorization parts = false) ∧
    ∀ pos' p', pos' ≠ pos → providers !! pos' = Some p' → covers (pr_audiences p') audience →
      extract_from (pr_access_location p') parts = Ok None.
Proof. apply authenticate_reaches. Qed.
End Dispatch.

(** ** What an accepted credential proves *)

Section Accepted.
Context {W : Type} `{H : HttpExternals, Y : Serialization, D : DateRange}.
Implicit Types (p : TokenRuntime (W := W)) (t : AuthToken).

Definition leeway p : Z := tr_leeway_seconds p * TICKS.

(** A token [p] may take as one of a kind, for some audiences, at some time. *)
Record usable p (kind : TokenKind) (audiences : list string) (now : DateTime) t : Prop := {
  usable_structure : validate_structure t = Ok tt;
  usable_provider : tk_provider t = tr_id p;
  usable_kind : tk_kind t = kind;
  usable_issuer conf : kind_runtime p kind = Ok conf → is_Some (kr_issuer conf) → tk_issuer t = kr_issuer conf;
  usable_audiences : ∃ l, tk_audiences t = Some l ∧ ∀ a, a ∈ audiences → a ∈ l;
  usable_expiry : now - leeway p < tk_expires_at t * TICKS;
  usable_not_before n : tk_not_before t = Some n → n * TICKS ≤ now + leeway p;
  usable_issued : tk_issued_at t * TICKS ≤ now + leeway p;
  usable_proof n : tk_auth_time t = Some n → n * TICKS ≤ tk_issued_at t * TICKS + leeway p;
  usable_family : kind = KindRefresh → is_Some (tk_family_id t);
  usable_id : is_Some (tr_lifecycle p) → is_Some (tk_token_id t) }.

Lemma timestamp_ok v d : timestamp v = Ok d → d = v * TICKS.
Proof. unfold timestamp. case_match; [by intros [= <-]|done]. Qed.
Lemma optional_timestamp_ok v d : optional_timestamp v = Ok d → d = (λ n, n * TICKS) <$> v.
Proof.
  destruct v as [v|]; cbn; [|by intros [= <-]]. intros Ho. run_ok Ho. apply timestamp_ok in Hs as ->. by injection Ho as <-.
Qed.

(** What [validate_common] has checked. *)
Lemma validate_common_ok p t now u :
  validate_common t (tr_id p) (tr_leeway_seconds p) now = Ok u →
  validate_structure t = Ok tt ∧ tk_provider t = tr_id p ∧ now - leeway p < tk_expires_at t * TICKS ∧
  (∀ n, tk_not_before t = Some n → n * TICKS ≤ now + leeway p) ∧ tk_issued_at t * TICKS ≤ now + leeway p ∧
  (∀ n, tk_auth_time t = Some n → n * TICKS ≤ tk_issued_at t * TICKS + leeway p).
Proof.
  unfold validate_common, leeway. destruct (negb (tk_version t =? 2)) eqn:Hv; [done|].
  destruct (String.eqb_spec (tk_provider t) (tr_id p)) as [Hp|]; [|done]. cbn.
  destruct (validate_structure t) as [[]|] eqn:Hs; [|done]. cbn. intros Hc.
  apply result_bind_ok in Hc as (i & Hi & Hc). apply result_bind_ok in Hc as (au & Hau & Hc). apply result_bind_ok in Hc as (e & He & Hc).
  apply timestamp_ok in Hi as ->. apply timestamp_ok in He as ->. apply optional_timestamp_ok in Hau as ->.
  destruct (Z.leb_spec (tk_expires_at t * TICKS) (now - tr_leeway_seconds p * TICKS)) as [|Hexp]; [done|].
  apply result_bind_ok in Hc as (n & Hn & Hc). apply optional_timestamp_ok in Hn as ->.
  destruct (match (_ <$> tk_not_before t) with _ => _ end || _ || _) eqn:Hall; [done|]. clear Hc.
  apply orb_false_iff in Hall as [[Hn Hi]%orb_false_iff Ha].
  split_and!; [done|done|lia| |lia|].
  - intros n Hnb. rewrite Hnb in Hn. cbn in Hn. lia.
  - intros n Hnb. rewrite Hnb in Ha. cbn in Ha. lia.
Qed.

Lemma token_accept_ok p t kind audiences now w user w' :
  token_accept p t kind audiences now w = (Ok user, w') →
  usable p kind audiences now t ∧
  ∃ w1 verified, match tr_lifecycle p with
                 | Some lifecycle => lc_validate lifecycle t w = (Ok tt, w1)
                 | None => w1 = w
                 end ∧
    tr_verifier p t w1 = (Ok verified, w') ∧ validate_user verified = Ok tt ∧
    user = with_authentication (token_authentication t) (set_provider (tr_id p) verified).
Proof.
  unfold token_accept. intros Ha. apply bind_ok in Ha as (conf & w1 & Hk & Ha). apply lift_ok in Hk as [Hk ->].
  apply bind_ok in Ha as (u1 & w1 & Hv & Ha). apply lift_ok in Hv as [Hv ->].
  apply bind_ok in Ha as (u2 & w1 & Hf & Ha). apply refuse_ok in Hf as [Hf ->].
  apply bind_ok in Ha as (u3 & w1 & Hi & Ha). apply refuse_ok in Hi as [Hi ->].
  apply bind_ok in Ha as (u4 & w1 & Hl & Ha). apply bind_ok in Ha as (verified & w2 & Hvf & Ha).
  apply bind_ok in Ha as ([] & w3 & Hvu & Ha). apply lift_ok in Hvu as [Hvu ->]. injection Ha as <- <-.
  split.
  - unfold validate_token in Hv. apply result_bind_ok in Hv as (u & Hc & Hv).
    apply validate_common_ok in Hc as (Hstr & Hprov & Hexp & Hnb & Hiss & Hpr).
    destruct (negb (bool_decide (tk_kind t = kind))) eqn:Hkind; [done|].
    apply negb_false_iff, bool_decide_eq_true in Hkind.
    destruct (bool_decide (is_Some (kr_issuer conf)) && negb (bool_decide (tk_issuer t = kr_issuer conf))) eqn:Hissuer; [done|].
    apply result_bind_ok in Hv as (l & Hl' & Hv). apply ok_or_ok in Hl'.
    destruct (existsb _ audiences) eqn:Hex; [done|]. split; try done.
    + intros conf' Hk' Hs. rewrite Hk in Hk'. injection Hk' as <-. rewrite bool_decide_true in Hissuer by done.
      by apply negb_false_iff, bool_decide_eq_true in Hissuer.
    + exists l. split; [done|]. intros a Ha. destruct (decide (a ∈ l)) as [|Hn]; [done|].
      assert (Hcontra : existsb (λ a, negb (bool_decide (a ∈ l))) audiences = true); [|by rewrite Hcontra in Hex].
      apply existsb_exists. exists a. split; [by apply list_elem_of_In|]. by rewrite bool_decide_false.
    + intros ->. rewrite bool_decide_true in Hf by done. cbn in Hf. apply bool_decide_eq_false in Hf.
      by destruct (tk_family_id t) as [f|]; [exists f|].
    + intros Hs. rewrite bool_decide_true in Hi by done. cbn in Hi. apply bool_decide_eq_false in Hi.
      by destruct (tk_token_id t) as [f|]; [exists f|].
  - exists w1, verified. split_and!; [|done|done|done]. destruct (tr_lifecycle p); [by destruct u4|by injection Hl].
Qed.

Lemma token_decode_ok p conf raw parts w t w' :
  token_decode p conf raw parts w = (Ok t, w') →
  str_len raw ≤ kr_max_credential_bytes conf ∧ validate_csrf (kr_csrf conf) parts = Ok tt ∧
  ∃ decoded, cd_decode (kr_codec conf) raw w = (Ok decoded, w') ∧ normalize_token p decoded = Ok t.
Proof.
  unfold token_decode. intros Hd. apply bind_ok in Hd as (? & w1 & Hsz & Hd). apply lift_ok in Hsz as [Hsz ->].
  apply bind_ok in Hd as (decoded & w2 & Hdec & Hd). apply bind_ok in Hd as (t' & w3 & Hn & Hd). apply lift_ok in Hn as [Hn ->].
  apply bind_ok in Hd as ([] & w4 & Hc & Hd). apply lift_ok in Hc as [Hc ->]. injection Hd as <- <-.
  split_and!; [|done|by exists decoded]. unfold validate_credential_size in Hsz. case_match; [done|]. lia.
Qed.

(** C19: an access credential that is accepted for an audience was within the size
    bound and passed the CSRF check, and its codec authenticated a token that
    is well formed, an access token of this provider and its issuer, meant for
    the audience (or for none, where the default is meant), issued and valid by
    now and not expired, up to the leeway, which the lifecycle let through; the
    identity is the verifier's, of this provider, with the token's proof of
    identity. A refresh token authorizes nothing. *)
Theorem accepted_credentials_are_valid p raw parts audience now w user w' :
  token_authenticate p raw parts audience now w = (Ok user, w') →
  str_len raw ≤ kr_max_credential_bytes (tr_access p) ∧ validate_csrf (kr_csrf (tr_access p)) parts = Ok tt ∧
  ∃ decoded t w1 w2 verified,
    cd_decode (kr_codec (tr_access p)) raw w = (Ok decoded, w1) ∧ normalize_token p decoded = Ok t ∧
    usable p KindAccess [audience] now t ∧
    match tr_lifecycle p with Some lifecycle => lc_validate lifecycle t w1 = (Ok tt, w2) | None => w2 = w1 end ∧
    tr_verifier p t w2 = (Ok verified, w') ∧ validate_user verified = Ok tt ∧
    user = with_authentication (token_authentication t) (set_provider (tr_id p) verified).
Proof.
  unfold token_authenticate. intros Ha. apply bind_ok in Ha as (t & w1 & Hd & Ha).
  apply token_decode_ok in Hd as (Hsz & Hcsrf & decoded & Hdec & Hn).
  apply token_accept_ok in Ha as (Hu & w2 & verified & Hl & Hv & Hvu & ->).
  split_and!; [done|done|]. by exists decoded, t, w1, w2, verified.
Qed.
End Accepted.

(** ** Refreshing *)

Section Refresh.
Context {W : Type} `{H : HttpExternals, Y : Serialization, D : DateRange}.
Implicit Types (p : TokenRuntime (W := W)) (t : AuthToken).

(** A token issued to [user] in the place of [current]. *)
Record reissue p (current : AuthToken) (kind : TokenKind) (user : AuthUser) (id : string) (now : DateTime) t :
    Prop := {
  reissue_provider : tk_provider t = tr_id p;
  reissue_kind : tk_kind t = kind;
  reissue_subject : tk_subject t = au_subject user;
  reissue_scopes : tk_scopes t = au_scopes user;
  reissue_audiences : tk_audiences t = tk_audiences current;
  reissue_family : tk_family_id t = tk_family_id current;
  reissue_id : tk_token_id t = Some id;
  reissue_proof : tk_auth_time t = Some (default (now / TICKS) (tk_auth_time current));
  reissue_methods : tk_authentication_methods t = tk_authentication_methods current;
  reissue_class : tk_authentication_class t = tk_authentication_class current }.

Lemma issue_token_ok id kind user audiences conf family token_id now t :
  issue_token (W := W) id kind user audiences conf family token_id now = Ok t →
  tk_provider t = id ∧ tk_kind t = kind ∧ tk_subject t = au_subject user ∧ tk_scopes t = au_scopes user ∧
  tk_audiences t = Some audiences ∧ tk_family_id t = family ∧ tk_token_id t = Some token_id ∧
  tk_auth_time t = Some (default (now / TICKS) (ac_auth_time (au_authentication user))) ∧
  tk_authentication_methods t = ac_methods (au_authentication user) ∧
  tk_authentication_class t = ac_acr (au_authentication user).
Proof. unfold issue_token. destruct (i64_checked_add _ _); [|done]. by intros [= <-]. Qed.

Lemma token_response_ok p access refresh draws w response replacement w' :
  token_response p (access, refresh) draws w = (Ok (response, replacement), w') →
  replacement = refresh ∧ ∃ w1, codec_encode (kr_codec (tr_access p)) access w = (Ok (lr_access response), w1) ∧
    str_len (lr_access response) ≤ kr_max_credential_bytes (tr_access p).
Proof.
  unfold token_response, token_encode. intros Hr. apply bind_ok in Hr as (text & w1 & He & Hr).
  apply bind_ok in He as (text' & w2 & He & Hsz). apply bind_ok in Hsz as ([] & w3 & Hsz & Hret). apply lift_ok in Hsz as [Hsz ->].
  injection Hret as -> ->. apply bind_ok in Hr as (rv & w2 & _ & Hr). apply bind_ok in Hr as (ad & w3 & _ & Hr).
  apply bind_ok in Hr as (rd & w4 & _ & Hr). destruct ad as [[body at_] csrf]. injection Hr as <- <- _.
  split; [done|]. exists w1. split; [exact He|]. cbn. unfold validate_credential_size in Hsz. case_match; [done|]. lia.
Qed.

(** What a refresh grants is what was granted: its credential is a usable
    refresh token of this provider, covered by the provider's audiences, and
    the new access and refresh tokens have its audiences, family and proof of
    identity, and the subject and scopes the verifier answers now. With a
    lifecycle the response is given out only after it has recorded the old
    token as replaced by the new one. *)
Theorem refresh_keeps_the_grant p raw parts draws now w response w' :
  token_refresh p raw parts draws now w = (Ok response, w') →
  ∃ conf current audiences user access refresh w1 w2 w3,
    tr_refresh p = Some conf ∧ usable p KindRefresh audiences now current ∧ tk_audiences current = Some audiences ∧
    forallb (aud_supports (tr_audiences p)) audiences = true ∧
    token_accept p current KindRefresh audiences now w1 = (Ok user, w2) ∧
    reissue p current KindAccess user (dw_access_id draws) now access ∧
    reissue p current KindRefresh user (dw_refresh_id draws) now refresh ∧
    codec_encode (kr_codec (tr_access p)) access w2 = (Ok (lr_access response), w3) ∧
    match tr_lifecycle p with
    | Some lifecycle =>
        ∃ metadata w4, lc_rotate lifecycle current metadata w4 = (Ok tt, w') ∧
          rm_token_id metadata = dw_refresh_id draws ∧ Some (rm_family_id metadata) = tk_family_id current ∧
          rm_audiences metadata = audiences
    | None => True
    end.
Proof.
  unfold token_refresh. intros Hr. apply bind_ok in Hr as (conf & w1 & Hc & Hr). apply lift_ok in Hc as [Hc ->].
  apply ok_or_ok in Hc. apply bind_ok in Hr as (current & w1 & Hd & Hr). apply bind_ok in Hr as (audiences & w2 & Ha & Hr).
  apply lift_ok in Ha as [Ha ->]. apply ok_or_ok in Ha. apply bind_ok in Hr as (u & w2 & Hv & Hr). apply lift_ok in Hv as [Hv ->].
  apply bind_ok in Hr as (user & w2 & Hacc & Hr). apply bind_ok in Hr as ([access refresh] & w3 & Hp & Hr).
  apply lift_ok in Hp as [Hp ->]. apply bind_ok in Hr as ([response' replacement] & w3 & Hresp & Hr).
  apply bind_ok in Hr as (u' & w4 & Hrot & Hr). injection Hr as <- <-.
  pose proof (token_accept_ok _ _ _ _ _ _ _ _ Hacc) as (Hus & w5 & verified & _ & _ & _ & Huser).
  destruct (usable_family _ _ _ _ _ Hus eq_refl) as [family Hfam].
  unfold token_pair in Hp. rewrite Hc, Hfam in Hp. apply result_bind_ok in Hp as (access' & Hia & Hp).
  apply result_bind_ok in Hp as (refresh' & Hir & Hp). injection Hp as <- <-.
  apply token_response_ok in Hresp as (-> & w6 & Henc & _).
  apply issue_token_ok in Hia as (? & ? & ? & ? & ? & ? & ? & ? & ? & ?).
  apply issue_token_ok in Hir as (? & ? & ? & ? & Har & Hfr & Hidr & ? & ? & ?).
  exists conf, current, audiences, user, access', refresh', w1, w2, w6. split_and!; try done.
  - unfold validate_requested in Hv. by destruct (forallb _ _).
  - split; subst user; cbn in *; congruence.
  - split; subst user; cbn in *; congruence.
  - unfold token_rotate in Hrot. destruct (tr_lifecycle p) as [lifecycle|]; [|done].
    apply bind_ok in Hrot as (t & w7 & Ht & Hrot). apply lift_ok in Ht as [Ht ->]. apply ok_or_ok in Ht. injection Ht as <-.
    apply bind_ok in Hrot as (metadata & w8 & Hm & Hrot). apply lift_ok in Hm as [Hm ->]. destruct u'.
    exists metadata, w3. split; [done|]. unfold refresh_metadata in Hm. rewrite Hidr, Hfr in Hm. cbn in Hm.
    apply result_bind_ok in Hm as (d & _ & Hm). injection Hm as <-. cbn. rewrite Har. by split_and!.
Qed.

(** *** With a lifecycle a refresh token is used once *)

(** What a lifecycle promises: a token it recorded as replaced stays so, whatever
    happens later, and is not replaced again. *)
Record rotation_laws p (lifecycle : TokenLifecycle) (later : relation W) (consumed : AuthToken → W → Prop) :
    Prop := {
  rl_preorder : PreOrder later;
  rl_stays t w w' : consumed t w → later w w' → consumed t w';
  rl_rotate t m w w' : lc_rotate lifecycle t m w = (Ok tt, w') → consumed t w';
  rl_once t m w w' : consumed t w → lc_rotate lifecycle t m w ≠ (Ok tt, w');
  rl_validate t : respects later (lc_validate lifecycle t);
  rl_verifier t : respects later (tr_verifier p t);
  rl_decode conf raw : tr_refresh p = Some conf → respects later (cd_decode (kr_codec conf) raw);
  rl_encode conf t : conf = tr_access p ∨ tr_refresh p = Some conf → respects later (codec_encode (kr_codec conf) t) }.

Lemma run_later {A} (later : relation W) (m : M W AuthError A) w r w' :
  respects later m → m w = (r, w') → later w w'.
Proof. intros Hm Hr. specialize (Hm w). by rewrite Hr in Hm. Qed.

Lemma accept_respects p lifecycle later consumed t kind audiences now :
  tr_lifecycle p = Some lifecycle → rotation_laws p lifecycle later consumed →
  respects later (token_accept p t kind audiences now).
Proof.
  intros Hl L. pose proof (rl_preorder _ _ _ _ L). unfold token_accept, refuse_if. rewrite Hl.
  pose proof (rl_validate _ _ _ _ L). pose proof (rl_verifier _ _ _ _ L). respects_auto.
Qed.
Lemma response_respects p lifecycle later consumed pair draws :
  rotation_laws p lifecycle later consumed → respects later (token_response p pair draws).
Proof.
  intros L. pose proof (rl_preorder _ _ _ _ L). unfold token_response, token_encode.
  pose proof (λ t, rl_encode _ _ _ _ L (tr_access p) t (or_introl eq_refl)).
  destruct (tr_refresh p) as [conf|] eqn:Hr; [|respects_auto].
  pose proof (λ t, rl_encode _ _ _ _ L conf t (or_intror Hr)). destruct pair.2; respects_auto.
Qed.

(** C20: under a lifecycle that records replaced tokens a refresh credential is
    accepted at most once: after one refresh with it has succeeded no later one
    does, with any request, at any time, whatever happened in between. *)
Theorem refresh_tokens_are_used_once p lifecycle later consumed raw parts parts' draws draws' now now'
    w response w1 w2 response' w3 :
  tr_lifecycle p = Some lifecycle → rotation_laws p lifecycle later consumed →
  (∀ conf v v' t t' u u', tr_refresh p = Some conf → cd_decode (kr_codec conf) raw v = (Ok t, u) →
     cd_decode (kr_codec conf) raw v' = (Ok t', u') → t = t') →
  token_refresh p raw parts draws now w = (Ok response, w1) → later w1 w2 →
  token_refresh p raw parts' draws' now' w2 ≠ (Ok response', w3).
Proof.
  intros Hl L Hdet H1 Hlater H2. pose proof (rl_preorder _ _ _ _ L) as Hpre.
  assert (Hsteps : ∀ parts draws now w response w', token_refresh p raw parts draws now w = (Ok response, w') →
    ∃ conf decoded current v v' m, tr_refresh p = Some conf ∧ cd_decode (kr_codec conf) raw w = (Ok decoded, v) ∧
      normalize_token p decoded = Ok current ∧ later w v' ∧ lc_rotate lifecycle current m v' = (Ok tt, w')).
  { clear -Hl L Hpre. intros parts draws now w response w' Hr. unfold token_refresh in Hr.
    apply bind_ok in Hr as (conf & v & Hc & Hr). apply lift_ok in Hc as [Hc ->]. apply ok_or_ok in Hc.
    apply bind_ok in Hr as (current & v1 & Hd & Hr). apply token_decode_ok in Hd as (_ & _ & decoded & Hdec & Hn).
    apply bind_ok in Hr as (audiences & v2 & Ha & Hr). apply lift_ok in Ha as [_ ->].
    apply bind_ok in Hr as (? & v2 & Hv & Hr). apply lift_ok in Hv as [_ ->].
    apply bind_ok in Hr as (user & v2 & Hacc & Hr). apply bind_ok in Hr as (pair & v3 & Hp & Hr). apply lift_ok in Hp as [_ ->].
    apply bind_ok in Hr as (resp & v3 & Hresp & Hr). apply bind_ok in Hr as ([] & v4 & Hrot & Hr). injection Hr as _ <-.
    unfold token_rotate in Hrot. rewrite Hl in Hrot. apply bind_ok in Hrot as (t & v5 & Ht & Hrot). apply lift_ok in Ht as [_ ->].
    apply bind_ok in Hrot as (m & v5 & Hm & Hrot). apply lift_ok in Hm as [_ ->].
    exists conf, decoded, current, v1, v3, m. split_and!; try done.
    trans v1; [exact (run_later _ _ _ _ _ (rl_decode _ _ _ _ L _ raw Hc) Hdec)|].
    trans v2; [exact (run_later _ _ _ _ _ (accept_respects p lifecycle later consumed _ _ _ _ Hl L) Hacc)|].
    exact (run_later _ _ _ _ _ (response_respects p lifecycle later consumed _ _ L) Hresp). }
  apply Hsteps in H1 as (conf & d1 & t1 & v1 & v1' & m1 & Hc & Hd1 & Hn1 & _ & Hr1).
  apply Hsteps in H2 as (conf' & d2 & t2 & v2 & v2' & m2 & Hc' & Hd2 & Hn2 & Hl2 & Hr2).
  rewrite Hc in Hc'. injection Hc' as <-. assert (d1 = d2) as <- by (by eapply Hdet).
  rewrite Hn1 in Hn2. injection Hn2 as <-.
  apply (rl_rotate _ _ _ _ L) in Hr1. apply (rl_once _ _ _ _ L) in Hr2; [done|].
  eapply (rl_stays _ _ _ _ L); [exact Hr1|]. by trans w2.
Qed.
End Refresh.

(** ** What is issued *)

Section Issued.
Context {W : Type} `{H : HttpExternals, Y : Serialization, D : DateRange}.
Implicit Types (p : TokenRuntime (W := W)) (t : AuthToken).

Lemma normalize_id l : sorted_scopes l → normalize l = l.
Proof.
  intros Hs. apply (StronglySorted_unique_strong scope_lt).
  - intros x y _ _ Hxy Hyx. exfalso. apply (scope_lt_irrefl x). by trans y.
  - apply normalize_sorted.
  - exact Hs.
  - apply NoDup_Permutation; [by apply sorted_scopes_NoDup, normalize_sorted|by apply sorted_scopes_NoDup|].
    intros x. apply elem_of_normalize.
Qed.

(** What [p] issues to [user] as an access token. *)
Definition access_token p (user : AuthUser) (audiences : list string) (draws : Draws) (now : DateTime) :
    result AuthError AuthToken :=
  issue_token (tr_id p) KindAccess user audiences (tr_access p)
    (match tr_refresh p with Some _ => Some (dw_family draws) | None => None end) (dw_access_id draws) now.

Lemma login_issues p user audiences draws now w response w' :
  token_login p user audiences draws now w = (Ok response, w') →
  validate_user user = Ok tt ∧ ∃ t w1, access_token p user audiences draws now = Ok t ∧
    codec_encode (kr_codec (tr_access p)) t w = (Ok (lr_access response), w1) ∧
    str_len (lr_access response) ≤ kr_max_credential_bytes (tr_access p).
Proof.
  unfold token_login. intros Hl. apply bind_ok in Hl as ([] & w1 & Hu & Hl). apply lift_ok in Hu as [Hu ->].
  apply bind_ok in Hl as ([access refresh] & w1 & Hp & Hl). apply lift_ok in Hp as [Hp ->].
  apply bind_ok in Hl as ([resp repl] & w2 & Hr & Hl). injection Hl as <- _. split; [done|].
  apply token_response_ok in Hr as (_ & w3 & He & Hsz). exists access, w3. split; [|done].
  unfold token_pair in Hp. unfold access_token.
  replace (match tr_refresh p with Some _ => Some (default (dw_family draws) None) | None => None end)
    with (match tr_refresh p with Some _ => Some (dw_family draws) | None => None end) in Hp by by destruct (tr_refresh p).
  apply result_bind_ok in Hp as (t & Ht & Hp). destruct (tr_refresh p).
  - apply result_bind_ok in Hp as (t' & _ & Hp). by injection Hp as -> _.
  - by injection Hp as -> _.
Qed.

(** What a codec promises: a well-formed token is read back as it was written,
    and a credential is never read as another token. *)
Record faithful_codec (c : CodecRuntime (W := W)) : Prop := {
  fc_back t w text w' : codec_encode c t w = (Ok text, w') → validate_structure t = Ok tt →
    ∀ v, ∃ v', cd_decode c text v = (Ok t, v');
  fc_same t w text w' t' v v' : codec_encode c t w = (Ok text, w') → cd_decode c text v = (Ok t', v') → t' = t }.

(** The identity an access token issued to [user] at second [issued] stands for. *)
Definition issued_identity p (user : AuthUser) (issued : Z) : AuthUser :=
  {| au_subject := au_subject user; au_scopes := au_scopes user; au_provider := Some (tr_id p); au_extra := false;
     au_authentication := {| ac_auth_time := Some (default issued (ac_auth_time (au_authentication user)));
                             ac_methods := ac_methods (au_authentication user);
                             ac_acr := ac_acr (au_authentication user) |} |}.
(** The answer to it at [now]. *)
Definition access_answer p (user : AuthUser) (issued : Z) (audiences : list string) (audience : string)
    (now : DateTime) : result AuthError AuthUser :=
  if (issued + kr_ttl_seconds (tr_access p)) * TICKS <=? now - leeway p then Err ExpiredCredential
  else if (now + leeway p <? issued * TICKS)
          || (issued * TICKS + leeway p <? default issued (ac_auth_time (au_authentication user)) * TICKS)
  then Err CredentialNotYetValid
  else if bool_decide (audience ∈ audiences) then Ok (issued_identity p user issued) else Err AudienceMismatch.

Lemma structure_timestamps t : validate_structure t = Ok tt →
  tk_version t = 2 ∧ timestamp (tk_issued_at t) = Ok (tk_issued_at t * TICKS) ∧
  timestamp (tk_expires_at t) = Ok (tk_expires_at t * TICKS) ∧
  optional_timestamp (tk_auth_time t) = Ok ((λ n, n * TICKS) <$> tk_auth_time t) ∧
  optional_timestamp (tk_not_before t) = Ok ((λ n, n * TICKS) <$> tk_not_before t) ∧
  is_blank (tk_subject t) = false ∧ validate_scopes (tk_scopes t) = Ok tt.
Proof.
  unfold validate_structure. intros Hv. apply result_bind_ok in Hv as (u & Hn & Hv).
  apply result_bind_ok in Hv as (u' & Ht & _). unfold validate_times in Ht.
  apply result_bind_ok in Ht as (i & Hi & Ht). apply result_bind_ok in Ht as (e & He & Ht).
  destruct (_ || _); [done|]. apply result_bind_ok in Ht as (n & Hnb & Ht). apply result_bind_ok in Ht as (a & Ha & _).
  pose proof (timestamp_ok _ _ Hi) as ->. pose proof (timestamp_ok _ _ He) as ->.
  pose proof (optional_timestamp_ok _ _ Hnb) as ->. pose proof (optional_timestamp_ok _ _ Ha) as ->.
  unfold validate_names in Hn. destruct (tk_version t =? 2) eqn:Hver; [|done].
  destruct (is_ok (provider_id_new (tk_provider t))); [|done].
  destruct (is_blank (tk_subject t)) eqn:Hb; [done|]. destruct (_ || _); [done|].
  destruct (validate_scopes (tk_scopes t)) as [[]|]; [|done]. split_and!; try done. lia.
Qed.

(** The token a login issues. *)
Lemma access_token_fields p user audiences draws now t :
  access_token p user audiences draws now = Ok t →
  tk_provider t = tr_id p ∧ tk_kind t = KindAccess ∧ tk_subject t = au_subject user ∧ tk_scopes t = au_scopes user ∧
  tk_audiences t = Some audiences ∧ tk_not_before t = None ∧ tk_issuer t = kr_issuer (tr_access p) ∧
  tk_token_id t = Some (dw_access_id draws) ∧ tk_issued_at t = now / TICKS ∧
  tk_expires_at t = now / TICKS + kr_ttl_seconds (tr_access p) ∧
  token_authentication t = au_authentication (issued_identity p user (now / TICKS)).
Proof.
  unfold access_token, issue_token, i64_checked_add. destruct (_ && _); [|done]. by intros [= <-].
Qed.

Lemma accept_issued p user audiences draws now t audience now' w :
  tr_lifecycle p = None → tr_verifier p = embedded_verifier → sorted_scopes (au_scopes user) →
  access_token p user audiences draws now = Ok t → validate_structure t = Ok tt →
  token_accept p t KindAccess [audience] now' w = (access_answer p user (now / TICKS) audiences audience now', w).
Proof.
  intros Hl Hv Hsort Ht Hstr.
  pose proof (access_token_fields _ _ _ _ _ _ Ht) as (Hp & Hk & Hs & Hsc & Ha & Hnb & His & Hid & Hia & Hex & Hau').
  pose proof (structure_timestamps t Hstr) as (Hver & Hi & He & Hau & Hn & Hblank & Hscopes).
  assert (Hat : tk_auth_time t = Some (default (now / TICKS) (ac_auth_time (au_authentication user))))
    by exact (f_equal ac_auth_time Hau').
  unfold token_accept, bindM, liftR, kind_runtime. cbn beta iota. unfold validate_token, validate_common.
  rewrite Hver, Hp, String.eqb_refl, Hstr. cbn. rewrite Hi, Hau, He. cbn. unfold access_answer, leeway. rewrite Hex, Hia.
  destruct (_ <=? _); [done|]. rewrite Hn. cbn. rewrite Hnb, Hat. cbn.
  destruct (_ || _); [done|]. cbn. rewrite Hk, (bool_decide_true (_ = _)) by done. cbn.
  rewrite His, (bool_decide_true (kr_issuer _ = _)) by done. rewrite andb_false_r, Ha. cbn. rewrite orb_false_r.
  case_bool_decide as Hin; [|done]. cbn. unfold refuse_if. rewrite Hl. cbn. rewrite Hv. unfold embedded_verifier, retM. cbn.
  rewrite (bool_decide_false (KindAccess = KindRefresh)) by done. cbn.
  assert (Hu : au_scopes (embedded_user t) = tk_scopes t) by (apply normalize_id; by rewrite Hsc).
  unfold validate_user. rewrite Hu, Hscopes. change (au_subject (embedded_user t)) with (tk_subject t).
  rewrite Hblank. unfold with_authentication, set_provider. rewrite Hu, Hau'. cbn. by rewrite Hs, Hsc.
Qed.

End Issued.

(** ** Locations that exclude each other *)

Section Exclusion.
Context {W : Type} `{H : HttpExternals, Y : Serialization, D : DateRange}.

Lemma extract_header_scheme parts name s s' value :
  eq_ignore_ascii_case s s' = false → get_all name parts = [value] →
  is_ok (extract_header parts (Some name) (Some s)) = false ∨ is_ok (extract_header parts (Some name) (Some s')) = false.
Proof.
  intros Hne Hv. unfold extract_header. cbn. rewrite Hv. destruct (header_text value) as [text|]; cbn; [|by left].
  destruct (split_once space text) as [[actual raw]|]; [|by left].
  destruct (eq_ignore_ascii_case actual s) eqn:H1; [|by left].
  destruct (eq_ignore_ascii_case actual s') eqn:H2; [|by right].
  exfalso. unfold eq_ignore_ascii_case in *. apply String.eqb_eq in H1, H2. apply String.eqb_neq in Hne. congruence.
Qed.

(** Two providers of an audience that read one header with different schemes
    are accepted, their selectors differ, and then serve no request that has the
    header: what one of them takes the other finds malformed. *)
Theorem schemes_of_a_header_exclude_each_other providers default_audience (a : Authenticator (W := W)) i j p q name s s'
    audience parts value now w u w' :
  Forall (λ p, audience_set_ok (pr_audiences p)) providers →
  authenticator_new providers default_audience = Ok a → providers !! i = Some p → providers !! j = Some q →
  covers (pr_audiences p) audience → covers (pr_audiences q) audience →
  pr_access_location p = LocHeader name (Some name) (Some s) →
  pr_access_location q = LocHeader name (Some name) (Some s') →
  eq_ignore_ascii_case s s' = false → get_all name parts = [value] →
  authenticate a parts audience now w ≠ (Ok u, w').
Proof.
  intros Hwf Hnew Hi Hj Hci Hcj Hpi Hpj Hne Hv Hauth.
  destruct (authenticate_reaches _ _ _ _ _ _ _ _ _ Hwf Hnew Hauth)
    as (pos & r & raw & Hr & Hcr & Hraw & _ & _ & Hrest).
  assert (Hall : ∀ k x, providers !! k = Some x → covers (pr_audiences x) audience →
    is_ok (extract_from (pr_access_location x) parts) = true).
  { intros k x Hk Hc. destruct (decide (k = pos)) as [->|Hk'].
    - rewrite Hr in Hk. injection Hk as <-. by rewrite Hraw.
    - by rewrite (Hrest k x Hk' Hk Hc). }
  pose proof (Hall _ _ Hi Hci) as H1. pose proof (Hall _ _ Hj Hcj) as H2. rewrite Hpi in H1. rewrite Hpj in H2.
  unfold extract_from in H1, H2.
  destruct (extract_header_scheme parts name s s' value Hne Hv) as [He|He].
  - by destruct (extract_header parts (Some name) (Some s)).
  - by destruct (extract_header parts (Some name) (Some s')).
Qed.
End Exclusion.

(** ** A site with tokens and keys *)

(** Header and cookie texts as they are; the world is the token ids already used. *)
Module TokenDemo.
#[export] Instance http : HttpExternals := {|
  header_name s := Some (to_ascii_lowercase s);
  header_text s := Some s;
  header_value_ok _ := true;
  form_urlencoded s :=
    omap (λ item, split_once equals_sign item) (split_all (Ascii.ascii_of_nat 38) s);
  cookie_text c value _ := ckf_name c +:+ "=" +:+ value;
|}.
#[export] Instance dates : DateRange := {| date_min := -8334601228800; date_max := 8210266876799 |}.
#[export] Existing Instance DemoSerialization.serialization.

Definition DemoWorld : Type := list string.
Definition used_once : TokenLifecycle (W := DemoWorld) := {|
  lc_validate t := λ w, if bool_decide (default "" (tk_token_id t) ∈ w) then (Err InvalidCredential, w) else (Ok tt, w);
  lc_rotate t _ := λ w, if bool_decide (default "" (tk_token_id t) ∈ w) then (Err InvalidCredential, w)
                        else (Ok tt, default "" (tk_token_id t) :: w);
  lc_revoke t := λ w, (Ok tt, default "" (tk_token_id t) :: w) |}.

(** The codec writes tokens it knows, under their ids. *)
Definition token_fields (t : AuthToken) :=
  (tk_version t, tk_provider t, tk_kind t, tk_subject t, tk_scopes t, tk_audiences t, tk_issued_at t, tk_auth_time t,
   (tk_authentication_methods t, tk_authentication_class t, tk_not_before t, tk_expires_at t, tk_token_id t,
    tk_family_id t, tk_issuer t, tk_legacy_binding t)).
Definition same_token (t t' : AuthToken) : bool :=
  bool_decide (token_fields t = token_fields t') && match tk_payload t, tk_payload t' with JNull, JNull => true | _, _ => false end.
Lemma same_token_eq t t' : same_token t t' = true → t = t'.
Proof.
  unfold same_token, token_fields. intros [Hf%bool_decide_eq_true Hp]%andb_true_iff.
  destruct t, t'. cbn in *. destruct tk_payload, tk_payload0; try done. by simplify_eq.
Qed.
Definition table_codec (table : list (string * AuthToken)) : CodecRuntime (W := DemoWorld) := {|
  cd_encode := Some (λ t, match List.find (λ e, same_token e.2 t) table with
                          | Some (text, _) => retM text | None => throwM UnsupportedProviderCapability end);
  cd_decode text := match List.find (λ e, String.eqb e.1 text) table with
                    | Some (_, t) => retM t | None => throwM InvalidCredential end |}.

Lemma table_same table t w text w' t' v v' :
  NoDup table.*1 → codec_encode (table_codec table) t w = (Ok text, w') →
  cd_decode (table_codec table) text v = (Ok t', v') → t' = t.
Proof.
  intros Hnd. cbn. destruct (List.find _ table) as [[text1 t1]|] eqn:Hf; [|done]. intros [= -> ->].
  destruct (List.find _ table) as [[text2 t2]|] eqn:Hg in |- *; [|done]. intros [= -> ->].
  apply find_some in Hf as [Hin1 Hs]. apply find_some in Hg as [Hin2 He].
  cbn in *. apply same_token_eq in Hs as <-. apply String.eqb_eq in He as ->.
  apply list_elem_of_In, list_elem_of_lookup in Hin1 as [i Hi]. apply list_elem_of_In, list_elem_of_lookup in Hin2 as [j Hj].
  assert (i = j) as ->; [|congruence].
  apply (NoDup_lookup _ _ _ text Hnd); by rewrite list_lookup_fmap, ?Hi, ?Hj.
Qed.
Lemma table_codec_faithful table : NoDup table.*1 → faithful_codec (table_codec table).
Proof.
  intros Hnd. split; [|intros; by eapply table_same].
  intros t w text w' He _ v. pose proof (λ t', table_same table t w text w' t' v v Hnd He) as Hsame.
  cbn in *. destruct (List.find (λ e, String.eqb e.1 text) table) as [[text2 t2]|] eqn:Hg.
  - exists v. by rewrite (Hsame t2 eq_refl).
  - exfalso. destruct (List.find _ table) as [[text1 t1]|] eqn:Hf in He; [|done]. injection He as -> _.
    apply find_some in Hf as [Hin1 _]. pose proof (find_none _ _ Hg _ Hin1) as Hn. cbn in Hn. by rewrite String.eqb_refl in Hn.
Qed.

Lemma table_decode table raw : respects (⊆@{list string}) (cd_decode (table_codec table) raw).
Proof. intros w. cbn. by destruct (List.find _ table) as [[]|]. Qed.
Lemma table_encode table t : respects (⊆@{list string}) (codec_encode (table_codec table) t).
Proof. intros w. cbn. by destruct (List.find _ table) as [[]|]. Qed.

Definition refresh_cookie : CookieConf := cookie_conf_new "refresh".
Definition refresh_location : CredentialLocation := LocCookie refresh_cookie.
Definition kind_of (location : CredentialLocation) (ttl : Z) (table : list (string * AuthToken)) : KindRuntime :=
  {| kr_location := location; kr_response_header := None; kr_ttl_seconds := ttl; kr_codec := table_codec table;
     kr_issuer := None; kr_csrf := default_csrf location; kr_max_credential_bytes := 4096 |}.
Definition site_tokens (table : list (string * AuthToken)) (lifecycle : option TokenLifecycle) : TokenRuntime :=
  {| tr_id := "site"; tr_access := kind_of location_bearer 900 table;
     tr_refresh := Some (kind_of refresh_location 86400 table); tr_verifier := embedded_verifier;
     tr_lifecycle := lifecycle; tr_leeway_seconds := 30; tr_default_audience := None; tr_audiences := AudAny |}.

Definition ann_user : AuthUser := with_scopes ["read"%string] (auth_user_new "ann").
Definition draw (n : string) : Draws :=
  {| dw_family := "f"; dw_access_id := "a" +:+ n; dw_refresh_id := "r" +:+ n; dw_access_csrf := "x" +:+ n;
     dw_refresh_csrf := "c" +:+ n |}.
Definition morning : DateTime := 36000 * TICKS.
Definition later_on : DateTime := morning + 600 * TICKS.
Definition named (pair : result AuthError (AuthToken * option AuthToken)) : list (string * AuthToken) :=
  match pair with
  | Ok (a, r) => List.map (λ t, (default "" (tk_token_id t), t)) (a :: option_list r)
  | Err _ => []
  end.
Definition ann_again : AuthUser :=
  with_authentication {| ac_auth_time := Some 36000; ac_methods := []; ac_acr := None |} ann_user.
Definition table : list (string * AuthToken) :=
  named (token_pair (site_tokens [] None) ann_user ["api"%string] None (draw "1") morning)
  ++ named (token_pair (site_tokens [] None) ann_again ["api"%string] (Some "f"%string) (draw "2") later_on).
Definition site : TokenRuntime := site_tokens table None.
Definition rotating_site : TokenRuntime := site_tokens table (Some used_once).

Definition ops : KeyRuntime (W := DemoWorld) :=
  {| ky_id := "ops"; ky_location := location_header "x-key" None;
     ky_verifier raw _ := if String.eqb raw "secret" then retM (auth_user_new "ops") else throwM InvalidCredential;
     ky_csrf := None; ky_max_credential_bytes := 64; ky_lifecycle := None; ky_audiences := AudOnly ["admin"; "api"]%string |}.

Definition get (headers : list (string * string)) : Parts := {| pt_method := "GET"; pt_headers := headers; pt_query := None |}.
Definition ann_request : Parts := get [("authorization", "Bearer a1"); ("cookie", "theme=dark;")]%string.
Definition refresh_request : Parts :=
  {| pt_method := "POST"; pt_headers := [("cookie", "refresh=r1; refresh_csrf=c1"); ("x-csrf-token", "c1")]%string;
     pt_query := None |}.
Definition providers : list ProviderRuntime := [token_provider site; key_provider ops].

Definition site_auth : Authenticator := match authenticator_new providers None with
                                    | Ok a => a
                                    | Err _ => {| at_providers := []; at_ids := ∅; at_access := access_index_new;
                                                  at_default_audience := None |}
                                    end.
Definition ann_answer : AuthUser := set_provider "site" ann_again.
Definition refreshed : LoginResponse :=
  match (token_refresh rotating_site "r1" refresh_request (draw "2") later_on []).1 with
  | Ok response => response
  | Err _ => {| lr_access := ""; lr_refresh := None; lr_access_body := None; lr_refresh_body := None; lr_expires_in := 0;
                lr_attachments := []; lr_selector := SentQuery "" |}
  end.

Lemma rotating_laws :
  rotation_laws rotating_site used_once (⊆@{list string}) (λ t w, default "" (tk_token_id t) ∈ w).
Proof.
  split.
  - apply _.
  - intros t w w' Hin Hs. by apply Hs.
  - intros t m w w'. cbn. case_bool_decide; [done|]. intros [= <-]. by left.
  - intros t m w w' Hin. cbn. by rewrite bool_decide_true.
  - intros t w. cbn. by case_bool_decide.
  - by intros t w.
  - intros conf raw [= <-]. apply (table_decode table raw).
  - intros conf t [->|[= <-]]; apply (table_encode table t).
Qed.
End TokenDemo.

Section TokenWitnesses.
Import TokenDemo.

Lemma requests_reach_one_provider_witness :
  authenticate site_auth ann_request "api" later_on [] = (Ok ann_answer, []) ∧
  ∃ pos p raw, providers !! pos = Some p ∧ extract_from (pr_access_location p) ann_request = Ok (Some raw) ∧
    pr_authenticate p raw ann_request "api" later_on [] = (Ok ann_answer, []).
Proof.
  split; [reflexivity|].
  destruct (requests_reach_one_provider providers None site_auth ann_request "api" later_on [] ann_answer [])
    as (pos & p & raw & Hp & _ & He & Ha & _).
  - repeat constructor. done.
  - reflexivity.
  - reflexivity.
  - by exists pos, p, raw.
Defined.

Lemma accepted_credentials_are_valid_witness :
  token_authenticate site "a1" ann_request "api" later_on [] = (Ok ann_answer, []) ∧
  ∃ t, usable site KindAccess ["api"%string] later_on t ∧ tk_subject t = "ann"%string.
Proof.
  split; [reflexivity|].
  destruct (accepted_credentials_are_valid site "a1" ann_request "api" later_on [] ann_answer [])
    as (_ & _ & decoded & t & w1 & w2 & verified & Hd & Hn & Hu & _); [reflexivity|].
  exists t. split; [exact Hu|]. injection Hd as <- _. injection Hn as <-. reflexivity.
Defined.

Lemma refresh_keeps_the_grant_witness :
  token_refresh rotating_site "r1" refresh_request (draw "2") later_on [] = (Ok refreshed, ["r1"%string]) ∧
  ∃ current audiences, usable rotating_site KindRefresh audiences later_on current ∧ tk_audiences current = Some audiences.
Proof.
  split; [reflexivity|].
  destruct (refresh_keeps_the_grant rotating_site "r1" refresh_request (draw "2") later_on [] refreshed ["r1"%string])
    as (conf & current & audiences & user & access & refresh & w1 & w2 & w3 & _ & Hu & Ha & _); [reflexivity|].
  by exists current, audiences.
Defined.

Lemma refresh_tokens_are_used_once_witness :
  token_refresh rotating_site "r1" refresh_request (draw "2") later_on [] = (Ok refreshed, ["r1"%string]) ∧
  ∀ response w, token_refresh rotating_site "r1" refresh_request (draw "3") later_on ["x"; "r1"]%string ≠ (Ok response, w).
Proof.
  split; [reflexivity|]. intros response w.
  apply (refresh_tokens_are_used_once rotating_site used_once (⊆@{list string})
    (λ t w, default ""%string (tk_token_id t) ∈ w) "r1" refresh_request refresh_request (draw "2") (draw "3")
    later_on later_on [] refreshed ["r1"%string]).
  - reflexivity.
  - exact rotating_laws.
  - intros conf v v' t t' u u' [= <-] H1 H2. injection H1 as <- _. injection H2 as <- _. reflexivity.
  - reflexivity.
  - intros x Hx. by right.
Defined.


(** A subject that is too long for its token logs in and is locked out. *)
Example long_subject_is_locked_out :
  let user := auth_user_new (String.concat "" (repeat "0123456789"%string 52)) in
  let p := site_tokens (named (token_pair (site_tokens [] None) user ["api"%string] None (draw "1") morning)) None in
  is_ok (token_login p user ["api"%string] (draw "1") morning []).1 = true ∧
  (token_authenticate p "a1" ann_request "api" morning []).1 = Err InvalidCredential.
Proof. vm_compute. split; reflexivity. Qed.

(** An item without a value among the cookies is passed over by the scan of a
    request, and the CSRF check answers it with an error. *)
Example csrf_reads_other_cookies :
  let parts := {| pt_method := "POST";
                  pt_headers := [("cookie", "session=abc; seen; session_csrf=tok"); ("x-csrf-token", "tok")]%string;
                  pt_query := None |} in
  let location := LocCookie (cookie_conf_new "session") in
  extract_from location parts = Ok (Some "abc"%string) ∧
  validate_csrf (default_csrf location) parts = Err MalformedLocation.
Proof. split; reflexivity. Qed.
End TokenWitnesses.
