(* ===== verification/Login.v ===== *)
(** * Login flows ([auth/login/])

    Passwords, a second factor ([mfa.rs]) and passwordless codes and links
    ([passwordless.rs], [policy.rs], [store.rs]), with the sealed states and
    challenges of [challenge.rs] and the typed facade of [runtime.rs]. Ciphers,
    digests, base64, JSON of a state and URLs are third party:
    [LoginExternals]. What an application supplies (verifiers, resolvers,
    stores) acts on a world [W]; randomness and the clock are arguments. An
    input is boxed as [LoginInput]; a downcast is a match on it. *)
From S2P Require Import Prelude Externals Failure Config Models Lifecycle Json Submission ChannelTypes.
From S2P Require Import Scopes Credentials Tokens.
#[local] Open Scope Z_scope.

(** ** Data *)

Record LoginTarget := { lt_provider : string; lt_audiences : list string }.
Record VerifiedLogin := {
  vl_user : AuthUser; vl_methods : list string; vl_auth_time : option Z; vl_acr : option string }.
Record CompletedLogin := { cl_login : VerifiedLogin; cl_target : LoginTarget }.

Record SealedLoginState := {
  ss_version : Z;
  ss_state_id : string;
  ss_method : string;
  ss_target : LoginTarget;
  ss_expires_at : Z;
  ss_payload : Json }.

Inductive MfaMethod := Totp | RecoveryCode.
#[export] Instance MfaMethod_eq_dec : EqDecision MfaMethod.
Proof. solve_decision. Defined.
Definition mfa_method_as_str (m : MfaMethod) : string :=
  match m with Totp => "totp" | RecoveryCode => "recovery_code" end.

Record PendingMfa := { pm_subject : string; pm_scopes : list Scope; pm_methods : list MfaMethod; pm_auth_time : Z }.
Record PendingPasswordless := {
  pp_identifier : string; pp_subject : option string; pp_method : string; pp_channel : string }.

Record PasswordCredentials := { pc_username : string; pc_password : string }.
Record MfaResponse := { mr_challenge_token : string; mr_method : MfaMethod; mr_answer : string }.
Record OtpResponse := { or_challenge_token : string; or_code : string }.
Inductive PasswordlessAddress := AddressEmail (value : string) | AddressPhone (value : string).

Inductive LoginInput :=
  | InPassword (credentials : PasswordCredentials)
  | InBasic (credentials : PasswordCredentials)
  | InMfa (response : MfaResponse)
  | InAddress (address : PasswordlessAddress)
  | InOtp (response : OtpResponse)
  | InEmail (email : string)
  | InMagicLink (token : string).

(** A parsed URL, as far as a callback is checked. *)
Record UrlParts := {
  url_host : option string; url_loopback : bool; url_username : string; url_password : option string;
  url_query : option string; url_fragment : option string; url_scheme : string }.

Class LoginExternals := {
  (** [serde_json] of a state and of what waits in it. *)
  state_to_vec : SealedLoginState → option string;
  state_from_slice : string → option SealedLoginState;
  mfa_to_value : PendingMfa → option Json;
  mfa_from_value : Json → option PendingMfa;
  passwordless_to_value : PendingPasswordless → option Json;
  passwordless_from_value : Json → option PendingPasswordless;
  (** AES-256-GCM with a key, a nonce and no further data; [None] where it fails. *)
  aead_key : string → bool;
  aead_seal : string → string → string → option string;
  aead_open : string → string → string → option string;
  base64url : string → string;
  base64url_decode : string → option string;
  hmac_sha256 : string → string → string;
  (** HKDF-SHA-256, salted for authentication keys, of some material for a context and a length. *)
  hkdf_sha256 : string → string → Z → option string;
  (** [Uuid::parse_str] and [Mailbox::parse] accept. *)
  uuid_ok : string → bool;
  mailbox_ok : string → bool;
  url_parse : string → option UrlParts;
  (** [query_pairs_mut().append_pair("token", ..)]. *)
  url_with_token : string → string → string }.

(** [SecretRing], with the site's secret as the source of keys. *)
Record SecretRing := { sr_active : string; sr_fallbacks : list string }.

(** ** Challenges *)

Record OtpDelivery := { od_code : string; od_expires_in : Z }.
Inductive LoginChallenge :=
  | ChallengeFactor (token : string) (methods : list string) (expires_in : Z)
  | ChallengeMagicLink (url : option string) (expires_in : Z)
  | ChallengeCode (token channel : string) (expires_in resend_in : Z) (delivery : option OtpDelivery).
Inductive LoginChallengeKind := KindFactor | KindMagicLink | KindCode.

Definition challenge_kind (c : LoginChallenge) : LoginChallengeKind :=
  match c with ChallengeFactor _ _ _ => KindFactor | ChallengeMagicLink _ _ => KindMagicLink | ChallengeCode _ _ _ _ _ => KindCode end.
Definition challenge_token (c : LoginChallenge) : option string :=
  match c with
  | ChallengeFactor token _ _ | ChallengeCode token _ _ _ _ => Some token
  | ChallengeMagicLink _ _ => None
  end.
Definition challenge_methods (c : LoginChallenge) : list string :=
  match c with ChallengeFactor _ methods _ => methods | _ => [] end.
Definition challenge_expires_in (c : LoginChallenge) : Z :=
  match c with
  | ChallengeFactor _ _ expires_in | ChallengeMagicLink _ expires_in | ChallengeCode _ _ expires_in _ _ => expires_in
  end.
Definition take_otp_delivery (c : LoginChallenge) : option OtpDelivery * LoginChallenge :=
  match c with
  | ChallengeCode token channel expires_in resend_in delivery =>
      (delivery, ChallengeCode token channel expires_in resend_in None)
  | c => (None, c)
  end.
Definition magic_link_url (c : LoginChallenge) : option string :=
  match c with ChallengeMagicLink url _ => url | _ => None end.

(** The body of a response; [seconds] writes an integer. *)
Definition challenge_body (seconds : Z → string) (c : LoginChallenge) : Json :=
  match c with
  | ChallengeFactor token methods expires_in =>
      JObject [("challenge_token", JString token); ("methods", JArray (List.map JString methods));
               ("expires_in", JNumber (seconds expires_in))]%string
  | ChallengeMagicLink _ expires_in =>
      JObject [("channel", JString "email"); ("expires_in", JNumber (seconds expires_in)); ("ok", JBool true)]%string
  | ChallengeCode token channel expires_in resend_in _ =>
      JObject [("challenge_token", JString token); ("channel", JString channel);
               ("expires_in", JNumber (seconds expires_in)); ("resend_in", JNumber (seconds resend_in));
               ("ok", JBool true)]%string
  end.

Definition NONCE_LENGTH : Z := 12.
Definition TAG_LENGTH : Z := 16.
Definition MAX_STATE_PAYLOAD_BYTES : Z := 16 * 1024.
Definition MAX_ENCODED_STATE_BYTES : Z := 24 * 1024.

Record ChallengeCodec := { cc_active : string; cc_verification : list string }.

(** What one call draws: an id, a nonce, blocks of random bytes and a secret;
    [None] where the system's generator fails. *)
Record LoginDraws := {
  ld_id : string; ld_nonce : option string; ld_blocks : list (option (list Z)); ld_secret : option string }.

(** ** One-time passwords ([policy.rs]) *)

Definition MAX_OTP_LENGTH : Z := 16.
Definition MIN_NUMERIC_LENGTH : Z := 6.
Definition MAX_NUMERIC_LENGTH : Z := 10.
Definition MIN_BASE32_LENGTH : Z := 5.

Inductive OtpPolicy := OtpNumeric (length : Z) | OtpCrockfordBase32 (length : Z).
Definition otp_policy_validate (p : OtpPolicy) : result AuthError unit :=
  match p with
  | OtpNumeric length =>
      if (MIN_NUMERIC_LENGTH <=? length) && (length <=? MAX_NUMERIC_LENGTH) then Ok tt
      else Err (InvalidProviderConfig "invalid OTP policy")
  | OtpCrockfordBase32 length =>
      if (MIN_BASE32_LENGTH <=? length) && (length <=? MAX_OTP_LENGTH) then Ok tt
      else Err (InvalidProviderConfig "invalid OTP policy")
  end.
Definition otp_length (p : OtpPolicy) : nat :=
  match p with OtpNumeric length | OtpCrockfordBase32 length => Z.to_nat length end.

(** [append_byte]. *)
Definition append_byte (value alphabet : list Ascii.ascii) (width : Z) (length : nat) (byte : Z) :
    result AuthError (list Ascii.ascii) :=
  let? character := ok_or (alphabet !! Z.to_nat (byte mod width)) InvalidLoginState in
  let value := value ++ [character] in
  if (length <? List.length value)%nat then Err InvalidLoginState else Ok value.

(** The walk over one block, which ends at the length. *)
Fixpoint append_bytes (alphabet : list Ascii.ascii) (width : Z) (length : nat) (threshold : Z) (bytes : list Z)
    (value : list Ascii.ascii) : result AuthError (list Ascii.ascii) :=
  match bytes with
  | [] => Ok value
  | byte :: bytes =>
      if byte <? threshold then
        let? value := append_byte value alphabet width length byte in
        if (List.length value =? length)%nat then Ok value
        else append_bytes alphabet width length threshold bytes value
      else append_bytes alphabet width length threshold bytes value
  end.
Definition byte_threshold (width : Z) : Z := 255 - 255 mod width.
Definition append_random (value alphabet : list Ascii.ascii) (width : Z) (length : nat) (block : option (list Z)) :
    result AuthError (list Ascii.ascii) :=
  let? bytes := ok_or block (AuthInternal "passwordless randomness failed") in
  append_bytes alphabet width length (byte_threshold width) bytes value.

(** The loop takes a block each turn; it goes on while the code is short. *)
Fixpoint random_loop (alphabet : list Ascii.ascii) (width : Z) (length : nat) (blocks : list (option (list Z)))
    (value : list Ascii.ascii) : result AuthError (list Ascii.ascii) :=
  if (length <=? List.length value)%nat then Ok value
  else
    match blocks with
    | [] => Err (AuthInternal "no more random blocks are given")
    | block :: blocks =>
        let? value := append_random value alphabet width length block in
        random_loop alphabet width length blocks value
    end.
Definition random_from (alphabet : string) (length : nat) (blocks : list (option (list Z))) : result AuthError string :=
  let characters := String.list_ascii_of_string alphabet in
  let width := zlen characters in
  if (255 <? width) || (width =? 0) then Err InvalidLoginState
  else let? value := random_loop characters width length blocks [] in Ok (String.string_of_list_ascii value).

Definition otp_alphabet (p : OtpPolicy) : string :=
  match p with
  | OtpNumeric _ => "0123456789"
  | OtpCrockfordBase32 _ => "0123456789ABCDEFGHJKMNPQRSTVWXYZ"
  end.
Definition random_code (p : OtpPolicy) (blocks : list (option (list Z))) : result AuthError string :=
  random_from (otp_alphabet p) (otp_length p) blocks.

(** ** Validation of inputs *)

Definition validate_secret (value : string) : result AuthError unit :=
  if String.eqb value "" || (4096 <? str_len value) then Err InvalidCredential else Ok tt.
Definition validate_password (c : PasswordCredentials) : result AuthError unit :=
  if is_blank (pc_username c) || (512 <? str_len (pc_username c)) then Err InvalidCredential
  else validate_secret (pc_password c).
Definition validate_mfa_response (r : MfaResponse) : result AuthError unit :=
  if String.eqb (mr_challenge_token r) "" || (16 * 1024 <? str_len (mr_challenge_token r)) then Err InvalidLoginState
  else validate_secret (mr_answer r).

Definition ascii_digit (c : Ascii.ascii) : bool := (48 <=? byte c)%nat && (byte c <=? 57)%nat.
Definition validate_phone (value : string) : result AuthError unit :=
  match String.list_ascii_of_string value with
  | [] => Err InvalidCredential
  | first :: rest =>
      if negb (byte first =? 43)%nat || negb ((2 <=? zlen rest) && (zlen rest <=? 15))
         || match rest with c :: _ => (byte c =? 48)%nat | [] => false end
      then Err InvalidCredential
      else if forallb ascii_digit rest then Ok tt else Err InvalidCredential
  end.

Section Flows.
Context {W : Type} `{L : LoginExternals}.

Definition valid_id (value : string) : result AuthError unit :=
  if uuid_ok value then Ok tt else Err InvalidLoginState.
Definition validate_otp (r : OtpResponse) : result AuthError unit :=
  let? _ := valid_id (or_challenge_token r) in
  if negb (String.eqb (or_code r) "") && (str_len (or_code r) <=? MAX_OTP_LENGTH)
     && all_bytes ascii_alphanumeric (or_code r)
  then Ok tt else Err InvalidCredential.
Definition validate_email (value : string) : result AuthError unit :=
  if mailbox_ok value then Ok tt else Err InvalidCredential.
Definition validate_address (a : PasswordlessAddress) : result AuthError unit :=
  match a with AddressEmail value => validate_email value | AddressPhone value => validate_phone value end.
Definition address_text (a : PasswordlessAddress) : string :=
  match a with AddressEmail value | AddressPhone value => value end.
Definition address_channel (a : PasswordlessAddress) : string :=
  match a with AddressEmail _ => "email" | AddressPhone _ => "phone" end.
Definition address_from_parts (channel value : string) : result AuthError PasswordlessAddress :=
  if String.eqb channel "email" then Ok (AddressEmail value)
  else if String.eqb channel "phone" then Ok (AddressPhone value)
  else Err InvalidLoginState.

(** ** Keys of the site ([codec.rs]) *)

Fixpoint has_repeated (values : list string) : bool :=
  match values with
  | [] => false
  | value :: values => existsb (String.eqb value) values || has_repeated values
  end.
Definition validate_secrets (active : string) (fallbacks : list string) (minimum : Z) : result AuthError unit :=
  if str_len active <? minimum then Err (InvalidProviderConfig "active site secret is too short")
  else if 7 <? zlen fallbacks then Err (InvalidProviderConfig "at most seven fallback secrets are supported")
  else if existsb (λ value, (str_len value <? minimum) || String.eqb value active) fallbacks
  then Err (InvalidProviderConfig "fallback secrets must be strong and distinct")
  else if has_repeated fallbacks then Err (InvalidProviderConfig "fallback secrets must be unique")
  else Ok tt.
Definition secret_ring_new (active : string) (fallbacks : list string) (minimum : Z) : result AuthError SecretRing :=
  let? _ := validate_secrets active fallbacks minimum in
  Ok {| sr_active := active; sr_fallbacks := fallbacks |}.

Definition secret_verification (s : SecretRing) : list string := sr_active s :: sr_fallbacks s.
Definition derive_key (material context : string) (length : Z) : result AuthError string :=
  ok_or (hkdf_sha256 material context length) (InvalidProviderConfig "invalid derived key length").
Definition derived_active (s : SecretRing) (context : string) (length : Z) : result AuthError string :=
  derive_key (sr_active s) context length.
Fixpoint derive_keys (materials : list string) (context : string) (length : Z) : result AuthError (list string) :=
  match materials with
  | [] => Ok []
  | material :: materials =>
      let? key := derive_key material context length in
      let? keys := derive_keys materials context length in Ok (key :: keys)
  end.
Definition derived_verification (s : SecretRing) (context : string) (length : Z) : result AuthError (list string) :=
  derive_keys (secret_verification s) context length.

(** ** Sealed states ([challenge.rs]) *)

Definition codec_new (secrets : SecretRing) : result AuthError ChallengeCodec :=
  let? active := derived_active secrets "login-state-v1" 32 in
  let? verification := derived_verification secrets "login-state-v1" 32 in
  Ok {| cc_active := active; cc_verification := verification |}.

Definition state_key (value : string) : result AuthError string :=
  if aead_key value then Ok value else Err (InvalidProviderConfig "invalid login state key").
Definition challenge_seal (c : ChallengeCodec) (state : SealedLoginState) (nonce : option string) :
    result AuthError string :=
  let? payload := ok_or (state_to_vec state) InvalidLoginState in
  if MAX_STATE_PAYLOAD_BYTES <? str_len payload then Err InvalidLoginState
  else
    let? nonce := ok_or nonce (AuthInternal "login state randomness failed") in
    let? key := state_key (cc_active c) in
    let? sealed := ok_or (aead_seal key nonce payload) InvalidLoginState in
    Ok (base64url (nonce +:+ sealed)).

Fixpoint open_with_keys (keys : list string) (nonce ciphertext : string) : result AuthError SealedLoginState :=
  match keys with
  | [] => Err InvalidLoginState
  | key :: keys =>
      let? key := state_key key in
      match aead_open key nonce ciphertext with
      | Some opened =>
          if MAX_STATE_PAYLOAD_BYTES <? str_len opened then Err InvalidLoginState
          else ok_or (state_from_slice opened) InvalidLoginState
      | None => open_with_keys keys nonce ciphertext
      end
  end.
Definition challenge_open (c : ChallengeCodec) (token : string) : result AuthError SealedLoginState :=
  if MAX_ENCODED_STATE_BYTES <? str_len token then Err InvalidLoginState
  else
    let? encoded := ok_or (base64url_decode token) InvalidLoginState in
    if str_len encoded <=? NONCE_LENGTH + TAG_LENGTH then Err InvalidLoginState
    else open_with_keys (cc_verification c) (String.substring 0 12 encoded)
           (String.substring 12 (String.length encoded - 12) encoded).

(** ** Password and Basic logins ([password.rs]) *)

Inductive PrimaryInput := PrimaryPassword | PrimaryBasic.
Definition primary_method (k : PrimaryInput) : string :=
  match k with PrimaryPassword => "password" | PrimaryBasic => "basic" end.
Definition downcast_primary (input : LoginInput) (k : PrimaryInput) : result AuthError PasswordCredentials :=
  match k, input with
  | PrimaryPassword, InPassword c | PrimaryBasic, InBasic c => Ok c
  | _, _ => Err InvalidCredential
  end.
Definition verified_new (user : AuthUser) (method : string) (now : DateTime) : VerifiedLogin :=
  {| vl_user := user; vl_methods := [method]; vl_auth_time := Some (now / TICKS); vl_acr := None |}.

Record PasswordRuntime := { pw_verifier : string → string → M W AuthError AuthUser; pw_input : PrimaryInput }.
Definition password_login (r : PasswordRuntime) (input : LoginInput) (now : DateTime) : M W AuthError VerifiedLogin :=
  do! c := liftR (downcast_primary input (pw_input r)) in
  (liftR (validate_password c) ;!
   do! user := pw_verifier r (pc_username c) (pc_password c) in
   retM (verified_new user (primary_method (pw_input r)) now)).

(** ** A second factor ([mfa.rs]) *)

Record MfaLogin := {
  ml_methods : AuthUser → M W AuthError (list MfaMethod);
  ml_verify : AuthUser → MfaResponse → M W AuthError AuthUser;
  ml_allowed : list MfaMethod;
  ml_ttl_seconds : Z }.
Definition push_mfa (values : list MfaMethod) (value : MfaMethod) : list MfaMethod :=
  if bool_decide (value ∈ values) then values else values ++ [value].
Definition mfa_new (methods : AuthUser → M W AuthError (list MfaMethod))
    (verify : AuthUser → MfaResponse → M W AuthError AuthUser) : MfaLogin :=
  {| ml_methods := methods; ml_verify := verify; ml_allowed := []; ml_ttl_seconds := 300 |}.
Definition mfa_allow (m : MfaMethod) (f : MfaLogin) : MfaLogin :=
  {| ml_methods := ml_methods f; ml_verify := ml_verify f; ml_allowed := push_mfa (ml_allowed f) m;
     ml_ttl_seconds := ml_ttl_seconds f |}.
Definition mfa_ttl (seconds : Z) (f : MfaLogin) : MfaLogin :=
  {| ml_methods := ml_methods f; ml_verify := ml_verify f; ml_allowed := ml_allowed f; ml_ttl_seconds := seconds |}.
Definition validate_mfa_conf (f : MfaLogin) : result AuthError unit :=
  if bool_decide (ml_allowed f = []) || negb ((1 <=? ml_ttl_seconds f) && (ml_ttl_seconds f <=? 900))
  then Err (InvalidProviderConfig "MFA requires factors and a TTL between 1 and 900 seconds") else Ok tt.

Record PasswordMfaRuntime := {
  mf_primary : string → string → M W AuthError AuthUser; mf_input : PrimaryInput; mf_factors : MfaLogin }.
(** [LoginStateStore::consume]: whether an id is consumed for the first time. *)
Definition LoginStateStore : Type := string → Z → M W AuthError bool.

Definition available_methods (r : PasswordMfaRuntime) (user : AuthUser) : M W AuthError (list MfaMethod) :=
  do! available := ml_methods (mf_factors r) user in
  let methods := List.filter (λ m, bool_decide (m ∈ ml_allowed (mf_factors r))) available in
  match methods with [] => throwM InvalidCredential | _ => retM methods end.

(** The state a challenge seals, and the methods it offers. *)
Definition mfa_state (r : PasswordMfaRuntime) (method : string) (input : LoginInput) (target : LoginTarget)
    (id : string) (now : DateTime) : M W AuthError (SealedLoginState * list MfaMethod) :=
  liftR (validate_mfa_conf (mf_factors r)) ;!
  do! c := liftR (downcast_primary input (mf_input r)) in
  (liftR (validate_password c) ;!
   do! user := mf_primary r (pc_username c) (pc_password c) in
   (liftR (validate_user user) ;!
    do! methods := available_methods r user in
    do! payload := liftR (ok_or (mfa_to_value {| pm_subject := au_subject user; pm_scopes := au_scopes user;
                                                 pm_methods := methods; pm_auth_time := now / TICKS |})
                            InvalidLoginState) in
    retM ({| ss_version := 2; ss_state_id := id; ss_method := method; ss_target := target;
             ss_expires_at := now / TICKS + ml_ttl_seconds (mf_factors r); ss_payload := payload |}, methods))).
Definition mfa_begin (r : PasswordMfaRuntime) (method : string) (input : LoginInput) (target : LoginTarget)
    (codec : ChallengeCodec) (draws : LoginDraws) (now : DateTime) : M W AuthError LoginChallenge :=
  do! state := mfa_state r method input target (ld_id draws) now in
  do! token := liftR (challenge_seal codec state.1 (ld_nonce draws)) in
  retM (ChallengeFactor token (List.map mfa_method_as_str state.2) (ml_ttl_seconds (mf_factors r))).

Definition validate_mfa_state (state : SealedLoginState) (method : string) (now : DateTime) : result AuthError unit :=
  if negb (ss_version state =? 2) || negb (String.eqb (ss_method state) method) then Err InvalidLoginState
  else if ss_expires_at state <=? now / TICKS then Err ExpiredLoginState
  else Ok tt.
Definition consume_state (store : LoginStateStore) (state : SealedLoginState) : M W AuthError unit :=
  do! first := store (ss_state_id state) (ss_expires_at state) in
  if first : bool then retM tt else throwM InvalidLoginState.

Definition mfa_complete (r : PasswordMfaRuntime) (method : string) (input : LoginInput) (codec : ChallengeCodec)
    (store : option LoginStateStore) (now : DateTime) : M W AuthError CompletedLogin :=
  do! response := liftR (match input with InMfa response => Ok response | _ => Err InvalidCredential end) in
  (liftR (validate_mfa_response response) ;!
   do! state := liftR (challenge_open codec (mr_challenge_token response)) in
   (liftR (validate_mfa_state state method now) ;!
    do! pending := liftR (ok_or (mfa_from_value (ss_payload state)) InvalidLoginState) in
    if negb (bool_decide (mr_method response ∈ pm_methods pending)) then throwM InvalidCredential
    else
      do! user := ml_verify (mf_factors r) (with_scopes (pm_scopes pending) (auth_user_new (pm_subject pending))) response in
      do! store := liftR (ok_or store InvalidLoginState) in
      (consume_state store state ;!
       retM {| cl_login := {| vl_user := user;
                              vl_methods := [primary_method (mf_input r); mfa_method_as_str (mr_method response)];
                              vl_auth_time := Some (pm_auth_time pending);
                              vl_acr := Some "urn:vyuh:acr:mfa"%string |};
               cl_target := ss_target state |}))).

(** ** Passwordless logins ([passwordless.rs], [store.rs]) *)

Definition MAGIC_LINK_TTL : Z := 15 * 60.
Definition OTP_TTL : Z := 10 * 60.
Definition OTP_ATTEMPTS : Z := 5.
Definition RESEND_DELAY : Z := 60.
Definition DELIVERY_LIMIT : Z := 5.
Definition DELIVERY_WINDOW : Z := 60 * 60.

Record PasswordlessChallenge := {
  ch_id : string;
  ch_principal : string;
  ch_proofs : list string;
  ch_state : string;
  ch_expires_at : Z;
  ch_attempts : Z;
  ch_next_issue_at : Z;
  ch_issue_window_ends_at : Z;
  ch_issue_limit : Z }.
Record PasswordlessStart := {
  st_challenge_id : string; st_expires_at : Z; st_next_issue_at : Z; st_issue : bool }.
Inductive PasswordlessAttempt := AttemptAccepted (state : string) | AttemptRejected.
Record PasswordlessStore := {
  ps_begin : PasswordlessChallenge → M W AuthError PasswordlessStart;
  ps_attempt : string → list string → M W AuthError PasswordlessAttempt }.

Inductive ChallengeKind := KindOfMagicLink (callback_url : string) | KindOfOtp (channel : string) (policy : OtpPolicy).
Definition kind_channel (k : ChallengeKind) : string :=
  match k with KindOfMagicLink _ => "email" | KindOfOtp channel _ => channel end.

Definition principal_digest (secrets : SecretRing) (method identifier : string) : result AuthError string :=
  let? key := derived_active secrets "passwordless-principal-v1" 32 in
  Ok (hmac_sha256 key (method +:+ nul +:+ identifier)).
Definition proof_digests (secrets : SecretRing) (id value : string) : result AuthError (list string) :=
  let? keys := derived_verification secrets "passwordless-proof-v1" 32 in
  Ok (List.map (λ key, hmac_sha256 key (id +:+ nul +:+ value)) keys).

(** [append_token] and [append_raw_token]. *)
Definition append_raw_token (callback token : string) : result AuthError string :=
  if bool_decide (is_Some (url_parse callback)) then Ok (url_with_token callback token)
  else Err (InvalidProviderConfig "invalid magic-link callback URL").
Definition append_token (callback id proof : string) : result AuthError string :=
  append_raw_token callback (id +:+ "." +:+ proof).
Definition random_secret (secret : option string) : result AuthError string :=
  let? bytes := ok_or secret (AuthInternal "passwordless randomness failed") in Ok (base64url bytes).

(** The proof, the code and the link that carry it, and the lifetime. *)
Definition proof_for (id : string) (k : ChallengeKind) (draws : LoginDraws) :
    result AuthError (string * option string * option string * Z) :=
  match k with
  | KindOfMagicLink callback_url =>
      let? proof := random_secret (ld_secret draws) in
      let? link := append_token callback_url id proof in
      Ok (proof, None, Some link, MAGIC_LINK_TTL)
  | KindOfOtp _ policy =>
      let? code := random_code policy (ld_blocks draws) in Ok (code, Some code, None, OTP_TTL)
  end.

Record PreparedChallenge := {
  pr_challenge_id : string;
  pr_challenge : PasswordlessChallenge;
  pr_kind : ChallengeKind;
  pr_code : option string;
  pr_link : option string }.
Definition prepared_new (method : string) (target : LoginTarget) (identifier : string) (user : option AuthUser)
    (k : ChallengeKind) (codec : ChallengeCodec) (secrets : SecretRing) (draws : LoginDraws) (now : DateTime) :
    result AuthError PreparedChallenge :=
  let now := now / TICKS in
  let id := ld_id draws in
  let? drawn := proof_for id k draws in
  let '(proof, code, link, ttl) := drawn in
  let? payload := ok_or (passwordless_to_value {| pp_identifier := identifier; pp_subject := au_subject <$> user;
                                                  pp_method := method; pp_channel := kind_channel k |})
                    InvalidLoginState in
  let? sealed := challenge_seal codec
      {| ss_version := 3; ss_state_id := id; ss_method := method; ss_target := target; ss_expires_at := now + ttl;
         ss_payload := payload |} (ld_nonce draws) in
  let? principal := principal_digest secrets method identifier in
  let? proofs := proof_digests secrets id proof in
  Ok {| pr_challenge_id := id;
        pr_challenge := {| ch_id := id; ch_principal := principal; ch_proofs := proofs; ch_state := sealed;
                           ch_expires_at := now + ttl; ch_attempts := OTP_ATTEMPTS;
                           ch_next_issue_at := now + RESEND_DELAY; ch_issue_window_ends_at := now + DELIVERY_WINDOW;
                           ch_issue_limit := DELIVERY_LIMIT |};
        pr_kind := k; pr_code := code; pr_link := link |}.

Definition challenge_response (p : PreparedChallenge) (start : PasswordlessStart) (expose_code : bool)
    (now : DateTime) : LoginChallenge :=
  let expires := i64_saturating (st_expires_at start - now / TICKS) in
  let resend := i64_saturating (st_next_issue_at start - now / TICKS) in
  match pr_kind p with
  | KindOfMagicLink _ => ChallengeMagicLink (pr_link p) expires
  | KindOfOtp channel _ =>
      let delivery := if st_issue start && expose_code
                      then (λ code, {| od_code := code; od_expires_in := expires |}) <$> pr_code p else None in
      ChallengeCode (st_challenge_id start) channel expires resend delivery
  end.

Definition validate_start (p : PreparedChallenge) (start : PasswordlessStart) : result AuthError unit :=
  if st_issue start && negb (String.eqb (st_challenge_id start) (pr_challenge_id p))
  then Err (AuthInternal "passwordless store returned a mismatched proof challenge") else Ok tt.

Definition no_store {A} : result AuthError A :=
  Err (InvalidProviderConfig "passwordless login requires AuthConf::passwordless_store").

Definition consume_proof (store : PasswordlessStore) (secrets : SecretRing) (id value : string) :
    M W AuthError string :=
  liftR (valid_id id) ;!
  do! proofs := liftR (proof_digests secrets id value) in
  do! answer := ps_attempt store id proofs in
  match answer with AttemptAccepted state => retM state | AttemptRejected => throwM InvalidCredential end.

Definition open_pending (codec : ChallengeCodec) (method sealed : string) (now : DateTime) :
    result AuthError (PendingPasswordless * LoginTarget) :=
  let? state := challenge_open codec sealed in
  if negb (String.eqb (ss_method state) method) || (ss_expires_at state <? now / TICKS) then Err InvalidLoginState
  else
    let? pending := ok_or (passwordless_from_value (ss_payload state)) InvalidLoginState in
    Ok (pending, ss_target state).

Definition complete_user (user : AuthUser) (pending : PendingPasswordless) (target : LoginTarget) (method : string)
    (now : DateTime) : result AuthError CompletedLogin :=
  if negb (bool_decide (pp_subject pending = Some (au_subject user))) then Err InvalidCredential
  else
    let? _ := validate_user user in
    Ok {| cl_login := verified_new user method now; cl_target := target |}.

(** *** Codes *)

Record OtpLogin := { ol_resolver : PasswordlessAddress → M W AuthError (option AuthUser); ol_policy : OtpPolicy }.
Definition otp_new (resolver : PasswordlessAddress → M W AuthError (option AuthUser)) : OtpLogin :=
  {| ol_resolver := resolver; ol_policy := OtpNumeric 6 |}.

Definition otp_begin (o : OtpLogin) (method : string) (input : LoginInput) (target : LoginTarget)
    (codec : ChallengeCodec) (secrets : SecretRing) (store : option PasswordlessStore) (draws : LoginDraws)
    (now : DateTime) : M W AuthError LoginChallenge :=
  do! address := liftR (match input with InAddress address => Ok address | _ => Err InvalidCredential end) in
  (liftR (validate_address address) ;!
   do! store := liftR (match store with Some store => Ok store | None => no_store end) in
   do! user := ol_resolver o address in
   do! prepared := liftR (prepared_new method target (address_text address) user
                            (KindOfOtp (address_channel address) (ol_policy o)) codec secrets draws now) in
   do! start := ps_begin store (pr_challenge prepared) in
   (liftR (validate_start prepared start) ;!
    retM (challenge_response prepared start (bool_decide (is_Some user)) now))).

Definition otp_complete (o : OtpLogin) (method : string) (input : LoginInput) (codec : ChallengeCodec)
    (secrets : SecretRing) (store : option PasswordlessStore) (now : DateTime) : M W AuthError CompletedLogin :=
  do! store := liftR (ok_or store InvalidLoginState) in
  do! response := liftR (match input with InOtp response => Ok response | _ => Err InvalidCredential end) in
  (liftR (validate_otp response) ;!
   do! state := consume_proof store secrets (or_challenge_token response) (or_code response) in
   do! opened := liftR (open_pending codec method state now) in
   let '(pending, target) := opened in
   do! address := liftR (address_from_parts (pp_channel pending) (pp_identifier pending)) in
   do! user := ol_resolver o address in
   do! user := liftR (ok_or user InvalidCredential) in
   liftR (complete_user user pending target "otp" now)).

(** *** Links *)

Record MagicLinkLogin := {
  mg_resolver : string → M W AuthError (option AuthUser); mg_callback_url : option string; mg_stateful : bool }.

Definition validate_callback (value : option string) : result AuthError unit :=
  let? value := ok_or value (InvalidProviderConfig "magic-link login requires callback_url") in
  let? url := ok_or (url_parse value) (InvalidProviderConfig "invalid magic-link callback URL") in
  if bool_decide (url_host url = None) || negb (String.eqb (url_username url) "")
     || bool_decide (is_Some (url_password url)) || bool_decide (is_Some (url_query url))
     || bool_decide (is_Some (url_fragment url)) || negb (String.eqb (url_scheme url) "https" || url_loopback url)
  then Err (InvalidProviderConfig "magic-link callback URL must be absolute HTTPS without query or fragment")
  else Ok tt.

Definition stateless_link (m : MagicLinkLogin) (method : string) (target : LoginTarget) (email : string)
    (user : AuthUser) (codec : ChallengeCodec) (draws : LoginDraws) (now : DateTime) : result AuthError string :=
  let? callback := ok_or (mg_callback_url m) InvalidLoginState in
  let? payload := ok_or (passwordless_to_value {| pp_identifier := email; pp_subject := Some (au_subject user);
                                                  pp_method := method; pp_channel := "email" |})
                    InvalidLoginState in
  let? sealed := challenge_seal codec
      {| ss_version := 3; ss_state_id := ld_id draws; ss_method := method; ss_target := target;
         ss_expires_at := now / TICKS + MAGIC_LINK_TTL; ss_payload := payload |} (ld_nonce draws) in
  append_raw_token callback sealed.

Definition magic_begin (m : MagicLinkLogin) (method : string) (input : LoginInput) (target : LoginTarget)
    (codec : ChallengeCodec) (secrets : SecretRing) (store : option PasswordlessStore) (draws : LoginDraws)
    (now : DateTime) : M W AuthError LoginChallenge :=
  do! email := liftR (match input with InEmail email => Ok email | _ => Err InvalidCredential end) in
  (liftR (validate_email email) ;!
   do! user := mg_resolver m email in
   if negb (mg_stateful m) then
     do! url := liftR (match user with
                       | Some user => let? url := stateless_link m method target email user codec draws now in Ok (Some url)
                       | None => Ok None
                       end) in
     retM (ChallengeMagicLink url MAGIC_LINK_TTL)
   else
     do! store := liftR (match store with Some store => Ok store | None => no_store end) in
     do! callback := liftR (ok_or (mg_callback_url m)
                              (InvalidProviderConfig "magic-link login requires callback_url")) in
     do! prepared := liftR (prepared_new method target email user (KindOfMagicLink callback) codec secrets draws now) in
     do! start := ps_begin store (pr_challenge prepared) in
     (liftR (validate_start prepared start) ;! retM (challenge_response prepared start false now))).

Definition dot : Ascii.ascii := Ascii.ascii_of_nat 46.
Definition magic_complete (m : MagicLinkLogin) (method : string) (input : LoginInput) (codec : ChallengeCodec)
    (secrets : SecretRing) (store : option PasswordlessStore) (now : DateTime) : M W AuthError CompletedLogin :=
  do! state := (if mg_stateful m then
                  do! store := liftR (ok_or store InvalidLoginState) in
                  do! token := liftR (match input with InMagicLink token => Ok token | _ => Err InvalidCredential end) in
                  do! parts := liftR (ok_or (split_once dot token) InvalidLoginState) in
                  consume_proof store secrets parts.1 parts.2
                else liftR (match input with InMagicLink token => Ok token | _ => Err InvalidCredential end)) in
  do! opened := liftR (open_pending codec method state now) in
  let '(pending, target) := opened in
  do! user := mg_resolver m (pp_identifier pending) in
  do! user := liftR (ok_or user InvalidCredential) in
  liftR (complete_user user pending target "email" now).

(** ** The typed facade ([runtime.rs]) *)

Inductive LoginRuntime :=
  | RuntimePassword (r : PasswordRuntime)
  | RuntimeMfa (r : PasswordMfaRuntime)
  | RuntimeOtp (o : OtpLogin)
  | RuntimeMagicLink (m : MagicLinkLogin).
Definition runtime_is_flow (r : LoginRuntime) : bool := match r with RuntimePassword _ => false | _ => true end.
Definition runtime_validate (r : LoginRuntime) : result AuthError unit :=
  match r with
  | RuntimePassword _ => Ok tt
  | RuntimeMfa r => validate_mfa_conf (mf_factors r)
  | RuntimeOtp o => otp_policy_validate (ol_policy o)
  | RuntimeMagicLink m => validate_callback (mg_callback_url m)
  end.
Definition requires_passwordless_store (r : LoginRuntime) : bool :=
  match r with RuntimeOtp _ => true | RuntimeMagicLink m => mg_stateful m | _ => false end.
Definition requires_login_state_store (r : LoginRuntime) : bool :=
  match r with RuntimeMfa _ => true | _ => false end.

Inductive InputType := TypePassword | TypeBasic | TypeMfa | TypeAddress | TypeOtp | TypeEmail | TypeMagicLink | TypeNoChallenge.
#[export] Instance InputType_eq_dec : EqDecision InputType.
Proof. solve_decision. Defined.
Record LoginDefinition := {
  lf_name : string; lf_start_type : InputType; lf_complete_type : InputType; lf_runtime : LoginRuntime }.

Definition validate_login_shape (d : LoginDefinition) (id : string) : result AuthError unit :=
  if Bool.eqb (runtime_is_flow (lf_runtime d)) (bool_decide (lf_complete_type d = TypeNoChallenge))
  then Err (LoginMethodTypeMismatch id) else Ok tt.
Fixpoint validate_login_each (values : list LoginDefinition) : result AuthError unit :=
  match values with
  | [] => Ok tt
  | d :: values =>
      let? id := login_method_id_new (lf_name d) in
      if existsb (λ other, String.eqb (lf_name other) (lf_name d)) values then Err (DuplicateLoginMethod id)
      else
        let? _ := validate_login_shape d id in
        let? _ := runtime_validate (lf_runtime d) in
        validate_login_each values
  end.
Definition validate_login_definitions (values : list LoginDefinition) : result AuthError unit :=
  if 64 <? zlen values then Err (InvalidProviderConfig "at most 64 login methods may be registered")
  else validate_login_each values.

(** The part of an [Authenticator] that logins use. *)
Record LoginSite := {
  lg_auth : Authenticator (W := W);
  lg_methods : list LoginDefinition;
  lg_index : gmap string nat;
  lg_codec : ChallengeCodec;
  lg_secrets : SecretRing;
  lg_state_store : option LoginStateStore;
  lg_passwordless_store : option PasswordlessStore }.

(** The loop of [RuntimeIndexes::build] over the methods. *)
Fixpoint index_methods (position : nat) (values : list LoginDefinition) (index : gmap string nat) :
    result AuthError (gmap string nat) :=
  match values with
  | [] => Ok index
  | d :: values =>
      let? id := login_method_id_new (lf_name d) in index_methods (S position) values (<[id := position]> index)
  end.
Definition validate_stores (methods : list LoginDefinition) (passwordless_store : option PasswordlessStore)
    (state_store : option LoginStateStore) : result AuthError unit :=
  if existsb (λ d, requires_passwordless_store (lf_runtime d)) methods && negb (bool_decide (is_Some passwordless_store))
  then no_store
  else if existsb (λ d, requires_login_state_store (lf_runtime d)) methods && negb (bool_decide (is_Some state_store))
  then Err (InvalidProviderConfig "MFA and federated login require AuthConf::login_state_store")
  else Ok tt.
(** What [prepare] and [finish] do about logins. *)
Definition login_site (auth : Authenticator) (methods : list LoginDefinition) (secret : string)
    (fallbacks : list string) (passwordless_store : option PasswordlessStore) (state_store : option LoginStateStore) :
    result AuthError LoginSite :=
  let? _ := validate_login_definitions methods in
  let? _ := validate_stores methods passwordless_store state_store in
  let? secrets := secret_ring_new secret fallbacks 32 in
  let? codec := codec_new secrets in
  let? index := index_methods 0 methods ∅ in
  Ok {| lg_auth := auth; lg_methods := methods; lg_index := index; lg_codec := codec; lg_secrets := secrets;
        lg_state_store := state_store; lg_passwordless_store := passwordless_store |}.

Definition login_method (s : LoginSite) (id : string) : result AuthError LoginDefinition :=
  let? position := ok_or (lg_index s !! id) (LoginMethodNotFound id) in
  ok_or (lg_methods s !! position) (LoginMethodNotFound id).
Definition resolve_login_provider (s : LoginSite) (name : string) : result AuthError string :=
  let? id := provider_id_new name in
  let? provider := find_provider (lg_auth s) id in
  if cp_login (pr_capabilities provider) then Ok id else Err UnsupportedProviderCapability.

(** [LoginAuth]: a provider, a method and the types of its inputs. *)
Record LoginAuth := { la_provider : string; la_method : string; la_start : InputType; la_complete : InputType }.
Definition login_resolve (s : LoginSite) (l : LoginAuth) : result AuthError (string * string * LoginRuntime) :=
  let? provider := resolve_login_provider s (la_provider l) in
  let? method := login_method_id_new (la_method l) in
  let? definition := login_method s method in
  if negb (bool_decide (lf_start_type definition = la_start l))
     || negb (bool_decide (lf_complete_type definition = la_complete l))
  then Err (LoginMethodTypeMismatch method)
  else Ok (method, provider, lf_runtime definition).

Definition login_verified (s : LoginSite) (provider : string) (v : VerifiedLogin) (audiences : list string)
    (draws : Draws) (now : DateTime) : M W AuthError LoginResponse :=
  let user := with_authentication {| ac_auth_time := vl_auth_time v; ac_methods := vl_methods v; ac_acr := vl_acr v |}
                (vl_user v) in
  do! runtime := liftR (find_provider (lg_auth s) provider) in
  provider_login runtime user audiences draws now.

(** The steps of the erased runtimes, with their defaults. *)
Definition runtime_login (r : LoginRuntime) (input : LoginInput) (now : DateTime) : M W AuthError VerifiedLogin :=
  match r with RuntimePassword r => password_login r input now | _ => throwM UnsupportedProviderCapability end.
Definition runtime_begin (s : LoginSite) (r : LoginRuntime) (method : string) (input : LoginInput)
    (target : LoginTarget) (draws : LoginDraws) (now : DateTime) : M W AuthError LoginChallenge :=
  match r with
  | RuntimePassword _ => throwM UnsupportedProviderCapability
  | RuntimeMfa r => mfa_begin r method input target (lg_codec s) draws now
  | RuntimeOtp o => otp_begin o method input target (lg_codec s) (lg_secrets s) (lg_passwordless_store s) draws now
  | RuntimeMagicLink m =>
      magic_begin m method input target (lg_codec s) (lg_secrets s) (lg_passwordless_store s) draws now
  end.
Definition runtime_complete (s : LoginSite) (r : LoginRuntime) (method : string) (input : LoginInput)
    (now : DateTime) : M W AuthError CompletedLogin :=
  match r with
  | RuntimePassword _ => throwM UnsupportedProviderCapability
  | RuntimeMfa r => mfa_complete r method input (lg_codec s) (lg_state_store s) now
  | RuntimeOtp o => otp_complete o method input (lg_codec s) (lg_secrets s) (lg_passwordless_store s) now
  | RuntimeMagicLink m => magic_complete m method input (lg_codec s) (lg_secrets s) (lg_passwordless_store s) now
  end.

Definition login_once (s : LoginSite) (l : LoginAuth) (input : LoginInput) (audiences : list string) (draws : Draws)
    (now : DateTime) : M W AuthError LoginResponse :=
  do! resolved := liftR (login_resolve s l) in
  let '(method, provider, runtime) := resolved in
  do! audiences := liftR (resolve_audiences audiences (at_default_audience (lg_auth s))) in
  do! verified := runtime_login runtime input now in
  login_verified s provider verified audiences draws now.
Definition login_begin (s : LoginSite) (l : LoginAuth) (input : LoginInput) (audiences : list string)
    (draws : LoginDraws) (now : DateTime) : M W AuthError LoginChallenge :=
  do! resolved := liftR (login_resolve s l) in
  let '(method, provider, runtime) := resolved in
  do! audiences := liftR (resolve_audiences audiences (at_default_audience (lg_auth s))) in
  runtime_begin s runtime method input {| lt_provider := provider; lt_audiences := audiences |} draws now.
Definition login_complete (s : LoginSite) (l : LoginAuth) (input : LoginInput) (draws : Draws) (now : DateTime) :
    M W AuthError LoginResponse :=
  do! resolved := liftR (login_resolve s l) in
  let '(method, provider, runtime) := resolved in
  do! completed := runtime_complete s runtime method input now in
  if negb (String.eqb (lt_provider (cl_target completed)) provider) then throwM InvalidLoginState
  else login_verified s (lt_provider (cl_target completed)) (cl_login completed) (lt_audiences (cl_target completed)) draws now.
End Flows.
