(* ===== verification/LoginTheorems.v ===== *)
(** * What a completed login proves

    One-time passwords are uniform and accepted; a second factor or a
    passwordless proof completes a login that was begun, once, for the identity
    and the target it was begun for. *)
From S2P Require Import Prelude Externals Failure Config Models Lifecycle Json Submission ChannelTypes.
From S2P Require Import Scopes Credentials Tokens RegistryTheorems TokenTheorems Login.
#[local] Open Scope Z_scope.

(** ** One-time passwords *)

Section Otp.
Context (alphabet : list Ascii.ascii).
Let width := zlen alphabet.

(** The character a byte stands for, and the bytes that stand for one. *)
Definition otp_char (b : Z) : Ascii.ascii := default (Ascii.ascii_of_nat 48) (alphabet !! Z.to_nat (b mod zlen alphabet)).
Definition accepted_bytes (bytes : list Z) : list Z := List.filter (λ b, b <? byte_threshold (zlen alphabet)) bytes.

Hypothesis Hwidth : 0 < width.

Lemma otp_char_lookup b : alphabet !! Z.to_nat (b mod width) = Some (otp_char b).
Proof.
  unfold otp_char. fold width. destruct (lookup_lt_is_Some_2 alphabet (Z.to_nat (b mod width))) as [c ->]; [|done].
  pose proof (Z.mod_pos_bound b width Hwidth). unfold width, zlen in *. lia.
Qed.

Lemma append_bytes_spec n bytes : ∀ value, (length value < n)%nat →
  append_bytes alphabet width n (byte_threshold width) bytes value =
    Ok (value ++ take (n - length value) (List.map otp_char (accepted_bytes bytes))).
Proof.
  unfold accepted_bytes. fold width.
  induction bytes as [|b bytes IH]; intros value Hlt; cbn; [by rewrite take_nil, app_nil_r|].
  destruct (b <? byte_threshold width); [|by apply IH]. unfold append_byte. rewrite otp_char_lookup. cbn.
  assert (Hlen : length (value ++ [otp_char b]) = S (length value)) by (rewrite length_app; cbn; lia).
  rewrite Hlen. destruct (Nat.leb_spec n (length value)) as [|_]; [lia|]. cbn [result_bind]. rewrite Hlen.
  destruct (n - length value)%nat as [|k] eqn:Hk; [lia|]. cbn [take].
  destruct (Nat.eqb_spec (S (length value)) n) as [He|Hne].
  - replace k with 0%nat by lia. by rewrite take_0.
  - rewrite IH by (rewrite Hlen; lia). rewrite Hlen, <- app_assoc. cbn.
    by replace (n - S (length value))%nat with k by lia.
Qed.

Lemma random_loop_spec n blocks : ∀ value, (length value ≤ n)%nat →
  let chars := value ++ List.map otp_char (accepted_bytes (List.concat blocks)) in
  random_loop alphabet width n (List.map Some blocks) value =
    if (n <=? length chars)%nat then Ok (take n chars) else Err (AuthInternal "no more random blocks are given").
Proof.
  induction blocks as [|block blocks IH]; intros value Hle; cbn.
  - rewrite app_nil_r. destruct (Nat.leb_spec n (length value)) as [H|]; [|done].
    by rewrite take_ge by lia.
  - destruct (Nat.leb_spec n (length value)) as [Hge|Hlt].
    + rewrite (proj2 (Nat.leb_le _ _)) by (rewrite length_app; lia). by rewrite take_app_le, take_ge by lia.
    + unfold append_random. cbn. rewrite append_bytes_spec by lia. cbn. rewrite IH by (rewrite length_app, length_take; lia).
      unfold accepted_bytes. rewrite List.filter_app, map_app. fold width.
      set (l := List.map otp_char (List.filter _ block)). set (l' := List.map otp_char (List.filter _ (List.concat blocks))).
      destruct (decide (n - length value ≤ length l)%nat) as [Hl|Hl].
      * rewrite (proj2 (Nat.leb_le _ _)) by (rewrite !length_app, length_take; lia).
        rewrite (proj2 (Nat.leb_le _ _)) by (rewrite !length_app; lia). f_equal.
        rewrite take_app_le by (rewrite length_app, length_take; lia). rewrite !take_app, take_take.
        rewrite Nat.min_id. replace (n - length value - length l)%nat with 0%nat by lia. by rewrite take_0, app_nil_r.
      * rewrite (take_ge l) by lia. by rewrite <- app_assoc.
Qed.
End Otp.

Definition otp_characters (p : OtpPolicy) : list Ascii.ascii := String.list_ascii_of_string (otp_alphabet p).

Lemma otp_alphabet_facts p :
  0 < zlen (otp_characters p) ≤ 255 ∧ forallb ascii_alphanumeric (otp_characters p) = true.
Proof. destruct p; vm_compute; done. Qed.

Lemma otp_policy_bounds p : otp_policy_validate p = Ok tt → (1 ≤ otp_length p ≤ 16)%nat.
Proof.
  unfold otp_policy_validate, otp_length, MIN_NUMERIC_LENGTH, MAX_NUMERIC_LENGTH, MIN_BASE32_LENGTH, MAX_OTP_LENGTH.
  destruct p as [n|n]; destruct ((_ <=? _) && (_ <=? _)) eqn:Hb; try done; apply andb_true_iff in Hb as [H1 H2];
    apply Z.leb_le in H1, H2; lia.
Qed.

(** How many bytes stand for a character. *)
Definition byte_count (p : OtpPolicy) (c : Ascii.ascii) : nat :=
  length (List.filter (λ b, Ascii.eqb (otp_char (otp_characters p) b) c)
            (accepted_bytes (otp_characters p) (List.map Z.of_nat (List.seq 0 256)))).

Lemma otp_char_in p b : otp_char (otp_characters p) b ∈ otp_characters p.
Proof. eapply list_elem_of_lookup_2, otp_char_lookup, otp_alphabet_facts. Qed.

(** A one-time password is the first accepted bytes drawn, as many as its
    policy says, character by character: it is produced as soon as that many
    are drawn, every character is chosen by equally many bytes, and its own
    check admits it. *)
Theorem otp_codes_are_uniform p blocks :
  otp_policy_validate p = Ok tt →
  (∀ c c', c ∈ otp_characters p → c' ∈ otp_characters p → byte_count p c = byte_count p c' ∧ (0 < byte_count p c)%nat) ∧
  let drawn := accepted_bytes (otp_characters p) (List.concat blocks) in
  match random_code p (List.map Some blocks) with
  | Ok code =>
      code = String.string_of_list_ascii (List.map (otp_char (otp_characters p)) (take (otp_length p) drawn)) ∧
      String.length code = otp_length p ∧
      ∀ `{LoginExternals} token, uuid_ok token = true →
        validate_otp {| or_challenge_token := token; or_code := code |} = Ok tt
  | Err _ => (length drawn < otp_length p)%nat
  end.
Proof.
  intros Hp. split.
  - intros c c' Hc Hc'. assert (Hall : ∀ x, x ∈ otp_characters p → byte_count p x = match p with OtpNumeric _ => 25%nat | OtpCrockfordBase32 _ => 7%nat end).
    { assert (Hb : forallb (λ x, byte_count p x =? match p with OtpNumeric _ => 25 | OtpCrockfordBase32 _ => 7 end)%nat
        (otp_characters p) = true) by (destruct p; vm_compute; reflexivity).
      intros x Hx. rewrite forallb_forall in Hb. specialize (Hb x). rewrite <- list_elem_of_In in Hb.
      apply Nat.eqb_eq in Hb; [|done]. rewrite Hb. by destruct p. }
    rewrite (Hall c Hc), (Hall c' Hc'). split; [done|]. destruct p; lia.
  - cbn zeta. pose proof (otp_alphabet_facts p) as [[Hw Hw'] Halnum]. unfold random_code, random_from.
    fold (otp_characters p). destruct (Z.ltb_spec 255 (zlen (otp_characters p))) as [|_]; [lia|].
    destruct (Z.eqb_spec (zlen (otp_characters p)) 0) as [|_]; [lia|]. cbn [orb].
    rewrite random_loop_spec by (done || (cbn; lia)). rewrite app_nil_l, List.length_map.
    set (drawn := accepted_bytes _ _). destruct (Nat.leb_spec (otp_length p) (length drawn)) as [Hle|Hlt]; cbn; [|done].
    rewrite firstn_map. set (l := List.map _ (take _ drawn)).
    assert (Hl : length l = otp_length p) by (unfold l; rewrite List.length_map, length_take; lia).
    assert (Hlen : String.length (String.string_of_list_ascii l) = otp_length p).
    { rewrite <- Hl. clear. induction l as [|a l IH]; cbn; [done|by rewrite IH]. }
    split_and!; [done|done|]. intros L token Htok. unfold validate_otp, valid_id. cbn. rewrite Htok. cbn.
    pose proof (otp_policy_bounds p Hp) as Hbounds.
    rewrite (proj2 (String.eqb_neq _ _)); [|intros He; rewrite He in Hlen; cbn in Hlen; lia].
    rewrite (proj2 (Z.leb_le _ _)); [|unfold str_len, MAX_OTP_LENGTH; rewrite Hlen; lia]. cbn.
    unfold all_bytes. rewrite String.list_ascii_of_string_of_list_ascii.
    replace (forallb ascii_alphanumeric l) with true; [done|]. symmetry. apply forallb_forall. intros c Hc.
    apply in_map_iff in Hc as (b & <- & _). rewrite forallb_forall in Halnum. apply Halnum, list_elem_of_In, otp_char_in.
Qed.

(** ** Sealed states *)

(** What the ciphers and encodings promise: each reads back what it wrote, a
    cipher under another key reads nothing, and lengths are those of AES-GCM
    and of unpadded base64. *)
Class LoginLaws `(L : LoginExternals) := {
  ll_state s p : state_to_vec s = Some p → state_from_slice p = Some s ∧ 0 < str_len p;
  ll_aead k n p c : aead_seal k n p = Some c → aead_open k n c = Some p ∧ str_len c = str_len p + TAG_LENGTH;
  ll_other_key k k' n p c : aead_seal k n p = Some c → k' ≠ k → aead_open k' n c = None;
  ll_base64 b : base64url_decode (base64url b) = Some b;
  ll_base64_length b : str_len (base64url b) = (4 * str_len b + 2) / 3;
  ll_mfa p v : mfa_to_value p = Some v → mfa_from_value v = Some p;
  ll_passwordless p v : passwordless_to_value p = Some v → passwordless_from_value v = Some p }.

Section Sealing.
Context `{L : LoginExternals} `{!LoginLaws L}.

Lemma substring_prefix s s' : String.substring 0 (String.length s) (s +:+ s') = s.
Proof.
  induction s as [|c s IH]; [by destruct s'|]. change (String c s +:+ s') with (String c (s +:+ s')). cbn. by rewrite IH.
Qed.
Lemma substring_whole s : String.substring 0 (String.length s) s = s.
Proof. induction s as [|c s IH]; cbn; [done|by rewrite IH]. Qed.
Lemma substring_suffix s s' : String.substring (String.length s) (String.length s') (s +:+ s') = s'.
Proof.
  induction s as [|c s IH]; [apply substring_whole|]. change (String c s +:+ s') with (String c (s +:+ s')). exact IH.
Qed.

Lemma open_with_keys_finds keys key nonce payload c state :
  aead_seal key nonce payload = Some c → state_to_vec state = Some payload →
  str_len payload ≤ MAX_STATE_PAYLOAD_BYTES → key ∈ keys → Forall (λ k, aead_key k = true) keys →
  open_with_keys keys nonce c = Ok state.
Proof.
  intros Hs Hp Hlen Hin Hk. induction Hk as [|k keys Hk _ IH]; [by apply elem_of_nil in Hin|].
  cbn. unfold state_key. rewrite Hk. cbn. destruct (decide (k = key)) as [->|Hne].
  - destruct (ll_aead _ _ _ _ Hs) as [-> _]. destruct (Z.ltb_spec MAX_STATE_PAYLOAD_BYTES (str_len payload)); [lia|].
    by destruct (ll_state _ _ Hp) as [-> _].
  - rewrite (ll_other_key _ _ _ _ _ Hs Hne). apply IH. apply elem_of_cons in Hin as [|]; [done|done].
Qed.

(** The sizes of what a codec seals. *)
Lemma seal_ok c state nonce token :
  challenge_seal c state (Some nonce) = Ok token → str_len nonce = NONCE_LENGTH →
  ∃ payload sealed, state_to_vec state = Some payload ∧ str_len payload ≤ MAX_STATE_PAYLOAD_BYTES ∧
    aead_seal (cc_active c) nonce payload = Some sealed ∧ token = base64url (nonce +:+ sealed) ∧
    str_len token = (4 * (str_len payload + NONCE_LENGTH + TAG_LENGTH) + 2) / 3.
Proof.
  unfold challenge_seal. intros Hs Hn. apply result_bind_ok in Hs as (payload & Hp & Hs). apply ok_or_ok in Hp.
  destruct (Z.ltb_spec MAX_STATE_PAYLOAD_BYTES (str_len payload)); [done|]. cbn in Hs.
  apply result_bind_ok in Hs as (key & Hk & Hs). unfold state_key in Hk. destruct (aead_key _); [|done]. injection Hk as <-.
  apply result_bind_ok in Hs as (sealed & Hse & Hs). apply ok_or_ok in Hse. injection Hs as <-.
  exists payload, sealed. split_and!; try done. rewrite ll_base64_length, str_len_app.
  destruct (ll_aead _ _ _ _ Hse) as [_ ->]. rewrite Hn. f_equal. lia.
Qed.

(** Under any of the keys a codec opens with. *)
Lemma sealed_open sealing opening state nonce token :
  cc_active sealing ∈ cc_verification opening → Forall (λ k, aead_key k = true) (cc_verification opening) →
  str_len nonce = NONCE_LENGTH → challenge_seal sealing state (Some nonce) = Ok token →
  challenge_open opening token = Ok state.
Proof.
  intros Hkey Hkeys Hlen Hs. pose proof (seal_ok _ _ _ _ Hs Hlen) as (payload & c & Hp & Hmax & Hse & -> & Htoken).
  pose proof (ll_aead _ _ _ _ Hse) as [_ Hc]. destruct (ll_state _ _ Hp) as [_ Hpos].
  unfold MAX_STATE_PAYLOAD_BYTES, NONCE_LENGTH, TAG_LENGTH in *.
  unfold challenge_open. rewrite Htoken. destruct (Z.ltb_spec MAX_ENCODED_STATE_BYTES ((4 * (str_len payload + 12 + 16) + 2) / 3)) as [Hlt|_].
  { unfold MAX_ENCODED_STATE_BYTES in Hlt. pose proof (Z.div_le_mono (4 * (str_len payload + 12 + 16) + 2) (4 * 16412 + 2) 3).
    change ((4 * 16412 + 2) / 3) with 21883 in *. lia. }
  rewrite ll_base64. cbn. rewrite str_len_app, Hlen, Hc. unfold NONCE_LENGTH, TAG_LENGTH.
  destruct (Z.leb_spec (12 + (str_len payload + 16)) (12 + 16)); [lia|].
  assert (Hl12 : String.length nonce = 12%nat) by (unfold str_len in Hlen; lia).
  rewrite string_length_app, Hl12. replace (12 + String.length c - 12)%nat with (String.length c) by lia.
  rewrite <- Hl12, substring_prefix, substring_suffix.
  by eapply open_with_keys_finds.
Qed.

(** C25: a state that was sealed is read back as it was sealed, also after the
    site's secret was replaced, as long as the secret it was sealed under is
    still the active one or a fallback: the bounds on sealed states admit
    everything that is sealed. *)
Theorem sealed_states_open old new sealing opening state nonce token :
  codec_new old = Ok sealing → codec_new new = Ok opening → sr_active old ∈ secret_verification new →
  Forall (λ k, aead_key k = true) (cc_verification opening) → str_len nonce = NONCE_LENGTH →
  challenge_seal sealing state (Some nonce) = Ok token →
  challenge_open opening token = Ok state.
Proof.
  intros Ho Hn Hin Hkeys Hlen Hs.
  assert (Hkey : cc_active sealing ∈ cc_verification opening).
  { unfold codec_new in Ho, Hn. apply result_bind_ok in Ho as (a & Ha & Ho). apply result_bind_ok in Ho as (v & _ & Ho). injection Ho as <-.
    apply result_bind_ok in Hn as (a' & _ & Hn). apply result_bind_ok in Hn as (v' & Hv & Hn). injection Hn as <-. cbn.
    unfold derived_active in Ha. unfold derived_verification in Hv. clear -Ha Hv Hin. revert v' Hv.
    induction (secret_verification new) as [|m ms IH]; [by apply elem_of_nil in Hin|]. intros v' Hv. cbn in Hv.
    apply result_bind_ok in Hv as (k & Hk & Hv). apply result_bind_ok in Hv as (ks & Hks & Hv). injection Hv as <-.
    apply elem_of_cons in Hin as [<-|Hin]; [|right; by apply IH]. rewrite Ha in Hk. injection Hk as <-. by left. }
  by eapply sealed_open.
Qed.

(** An MFA response may carry a token of 16 KiB, and a state of 16 KiB is sealed
    as more: a challenge whose state is larger than this completes no login. *)
Theorem large_mfa_challenges_never_complete {W} (r : PasswordMfaRuntime (W := W)) method sealing opening store state nonce token
    payload factor answer now w :
  challenge_seal sealing state (Some nonce) = Ok token → str_len nonce = NONCE_LENGTH →
  state_to_vec state = Some payload → 12260 < str_len payload →
  mfa_complete r method (InMfa {| mr_challenge_token := token; mr_method := factor; mr_answer := answer |}) opening store now w =
    (Err InvalidLoginState, w).
Proof.
  intros Hs Hlen Hp Hlarge. pose proof (seal_ok _ _ _ _ Hs Hlen) as (payload' & c & Hp' & _ & _ & _ & Htoken).
  rewrite Hp in Hp'. injection Hp' as <-. unfold NONCE_LENGTH, TAG_LENGTH in *.
  assert (16384 < str_len token).
  { rewrite Htoken. pose proof (Z.div_le_mono (4 * 12289 + 2) (4 * (str_len payload + 12 + 16) + 2) 3).
    change ((4 * 12289 + 2) / 3) with 16386 in *. lia. }
  unfold mfa_complete, bindM, liftR. cbn. unfold validate_mfa_response. cbn [mr_challenge_token].
  destruct (Z.ltb_spec (16 * 1024) (str_len token)); [|lia]. by rewrite orb_true_r.
Qed.
End Sealing.

(** ** A second factor *)

Section Mfa.
Context {W : Type} `{L : LoginExternals} `{!LoginLaws L}.
Context (r : PasswordMfaRuntime (W := W)) (method : string) (codec : ChallengeCodec) (store : LoginStateStore (W := W)).
Context (later : relation W) (consumed : string → W → Prop).

(** What the application's parts promise: nothing takes back an id that was
    consumed, and the store says so of the first use only. *)
Record mfa_laws : Prop := {
  ma_preorder : PreOrder later;
  ma_primary username password : respects later (mf_primary r username password);
  ma_methods user : respects later (ml_methods (mf_factors r) user);
  ma_verify user response : respects later (ml_verify (mf_factors r) user response);
  ma_store id expires_at : respects later (store id expires_at);
  ma_stays id w w' : consumed id w → later w w' → consumed id w';
  ma_first id expires_at w w' : store id expires_at w = (Ok true, w') → ¬ consumed id w ∧ consumed id w' }.

Record MfaBegun := { mb_input : LoginInput; mb_target : LoginTarget; mb_now : DateTime; mb_state : SealedLoginState }.
Record MfaCompleted := { mc_response : MfaResponse; mc_now : DateTime; mc_done : CompletedLogin }.

(** The logins of one method, begun and completed, in any order and among anything
    else. What a presented token opens to was sealed: the cipher authenticates. *)
Inductive mfa_history : W → list MfaBegun → list MfaCompleted → Prop :=
  | mfa_starts w : mfa_history w [] []
  | mfa_elsewhere w w' begun completed :
      mfa_history w begun completed → later w w' → mfa_history w' begun completed
  | mfa_begins w w' begun completed input target draws now state methods answer :
      mfa_history w begun completed →
      mfa_begin r method input target codec draws now w = (answer, w') →
      (mfa_state r method input target (ld_id draws) now w).1 = Ok (state, methods) →
      mfa_history w' ({| mb_input := input; mb_target := target; mb_now := now; mb_state := state |} :: begun) completed
  | mfa_completes w w' begun completed response now done :
      mfa_history w begun completed →
      (∀ state, challenge_open codec (mr_challenge_token response) = Ok state → ss_method state = method →
         ∃ b, b ∈ begun ∧ mb_state b = state) →
      mfa_complete r method (InMfa response) codec (Some store) now w = (Ok done, w') →
      mfa_history w' begun ({| mc_response := response; mc_now := now; mc_done := done |} :: completed).

(** The primary proof of [b], and the state it sealed. *)
Definition begun_ok (b : MfaBegun) (user : AuthUser) (methods : list MfaMethod) (payload : Json) : Prop :=
  (∃ c w w', downcast_primary (mb_input b) (mf_input r) = Ok c ∧ validate_password c = Ok tt ∧
     mf_primary r (pc_username c) (pc_password c) w = (Ok user, w') ∧ validate_user user = Ok tt) ∧
  (∀ m, m ∈ methods → m ∈ ml_allowed (mf_factors r)) ∧
  mfa_to_value {| pm_subject := au_subject user; pm_scopes := au_scopes user; pm_methods := methods;
                  pm_auth_time := mb_now b / TICKS |} = Some payload ∧
  ss_target (mb_state b) = mb_target b ∧ ss_payload (mb_state b) = payload ∧
  ss_expires_at (mb_state b) = mb_now b / TICKS + ml_ttl_seconds (mf_factors r).

(** [c] completes [b]: the factor, one the login allows, was verified for the
    identity whose password [b] proved, before the challenge expired. *)
Definition mfa_answers (b : MfaBegun) (c : MfaCompleted) : Prop :=
  ∃ user methods payload verified w w',
    begun_ok b user methods payload ∧
    challenge_open codec (mr_challenge_token (mc_response c)) = Ok (mb_state b) ∧
    mr_method (mc_response c) ∈ ml_allowed (mf_factors r) ∧
    mc_now c / TICKS < mb_now b / TICKS + ml_ttl_seconds (mf_factors r) ∧
    ml_verify (mf_factors r) (with_scopes (au_scopes user) (auth_user_new (au_subject user))) (mc_response c) w =
      (Ok verified, w') ∧
    mc_done c = {| cl_login := {| vl_user := verified;
                                  vl_methods := [primary_method (mf_input r); mfa_method_as_str (mr_method (mc_response c))];
                                  vl_auth_time := Some (mb_now b / TICKS); vl_acr := Some "urn:vyuh:acr:mfa"%string |};
                   cl_target := mb_target b |}.

Definition completed_id (c : MfaCompleted) : string :=
  match challenge_open codec (mr_challenge_token (mc_response c)) with Ok s => ss_state_id s | Err _ => "" end.

Lemma mfa_state_ok input target id now w state methods :
  (mfa_state r method input target id now w).1 = Ok (state, methods) →
  ∃ user payload, begun_ok {| mb_input := input; mb_target := target; mb_now := now; mb_state := state |}
                    user methods payload ∧ ss_method state = method ∧ ss_state_id state = id.
Proof.
  destruct (mfa_state _ _ _ _ _ _ _) as [answer w'] eqn:Hs. cbn. intros ->. unfold mfa_state in Hs.
  apply bind_ok in Hs as (? & w1 & Hc & Hs). apply lift_ok in Hc as [_ ->].
  apply bind_ok in Hs as (c & w1 & Hc & Hs). apply lift_ok in Hc as [Hc ->].
  apply bind_ok in Hs as ([] & w1 & Hv & Hs). apply lift_ok in Hv as [Hv ->].
  apply bind_ok in Hs as (user & w1 & Hp & Hs). apply bind_ok in Hs as ([] & w2 & Hu & Hs). apply lift_ok in Hu as [Hu ->].
  apply bind_ok in Hs as (ms & w3 & Hm & Hs). apply bind_ok in Hs as (payload & w4 & Hpl & Hs). apply lift_ok in Hpl as [Hpl ->].
  apply ok_or_ok in Hpl. injection Hs as <- <- _. exists user, payload. split; [|done]. split_and!; cbn; try done.
  - exists c, w, w1. done.
  - intros m Hin. unfold available_methods in Hm. apply bind_ok in Hm as (available & w5 & _ & Hm).
    assert (ms = List.filter (λ m, bool_decide (m ∈ ml_allowed (mf_factors r))) available) as ->.
    { destruct (List.filter _ _); [done|]. by injection Hm as <- _. }
    apply list_elem_of_In, filter_In in Hin as [_ Hin]. by apply bool_decide_eq_true in Hin.
Qed.

Lemma mfa_complete_ok response now w done w' :
  mfa_complete r method (InMfa response) codec (Some store) now w = (Ok done, w') →
  ∃ state pending user w1 w2, challenge_open codec (mr_challenge_token response) = Ok state ∧
    ss_method state = method ∧ now / TICKS < ss_expires_at state ∧
    mfa_from_value (ss_payload state) = Some pending ∧ mr_method response ∈ pm_methods pending ∧
    ml_verify (mf_factors r) (with_scopes (pm_scopes pending) (auth_user_new (pm_subject pending))) response w = (Ok user, w1) ∧
    store (ss_state_id state) (ss_expires_at state) w1 = (Ok true, w2) ∧ w' = w2 ∧
    done = {| cl_login := {| vl_user := user;
                             vl_methods := [primary_method (mf_input r); mfa_method_as_str (mr_method response)];
                             vl_auth_time := Some (pm_auth_time pending); vl_acr := Some "urn:vyuh:acr:mfa"%string |};
              cl_target := ss_target state |}.
Proof.
  unfold mfa_complete. intros Hs. apply bind_ok in Hs as (x & w1 & Hx & Hs). apply lift_ok in Hx as [[= <-] ->].
  apply bind_ok in Hs as (? & w1 & Hv & Hs). apply lift_ok in Hv as [_ ->].
  apply bind_ok in Hs as (state & w1 & Ho & Hs). apply lift_ok in Ho as [Ho ->].
  apply bind_ok in Hs as ([] & w1 & Hvs & Hs). apply lift_ok in Hvs as [Hvs ->].
  apply bind_ok in Hs as (pending & w1 & Hp & Hs). apply lift_ok in Hp as [Hp ->]. apply ok_or_ok in Hp.
  destruct (bool_decide (mr_method response ∈ pm_methods pending)) eqn:Hm; [|done]. apply bool_decide_eq_true in Hm. cbn [negb] in Hs.
  apply bind_ok in Hs as (user & w1 & Hu & Hs). apply bind_ok in Hs as (st & w2 & Hst & Hs). apply lift_ok in Hst as [[= <-] ->].
  apply bind_ok in Hs as ([] & w3 & Hc & Hs). injection Hs as <- <-. unfold consume_state in Hc.
  apply bind_ok in Hc as ([] & w4 & Hf & Hc); [|done]. injection Hc as <-.
  unfold validate_mfa_state in Hvs. destruct (String.eqb_spec (ss_method state) method) as [He|]; [|by rewrite orb_true_r in Hvs].
  destruct (negb _ || _); [done|]. destruct (Z.leb_spec (ss_expires_at state) (now / TICKS)); [done|].
  exists state, pending, user, w1, w4. by split_and!.
Qed.

Lemma mfa_begin_later input target draws now w answer w' :
  mfa_laws → mfa_begin r method input target codec draws now w = (answer, w') → later w w'.
Proof.
  intros [? Hp Hm Hv Hst _ _] Hs. eapply (run_later later); [|exact Hs].
  unfold mfa_begin, mfa_state, available_methods. respects_auto.
Qed.

Lemma respects_lift_bind {A B} (x : result AuthError A) (k : A → M W AuthError B) :
  PreOrder later → (∀ a, x = Ok a → respects later (k a)) → respects later (bindM (liftR x) k).
Proof. intros ? Hk w. unfold bindM, liftR. destruct x as [a|e]; [by apply Hk|reflexivity]. Qed.

Lemma mfa_complete_later response now w answer w' :
  mfa_laws → mfa_complete r method (InMfa response) codec (Some store) now w = (answer, w') → later w w'.
Proof.
  intros [? Hp Hm Hv Hst _ _] Hs. eapply (run_later later); [|exact Hs].
  unfold mfa_complete, consume_state.
  repeat first [apply respects_lift_bind; [done|intros ? ?; simplify_eq/=] | assumption | respects_step | apply Hst | apply Hv].
Qed.

(** Completions name distinct ids, all consumed, and each completes a begun login. *)
Lemma mfa_history_ok w begun completed :
  mfa_laws → mfa_history w begun completed →
  (∀ b, b ∈ begun → ∃ user methods payload, begun_ok b user methods payload) ∧
  (∀ c, c ∈ completed → (∃ b, b ∈ begun ∧ mfa_answers b c) ∧ consumed (completed_id c) w) ∧
  NoDup (List.map completed_id completed).
Proof.
  intros A. induction 1 as [w|w w' bs cs H IH Hl|w w' bs cs input target draws now state methods answer H IH Hb Hs
                            |w w' bs cs response now done H IH Hin Hc].
  - split_and!; [by intros b Hb%elem_of_nil|by intros c Hc%elem_of_nil|constructor].
  - destruct IH as (H1 & H2 & H3). split_and!; [done| |done]. intros c Hc. destruct (H2 c Hc) as [? ?]. split; [done|].
    by eapply (ma_stays A).
  - destruct IH as (H1 & H2 & H3). apply (mfa_begin_later _ _ _ _ _ _ _ A) in Hb.
    apply mfa_state_ok in Hs as (user & payload & Hok & _). split_and!; [| |done].
    + intros b Hb'. apply elem_of_cons in Hb' as [->|Hb']; [by exists user, methods, payload|by apply H1].
    + intros c Hc. destruct (H2 c Hc) as [(b & ? & ?) ?]. split; [|by eapply (ma_stays A)]. exists b. split; [by right|done].
  - destruct IH as (H1 & H2 & H3). pose proof (mfa_complete_later _ _ _ _ _ A Hc) as Hlater.
    apply mfa_complete_ok in Hc as (state & pending & user & w1 & w2 & Ho & Hm & Hexp & Hp & Hmem & Hv & Hst & -> & ->).
    destruct (Hin _ Ho Hm) as (b & Hb & <-). apply (ma_first A) in Hst as [Hnot Hcons].
    assert (Hid : completed_id {| mc_response := response; mc_now := now; mc_done :=
        {| cl_login := {| vl_user := user; vl_methods := [primary_method (mf_input r); mfa_method_as_str (mr_method response)];
                          vl_auth_time := Some (pm_auth_time pending); vl_acr := Some "urn:vyuh:acr:mfa"%string |};
           cl_target := ss_target (mb_state b) |} |} = ss_state_id (mb_state b)).
    { unfold completed_id. cbn. by rewrite Ho. }
    assert (Hw1 : later w w1) by exact (run_later later _ _ _ _ (ma_verify A _ _) Hv).
    split_and!; [done| |].
    + intros c Hc. apply elem_of_cons in Hc as [->|Hc].
      * split; [|by rewrite Hid]. exists b. split; [done|]. destruct (H1 b Hb) as (u & ms & payload & Hok).
        pose proof Hok as (_ & Hallowed & Hpay & Htarget & Hpayload & Hexpires).
        apply ll_mfa in Hpay. rewrite Hpayload, Hpay in Hp. injection Hp as <-. cbn in *.
        exists u, ms, payload, user, w, w1. rewrite Htarget. split_and!; try done; [by apply Hallowed|cbn; lia].
      * destruct (H2 c Hc) as [? ?]. split; [done|]. by eapply (ma_stays A).
    + cbn [List.map]. rewrite Hid. constructor; [|done]. intros Hi. apply list_elem_of_In, in_map_iff in Hi as (c & He & Hc).
      apply list_elem_of_In in Hc. destruct (H2 c Hc) as [_ Hcons']. apply Hnot. rewrite <- He. by eapply (ma_stays A).
Qed.

(** C22: whatever was tried in between, a login completed with a second factor
    was begun with a password: the factor, one the login allows, was verified
    for the identity the password proved, before the challenge expired; the
    result carries the target and the time of the beginning, and no challenge
    completes twice. *)
Theorem mfa_logins_complete_what_began w begun completed :
  mfa_laws → mfa_history w begun completed →
  (∀ c, c ∈ completed → ∃ b, b ∈ begun ∧ mfa_answers b c) ∧ NoDup (List.map completed_id completed).
Proof. intros A H. destruct (mfa_history_ok _ _ _ A H) as (_ & H2 & H3). split; [|done]. intros c Hc. by apply H2. Qed.
End Mfa.

(** ** Passwordless codes *)

Section Passwordless.
Context {W : Type} `{L : LoginExternals} `{!LoginLaws L}.
Context (o : OtpLogin (W := W)) (method : string) (secrets : SecretRing) (codec : ChallengeCodec)
  (store : PasswordlessStore (W := W)).
Context (later : relation W) (spent : string → W → Prop) (registered : PasswordlessChallenge → W → Prop).

(** A step that registers no challenge. *)
Definition quiet (w w' : W) : Prop := later w w' ∧ ∀ c, registered c w' → registered c w.

(** What a passwordless store promises: it keeps the challenges it was given,
    accepts a proof of one of them at most once and then answers its state.
    Digests of different messages differ. *)
Record otp_laws : Prop := {
  oa_preorder : PreOrder later;
  oa_resolver a : respects quiet (ol_resolver o a);
  oa_attempt id proofs : respects quiet (ps_attempt store id proofs);
  oa_begin c w answer w' : ps_begin store c w = (answer, w') →
    later w w' ∧ ∀ c', registered c' w' → registered c' w ∨ c' = c;
  oa_stays id w w' : spent id w → later w w' → spent id w';
  oa_accepts id proofs state w w' : ps_attempt store id proofs w = (Ok (AttemptAccepted state), w') →
    ¬ spent id w ∧ spent id w' ∧
    ∃ c d, registered c w ∧ ch_id c = id ∧ ch_state c = state ∧ d ∈ ch_proofs c ∧ d ∈ proofs;
  oa_digest k k' m m' : hmac_sha256 k m = hmac_sha256 k' m' → m = m' }.

Record OtpBegun := {
  ob_address : PasswordlessAddress; ob_user : option AuthUser; ob_target : LoginTarget; ob_draws : LoginDraws;
  ob_now : DateTime; ob_prepared : PreparedChallenge }.
Record OtpCompleted := { oc_response : OtpResponse; oc_now : DateTime; oc_done : CompletedLogin }.

(** A challenge that another method registered. *)
Definition foreign (c : PasswordlessChallenge) : Prop :=
  ∀ state, challenge_open codec (ch_state c) = Ok state → ss_method state ≠ method.

(** The logins of one method, begun and completed, among anything else that uses
    the store. A nonce has its length. *)
Inductive otp_history : W → list OtpBegun → list OtpCompleted → Prop :=
  | otp_starts w : (∀ c, registered c w → foreign c) → otp_history w [] []
  | otp_elsewhere w w' begun completed :
      otp_history w begun completed → later w w' → (∀ c, registered c w' → registered c w ∨ foreign c) →
      otp_history w' begun completed
  | otp_begins w w' begun completed address target draws now user prepared answer :
      otp_history w begun completed →
      (∀ nonce, ld_nonce draws = Some nonce → str_len nonce = NONCE_LENGTH) →
      otp_begin o method (InAddress address) target codec secrets (Some store) draws now w = (answer, w') →
      validate_address address = Ok tt →
      (ol_resolver o address w).1 = Ok user →
      prepared_new method target (address_text address) user (KindOfOtp (address_channel address) (ol_policy o))
        codec secrets draws now = Ok prepared →
      otp_history w' ({| ob_address := address; ob_user := user; ob_target := target; ob_draws := draws;
                         ob_now := now; ob_prepared := prepared |} :: begun) completed
  | otp_completes w w' begun completed response now done :
      otp_history w begun completed →
      otp_complete o method (InOtp response) codec secrets (Some store) now w = (Ok done, w') →
      otp_history w' begun ({| oc_response := response; oc_now := now; oc_done := done |} :: completed).

(** [c] completes [b]: the code is the one drawn for it, the address still belongs
    to the account it belonged to then, and the code had not expired. *)
Definition otp_answers (b : OtpBegun) (c : OtpCompleted) : Prop :=
  ∃ account user w w',
    ob_user b = Some account ∧
    random_code (ol_policy o) (ld_blocks (ob_draws b)) = Ok (or_code (oc_response c)) ∧
    or_challenge_token (oc_response c) = ld_id (ob_draws b) ∧
    ol_resolver o (ob_address b) w = (Ok (Some user), w') ∧ au_subject user = au_subject account ∧
    oc_now c / TICKS ≤ ob_now b / TICKS + OTP_TTL ∧
    oc_done c = {| cl_login := verified_new user "otp" (oc_now c); cl_target := ob_target b |}.

(** What [b] registered. *)
Definition prepared_ok (b : OtpBegun) : Prop :=
  let c := pr_challenge (ob_prepared b) in
  ∃ code payload state,
    random_code (ol_policy o) (ld_blocks (ob_draws b)) = Ok code ∧
    ch_id c = ld_id (ob_draws b) ∧
    proof_digests secrets (ld_id (ob_draws b)) code = Ok (ch_proofs c) ∧
    challenge_open codec (ch_state c) = Ok state ∧ ss_method state = method ∧ ss_target state = ob_target b ∧
    ss_expires_at state = ob_now b / TICKS + OTP_TTL ∧ ss_payload state = payload ∧
    passwordless_from_value payload =
      Some {| pp_identifier := address_text (ob_address b); pp_subject := au_subject <$> ob_user b;
              pp_method := method; pp_channel := address_channel (ob_address b) |}.

Lemma address_read_back a : address_from_parts (address_channel a) (address_text a) = Ok a.
Proof. by destruct a. Qed.

Hypothesis Hcodec : codec_new secrets = Ok codec.
Hypothesis Hkeys : Forall (λ k, aead_key k = true) (cc_verification codec).

Lemma prepared_new_ok address target draws now user prepared :
  (∀ nonce, ld_nonce draws = Some nonce → str_len nonce = NONCE_LENGTH) →
  prepared_new method target (address_text address) user (KindOfOtp (address_channel address) (ol_policy o))
    codec secrets draws now = Ok prepared →
  prepared_ok {| ob_address := address; ob_user := user; ob_target := target; ob_draws := draws; ob_now := now;
                 ob_prepared := prepared |}.
Proof.
  intros Hnonce Hp. unfold prepared_new in Hp. apply result_bind_ok in Hp as (drawn & Hd & Hp). cbn in Hd.
  apply result_bind_ok in Hd as (code & Hcode & Hd). injection Hd as <-. cbn in Hp.
  apply result_bind_ok in Hp as (payload & Hpay & Hp). apply ok_or_ok in Hpay.
  apply result_bind_ok in Hp as (sealed & Hs & Hp). apply result_bind_ok in Hp as (principal & _ & Hp).
  apply result_bind_ok in Hp as (proofs & Hpr & Hp). injection Hp as <-. unfold prepared_ok. cbn.
  destruct (ld_nonce draws) as [nonce|] eqn:Hn.
  2:{ unfold challenge_seal in Hs. apply result_bind_ok in Hs as (? & _ & Hs). by destruct (_ <? _). }
  exists code, payload, {| ss_version := 3; ss_state_id := ld_id draws; ss_method := method; ss_target := target;
                           ss_expires_at := now / TICKS + OTP_TTL; ss_payload := payload |}.
  split_and!; [done|done|done| |done..|by apply ll_passwordless].
  eapply sealed_open; [|exact Hkeys|by apply Hnonce|exact Hs].
  unfold codec_new in Hcodec. apply result_bind_ok in Hcodec as (a & Ha & Hc). apply result_bind_ok in Hc as (v & Hv & Hc).
  injection Hc as <-. cbn. unfold derived_verification, secret_verification in Hv. cbn in Hv.
  unfold derived_active in Ha. rewrite Ha in Hv. cbn in Hv. apply result_bind_ok in Hv as (ks & _ & Hv).
  injection Hv as <-. by left.
Qed.

Lemma otp_complete_ok response now w done w' :
  otp_complete o method (InOtp response) codec secrets (Some store) now w = (Ok done, w') →
  ∃ proofs sealed w1 state pending address user,
    proof_digests secrets (or_challenge_token response) (or_code response) = Ok proofs ∧
    ps_attempt store (or_challenge_token response) proofs w = (Ok (AttemptAccepted sealed), w1) ∧
    challenge_open codec sealed = Ok state ∧ ss_method state = method ∧ now / TICKS ≤ ss_expires_at state ∧
    passwordless_from_value (ss_payload state) = Some pending ∧
    address_from_parts (pp_channel pending) (pp_identifier pending) = Ok address ∧
    ol_resolver o address w1 = (Ok (Some user), w') ∧ pp_subject pending = Some (au_subject user) ∧
    done = {| cl_login := verified_new user "otp" now; cl_target := ss_target state |}.
Proof.
  unfold otp_complete. intros Hs. apply bind_ok in Hs as (st & w1 & Hx & Hs). apply lift_ok in Hx as [[= <-] ->].
  apply bind_ok in Hs as (x & w1 & Hx & Hs). apply lift_ok in Hx as [[= <-] ->].
  apply bind_ok in Hs as (? & w1 & Hv & Hs). apply lift_ok in Hv as [_ ->].
  apply bind_ok in Hs as (sealed & w1 & Hc & Hs). unfold consume_proof in Hc.
  apply bind_ok in Hc as (? & w2 & Hv & Hc). apply lift_ok in Hv as [_ ->].
  apply bind_ok in Hc as (proofs & w2 & Hp & Hc). apply lift_ok in Hp as [Hp ->].
  apply bind_ok in Hc as ([sealed'|] & w2 & Ha & Hc); [|done]. injection Hc as <- <-.
  apply bind_ok in Hs as ([pending target] & w3 & Ho & Hs). apply lift_ok in Ho as [Ho ->].
  unfold open_pending in Ho. apply result_bind_ok in Ho as (state & Hst & Ho).
  destruct (String.eqb_spec (ss_method state) method) as [Hm|]; [|done]. cbn in Ho.
  destruct (Z.ltb_spec (ss_expires_at state) (now / TICKS)); [done|]. apply result_bind_ok in Ho as (pending' & Hpv & Ho).
  injection Ho as <- <-. apply ok_or_ok in Hpv.
  apply bind_ok in Hs as (address & w3 & Had & Hs). apply lift_ok in Had as [Had ->].
  apply bind_ok in Hs as (found & w4 & Hr & Hs). apply bind_ok in Hs as (user & w5 & Hu & Hs). apply lift_ok in Hu as [Hu ->].
  apply ok_or_ok in Hu as ->. apply lift_ok in Hs as [Hs ->]. unfold complete_user in Hs.
  destruct (bool_decide (pp_subject pending' = Some (au_subject user))) eqn:Hsub; [|done]. apply bool_decide_eq_true in Hsub.
  cbn in Hs. apply result_bind_ok in Hs as (? & _ & Hs). injection Hs as <-.
  exists proofs, sealed', w2, state, pending', address, user. by split_and!.
Qed.

Lemma otp_begin_later address target draws now w answer w' user prepared :
  otp_laws → otp_begin o method (InAddress address) target codec secrets (Some store) draws now w = (answer, w') →
  validate_address address = Ok tt → (ol_resolver o address w).1 = Ok user →
  prepared_new method target (address_text address) user (KindOfOtp (address_channel address) (ol_policy o))
    codec secrets draws now = Ok prepared →
  later w w' ∧ ∀ c, registered c w' → registered c w ∨ c = pr_challenge prepared.
Proof.
  intros A Hb Hva Hu Hp. pose proof (oa_preorder A). pose proof (oa_resolver A address w) as Hq.
  unfold otp_begin, bindM, liftR in Hb. cbn in Hb. rewrite Hva in Hb.
  destruct (ol_resolver o address w) as [r w1]. cbn in Hu, Hq. subst r. rewrite Hp in Hb.
  destruct (ps_begin store (pr_challenge prepared) w1) as [r w2] eqn:Hs. apply (oa_begin A) in Hs as [Hl Hr].
  destruct Hq as [Hl1 Hr1]. assert (w' = w2) as ->.
  { destruct r as [start|]; [destruct (validate_start prepared start)|]; by injection Hb. }
  split; [by trans w1|]. intros c Hc. destruct (Hr c Hc) as [?| ->]; [left; by apply Hr1|by right].
Qed.

Lemma proof_digests_bind id value value' d ds ds' :
  otp_laws → proof_digests secrets id value = Ok ds → proof_digests secrets id value' = Ok ds' → d ∈ ds → d ∈ ds' →
  value = value'.
Proof.
  intros A H1 H2 Hd Hd'. unfold proof_digests in *. apply result_bind_ok in H1 as (keys & Hk & H1). injection H1 as <-.
  rewrite Hk in H2. injection H2 as <-. apply list_elem_of_In, in_map_iff in Hd as (k & <- & _).
  apply list_elem_of_In, in_map_iff in Hd' as (k' & He & _). apply (oa_digest A) in He.
  assert (Hinj : ∀ a b c : string, a +:+ b = a +:+ c → b = c).
  { intros a b c. induction a as [|x a IH]; [done|]. change (String x a +:+ b) with (String x (a +:+ b)).
    change (String x a +:+ c) with (String x (a +:+ c)). intros [= He']. by apply IH. }
  apply Hinj in He. by injection He.
Qed.

Lemma otp_history_ok w begun completed :
  otp_laws → otp_history w begun completed →
  (∀ c, registered c w → foreign c ∨ ∃ b, b ∈ begun ∧ pr_challenge (ob_prepared b) = c) ∧
  (∀ b, b ∈ begun → prepared_ok b) ∧
  (∀ c, c ∈ completed → (∃ b, b ∈ begun ∧ otp_answers b c) ∧ spent (or_challenge_token (oc_response c)) w) ∧
  NoDup (List.map (λ c, or_challenge_token (oc_response c)) completed).
Proof.
  intros A. pose proof (oa_preorder A) as Hpre.
  induction 1 as [w Hf|w w' bs cs H IH Hl Hr|w w' bs cs address target draws now user prepared answer H IH Hn Hb Hva Hu Hp
                  |w w' bs cs response now done H IH Hc].
  - split_and!; [intros c Hc; left; by apply Hf|by intros b Hb%elem_of_nil|by intros c Hc%elem_of_nil|constructor].
  - destruct IH as (H0 & H1 & H2 & H3). split_and!; [|done| |done].
    + intros c Hc. destruct (Hr c Hc) as [Hc'|]; [by apply H0|by left].
    + intros c Hc. destruct (H2 c Hc). split; [done|]. by eapply (oa_stays A).
  - destruct IH as (H0 & H1 & H2 & H3). destruct (otp_begin_later _ _ _ _ _ _ _ _ _ A Hb Hva Hu Hp) as [Hl Hr]. clear Hb.
    apply prepared_new_ok in Hp; [|done]. split_and!; [| | |done].
    + intros c Hc. destruct (Hr c Hc) as [Hc'| ->].
      * destruct (H0 c Hc') as [?|(b & Hb & He)]; [by left|]. right. exists b. split; [by right|done].
      * right. eexists. split; [by left|done].
    + intros b Hb. apply elem_of_cons in Hb as [->|Hb]; [done|by apply H1].
    + intros c Hc. destruct (H2 c Hc) as [(b & Hb & ?) ?]. split; [exists b; split; [by right|done]|by eapply (oa_stays A)].
  - destruct IH as (H0 & H1 & H2 & H3).
    apply otp_complete_ok in Hc as (proofs & sealed & w1 & state & pending & address & user & Hd & Ha & Ho & Hm & Hexp & Hpv & Had & Hres & Hsub & ->).
    assert (Hq1 : quiet w w1) by exact (run_later quiet _ _ _ _ (oa_attempt A _ _) Ha).
    assert (Hq2 : quiet w1 w') by exact (run_later quiet _ _ _ _ (oa_resolver A _) Hres).
    apply (oa_accepts A) in Ha as (Hnot & Hspent & c & d & Hc & Hid & Hst & Hd1 & Hd2).
    assert (Hl : later w w') by (trans w1; [apply Hq1|apply Hq2]).
    assert (Hb : ∃ b, b ∈ bs ∧ pr_challenge (ob_prepared b) = c).
    { destruct (H0 c Hc) as [Hf|]; [|done]. exfalso. rewrite <- Hst in Ho. by apply (Hf state Ho). }
    destruct Hb as (b & Hb & <-). pose proof (H1 b Hb) as (code & payload & state' & Hcode & Hcid & Hpd & Hopen & Hmeth & Htarget & Hexpires & <- & Hpp).
    rewrite Hst in Hopen. rewrite Ho in Hopen. injection Hopen as <-.
    rewrite Hcid in Hid. rewrite <- Hid in Hd.
    pose proof (proof_digests_bind _ _ _ _ _ _ A Hd Hpd Hd2 Hd1) as Hvalue.
    rewrite Hpp in Hpv. injection Hpv as <-. cbn in *. rewrite address_read_back in Had. injection Had as <-.
    split_and!; [|done| |].
    + intros c Hc'. apply H0. apply Hq1, Hq2, Hc'.
    + intros c' Hc'. apply elem_of_cons in Hc' as [->|Hc'].
      * cbn. split; [|by eapply (oa_stays A); [exact Hspent|apply Hq2]]. exists b. split; [done|].
        destruct (ob_user b) as [account|] eqn:Hacc; [|done]. injection Hsub as Hsub.
        exists account, user, w1, w'. rewrite Htarget, <- Hexpires. cbn. by split_and!; try congruence.
      * destruct (H2 c' Hc'). split; [done|]. by eapply (oa_stays A).
    + cbn [List.map]. constructor; [|done]. intros Hi. apply list_elem_of_In, in_map_iff in Hi as (c' & He & Hc').
      apply list_elem_of_In in Hc'. destruct (H2 c' Hc') as [_ Hsp]. apply Hnot. cbn in He. by rewrite <- He.
Qed.

(** C23: whatever else uses the store, a login completed with a code was begun for
    an address that had an account then; the code is the one drawn for that
    beginning, presented before it expired; the address still belongs to the
    same account; the result carries the target of the beginning; and no
    challenge completes twice. An address without an account is given a
    challenge that completes nothing. *)
Theorem codes_complete_what_began w begun completed :
  otp_laws → otp_history w begun completed →
  (∀ c, c ∈ completed → ∃ b, b ∈ begun ∧ otp_answers b c) ∧
  NoDup (List.map (λ c, or_challenge_token (oc_response c)) completed).
Proof.
  intros A H. destruct (otp_history_ok _ _ _ A H) as (_ & _ & H2 & H3). split; [|done]. intros c Hc. by apply H2.
Qed.
End Passwordless.

(** ** Links *)

Section Links.
Context {W : Type} `{L : LoginExternals}.

(** The start of a stateful link hands out a link whatever the store decided, and
    for an address without an account: one that was suppressed, whose challenge
    the store does not hold, too. [challenge_response] hands out no code then. *)
Theorem suppressed_links_are_exposed (m : MagicLinkLogin (W := W)) method email target codec secrets store draws now callback
    w user w1 prepared start w2 :
  mg_stateful m = true → mg_callback_url m = Some callback → validate_email email = Ok tt →
  mg_resolver m email w = (Ok user, w1) →
  prepared_new method target email user (KindOfMagicLink callback) codec secrets draws now = Ok prepared →
  ps_begin store (pr_challenge prepared) w1 = (Ok start, w2) → st_issue start = false →
  ∃ link expires, magic_begin m method (InEmail email) target codec secrets (Some store) draws now w =
                    (Ok (ChallengeMagicLink (Some link) expires), w2).
Proof.
  intros Hst Hcb Hv Hr Hp Hb Hi. assert (∃ link, pr_link prepared = Some link ∧ pr_kind prepared = KindOfMagicLink callback) as (link & Hl & Hk).
  { unfold prepared_new in Hp. apply result_bind_ok in Hp as (drawn & Hd & Hp). cbn in Hd.
    apply result_bind_ok in Hd as (proof & _ & Hd). apply result_bind_ok in Hd as (link & _ & Hd). injection Hd as <-. cbn in Hp.
    apply result_bind_ok in Hp as (? & _ & Hp). apply result_bind_ok in Hp as (? & _ & Hp).
    apply result_bind_ok in Hp as (? & _ & Hp). apply result_bind_ok in Hp as (? & _ & Hp). injection Hp as <-. by exists link. }
  exists link, (i64_saturating (st_expires_at start - now / TICKS)). unfold magic_begin, bindM, liftR. cbn.
  rewrite Hv, Hr, Hst. cbn. rewrite Hcb. cbn. rewrite Hp, Hb. unfold validate_start. rewrite Hi. cbn.
  unfold retM, challenge_response. by rewrite Hk, Hl.
Qed.
End Links.

(** ** Logins of a site *)

Module LoginDemo.
#[local] Instance PendingMfa_eq_dec : EqDecision PendingMfa.
Proof. solve_decision. Defined.
#[local] Instance PendingPasswordless_eq_dec : EqDecision PendingPasswordless.
Proof. solve_decision. Defined.

Definition target : LoginTarget := {| lt_provider := "site"; lt_audiences := ["api"%string] |}.
Definition pending_mfa : PendingMfa := {| pm_subject := "ann"; pm_scopes := []; pm_methods := [Totp]; pm_auth_time := 36000 |}.
Definition pending_otp : PendingPasswordless :=
  {| pp_identifier := "+4912345"; pp_subject := Some "ann"%string; pp_method := "code"; pp_channel := "phone" |}.
Definition states : list (string * SealedLoginState) :=
  [("first"%string, {| ss_version := 2; ss_state_id := "i1"; ss_method := "mfa"; ss_target := target; ss_expires_at := 36300;
                ss_payload := JString "mfa" |});
   ("second"%string, {| ss_version := 3; ss_state_id := "c1"; ss_method := "code"; ss_target := target; ss_expires_at := 36600;
                 ss_payload := JString "code" |})].
Definition state_fields (s : SealedLoginState) :=
  (ss_version s, ss_state_id s, ss_method s, lt_provider (ss_target s), lt_audiences (ss_target s), ss_expires_at s).
Definition same_state (s s' : SealedLoginState) : bool :=
  bool_decide (state_fields s = state_fields s') &&
  match ss_payload s, ss_payload s' with JString a, JString b => String.eqb a b | _, _ => false end.
Lemma same_state_eq s s' : same_state s s' = true → s = s'.
Proof.
  unfold same_state, state_fields. intros [Hf%bool_decide_eq_true Hp]%andb_true_iff.
  destruct s as [? ? ? [] ? x], s' as [? ? ? [] ? y]. cbn in *. destruct x, y; try done. apply String.eqb_eq in Hp. by simplify_eq.
Qed.

Fixpoint filler (n : nat) : string := match n with O => "" | S n => String (Ascii.ascii_of_nat 65) (filler n) end.
Lemma filler_length n : String.length (filler n) = n.
Proof. induction n as [|n IH]; cbn; [done|by rewrite IH]. Qed.

(** A seal puts the key before the text, and the encoding letters after it. *)
#[export] Instance login_externals : LoginExternals := {|
  state_to_vec s := match List.find (λ e, same_state e.2 s) states with Some (text, _) => Some text | None => None end;
  state_from_slice text := match List.find (λ e, String.eqb e.1 text) states with Some (_, s) => Some s | None => None end;
  mfa_to_value p := if bool_decide (p = pending_mfa) then Some (JString "mfa") else None;
  mfa_from_value v := match v with JString "mfa" => Some pending_mfa | _ => None end;
  passwordless_to_value p := if bool_decide (p = pending_otp) then Some (JString "code") else None;
  passwordless_from_value v := match v with JString "code" => Some pending_otp | _ => None end;
  aead_key k := str_len k =? TAG_LENGTH;
  aead_seal k _ p := if str_len k =? TAG_LENGTH then Some (k +:+ p) else None;
  aead_open k _ c := if (str_len k =? TAG_LENGTH) && String.prefix k c
                     then Some (String.substring 16 (String.length c - 16) c) else None;
  base64url b := b +:+ filler (Z.to_nat ((4 * str_len b + 2) / 3) - String.length b);
  base64url_decode s := Some (String.substring 0 (Z.to_nat (3 * str_len s / 4)) s);
  hmac_sha256 _ m := m;
  hkdf_sha256 material _ _ := Some (String.substring 0 16 (material +:+ filler 16));
  uuid_ok _ := true;
  mailbox_ok _ := true;
  url_parse s := Some {| url_host := Some "example.com"%string; url_loopback := false; url_username := "";
                         url_password := None; url_query := None; url_fragment := None; url_scheme := "https" |};
  url_with_token callback token := callback +:+ "?token=" +:+ token;
|}.

Lemma prefix_app k s : String.prefix k (k +:+ s) = true.
Proof.
  induction k as [|c k IH]; [by destruct s|]. change (String c k +:+ s) with (String c (k +:+ s)). cbn.
  by destruct (Ascii.ascii_dec c c).
Qed.
Lemma prefix_same_length k k' s : String.length k = String.length k' → String.prefix k' (k +:+ s) = true → k' = k.
Proof.
  revert k'. induction k as [|c k IH]; intros [|c' k'] Hl Hp; try done. change (String c k +:+ s) with (String c (k +:+ s)) in Hp.
  cbn in *. destruct (Ascii.ascii_dec c' c) as [->|]; [|done]. f_equal. apply IH; [by injection Hl|done].
Qed.

Lemma padded_length b :
  str_len (b +:+ filler (Z.to_nat ((4 * str_len b + 2) / 3) - String.length b)) = (4 * str_len b + 2) / 3.
Proof.
  rewrite str_len_app. unfold str_len at 2. rewrite filler_length. unfold str_len.
  Z.to_euclidean_division_equations. lia.
Qed.

Lemma padded_prefix b (padded := b +:+ filler (Z.to_nat ((4 * str_len b + 2) / 3) - String.length b)) :
  String.substring 0 (Z.to_nat (3 * str_len padded / 4)) padded = b.
Proof.
  unfold padded at 1. rewrite padded_length.
  replace (Z.to_nat (3 * ((4 * str_len b + 2) / 3) / 4)) with (String.length b); [apply substring_prefix|].
  unfold str_len. Z.to_euclidean_division_equations. lia.
Qed.

#[export] Instance login_laws : LoginLaws login_externals.
Proof.
  split.
  - intros s p. cbn -[same_state states]. destruct (List.find (λ e, same_state e.2 s) states) as [[text s']|] eqn:Hf; [|done].
    intros [= <-]. apply find_some in Hf as [Hin Hs]. apply same_state_eq in Hs. cbn in Hs. subst s'.
    destruct Hin as [[= <- <-]|[[= <- <-]|[]]]; done.
  - intros k n p c. cbn. destruct (Z.eqb_spec (str_len k) TAG_LENGTH) as [Hk|]; [|done]. intros [= <-].
    rewrite prefix_app. cbn. unfold TAG_LENGTH in *. assert (Hl : String.length k = 16%nat) by (unfold str_len in Hk; lia).
    rewrite string_length_app, str_len_app, Hl. replace (16 + String.length p - 16)%nat with (String.length p) by lia.
    rewrite <- Hl, substring_suffix. split; [done|lia].
  - intros k k' n p c. cbn. destruct (Z.eqb_spec (str_len k) TAG_LENGTH) as [Hk|]; [|done]. intros [= <-] Hne.
    destruct (Z.eqb_spec (str_len k') TAG_LENGTH) as [Hk'|]; [|done]. cbn.
    destruct (String.prefix k' (k +:+ p)) eqn:Hp; [|done]. destruct Hne. eapply prefix_same_length; [|exact Hp].
    unfold str_len in *. lia.
  - intros b. exact (f_equal Some (padded_prefix b)).
  - intros b. apply padded_length.
  - intros p v. cbn. case_bool_decide as Hp; [|done]. by intros [= <-]; subst.
  - intros p v. cbn. case_bool_decide as Hp; [|done]. by intros [= <-]; subst.
Qed.

(** The site's keys before and after its secret was replaced. *)
Definition old_secrets : SecretRing := {| sr_active := "0123456789abcdef-old"; sr_fallbacks := [] |}.
Definition new_secrets : SecretRing := {| sr_active := "fedcba9876543210-new"; sr_fallbacks := ["0123456789abcdef-old"%string] |}.
Definition old_codec : ChallengeCodec :=
  {| cc_active := "0123456789abcdef"; cc_verification := ["0123456789abcdef"%string] |}.
Definition new_codec : ChallengeCodec :=
  {| cc_active := "fedcba9876543210"; cc_verification := ["fedcba9876543210"; "0123456789abcdef"]%string |}.
Definition nonce : string := "twelve-bytes".
Definition opens (codec : ChallengeCodec) (sealed : result AuthError string) (state : SealedLoginState) : bool :=
  match sealed with Ok token => match challenge_open codec token with Ok s => same_state s state | Err _ => false end | Err _ => false end.
Definition mfa_sealed_state : SealedLoginState :=
  {| ss_version := 2; ss_state_id := "i1"; ss_method := "mfa"; ss_target := target; ss_expires_at := 36300;
     ss_payload := JString "mfa" |}.
Definition mfa_token : string := match challenge_seal old_codec mfa_sealed_state (Some nonce) with Ok token => token | Err _ => "" end.

(** A second factor: the store keeps the ids it consumed. *)
Definition account_ann : AuthUser := auth_user_new "ann".
Definition consumed_ids : LoginStateStore (W := list string) :=
  λ id _ w, if bool_decide (id ∈ w) then (Ok false, w) else (Ok true, id :: w).
Definition two_factors : PasswordMfaRuntime (W := list string) := {|
  mf_primary username password := if String.eqb username "ann" && String.eqb password "pw" then retM account_ann else throwM InvalidCredential;
  mf_input := PrimaryPassword;
  mf_factors := mfa_allow Totp (mfa_new (λ _, retM [RecoveryCode; Totp])
                  (λ user response, if String.eqb (mr_answer response) "123456" then retM user else throwM InvalidCredential)) |}.
Definition mfa_draws : LoginDraws := {| ld_id := "i1"; ld_nonce := Some nonce; ld_blocks := []; ld_secret := None |}.
Definition ann_password : LoginInput := InPassword {| pc_username := "ann"; pc_password := "pw" |}.
Definition ann_factor : MfaResponse := {| mr_challenge_token := mfa_token; mr_method := Totp; mr_answer := "123456" |}.
Definition ann_done : CompletedLogin :=
  {| cl_login := {| vl_user := with_scopes [] account_ann; vl_methods := ["password"; "totp"]%string; vl_auth_time := Some 36000;
                    vl_acr := Some "urn:vyuh:acr:mfa"%string |};
     cl_target := target |}.

Lemma two_factors_laws : mfa_laws two_factors consumed_ids (⊆@{list string}) (λ id w, id ∈ w).
Proof.
  split.
  - apply _.
  - intros u p w. cbn. by destruct (_ && _).
  - intros u w. reflexivity.
  - intros u a w. cbn. by destruct (String.eqb _ _).
  - intros id e w. unfold consumed_ids. case_bool_decide; [done|]. cbn. intros x Hx. by right.
  - intros id w w' Hin Hs. by apply Hs.
  - intros id e w w'. unfold consumed_ids. case_bool_decide; [done|]. intros [= <-]. split; [done|by left].
Qed.

(** A code: the store keeps its challenges and the ids that were spent. *)
Definition Challenges : Type := list PasswordlessChallenge * list string.
Definition keeps_spent (w w' : Challenges) : Prop := w.2 ⊆ w'.2.
Definition once_only : PasswordlessStore (W := Challenges) := {|
  ps_begin c := λ w, (Ok {| st_challenge_id := ch_id c; st_expires_at := ch_expires_at c; st_next_issue_at := ch_next_issue_at c;
                            st_issue := true |}, (c :: w.1, w.2));
  ps_attempt id proofs := λ w,
    match List.find (λ c, String.eqb (ch_id c) id && existsb (λ d, bool_decide (d ∈ proofs)) (ch_proofs c)) w.1 with
    | Some c => if bool_decide (id ∈ w.2) then (Ok AttemptRejected, w) else (Ok (AttemptAccepted (ch_state c)), (w.1, id :: w.2))
    | None => (Ok AttemptRejected, w)
    end |}.
Definition codes : OtpLogin (W := Challenges) := otp_new (λ a, retM (match a with AddressPhone _ => Some account_ann | AddressEmail _ => None end)).
Definition ann_phone : PasswordlessAddress := AddressPhone "+4912345".
Definition code_draws : LoginDraws :=
  {| ld_id := "c1"; ld_nonce := Some nonce; ld_blocks := [Some [4; 8; 255; 15; 16; 23; 42]]; ld_secret := None |}.
Definition code_prepared : result AuthError PreparedChallenge :=
  prepared_new "code" target "+4912345" (Some account_ann) (KindOfOtp "phone" (OtpNumeric 6)) old_codec old_secrets code_draws
    TokenDemo.morning.
Definition ann_code : OtpResponse := {| or_challenge_token := "c1"; or_code := "485632" |}.

Lemma once_only_laws :
  otp_laws codes once_only keeps_spent (λ id w, id ∈ w.2) (λ c w, c ∈ w.1).
Proof.
  split.
  - split; [intros w x Hx; exact Hx|intros w w' w'' H1 H2 x Hx; by apply H2, H1].
  - intros a w. split; [intros x Hx; exact Hx|done].
  - intros id proofs w. cbn. destruct (List.find _ w.1) as [c|]; [case_bool_decide|]; cbn; split; try done; intros x Hx; first [exact Hx|by right].
  - intros c w answer w' [= <- <-]. cbn. split; [intros x Hx; exact Hx|]. intros c' [->|Hc]%elem_of_cons; [by right|by left].
  - intros id w w' Hin Hl. by apply Hl.
  - intros id proofs state w w'. cbn. destruct (List.find _ w.1) as [c|] eqn:Hf; [|done]. case_bool_decide as Hs; [done|].
    intros [= <- <-]. apply find_some in Hf as [Hin [Hid Hd]%andb_true_iff]. apply existsb_exists in Hd as (d & Hd & Hp).
    apply String.eqb_eq in Hid. apply bool_decide_eq_true in Hp. split_and!; [done|by left|]. exists c, d.
    rewrite <- !list_elem_of_In in *. by split_and!.
  - done.
Qed.
End LoginDemo.

Section LoginWitnesses.
Import LoginDemo.

Lemma otp_codes_are_uniform_witness :
  otp_policy_validate (OtpNumeric 6) = Ok tt ∧ random_code (OtpNumeric 6) [Some [10; 251; 12; 250]; Some [23; 34; 45; 56]] = Ok "023456"%string ∧
  byte_count (OtpNumeric 6) (Ascii.ascii_of_nat 48) = byte_count (OtpNumeric 6) (Ascii.ascii_of_nat 57).
Proof.
  split; [reflexivity|]. split; [vm_compute; reflexivity|].
  apply (otp_codes_are_uniform (OtpNumeric 6) [] eq_refl); apply list_elem_of_In; vm_compute; tauto.
Defined.

Lemma sealed_states_open_witness : challenge_open new_codec mfa_token = Ok mfa_sealed_state.
Proof.
  apply (sealed_states_open old_secrets new_secrets old_codec new_codec mfa_sealed_state nonce mfa_token).
  - vm_compute. reflexivity.
  - vm_compute. reflexivity.
  - apply list_elem_of_In. right. left. reflexivity.
  - repeat constructor.
  - reflexivity.
  - vm_compute. reflexivity.
Defined.

Lemma mfa_logins_complete_what_began_witness :
  ∃ begun, mfa_answers two_factors old_codec begun {| mc_response := ann_factor; mc_now := TokenDemo.morning + 60 * TICKS; mc_done := ann_done |}.
Proof.
  set (begun := {| mb_input := ann_password; mb_target := target; mb_now := TokenDemo.morning; mb_state := mfa_sealed_state |}).
  set (done := {| mc_response := ann_factor; mc_now := TokenDemo.morning + 60 * TICKS; mc_done := ann_done |}).
  destruct (mfa_logins_complete_what_began two_factors "mfa"%string old_codec consumed_ids (⊆@{list string}) (λ id w, id ∈ w)
    ["i1"%string] [begun] [done] two_factors_laws) as [H _].
  - apply (mfa_completes _ _ _ _ _ [] _ [begun] [] ann_factor (TokenDemo.morning + 60 * TICKS) ann_done).
    + eapply (mfa_begins _ _ _ _ _ [] [] [] [] ann_password target mfa_draws TokenDemo.morning mfa_sealed_state);
        [constructor|vm_compute; reflexivity|vm_compute; reflexivity].
    + intros state Ho _. exists begun. split; [by left|]. vm_compute in Ho. injection Ho as <-. reflexivity.
    + vm_compute. reflexivity.
  - destruct (H done) as (b & _ & Hb); [by left|]. by exists b.
Defined.

Lemma codes_complete_what_began_witness :
  ∃ begun done, otp_answers codes begun {| oc_response := ann_code; oc_now := TokenDemo.morning + 60 * TICKS; oc_done := done |}.
Proof.
  assert (Hcodec : codec_new old_secrets = Ok old_codec) by (vm_compute; reflexivity).
  assert (Hkeys : Forall (λ k, aead_key k = true) (cc_verification old_codec)) by repeat constructor.
  destruct code_prepared as [prepared|] eqn:Hp; [|vm_compute in Hp; discriminate Hp].
  set (begun := {| ob_address := ann_phone; ob_user := Some account_ann; ob_target := target; ob_draws := code_draws;
                   ob_now := TokenDemo.morning; ob_prepared := prepared |}).
  set (result := {| cl_login := verified_new account_ann "otp" (TokenDemo.morning + 60 * TICKS); cl_target := target |}).
  set (done := {| oc_response := ann_code; oc_now := TokenDemo.morning + 60 * TICKS; oc_done := result |}).
  destruct (codes_complete_what_began codes "code"%string old_secrets old_codec once_only keeps_spent (λ id w, id ∈ w.2)
    (λ c w, c ∈ w.1) Hcodec Hkeys ([pr_challenge prepared], ["c1"%string]) [begun] [done]
    once_only_laws) as [H _].
  - apply (otp_completes _ _ _ _ _ _ _ ([pr_challenge prepared], []) _ [begun] [] ann_code
             (TokenDemo.morning + 60 * TICKS) result).
    + eapply (otp_begins _ _ _ _ _ _ _ ([], []) _ [] [] ann_phone target code_draws TokenDemo.morning (Some account_ann) prepared).
      * constructor. intros c Hc. by apply elem_of_nil in Hc.
      * intros n [= <-]. reflexivity.
      * vm_compute in Hp. injection Hp as <-. vm_compute. reflexivity.
      * reflexivity.
      * reflexivity.
      * exact Hp.
    + vm_compute in Hp. injection Hp as <-. vm_compute. reflexivity.
  - destruct (H done) as (b & _ & Hb); [by left|]. by exists b, result.
Defined.
End LoginWitnesses.
