(* ===== verification/Emitters.v ===== *)
(** * Emitters: configuration and registry ([emitters.rs])

    An emitter is a source of values of one payload type: a cron expression, an
    interval or a database notification, with the handler that produces the
    value. The [cron] crate is the parameter [CronExternals]; a handler is its
    operation's name. *)
From S2P Require Import Prelude Externals Failure Config Models Transitions Lifecycle.
From S2P Require Import MemoryState Claims Atomic Json Metrics Registry Submission Client RegistryFacts.
From S2P Require Import Debounce ChannelTypes.
#[local] Open Scope Z_scope.

(** ** The [cron] crate *)

Class CronExternals := {
  CronSchedule : Type;
  (** [Schedule::from_str], its error as text, and [Display]. *)
  cron_parse : string → result string CronSchedule;
  cron_display : CronSchedule → string;
  (** [schedule.after(&t).next()]. *)
  cron_after : CronSchedule → DateTime → option DateTime;
  (** The range of [DateTime<Utc>] in milliseconds, outside which
      [timestamp_millis_opt(ms).single()] answers nothing. *)
  timestamp_millis_min : Z;
  timestamp_millis_max : Z }.

(** A schedule is displayed as the expression it was parsed from, and its next
    occurrence is the least of the times it names that is later. *)
Class CronLaws (R : CronExternals) := {
  cron_display_parses expression s : cron_parse expression = Ok s → cron_parse (cron_display s) = Ok s;
  cron_occurs : CronSchedule → DateTime → Prop;
  cron_after_spec s t u : cron_after s t = Some u ↔ cron_occurs s u ∧ t < u ∧ ∀ v, cron_occurs s v → t < v → u ≤ v;
  cron_after_some s t u : cron_occurs s u → t < u → is_Some (cron_after s t);
  (** The epoch is a date. *)
  timestamp_millis_epoch : timestamp_millis_min ≤ 0 }.

Definition MILLISECOND : Z := 1000000.
(** [timestamp_millis], rounded towards the past. *)
Definition timestamp_millis (t : DateTime) : Z := t / MILLISECOND.
Definition i64_checked_mul (a b : Z) : option Z :=
  if (a * b <=? I64_MAX) && (I64_MIN <=? a * b) then Some (a * b) else None.

(** ** Configuration *)

Inductive EmitterExecutor := ExecSignal | ExecTask.
#[export] Instance EmitterExecutor_eq_dec : EqDecision EmitterExecutor.
Proof. solve_decision. Defined.

Inductive ScheduleStart := StartNext | StartImmediately.
#[export] Instance ScheduleStart_eq_dec : EqDecision ScheduleStart.
Proof. solve_decision. Defined.
Definition start_text (s : ScheduleStart) : string :=
  match s with StartNext => "next" | StartImmediately => "immediately" end.

Record EmitterConf := {
  ec_notify_channel_capacity : Z;
  ec_max_in_flight_handlers : Z;
  ec_pgnotify_reconnect_initial_ms : Z;
  ec_pgnotify_reconnect_max_ms : Z }.
Definition emitter_conf_default : EmitterConf :=
  {| ec_notify_channel_capacity := 1024; ec_max_in_flight_handlers := 64;
     ec_pgnotify_reconnect_initial_ms := 250; ec_pgnotify_reconnect_max_ms := 30000 |}.
Definition notify_channel_capacity (c : EmitterConf) : Z := Z.max (ec_notify_channel_capacity c) 1.
Definition max_in_flight_handlers (c : EmitterConf) : Z := Z.max (ec_max_in_flight_handlers c) 1.
Definition reconnect_initial_ms (c : EmitterConf) : Z := Z.max (ec_pgnotify_reconnect_initial_ms c) 1.
Definition reconnect_max_ms (c : EmitterConf) : Z :=
  Z.max (ec_pgnotify_reconnect_max_ms c) (reconnect_initial_ms c).

Inductive EmitterError :=
  | PgNotifyError (text : string)
  | CronError (text : string)
  | EmitterAlreadyExists
  | InvalidDebounce (text : string)
  | InvalidSchedule (text : string)
  | MissingTaskTarget (schedule type_name : string)
  | EmitterOther (text : string)
  | EmitterCallError (text : string).

Record CronConf := {
  cn_expr : string; cn_executor : EmitterExecutor; cn_schedule : option string; cn_start : ScheduleStart }.
Definition cron_conf_new (expr : string) : CronConf :=
  {| cn_expr := expr; cn_executor := ExecSignal; cn_schedule := None; cn_start := StartNext |}.
Definition cron_executor (executor : EmitterExecutor) (c : CronConf) : CronConf :=
  {| cn_expr := cn_expr c; cn_executor := executor; cn_schedule := cn_schedule c; cn_start := cn_start c |}.
Definition cron_schedule (name : string) (c : CronConf) : CronConf :=
  {| cn_expr := cn_expr c; cn_executor := cn_executor c; cn_schedule := Some name; cn_start := cn_start c |}.
Definition cron_on_start (start : ScheduleStart) (c : CronConf) : CronConf :=
  {| cn_expr := cn_expr c; cn_executor := cn_executor c; cn_schedule := cn_schedule c; cn_start := start |}.

Record PeriodicConf := {
  pd_interval : Duration; pd_executor : EmitterExecutor; pd_schedule : option string; pd_start : ScheduleStart }.
Definition periodic_conf_new (interval : Duration) : PeriodicConf :=
  {| pd_interval := interval; pd_executor := ExecSignal; pd_schedule := None; pd_start := StartNext |}.
Definition periodic_executor (executor : EmitterExecutor) (c : PeriodicConf) : PeriodicConf :=
  {| pd_interval := pd_interval c; pd_executor := executor; pd_schedule := pd_schedule c;
     pd_start := pd_start c |}.
Definition periodic_schedule (name : string) (c : PeriodicConf) : PeriodicConf :=
  {| pd_interval := pd_interval c; pd_executor := pd_executor c; pd_schedule := Some name;
     pd_start := pd_start c |}.
Definition periodic_on_start (start : ScheduleStart) (c : PeriodicConf) : PeriodicConf :=
  {| pd_interval := pd_interval c; pd_executor := pd_executor c; pd_schedule := pd_schedule c;
     pd_start := start |}.

Record PgNotifyConf := { pg_channel : string; pg_debounce : option DebounceConf }.

(** [DebounceMode::from_str]. *)
Definition debounce_mode_from_str (value : string) : result EmitterError DebounceMode :=
  let value := to_ascii_lowercase value in
  if bool_decide (value = "leading"%string) then Ok Leading
  else if bool_decide (value = "trailing"%string) then Ok Trailing
  else if bool_decide (value ∈ ["leading_trailing"; "leading-and-trailing"; "leading+trailing"]%string)
  then Ok LeadingAndTrailing
  else Err (InvalidDebounce ("unsupported debounce mode '" +:+ value +:+ "'")).

Definition validate_debounce (conf : DebounceConf) : result EmitterError unit :=
  if debounce_is_valid conf then Ok tt else Err (InvalidDebounce "window must be greater than zero").

(** ** Emitters *)

Record TaskSchedule := { sd_name : string; sd_start : ScheduleStart }.

Inductive EmitterKey := KeySignal (t : TypeId) (source : N) | KeyTaskSchedule (name : string).
#[export] Instance EmitterKey_eq_dec : EqDecision EmitterKey.
Proof. solve_decision. Defined.
#[export] Instance EmitterKey_countable : Countable EmitterKey.
Proof.
  refine (inj_countable' (λ k, match k with KeySignal t n => inl (t, n) | KeyTaskSchedule s => inr s end)
            (λ x, match x with inl (t, n) => KeySignal t n | inr s => KeyTaskSchedule s end) _).
  by intros [].
Defined.

Definition schedule_from_parts (configured : option string) (handler_name : string) (start : ScheduleStart) :
    result EmitterError (option TaskSchedule) :=
  let name := default handler_name configured in
  if (str_len name =? 0) || (191 <? char_count name)
  then Err (InvalidSchedule "task schedule names must contain between 1 and 191 characters")
  else Ok (Some {| sd_name := name; sd_start := start |}).

(** [task_schedule] and [task_schedule_periodic], which read the same three fields. *)
Definition task_schedule (executor : EmitterExecutor) (schedule : option string) (start : ScheduleStart)
    (handler_name : string) : result EmitterError (option TaskSchedule) :=
  if bool_decide (executor = ExecSignal) then
    if bool_decide (is_Some schedule) || negb (bool_decide (start = StartNext))
    then Err (InvalidSchedule "schedule and start apply only to task executors")
    else Ok None
  else schedule_from_parts schedule handler_name start.

Section Emitters.
Context `{R : CronExternals}.

Inductive EmitterSource :=
  | SourceCron (schedule : CronSchedule) (handler : string)
  | SourcePeriodic (interval : Duration) (handler : string)
  | SourcePgNotify (channel : string) (handler : string) (debounce : option DebounceConf).
Definition discriminant (s : EmitterSource) : N :=
  match s with SourceCron _ _ => 0 | SourcePeriodic _ _ => 1 | SourcePgNotify _ _ _ => 2 end%N.

Record Emitter := {
  em_type_id : TypeId;
  em_type_name : string;
  em_executor : EmitterExecutor;
  em_schedule : option TaskSchedule;
  em_source : EmitterSource }.

Definition emitter_key (e : Emitter) : EmitterKey :=
  match em_schedule e with
  | Some schedule => KeyTaskSchedule (sd_name schedule)
  | None => KeySignal (em_type_id e) (discriminant (em_source e))
  end.

(** The three constructors, for values of the type [t]. *)
Definition cron (t : TypeId) (type_name handler : string) (options : CronConf) : result EmitterError Emitter :=
  let? schedule := task_schedule (cn_executor options) (cn_schedule options) (cn_start options) handler in
  match cron_parse (cn_expr options) with
  | Ok parsed => Ok {| em_type_id := t; em_type_name := type_name; em_executor := cn_executor options;
                       em_schedule := schedule; em_source := SourceCron parsed handler |}
  | Err text => Err (CronError text)
  end.

Definition periodic (t : TypeId) (type_name handler : string) (options : PeriodicConf) :
    result EmitterError Emitter :=
  if pd_interval options =? 0
  then Err (InvalidSchedule "periodic intervals must be greater than zero")
  else
    let? schedule := task_schedule (pd_executor options) (pd_schedule options) (pd_start options) handler in
    Ok {| em_type_id := t; em_type_name := type_name; em_executor := pd_executor options;
          em_schedule := schedule; em_source := SourcePeriodic (pd_interval options) handler |}.

Definition pgnotify (t : TypeId) (type_name handler : string) (options : PgNotifyConf) :
    result EmitterError Emitter :=
  let? _ := match pg_debounce options with Some debounce => validate_debounce debounce | None => Ok tt end in
  Ok {| em_type_id := t; em_type_name := type_name; em_executor := ExecSignal; em_schedule := None;
        em_source := SourcePgNotify (pg_channel options) handler (pg_debounce options) |}.

(** ** The registry *)

Definition EmitterRegistry : Type := gmap EmitterKey Emitter.
Definition emitter_registry_new : EmitterRegistry := ∅.

Definition emitter_register (e : Emitter) : M EmitterRegistry EmitterError unit :=
  do! r := getM in
  let key := emitter_key e in
  if bool_decide (is_Some (r !! key)) then throwM EmitterAlreadyExists
  else modifyM (λ r, <[key := e]> r).

Definition merge_emitter (entry : EmitterKey * Emitter) : M EmitterRegistry EmitterError unit :=
  let '(key, e) := entry in
  do! r := getM in
  if bool_decide (is_Some (r !! key)) then throwM EmitterAlreadyExists
  else modifyM (λ r, <[key := e]> r).
Definition emitter_merge (other : EmitterRegistry) : M EmitterRegistry EmitterError unit :=
  for_eachM (map_to_list other) merge_emitter.

(** The source and expression of a task schedule. *)
Definition schedule_expression (s : EmitterSource) : result EmitterError (string * string) :=
  match s with
  | SourceCron schedule _ => Ok ("cron"%string, cron_display schedule)
  | SourcePeriodic interval _ =>
      let milliseconds := as_millis interval in
      if milliseconds =? 0
      then Err (InvalidSchedule "task periodic intervals must be at least one millisecond")
      else Ok ("periodic"%string, pretty milliseconds)
  | SourcePgNotify _ _ _ => Err (InvalidSchedule "pgnotify emitters cannot submit durable tasks")
  end.

Definition task_schedule_conf (tasks : TaskRegistry) (e : Emitter) : result EmitterError TaskScheduleConf :=
  match em_schedule e with
  | None => Err (InvalidSchedule "task executor is missing schedule metadata")
  | Some schedule =>
      match rg_typed_map tasks !! em_type_id e with
      | None => Err (MissingTaskTarget (sd_name schedule) (em_type_name e))
      | Some task =>
          let? expression := schedule_expression (em_source e) in
          Ok {| ts_name := sd_name schedule; ts_task := task; ts_source := expression.1;
                ts_expression := expression.2; ts_start := start_text (sd_start schedule) |}
      end
  end.

(** The emitters that submit tasks, in the order the map is walked. *)
Definition task_emitters (r : EmitterRegistry) : list Emitter :=
  List.filter (λ e, bool_decide (em_executor e = ExecTask)) (map_to_list r).*2.

Fixpoint collect_schedules (tasks : TaskRegistry) (l : list Emitter) :
    result EmitterError (list TaskScheduleConf) :=
  match l with
  | [] => Ok []
  | e :: l =>
      let? conf := task_schedule_conf tasks e in
      let? confs := collect_schedules tasks l in Ok (conf :: confs)
  end.
Definition task_schedules (tasks : TaskRegistry) (r : EmitterRegistry) :
    result EmitterError (list TaskScheduleConf) := collect_schedules tasks (task_emitters r).

(** ** When a schedule is due next *)

(** The boundary of an interval after a time, on the grid of the UTC epoch. *)
Definition periodic_boundary (after : DateTime) (interval : Duration) : result EmitterError DateTime :=
  match i64_try_from (as_millis interval) with
  | None => Err (InvalidSchedule "periodic interval exceeds the supported range")
  | Some milliseconds =>
      if milliseconds <=? 0
      then Err (InvalidSchedule "task periodic intervals must be at least one millisecond")
      else
        match i64_checked_add (timestamp_millis after / milliseconds) 1 with
        | None => Err (InvalidSchedule "periodic boundary overflowed")
        | Some slot =>
            match i64_checked_mul slot milliseconds with
            | None => Err (InvalidSchedule "periodic boundary overflowed")
            | Some next =>
                if (timestamp_millis_min <=? next) && (next <=? timestamp_millis_max) then Ok (next * MILLISECOND)
                else Err (InvalidSchedule "periodic boundary is invalid")
            end
        end
  end.

Definition next_cron_schedule (expression : string) (after : DateTime) : result EmitterError DateTime :=
  match cron_parse expression with
  | Err text => Err (CronError text)
  | Ok schedule => ok_or (cron_after schedule after) (InvalidSchedule "cron expression has no next occurrence")
  end.
Definition next_periodic_schedule (expression : string) (after : DateTime) : result EmitterError DateTime :=
  match parse_u64 expression with
  | None => Err (InvalidSchedule "periodic interval is invalid")
  | Some milliseconds => periodic_boundary after (from_millis milliseconds)
  end.
Definition next_task_schedule (schedule : TaskScheduleConf) (after : DateTime) : result EmitterError DateTime :=
  if bool_decide (ts_source schedule = "cron"%string) then next_cron_schedule (ts_expression schedule) after
  else if bool_decide (ts_source schedule = "periodic"%string)
  then next_periodic_schedule (ts_expression schedule) after
  else Err (InvalidSchedule "task schedule has an unsupported source").
End Emitters.

(** ** What registration promises *)

Section EmitterFacts.
Context `{R : CronExternals}.

Definition schedule_name_ok (name : string) : Prop := name ≠ ""%string ∧ char_count name ≤ 191.

(** A source a constructor accepts. *)
Definition source_ok (e : Emitter) : Prop :=
  match em_source e with
  | SourceCron schedule _ => ∃ expression, cron_parse expression = Ok schedule
  | SourcePeriodic interval _ => 0 < interval
  | SourcePgNotify _ _ debounce =>
      em_executor e = ExecSignal ∧ ∀ c, debounce = Some c → dc_window c ≠ 0
  end.
Definition emitter_ok (e : Emitter) : Prop :=
  source_ok e ∧
  match em_executor e, em_schedule e with
  | ExecTask, Some schedule => schedule_name_ok (sd_name schedule)
  | ExecSignal, None => True
  | _, _ => False
  end.

(** An emitter of a program; an interval is a [Duration], never negative. *)
Inductive constructed : Emitter → Prop :=
  | constructed_cron t type_name handler options e :
      cron t type_name handler options = Ok e → constructed e
  | constructed_periodic t type_name handler options e :
      0 ≤ pd_interval options → periodic t type_name handler options = Ok e → constructed e
  | constructed_pgnotify t type_name handler options e :
      pgnotify t type_name handler options = Ok e → constructed e.

(** A registry a program can build; what failed left what it had done. *)
Inductive emitters_built : EmitterRegistry → Prop :=
  | built_empty : emitters_built emitter_registry_new
  | built_register e r : constructed e → emitters_built r → emitters_built (emitter_register e r).2
  | built_merge other r : emitters_built other → emitters_built r → emitters_built (emitter_merge other r).2.

Lemma str_len_zero s : str_len s = 0 ↔ s = ""%string.
Proof. unfold str_len. destruct s; cbn; split; intros H; (done || lia). Qed.

Lemma task_schedule_ok executor schedule start handler d :
  task_schedule executor schedule start handler = Ok d →
  match executor, d with
  | ExecTask, Some s => schedule_name_ok (sd_name s) ∧ s = {| sd_name := default handler schedule; sd_start := start |}
  | ExecSignal, None => True
  | _, _ => False
  end.
Proof.
  unfold task_schedule, schedule_from_parts. case_bool_decide as Hx.
  - subst executor. destruct (bool_decide (is_Some schedule) || _); [done|]. by intros [= <-].
  - destruct executor; [done|].
    destruct (str_len _ =? 0) eqn:Hz; [done|]. destruct (191 <? char_count _) eqn:Hc; [done|]. cbn.
    intros [= <-]. cbn. split; [|done]. split; [|lia]. rewrite <- str_len_zero. lia.
Qed.

Lemma constructed_ok e : constructed e → emitter_ok e.
Proof.
  intros H. unfold emitter_ok, source_ok. destruct H as [t n h o e H|t n h o e Hd H|t n h o e H].
  - apply result_bind_ok in H as (d & Hd & H%id). apply task_schedule_ok in Hd.
    destruct (cron_parse (cn_expr o)) as [p|] eqn:Hp; [|done]. injection H as <-. cbn. split; [eauto|].
    destruct (cn_executor o), d; tauto.
  - unfold periodic in H. destruct (pd_interval o =? 0) eqn:Hz; [done|].
    apply result_bind_ok in H as (d & Hs & [= <-]). apply task_schedule_ok in Hs. cbn. split; [lia|].
    destruct (pd_executor o), d; tauto.
  - apply result_bind_ok in H as (? & Hv & [= <-]). cbn. split; [|done]. split; [done|].
    intros c Hc. rewrite Hc in Hv. unfold validate_debounce, debounce_is_valid in Hv.
    destruct (Z.eqb_spec (dc_window c) 0); [done|done].
Qed.

Definition registry_keyed (r : EmitterRegistry) : Prop := ∀ k e, r !! k = Some e → emitter_key e = k ∧ emitter_ok e.

Lemma keyed_insert k e r : emitter_key e = k → emitter_ok e → registry_keyed r → registry_keyed (<[k := e]> r).
Proof.
  unfold registry_keyed, EmitterRegistry in *. intros Hk He Hr k' e' H.
  apply lookup_insert_Some in H as [[<- <-]|[_ H]]; [done|by apply Hr].
Qed.

Lemma built_keyed r : emitters_built r → registry_keyed r.
Proof.
  induction 1 as [|e r Hc _ IH|other r _ IHo _ IH]; [by intros ? ? ?| |].
  - unfold emitter_register, bindM, getM. cbn. case_bool_decide; [done|]. cbn.
    apply keyed_insert; [done|by apply constructed_ok|done].
  - apply (for_each_keeps registry_keyed (λ entry : EmitterKey * Emitter, emitter_key entry.2 = entry.1 ∧ emitter_ok entry.2)).
    + intros [k e] r' [Hk He] Hr. unfold merge_emitter, bindM, getM. cbn in *.
      case_bool_decide; [done|]. by apply keyed_insert.
    + apply Forall_forall. intros [k e] Hin. unfold EmitterRegistry in *.
      apply elem_of_map_to_list in Hin. by apply IHo.
    + done.
Qed.

(** Whatever a program registers and merges, and whether it succeeds or
    fails, its registry holds under each key the emitter of that key, accepted by
    its constructor: two signal emitters never share a payload type and a kind of
    source, two task schedules never a name, names have between one and 191
    characters, intervals are positive, and only task emitters have a schedule.
    Registering succeeds exactly when the key is free, and changes nothing else. *)
Theorem emitter_registry_is_keyed r :
  emitters_built r →
  (∀ k e, r !! k = Some e → emitter_key e = k ∧ emitter_ok e) ∧
  (∀ k k' e e', r !! k = Some e → r !! k' = Some e' →
     em_schedule e = None → em_schedule e' = None → em_type_id e = em_type_id e' →
     discriminant (em_source e) = discriminant (em_source e') → e = e') ∧
  (∀ k k' e e' s s', r !! k = Some e → r !! k' = Some e' →
     em_schedule e = Some s → em_schedule e' = Some s' → sd_name s = sd_name s' → e = e') ∧
  (∀ e, emitter_register e r =
     match r !! emitter_key e with
     | Some _ => (Err EmitterAlreadyExists, r)
     | None => (Ok tt, <[emitter_key e := e]> r)
     end).
Proof.
  intros Hb%built_keyed. split_and!; [exact Hb|..].
  - intros k k' e e' H H' Hs Hs' Ht Hd. destruct (Hb _ _ H) as [Hk _], (Hb _ _ H') as [Hk' _].
    unfold emitter_key in *. rewrite Hs in Hk. rewrite Hs', <- Ht, <- Hd in Hk'. congruence.
  - intros k k' e e' s s' H H' Hs Hs' Hn. destruct (Hb _ _ H) as [Hk _], (Hb _ _ H') as [Hk' _].
    unfold emitter_key in *. rewrite Hs in Hk. rewrite Hs', <- Hn in Hk'. congruence.
  - intros e. unfold emitter_register, bindM, getM. cbn.
    destruct (r !! emitter_key e); case_bool_decide as Hx; [done| |destruct Hx; done|done].
    exfalso; eauto.
Qed.
End EmitterFacts.
