(* ===== verification/Schedules.v ===== *)
(** * Durable schedules ([emitters/scheduled.rs])

    One worker per task schedule and node: it sleeps until an occurrence,
    produces the task's input under a permit of the emitters, submits it, and
    submits it again until the store answers. [ScheduleSystem] is any number of
    workers of one schedule, on any number of nodes, over the in-memory store. *)
From S2P Require Import Prelude Externals Failure Config Models Transitions Lifecycle.
From S2P Require Import MemoryState Claims Atomic Json Metrics Registry Submission Client RegistryFacts.
From S2P Require Import Debounce ChannelTypes StoreSpec RegistryTheorems Emitters.
#[local] Open Scope Z_scope.

Definition SECOND : Duration := 1000000000.
Definition INITIAL_RETRY : Duration := 1 * SECOND.
Definition MAX_RETRY : Duration := 60 * SECOND.
(** [retry.saturating_mul(2).min(MAX_RETRY)]; saturation is far above the minimum. *)
Definition next_retry (retry : Duration) : Duration := Z.min (retry * 2) MAX_RETRY.

Section Workers.
Context `{X : Externals, R : CronExternals}.

Record ScheduleWork := {
  wk_source : Emitter;
  wk_cursor : option DateTime;
  wk_startup_time : DateTime;
  wk_iteration : Z;
  wk_last_time : option Z }.
Definition schedule_work_new (source : Emitter) (cursor : option DateTime) (startup_time : DateTime) :
    ScheduleWork :=
  {| wk_source := source; wk_cursor := cursor; wk_startup_time := startup_time; wk_iteration := 0;
     wk_last_time := None |}.

Definition missing_schedule : EmitterError := InvalidSchedule "missing task schedule metadata".
Definition schedule_of (e : Emitter) : result EmitterError TaskSchedule := ok_or (em_schedule e) missing_schedule.

Fixpoint schedule_names (sources : list Emitter) : result EmitterError (list string) :=
  match sources with
  | [] => Ok []
  | e :: sources =>
      let? schedule := schedule_of e in
      let? names := schedule_names sources in Ok (sd_name schedule :: names)
  end.
Definition cursor_for (source : Emitter) (cursors : gmap string DateTime) : result EmitterError (option DateTime) :=
  let? schedule := schedule_of source in Ok (cursors !! sd_name schedule).

(** [ScheduleWork::next_deadline] and [handler], of the source alone. *)
Definition source_next (source : EmitterSource) (after : DateTime) : result EmitterError DateTime :=
  match source with
  | SourceCron schedule _ =>
      ok_or (cron_after schedule after) (InvalidSchedule "cron expression has no next occurrence")
  | SourcePeriodic interval _ => periodic_boundary after interval
  | SourcePgNotify _ _ _ => Err (InvalidSchedule "pgnotify cannot use a task executor")
  end.
Definition source_handler (source : EmitterSource) : result EmitterError string :=
  match source with
  | SourceCron _ handler | SourcePeriodic _ handler => Ok handler
  | SourcePgNotify _ _ _ => Err (InvalidSchedule "pgnotify cannot use a task executor")
  end.
Definition work_next (w : ScheduleWork) (after : DateTime) : result EmitterError DateTime :=
  source_next (em_source (wk_source w)) after.

Definition initial_deadline (w : ScheduleWork) (now : DateTime) : result EmitterError DateTime :=
  let? schedule := schedule_of (wk_source w) in
  match wk_cursor w, sd_start schedule with
  | None, StartImmediately => Ok now
  | None, StartNext => work_next w now
  | Some cursor, _ =>
      let? next := work_next w cursor in
      if next <=? now then Ok now else work_next w now
  end.

Definition schedule_retry_deadline (delay : Duration) (now : DateTime) : DateTime :=
  default now (match td_from_std delay with Some value => checked_add_signed now value | None => None end).

(** ** One worker *)

Record PendingSubmission := { pn_name : string; pn_occurrence : DateTime; pn_payload : Payload }.

(** Where [run] is: in its [select], waiting for a permit, in the handler, in
    the submission, or returned. *)
Inductive WorkerPhase :=
  | Asleep
  | Wanting (occurrence : DateTime)
  | Producing (occurrence : DateTime)
  | Submitting (pending : PendingSubmission)
  | Ended.

Record Worker := {
  wr_work : ScheduleWork;
  wr_next : DateTime;
  wr_retry : Duration;
  wr_pending : option PendingSubmission;
  wr_phase : WorkerPhase }.

Definition put_phase (phase : WorkerPhase) (w : Worker) : Worker :=
  {| wr_work := wr_work w; wr_next := wr_next w; wr_retry := wr_retry w; wr_pending := wr_pending w;
     wr_phase := phase |}.
(** Back to [select] until [next]. *)
Definition sleep_until (next : DateTime) (retry : Duration) (pending : option PendingSubmission) (w : Worker) :
    Worker :=
  {| wr_work := wr_work w; wr_next := next; wr_retry := retry; wr_pending := pending; wr_phase := Asleep |}.

(** [run] up to the loop; an error is logged and ends it. *)
Definition worker_start (work : ScheduleWork) : option Worker :=
  match initial_deadline work (wk_startup_time work) with
  | Ok next => Some {| wr_work := work; wr_next := next; wr_retry := INITIAL_RETRY; wr_pending := None;
                       wr_phase := Asleep |}
  | Err _ => None
  end.

(** The sleep ends once the clock reaches the deadline; a pending payload is submitted again. *)
Definition worker_wake (now : DateTime) (w : Worker) : option Worker :=
  match wr_phase w with
  | Asleep =>
      if wr_next w <=? now
      then Some {| wr_work := wr_work w; wr_next := wr_next w; wr_retry := wr_retry w; wr_pending := None;
                   wr_phase := match wr_pending w with
                               | Some pending => Submitting pending
                               | None => Wanting (wr_next w)
                               end |}
      else None
  | _ => None
  end.
Definition worker_stop (w : Worker) : option Worker :=
  match wr_phase w with Asleep => Some (put_phase Ended w) | _ => None end.
Definition worker_acquire (w : Worker) : option Worker :=
  match wr_phase w with Wanting occurrence => Some (put_phase (Producing occurrence) w) | _ => None end.

(** The retry of an error and of a refused submission. *)
Definition worker_retry (pending : option PendingSubmission) (now : DateTime) (w : Worker) : Worker :=
  sleep_until (schedule_retry_deadline (wr_retry w) now) (next_retry (wr_retry w)) pending w.

(** The handler returned, at the wall clock [now] and the instant [at_]. *)
Definition worker_produced (answer : result string Payload) (now : DateTime) (at_ : Z) (w : Worker) :
    option Worker :=
  match wr_phase w with
  | Producing occurrence =>
      let work := wr_work w in
      Some (match source_handler (em_source (wk_source work)), answer with
            | Ok _, Ok payload =>
                let w := {| wr_work := {| wk_source := wk_source work; wk_cursor := wk_cursor work;
                                          wk_startup_time := wk_startup_time work;
                                          wk_iteration := u64_wrapping_add (wk_iteration work) 1;
                                          wk_last_time := Some at_ |};
                            wr_next := wr_next w; wr_retry := wr_retry w; wr_pending := wr_pending w;
                            wr_phase := wr_phase w |} in
                match schedule_of (wk_source work) with
                | Ok schedule => put_phase (Submitting {| pn_name := sd_name schedule; pn_occurrence := occurrence;
                                                          pn_payload := payload |}) w
                | Err _ => worker_retry None now w
                end
            | _, _ => worker_retry None now w
            end)
  | _ => None
  end.

(** The store answered. *)
Definition worker_submitted (accepted : bool) (now : DateTime) (w : Worker) : option Worker :=
  match wr_phase w with
  | Submitting pending =>
      Some (if accepted then
              match work_next (wr_work w) now with
              | Ok next => sleep_until next INITIAL_RETRY None w
              | Err _ => put_phase Ended w
              end
            else worker_retry (Some pending) now w)
  | _ => None
  end.

(** The loop of [start]: the workers of a node, from one snapshot of the cursors. *)
Fixpoint start_works (sources : list Emitter) (snapshot : TaskScheduleSnapshot) :
    result EmitterError (list ScheduleWork) :=
  match sources with
  | [] => Ok []
  | e :: sources =>
      let? cursor := cursor_for e (ss_cursors snapshot) in
      let? works := start_works sources snapshot in
      Ok (schedule_work_new e cursor (ss_now snapshot) :: works)
  end.
End Workers.

(** ** The workers of one schedule over the in-memory store *)

Section System.
Context `{X : Externals, R : CronExternals}.

Record ScheduleSystem := { sc_state : MemoryState; sc_workers : list Worker }.

(** A submission the store accepted: its occurrence, and when. *)
Record Accepted := { ap_occurrence : DateTime; ap_at : DateTime }.

Inductive ScheduleLabel :=
  (** A node starts its worker from a snapshot of the cursors. *)
  | SStart (now : DateTime)
  | SWake (i : nat) (now : DateTime)
  | SAcquire (i : nat)
  | SProduced (i : nat) (answer : result string Payload) (now : DateTime) (at_ : Z)
  (** The submission of [write], the record of the payload, or one that never reached the store. *)
  | SSubmit (i : nat) (write : TaskWrite) (now : DateTime)
  | SRefused (i : nat) (now : DateTime)
  | SStop (i : nat)
  (** Anything else that happens to the store leaves the cursor alone. *)
  | SOther (state : MemoryState).

Definition put_workers (v : list Worker) (s : ScheduleSystem) : ScheduleSystem :=
  {| sc_state := sc_state s; sc_workers := v |}.
Definition worker_step (i : nat) (f : Worker → option Worker) (s : ScheduleSystem) : option ScheduleSystem :=
  match sc_workers s !! i with
  | Some w => match f w with Some w => Some (put_workers (<[i := w]> (sc_workers s)) s) | None => None end
  | None => None
  end.

(** [submit_scheduled] of the store, by the worker at [i]. *)
Definition submit_step (i : nat) (write : TaskWrite) (now : DateTime) (s : ScheduleSystem) :
    option (list Accepted * ScheduleSystem) :=
  match sc_workers s !! i with
  | Some w =>
      match wr_phase w with
      | Submitting pending =>
          let '(answer, state) :=
            store_scheduled {| sw_name := pn_name pending; sw_occurrence := pn_occurrence pending;
                               sw_write := write |} now (sc_state s) in
          match worker_submitted (is_ok answer) now w with
          | Some w => Some (match answer with
                            | Ok (Some _) => [{| ap_occurrence := pn_occurrence pending; ap_at := now |}]
                            | _ => []
                            end,
                            {| sc_state := state; sc_workers := <[i := w]> (sc_workers s) |})
          | None => None
          end
      | _ => None
      end
  | None => None
  end.

Definition schedule_step (e : Emitter) (name : string) (l : ScheduleLabel) (s : ScheduleSystem) :
    option (list Accepted * ScheduleSystem) :=
  match l with
  | SStart now =>
      let work := schedule_work_new e (ms_schedules (sc_state s) !! name) now in
      Some ([], put_workers (sc_workers s ++ match worker_start work with Some w => [w] | None => [] end) s)
  | SWake i now => match worker_step i (worker_wake now) s with Some s => Some ([], s) | None => None end
  | SAcquire i => match worker_step i worker_acquire s with Some s => Some ([], s) | None => None end
  | SProduced i answer now at_ =>
      match worker_step i (worker_produced answer now at_) s with Some s => Some ([], s) | None => None end
  | SSubmit i write now => submit_step i write now s
  | SRefused i now =>
      match worker_step i (worker_submitted false now) s with Some s => Some ([], s) | None => None end
  | SStop i => match worker_step i worker_stop s with Some s => Some ([], s) | None => None end
  | SOther state =>
      if bool_decide (ms_schedules state !! name = ms_schedules (sc_state s) !! name)
      then Some ([], {| sc_state := state; sc_workers := sc_workers s |}) else None
  end.

Fixpoint schedule_run (e : Emitter) (name : string) (ls : list ScheduleLabel) (s : ScheduleSystem) :
    option (list Accepted * ScheduleSystem) :=
  match ls with
  | [] => Some ([], s)
  | l :: ls =>
      match schedule_step e name l s with
      | Some (out, s) =>
          match schedule_run e name ls s with Some (outs, s) => Some (out ++ outs, s) | None => None end
      | None => None
      end
  end.

(** The clock a step reads, and clocks that never go back. *)
Definition label_clock (l : ScheduleLabel) : option DateTime :=
  match l with
  | SStart now | SWake _ now | SProduced _ _ now _ | SSubmit _ _ now | SRefused _ now => Some now
  | SAcquire _ | SStop _ | SOther _ => None
  end.
Fixpoint clocks_from (t : DateTime) (ls : list ScheduleLabel) : Prop :=
  match ls with
  | [] => True
  | l :: ls => match label_clock l with Some now => t ≤ now ∧ clocks_from now ls | None => clocks_from t ls end
  end.
Definition produces (l : ScheduleLabel) : Prop :=
  match l with SProduced _ answer _ _ => is_ok answer = true | _ => True end.

(** ** The grid of a schedule *)

(** The boundary after a time: in whole milliseconds of the epoch. *)
Definition boundary_millis (after : DateTime) (ms : Z) : Z := (timestamp_millis after / ms + 1) * ms.

Lemma boundary_millis_next after ms :
  0 < ms → after < boundary_millis after ms * MILLISECOND ≤ after + ms * MILLISECOND.
Proof.
  intros Hms. unfold boundary_millis, timestamp_millis, MILLISECOND.
  pose proof (Z.div_mod after 1000000 ltac:(done)). pose proof (Z.mod_pos_bound after 1000000 ltac:(done)).
  pose proof (Z.div_mod (after / 1000000) ms ltac:(lia)).
  pose proof (Z.mod_pos_bound (after / 1000000) ms ltac:(lia)). lia.
Qed.

Definition date_millis (ms : Z) : Prop :=
  I64_MIN ≤ ms ≤ I64_MAX ∧ timestamp_millis_min ≤ ms ≤ timestamp_millis_max.

Lemma i64_checked_mul_Some a b c : i64_checked_mul a b = Some c ↔ c = a * b ∧ I64_MIN ≤ a * b ≤ I64_MAX.
Proof.
  unfold i64_checked_mul. destruct (_ && _) eqn:He; split; [|by intros [-> _]|done|lia].
  intros [= <-]. lia.
Qed.
Lemma i64_checked_add_Some a b c : i64_checked_add a b = Some c ↔ c = a + b ∧ I64_MIN ≤ a + b ≤ I64_MAX.
Proof.
  unfold i64_checked_add. destruct (_ && _) eqn:He; split; [|by intros [-> _]|done|lia].
  intros [= <-]. lia.
Qed.

Lemma periodic_boundary_ok after interval next :
  periodic_boundary after interval = Ok next ↔
  let ms := as_millis interval in
  0 < ms ≤ I64_MAX ∧ next = boundary_millis after ms * MILLISECOND ∧ date_millis (boundary_millis after ms).
Proof.
  cbv zeta. set (ms := as_millis interval). unfold periodic_boundary, i64_try_from. fold ms.
  destruct ((I64_MIN <=? ms) && (ms <=? I64_MAX)) eqn:Hr.
  2: { split; [done|]. intros (H & _). unfold I64_MIN in Hr. lia. }
  destruct (ms <=? 0) eqn:Hz; [split; [done|lia]|].
  assert (Hms : 0 < ms ≤ I64_MAX) by lia. clear Hr. unfold date_millis.
  destruct (i64_checked_add _ 1) as [slot|] eqn:Ha.
  - apply i64_checked_add_Some in Ha as [-> Ha].
    destruct (i64_checked_mul _ ms) as [n|] eqn:Hm.
    + apply i64_checked_mul_Some in Hm as [-> Hm]. fold (boundary_millis after ms) in *.
      destruct (_ && _) eqn:Hv; split; [|by intros (_ & -> & _)|done|lia].
      intros [= <-]. split; [done|]. split; [done|lia].
    + split; [done|]. intros (_ & _ & Hd & _). unfold boundary_millis in Hd.
      assert (Hs : i64_checked_mul (timestamp_millis after / ms + 1) ms = Some ((timestamp_millis after / ms + 1) * ms))
        by (by apply i64_checked_mul_Some). congruence.
  - split; [done|]. intros (_ & _ & Hd & _). unfold boundary_millis in Hd.
    assert (Hs : i64_checked_add (timestamp_millis after / ms) 1 = Some (timestamp_millis after / ms + 1)).
    { apply i64_checked_add_Some. split; [done|]. unfold I64_MIN, I64_MAX in *. nia. }
    congruence.
Qed.

Lemma source_next_later `{!CronLaws R} source t b : source_next source t = Ok b → t < b.
Proof.
  destruct source as [s h|d h|c h o]; cbn; [| |done].
  - intros H%ok_or_ok. by apply cron_after_spec in H as (_ & H & _).
  - intros (Hms & -> & _)%periodic_boundary_ok. apply boundary_millis_next. lia.
Qed.

(** An occurrence that is still to come bounds the next one. *)
Lemma source_next_grid `{!CronLaws R} source t t' b' :
  0 ≤ t → source_next source t' = Ok b' → t < b' → ∃ b, source_next source t = Ok b ∧ t < b ≤ b'.
Proof.
  intros Ht Hb Hlt. destruct source as [s h|d h|c h o]; cbn in *; [| |done].
  - apply ok_or_ok in Hb. apply cron_after_spec in Hb as (Ho & _ & _).
    destruct (cron_after_some s t b' Ho Hlt) as [b Hn]. exists b. rewrite Hn. split; [done|].
    apply cron_after_spec in Hn as (_ & ? & Hleast). split; [done|]. by apply Hleast.
  - apply periodic_boundary_ok in Hb as (Hms & -> & Hd). set (ms := as_millis d) in *.
    pose proof (boundary_millis_next t ms ltac:(lia)) as Hn.
    assert (Hq : 0 ≤ timestamp_millis t) by (apply Z.div_pos; [done|unfold MILLISECOND; lia]).
    assert (Hle : boundary_millis t ms ≤ boundary_millis t' ms).
    { unfold boundary_millis in *. set (q := timestamp_millis t / ms) in *. set (q' := timestamp_millis t' / ms) in *.
      assert (q ≤ q'); [|nia].
      assert (timestamp_millis t < (q' + 1) * ms) by (apply Z.div_lt_upper_bound; unfold MILLISECOND in *; lia).
      assert (q < q' + 1) by (apply Z.div_lt_upper_bound; lia). lia. }
    assert (Hpos : 0 ≤ boundary_millis t ms).
    { unfold boundary_millis. pose proof (Z.div_pos (timestamp_millis t) ms Hq ltac:(lia)). nia. }
    exists (boundary_millis t ms * MILLISECOND). split; [|unfold MILLISECOND in *; lia].
    apply periodic_boundary_ok. split; [done|]. split; [done|]. pose proof timestamp_millis_epoch.
    change (as_millis d) with ms. unfold date_millis in *. split; [|lia].
    unfold I64_MIN in *. lia.
Qed.

(** A boundary is the next multiple of the interval on the UTC epoch, in whole
    milliseconds: strictly after the time asked for and at most one interval
    later. It is refused exactly when the interval is not a positive number of
    64-bit milliseconds or the boundary is no date. *)
Theorem periodic_boundary_is_next after interval :
  let unit := as_millis interval * MILLISECOND in
  match periodic_boundary after interval with
  | Ok next => (unit | next) ∧ after < next ≤ after + unit ∧ date_millis (next / MILLISECOND)
  | Err _ => 0 < as_millis interval ≤ I64_MAX →
      ∀ next, (unit | next) → after < next ≤ after + unit → ¬ date_millis (next / MILLISECOND)
  end.
Proof.
  cbv zeta. destruct (periodic_boundary after interval) as [next|e] eqn:Hb.
  - apply periodic_boundary_ok in Hb as (Hms & -> & Hd). split_and!.
    + exists (timestamp_millis after / as_millis interval + 1). unfold boundary_millis. lia.
    + apply boundary_millis_next. lia.
    + apply boundary_millis_next. lia.
    + by rewrite Z.div_mul.
  - intros Hms next [k ->] Hn Hd. set (ms := as_millis interval) in *.
    assert (Hk : k * (ms * MILLISECOND) = boundary_millis after ms * MILLISECOND).
    { pose proof (boundary_millis_next after ms ltac:(lia)) as Hx. unfold boundary_millis in *.
      set (q := timestamp_millis after / ms + 1) in *. unfold MILLISECOND in *. assert (k = q) by nia. lia. }
    rewrite Hk, Z.div_mul in Hd by done.
    assert (Hok : periodic_boundary after interval = Ok (boundary_millis after ms * MILLISECOND))
      by (by apply periodic_boundary_ok).
    congruence.
Qed.

(** ** One submission per slot *)

Definition cursor_of (name : string) (s : ScheduleSystem) : option DateTime := ms_schedules (sc_state s) !! name.

Definition on_grid (source : EmitterSource) (o : DateTime) : Prop := ∃ x, source_next source x = Ok o.

(** An occurrence is on the grid, or makes up for one since the cursor. *)
Definition slot_ok (source : EmitterSource) (cursor : option DateTime) (t o : DateTime) : Prop :=
  on_grid source o ∨
  (o ≤ t ∧ ∀ c, cursor = Some c → c < o → ∃ b, source_next source c = Ok b ∧ b ≤ o).

Definition pending_ok (e : Emitter) (name : string) (cursor : option DateTime) (t : DateTime)
    (p : PendingSubmission) : Prop :=
  pn_name p = name ∧ pn_occurrence p ≤ t ∧ slot_ok (em_source e) cursor t (pn_occurrence p).

Definition worker_ok (e : Emitter) (name : string) (cursor : option DateTime) (t : DateTime) (w : Worker) : Prop :=
  wk_source (wr_work w) = e ∧
  match wr_phase w with
  | Asleep =>
      match wr_pending w with
      | Some p => pending_ok e name cursor t p
      | None => slot_ok (em_source e) cursor t (wr_next w)
      end
  | Wanting o | Producing o => o ≤ t ∧ slot_ok (em_source e) cursor t o
  | Submitting p => pending_ok e name cursor t p
  | Ended => True
  end.

Record schedule_ok (e : Emitter) (name : string) (t : DateTime) (s : ScheduleSystem) : Prop := {
  so_time : 0 ≤ t;
  so_cursor c : cursor_of name s = Some c → 0 ≤ c ≤ t;
  so_workers : Forall (worker_ok e name (cursor_of name s) t) (sc_workers s) }.

(** Time passes, and the cursor moves to the present. *)
Lemma slot_ok_later source cursor cursor' t t' o :
  (cursor' = cursor ∨ cursor' = Some t') → t ≤ t' → slot_ok source cursor t o → slot_ok source cursor' t' o.
Proof.
  intros Hc Ht [H|[Ho H]]; [by left|]. right. split; [lia|]. intros c Hcur Hlt.
  destruct Hc as [->| ->]; [by apply H|]. injection Hcur as <-. lia.
Qed.

Lemma pending_ok_later e name cursor cursor' t t' p :
  (cursor' = cursor ∨ cursor' = Some t') → t ≤ t' → pending_ok e name cursor t p → pending_ok e name cursor' t' p.
Proof. intros Hc Ht (Hn & Ho & H). split; [done|]. split; [lia|]. by apply (slot_ok_later _ cursor _ t). Qed.

Lemma worker_ok_later e name cursor cursor' t t' w :
  (cursor' = cursor ∨ cursor' = Some t') → t ≤ t' → worker_ok e name cursor t w → worker_ok e name cursor' t' w.
Proof.
  intros Hc Ht [He H]. split; [done|]. destruct (wr_phase w) as [|o|o|p|].
  - destruct (wr_pending w); [by apply (pending_ok_later _ _ cursor _ t)|by apply (slot_ok_later _ cursor _ t)].
  - destruct H as [Ho H]. split; [lia|]. by apply (slot_ok_later _ cursor _ t).
  - destruct H as [Ho H]. split; [lia|]. by apply (slot_ok_later _ cursor _ t).
  - by apply (pending_ok_later _ _ cursor _ t).
  - done.
Qed.

Lemma workers_ok_later e name cursor cursor' t t' ws :
  (cursor' = cursor ∨ cursor' = Some t') → t ≤ t' →
  Forall (worker_ok e name cursor t) ws → Forall (worker_ok e name cursor' t') ws.
Proof. intros Hc Ht H. eapply Forall_impl; [exact H|]. intros w. by apply worker_ok_later. Qed.

Lemma initial_deadline_ok e name cursor now next :
  initial_deadline (schedule_work_new e cursor now) now = Ok next →
  worker_ok e name cursor now
    {| wr_work := schedule_work_new e cursor now; wr_next := next; wr_retry := INITIAL_RETRY;
       wr_pending := None; wr_phase := Asleep |}.
Proof.
  intros H. apply result_bind_ok in H as (s & _ & H). split; [done|]. cbn in *.
  destruct cursor as [c|].
  - destruct (sd_start s); apply result_bind_ok in H as (b & Hb & H); unfold work_next in *; cbn in *;
      (destruct (b <=? now) eqn:Hle;
       [injection H as <-; right; split; [done|]; intros c' [= <-] _; exists b; split; [done|lia]|left; by exists now]).
  - destruct (sd_start s); [left; by exists now|]. injection H as <-. right. by split.
Qed.

Lemma worker_wake_ok e name cursor t now w w' :
  t ≤ now → worker_ok e name cursor t w → worker_wake now w = Some w' → worker_ok e name cursor now w'.
Proof.
  intros Ht Hw%(worker_ok_later _ _ _ cursor _ now); [|by left|done]. unfold worker_wake. destruct Hw as [He H].
  destruct (wr_phase w); try done. destruct (wr_next w <=? now) eqn:Hle; [|done]. intros [= <-]. split; [done|]. cbn.
  destruct (wr_pending w); [done|]. split; [lia|done].
Qed.

Lemma worker_produced_ok e name s cursor t now at_ payload w w' :
  em_schedule e = Some s → sd_name s = name → (∃ h, source_handler (em_source e) = Ok h) →
  t ≤ now → worker_ok e name cursor t w → worker_produced (Ok payload) now at_ w = Some w' →
  worker_ok e name cursor now w'.
Proof.
  intros Hs Hn [h Hh] Ht Hw%(worker_ok_later _ _ _ cursor _ now); [|by left|done].
  unfold worker_produced. destruct Hw as [He H].
  destruct (wr_phase w); try done. rewrite He, Hh. unfold schedule_of. rewrite Hs. cbn. intros [= <-].
  split; [done|]. by split.
Qed.

Lemma worker_submitted_ok e name cursor t now accepted w w' :
  t ≤ now → worker_ok e name cursor t w → worker_submitted accepted now w = Some w' → worker_ok e name cursor now w'.
Proof.
  intros Ht Hw%(worker_ok_later _ _ _ cursor _ now); [|by left|done]. unfold worker_submitted. destruct Hw as [He H].
  destruct (wr_phase w) as [|o|o|p|] eqn:Hp; try done. destruct accepted; intros [= <-]; [|by split].
  unfold work_next. rewrite He. destruct (source_next (em_source e) now) as [next|] eqn:Hn; split; try done.
  cbn. left. by exists now.
Qed.

(** What a scheduled submission does to the cursors. *)
Lemma store_scheduled_cursor scheduled now s answer s' :
  store_scheduled scheduled now s = (answer, s') →
  match answer with
  | Ok (Some _) =>
      ms_schedules s' = <[sw_name scheduled := Z.max now (sw_occurrence scheduled)]> (ms_schedules s) ∧
      ∀ c, ms_schedules s !! sw_name scheduled = Some c → c < sw_occurrence scheduled
  | _ => s' = s
  end.
Proof.
  unfold store_scheduled. rewrite bindM_get.
  destruct (match ms_schedules s !! sw_name scheduled with Some last => _ | None => false end) eqn:Hb;
    [by intros [= <- <-]|].
  rewrite bindM_liftR. destruct (validate_write_lanes _ _); [|by intros [= <- <-]].
  destruct (stage_write _ _ _ _) as [[receipt|err] staged]; [|by intros [= <- <-]].
  rewrite !bindM_modify. intros [= <- <-]. cbn. split; [done|]. intros c Hc. rewrite Hc in Hb. lia.
Qed.

(** A step of one worker that shows nothing. *)
Lemma worker_step_ok e name t now i f s s' :
  (∀ w w', worker_ok e name (cursor_of name s) t w → f w = Some w' → worker_ok e name (cursor_of name s) now w') →
  t ≤ now → schedule_ok e name t s → worker_step i f s = Some s' →
  schedule_ok e name now s' ∧ cursor_of name s' = cursor_of name s.
Proof.
  intros Hf Ht [Htime Hcur Hws]. unfold worker_step. destruct (sc_workers s !! i) as [w|] eqn:Hi; [|done].
  destruct (f w) as [w'|] eqn:Hw; [|done]. intros [= <-]. split; [|done].
  split; [lia|intros c Hc; apply Hcur in Hc; lia|]. cbn. apply Forall_insert.
  - eapply workers_ok_later; [by left|exact Ht|exact Hws].
  - apply (Hf w); [|done]. by eapply Forall_lookup_1.
Qed.

(** A worker of a task schedule. *)
Record scheduled (e : Emitter) (name : string) : Prop := {
  sh_schedule : ∃ s, em_schedule e = Some s ∧ sd_name s = name;
  sh_handler : ∃ h, source_handler (em_source e) = Ok h }.

Lemma emitter_scheduled e name s :
  emitter_ok e → em_executor e = ExecTask → em_schedule e = Some s → sd_name s = name → scheduled e name.
Proof.
  intros [Hs _] Hx Hd Hn. split; [by exists s|]. unfold source_ok in Hs.
  destruct (em_source e); cbn; [by eexists..|]. destruct Hs as [Hs _]. congruence.
Qed.

(** An accepted submission is in a slot after the cursor, which it moves to the present. *)
Definition accepted_ok (e : Emitter) (cursor : option DateTime) (a : Accepted) : Prop :=
  ap_occurrence a ≤ ap_at a ∧
  ∀ c, cursor = Some c → ∃ b, source_next (em_source e) c = Ok b ∧ c < b ≤ ap_occurrence a.

Definition step_shows (e : Emitter) (name : string) (out : list Accepted) (s s' : ScheduleSystem) : Prop :=
  match out with
  | [] => cursor_of name s' = cursor_of name s
  | [a] => accepted_ok e (cursor_of name s) a ∧ cursor_of name s' = Some (ap_at a)
  | _ => False
  end.

Lemma submit_step_ok `{!CronLaws R} e name t i write now s out s' :
  t ≤ now → schedule_ok e name t s → submit_step i write now s = Some (out, s') →
  schedule_ok e name now s' ∧ step_shows e name out s s'.
Proof.
  intros Ht Hok. unfold submit_step. destruct (sc_workers s !! i) as [w|] eqn:Hi; [|done].
  destruct (wr_phase w) as [|o|o|p|] eqn:Hp; try done.
  destruct (store_scheduled _ now (sc_state s)) as [answer st] eqn:Hst.
  apply store_scheduled_cursor in Hst. cbn in Hst.
  destruct (worker_submitted (is_ok answer) now w) as [w'|] eqn:Hw; [|done]. intros [= <- <-].
  pose proof Hok as [Htime Hcur Hws].
  assert (Hworker : worker_ok e name (cursor_of name s) t w) by (by eapply Forall_lookup_1).
  assert (Hpend : pending_ok e name (cursor_of name s) t p) by (destruct Hworker as [_ Hx]; by rewrite Hp in Hx).
  destruct Hpend as (Hname & Ho & Hslot).
  assert (Hw' : worker_ok e name (cursor_of name s) now w') by (by eapply worker_submitted_ok).
  assert (Hsame : ∀ l, schedule_ok e name now {| sc_state := sc_state s; sc_workers := <[i := w']> (sc_workers s) |} ∧
                  step_shows e name [] s {| sc_state := sc_state s; sc_workers := l |}).
  { intros l. split; [|done]. split; [lia|intros c Hc; apply Hcur in Hc; lia|]. cbn. apply Forall_insert; [|done].
    eapply workers_ok_later; [by left|exact Ht|exact Hws]. }
  destruct answer as [[receipt|]|err]; [|subst st; by apply Hsame..]. destruct Hst as [Hst Hlast].
  assert (Hnew : cursor_of name {| sc_state := st; sc_workers := <[i := w']> (sc_workers s) |} = Some now).
  { unfold cursor_of. cbn. rewrite Hst, Hname, lookup_insert_eq. f_equal. lia. }
  rewrite Hname in Hlast. unfold step_shows. cbn [ap_at]. split.
  - split; [lia|rewrite Hnew; intros c [= <-]; lia|]. rewrite Hnew. cbn. apply Forall_insert.
    + eapply workers_ok_later; [by right|exact Ht|exact Hws].
    + apply (worker_ok_later e name (cursor_of name s) (Some now) now now); [by right|lia|exact Hw'].
  - split; [|done]. split; [cbn; lia|]. cbn. intros c Hc. pose proof (Hlast c Hc) as Hlt.
    destruct (Hcur c Hc) as [Hc0 _]. destruct Hslot as [[x Hx]|[_ Hslot]].
    + destruct (source_next_grid _ c x _ Hc0 Hx Hlt) as (b & Hb & Hle). by exists b.
    + destruct (Hslot c Hc Hlt) as (b & Hb & Hle). exists b. split; [done|].
      split; [by eapply source_next_later|done].
Qed.

Lemma schedule_step_ok `{!CronLaws R} e name t l s out s' :
  scheduled e name → produces l → (∀ now, label_clock l = Some now → t ≤ now) →
  schedule_ok e name t s → schedule_step e name l s = Some (out, s') →
  schedule_ok e name (default t (label_clock l)) s' ∧ step_shows e name out s s'.
Proof.
  intros [(sd & Hsd & Hn) Hh] Hprod Hclock Hok Hstep.
  destruct l as [now|i now|i|i answer now at_|i write now|i now|i|st]; cbn in *;
    try specialize (Hclock now eq_refl).
  - injection Hstep as <- <-. split; [|done]. destruct Hok as [Htime Hcur Hws]. split; cbn.
    + lia.
    + intros c Hc. apply Hcur in Hc. lia.
    + apply Forall_app. split; [eapply workers_ok_later; [by left|exact Hclock|exact Hws]|].
      unfold worker_start. cbn. destruct (initial_deadline _ now) as [next|] eqn:Hd; [|done].
      apply Forall_cons. split; [|done]. by apply initial_deadline_ok.
  - destruct (worker_step i (worker_wake now) s) as [s1|] eqn:Hs; [|done]. injection Hstep as <- <-.
    eapply worker_step_ok; [|exact Hclock|done|exact Hs]. intros w w' Hw. by eapply worker_wake_ok.
  - destruct (worker_step i worker_acquire s) as [s1|] eqn:Hs; [|done]. injection Hstep as <- <-.
    eapply worker_step_ok; [|done|done|exact Hs]. intros w w' [He H]. unfold worker_acquire.
    destruct (wr_phase w); try done. intros [= <-]. by split.
  - destruct (worker_step i _ s) as [s1|] eqn:Hs; [|done]. injection Hstep as <- <-.
    destruct answer as [payload|err]; [|done].
    eapply worker_step_ok; [|exact Hclock|done|exact Hs]. intros w w' Hw. by eapply worker_produced_ok.
  - by eapply submit_step_ok.
  - destruct (worker_step i _ s) as [s1|] eqn:Hs; [|done]. injection Hstep as <- <-.
    eapply worker_step_ok; [|exact Hclock|done|exact Hs]. intros w w' Hw. by eapply worker_submitted_ok.
  - destruct (worker_step i worker_stop s) as [s1|] eqn:Hs; [|done]. injection Hstep as <- <-.
    eapply worker_step_ok; [|done|done|exact Hs]. intros w w' [He H]. unfold worker_stop.
    destruct (wr_phase w); try done. intros [= <-]. by split.
  - case_bool_decide as Hc; [|done]. injection Hstep as <- <-.
    assert (Hcur : cursor_of name {| sc_state := st; sc_workers := sc_workers s |} = cursor_of name s) by done.
    split; [|done]. destruct Hok as [Htime Hcu Hws]. split; [done|by rewrite Hcur|by rewrite Hcur].
Qed.

Lemma schedule_run_ok `{!CronLaws R} e name : scheduled e name → ∀ ls t s outs s' before a after,
  Forall produces ls → clocks_from t ls → schedule_ok e name t s →
  schedule_run e name ls s = Some (outs, s') → outs = before ++ a :: after →
  accepted_ok e (match last before with Some p => Some (ap_at p) | None => cursor_of name s end) a.
Proof.
  intros Hsch ls. induction ls as [|l ls IH]; intros t s outs s' before a after Hp Ht Hok Hrun Hout; cbn in Hrun.
  { injection Hrun as <- _. by destruct before. }
  apply Forall_cons in Hp as [Hp Hps].
  destruct (schedule_step e name l s) as [[out s1]|] eqn:Hstep; [|done].
  destruct (schedule_run e name ls s1) as [[rest s2]|] eqn:Hrest; [|done]. injection Hrun as <- <-.
  assert (Hclock : (∀ now, label_clock l = Some now → t ≤ now) ∧ clocks_from (default t (label_clock l)) ls).
  { cbn in Ht. destruct (label_clock l); cbn; [|done]. split; [intros ? [= <-]; apply Ht|apply Ht]. }
  destruct Hclock as [Hclock Hclocks].
  destruct (schedule_step_ok e name t l s out s1 Hsch Hp Hclock Hok Hstep) as [Hok1 Hshow].
  destruct out as [|a0 [|a1 out]]; [| |done].
  - rewrite <- Hshow. eapply IH; [done|exact Hclocks|exact Hok1|exact Hrest|exact Hout].
  - destruct Hshow as [Ha0 Hcur]. destruct before as [|p before]; cbn in Hout; injection Hout as -> Hout; [done|].
    pose proof (IH _ _ _ _ before a after Hps Hclocks Hok1 Hrest Hout) as Ha.
    rewrite Hcur in Ha. rewrite last_cons. by destruct (last before).
Qed.


(** ** Retries *)

(** A worker whose submission fails at each of the times, waking as soon as it may. *)
Fixpoint refusals (nows : list DateTime) (w : Worker) : option Worker :=
  match nows with
  | [] => Some w
  | now :: nows =>
      match worker_submitted false now w with
      | Some w => match worker_wake (wr_next w) w with Some w => refusals nows w | None => None end
      | None => None
      end
  end.

Lemma next_retry_pow n : 0 ≤ n → next_retry (Z.min (2 ^ n * SECOND) MAX_RETRY) = Z.min (2 ^ (n + 1) * SECOND) MAX_RETRY.
Proof.
  intros Hn. unfold next_retry, MAX_RETRY, SECOND. rewrite Z.pow_add_r, Z.pow_1_r by lia.
  pose proof (Z.pow_pos_nonneg 2 n ltac:(lia) Hn). lia.
Qed.

(** C27: a payload is not lost and not produced again while the store refuses it:
    after any number of refusals the worker submits the same payload for the same
    occurrence again, after 1, 2, 4 and so on up to 60 seconds. *)
Theorem refused_submissions_are_retried p w nows now :
  wr_phase w = Submitting p → wr_retry w = INITIAL_RETRY →
  (∀ d t, 0 ≤ d ≤ MAX_RETRY → t ∈ now :: nows → td_from_std d = Some d ∧ checked_add_signed t d = Some (t + d)) →
  ∃ w', refusals nows w = Some w' ∧ wr_phase w' = Submitting p ∧ wr_work w' = wr_work w ∧
  ∃ w'', worker_submitted false now w' = Some w'' ∧ wr_pending w'' = Some p ∧
    wr_next w'' = now + Z.min (2 ^ zlen nows * SECOND) MAX_RETRY.
Proof.
  intros Hp Hr Htime.
  assert (Hgen : ∀ n w, 0 ≤ n → wr_phase w = Submitting p → wr_retry w = Z.min (2 ^ n * SECOND) MAX_RETRY →
    ∃ w', refusals nows w = Some w' ∧ wr_phase w' = Submitting p ∧ wr_work w' = wr_work w ∧
      wr_retry w' = Z.min (2 ^ (n + zlen nows) * SECOND) MAX_RETRY).
  { clear. induction nows as [|t nows IH]; intros n w Hn Hp Hr; cbn.
    - exists w. by rewrite Z.add_0_r.
    - unfold worker_submitted, worker_wake. rewrite Hp. cbn. rewrite Z.leb_refl.
      edestruct (IH (n + 1)) as (w' & Hw' & Hph & Hwk & Hre); [lia| | |].
      3: { exists w'. split; [exact Hw'|]. split; [done|]. split; [done|]. rewrite Hre.
           replace (n + 1 + zlen nows) with (n + zlen (t :: nows)) by (unfold zlen; cbn [length]; lia). done. }
      + done.
      + cbn. rewrite Hr. by apply next_retry_pow. }
  destruct (Hgen 0 w ltac:(lia) Hp) as (w' & Hw' & Hph & Hwk & Hre); [by rewrite Hr|].
  exists w'. split; [done|]. split; [done|]. split; [done|]. rewrite Z.add_0_l in Hre.
  eexists. unfold worker_submitted. rewrite Hph. split; [done|]. cbn. split; [done|].
  unfold schedule_retry_deadline. rewrite Hre. set (d := Z.min _ _).
  destruct (Htime d now) as [H1 H2]; [|by left|by rewrite H1, H2].
  unfold d, MAX_RETRY, SECOND. pose proof (Z.pow_pos_nonneg 2 (zlen nows) ltac:(lia) ltac:(unfold zlen; lia)). lia.
Qed.

(** ** The schedules a site reports *)

(** What the console computes from a schedule's text is what its worker does. *)
Definition describes (tasks : TaskRegistry) (e : Emitter) (conf : TaskScheduleConf) : Prop :=
  (∃ sd, em_schedule e = Some sd ∧ ts_name conf = sd_name sd) ∧
  rg_typed_map tasks !! em_type_id e = Some (ts_task conf) ∧
  ∀ t next, next_task_schedule conf t = Ok next ↔ source_next (em_source e) t = Ok next.

Lemma as_millis_from ms : as_millis (from_millis ms) = ms.
Proof. unfold as_millis, from_millis. by rewrite Z.div_mul. Qed.

Lemma next_periodic_text d t next :
  0 < as_millis d → next_periodic_schedule (pretty (as_millis d)) t = Ok next ↔ periodic_boundary t d = Ok next.
Proof.
  intros Hd. unfold next_periodic_schedule. destruct (decide (as_millis d ≤ U64_MAX)) as [Hle|Hgt].
  - rewrite parse_u64_pretty by lia. rewrite !periodic_boundary_ok. by rewrite as_millis_from.
  - rewrite periodic_boundary_ok. split; [|intros (H & _); unfold I64_MAX, U64_MAX in *; lia].
    by rewrite parse_u64_refused by lia.
Qed.

Lemma task_schedule_conf_spec `{!CronLaws R} tasks e :
  emitter_ok e → em_executor e = ExecTask →
  match task_schedule_conf tasks e with
  | Ok conf => describes tasks e conf
  | Err _ => rg_typed_map tasks !! em_type_id e = None ∨
      ∃ d h, em_source e = SourcePeriodic d h ∧ as_millis d = 0
  end.
Proof.
  intros [Hs He] Hx. unfold task_schedule_conf. rewrite Hx in He.
  destruct (em_schedule e) as [sd|] eqn:Hsd; [|done].
  destruct (rg_typed_map tasks !! em_type_id e) as [task|] eqn:Ht; [|by left].
  unfold source_ok in Hs. destruct (em_source e) as [s h|d h|c h o] eqn:Hsrc; cbn.
  - split_and!; [by exists sd|done|]. intros t next. cbn. unfold next_task_schedule, next_cron_schedule. cbn.
    destruct Hs as [expression Hp]. by rewrite (cron_display_parses _ _ Hp), Hsrc.
  - destruct (Z.eqb_spec (as_millis d) 0) as [Hz|Hz]; cbn; [by right; eauto|].
    split_and!; [by exists sd|done|]. intros t next. unfold next_task_schedule. cbn. rewrite Hsrc.
    apply next_periodic_text. pose proof (Z.div_pos d MILLISECOND ltac:(lia) ltac:(done)). unfold as_millis, MILLISECOND in *. lia.
  - destruct Hs as [Hs _]. congruence.
Qed.

(** The task schedules of a registry are its task emitters, each once, under
    distinct names, each with the task registered for its type; the text of a
    schedule gives the same next occurrence as the worker that runs it. They
    are refused only when a type has no task or an interval is under a
    millisecond. *)
Theorem task_schedules_resolve `{!CronLaws R} tasks r :
  emitters_built r →
  match task_schedules tasks r with
  | Ok confs => Forall2 (describes tasks) (task_emitters r) confs ∧ NoDup (ts_name <$> confs)
  | Err _ => ∃ e, e ∈ task_emitters r ∧
      (rg_typed_map tasks !! em_type_id e = None ∨ ∃ d h, em_source e = SourcePeriodic d h ∧ as_millis d = 0)
  end.
Proof.
  intros Hb%built_keyed. unfold task_schedules.
  assert (Hok : Forall (λ e, emitter_ok e ∧ em_executor e = ExecTask) (task_emitters r)).
  { apply Forall_forall. intros e He. unfold task_emitters in He. apply list_elem_of_In, filter_In in He as [He Hx].
    apply bool_decide_eq_true in Hx. split; [|done]. apply list_elem_of_In, list_elem_of_fmap in He as ([k e'] & -> & He).
    unfold EmitterRegistry in *. apply elem_of_map_to_list in He. by apply (Hb k). }
  assert (Hnames : NoDup (emitter_key <$> task_emitters r)).
  { unfold task_emitters. assert (Hall : emitter_key <$> (map_to_list r).*2 = (map_to_list r).*1).
    { rewrite <- list_fmap_compose. apply list_fmap_ext. intros i [k e] Hi. apply list_elem_of_lookup_2 in Hi.
      unfold EmitterRegistry in *. apply elem_of_map_to_list in Hi. cbn. by apply (Hb k). }
    pose proof (NoDup_fst_map_to_list r) as Hnd. unfold EmitterRegistry in *. rewrite <- Hall in Hnd. clear -Hnd.
    induction ((map_to_list r).*2) as [|e l IH]; [done|]. cbn in *. apply NoDup_cons in Hnd as [Hni Hnd].
    destruct (bool_decide _); [|by apply IH]. cbn. apply NoDup_cons. split; [|by apply IH]. intros Hin. apply Hni.
    apply list_elem_of_fmap in Hin as (e' & -> & Hin). apply list_elem_of_fmap_2.
    apply list_elem_of_In, filter_In in Hin as [Hin _]. by apply list_elem_of_In. }
  revert Hok Hnames. generalize (task_emitters r). intros l Hok Hnd.
  induction l as [|e l IH]; cbn; [by split; constructor|].
  apply Forall_cons in Hok as [[He Hx] Hok]. cbn in Hnd. apply NoDup_cons in Hnd as [Hni Hnd].
  pose proof (task_schedule_conf_spec tasks e He Hx) as Hconf.
  destruct (task_schedule_conf tasks e) as [conf|err]; cbn; [|by exists e; split; [left|]].
  specialize (IH Hok Hnd). destruct (collect_schedules tasks l) as [confs|err]; cbn.
  - destruct IH as [IH Hn]. split; [by constructor|]. cbn. apply NoDup_cons. split; [|done]. intros Hin. apply Hni.
    apply list_elem_of_fmap in Hin as (conf' & Hname & Hin). apply list_elem_of_lookup in Hin as [i Hi].
    destruct (Forall2_lookup_r _ _ _ _ _ IH Hi) as (e' & Hi' & [(sd' & Hsd' & Hn') _]).
    destruct Hconf as [(sd & Hsd & Hn0) _]. apply list_elem_of_fmap. exists e'. split; [|by eapply list_elem_of_lookup_2].
    unfold emitter_key. rewrite Hsd, Hsd'. congruence.
  - destruct IH as (e' & He' & H). exists e'. split; [by right|done].
Qed.
End System.

(** ** A schedule every ten seconds on two nodes *)

Module DemoSchedules.
#[export] Existing Instance DemoExternals.externals.
#[export] Instance demo_cron : CronExternals := {
  CronSchedule := unit;
  cron_parse s := if String.eqb s "* * * * * *" then Ok tt else Err "invalid expression"%string;
  cron_display _ := "* * * * * *"%string;
  cron_after _ t := Some ((t / SECOND + 1) * SECOND);
  timestamp_millis_min := -8334601228800000;
  timestamp_millis_max := 8210266876799999 }.

(** Every second of the epoch. *)
#[export] Instance demo_cron_laws : CronLaws demo_cron.
Proof.
  refine {| cron_occurs := λ _ u, (SECOND | u) |}; [by intros ? []| | |done].
  - intros [] t u. cbn. pose proof (Z.div_mod t SECOND ltac:(done)). pose proof (Z.mod_pos_bound t SECOND ltac:(done)).
    split.
    + intros [= <-]. split_and!; [by eexists|lia|]. intros v [k ->] Hv. unfold SECOND in *. nia.
    + intros ([k ->] & Hu & Hleast). f_equal.
      pose proof (Hleast ((t / SECOND + 1) * SECOND) ltac:(by eexists) ltac:(lia)). unfold SECOND in *. nia.
  - intros. by eexists.
Defined.

Definition or_default {E A} (d : A) (r : result E A) : A := match r with Ok a => a | Err _ => d end.
Definition digest_conf : PeriodicConf :=
  periodic_schedule "digest" (periodic_executor ExecTask (periodic_conf_new (10 * SECOND))).
Definition nothing : Emitter :=
  {| em_type_id := 0%N; em_type_name := ""; em_executor := ExecSignal; em_schedule := None;
     em_source := SourcePeriodic 0 "" |}.
Definition digest : Emitter := or_default nothing (periodic mail_type "Mail" "produce" digest_conf).
Definition digest_payload : Payload := demo_payload mail_type (JString "hi").
Definition digest_store : MemoryState := st_state demo_state.
Definition system0 : ScheduleSystem := {| sc_state := digest_store; sc_workers := [] |}.

(** One node starts, wakes and produces; the other may fail to. *)
Definition fires (i : nat) (now : DateTime) (answer : result string Payload) : list ScheduleLabel :=
  [SWake i now; SAcquire i; SProduced i answer now 0].
Definition two_slots : list ScheduleLabel :=
  [SStart 0; SStart 0] ++ fires 0 (10 * SECOND) (Ok digest_payload) ++ fires 1 (10 * SECOND) (Ok digest_payload) ++
  [SSubmit 0 (work_write 30) (10 * SECOND); SSubmit 1 (work_write 31) (11 * SECOND); SStop 1] ++
  fires 0 (20 * SECOND) (Ok digest_payload) ++ [SSubmit 0 (work_write 32) (20 * SECOND)].

(** The second node's producer fails in the slot the first one serves. *)
Definition failed_producer : list ScheduleLabel :=
  [SStart 0; SStart 0] ++ fires 0 (10 * SECOND) (Ok digest_payload) ++ [SSubmit 0 (work_write 30) (10 * SECOND)] ++
  fires 1 (10 * SECOND) (Err "unavailable"%string) ++
  fires 1 (11 * SECOND) (Ok digest_payload) ++ [SSubmit 1 (work_write 31) (11 * SECOND)].

Definition accepted (ls : list ScheduleLabel) : list Accepted :=
  default [] (fst <$> schedule_run digest "digest" ls system0).
Definition schedule_ends (ls : list ScheduleLabel) : ScheduleSystem :=
  default system0 (snd <$> schedule_run digest "digest" ls system0).
Definition schedule_ran (ls : list ScheduleLabel) : bool :=
  if schedule_run digest "digest" ls system0 then true else false.
Lemma schedule_ran_ends ls : schedule_ran ls = true → schedule_run digest "digest" ls system0 = Some (accepted ls, schedule_ends ls).
Proof. unfold schedule_ran, accepted, schedule_ends. by destruct (schedule_run _ _ _ _) as [[]|]. Qed.

Lemma digest_ok : emitter_ok digest.
Proof. vm_compute. by split_and!. Qed.
End DemoSchedules.

Section Examples.
Import DemoSchedules.


(** After a producer fails, its worker retries with the time of the retry as the
    occurrence. If another node served the slot meanwhile, the store accepts this
    one too: one slot gives two tasks. *)
Theorem failed_producer_repeats_a_slot :
  schedule_ran failed_producer = true ∧
  ∃ a1 a2, accepted failed_producer = [a1; a2] ∧ ap_at a1 = 10 * SECOND ∧ ap_occurrence a2 = 11 * SECOND ∧
    periodic_boundary (ap_at a1) (10 * SECOND) = Ok (20 * SECOND).
Proof. split; [by vm_compute|]. eexists _, _. split; [vm_compute; reflexivity|]. by split_and!. Qed.

Definition digest_submission : PendingSubmission :=
  {| pn_name := "digest"; pn_occurrence := 10 * SECOND; pn_payload := digest_payload |}.
Definition digest_submitting : Worker :=
  {| wr_work := schedule_work_new digest None 0; wr_next := 10 * SECOND; wr_retry := INITIAL_RETRY;
     wr_pending := None; wr_phase := Submitting digest_submission |}.

Example refused_submissions_are_retried_witness :
  ∃ w' w'', refusals [10 * SECOND; 11 * SECOND; 13 * SECOND] digest_submitting = Some w' ∧
    worker_submitted false (17 * SECOND) w' = Some w'' ∧ wr_next w'' = 25 * SECOND.
Proof.
  destruct (refused_submissions_are_retried digest_submission digest_submitting
    [10 * SECOND; 11 * SECOND; 13 * SECOND] (17 * SECOND) eq_refl eq_refl) as (w' & H1 & _ & _ & w'' & H2 & _ & H3).
  - intros d t Hd Ht. unfold MAX_RETRY, SECOND in Hd.
    apply list_elem_of_In in Ht. cbn in Ht.
    assert (0 ≤ t ≤ 17 * SECOND) by (unfold SECOND in *; lia).
    cbn. unfold DemoExternals.checked, DemoExternals.dt_bound, SECOND in *. split; [by case_match; [done|lia]|by case_match; [done|lia]].
  - exists w', w''. split; [exact H1|]. split; [exact H2|]. rewrite H3. reflexivity.
Defined.

Lemma digest_built : emitters_built (emitter_register digest emitter_registry_new).2.
Proof.
  apply built_register; [|constructor].
  apply (constructed_periodic mail_type "Mail" "produce" digest_conf); [done|reflexivity].
Qed.

Definition digest_schedule : TaskScheduleConf :=
  {| ts_name := "digest"; ts_task := "mail"; ts_source := "periodic"; ts_expression := "10000"; ts_start := "next" |}.

Example task_schedules_resolve_witness :
  task_schedules demo_registry (emitter_register digest emitter_registry_new).2 = Ok [digest_schedule] ∧
  describes demo_registry digest digest_schedule.
Proof.
  assert (Hc : task_schedules demo_registry (emitter_register digest emitter_registry_new).2 = Ok [digest_schedule])
    by (vm_compute; reflexivity).
  pose proof (task_schedules_resolve demo_registry _ digest_built) as H. rewrite Hc in H.
  assert (He : task_emitters (emitter_register digest emitter_registry_new).2 = [digest]) by reflexivity.
  rewrite He in H. split; [done|]. destruct H as [H _]. by apply Forall2_cons in H as [H _].
Defined.

Example emitter_registry_is_keyed_witness :
  emitter_register digest (emitter_register digest emitter_registry_new).2 =
    (Err EmitterAlreadyExists, (emitter_register digest emitter_registry_new).2).
Proof.
  destruct (emitter_registry_is_keyed _ digest_built) as (_ & _ & _ & H). rewrite H. reflexivity.
Defined.
End Examples.
