(* ===== verification/EmitterEngine.v ===== *)
(** * The emitter engine ([EmitterEngine::run] of [emitters.rs])

    One loop serves the timers, the debounce deadlines, the notifications and
    the answers of handlers, which run as tasks of their own under the permits
    the schedule workers share. [engine_step] interleaves all of them. *)
From S2P Require Import Prelude Externals Failure Config Models Transitions Lifecycle.
From S2P Require Import MemoryState Claims Atomic Json Metrics Registry Submission Client RegistryFacts.
From S2P Require Import Debounce ChannelTypes Emitters Schedules.
#[local] Open Scope Z_scope.

(** The two clocks a step reads: [tokio]'s and the wall clock. *)
Record Clock := { ck_instant : Z; ck_utc : DateTime }.

Section Engine.
Context `{X : Externals, R : CronExternals}.

(** ** Timers *)

Inductive TimerKind := TimerCron (schedule : CronSchedule) | TimerInterval (interval : Duration).
Definition kind_label (k : TimerKind) : string :=
  match k with TimerCron _ => "cron" | TimerInterval _ => "periodic" end.

Record TimerWork := {
  tw_type_id : TypeId;
  tw_last : option Z;
  tw_kind : TimerKind;
  tw_producer : string;
  tw_deadline : Z;
  tw_iter_count : Z;
  tw_last_time : option Z }.

(** A schedule without a further occurrence is due at the epoch, which is no time from now. *)
Definition make_deadline (clock : Clock) (last : option Z) (kind : TimerKind) : Z :=
  match kind with
  | TimerInterval interval => match last with Some last => last + interval | None => ck_instant clock end
  | TimerCron schedule =>
      let next := default 0 (cron_after schedule (ck_utc clock)) in
      let duration := Z.max 0 (next - ck_utc clock) in
      match last with Some _ => ck_instant clock + duration | None => ck_instant clock end
  end.

Definition timer_work_new (clock : Clock) (t : TypeId) (kind : TimerKind) (producer : string) : TimerWork :=
  {| tw_type_id := t; tw_last := None; tw_kind := kind; tw_producer := producer;
     tw_deadline := make_deadline clock None kind; tw_iter_count := 0; tw_last_time := None |}.

(** [update_deadline]: [None] where it answers [false]. *)
Definition update_deadline (clock : Clock) (last : Z) (w : TimerWork) : option TimerWork :=
  if match tw_last w with Some l => last <=? l | None => false end then None
  else Some {| tw_type_id := tw_type_id w; tw_last := Some last; tw_kind := tw_kind w;
               tw_producer := tw_producer w; tw_deadline := make_deadline clock (Some last) (tw_kind w);
               tw_iter_count := tw_iter_count w; tw_last_time := tw_last_time w |}.

Definition timer_update (clock : Clock) (w : TimerWork) : TimerWork :=
  {| tw_type_id := tw_type_id w; tw_last := Some (ck_instant clock); tw_kind := tw_kind w;
     tw_producer := tw_producer w;
     tw_deadline := make_deadline clock (Some (ck_instant clock)) (tw_kind w);
     tw_iter_count := u64_wrapping_add (tw_iter_count w) 1; tw_last_time := Some (ck_instant clock) |}.

Record TimerQueue := { tq_heap : list TimerWork; tq_timeout_map : gmap TypeId Z }.
Definition timer_queue_new : TimerQueue := {| tq_heap := []; tq_timeout_map := ∅ |}.
Definition timer_push (w : TimerWork) (q : TimerQueue) : TimerQueue :=
  {| tq_heap := tq_heap q ++ [w]; tq_timeout_map := tq_timeout_map q |}.
Definition timer_touch (t : TypeId) (now : Z) (q : TimerQueue) : TimerQueue :=
  {| tq_heap := tq_heap q; tq_timeout_map := <[t := now]> (tq_timeout_map q) |}.

(** One turn of [pop]: nothing while no timer is due; a due timer whose type was
    touched goes back with a later deadline; another one is returned. [pick] is
    the place of an earliest entry. *)
Definition timer_turn (clock : Clock) (pick : nat) (q : TimerQueue) : option (option TimerWork * TimerQueue) :=
  match tq_heap q !! pick with
  | Some w =>
      if forallb (λ other, tw_deadline w <=? tw_deadline other) (tq_heap q) && (tw_deadline w <=? ck_instant clock)
      then
        let heap := delete pick (tq_heap q) in
        let touched := tq_timeout_map q !! tw_type_id w in
        let q := {| tq_heap := heap; tq_timeout_map := delete (tw_type_id w) (tq_timeout_map q) |} in
        Some (match (match touched with Some updated => update_deadline clock updated w | None => None end) with
              | Some w => (None, timer_push w q)
              | None => (Some (timer_update clock w), q)
              end)
      else None
  | None => None
  end.

(** ** Notifications *)

Record NotifyWork := {
  nw_id : nat;
  nw_type_id : TypeId;
  nw_channel : string;
  nw_handler : string;
  nw_iter_count : Z;
  nw_last_time : option Z;
  nw_debounce : option (Debouncer string) }.
Definition notify_work_new (id : nat) (t : TypeId) (channel handler : string) (debounce : option DebounceConf) :
    NotifyWork :=
  {| nw_id := id; nw_type_id := t; nw_channel := channel; nw_handler := handler; nw_iter_count := 0;
     nw_last_time := None; nw_debounce := debouncer_new string <$> debounce |}.

Record NotifyCall := {
  cl_type_id : TypeId;
  cl_channel : string;
  cl_debounce : option DebounceConf;
  cl_handler : string;
  cl_iter_count : Z;
  cl_last_time : option Z;
  cl_payload : string }.
Definition notify_call (payload : string) (w : NotifyWork) : NotifyCall :=
  {| cl_type_id := nw_type_id w; cl_channel := nw_channel w; cl_debounce := db_conf <$> nw_debounce w;
     cl_handler := nw_handler w; cl_iter_count := nw_iter_count w; cl_last_time := nw_last_time w;
     cl_payload := payload |}.
Definition notify_update (now : Z) (w : NotifyWork) : NotifyWork :=
  {| nw_id := nw_id w; nw_type_id := nw_type_id w; nw_channel := nw_channel w; nw_handler := nw_handler w;
     nw_iter_count := u64_wrapping_add (nw_iter_count w) 1; nw_last_time := Some now;
     nw_debounce := nw_debounce w |}.
Definition put_debounce (d : Debouncer string) (w : NotifyWork) : NotifyWork :=
  {| nw_id := nw_id w; nw_type_id := nw_type_id w; nw_channel := nw_channel w; nw_handler := nw_handler w;
     nw_iter_count := nw_iter_count w; nw_last_time := nw_last_time w; nw_debounce := Some d |}.

(** The call of a payload that is let through, and the count of it. *)
Definition calling (now : Z) (payload : option string) (w : NotifyWork) : option NotifyCall * NotifyWork :=
  match payload with
  | Some payload => (Some (notify_call payload w), notify_update now w)
  | None => (None, w)
  end.

Definition on_notify (now : Z) (payload : string) (w : NotifyWork) (queue : list (QueuedDeadline nat)) :
    option NotifyCall * NotifyWork * list (QueuedDeadline nat) :=
  match nw_debounce w with
  | None => (calling now (Some payload) w, queue)
  | Some d =>
      let '(push, d) := debounce_push now payload d in
      let queue := match dp_deadline push with
                   | Some deadline => heap_push (nw_id w) deadline queue
                   | None => queue
                   end in
      (calling now (dp_emission push) (put_debounce d w), queue)
  end.

Definition on_debounce_deadline (now : Z) (generation : Z) (w : NotifyWork) : option NotifyCall * NotifyWork :=
  match nw_debounce w with
  | None => (None, w)
  | Some d =>
      let '(payload, d) := debounce_due generation d in calling now payload (put_debounce d w)
  end.

(** ** The engine *)

Inductive HandlerSource :=
  | HandlerTimer (kind : string) (t : TypeId)
  | HandlerPgNotify (channel : string) (t : TypeId) (debounce : option DebounceConf).
Record HandlerCall := {
  hl_source : HandlerSource;
  hl_handler : string;
  hl_iter_count : Z;
  hl_last_time : option Z;
  hl_payload : string }.
Record HandlerCompletion := { hn_source : HandlerSource; hn_result : result string Payload }.

Definition timer_call (w : TimerWork) : HandlerCall :=
  {| hl_source := HandlerTimer (kind_label (tw_kind w)) (tw_type_id w); hl_handler := tw_producer w;
     hl_iter_count := tw_iter_count w; hl_last_time := tw_last_time w; hl_payload := "" |}.
Definition handler_call (c : NotifyCall) : HandlerCall :=
  {| hl_source := HandlerPgNotify (cl_channel c) (cl_type_id c) (cl_debounce c); hl_handler := cl_handler c;
     hl_iter_count := cl_iter_count c; hl_last_time := cl_last_time c; hl_payload := cl_payload c |}.

Record EngineState := {
  en_conf : EmitterConf;
  (** The loop runs. *)
  en_live : bool;
  en_timers : TimerQueue;
  en_deadlines : list (QueuedDeadline nat);
  en_tasks : gmap string (list nat);
  en_works : list NotifyWork;
  (** Free permits; the handlers that hold one; the answers that wait for room, and in the channel. *)
  en_free : Z;
  en_running : list HandlerCall;
  en_sending : list HandlerCompletion;
  en_completions : list HandlerCompletion;
  (** The schedule workers of the node. *)
  en_workers : list Worker }.

(** What the outside sees of a step: a timer that fires, a notification of a
    type, a notification that is let through, a call refused for lack of a
    permit, and a value dispatched to signals and channels. *)
Inductive EngineEvent :=
  | Fired (w : TimerWork)
  | Touched (t : TypeId) (now : Z)
  | Called (id : nat) (call : NotifyCall)
  | Skipped (source : HandlerSource)
  | Dispatched (payload : Payload).

Definition put_calls (free : Z) (running : list HandlerCall) (s : EngineState) : EngineState :=
  {| en_conf := en_conf s; en_live := en_live s; en_timers := en_timers s; en_deadlines := en_deadlines s;
     en_tasks := en_tasks s; en_works := en_works s; en_free := free; en_running := running;
     en_sending := en_sending s; en_completions := en_completions s; en_workers := en_workers s |}.
Definition put_answers (sending completions : list HandlerCompletion) (s : EngineState) : EngineState :=
  {| en_conf := en_conf s; en_live := en_live s; en_timers := en_timers s; en_deadlines := en_deadlines s;
     en_tasks := en_tasks s; en_works := en_works s; en_free := en_free s; en_running := en_running s;
     en_sending := sending; en_completions := completions; en_workers := en_workers s |}.
Definition put_timers (v : TimerQueue) (s : EngineState) : EngineState :=
  {| en_conf := en_conf s; en_live := en_live s; en_timers := v; en_deadlines := en_deadlines s;
     en_tasks := en_tasks s; en_works := en_works s; en_free := en_free s; en_running := en_running s;
     en_sending := en_sending s; en_completions := en_completions s; en_workers := en_workers s |}.
Definition put_works (works : list NotifyWork) (deadlines : list (QueuedDeadline nat)) (s : EngineState) :
    EngineState :=
  {| en_conf := en_conf s; en_live := en_live s; en_timers := en_timers s; en_deadlines := deadlines;
     en_tasks := en_tasks s; en_works := works; en_free := en_free s; en_running := en_running s;
     en_sending := en_sending s; en_completions := en_completions s; en_workers := en_workers s |}.
Definition put_en_workers (free : Z) (v : list Worker) (s : EngineState) : EngineState :=
  {| en_conf := en_conf s; en_live := en_live s; en_timers := en_timers s; en_deadlines := en_deadlines s;
     en_tasks := en_tasks s; en_works := en_works s; en_free := free; en_running := en_running s;
     en_sending := en_sending s; en_completions := en_completions s; en_workers := v |}.
Definition stop_engine (s : EngineState) : EngineState :=
  {| en_conf := en_conf s; en_live := false; en_timers := en_timers s; en_deadlines := en_deadlines s;
     en_tasks := en_tasks s; en_works := en_works s; en_free := en_free s; en_running := en_running s;
     en_sending := en_sending s; en_completions := []; en_workers := en_workers s |}.

(** [try_acquire_owned]: a call without a permit is skipped. *)
Definition spawn_handler_call (call : HandlerCall) (s : EngineState) : list EngineEvent * EngineState :=
  if en_free s <=? 0 then ([Skipped (hl_source call)], s)
  else ([], put_calls (en_free s - 1) (en_running s ++ [call]) s).
Definition spawn_notify_call (id : nat) (call : option NotifyCall) (s : EngineState) :
    list EngineEvent * EngineState :=
  match call with
  | Some call =>
      let '(out, s) := spawn_handler_call (handler_call call) s in (Called id call :: out, s)
  | None => ([], s)
  end.

(** ** Starting *)

(** The loop over the signal emitters, in the order the map is walked. *)
Definition add_emitter (clock : Clock) (s : EngineState) (e : Emitter) : EngineState :=
  if bool_decide (em_executor e = ExecTask) then s
  else
    match em_source e with
    | SourcePeriodic interval handler =>
        put_timers (timer_push (timer_work_new clock (em_type_id e) (TimerInterval interval) handler) (en_timers s)) s
    | SourceCron schedule handler =>
        put_timers (timer_push (timer_work_new clock (em_type_id e) (TimerCron schedule) handler) (en_timers s)) s
    | SourcePgNotify channel handler debounce =>
        let id := length (en_works s) in
        let s := put_works (en_works s ++ [notify_work_new id (em_type_id e) channel handler debounce])
                   (en_deadlines s) s in
        {| en_conf := en_conf s; en_live := en_live s; en_timers := en_timers s; en_deadlines := en_deadlines s;
           en_tasks := <[channel := default [] (en_tasks s !! channel) ++ [id]]> (en_tasks s);
           en_works := en_works s; en_free := en_free s; en_running := en_running s;
           en_sending := en_sending s; en_completions := en_completions s; en_workers := en_workers s |}
    end.

Definition engine_new (conf : EmitterConf) (workers : list Worker) : EngineState :=
  {| en_conf := conf; en_live := true; en_timers := timer_queue_new; en_deadlines := []; en_tasks := ∅;
     en_works := []; en_free := max_in_flight_handlers conf; en_running := []; en_sending := [];
     en_completions := []; en_workers := workers |}.

(** [run] up to the loop, over the snapshot of the cursors and whether the
    notifications of the topics could be consumed. *)
Definition engine_start (conf : EmitterConf) (r : EmitterRegistry)
    (snapshot : list string → result EmitterError TaskScheduleSnapshot)
    (consume : list string → result EmitterError unit) (clock : Clock) : result EmitterError EngineState :=
  let sources := task_emitters r in
  let? names := schedule_names sources in
  let? snapshot := snapshot names in
  let? works := start_works sources snapshot in
  let s := foldl (add_emitter clock) (engine_new conf (omap worker_start works)) (map_to_list r).*2 in
  let topics := (map_to_list (en_tasks s)).*1 in
  let? _ := match topics with [] => Ok tt | _ => consume topics end in
  Ok s.

(** ** The loop and the tasks it spawned *)

Inductive EngineLabel :=
  | ETimer (clock : Clock) (pick : nat)
  | EDeadline (now : Z) (pick : nat)
  | ENotify (now : Z) (channel payload : string)
  | ECompletion
  | EShutdown
  (** A handler returns or panics, and its answer gets into the channel. *)
  | EReturn (i : nat) (answer : result string Payload)
  | EPanic (i : nat)
  | ESend (i : nat)
  (** The schedule workers. *)
  | EWorkerWake (i : nat) (now : DateTime)
  | EWorkerAcquire (i : nat)
  | EWorkerProduced (i : nat) (answer : result string Payload) (now : DateTime) (at_ : Z)
  | EWorkerSubmitted (i : nat) (accepted : bool) (now : DateTime)
  | EWorkerStop (i : nat).

(** One listener of a notification. *)
Definition notify_one (now : Z) (payload : string) (acc : list EngineEvent * EngineState) (id : nat) :
    list EngineEvent * EngineState :=
  let '(out, s) := acc in
  match en_works s !! id with
  | Some w =>
      let s := put_timers (timer_touch (nw_type_id w) now (en_timers s)) s in
      let '(call, w', queue) := on_notify now payload w (en_deadlines s) in
      let s := put_works (<[id := w']> (en_works s)) queue s in
      let '(out', s) := spawn_notify_call id call s in
      (out ++ Touched (nw_type_id w) now :: out', s)
  | None => (out, s)
  end.

Definition worker_event (i : nat) (permits : Z) (f : Worker → option Worker) (s : EngineState) :
    option (list EngineEvent * EngineState) :=
  match en_workers s !! i with
  | Some w =>
      match f w with
      | Some w => Some ([], put_en_workers (en_free s + permits) (<[i := w]> (en_workers s)) s)
      | None => None
      end
  | None => None
  end.

Definition loop_step (l : EngineLabel) (s : EngineState) : option (list EngineEvent * EngineState) :=
  match l with
  | ETimer clock pick =>
      match timer_turn clock pick (en_timers s) with
      | Some (Some w, q) =>
          let '(out, s) := spawn_handler_call (timer_call w) (put_timers q s) in
          Some (Fired w :: out, put_timers (timer_push w (en_timers s)) s)
      | Some (None, q) => Some ([], put_timers q s)
      | None => None
      end
  | EDeadline now pick =>
      match queue_pop now pick (en_deadlines s) with
      | Some (entry, queue) =>
          let s := put_works (en_works s) queue s in
          match en_works s !! entry.1 with
          | Some w =>
              let '(call, w) := on_debounce_deadline now (dd_generation entry.2) w in
              Some (spawn_notify_call entry.1 call (put_works (<[entry.1 := w]> (en_works s)) (en_deadlines s) s))
          | None => Some ([], s)
          end
      | None => None
      end
  | ENotify now channel payload =>
      match en_tasks s !! channel with
      | Some ids => Some (foldl (notify_one now payload) ([], s) ids)
      | None => Some ([], s)
      end
  | ECompletion =>
      match en_completions s with
      | completion :: completions =>
          Some (match hn_result completion with Ok payload => [Dispatched payload] | Err _ => [] end,
                put_answers (en_sending s) completions s)
      | [] => None
      end
  | EShutdown => Some ([], stop_engine s)
  | _ => None
  end.

Definition engine_step (l : EngineLabel) (s : EngineState) : option (list EngineEvent * EngineState) :=
  match l with
  | EReturn i answer =>
      match en_running s !! i with
      | Some call =>
          let s := put_calls (en_free s + 1) (delete i (en_running s)) s in
          Some ([], put_answers (en_sending s ++ [{| hn_source := hl_source call; hn_result := answer |}])
                      (en_completions s) s)
      | None => None
      end
  | EPanic i =>
      match en_running s !! i with
      | Some _ => Some ([], put_calls (en_free s + 1) (delete i (en_running s)) s)
      | None => None
      end
  | ESend i =>
      match en_sending s !! i with
      | Some completion =>
          if en_live s then
            if zlen (en_completions s) <? max_in_flight_handlers (en_conf s)
            then Some ([], put_answers (delete i (en_sending s)) (en_completions s ++ [completion]) s)
            else None
          else Some ([], put_answers (delete i (en_sending s)) (en_completions s) s)
      | None => None
      end
  | EWorkerWake i now => worker_event i 0 (worker_wake now) s
  | EWorkerAcquire i => if en_free s <=? 0 then None else worker_event i (-1) worker_acquire s
  | EWorkerProduced i answer now at_ => worker_event i 1 (worker_produced answer now at_) s
  | EWorkerSubmitted i accepted now => worker_event i 0 (worker_submitted accepted now) s
  | EWorkerStop i => worker_event i 0 worker_stop s
  | l => if en_live s then loop_step l s else None
  end.

Fixpoint engine_run (ls : list EngineLabel) (s : EngineState) : option (list EngineEvent * EngineState) :=
  match ls with
  | [] => Some ([], s)
  | l :: ls =>
      match engine_step l s with
      | Some (out, s) =>
          match engine_run ls s with Some (outs, s) => Some (out ++ outs, s) | None => None end
      | None => None
      end
  end.
End Engine.
