(* ===== verification/EmitterTheorems.v ===== *)
(** * What the emitter engine promises

    Permits, timers and notifications, over every run of the engine from a
    registry a program can build. *)
From S2P Require Import Prelude Externals Failure Config Models Transitions Lifecycle.
From S2P Require Import MemoryState Claims Atomic Json Metrics Registry Submission Client RegistryFacts.
From S2P Require Import RegistryTheorems Debounce ChannelTypes Emitters Schedules EmitterEngine.
#[local] Open Scope Z_scope.

Section Permits.
Context `{X : Externals, R : CronExternals}.

(** A state the engine of a registry reaches, and what it showed until then. *)
Definition engine_reach (conf : EmitterConf) (r : EmitterRegistry) (outs : list EngineEvent) (s : EngineState) : Prop :=
  ∃ snapshot consume clock s0 ls,
    engine_start conf r snapshot consume clock = Ok s0 ∧ engine_run ls s0 = Some (outs, s).

(** An invariant of the state holds wherever a run leads. *)
Lemma engine_run_keeps (P : EngineState → Prop) :
  (∀ l s out s', P s → engine_step l s = Some (out, s') → P s') →
  ∀ ls s outs s', P s → engine_run ls s = Some (outs, s') → P s'.
Proof.
  intros Hstep ls. induction ls as [|l ls IH]; intros s outs s' Hs Hrun; cbn in Hrun; [by injection Hrun as _ <-|].
  destruct (engine_step l s) as [[out s1]|] eqn:Hl; [|done].
  destruct (engine_run ls s1) as [[rest s2]|] eqn:Hr; [|done]. injection Hrun as _ <-.
  by eapply IH; [eapply Hstep|].
Qed.

(** What [engine_start] leaves besides timers and listeners. *)
Lemma engine_start_new conf r snapshot consume clock s :
  engine_start conf r snapshot consume clock = Ok s →
  ∃ works, s = foldl (add_emitter clock) (engine_new conf (omap worker_start works)) (map_to_list r).*2.
Proof.
  unfold engine_start. intros H. apply result_bind_ok in H as (names & _ & H). apply result_bind_ok in H as (snap & _ & H).
  apply result_bind_ok in H as (works & _ & H). apply result_bind_ok in H as (? & _ & [= <-]). by exists works.
Qed.

(** ** Permits *)

Definition producing (w : Worker) : bool := match wr_phase w with Producing _ => true | _ => false end.
Definition holding (ws : list Worker) : Z := zlen (List.filter producing ws).
Definition permits_ok (s : EngineState) : Prop :=
  0 ≤ en_free s ∧ en_free s + zlen (en_running s) + holding (en_workers s) = max_in_flight_handlers (en_conf s) ∧
  zlen (en_completions s) ≤ max_in_flight_handlers (en_conf s).

(** No step changes the configuration. *)
Lemma engine_step_conf l s out s' : engine_step l s = Some (out, s') → en_conf s' = en_conf s.
Proof.
  assert (Hspawn : ∀ call s, en_conf (spawn_handler_call call s).2 = en_conf s).
  { intros call s0. unfold spawn_handler_call. by destruct (_ <=? _). }
  assert (Hnotify : ∀ id call s, en_conf (spawn_notify_call id call s).2 = en_conf s).
  { intros id call s0. destruct call as [c|]; [|done]. cbn. specialize (Hspawn (handler_call c) s0).
    by destruct (spawn_handler_call _ s0). }
  assert (Hworker : ∀ i n f s out s', worker_event i n f s = Some (out, s') → en_conf s' = en_conf s).
  { intros i n f s0 o s1. unfold worker_event. destruct (_ !! i); [|done]. destruct (f _); [|done]. by intros [= _ <-]. }
  destruct l as [clock pick|now pick|now channel payload| | |i answer|i|i|i now|i|i answer now at_|i accepted now|i];
    cbn [engine_step]; try (destruct (en_live s); [|done]; cbn [loop_step]); try apply Hworker.
  - destruct (timer_turn clock pick (en_timers s)) as [[[w|] q]|]; [| |done]; [|by intros [= _ <-]].
    pose proof (Hspawn (timer_call w) (put_timers q s)) as H. destruct (spawn_handler_call _ _). by intros [= _ <-].
  - destruct (queue_pop now pick (en_deadlines s)) as [[entry queue]|]; [|done]. cbn.
    destruct (en_works s !! entry.1) as [w|]; [|by intros [= _ <-]]. destruct (on_debounce_deadline _ _ _) as [call w'].
    intros H. injection H as H.
    apply (f_equal (λ p, en_conf p.2)) in H. cbv beta in H. by rewrite Hnotify in H.
  - destruct (en_tasks s !! channel) as [ids|]; [|by intros [= _ <-]]. intros H. injection H as H.
    assert (Hgen : ∀ ids acc, en_conf (foldl (notify_one now payload) acc ids).2 = en_conf acc.2).
    { intros l. induction l as [|id l IH]; intros acc; [done|]. cbn. rewrite IH. destruct acc as [o s0]. unfold notify_one.
      destruct (en_works s0 !! id) as [w|]; [|done]. destruct (on_notify _ _ _ _) as [[call w'] queue].
      match goal with |- context [spawn_notify_call id call ?s1] => pose proof (Hnotify id call s1) as Hx; by destruct (spawn_notify_call id call s1) end. }
    apply (f_equal (λ p, en_conf p.2)) in H. cbv beta in H. by rewrite Hgen in H.
  - destruct (en_completions s); [done|]. by intros [= _ <-].
  - by intros [= _ <-].
  - destruct (en_running s !! i); [|done]. by intros [= _ <-].
  - destruct (en_running s !! i); [|done]. by intros [= _ <-].
  - destruct (en_sending s !! i); [|done]. destruct (en_live s); [|by intros [= _ <-]]. destruct (_ <? _); [|done]. by intros [= _ <-].
  - destruct (_ <=? _); [done|apply Hworker].
Qed.

Lemma holding_insert i w w' ws :
  ws !! i = Some w → holding (<[i := w']> ws) = holding ws - Z.b2z (producing w) + Z.b2z (producing w').
Proof.
  unfold holding, zlen. revert i. induction ws as [|v ws IH]; intros i Hi; [done|]. destruct i as [|i]; simpl in *.
  - injection Hi as ->. destruct (producing w), (producing w'); simpl; lia.
  - specialize (IH i Hi). destruct (producing v); simpl; lia.
Qed.

Lemma zlen_delete {A} (l : list A) i x : l !! i = Some x → zlen (delete i l) = zlen l - 1.
Proof.
  intros Hi. unfold zlen. pose proof (lookup_lt_Some _ _ _ Hi). rewrite length_delete; [|by eexists]. lia.
Qed.

Lemma permits_ok_same s s' :
  en_free s' = en_free s → en_running s' = en_running s → en_workers s' = en_workers s → en_conf s' = en_conf s →
  en_completions s' = en_completions s → permits_ok s → permits_ok s'.
Proof. unfold permits_ok. by intros -> -> -> -> ->. Qed.

Lemma spawn_permits_ok call s : permits_ok s → permits_ok (spawn_handler_call call s).2.
Proof.
  intros Hp. unfold spawn_handler_call. destruct (en_free s <=? 0) eqn:Hf; [done|]. cbn.
  unfold permits_ok, zlen in *. cbn. rewrite length_app. cbn. lia.
Qed.
Lemma spawn_notify_permits_ok id call s : permits_ok s → permits_ok (spawn_notify_call id call s).2.
Proof.
  intros Hp. destruct call as [c|]; [|done]. cbn. pose proof (spawn_permits_ok (handler_call c) s Hp).
  by destruct (spawn_handler_call _ s).
Qed.

Lemma worker_event_ok i permits f s out s' :
  (∀ w w', f w = Some w' → Z.b2z (producing w') = Z.b2z (producing w) - permits) →
  0 ≤ en_free s + permits → permits_ok s → worker_event i permits f s = Some (out, s') → permits_ok s'.
Proof.
  intros Hf Hfree (H0 & H1 & H2). unfold worker_event. destruct (en_workers s !! i) as [w|] eqn:Hi; [|done].
  destruct (f w) as [w'|] eqn:Hw; [|done]. intros [= _ <-]. specialize (Hf _ _ Hw). unfold permits_ok. cbn.
  rewrite (holding_insert i w w') by done. lia.
Qed.

Lemma worker_phases now answer at_ accepted w w' :
  (worker_wake now w = Some w' ∨ worker_submitted accepted now w = Some w' ∨ worker_stop w = Some w' →
     producing w' = producing w) ∧
  (worker_acquire w = Some w' → producing w' = true ∧ producing w = false) ∧
  (worker_produced answer now at_ w = Some w' → producing w' = false ∧ producing w = true).
Proof.
  unfold producing, worker_wake, worker_submitted, worker_stop, worker_acquire, worker_produced. split_and!.
  - intros [H|[H|H]].
    + destruct (wr_phase w); try done. destruct (wr_next w <=? now); [|done]. injection H as <-. cbn. by destruct (wr_pending w).
    + destruct (wr_phase w); try done. destruct accepted; injection H as <-; [|done]. by destruct (work_next _ _).
    + destruct (wr_phase w); try done. by injection H as <-.
  - destruct (wr_phase w); try done. by intros [= <-].
  - destruct (wr_phase w); try done. intros [= <-]. split; [|done].
    destruct (source_handler _), answer; try done. by destruct (schedule_of _).
Qed.

Lemma notify_one_keeps (P : EngineState → Prop) now payload acc id :
  (∀ s v, P s → P (put_timers v s)) → (∀ s v q, P s → P (put_works v q s)) →
  (∀ s i call, P s → P (spawn_notify_call i call s).2) → P acc.2 → P (notify_one now payload acc id).2.
Proof.
  intros Ht Hw Hs Ha. destruct acc as [out s]. unfold notify_one. destruct (en_works s !! id) as [w|]; [|done].
  destruct (on_notify _ _ _ _) as [[call w'] queue].
  match goal with |- context [spawn_notify_call id call ?s0] => pose proof (Hs s0 id call) as H; destruct (spawn_notify_call id call s0) end.
  apply H. by apply Hw, Ht.
Qed.

Lemma engine_step_permits l s out s' : permits_ok s → engine_step l s = Some (out, s') → permits_ok s'.
Proof.
  intros Hp. destruct l as [clock pick|now pick|now channel payload| | |i answer|i|i|i now|i|i answer now at_|i accepted now|i];
    cbn [engine_step]; try (destruct (en_live s); [|done]; cbn [loop_step]).
  - destruct (timer_turn clock pick (en_timers s)) as [[[w|] q]|]; [| |done].
    + pose proof (spawn_permits_ok (timer_call w) (put_timers q s) Hp) as H.
      destruct (spawn_handler_call _ _) as [o s1]. intros [= _ <-]. by apply (permits_ok_same s1).
    + intros [= _ <-]. by apply (permits_ok_same s).
  - destruct (queue_pop now pick (en_deadlines s)) as [[entry queue]|]; [|done]. cbn.
    destruct (en_works s !! entry.1) as [w|]; [|intros [= _ <-]; by apply (permits_ok_same s)].
    destruct (on_debounce_deadline _ _ _) as [call w']. intros H. injection H as H.
    match type of H with spawn_notify_call ?i ?c ?s0 = _ => pose proof (spawn_notify_permits_ok i c s0) as Hs end.
    rewrite H in Hs. by apply Hs, (permits_ok_same s).
  - destruct (en_tasks s !! channel) as [ids|]; [|by intros [= _ <-]]. intros H. injection H as H.
    assert (Hgen : ∀ ids acc, permits_ok acc.2 → permits_ok (foldl (notify_one now payload) acc ids).2).
    { intros l. induction l as [|id l IH]; intros acc Ha; [done|]. cbn. apply IH. apply notify_one_keeps; [..|done].
      - intros s0 v. by apply permits_ok_same.
      - intros s0 v q. by apply permits_ok_same.
      - intros s0 i c. apply spawn_notify_permits_ok. }
    specialize (Hgen ids ([], s) Hp). by rewrite H in Hgen.
  - destruct (en_completions s) as [|c cs] eqn:Hc; [done|]. intros [= _ <-]. destruct Hp as (H0 & H1 & H2).
    rewrite Hc in H2. unfold permits_ok, zlen in *. cbn in *. lia.
  - intros [= _ <-]. destruct Hp as (H0 & H1 & H2). unfold permits_ok, zlen in *. cbn. lia.
  - destruct (en_running s !! i) as [c|] eqn:Hi; [|done]. intros [= _ <-]. destruct Hp as (H0 & H1 & H2).
    unfold permits_ok. cbn. rewrite (zlen_delete _ _ _ Hi). lia.
  - destruct (en_running s !! i) as [c|] eqn:Hi; [|done]. intros [= _ <-]. destruct Hp as (H0 & H1 & H2).
    unfold permits_ok. cbn. rewrite (zlen_delete _ _ _ Hi). lia.
  - destruct (en_sending s !! i) as [c|] eqn:Hi; [|done]. destruct (en_live s); [|intros [= _ <-]; by apply (permits_ok_same s)].
    destruct (_ <? _) eqn:Hlt; [|done]. intros [= _ <-]. destruct Hp as (H0 & H1 & H2).
    unfold permits_ok, zlen in *. cbn. rewrite length_app. cbn. lia.
  - apply worker_event_ok; [|destruct Hp; lia|done]. intros w w' H. rewrite (proj1 (worker_phases now (Err ""%string) 0 true w w')); auto; lia.
  - destruct (en_free s <=? 0) eqn:Hf; [done|]. apply worker_event_ok; [|lia|done].
    intros w w' H. destruct (proj1 (proj2 (worker_phases 0 (Err ""%string) 0 true w w')) H) as [-> ->]. done.
  - apply worker_event_ok; [|destruct Hp; lia|done].
    intros w w' H. destruct (proj2 (proj2 (worker_phases now answer at_ true w w')) H) as [-> ->]. done.
  - apply worker_event_ok; [|destruct Hp; lia|done]. intros w w' H.
    rewrite (proj1 (worker_phases now (Err ""%string) 0 accepted w w')); auto; lia.
  - apply worker_event_ok; [|destruct Hp; lia|done]. intros w w' H.
    rewrite (proj1 (worker_phases 0 (Err ""%string) 0 true w w')); auto; lia.
Qed.

Lemma add_emitters_permits clock l s : permits_ok s → permits_ok (foldl (add_emitter clock) s l).
Proof.
  revert s. induction l as [|e l IH]; intros s Hs; [done|]. cbn. apply IH. unfold add_emitter.
  case_bool_decide; [done|]. destruct (em_source e); by apply (permits_ok_same s).
Qed.

Lemma add_emitters_conf clock l s : en_conf (foldl (add_emitter clock) s l) = en_conf s.
Proof.
  revert s. induction l as [|e l IH]; intros s; [done|]. cbn. rewrite IH. unfold add_emitter.
  case_bool_decide; [done|]. by destruct (em_source e).
Qed.

Lemma engine_new_permits conf works : permits_ok (engine_new conf (omap worker_start works)).
Proof.
  assert (Hz : List.filter producing (omap worker_start works) = []).
  { induction works as [|w works IH]; [done|]. cbn. unfold worker_start at 1. by destruct (initial_deadline _ _). }
  unfold permits_ok, holding. cbn. rewrite Hz. unfold max_in_flight_handlers, zlen. cbn. lia.
Qed.

(** In every reachable state of an engine the free permits, the handlers it
    spawned that still run and the schedule workers inside a producer are
    together the configured limit: no more handlers than that ever run at once,
    however they end, and no permit is lost; nor do more answers wait in the
    channel. *)
Theorem handlers_stay_within_the_limit conf r outs s :
  engine_reach conf r outs s →
  en_free s + zlen (en_running s) + holding (en_workers s) = max_in_flight_handlers conf ∧
  0 ≤ en_free s ∧ zlen (en_completions s) ≤ max_in_flight_handlers conf.
Proof.
  intros (snapshot & consume & clock & s0 & ls & Hstart & Hrun).
  apply engine_start_new in Hstart as [works ->].
  destruct (engine_run_keeps permits_ok engine_step_permits ls _ outs s
    (add_emitters_permits clock _ _ (engine_new_permits conf works)) Hrun) as (H1 & H2 & H3).
  assert (Hc : en_conf s = conf).
  { eapply (engine_run_keeps (λ s, en_conf s = conf)); [| |exact Hrun]; [|by rewrite add_emitters_conf].
    intros l s1 out s2 Hs Hstep. by rewrite (engine_step_conf _ _ _ _ Hstep). }
  by rewrite Hc in H2, H3.
Qed.
End Permits.

(** ** Timers *)

Section Timers.
Context `{X : Externals, R : CronExternals}.

Definition timer_id (w : TimerWork) : TypeId * N :=
  (tw_type_id w, match tw_kind w with TimerCron _ => 0 | TimerInterval _ => 1 end%N).
Definition fired_at (w : TimerWork) : Z := default 0 (tw_last w).

(** When a timer is due after a time: its interval later, or at the next occurrence. *)
Definition timer_next (kind : TimerKind) (t : DateTime) : option DateTime :=
  match kind with
  | TimerInterval interval => Some (t + interval)
  | TimerCron schedule => cron_after schedule t
  end.

Definition is_firing (id : TypeId * N) (e : EngineEvent) : bool :=
  match e with Fired w => bool_decide (timer_id w = id) | _ => false end.
Definition firings (id : TypeId * N) (outs : list EngineEvent) : Z := zlen (List.filter (is_firing id) outs).

(** No other timer has the type. *)
Definition alone (r : EmitterRegistry) (t : TypeId) : Prop :=
  r !! KeySignal t 0%N = None ∨ r !! KeySignal t 1%N = None.

(** What is true of a waiting timer, [off] being the difference of the clocks. *)
Record timer_ok (r : EmitterRegistry) (off t : Z) (outs : list EngineEvent) (q : TimerQueue) (w : TimerWork) :
    Prop := {
  to_deadline l x b : tw_last w = Some l → x ≤ l → timer_next (tw_kind w) (x + off) = Some b → b ≤ tw_deadline w + off;
  to_past l : tw_last w = Some l → l ≤ t;
  to_fired w' : Fired w' ∈ outs → timer_id w' = timer_id w → ∃ l, tw_last w = Some l ∧ fired_at w' ≤ l;
  to_touched now : alone r (tw_type_id w) → Touched (tw_type_id w) now ∈ outs →
    (∃ l, tw_last w = Some l ∧ now ≤ l) ∨ (∃ u, tq_timeout_map q !! tw_type_id w = Some u ∧ now ≤ u);
  to_count : tw_iter_count w = firings (timer_id w) outs mod (U64_MAX + 1);
  to_registered : is_Some (r !! KeySignal (timer_id w).1 (timer_id w).2) }.

Record queue_ok (r : EmitterRegistry) (off t : Z) (outs : list EngineEvent) (q : TimerQueue) : Prop := {
  qo_timers : Forall (timer_ok r off t outs q) (tq_heap q);
  qo_ids : NoDup (timer_id <$> tq_heap q);
  qo_timeouts ty u : tq_timeout_map q !! ty = Some u → u ≤ t;
  qo_touched ty now : Touched ty now ∈ outs → now ≤ t }.

(** A deadline is no earlier than what is due after any time before it was made. *)
Lemma make_deadline_due `{!CronLaws R} clock last kind off x b :
  ck_utc clock = ck_instant clock + off → last ≤ ck_instant clock → x ≤ last →
  timer_next kind (x + off) = Some b → b ≤ make_deadline clock (Some last) kind + off.
Proof.
  intros Hoff Hlast Hx Hb. destruct kind as [s|d]; cbn in *; [|injection Hb as <-; lia].
  apply cron_after_spec in Hb as (Ho & Hlt & Hleast). rewrite Hoff.
  destruct (decide (b ≤ ck_instant clock + off)) as [Hle|Hgt]; [lia|].
  destruct (cron_after_some s (ck_instant clock + off) b Ho ltac:(lia)) as [n Hn]. rewrite Hn. cbn.
  apply cron_after_spec in Hn as (Hno & Hnlt & _). pose proof (Hleast n Hno ltac:(lia)). lia.
Qed.

Lemma u64_count n : u64_wrapping_add (n mod (U64_MAX + 1)) 1 = (n + 1) mod (U64_MAX + 1).
Proof. unfold u64_wrapping_add, U64_MAX. by rewrite Zplus_mod_idemp_l. Qed.

Lemma firings_app id outs outs' : firings id (outs ++ outs') = firings id outs + firings id outs'.
Proof. unfold firings, zlen. rewrite List.filter_app, length_app. lia. Qed.

(** Events that are about no timer. *)
Definition untimed (e : EngineEvent) : bool := match e with Fired _ | Touched _ _ => false | _ => true end.
Lemma firings_untimed id out : Forall untimed out → firings id out = 0.
Proof. unfold firings, zlen. induction 1 as [|e out He _ IH]; [done|]. cbn. by destruct e. Qed.

Lemma elem_of_untimed e outs out : Forall untimed out → untimed e = false → e ∈ outs ++ out → e ∈ outs.
Proof.
  intros Hall He Hin. apply list_elem_of_In, in_app_or in Hin as [Hin|Hin]; apply list_elem_of_In in Hin; [done|].
  rewrite Forall_forall in Hall. specialize (Hall e Hin). by rewrite He in Hall.
Qed.

Lemma queue_ok_untimed r off t t' outs out q :
  Forall untimed out → t ≤ t' → queue_ok r off t outs q → queue_ok r off t' (outs ++ out) q.
Proof.
  intros Hout Ht [Htimers Hids Htime Htouch]. split.
  - eapply Forall_impl; [exact Htimers|]. intros w [H1 H2 H3 H4 H5 H6]. split; [done| | | | |done].
    + intros l Hl. apply H2 in Hl. lia.
    + intros w' Hin. apply H3. by apply (elem_of_untimed _ _ out).
    + intros now Ha Hin. apply H4; [done|]. by apply (elem_of_untimed _ _ out).
    + by rewrite firings_app, (firings_untimed _ out), Z.add_0_r.
  - done.
  - intros ty u Hu. apply Htime in Hu. lia.
  - intros ty now Hin. apply (elem_of_untimed _ _ out) in Hin; [|done|done]. apply Htouch in Hin. lia.
Qed.

Lemma queue_ok_touch r off t now outs q ty :
  t ≤ now → queue_ok r off t outs q → queue_ok r off now (outs ++ [Touched ty now]) (timer_touch ty now q).
Proof.
  intros Ht [Htimers Hids Htime Htouch].
  assert (Hin : ∀ e, e ∈ outs ++ [Touched ty now] → e ∈ outs ∨ e = Touched ty now).
  { intros e H. apply list_elem_of_In, in_app_or in H as [H|[H|[]]]; [left; by apply list_elem_of_In|by right]. }
  split.
  - eapply Forall_impl; [exact Htimers|]. intros w [H1 H2 H3 H4 H5 H6]. split; [done| | | | |done].
    + intros l Hl. apply H2 in Hl. lia.
    + intros w' [H|H]%Hin; [by apply H3|done].
    + intros now' Ha Hto. cbn. destruct (decide (ty = tw_type_id w)) as [->|Hne].
      * right. exists now. rewrite lookup_insert_eq. split; [done|]. apply Hin in Hto as [H|H].
        -- apply Htouch in H. lia.
        -- injection H as ->. lia.
      * rewrite lookup_insert_ne by done. apply H4; [done|]. apply Hin in Hto as [H|H]; [done|].
        injection H as H _. by destruct Hne.
    + rewrite firings_app. unfold firings at 2. cbn. by rewrite Z.add_0_r.
  - done.
  - intros ty' u. cbn. destruct (decide (ty = ty')) as [->|Hne].
    + rewrite lookup_insert_eq. intros [= <-]. lia.
    + rewrite lookup_insert_ne by done. intros Hu. apply Htime in Hu. lia.
  - intros ty' now' [H|H]%Hin; [apply Htouch in H; lia|]. injection H as -> ->. lia.
Qed.

(** A timer that a notification puts off. *)
Definition deferred (clock : Clock) (u : Z) (w : TimerWork) : TimerWork :=
  {| tw_type_id := tw_type_id w; tw_last := Some u; tw_kind := tw_kind w; tw_producer := tw_producer w;
     tw_deadline := make_deadline clock (Some u) (tw_kind w); tw_iter_count := tw_iter_count w;
     tw_last_time := tw_last_time w |}.

Lemma timer_turn_spec clock pick q res q' :
  timer_turn clock pick q = Some (res, q') →
  ∃ w, tq_heap q !! pick = Some w ∧ tw_deadline w ≤ ck_instant clock ∧
    let rest := delete pick (tq_heap q) in
    let timeouts := delete (tw_type_id w) (tq_timeout_map q) in
    match res with
    | Some w' => w' = timer_update clock w ∧ q' = {| tq_heap := rest; tq_timeout_map := timeouts |} ∧
        ∀ u, tq_timeout_map q !! tw_type_id w = Some u → ∃ l, tw_last w = Some l ∧ u ≤ l
    | None => ∃ u, tq_timeout_map q !! tw_type_id w = Some u ∧ (∀ l, tw_last w = Some l → l < u) ∧
        q' = {| tq_heap := rest ++ [deferred clock u w]; tq_timeout_map := timeouts |}
    end.
Proof.
  unfold timer_turn. destruct (tq_heap q !! pick) as [w|] eqn:Hw; [|done].
  destruct (_ && _) eqn:Hdue; [|done]. apply andb_true_iff in Hdue as [_ Hdue]. intros H. exists w.
  split; [done|]. split; [lia|]. cbn. destruct (tq_timeout_map q !! tw_type_id w) as [u|] eqn:Hu; cbn in H.
  - unfold update_deadline in H. destruct (tw_last w) as [l|] eqn:Hl; cbn in H; [destruct (u <=? l) eqn:Hle|].
    + injection H as <- <-. split; [done|]. split; [done|]. intros u' [= <-]. exists l. split; [done|lia].
    + injection H as <- <-. exists u. split; [done|]. split; [intros l' [= <-]; lia|done].
    + injection H as <- <-. exists u. done.
  - injection H as <- <-. split; [done|]. split; [done|]. by intros u [=].
Qed.

(** What a firing timer promises about what came before. *)
Record firing_ok (r : EmitterRegistry) (off : Z) (before : list EngineEvent) (w : TimerWork) : Prop := {
  fo_after_firings w' b : Fired w' ∈ before → timer_id w' = timer_id w →
    timer_next (tw_kind w) (fired_at w' + off) = Some b → b ≤ fired_at w + off;
  fo_after_touches now b : alone r (tw_type_id w) → Touched (tw_type_id w) now ∈ before →
    timer_next (tw_kind w) (now + off) = Some b → b ≤ fired_at w + off;
  fo_count : tw_iter_count w = (firings (timer_id w) before + 1) mod (U64_MAX + 1) }.

Lemma ids_delete (q : TimerQueue) pick w w' :
  NoDup (timer_id <$> tq_heap q) → tq_heap q !! pick = Some w → timer_id w' = timer_id w →
  NoDup (timer_id <$> delete pick (tq_heap q) ++ [w']) ∧
  Forall (λ v, timer_id v ≠ timer_id w) (delete pick (tq_heap q)).
Proof.
  intros Hnd Hw Hid.
  assert (Hp : timer_id <$> tq_heap q ≡ₚ timer_id w :: (timer_id <$> delete pick (tq_heap q))).
  { rewrite <- fmap_cons. apply fmap_Permutation. by apply delete_Permutation. }
  rewrite Hp in Hnd. apply NoDup_cons in Hnd as [Hni Hnd]. split.
  - rewrite fmap_app. cbn. rewrite Hid. rewrite Permutation_app_comm. by apply NoDup_cons.
  - apply Forall_forall. intros v Hv He. apply Hni. rewrite <- He. by apply list_elem_of_fmap_2.
Qed.

(** Two timers of one type are not alone. *)
Lemma alone_same r off t outs q v w :
  timer_ok r off t outs q v → timer_ok r off t outs q w → tw_type_id v = tw_type_id w → alone r (tw_type_id v) →
  timer_id v = timer_id w.
Proof.
  intros [_ _ _ _ _ Hv] [_ _ _ _ _ Hw] Ht Ha. unfold timer_id in *. cbn in *. rewrite <- Ht in *. f_equal.
  destruct (tw_kind v), (tw_kind w), Ha as [Ha|Ha]; try done; rewrite Ha in *; by (destruct Hv as [? [=]] || destruct Hw as [? [=]]).
Qed.

(** The other timers stay what they are when one leaves the queue, and fires or not. *)
Lemma others_ok r off t t' outs out q heap v w :
  t ≤ t' → timer_ok r off t outs q v → timer_ok r off t outs q w → timer_id w ≠ timer_id v →
  Forall (λ e, ∃ v', e = Fired v' ∧ timer_id v' = timer_id v) out →
  timer_ok r off t' (outs ++ out) {| tq_heap := heap; tq_timeout_map := delete (tw_type_id v) (tq_timeout_map q) |} w.
Proof.
  intros Ht Hv Hw Hne Hout. rewrite Forall_forall in Hout.
  assert (Hin : ∀ e, e ∈ outs ++ out → e ∈ outs ∨ ∃ v', e = Fired v' ∧ timer_id v' = timer_id v).
  { intros e H. apply list_elem_of_In, in_app_or in H as [H|H]; apply list_elem_of_In in H; [by left|right]. by apply Hout. }
  pose proof Hw as [H1 H2 H3 H4 H5 H6]. split; [done| | | | |done].
  - intros l Hl. apply H2 in Hl. lia.
  - intros w' [H|(v' & [= ->] & Hid)]%Hin He; [by apply H3|]. congruence.
  - intros now Ha [H|(v' & ? & _)]%Hin; [|done]. cbn. destruct (decide (tw_type_id v = tw_type_id w)) as [He|Hd].
    + destruct Hne. symmetry. eapply alone_same; [done..|by rewrite He].
    + rewrite lookup_delete_ne by done. by apply H4.
  - rewrite firings_app, H5. assert (firings (timer_id w) out = 0) as ->; [|by rewrite Z.add_0_r].
    unfold firings, zlen. clear -Hout Hne. induction out as [|e out IH]; [done|]. cbn.
    destruct (Hout e ltac:(by left)) as (v' & -> & Hid). cbn. rewrite bool_decide_false by congruence.
    apply IH. intros e' He'. apply Hout. by right.
Qed.

Lemma queue_ok_fire `{!CronLaws R} r off t outs q clock pick w q' :
  ck_utc clock = ck_instant clock + off → t ≤ ck_instant clock →
  queue_ok r off t outs q → timer_turn clock pick q = Some (Some w, q') →
  queue_ok r off (ck_instant clock) (outs ++ [Fired w]) (timer_push w q') ∧ firing_ok r off outs w.
Proof.
  intros Hoff Ht [Htimers Hids Htime Htouch] Hturn.
  apply timer_turn_spec in Hturn as (v & Hv & Hdue & -> & -> & Hpend).
  assert (Hvok : timer_ok r off t outs q v) by (by eapply Forall_lookup_1).
  destruct (ids_delete q pick v (timer_update clock v) Hids Hv eq_refl) as [Hnd Hothers].
  assert (Hin : ∀ e, e ∈ outs ++ [Fired (timer_update clock v)] → e ∈ outs ∨ e = Fired (timer_update clock v)).
  { intros e H. apply list_elem_of_In, in_app_or in H as [H|[H|[]]]; [left; by apply list_elem_of_In|by right]. }
  split.
  - split; [| done | |].
    + cbn. apply Forall_app. split; [|apply Forall_cons; split; [|done]].
      * apply Forall_forall. intros u Hu. rewrite Forall_forall in Hothers, Htimers.
        apply (others_ok r off t); [done|done| |by apply Hothers|apply Forall_cons; split; [by eexists|done]].
        apply Htimers. rewrite (delete_Permutation _ _ _ Hv). by right.
      * destruct Hvok as [H1 H2 H3 H4 H5 H6]. split; [| | | | |done].
        -- cbn. intros l x b [= <-] Hx. by apply (make_deadline_due clock (ck_instant clock) (tw_kind v)).
        -- cbn. intros l [= <-]. lia.
        -- intros w' Hw' Hid. exists (ck_instant clock). split; [done|]. apply Hin in Hw' as [H|H].
           ++ destruct (H3 _ H Hid) as (l & Hl & Hle). apply H2 in Hl. lia.
           ++ injection H as ->. cbn. lia.
        -- intros now _ [H|H]%Hin; [|done]. left. exists (ck_instant clock). split; [done|]. apply Htouch in H. lia.
        -- rewrite firings_app. unfold firings at 2. cbn [List.filter is_firing]. rewrite bool_decide_true by done.
           change (timer_id (timer_update clock v)) with (timer_id v). cbn. rewrite H5, u64_count. done.
    + cbn. intros ty u Hu. destruct (decide (tw_type_id v = ty)) as [<-|Hne].
      * by rewrite lookup_delete_eq in Hu.
      * rewrite lookup_delete_ne in Hu by done. apply Htime in Hu. lia.
    + intros ty now [H|H]%Hin; [|done]. apply Htouch in H. lia.
  - destruct Hvok as [H1 H2 H3 H4 H5 H6]. split.
    + intros w' b Hw' Hid Hb. destruct (H3 w' Hw' Hid) as (l & Hl & Hle).
      pose proof (H1 l (fired_at w') b Hl Hle Hb). cbn. lia.
    + intros now b Ha Hto Hb. cbn in Ha, Hto, Hb. cbn.
      assert (∃ l, tw_last v = Some l ∧ now ≤ l) as (l & Hl & Hle).
      { destruct (H4 now Ha Hto) as [H|(u & Hu & Hle)]; [done|]. destruct (Hpend u Hu) as (l & Hl & Hul).
        exists l. split; [done|lia]. }
      pose proof (H1 l now b Hl Hle Hb). lia.
    + cbn. change (timer_id (timer_update clock v)) with (timer_id v). rewrite H5. by rewrite u64_count.
Qed.

Lemma queue_ok_defer `{!CronLaws R} r off t outs q clock pick q' :
  ck_utc clock = ck_instant clock + off → t ≤ ck_instant clock →
  queue_ok r off t outs q → timer_turn clock pick q = Some (None, q') →
  queue_ok r off (ck_instant clock) outs q'.
Proof.
  intros Hoff Ht [Htimers Hids Htime Htouch] Hturn.
  apply timer_turn_spec in Hturn as (v & Hv & Hdue & u & Hu & Hlast & ->).
  assert (Hvok : timer_ok r off t outs q v) by (by eapply Forall_lookup_1).
  destruct (ids_delete q pick v (deferred clock u v) Hids Hv eq_refl) as [Hnd Hothers].
  split; [| done | |].
  - cbn. apply Forall_app. split; [|apply Forall_cons; split; [|done]].
    + apply Forall_forall. intros w Hw. rewrite Forall_forall in Hothers, Htimers. rewrite <- (app_nil_r outs).
      apply (others_ok r off t); [done|done| |by apply Hothers|done].
      apply Htimers. rewrite (delete_Permutation _ _ _ Hv). by right.
    + destruct Hvok as [H1 H2 H3 H4 H5 H6]. pose proof (Htime _ _ Hu). split; [| | | |done|done].
      * cbn. intros l x b [= <-] Hx. apply (make_deadline_due clock u (tw_kind v)); [done|lia|done].
      * cbn. intros l [= <-]. lia.
      * intros w' Hw' Hid. exists u. split; [done|]. destruct (H3 w' Hw' Hid) as (l & Hl & Hle). apply Hlast in Hl. lia.
      * intros now Ha Hin. left. exists u. split; [done|]. cbn in Ha, Hin.
        destruct (H4 now Ha Hin) as [(l & Hl & Hle)|(u' & Hu' & Hle)]; [apply Hlast in Hl; lia|]. congruence.
  - cbn. intros ty x Hx. destruct (decide (tw_type_id v = ty)) as [<-|Hne].
    + by rewrite lookup_delete_eq in Hx.
    + rewrite lookup_delete_ne in Hx by done. apply Htime in Hx. lia.
  - intros ty now Hin. apply Htouch in Hin. lia.
Qed.

(** ** Over the runs of an engine *)

(** The instant a step of the loop reads, and clocks that advance together. *)
Definition step_instant (l : EngineLabel) : option Z :=
  match l with
  | ETimer clock _ => Some (ck_instant clock)
  | EDeadline now _ | ENotify now _ _ => Some now
  | _ => None
  end.
Definition in_step (off : Z) (l : EngineLabel) : Prop :=
  match l with ETimer clock _ => ck_utc clock = ck_instant clock + off | _ => True end.
Fixpoint instants_from (t : Z) (ls : list EngineLabel) : Prop :=
  match ls with
  | [] => True
  | l :: ls => match step_instant l with Some now => t ≤ now ∧ instants_from now ls | None => instants_from t ls end
  end.

Definition firings_ok (r : EmitterRegistry) (off : Z) (outs : list EngineEvent) : Prop :=
  ∀ before w after, outs = before ++ Fired w :: after → firing_ok r off before w.

Lemma firings_ok_app r off outs out :
  firings_ok r off outs → (∀ before w after, out = before ++ Fired w :: after → firing_ok r off (outs ++ before) w) →
  firings_ok r off (outs ++ out).
Proof.
  intros Houts Hout before w after H. apply app_eq_app in H as (mid & [[-> H]|[-> H]]).
  - destruct mid as [|e mid]; cbn in H.
    + specialize (Hout [] w after (eq_sym H)). by rewrite !app_nil_r in Hout.
    + injection H as <- ->. by eapply Houts.
  - by eapply Hout.
Qed.

Lemma untimed_firings out before w after : Forall untimed out → out = before ++ Fired w :: after → False.
Proof.
  intros Hall ->. apply Forall_app in Hall as [_ Hall]. by apply Forall_cons in Hall as [? _].
Qed.

Lemma spawn_untimed call s :
  Forall untimed (spawn_handler_call call s).1 ∧ en_timers (spawn_handler_call call s).2 = en_timers s.
Proof. unfold spawn_handler_call. destruct (_ <=? _); cbn; by repeat constructor. Qed.
Lemma spawn_notify_untimed id call s :
  Forall untimed (spawn_notify_call id call s).1 ∧
  en_timers (spawn_notify_call id call s).2 = en_timers s.
Proof.
  destruct call as [c|]; [|by split; [constructor|]]. cbn. pose proof (spawn_untimed (handler_call c) s) as [H1 H2].
  destruct (spawn_handler_call _ s) as [o s']. cbn in *. split; [by constructor|done].
Qed.

(** What a step must do for the timers. *)
Definition timers_kept (r : EmitterRegistry) (off t t' : Z) (outs out : list EngineEvent) (s s' : EngineState) : Prop :=
  queue_ok r off t outs (en_timers s) →
  queue_ok r off t' (outs ++ out) (en_timers s') ∧
  ∀ before w after, out = before ++ Fired w :: after → firing_ok r off (outs ++ before) w.

Lemma untimed_kept r off t t' outs out s s' :
  Forall untimed out → en_timers s' = en_timers s → t ≤ t' → timers_kept r off t t' outs out s s'.
Proof.
  intros Hout Hs Ht Hq. split; [rewrite Hs; by apply (queue_ok_untimed r off t)|]. intros before w after H.
  by destruct (untimed_firings _ _ _ _ Hout H).
Qed.

Lemma notify_kept r off t now payload outs ids out s :
  t ≤ now →
  queue_ok r off t (outs ++ out) (en_timers s) → (∀ before w after, out ≠ before ++ Fired w :: after) →
  let '(out', s') := foldl (notify_one now payload) (out, s) ids in
  queue_ok r off now (outs ++ out') (en_timers s') ∧ ∀ before w after, out' ≠ before ++ Fired w :: after.
Proof.
  intros Ht. revert t Ht out s. induction ids as [|id ids IH]; intros t Ht out s Hq Hf; cbn.
  { split; [|done]. rewrite <- (app_nil_r (outs ++ out)). by apply (queue_ok_untimed r off t). }
  destruct (en_works s !! id) as [w|]; [|by apply (IH t)].
  destruct (on_notify now payload w (en_deadlines s)) as [[call w'] queue].
  match goal with |- context [spawn_notify_call id call ?s0] => set (s1 := s0) end.
  pose proof (spawn_notify_untimed id call s1) as [Hun Htm].
  destruct (spawn_notify_call id call s1) as [o s2]. cbn in Hun, Htm. apply (IH now); [done| |].
  - rewrite Htm. rewrite app_assoc. rewrite (cons_middle _ (outs ++ out)), app_assoc.
    apply (queue_ok_untimed r off now now); [done|done|]. by apply (queue_ok_touch r off t).
  - intros before v after H. apply app_eq_app in H as (mid & [[-> H]|[-> H]]).
    + destruct mid as [|e mid]; cbn in H; [done|]. injection H as <- _. by eapply Hf.
    + destruct mid as [|e mid]; cbn in H; [done|]. injection H as <- H. by eapply untimed_firings.
Qed.

Lemma engine_step_timers `{!CronLaws R} r off t outs l s out s' :
  in_step off l → (∀ now, step_instant l = Some now → t ≤ now) → engine_step l s = Some (out, s') →
  timers_kept r off t (default t (step_instant l)) outs out s s'.
Proof.
  intros Hoff Ht. destruct l as [clock pick|now pick|now channel payload| | |i answer|i|i|i now|i|i answer now at_|i accepted now|i];
    cbn [engine_step step_instant default] in *; try specialize (Ht _ eq_refl);
    try (destruct (en_live s); [|done]; cbn [loop_step]).
  - destruct (timer_turn clock pick (en_timers s)) as [[[w|] q]|] eqn:Hturn; [| |done].
    + pose proof (spawn_untimed (timer_call w) (put_timers q s)) as [Hun Htm].
      destruct (spawn_handler_call _ _) as [o s1]. intros [= <- <-] Hq. cbn in *. rewrite Htm.
      destruct (queue_ok_fire r off t outs _ clock pick w q Hoff Ht Hq Hturn) as [Hq' Hfire]. split.
      * rewrite (cons_middle _ outs), app_assoc. by apply (queue_ok_untimed r off (ck_instant clock)).
      * intros before v after H. destruct before as [|e before]; cbn in H; injection H as <- H.
        -- by rewrite app_nil_r.
        -- by destruct (untimed_firings _ _ _ _ Hun H).
    + intros [= <- <-] Hq. rewrite app_nil_r. split; [by eapply queue_ok_defer|]. intros before v after H. by destruct before.
  - destruct (queue_pop now pick (en_deadlines s)) as [[entry queue]|]; [|done]. cbn.
    destruct (en_works s !! entry.1) as [w|]; [|by intros [= <- <-]; apply untimed_kept].
    destruct (on_debounce_deadline _ _ _) as [call w']. intros H. injection H as H.
    match type of H with spawn_notify_call ?i ?c ?s0 = _ => pose proof (spawn_notify_untimed i c s0) as [Hun Htm] end.
    rewrite H in Hun, Htm. by apply untimed_kept.
  - destruct (en_tasks s !! channel) as [ids|]; [|by intros [= <- <-]; apply untimed_kept].
    intros H. injection H as H. intros Hq.
    pose proof (notify_kept r off t now payload outs ids [] s Ht) as Hn. rewrite H, app_nil_r in Hn.
    destruct Hn as [Hn Hf]; [done|by intros []|]. split; [done|]. intros before w after Hx. by destruct (Hf before w after).
  - destruct (en_completions s) as [|c cs]; [done|]. intros [= <- <-]. apply untimed_kept; [|done|done].
    destruct (hn_result c); by repeat constructor.
  - intros [= <- <-]. by apply untimed_kept.
  - destruct (en_running s !! i); [|done]. intros [= <- <-]. by apply untimed_kept.
  - destruct (en_running s !! i); [|done]. intros [= <- <-]. by apply untimed_kept.
  - destruct (en_sending s !! i); [|done]. destruct (en_live s); [|by intros [= <- <-]; apply untimed_kept].
    destruct (_ <? _); [|done]. intros [= <- <-]. by apply untimed_kept.
  - unfold worker_event. destruct (_ !! i); [|done]. destruct (worker_wake _ _); [|done]. intros [= <- <-]. by apply untimed_kept.
  - destruct (_ <=? _); [done|]. unfold worker_event. destruct (_ !! i); [|done]. destruct (worker_acquire _); [|done].
    intros [= <- <-]. by apply untimed_kept.
  - unfold worker_event. destruct (_ !! i); [|done]. destruct (worker_produced _ _ _ _); [|done]. intros [= <- <-]. by apply untimed_kept.
  - unfold worker_event. destruct (_ !! i); [|done]. destruct (worker_submitted _ _ _); [|done]. intros [= <- <-]. by apply untimed_kept.
  - unfold worker_event. destruct (_ !! i); [|done]. destruct (worker_stop _); [|done]. intros [= <- <-]. by apply untimed_kept.
Qed.

Lemma engine_run_timers `{!CronLaws R} r off ls t outs s outs' s' :
  Forall (in_step off) ls → instants_from t ls → queue_ok r off t outs (en_timers s) → firings_ok r off outs →
  engine_run ls s = Some (outs', s') → firings_ok r off (outs ++ outs').
Proof.
  revert t outs s outs'. induction ls as [|l ls IH]; intros t outs s outs' Hin Ht Hq Hf Hrun; cbn in Hrun.
  { injection Hrun as <- _. by rewrite app_nil_r. }
  apply Forall_cons in Hin as [Hl Hin].
  destruct (engine_step l s) as [[out s1]|] eqn:Hstep; [|done].
  destruct (engine_run ls s1) as [[rest s2]|] eqn:Hrest; [|done]. injection Hrun as <- <-.
  assert (Hclock : (∀ now, step_instant l = Some now → t ≤ now) ∧ instants_from (default t (step_instant l)) ls).
  { cbn in Ht. destruct (step_instant l); cbn; [|done]. split; [intros ? [= <-]; apply Ht|apply Ht]. }
  destruct Hclock as [Hnow Hls].
  destruct (engine_step_timers r off t outs l s out s1 Hl Hnow Hstep Hq) as [Hq1 Hf1].
  rewrite app_assoc. eapply IH; [done|exact Hls|exact Hq1|by apply firings_ok_app|exact Hrest].
Qed.

(** The timer of an emitter. *)
Definition emitter_timer (clock : Clock) (e : Emitter) : option TimerWork :=
  if bool_decide (em_executor e = ExecTask) then None
  else match em_source e with
       | SourcePeriodic interval handler => Some (timer_work_new clock (em_type_id e) (TimerInterval interval) handler)
       | SourceCron schedule handler => Some (timer_work_new clock (em_type_id e) (TimerCron schedule) handler)
       | SourcePgNotify _ _ _ => None
       end.

Lemma add_emitters_timers clock l s :
  tq_heap (en_timers (foldl (add_emitter clock) s l)) = tq_heap (en_timers s) ++ omap (emitter_timer clock) l ∧
  tq_timeout_map (en_timers (foldl (add_emitter clock) s l)) = tq_timeout_map (en_timers s).
Proof.
  revert s. induction l as [|e l IH]; intros s; cbn; [by rewrite app_nil_r|].
  destruct (IH (add_emitter clock s e)) as [-> ->]. unfold add_emitter, emitter_timer.
  case_bool_decide; [done|]. destruct (em_source e); cbn; [by rewrite <- app_assoc..|done].
Qed.

Lemma emitter_timer_id r clock k e w :
  registry_keyed r → r !! k = Some e → emitter_timer clock e = Some w → KeySignal (timer_id w).1 (timer_id w).2 = k.
Proof.
  intros Hr Hk Hw. destruct (Hr k e Hk) as [<- [_ He]]. unfold emitter_timer, emitter_key in *.
  case_bool_decide as Hx; [done|]. destruct (em_executor e); [|done]. destruct (em_schedule e); [done|].
  by destruct (em_source e); simplify_eq.
Qed.

Lemma start_queue_ok r clock off works conf :
  emitters_built r →
  queue_ok r off (ck_instant clock) [] (en_timers (foldl (add_emitter clock) (engine_new conf works) (map_to_list r).*2)).
Proof.
  intros Hr%built_keyed. destruct (add_emitters_timers clock (map_to_list r).*2 (engine_new conf works)) as [Hheap Hto].
  split; rewrite ?Hheap, ?Hto; cbn.
  - apply Forall_forall. intros w Hw. apply list_elem_of_omap in Hw as (e & He & Hw).
    apply list_elem_of_fmap in He as ([k e'] & -> & He). unfold EmitterRegistry in *. apply elem_of_map_to_list in He.
    cbn in Hw. pose proof (emitter_timer_id r clock k e' w Hr He Hw) as Hid.
    unfold emitter_timer in Hw. split.
    + intros l x b Hl. case_bool_decide; [done|]. by destruct (em_source e'); simplify_eq.
    + intros l Hl. case_bool_decide; [done|]. by destruct (em_source e'); simplify_eq.
    + by intros w' H%elem_of_nil.
    + by intros now _ H%elem_of_nil.
    + case_bool_decide; [done|]. by destruct (em_source e'); simplify_eq.
    + rewrite Hid. by eexists.
  - assert (Hgen : ∀ l, NoDup l.*1 → (∀ k e, (k, e) ∈ l → r !! k = Some e) →
      NoDup (timer_id <$> omap (emitter_timer clock) l.*2)).
    { intros l. induction l as [|[k e] l IH]; intros Hnd Hl; [constructor|]. cbn in *. apply NoDup_cons in Hnd as [Hni Hnd].
      specialize (IH Hnd (λ k' e' H, Hl k' e' ltac:(by right))).
      destruct (emitter_timer clock e) as [w|] eqn:Hw; cbn; [|done]. apply NoDup_cons. split; [|done].
      intros Hin. apply Hni. apply list_elem_of_fmap in Hin as (w' & Hid & Hin). apply list_elem_of_omap in Hin as (e' & He' & Hw').
      apply list_elem_of_fmap in He' as ([k' e''] & -> & He').
      pose proof (emitter_timer_id r clock k e w Hr (Hl _ _ ltac:(by left)) Hw) as H1.
      pose proof (emitter_timer_id r clock k' e'' w' Hr (Hl _ _ ltac:(by right)) Hw') as H2.
      apply list_elem_of_fmap. exists (k', e''). split; [|done]. cbn. rewrite <- H1, Hid. exact H2. }
    unfold EmitterRegistry in *. apply Hgen; [apply NoDup_fst_map_to_list|]. intros k e H. by apply elem_of_map_to_list in H.
  - by intros ty u [=].
  - by intros ty now H%elem_of_nil.
Qed.

(** Over any run of an engine, a timer fires no earlier than it is due after
    each of its earlier firings, an interval later or at the schedule's next
    occurrence; nor than it is due after each notification of its type, if no
    other timer has the type; and the count it gives its handler is one more
    than the number of times it fired before. Clocks do not go back and advance
    together. *)
Theorem timers_fire_when_due `{!CronLaws R} conf r snapshot consume clock off s0 ls outs s before w after :
  emitters_built r → engine_start conf r snapshot consume clock = Ok s0 →
  ck_utc clock = ck_instant clock + off → Forall (in_step off) ls → instants_from (ck_instant clock) ls →
  engine_run ls s0 = Some (outs, s) → outs = before ++ Fired w :: after →
  (∀ w' b, Fired w' ∈ before → timer_id w' = timer_id w →
     timer_next (tw_kind w) (fired_at w' + off) = Some b → b ≤ fired_at w + off) ∧
  (∀ now b, alone r (tw_type_id w) → Touched (tw_type_id w) now ∈ before →
     timer_next (tw_kind w) (now + off) = Some b → b ≤ fired_at w + off) ∧
  tw_iter_count w = (firings (timer_id w) before + 1) mod (U64_MAX + 1).
Proof.
  intros Hr Hstart Hoff Hin Hls Hrun Hout. apply engine_start_new in Hstart as [works ->].
  assert (Hf : firings_ok r off outs).
  { eapply (engine_run_timers r off ls (ck_instant clock) []); [done|done|by apply start_queue_ok| |exact Hrun].
    intros b v a H. by destruct b. }
  destruct (Hf before w after Hout). done.
Qed.
End Timers.

(** ** Notifications *)

Section Notifications.
Context `{X : Externals, R : CronExternals}.

(** The debounce configuration of a listener, if it has one. *)
Definition debounced_conf (s0 : EngineState) (id : nat) : option DebounceConf :=
  match en_works s0 !! id with Some w => db_conf <$> nw_debounce w | None => None end.

(** What a step is for the debounced streams, a stream per listener. *)
Definition push_label (s0 : EngineState) (now : Z) (payload : string) (id : nat) : list (StreamLabel nat string) :=
  match debounced_conf s0 id with Some conf => [LPush now id conf payload] | None => [] end.
Definition stream_labels (s0 : EngineState) (l : EngineLabel) : list (StreamLabel nat string) :=
  match l with
  | ENotify now channel payload => flat_map (push_label s0 now payload) (default [] (en_tasks s0 !! channel))
  | EDeadline now pick => [LPop now pick]
  | _ => []
  end.

(** The payloads let through, and by which of the debounced listeners. *)
Definition debounced_calls (s0 : EngineState) (outs : list EngineEvent) : list (nat * string) :=
  omap (λ e, match e with
             | Called id c => if debounced_conf s0 id then Some (id, cl_payload c) else None
             | _ => None
             end) outs.
Definition emission_pair (e : Emission nat string) : nat * string := (em_key e, em_value e).

(** A listener and its stream. *)
Definition listener_ok (s0 : EngineState) (st : Streams nat string) (id : nat) (w : option NotifyWork) : Prop :=
  match w with
  | Some w => nw_id w = id ∧ db_conf <$> nw_debounce w = debounced_conf s0 id ∧
      ∀ d, nw_debounce w = Some d → d = default (debouncer_new string (db_conf d)) (ss_states st !! id)
  | None => debounced_conf s0 id = None
  end.
Record listeners_ok (s0 s : EngineState) (st : Streams nat string) : Prop := {
  lo_heap : en_deadlines s = ss_heap st;
  lo_tasks : en_tasks s = en_tasks s0;
  lo_works id : listener_ok s0 st id (en_works s !! id);
  lo_keys e : e ∈ ss_heap st → is_Some (ss_states st !! e.1);
  lo_streams id : is_Some (ss_states st !! id) → is_Some (debounced_conf s0 id) }.

Lemma debounce_push_conf now v (d : Debouncer string) : db_conf (debounce_push now v d).2 = db_conf d.
Proof.
  unfold debounce_push, push_leading, push_trailing, push_both, debounce_start, next_deadline.
  destruct (dc_mode (db_conf d)); cbn; [by destruct (db_active d)|done|by destruct (db_active d)].
Qed.
Lemma debounce_due_conf g (d : Debouncer string) : db_conf (debounce_due g d).2 = db_conf d.
Proof. unfold debounce_due. destruct (negb _); [done|]. by destruct (dc_mode (db_conf d)). Qed.

Lemma spawn_notify_works id call s :
  en_works (spawn_notify_call id call s).2 = en_works s ∧ en_deadlines (spawn_notify_call id call s).2 = en_deadlines s ∧
  en_tasks (spawn_notify_call id call s).2 = en_tasks s.
Proof. destruct call as [c|]; [|done]. cbn. unfold spawn_handler_call. by destruct (_ <=? _). Qed.

Lemma spawn_notify_calls s0 id call s :
  debounced_calls s0 (spawn_notify_call id call s).1 =
  match call with Some c => if debounced_conf s0 id then [(id, cl_payload c)] else [] | None => [] end.
Proof.
  destruct call as [c|]; [|done]. cbn. unfold spawn_handler_call.
  destruct (_ <=? _); cbn; by destruct (debounced_conf s0 id).
Qed.

Lemma debounced_calls_app s0 o1 o2 : debounced_calls s0 (o1 ++ o2) = debounced_calls s0 o1 ++ debounced_calls s0 o2.
Proof. apply omap_app. Qed.

Lemma debounced_calls_touched s0 ty now o : debounced_calls s0 (Touched ty now :: o) = debounced_calls s0 o.
Proof. done. Qed.

(** A listener changes, its stream with it. *)
Lemma listeners_ok_insert s0 s s' st id w d heap :
  listeners_ok s0 s st → en_works s !! id = Some w → (∃ d0, nw_debounce w = Some d0 ∧ db_conf d0 = db_conf d) →
  ∀ w', nw_id w' = nw_id w → nw_debounce w' = Some d →
  en_works s' = <[id := w']> (en_works s) → en_deadlines s' = heap → en_tasks s' = en_tasks s →
  (∀ e, e ∈ heap → e ∈ ss_heap st ∨ e.1 = id) →
  listeners_ok s0 s' {| ss_states := <[id := d]> (ss_states st); ss_heap := heap |}.
Proof.
  intros [Hheap Htasks Hworks Hkeys Hstreams] Hw (d0 & Hd0 & Hconf) w' Hid Hd Hs' Hdl Hts Hin. split; cbn.
  - done.
  - by rewrite Hts.
  - intros id'. rewrite Hs'. destruct (decide (id = id')) as [<-|Hne].
    + rewrite list_lookup_insert_eq by (by eapply lookup_lt_Some). specialize (Hworks id). rewrite Hw in Hworks.
      destruct Hworks as (H1 & H2 & _). split; [congruence|]. rewrite Hd0 in H2. cbn in *. rewrite Hd. cbn.
      split; [congruence|]. intros d' [= <-]. by rewrite lookup_insert_eq.
    + rewrite list_lookup_insert_ne by done. specialize (Hworks id'). unfold listener_ok in *.
      destruct (en_works s !! id'); [|done]. cbn. by rewrite lookup_insert_ne.
  - intros e He. destruct (decide (id = e.1)) as [<-|Hne]; [by rewrite lookup_insert_eq; eexists|].
    rewrite lookup_insert_ne by done. apply Hin in He as [He|He]; [by apply Hkeys|congruence].
  - intros id'. destruct (decide (id = id')) as [<-|Hne]; [|by rewrite lookup_insert_ne; [apply Hstreams|]].
    intros _. specialize (Hworks id). rewrite Hw in Hworks. destruct Hworks as (_ & H & _). rewrite <- H, Hd0. by eexists.
Qed.

Lemma notify_one_sim s0 s st now payload out id out' s' :
  listeners_ok s0 s st → notify_one now payload (out, s) id = (out', s') →
  ∃ em st', stream_run (push_label s0 now payload id) st = Some (em, st') ∧ listeners_ok s0 s' st' ∧
    debounced_calls s0 out' = debounced_calls s0 out ++ (emission_pair <$> em).
Proof.
  intros Hok Hone. pose proof (lo_works _ _ _ Hok id) as Hid. unfold notify_one in Hone. unfold push_label.
  destruct (en_works s !! id) as [w|] eqn:Hw.
  2: { injection Hone as <- <-. cbn in Hid. rewrite Hid. exists [], st. by rewrite app_nil_r. }
  destruct Hid as (Hnw & Hconf & Hst). unfold on_notify in Hone. rewrite <- Hconf.
  destruct (nw_debounce w) as [d|] eqn:Hd; cbn.
  - unfold stream_push. rewrite <- (Hst d eq_refl).
    destruct (debounce_push now payload d) as [push d'] eqn:Hpush.
    assert (Hc : db_conf d' = db_conf d) by (by rewrite <- (debounce_push_conf now payload d), Hpush).
    destruct (calling now (dp_emission push) (put_debounce d' w)) as [call w'] eqn:Hcall.
    match type of Hone with context [spawn_notify_call id call ?s1] =>
      pose proof (spawn_notify_works id call s1) as (H1 & H2 & H3); pose proof (spawn_notify_calls s0 id call s1) as H4;
      destruct (spawn_notify_call id call s1) as [o s2] end.
    injection Hone as <- <-. cbn in H1, H2, H3. cbn [fst] in H4. eexists _, _. split; [done|]. split.
    + rewrite Hnw, (lo_heap _ _ _ Hok) in H2. eapply listeners_ok_insert; [exact Hok|exact Hw| | | |exact H1|exact H2|exact H3|].
      * exists d. by rewrite Hc.
      * unfold calling in Hcall. by destruct (dp_emission push); injection Hcall as _ <-.
      * unfold calling in Hcall. by destruct (dp_emission push); injection Hcall as _ <-.
      * intros e He. destruct (dp_deadline push); [|by left]. unfold heap_push in He.
        apply list_elem_of_In, in_app_or in He as [He|[<-|[]]]; [left; by apply list_elem_of_In|by right].
    + rewrite app_nil_r, debounced_calls_app, debounced_calls_touched. f_equal. rewrite H4, <- Hconf. cbn.
      unfold calling in Hcall. by destruct (dp_emission push); injection Hcall as <- <-.
  - unfold calling in Hone. cbv beta iota zeta in Hone.
    match type of Hone with context [spawn_notify_call id ?c ?s1] =>
      pose proof (spawn_notify_works id c s1) as (H1 & H2 & H3); pose proof (spawn_notify_calls s0 id c s1) as H4;
      destruct (spawn_notify_call id c s1) as [o s2] end.
    injection Hone as <- <-. cbn in H1, H2, H3. cbn [fst] in H4. exists [], st. split; [done|]. split.
    + destruct Hok as [Hheap Htasks Hworks Hkeys]. split; [congruence|congruence| |done|done]. intros id'. rewrite H1.
      destruct (decide (id = id')) as [<-|Hne].
      * rewrite list_lookup_insert_eq by (by eapply lookup_lt_Some). cbn. rewrite Hd. by rewrite <- Hconf.
      * by rewrite list_lookup_insert_ne.
    + rewrite app_nil_r, debounced_calls_app, debounced_calls_touched, H4, <- Hconf. cbn. by rewrite app_nil_r.
Qed.

Lemma notify_all_sim s0 now payload ids s st out out' s' :
  listeners_ok s0 s st → foldl (notify_one now payload) (out, s) ids = (out', s') →
  ∃ em st', stream_run (flat_map (push_label s0 now payload) ids) st = Some (em, st') ∧ listeners_ok s0 s' st' ∧
    debounced_calls s0 out' = debounced_calls s0 out ++ (emission_pair <$> em).
Proof.
  revert s st out. induction ids as [|id ids IH]; intros s st out Hok Hall; cbn [foldl flat_map] in *.
  { injection Hall as <- <-. exists [], st. by rewrite app_nil_r. }
  destruct (notify_one now payload (out, s) id) as [o1 s1] eqn:Hone.
  destruct (notify_one_sim s0 s st now payload out id o1 s1 Hok Hone) as (em1 & st1 & H1 & Hok1 & Hc1).
  destruct (IH s1 st1 o1 Hok1 Hall) as (em2 & st2 & H2 & Hok2 & Hc2).
  exists (em1 ++ em2), st2. split; [|split; [done|]].
  - apply stream_run_app. by exists em1, st1, em2.
  - by rewrite Hc2, Hc1, fmap_app, app_assoc.
Qed.

(** A step that is about no notification. *)
Lemma listeners_ok_same s0 s s' st :
  en_works s' = en_works s → en_deadlines s' = en_deadlines s → en_tasks s' = en_tasks s →
  listeners_ok s0 s st → listeners_ok s0 s' st.
Proof. intros H1 H2 H3 [Hh Ht Hw Hk Hs]. split; [congruence|congruence|by rewrite H1|done|done]. Qed.

Lemma deadline_sim s0 s st now pick entry queue s' out :
  listeners_ok s0 s st → queue_pop now pick (en_deadlines s) = Some (entry, queue) →
  match en_works s !! entry.1 with
  | Some w =>
      let '(call, w) := on_debounce_deadline now (dd_generation entry.2) w in
      spawn_notify_call entry.1 call (put_works (<[entry.1 := w]> (en_works s)) queue s)
  | None => ([], put_works (en_works s) queue s)
  end = (out, s') →
  ∃ em st', stream_run [LPop now pick] st = Some (em, st') ∧ listeners_ok s0 s' st' ∧
    debounced_calls s0 out = emission_pair <$> em.
Proof.
  intros Hok Hpop Hrun. rewrite (lo_heap _ _ _ Hok) in Hpop. cbn. unfold stream_pop. rewrite Hpop.
  assert (Hin : entry ∈ ss_heap st ∧ ∀ e, e ∈ queue → e ∈ ss_heap st).
  { unfold queue_pop in Hpop. destruct (ss_heap st !! pick) as [en|] eqn:Hp; [|done].
    destruct (_ && _); [|done]. injection Hpop as <- <-. split; [by eapply list_elem_of_lookup_2|].
    intros e He. rewrite (delete_Permutation _ _ _ Hp). by right. }
  destruct Hin as [Hentry Hq]. destruct (lo_keys _ _ _ Hok _ Hentry) as [d Hd]. unfold stream_due. cbn. rewrite Hd.
  pose proof (lo_works _ _ _ Hok entry.1) as Hid. destruct (en_works s !! entry.1) as [w|] eqn:Hw.
  - destruct Hid as (Hnw & Hconf & Hst). unfold on_debounce_deadline in Hrun.
    destruct (nw_debounce w) as [d1|] eqn:Hd1.
    + pose proof (Hst d1 eq_refl) as He. rewrite Hd in He. cbn in He. subst d1.
      destruct (debounce_due (dd_generation entry.2) d) as [value d'] eqn:Hdue.
      assert (Hc : db_conf d' = db_conf d) by (by rewrite <- (debounce_due_conf (dd_generation entry.2) d), Hdue).
      destruct (calling now value (put_debounce d' w)) as [call w'] eqn:Hcall.
      match type of Hrun with spawn_notify_call ?i call ?s1 = _ =>
        pose proof (spawn_notify_works i call s1) as (H1 & H2 & H3); pose proof (spawn_notify_calls s0 i call s1) as H4 end.
      rewrite Hrun in H1, H2, H3, H4. cbn in H1, H2, H3. cbn [fst] in H4. eexists _, _. split; [done|]. rewrite app_nil_r. split.
      * eapply listeners_ok_insert; [exact Hok|exact Hw| | | |exact H1|exact H2|exact H3|].
        -- exists d. by rewrite Hc.
        -- unfold calling in Hcall. by destruct value; injection Hcall as _ <-.
        -- unfold calling in Hcall. by destruct value; injection Hcall as _ <-.
        -- intros e He. left. by apply Hq.
      * rewrite H4, <- Hconf. unfold calling in Hcall. by destruct value; injection Hcall as <- <-.
    + destruct (lo_streams _ _ _ Hok entry.1) as [c Hc]; [by eexists|]. rewrite <- Hconf in Hc. done.
  - destruct (lo_streams _ _ _ Hok entry.1) as [c Hc]; [by eexists|]. cbn in Hid. by rewrite Hid in Hc.
Qed.

Lemma engine_step_listeners s0 s st l out s' :
  listeners_ok s0 s st → engine_step l s = Some (out, s') →
  ∃ em st', stream_run (stream_labels s0 l) st = Some (em, st') ∧ listeners_ok s0 s' st' ∧
    debounced_calls s0 out = emission_pair <$> em.
Proof.
  intros Hok. assert (Hsame : ∀ s' out, en_works s' = en_works s → en_deadlines s' = en_deadlines s →
    en_tasks s' = en_tasks s → debounced_calls s0 out = [] →
    ∃ em st', stream_run [] st = Some (em, st') ∧ listeners_ok s0 s' st' ∧ debounced_calls s0 out = emission_pair <$> em).
  { intros s1 o H1 H2 H3 H4. exists [], st. split; [done|]. split; [by eapply listeners_ok_same|done]. }
  assert (Hworker : ∀ i n f out s', worker_event i n f s = Some (out, s') →
    ∃ em st', stream_run [] st = Some (em, st') ∧ listeners_ok s0 s' st' ∧ debounced_calls s0 out = emission_pair <$> em).
  { intros i n f o s1. unfold worker_event. destruct (_ !! i); [|done]. destruct (f _); [|done].
    intros [= <- <-]. by apply Hsame. }
  destruct l as [clock pick|now pick|now channel payload| | |i answer|i|i|i now|i|i answer now at_|i accepted now|i];
    cbn [engine_step stream_labels]; try (destruct (en_live s); [|done]; cbn [loop_step]); try apply Hworker.
  - destruct (timer_turn clock pick (en_timers s)) as [[[w|] q]|]; [| |done]; [|intros [= <- <-]; by apply Hsame].
    unfold spawn_handler_call. cbn. destruct (_ <=? _); intros [= <- <-]; by apply Hsame.
  - destruct (queue_pop now pick (en_deadlines s)) as [[entry queue]|] eqn:Hpop; [|done]. cbn. intros H.
    apply (deadline_sim s0 s st now pick entry queue); [done|done|].
    destruct (en_works s !! entry.1) as [w|]; [|by injection H as <- <-].
    destruct (on_debounce_deadline _ _ _) as [call w']. by injection H as H.
  - rewrite (lo_tasks _ _ _ Hok). destruct (en_tasks s0 !! channel) as [ids|]; [|intros [= <- <-]; by apply Hsame].
    intros H. injection H as H. destruct (notify_all_sim s0 now payload ids s st [] out s' Hok H) as (em & st' & H1 & H2 & H3).
    by exists em, st'.
  - destruct (en_completions s) as [|c cs]; [done|]. intros [= <- <-]. apply Hsame; [done..|]. by destruct (hn_result c).
  - intros [= <- <-]. by apply Hsame.
  - destruct (en_running s !! i); [|done]. intros [= <- <-]. by apply Hsame.
  - destruct (en_running s !! i); [|done]. intros [= <- <-]. by apply Hsame.
  - destruct (en_sending s !! i); [|done]. destruct (en_live s); [|intros [= <- <-]; by apply Hsame].
    destruct (_ <? _); [|done]. intros [= <- <-]. by apply Hsame.
  - destruct (_ <=? _); [done|apply Hworker].
Qed.

Lemma engine_run_listeners s0 ls s st outs s' :
  listeners_ok s0 s st → engine_run ls s = Some (outs, s') →
  ∃ em st', stream_run (flat_map (stream_labels s0) ls) st = Some (em, st') ∧
    debounced_calls s0 outs = emission_pair <$> em.
Proof.
  revert s st outs. induction ls as [|l ls IH]; intros s st outs Hok Hrun; cbn [engine_run flat_map] in *.
  { injection Hrun as <- _. by exists [], st. }
  destruct (engine_step l s) as [[out s1]|] eqn:Hstep; [|done].
  destruct (engine_run ls s1) as [[rest s2]|] eqn:Hrest; [|done]. injection Hrun as <- <-.
  destruct (engine_step_listeners s0 s st l out s1 Hok Hstep) as (em1 & st1 & H1 & Hok1 & Hc1).
  destruct (IH s1 st1 rest Hok1 Hrest) as (em2 & st2 & H2 & Hc2).
  exists (em1 ++ em2), st2. split; [apply stream_run_app; by exists em1, st1, em2|].
  by rewrite debounced_calls_app, Hc1, Hc2, fmap_app.
Qed.

Lemma add_emitters_listeners clock l s :
  (∀ id w, en_works s !! id = Some w → w = notify_work_new id (nw_type_id w) (nw_channel w) (nw_handler w) (db_conf <$> nw_debounce w)) →
  en_deadlines s = [] →
  let s' := foldl (add_emitter clock) s l in
  (∀ id w, en_works s' !! id = Some w → w = notify_work_new id (nw_type_id w) (nw_channel w) (nw_handler w) (db_conf <$> nw_debounce w)) ∧
  en_deadlines s' = [].
Proof.
  revert s. induction l as [|e l IH]; intros s Hw Hd; cbn; [done|]. apply IH; unfold add_emitter;
    case_bool_decide; try done; destruct (em_source e); try done; cbn.
  intros id w Hid. apply lookup_app_Some in Hid as [Hid|[Hge Hid]]; [by apply Hw|].
  destruct (id - length (en_works s))%nat as [|n] eqn:Hn; [|done]. injection Hid as <-. cbn.
  assert (id = length (en_works s)) as -> by lia. by destruct debounce.
Qed.

(** The debounced listeners of an engine are one stream each: whatever timers,
    handlers and workers do meanwhile, the payloads a run lets through are those
    one timer per listener emits for the notifications of its channel, at the
    same moments. *)
Theorem notifications_are_debounced conf r snapshot consume clock s0 ls outs s :
  engine_start conf r snapshot consume clock = Ok s0 → engine_run ls s0 = Some (outs, s) →
  zlen (flat_map (stream_labels s0) ls) ≤ U64_MAX →
  ∃ emissions timers, timer_run ∅ (flat_map (stream_labels s0) ls) emissions timers ∧
    debounced_calls s0 outs = emission_pair <$> emissions.
Proof.
  intros Hstart Hrun Hlen. apply engine_start_new in Hstart as [works Hs0].
  assert (Hok : listeners_ok s0 s0 streams_new).
  { destruct (add_emitters_listeners clock (map_to_list r).*2 (engine_new conf (omap worker_start works))) as [Hw Hd]; [done|done|].
    rewrite <- Hs0 in Hw, Hd. split; [done|done| | |].
    - intros id. unfold listener_ok, debounced_conf. destruct (en_works s0 !! id) as [w|] eqn:Hid; [|done].
      specialize (Hw id w Hid). split; [by rewrite Hw|]. split; [done|]. intros d Hdw. rewrite Hw in Hdw. cbn in Hdw.
      destruct (nw_debounce w) as [d0|]; [|done]. cbn in Hdw. by injection Hdw as <-.
    - intros e He. by apply elem_of_nil in He.
    - intros id [d Hdn]. done. }
  destruct (engine_run_listeners s0 ls s0 streams_new outs s Hok Hrun) as (em & st & Hst & Hcalls).
  destruct (stream_run_refines (flat_map (stream_labels s0) ls) 0 streams_new ∅ em st) as (timers & Ht & _); [done|lia|..|done|].
  { split; [|intros e He; by apply elem_of_nil in He]. intros k. rewrite !lookup_empty. constructor. }
  by exists em, timers.
Qed.
End Notifications.

(** ** A few emitters of one type *)

Module DemoEngine.
Import DemoSchedules.

Definition tick : Emitter :=
  or_default nothing (periodic mail_type "Mail" "tick" (periodic_conf_new (10 * SECOND))).
Definition each_second : Emitter :=
  or_default nothing (cron mail_type "Mail" "each_second" (cron_conf_new "* * * * * *")).
Definition listener : Emitter :=
  or_default nothing (pgnotify mail_type "Mail" "listen"
    {| pg_channel := "notes"; pg_debounce := Some (trailing (2 * SECOND)) |}).

Definition add (e : Emitter) (r : EmitterRegistry) : EmitterRegistry := (emitter_register e r).2.
Definition quiet_registry : EmitterRegistry := add listener (add tick emitter_registry_new).
Definition busy_registry : EmitterRegistry := add each_second quiet_registry.

Definition at_ (t : Z) : Clock := {| ck_instant := t; ck_utc := t |}.
Definition snapshot (names : list string) : result EmitterError TaskScheduleSnapshot :=
  Ok {| ss_now := 0; ss_cursors := ∅ |}.
Definition consume (topics : list string) : result EmitterError unit := Ok tt.
Definition start_of (r : EmitterRegistry) : EngineState :=
  or_default (engine_new emitter_conf_default []) (engine_start emitter_conf_default r snapshot consume (at_ 0)).

(** The timer fires at the start, a notification puts it off, and it fires again. *)
Definition quiet_run : list EngineLabel :=
  [ETimer (at_ 0) 0; EReturn 0 (Ok digest_payload); ESend 0; ECompletion;
   ENotify (5 * SECOND) "notes" "a"; ENotify (6 * SECOND) "notes" "b"; EDeadline (7 * SECOND) 0;
   EDeadline (8 * SECOND) 0; ETimer (at_ (10 * SECOND)) 0; ETimer (at_ (16 * SECOND)) 0]%string.

(** Both timers fire at the start; the notification is taken by the first that is due. *)
Definition busy_run : list EngineLabel :=
  [ETimer (at_ 0) 0; ETimer (at_ 0) 0; ENotify (SECOND / 2) "notes" "a";
   ETimer (at_ SECOND) 0; ETimer (at_ (10 * SECOND)) 1; ETimer (at_ (10 * SECOND)) 0]%string.

Definition engine_shown (ls : list EngineLabel) (s : EngineState) : list EngineEvent := default [] (fst <$> engine_run ls s).
Definition ends (ls : list EngineLabel) (s : EngineState) : EngineState := default s (snd <$> engine_run ls s).
Definition ran (ls : list EngineLabel) (s : EngineState) : bool := if engine_run ls s then true else false.
Lemma ran_ends ls s : ran ls s = true → engine_run ls s = Some (engine_shown ls s, ends ls s).
Proof. unfold ran, engine_shown, ends. by destruct (engine_run ls s) as [[]|]. Qed.

(** What is compared of events. *)
Definition brief (e : EngineEvent) : string * Z :=
  match e with
  | Fired w => (tw_producer w, fired_at w)
  | Touched _ now => ("notified"%string, now)
  | Called _ c => (cl_payload c, cl_iter_count c)
  | Skipped _ => ("skipped"%string, 0)
  | Dispatched _ => ("dispatched"%string, 0)
  end.
End DemoEngine.

Section Examples.
Import DemoSchedules DemoEngine.

(** A notification is taken by the first timer of its type that becomes due: the
    periodic timer fires 9.5 seconds after one, though its interval is ten. *)
Theorem a_notification_postpones_one_timer :
  ran busy_run (start_of busy_registry) = true ∧
  brief <$> engine_shown busy_run (start_of busy_registry) =
    [("each_second", 0); ("tick", 0); ("notified", SECOND / 2); ("each_second", 10 * SECOND);
     ("tick", 10 * SECOND)]%string.
Proof. split; vm_compute; reflexivity. Qed.

(** A cron timer whose schedule names no further time is due again the moment it fired. *)
Theorem exhausted_cron_is_due_at_once `{R : CronExternals} clock s w :
  0 ≤ ck_utc clock → tw_kind w = TimerCron s → cron_after s (ck_utc clock) = None →
  tw_deadline (timer_update clock w) = ck_instant clock.
Proof. intros Hu Hk Hn. unfold timer_update. cbn. rewrite Hk. cbn. rewrite Hn. cbn. lia. Qed.

Lemma quiet_built : emitters_built quiet_registry.
Proof.
  apply built_register.
  - by apply (constructed_pgnotify mail_type "Mail" "listen"
      {| pg_channel := "notes"; pg_debounce := Some (trailing (2 * SECOND)) |}).
  - apply built_register; [|constructor].
    by apply (constructed_periodic mail_type "Mail" "tick" (periodic_conf_new (10 * SECOND))).
Qed.

Lemma quiet_starts :
  engine_start emitter_conf_default quiet_registry snapshot consume (at_ 0) = Ok (start_of quiet_registry).
Proof. reflexivity. Qed.

Lemma quiet_ran : ran quiet_run (start_of quiet_registry) = true.
Proof. vm_compute. reflexivity. Qed.

Example handlers_stay_within_the_limit_witness :
  let s := ends quiet_run (start_of quiet_registry) in
  en_free s = 62 ∧ en_free s + zlen (en_running s) + holding (en_workers s) = 64.
Proof.
  assert (Hreach : engine_reach emitter_conf_default quiet_registry
    (engine_shown quiet_run (start_of quiet_registry)) (ends quiet_run (start_of quiet_registry))).
  { exists snapshot, consume, (at_ 0), (start_of quiet_registry), quiet_run. split; [exact quiet_starts|].
    apply ran_ends, quiet_ran. }
  split; [vm_compute; reflexivity|].
  apply (handlers_stay_within_the_limit emitter_conf_default quiet_registry _ _ Hreach).
Defined.

Definition quiet_stream : list (StreamLabel nat string) :=
  flat_map (stream_labels (start_of quiet_registry)) quiet_run.

Example notifications_are_debounced_witness :
  debounced_calls (start_of quiet_registry) (engine_shown quiet_run (start_of quiet_registry)) = [(0%nat, "b"%string)] ∧
  ∃ emissions timers, timer_run ∅ quiet_stream emissions timers ∧ emission_pair <$> emissions = [(0%nat, "b"%string)].
Proof.
  assert (Hcalls : debounced_calls (start_of quiet_registry) (engine_shown quiet_run (start_of quiet_registry)) =
    [(0%nat, "b"%string)]) by (vm_compute; reflexivity).
  split; [done|].
  destruct (notifications_are_debounced emitter_conf_default quiet_registry snapshot consume (at_ 0)
    (start_of quiet_registry) quiet_run (engine_shown quiet_run (start_of quiet_registry))
    (ends quiet_run (start_of quiet_registry)) quiet_starts (ran_ends _ _ quiet_ran)) as (em & timers & Ht & He);
    [vm_compute; intros H; discriminate H|].
  exists em, timers. split; [exact Ht|]. by rewrite <- He.
Defined.

(** The last event of the run, and what came before. *)
Definition quiet_before : list EngineEvent := removelast (engine_shown quiet_run (start_of quiet_registry)).
Definition second_tick : TimerWork :=
  match last (engine_shown quiet_run (start_of quiet_registry)) with
  | Some (Fired w) => w
  | _ => timer_work_new (at_ 0) 0%N (TimerInterval 0) ""
  end.

Example timers_fire_when_due_witness :
  fired_at second_tick = 16 * SECOND ∧ 6 * SECOND + 10 * SECOND ≤ fired_at second_tick ∧ tw_iter_count second_tick = 2.
Proof.
  assert (Hout : engine_shown quiet_run (start_of quiet_registry) = quiet_before ++ Fired second_tick :: [])
    by reflexivity.
  assert (Hoff : ck_utc (at_ 0) = ck_instant (at_ 0) + 0) by reflexivity.
  assert (Hstep : Forall (in_step 0) quiet_run) by (by repeat constructor).
  assert (Hls : instants_from (ck_instant (at_ 0)) quiet_run)
    by (vm_compute; repeat split; intros H; discriminate H).
  destruct (timers_fire_when_due emitter_conf_default quiet_registry snapshot consume (at_ 0) 0
    (start_of quiet_registry) quiet_run (engine_shown quiet_run (start_of quiet_registry))
    (ends quiet_run (start_of quiet_registry)) quiet_before second_tick [] quiet_built quiet_starts Hoff Hstep Hls
    (ran_ends _ _ quiet_ran) Hout) as (_ & Htouch & Hcount).
  split; [reflexivity|]. split.
  - apply (Htouch (6 * SECOND) (6 * SECOND + 0 + 10 * SECOND)).
    + left. reflexivity.
    + apply list_elem_of_lookup. exists 3%nat. reflexivity.
    + reflexivity.
  - rewrite Hcount. reflexivity.
Defined.
End Examples.
