(* ===== verification/Signals.v ===== *)
(** * Signals ([signals.rs], and the dispatch of [site.rs])

    Handlers by payload type, run one after another when a value of the type is
    emitted; the value is then offered to the channels. A handler is a function
    of its context over the world [W] it acts on. *)
From S2P Require Import Prelude Externals Failure Config Models Lifecycle Json Registry Submission CacheKeys.
From S2P Require Import Debounce ChannelTypes Channels ChannelTheorems.
#[local] Open Scope Z_scope.

Section Signals.
Context {W : Type}.

Record SignalContext := { sx_payload : Payload; sx_operation_id : Z }.
Record SignalHandler := {
  sl_type_id : TypeId;
  sl_func : SignalContext → W → result string unit * W;
  sl_operation_id : Z }.

Definition SignalRegistry : Type := gmap TypeId (list SignalHandler).
Definition signal_registry_new : SignalRegistry := ∅.

(** [entry(t).or_default()] extended. *)
Definition extend_signals (t : TypeId) (handlers : list SignalHandler) (r : SignalRegistry) : SignalRegistry :=
  <[t := default [] (r !! t) ++ handlers]> r.
Definition signal_register (h : SignalHandler) (r : SignalRegistry) : SignalRegistry :=
  extend_signals (sl_type_id h) [h] r.
Definition signal_merge (other r : SignalRegistry) : SignalRegistry :=
  foldl (λ r entry, extend_signals entry.1 entry.2 r) r (map_to_list other).

Definition signal_has_handler (t : TypeId) (r : SignalRegistry) : bool := bool_decide (is_Some (r !! t)).

(** [SignalHandler::call] for every handler; an error is logged. *)
Definition call_handler (payload : Payload) (w : W) (h : SignalHandler) : W :=
  (sl_func h {| sx_payload := payload; sx_operation_id := sl_operation_id h |} w).2.
Definition dispatch_payload (payload : Payload) (r : SignalRegistry) (w : W) : W :=
  match r !! pl_type payload with
  | Some handlers => foldl (call_handler payload) w handlers
  | None => w
  end.

(** [Site::dispatch_payload], of an emitter's value, and [dispatch_signal], of an
    emitted one; an error of the channels is logged. *)
Definition site_dispatch `{Y : Serialization, C : ChannelExternals} (payload : Payload) (now : DateTime)
    (r : SignalRegistry) (w : W) (channels : ChannelRuntime) : W * ChannelRuntime :=
  (dispatch_payload payload r w, (publish_box payload now channels).2).
Definition dispatch_signal `{Y : Serialization, C : ChannelExternals} (payload : Payload) (now : DateTime)
    (r : SignalRegistry) (w : W) (channels : ChannelRuntime) : W * ChannelRuntime :=
  (if signal_has_handler (pl_type payload) r then dispatch_payload payload r w else w,
   (publish_signal payload now channels).2).

(** A registry a program builds, and what it registered, in order. *)
Inductive signals_built : SignalRegistry → list SignalHandler → Prop :=
  | signals_empty : signals_built signal_registry_new []
  | signals_register h r hs : signals_built r hs → signals_built (signal_register h r) (hs ++ [h])
  | signals_merge other r hs hs' : signals_built other hs' → signals_built r hs → signals_built (signal_merge other r) (hs ++ hs').

Definition of_type (t : TypeId) (hs : list SignalHandler) : list SignalHandler :=
  List.filter (λ h, (sl_type_id h =? t)%N) hs.
Definition handlers_of (r : SignalRegistry) (t : TypeId) : list SignalHandler := default [] (r !! t).

Lemma extend_signals_of t hs r t' :
  handlers_of (extend_signals t hs r) t' = handlers_of r t' ++ (if decide (t = t') then hs else []).
Proof.
  unfold handlers_of, extend_signals, SignalRegistry in *. case_decide as Ht.
  - subst. by rewrite lookup_insert_eq.
  - by rewrite lookup_insert_ne, app_nil_r.
Qed.

Lemma signal_merge_of other r t : handlers_of (signal_merge other r) t = handlers_of r t ++ handlers_of other t.
Proof.
  unfold signal_merge, handlers_of, SignalRegistry in *. pose proof (NoDup_fst_map_to_list other) as Hnd.
  assert (Hof : default [] (other !! t) = flat_map (λ e, if decide (e.1 = t) then e.2 else []) (map_to_list other)).
  { assert (Hin : ∀ k hs, (k, hs) ∈ map_to_list other ↔ other !! k = Some hs) by (intros; apply elem_of_map_to_list).
    destruct (other !! t) as [hs|] eqn:Ht; cbn.
    - apply Hin in Ht. clear Hin. induction (map_to_list other) as [|[k hs'] l IH]; [by apply elem_of_nil in Ht|].
      cbn in *. apply NoDup_cons in Hnd as [Hni Hnd]. apply elem_of_cons in Ht as [[= <- <-]|Ht].
      + rewrite decide_True by done. assert (Hz : flat_map (λ e : N * list SignalHandler, if decide (e.1 = t) then e.2 else []) l = []); [|by rewrite Hz, app_nil_r].
        clear -Hni. induction l as [|[k h] l IH]; [done|]. cbn in *. apply not_elem_of_cons in Hni as [Hne Hni].
        rewrite decide_False by congruence. by apply IH.
      + rewrite decide_False; [by apply IH|]. intros ->. apply Hni. apply list_elem_of_fmap. by eexists (_, _).
    - assert (Hno : ∀ hs, (t, hs) ∉ map_to_list other) by (intros hs H; apply Hin in H; congruence). clear -Hno.
      induction (map_to_list other) as [|[k h] l IH]; [done|]. cbn. rewrite decide_False.
      + apply IH. intros hs H. apply (Hno hs). by right.
      + intros ->. apply (Hno h). by left. }
  rewrite Hof. clear Hof Hnd. revert r. induction (map_to_list other) as [|[k hs] l IH]; intros r; cbn; [by rewrite app_nil_r|].
  rewrite IH. pose proof (extend_signals_of k hs r t) as He. unfold handlers_of, SignalRegistry in He.
  etrans; [exact (f_equal (λ x, x ++ _) He)|by rewrite <- app_assoc].
Qed.

Lemma built_signals r hs t : signals_built r hs → handlers_of r t = of_type t hs.
Proof.
  induction 1 as [|h r hs _ IH|other r hs hs' _ IHo _ IH]; [done| |].
  - unfold signal_register. rewrite extend_signals_of, IH. unfold of_type. rewrite List.filter_app. cbn.
    destruct (N.eqb_spec (sl_type_id h) t); by case_decide.
  - rewrite signal_merge_of, IH, IHo. unfold of_type. by rewrite List.filter_app.
Qed.

(** A value reaches every handler registered for its type, directly or in a
    bundle that was merged, once each and in the order of registration, whatever
    the handlers before it answered, and no handler of another type; it is then
    offered to the channels. *)
Theorem signals_reach_their_handlers `{Y : Serialization, C : ChannelExternals} r hs payload now w channels :
  signals_built r hs →
  site_dispatch payload now r w channels =
    (foldl (call_handler payload) w (of_type (pl_type payload) hs), (publish_box payload now channels).2) ∧
  dispatch_signal payload now r w channels =
    (foldl (call_handler payload) w (of_type (pl_type payload) hs), (publish_signal payload now channels).2).
Proof.
  intros Hb. pose proof (built_signals r hs (pl_type payload) Hb) as Hh. unfold handlers_of in Hh.
  unfold site_dispatch, dispatch_signal, dispatch_payload, signal_has_handler. rewrite <- Hh.
  destruct (r !! pl_type payload); [by rewrite bool_decide_true by by eexists|].
  by rewrite bool_decide_false by by intros [? [=]].
Qed.
End Signals.

(** Two bundles: the second handler of the type fails and the other runs all the
    same; a handler of another type is not called. *)
Module DemoSignals.
Import DemoChannels.

Definition noting (type_id : TypeId) (name : string) (answer : result string unit) : SignalHandler (W := list string) :=
  {| sl_type_id := type_id; sl_func := λ _ w, (answer, w ++ [name]); sl_operation_id := 0 |}.
Definition bundle : SignalRegistry := signal_register (noting note_type "audit" (Ok tt)) signal_registry_new.
Definition registry : SignalRegistry :=
  signal_merge bundle
    (signal_register (noting 9 "other" (Ok tt)) (signal_register (noting note_type "mail" (Err "refused"%string)) signal_registry_new)).
Definition registered : list SignalHandler :=
  [noting note_type "mail" (Err "refused"%string); noting 9 "other" (Ok tt); noting note_type "audit" (Ok tt)].

Lemma registry_built : signals_built registry registered.
Proof.
  apply (signals_merge bundle _ [_; _] [_]).
  - apply (signals_register _ _ []), signals_empty.
  - apply (signals_register _ _ [_]), (signals_register _ _ []), signals_empty.
Qed.
End DemoSignals.

Import DemoChannels.
Lemma signals_reach_their_handlers_witness :
  (site_dispatch (DemoChannels.note "hi") 0 DemoSignals.registry [] (sy_runtime DemoChannels.system)).1 = ["mail"; "audit"]%string.
Proof.
  pose proof (signals_reach_their_handlers _ _ (DemoChannels.note "hi") 0 [] (sy_runtime DemoChannels.system) DemoSignals.registry_built) as [H _].
  rewrite H. reflexivity.
Defined.
