(* ===== verification/Logging.v ===== *)
(** * Logging configuration and administrator mail ([logging.rs], [logging/])

    The rules of a site's logging, and the sink that mails errors to the
    administrators: repeated errors are grouped for a while, and deliveries are
    throttled. Filters of [tracing-subscriber], mailbox syntax and the text of a
    time are third party: [LoggingExternals]. The worker of a sink is the step
    relation [mail_step]; what a delivery answers and every clock it reads are
    arguments, and so is the order in which it walks its [HashMap]. *)
From S2P Require Import Prelude Externals Failure Runner ChannelTypes Credentials.
#[local] Open Scope Z_scope.

(** ** Configuration ([logging.rs]) *)

Inductive LoggingError :=
  | InvalidRuleName (name reason : string)
  | InvalidEnvPrefix (prefix reason : string)
  | DuplicateRuleName (name : string)
  | FilterParse (value : string)
  | MailAdminsMailDisabled
  | MailAdminsLoggingDisabled
  | MailAdminsRecipients
  | MailAdminsRecipientEmpty
  | MailAdminsDebounce (millis : Z)
  | MailAdminsThrottleCount (count : Z)
  | MailAdminsThrottle (limit millis : Z)
  | MailAdminsDuplicateThrottle (millis : Z)
  | MailAdminsRecipient (recipient reason : string).

Class LoggingExternals := {
  (** [EnvFilter::try_new] accepts. *)
  filter_ok : string → bool;
  (** The error of [validate_recipient], which parses a [Mailbox]. *)
  recipient_error : string → option string;
  to_rfc3339 : DateTime → string }.

(** [str::chars]: a character is a first byte and its continuation bytes. *)
Definition continuation (c : Ascii.ascii) : bool := (128 <=? byte c)%nat && (byte c <? 192)%nat.
Fixpoint chars (s : string) : list string :=
  match s with
  | EmptyString => []
  | String c rest =>
      match chars rest with
      | (String d _) as h :: t => if continuation d then String c h :: t else String c "" :: h :: t
      | l => String c "" :: l
      end
  end.
Definition ascii_char (f : Ascii.ascii → bool) (c : string) : bool :=
  match c with String b EmptyString => f b | _ => false end.
Definition upper_byte (c : Ascii.ascii) : bool := (65 <=? byte c)%nat && (byte c <=? 90)%nat.
Definition lower_byte (c : Ascii.ascii) : bool := (97 <=? byte c)%nat && (byte c <=? 122)%nat.
Definition digit_byte (c : Ascii.ascii) : bool := (48 <=? byte c)%nat && (byte c <=? 57)%nat.
Definition underscore (c : Ascii.ascii) : bool := (byte c =? 95)%nat.
Fixpoint to_ascii_uppercase (s : string) : string :=
  match s with
  | EmptyString => EmptyString
  | String c rest => String (if lower_byte c then Ascii.ascii_of_nat (byte c - 32) else c) (to_ascii_uppercase rest)
  end.

Inductive Rotation := Daily | Hourly | Minutely.
Inductive LogLevel := LevelTrace | LevelDebug | LevelInfo | LevelWarn | LevelError.
#[export] Instance LogLevel_eq_dec : EqDecision LogLevel.
Proof. solve_decision. Defined.
(** [FromStr]: the first name that matches. *)
Definition level_from_str (value : string) : option LogLevel :=
  snd <$> List.find (λ entry, eq_ignore_ascii_case entry.1 value)
    [("TRACE", LevelTrace); ("DEBUG", LevelDebug); ("INFO", LevelInfo); ("WARN", LevelWarn); ("ERROR", LevelError)]%string.

(** ** Administrator mail ([logging/mail_admins.rs]) *)

Definition DEFAULT_DEBOUNCE_MILLIS : Z := 300000.
Definition MAX_DEBOUNCE_MILLIS : Z := 86400000.
Definition DEFAULT_THROTTLE_PER_MINUTE : Z := 12.
Definition DEFAULT_THROTTLE_PER_HOUR : Z := 100.
Definition MAX_THROTTLES : Z := 8.
Definition MAX_THROTTLE_MILLIS : Z := 86400000.
Definition MAX_THROTTLE_LIMIT : Z := 100000.
Definition REPORT_QUEUE_CAPACITY : Z := 1024.
Definition MAX_ACTIVE_REPORTS : Z := 256.
Definition MAX_EVENT_BYTES : Z := 16 * 1024.
Definition MAX_MESSAGE_BYTES : Z := 8 * 1024.
Definition MAX_FIELD_BYTES : Z := 384.
Definition MAX_FIELDS : Z := 16.
Definition MAX_SPAN_BYTES : Z := 1024.

Inductive MailDedupe := DedupeCallsite | DedupeExact.
Inductive MailSummary := SummaryNone | SummaryCount | SummarySamples.
Record MailThrottle := { mt_limit : Z; mt_window_millis : Z }.

Definition duration_millis (d : Duration) : Z := default U64_MAX (u64_try_from (as_millis d)).
Definition mail_throttle_new (limit : Z) (window : Duration) : MailThrottle :=
  {| mt_limit := limit; mt_window_millis := duration_millis window |}.
Definition throttle_per_minute (limit : Z) : MailThrottle := mail_throttle_new limit (from_secs 60).
Definition throttle_per_hour (limit : Z) : MailThrottle := mail_throttle_new limit (from_secs 3600).
Definition throttle_window (t : MailThrottle) : Duration := from_millis (mt_window_millis t).
Definition default_throttles : list MailThrottle :=
  [throttle_per_minute DEFAULT_THROTTLE_PER_MINUTE; throttle_per_hour DEFAULT_THROTTLE_PER_HOUR].
Definition validate_throttle (t : MailThrottle) : result LoggingError unit :=
  if (mt_limit t =? 0) || (MAX_THROTTLE_LIMIT <? mt_limit t) then Err (MailAdminsThrottle (mt_limit t) (mt_window_millis t))
  else if (mt_window_millis t =? 0) || (MAX_THROTTLE_MILLIS <? mt_window_millis t)
  then Err (MailAdminsThrottle (mt_limit t) (mt_window_millis t))
  else Ok tt.

Record MailAdmins := {
  ma_recipients : list string; ma_debounce_millis : Z; ma_dedupe : MailDedupe; ma_summary : MailSummary;
  ma_throttles : list MailThrottle }.
Definition mail_admins_new (recipients : list string) : MailAdmins :=
  {| ma_recipients := recipients; ma_debounce_millis := DEFAULT_DEBOUNCE_MILLIS; ma_dedupe := DedupeCallsite;
     ma_summary := SummarySamples; ma_throttles := default_throttles |}.
Definition with_debounce (d : Duration) (m : MailAdmins) : MailAdmins :=
  {| ma_recipients := ma_recipients m; ma_debounce_millis := duration_millis d; ma_dedupe := ma_dedupe m;
     ma_summary := ma_summary m; ma_throttles := ma_throttles m |}.
Definition with_dedupe (d : MailDedupe) (m : MailAdmins) : MailAdmins :=
  {| ma_recipients := ma_recipients m; ma_debounce_millis := ma_debounce_millis m; ma_dedupe := d;
     ma_summary := ma_summary m; ma_throttles := ma_throttles m |}.
Definition with_summary (s : MailSummary) (m : MailAdmins) : MailAdmins :=
  {| ma_recipients := ma_recipients m; ma_debounce_millis := ma_debounce_millis m; ma_dedupe := ma_dedupe m;
     ma_summary := s; ma_throttles := ma_throttles m |}.
Definition with_throttles (ts : list MailThrottle) (m : MailAdmins) : MailAdmins :=
  {| ma_recipients := ma_recipients m; ma_debounce_millis := ma_debounce_millis m; ma_dedupe := ma_dedupe m;
     ma_summary := ma_summary m; ma_throttles := ts |}.
(** [throttle] and [unthrottled]. *)
Definition with_throttle (t : MailThrottle) (m : MailAdmins) : MailAdmins := with_throttles (ma_throttles m ++ [t]) m.
Definition unthrottled (m : MailAdmins) : MailAdmins := with_throttles [] m.
Definition debounce_duration (m : MailAdmins) : Duration := from_millis (ma_debounce_millis m).

(** The loop over the throttles; [before] are those it has passed. *)
Fixpoint validate_throttles (before throttles : list MailThrottle) : result LoggingError unit :=
  match throttles with
  | [] => Ok tt
  | t :: throttles =>
      let? _ := validate_throttle t in
      if existsb (λ existing, mt_window_millis existing =? mt_window_millis t) before
      then Err (MailAdminsDuplicateThrottle (mt_window_millis t))
      else validate_throttles (before ++ [t]) throttles
  end.
Definition mail_admins_validate (m : MailAdmins) : result LoggingError unit :=
  if bool_decide (ma_recipients m = []) then Err MailAdminsRecipients
  else if existsb is_blank (ma_recipients m) then Err MailAdminsRecipientEmpty
  else if (ma_debounce_millis m =? 0) || (MAX_DEBOUNCE_MILLIS <? ma_debounce_millis m)
  then Err (MailAdminsDebounce (ma_debounce_millis m))
  else if MAX_THROTTLES <? zlen (ma_throttles m) then Err (MailAdminsThrottleCount (zlen (ma_throttles m)))
  else validate_throttles [] (ma_throttles m).

(** ** Rules *)

Inductive LogSink :=
  | SinkFile (dir : string) (rotation : Rotation)
  | SinkStdout (pretty : bool)
  | SinkStderr (pretty : bool)
  | SinkMailAdmins (admins : MailAdmins).
Record LogRule := { lr_name : string; lr_sink : LogSink; lr_default_filter : string }.
Record LoggingConf := { lc_env_prefix : option string; lc_rules : list LogRule }.

Definition is_off_string (s : string) : bool :=
  let s := to_ascii_lowercase (trim s) in
  String.eqb s "off" || String.eqb s "0" || String.eqb s "false" || String.eqb s "no".

(** The checks of a name, which rules and the prefix share but for the letters
    they admit and the texts of their errors. *)
Definition validate_log_name (name empty long : string) (first_ok rest_ok : string → bool)
    (first_reason rest_reason : string → string) (error : string → LoggingError) : result LoggingError unit :=
  match chars name with
  | [] => Err (error empty)
  | first :: rest =>
      if 48 <? str_len name then Err (error long)
      else if negb (first_ok first) then Err (error (first_reason first))
      else match List.find (λ c, negb (rest_ok c)) rest with
           | Some invalid => Err (error (rest_reason invalid))
           | None => Ok tt
           end
  end.
Definition rule_first (c : string) : bool := ascii_char (λ b, upper_byte b || lower_byte b) c.
Definition rule_rest (c : string) : bool :=
  ascii_char (λ b, upper_byte b || lower_byte b || digit_byte b || underscore b) c.
Definition prefix_rest (c : string) : bool := ascii_char (λ b, upper_byte b || digit_byte b || underscore b) c.
Definition too_long (what : string) (name : string) : string :=
  what +:+ " too long (" +:+ pretty (str_len name) +:+ " characters, max 48)".
Definition validate_rule_name (name : string) : result LoggingError unit :=
  validate_log_name name "Name cannot be empty" (too_long "Name" name) rule_first rule_rest
    (λ c, "Must start with a letter (A-Z or a-z), found '" +:+ c +:+ "'")
    (λ c, "Invalid character '" +:+ c +:+ "'. Only letters, digits, and underscores allowed") (InvalidRuleName name).
Definition validate_env_prefix (prefix : string) : result LoggingError unit :=
  validate_log_name prefix "Prefix cannot be empty" (too_long "Prefix" prefix) (ascii_char upper_byte) prefix_rest
    (λ c, "Must start with uppercase letter (A-Z), found '" +:+ c +:+ "'")
    (λ c, "Invalid character '" +:+ c
          +:+ "'. Only uppercase letters, digits, and underscores allowed (env vars should be uppercase)")
    (InvalidEnvPrefix prefix).

Definition conf_default_filter (filter : string) (c : LoggingConf) : LoggingConf :=
  {| lc_env_prefix := lc_env_prefix c;
     lc_rules := List.map (λ r, {| lr_name := lr_name r; lr_sink := lr_sink r; lr_default_filter := filter |}) (lc_rules c) |}.
Definition extend_filter (base directives : string) : string :=
  let base := trim base in if String.eqb base "" then directives else base +:+ "," +:+ directives.
Definition extend_default_filter (directives : string) (c : LoggingConf) : LoggingConf :=
  let directives := trim directives in
  if String.eqb directives "" then c
  else {| lc_env_prefix := lc_env_prefix c;
          lc_rules := List.map (λ r, {| lr_name := lr_name r; lr_sink := lr_sink r;
                                        lr_default_filter := extend_filter (lr_default_filter r) directives |}) (lc_rules c) |}.
Definition resolved_env_prefix (c : LoggingConf) : string := default "RUST_LOG"%string (lc_env_prefix c).

Section Rules.
Context `{L : LoggingExternals}.

Definition log_rule_validate (r : LogRule) : result LoggingError unit :=
  let? _ := validate_rule_name (lr_name r) in
  let default_filter := trim (lr_default_filter r) in
  if negb (is_off_string default_filter) && negb (filter_ok default_filter) then Err (FilterParse default_filter)
  else match lr_sink r with SinkMailAdmins admins => mail_admins_validate admins | _ => Ok tt end.
Fixpoint validate_rules (seen : list string) (rules : list LogRule) : result LoggingError unit :=
  match rules with
  | [] => Ok tt
  | r :: rules =>
      let? _ := log_rule_validate r in
      if bool_decide (lr_name r ∈ seen) then Err (DuplicateRuleName (lr_name r)) else validate_rules (lr_name r :: seen) rules
  end.
Definition logging_conf_validate (c : LoggingConf) : result LoggingError unit :=
  let? _ := match lc_env_prefix c with Some prefix => validate_env_prefix prefix | None => Ok tt end in
  validate_rules [] (lc_rules c).

(** The variable of a rule, and the filter it is given; [None] where it is off. *)
Definition rule_env_var (env_prefix : string) (r : LogRule) : string :=
  env_prefix +:+ "_" +:+ to_ascii_uppercase (lr_name r).
Definition build_filter (env : string → option string) (env_prefix : string) (global_filter : option string) (r : LogRule) :
    result LoggingError (option string) :=
  let filter_str := trim (match env (rule_env_var env_prefix r) with
                          | Some rule_filter => rule_filter
                          | None => default (lr_default_filter r) global_filter
                          end) in
  if is_off_string filter_str then Ok None
  else if filter_ok filter_str then Ok (Some filter_str) else Err (FilterParse filter_str).

Definition mail_admins_of (r : LogRule) : option MailAdmins :=
  match lr_sink r with SinkMailAdmins admins => Some admins | _ => None end.
Fixpoint validate_admin_recipients (recipients : list string) : result LoggingError unit :=
  match recipients with
  | [] => Ok tt
  | recipient :: recipients =>
      match recipient_error recipient with
      | Some reason => Err (MailAdminsRecipient recipient reason)
      | None => validate_admin_recipients recipients
      end
  end.
Fixpoint validate_each_admins (admins : list MailAdmins) : result LoggingError unit :=
  match admins with
  | [] => Ok tt
  | a :: admins => let? _ := validate_admin_recipients (ma_recipients a) in validate_each_admins admins
  end.
Definition validate_mail_admins (log_init mail_enabled : bool) (c : LoggingConf) : result LoggingError unit :=
  match omap mail_admins_of (lc_rules c) with
  | [] => Ok tt
  | admins =>
      if negb log_init then Err MailAdminsLoggingDisabled
      else if negb mail_enabled then Err MailAdminsMailDisabled
      else validate_each_admins admins
  end.

(** ** Events *)

Definition bounded_to (value : string) (limit : Z) : string :=
  if str_len value <=? limit then value
  else truncate value (back_to_boundary value (Z.to_nat (Z.max 0 (limit - 3)))) +:+ "...".
Definition bounded (value : string) : string := bounded_to value MAX_EVENT_BYTES.

Record MailEvent := {
  me_at : DateTime; me_target : string; me_name : string; me_file : option string; me_line : option Z;
  me_message : string; me_fields : string; me_spans : string }.
Record MailMetadata := { md_target : string; md_name : string; md_file : option string; md_line : option Z }.
Record MailFields := { mf_message : option string; mf_values : list string }.

(** [record_debug] of a field and the text of its value. *)
Definition record_field (f : MailFields) (field : string * string) : MailFields :=
  let value := bounded_to field.2 MAX_FIELD_BYTES in
  if String.eqb field.1 "message" then
    {| mf_message := Some (bounded_to value MAX_MESSAGE_BYTES); mf_values := mf_values f |}
  else
    let entry := bounded_to (field.1 +:+ "=" +:+ value) MAX_FIELD_BYTES in
    if zlen (mf_values f) <? MAX_FIELDS then {| mf_message := mf_message f; mf_values := mf_values f ++ [entry] |} else f.
(** [MailEvent::capture]; [spans] from the root. *)
Definition capture (m : MailMetadata) (fields : list (string * string)) (spans : list string) (now : DateTime) : MailEvent :=
  let f := fold_left record_field fields {| mf_message := None; mf_values := [] |} in
  {| me_at := now; me_target := md_target m; me_name := md_name m; me_file := md_file m; me_line := md_line m;
     me_message := default "" (mf_message f); me_fields := String.concat ", " (mf_values f);
     me_spans := bounded_to (String.concat " > " spans) MAX_SPAN_BYTES |}.

Definition event_sample (e : MailEvent) : string :=
  let output := "time: " +:+ to_rfc3339 (me_at e) +:+ newline +:+ "target: " +:+ me_target e +:+ newline
                +:+ "message: " +:+ me_message e in
  let output := if String.eqb (me_fields e) "" then output else output +:+ newline +:+ "fields: " +:+ me_fields e in
  let output := if String.eqb (me_spans e) "" then output else output +:+ newline +:+ "spans: " +:+ me_spans e in
  bounded match me_file e, me_line e with
          | Some file, Some line => output +:+ newline +:+ "source: " +:+ file +:+ ":" +:+ pretty line
          | _, _ => output
          end.

(** [ReportKey::new]. *)
Definition report_key (d : MailDedupe) (e : MailEvent) : string :=
  let value := me_target e +:+ ":" +:+ me_name e +:+ ":" +:+ default "" (me_file e) +:+ ":" +:+ pretty (default 0 (me_line e)) in
  match d with DedupeExact => value +:+ ":" +:+ me_message e | DedupeCallsite => value end.

(** ** Pending reports and throttles *)

Record PendingReport := {
  rp_repeats : Z; rp_first_at : DateTime; rp_last_at : DateTime; rp_deadline : Instant;
  rp_samples : option (MailEvent * MailEvent) }.
Definition pending_new (conf : MailAdmins) (e : MailEvent) (now : Instant) : PendingReport :=
  {| rp_repeats := 0; rp_first_at := me_at e; rp_last_at := me_at e; rp_deadline := now + debounce_duration conf;
     rp_samples := match ma_summary conf with SummarySamples => Some (e, e) | _ => None end |}.
Definition u64_saturating_add (a b : Z) : Z := Z.min U64_MAX (a + b).
Definition pending_record (e : MailEvent) (r : PendingReport) : PendingReport :=
  {| rp_repeats := u64_saturating_add (rp_repeats r) 1; rp_first_at := rp_first_at r; rp_last_at := me_at e;
     rp_deadline := rp_deadline r; rp_samples := (λ s, (s.1, e)) <$> rp_samples r |}.

Record ThrottleWindow := { tw_throttle : MailThrottle; tw_opened_at : Instant; tw_delivered : Z }.
Definition throttle_window_new (now : Instant) (t : MailThrottle) : ThrottleWindow :=
  {| tw_throttle := t; tw_opened_at := now; tw_delivered := 0 |}.
Definition window_refresh (now : Instant) (w : ThrottleWindow) : ThrottleWindow :=
  if throttle_window (tw_throttle w) <=? duration_saturating_sub now (tw_opened_at w)
  then {| tw_throttle := tw_throttle w; tw_opened_at := now; tw_delivered := 0 |} else w.
Definition window_exhausted (w : ThrottleWindow) : bool := mt_limit (tw_throttle w) <=? tw_delivered w.
Definition window_consume (w : ThrottleWindow) : ThrottleWindow :=
  {| tw_throttle := tw_throttle w; tw_opened_at := tw_opened_at w; tw_delivered := Z.min U32_MAX (tw_delivered w + 1) |}.
Record DeliveryThrottles := { dt_windows : list ThrottleWindow; dt_suppressed : Z }.
Definition throttles_new (now : Instant) (throttles : list MailThrottle) : DeliveryThrottles :=
  {| dt_windows := List.map (throttle_window_new now) throttles; dt_suppressed := 0 |}.

(** What the sink logs, at a level it does not mail. *)
Inductive MailWarning :=
  | WarnQueueFull (dropped : Z)
  | WarnActiveLimit
  | WarnThrottled (suppressed : Z)
  | WarnInitialFailed
  | WarnSummaryFailed.
Record Mail := { mail_recipients : list string; mail_subject : string; mail_text : string }.

(** A worker's state; [mw_sent] is what it handed to the reporter, with the time
    the throttles allowed it, and [mw_warned] what it logged. *)
Record MailWorker := {
  mw_reports : gmap string PendingReport; mw_throttles : DeliveryThrottles;
  mw_sent : list (Instant * Mail); mw_warned : list MailWarning }.
Definition put_reports (v : gmap string PendingReport) (s : MailWorker) : MailWorker :=
  {| mw_reports := v; mw_throttles := mw_throttles s; mw_sent := mw_sent s; mw_warned := mw_warned s |}.
Definition put_throttles (v : DeliveryThrottles) (s : MailWorker) : MailWorker :=
  {| mw_reports := mw_reports s; mw_throttles := v; mw_sent := mw_sent s; mw_warned := mw_warned s |}.
Definition mail_warn (w : MailWarning) (s : MailWorker) : MailWorker :=
  {| mw_reports := mw_reports s; mw_throttles := mw_throttles s; mw_sent := mw_sent s; mw_warned := mw_warned s ++ [w] |}.
Definition hand_over (now : Instant) (m : Mail) (s : MailWorker) : MailWorker :=
  {| mw_reports := mw_reports s; mw_throttles := mw_throttles s; mw_sent := mw_sent s ++ [(now, m)]; mw_warned := mw_warned s |}.

(** [DeliveryThrottles::allow]. *)
Definition throttles_allow (now : Instant) (s : MailWorker) : bool * MailWorker :=
  let windows := List.map (window_refresh now) (dt_windows (mw_throttles s)) in
  let suppressed := dt_suppressed (mw_throttles s) in
  if existsb window_exhausted windows then
    (false, put_throttles {| dt_windows := windows; dt_suppressed := u64_saturating_add suppressed 1 |} s)
  else
    let s := put_throttles {| dt_windows := List.map window_consume windows; dt_suppressed := 0 |} s in
    (true, if 0 <? suppressed then mail_warn (WarnThrottled suppressed) s else s).

Definition alert_mail (conf : MailAdmins) (e : MailEvent) : Mail :=
  {| mail_recipients := ma_recipients conf; mail_subject := "[Vyuh] ERROR " +:+ me_target e; mail_text := event_sample e |}.
Definition summary_mail (conf : MailAdmins) (r : PendingReport) : Mail :=
  let body := pretty (rp_repeats r) +:+ " matching error(s) occurred after the initial alert." +:+ newline
              +:+ "first: " +:+ to_rfc3339 (rp_first_at r) +:+ newline +:+ "last: " +:+ to_rfc3339 (rp_last_at r) in
  let body := match rp_samples r with
              | Some (first, last) => body +:+ newline +:+ newline +:+ "first sample:" +:+ newline +:+ event_sample first
                                      +:+ newline +:+ newline +:+ "last sample:" +:+ newline +:+ event_sample last
              | None => body
              end in
  {| mail_recipients := ma_recipients conf;
     mail_subject := "[Vyuh] ERROR summary (" +:+ pretty (rp_repeats r) +:+ ")"; mail_text := bounded body |}.
(** [send_initial] and [send_summary]; [sent] is whether the reporter succeeded. *)
Definition mail_send (m : Mail) (failure : MailWarning) (now : Instant) (sent : bool) (s : MailWorker) : MailWorker :=
  let '(allowed, s) := throttles_allow now s in
  if allowed then let s := hand_over now m s in if sent then s else mail_warn failure s else s.

(** [record]: the report reads a clock, and then the throttles do. *)
Definition mail_record (conf : MailAdmins) (e : MailEvent) (opened now : Instant) (sent : bool) (s : MailWorker) : MailWorker :=
  let key := report_key (ma_dedupe conf) e in
  match mw_reports s !! key with
  | Some report => put_reports (<[key := pending_record e report]> (mw_reports s)) s
  | None =>
      if MAX_ACTIVE_REPORTS <=? Z.of_nat (size (mw_reports s)) then mail_warn WarnActiveLimit s
      else mail_send (alert_mail conf e) WarnInitialFailed now sent
             (put_reports (<[key := pending_new conf e opened]> (mw_reports s)) s)
  end.

(** The keys [flush] collects, in some order. *)
Definition due_reports (shutdown : bool) (now : Instant) (reports : gmap string PendingReport) : list string :=
  (List.filter (λ entry, shutdown || (rp_deadline entry.2 <=? now)) (map_to_list reports)).*1.
(** A turn of its loop: a key, the clock the throttles read, and the reporter's answer. *)
Definition flush_one (conf : MailAdmins) (s : MailWorker) (due : string * Instant * bool) : MailWorker :=
  let '(key, now, sent) := due in
  match mw_reports s !! key with
  | Some report =>
      let s := put_reports (delete key (mw_reports s)) s in
      if (0 <? rp_repeats report) && match ma_summary conf with SummaryNone => false | _ => true end
      then mail_send (summary_mail conf report) WarnSummaryFailed now sent s else s
  | None => s
  end.
Definition mail_flush (conf : MailAdmins) (due : list (string * Instant * bool)) (s : MailWorker) : MailWorker :=
  fold_left (flush_one conf) due s.
Definition mail_next_deadline (reports : gmap string PendingReport) : option Instant :=
  fold_right (λ entry least, Some (match least with Some d => Z.min (rp_deadline entry.2) d | None => rp_deadline entry.2 end))
    None (map_to_list reports).

(** ** The sink *)

(** The queue, the count of events it had no room for, and the worker. *)
Record MailSystem := { sy_queue : list MailEvent; sy_dropped : Z; sy_worker : MailWorker; sy_stopped : bool }.
Definition mail_start (conf : MailAdmins) (queue : list MailEvent) (dropped : Z) (now : Instant) : MailSystem :=
  {| sy_queue := queue; sy_dropped := dropped;
     sy_worker := {| mw_reports := ∅; mw_throttles := throttles_new now (ma_throttles conf); mw_sent := []; mw_warned := [] |};
     sy_stopped := false |}.

(** [on_event]: a full queue, or one whose worker is gone, drops the event. *)
Definition on_event (level : LogLevel) (e : MailEvent) (s : MailSystem) : MailSystem :=
  if negb (bool_decide (level = LevelError)) then s
  else if sy_stopped s || (REPORT_QUEUE_CAPACITY <=? zlen (sy_queue s)) then
    {| sy_queue := sy_queue s; sy_dropped := u64_wrapping_add (sy_dropped s) 1; sy_worker := sy_worker s; sy_stopped := sy_stopped s |}
  else {| sy_queue := sy_queue s ++ [e]; sy_dropped := sy_dropped s; sy_worker := sy_worker s; sy_stopped := sy_stopped s |}.

(** The end of a turn of [run]. *)
Definition take_dropped (queue : list MailEvent) (dropped : Z) (w : MailWorker) : MailSystem :=
  {| sy_queue := queue; sy_dropped := 0; sy_worker := if 0 <? dropped then mail_warn (WarnQueueFull dropped) w else w;
     sy_stopped := false |}.

(** Clocks a turn reads one after the other, between two times. *)
Fixpoint ascending (t : Instant) (readings : list Instant) (t' : Instant) : Prop :=
  match readings with [] => t ≤ t' | now :: readings => t ≤ now ∧ ascending now readings t' end.

(** A step from one time to another, with the event the worker takes from the queue. *)
Inductive mail_step (conf : MailAdmins) : Instant → MailSystem → option MailEvent → Instant → MailSystem → Prop :=
  | mail_logged t t' level e s :
      t ≤ t' → mail_step conf t s None t' (on_event level e s)
  | mail_event t t' opened now sent e queue s :
      sy_stopped s = false → sy_queue s = e :: queue → ascending t [opened; now] t' →
      mail_step conf t s (Some e) t'
        (take_dropped queue (sy_dropped s) (mail_record conf e opened now sent (sy_worker s)))
  | mail_due t t' now deadline due s :
      sy_stopped s = false → mail_next_deadline (mw_reports (sy_worker s)) = Some deadline → deadline ≤ now →
      due.*1.*1 ≡ₚ due_reports false now (mw_reports (sy_worker s)) → ascending t (now :: due.*1.*2) t' →
      mail_step conf t s None t' (take_dropped (sy_queue s) (sy_dropped s) (mail_flush conf due (sy_worker s)))
  (** Shutdown, or a closed channel: the receiver goes with what it holds. *)
  | mail_stop t t' now due s :
      sy_stopped s = false → due.*1.*1 ≡ₚ due_reports true now (mw_reports (sy_worker s)) →
      ascending t (now :: due.*1.*2) t' →
      mail_step conf t s None t'
        {| sy_queue := []; sy_dropped := sy_dropped s; sy_worker := mail_flush conf due (sy_worker s); sy_stopped := true |}.

(** The states of a sink, with the events its worker has taken. Events may wait
    when the worker starts. *)
Inductive mail_reaches (conf : MailAdmins) : list MailEvent → Instant → MailSystem → Prop :=
  | mail_starts queue dropped now :
      zlen queue ≤ REPORT_QUEUE_CAPACITY → mail_reaches conf [] now (mail_start conf queue dropped now)
  | mail_steps taken t s taken' t' s' :
      mail_reaches conf taken t s → mail_step conf t s taken' t' s' → mail_reaches conf (taken ++ option_list taken') t' s'.
End Rules.
