(* ===== verification/LoggingTheorems.v ===== *)
(** * What administrators are told

    Errors are reported in groups, each group once and exactly, and no more
    mail is handed over than the throttles allow. *)
From S2P Require Import Prelude Externals Failure Runner ChannelTypes Credentials Logging.
#[local] Open Scope Z_scope.

(** ** Throttles *)

(** How many messages were handed over from [a] on and before [b]. *)
Definition sent_between (sent : list (Instant * Mail)) (a b : Instant) : Z :=
  zlen (List.filter (λ m, (a <=? m.1) && (m.1 <? b)) sent).

Lemma sent_between_app sent m t a b :
  sent_between (sent ++ [(t, m)]) a b = sent_between sent a b + (if (a <=? t) && (t <? b) then 1 else 0).
Proof. unfold sent_between. rewrite List.filter_app, zlen_app. cbn. by destruct (_ && _). Qed.

Lemma sent_between_split sent a b c :
  a ≤ b ≤ c → sent_between sent a c = sent_between sent a b + sent_between sent b c.
Proof.
  intros H. induction sent as [|[t m] sent IH]; [done|]. unfold sent_between, zlen in *. cbn [List.filter fst].
  destruct (Z.leb_spec a t), (Z.ltb_spec t c), (Z.ltb_spec t b), (Z.leb_spec b t); cbn [andb length]; lia.
Qed.

Lemma sent_between_nonneg sent a b : 0 ≤ sent_between sent a b.
Proof. apply zlen_nonneg. Qed.

Lemma sent_between_none sent a b : (∀ m, m ∈ sent → m.1 < a) → sent_between sent a b = 0.
Proof.
  unfold sent_between. induction sent as [|[t m] sent IH]; intros H; [done|]. cbn.
  assert (t < a) by (apply (H (t, m)); by left). destruct (Z.leb_spec a t); [lia|]. cbn. apply IH. intros m' Hm. apply H. by right.
Qed.

Lemma sent_between_shrink sent a b c d : a ≤ c → d ≤ b → sent_between sent c d ≤ sent_between sent a b.
Proof.
  intros Hac Hdb. induction sent as [|[t m] sent IH]; [done|]. unfold sent_between, zlen in *. cbn [List.filter fst].
  destruct (Z.leb_spec a t), (Z.ltb_spec t b), (Z.leb_spec c t), (Z.ltb_spec t d); cbn [andb length]; lia.
Qed.

Definition window_valid (t : MailThrottle) : Prop := 0 < mt_limit t ≤ U32_MAX ∧ 0 < throttle_window t.

(** A window that is open at [now]: the counts of the current and of the last one. *)
Record throttle_window_ok (sent : list (Instant * Mail)) (now : Instant) (w : ThrottleWindow) : Prop := {
  wo_valid : window_valid (tw_throttle w);
  wo_opened : tw_opened_at w ≤ now;
  wo_sent m : m ∈ sent → m.1 < tw_opened_at w + throttle_window (tw_throttle w);
  wo_count : sent_between sent (tw_opened_at w) (tw_opened_at w + throttle_window (tw_throttle w)) = tw_delivered w;
  wo_current : tw_delivered w ≤ mt_limit (tw_throttle w);
  wo_last from : tw_opened_at w - throttle_window (tw_throttle w) < from →
    sent_between sent from (tw_opened_at w) ≤ mt_limit (tw_throttle w);
  wo_bound from : sent_between sent from (from + throttle_window (tw_throttle w)) ≤ 2 * mt_limit (tw_throttle w) }.

Lemma window_new_ok t now : window_valid t → throttle_window_ok [] now (throttle_window_new now t).
Proof.
  intros [Hl Hw]. split; cbn; try done; try lia.
  - by intros m Hm%elem_of_nil.
  - intros from _. change (sent_between [] from now) with 0. lia.
  - intros from. change (sent_between [] from _) with 0. lia.
Qed.

Lemma window_later sent now now' w : throttle_window_ok sent now w → now ≤ now' → throttle_window_ok sent now' w.
Proof. intros [? ? ? ? ? ? ?] H. split; auto. lia. Qed.

Lemma window_refresh_ok sent now now' w :
  throttle_window_ok sent now w → now ≤ now' →
  throttle_window_ok sent now' (window_refresh now' w) ∧
  now' < tw_opened_at (window_refresh now' w) + throttle_window (tw_throttle w) ∧
  tw_throttle (window_refresh now' w) = tw_throttle w.
Proof.
  intros Hok Hle. pose proof Hok as [[Hl Hw] Ho Hs Hc Hd Hlast Hb]. unfold window_refresh, duration_saturating_sub.
  destruct (Z.leb_spec (throttle_window (tw_throttle w)) (Z.max 0 (now' - tw_opened_at w))) as [Hr|Hr].
  2:{ split_and!; [by eapply window_later|lia|done]. }
  cbn. split_and!; [|lia|done]. split; cbn; try done; try lia.
  - intros m Hm. specialize (Hs m Hm). lia.
  - apply sent_between_none. intros m Hm. specialize (Hs m Hm). lia.
  - intros from Hfrom.
    pose proof (sent_between_none sent (tw_opened_at w + throttle_window (tw_throttle w)) now' Hs) as Hnone.
    pose proof (sent_between_shrink sent (tw_opened_at w) now' from now') as Hshrink.
    rewrite (sent_between_split sent (tw_opened_at w) (tw_opened_at w + throttle_window (tw_throttle w)) now') in Hshrink by lia. lia.
Qed.

Lemma window_consume_ok sent now w m :
  throttle_window_ok sent now w → now < tw_opened_at w + throttle_window (tw_throttle w) → window_exhausted w = false →
  throttle_window_ok (sent ++ [(now, m)]) now (window_consume w).
Proof.
  intros [[Hl Hw] Ho Hs Hc Hd Hlast Hb] Hnow Hex. unfold window_exhausted in Hex. apply Z.leb_gt in Hex.
  assert (Hc' : sent_between (sent ++ [(now, m)]) (tw_opened_at w) (tw_opened_at w + throttle_window (tw_throttle w)) = tw_delivered w + 1).
  { rewrite sent_between_app, Hc. by rewrite (proj2 (Z.leb_le _ _)), (proj2 (Z.ltb_lt _ _)) by lia. }
  split; cbn [window_consume tw_throttle tw_opened_at tw_delivered]; try done; try lia.
  - intros x [Hx|Hx%list_elem_of_singleton]%elem_of_app; [by apply Hs|by subst x].
  - intros from Hfrom. rewrite sent_between_app. specialize (Hlast from Hfrom). destruct (Z.leb_spec from now), (Z.ltb_spec now (tw_opened_at w)); cbn; lia.
  - intros from. rewrite sent_between_app. specialize (Hb from).
    destruct (Z.leb_spec from now), (Z.ltb_spec now (from + throttle_window (tw_throttle w))); cbn; try lia.
    destruct (Z.le_gt_cases from (tw_opened_at w)) as [Hf|Hf].
    + rewrite (sent_between_split sent from (tw_opened_at w)) by lia. specialize (Hlast from).
      pose proof (sent_between_shrink sent (tw_opened_at w) (tw_opened_at w + throttle_window (tw_throttle w)) (tw_opened_at w)
        (from + throttle_window (tw_throttle w))). lia.
    + assert (Hx : sent_between sent from (from + throttle_window (tw_throttle w)) ≤ tw_delivered w); [|lia].
      rewrite <- Hc, (sent_between_split sent from (tw_opened_at w + throttle_window (tw_throttle w))) by lia.
      rewrite (sent_between_none sent (tw_opened_at w + throttle_window (tw_throttle w))) by done.
      pose proof (sent_between_shrink sent (tw_opened_at w) (tw_opened_at w + throttle_window (tw_throttle w)) from
        (tw_opened_at w + throttle_window (tw_throttle w))). lia.
Qed.

Section Sink.
Context `{L : LoggingExternals} (conf : MailAdmins).

(** The throttles of a worker at [now]. *)
Definition throttles_ok (now : Instant) (w : MailWorker) : Prop :=
  Forall (throttle_window_ok (mw_sent w) now) (dt_windows (mw_throttles w)) ∧
  List.map tw_throttle (dt_windows (mw_throttles w)) = ma_throttles conf.

Lemma throttles_later now now' w : throttles_ok now w → now ≤ now' → throttles_ok now' w.
Proof. intros [H ?] Hle. split; [|done]. eapply Forall_impl; [exact H|]. intros x Hx. by eapply window_later. Qed.

Lemma mail_send_ok m failure now now' sent w :
  throttles_ok now w → now ≤ now' → throttles_ok now' (mail_send m failure now' sent w).
Proof.
  intros [H Ht] Hle. unfold mail_send, throttles_allow.
  assert (Hr : Forall (λ x, throttle_window_ok (mw_sent w) now' x ∧ now' < tw_opened_at x + throttle_window (tw_throttle x))
                 (List.map (window_refresh now') (dt_windows (mw_throttles w)))).
  { apply List.Forall_map. eapply Forall_impl; [exact H|]. intros x Hx.
    destruct (window_refresh_ok _ _ _ _ Hx Hle) as (? & ? & He). by rewrite He. }
  assert (Hm : List.map tw_throttle (List.map (window_refresh now') (dt_windows (mw_throttles w))) = ma_throttles conf).
  { rewrite <- Ht, List.map_map. apply map_ext_in. intros x Hx. unfold window_refresh. by case_match. }
  set (windows := List.map (window_refresh now') _) in *. destruct (existsb window_exhausted windows) eqn:Hex.
  - split; cbn; [|done]. eapply Forall_impl; [exact Hr|]. by intros x [? _].
  - assert (Hc : throttles_ok now' (hand_over now' m (put_throttles
      {| dt_windows := List.map window_consume windows; dt_suppressed := 0 |} w))).
    { split; cbn; [|by rewrite List.map_map]. apply List.Forall_map, Forall_forall. intros x Hx.
      rewrite Forall_forall in Hr. destruct (Hr x Hx) as [Hxo Hnow]. apply window_consume_ok; [done|done|].
      destruct (window_exhausted x) eqn:He; [|done]. rewrite <- not_true_iff_false in Hex. destruct Hex. apply existsb_exists.
      exists x. by rewrite <- list_elem_of_In. }
    by destruct (0 <? _), sent.
Qed.

Lemma mail_record_ok e opened now now' sent w :
  throttles_ok now w → now ≤ now' → throttles_ok now' (mail_record conf e opened now' sent w).
Proof.
  intros H Hle. unfold mail_record. destruct (mw_reports w !! _); [by eapply throttles_later|].
  destruct (_ <=? _); [by eapply throttles_later|]. by eapply mail_send_ok.
Qed.

Lemma flush_one_ok key now now' sent w :
  throttles_ok now w → now ≤ now' → throttles_ok now' (flush_one conf w (key, now', sent)).
Proof.
  intros H Hle. unfold flush_one. destruct (mw_reports w !! key) as [report|]; [|by eapply throttles_later].
  destruct (_ && _); [by eapply mail_send_ok|by eapply throttles_later].
Qed.

Lemma mail_flush_ok due now now' w :
  throttles_ok now w → ascending now due.*1.*2 now' → throttles_ok now' (mail_flush conf due w).
Proof.
  unfold mail_flush. revert now w. induction due as [|[[key t] sent] due IH]; intros now w H Ha; cbn in *; [by eapply throttles_later|].
  destruct Ha as [Ht Ha]. eapply IH; [|exact Ha]. by eapply flush_one_ok.
Qed.

(** The number of active reports. *)
Lemma mail_send_reports m failure now sent w : mw_reports (mail_send m failure now sent w) = mw_reports w.
Proof. unfold mail_send, throttles_allow. destruct (existsb _ _); cbn; [done|]. by destruct (0 <? _), sent. Qed.

Lemma mail_record_size e opened now sent w :
  Z.of_nat (size (mw_reports w)) ≤ MAX_ACTIVE_REPORTS → Z.of_nat (size (mw_reports (mail_record conf e opened now sent w))) ≤ MAX_ACTIVE_REPORTS.
Proof.
  intros H. unfold mail_record. destruct (mw_reports w !! _) eqn:Hk; [cbn; by rewrite map_size_insert_Some|].
  destruct (Z.leb_spec MAX_ACTIVE_REPORTS (Z.of_nat (size (mw_reports w)))); [done|].
  rewrite mail_send_reports. cbn. rewrite map_size_insert_None by done. lia.
Qed.

Lemma mail_flush_size due w :
  Z.of_nat (size (mw_reports w)) ≤ MAX_ACTIVE_REPORTS → Z.of_nat (size (mw_reports (mail_flush conf due w))) ≤ MAX_ACTIVE_REPORTS.
Proof.
  unfold mail_flush. revert w. induction due as [|[[key t] sent] due IH]; intros w H; [done|]. cbn [fold_left]. apply IH.
  unfold flush_one. destruct (mw_reports w !! key) eqn:Hk; [|done].
  assert (Z.of_nat (size (delete key (mw_reports w))) ≤ MAX_ACTIVE_REPORTS).
  { rewrite map_size_delete, Hk. lia. }
  destruct (_ && _); [by rewrite mail_send_reports|done].
Qed.

Record sink_ok (now : Instant) (s : MailSystem) : Prop := {
  so_throttles : throttles_ok now (sy_worker s);
  so_reports : Z.of_nat (size (mw_reports (sy_worker s))) ≤ MAX_ACTIVE_REPORTS;
  so_queue : zlen (sy_queue s) ≤ REPORT_QUEUE_CAPACITY }.

Lemma take_dropped_ok now queue dropped w :
  throttles_ok now w → Z.of_nat (size (mw_reports w)) ≤ MAX_ACTIVE_REPORTS → zlen queue ≤ REPORT_QUEUE_CAPACITY →
  sink_ok now (take_dropped queue dropped w).
Proof. intros ???. unfold take_dropped. by destruct (0 <? dropped). Qed.

Lemma mail_step_ok t s taken t' s' : sink_ok t s → mail_step conf t s taken t' s' → sink_ok t' s'.
Proof.
  intros [Ht Hr Hq] Hs. inversion Hs; subst; clear Hs.
  - split; unfold on_event; destruct (negb _); try done; try (by eapply throttles_later); destruct (sy_stopped s || _) eqn:Hc; cbn; try done;
      try (by eapply throttles_later). apply orb_false_iff in Hc as [_ Hc]. apply Z.leb_gt in Hc. rewrite zlen_app. change (zlen [e]) with 1. lia.
  - cbn in *. apply take_dropped_ok; [|by apply mail_record_size|].
    + eapply throttles_later; [|apply H1]. eapply mail_record_ok; [exact Ht|lia].
    + rewrite H0 in Hq. unfold zlen in *. cbn in Hq. lia.
  - apply take_dropped_ok; [|by apply mail_flush_size|done].
    destruct H3. eapply mail_flush_ok; [|done]. by eapply throttles_later.
  - split; cbn; [|by apply mail_flush_size|done]. destruct H1. eapply mail_flush_ok; [|done]. by eapply throttles_later.
Qed.

Lemma validate_throttles_valid before throttles :
  validate_throttles before throttles = Ok tt → (∀ t, t ∈ throttles → 0 ≤ mt_limit t ∧ 0 ≤ mt_window_millis t) →
  Forall window_valid throttles.
Proof.
  revert before. induction throttles as [|t ts IH]; intros before H Hn; [constructor|]. cbn in H.
  apply result_bind_ok in H as ([] & Ht & H). destruct (existsb _ _); [done|]. constructor; [|eapply IH; [done|]; intros; apply Hn; by right].
  destruct (Hn t ltac:(by left)) as [Hn1 Hn2].
  unfold validate_throttle in Ht. destruct (Z.eqb_spec (mt_limit t) 0); [done|]. destruct (Z.ltb_spec MAX_THROTTLE_LIMIT (mt_limit t)); [done|].
  destruct (Z.eqb_spec (mt_window_millis t) 0); [done|]. unfold MAX_THROTTLE_LIMIT, window_valid, throttle_window, from_millis, U32_MAX in *. lia.
Qed.

(** The fields of a throttle are unsigned. *)
Definition throttles_unsigned : Prop := ∀ t, t ∈ ma_throttles conf → 0 ≤ mt_limit t ∧ 0 ≤ mt_window_millis t.

Lemma mail_reaches_ok taken t s :
  mail_admins_validate conf = Ok tt → throttles_unsigned → mail_reaches conf taken t s → sink_ok t s.
Proof.
  intros Hv Hn. induction 1 as [queue dropped now Hq|taken t s taken' t' s' H IH Hs]; [|by eapply mail_step_ok].
  unfold mail_admins_validate in Hv. destruct (bool_decide _); [done|]. destruct (existsb _ _); [done|]. destruct (_ || _); [done|].
  destruct (_ <? _); [done|]. apply validate_throttles_valid in Hv; [|done].
  split; cbn; [|by rewrite map_size_empty|done]. split; cbn; [|rewrite List.map_map; cbn; apply map_id].
  apply List.Forall_map. eapply Forall_impl; [exact Hv|]. intros t Ht. by apply window_new_ok.
Qed.

(** C29: over any run of a configured sink, however errors arrive, whatever the
    reporter answers and however the runtime delays the worker: at most twice
    the limit of each throttle is handed over in any interval of the throttle's
    window, at most 256 reports are active, and at most 1024 events wait. *)
Theorem administrators_are_not_flooded taken t s :
  mail_admins_validate conf = Ok tt → throttles_unsigned → mail_reaches conf taken t s →
  (∀ throttle from, throttle ∈ ma_throttles conf →
     sent_between (mw_sent (sy_worker s)) from (from + throttle_window throttle) ≤ 2 * mt_limit throttle) ∧
  Z.of_nat (size (mw_reports (sy_worker s))) ≤ 256 ∧ zlen (sy_queue s) ≤ 1024.
Proof.
  intros Hv Hn Hr. destruct (mail_reaches_ok _ _ _ Hv Hn Hr) as [[Hw Ht] Hs Hq]. split_and!; [|done|done].
  intros throttle from Hin. rewrite <- Ht in Hin. apply list_elem_of_In, in_map_iff in Hin as (w & <- & Hin).
  rewrite Forall_forall in Hw. apply (Hw w). by apply list_elem_of_In.
Qed.

(** ** Groups *)

(** The errors of a report: when it was opened, the first one and those after it. *)
Record Group := { gr_opened : Instant; gr_first : MailEvent; gr_rest : list MailEvent }.
Definition group_events (g : Group) : list MailEvent := gr_first g :: gr_rest g.
(** The report of a group. *)
Definition report_of (g : Group) : PendingReport :=
  {| rp_repeats := Z.min U64_MAX (zlen (gr_rest g)); rp_first_at := me_at (gr_first g);
     rp_last_at := me_at (List.last (gr_rest g) (gr_first g)); rp_deadline := gr_opened g + debounce_duration conf;
     rp_samples := match ma_summary conf with
                   | SummarySamples => Some (gr_first g, List.last (gr_rest g) (gr_first g)) | _ => None end |}.
Definition groups_of (open : gmap string Group) : list Group := (map_to_list open).*2.
Definition summarized (g : Group) : bool :=
  negb (bool_decide (gr_rest g = [])) && match ma_summary conf with SummaryNone => false | _ => true end.
(** The messages groups give rise to: an alert each, and a summary of those that are [closed]. *)
Definition group_mails (all closed : list Group) : list Mail :=
  List.map (λ g, alert_mail conf (gr_first g)) all ++
  List.map (λ g, summary_mail conf (report_of g)) (List.filter summarized closed).
Definition same_key (g g' : Group) : Prop :=
  report_key (ma_dedupe conf) (gr_first g) = report_key (ma_dedupe conf) (gr_first g').
Definition limit_refusals (warned : list MailWarning) : nat :=
  length (List.filter (λ w, match w with WarnActiveLimit => true | _ => false end) warned).

Lemma groups_insert open k g : open !! k = None → groups_of (<[k:=g]> open) ≡ₚ g :: groups_of open.
Proof. intros H. unfold groups_of. by rewrite map_to_list_insert. Qed.
Lemma groups_delete open k g : open !! k = Some g → groups_of open ≡ₚ g :: groups_of (delete k open).
Proof. intros H. unfold groups_of. by rewrite <- (map_to_list_delete open k g). Qed.
Lemma groups_replace open k g g' : open !! k = Some g → groups_of (<[k:=g']> open) ≡ₚ g' :: groups_of (delete k open).
Proof. intros H. rewrite <- insert_delete_eq. apply groups_insert, lookup_delete_eq. Qed.

Lemma report_of_record g e :
  pending_record e (report_of g) = report_of {| gr_opened := gr_opened g; gr_first := gr_first g; gr_rest := gr_rest g ++ [e] |}.
Proof.
  unfold pending_record, report_of. cbn. rewrite List.last_last, zlen_app. f_equal.
  - unfold u64_saturating_add. change (zlen [e]) with 1. pose proof (zlen_nonneg (gr_rest g)). lia.
  - by destruct (ma_summary conf).
Qed.

(** What a worker's state says of the errors it has [taken]. *)
Record grouped (taken : list MailEvent) (now : Instant) (stopped : bool) (w : MailWorker)
    (open : gmap string Group) (closed : list Group) (refused : list MailEvent) : Prop := {
  gd_reports : mw_reports w = report_of <$> open;
  gd_keys k g e : open !! k = Some g → e ∈ group_events g → report_key (ma_dedupe conf) e = k;
  gd_closed_keys g e : g ∈ closed → e ∈ group_events g → report_key (ma_dedupe conf) e = report_key (ma_dedupe conf) (gr_first g);
  gd_taken : taken ≡ₚ flat_map group_events (groups_of open ++ closed) ++ refused;
  gd_refused : limit_refusals (mw_warned w) = length refused;
  gd_sent : (mw_sent w).*2 ⊆+ group_mails (groups_of open ++ closed) closed;
  gd_unthrottled : dt_windows (mw_throttles w) = [] → (mw_sent w).*2 ≡ₚ group_mails (groups_of open ++ closed) closed;
  gd_opened k g : open !! k = Some g → gr_opened g ≤ now;
  gd_spaced_open k g g' : open !! k = Some g → g' ∈ closed → same_key g' g → gr_opened g' + debounce_duration conf ≤ gr_opened g;
  gd_spaced_closed : ForallOrdPairs (λ g g', same_key g g' → gr_opened g + debounce_duration conf ≤ gr_opened g') closed;
  gd_over g : stopped = false → g ∈ closed → gr_opened g + debounce_duration conf ≤ now }.

Lemma mail_send_spec m failure now sent w :
  failure ≠ WarnActiveLimit →
  limit_refusals (mw_warned (mail_send m failure now sent w)) = limit_refusals (mw_warned w) ∧
  ∃ b : bool, (mw_sent (mail_send m failure now sent w)).*2 = (mw_sent w).*2 ++ (if b then [m] else []) ∧
    (dt_windows (mw_throttles w) = [] → b = true) ∧
    (dt_windows (mw_throttles (mail_send m failure now sent w)) = [] → dt_windows (mw_throttles w) = []).
Proof.
  intros Hf. assert (Hr : ∀ warned x, x ≠ WarnActiveLimit → limit_refusals (warned ++ [x]) = limit_refusals warned).
  { intros warned x Hx. unfold limit_refusals. rewrite List.filter_app, length_app. destruct x; cbn; try lia. done. }
  unfold mail_send, throttles_allow. destruct (existsb _ _) eqn:Hex.
  - split; [done|]. exists false. cbn. rewrite app_nil_r. split_and!; [done|by intros He; rewrite He in Hex|by intros ?%map_eq_nil].
  - destruct (0 <? dt_suppressed (mw_throttles w)), sent; cbn -[limit_refusals]; rewrite ?Hr by done;
      (split; [done|]; exists true; rewrite fmap_app; cbn; split_and!; [done|done|by intros ?%map_eq_nil%map_eq_nil]).
Qed.

Lemma grouped_later taken now now' st w open closed refused :
  grouped taken now st w open closed refused → now ≤ now' → grouped taken now' st w open closed refused.
Proof.
  intros [? ? ? ? ? ? ? Ho ? ? Hv] Hle. split; try done.
  - intros k g Hk. specialize (Ho k g Hk). lia.
  - intros g Hs Hg. specialize (Hv g Hs Hg). lia.
Qed.

Lemma group_mails_perm all all' closed : all ≡ₚ all' → group_mails all closed ≡ₚ group_mails all' closed.
Proof. intros H. unfold group_mails. by rewrite H. Qed.

Lemma same_key_refl g : same_key g g.
Proof. done. Qed.

Lemma grouped_record taken now e opened now' sent w open closed refused :
  grouped taken now false w open closed refused → now ≤ opened → opened ≤ now' →
  ∃ open' refused', grouped (taken ++ [e]) now' false (mail_record conf e opened now' sent w) open' closed refused'.
Proof.
  intros G Hle Hle'. pose proof (grouped_later _ _ now' _ _ _ _ _ G ltac:(lia)) as G'. destruct G'.
  unfold mail_record. set (key := report_key (ma_dedupe conf) e). rewrite gd_reports0, lookup_fmap.
  destruct (open !! key) as [g|] eqn:Hk; cbn [fmap option_fmap option_map].
  - (* a repeat *)
    set (g' := {| gr_opened := gr_opened g; gr_first := gr_first g; gr_rest := gr_rest g ++ [e] |}).
    pose proof (groups_delete _ _ _ Hk) as Hd. pose proof (groups_replace _ _ _ g' Hk) as Hr.
    assert (Hmails : group_mails (groups_of (<[key:=g']> open) ++ closed) closed ≡ₚ group_mails (groups_of open ++ closed) closed).
    { trans (group_mails (g' :: groups_of (delete key open) ++ closed) closed); [by apply group_mails_perm; rewrite Hr|].
      symmetry. trans (group_mails (g :: groups_of (delete key open) ++ closed) closed); [by apply group_mails_perm; rewrite Hd|done]. }
    exists (<[key:=g']> open), refused. split; cbn; try done.
    + by rewrite report_of_record, fmap_insert.
    + intros k x e' Hx He. apply lookup_insert_Some in Hx as [[<- <-]|[_ Hx]]; [|by eapply gd_keys0].
      unfold group_events in He. cbn in He. apply elem_of_cons in He as [->|He]; [eapply gd_keys0; [exact Hk|by left]|].
      apply elem_of_app in He as [He|He%list_elem_of_singleton]; [eapply gd_keys0; [exact Hk|by right]|by rewrite He].
    + rewrite gd_taken0, Hr, Hd. cbn. solve_Permutation.
    + by rewrite Hmails.
    + intros Hw. rewrite Hmails. by apply gd_unthrottled0.
    + intros k x Hx. apply lookup_insert_Some in Hx as [[<- <-]|[_ Hx]]; [exact (gd_opened0 key g Hk)|by eapply gd_opened0].
    + intros k x g0 Hx Hg0 Hsame. apply lookup_insert_Some in Hx as [[<- <-]|[_ Hx]]; [exact (gd_spaced_open0 key g g0 Hk Hg0 Hsame)|by eapply gd_spaced_open0].
  - destruct (_ <=? _).
    + (* no room *)
      exists open, (refused ++ [e]). split; cbn; try done.
      * by rewrite gd_taken0, app_assoc.
      * unfold limit_refusals in *. rewrite List.filter_app, !length_app. cbn. lia.
    + (* a new report *)
      set (g := {| gr_opened := opened; gr_first := e; gr_rest := [] |}).
      pose proof (groups_insert _ _ g Hk) as Hi.
      destruct (mail_send_spec (alert_mail conf e) WarnInitialFailed now' sent
        (put_reports (<[key:=pending_new conf e opened]> (report_of <$> open)) w) ltac:(done)) as (Hwarn & b & Hsent & Hb & Hnil).
      assert (Hmails : group_mails (groups_of (<[key:=g]> open) ++ closed) closed ≡ₚ
        group_mails (groups_of open ++ closed) closed ++ [alert_mail conf e]).
      { trans (group_mails (g :: groups_of open ++ closed) closed); [by apply group_mails_perm; rewrite Hi|].
        unfold group_mails. cbn. solve_Permutation. }
      exists (<[key:=g]> open), refused. split; try done.
      * rewrite mail_send_reports. cbn. by rewrite fmap_insert.
      * intros k x e' Hx He. apply lookup_insert_Some in Hx as [[<- <-]|[_ Hx]]; [|by eapply gd_keys0].
        by apply list_elem_of_singleton in He as ->.
      * rewrite gd_taken0, Hi. cbn. solve_Permutation.
      * by rewrite Hwarn.
      * rewrite Hsent, Hmails. cbn. destruct b; [by apply submseteq_app|]. rewrite app_nil_r. by apply submseteq_inserts_r.
      * intros Hw. rewrite Hsent, Hmails. apply Hnil in Hw. rewrite (Hb Hw). cbn. by rewrite gd_unthrottled0.
      * intros k x Hx. apply lookup_insert_Some in Hx as [[<- <-]|[_ Hx]]; [done|by eapply gd_opened0].
      * intros k x g0 Hx Hg0 Hsame. apply lookup_insert_Some in Hx as [[<- <-]|[_ Hx]]; [|by eapply gd_spaced_open0].
        cbn. pose proof (gd_over _ _ _ _ _ _ _ G g0 eq_refl Hg0). lia.
Qed.

Lemma ForallOrdPairs_app_one {A} (R : A → A → Prop) l x :
  ForallOrdPairs R l → (∀ y, y ∈ l → R y x) → ForallOrdPairs R (l ++ [x]).
Proof.
  induction 1 as [|y l Hy Hl IH]; intros Hx; cbn; [repeat constructor|]. constructor.
  - apply List.Forall_app. split; [done|]. repeat constructor. apply Hx. by left.
  - apply IH. intros z Hz. apply Hx. by right.
Qed.

Lemma grouped_flush_one taken now t sent st key w open closed refused :
  grouped taken now st w open closed refused → now ≤ t →
  (∀ g, open !! key = Some g → st = false → gr_opened g + debounce_duration conf ≤ t) →
  ∃ closed', grouped taken t st (flush_one conf w (key, t, sent)) (delete key open) closed' refused.
Proof.
  intros G Hle Hdue. pose proof (grouped_later _ _ t _ _ _ _ _ G Hle) as G'. destruct G'.
  unfold flush_one. rewrite gd_reports0, lookup_fmap. destruct (open !! key) as [g|] eqn:Hk; cbn [fmap option_fmap option_map].
  2:{ exists closed. rewrite (delete_id _ _ Hk). by split. }
  pose proof (groups_delete _ _ _ Hk) as Hd.
  assert (Hs : (0 <? rp_repeats (report_of g)) && match ma_summary conf with SummaryNone => false | _ => true end = summarized g).
  { unfold summarized. f_equal. unfold report_of. cbn. destruct (gr_rest g) as [|e rest] eqn:Hr; [done|].
    case_bool_decide as Hb; [done|]. cbn. apply Z.ltb_lt. unfold zlen, U64_MAX. cbn [length]. lia. }
  rewrite Hs. set (w' := put_reports _ w).
  assert (Hall : groups_of open ++ closed ≡ₚ groups_of (delete key open) ++ closed ++ [g]) by (rewrite Hd; solve_Permutation).
  assert (Hmails : group_mails (groups_of (delete key open) ++ closed ++ [g]) (closed ++ [g]) ≡ₚ
    group_mails (groups_of open ++ closed) closed ++ (if summarized g then [summary_mail conf (report_of g)] else [])).
  { rewrite <- (group_mails_perm _ _ _ Hall). unfold group_mails. rewrite List.filter_app, map_app. cbn.
    destruct (summarized g); rewrite ?map_app; cbn; solve_Permutation. }
  assert (Hsent : limit_refusals (mw_warned (if summarized g then mail_send (summary_mail conf (report_of g)) WarnSummaryFailed t sent w' else w')) = length refused ∧
    mw_reports (if summarized g then mail_send (summary_mail conf (report_of g)) WarnSummaryFailed t sent w' else w') = report_of <$> delete key open ∧
    ∃ b : bool, (mw_sent (if summarized g then mail_send (summary_mail conf (report_of g)) WarnSummaryFailed t sent w' else w')).*2 =
      (mw_sent w).*2 ++ (if b && summarized g then [summary_mail conf (report_of g)] else []) ∧
      (dt_windows (mw_throttles (if summarized g then mail_send (summary_mail conf (report_of g)) WarnSummaryFailed t sent w' else w')) = [] →
       b = true ∧ dt_windows (mw_throttles w) = [])).
  { destruct (summarized g).
    - destruct (mail_send_spec (summary_mail conf (report_of g)) WarnSummaryFailed t sent w' ltac:(done)) as (Hwarn & b & Hb & Hn & Hn').
      rewrite Hwarn, mail_send_reports. cbn. rewrite fmap_delete. split_and!; [done|done|]. exists b. rewrite andb_true_r. split; [exact Hb|].
      intros H. apply Hn' in H. split; [by apply Hn|exact H].
    - cbn. rewrite fmap_delete. split_and!; [done|done|]. exists true. cbn. by rewrite app_nil_r. }
  destruct Hsent as (Hwarn & Hrep & b & Hb & Hn). exists (closed ++ [g]). split.
  - exact Hrep.
  - intros k x e Hx. apply lookup_delete_Some in Hx as [_ Hx]. by apply gd_keys0.
  - intros x e [Hx|Hx%list_elem_of_singleton]%elem_of_app He; [by eapply gd_closed_keys0|]. subst x.
    rewrite (gd_keys0 _ _ _ Hk He). symmetry. apply (gd_keys0 _ _ _ Hk). by left.
  - rewrite gd_taken0. by rewrite Hall.
  - exact Hwarn.
  - rewrite Hb, Hmails. destruct b, (summarized g); cbn; rewrite ?app_nil_r; try done; [by apply submseteq_app|by apply submseteq_inserts_r].
  - intros H. apply Hn in H as [-> H]. rewrite Hb, Hmails. cbn. by rewrite gd_unthrottled0.
  - intros k x Hx. apply lookup_delete_Some in Hx as [_ Hx]. by eapply gd_opened0.
  - intros k x g0 Hx [Hg0|Hg0%list_elem_of_singleton]%elem_of_app Hsame; apply lookup_delete_Some in Hx as [Hne Hx]; [by eapply gd_spaced_open0|].
    subst g0. destruct Hne. unfold same_key in Hsame. rewrite <- (gd_keys0 _ _ (gr_first g) Hk) by (by left).
    rewrite <- (gd_keys0 _ _ (gr_first x) Hx) by (by left). done.
  - apply ForallOrdPairs_app_one; [done|]. intros x Hx Hsame. by eapply gd_spaced_open0.
  - intros x Hst [Hx|Hx%list_elem_of_singleton]%elem_of_app; [by apply gd_over0|]. subst x. by apply Hdue.
Qed.

Lemma grouped_flush taken now t' st due w open closed refused :
  grouped taken now st w open closed refused → ascending now due.*1.*2 t' →
  (∀ k g, k ∈ due.*1.*1 → open !! k = Some g → st = false → gr_opened g + debounce_duration conf ≤ now) →
  ∃ open' closed', grouped taken t' st (mail_flush conf due w) open' closed' refused ∧
    ∀ k g, open' !! k = Some g → open !! k = Some g ∧ k ∉ due.*1.*1.
Proof.
  unfold mail_flush. revert now w open closed. induction due as [|[[key t] sent] due IH]; intros now w open closed G Ha Hdue; cbn in *.
  - exists open, closed. split; [by eapply grouped_later|]. intros k g Hk. split; [done|by apply not_elem_of_nil].
  - destruct Ha as [Ht Ha]. destruct (grouped_flush_one _ _ t sent _ key _ _ _ _ G Ht) as [closed1 G1].
    { intros g Hg Hst. specialize (Hdue key g ltac:(by left) Hg Hst). lia. }
    destruct (IH _ _ _ _ G1 Ha) as (open' & closed' & G' & Hopen).
    { intros k g Hk Hg Hst. apply lookup_delete_Some in Hg as [_ Hg]. specialize (Hdue k g ltac:(by right) Hg Hst). lia. }
    exists open', closed'. split; [done|]. intros k g Hk. apply Hopen in Hk as [Hk Hnot]. apply lookup_delete_Some in Hk as [Hne Hk].
    split; [done|]. by apply not_elem_of_cons.
Qed.

Lemma due_reports_spec st now (reports : gmap string PendingReport) k :
  k ∈ due_reports st now reports ↔ ∃ r, reports !! k = Some r ∧ (st = true ∨ rp_deadline r ≤ now).
Proof.
  unfold due_reports. rewrite list_elem_of_fmap. split.
  - intros ([k' r] & -> & Hin). apply list_elem_of_In, filter_In in Hin as [Hin Hc]. apply list_elem_of_In, elem_of_map_to_list in Hin.
    exists r. split; [done|]. apply orb_true_iff in Hc as [?|Hc]; [by left|right]. by apply Z.leb_le in Hc.
  - intros (r & Hr & Hc). exists (k, r). split; [done|]. apply list_elem_of_In, filter_In. split.
    + by apply list_elem_of_In, elem_of_map_to_list.
    + apply orb_true_iff. destruct Hc as [?|Hc]; [by left|right]. by apply Z.leb_le.
Qed.

(** The count of dropped events a turn logs is not a refusal. *)
Lemma grouped_take_dropped taken now queue dropped w open closed refused :
  grouped taken now false w open closed refused →
  grouped taken now false (sy_worker (take_dropped queue dropped w)) open closed refused.
Proof.
  intros [? ? ? ? Hr ? ? ? ? ? ?]. unfold take_dropped. cbn. destruct (0 <? dropped); [|by split].
  split; try done. cbn. unfold limit_refusals in *. rewrite List.filter_app, length_app. cbn. lia.
Qed.

Lemma grouped_stopped taken now w open closed refused :
  grouped taken now false w open closed refused → grouped taken now true w open closed refused.
Proof. by intros []. Qed.

Lemma mail_step_grouped taken t s event t' s' open closed refused :
  mail_step conf t s event t' s' → grouped taken t (sy_stopped s) (sy_worker s) open closed refused →
  (sy_stopped s = true → open = ∅) →
  ∃ open' closed' refused', grouped (taken ++ option_list event) t' (sy_stopped s') (sy_worker s') open' closed' refused' ∧
    (sy_stopped s' = true → open' = ∅).
Proof.
  intros Hs G Hstop. inversion Hs; subst; clear Hs; cbn [option_list]; rewrite ?app_nil_r.
  - exists open, closed, refused. apply (grouped_later _ _ t') in G; [|done]. unfold on_event.
    destruct (negb _); [done|]. by destruct (sy_stopped s || _).
  - rewrite H in G. cbn in H1. destruct H1 as (H1 & H2 & H3).
    destruct (grouped_record _ _ e opened now sent _ _ _ _ G H1 H2) as (open' & refused' & G').
    exists open', closed, refused'. split; [|done]. apply grouped_take_dropped. by eapply grouped_later.
  - rewrite H in G. destruct H3 as [H3 Ha]. apply (grouped_later _ _ now) in G; [|done].
    destruct (grouped_flush _ _ _ _ _ _ _ _ _ G Ha) as (open' & closed' & G' & _).
    { intros k g Hk Hg _. rewrite H2, due_reports_spec in Hk. destruct Hk as (r & Hr & [?|Hd]); [done|].
      rewrite (gd_reports _ _ _ _ _ _ _ G), lookup_fmap, Hg in Hr. by injection Hr as <-. }
    exists open', closed', refused. split; [by apply grouped_take_dropped|done].
  - rewrite H in G. destruct H1 as [H1 Ha]. apply grouped_stopped, (grouped_later _ _ now) in G; [|done].
    destruct (grouped_flush _ _ _ _ _ _ _ _ _ G Ha) as (open' & closed' & G' & Hopen); [done|].
    exists open', closed', refused. split; [done|]. intros _. apply map_empty. intros k. destruct (open' !! k) as [g|] eqn:Hk; [|done].
    apply Hopen in Hk as [Hk Hnot]. destruct Hnot. rewrite H0, due_reports_spec. exists (report_of g).
    split; [|by left]. by rewrite (gd_reports _ _ _ _ _ _ _ G), lookup_fmap, Hk.
Qed.

(** C28: the errors a worker takes are grouped by their key: each is in one group,
    or was refused and logged. The active reports are exactly those of the open
    groups: how often, when first and last, and the samples. Each group gives at
    most one alert, of its first error, and once closed at most one summary of
    all of them; without throttles it gives them exactly. Two groups of a key
    are opened the debounce apart, and a worker that stopped left none open. *)
Theorem errors_are_reported_in_groups taken t s :
  mail_reaches conf taken t s →
  ∃ open closed refused, grouped taken t (sy_stopped s) (sy_worker s) open closed refused ∧ (sy_stopped s = true → open = ∅).
Proof.
  induction 1 as [queue dropped now Hq|taken t s event t' s' H (open & closed & refused & G & Hstop) Hs].
  - exists ∅, [], []. split; [|done]. split; try done; cbn; try (intros; set_solver). constructor.
  - by eapply mail_step_grouped.
Qed.
End Sink.

(** ** What the configuration and the capture let through *)

(** [bounded_to] keeps to its limit, for a limit of at least three bytes. *)
Lemma bounded_to_length value limit : 3 ≤ limit → str_len (bounded_to value limit) ≤ limit.
Proof.
  intros Hl. unfold bounded_to. destruct (Z.leb_spec (str_len value) limit); [done|]. rewrite str_len_app. change (str_len "...") with 3.
  assert (He : (back_to_boundary value (Z.to_nat (Z.max 0 (limit - 3))) ≤ Z.to_nat (limit - 3))%nat).
  { rewrite Z.max_r by lia. generalize (Z.to_nat (limit - 3)). intros n. induction n as [|n IH]; cbn; [lia|]. case_match; lia. }
  unfold truncate, str_len. assert (Hs : ∀ n s, (String.length (String.substring 0 n s) ≤ n)%nat); [|specialize (Hs (back_to_boundary value (Z.to_nat (Z.max 0 (limit - 3)))) value); lia].
  clear. intros n. induction n as [|n IH]; intros s; destruct s; cbn; [lia..|]. specialize (IH s). lia.
Qed.

(** The message of an event is cut like a field, so the larger limit for messages
    is never reached. *)
Lemma messages_are_cut_like_fields `{LoggingExternals} m fields spans now :
  str_len (me_message (capture m fields spans now)) ≤ MAX_FIELD_BYTES.
Proof.
  unfold capture. cbn [me_message]. set (f := {| mf_message := None; mf_values := [] |}).
  assert (Hf : ∀ message, mf_message f = Some message → str_len message ≤ MAX_FIELD_BYTES) by done.
  clearbody f. revert f Hf. induction fields as [|field fields IH]; intros f Hf; cbn.
  - destruct (mf_message f) as [message|] eqn:He; [by apply Hf|done].
  - apply IH. unfold record_field. destruct (String.eqb field.1 "message"); cbn.
    + intros message [= <-]. pose proof (bounded_to_length field.2 MAX_FIELD_BYTES ltac:(done)) as Hb.
      set (value := bounded_to field.2 MAX_FIELD_BYTES) in *. unfold bounded_to.
      unfold MAX_FIELD_BYTES, MAX_MESSAGE_BYTES in *. destruct (Z.leb_spec (str_len value) (8 * 1024)); lia.
    + by destruct (_ <? _).
Qed.

(** Rules that are accepted have distinct names, each a letter followed by letters,
    digits and underscores. *)
Lemma validate_rules_distinct `{LoggingExternals} seen rules :
  validate_rules seen rules = Ok tt → NoDup (List.map lr_name rules) ∧ ∀ r, r ∈ rules → lr_name r ∉ seen ∧ log_rule_validate r = Ok tt.
Proof.
  revert seen. induction rules as [|r rules IH]; intros seen Hv; cbn; [split; [constructor|by intros r Hr%elem_of_nil]|]. cbn in Hv.
  apply result_bind_ok in Hv as ([] & Hr & Hv). destruct (bool_decide _) eqn:Hin; [done|]. apply bool_decide_eq_false in Hin.
  apply IH in Hv as [Hnd Hv]. split.
  - constructor; [|done]. intros Hi. apply list_elem_of_In, in_map_iff in Hi as (r' & He & Hi). apply list_elem_of_In in Hi.
    destruct (Hv r' Hi) as [Hns _]. apply Hns. rewrite He. by left.
  - intros r' [->|Hr']%elem_of_cons; [done|]. destruct (Hv r' Hr') as [Hns ?]. split; [|done]. intros Hi. apply Hns. by right.
Qed.

(** ** A sink *)

Module LoggingDemo.
#[export] Instance texts : LoggingExternals := {|
  filter_ok s := negb (String.eqb s "==");
  recipient_error s := if String.eqb s "ops@example.com" then None else Some "invalid"%string;
  to_rfc3339 t := pretty t |}.

Definition admins : MailAdmins := mail_admins_new ["ops@example.com"%string].
Definition unlimited : MailAdmins := unthrottled admins.
(** The [n]th callsite. *)
Definition error_at (n : nat) (message : string) : MailEvent :=
  capture {| md_target := "app"; md_name := "event"; md_file := Some "main.rs"%string; md_line := Some (Z.of_nat n) |}
    [("message"%string, message)] [] 0.
Definition new_worker (conf : MailAdmins) : MailWorker := sy_worker (mail_start conf [] 0 0).
(** Errors of as many callsites, at the times. *)
Definition error_burst (conf : MailAdmins) (first : nat) (times : list Instant) (w : MailWorker) : MailWorker :=
  (fold_left (λ a now, (S a.1, mail_record conf (error_at a.1 "failed") now now true a.2)) times (first, w)).2.
Definition seconds (n : Z) : Instant := from_secs n.
Definition two_bursts : MailWorker :=
  error_burst admins 12 (repeat (seconds 60) 12) (error_burst admins 0 (repeat (seconds 59) 12) (new_worker admins)).

(** Three errors, two of one callsite, and the summary. *)
Definition after_three : MailWorker :=
  mail_record unlimited (error_at 1 "again") (seconds 3) (seconds 3) true
    (mail_record unlimited (error_at 2 "other") (seconds 2) (seconds 2) true
      (mail_record unlimited (error_at 1 "failed") (seconds 1) (seconds 1) true (new_worker unlimited))).
Definition key_of (n : nat) : string := report_key DedupeCallsite (error_at n "").
Definition after_summary : MailWorker :=
  mail_flush unlimited [(key_of 1, seconds 301, true)] after_three.

(** One error, taken at once. *)
Definition one_error : MailSystem :=
  take_dropped [] 0 (mail_record admins (error_at 1 "failed") (seconds 1) (seconds 1) true (new_worker admins)).
Lemma one_error_reached : mail_reaches admins [error_at 1 "failed"] (seconds 1) one_error.
Proof.
  apply (mail_steps admins [] 0 (mail_start admins [error_at 1 "failed"] 0 0) (Some (error_at 1 "failed"))).
  - apply mail_starts. vm_compute. discriminate.
  - apply (mail_event admins 0 (seconds 1) (seconds 1) (seconds 1) true (error_at 1 "failed") [] (mail_start admins [error_at 1 "failed"] 0 0));
      [reflexivity|reflexivity|vm_compute; repeat split; discriminate].
Qed.
End LoggingDemo.

Section LoggingWitnesses.
Import LoggingDemo.

(** Twelve a minute, by default: twenty-four messages in two seconds. *)
Example default_throttle_lets_bursts_through :
  sent_between (mw_sent two_bursts) (seconds 59) (seconds 61) = 24.
Proof. vm_compute. reflexivity. Qed.

(** Names that differ in case are distinct rules with one variable. *)
Example case_variants_share_a_variable :
  let rule name := {| lr_name := name; lr_sink := SinkStdout false; lr_default_filter := "info" |} in
  let conf := {| lc_env_prefix := None; lc_rules := [rule "Api"; rule "API"]%string |} in
  logging_conf_validate conf = Ok tt ∧ rule_env_var (resolved_env_prefix conf) (rule "Api"%string) = "RUST_LOG_API"%string ∧
  rule_env_var (resolved_env_prefix conf) (rule "API"%string) = "RUST_LOG_API"%string.
Proof. vm_compute. split_and!; reflexivity. Qed.

Lemma administrators_are_not_flooded_witness :
  length (mw_sent (sy_worker one_error)) = 1%nat ∧
  sent_between (mw_sent (sy_worker one_error)) 0 (0 + throttle_window (throttle_per_minute 12)) ≤ 2 * 12.
Proof.
  split; [vm_compute; reflexivity|].
  destruct (administrators_are_not_flooded admins [error_at 1 "failed"] (seconds 1) one_error) as (H & _).
  - reflexivity.
  - intros t Ht. apply list_elem_of_In in Ht. destruct Ht as [<-|[<-|[]]]; vm_compute; split; discriminate.
  - exact one_error_reached.
  - apply (H (throttle_per_minute 12) 0). apply list_elem_of_In. left. reflexivity.
Defined.

Lemma errors_are_reported_in_groups_witness :
  ∃ open closed refused, grouped admins [error_at 1 "failed"] (seconds 1) false (sy_worker one_error) open closed refused ∧
    size open = 1%nat.
Proof.
  destruct (errors_are_reported_in_groups admins [error_at 1 "failed"] (seconds 1) one_error one_error_reached)
    as (open & closed & refused & G & _).
  exists open, closed, refused. split; [exact G|].
  rewrite <- (map_size_fmap (report_of admins) open), <- (gd_reports _ _ _ _ _ _ _ _ G). vm_compute. reflexivity.
Defined.

(** The second error of a callsite is told of in its summary. *)
Example repeats_are_summarized :
  List.map (λ m, mail_subject m.2) (mw_sent after_summary) =
    ["[Vyuh] ERROR app"; "[Vyuh] ERROR app"; "[Vyuh] ERROR summary (1)"]%string ∧
  size (mw_reports after_summary) = 1%nat.
Proof. vm_compute. split; reflexivity. Qed.
End LoggingWitnesses.
