(* ===== verification/Validation.v ===== *)
(** * Validation reports ([validation.rs], [validators.rs])

    A report lists issues with the path of the value each is about; responses
    carry it as nested JSON. The checks of [validators.rs] that are not regular
    expressions or third-party parsers are here, over the integers where the
    source is generic. A [serde_json] object keeps the order of its members. *)
From Stdlib Require Import Ascii.
From S2P Require Import Prelude Externals Json Failure Models Metrics Registry ChannelTypes Credentials.
#[local] Open Scope Z_scope.

(** ** Issues and paths *)

Record ValidationError := { ve_code : string; ve_message : string; ve_params : list (string * string) }.
Definition validation_error_new (code message : string) : ValidationError :=
  {| ve_code := code; ve_message := message; ve_params := [] |}.
Definition validation_error_custom (message : string) : ValidationError := validation_error_new "custom" message.
Definition with_param (key value : string) (e : ValidationError) : ValidationError :=
  {| ve_code := ve_code e; ve_message := ve_message e; ve_params := ve_params e ++ [(key, value)] |}.

Inductive PathSeg := SegField (name : string) | SegIndex (index : nat) | SegKey (key : string).
#[export] Instance PathSeg_eq_dec : EqDecision PathSeg.
Proof. solve_decision. Defined.
Definition Path : Type := list PathSeg.
(** [at_field], [at_index] and [at_key] of a path append; a prefix goes in front. *)
Definition path_at (segment : PathSeg) (p : Path) : Path := p ++ [segment].
Definition path_prefixed (prefix : PathSeg) (p : Path) : Path := prefix :: p.
Definition segment_text (s : PathSeg) : string :=
  match s with SegField name => name | SegIndex index => pretty index | SegKey key => key end.
Definition path_to_string (p : Path) : string := String.concat "." (List.map segment_text p).

Record ValidationIssue := { vi_path : Path; vi_invalid : ValidationError }.
Definition ValidationReport : Type := list ValidationIssue.
Definition report_push (p : Path) (e : ValidationError) (r : ValidationReport) : ValidationReport :=
  r ++ [{| vi_path := p; vi_invalid := e |}].
Definition report_push_root (e : ValidationError) (r : ValidationReport) : ValidationReport := report_push [] e r.
Definition report_prefix (segment : PathSeg) (r : ValidationReport) : ValidationReport :=
  List.map (λ i, {| vi_path := path_prefixed segment (vi_path i); vi_invalid := vi_invalid i |}) r.
Definition report_extend (other r : ValidationReport) : ValidationReport := r ++ other.
Definition report_merge (other : ValidationReport) (prefix : option PathSeg) (r : ValidationReport) : ValidationReport :=
  r ++ match prefix with Some segment => report_prefix segment other | None => other end.
Definition has_error (field : string) (r : ValidationReport) : bool :=
  existsb (λ i, String.eqb (path_to_string (vi_path i)) field) r.

(** The flat view: issues of the root and of single fields. *)
Definition flat_key (p : Path) : option string :=
  match p with [] => Some "non_field_errors"%string | [SegField f] => Some f | _ => None end.
Definition to_field_map_flat (r : ValidationReport) : gmap string (list string) :=
  fold_left (λ m i, match flat_key (vi_path i) with
                    | Some key => <[key := default [] (m !! key) ++ [ve_message (vi_invalid i)]]> m
                    | None => m
                    end) r ∅.

(** ** Nested JSON *)

(** [map.entry(key).or_insert_with(..)], and what is done to the entry. *)
Fixpoint object_entry (key : string) (fresh : Json) (f : Json → Json) (members : list (string * Json)) : list (string * Json) :=
  match members with
  | [] => [(key, f fresh)]
  | (k, v) :: members => if String.eqb k key then (k, f v) :: members else (k, v) :: object_entry key fresh f members
  end.
Definition object_insert (key : string) (value : Json) : list (string * Json) → list (string * Json) :=
  object_entry key value (λ _, value).
Definition push_value (value : Json) (entry : Json) : Json :=
  match entry with JArray values => JArray (values ++ [value]) | other => other end.
Definition as_object (value : Json) : Json := match value with JObject _ => value | _ => JObject [] end.
Definition array_values (value : Json) : list Json := match value with JArray values => values | _ => [] end.
(** [while arr.len() <= idx { arr.push(Null) }]. *)
Definition pad_to (length : nat) (values : list Json) : list Json :=
  values ++ repeat JNull (length - List.length values).

Fixpoint insert_at (segments : Path) (message : Json) (cur : Json) : Json :=
  match segments with
  | [] => cur
  | (SegField key | SegKey key) :: rest =>
      match cur with
      | JObject members =>
          JObject match rest with
                  | [] => object_entry key (JArray []) (push_value message) members
                  | _ => object_entry key (JObject []) (λ entry, insert_at rest message (as_object entry)) members
                  end
      | other => other
      end
  | SegIndex index :: rest =>
      let values := pad_to (S index) (array_values cur) in
      JArray (alter (λ element, match rest with
                                | [] => push_value message match element with JNull => JArray [] | other => other end
                                | _ => insert_at rest message (as_object element)
                                end) index values)
  end.
Definition push_issue (message : Json) (p : Path) (root : Json) : Json :=
  match p with
  | [] =>
      match root with
      | JObject members => JObject (object_entry "non_field_errors" (JArray []) (push_value message) members)
      | other => other
      end
  | _ => insert_at p message root
  end.
Definition to_nested_with (render : ValidationError → Json) (r : ValidationReport) : Json :=
  fold_left (λ root i, push_issue (render (vi_invalid i)) (vi_path i) root) r (JObject []).
Definition error_to_json (e : ValidationError) : Json :=
  let params := fold_left (λ members p, object_insert p.1 (JString p.2) members) (ve_params e) [] in
  JObject [("code", JString (ve_code e)); ("message", JString (ve_message e)); ("params", JObject params)]%string.
Definition to_nested_errors : ValidationReport → Json := to_nested_with error_to_json.
Definition to_nested_messages : ValidationReport → Json := to_nested_with (λ e, JString (ve_message e)).

(** ** Validating values *)

Definition Validator (T : Type) : Type := T → result ValidationReport unit.
Definition validate_option {T} (validate : Validator T) : Validator (option T) :=
  λ value, match value with Some v => validate v | None => Ok tt end.
(** The issues of the elements, in order, each under its index. *)
Fixpoint vec_issues {T} (validate : Validator T) (index : nat) (values : list T) (report : ValidationReport) : ValidationReport :=
  match values with
  | [] => report
  | v :: values =>
      vec_issues validate (S index) values
        match validate v with Err r => report_extend (report_prefix (SegIndex index) r) report | Ok _ => report end
  end.
Definition validate_vec {T} (validate : Validator T) : Validator (list T) :=
  λ values, match vec_issues validate 0 values [] with [] => Ok tt | report => Err report end.

(** ** Validators *)

Section Validators.
Definition check (valid : bool) (e : ValidationError) : result ValidationError unit := if valid then Ok tt else Err e.
Definition err_param (code message key value : string) : ValidationError :=
  with_param key value (validation_error_new code message).

Definition present {T} (v : option T) : result ValidationError unit :=
  check (bool_decide (is_Some v)) (validation_error_new "required" "This field is required.").
Definition non_empty (s : string) : result ValidationError unit :=
  check (negb (is_blank s)) (validation_error_new "blank" "This field may not be blank.").
Definition min_len (n : Z) (s : string) : result ValidationError unit :=
  check (n <=? char_count s)
    (err_param "min_length" ("Ensure this field has at least " +:+ pretty n +:+ " characters.") "min" (pretty n)).
Definition max_len (n : Z) (s : string) : result ValidationError unit :=
  check (char_count s <=? n)
    (err_param "max_length" ("Ensure this field has at most " +:+ pretty n +:+ " characters.") "max" (pretty n)).
Definition exact_len (n : Z) (s : string) : result ValidationError unit :=
  check (char_count s =? n)
    (err_param "exact_length" ("Ensure this field has exactly " +:+ pretty n +:+ " characters.") "exact" (pretty n)).
Definition min_bytes (n : Z) (s : string) : result ValidationError unit :=
  check (n <=? str_len s)
    (err_param "min_bytes" ("Ensure this field has at least " +:+ pretty n +:+ " bytes.") "min" (pretty n)).
Definition max_bytes (n : Z) (s : string) : result ValidationError unit :=
  check (str_len s <=? n)
    (err_param "max_bytes" ("Ensure this field has at most " +:+ pretty n +:+ " bytes.") "max" (pretty n)).
Definition exact_bytes (n : Z) (s : string) : result ValidationError unit :=
  check (str_len s =? n)
    (err_param "exact_bytes" ("Ensure this field has exactly " +:+ pretty n +:+ " bytes.") "exact" (pretty n)).
Definition min_chars (n : Z) (s : string) : result ValidationError unit :=
  check (n <=? char_count s)
    (err_param "min_chars" ("Ensure this field has at least " +:+ pretty n +:+ " characters.") "min" (pretty n)).
Definition max_chars (n : Z) (s : string) : result ValidationError unit :=
  check (char_count s <=? n)
    (err_param "max_chars" ("Ensure this field has at most " +:+ pretty n +:+ " characters.") "max" (pretty n)).
Definition all_digits (s : string) : result ValidationError unit :=
  check (all_bytes (λ c, (48 <=? byte c)%nat && (byte c <=? 57)%nat) s)
    (validation_error_new "digits" "Only digits are allowed.").

Definition min_value (min v : Z) : result ValidationError unit :=
  check (min <=? v)
    (err_param "min_value" ("Ensure this value is greater than or equal to " +:+ pretty min +:+ ".") "min" (pretty min)).
Definition max_value (max v : Z) : result ValidationError unit :=
  check (v <=? max)
    (err_param "max_value" ("Ensure this value is less than or equal to " +:+ pretty max +:+ ".") "max" (pretty max)).
Definition range (min max v : Z) : result ValidationError unit :=
  check (negb ((v <? min) || (max <? v)))
    (with_param "max" (pretty max) (err_param "value_range"
       ("Ensure this value is between " +:+ pretty min +:+ " and " +:+ pretty max +:+ ".") "min" (pretty min))).
Definition min_exclusive (min v : Z) : result ValidationError unit :=
  check (min <? v)
    (err_param "min_value" ("Ensure this value is greater than " +:+ pretty min +:+ ".") "min" (pretty min)).
Definition max_exclusive (max v : Z) : result ValidationError unit :=
  check (v <? max)
    (err_param "max_value" ("Ensure this value is less than " +:+ pretty max +:+ ".") "max" (pretty max)).
(** Rust's [%] truncates; a multiple of zero is refused before it divides. *)
Definition multiple_of (multiple v : Z) : result ValidationError unit :=
  check (negb ((multiple =? 0) || negb (Z.rem v multiple =? 0)))
    (err_param "multiple_of" ("Ensure this value is a multiple of " +:+ pretty multiple +:+ ".") "multiple_of" (pretty multiple)).

Context {T : Type} `{!EqDecision T}.
Definition non_empty_vec (v : list T) : result ValidationError unit :=
  check (negb (bool_decide (v = []))) (validation_error_new "empty" "This list must not be empty.").
Definition min_items (n : Z) (v : list T) : result ValidationError unit :=
  check (n <=? zlen v)
    (err_param "min_items" ("Ensure this list has at least " +:+ pretty n +:+ " items.") "min_items" (pretty n)).
Definition max_items (n : Z) (v : list T) : result ValidationError unit :=
  check (zlen v <=? n)
    (err_param "max_items" ("Ensure this list has at most " +:+ pretty n +:+ " items.") "max_items" (pretty n)).
(** [v.iter().all(|item| seen.insert(item))]. *)
Fixpoint all_inserted (seen v : list T) : bool :=
  match v with [] => true | item :: v => negb (bool_decide (item ∈ seen)) && all_inserted (item :: seen) v end.
Definition unique_items (v : list T) : result ValidationError unit :=
  check (all_inserted [] v) (validation_error_new "unique_items" "This list must contain unique items.").
Definition must_be_true (v : bool) : result ValidationError unit :=
  check v (validation_error_new "required" "This field must be true.").
Definition one_of (allowed : list T) (v : T) : result ValidationError unit :=
  check (bool_decide (v ∈ allowed))
    (err_param "invalid_choice" "Selected value is not a valid choice." "choices" (pretty (zlen allowed))).
End Validators.

(** ** Validation schemas

    The constraints of [#[validate(...)]] in a JSON schema. What a type adds to
    its own schema is generated by the derive macro, so it is a function here;
    [percent_decode] is of the [percent_encoding] crate. *)

(** A schema and the definitions it refers to, changed together. *)
Definition SchemaUpdate : Type := Json → list (string * Json) → Json * list (string * Json).

Definition object_lookup (key : string) (members : list (string * Json)) : option Json :=
  snd <$> List.find (λ m, String.eqb m.1 key) members.
(** [Map::remove] moves the last member to the place of the removed one. *)
Fixpoint object_replace (key : string) (by_ : string * Json) (members : list (string * Json)) : list (string * Json) :=
  match members with
  | [] => []
  | m :: members => if String.eqb m.1 key then by_ :: members else m :: object_replace key by_ members
  end.
Definition object_remove (key : string) (members : list (string * Json)) : list (string * Json) :=
  match last members, object_lookup key members with
  | Some m, Some _ =>
      if String.eqb m.1 key then removelast members else object_replace key m (removelast members)
  | _, _ => members
  end.
Definition get_member (key : string) (value : Json) : option Json :=
  match value with JObject members => object_lookup key members | _ => None end.
Definition object_members (value : Json) : list (string * Json) :=
  match value with JObject members => members | _ => [] end.

Section Schemas.
Context (percent_decode : string → option string).

(** [replace] of a tilde and a digit. *)
Fixpoint replace_escape (digit by_ : Ascii.ascii) (s : string) : string :=
  match s with
  | String c ((String d rest) as s') =>
      if Ascii.eqb c "~"%char && Ascii.eqb d digit then String by_ (replace_escape digit by_ rest)
      else String c (replace_escape digit by_ s')
  | s => s
  end.
Definition strip_prefix (prefix s : string) : option string :=
  if String.prefix prefix s
  then Some (String.substring (String.length prefix) (String.length s - String.length prefix) s) else None.
Definition ref_name (reference : string) : option string :=
  raw ← match strip_prefix "#/$defs/" reference with
        | Some raw => Some raw
        | None => strip_prefix "#/definitions/" reference
        end;
  decoded ← percent_decode raw;
  Some (replace_escape "0"%char "~"%char (replace_escape "1"%char "/"%char decoded)).

Definition apply_to_schema_target (f : SchemaUpdate) : SchemaUpdate := λ schema definitions,
  match get_member "$ref" schema with
  | Some (JString reference) =>
      match ref_name reference with
      | Some name =>
          match object_lookup name definitions with
          | Some definition =>
              let '(definition, definitions) := f definition (object_remove name definitions) in
              (schema, object_insert name definition definitions)
          | None => f schema definitions
          end
      | None => f schema definitions
      end
  | _ => f schema definitions
  end.

(** The members of the schema of a field, made when missing. *)
Definition update_field_schema (field : string) (f : list (string * Json) → list (string * Json)) (target : Json) : Json :=
  JObject (object_entry "properties" (JObject [])
    (λ properties, JObject (object_entry field (JObject []) (λ schema, JObject (f (object_members schema))) (object_members properties)))
    (object_members target)).
Definition apply_field_constraints (field : string) (constraints : list (string * Json)) : SchemaUpdate :=
  apply_to_schema_target (λ target definitions,
    (update_field_schema field (λ members, fold_left (λ m c, object_insert c.1 c.2 m) constraints members) target, definitions)).
Definition apply_field_custom_validator (field name : string) : SchemaUpdate :=
  apply_to_schema_target (λ target definitions,
    (update_field_schema field (object_entry "x-vyuh-validators" (JArray []) (push_value (JString name))) target, definitions)).

(** The schema of a field is changed where it is, with the definitions threaded. *)
Fixpoint update_member (key : string) (f : SchemaUpdate) (members definitions : list (string * Json)) :
    list (string * Json) * list (string * Json) :=
  match members with
  | [] => ([], definitions)
  | (k, v) :: members =>
      if String.eqb k key
      then let '(v, definitions) := f v definitions in ((k, v) :: members, definitions)
      else let '(members, definitions) := update_member key f members definitions in ((k, v) :: members, definitions)
  end.
Definition apply_field_validation_schema (T : SchemaUpdate) (field : string) : SchemaUpdate :=
  apply_to_schema_target (λ target definitions,
    let '(members, definitions) :=
      update_member "properties" (λ properties definitions,
        match properties with
        | JObject members =>
            let '(members, definitions) := update_member field T members definitions in (JObject members, definitions)
        | other => (other, definitions)
        end) (object_members target) definitions in
    (JObject members, definitions)).

Fixpoint apply_each (T : SchemaUpdate) (values : list Json) (definitions : list (string * Json)) :
    list Json * list (string * Json) :=
  match values with
  | [] => ([], definitions)
  | v :: values =>
      let '(v, definitions) := T v definitions in
      let '(values, definitions) := apply_each T values definitions in (v :: values, definitions)
  end.
Definition apply_variants (T : SchemaUpdate) : SchemaUpdate := λ value definitions,
  match value with
  | JArray values => let '(values, definitions) := apply_each T values definitions in (JArray values, definitions)
  | other => (other, definitions)
  end.
Definition in_object (key : string) (f : SchemaUpdate) : SchemaUpdate := λ schema definitions,
  match schema with
  | JObject members => let '(members, definitions) := update_member key f members definitions in (JObject members, definitions)
  | other => (other, definitions)
  end.
Definition apply_nested_validation_schema (T : SchemaUpdate) : SchemaUpdate := λ schema definitions,
  let '(schema, definitions) := in_object "items" T schema definitions in
  let '(schema, definitions) :=
    fold_left (λ state key, in_object key (apply_variants T) state.1 state.2) ["anyOf"; "oneOf"; "allOf"]%string (schema, definitions) in
  if bool_decide (is_Some (get_member "$ref" schema)) then T schema definitions else (schema, definitions).
End Schemas.

(** ** Error reports ([errors.rs])

    What a failed request is answered. A source that is a foreign error is its
    text; the debug payload, which only debug builds attach, is left out. *)

Inductive ErrorKind :=
  | KNotFound | KBadRequest | KUnauthorized | KForbidden | KInvalid | KIntegrity | KConflict | KRateLimited | KUnavailable | KOther.
Inductive ErrorSourceKind :=
  | KindFramework | KindParse | KindValidation | KindAuth | KindDatabase | KindTemplate | KindApplication | KindOther.
Inductive ErrorSource :=
  | SourceValidation (report : ValidationReport)
  | SourceDatabase (text : string)
  | SourceAuth (error : AuthError)
  | SourceSqlx (text : string)
  | SourceOther (text : string).
Record VyuhError := { er_kind : ErrorKind; er_source : option ErrorSource; er_context : list string }.
Record ErrorReport := {
  rep_status : Z; rep_source : ErrorSourceKind; rep_code : string; rep_detail : string; rep_errors : option Json }.
Record ErrorView := {
  vw_status : Z; vw_source : ErrorSourceKind; vw_kind : ErrorKind; vw_code : string; vw_message : string;
  vw_errors : option Json; vw_validation : option ValidationReport }.

Definition default_message (k : ErrorKind) : string :=
  match k with
  | KNotFound => "Resource not found" | KBadRequest => "Bad request" | KUnauthorized => "Authentication required"
  | KForbidden => "Permission denied" | KInvalid => "Validation failed" | KIntegrity => "Data integrity violation"
  | KConflict => "Resource conflict" | KRateLimited => "Too many requests" | KUnavailable => "Service unavailable"
  | KOther => "Internal server error"
  end.
Definition kind_status_code (k : ErrorKind) : Z :=
  match k with
  | KNotFound => 404 | KBadRequest => 400 | KUnauthorized => 401 | KForbidden => 403 | KInvalid => 422
  | KIntegrity => 409 | KConflict => 409 | KRateLimited => 429 | KUnavailable => 503 | KOther => 500
  end.
Definition kind_error_code (k : ErrorKind) : string :=
  match k with
  | KNotFound => "NOT_FOUND" | KBadRequest => "BAD_REQUEST" | KUnauthorized => "UNAUTHORIZED" | KForbidden => "FORBIDDEN"
  | KInvalid => "VALIDATION_ERROR" | KIntegrity => "INTEGRITY_ERROR" | KConflict => "CONFLICT"
  | KRateLimited => "RATE_LIMITED" | KUnavailable => "UNAVAILABLE" | KOther => "INTERNAL_ERROR"
  end.
Definition kind_from_status (status : Z) : ErrorKind :=
  if status =? 400 then KBadRequest else if status =? 401 then KUnauthorized else if status =? 403 then KForbidden
  else if status =? 404 then KNotFound else if status =? 409 then KConflict else if status =? 422 then KInvalid
  else if status =? 429 then KRateLimited else if (status =? 503) || (status =? 504) then KUnavailable
  else if (400 <=? status) && (status <? 500) then KBadRequest else KOther.

Definition error_report_new (status : Z) (source : ErrorSourceKind) (code detail : string) : ErrorReport :=
  {| rep_status := status; rep_source := source; rep_code := code; rep_detail := detail; rep_errors := None |}.
Definition report_bad_request : string → ErrorReport := error_report_new 400 KindParse "bad_request".
Definition report_not_found : ErrorReport := error_report_new 404 KindFramework "not_found" "Resource not found.".
Definition report_method_not_allowed : ErrorReport := error_report_new 405 KindFramework "method_not_allowed" "Method not allowed.".
Definition report_internal_error : ErrorReport := error_report_new 500 KindFramework "internal_error" "Internal server error.".
Definition report_validation (r : ValidationReport) : ErrorReport :=
  {| rep_status := 422; rep_source := KindValidation; rep_code := "validation_error"; rep_detail := "Validation failed.";
     rep_errors := Some (to_nested_errors r) |}.
Definition report_with_errors (errors : Json) (r : ErrorReport) : ErrorReport :=
  {| rep_status := rep_status r; rep_source := rep_source r; rep_code := rep_code r; rep_detail := rep_detail r;
     rep_errors := Some errors |}.

Definition error_new (k : ErrorKind) : VyuhError := {| er_kind := k; er_source := None; er_context := [] |}.
Definition error_with_context (c : string) (e : VyuhError) : VyuhError :=
  {| er_kind := er_kind e; er_source := er_source e; er_context := er_context e ++ [c] |}.
Definition error_wrap (k : ErrorKind) (s : ErrorSource) : VyuhError :=
  {| er_kind := k; er_source := Some s; er_context := [] |}.
Definition error_of_report (r : ValidationReport) : VyuhError := error_wrap KInvalid (SourceValidation r).
Definition error_of_invalid (e : ValidationError) : VyuhError := error_of_report (report_push_root e []).
Definition error_of_auth (e : AuthError) : VyuhError :=
  error_wrap (match e with AuthForbidden => KForbidden | _ => KUnauthorized end) (SourceAuth e).
Definition display_compact (e : VyuhError) : string := String.concat ": " (default_message (er_kind e) :: er_context e).
Definition error_display (e : VyuhError) : string :=
  default_message (er_kind e)
    +:+ match er_context e with [] => "" | context => ": " +:+ String.concat " -> " context end.

Definition view_from_report (r : ErrorReport) : ErrorView :=
  {| vw_status := rep_status r; vw_source := rep_source r; vw_kind := kind_from_status (rep_status r); vw_code := rep_code r;
     vw_message := rep_detail r; vw_errors := rep_errors r; vw_validation := None |}.
Definition view_from_validation (r : ValidationReport) : ErrorView :=
  {| vw_status := 422; vw_source := KindValidation; vw_kind := KInvalid; vw_code := "validation_error";
     vw_message := "Validation failed."; vw_errors := Some (to_nested_errors r); vw_validation := Some r |}.
Definition view_from_error (e : VyuhError) : ErrorView :=
  let view source :=
    {| vw_status := kind_status_code (er_kind e); vw_source := source; vw_kind := er_kind e;
       vw_code := kind_error_code (er_kind e); vw_message := display_compact e; vw_errors := None; vw_validation := None |} in
  match er_source e with
  | Some (SourceValidation report) => view_from_validation report
  | Some (SourceDatabase _) | Some (SourceSqlx _) => view KindDatabase
  | Some (SourceAuth _) => view KindAuth
  | Some (SourceOther _) | None => view KindApplication
  end.
Definition view_to_report (v : ErrorView) : ErrorReport :=
  match vw_validation v with
  | Some report => report_validation report
  | None =>
      let report := error_report_new (vw_status v) (vw_source v) (to_ascii_lowercase (vw_code v)) (vw_message v) in
      match vw_errors v with Some errors => report_with_errors errors report | None => report end
  end.
Definition report_of_error (e : VyuhError) : ErrorReport := view_to_report (view_from_error e).

Definition render_command_validation (command : string) (r : ValidationReport) : string :=
  let item i :=
    let field := match vi_path i with [] => "non_field_errors" | p => path_to_string p end in
    "  --" +:+ field +:+ newline +:+ "    " +:+ ve_message (vi_invalid i) +:+ newline +:+ newline in
  ("Validation failed for command '" +:+ command +:+ "':" +:+ newline +:+ newline)
    +:+ String.concat "" (List.map item r) +:+ "Use '" +:+ command +:+ " --help' for usage.".
Definition default_command_error (command : string) (v : ErrorView) : string :=
  match vw_validation v with
  | Some report => render_command_validation command report
  | None =>
      match vw_source v with
      | KindValidation =>
          "Validation failed for command '" +:+ command +:+ "'." +:+ newline +:+ newline
            +:+ "Use '" +:+ command +:+ " --help' for usage."
      | _ => vw_message v
      end
  end.

(** *** What a request is answered *)

Inductive HttpErrorRenderMode := RenderJson | RenderHtml | RenderAuto.
Record ErrorRequestContext := {
  ctx_method : string; ctx_path : string; ctx_content_type : option string; ctx_accept : option string }.
Inductive ErrorResponse (R : Type) :=
  | ReportBody (r : ErrorReport)
  | HtmlBody (status : Z) (body : string)
  | HandlerBody (response : R).
Arguments ReportBody {R}. Arguments HtmlBody {R}. Arguments HandlerBody {R}.

Definition ends_with (suffix s : string) : bool :=
  (String.length suffix <=? String.length s)%nat
    && String.eqb (String.substring (String.length s - String.length suffix) (String.length suffix) s) suffix.
Definition media_type_is_json (media : string) : bool :=
  let media := to_ascii_lowercase media in
  String.eqb media "application/json" || String.eqb media "application/*+json" || ends_with "+json" media.
Definition media_header_has_json (value : string) : bool :=
  existsb (λ part, media_type_is_json (trim (default "" (head (split_all ";"%char part))))) (split_all ","%char value).
Definition http_auto_html (c : ErrorRequestContext) : bool :=
  negb (match ctx_content_type c with Some v => media_header_has_json v | None => false end
        || match ctx_accept c with Some v => media_header_has_json v | None => false end).
Definition http_target_html (mode : HttpErrorRenderMode) (c : ErrorRequestContext) : bool :=
  match mode with RenderJson => false | RenderHtml => true | RenderAuto => http_auto_html c end.
Definition html_escape (value : string) : string :=
  replace_char "'"%char "&#39;" (replace_char double_quote "&quot;" (replace_char ">"%char "&gt;" (replace_char "<"%char "&lt;"
    (replace_char "&"%char "&amp;" value)))).
Definition default_html_error {R} (c : ErrorRequestContext) (v : ErrorView) : ErrorResponse R :=
  let status := pretty (vw_status v) in
  HtmlBody (vw_status v)
    (jtext "<!doctype html><html lang='en'><head><meta charset='utf-8'><title>" +:+ status +:+ " " +:+ html_escape (vw_code v)
     +:+ "</title></head><body><main><h1>" +:+ status +:+ "</h1><p>" +:+ html_escape (vw_message v) +:+ "</p><p><code>"
     +:+ html_escape (ctx_method c) +:+ " " +:+ html_escape (ctx_path c) +:+ "</code></p></main></body></html>").

Record ErrorConf (R : Type) := {
  ec_handler : option (ErrorRequestContext → ErrorReport → R);
  ec_json_handler : option (ErrorRequestContext → ErrorView → R);
  ec_html_handler : option (ErrorRequestContext → ErrorView → R);
  ec_http_mode : HttpErrorRenderMode }.
Arguments ec_handler {R}. Arguments ec_json_handler {R}. Arguments ec_html_handler {R}. Arguments ec_http_mode {R}.
Definition error_render {R} (conf : ErrorConf R) (c : ErrorRequestContext) (r : ErrorReport) : ErrorResponse R :=
  match ec_handler conf with
  | Some handler => HandlerBody (handler c r)
  | None =>
      let view := view_from_report r in
      if http_target_html (ec_http_mode conf) c
      then match ec_html_handler conf with Some handler => HandlerBody (handler c view) | None => default_html_error c view end
      else match ec_json_handler conf with Some handler => HandlerBody (handler c view) | None => ReportBody r end
  end.

(** [Valid]: what was extracted is validated before the handler is given it. *)
Inductive ValidRejection (E : Type) := RejectInner (e : E) | RejectInvalid (r : ErrorReport).
Arguments RejectInner {E}. Arguments RejectInvalid {E}.
Definition valid_from_request {T E} (validate : Validator T) (extracted : result E T) : result (ValidRejection E) T :=
  match extracted with
  | Err e => Err (RejectInner e)
  | Ok value => match validate value with Ok _ => Ok value | Err r => Err (RejectInvalid (report_validation r)) end
  end.

(** ** What the nested form keeps *)

Lemma object_lookup_entry key fresh f members key' :
  object_lookup key' (object_entry key fresh f members) =
    if String.eqb key key' then Some (f (default fresh (object_lookup key members))) else object_lookup key' members.
Proof.
  unfold object_lookup. induction members as [|[k v] members IH]; cbn.
  - by destruct (String.eqb key key').
  - destruct (String.eqb_spec k key) as [->|Hk]; cbn; [by destruct (String.eqb key key')|].
    destruct (String.eqb_spec k key') as [->|Hk']; cbn; [|exact IH].
    by destruct (String.eqb_spec key key') as [->|].
Qed.

(** ** Lists, schemas and statuses *)

(** The issues of a list are those of its items in order, each under its index. *)
Lemma vec_issues_concat {T} (validate : Validator T) index values report :
  vec_issues validate index values report =
    report ++ List.concat (imap (λ i v, match validate v with
                                         | Err r => report_prefix (SegIndex (index + i)) r
                                         | Ok _ => []
                                         end) values).
Proof.
  revert index report. induction values as [|v values IH]; intros index report; cbn; [by rewrite app_nil_r|].
  rewrite IH, Nat.add_0_r. unfold report_extend.
  rewrite (imap_ext _ ((λ i v, match validate v with Err r => report_prefix (SegIndex (index + i)) r | Ok _ => [] end) ∘ S))
    by (intros; cbn; by rewrite Nat.add_succ_r).
  by destruct (validate v); rewrite <- ?app_assoc.
Qed.

(** Where the constraints of a schema are: in the definition it refers to, or in itself. *)
Definition schema_target (percent_decode : string → option string) (schema : Json) (definitions : list (string * Json)) : Json :=
  match get_member "$ref" schema with
  | Some (JString reference) => default schema (name ← ref_name percent_decode reference; object_lookup name definitions)
  | _ => schema
  end.
Definition field_schema (field : string) (target : Json) : option Json :=
  properties ← get_member "properties" target; get_member field properties.

Lemma object_lookup_fold key constraints members :
  object_lookup key (fold_left (λ m c, object_insert c.1 c.2 m) constraints members) =
    match object_lookup key (rev constraints) with Some v => Some v | None => object_lookup key members end.
Proof.
  induction constraints as [|[k v] constraints IH] using rev_ind; [done|].
  rewrite fold_left_app, rev_app_distr. cbn [fold_left rev app fst snd]. unfold object_insert. rewrite object_lookup_entry.
  change (object_lookup key ((k, v) :: rev constraints)) with
    (snd <$> (if String.eqb k key then Some (k, v) else List.find (λ m, String.eqb m.1 key) (rev constraints))).
  destruct (String.eqb k key); [done|]. exact IH.
Qed.

Lemma update_field_schema_at field f target :
  field_schema field (update_field_schema field f target) = Some (JObject (f (object_members (default (JObject []) (field_schema field target))))).
Proof.
  unfold field_schema, update_field_schema. cbn. rewrite object_lookup_entry. cbn. rewrite object_lookup_entry, String.eqb_refl.
  do 3 f_equal. destruct target; try done. fold (object_lookup "properties" members). cbn [object_members get_member].
  destruct (object_lookup "properties" members) as [properties|]; [|done]. by destruct properties.
Qed.

(** The constraints of a field are in its schema after they were applied, the
    last of a keyword, together with what the schema said otherwise. *)
Theorem constraints_reach_their_field decode field constraints schema definitions schema' definitions' key :
  apply_field_constraints decode field constraints schema definitions = (schema', definitions') →
  (field_schema field (schema_target decode schema' definitions') ≫= get_member key) =
    match object_lookup key (rev constraints) with
    | Some v => Some v
    | None => field_schema field (schema_target decode schema definitions) ≫= get_member key
    end.
Proof.
  assert (Hat : ∀ target, field_schema field (update_field_schema field (λ members, fold_left (λ m c, object_insert c.1 c.2 m) constraints members) target)
      ≫= get_member key = match object_lookup key (rev constraints) with
                          | Some v => Some v | None => field_schema field target ≫= get_member key end).
  { intros target. rewrite update_field_schema_at. cbn. rewrite object_lookup_fold.
    destruct (object_lookup key (rev constraints)); [done|]. destruct (field_schema field target) as [v|]; cbn; [by destruct v|done]. }
  assert (Href : ∀ f, get_member "$ref" (update_field_schema field f schema) = get_member "$ref" schema).
  { intros f. unfold update_field_schema. cbn. rewrite object_lookup_entry. cbn. by destruct schema. }
  unfold apply_field_constraints, apply_to_schema_target, schema_target.
  destruct (get_member "$ref" schema) as [v|] eqn:Hr; [|intros [= <- <-]; rewrite Href; apply Hat].
  destruct v as [| | |reference| |]; try (intros [= <- <-]; rewrite Href; apply Hat).
  destruct (ref_name decode reference) as [name|] eqn:Hn; [|intros [= <- <-]; rewrite Href, Hn; apply Hat].
  destruct (object_lookup name definitions) as [definition|] eqn:Hd; cbn.
  - intros [= <- <-]. rewrite Hr, Hn. cbn. unfold object_insert. rewrite object_lookup_entry, String.eqb_refl, Hd. apply Hat.
  - intros [= <- <-]. rewrite Href, Hn. cbn. rewrite Hd. apply Hat.
Qed.

(** An authentication error that became an error of the application answers its
    own status only if that is 401 or it is [Forbidden]. *)
Theorem auth_errors_lose_their_status e :
  rep_status (report_of_error (error_of_auth e)) = auth_status e ↔ e = AuthForbidden ∨ auth_status e = 401.
Proof. destruct e; cbn; split; intros H; try done; try (by left); try (by right); try (by destruct H). Qed.

(** The member names of a path, for one without an index; the root is a name of its own. *)
Definition segment_key (s : PathSeg) : option string :=
  match s with SegField key | SegKey key => Some key | SegIndex _ => None end.
Definition path_keys (p : Path) : option (list string) :=
  match p with [] => Some ["non_field_errors"%string] | _ => mapM segment_key p end.

(** The messages that are found at names. *)
Fixpoint messages_at (names : list string) (value : Json) : list Json :=
  match names with
  | [] => array_values value
  | key :: names =>
      match value with
      | JObject members => match object_lookup key members with Some v => messages_at names v | None => [] end
      | _ => []
      end
  end.

(** Neither of two lists of names leads through the other. *)
Definition compatible (a b : list string) : Prop := ∀ c, c ≠ [] → b ≠ a ++ c ∧ a ≠ b ++ c.

(** What can be read and written at names: objects on the way, and an array. *)
Fixpoint fits (names : list string) (value : Json) : Prop :=
  match names with
  | [] => ∃ values, value = JArray values
  | key :: names => ∃ members, value = JObject members ∧ ∀ v, object_lookup key members = Some v → fits names v
  end.

Lemma fits_empty names : names ≠ [] → fits names (JObject []).
Proof. destruct names as [|key names]; [done|]. intros _. by exists []. Qed.
Lemma fits_object names value : names ≠ [] → fits names value → as_object value = value.
Proof. destruct names; [done|]. by intros _ (members & -> & _). Qed.

Lemma compatible_tail key a b : compatible (key :: a) (key :: b) → compatible a b.
Proof. intros H c Hc. destruct (H c Hc). split; intros He; naive_solver. Qed.
Lemma compatible_nil key a : compatible [] (key :: a) → False.
Proof. intros H. destruct (H (key :: a) ltac:(done)) as [Hn _]. by apply Hn. Qed.
Lemma compatible_sym a b : compatible a b → compatible b a.
Proof. intros H c Hc. destruct (H c Hc). done. Qed.

(** [insert_at] along names. *)
Fixpoint insert_keys (names : list string) (message : Json) (cur : Json) : Json :=
  match names with
  | [] => cur
  | key :: rest =>
      match cur with
      | JObject members =>
          JObject match rest with
                  | [] => object_entry key (JArray []) (push_value message) members
                  | _ => object_entry key (JObject []) (λ entry, insert_keys rest message (as_object entry)) members
                  end
      | other => other
      end
  end.

Lemma object_entry_ext key fresh f g members : (∀ v, f v = g v) → object_entry key fresh f members = object_entry key fresh g members.
Proof. intros H. induction members as [|[k v] members IH]; cbn; [by rewrite H|]. rewrite H. by destruct (String.eqb k key); [|rewrite IH]. Qed.

Lemma insert_at_keys p names message cur : mapM segment_key p = Some names → insert_at p message cur = insert_keys names message cur.
Proof.
  revert names cur. induction p as [|s p IH]; intros names cur Hp; [by injection Hp as <-|].
  apply mapM_Some_1, Forall2_cons_inv_l in Hp as (key & names' & Hs & Hp & ->). apply mapM_Some_2 in Hp.
  assert (Hext : ∀ v, insert_at p message (as_object v) = insert_keys names' message (as_object v)) by (intros v; by apply IH).
  pose proof (length_mapM _ _ _ Hp) as Hlen.
  destruct s as [name|index|k]; try discriminate Hs; injection Hs as <-; cbn; destruct cur; try done;
    do 2 f_equal; destruct p, names'; try done; by apply object_entry_ext.
Qed.

Lemma push_issue_keys p names message root : path_keys p = Some names → push_issue message p root = insert_keys names message root.
Proof. destruct p as [|s p]; [by intros [= <-]|]. apply insert_at_keys. Qed.

Lemma path_keys_nonempty p names : path_keys p = Some names → names ≠ [].
Proof.
  destruct p as [|s p]; [by intros [= <-]|]. intros Hp Hn. subst names. by apply length_mapM in Hp.
Qed.

Section Insert.
Context (message : Json).

(** The member an insertion goes through fits what is below it. *)
Lemma default_fits names (o : option Json) :
  names ≠ [] → (∀ v, o = Some v → fits names v) → fits names (default (JObject []) o).
Proof. intros Hn H. destruct o as [v|]; [by apply H|by apply fits_empty]. Qed.

Lemma insert_keys_fits names names' value :
  names ≠ [] → names' ≠ [] → compatible names names' → fits names value → fits names' value →
  fits names' (insert_keys names message value).
Proof.
  revert names' value. induction names as [|key names IH]; intros [|key' names'] value Hn Hn' Hc Hf Hf'; try done. cbn in Hf.
  destruct Hf as (members & -> & Hf). destruct Hf' as (members' & [= <-] & Hf'). cbn. eexists. split; [done|]. intros v Hv.
  destruct names as [|k names]; rewrite object_lookup_entry in Hv; destruct (String.eqb_spec key key') as [<-|Hk]; try (by apply Hf').
  - apply compatible_tail in Hc. destruct names' as [|? ?]; [|by apply compatible_nil in Hc]. injection Hv as <-. cbn.
    destruct (object_lookup key members) as [v|]; cbn; [|by eexists]. destruct (Hf v eq_refl) as [values ->]. by eexists.
  - apply compatible_tail in Hc. destruct names' as [|k' names']; [by apply compatible_sym, compatible_nil in Hc|]. injection Hv as <-.
    pose proof (default_fits (k :: names) _ ltac:(done) Hf) as Hd. pose proof (default_fits (k' :: names') _ ltac:(done) Hf') as Hd'.
    rewrite (fits_object (k :: names)) by done. by apply IH.
Qed.

Lemma insert_keys_messages names names' value :
  names ≠ [] → names' ≠ [] → compatible names names' → fits names value → fits names' value →
  messages_at names' (insert_keys names message value) =
    messages_at names' value ++ (if bool_decide (names = names') then [message] else []).
Proof.
  revert names' value. induction names as [|key names IH]; intros [|key' names'] value Hn Hn' Hc Hf Hf'; try done. cbn in Hf.
  destruct Hf as (members & -> & Hf). destruct Hf' as (members' & [= <-] & Hf'). cbn [insert_keys messages_at].
  destruct (String.eqb_spec key key') as [<-|Hk].
  2:{ rewrite bool_decide_false by naive_solver. rewrite app_nil_r.
      by destruct names; rewrite object_lookup_entry, (proj2 (String.eqb_neq _ _) Hk). }
  apply compatible_tail in Hc. destruct names as [|k names]; rewrite object_lookup_entry, String.eqb_refl.
  - destruct names' as [|? ?]; [|by apply compatible_nil in Hc]. rewrite bool_decide_true by done. cbn.
    destruct (object_lookup key members) as [v|]; cbn; [|done]. by destruct (Hf v eq_refl) as [values ->].
  - destruct names' as [|k' names']; [by apply compatible_sym, compatible_nil in Hc|].
    pose proof (default_fits (k :: names) _ ltac:(done) Hf) as Hd. pose proof (default_fits (k' :: names') _ ltac:(done) Hf') as Hd'.
    rewrite (fits_object (k :: names)) by done. rewrite IH by done.
    f_equal; [|by rewrite !(bool_decide_ext (key :: k :: names = key :: k' :: names') (k :: names = k' :: names')) by naive_solver].
    by destruct (object_lookup key members).
Qed.
End Insert.

(** The rendered errors of the issues at names, in order. *)
Definition issues_at (render : ValidationError → Json) (names : list string) (r : ValidationReport) : list Json :=
  List.map (λ i, render (vi_invalid i)) (List.filter (λ i, bool_decide (path_keys (vi_path i) = Some names)) r).

Lemma nested_spec render (good : list string → Prop) r :
  (∀ a b, good a → good b → compatible a b) → (∀ i, i ∈ r → ∃ names, path_keys (vi_path i) = Some names ∧ good names) →
  ∀ names, names ≠ [] → good names →
    fits names (to_nested_with render r) ∧ messages_at names (to_nested_with render r) = issues_at render names r.
Proof.
  intros Hg. induction r as [|i r IH] using rev_ind; intros Hr names Hn Hgood.
  - split; [by apply fits_empty|]. unfold to_nested_with. cbn. by destruct names.
  - assert (Hr' : ∀ j, j ∈ r → ∃ names, path_keys (vi_path j) = Some names ∧ good names) by (intros j Hj; apply Hr; set_solver).
    destruct (Hr i ltac:(set_solver)) as (names_i & Hi & Hgi). pose proof (path_keys_nonempty _ _ Hi) as Hni.
    destruct (IH Hr' names Hn Hgood) as [Hf Hm]. destruct (IH Hr' names_i Hni Hgi) as [Hfi _].
    unfold to_nested_with in *. rewrite fold_left_app. cbn [fold_left]. rewrite (push_issue_keys _ _ _ _ Hi).
    split; [by apply insert_keys_fits; auto|]. rewrite insert_keys_messages by auto. rewrite Hm.
    unfold issues_at. rewrite List.filter_app, map_app. f_equal. cbn. rewrite Hi.
    by rewrite (bool_decide_ext (names_i = names) (Some names_i = Some names)) by naive_solver; case_bool_decide.
Qed.

(** C32: for a report whose paths have no index and of which none leads through
    another, the nested form has at each path exactly the errors of the issues
    with that path, in the order they were reported. *)
Theorem nested_reports_are_complete render r names :
  (∀ i, i ∈ r → is_Some (path_keys (vi_path i))) →
  (∀ i j a b, i ∈ r → j ∈ r → path_keys (vi_path i) = Some a → path_keys (vi_path j) = Some b → compatible a b) →
  (∃ i, i ∈ r ∧ path_keys (vi_path i) = Some names) →
  messages_at names (to_nested_with render r) = issues_at render names r.
Proof.
  intros Hs Hc (i & Hi & Hn).
  apply (nested_spec render (λ a, ∃ j, j ∈ r ∧ path_keys (vi_path j) = Some a)).
  - intros a b (j & Hj & Ha) (k & Hk & Hb). by apply (Hc j k a b).
  - intros j Hj. destruct (Hs j Hj) as [a Ha]. exists a. split; [done|]. by exists j.
  - by eapply path_keys_nonempty.
  - by exists i.
Qed.

(** An issue of an item starts its list over: nothing that was reported of the
    other items, or of the list, is kept. *)
Theorem item_issues_erase_the_list key index rest message members :
  ∀ values, object_lookup key members = Some (JArray values) →
  match insert_at (SegField key :: SegIndex index :: rest) message (JObject members) with
  | JObject members' => object_lookup key members' = Some (insert_at (SegIndex index :: rest) message (JObject []))
  | _ => False
  end.
Proof. intros values Hk. cbn [insert_at]. rewrite object_lookup_entry, String.eqb_refl, Hk. done. Qed.

Example later_items_erase_earlier_ones :
  let issue n := {| vi_path := [SegField "items"; SegIndex n; SegField "name"]; vi_invalid := validation_error_new "blank" "blank" |} in
  to_nested_messages [issue 0%nat; issue 1%nat] =
    JObject [("items"%string, JArray [JNull; JObject [("name"%string, JArray [JString "blank"])]])].
Proof. reflexivity. Qed.

Example fields_erase_each_other :
  let issue p message := {| vi_path := p; vi_invalid := validation_error_new "invalid" message |} in
  to_nested_messages [issue [SegField "address"] "incomplete"; issue [SegField "address"; SegField "city"] "blank"]%string =
    JObject [("address", JObject [("city", JArray [JString "blank"])])]%string.
Proof. reflexivity. Qed.

Lemma nested_reports_are_complete_witness :
  let issue p message := {| vi_path := p; vi_invalid := validation_error_new "invalid" message |} in
  let r := [issue [SegField "name"] "blank"; issue [SegField "address"; SegField "city"] "short"; issue [] "stale";
            issue [SegField "name"] "taken"]%string in
  messages_at ["name"%string] (to_nested_messages r) = [JString "blank"; JString "taken"].
Proof.
  cbn zeta. refine (eq_trans (nested_reports_are_complete _ _ _ _ _ _) eq_refl).
  - intros i Hi. apply list_elem_of_In in Hi. destruct Hi as [<-|[<-|[<-|[<-|[]]]]]; by eexists.
  - intros i j a b Hi Hj Ha Hb. apply list_elem_of_In in Hi, Hj.
    destruct Hi as [<-|[<-|[<-|[<-|[]]]]], Hj as [<-|[<-|[<-|[<-|[]]]]]; injection Ha as <-; injection Hb as <-;
      intros [|c cs] Hne; try done; split; discriminate.
  - eexists. split; [left|reflexivity].
Defined.
