(* ===== verification/Uploads.v ===== *)
(** * Multipart uploads ([routes/multipart.rs])

    A form is read part by part: texts and files are collected by name within
    the limits of the site and the rules of the handler. The parts and their
    chunks are what [axum_extra] reads of the request; [infer] and UTF-8
    decoding are fields of [UploadExternals]. A temporary file belongs to its
    upload, so a value that holds its contents stands for it. *)
From S2P Require Import Prelude Externals Lifecycle Json Registry ChannelTypes Credentials Validation.
#[local] Open Scope Z_scope.

Class UploadExternals := {
  (** [infer::get], and the type it names. *)
  infer_mime : string → option string;
  (** The error of [String::from_utf8]. *)
  utf8_error : string → option string }.

Inductive MultipartError :=
  | MpInvalid (text : string)
  | MpUnsupported (field reason : string)
  | MpTooLarge (field reason : string)
  | MpValidation (report : ValidationReport)
  | MpIo (text : string).
Definition field_error (field code message : string) : ValidationIssue :=
  {| vi_path := [SegField field]; vi_invalid := validation_error_new code message |}.
Definition missing_field (field : string) : MultipartError := MpValidation [field_error field "required" "This field is required."].
Definition invalid_field (field message : string) : MultipartError := MpValidation [field_error field "invalid" message].
Definition mp_status (e : MultipartError) : Z :=
  match e with MpInvalid _ | MpIo _ => 400 | MpUnsupported _ _ => 415 | MpTooLarge _ _ => 413 | MpValidation _ => 422 end.
Definition mp_code (e : MultipartError) : string :=
  match e with
  | MpInvalid _ | MpIo _ => "invalid_multipart_form"
  | MpUnsupported _ _ => "unsupported_upload"
  | MpTooLarge _ _ => "upload_too_large"
  | MpValidation _ => "validation_error"
  end.
Definition mp_text (e : MultipartError) : string :=
  match e with
  | MpInvalid text => "invalid multipart form: " +:+ text
  | MpUnsupported field reason => "unsupported multipart field '" +:+ field +:+ "': " +:+ reason
  | MpTooLarge field reason => "multipart field '" +:+ field +:+ "' is too large: " +:+ reason
  | MpValidation _ => "validation failed"
  | MpIo text => "I/O error: " +:+ text
  end.
(** From [axum_extra]'s error: its status and text. *)
Definition mp_of_axum (status : Z) (text : string) : MultipartError :=
  if status =? 413 then MpTooLarge "body" text else MpInvalid text.
Definition report_of_multipart (e : MultipartError) : ErrorReport :=
  match e with
  | MpValidation report => report_validation report
  | other => error_report_new (mp_status other) KindParse (mp_code other) (mp_text other)
  end.
Definition error_of_multipart (e : MultipartError) : VyuhError :=
  match e with
  | MpValidation report => error_of_report report
  | other => error_with_context (mp_text other) (error_new KBadRequest)
  end.

(** ** Files and rules *)

Inductive UploadedFileData := InMemory (bytes : string) | InTemp (bytes : string).
Record UploadedFile := {
  uf_field : string; uf_name : option string; uf_content_type : option string; uf_sniffed : option string;
  uf_size : Z; uf_data : UploadedFileData }.
Definition data_bytes (d : UploadedFileData) : string := match d with InMemory bytes | InTemp bytes => bytes end.
Definition is_memory (f : UploadedFile) : bool := match uf_data f with InMemory _ => true | InTemp _ => false end.
Definition memory_bytes (f : UploadedFile) : option string := match uf_data f with InMemory bytes => Some bytes | InTemp _ => None end.
Definition bytes_limited (max : Z) (f : UploadedFile) : result MultipartError string :=
  if max <? uf_size f then Err (MpTooLarge (uf_field f) ("file exceeds " +:+ pretty max +:+ " bytes"))
  else Ok (data_bytes (uf_data f)).

Record UploadConf := {
  up_dir : string; up_base_url : option string; up_temp_dir : option string; up_max_request_bytes : Z; up_max_file_bytes : Z;
  up_max_files : Z; up_max_fields : Z; up_memory_threshold : Z }.
Definition upload_conf_default : UploadConf :=
  {| up_dir := "uploads"; up_base_url := Some "/uploads"%string; up_temp_dir := None; up_max_request_bytes := 25 * 1024 * 1024;
     up_max_file_bytes := 10 * 1024 * 1024; up_max_files := 20; up_max_fields := 100; up_memory_threshold := 256 * 1024 |}.

Inductive SniffRule := SniffImage | SniffMime (types : gset string).
Definition sniff_mime (values : list string) : SniffRule := SniffMime (list_to_set (List.map to_ascii_lowercase values)).
Definition sniff_api_name (r : SniffRule) : string := match r with SniffImage => "image" | SniffMime _ => "mime" end.
Definition sniff_allows (r : SniffRule) (sniffed : string) : bool :=
  match r with SniffImage => String.prefix "image/" sniffed | SniffMime types => bool_decide (sniffed ∈ types) end.
Definition sniff_validate (field : string) (r : SniffRule) (sniffed : option string) : result MultipartError unit :=
  match sniffed with
  | None => Err (MpUnsupported field "could not detect uploaded file type")
  | Some sniffed =>
      if sniff_allows r sniffed then Ok tt
      else Err (MpUnsupported field ("uploaded file content was detected as '" +:+ sniffed +:+ "'"))
  end.

Record FieldRule := { tr_required : bool; tr_max_length : option Z; tr_max_bytes : option Z; tr_multiple : bool }.
Definition field_rule_new : FieldRule := {| tr_required := false; tr_max_length := None; tr_max_bytes := None; tr_multiple := false |}.
Record FileRule := {
  fl_required : bool; fl_max_size : option Z; fl_content_types : gset string; fl_extensions : gset string;
  fl_sniff : option SniffRule; fl_multiple : bool }.
Definition file_rule_new : FileRule :=
  {| fl_required := false; fl_max_size := None; fl_content_types := ∅; fl_extensions := ∅; fl_sniff := None; fl_multiple := false |}.
Definition fl_with_content_types (values : list string) (r : FileRule) : FileRule :=
  {| fl_required := fl_required r; fl_max_size := fl_max_size r; fl_content_types := list_to_set (List.map to_ascii_lowercase values);
     fl_extensions := fl_extensions r; fl_sniff := fl_sniff r; fl_multiple := fl_multiple r |}.
Fixpoint trim_dots (s : string) : string :=
  match s with String c rest => if (byte c =? 46)%nat then trim_dots rest else s | EmptyString => EmptyString end.
Definition fl_with_extensions (values : list string) (r : FileRule) : FileRule :=
  {| fl_required := fl_required r; fl_max_size := fl_max_size r; fl_content_types := fl_content_types r;
     fl_extensions := list_to_set (List.map (λ v, to_ascii_lowercase (trim_dots v)) values);
     fl_sniff := fl_sniff r; fl_multiple := fl_multiple r |}.
(** The part of [rsplit_once('.')] after the last dot. *)
Fixpoint after_last_dot (s : string) : option string :=
  match s with
  | EmptyString => None
  | String c rest =>
      match after_last_dot rest with
      | Some extension => Some extension
      | None => if (byte c =? 46)%nat then Some rest else None
      end
  end.
Definition content_type_allowed (r : FileRule) (content_type : string) : bool :=
  bool_decide (to_ascii_lowercase content_type ∈ fl_content_types r).
Definition extension_allowed (r : FileRule) (file_name : option string) : bool :=
  match file_name ≫= after_last_dot with
  | Some extension => bool_decide (to_ascii_lowercase extension ∈ fl_extensions r)
  | None => false
  end.
Definition validate_headers (r : FileRule) (field : string) (file_name content_type : option string) : result MultipartError unit :=
  let? _ :=
    if bool_decide (fl_content_types r = ∅) then Ok tt
    else match content_type with
         | None => Err (MpUnsupported field "missing file content type")
         | Some content_type =>
             if content_type_allowed r content_type then Ok tt
             else Err (MpUnsupported field ("unsupported content type '" +:+ to_ascii_lowercase content_type +:+ "'"))
         end in
  if bool_decide (fl_extensions r = ∅) || extension_allowed r file_name then Ok tt
  else Err (MpUnsupported field "unsupported file extension").
Definition validate_sniff (r : FileRule) (field : string) (sniffed : option string) : result MultipartError unit :=
  match fl_sniff r with Some rule => sniff_validate field rule sniffed | None => Ok tt end.

(** ** Forms *)

Record MultipartMap := { mm_texts : gmap string (list string); mm_files : gmap string (list UploadedFile) }.
Definition multipart_map_default : MultipartMap := {| mm_texts := ∅; mm_files := ∅ |}.
Definition push_text (name value : string) (m : MultipartMap) : MultipartMap :=
  {| mm_texts := <[name := default [] (mm_texts m !! name) ++ [value]]> (mm_texts m); mm_files := mm_files m |}.
Definition push_file (name : string) (file : UploadedFile) (m : MultipartMap) : MultipartMap :=
  {| mm_texts := mm_texts m; mm_files := <[name := default [] (mm_files m !! name) ++ [file]]> (mm_files m) |}.
Definition text_opt (name : string) (m : MultipartMap) : option string := mm_texts m !! name ≫= head.
Definition text_of (name : string) (m : MultipartMap) : result MultipartError string := ok_or (text_opt name m) (missing_field name).
Definition text_vec (name : string) (m : MultipartMap) : list string := default [] (mm_texts m !! name).
Definition json_part {T} (from_json : string → string + T) (name : string) (m : MultipartMap) : result MultipartError T :=
  let? raw := text_of name m in match from_json raw with inr v => Ok v | inl e => Err (invalid_field name e) end.
Definition file_opt (name : string) (m : MultipartMap) : option UploadedFile := mm_files m !! name ≫= head.
Definition file_of (name : string) (m : MultipartMap) : result MultipartError UploadedFile := ok_or (file_opt name m) (missing_field name).
Definition files_of (name : string) (m : MultipartMap) : list UploadedFile := default [] (mm_files m !! name).

Record MultipartSpec := { sp_text : gmap string FieldRule; sp_files : gmap string FileRule; sp_allow_unknown : bool }.
Definition multipart_spec_new : MultipartSpec := {| sp_text := ∅; sp_files := ∅; sp_allow_unknown := false |}.
Definition sp_with_text (name : string) (rule : FieldRule) (s : MultipartSpec) : MultipartSpec :=
  {| sp_text := <[name := rule]> (sp_text s); sp_files := sp_files s; sp_allow_unknown := sp_allow_unknown s |}.
Definition sp_with_file (name : string) (rule : FileRule) (s : MultipartSpec) : MultipartSpec :=
  {| sp_text := sp_text s; sp_files := <[name := rule]> (sp_files s); sp_allow_unknown := sp_allow_unknown s |}.
Definition sp_with_allow_unknown (allow : bool) (s : MultipartSpec) : MultipartSpec :=
  {| sp_text := sp_text s; sp_files := sp_files s; sp_allow_unknown := allow |}.

Definition value_issues (r : FieldRule) (name value : string) : ValidationReport :=
  match tr_max_length r with
  | Some max =>
      if max <? char_count value
      then [{| vi_path := [SegField name];
               vi_invalid := with_param "max" (pretty max) (validation_error_new "max_length"
                 ("Ensure this field has at most " +:+ pretty max +:+ " characters.")) |}] else []
  | None => []
  end ++
  match tr_max_bytes r with
  | Some max =>
      if max <? str_len value
      then [{| vi_path := [SegField name];
               vi_invalid := with_param "max" (pretty max) (validation_error_new "max_bytes"
                 ("Ensure this field has at most " +:+ pretty max +:+ " bytes.")) |}] else []
  | None => []
  end.
(** The count of the values of a field. *)
Definition count_issues {A} (required multiple : bool) (name : string) (values : list A) : ValidationReport :=
  (if required && bool_decide (List.length values = 0%nat) then [field_error name "required" "This field is required."] else [])
    ++ (if negb multiple && (1 <? zlen values)
        then [field_error name "duplicate_field" "This field may be supplied only once."] else []).
Definition validate_values (r : FieldRule) (name : string) (values : list string) (report : ValidationReport) : ValidationReport :=
  report ++ count_issues (tr_required r) (tr_multiple r) name values ++ List.concat (List.map (value_issues r name) values).

Section Parsing.
Context `{X : UploadExternals}.

Definition SNIFF_LIMIT : nat := 8192.
Definition detect_file_mime (f : UploadedFile) : option string :=
  to_ascii_lowercase <$> infer_mime (String.substring 0 SNIFF_LIMIT (data_bytes (uf_data f))).
Definition validate_file (r : FileRule) (name : string) (f : UploadedFile) : result MultipartError unit :=
  let? _ := match fl_max_size r with
            | Some max => if max <? uf_size f then Err (MpTooLarge name ("file exceeds " +:+ pretty max +:+ " bytes")) else Ok tt
            | None => Ok tt
            end in
  let? _ := validate_headers r name (uf_name f) (uf_content_type f) in
  match fl_sniff r with
  | Some _ => validate_sniff r name (match uf_sniffed f with Some sniffed => Some sniffed | None => detect_file_mime f end)
  | None => Ok tt
  end.
Fixpoint each_file (check : UploadedFile → result MultipartError unit) (files : list UploadedFile) : result MultipartError unit :=
  match files with [] => Ok tt | f :: files => let? _ := check f in each_file check files end.
Definition validate_files (r : FileRule) (name : string) (files : list UploadedFile) (report : ValidationReport) :
    result MultipartError ValidationReport :=
  let? _ := each_file (validate_file r name) files in
  Ok (report ++ count_issues (fl_required r) (fl_multiple r) name files).
Fixpoint validate_file_rules (m : MultipartMap) (rules : list (string * FileRule)) (report : ValidationReport) :
    result MultipartError ValidationReport :=
  match rules with
  | [] => Ok report
  | (name, rule) :: rules => let? report := validate_files rule name (files_of name m) report in validate_file_rules m rules report
  end.
Definition unknown_issues {A B} (rules : gmap string A) (m : gmap string B) : ValidationReport :=
  List.map (λ e, field_error e.1 "unknown_field" "Unknown multipart field.")
    (List.filter (λ e, negb (bool_decide (is_Some (rules !! e.1)))) (btree_entries m)).
Definition validate_map (s : MultipartSpec) (m : MultipartMap) : result MultipartError unit :=
  let report := fold_left (λ report e, validate_values e.2 e.1 (text_vec e.1 m) report) (btree_entries (sp_text s)) [] in
  let? report := validate_file_rules m (btree_entries (sp_files s)) report in
  let report :=
    if sp_allow_unknown s then report
    else report ++ unknown_issues (sp_text s) (mm_texts m) ++ unknown_issues (sp_files s) (mm_files m) in
  match report with [] => Ok tt | _ => Err (MpValidation report) end.
Definition map_validate (s : MultipartSpec) (m : MultipartMap) : result MultipartError MultipartMap :=
  let? _ := validate_map s m in Ok m.

(** ** Reading the parts *)

(** A part as it arrives; the file operations at a chunk may fail. *)
Record Field := {
  fd_name : option string; fd_file_name : option string; fd_content_type : option string;
  fd_chunks : list (result MultipartError string); fd_spool : nat → option string }.

Definition add_bytes (total next max : Z) : result MultipartError Z :=
  let total := Z.min U64_MAX (total + next) in
  if max <? total then Err (MpTooLarge "body" ("multipart request exceeds " +:+ pretty max +:+ " bytes")) else Ok total.

Fixpoint read_text_chunks (name : string) (r : FieldRule) (conf : UploadConf) (chunks : list (result MultipartError string))
    (total : Z) (bytes : string) : result MultipartError (string * Z) :=
  match chunks with
  | [] => Ok (bytes, total)
  | chunk :: chunks =>
      let? chunk := chunk in
      let? total := add_bytes total (str_len chunk) (up_max_request_bytes conf) in
      let? _ := match tr_max_bytes r with
                | Some max =>
                    if max <? str_len bytes + str_len chunk
                    then Err (MpTooLarge name ("field exceeds " +:+ pretty max +:+ " bytes")) else Ok tt
                | None => Ok tt
                end in
      read_text_chunks name r conf chunks total (bytes +:+ chunk)
  end.
Definition read_text_field (f : Field) (name : string) (r : FieldRule) (conf : UploadConf) (total : Z) :
    result MultipartError (string * Z) :=
  let? read := read_text_chunks name r conf (fd_chunks f) total "" in
  match utf8_error read.1 with Some e => Err (invalid_field name e) | None => Ok read end.

Record FileRead := {
  rd_total : Z; rd_size : Z; rd_memory : string; rd_temp : option string; rd_prefix : string; rd_sniffed : option string;
  rd_checked : bool }.
(** The sniffed prefix grows to its limit; the first type it shows is checked at once. *)
Definition sniff_chunk (name : string) (r : FileRule) (chunk : string) (s : FileRead) :
    result MultipartError (string * option string * bool) :=
  if bool_decide (is_Some (fl_sniff r)) && (String.length (rd_prefix s) <? SNIFF_LIMIT)%nat then
    let remaining := (SNIFF_LIMIT - String.length (rd_prefix s))%nat in
    let prefix := rd_prefix s +:+ String.substring 0 (Nat.min (String.length chunk) remaining) chunk in
    match (if rd_checked s || String.eqb prefix "" then None else infer_mime prefix) with
    | Some kind =>
        let mime := to_ascii_lowercase kind in
        let? _ := validate_sniff r name (Some mime) in Ok (prefix, Some mime, true)
    | None => Ok (prefix, rd_sniffed s, rd_checked s)
    end
  else Ok (rd_prefix s, rd_sniffed s, rd_checked s).
Definition store_chunk (conf : UploadConf) (io : option string) (chunk : string) (s : FileRead) :
    result MultipartError (string * option string) :=
  let spool contents := match io with Some e => Err (MpIo e) | None => Ok (EmptyString, Some contents) end in
  match rd_temp s with
  | Some temp => match io with Some e => Err (MpIo e) | None => Ok (rd_memory s, Some (temp +:+ chunk)) end
  | None =>
      if up_memory_threshold conf <? str_len (rd_memory s) + str_len chunk then spool (rd_memory s +:+ chunk)
      else Ok (rd_memory s +:+ chunk, None)
  end.
Definition read_file_chunk (name : string) (r : FileRule) (conf : UploadConf) (io : option string) (chunk : string)
    (s : FileRead) : result MultipartError FileRead :=
  let? total := add_bytes (rd_total s) (str_len chunk) (up_max_request_bytes conf) in
  let size := rd_size s + str_len chunk in
  let max_size := default (up_max_file_bytes conf) (fl_max_size r) in
  if max_size <? size then Err (MpTooLarge name ("file exceeds " +:+ pretty max_size +:+ " bytes"))
  else
    let? sniffed := sniff_chunk name r chunk s in
    let? stored := store_chunk conf io chunk s in
    Ok {| rd_total := total; rd_size := size; rd_memory := stored.1; rd_temp := stored.2; rd_prefix := sniffed.1.1;
          rd_sniffed := sniffed.1.2; rd_checked := sniffed.2 |}.
Fixpoint read_file_chunks (name : string) (r : FileRule) (conf : UploadConf) (spool : nat → option string) (index : nat)
    (chunks : list (result MultipartError string)) (s : FileRead) : result MultipartError FileRead :=
  match chunks with
  | [] => Ok s
  | chunk :: chunks =>
      let? chunk := chunk in
      let? s := read_file_chunk name r conf (spool index) chunk s in
      read_file_chunks name r conf spool (S index) chunks s
  end.
Definition finish_file (f : Field) (name : string) (r : FileRule) (s : FileRead) : result MultipartError (UploadedFile * Z) :=
  let? sniffed :=
    if bool_decide (is_Some (fl_sniff r)) && negb (rd_checked s) then
      let detected := to_ascii_lowercase <$> infer_mime (rd_prefix s) in
      let? _ := validate_sniff r name detected in Ok detected
    else Ok (rd_sniffed s) in
  let? data :=
    match rd_temp s with
    | Some temp => match fd_spool f (List.length (fd_chunks f)) with Some e => Err (MpIo e) | None => Ok (InTemp temp) end
    | None => Ok (InMemory (rd_memory s))
    end in
  Ok ({| uf_field := name; uf_name := fd_file_name f; uf_content_type := fd_content_type f; uf_sniffed := sniffed;
         uf_size := rd_size s; uf_data := data |}, rd_total s).
Definition read_file_field (f : Field) (name : string) (r : FileRule) (conf : UploadConf) (total : Z) :
    result MultipartError (UploadedFile * Z) :=
  let? _ := validate_headers r name (fd_file_name f) (fd_content_type f) in
  let? s := read_file_chunks name r conf (fd_spool f) 0 (fd_chunks f)
              {| rd_total := total; rd_size := 0; rd_memory := ""; rd_temp := None; rd_prefix := ""; rd_sniffed := None;
                 rd_checked := false |} in
  finish_file f name r s.

Definition is_empty_optional_file (file_name : option string) (r : FileRule) : bool :=
  negb (fl_required r) && match file_name with Some name => String.eqb name "" | None => false end.

Record Parse := { pr_map : MultipartMap; pr_files : Z; pr_fields : Z; pr_bytes : Z }.
Definition parse_text (conf : UploadConf) (f : Field) (name : string) (r : FieldRule) (fields : Z) (p : Parse) : result MultipartError Parse :=
  let? read := read_text_field f name r conf (pr_bytes p) in
  Ok {| pr_map := push_text name read.1 (pr_map p); pr_files := pr_files p; pr_fields := fields; pr_bytes := read.2 |}.
Definition parse_file (conf : UploadConf) (f : Field) (name : string) (r : FileRule) (fields : Z) (p : Parse) : result MultipartError Parse :=
  let files := pr_files p + 1 in
  if up_max_files conf <? files
  then Err (MpTooLarge "body" ("multipart form exceeds " +:+ pretty (up_max_files conf) +:+ " files"))
  else
    let? read := read_file_field f name r conf (pr_bytes p) in
    Ok {| pr_map := push_file name read.1 (pr_map p); pr_files := files; pr_fields := fields; pr_bytes := read.2 |}.
Definition parse_field (conf : UploadConf) (spec : option MultipartSpec) (f : Field) (p : Parse) : result MultipartError Parse :=
  let fields := pr_fields p + 1 in
  if up_max_fields conf <? fields
  then Err (MpTooLarge "body" ("multipart form exceeds " +:+ pretty (up_max_fields conf) +:+ " fields"))
  else
    let? name := ok_or (fd_name f) (MpInvalid "multipart field is missing a name") in
    match spec, fd_file_name f with
    | Some s, Some _ =>
        match sp_files s !! name with
        | Some rule =>
            if is_empty_optional_file (fd_file_name f) rule
            then Ok {| pr_map := pr_map p; pr_files := pr_files p; pr_fields := fields; pr_bytes := pr_bytes p |}
            else parse_file conf f name rule fields p
        | None => Err (invalid_field name "Unknown multipart field.")
        end
    | Some s, None =>
        match sp_text s !! name with
        | Some rule => parse_text conf f name rule fields p
        | None => Err (invalid_field name "Unknown multipart field.")
        end
    | None, Some _ => parse_file conf f name file_rule_new fields p
    | None, None => parse_text conf f name field_rule_new fields p
    end.
Fixpoint parse_fields (conf : UploadConf) (spec : option MultipartSpec) (fields : list (result MultipartError Field)) (p : Parse) :
    result MultipartError Parse :=
  match fields with
  | [] => Ok p
  | f :: fields => let? f := f in let? p := parse_field conf spec f p in parse_fields conf spec fields p
  end.
Definition parse_start : Parse := {| pr_map := multipart_map_default; pr_files := 0; pr_fields := 0; pr_bytes := 0 |}.
Definition parse_multipart (conf : UploadConf) (spec : option MultipartSpec) (fields : list (result MultipartError Field)) :
    result MultipartError MultipartMap :=
  let? p := parse_fields conf spec fields parse_start in
  let? _ := match spec with Some s => validate_map s (pr_map p) | None => Ok tt end in
  Ok (pr_map p).
End Parsing.

(** ** API metadata *)

Record MultipartApiField := {
  af_name : string; af_is_file : bool; af_required : bool; af_multiple : bool; af_max_length : option Z; af_max_bytes : option Z;
  af_content_types : list string; af_extensions : list string; af_sniff : option string }.
Definition sorted_elements (s : gset string) : list string := sort_by_key str_le id (elements s).
Definition multipart_api_spec (s : MultipartSpec) : list MultipartApiField * bool :=
  (List.map (λ e, {| af_name := e.1; af_is_file := false; af_required := tr_required e.2; af_multiple := tr_multiple e.2;
                     af_max_length := tr_max_length e.2; af_max_bytes := tr_max_bytes e.2; af_content_types := [];
                     af_extensions := []; af_sniff := None |}) (btree_entries (sp_text s))
   ++ List.map (λ e, {| af_name := e.1; af_is_file := true; af_required := fl_required e.2; af_multiple := fl_multiple e.2;
                        af_max_length := None; af_max_bytes := fl_max_size e.2;
                        af_content_types := sorted_elements (fl_content_types e.2);
                        af_extensions := sorted_elements (fl_extensions e.2); af_sniff := sniff_api_name <$> fl_sniff e.2 |})
        (btree_entries (sp_files s)),
   sp_allow_unknown s).

(** ** What an accepted form holds

    A form that was read obeys the limits of the site and the rules of the
    handler, and holds exactly the parts of the request. *)

(** *** Rules as propositions *)

Definition conforms_text (r : FieldRule) (values : list string) : Prop :=
  (tr_required r = true → values ≠ []) ∧ (tr_multiple r = false → zlen values ≤ 1) ∧
  ∀ v, v ∈ values → (∀ max, tr_max_length r = Some max → char_count v ≤ max) ∧ (∀ max, tr_max_bytes r = Some max → str_len v ≤ max).

Section Conforming.
Context `{X : UploadExternals}.

Definition conforms_headers (r : FileRule) (file_name content_type : option string) : Prop :=
  (fl_content_types r ≠ ∅ → ∃ t, content_type = Some t ∧ to_ascii_lowercase t ∈ fl_content_types r) ∧
  (fl_extensions r ≠ ∅ → ∃ e, file_name ≫= after_last_dot = Some e ∧ to_ascii_lowercase e ∈ fl_extensions r).
(** The type that was detected while the file was read, or is detected now. *)
Definition sniffed_type (f : UploadedFile) : option string :=
  match uf_sniffed f with Some sniffed => Some sniffed | None => detect_file_mime f end.
Definition conforms_file (r : FileRule) (f : UploadedFile) : Prop :=
  (∀ max, fl_max_size r = Some max → uf_size f ≤ max) ∧ conforms_headers r (uf_name f) (uf_content_type f) ∧
  (∀ rule, fl_sniff r = Some rule → ∃ t, sniffed_type f = Some t ∧ sniff_allows rule t = true).
Definition conforms_files (r : FileRule) (files : list UploadedFile) : Prop :=
  (fl_required r = true → files ≠ []) ∧ (fl_multiple r = false → zlen files ≤ 1) ∧ Forall (conforms_file r) files.
Definition conforms (s : MultipartSpec) (m : MultipartMap) : Prop :=
  (∀ name r, sp_text s !! name = Some r → conforms_text r (text_vec name m)) ∧
  (∀ name r, sp_files s !! name = Some r → conforms_files r (files_of name m)) ∧
  (sp_allow_unknown s = false → (∀ name, is_Some (mm_texts m !! name) → is_Some (sp_text s !! name)) ∧
                                (∀ name, is_Some (mm_files m !! name) → is_Some (sp_files s !! name))).

(** *** Validation decides them *)

Lemma count_issues_nil {A} required multiple name (values : list A) :
  count_issues required multiple name values = [] ↔ (required = true → values ≠ []) ∧ (multiple = false → zlen values ≤ 1).
Proof.
  unfold count_issues. destruct values as [|v values].
  - rewrite bool_decide_true, andb_true_r by done. change (zlen (@nil A)) with 0. rewrite andb_false_r, app_nil_r.
    destruct required; split; try done. by intros [Hv _]; specialize (Hv eq_refl).
  - rewrite (bool_decide_false (List.length (v :: values) = 0%nat)) by done. rewrite andb_false_r.
    destruct multiple; cbn; [naive_solver|]. destruct (Z.ltb_spec 1 (zlen (v :: values))); cbn; split; intros Hv; try done.
    destruct Hv as [_ Hv]. specialize (Hv eq_refl). lia.
Qed.

Lemma value_issues_nil r name v :
  value_issues r name v = [] ↔ (∀ max, tr_max_length r = Some max → char_count v ≤ max) ∧ (∀ max, tr_max_bytes r = Some max → str_len v ≤ max).
Proof.
  unfold value_issues, ValidationReport. rewrite app_nil.
  assert (Hone : ∀ (o : option Z) n (i : Z → ValidationIssue),
    match o with Some max => if max <? n then [i max] else [] | None => [] end = [] ↔ ∀ max, o = Some max → n ≤ max).
  { intros [max|] n i; [|naive_solver]. destruct (Z.ltb_spec max n); split; intros Hm; try done.
    - specialize (Hm max eq_refl). lia.
    - naive_solver. }
  by rewrite (Hone (tr_max_length r) (char_count v)), (Hone (tr_max_bytes r) (str_len v)).
Qed.

Lemma validate_values_nil r name values report :
  validate_values r name values report = [] ↔ report = [] ∧ conforms_text r values.
Proof.
  unfold validate_values, conforms_text, ValidationReport. rewrite !app_nil, count_issues_nil.
  assert (List.concat (List.map (value_issues r name) values) = [] ↔
    ∀ v, v ∈ values → value_issues r name v = []) as ->.
  { induction values as [|v values IH]; cbn; [set_solver|]. rewrite app_nil, IH. set_solver. }
  setoid_rewrite value_issues_nil. tauto.
Qed.

Lemma text_rules_nil m rules report :
  fold_left (λ report e, validate_values e.2 e.1 (text_vec e.1 m) report) rules report = [] ↔
  report = [] ∧ ∀ name r, (name, r) ∈ rules → conforms_text r (text_vec name m).
Proof.
  revert report. induction rules as [|[name r] rules IH]; intros report; cbn; [set_solver|].
  rewrite IH, validate_values_nil. split.
  - intros [[Hr Hc] Hrest]. split; [done|]. intros name' r' [[= -> ->]|Hin]%elem_of_cons; auto.
  - intros [Hr Hc]. split_and!; [done|apply Hc; left|]. intros. apply Hc. by right.
Qed.

Lemma validate_headers_ok r field file_name content_type :
  validate_headers r field file_name content_type = Ok tt ↔ conforms_headers r file_name content_type.
Proof.
  unfold validate_headers, conforms_headers. case_bool_decide as Ht.
  2: destruct content_type as [t|]; [|cbn; split; [done|naive_solver]].
  2: unfold content_type_allowed; case_bool_decide; cbn; [|split; [done|naive_solver]].
  all: cbn; unfold extension_allowed; case_bool_decide as He; cbn;
    [naive_solver|destruct (file_name ≫= after_last_dot) as [e|] eqn:Hn; [case_bool_decide|]; split; try done; naive_solver].
Qed.

Lemma validate_sniff_ok r field sniffed :
  validate_sniff r field sniffed = Ok tt ↔ ∀ rule, fl_sniff r = Some rule → ∃ t, sniffed = Some t ∧ sniff_allows rule t = true.
Proof.
  unfold validate_sniff. destruct (fl_sniff r) as [rule|]; [|naive_solver]. unfold sniff_validate.
  destruct sniffed as [t|]; [destruct (sniff_allows rule t) eqn:Ha|]; split; try done;
    intros Hr; first [intros rule' [= <-]; by exists t | destruct (Hr rule eq_refl) as (? & ? & ?); congruence].
Qed.

Lemma validate_file_ok r name f : validate_file r name f = Ok tt ↔ conforms_file r f.
Proof.
  unfold validate_file, conforms_file, sniffed_type.
  assert (Hs : (match fl_sniff r with
                | Some _ => validate_sniff r name (match uf_sniffed f with Some sniffed => Some sniffed | None => detect_file_mime f end)
                | None => Ok tt
                end = Ok tt) ↔
    ∀ rule, fl_sniff r = Some rule → ∃ t, match uf_sniffed f with Some sniffed => Some sniffed | None => detect_file_mime f end = Some t ∧
      sniff_allows rule t = true).
  { rewrite <- (validate_sniff_ok r name). unfold validate_sniff. by destruct (fl_sniff r). }
  rewrite <- Hs, <- (validate_headers_ok r name). clear Hs.
  destruct (fl_max_size r) as [max|]; cbn; [destruct (Z.ltb_spec max (uf_size f)); cbn|].
  - split; [done|]. intros (Hm & _). specialize (Hm max eq_refl). lia.
  - destruct (validate_headers r name _ _) as [[]|]; cbn; naive_solver.
  - destruct (validate_headers r name _ _) as [[]|]; cbn; naive_solver.
Qed.

Lemma each_file_ok check files : each_file check files = Ok tt ↔ Forall (λ f, check f = Ok tt) files.
Proof.
  induction files as [|f files IH]; cbn; [by split|]. rewrite Forall_cons, <- IH.
  destruct (check f) as [[]|]; cbn; naive_solver.
Qed.

Lemma file_rules_nil m rules report :
  validate_file_rules m rules report = Ok [] ↔ report = [] ∧ ∀ name r, (name, r) ∈ rules → conforms_files r (files_of name m).
Proof.
  revert report. induction rules as [|[name r] rules IH]; intros report; cbn; [split; [intros [= ->]; set_solver|by intros [-> _]]|].
  unfold validate_files. destruct (each_file _ _) as [[]|e] eqn:He; cbn.
  - rewrite IH. unfold ValidationReport. rewrite app_nil, count_issues_nil.
    assert (Hf : Forall (conforms_file r) (files_of name m)).
    { apply each_file_ok in He. eapply Forall_impl; [exact He|]. intros f. apply validate_file_ok. }
    split.
    + intros [(Hr & Hc) Hrest]. split; [done|]. intros name' r' [[= -> ->]|Hin]%elem_of_cons; [by split_and!; [apply Hc|apply Hc|]|auto].
    + intros [Hr Hc]. destruct (Hc name r ltac:(left)) as (? & ? & _). split_and!; [done|done|done|]. intros. apply Hc. by right.
  - split; [done|]. intros [_ Hc]. destruct (Hc name r ltac:(left)) as (_ & _ & Hf).
    assert (each_file (validate_file r name) (files_of name m) = Ok tt) by
      (apply each_file_ok; eapply Forall_impl; [exact Hf|]; intros f; apply validate_file_ok).
    congruence.
Qed.

Lemma unknown_issues_nil {A B} (rules : gmap string A) (m : gmap string B) :
  unknown_issues rules m = [] ↔ ∀ name, is_Some (m !! name) → is_Some (rules !! name).
Proof.
  unfold unknown_issues. split.
  - intros Hn name [b Hb]. apply map_eq_nil in Hn. apply btree_entries_lookup in Hb.
    destruct (rules !! name) as [a|] eqn:Ha; [done|]. exfalso.
    assert (Hin : In (name, b) (List.filter (λ e, negb (bool_decide (is_Some (rules !! e.1)))) (btree_entries m))).
    { apply filter_In. split; [by apply list_elem_of_In|]. cbn. by rewrite Ha. }
    by rewrite Hn in Hin.
  - intros Hk. destruct (List.filter _ _) as [|[name b] l] eqn:Hl; [done|]. exfalso.
    assert (Hin : In (name, b) (List.filter (λ e, negb (bool_decide (is_Some (rules !! e.1)))) (btree_entries m)))
      by (rewrite Hl; by left).
    apply filter_In in Hin as [Hin Hb]. apply list_elem_of_In, btree_entries_lookup in Hin. cbn in Hb.
    rewrite bool_decide_true in Hb by (apply Hk; by eexists). done.
Qed.

(** [validate_map] accepts exactly the forms that conform. *)
Lemma validate_map_decides s m : validate_map s m = Ok tt ↔ conforms s m.
Proof.
  unfold validate_map, conforms. set (texts := fold_left _ _ _).
  assert (Ht : texts = [] ↔ ∀ name r, sp_text s !! name = Some r → conforms_text r (text_vec name m)).
  { unfold texts. rewrite text_rules_nil. setoid_rewrite btree_entries_lookup. naive_solver. }
  assert (Hf : validate_file_rules m (btree_entries (sp_files s)) texts = Ok [] ↔
    texts = [] ∧ ∀ name r, sp_files s !! name = Some r → conforms_files r (files_of name m)).
  { rewrite file_rules_nil. by setoid_rewrite btree_entries_lookup. }
  rewrite <- Ht. destruct (validate_file_rules _ _ _) as [report|e]; cbn.
  2: { split; [done|]. intros (H1 & H2 & _). destruct Hf as [_ Hf]. by discriminate Hf. }
  assert (Hu : (if sp_allow_unknown s then report
                else report ++ unknown_issues (sp_text s) (mm_texts m) ++ unknown_issues (sp_files s) (mm_files m)) = [] ↔
    report = [] ∧ (sp_allow_unknown s = false →
      (∀ name, is_Some (mm_texts m !! name) → is_Some (sp_text s !! name)) ∧
      (∀ name, is_Some (mm_files m !! name) → is_Some (sp_files s !! name)))).
  { destruct (sp_allow_unknown s); [naive_solver|]. unfold ValidationReport. rewrite !app_nil, !unknown_issues_nil. naive_solver. }
  assert (Hr : report = [] ↔ texts = [] ∧ ∀ name r, sp_files s !! name = Some r → conforms_files r (files_of name m)).
  { rewrite <- Hf. split; [by intros ->|by intros [= ->]]. }
  rewrite Hr in Hu. match type of Hu with ?l = [] ↔ _ => destruct l eqn:Hl end.
  - split; [|done]. intros _. destruct Hu as [Hu _]. destruct (Hu eq_refl) as [[? ?] ?]. done.
  - split; [done|]. intros (H1 & H2 & H3). destruct Hu as [_ Hu]. by discriminate Hu.
Qed.
End Conforming.

(** *** Reading the parts *)

Definition chunk_bytes (chunks : list (result MultipartError string)) : string :=
  String.concat "" (List.map (λ c, match c with Ok s => s | Err _ => EmptyString end) chunks).
Definition part_bytes (f : Field) : string := chunk_bytes (fd_chunks f).
Definition part_len (f : Field) : Z := str_len (part_bytes f).
Definition bytes_sum (l : list Z) : Z := foldr Z.add 0 l.

(** What the widths of the source give, and a limit below the largest integer. *)
Definition upload_conf_ok (conf : UploadConf) : Prop :=
  0 ≤ up_max_request_bytes conf < U64_MAX ∧ 0 ≤ up_max_file_bytes conf ∧ 0 ≤ up_max_files conf ∧ 0 ≤ up_memory_threshold conf.

Lemma chunk_bytes_cons s chunks : chunk_bytes (Ok s :: chunks) = s +:+ chunk_bytes chunks.
Proof. unfold chunk_bytes. cbn. destruct chunks; [|done]. cbn. by rewrite string_app_nil_r. Qed.
Lemma bytes_sum_app a b : bytes_sum (a ++ b) = bytes_sum a + bytes_sum b.
Proof. unfold bytes_sum. induction a; cbn; lia. Qed.

Lemma add_bytes_ok total next max total' : max < U64_MAX → add_bytes total next max = Ok total' → total' = total + next ∧ total' ≤ max.
Proof. unfold add_bytes. intros Hm. destruct (Z.ltb_spec max (Z.min U64_MAX (total + next))); [done|]. intros [= <-]. lia. Qed.

Section Reading.
Context `{X : UploadExternals} (conf : UploadConf) (Hconf : upload_conf_ok conf).

Lemma read_text_chunks_ok name r chunks total bytes bytes' total' :
  total ≤ up_max_request_bytes conf → read_text_chunks name r conf chunks total bytes = Ok (bytes', total') →
  bytes' = bytes +:+ chunk_bytes chunks ∧ total' = total + str_len (chunk_bytes chunks) ∧ total' ≤ up_max_request_bytes conf.
Proof.
  destruct Hconf as [Hmax _]. revert total bytes. induction chunks as [|c chunks IH]; intros total bytes Ht; cbn [read_text_chunks].
  - intros [= <- <-]. cbn. rewrite string_app_nil_r. unfold str_len. cbn. split_and!; [done|lia|done].
  - destruct c as [c|]; [|done]. cbn [result_bind]. intros H. apply result_bind_ok in H as (t & Ha & H).
    apply add_bytes_ok in Ha as [-> Hle]; [|lia]. apply result_bind_ok in H as ([] & _ & H).
    apply IH in H as (-> & -> & H); [|done]. rewrite chunk_bytes_cons, string_app_assoc, str_len_app. split_and!; [done|lia|lia].
Qed.

(** The contents so far. *)
Definition read_bytes (s : FileRead) : string := default (rd_memory s) (rd_temp s).
Definition read_ok (r : FileRule) (s : FileRead) : Prop :=
  rd_size s = str_len (read_bytes s) ∧ (rd_temp s = None ↔ rd_size s ≤ up_memory_threshold conf) ∧
  (fl_max_size r = None → rd_size s ≤ up_max_file_bytes conf) ∧ rd_total s ≤ up_max_request_bytes conf.

Lemma store_chunk_ok io chunk s memory temp :
  (rd_temp s = None ↔ str_len (read_bytes s) ≤ up_memory_threshold conf) → store_chunk conf io chunk s = Ok (memory, temp) →
  default memory temp = read_bytes s +:+ chunk ∧ (temp = None ↔ str_len (read_bytes s +:+ chunk) ≤ up_memory_threshold conf).
Proof.
  intros Ht. unfold store_chunk, read_bytes in *. pose proof (str_len_nonneg chunk). destruct (rd_temp s) as [t|]; cbn in *.
  - destruct io; [done|]. intros [= <- <-]. cbn. split; [done|]. rewrite str_len_app. split; [done|].
    intros Hle. destruct Ht as [_ Ht]. discriminate Ht. lia.
  - destruct (Z.ltb_spec (up_memory_threshold conf) (str_len (rd_memory s) + str_len chunk)).
    + destruct io; [done|]. intros [= <- <-]. cbn. rewrite str_len_app. split; [done|]. split; [done|lia].
    + intros [= <- <-]. cbn. rewrite str_len_app. split; [done|]. split; [lia|done].
Qed.

Lemma read_file_chunk_ok name r io chunk s s' :
  read_ok r s → read_file_chunk name r conf io chunk s = Ok s' →
  read_ok r s' ∧ read_bytes s' = read_bytes s +:+ chunk ∧ rd_total s' = rd_total s + str_len chunk.
Proof.
  destruct Hconf as [Hmax _]. intros (Hs & Ht & Hm & Htot) H. unfold read_file_chunk in H.
  apply result_bind_ok in H as (t & Ha & H). apply add_bytes_ok in Ha as [-> Hle]; [|lia].
  destruct (Z.ltb_spec (default (up_max_file_bytes conf) (fl_max_size r)) (rd_size s + str_len chunk)) as [|Hsize]; [done|].
  apply result_bind_ok in H as (sn & _ & H). apply result_bind_ok in H as ([memory temp] & Hst & H). injection H as <-.
  rewrite Hs in Ht. apply store_chunk_ok in Hst as [Hb Hmem]; [|done].
  unfold read_ok, read_bytes at 1 3. cbn. rewrite Hb, Hs, <- str_len_app. split_and!; try done.
  intros Hn. rewrite Hn in Hsize. cbn in Hsize. rewrite str_len_app. lia.
Qed.

Lemma read_file_chunks_ok name r spool index chunks s s' :
  read_ok r s → read_file_chunks name r conf spool index chunks s = Ok s' →
  read_ok r s' ∧ read_bytes s' = read_bytes s +:+ chunk_bytes chunks ∧ rd_total s' = rd_total s + str_len (chunk_bytes chunks).
Proof.
  revert index s. induction chunks as [|c chunks IH]; intros index s Hs; cbn [read_file_chunks].
  - intros [= <-]. cbn. rewrite string_app_nil_r. unfold str_len. cbn. split_and!; [done|done|lia].
  - destruct c as [c|]; [|done]. cbn [result_bind]. intros H. apply result_bind_ok in H as (s1 & H1 & H).
    apply read_file_chunk_ok in H1 as (Hs1 & Hb & Ht); [|done]. apply IH in H as (Hs' & Hb' & Ht'); [|done].
    rewrite chunk_bytes_cons, str_len_app, string_app_assoc, <- Hb. split_and!; [done|done|lia].
Qed.

(** A file is the part it was read from, in memory up to the threshold. *)
Definition file_of_part (r : FileRule) (name : string) (f : Field) (file : UploadedFile) : Prop :=
  uf_field file = name ∧ uf_name file = fd_file_name f ∧ uf_content_type file = fd_content_type f ∧
  data_bytes (uf_data file) = part_bytes f ∧ uf_size file = part_len f ∧
  (is_memory file = true ↔ uf_size file ≤ up_memory_threshold conf) ∧
  (fl_max_size r = None → uf_size file ≤ up_max_file_bytes conf).

Lemma read_file_field_ok f name r total file total' :
  total ≤ up_max_request_bytes conf → read_file_field f name r conf total = Ok (file, total') →
  file_of_part r name f file ∧ total' = total + part_len f ∧ total' ≤ up_max_request_bytes conf.
Proof.
  destruct Hconf as (Hmax & Hfile & Hfiles & Hthr). intros Ht H. unfold read_file_field in H.
  apply result_bind_ok in H as ([] & _ & H). apply result_bind_ok in H as (s & Hs & H).
  apply read_file_chunks_ok in Hs as ((Hsize & Htemp & Hlim & Htot) & Hb & Ht').
  2: { unfold read_ok, read_bytes, str_len. cbn. split_and!; [done|done|lia|done]. }
  cbn [read_bytes rd_temp rd_memory default rd_total] in Hb, Ht'. change (EmptyString +:+ ?s) with s in Hb.
  unfold finish_file in H. apply result_bind_ok in H as (sn & _ & H). apply result_bind_ok in H as (data & Hd & H). injection H as <- <-.
  assert (Hdata : data_bytes data = read_bytes s ∧ (match data with InMemory _ => true | InTemp _ => false end = true ↔ rd_temp s = None)).
  { unfold read_bytes. destruct (rd_temp s); [destruct (fd_spool f _); [done|]|]; injection Hd as <-; by split. }
  destruct Hdata as [Hdata Hmem]. rewrite Hb in Hsize, Hdata. unfold file_of_part, is_memory, part_len, part_bytes. cbn.
  rewrite Hdata, Hmem, Htemp, Hsize. rewrite Hsize in Hlim. split_and!; try done; lia.
Qed.
End Reading.

(** *** The form is the parts of the request *)

(** The empty part a browser sends for an optional file that was not chosen. *)
Definition skipped (spec : option MultipartSpec) (f : Field) : bool :=
  match spec, fd_file_name f, fd_name f with
  | Some s, Some _, Some name =>
      match sp_files s !! name with Some rule => is_empty_optional_file (fd_file_name f) rule | None => false end
  | _, _, _ => false
  end.
Definition is_file_part (spec : option MultipartSpec) (f : Field) : bool := bool_decide (is_Some (fd_file_name f)) && negb (skipped spec f).
Definition text_named (name : string) (f : Field) : bool := bool_decide (fd_name f = Some name ∧ fd_file_name f = None).
Definition file_named (spec : option MultipartSpec) (name : string) (f : Field) : bool :=
  bool_decide (fd_name f = Some name) && is_file_part spec f.
Definition file_rule_of (spec : option MultipartSpec) (name : string) : FileRule :=
  match spec with Some s => default file_rule_new (sp_files s !! name) | None => file_rule_new end.
Definition declared_part (spec : option MultipartSpec) (f : Field) : Prop :=
  ∃ name, fd_name f = Some name ∧
    ∀ s, spec = Some s → match fd_file_name f with Some _ => is_Some (sp_files s !! name) | None => is_Some (sp_text s !! name) end.

Section Forms.
Context `{X : UploadExternals} (conf : UploadConf) (Hconf : upload_conf_ok conf) (spec : option MultipartSpec).

Record parsed (parts : list Field) (p : Parse) : Prop := {
  ps_fields : pr_fields p = zlen parts;
  ps_fields_max : parts ≠ [] → zlen parts ≤ up_max_fields conf;
  ps_files : pr_files p = zlen (List.filter (is_file_part spec) parts);
  ps_files_max : pr_files p ≤ up_max_files conf;
  ps_bytes : pr_bytes p = bytes_sum (List.map part_len (List.filter (λ f, negb (skipped spec f)) parts));
  ps_bytes_max : pr_bytes p ≤ up_max_request_bytes conf;
  ps_declared : Forall (declared_part spec) parts;
  ps_text_values : ∀ name, text_vec name (pr_map p) = List.map part_bytes (List.filter (text_named name) parts);
  ps_file_values : ∀ name, Forall2 (file_of_part conf (file_rule_of spec name) name) (List.filter (file_named spec name) parts)
                                   (files_of name (pr_map p)) }.

Lemma parsed_start : parsed [] parse_start.
Proof. destruct Hconf as (? & ? & ? & ?). split; cbn; try done; try lia; intros; constructor. Qed.

Lemma text_vec_push name name' value m :
  text_vec name (push_text name' value m) = text_vec name m ++ (if bool_decide (name' = name) then [value] else []).
Proof. unfold text_vec, push_text. cbn. case_bool_decide as Hn; [subst; by rewrite lookup_insert_eq|by rewrite lookup_insert_ne, app_nil_r]. Qed.
Lemma files_of_push name name' file m :
  files_of name (push_file name' file m) = files_of name m ++ (if bool_decide (name' = name) then [file] else []).
Proof. unfold files_of, push_file. cbn. case_bool_decide as Hn; [subst; by rewrite lookup_insert_eq|by rewrite lookup_insert_ne, app_nil_r]. Qed.
Lemma text_vec_push_file name name' file m : text_vec name (push_file name' file m) = text_vec name m.
Proof. done. Qed.
Lemma files_of_push_text name name' value m : files_of name (push_text name' value m) = files_of name m.
Proof. done. Qed.

Lemma text_named_file name f : is_Some (fd_file_name f) → text_named name f = false.
Proof. intros [file_name Hf]. unfold text_named. apply bool_decide_false. rewrite Hf. naive_solver. Qed.

Lemma parsed_text parts p f name r p' :
  parsed parts p → pr_fields p + 1 ≤ up_max_fields conf → fd_name f = Some name → fd_file_name f = None → declared_part spec f →
  parse_text conf f name r (pr_fields p + 1) p = Ok p' → parsed (parts ++ [f]) p'.
Proof.
  intros [Hf Hfm Hfl Hflm Hb Hbm Hd Ht Hfv] Hlim Hn Hfn Hdecl H. unfold parse_text in H.
  apply result_bind_ok in H as ([text total] & Hr & H). injection H as <-. unfold read_text_field in Hr.
  apply result_bind_ok in Hr as ([bytes t] & Hr & Hu). cbn in Hu. destruct (utf8_error bytes); [done|]. injection Hu as <- <-.
  apply read_text_chunks_ok in Hr as (-> & -> & Hmax); [|done..].
  assert (Hfile : is_file_part spec f = false) by (unfold is_file_part; by rewrite Hfn).
  assert (Hskip : skipped spec f = false) by (unfold skipped; rewrite Hfn; by destruct spec).
  split; cbn [pr_map pr_files pr_fields pr_bytes]; rewrite ?List.filter_app, ?map_app, ?bytes_sum_app, ?zlen_app; cbn; rewrite ?Hfile, ?Hskip; cbn.
  - rewrite Hf. done.
  - intros _. change (zlen [f]) with 1. lia.
  - change (zlen (@nil Field)) with 0. lia.
  - done.
  - fold (part_bytes f). fold (part_len f). lia.
  - done.
  - apply Forall_app. split; [done|]. by constructor.
  - intros name'. rewrite List.filter_app, map_app, text_vec_push, Ht. cbn. replace (text_named name' f) with (bool_decide (name = name'))
      by (unfold text_named; apply bool_decide_ext; rewrite Hn, Hfn; naive_solver). by case_bool_decide.
  - intros name'. rewrite List.filter_app. cbn. replace (file_named spec name' f) with false by (unfold file_named; by rewrite Hfile, andb_false_r).
    rewrite app_nil_r. apply Hfv.
Qed.

Lemma parsed_file parts p f name p' :
  parsed parts p → pr_fields p + 1 ≤ up_max_fields conf → fd_name f = Some name → is_Some (fd_file_name f) → skipped spec f = false →
  declared_part spec f → parse_file conf f name (file_rule_of spec name) (pr_fields p + 1) p = Ok p' → parsed (parts ++ [f]) p'.
Proof.
  intros [Hf Hfm Hfl Hflm Hb Hbm Hd Ht Hfv] Hlim Hn Hfn Hskip Hdecl H. unfold parse_file in H.
  destruct (Z.ltb_spec (up_max_files conf) (pr_files p + 1)); [done|].
  apply result_bind_ok in H as ([file total] & Hr & H). injection H as <-.
  apply (read_file_field_ok _ Hconf) in Hr as (Hof & -> & Hmax); [|done].
  assert (Hfile : is_file_part spec f = true) by (unfold is_file_part; by rewrite bool_decide_true, Hskip).
  split; cbn [pr_map pr_files pr_fields pr_bytes]; rewrite ?List.filter_app, ?map_app, ?bytes_sum_app, ?zlen_app; cbn; rewrite ?Hfile, ?Hskip; cbn.
  - rewrite Hf. done.
  - intros _. change (zlen [f]) with 1. lia.
  - change (zlen [f]) with 1. lia.
  - done.
  - lia.
  - done.
  - apply Forall_app. split; [done|]. by constructor.
  - intros name'. rewrite List.filter_app, map_app, text_vec_push_file, Ht. cbn. rewrite text_named_file, app_nil_r by done. done.
  - intros name'. rewrite List.filter_app, files_of_push. cbn. replace (file_named spec name' f) with (bool_decide (name = name'))
      by (unfold file_named; rewrite Hfile, andb_true_r; apply bool_decide_ext; rewrite Hn; naive_solver).
    apply Forall2_app; [apply Hfv|]. case_bool_decide; [subst; constructor; [exact Hof|constructor]|constructor].
Qed.

Lemma parsed_skip parts p f :
  parsed parts p → pr_fields p + 1 ≤ up_max_fields conf → is_Some (fd_file_name f) → skipped spec f = true → declared_part spec f →
  parsed (parts ++ [f]) {| pr_map := pr_map p; pr_files := pr_files p; pr_fields := pr_fields p + 1; pr_bytes := pr_bytes p |}.
Proof.
  intros [Hf Hfm Hfl Hflm Hb Hbm Hd Ht Hfv] Hlim Hfn Hskip Hdecl.
  assert (Hfile : is_file_part spec f = false) by (unfold is_file_part; by rewrite Hskip, andb_false_r).
  split; cbn [pr_map pr_files pr_fields pr_bytes]; rewrite ?List.filter_app, ?map_app, ?bytes_sum_app, ?zlen_app; cbn; rewrite ?Hfile, ?Hskip; cbn;
    try done.
  - rewrite Hf. done.
  - intros _. change (zlen [f]) with 1. lia.
  - change (zlen (@nil Field)) with 0. lia.
  - lia.
  - apply Forall_app. split; [done|]. by constructor.
  - intros name'. rewrite List.filter_app, map_app, Ht. cbn. rewrite text_named_file, app_nil_r by done. done.
  - intros name'. rewrite List.filter_app. cbn. replace (file_named spec name' f) with false by (unfold file_named; by rewrite Hfile, andb_false_r).
    rewrite app_nil_r. apply Hfv.
Qed.

Lemma parsed_field parts p f p' : parsed parts p → parse_field conf spec f p = Ok p' → parsed (parts ++ [f]) p'.
Proof.
  intros Hp H. unfold parse_field in H. destruct (Z.ltb_spec (up_max_fields conf) (pr_fields p + 1)); [done|].
  apply result_bind_ok in H as (name & Hn & H). apply ok_or_ok in Hn.
  destruct spec as [s|] eqn:Hspec; destruct (fd_file_name f) as [file_name|] eqn:Hfn.
  - destruct (sp_files s !! name) as [rule|] eqn:Hrule; [|done].
    assert (Hd : declared_part (Some s) f) by (exists name; split; [done|]; intros s' [= <-]; rewrite Hfn; by eexists).
    destruct (is_empty_optional_file (Some file_name) rule) eqn:He.
    + injection H as <-. rewrite <- Hspec in *. apply parsed_skip; try done. unfold skipped. by rewrite Hspec, Hfn, Hn, Hrule.
    + rewrite <- Hspec in *. apply (parsed_file parts p f name); try done; [unfold skipped; by rewrite Hspec, Hfn, Hn, Hrule|].
      unfold file_rule_of. by rewrite Hspec, Hrule.
  - destruct (sp_text s !! name) as [rule|] eqn:Hrule; [|done]. eapply parsed_text; try done.
    exists name. split; [done|]. intros s' Hs'. rewrite Hfn. rewrite Hspec in Hs'. injection Hs' as <-. by eexists.
  - apply (parsed_file parts p f name); try done; [unfold skipped; by rewrite Hspec| |].
    + exists name. split; [done|]. intros s Hs. congruence.
    + unfold file_rule_of. by rewrite Hspec.
  - eapply parsed_text; try done. exists name. split; [done|]. intros s Hs. congruence.
Qed.

Lemma parsed_fields parts p fields p' :
  parsed parts p → parse_fields conf spec fields p = Ok p' → ∃ rest, fields = List.map Ok rest ∧ parsed (parts ++ rest) p'.
Proof.
  revert parts p. induction fields as [|f fields IH]; intros parts p Hp; cbn [parse_fields].
  - intros [= <-]. exists []. by rewrite app_nil_r.
  - destruct f as [f|]; [|done]. cbn [result_bind]. intros H. apply result_bind_ok in H as (p1 & H1 & H).
    eapply parsed_field in H1; [|exact Hp]. apply (IH (parts ++ [f])) in H as (rest & -> & H); [|done]. exists (f :: rest).
    by rewrite <- app_assoc in H.
Qed.
End Forms.


(** A form reads alike whether the handler allows unknown fields or not. *)
Theorem allow_unknown_is_ignored `{X : UploadExternals} conf s allow fields p :
  parse_fields conf (Some (sp_with_allow_unknown allow s)) fields p = parse_fields conf (Some s) fields p.
Proof.
  revert p. induction fields as [|f fields IH]; intros p; [done|]. cbn [parse_fields]. destruct f as [f|]; [|done]. cbn [result_bind].
  change (parse_field conf (Some (sp_with_allow_unknown allow s)) f p) with (parse_field conf (Some s) f p).
  destruct (parse_field conf (Some s) f p); cbn; [apply IH|done].
Qed.

(** *** Examples *)

Module DemoUploads.
#[export] Instance demo_uploads : UploadExternals :=
  {| infer_mime prefix := if String.prefix "PNG" prefix then Some "image/png"%string else None; utf8_error _ := None |}.
Definition avatar_rule : FileRule :=
  {| fl_required := true; fl_max_size := Some 64; fl_content_types := {["image/png"%string]}; fl_extensions := {["png"%string]};
     fl_sniff := Some SniffImage; fl_multiple := false |}.
Definition title_rule : FieldRule := {| tr_required := true; tr_max_length := Some 80; tr_max_bytes := None; tr_multiple := false |}.
Definition avatar_spec : MultipartSpec := sp_with_file "avatar" avatar_rule (sp_with_text "title" title_rule multipart_spec_new).
Definition text_part (name value : string) : Field :=
  {| fd_name := Some name; fd_file_name := None; fd_content_type := None; fd_chunks := [Ok value]; fd_spool _ := None |}.
Definition file_part (name file_name content_type : string) (chunks : list string) : Field :=
  {| fd_name := Some name; fd_file_name := Some file_name; fd_content_type := Some content_type;
     fd_chunks := List.map Ok chunks; fd_spool _ := None |}.
Definition small_conf : UploadConf :=
  {| up_dir := "uploads"; up_base_url := None; up_temp_dir := None; up_max_request_bytes := 512; up_max_file_bytes := 128;
     up_max_files := 20; up_max_fields := 100; up_memory_threshold := 4 |}.
Definition avatar_form : list (result MultipartError Field) :=
  [Ok (text_part "title" "Viv"); Ok (file_part "avatar" "me.PNG" "image/png" ["PNG"; "data"]%string)].
Definition avatar_map : MultipartMap :=
  {| mm_texts := {["title" := ["Viv"]]}%string;
     mm_files := {["avatar"%string := [{| uf_field := "avatar"; uf_name := Some "me.PNG"; uf_content_type := Some "image/png";
       uf_sniffed := Some "image/png"; uf_size := 7; uf_data := InTemp "PNGdata" |}]%string]} |}.

Example avatar_form_is_read : parse_multipart small_conf (Some avatar_spec) avatar_form = Ok avatar_map.
Proof. vm_compute. reflexivity. Qed.

(** The empty part of a file that was not chosen is a file if the field is required. *)
Example required_files_may_be_empty :
  let rule := {| fl_required := true; fl_max_size := None; fl_content_types := ∅; fl_extensions := ∅; fl_sniff := None; fl_multiple := false |} in
  match parse_multipart small_conf (Some (sp_with_file "document" rule multipart_spec_new))
          [Ok (file_part "document" "" "application/octet-stream" [])] with
  | Ok m => uf_size <$> files_of "document" m = [0]
  | Err _ => False
  end.
Proof. vm_compute. reflexivity. Qed.

Example unknown_fields_are_refused :
  parse_multipart small_conf (Some (sp_with_allow_unknown true multipart_spec_new)) [Ok (text_part "csrf" "token")] =
    Err (invalid_field "csrf" "Unknown multipart field.").
Proof. reflexivity. Qed.
End DemoUploads.

