(* ===== verification/FileStorage.v ===== *)
(** * File storage ([file_storage/*.rs])

    Paths are Unix paths and [std::path] is modelled on them. The file system
    is a tree of files and directories, looked up by location: links, a root
    that says [..] and operations that the system refuses for other reasons
    than the tree are not in it. *)
From S2P Require Import Prelude Externals ChannelTypes Credentials Uploads.
#[local] Open Scope Z_scope.

(** ** Paths *)

Inductive Component := RootDir | CurDir | ParentDir | Normal (name : string).
#[export] Instance Component_eq_dec : EqDecision Component.
Proof. solve_decision. Defined.
Definition is_absolute (path : string) : bool := match path with String c _ => Ascii.eqb c slash | EmptyString => false end.
(** Empty pieces and [.] vanish, but for a leading [.] of a relative path. *)
Definition piece_component (piece : string) : option Component :=
  if String.eqb piece "" || String.eqb piece "." then None
  else if String.eqb piece ".." then Some ParentDir else Some (Normal piece).
Definition components (path : string) : list Component :=
  let pieces := split_all slash path in
  if is_absolute path then RootDir :: omap piece_component pieces
  else match pieces with
       | first :: rest => if String.eqb first "." then CurDir :: omap piece_component rest else omap piece_component pieces
       | [] => []
       end.
Definition ends_in_slash (path : string) : bool :=
  match String.get (String.length path - 1) path with Some c => Ascii.eqb c slash | None => false end.
Definition path_join (root name : string) : string :=
  if is_absolute name then name
  else if String.eqb root "" || ends_in_slash root then root +:+ name else root +:+ String slash name.
(** [starts_with] compares components; collecting them in a path keeps them. *)
Fixpoint is_prefix (a b : list Component) : bool :=
  match a, b with
  | [], _ => true
  | x :: a, y :: b => bool_decide (x = y) && is_prefix a b
  | _ :: _, [] => false
  end.

(** ** Names *)

Inductive FileStorageError :=
  | InvalidName (name reason : string)
  | StorageNotConfigured
  | EscapesRoot (path : string)
  | StorageNotFound
  | StorageIo (reason : string).
Definition contains_byte (c : Ascii.ascii) (s : string) : bool := existsb (Ascii.eqb c) (String.list_ascii_of_string s).
Fixpoint validate_components (name : string) (l : list Component) : result FileStorageError unit :=
  match l with
  | [] => Ok tt
  | Normal part :: l =>
      if String.eqb part "" then Err (InvalidName name "contains invalid path components") else validate_components name l
  | CurDir :: l => validate_components name l
  | ParentDir :: _ => Err (InvalidName name "cannot contain '..'")
  | RootDir :: _ => Err (InvalidName name "contains invalid path components")
  end.
Definition validate_storage_name (name : string) : result FileStorageError unit :=
  if String.eqb name "" then Err (InvalidName name "cannot be empty")
  else if contains_byte (Ascii.ascii_of_nat 0) name then Err (InvalidName name "cannot contain NUL bytes")
  else if contains_byte (Ascii.ascii_of_nat 92) name then Err (InvalidName name "cannot contain backslashes")
  else if is_absolute name then Err (InvalidName name "must be relative")
  else validate_components name (components name).
(** A [StorageName] is a text that was accepted. *)
Definition storage_name_new (name : string) : result FileStorageError string :=
  let? _ := validate_storage_name name in Ok name.
Definition join_to (root name : string) : result FileStorageError string :=
  let path := path_join root name in
  if is_prefix (components root) (components path) then Ok path else Err (EscapesRoot path).

(** ** The file system *)

Inductive Node := File (bytes : string) | Dir.
#[export] Instance Node_eq_dec : EqDecision Node.
Proof. solve_decision. Defined.
Abbreviation Location := (list string) (only parsing).
Abbreviation Fs := (gmap (list string) Node) (only parsing).

Definition component_step (c : Component) : option string :=
  match c with RootDir => Some "/" | CurDir => None | ParentDir => Some ".." | Normal name => Some name end%string.
Definition location (path : string) : Location := omap component_step (components path).
(** The working directory and the root are always there. *)
Definition is_top (l : Location) : bool := bool_decide (l = []) || bool_decide (l = ["/"%string]).
Definition fs_get (l : Location) (fs : Fs) : option Node := if is_top l then Some Dir else fs !! l.

Fixpoint make_dirs (done : Location) (rest : Location) : M Fs FileStorageError unit :=
  match rest with
  | [] => retM tt
  | name :: rest =>
      do! node := getsM (fs_get (done ++ [name])) in
      match node with
      | Some (File _) => throwM (StorageIo "Not a directory")
      | Some Dir => make_dirs (done ++ [name]) rest
      | None => modifyM <[done ++ [name] := Dir]> ;! make_dirs (done ++ [name]) rest
      end
  end.
Definition create_dir_all (path : Location) : M Fs FileStorageError unit := make_dirs [] path.
(** A new or truncated file with the bytes; its directory must be there. *)
Definition write_file (l : Location) (bytes : string) : M Fs FileStorageError unit :=
  do! parent := getsM (fs_get (removelast l)) in
  do! node := getsM (fs_get l) in
  match parent, node with
  | _, Some Dir => throwM (StorageIo "Is a directory")
  | Some Dir, _ => modifyM <[l := File bytes]>
  | Some (File _), _ => throwM (StorageIo "Not a directory")
  | None, _ => throwM StorageNotFound
  end.
(** Whether a file is in the way of a location. *)
Fixpoint file_above (done rest : Location) (fs : Fs) : bool :=
  match rest with
  | name :: ((_ :: _) as rest) =>
      match fs_get (done ++ [name]) fs with Some (File _) => true | _ => file_above (done ++ [name]) rest fs end
  | _ => false
  end.
Definition open_file (l : Location) : M Fs FileStorageError Node :=
  do! fs := getM in
  if file_above [] l fs then throwM (StorageIo "Not a directory") else liftR (ok_or (fs_get l fs) StorageNotFound).
Definition remove_file (l : Location) : M Fs FileStorageError unit :=
  do! node := open_file l in
  match node with File _ => modifyM (delete l) | Dir => throwM (StorageIo "Is a directory") end.

(** ** Local storage *)

Record SavedFile := { sv_name : string; sv_path : string; sv_url : option string }.
Record LocalStorage := { ls_root : string; ls_base_url : option string }.
Definition storage_from_conf (project_dir : string) (conf : UploadConf) : LocalStorage :=
  {| ls_root := path_join project_dir (up_dir conf); ls_base_url := up_base_url conf |}.
Fixpoint trim_slashes (s : string) : string :=
  match s with
  | EmptyString => EmptyString
  | String c rest =>
      match trim_slashes rest with
      | EmptyString => if Ascii.eqb c slash then EmptyString else String c EmptyString
      | rest => String c rest
      end
  end.

Section Storage.
(** [utf8_percent_encode] of [NON_ALPHANUMERIC], of [percent_encoding]. *)
Context `{X : Externals} (percent_encode : string → string).

Definition storage_url (base_url : option string) (name : string) : option string :=
  (λ base, trim_slashes base +:+ "/" +:+ percent_encode name) <$> base_url.
Definition saved_file_new (name path : string) (base_url : option string) : SavedFile :=
  {| sv_name := name; sv_path := path; sv_url := storage_url base_url name |}.
Definition name_extension (f : UploadedFile) : string :=
  match uf_name f ≫= after_last_dot with
  | Some extension =>
      if negb (String.eqb extension "") && all_bytes id_byte extension then "." +:+ to_ascii_lowercase extension else ""
  | None => ""
  end.
(** [Uuid::now_v7] gives its next value. *)
Definition generated_name (next : nat) (f : UploadedFile) : result FileStorageError string :=
  storage_name_new (uuid_display (uuid_now_v7 next) +:+ name_extension f).

Definition copy_uploaded_file (s : LocalStorage) (f : UploadedFile) (name : string) : M Fs FileStorageError SavedFile :=
  create_dir_all (location (ls_root s)) ;!
  do! path := liftR (join_to (ls_root s) name) in
  create_dir_all (removelast (location path)) ;!
  write_file (location path) (data_bytes (uf_data f)) ;!
  retM (saved_file_new name path (ls_base_url s)).
Definition storage_save_as (s : LocalStorage) (f : UploadedFile) (name : string) : M Fs FileStorageError SavedFile :=
  copy_uploaded_file s f name.
Definition storage_save (next : nat) (s : LocalStorage) (f : UploadedFile) : M Fs FileStorageError SavedFile :=
  do! name := liftR (generated_name next f) in copy_uploaded_file s f name.
Definition storage_open (s : LocalStorage) (name : string) : M Fs FileStorageError Node :=
  do! path := liftR (join_to (ls_root s) name) in open_file (location path).
Definition storage_delete (s : LocalStorage) (name : string) : M Fs FileStorageError unit :=
  do! path := liftR (join_to (ls_root s) name) in
  λ fs, match remove_file (location path) fs with
        | (Err StorageNotFound, fs) => (Ok tt, fs)
        | answer => answer
        end.
End Storage.

(** ** Paths under a root *)

Definition kept_piece (piece : string) : bool := negb (String.eqb piece "" || String.eqb piece ".").

Lemma split_all_cons sep c rest :
  split_all sep (String c rest) =
    if Ascii.eqb c sep then EmptyString :: split_all sep rest
    else match split_all sep rest with a :: l => String c a :: l | [] => [String c EmptyString] end.
Proof. done. Qed.
Lemma split_all_nonempty c s : split_all c s ≠ [].
Proof. destruct s; [done|]. rewrite split_all_cons. case_match; [done|]. by case_match. Qed.
Lemma split_all_app c a b : split_all c (a +:+ String c b) = split_all c a ++ split_all c b.
Proof.
  induction a as [|x a IH].
  - change (EmptyString +:+ String c b) with (String c b). by rewrite split_all_cons, Ascii.eqb_refl.
  - rewrite string_app_cons, !split_all_cons, IH. destruct (Ascii.eqb x c); [done|].
    destruct (split_all c a) eqn:Hs; [by apply split_all_nonempty in Hs|done].
Qed.
Lemma split_all_no_sep c s piece : piece ∈ split_all c s → contains_byte c piece = false.
Proof.
  revert piece. induction s as [|x s IH]; intros piece; [by intros ->%list_elem_of_singleton|]. rewrite split_all_cons.
  destruct (Ascii.eqb_spec x c) as [->|Hx].
  - intros [->|Hin]%elem_of_cons; [done|by apply IH].
  - destruct (split_all c s) as [|h t] eqn:Hs; [by apply split_all_nonempty in Hs|].
    intros [->|Hin]%elem_of_cons; [|apply IH; by right].
    unfold contains_byte. cbn. rewrite (proj2 (Ascii.eqb_neq c x)) by congruence. apply (IH h). by left.
Qed.

Definition piece_step (piece : string) : option string := piece_component piece ≫= component_step.
Lemma piece_step_kept piece : piece_step piece = if kept_piece piece then Some piece else None.
Proof.
  unfold piece_step, piece_component, kept_piece. destruct (String.eqb piece "" || String.eqb piece "."); [done|]. cbn.
  by destruct (String.eqb_spec piece "..") as [->|].
Qed.
Lemma omap_pieces l : omap component_step (omap piece_component l) = List.filter kept_piece l.
Proof.
  induction l as [|piece l IH]; [done|]. cbn. pose proof (piece_step_kept piece) as Hp. unfold piece_step in Hp.
  destruct (piece_component piece) as [c|]; cbn in Hp |- *.
  - rewrite Hp, IH. by destruct (kept_piece piece).
  - by destruct (kept_piece piece).
Qed.

(** The location of a path is its pieces that name something. *)
Lemma location_pieces path :
  location path = (if is_absolute path then ["/"%string] else []) ++ List.filter kept_piece (split_all slash path).
Proof.
  unfold location, components. destruct (is_absolute path); cbn; [by rewrite omap_pieces|].
  destruct (split_all slash path) as [|first rest]; [done|]. destruct (String.eqb_spec first ".") as [->|].
  - cbn. by rewrite omap_pieces.
  - by rewrite omap_pieces.
Qed.

Lemma ends_in_slash_split path : ends_in_slash path = true → ∃ a, path = a +:+ String slash "".
Proof.
  unfold ends_in_slash. induction path as [|x path IH]; cbn [String.length Nat.sub]; [done|]. rewrite Nat.sub_0_r.
  destruct path as [|y path].
  - cbn. intros ->%Ascii.eqb_eq. by exists EmptyString.
  - intros H. destruct IH as [a Ha]; [cbn [String.length Nat.sub]; by rewrite Nat.sub_0_r|].
    exists (String x a). by rewrite Ha.
Qed.

(** A path below a root is the root's text, a slash and the name. *)
Lemma path_join_split root name :
  root ≠ EmptyString → is_absolute name = false →
  ∃ a, path_join root name = a +:+ String slash name ∧ (root = a ∨ root = a +:+ String slash "").
Proof.
  intros Hr Hn. unfold path_join. rewrite Hn. rewrite (proj2 (String.eqb_neq root "")) by done. cbn [orb].
  destruct (ends_in_slash root) eqn:He.
  - apply ends_in_slash_split in He as [a ->]. exists a. split; [|by right]. by rewrite <- string_app_assoc.
  - exists root. split; [done|]. by left.
Qed.
Lemma is_absolute_app a b : is_absolute (a +:+ b) = match a with EmptyString => is_absolute b | _ => is_absolute a end.
Proof. by destruct a. Qed.

Lemma components_join root name :
  root ≠ EmptyString → is_absolute name = false →
  components (path_join root name) = components root ++ omap piece_component (split_all slash name).
Proof.
  intros Hr Hn. destruct (path_join_split root name Hr Hn) as (a & -> & Ha). unfold components.
  rewrite split_all_app, is_absolute_app.
  assert (Habs : is_absolute root = match a with EmptyString => true | _ => is_absolute a end).
  { destruct Ha as [->| ->]; [by destruct a|]. rewrite is_absolute_app. by destruct a. }
  assert (Hpieces : split_all slash root = split_all slash a ∨ split_all slash root = split_all slash a ++ [EmptyString]).
  { destruct Ha as [->| ->]; [by left|]. right. by rewrite split_all_app. }
  replace (match a with EmptyString => is_absolute (String slash name) | _ => is_absolute a end) with (is_absolute root) by (by rewrite Habs; destruct a).
  destruct (split_all slash a) as [|first rest] eqn:Hs; [by apply split_all_nonempty in Hs|].
  destruct (is_absolute root); destruct Hpieces as [->| ->]; cbn [app];
    rewrite ?app_comm_cons, ?omap_app, ?app_nil_r; try done; destruct (String.eqb first "."); cbn; rewrite ?omap_app; cbn;
    rewrite ?app_nil_r; try done; by destruct (piece_component first).
Qed.

Lemma location_join root name : is_absolute name = false → location (path_join root name) = location root ++ location name.
Proof.
  intros Hn. destruct (decide (root = EmptyString)) as [->|Hr].
  - unfold path_join. by rewrite Hn.
  - unfold location at 1. rewrite components_join, omap_app, omap_pieces by done. f_equal.
    by rewrite (location_pieces name), Hn.
Qed.

Lemma is_prefix_app a b : is_prefix a (a ++ b) = true.
Proof. induction a as [|x a IH]; [done|]. cbn. by rewrite bool_decide_true, IH. Qed.
(** A relative name is never refused for its root. *)
Lemma join_to_ok root name : is_absolute name = false → join_to root name = Ok (path_join root name).
Proof.
  intros Hn. unfold join_to. destruct (decide (root = EmptyString)) as [->|Hr]; [done|].
  by rewrite components_join, is_prefix_app by done.
Qed.

Lemma validate_components_parent name l : validate_components name l = Ok tt → ParentDir ∉ l.
Proof. induction l as [|[| | |part] l IH]; cbn; try done; [set_solver|set_solver|]. case_match; [done|]. set_solver. Qed.
Lemma storage_name_ok name name' :
  storage_name_new name = Ok name' →
  name' = name ∧ is_absolute name = false ∧ Forall (λ p, p ≠ "" ∧ p ≠ "." ∧ p ≠ ".." ∧ p ≠ "/")%string (location name).
Proof.
  unfold storage_name_new. intros H. apply result_bind_ok in H as ([] & H & [= <-]). split; [done|].
  unfold validate_storage_name in H. repeat (case_match; [done|]). rename select (is_absolute name = false) into Hn.
  split; [done|]. apply validate_components_parent in H.
  rewrite location_pieces, Hn. cbn [app]. apply Forall_forall. intros p [Hin Hk]%list_elem_of_In%filter_In.
  assert (Hs : contains_byte slash p = false) by (apply (split_all_no_sep slash name); by apply list_elem_of_In).
  unfold kept_piece in Hk. apply negb_true_iff, orb_false_iff in Hk as [Hp1%String.eqb_neq Hp2%String.eqb_neq].
  split_and!; [done|done| |by intros ->]. intros ->. apply H. unfold components. rewrite Hn.
  destruct (split_all slash name) as [|first rest]; [done|]. destruct (String.eqb_spec first ".") as [->|].
  - destruct Hin as [|Hin]; [done|]. right. apply list_elem_of_omap. exists ".."%string. split; [by apply list_elem_of_In|done].
  - apply list_elem_of_omap. exists ".."%string. split; [by apply list_elem_of_In|done].
Qed.

(** ** Directories *)

(** Every proper ancestor of a location, and the location itself, is a directory. *)
Definition dirs_to (done rest : Location) (fs : Fs) : Prop :=
  ∀ p n q, rest = p ++ n :: q → fs_get (done ++ p ++ [n]) fs = Some Dir.
(** Nothing but new directories on the way. *)
Definition only_dirs (path : Location) (fs fs' : Fs) : Prop :=
  ∀ l, fs' !! l = fs !! l ∨ (fs !! l = None ∧ fs' !! l = Some Dir ∧ l `prefix_of` path).

Lemma only_dirs_get path fs fs' l : only_dirs path fs fs' → fs_get l fs = Some Dir → fs_get l fs' = Some Dir.
Proof. unfold fs_get. intros H. destruct (is_top l); [done|]. destruct (H l) as [->|(-> & _)]; [done|discriminate]. Qed.
Lemma only_dirs_trans path path' fs fs1 fs2 :
  only_dirs path fs fs1 → only_dirs path' fs1 fs2 → path `prefix_of` path' → only_dirs path' fs fs2.
Proof.
  intros H1 H2 Hp l. destruct (H1 l) as [E1|(E1 & E1' & Hl)], (H2 l) as [E2|(E2 & E2' & Hl')]; rewrite ?E2, ?E1, ?E1'; auto.
  - right. split_and!; [congruence|done|done].
  - right. split_and!; [done|done|by etrans].
Qed.

Lemma make_dirs_ok rest done_ fs u fs' :
  make_dirs done_ rest fs = (Ok u, fs') → dirs_to done_ rest fs' ∧ only_dirs (done_ ++ rest) fs fs'.
Proof.
  revert done_ fs. induction rest as [|name rest IH]; intros done_ fs; cbn [make_dirs].
  - intros [= _ <-]. split; [by intros [|? ?] n q|by left].
  - intros H. apply bindM_ok in H as (node & fs0 & Hg & H). injection Hg as <- <-.
    assert (Hstep : ∀ fs1, fs_get (done_ ++ [name]) fs1 = Some Dir → only_dirs (done_ ++ name :: rest) fs fs1 →
      make_dirs (done_ ++ [name]) rest fs1 = (Ok u, fs') → dirs_to done_ (name :: rest) fs' ∧ only_dirs (done_ ++ name :: rest) fs fs').
    { intros fs1 Hd Ho Hm. apply IH in Hm as [Hdirs Ho']. rewrite <- app_assoc in Ho'. cbn [app] in Ho'. split.
      - intros [|x p] n q [= -> Hq]; [by eapply only_dirs_get|]. rewrite <- (Hdirs p n q Hq). f_equal. by rewrite <- app_assoc.
      - by eapply only_dirs_trans. }
    destruct (fs_get (done_ ++ [name]) fs) as [[bytes|]|] eqn:Hg; [done| |].
    + apply (Hstep fs); [done|by left|done].
    + apply bindM_ok in H as ([] & fs1 & Hm & H). injection Hm as <-. unfold fs_get in Hg.
      destruct (is_top (done_ ++ [name])) eqn:Htop; [done|]. apply (Hstep (<[done_ ++ [name] := Dir]> fs)); [| |exact H].
      * unfold fs_get. by rewrite Htop, lookup_insert_eq.
      * intros l. destruct (decide (l = done_ ++ [name])) as [->|Hl]; [|left; by rewrite lookup_insert_ne].
        right. rewrite lookup_insert_eq. split_and!; [done|done|]. exists rest. by rewrite <- app_assoc.
Qed.

Lemma write_file_ok l bytes fs u fs' :
  write_file l bytes fs = (Ok u, fs') → fs' = <[l := File bytes]> fs ∧ fs_get l fs ≠ Some Dir.
Proof.
  unfold write_file. intros H. apply bindM_ok in H as (parent & fs0 & Hg & H). injection Hg as <- <-.
  apply bindM_ok in H as (node & fs0 & Hg & H). injection Hg as <- <-.
  destruct (fs_get (removelast l) fs) as [[]|], (fs_get l fs) as [[]|]; try discriminate H; by injection H as <-.
Qed.

Lemma file_above_none done_ rest fs :
  (∀ p n q, rest = p ++ n :: q → q ≠ [] → fs_get (done_ ++ p ++ [n]) fs = Some Dir) → file_above done_ rest fs = false.
Proof.
  revert done_. induction rest as [|name rest IH]; intros done_ H; [done|]. destruct rest as [|name' rest]; [done|].
  change (file_above done_ (name :: name' :: rest) fs) with
    (match fs_get (done_ ++ [name]) fs with Some (File _) => true | _ => file_above (done_ ++ [name]) (name' :: rest) fs end).
  rewrite (H [] name (name' :: rest) eq_refl ltac:(done) : fs_get (done_ ++ [name]) fs = Some Dir).
  apply IH. intros p n q Hq Hne. rewrite <- (H (name :: p) n q); [|by cbn; f_equal|done].
  f_equal. by rewrite <- app_assoc.
Qed.

Lemma removelast_snoc {A} (l : list A) x : removelast (l ++ [x]) = l.
Proof. by rewrite removelast_last. Qed.

Lemma fs_get_insert_ne l l' n fs : l ≠ l' → fs_get l (<[l' := n]> fs) = fs_get l fs.
Proof. intros Hl. unfold fs_get. by rewrite lookup_insert_ne. Qed.

Lemma file_above_ext done_ rest fs fs' :
  (∀ p n q, rest = p ++ n :: q → q ≠ [] → fs_get (done_ ++ p ++ [n]) fs = fs_get (done_ ++ p ++ [n]) fs') →
  file_above done_ rest fs = file_above done_ rest fs'.
Proof.
  revert done_. induction rest as [|name rest IH]; intros done_ H; [done|]. destruct rest as [|name' rest]; [done|].
  cbn [file_above]. pose proof (H [] name (name' :: rest) eq_refl ltac:(done)) as Hd. cbn [app] in Hd. rewrite Hd.
  destruct (fs_get (done_ ++ [name]) fs') as [[]|]; [done| |]; apply IH; intros p n q Hq Hne;
    rewrite <- !app_assoc; apply (H (name :: p) n q); [cbn; by f_equal|done|cbn; by f_equal|done].
Qed.

(** A file in a directory that is there can be opened. *)
Lemma open_new_file path z bytes fs :
  dirs_to [] path fs → is_top (path ++ [z]) = false →
  open_file (path ++ [z]) (<[path ++ [z] := File bytes]> fs) = (Ok (File bytes), <[path ++ [z] := File bytes]> fs).
Proof.
  intros Hd Htop. unfold open_file, bindM, getM. rewrite file_above_none.
  - unfold liftR, fs_get. by rewrite Htop, lookup_insert_eq.
  - intros p n q Hq Hne. cbn [app]. destruct q as [|z' q _] using rev_ind; [done|].
    rewrite app_comm_cons, app_assoc in Hq. apply app_inj_tail in Hq as [Hq _].
    rewrite fs_get_insert_ne; [by apply (Hd p n q)|]. intros Heq. rewrite Hq in Heq.
    apply (f_equal (@List.length string)) in Heq. rewrite !length_app in Heq. cbn in Heq. lia.
Qed.

(** ** Stored files *)

Section Stored.
Context `{X : Externals} (percent_encode : string → string).

(** C31: an upload saved under an accepted name is read back with its bytes, from
    a file strictly below the root whose way there never goes up; no other file
    is changed, and only directories on that way are made. *)
Theorem stored_uploads_are_read_back s f text name saved fs fs' :
  storage_name_new text = Ok name → storage_save_as percent_encode s f name fs = (Ok saved, fs') →
  ∃ below, location (sv_path saved) = location (ls_root s) ++ below ∧ below ≠ [] ∧
    Forall (λ p, p ≠ "" ∧ p ≠ "." ∧ p ≠ ".." ∧ p ≠ "/")%string below ∧
    storage_open s name fs' = (Ok (File (data_bytes (uf_data f))), fs') ∧
    ∀ l, l ≠ location (sv_path saved) →
      fs' !! l = fs !! l ∨ (fs !! l = None ∧ fs' !! l = Some Dir ∧ l `prefix_of` location (sv_path saved)).
Proof.
  intros Hn H. apply storage_name_ok in Hn as (-> & Habs & Hbelow). unfold storage_save_as, copy_uploaded_file in H.
  apply bindM_ok in H as ([] & fs1 & H1 & H). rewrite (join_to_ok _ _ Habs) in H.
  apply bindM_ok in H as (path & fs1' & Hp & H). injection Hp as <- <-.
  apply bindM_ok in H as ([] & fs2 & H2 & H). apply bindM_ok in H as ([] & fs3 & H3 & H). injection H as <- <-.
  cbn [sv_path saved_file_new]. rewrite location_join in H2, H3 |- * by done.
  apply make_dirs_ok in H1 as [Hd1 Ho1]. apply make_dirs_ok in H2 as [Hd2 Ho2]. apply write_file_ok in H3 as [-> Hnd].
  cbn [app] in Ho1, Ho2. set (root := location (ls_root s)) in *. set (below := location text) in *.
  assert (Hne : below ≠ []).
  { intros Hb. rewrite Hb, app_nil_r in Hnd. apply Hnd. eapply only_dirs_get; [exact Ho2|].
    destruct root as [|x root _] using rev_ind; [done|]. by apply (Hd1 root x []). }
  destruct below as [|z below' _] eqn:Hbe using rev_ind; [done|]. rewrite app_assoc, removelast_snoc in *.
  exists (below' ++ [z]). rewrite app_assoc. split_and!; [done|by destruct below'|done| |].
  - unfold storage_open. rewrite (join_to_ok _ _ Habs). unfold bindM, liftR. rewrite location_join by done.
    fold root below. rewrite Hbe, app_assoc. apply open_new_file; [exact Hd2|]. unfold is_top. rewrite !bool_decide_false; [done|..].
    + intros Ht. change ["/"%string] with ([] ++ ["/"%string]) in Ht. apply app_inj_tail in Ht as [_ ->].
      apply Forall_app in Hbelow as [_ Hz]. apply Forall_inv in Hz. naive_solver.
    + by destruct (root ++ below').
  - intros l Hl. rewrite lookup_insert_ne by done.
    destruct (only_dirs_trans _ _ _ _ _ Ho1 Ho2 (prefix_app_r _ _ _ ltac:(done)) l) as [?|(? & ? & ?)]; [by left|right].
    split_and!; [done|done|]. by apply prefix_app_r.
Qed.

(** A deleted upload is not found, nor is one that never was. *)
Theorem deleted_uploads_are_gone s name fs u fs' :
  storage_delete s name fs = (Ok u, fs') → (storage_open s name fs').1 = Err StorageNotFound.
Proof.
  unfold storage_delete, storage_open. destruct (join_to (ls_root s) name) as [path|e]; [|done]. unfold bindM, liftR.
  set (l := location path). unfold remove_file, open_file, bindM, getM. destruct (file_above [] l fs) eqn:Ha; [done|].
  unfold liftR. destruct (fs_get l fs) as [[bytes|]|] eqn:Hg; cbn; [|done|].
  - intros [= _ <-]. unfold fs_get in Hg. destruct (is_top l) eqn:Htop; [done|].
    rewrite (file_above_ext _ _ _ fs), Ha; [unfold fs_get; by rewrite Htop, lookup_delete_eq|].
    intros p n q Hq Hne. unfold fs_get. rewrite lookup_delete_ne; [done|]. intros Heq. rewrite Hq in Heq.
    apply (f_equal (@List.length string)) in Heq. rewrite !length_app in Heq. cbn in Heq. destruct q; [done|cbn in Heq; lia].
  - intros [= _ <-]. by rewrite Ha, Hg.
Qed.

(** ** Generated names *)

Context {L : ExternalLaws X} (Htext : ∀ u, all_bytes id_byte (uuid_display u) = true).

Definition name_byte (c : Ascii.ascii) : bool := id_byte c || (byte c =? 46)%nat.
Lemma id_byte_lower c : id_byte c = true → id_byte (ascii_lower c) = true.
Proof. by destruct c as [[] [] [] [] [] [] [] []]. Qed.
Lemma all_bytes_lower s : all_bytes id_byte s = true → all_bytes id_byte (to_ascii_lowercase s) = true.
Proof.
  unfold all_bytes. induction s as [|c s IH]; [done|]. cbn [String.list_ascii_of_string forallb to_ascii_lowercase].
  intros [Hc Hs]%andb_prop. by rewrite id_byte_lower, IH.
Qed.
Lemma all_bytes_app p a b : all_bytes p (a +:+ b) = all_bytes p a && all_bytes p b.
Proof.
  unfold all_bytes. induction a as [|c a IH]; [done|]. rewrite string_app_cons. cbn [String.list_ascii_of_string forallb].
  by rewrite IH, andb_assoc.
Qed.
Lemma all_bytes_weaken (p q : Ascii.ascii → bool) s : (∀ c, p c = true → q c = true) → all_bytes p s = true → all_bytes q s = true.
Proof. unfold all_bytes. rewrite !forallb_forall. auto. Qed.
Lemma contains_byte_not c p s : all_bytes p s = true → p c = false → contains_byte c s = false.
Proof.
  unfold all_bytes, contains_byte. rewrite forallb_forall. intros Hp Hc. apply not_true_is_false. intros (x & Hx & He)%existsb_exists.
  apply Ascii.eqb_eq in He as <-. apply Hp in Hx. congruence.
Qed.
Lemma split_all_single c s : contains_byte c s = false → split_all c s = [s].
Proof.
  induction s as [|x s IH]; [done|]. unfold contains_byte. cbn [String.list_ascii_of_string existsb]. intros [Hx Hs]%orb_false_iff.
  rewrite split_all_cons, (IH Hs). rewrite Ascii.eqb_sym, Hx. done.
Qed.

Lemma generated_bytes next f : all_bytes name_byte (uuid_display (uuid_now_v7 next) +:+ name_extension f) = true.
Proof.
  rewrite all_bytes_app. apply andb_true_intro. split.
  - apply (all_bytes_weaken id_byte); [|done]. intros c Hc. unfold name_byte. by rewrite Hc.
  - unfold name_extension. destruct (uf_name f ≫= after_last_dot) as [e|]; [|done].
    destruct (negb (String.eqb e "") && all_bytes id_byte e) eqn:He; [|done]. apply andb_prop in He as [_ He].
    rewrite all_bytes_app. apply andb_true_intro. split; [done|].
    apply (all_bytes_weaken id_byte), all_bytes_lower; [|done]. intros c Hc. unfold name_byte. by rewrite Hc.
Qed.

(** Every upload gets a name, which is one piece, and no two the same. *)
Lemma generated_name_ok next f :
  let name := uuid_display (uuid_now_v7 next) +:+ name_extension f in
  generated_name next f = Ok name ∧ location name = [name].
Proof.
  intros name. pose proof (generated_bytes next f) as Hb. fold name in Hb.
  assert (Hs : contains_byte slash name = false) by (by eapply contains_byte_not).
  assert (Hlen : 36 ≤ str_len name) by (unfold name; rewrite str_len_app, uuid_display_len; pose proof (str_len_nonneg (name_extension f)); lia).
  assert (Hshort : ∀ s, str_len s < 36 → String.eqb name s = false) by (intros s Hl; apply String.eqb_neq; intros ->; lia).
  assert (Habs : is_absolute name = false).
  { destruct name as [|c name]; [done|]. unfold contains_byte in Hs. cbn in Hs |- *. apply orb_false_iff in Hs as [Hs _]. by rewrite Ascii.eqb_sym. }
  split.
  - unfold generated_name, storage_name_new, validate_storage_name. fold name. rewrite (Hshort ""%string), Habs by done.
    rewrite !(contains_byte_not _ name_byte name) by done. unfold components. rewrite Habs, (split_all_single _ _ Hs).
    rewrite (Hshort "."%string) by done. cbn. unfold piece_component. rewrite (Hshort ""%string), (Hshort "."%string), (Hshort ".."%string) by done.
    cbn. by rewrite (Hshort ""%string).
  - rewrite location_pieces, Habs, (split_all_single _ _ Hs). cbn. unfold kept_piece.
    by rewrite (Hshort ""%string), (Hshort "."%string).
Qed.
Theorem generated_names_are_new m n f g a b :
  Z.of_nat m ≤ U64_MAX → Z.of_nat n ≤ U64_MAX →
  generated_name m f = Ok a → generated_name n g = Ok b → location a = location b → m = n.
Proof.
  intros Hm Hn Ha Hb Hl. destruct (generated_name_ok m f) as [Ha' Hla], (generated_name_ok n g) as [Hb' Hlb].
  rewrite Ha in Ha'. rewrite Hb in Hb'. injection Ha' as ->. injection Hb' as ->. rewrite Hla, Hlb in Hl. injection Hl as Hl.
  apply string_app_inv_length in Hl as [Hl _].
  - apply uuid_display_inj in Hl; [|apply uuid_now_v7_uuid..]. by apply uuid_now_v7_fresh in Hl.
  - pose proof (uuid_display_len (uuid_now_v7 m)). pose proof (uuid_display_len (uuid_now_v7 n)). unfold str_len in *. lia.
Qed.
End Stored.

Definition demo_storage : LocalStorage := {| ls_root := "/srv/site/uploads"; ls_base_url := Some "/uploads/"%string |}.
Definition demo_upload : UploadedFile :=
  {| uf_field := "avatar"; uf_name := Some "me.PNG"%string; uf_content_type := None; uf_sniffed := None; uf_size := 7;
     uf_data := InTemp "PNGdata" |}.
Lemma stored_uploads_are_read_back_witness :
  let fs := (storage_save_as (λ s, s) demo_storage demo_upload "users/./7.png" ∅).2 in
  storage_open demo_storage "users/./7.png" fs = (Ok (File "PNGdata"), fs) ∧
  fs !! ["/"; "srv"; "site"; "uploads"; "users"; "7.png"]%string = Some (File "PNGdata").
Proof.
  cbn zeta. split; [|vm_compute; reflexivity].
  destruct (stored_uploads_are_read_back (λ s, s) demo_storage demo_upload "users/./7.png" "users/./7.png"
    {| sv_name := "users/./7.png"; sv_path := "/srv/site/uploads/users/./7.png"; sv_url := Some "/uploads/users/./7.png"%string |}
    ∅ (storage_save_as (λ s, s) demo_storage demo_upload "users/./7.png" ∅).2) as (below & _ & _ & _ & H & _).
  - reflexivity.
  - rewrite (surjective_pairing (storage_save_as _ _ _ _ _)) at 1. apply (f_equal (λ r, (r, _))). vm_compute. reflexivity.
  - exact H.
Defined.
